(* ===== verification/_CoqProject ===== *)
-Q . S2P
Prelude.v
GoLib.v
GoHeap.v
Bolt.v
Sha256.v
NegCodec.v
NegReconcile.v
NegOrder.v
NegSession.v
HuddleWire.v
HuddleRoom.v
HuddleRoomInv.v
HuddleFanout.v
HuddleManager.v
NostrUtils.v
Pow.v
Event.v
Filter.v
Latest.v
StoreDb.v
StoreInv.v
StoreScan.v
StoreMerge.v
StoreExact.v
StoreQuery.v
StoreEvents.v
StoreLife.v
StoreBatch.v
StoreProps.v
StoreDemo.v
StoreTail.v
StoreCounters.v
StoreCountInv.v
StoreBackfill.v
StoreCountProps.v
Nip44.v
Nip98.v
Nip19.v
GroupsForest.v
Nip29.v
Nip29Props.v
GroupStore.v
Groups.v
GroupsInv.v
GroupsStep.v
GroupsWf.v
GroupsAuth.v
GroupsView.v
GroupsTotal.v
GroupsProps.v
GroupsDemo.v
Nip43.v
AgentAuth.v
Membership.v
MembershipProps.v
RelaySession.v
RelayPacket.v
RelayNeg.v
RelayLive.v
RelayHttp.v
RelayProps.v
RelayDemo.v
CashCall.v
CashWithdraw.v
CashWithdrawProps.v
CashPayout.v
CashRecover.v
CashOnce.v
CashDemo.v
CashBatch.v
CashBatchProps.v
PocketEntry.v
PocketState.v
PocketResolve.v
PocketWrites.v
OrderTerms.v
Nip59.v
PocketSync.v
PocketSyncProps.v
PocketDemo.v
