(* ===== verification/Prelude.v ===== *)
(** * nmilat: a verification development

    nmilat is a Go library and relay for the Nostr protocol.  Its packages are
    named after the protocol's documents (nip01, nip13, nip77, ...); beside
    them stand the relay, its client, a search package and the huddle audio
    service.  This development models the packages that carry the protocol's
    own logic and proves what makes each of them correct.

    ** How the parts interact

    An event (nip01) is a signed record whose id is the SHA-256 of a canonical
    JSON array (utils).  nip13 searches a nonce tag that gives the id a number
    of leading zero bits, hashing with a forked SHA-256 that lets it keep the
    state of the common prefix.  The relay keeps events in an embedded key/value
    database under several indexes (relay/store.go), with counters beside them
    (relay/store_counters.go); writes go through batches of tasks.  Filters
    (nip01/filters.go) say which stored events answer a subscription: a query
    plans cursors over one index, merges them newest first, and then follows
    what arrives.  nip01/latest.go says which version of a replaceable event
    wins, which the store enforces as it writes.  A client reaches the store
    through a session: it proves its keys by AUTH events (nip42), perhaps with an
    owner's credential (nipOA, nipAA), publishes by EVENT, reads by REQ and COUNT,
    and compares event sets by NEG-OPEN (nip77).  The relay decides what passes:
    who is a member (nip43, relay/membership*.go), what the groups it hosts
    allow (nip29, relay/groups*.go), what is protected (nip70).  Join and leave
    requests and moderation events are not stored but change the members and the
    groups, whose state the relay publishes as events signed by itself; a change
    of the members reaches every live connection.  The HTTP bridge offers the
    same store to requests that carry a signed event.
    nip98 carries a signed event in an HTTP header as a login, nip44 encrypts
    a message between two keys, nip19 prints keys and pointers.  The huddle
    service admits logged-in peers to rooms and relays their audio frames.

    nipcash pays between wallets and Hubs over relays.  A value-moving call
    carries a request id and a deadline; a Hub keeps a record of what it committed
    and answers look-ups from it (clock.go, lookup_decision.go); a client that lost
    an answer looks its call up and may place it again under an id derived from
    the first (client/recover.go).  An on-chain withdrawal is quoted, paid and
    receipted by events the Hub signs (withdraw_quote.go, withdraw_receipt.go).
    nipCP keeps the user's bills and open calls as entries, each an unsigned event
    sealed and gift-wrapped to the user himself (nip59 over nip44), on a few
    relays; a device syncs the wraps, resolves the entries by version, and writes
    a call ahead there before it sends it.

    ** Files

    - [Prelude]: machine integers as [Z] kept in range by [wrap], bytes and
      strings, the [outcome] of a Go call (value, error or panic), tactics,
      hint databases, list and arithmetic lemmas.
    - [GoLib], [GoHeap]: the parts of Go's standard library the
      packages call (hex, decimal, big-endian integers, sort.Search, string
      comparison, white-space trimming, container/heap, base64), as executable
      functions with their laws.
    - [Bolt]: the embedded database bbolt as a class of operations with its
      documented laws, cursors' walks over a bucket, a finite-map instance.
    - [Sha256]: nip13/sha256 (sha256.go, sha256block.go).  The digest record
      has the source's fields; Write, checkSum, Sum, Compress and the block
      function are definitions.  The reference is an independent transcription
      of the FIPS 180-4 pre-processing and hash computation.
    - [NegCodec]: nip77/encoding.go and the data types of nip77/negentropy.go.
    - [NegReconcile]: nip77/reconcile.go, Compare, fingerprints and Initiate.
      The response under construction and the loop's variables are explicit.
    - [NegOrder], [NegSession]: the theorems on the two files above.
    - [HuddleWire]: huddle/wire/wire.go.
    - [HuddleRoom]: huddle/room/room.go and sink.go.  The room is a record of
      maps; sinks live in a store behind references and implement the class
      [Sink]; each method is atomic, as it holds the room's mutex; the order
      in which Go ranges over a map is an argument.
    - [HuddleRoomInv], [HuddleFanout]: the room's step relation, invariant,
      admission, fan-out and eviction.
    - [HuddleManager]: huddle/room/manager.go, with rooms in a store behind
      references, since callers keep the pointers Join returns.
    - [NostrUtils]: utils/event.go, utils/keys.go, nip16/treatment.go,
      nip33/replaceable.go, nip09/deletion.go.
    - [Pow]: nip13/nip13.go.
    - [Event]: nip01/event.go and utils.GetPublicKey; the JSON codec of an
      event, a class.
    - [Filter]: nip01/filters.go and filter_builder.go.
    - [Latest]: nip01/latest.go.
    - [StoreDb]: relay/store.go, index keys and cursors of filters; one transaction's buckets ([Tx]) and the
      operations that write or remove one event with its index entries;
      relay/store_counters.go, the counters' updates; stampSeq of
      relay/feed.go.  [StoreInv]: a transaction [represents] a map from arrival
      numbers to events, and both writes keep it so.
    - [StoreScan]: relay/store.go, planning, the scan in passes over a heap,
      queries.  [StoreMerge], [StoreExact], [StoreQuery]: one pass, all passes,
      the query.
    - [StoreEvents]: relay/store.go, the write path: duplicates, replacement,
      deletion requests, tasks, batches with their retry, expiry.  [StoreLife],
      [StoreBatch]: what each of them does to the stored events,
      the store's invariant, when writes succeed.  [StoreProps]: the theorems.
      [StoreDemo]: a small store that the theorems are applied to.
    - [StoreTail]: relay/store.go, scanTail and tailCandidate, and the whole of
      a subscription.
    - [StoreCounters]: relay/store_counters.go, reading and backfilling the
      counters.  [StoreCountInv], [StoreBackfill]: what they count, under
      batches and under chunks.  [StoreCountProps]: the theorems and a store
      counted while it is written.
    - [Nip44]: nip44/encryption.go and hex.go.
    - [Nip98]: nip98/auth.go, seen.go, sign.go and utils.GetFullHTTPURL.
    - [Nip19]: nip19/nip19.go and pubkey.go.
    - [Nip29]: nip29/nip29.go, group events: parsers, builders, validators and
      the moderation policy.  [Nip29Props]: their round trips.
    - [GroupStore]: relay/store_groups.go, records and invites in a bucket.
    - [Groups]: relay/groups_cache.go, groups.go and groups_notices.go, the
      state of the group service and its handlers, in a state monad whose
      failure is a panic.  The event store is the class [EventDB].
      [GroupsForest]: parent links as a forest.  [GroupsInv], [GroupsStep]: the
      pure function [next_groups] and that each handler follows it.  [GroupsWf]:
      it keeps the groups well-formed; the reachable states.
      [GroupsAuth]: who may change what.  [GroupsTotal]: every event is answered.
    - [GroupsView]: relay/groups.go, groups_notices.go and recipient_only.go,
      what a reader may ask and see; the event store of [StoreEvents] and
      [StoreScan] as an [EventDB].  [GroupsProps]: the theorems.  [GroupsDemo]: two updates of one
      group interleaved, and a relay with two groups.
    - [Nip43]: nip43/nip43.go (Module [Access]) and nip70/nip70.go.
    - [AgentAuth]: nip42/auth.go, nipOA/nipOA.go and sign.go, nipAA/nipAA.go.
    - [Membership]: relay/store_membership.go, membership_cache.go and
      membership.go, publishMembershipList of session.go; calls to the hooks
      onAdd and onRemove are recorded in order.  [MembershipProps]: its theorems.
    - [RelaySession]: relay/session.go, packet.go, subscription.go and
      handlers.go, one connection ([Conn]): identities, AUTH, REQ, CLOSE, what a
      subscription delivers.  The replies sent are a list.
    - [RelayPacket]: relay/packet.go, session.go and presence.go, the relay with
      all its connections ([Relay]): the checks of an EVENT ([event_verdict]),
      the handler, the hooks of the membership service on every connection.
    - [RelayNeg]: relay/store.go and packet.go, NEG-OPEN, NEG-MSG, COUNT.
    - [RelayHttp]: relay/handler_events.go and handler_query.go.
    - [RelayLive], [RelayProps]: the theorems on the four.
      [RelayDemo]: runs of a relay with one member.
    - [CashCall]: nipcash's request_id.go, secret.go, codes.go,
      withdraw_detail.go, tombstone.go, clock.go, lookup_decision.go, reuse.go and
      the record of pending.go: ids, deadlines, codes and the look-up decision.
    - [CashWithdraw]: withdraw_quote.go, withdraw_receipt.go, withdraw_fee.go and
      fees.go, online.go's HubIdentityEqual: quotes, receipts and fees.
      [CashWithdrawProps]: their theorems.
    - [CashPayout]: withdraw_address.go, withdraw_terms.go, withdraw_hub.go,
      withdraw_payout.go, cash_lookup.go: addresses, terms, the tables a Hub refuses
      by, payout states, cancellation and retention, payout and look-up answers.
    - [CashRecover]: nipcash/client/recover.go and the outcome rules of journal.go.
    - [CashOnce]: a Hub that follows [CashCall], a network that delays, repeats and
      drops, and a client that follows [CashRecover], as a step relation ([step] on
      [World]), its invariant and its theorems.  [CashDemo]: runs.
    - [CashBatch]: nipcash/transport/response.go (chunks of a reply) and bearer.go,
      nipcash/client/batch_outcome.go (the state of a reply, the outcome of every
      item) and the loop of sendBatch in batch_send.go, a turn of it at a time
      against a [World] that answers for the network and the journal.
      [CashBatchProps]: its theorems and a batch of three items.
    - [PocketEntry]: nipCP/entry.go, entries, their validation and their rumors,
      which read back.  [PocketState]: resolve.go, balance.go, pending.go, order.go
      and withdraw.go, nipCO/state.go and nipCO/client/finished.go.
      [PocketResolve], [PocketWrites]: their theorems.
    - [OrderTerms]: nipCO/terms.go, fees.go, request.go, placement.go and
      retention.go: what a Hub sells, whether it places an order, the bills of a
      payment and how long the order is kept, with their theorems.
    - [Nip59]: nip59/giftwrap.go, seal.go and proof.go, nip46/signer.go's LocalKey,
      and their theorems.
    - [PocketSync]: nipCP/seal.go, sync.go and journal.go, the pocket on its
      relays.  [PocketSyncProps]: its theorems.  [PocketDemo]: runs of a pocket.

    ** What the theorems show

    - The store: a query answers with exactly the newest stored events its
      filter asks for, whatever index is scanned and however the scan is cut
      ([findEvents_newest]); a subscription delivers those and then each later
      arrival it wants exactly once ([subscription_exactly_once]); every batch
      keeps events and indexes consistent ([batch_keeps_store]) and equals its
      tasks run one by one ([batch_isolates]); duplicates are refused, fitting
      events accepted ([duplicate_refused], [insert_accepts]); one version of a
      replaceable or addressable event survives, the one Supersedes prefers
      ([replaceable_latest], [addressable_latest]); a deletion request removes
      what it names of its author and nothing else ([deletion_request]); expiry
      is exact ([expiry_exact]).
    - The counters: exact once an old store has been counted, whatever is
      written meanwhile ([counters_exact]); the counting ends
      ([backfill_completes]); COUNT answers from them with the number of events
      the filters admit ([count_answers]).
    - Events: Verify accepts exactly the events that are well-formed, carry
      their own hash as id, meet the proof of work and have a valid signature
      ([Verify_iff]); the canonical pre-image is injective, so two events with
      one id are equal or exhibit a SHA-256 collision ([event_id_binds]);
      signed and mined events verify ([Sign_then_Verify],
      [mined_then_signed_verifies]).
    - Proof of work: mining returns only ids of the asked difficulty, and
      finds one whenever a worker's range holds one ([Mine_sound],
      [Mine_complete]); Difficulty is a numeric threshold on the id.
    - SHA-256: the streaming digest computes the standard's function however
      the input is cut into writes ([digest_refines_fips]).
    - Reconciliation: the codec round-trips; Compare is a strict total order
      and fingerprints do not depend on the order of items; a bound made
      between two items separates them and no shorter prefix does; the diff
      of an id list is exact; equal sets converge in one round; every response
      fits its frame limit.
    - Rooms: an invariant of every reachable room (indices and peers in
      bijection, bounded occupancy); a reused index carries another epoch;
      AddPeer's outcome on every branch; BroadcastFrame delivers one frame to
      every peer but the author and changes no other sink; EvictPubkey removes
      exactly the key's peers; the same for the manager's rooms.
    - nip98: verification accepts only events bound to the request, a header
      built by the client is accepted, and one header logs in at most once
      while the cache remembers it.
    - nip44: Decrypt inverts Encrypt, and what it accepts was authenticated
      with the conversation's key; padding round-trips.
    - nip19: pointers and keys round-trip through their TLV and bech32 forms;
      ParsePublicKey reads exactly public keys and refuses private ones.
    - Groups: in every reachable state rosters have no duplicates, parents and
      children agree, form no cycle and share their privacy, and the database
      holds exactly the hosted records ([groups_reachable_inv]); a group event
      acts as [next_groups] says ([HandleEvent_refines]), for an author who may
      ([group_change_authorised], [closed_group_needs_invite]), or not at all
      ([refused_changes_nothing]); cycles are detected exactly
      ([createsCycle_iff]); a deleted group is gone from every other and from
      the event store ([deleted_group_gone], [purge_exact]); nothing of a private
      group reaches a stranger ([private_group_sealed], [filter_no_oracle],
      [needsPrivacyCheck_sound]); a restart restores the groups
      ([restart_exact]); group events round-trip ([metadata_roundtrip],
      [moderation_roundtrip], [lists_roundtrip]).
    - Members: the cached answers are the bucket's ([membership_reachable_inv]);
      one becomes a member only by a live claim ([join_admits]), which admits as
      many as it says ([invite_uses_exact]); agents' credentials are accepted
      exactly when attested, canonical and in time ([credential_exact]).
    - Sessions: an AUTH gives exactly the identity the key is entitled to
      ([auth_exact]); memberships of live connections follow the member set
      ([live_memberships]); an EVENT reaches the store exactly when it passes
      every check ([stored_iff]) and is answered once ([one_ok_per_event]); what
      COUNT counts a REQ delivers ([count_shows_what_is_delivered]); a client in
      sync learns it from NEG-OPEN ([negopen_in_sync]); the HTTP bridge stores
      and serves nothing unchecked ([http_event_sound], [http_query_sound]).
    - Calls: however often a call is placed again, a Hub whose horizon never rises
      commits at most one of the chain, and none that it answered unknown
      ([commits_at_most_once], [lookup_table]).
    - Batches: a reply is read the same in whatever order its chunks arrive
      ([reply_order_free]), every item is decided by all its answers and safe to
      resend only when refused ([reply_decides]); a batch ends, accounts for every
      item, writes a call ahead before it is published and publishes no request id
      twice ([batch_answers_each]).
    - Orders: what is placed is well-formed, within the announced terms and can be
      priced and confirmed ([placed_order_served]); the price is exact
      ([order_fee_exact]), the bills of a payment add up ([mint_split_exact]), and
      the time of a deletion is the first at which the order no longer blocks it
      ([hub_delete_exact]).
    - Withdrawals: a quote is accepted exactly when the Hub signed it for the
      question asked ([quote_answer_exact]), and an honest Hub's is
      ([honest_quote_accepted]); a receipt exactly when signed for this call
      ([receipt_exact]); the fee is exact, never wraps and leaves the largest whole
      payout ([withdraw_fee_exact]).
    - Pocket: an entry reads back as written, through its rumor ([entry_roundtrip],
      [parsed_is_valid]) and through its wrap ([sealed_reopens]); Resolve shows the
      greatest version of every bill and every conflict, in whatever order entries
      come ([resolve_greatest], [resolve_order_free], [next_version_wins]); balances
      are exact sums that saturate ([balance_exact]); a call's outcome writes what
      it decided and nothing else ([apply_result_exact]), a withdrawal only what its
      receipt proves ([withdraw_needs_receipt]).
    - Relays of a pocket: a sync misses no entry a relay returned and lets none in
      from elsewhere ([sync_complete]); an absence is trusted only when it is one,
      up to three relays ([absence_trusted]); a call written ahead is stored and
      current ([write_ahead_wins]).
    - Gift wraps: what is wrapped is unwrapped by its recipient as it was
      ([giftwrap_roundtrip]); a seal proves its content to anyone by the keys of
      that one message ([seal_proves]).
    - Filters and versions: Match holds exactly for the events the fields
      describe; LatestVersion is the greatest valid version.

    Some theorems record where the code departs from what it says:
    [declared_length_panics], [closing_skip_loses_item],
    [stale_leave_removes_stranger], [Equals_conflates], [empty_tag_panics],
    [oversized_tag_refused], [dless_versions_accumulate],
    [coordinate_shields_ids], [empty_list_counts_all],
    [invite_crosses_groups], [addition_lost], [deletion_undone],
    [delisted_member_returns], [negopen_ungated] and [negopen_truncates], the
    runs [post_outlives_group], [spelling_survives_leave],
    [spelling_survives_revocation], [http_skips_groups],
    [forged_metadata_stored], [self_attested], [raised_horizon_pays_twice] and
    [unchecked_journal_pays_twice], the cases [absence_misjudged] and
    [pack_failure_loses_items], and the side
    conditions of [atag_roundtrip] and [npub_roundtrip].

    ** Bounds and fuel

    Times of the call protocol are below 2^61 seconds ([time_ok]), so that sums of
    a time and a horizon do not wrap an int64; where the code's own arithmetic can
    wrap it is written with [wrap], [u64] or [s64].  A chain of re-placements has at
    most four calls, as [Recover] stops at the third attempt.

    Loops that are not structural take fuel.  A varint has at most ten 7-bit
    digits, a hash block consumes 64 bytes, a range, an id and a TLV record
    each consume at least one byte, and a bisection step shortens its interval,
    so the callers pass the length of the input (or the ten digits) and the
    round-trip and refinement theorems, which state the result, show that it
    is enough.  A cursor visits each pair of a bucket once, so its size bounds
    a walk; every pass of a scan but the last moves a cursor, so the cursors
    times the entries bound the passes ([scan_fuel], which [findEvents] passes
    itself); a round of the tail and a chunk of the backfill each take one
    event or author at least, so their theorems ask for more rounds than there
    are events.  A walk up the parents of a group visits no group twice, so the
    number of groups bounds it ([createsCycle_iff]).  Every turn of a batch packs
    at least one item, and one turn at most packs an envelope again, so the items
    and one more turn are enough ([batch_answers_each]); a bill of [MintSplit]
    takes the whole bound off the rest ([mint_split_exact]).  The fuel of [mineWorker] is different: it is the number of
    attempts until the context is cancelled, and [Mine_complete] says how many
    are enough.

    ** Parameters

    Code outside the repository is a class, its documented behaviour a record
    of laws, instantiated concretely in the witnesses: the secp256k1 library
    ([Schnorr], [SchnorrLaws]), HKDF, ChaCha20 and ECDH ([Nip44Lib],
    [Nip44Laws]), bech32 ([Bech32], [Bech32Laws]), the database bbolt ([Bolt],
    [BoltLaws]).  The zap and social indexes and the feeds, which the store
    updates in the same transactions, are the class [Derived].  The Unicode case tables
    behind strings.ToLower ([GoLower], fixed on ASCII text) and the reflective
    JSON codecs of an event ([EventJSON]), of the records of groups and members
    ([GroupJSON], [MemberJSON]), of payouts ([PayoutJSON]), replies
    ([ResponseJSON]) and order terms ([OrderJSON]), and the bech32 and
    base58 codecs of addresses ([AddressCodec]), are parameters too, as are the validators
    and the policy an embedder registers and the decoder of filters sent over
    HTTP.  The group and membership services are proved against the interface
    [EventDB], which the store model implements ([store_db]).  The
    reconciliation engine is proved against the interface [Hash256], which
    the verified digest implements.  Random nonces, salts, clocks and map
    iteration orders are arguments.

    ** Not modelled

    Sockets and goroutine plumbing (the read, write and ping loops of a session,
    origin rules, rate limits, relay/client, huddle/wsaudio): packets reach the
    model decoded, one at a time per connection, and each handler is atomic,
    except for the interleaved updates of [GroupsDemo].  The JSON codecs of filters
    and packets; remote signers; random challenges and claims; the search, cache
    and assertion handlers of a REQ; presence snapshots.  Of nipcash: the code of a
    Hub, which is not in the repository (the steps of [CashOnce] are the ones its
    rules allow); the builders of requests with their credentials and proofs, cash
    tokens and strings, the encoding of envelopes and their transport over relays
    (how many items [sendBatch] packs is an argument), sessions, listings and the
    conformance suites.  Of nipCO: the reading of an order reply, invoices,
    notices, buyer keys and connection strings.
    Of nipCP: WebSocket connections, device ids and the device's own store.  The
    other protocol packages (social, git, wallets, zaps, metadata, nipcw, nipAZ)
    build and parse events or talk to services, and carry little logic that the
    modelled components rely on.  Within a modelled package: Event.Copy, the JSON
    methods, mining's progress reports; in the store, opening and migrating the
    database file, the task queue and housekeeping goroutines, scan slots,
    exports. *)

From Stdlib Require Export ZArith Lia Strings.Byte.
From Stdlib Require Strings.String.
Export Strings.String.StringSyntax.
From stdpp Require Export base tactics numbers list gmap sorting fin_maps.

#[global] Open Scope Z_scope.
#[global] Set Default Proof Using "Type".

(** ** Tactics and hint databases *)

Create HintDb nmilat.
Create Rewrite HintDb nmilat.

(** Split every boolean condition of the context and of the goal into the
    proposition it decides. *)
Ltac bool_prop :=
  repeat match goal with
  | H : (_ && _)%bool = true |- _ => apply andb_true_iff in H; destruct H
  | H : (_ || _)%bool = false |- _ => apply orb_false_iff in H; destruct H
  | H : negb _ = true |- _ => apply negb_true_iff in H
  | H : negb _ = false |- _ => apply negb_false_iff in H
  | H : (_ =? _) = true |- _ => apply Z.eqb_eq in H
  | H : (_ =? _) = false |- _ => apply Z.eqb_neq in H
  | H : (_ <? _) = true |- _ => apply Z.ltb_lt in H
  | H : (_ <? _) = false |- _ => apply Z.ltb_ge in H
  | H : (_ <=? _) = true |- _ => apply Z.leb_le in H
  | H : (_ <=? _) = false |- _ => apply Z.leb_gt in H
  | H : bool_decide _ = true |- _ => apply bool_decide_eq_true in H
  | H : bool_decide _ = false |- _ => apply bool_decide_eq_false in H
  end.

(** [lia] with division and modulus by constants. *)
Ltac dlia := Z.div_mod_to_equations; lia.

(** Case analysis on the scrutinee of an [if] or [match] in the goal. *)
Ltac case_scrutinee :=
  match goal with
  | |- context [if ?c then _ else _] => destruct c eqn:?
  | |- context [match ?c with _ => _ end] => destruct c eqn:?
  end.

(** ** Machine integers

    A Go unsigned integer of width [w] is a [Z] kept in [0, 2^w) by [wrap]. *)

Definition wrap (w z : Z) : Z := z mod 2 ^ w.
Abbreviation u8 := (wrap 8).
Abbreviation u16 := (wrap 16).
Abbreviation u32 := (wrap 32).
Abbreviation u64 := (wrap 64).

Lemma wrap_range w z : 0 <= w -> 0 <= wrap w z < 2 ^ w.
Proof. intros. apply Z.mod_pos_bound. lia. Qed.

Lemma wrap_small w z : 0 <= z < 2 ^ w -> wrap w z = z.
Proof. apply Z.mod_small. Qed.

Lemma wrap_idem w z : wrap w (wrap w z) = wrap w z.
Proof. apply Zmod_mod. Qed.

(** [int8(b)] of a byte: two's complement. *)
Definition s8 (z : Z) : Z := let r := z mod 256 in if r <? 128 then r else r - 256.

(** Go's signed 64-bit [int]. *)
Definition max_int : Z := 2 ^ 63 - 1.

(** The int64 arithmetic gives for an exact result. *)
Definition s64 (z : Z) : Z := let r := z mod 2 ^ 64 in if r <? 2 ^ 63 then r else r - 2 ^ 64.

Lemma s64_small z : - 2 ^ 63 <= z < 2 ^ 63 -> s64 z = z.
Proof.
  intros H. unfold s64. destruct (Z.ltb_spec (z mod 2 ^ 64) (2 ^ 63)); Z.div_mod_to_equations; lia.
Qed.

Lemma s64_range z : - 2 ^ 63 <= s64 z < 2 ^ 63.
Proof. unfold s64. destruct (Z.ltb_spec (z mod 2 ^ 64) (2 ^ 63)); Z.div_mod_to_equations; lia. Qed.

(** ** Bytes *)

#[global] Instance byte_eq_dec : EqDecision byte.
Proof. intros x y. destruct (Byte.byte_eq_dec x y); [by left | by right]. Defined.

(** The numeric value of a byte, and [byte(z)] (truncation to eight bits). *)
Definition b2z (b : byte) : Z := Z.of_N (Byte.to_N b).
Definition z2b (z : Z) : byte :=
  match Byte.of_N (Z.to_N (z mod 256)) with Some b => b | None => x00 end.

Lemma b2z_range b : 0 <= b2z b < 256.
Proof. unfold b2z. pose proof (Byte.to_N_bounded b). lia. Qed.
#[export] Hint Resolve b2z_range : nmilat.

Lemma z2b_b2z b : z2b (b2z b) = b.
Proof.
  unfold z2b. rewrite Z.mod_small by apply b2z_range.
  unfold b2z. by rewrite N2Z.id, Byte.of_to_N.
Qed.

Lemma b2z_z2b z : b2z (z2b z) = z mod 256.
Proof.
  unfold z2b. pose proof (Z.mod_pos_bound z 256 ltac:(lia)).
  destruct (Byte.of_N (Z.to_N (z mod 256))) as [b|] eqn:E.
  - apply Byte.to_of_N in E. unfold b2z. lia.
  - apply Byte.of_N_None_iff in E. lia.
Qed.

#[global] Instance b2z_inj : Inj (=) (=) b2z.
Proof. intros x y H. by rewrite <- (z2b_b2z x), H, z2b_b2z. Qed.

#[global] Program Instance byte_countable : Countable byte :=
  inj_countable' (fun b => Byte.to_N b) (fun n => match Byte.of_N n with Some b => b | None => x00 end) _.
Next Obligation. intros b. simpl. by rewrite Byte.of_to_N. Qed.

#[global] Instance byte_inhabited : Inhabited byte := populate x00.

#[export] Hint Rewrite z2b_b2z b2z_z2b : nmilat.

Lemma z2b_mod z : z2b (z mod 256) = z2b z.
Proof. apply b2z_inj. rewrite !b2z_z2b. apply Zmod_mod. Qed.

(** ** Go strings

    A Go string is its byte sequence; [bs "..."] is a string literal. *)

Abbreviation gostring := (list byte).
Definition bs (s : String.string) : gostring := String.list_byte_of_string s.
Arguments bs s%_string_scope.

(** ** Outcomes

    A Go call that returns [(value, error)] and may also stop the goroutine
    with a run-time panic. *)

Inductive outcome (E A : Type) : Type :=
  | Ok (a : A)
  | Err (e : E)
  | Panic.
Arguments Ok {E A} a.
Arguments Err {E A} e.
Arguments Panic {E A}.

#[global] Instance outcome_ret {E} : MRet (outcome E) := fun A a => Ok a.
#[global] Instance outcome_bind {E} : MBind (outcome E) := fun A B k m =>
  match m with Ok a => k a | Err e => Err e | Panic => Panic end.

(** [guard b e]: the early return [if !b { return err }]. *)
Definition ensure {E} (b : bool) (e : E) : outcome E unit := if b then Ok tt else Err e.

Definition is_ok {E A} (m : outcome E A) : bool :=
  match m with Ok _ => true | _ => false end.

Lemma bind_Ok {E A B} (m : outcome E A) (k : A -> outcome E B) b :
  (m ≫= k) = Ok b <-> exists a, m = Ok a /\ k a = Ok b.
Proof. destruct m; cbn; split; [eauto|intros (?&[=]&?); by subst|done|by intros (?&[=]&?)|done|by intros (?&[=]&?)]. Qed.

Lemma ensure_Ok {E} b (e : E) u : ensure b e = Ok u <-> b = true.
Proof. destruct b, u; cbn; naive_solver. Qed.

(** Invert a chain of binds that ends in [Ok]. *)
Ltac inv_ok :=
  repeat match goal with
  | H : Ok _ = Ok _ |- _ => injection H as H; subst
  | H : Err _ = Ok _ |- _ => discriminate H
  | H : Panic = Ok _ |- _ => discriminate H
  | H : (_ ≫= _) = Ok _ |- _ =>
      let a := fresh "a" in let E := fresh "E" in
      apply bind_Ok in H; destruct H as (a & E & H); cbn beta in H
  | H : ensure _ _ = Ok ?u |- _ => apply ensure_Ok in H
  | H : mret _ = Ok _ |- _ => unfold mret, outcome_ret in H
  end.

(** Go's [make([]T, n)]: a run-time panic unless [0 <= n * size <= maxAlloc]
    (runtime.makeslice; maxAlloc is 2^48 on a 64-bit Linux host). *)
Definition max_alloc : Z := 2 ^ 48.
Definition make_ok (n size : Z) : bool := (0 <=? n) && (n * size <=? max_alloc).

(** ** Lists *)

(** Length as a Go [int]. *)
Definition zlen {A} (l : list A) : Z := Z.of_nat (length l).

Lemma zlen_nonneg {A} (l : list A) : 0 <= zlen l.
Proof. unfold zlen. lia. Qed.
#[export] Hint Resolve zlen_nonneg : nmilat.

Lemma zlen_nil {A} : zlen (@nil A) = 0.
Proof. done. Qed.
Lemma zlen_cons {A} (x : A) l : zlen (x :: l) = 1 + zlen l.
Proof. unfold zlen. cbn [length]. lia. Qed.
Lemma zlen_app {A} (l k : list A) : zlen (l ++ k) = zlen l + zlen k.
Proof. unfold zlen. rewrite length_app. lia. Qed.
#[export] Hint Rewrite @zlen_nil @zlen_cons @zlen_app : nmilat.

(** Go slicing [l[a:b]] of an in-range [a <= b]. *)
Definition slice {A} (a b : nat) (l : list A) : list A := take (b - a) (drop a l).

Lemma length_slice {A} a b (l : list A) :
  (a <= b <= length l)%nat -> length (slice a b l) = (b - a)%nat.
Proof. intros. unfold slice. rewrite length_take, length_drop. lia. Qed.

Lemma slice_app {A} a b c (l : list A) :
  (a <= b <= c)%nat -> slice a c l = slice a b l ++ slice b c l.
Proof.
  intros. unfold slice.
  replace (drop b l) with (drop (b - a) (drop a l)) by (rewrite drop_drop; f_equal; lia).
  rewrite take_take_drop. f_equal. lia.
Qed.

(** [in_list x l]: Go's [slices.Contains]. *)
Definition in_list {A} `{EqDecision A} (x : A) (l : list A) : bool := bool_decide (x ∈ l).

(** Splitting off an exact prefix. *)
Lemma take_length_app {A} (l k : list A) : take (length l) (l ++ k) = l.
Proof. apply take_app_length. Qed.
Lemma drop_length_app {A} (l k : list A) : drop (length l) (l ++ k) = k.
Proof. apply drop_app_length. Qed.

Lemma take_repeat {A} n m (a : A) : take n (repeat a m) = repeat a (Nat.min n m).
Proof. revert m. induction n as [|n IH]; intros [|m]; cbn; [done..|]. by rewrite IH. Qed.

(** An invariant of the body is an invariant of the loop. *)
Lemma foldl_inv {A B} (P : A -> Prop) (f : A -> B -> A) l a :
  (forall acc x, P acc -> P (f acc x)) -> P a -> P (foldl f a l).
Proof. intros Hf. revert a. induction l as [|x l IH]; intros a Ha; cbn; [done|]. apply IH, Hf, Ha. Qed.

#[export] Instance list_filter_Permutation {A} (f : A -> bool) :
  Proper (Permutation ==> Permutation) (List.filter f).
Proof.
  intros l k HP. induction HP; cbn; repeat case_match; eauto using Permutation.
Qed.

(** Filtering depends on the values at the members only. *)
Lemma list_filter_ext {A} (f g : A -> bool) l :
  (forall x, x ∈ l -> f x = g x) -> List.filter f l = List.filter g l.
Proof. intros H. apply List.filter_ext_in. intros x Hx. by apply H, list_elem_of_In. Qed.
