(* ===== verification/GoLib.v ===== *)
(** * The parts of Go's standard library the modelled packages call

    [encoding/hex], [strconv]'s decimal conversions, [strings.ToLower] and
    [strings.TrimSpace], string comparison, [sort.Search] and [encoding/binary]'s big-endian
    integers, each as an executable function with the laws its callers use. *)

From Stdlib Require Import DecimalPos DecimalN DecimalFacts.
From S2P Require Import Prelude.

(** ** encoding/hex *)
Module Hex.

(** The lowercase digit of a nibble ("0123456789abcdef"[n]). *)
Definition digit (n : Z) : byte := if n <? 10 then z2b (48 + n) else z2b (87 + n).

(** hex.EncodeToString *)
Definition encode (l : list byte) : gostring :=
  flat_map (fun b => [digit (b2z b / 16); digit (b2z b mod 16)]) l.

(** The value of a hex digit of either case. *)
Definition from_char (c : byte) : option Z :=
  let z := b2z c in
  if (48 <=? z) && (z <=? 57) then Some (z - 48)
  else if (97 <=? z) && (z <=? 102) then Some (z - 87)
  else if (65 <=? z) && (z <=? 70) then Some (z - 55)
  else None.

(** hex.DecodeString; [None] is its error (odd length or a bad digit). *)
Fixpoint decode (s : gostring) : option (list byte) :=
  match s with
  | [] => Some []
  | [_] => None
  | a :: b :: r =>
      x ← from_char a; y ← from_char b; l ← decode r;
      Some (z2b (16 * x + y) :: l)
  end.

Lemma from_char_digit n : 0 <= n < 16 -> from_char (digit n) = Some n.
Proof.
  intros H. unfold digit, from_char.
  destruct (n <? 10) eqn:E; bool_prop; rewrite b2z_z2b, Z.mod_small by lia;
    repeat (case_scrutinee; bool_prop; try lia); f_equal; lia.
Qed.

Lemma from_char_range c n : from_char c = Some n -> 0 <= n < 16.
Proof.
  unfold from_char. repeat case_scrutinee; intros [=]; bool_prop; lia.
Qed.

Lemma length_encode l : length (encode l) = (2 * length l)%nat.
Proof. induction l as [|b l IH]; [done|]. cbn. unfold encode in IH. rewrite IH. lia. Qed.

Lemma decode_encode l : decode (encode l) = Some l.
Proof.
  induction l as [|b l IH]; [done|].
  pose proof (b2z_range b). unfold encode. cbn [flat_map app decode].
  fold (encode l).
  rewrite !from_char_digit by dlia.
  cbn. rewrite IH. cbn. do 2 f_equal.
  rewrite <- (Z.div_mod (b2z b) 16) by lia. apply z2b_b2z.
Qed.

#[global] Instance encode_inj : Inj (=) (=) encode.
Proof. intros l k H. apply (f_equal decode) in H. rewrite !decode_encode in H. congruence. Qed.

Lemma decode_length s l : decode s = Some l -> length s = (2 * length l)%nat.
Proof.
  revert l. induction s as [s IH] using (induction_ltof1 _ (@length _)); unfold ltof in IH.
  destruct s as [|a [|b r]]; cbn; intros l H; simplify_eq; [done|].
  destruct (from_char a), (from_char b), (decode r) eqn:E; cbn in H; simplify_eq.
  apply IH in E; cbn; lia.
Qed.

End Hex.
#[export] Hint Rewrite Hex.decode_encode Hex.length_encode : nmilat.

(** ** Byte-wise string comparison *)
Module Cmp.

(** bytes.Compare, and [<] on Go strings. *)
Fixpoint compare (a b : list byte) : comparison :=
  match a, b with
  | [], [] => Eq
  | [], _ => Lt
  | _, [] => Gt
  | x :: a', y :: b' =>
      match (b2z x ?= b2z y) with Eq => compare a' b' | c => c end
  end.

Definition ltb (a b : list byte) : bool :=
  match compare a b with Lt => true | _ => false end.

Lemma compare_refl a : compare a a = Eq.
Proof. induction a; cbn; [done|]. by rewrite Z.compare_refl. Qed.

Lemma compare_eq a b : compare a b = Eq <-> a = b.
Proof.
  split; [|intros ->; apply compare_refl].
  revert b. induction a as [|x a IH]; intros [|y b]; cbn; try done.
  destruct (Z.compare_spec (b2z x) (b2z y)); try done.
  intros. f_equal; [by apply b2z_inj | by apply IH].
Qed.

Lemma compare_antisym a b : compare b a = CompOpp (compare a b).
Proof.
  revert b. induction a as [|x a IH]; intros [|y b]; cbn; try done.
  rewrite (Z.compare_antisym (b2z x) (b2z y)).
  destruct (b2z x ?= b2z y); cbn; auto.
Qed.

Lemma compare_lt_trans a b c : compare a b = Lt -> compare b c = Lt -> compare a c = Lt.
Proof.
  revert b c. induction a as [|x a IH]; intros [|y b] [|z c]; cbn; try done.
  destruct (Z.compare_spec (b2z x) (b2z y)) as [Hxy|Hxy|Hxy],
    (Z.compare_spec (b2z y) (b2z z)) as [Hyz|Hyz|Hyz]; try done; intros H1 H2;
    destruct (Z.compare_spec (b2z x) (b2z z)); try lia; try done; eauto.
Qed.

Lemma ltb_irrefl a : ltb a a = false.
Proof. unfold ltb. by rewrite compare_refl. Qed.

Lemma ltb_trans a b c : ltb a b = true -> ltb b c = true -> ltb a c = true.
Proof.
  unfold ltb. destruct (compare a b) eqn:E1, (compare b c) eqn:E2; try done.
  by rewrite (compare_lt_trans a b c).
Qed.

Lemma ltb_total a b : ltb a b = false -> ltb b a = false -> a = b.
Proof.
  unfold ltb. rewrite (compare_antisym a b).
  destruct (compare a b) eqn:E; cbn; try done. by apply compare_eq in E.
Qed.

Lemma ltb_asym a b : ltb a b = true -> ltb b a = false.
Proof.
  unfold ltb. rewrite (compare_antisym a b). by destruct (compare a b).
Qed.

(** Comparison under a common prefix, and of same-length heads. *)
Lemma compare_app_l p a b : compare (p ++ a) (p ++ b) = compare a b.
Proof. induction p as [|x p IH]; [done|]. cbn. by rewrite Z.compare_refl. Qed.

Lemma compare_app a b c d :
  length a = length b -> compare (a ++ c) (b ++ d) = match compare a b with Eq => compare c d | r => r end.
Proof.
  revert b. induction a as [|x a IH]; intros [|y b] HL; try done. cbn in *.
  destruct (b2z x ?= b2z y); [apply IH; lia|done..].
Qed.

Lemma ltb_lt a b : ltb a b = true <-> compare a b = Lt.
Proof. unfold ltb. by destruct (compare a b). Qed.

(** What lies between two strings with a prefix has that prefix. *)
Lemma between_prefix p a b k :
  ltb k (p ++ b) = true -> ltb k (p ++ a) = false -> exists c, k = p ++ c.
Proof.
  revert k. induction p as [|x p IH]; intros k H1 H2; [by exists k|].
  unfold ltb in *. destruct k as [|y k]; cbn in *; [done|].
  destruct (Z.compare_spec (b2z y) (b2z x)) as [E|E|E]; [|done..].
  apply b2z_inj in E as ->. destruct (IH k) as [c ->]; [by unfold ltb|by unfold ltb|]. by exists c.
Qed.

End Cmp.

(** ** strconv: decimal integers *)
Module Dec.

Definition is_digit (c : byte) : bool := (48 <=? b2z c) && (b2z c <=? 57).

Fixpoint uint_bytes (d : Decimal.uint) : gostring :=
  match d with
  | Decimal.Nil => []
  | Decimal.D0 d => "0"%byte :: uint_bytes d
  | Decimal.D1 d => "1"%byte :: uint_bytes d
  | Decimal.D2 d => "2"%byte :: uint_bytes d
  | Decimal.D3 d => "3"%byte :: uint_bytes d
  | Decimal.D4 d => "4"%byte :: uint_bytes d
  | Decimal.D5 d => "5"%byte :: uint_bytes d
  | Decimal.D6 d => "6"%byte :: uint_bytes d
  | Decimal.D7 d => "7"%byte :: uint_bytes d
  | Decimal.D8 d => "8"%byte :: uint_bytes d
  | Decimal.D9 d => "9"%byte :: uint_bytes d
  end.

Fixpoint bytes_uint (s : gostring) : option Decimal.uint :=
  match s with
  | [] => Some Decimal.Nil
  | c :: r =>
      d ← bytes_uint r;
      match c with
      | "0"%byte => Some (Decimal.D0 d) | "1"%byte => Some (Decimal.D1 d)
      | "2"%byte => Some (Decimal.D2 d) | "3"%byte => Some (Decimal.D3 d)
      | "4"%byte => Some (Decimal.D4 d) | "5"%byte => Some (Decimal.D5 d)
      | "6"%byte => Some (Decimal.D6 d) | "7"%byte => Some (Decimal.D7 d)
      | "8"%byte => Some (Decimal.D8 d) | "9"%byte => Some (Decimal.D9 d)
      | _ => None
      end
  end.

(** strconv.FormatUint(z, 10), for [0 <= z]. *)
Definition format_uint (z : Z) : gostring := uint_bytes (N.to_uint (Z.to_N z)).

(** strconv.Itoa / FormatInt(z, 10) *)
Definition itoa (z : Z) : gostring :=
  if z <? 0 then "-"%byte :: format_uint (- z) else format_uint z.

(** An unbounded decimal numeral: one or more digits. *)
Definition parse_digits (s : gostring) : option Z :=
  match s with
  | [] => None
  | _ => d ← bytes_uint s; Some (Z.of_N (N.of_uint d))
  end.

(** strconv.ParseUint(s, 10, 64) *)
Definition parse_uint (s : gostring) : option Z :=
  z ← parse_digits s; if z <? 2 ^ 64 then Some z else None.

(** strconv.Atoi: an optional sign, digits, and the range of [int]. *)
Definition atoi (s : gostring) : option Z :=
  match s with
  | "-"%byte :: r => z ← parse_digits r; if z <=? 2 ^ 63 then Some (- z) else None
  | "+"%byte :: r => z ← parse_digits r; if z <? 2 ^ 63 then Some z else None
  | _ => z ← parse_digits s; if z <? 2 ^ 63 then Some z else None
  end.

Lemma bytes_uint_bytes d : bytes_uint (uint_bytes d) = Some d.
Proof. induction d; cbn; try rewrite IHd; done. Qed.

Lemma uint_bytes_digits d : Forall (fun c => is_digit c = true) (uint_bytes d).
Proof. induction d; cbn; constructor; done. Qed.

Lemma format_uint_digits z : Forall (fun c => is_digit c = true) (format_uint z).
Proof. apply uint_bytes_digits. Qed.

Lemma format_uint_nonempty z : format_uint z <> [].
Proof.
  unfold format_uint. destruct (Z.to_N z) as [|p]; [done|].
  cbn. unfold Pos.to_uint. pose proof (Unsigned.to_uint_nonnil p) as H.
  unfold Pos.to_uint in H. by destruct (Decimal.rev _).
Qed.

Lemma parse_format_uint z : 0 <= z -> parse_digits (format_uint z) = Some z.
Proof.
  intros Hz. unfold parse_digits. pose proof (format_uint_nonempty z) as Hne.
  destruct (format_uint z) eqn:E; [done|]. rewrite <- E. unfold format_uint.
  rewrite bytes_uint_bytes. cbn. rewrite DecimalN.Unsigned.of_to. f_equal. lia.
Qed.

Lemma parse_uint_format z : 0 <= z < 2 ^ 64 -> parse_uint (format_uint z) = Some z.
Proof.
  intros Hz. unfold parse_uint. rewrite parse_format_uint by lia. cbn.
  by rewrite (proj2 (Z.ltb_lt _ _)) by lia.
Qed.

Lemma format_uint_head z c r : format_uint z = c :: r -> is_digit c = true.
Proof. intros H. pose proof (format_uint_digits z) as F. rewrite H in F. by inversion F. Qed.

Lemma atoi_itoa z : - 2 ^ 63 <= z < 2 ^ 63 -> atoi (itoa z) = Some z.
Proof.
  intros Hz. unfold itoa, atoi. destruct (z <? 0) eqn:E; bool_prop.
  - rewrite parse_format_uint by lia. cbn.
    rewrite (proj2 (Z.leb_le _ _)) by lia. f_equal. lia.
  - pose proof (parse_format_uint z ltac:(lia)) as HP.
    destruct (format_uint z) as [|c r] eqn:F; [by apply format_uint_nonempty in F|].
    apply format_uint_head in F.
    assert (Hlt : (z <? 2 ^ 63) = true) by (apply Z.ltb_lt; lia).
    destruct c; try (cbv in F; discriminate F); rewrite HP; cbn; by rewrite Hlt.
Qed.

Lemma itoa_digits z : 0 <= z -> Forall (fun c => is_digit c = true) (itoa z).
Proof.
  intros H. unfold itoa. rewrite (proj2 (Z.ltb_ge _ _)) by lia. apply format_uint_digits.
Qed.

(** A canonical decimal is the one that prints back. *)

Lemma parse_digits_Some s n : parse_digits s = Some n -> 0 <= n /\ forallb is_digit s = true.
Proof.
  unfold parse_digits. destruct s as [|c s]; [done|]. destruct (bytes_uint (c :: s)) as [d|] eqn:E; [|done]. intros [= <-]. split; [lia|].
  revert d E. generalize (c :: s). clear c s. induction l as [|c l IH]; intros d E; [done|]. cbn [bytes_uint] in E.
  destruct (bytes_uint l) as [d'|] eqn:El; [|done]. cbn [forallb]. rewrite (IH _ eq_refl), andb_true_r. cbn in E. by destruct c.
Qed.

Lemma bytes_uint_inv s d : bytes_uint s = Some d -> uint_bytes d = s.
Proof.
  revert d. induction s as [|c s IH]; intros d E; cbn [bytes_uint] in E; [by injection E as <-|].
  destruct (bytes_uint s) as [d'|] eqn:Es; [|done]. cbn in E. specialize (IH _ eq_refl).
  destruct c; try done; injection E as <-; cbn; by rewrite IH.
Qed.

Lemma canonical_format c r n :
  parse_digits (c :: r) = Some n -> (r = [] \/ c <> "0"%byte) -> format_uint n = c :: r.
Proof.
  unfold parse_digits. destruct (bytes_uint (c :: r)) as [d|] eqn:E; [|done]. cbn. intros [= <-] Hc.
  unfold format_uint. rewrite N2Z.id, DecimalN.Unsigned.to_of. apply bytes_uint_inv in E as HB.
  enough (HU : Decimal.unorm d = d) by by rewrite HU.
  destruct Hc as [->|Hc].
  - cbn in E. destruct c; try done; injection E as <-; reflexivity.
  - cbn [bytes_uint] in E. destruct (bytes_uint r); [|done]. cbn in E. destruct c; try done; injection E as <-; done.
Qed.

(** Only zero is written with a leading zero. *)
Lemma format_zero n r : format_uint n = "0"%byte :: r -> r = [].
Proof.
  unfold format_uint. intros HE. pose proof (DecimalN.Unsigned.to_of (N.to_uint (Z.to_N n))) as HU. rewrite DecimalN.Unsigned.of_to in HU.
  destruct (N.to_uint (Z.to_N n)) as [|d|d|d|d|d|d|d|d|d|d]; try done. injection HE as HE. unfold Decimal.unorm in HU. cbn [Decimal.nzhead] in HU.
  pose proof (DecimalFacts.nzhead_nonzero d) as HN. destruct (Decimal.nzhead d) eqn:E; try done; [by injection HU as ->|].
  exfalso. by eapply HN.
Qed.


End Dec.

(** ** strings.ToLower

    Go lowercases by the Unicode tables; on ASCII text that is a map over
    the bytes.  The tables stay a parameter, of which only that law is
    used. *)

Definition lower_byte (c : byte) : byte :=
  if (65 <=? b2z c) && (b2z c <=? 90) then z2b (b2z c + 32) else c.

Definition is_ascii (s : gostring) : Prop := Forall (fun c => b2z c < 128) s.

Class GoLower := {
  ToLower : gostring -> gostring;
  ToLower_ascii : forall s, is_ascii s -> ToLower s = map lower_byte s;
}.

(** The byte-wise lowering, an instance for evaluation. *)
Definition ascii_lower : GoLower.
Proof. exists (map lower_byte). done. Defined.

Lemma lower_byte_range c : (97 <=? b2z c) && (b2z c <=? 122) = true -> lower_byte c = c.
Proof.
  intros. bool_prop. unfold lower_byte.
  by rewrite (proj2 (Z.leb_gt _ 90)) by lia; rewrite andb_false_r.
Qed.

(** ** Hex, lower-cased *)

Lemma from_char_lower c n : Hex.from_char c = Some n -> Hex.digit n = lower_byte c.
Proof. destruct c; intros HE; vm_compute in HE; (discriminate HE || (injection HE as <-; reflexivity)). Qed.

Lemma encode_lower s b : Hex.decode s = Some b -> Hex.encode b = map lower_byte s.
Proof.
  remember (length s) as k eqn:Hk. revert s b Hk. induction (lt_wf k) as [k _ IH]. intros s b ->.
  destruct s as [|x [|y s]]; cbn [Hex.decode]; [by intros [= <-]|done|].
  destruct (Hex.from_char x) as [p|] eqn:Ep; [|done]. destruct (Hex.from_char y) as [q|] eqn:Eq; [|done]. cbn.
  destruct (Hex.decode s) as [l|] eqn:El; [|done]. intros [= <-].
  pose proof (Hex.from_char_range _ _ Ep). pose proof (Hex.from_char_range _ _ Eq).
  unfold Hex.encode. cbn [flat_map app map]. rewrite b2z_z2b, Z.mod_small by lia.
  replace ((16 * p + q) / 16) with p by dlia. replace ((16 * p + q) mod 16) with q by dlia.
  rewrite (from_char_lower x p), (from_char_lower y q) by done. do 2 f_equal.
  apply (IH (length s)); [cbn; lia|done|done].
Qed.

Lemma decode_ascii s b : Hex.decode s = Some b -> is_ascii s.
Proof.
  intros HD. apply encode_lower in HD. unfold is_ascii. assert (HE : Forall (fun c => b2z c < 128) (map lower_byte s)).
  { rewrite <- HD. clear. unfold Hex.encode. induction b as [|x b IH]; [constructor|]. cbn.
    repeat constructor; [| |exact IH]; destruct x; vm_compute; reflexivity. }
  rewrite Forall_map in HE. eapply Forall_impl; [exact HE|]. intros c. unfold lower_byte, compose.
  destruct (_ && _) eqn:E; [|done]. bool_prop. lia.
Qed.

Lemma compare_encode x y : Cmp.compare (Hex.encode x) (Hex.encode y) = Cmp.compare x y.
Proof.
  revert y. induction x as [|a x IH]; intros [|b y]; [done|done|done|]. cbn. fold (Hex.encode x) (Hex.encode y). rewrite IH.
  assert (HD : forall m n, 0 <= m < 16 -> 0 <= n < 16 -> (b2z (Hex.digit m) ?= b2z (Hex.digit n)) = (m ?= n)).
  { intros m n Hm Hn. unfold Hex.digit.
    destruct (Z.ltb_spec m 10), (Z.ltb_spec n 10); rewrite !b2z_z2b, !Z.mod_small by lia;
      destruct (Z.compare_spec m n), (Z.compare_spec (if m <? 10 then 48 + m else 87 + m) (if n <? 10 then 48 + n else 87 + n)); 
      first [reflexivity | apply Z.compare_eq_iff; lia | apply Z.compare_lt_iff; lia | apply Z.compare_gt_iff; lia]. }
  pose proof (b2z_range a). pose proof (b2z_range b). rewrite !HD by dlia.
  rewrite (Z.div_mod (b2z a) 16), (Z.div_mod (b2z b) 16) at 3 by lia.
  destruct (Z.compare_spec (b2z a / 16) (b2z b / 16)) as [E|E|E].
  - rewrite E. rewrite Zcompare_plus_compat. done.
  - symmetry. rewrite (proj2 (Z.compare_lt_iff _ _)); [done|dlia].
  - symmetry. rewrite (proj2 (Z.compare_gt_iff _ _)); [done|dlia].
Qed.

(** Hex keys compare as lower-cased text the way their bytes do. *)
Lemma ToLower_ltb `{!GoLower} s t a b : Hex.decode s = Some a -> Hex.decode t = Some b ->
  Cmp.ltb (ToLower s) (ToLower t) = Cmp.ltb a b.
Proof.
  intros Hs Ht. rewrite !ToLower_ascii by (by eapply decode_ascii). rewrite <- (encode_lower _ _ Hs), <- (encode_lower _ _ Ht).
  unfold Cmp.ltb. by rewrite compare_encode.
Qed.

(** ** strings.TrimSpace

    The UTF-8 encodings of Unicode's White_Space characters are removed at both
    ends.  No encoding is a prefix or a suffix of another, so matching them
    byte-wise agrees with decoding runes from either end; bytes that are not
    valid UTF-8 decode to U+FFFD, which is no space. *)
Module Trim.

Definition spaces : list gostring :=
  [[x09]; [x0a]; [x0b]; [x0c]; [x0d]; [x20]; [xc2; x85]; [xc2; xa0]; [xe1; x9a; x80];
   [xe2; x80; x80]; [xe2; x80; x81]; [xe2; x80; x82]; [xe2; x80; x83]; [xe2; x80; x84]; [xe2; x80; x85];
   [xe2; x80; x86]; [xe2; x80; x87]; [xe2; x80; x88]; [xe2; x80; x89]; [xe2; x80; x8a]; [xe2; x80; xa8];
   [xe2; x80; xa9]; [xe2; x80; xaf]; [xe2; x81; x9f]; [xe3; x80; x80]].

Fixpoint strip (fuel : nat) (ws : list gostring) (s : gostring) : gostring :=
  match fuel with
  | O => s
  | S fuel =>
      match List.find (fun w => bool_decide (take (length w) s = w)) ws with
      | Some w => strip fuel ws (drop (length w) s)
      | None => s
      end
  end.

Definition TrimLeft (s : gostring) : gostring := strip (length s) spaces s.
Definition TrimRight (s : gostring) : gostring := rev (strip (length s) (map (@rev byte) spaces) (rev s)).
Definition TrimSpace (s : gostring) : gostring := TrimRight (TrimLeft s).

(** What both ends share: a list of words of which none starts with another. *)
Definition code (ws : list gostring) : Prop :=
  Forall (fun w => w <> [] /\ forall s, List.find (fun v => bool_decide (take (length v) (w ++ s) = v)) ws = Some w) ws.

Lemma spaces_code : code spaces /\ code (map (@rev byte) spaces).
Proof. split; repeat (apply Forall_cons; split; [split; [done|reflexivity]|]); apply Forall_nil; done. Qed.

Lemma strip_words ws us s fuel :
  code ws -> Forall (fun u => u ∈ ws) us -> Forall (fun w => take (length w) s <> w) ws ->
  (length (concat us ++ s) <= fuel)%nat -> strip fuel ws (concat us ++ s) = s.
Proof.
  intros HC HU HN. revert fuel. induction HU as [|u us Hu HU IH]; intros fuel; cbn [concat app].
  - intros _. destruct fuel as [|fuel]; [done|]. cbn [strip].
    destruct (List.find _ ws) as [w|] eqn:EF; [|done].
    apply find_some in EF as [Hin Ht]. bool_prop. rewrite List.Forall_forall in HN. by destruct (HN w Hin).
  - unfold code in HC. rewrite Forall_forall in HC. destruct (HC u Hu) as [Hne Hf]. rewrite <- app_assoc.
    intros Hl. destruct fuel as [|fuel]; [destruct u; cbn in Hl; [done|lia]|]. cbn [strip]. rewrite Hf, drop_length_app.
    apply IH. rewrite length_app in Hl. destruct u; [done|]. cbn in Hl. lia.
Qed.

(** A byte that no space begins or ends with. *)
Definition solid (c : byte) : bool :=
  forallb (fun w => match w with d :: _ => negb (bool_decide (c = d)) | [] => false end)
    (spaces ++ map (@rev byte) spaces).

Lemma solid_head (ws : list gostring) c s :
  forallb (fun w => match w with d :: _ => negb (bool_decide (c = d)) | [] => false end) ws = true ->
  Forall (fun w => take (length w) (c :: s) <> w) ws.
Proof.
  intros HF. apply List.Forall_forall. intros w Hw. rewrite forallb_forall in HF. specialize (HF w Hw).
  destruct w as [|d w]; [done|]. bool_prop. cbn. congruence.
Qed.

Lemma rev_concat (us : list gostring) : rev (concat us) = concat (rev (map (@rev byte) us)).
Proof.
  induction us as [|u us IH]; [done|]. cbn. rewrite rev_app_distr, IH, concat_app. cbn. by rewrite app_nil_r.
Qed.

(** Text that starts and ends with solid bytes is found between any spaces. *)
Lemma TrimSpace_between us vs c d s m :
  Forall (fun u => u ∈ spaces) us -> Forall (fun u => u ∈ spaces) vs ->
  solid c = true -> solid d = true -> c :: s = m ++ [d] ->
  TrimSpace (concat us ++ (c :: s) ++ concat vs) = c :: s.
Proof.
  intros HU HV Hc Hd HE. destruct spaces_code as [HC1 HC2].
  unfold solid in Hc, Hd. rewrite forallb_app in Hc, Hd. bool_prop. unfold TrimSpace, TrimLeft.
  rewrite strip_words; [|done|done|by apply solid_head|done]. unfold TrimRight.
  rewrite rev_app_distr, rev_concat, HE, rev_app_distr. cbn [rev app].
  rewrite strip_words; [cbn; by rewrite rev_involutive|done| |by apply solid_head|].
  - apply Forall_rev, Forall_map. eapply Forall_impl; [exact HV|]. intros u Hu. by apply list_elem_of_fmap_2.
  - rewrite <- rev_concat. rewrite ?length_app, ?length_rev. cbn [length]. rewrite ?length_app, ?length_rev. cbn [length]. lia.
Qed.

End Trim.
Export Trim(TrimSpace).

(** ** sort.Search

    The smallest index in [[0, n)] at which a monotone predicate holds, by
    bisection; [n] if there is none. *)
Module Search.

Fixpoint bisect (fuel : nat) (f : nat -> bool) (i j : nat) : nat :=
  match fuel with
  | O => i
  | S fuel =>
      if (i <? j)%nat then
        let h := ((i + j) / 2)%nat in
        if f h then bisect fuel f i h else bisect fuel f (S h) j
      else i
  end.

(** The loop halves [j - i], so [n] iterations are more than enough. *)
Definition search (n : nat) (f : nat -> bool) : nat := bisect n f 0 n.

Lemma bisect_spec fuel f i j n :
  (i <= j <= n)%nat -> (j - i <= fuel)%nat ->
  (forall k, (k < i)%nat -> f k = false) ->
  (forall k, (j <= k < n)%nat -> f k = true) ->
  (forall a b, (a <= b < n)%nat -> f a = true -> f b = true) ->
  let r := bisect fuel f i j in
  (i <= r <= j)%nat /\ (forall k, (k < r)%nat -> f k = false) /\
  (forall k, (r <= k < n)%nat -> f k = true).
Proof.
  revert i j. induction fuel as [|fuel IH]; intros i j Hij Hf Hlo Hhi Hm; cbn [bisect].
  { assert (i = j) by lia. subst. split; [lia|]. split; auto. }
  destruct (Nat.ltb_spec i j) as [Hlt|Hge]; [|assert (i = j) by lia; subst; split; [lia|split; auto]].
  set (h := ((i + j) / 2)%nat).
  assert (Hh : (i <= h < j)%nat) by (unfold h; pose proof (Nat.div_mod_eq (i + j) 2); pose proof (Nat.mod_upper_bound (i + j) 2); lia).
  destruct (f h) eqn:E.
  - destruct (IH i h) as (? & ? & ?); [lia|lia|done| |done|].
    + intros k Hk. apply (Hm h k); [lia|done].
    + split; [lia|auto].
  - destruct (IH (S h) j) as (? & ? & ?); [lia|lia| |done|done|].
    + intros k Hk. destruct (f k) eqn:Ek; [|done].
      rewrite (Hm k h) in E; [done| lia | done].
    + split; [lia|auto].
Qed.

Lemma search_spec n f :
  (forall a b, (a <= b < n)%nat -> f a = true -> f b = true) ->
  let r := search n f in
  (r <= n)%nat /\ (forall k, (k < r)%nat -> f k = false) /\
  (forall k, (r <= k < n)%nat -> f k = true).
Proof.
  intros Hm. pose proof (bisect_spec n f 0 n n) as H. cbn zeta in *.
  destruct H as (? & ? & ?); try lia; auto; split; [|split]; auto; unfold search; lia.
Qed.

(** In range whatever the predicate. *)
Lemma search_le n f : (search n f <= n)%nat.
Proof.
  unfold search. assert (G : forall fuel i j, (i <= j)%nat -> (bisect fuel f i j <= j)%nat); [|apply G; lia].
  induction fuel as [|fuel IH]; intros i j Hij; cbn [bisect]; [done|].
  destruct (Nat.ltb_spec i j) as [Hlt|]; [|done].
  assert (i <= (i + j) / 2 < j)%nat
    by (pose proof (Nat.div_mod_eq (i + j) 2); pose proof (Nat.mod_upper_bound (i + j) 2); lia).
  destruct (f _); [etrans; [apply IH|]; lia|apply IH; lia].
Qed.

Lemma search_unique n f r :
  (r <= n)%nat -> (forall k, (k < r)%nat -> f k = false) ->
  (forall k, (r <= k < n)%nat -> f k = true) -> search n f = r.
Proof.
  intros Hr Hlo Hhi.
  destruct (search_spec n f) as (H1 & H2 & H3).
  { intros a b Hab Ha. destruct (decide (a < r)%nat) as [Hl|Hl].
    - rewrite Hlo in Ha; [done|done].
    - apply Hhi. lia. }
  destruct (Nat.lt_trichotomy (search n f) r) as [L|[->|L]]; [|done|].
  - specialize (Hlo _ L). rewrite H3 in Hlo; [done|lia].
  - specialize (H2 _ L). rewrite Hhi in H2; [done|lia].
Qed.

End Search.

(** ** encoding/binary, big endian *)
Module BE.

Definition put16 (v : Z) : list byte := [z2b (Z.shiftr v 8); z2b v].
Definition put32 (v : Z) : list byte :=
  [z2b (Z.shiftr v 24); z2b (Z.shiftr v 16); z2b (Z.shiftr v 8); z2b v].

Definition get16 (b : list byte) : Z :=
  Z.lor (b2z (b !!! 1%nat)) (Z.shiftl (b2z (b !!! 0%nat)) 8).
Definition get32 (b : list byte) : Z :=
  Z.lor (Z.lor (Z.lor (b2z (b !!! 3%nat)) (Z.shiftl (b2z (b !!! 2%nat)) 8))
    (Z.shiftl (b2z (b !!! 1%nat)) 16)) (Z.shiftl (b2z (b !!! 0%nat)) 24).

(** Disjoint bit ranges: [lor] is addition. *)
Lemma lor_shiftl_add a b n : 0 <= n -> 0 <= a < 2 ^ n -> Z.lor a (Z.shiftl b n) = a + b * 2 ^ n.
Proof.
  intros Hn Ha. rewrite Z.shiftl_mul_pow2 by done. rewrite Z.add_nocarry_lxor, Z.lxor_lor; try done.
  all: apply Z.bits_inj'; intros i Hi; rewrite Z.land_spec, Z.bits_0;
    destruct (decide (i < n)); [by rewrite Z.mul_pow2_bits_low, andb_false_r by lia|];
    destruct (decide (a = 0)) as [->|]; [by rewrite Z.bits_0|];
    rewrite (Z.bits_above_log2 a) by (try (apply Z.log2_lt_pow2; [lia|];
      apply Z.lt_le_trans with (2 ^ n); [lia|apply Z.pow_le_mono_r; lia]); lia); done.
Qed.

Lemma get16_put16 v r : 0 <= v < 2 ^ 16 -> get16 (put16 v ++ r) = v.
Proof.
  intros Hv. unfold get16, put16. cbn. rewrite !b2z_z2b, Z.shiftr_div_pow2 by lia.
  rewrite lor_shiftl_add by dlia. dlia.
Qed.

Lemma get32_put32 v r : 0 <= v < 2 ^ 32 -> get32 (put32 v ++ r) = v.
Proof.
  intros Hv. unfold get32, put32. cbn. rewrite !b2z_z2b, !Z.shiftr_div_pow2 by lia.
  rewrite (lor_shiftl_add _ _ 8), (lor_shiftl_add _ _ 16), (lor_shiftl_add _ _ 24)
    by dlia.
  dlia.
Qed.

Lemma put16_mod v : put16 (v mod 2 ^ 16) = put16 v.
Proof.
  unfold put16. rewrite !Z.shiftr_div_pow2 by lia.
  f_equal; [|f_equal]; apply b2z_inj; rewrite !b2z_z2b; dlia.
Qed.

Lemma put32_mod v : put32 (v mod 2 ^ 32) = put32 v.
Proof.
  unfold put32. rewrite !Z.shiftr_div_pow2 by lia.
  repeat (f_equal; [apply b2z_inj; rewrite !b2z_z2b; dlia|]).
  f_equal. apply b2z_inj. rewrite !b2z_z2b. dlia.
Qed.

Lemma get16_range b : 0 <= get16 b < 2 ^ 16.
Proof.
  unfold get16. pose proof (b2z_range (b !!! 0%nat)). pose proof (b2z_range (b !!! 1%nat)).
  rewrite lor_shiftl_add by lia. lia.
Qed.

Lemma get32_range b : 0 <= get32 b < 2 ^ 32.
Proof.
  unfold get32. pose proof (b2z_range (b !!! 0%nat)). pose proof (b2z_range (b !!! 1%nat)).
  pose proof (b2z_range (b !!! 2%nat)). pose proof (b2z_range (b !!! 3%nat)).
  rewrite (lor_shiftl_add _ _ 8), (lor_shiftl_add _ _ 16), (lor_shiftl_add _ _ 24) by lia. lia.
Qed.

(** Eight bytes. *)
Definition put64 (v : Z) : list byte :=
  [z2b (Z.shiftr v 56); z2b (Z.shiftr v 48); z2b (Z.shiftr v 40); z2b (Z.shiftr v 32);
   z2b (Z.shiftr v 24); z2b (Z.shiftr v 16); z2b (Z.shiftr v 8); z2b v].

Definition get64 (b : list byte) : Z :=
  Z.lor (Z.lor (Z.lor (Z.lor (Z.lor (Z.lor (Z.lor (b2z (b !!! 7%nat)) (Z.shiftl (b2z (b !!! 6%nat)) 8))
    (Z.shiftl (b2z (b !!! 5%nat)) 16)) (Z.shiftl (b2z (b !!! 4%nat)) 24)) (Z.shiftl (b2z (b !!! 3%nat)) 32))
    (Z.shiftl (b2z (b !!! 2%nat)) 40)) (Z.shiftl (b2z (b !!! 1%nat)) 48)) (Z.shiftl (b2z (b !!! 0%nat)) 56).

(** The same number, most significant digit first. *)
Fixpoint be (n : nat) (v : Z) : list byte :=
  match n with O => [] | S n => z2b (v / 256 ^ Z.of_nat n) :: be n v end.

Lemma put64_be v : put64 v = be 8 v.
Proof. unfold put64. cbn [be Z.of_nat]. rewrite !Z.shiftr_div_pow2 by lia. by rewrite Z.div_1_r. Qed.

Lemma length_be n v : length (be n v) = n.
Proof. induction n as [|n IH]; [done|]. cbn. by rewrite IH. Qed.

Lemma be_mod n v m : (n <= m)%nat -> be n (v mod 256 ^ Z.of_nat m) = be n v.
Proof.
  revert m. induction n as [|n IH]; intros m Hm; cbn; [done|]. f_equal; [|apply IH; lia].
  apply b2z_inj. rewrite !b2z_z2b.
  replace (256 ^ Z.of_nat m) with (256 ^ Z.of_nat n * 256 * 256 ^ Z.of_nat (m - S n)).
  - set (p := 256 ^ Z.of_nat n). assert (0 < p) by (apply Z.pow_pos_nonneg; lia).
    set (q := 256 ^ Z.of_nat (m - S n)). assert (0 < q) by (apply Z.pow_pos_nonneg; lia).
    replace (p * 256 * q) with (p * (256 * q)) by lia. rewrite Z.rem_mul_r by lia.
    replace (v mod p + p * ((v / p) mod (256 * q))) with (v mod p + ((v / p) mod (256 * q)) * p) by lia.
    rewrite Z.div_add by lia. rewrite (Z.div_small (v mod p)) by (apply Z.mod_pos_bound; lia). cbn.
    apply Z.mod_mod_divide. by exists q; rewrite Z.mul_comm.
  - replace (256 ^ Z.of_nat n * 256) with (256 ^ (Z.of_nat n + 1)) by (rewrite Z.pow_add_r by lia; lia).
    rewrite <- Z.pow_add_r by lia. f_equal. lia.
Qed.

(** Big-endian byte order is numeric order. *)
Lemma compare_be n a b :
  0 <= a < 256 ^ Z.of_nat n -> 0 <= b < 256 ^ Z.of_nat n -> Cmp.compare (be n a) (be n b) = (a ?= b).
Proof.
  revert a b. induction n as [|n IH]; intros a b Ha Hb; cbn [be Cmp.compare].
  { cbn in *. symmetry. apply Z.compare_eq_iff. lia. }
  rewrite !b2z_z2b. set (p := 256 ^ Z.of_nat n) in *. assert (0 < p) by (apply Z.pow_pos_nonneg; lia).
  replace (256 ^ Z.of_nat (S n)) with (256 * p) in * by (subst p; rewrite Nat2Z.inj_succ, Z.pow_succ_r by lia; done).
  pose proof (Z.div_mod a p ltac:(lia)). pose proof (Z.div_mod b p ltac:(lia)).
  pose proof (Z.mod_pos_bound a p ltac:(lia)). pose proof (Z.mod_pos_bound b p ltac:(lia)).
  rewrite !Z.mod_small by (split; [apply Z.div_pos; lia|apply Z.div_lt_upper_bound; lia]).
  destruct (Z.compare_spec (a / p) (b / p)) as [E|E|E].
  - rewrite <- (be_mod n a n), <- (be_mod n b n) by lia. fold p. rewrite IH by done.
    destruct (Z.compare_spec (a mod p) (b mod p)); symmetry;
      [apply Z.compare_eq_iff|apply Z.compare_lt_iff|apply Z.compare_gt_iff]; nia.
  - symmetry. apply Z.compare_lt_iff. nia.
  - symmetry. apply Z.compare_gt_iff. nia.
Qed.

Lemma get64_put64 v r : 0 <= v < 2 ^ 64 -> get64 (put64 v ++ r) = v.
Proof.
  intros Hv. unfold get64, put64. cbn [app lookup_total list_lookup_total]. rewrite !b2z_z2b, !Z.shiftr_div_pow2 by lia.
  rewrite (lor_shiftl_add _ _ 8), (lor_shiftl_add _ _ 16), (lor_shiftl_add _ _ 24), (lor_shiftl_add _ _ 32),
    (lor_shiftl_add _ _ 40), (lor_shiftl_add _ _ 48), (lor_shiftl_add _ _ 56) by dlia.
  dlia.
Qed.

Lemma length_put64 v : length (put64 v) = 8%nat.
Proof. done. Qed.

Lemma compare_put64 a b : 0 <= a < 2 ^ 64 -> 0 <= b < 2 ^ 64 -> Cmp.compare (put64 a) (put64 b) = (a ?= b).
Proof. intros. rewrite !put64_be. by apply compare_be. Qed.

Lemma put64_inj a b : 0 <= a < 2 ^ 64 -> 0 <= b < 2 ^ 64 -> put64 a = put64 b -> a = b.
Proof. intros Ha Hb HE. apply Z.compare_eq_iff. rewrite <- compare_put64 by done. rewrite HE. apply Cmp.compare_refl. Qed.

End BE.

(** * encoding/base64: StdEncoding

    What the payload formats use of Go's base64: encoding with padding, and the
    decoder, which skips carriage returns and newlines, wants full quanta and
    ignores the unused low bits of the last one. *)

Module B64.

Definition alphabet : gostring :=
  bs "ABCDEFGHIJKLMNOPQRSTUVWXYZabcdefghijklmnopqrstuvwxyz0123456789+/".

Definition char (n : Z) : byte := alphabet !!! Z.to_nat n.

Definition val (c : byte) : option Z :=
  let z := b2z c in
  if (65 <=? z) && (z <=? 90) then Some (z - 65)
  else if (97 <=? z) && (z <=? 122) then Some (z - 71)
  else if (48 <=? z) && (z <=? 57) then Some (z + 4)
  else if z =? 43 then Some 62
  else if z =? 47 then Some 63
  else None.

Definition pad_char : byte := "="%byte.

Fixpoint encode (l : list byte) : gostring :=
  match l with
  | a :: b :: c :: r =>
      let v := b2z a * 65536 + b2z b * 256 + b2z c in
      char (v / 262144) :: char (v / 4096 mod 64) :: char (v / 64 mod 64) :: char (v mod 64) :: encode r
  | [a; b] =>
      let v := b2z a * 65536 + b2z b * 256 in
      [char (v / 262144); char (v / 4096 mod 64); char (v / 64 mod 64); pad_char]
  | [a] =>
      let v := b2z a * 65536 in
      [char (v / 262144); char (v / 4096 mod 64); pad_char; pad_char]
  | [] => []
  end.

(** The decoder after the line breaks have been skipped. *)
Fixpoint quanta (s : gostring) : option (list byte) :=
  match s with
  | [] => Some []
  | a :: b :: c :: d :: r =>
      x ← val a; y ← val b;
      if decide (c = pad_char) then
        if decide (d = pad_char /\ r = []) then Some [z2b (x * 4 + y / 16)] else None
      else
        z ← val c;
        if decide (d = pad_char) then
          if decide (r = []) then Some [z2b (x * 4 + y / 16); z2b (y * 16 + z / 4)] else None
        else
          w ← val d; l ← quanta r;
          Some (z2b (x * 4 + y / 16) :: z2b (y * 16 + z / 4) :: z2b (z * 64 + w) :: l)
  | _ => None
  end.

Definition decode (s : gostring) : option (list byte) :=
  quanta (List.filter (fun c => negb (bool_decide (c = x0a)) && negb (bool_decide (c = x0d))) s).

Lemma val_char n : 0 <= n < 64 -> val (char n) = Some n.
Proof.
  intros Hn. assert (Hall : forallb (fun k => bool_decide (val (char (Z.of_nat k)) = Some (Z.of_nat k))) (seq 0 64) = true)
    by (vm_compute; reflexivity).
  rewrite forallb_forall in Hall. specialize (Hall (Z.to_nat n)). rewrite in_seq in Hall.
  specialize (Hall ltac:(lia)). apply bool_decide_eq_true in Hall. by rewrite Z2Nat.id in Hall by lia.
Qed.

(** An alphabet character is neither padding nor a line break. *)
Lemma char_plain n : 0 <= n < 64 -> char n <> pad_char /\ char n <> x0a /\ char n <> x0d.
Proof. intros Hn. pose proof (val_char n Hn) as HV. split_and!; intros HE; by rewrite HE in HV. Qed.

Lemma sextets v : 0 <= v < 16777216 ->
  0 <= v / 262144 < 64 /\ 0 <= v / 4096 mod 64 < 64 /\ 0 <= v / 64 mod 64 < 64 /\ 0 <= v mod 64 < 64.
Proof. intros. split_and!; dlia. Qed.

Lemma quanta_encode l : quanta (encode l) = Some l.
Proof.
  remember (length l) as n eqn:Hn. revert l Hn. induction (lt_wf n) as [n _ IH]. intros l ->.
  destruct l as [|a [|b [|c r]]]; [done|..].
  - pose proof (b2z_range a). destruct (sextets (b2z a * 65536)) as (S1 & S2 & _); [lia|].
    cbn [encode quanta]. rewrite !val_char by done. cbn [mbind option_bind].
    rewrite decide_True by done. rewrite decide_True by done. do 2 f_equal.
    apply b2z_inj. rewrite b2z_z2b. dlia.
  - pose proof (b2z_range a). pose proof (b2z_range b).
    destruct (sextets (b2z a * 65536 + b2z b * 256)) as (S1 & S2 & S3 & _); [lia|].
    cbn [encode quanta]. rewrite !val_char by done. cbn [mbind option_bind].
    rewrite decide_False by (by apply char_plain). rewrite (decide_True (P := pad_char = pad_char)) by done.
    rewrite decide_True by done. f_equal. f_equal; [|f_equal]; apply b2z_inj; rewrite b2z_z2b; dlia.
  - pose proof (b2z_range a). pose proof (b2z_range b). pose proof (b2z_range c).
    destruct (sextets (b2z a * 65536 + b2z b * 256 + b2z c)) as (S1 & S2 & S3 & S4); [lia|].
    cbn [encode quanta]. rewrite !val_char by done. cbn [mbind option_bind].
    rewrite decide_False by (by apply char_plain). rewrite decide_False by (by apply char_plain).
    rewrite (IH (length r)) by (cbn; lia || done). cbn [mbind option_bind].
    f_equal. f_equal; [|f_equal; [|f_equal]]; apply b2z_inj; rewrite b2z_z2b; dlia.
Qed.

Lemma encode_plain l : Forall (fun c => c <> x0a /\ c <> x0d) (encode l).
Proof.
  remember (length l) as n eqn:Hn. revert l Hn. induction (lt_wf n) as [n _ IH]. intros l ->.
  destruct l as [|a [|b [|c r]]]; [constructor|..]; cbn [encode].
  - pose proof (b2z_range a). destruct (sextets (b2z a * 65536)) as (S1 & S2 & _); [lia|].
    repeat (apply Forall_cons; split); try apply Forall_nil; (done || (split; by apply char_plain)).
  - pose proof (b2z_range a). pose proof (b2z_range b).
    destruct (sextets (b2z a * 65536 + b2z b * 256)) as (S1 & S2 & S3 & _); [lia|].
    repeat (apply Forall_cons; split); try apply Forall_nil; (done || (split; by apply char_plain)).
  - pose proof (b2z_range a). pose proof (b2z_range b). pose proof (b2z_range c).
    destruct (sextets (b2z a * 65536 + b2z b * 256 + b2z c)) as (S1 & S2 & S3 & S4); [lia|].
    do 4 (constructor; [split; by apply char_plain|]). apply (IH (length r)); [cbn; lia|done].
Qed.

Lemma b64_decode_encode l : decode (encode l) = Some l.
Proof.
  unfold decode. transitivity (quanta (encode l)); [|apply quanta_encode]. f_equal.
  pose proof (encode_plain l) as HF. induction (encode l) as [|c s IH]; cbn; [done|].
  inversion HF as [|? ? [H1 H2] HF']; subst. rewrite !bool_decide_false by done. cbn. f_equal. by apply IH.
Qed.

End B64.

#[export] Hint Rewrite B64.b64_decode_encode : nmilat.
