(* ===== verification/GoHeap.v ===== *)
(** * container/heap

    Go's binary heap over a slice: Push and Pop with their [up] and [down]
    loops, for an arbitrary [Less].  Under a total preorder the root of a
    heap is a least element, and both operations keep the heap and its
    elements. *)

From S2P Require Import Prelude.

Section Heap.
Context {A : Type} (less : A -> A -> bool).

(** [h.Less(i, j)] and [h.Swap(i, j)] on a slice; the loops stay in range. *)
Definition less_at (l : list A) (i j : nat) : bool :=
  match l !! i, l !! j with Some a, Some b => less a b | _, _ => false end.

Definition swap (l : list A) (i j : nat) : list A :=
  match l !! i, l !! j with Some a, Some b => <[i := b]> (<[j := a]> l) | _, _ => l end.

(** [(j - 1) / 2], truncated towards zero: the root is its own parent. *)
Definition parent (j : nat) : nat := ((j - 1) / 2)%nat.

Fixpoint up (fuel : nat) (l : list A) (j : nat) : list A :=
  match fuel with
  | O => l
  | S fuel =>
      let i := parent j in
      if (i =? j)%nat || negb (less_at l j i) then l else up fuel (swap l i j) i
  end.

Fixpoint down (fuel : nat) (l : list A) (i n : nat) : list A :=
  match fuel with
  | O => l
  | S fuel =>
      let j1 := (2 * i + 1)%nat in
      if (n <=? j1)%nat then l
      else
        let j := if (j1 + 1 <? n)%nat && less_at l (j1 + 1) j1 then (j1 + 1)%nat else j1 in
        if negb (less_at l j i) then l else down fuel (swap l i j) j n
  end.

(** heap.Push and heap.Pop (None: an empty heap, on which Go panics). *)
Definition push (l : list A) (x : A) : list A := up (length l + 1) (l ++ [x]) (length l).

Definition pop (l : list A) : option (A * list A) :=
  match length l with
  | O => None
  | S n =>
      let l' := down (length l) (swap l 0 n) 0 n in
      match l' !! n with Some a => Some (a, take n l') | None => None end
  end.

(** ** Swapping *)

Lemma length_swap l i j : length (swap l i j) = length l.
Proof. unfold swap. repeat case_match; by rewrite ?length_insert. Qed.

Lemma swap_lookup l i j a b k :
  l !! i = Some a -> l !! j = Some b ->
  swap l i j !! k = if decide (k = i) then Some b else if decide (k = j) then Some a else l !! k.
Proof.
  intros Hi Hj. unfold swap. rewrite Hi, Hj. apply lookup_lt_Some in Hi as Li. apply lookup_lt_Some in Hj as Lj.
  destruct (decide (k = i)) as [->|Hk].
  - rewrite list_lookup_insert_eq; [done|]. by rewrite length_insert.
  - rewrite list_lookup_insert_ne by done. destruct (decide (k = j)) as [->|]; [by rewrite list_lookup_insert_eq|].
    by rewrite list_lookup_insert_ne.
Qed.

Lemma swap_perm l i j : swap l i j ≡ₚ l.
Proof.
  unfold swap. destruct (l !! i) as [a|] eqn:Hi; [|done]. destruct (l !! j) as [b|] eqn:Hj; [|done].
  destruct (decide (i = j)) as [->|Hij].
  { rewrite list_insert_insert_eq. by rewrite list_insert_id by congruence. }
  apply Permutation_inj. split; [by rewrite !length_insert|].
  exists (fun k => if decide (k = i) then j else if decide (k = j) then i else k). split.
  - intros x y. repeat case_decide; intros; subst; congruence.
  - intros k. pose proof (swap_lookup l i j a b k Hi Hj) as HS. unfold swap in HS. rewrite Hi, Hj in HS. rewrite HS.
    repeat case_decide; subst; congruence.
Qed.

Lemma up_perm fuel l j : up fuel l j ≡ₚ l.
Proof.
  revert l j. induction fuel as [|fuel IH]; intros l j; cbn [up]; [done|].
  case_match; [done|]. by rewrite IH, swap_perm.
Qed.

Lemma down_perm fuel l i n : down fuel l i n ≡ₚ l.
Proof.
  revert l i. induction fuel as [|fuel IH]; intros l i; cbn [down]; [done|].
  case_match; [done|]. case_match; [done|]. by rewrite IH, swap_perm.
Qed.

Lemma push_perm l x : push l x ≡ₚ x :: l.
Proof. unfold push. rewrite up_perm. by rewrite Permutation_app_comm. Qed.

(** ** The heap property *)

Definition le (a b : A) : Prop := less b a = false.
Context (le_refl : forall a, le a a) (le_trans : forall a b c, le a b -> le b c -> le a c)
        (less_le : forall a b, less a b = true -> le a b).
#[local] Set Default Proof Using "All".

(** Every element of the first [n] is no less than its parent, except possibly at [j];
    what hangs below [j] is no less than [j]'s parent. *)
Definition heap_but (l : list A) (n : nat) (bad : nat -> Prop) : Prop :=
  forall i a b, (0 < i < n)%nat -> ~ bad i -> l !! parent i = Some a -> l !! i = Some b -> le a b.

Definition heap_ok (l : list A) : Prop := heap_but l (length l) (fun _ => False).

Definition grand_ok (l : list A) (n j : nat) : Prop :=
  forall i a b, (0 < j)%nat -> (0 < i < n)%nat -> parent i = j -> l !! parent j = Some a -> l !! i = Some b -> le a b.

Lemma parent_lt j : (0 < j)%nat -> (parent j < j)%nat.
Proof. intros. unfold parent. pose proof (Nat.div_mod_eq (j - 1) 2). lia. Qed.

Lemma parent_child i k : (0 < k)%nat -> parent k = i <-> k = (2 * i + 1)%nat \/ k = (2 * i + 2)%nat.
Proof.
  intros. unfold parent. pose proof (Nat.div_mod_eq (k - 1) 2). pose proof (Nat.mod_upper_bound (k - 1) 2). lia.
Qed.

Lemma up_ok fuel l j :
  (j < fuel)%nat -> (j < length l)%nat ->
  heap_but l (length l) (fun i => i = j) -> grand_ok l (length l) j -> heap_ok (up fuel l j).
Proof.
  revert l j. induction fuel as [|fuel IH]; intros l j Hf Hj HB HG; [lia|]. cbn [up].
  destruct (Nat.eqb_spec (parent j) j) as [E|E]; cbn [orb].
  { intros i a b Hi _. apply HB; [done|]. intros ->. pose proof (parent_lt j). lia. }
  assert (H0 : (0 < j)%nat) by (destruct j; [done|lia]). pose proof (parent_lt j H0) as HP.
  destruct (lookup_lt_is_Some_2 l (parent j)) as [p Hp]; [lia|].
  destruct (lookup_lt_is_Some_2 l j) as [x Hx]; [done|].
  unfold less_at. rewrite Hx, Hp. destruct (less x p) eqn:EL; cbn [negb]; last first.
  { intros i a b Hi _ Ha Hb. destruct (decide (i = j)) as [->|]; [|by eapply HB].
    unfold le. congruence. }
  assert (HL : forall k, swap l (parent j) j !! k
    = if decide (k = parent j) then Some x else if decide (k = j) then Some p else l !! k)
    by (intros; by apply swap_lookup).
  apply IH; rewrite ?length_swap; [lia|lia| |].
  - intros i a b Hi Hne. rewrite !HL. rewrite (decide_False (P := i = parent j)) by done.
    destruct (decide (i = j)) as [->|Hij].
    { rewrite decide_True by done. intros [= <-] [= <-]. by apply less_le. }
    destruct (decide (parent i = parent j)) as [E1|E1].
    { intros [= <-] Hb. apply le_trans with p; [by apply less_le|]. apply (HB i); [done|done|by rewrite E1|done]. }
    destruct (decide (parent i = j)) as [E2|E2]; [|by intros; eapply HB].
    intros [= <-] Hb. by eapply HG.
  - intros i a b Hpos Hi E1. rewrite !HL. pose proof (parent_lt (parent j) Hpos) as HPP.
    rewrite !(decide_False (P := parent (parent j) = _)) by lia.
    assert (i <> parent j) by (intros ->; lia). rewrite (decide_False (P := i = parent j)) by done.
    intros Ha. assert (Hap : le a p) by (by apply (HB (parent j)); [lia|lia|..]).
    destruct (decide (i = j)) as [->|Hij]; [by intros [= <-]|]. intros Hb.
    apply le_trans with p; [done|]. apply (HB i); [done|done|by rewrite E1|done].
Qed.

Lemma push_ok l x : heap_ok l -> heap_ok (push l x).
Proof.
  intros HO. unfold push. apply up_ok; rewrite ?length_app; cbn [length]; [lia|lia| |].
  - intros i a b Hi Hne. pose proof (parent_lt i ltac:(lia)). rewrite !lookup_app_l by lia. apply HO; [lia|tauto].
  - intros i a b _ Hi HP. pose proof (parent_lt i ltac:(lia)). lia.
Qed.

Lemma down_ok fuel l i n :
  (n <= fuel + i)%nat -> (n <= length l)%nat -> (i < n \/ n = 0)%nat ->
  heap_but l n (fun k => parent k = i) -> grand_ok l n i ->
  heap_but (down fuel l i n) n (fun _ => False).
Proof.
  revert l i. induction fuel as [|fuel IH]; intros l i Hf Hn Hi HB HG; cbn [down].
  { intros k a b Hk _. apply HB; [done|]. intros E. pose proof (parent_lt k ltac:(lia)). lia. }
  destruct (Nat.leb_spec n (2 * i + 1)) as [Hlt|Hge].
  { intros k a b Hk _. apply HB; [done|]. intros E. apply parent_child in E; lia. }
  destruct (lookup_lt_is_Some_2 l i) as [r Hr]; [lia|].
  destruct (lookup_lt_is_Some_2 l (2 * i + 1)) as [x1 Hx1]; [lia|].
  set (j := if _ && _ then _ else _).
  assert (HJ : exists x, l !! j = Some x /\ (j = 2 * i + 1 \/ j = 2 * i + 2)%nat /\ (j < n)%nat /\
    forall k y, (0 < k < n)%nat -> parent k = i -> l !! k = Some y -> le x y).
  { subst j. destruct (Nat.ltb_spec (2 * i + 1 + 1) n) as [H2|H2]; cbn [andb].
    - destruct (lookup_lt_is_Some_2 l (2 * i + 1 + 1)) as [x2 Hx2]; [lia|].
      unfold less_at. rewrite Hx2, Hx1. destruct (less x2 x1) eqn:EL.
      + exists x2. split; [done|]. split; [lia|]. split; [lia|]. intros k y Hk E Hy.
        apply parent_child in E as [->| ->]; [| |lia].
        * rewrite Hx1 in Hy. injection Hy as <-. by apply less_le.
        * replace (2 * i + 2)%nat with (2 * i + 1 + 1)%nat in Hy by lia. rewrite Hx2 in Hy. injection Hy as <-. done.
      + exists x1. split; [done|]. split; [lia|]. split; [lia|]. intros k y Hk E Hy.
        apply parent_child in E as [->| ->]; [| |lia].
        * rewrite Hx1 in Hy. injection Hy as <-. done.
        * replace (2 * i + 2)%nat with (2 * i + 1 + 1)%nat in Hy by lia. rewrite Hx2 in Hy. injection Hy as <-. done.
    - exists x1. split; [done|]. split; [lia|]. split; [lia|]. intros k y Hk E Hy.
      apply parent_child in E as [->| ->]; [|lia..]. rewrite Hx1 in Hy. injection Hy as <-. done. }
  clearbody j. destruct HJ as (x & Hx & Hj & Hjn & Hmin).
  unfold less_at. rewrite Hx, Hr. destruct (less x r) eqn:EL; cbn [negb]; last first.
  { intros k a b Hk _ Ha Hb. destruct (decide (parent k = i)) as [E|]; [|by eapply HB].
    rewrite E, Hr in Ha. injection Ha as <-. apply le_trans with x; [done|]. by eapply Hmin. }
  assert (HP : parent j = i) by (apply parent_child; lia).
  assert (HL : forall k, swap l i j !! k = if decide (k = i) then Some x else if decide (k = j) then Some r else l !! k)
    by (intros; by apply swap_lookup).
  apply IH; rewrite ?length_swap; [lia|lia|lia| |].
  - intros k a b Hk Hne. rewrite !HL. rewrite (decide_False (P := parent k = j)) by done.
    destruct (decide (parent k = i)) as [E|E].
    + intros [= <-]. assert (k <> i) by (intros ->; pose proof (parent_lt i ltac:(lia)); lia).
      rewrite (decide_False (P := k = i)) by done. destruct (decide (k = j)) as [->|]; [intros [= <-]; by apply less_le|].
      intros. by eapply Hmin.
    + destruct (decide (k = i)) as [->|]; [|rewrite decide_False by (intros ->; done); intros; by eapply HB].
      intros Ha [= <-]. apply (HG j); [lia|lia|done|done|done].
  - intros k a b _ Hk E. rewrite HP, !HL. rewrite decide_True by done. intros [= <-].
    pose proof (parent_lt k ltac:(lia)). rewrite !decide_False by lia. intros Hb.
    apply (HB k); [done|lia|by rewrite E|done].
Qed.

Lemma root_least l a : heap_ok l -> l !! 0%nat = Some a -> forall b, b ∈ l -> le a b.
Proof.
  intros HO Ha b Hb. apply list_elem_of_lookup in Hb as [i Hi]. revert b Hi.
  induction (lt_wf i) as [i _ IH]. intros b Hi. destruct (decide (i = 0%nat)) as [->|Hne].
  { rewrite Ha in Hi. injection Hi as <-. done. }
  apply lookup_lt_Some in Hi as Hl. pose proof (parent_lt i ltac:(lia)) as HP.
  destruct (lookup_lt_is_Some_2 l (parent i)) as [p Hp]; [lia|].
  apply le_trans with p; [by apply (IH (parent i))|]. apply (HO i); [lia|tauto|done|done].
Qed.

Lemma length_down fuel l i n : length (down fuel l i n) = length l.
Proof. apply Permutation_length, down_perm. Qed.

(** [down] leaves what lies at [n] or above alone. *)
Lemma down_above fuel l i n k : (i < n)%nat -> (n <= k)%nat -> down fuel l i n !! k = l !! k.
Proof.
  revert l i. induction fuel as [|fuel IH]; intros l i Hi Hk; cbn [down]; [done|].
  destruct (Nat.leb_spec n (2 * i + 1)) as [|Hge]; [done|]. set (j := if _ && _ then _ else _).
  assert (Hj : (j < n)%nat) by (subst j; destruct (Nat.ltb_spec (2 * i + 1 + 1) n), (less_at l (2 * i + 1 + 1) (2 * i + 1)); cbn; lia).
  case_match; [done|]. rewrite IH by done. unfold swap. repeat case_match; [|done..].
  by rewrite !list_lookup_insert_ne by lia.
Qed.

(** Pop takes a least element out and leaves a heap of the others. *)
Lemma pop_spec l :
  heap_ok l -> match pop l with
               | None => l = []
               | Some (a, l') => l ≡ₚ a :: l' /\ heap_ok l' /\ forall b, b ∈ l -> le a b
               end.
Proof.
  intros HO. unfold pop. destruct (length l) as [|n] eqn:EL; [by apply nil_length_inv|].
  set (d := down _ _ 0 n).
  assert (HLd : length d = S n) by (subst d; by rewrite length_down, length_swap).
  destruct (lookup_lt_is_Some_2 l 0) as [a Ha]; [lia|]. destruct (lookup_lt_is_Some_2 l n) as [z Hz]; [lia|].
  assert (HS : forall k, swap l 0 n !! k = if decide (k = 0%nat) then Some z else if decide (k = n) then Some a else l !! k)
    by (intros; by apply swap_lookup).
  assert (Hn : d !! n = Some a).
  { subst d. destruct n as [|n].
    - cbn [down]. rewrite (proj2 (Nat.leb_le 0 _)) by lia. rewrite HS. by destruct (decide _); [congruence|].
    - rewrite down_above by lia. rewrite HS. by rewrite decide_False, decide_True by lia. }
  rewrite Hn.
  assert (HD : heap_but d n (fun _ => False)).
  { subst d. apply down_ok; rewrite ?length_swap; [lia|lia|lia| |intros i ? ? ?; lia].
    intros k b c Hk Hp. rewrite !HS. pose proof (parent_lt k ltac:(lia)).
    rewrite !decide_False by lia. apply HO; [lia|tauto]. }
  split; [|split].
  - rewrite <- (swap_perm l 0 n). rewrite <- (down_perm (S n) (swap l 0 n) 0 n). fold d.
    rewrite <- (take_drop n d) at 1. rewrite (drop_S d a n Hn). rewrite (drop_ge d (S n)) by lia.
    by rewrite Permutation_app_comm.
  - intros k b c. rewrite length_take, HLd. intros Hk _. pose proof (parent_lt k ltac:(lia)).
    rewrite !lookup_take_lt by lia. apply HD; [lia|tauto].
  - by apply root_least.
Qed.

Lemma heap_ok_nil : heap_ok [].
Proof. intros i a b Hi. cbn in Hi. lia. Qed.

End Heap.
