(* ===== verification/Bolt.v ===== *)
(** * The embedded database

    The relay keeps its events in bbolt, a key/value store outside this
    repository: a bucket holds pairs ordered byte-wise by key, and a sequence
    number.  Its operations are the class [Bolt], its documented behaviour
    [BoltLaws], stated over the pairs [kv] a bucket holds; [map_bolt] is an
    instance.  [walk] is what a cursor yields when it is moved back from a key
    until the bucket ends. *)

From S2P Require Import Prelude GoLib.

Definition MaxKeySize : Z := 32768.
Definition MaxValueSize : Z := 2 ^ 31 - 2.

(** What Put accepts. *)
Definition put_ok (k v : gostring) : bool :=
  negb (bool_decide (k = [])) && (zlen k <=? MaxKeySize) && (zlen v <=? MaxValueSize).

Class Bolt := {
  Bucket : Type;
  kv : Bucket -> gmap gostring gostring;
  EmptyBucket : Bucket;
  Get : Bucket -> gostring -> option gostring;
  (** None: the error of a key or value Put does not accept *)
  Put : Bucket -> gostring -> gostring -> option Bucket;
  Delete : Bucket -> gostring -> Bucket;
  (** a cursor's Seek: the first pair at or after the key *)
  Seek : Bucket -> gostring -> option (gostring * gostring);
  (** a cursor's Seek followed by Prev: the last pair before the key *)
  SeekPrev : Bucket -> gostring -> option (gostring * gostring);
  Sequence : Bucket -> Z;
  NextSequence : Bucket -> Bucket * Z;
}.

Record BoltLaws `{!Bolt} : Prop := {
  kv_empty : kv EmptyBucket = ∅ /\ Sequence EmptyBucket = 0;
  Get_kv : forall b k, Get b k = kv b !! k;
  Put_kv : forall b k v, if put_ok k v
    then exists b', Put b k v = Some b' /\ kv b' = <[k := v]> (kv b) /\ Sequence b' = Sequence b
    else Put b k v = None;
  Delete_kv : forall b k, kv (Delete b k) = delete k (kv b) /\ Sequence (Delete b k) = Sequence b;
  Seek_kv : forall b k, match Seek b k with
    | Some (k', v) => kv b !! k' = Some v /\ Cmp.ltb k' k = false /\
        forall k'', is_Some (kv b !! k'') -> Cmp.ltb k'' k = false -> Cmp.ltb k'' k' = false
    | None => forall k'', is_Some (kv b !! k'') -> Cmp.ltb k'' k = true
    end;
  SeekPrev_kv : forall b k, match SeekPrev b k with
    | Some (k', v) => kv b !! k' = Some v /\ Cmp.ltb k' k = true /\
        forall k'', is_Some (kv b !! k'') -> Cmp.ltb k'' k = true -> Cmp.ltb k' k'' = false
    | None => forall k'', is_Some (kv b !! k'') -> Cmp.ltb k'' k = false
    end;
  NextSequence_kv : forall b, let (b', n) := NextSequence b in
    kv b' = kv b /\ n = u64 (Sequence b + 1) /\ Sequence b' = n;
}.

Section Cursor.
Context {Bolt0 : Bolt}.

(** A cursor's First, and Next from the pair at [k]: no key lies strictly
    between [k] and [k] followed by a zero byte. *)
Definition First (b : Bucket) : option (gostring * gostring) := Seek b [].
Definition Next (b : Bucket) (k : gostring) : option (gostring * gostring) := Seek b (k ++ [x00]).

(** The pairs Prev yields, starting below [k]; each is visited once, so the size
    of the bucket bounds the steps. *)
Fixpoint prevs (fuel : nat) (b : Bucket) (k : gostring) : list (gostring * gostring) :=
  match fuel with
  | O => []
  | S fuel => match SeekPrev b k with
              | None => []
              | Some (k', v) => (k', v) :: prevs fuel b k'
              end
  end.

Definition walk (b : Bucket) (k : gostring) : list (gostring * gostring) := prevs (size (kv b)) b k.

(** The pairs Next yields, starting with the pair [o]. *)
Fixpoint nexts (fuel : nat) (b : Bucket) (o : option (gostring * gostring)) : list (gostring * gostring) :=
  match fuel, o with
  | S fuel, Some (k, v) => (k, v) :: nexts fuel b (Next b k)
  | _, _ => []
  end.

Definition ascend (b : Bucket) (k : gostring) : list (gostring * gostring) := nexts (size (kv b)) b (Seek b k).

End Cursor.

Section Laws.
Context {Bolt0 : Bolt} (BL : BoltLaws).
#[local] Set Default Proof Using "All".

Lemma Put_Some b k v b' :
  Put b k v = Some b' -> put_ok k v = true /\ kv b' = <[k := v]> (kv b) /\ Sequence b' = Sequence b.
Proof.
  intros HP. pose proof (Put_kv BL b k v) as HL. destruct (put_ok k v); [|congruence].
  destruct HL as (b'' & E & H1 & H2). split; [done|]. replace b' with b'' by congruence. done.
Qed.

Lemma Put_total b k v : put_ok k v = true -> is_Some (Put b k v).
Proof. intros HP. pose proof (Put_kv BL b k v) as HL. rewrite HP in HL. destruct HL as (b' & -> & _). by eexists. Qed.

(** ** Walks *)

(** Strictly before, on the keys of pairs. *)
Definition after (x y : gostring * gostring) : Prop := Cmp.ltb y.1 x.1 = true.

Definition below (b : Bucket) (k : gostring) : gmap gostring gostring :=
  filter (fun x => Cmp.ltb x.1 k = true) (kv b).

Lemma below_lookup b k k' v : below b k !! k' = Some v <-> kv b !! k' = Some v /\ Cmp.ltb k' k = true.
Proof. unfold below. by rewrite map_lookup_filter_Some. Qed.

Lemma below_step b k k' v :
  SeekPrev b k = Some (k', v) -> below b k = <[k' := v]> (below b k') /\ below b k' !! k' = None.
Proof.
  intros HS. pose proof (SeekPrev_kv BL b k) as HL. rewrite HS in HL. destruct HL as (Hk & Hlt & Hmax). split.
  - apply map_eq. intros i. apply option_eq. intros w. rewrite lookup_insert_Some, !below_lookup. split.
    + intros [Hi Hik]. destruct (decide (k' = i)) as [->|Hne]; [left; split; congruence|]. right. split; [done|].
      split; [done|]. specialize (Hmax i (mk_is_Some _ _ Hi) Hik). destruct (Cmp.ltb i k') eqn:E; [done|].
      by destruct Hne; apply Cmp.ltb_total.
    + intros [[-> ->]|(Hne & Hi & Hik)]; [done|]. split; [done|]. by apply Cmp.ltb_trans with k'.
  - apply eq_None_not_Some. intros [w Hw]. apply below_lookup in Hw as [_ Hw]. by rewrite Cmp.ltb_irrefl in Hw.
Qed.

Lemma below_none b k : SeekPrev b k = None -> below b k = ∅.
Proof.
  intros HS. pose proof (SeekPrev_kv BL b k) as HL. rewrite HS in HL. apply map_empty. intros i.
  apply eq_None_not_Some. intros [w Hw]. apply below_lookup in Hw as [Hi Hlt]. rewrite HL in Hlt; [done|by eexists].
Qed.

Lemma prevs_spec fuel b k : (size (below b k) <= fuel)%nat ->
  (forall k' v, (k', v) ∈ prevs fuel b k <-> below b k !! k' = Some v) /\ StronglySorted after (prevs fuel b k).
Proof.
  revert k. induction fuel as [|fuel IH]; intros k Hf.
  { assert (HE : below b k = ∅) by (apply map_size_empty_inv; lia). rewrite HE. split; [|constructor].
    intros k' v. rewrite lookup_empty. cbn. by rewrite elem_of_nil. }
  cbn [prevs]. destruct (SeekPrev b k) as [[k' v]|] eqn:ES; last first.
  { rewrite (below_none b k ES). split; [|constructor]. intros k' v. rewrite lookup_empty. by rewrite elem_of_nil. }
  destruct (below_step b k k' v ES) as [HE HN]. rewrite HE in Hf |- *. rewrite map_size_insert_None in Hf by done.
  destruct (IH k') as [HI HS]; [lia|]. split.
  - intros k'' w. rewrite elem_of_cons, HI, lookup_insert_Some. split.
    + intros [[= -> ->]|HB]; [by left|]. right. split; [|done]. intros ->. by rewrite HN in HB.
    + intros [[-> ->]|[_ HB]]; [by left|by right].
  - constructor; [done|]. apply Forall_forall. intros [k'' w] Hin. apply HI, below_lookup in Hin as [_ Hlt]. done.
Qed.

(** The walk yields exactly the pairs below the key, greatest first. *)
Lemma walk_spec b k :
  (forall k' v, (k', v) ∈ walk b k <-> kv b !! k' = Some v /\ Cmp.ltb k' k = true) /\
  StronglySorted after (walk b k).
Proof.
  destruct (prevs_spec (size (kv b)) b k) as [H1 H2].
  { apply map_subseteq_size. apply map_filter_subseteq. }
  split; [|done]. intros k' v. unfold walk. by rewrite H1, below_lookup.
Qed.

(** Nothing lies between a key and that key followed by a zero byte. *)
Lemma succ_key k k' : Cmp.ltb k' (k ++ [x00]) = negb (Cmp.ltb k k').
Proof.
  revert k'. induction k as [|x k IH]; intros [|y k']; try done.
  - unfold Cmp.ltb. cbn. pose proof (b2z_range y). destruct (Z.compare_spec (b2z y) 0); [by destruct k'|lia|done].
  - specialize (IH k'). unfold Cmp.ltb in *. cbn. rewrite (Z.compare_antisym (b2z y) (b2z x)). destruct (b2z y ?= b2z x); [exact IH|done|done].
Qed.

Definition from (b : Bucket) (k : gostring) : gmap gostring gostring :=
  filter (fun x => Cmp.ltb x.1 k = false) (kv b).

Lemma from_lookup b k k' v : from b k !! k' = Some v <-> kv b !! k' = Some v /\ Cmp.ltb k' k = false.
Proof. unfold from. by rewrite map_lookup_filter_Some. Qed.

Lemma from_step b k k' v :
  Seek b k = Some (k', v) -> from b k = <[k' := v]> (from b (k' ++ [x00])) /\ from b (k' ++ [x00]) !! k' = None.
Proof.
  intros HS. pose proof (Seek_kv BL b k) as HL. rewrite HS in HL. destruct HL as (Hk & Hge & Hmin). split.
  - apply map_eq. intros i. apply option_eq. intros w. rewrite lookup_insert_Some, !from_lookup, succ_key, negb_false_iff. split.
    + intros [Hi Hik]. destruct (decide (k' = i)) as [->|Hne]; [left; split; congruence|]. right. split; [done|].
      split; [done|]. specialize (Hmin i (mk_is_Some _ _ Hi) Hik). destruct (Cmp.ltb k' i) eqn:E; [done|].
      by destruct Hne; apply Cmp.ltb_total.
    + intros [[-> ->]|(Hne & Hi & Hik)]; [done|]. split; [done|]. destruct (Cmp.ltb i k) eqn:E; [|done].
      by rewrite (Cmp.ltb_trans _ _ _ Hik E) in Hge.
  - apply eq_None_not_Some. intros [w Hw]. apply from_lookup in Hw as [_ Hw]. by rewrite succ_key, Cmp.ltb_irrefl in Hw.
Qed.

Lemma from_none b k : Seek b k = None -> from b k = ∅.
Proof.
  intros HS. pose proof (Seek_kv BL b k) as HL. rewrite HS in HL. apply map_empty. intros i.
  apply eq_None_not_Some. intros [w Hw]. apply from_lookup in Hw as [Hi Hlt]. rewrite HL in Hlt; [done|by eexists].
Qed.

Definition before (x y : gostring * gostring) : Prop := Cmp.ltb x.1 y.1 = true.

Lemma nexts_spec fuel b k : (size (from b k) <= fuel)%nat ->
  (forall k' v, (k', v) ∈ nexts fuel b (Seek b k) <-> from b k !! k' = Some v) /\ StronglySorted before (nexts fuel b (Seek b k)).
Proof.
  revert k. induction fuel as [|fuel IH]; intros k Hf.
  { assert (HE : from b k = ∅) by (apply map_size_empty_inv; lia). rewrite HE. split; [|constructor].
    intros k' v. rewrite lookup_empty. cbn. by rewrite elem_of_nil. }
  cbn [nexts]. destruct (Seek b k) as [[k' v]|] eqn:ES; last first.
  { rewrite (from_none b k ES). split; [|constructor]. intros k' v. rewrite lookup_empty. by rewrite elem_of_nil. }
  destruct (from_step b k k' v ES) as [HE HN]. rewrite HE in Hf |- *. rewrite map_size_insert_None in Hf by done.
  unfold Next. destruct (IH (k' ++ [x00])) as [HI HS]; [lia|]. split.
  - intros k'' w. rewrite elem_of_cons, HI, lookup_insert_Some. split.
    + intros [[= -> ->]|HB]; [by left|]. right. split; [|done]. intros ->. by rewrite HN in HB.
    + intros [[-> ->]|[_ HB]]; [by left|by right].
  - constructor; [done|]. apply Forall_forall. intros [k'' w] Hin. apply HI, from_lookup in Hin as [_ Hlt].
    rewrite succ_key in Hlt. by apply negb_false_iff in Hlt.
Qed.

(** Going up yields exactly the pairs from the key on, least first. *)
Lemma ascend_spec b k :
  (forall k' v, (k', v) ∈ ascend b k <-> kv b !! k' = Some v /\ Cmp.ltb k' k = false) /\ StronglySorted before (ascend b k).
Proof.
  destruct (nexts_spec (size (kv b)) b k) as [H1 H2].
  { apply map_subseteq_size. apply map_filter_subseteq. }
  split; [|done]. intros k' v. unfold ascend. by rewrite H1, from_lookup.
Qed.

End Laws.

(** ** An instance: a finite map and a counter *)
Module MapBolt.

Definition bucket : Type := gmap gostring gostring * Z.

(** The least (greatest) key of those satisfying a predicate. *)
Definition pick (better : gostring -> gostring -> bool) (l : list (gostring * gostring))
    : option (gostring * gostring) :=
  foldl (fun acc x => match acc with
                      | None => Some x
                      | Some y => if better x.1 y.1 then Some x else acc
                      end) None l.

Definition map_bolt : Bolt := {|
  Bucket := bucket;
  kv := fst;
  EmptyBucket := (∅, 0);
  Get b k := b.1 !! k;
  Put b k v := if put_ok k v then Some (<[k := v]> b.1, b.2) else None;
  Delete b k := (delete k b.1, b.2);
  Seek b k := pick Cmp.ltb (List.filter (fun x => negb (Cmp.ltb x.1 k)) (map_to_list b.1));
  SeekPrev b k := pick (fun x y => Cmp.ltb y x) (List.filter (fun x => Cmp.ltb x.1 k) (map_to_list b.1));
  Sequence := snd;
  NextSequence b := ((b.1, u64 (b.2 + 1)), u64 (b.2 + 1));
|}.

Lemma pick_spec (better : gostring -> gostring -> bool) l :
  (forall a, better a a = false) -> (forall a b c, better a b = true -> better b c = true -> better a c = true) ->
  match pick better l with
  | None => l = []
  | Some y => y ∈ l /\ forall x, x ∈ l -> better x.1 y.1 = false
  end.
Proof.
  intros HR HT. unfold pick. induction l as [|x l IH] using rev_ind; [done|]. rewrite foldl_app. cbn [foldl].
  destruct (foldl _ None l) as [y|]; last first.
  { subst l. split; [apply list_elem_of_singleton; done|]. intros z Hz. apply list_elem_of_singleton in Hz as ->. apply HR. }
  destruct IH as [Hy Hmin]. destruct (better x.1 y.1) eqn:E.
  - split; [set_solver|]. intros z [Hz|Hz%list_elem_of_singleton]%elem_of_app; [|subst; apply HR].
    destruct (better z.1 x.1) eqn:Ez; [|done]. by rewrite <- (Hmin z Hz), (HT _ _ _ Ez E).
  - split; [set_solver|]. intros z [Hz|Hz%list_elem_of_singleton]%elem_of_app; [by apply Hmin|by subst].
Qed.

Lemma pick_filter (p : gostring -> bool) (better : gostring -> gostring -> bool) (m : gmap gostring gostring) :
  (forall a, better a a = false) -> (forall a b c, better a b = true -> better b c = true -> better a c = true) ->
  match pick better (List.filter (fun x => p x.1) (map_to_list m)) with
  | Some (k', v) => m !! k' = Some v /\ p k' = true /\
      forall k'', is_Some (m !! k'') -> p k'' = true -> better k'' k' = false
  | None => forall k'', is_Some (m !! k'') -> p k'' = false
  end.
Proof.
  intros HR HT. pose proof (pick_spec better (List.filter (fun x => p x.1) (map_to_list m)) HR HT) as HP.
  assert (HI : forall k v, m !! k = Some v -> p k = true -> (k, v) ∈ List.filter (fun x => p x.1) (map_to_list m)).
  { intros k v Hk Hpk. apply list_elem_of_In, filter_In. split; [|done]. by apply list_elem_of_In, elem_of_map_to_list. }
  destruct (pick _ _) as [[k' v]|].
  - destruct HP as [Hin Hmin]. apply list_elem_of_In, filter_In in Hin as [Hin Hpk].
    apply list_elem_of_In, elem_of_map_to_list in Hin. split; [done|]. split; [done|].
    intros k'' [w Hw] Hp. by apply (Hmin (k'', w)), HI.
  - intros k'' [w Hw]. destruct (p k'') eqn:E; [|done]. specialize (HI k'' w Hw E). rewrite HP in HI. by apply elem_of_nil in HI.
Qed.

Lemma map_bolt_laws : @BoltLaws map_bolt.
Proof.
  split; cbn.
  - done.
  - done.
  - intros b k v. destruct (put_ok k v); [|done]. eexists. split; [reflexivity|]. done.
  - done.
  - intros b k. pose proof (pick_filter (fun x => negb (Cmp.ltb x k)) Cmp.ltb b.1 Cmp.ltb_irrefl Cmp.ltb_trans) as HP.
    destruct (pick _ _) as [[k' v]|].
    + destruct HP as (H1 & H2 & H3). apply negb_true_iff in H2. split; [done|]. split; [done|].
      intros k'' Hk Hlt. apply H3; [done|]. by rewrite Hlt.
    + intros k'' Hk. specialize (HP k'' Hk). by apply negb_false_iff in HP.
  - intros b k. apply (pick_filter (fun x => Cmp.ltb x k) (fun x y => Cmp.ltb y x) b.1 Cmp.ltb_irrefl).
    intros x y z H1 H2. by apply Cmp.ltb_trans with y.
  - done.
Qed.

End MapBolt.
