(* ===== verification/Sha256.v ===== *)
(** * nip13/sha256: the streaming SHA-224/SHA-256 digest

    [sha256.go] (the buffered digest) and [sha256block.go] (the compression
    loop).  A [uint32] is a [Z] below [2^32]; the buffer [x] is the array of
    64 bytes of which the first [nx] are live. *)

From S2P Require Import Prelude.

Definition Size : nat := 32.
Definition Size224 : nat := 28.
Definition chunk : nat := 64.
Definition BlockSize : nat := 64.

Definition init256 : list Z :=
  [0x6A09E667; 0xBB67AE85; 0x3C6EF372; 0xA54FF53A; 0x510E527F; 0x9B05688C; 0x1F83D9AB; 0x5BE0CD19].
Definition init224 : list Z :=
  [0xC1059ED8; 0x367CD507; 0x3070DD17; 0xF70E5939; 0xFFC00B31; 0x68581511; 0x64F98FA7; 0xBEFA4FA4].

(** [_K], eight constants to a row. *)
Definition K : list Z :=
  concat [[0x428a2f98; 0x71374491; 0xb5c0fbcf; 0xe9b5dba5; 0x3956c25b; 0x59f111f1; 0x923f82a4; 0xab1c5ed5];
          [0xd807aa98; 0x12835b01; 0x243185be; 0x550c7dc3; 0x72be5d74; 0x80deb1fe; 0x9bdc06a7; 0xc19bf174];
          [0xe49b69c1; 0xefbe4786; 0x0fc19dc6; 0x240ca1cc; 0x2de92c6f; 0x4a7484aa; 0x5cb0a9dc; 0x76f988da];
          [0x983e5152; 0xa831c66d; 0xb00327c8; 0xbf597fc7; 0xc6e00bf3; 0xd5a79147; 0x06ca6351; 0x14292967];
          [0x27b70a85; 0x2e1b2138; 0x4d2c6dfc; 0x53380d13; 0x650a7354; 0x766a0abb; 0x81c2c92e; 0x92722c85];
          [0xa2bfe8a1; 0xa81a664b; 0xc24b8b70; 0xc76c51a3; 0xd192e819; 0xd6990624; 0xf40e3585; 0x106aa070];
          [0x19a4c116; 0x1e376c08; 0x2748774c; 0x34b0bcb5; 0x391c0cb3; 0x4ed8aa4a; 0x5b9cca4f; 0x682e6ff3];
          [0x748f82ee; 0x78a5636f; 0x84c87814; 0x8cc70208; 0x90befffa; 0xa4506ceb; 0xbef9a3f7; 0xc67178f2]].

Record digest := mkDigest { h : list Z; x : list byte; nx : nat; len : Z; is224 : bool }.

(** ** The compression function *)

(** [v>>n | v<<(32-n)] on a [uint32]. *)
Definition rotr (v n : Z) : Z := Z.lor (Z.shiftr v n) (u32 (Z.shiftl v (32 - n))).

Definition word_be (p : list byte) (j : nat) : Z :=
  Z.lor (Z.lor (Z.lor (Z.shiftl (b2z (p !!! j)) 24) (Z.shiftl (b2z (p !!! (j + 1)%nat)) 16))
    (Z.shiftl (b2z (p !!! (j + 2)%nat)) 8)) (b2z (p !!! (j + 3)%nat)).

(** [w[i]] for [i >= 16], from the words before it. *)
Definition w_next (w : list Z) (i : nat) : Z :=
  let v1 := w !!! (i - 2)%nat in
  let t1 := Z.lxor (Z.lxor (rotr v1 17) (rotr v1 19)) (Z.shiftr v1 10) in
  let v2 := w !!! (i - 15)%nat in
  let t2 := Z.lxor (Z.lxor (rotr v2 7) (rotr v2 18)) (Z.shiftr v2 3) in
  u32 (t1 + w !!! (i - 7)%nat + t2 + w !!! (i - 16)%nat).

Definition schedule (p : list byte) : list Z :=
  foldl (fun w i => w ++ [w_next w i]) (map (fun i => word_be p (i * 4)) (seq 0 16)) (seq 16 48).

Record vars := mkVars { va : Z; vb : Z; vc : Z; vd : Z; ve : Z; vf : Z; vg : Z; vh : Z }.

Definition round (w : list Z) (s : vars) (i : nat) : vars :=
  let '(mkVars a b c d e f g h) := s in
  let t1 := u32 (h + Z.lxor (Z.lxor (rotr e 6) (rotr e 11)) (rotr e 25)
    + Z.lxor (Z.land e f) (Z.land (Z.lxor e (2 ^ 32 - 1)) g) + K !!! i + w !!! i) in
  let t2 := u32 (Z.lxor (Z.lxor (rotr a 2) (rotr a 13)) (rotr a 22)
    + Z.lxor (Z.lxor (Z.land a b) (Z.land a c)) (Z.land b c)) in
  mkVars (u32 (t1 + t2)) a b c (u32 (d + t1)) e f g.

(** One chunk of 64 bytes. *)
Definition compress (hs : list Z) (p : list byte) : list Z :=
  let w := schedule p in
  let s0 := mkVars (hs !!! 0%nat) (hs !!! 1%nat) (hs !!! 2%nat) (hs !!! 3%nat)
                   (hs !!! 4%nat) (hs !!! 5%nat) (hs !!! 6%nat) (hs !!! 7%nat) in
  let s := foldl (round w) s0 (seq 0 64) in
  [u32 (hs !!! 0%nat + va s); u32 (hs !!! 1%nat + vb s); u32 (hs !!! 2%nat + vc s);
   u32 (hs !!! 3%nat + vd s); u32 (hs !!! 4%nat + ve s); u32 (hs !!! 5%nat + vf s);
   u32 (hs !!! 6%nat + vg s); u32 (hs !!! 7%nat + vh s)].

(** [for len(p) >= chunk { ...; p = p[chunk:] }]: [length p / 64] rounds. *)
Fixpoint block_loop (fuel : nat) (hs : list Z) (p : list byte) : list Z :=
  match fuel with
  | O => hs
  | S fuel =>
      if (chunk <=? length p)%nat then block_loop fuel (compress hs (take chunk p)) (drop chunk p)
      else hs
  end.

Definition block (d : digest) (p : list byte) : digest :=
  mkDigest (block_loop (length p) (h d) p) (x d) (nx d) (len d) (is224 d).

(** ** The buffered digest *)

Definition Reset (d : digest) : digest :=
  mkDigest (if is224 d then init224 else init256) (x d) 0 0 (is224 d).

(** [new(digest)]: zeroed. *)
Definition zero_digest (is224 : bool) : digest :=
  mkDigest (repeat 0 8) (repeat x00 chunk) 0 0 is224.

Definition New : digest := Reset (zero_digest false).
Definition New224 : digest := Reset (zero_digest true).

(** [copy(dst[at:], src)]: the new array and the number of bytes copied. *)
Definition copy_at (dst : list byte) (at_ : nat) (src : list byte) : list byte * nat :=
  let n := Nat.min (length dst - at_) (length src) in
  (take at_ dst ++ take n src ++ drop (at_ + n) dst, n).

(** Top up a partly filled buffer, and compress it once full. *)
Definition write_fill (d : digest) (p : list byte) : digest * list byte :=
  if (0 <? nx d)%nat then
    let '(x', n) := copy_at (x d) (nx d) p in
    let d := mkDigest (h d) x' (nx d + n) (len d) (is224 d) in
    let d := if (nx d =? chunk)%nat
             then let d := block d (x d) in mkDigest (h d) (x d) 0 (len d) (is224 d)
             else d in
    (d, drop n p)
  else (d, p).

(** Compress the whole chunks of the input; [n &^ (chunk-1)] rounds down. *)
Definition write_blocks (d : digest) (p : list byte) : digest * list byte :=
  if (chunk <=? length p)%nat then
    let n := (length p / chunk * chunk)%nat in (block d (take n p), drop n p)
  else (d, p).

(** Keep the remainder in the buffer. *)
Definition write_rest (d : digest) (p : list byte) : digest :=
  if (0 <? length p)%nat then
    let '(x', n) := copy_at (x d) 0 p in mkDigest (h d) x' n (len d) (is224 d)
  else d.

Definition Write (d : digest) (p : list byte) : digest :=
  let d := mkDigest (h d) (x d) (nx d) (u64 (len d + zlen p)) (is224 d) in
  let '(d, p) := write_fill d p in
  let '(d, p) := write_blocks d p in
  write_rest d p.

(** The big-endian bytes of the state words. *)
Definition words_bytes (hs : list Z) : list byte :=
  flat_map (fun s => [z2b (Z.shiftr s 24); z2b (Z.shiftr s 16); z2b (Z.shiftr s 8); z2b s]) hs.

(** [checkSum] works on the digest it is called on; both callers drop it. *)
Definition checkSum (d : digest) : outcome unit (list byte) :=
  let len0 := len d in
  let tmp := x80 :: repeat x00 63 in
  let d := if len0 mod 64 <? 56
           then Write d (take (Z.to_nat (56 - len0 mod 64)) tmp)
           else Write d (take (Z.to_nat (64 + 56 - len0 mod 64)) tmp) in
  let bits := u64 (Z.shiftl len0 3) in
  let d := Write d (map (fun i => z2b (Z.shiftr bits (56 - 8 * Z.of_nat i))) (seq 0 8)) in
  if (nx d =? 0)%nat then
    let hs := if is224 d then take 7 (h d) else h d in
    let out := words_bytes hs in
    Ok (out ++ repeat x00 (Size - length out))
  else Panic.

Definition Sum (d0 : digest) (inp : list byte) : outcome unit (list byte) :=
  let d := Write d0 inp in
  hash ← checkSum d;
  Ok (if is224 d then take Size224 hash else hash).

Definition Sum256 (data : list byte) : outcome unit (list byte) :=
  checkSum (Write (Reset (zero_digest false)) data).

Definition Sum224 (data : list byte) : outcome unit (list byte) :=
  sum ← checkSum (Write (Reset (zero_digest true)) data); Ok (take Size224 sum).

Definition Compress (d : digest) : outcome unit (list byte) :=
  if len d =? Z.of_nat BlockSize then
    if is224 d then Panic else Ok (words_bytes (h d))
  else Panic.

(** ** The standard's view: padding and whole blocks *)

Fixpoint chunks (k : nat) (p : list byte) : list (list byte) :=
  match k with
  | O => []
  | S k => take chunk p :: chunks k (drop chunk p)
  end.

Definition blocks (hs : list Z) (p : list byte) : list Z :=
  foldl compress hs (chunks (length p / chunk) p).

(** FIPS 180-4, 5.1.1: a 1 bit, zeros up to 56 bytes mod 64, the bit length. *)
Definition pad (m : list byte) : list byte :=
  let r := (length m mod 64)%nat in
  let zeros := if (r <? 56)%nat then (55 - r)%nat else (119 - r)%nat in
  m ++ x80 :: repeat x00 zeros
    ++ map (fun i => z2b (Z.shiftr (u64 (Z.shiftl (u64 (zlen m)) 3)) (56 - 8 * Z.of_nat i))) (seq 0 8).

Lemma chunks_app_r k p q : (64 * k <= length p)%nat -> chunks k (p ++ q) = chunks k p.
Proof.
  revert p. induction k as [|k IH]; intros p Hk; [done|]. cbn [chunks]. unfold chunk in *.
  rewrite take_app_le, drop_app_le by lia. rewrite IH; [done|]. rewrite length_drop. lia.
Qed.

Lemma chunks_add j k p : chunks (j + k) p = chunks j p ++ chunks k (drop (64 * j) p).
Proof.
  revert p. induction j as [|j IH]; intros p; [done|].
  cbn [Nat.add chunks app]. rewrite IH, drop_drop. unfold chunk. do 3 f_equal. f_equal. lia.
Qed.

Lemma block_loop_chunks fuel hs p :
  (length p / chunk <= fuel)%nat -> block_loop fuel hs p = blocks hs p.
Proof.
  unfold blocks, chunk. revert hs p. induction fuel as [|fuel IH]; intros hs p Hf.
  { by replace (length p / 64)%nat with 0%nat by lia. }
  cbn [block_loop]. unfold chunk. destruct (Nat.leb_spec 64 (length p)) as [Hl|Hl].
  - replace (length p / 64)%nat with (S (length (drop 64 p) / 64))%nat in *.
    2: { rewrite length_drop. pose proof (Nat.div_add (length p - 64) 1 64 ltac:(done)) as E.
         replace (length p - 64 + 1 * 64)%nat with (length p) in E by lia. lia. }
    rewrite IH by lia. done.
  - by rewrite Nat.div_small by lia.
Qed.

Lemma blocks_app hs p q k :
  length p = (64 * k)%nat -> blocks hs (p ++ q) = blocks (blocks hs p) q.
Proof.
  intros Hp. unfold blocks, chunk. rewrite length_app, Hp.
  replace ((64 * k + length q) / 64)%nat with (k + length q / 64)%nat
    by (by rewrite (Nat.mul_comm 64 k), Nat.div_add_l by done).
  rewrite (Nat.mul_comm 64 k), Nat.div_mul by done.
  rewrite chunks_add, chunks_app_r, foldl_app by lia.
  by rewrite <- Hp, drop_length_app.
Qed.

Lemma blocks_short hs p : (length p < 64)%nat -> blocks hs p = hs.
Proof. intros. unfold blocks, chunk. by rewrite Nat.div_small. Qed.

(** ** What a digest stands for *)

Definition iv (d : digest) : list Z := if is224 d then init224 else init256.

(** [d] has absorbed [m]: the state covers the whole chunks of [m], the
    buffer holds the rest. *)
Record absorbed (d : digest) (m : list byte) : Prop := {
  ab_h : h d = blocks (iv d) m;
  ab_x : length (x d) = 64%nat;
  ab_nx : nx d = (length m mod 64)%nat;
  ab_buf : take (nx d) (x d) = drop (64 * (length m / 64)) m;
}.

Lemma split_mod (m : list byte) :
  exists a b, m = a ++ b /\ length a = (64 * (length m / 64))%nat /\ length b = (length m mod 64)%nat.
Proof.
  pose proof (Nat.div_mod_eq (length m) 64).
  exists (take (64 * (length m / 64)) m), (drop (64 * (length m / 64)) m).
  rewrite take_drop, length_take, length_drop. split; [done|]. lia.
Qed.

(** An aligned prefix [a] and a buffered remainder [b]. *)
Lemma absorbed_intro d a b k :
  length a = (64 * k)%nat -> (length b < 64)%nat -> h d = blocks (iv d) a ->
  length (x d) = 64%nat -> nx d = length b -> take (nx d) (x d) = b -> absorbed d (a ++ b).
Proof.
  intros Ha Hb Hh Hx Hn Ht.
  assert (Hdiv : (length (a ++ b) / 64 = k)%nat).
  { rewrite length_app, Ha, (Nat.mul_comm 64 k), Nat.div_add_l, Nat.div_small by lia. lia. }
  assert (Hmod : (length (a ++ b) mod 64 = length b)%nat).
  { pose proof (Nat.div_mod_eq (length (a ++ b)) 64) as E. rewrite Hdiv, length_app in E at 1.
    rewrite Ha in E. lia. }
  split.
  - by rewrite (blocks_app _ _ _ k), blocks_short.
  - done.
  - by rewrite Hmod.
  - by rewrite Hdiv, Ht, <- Ha, drop_length_app.
Qed.

Lemma absorbed_elim d m :
  absorbed d m ->
  exists a b k, m = a ++ b /\ length a = (64 * k)%nat /\ (length b < 64)%nat /\
    h d = blocks (iv d) a /\ length (x d) = 64%nat /\ nx d = length b /\ take (nx d) (x d) = b.
Proof.
  intros [Hh Hx Hn Hb]. destruct (split_mod m) as (a & b & Em & Ha & Hlb).
  pose proof (Nat.mod_upper_bound (length m) 64).
  exists a, b, (length m / 64)%nat. repeat (split; [solve [auto; lia]|]).
  rewrite <- Ha in Hb. split; [|split; [done|split; [lia|]]].
  - rewrite Hh, Em, (blocks_app _ _ _ (length m / 64)%nat), blocks_short by lia. done.
  - rewrite Hb. rewrite Em at 1. apply drop_length_app.
Qed.

(** ** Each stage of Write absorbs what it takes from the input *)

Lemma block_loop_full hs p : block_loop (length p) hs p = blocks hs p.
Proof.
  apply block_loop_chunks. unfold chunk. apply Nat.Div0.div_le_upper_bound. lia.
Qed.

Lemma write_fill_spec d m p d' p' :
  absorbed d m -> write_fill d p = (d', p') ->
  exists q, p = q ++ p' /\ absorbed d' (m ++ q) /\ (p' = [] \/ nx d' = 0%nat) /\
    is224 d' = is224 d /\ len d' = len d.
Proof.
  intros Hab HW. pose proof (absorbed_elim _ _ Hab) as (a & b & k & -> & Ha & Hb & Hh & Hx & Hn & Ht).
  unfold write_fill in HW. destruct (Nat.ltb_spec 0 (nx d)) as [Hpos|Hz].
  2: { injection HW as <- <-. exists []. rewrite app_nil_r. split; [done|]. split; [done|]. split; [right; lia|done]. }
  unfold copy_at in HW. rewrite Hx, Ht, Hn in HW. unfold chunk in HW.
  set (n := Nat.min (64 - length b) (length p)) in *. cbn [nx] in HW.
  exists (take n p). destruct (Nat.eqb_spec (length b + n) 64) as [Hf|Hf]; injection HW as <- <-;
    (split; [by rewrite take_drop|]).
  - assert (Hl : length (b ++ take n p) = 64%nat) by (rewrite length_app, length_take; lia).
    split; [|split; [by right|done]].
    assert (E : b ++ take n p ++ drop (length b + n) (x d) = b ++ take n p).
    { rewrite (drop_ge (x d)) by lia. by rewrite app_nil_r. }
    rewrite <- app_assoc, <- (app_nil_r (a ++ b ++ take n p)).
    apply absorbed_intro with (k := S k); try done.
    + rewrite length_app, Hl. lia.
    + cbn; lia.
    + cbn [h]. rewrite block_loop_full, E, Hh.
      change (iv {| h := _; x := _; nx := _; len := _; is224 := _ |}) with (iv d).
      by rewrite (blocks_app (iv d) a _ k).
    + cbn [x]. by rewrite E.
  - assert (Hnp : n = length p) by lia.
    split; [|split; [left; apply drop_ge; lia|done]].
    rewrite <- app_assoc. apply absorbed_intro with (k := k); try done; cbn [h x nx].
    + rewrite length_app, length_take. lia.
    + rewrite !length_app, length_take, length_drop. lia.
    + rewrite length_app, length_take. lia.
    + rewrite app_assoc, take_app_le, take_ge by (rewrite length_app, length_take; lia). done.
Qed.

Lemma write_blocks_spec d m p d' p' :
  absorbed d m -> (p = [] \/ nx d = 0%nat) -> write_blocks d p = (d', p') ->
  exists q, p = q ++ p' /\ absorbed d' (m ++ q) /\ (p' = [] \/ nx d' = 0%nat) /\
    (length p' < 64)%nat /\ is224 d' = is224 d /\ len d' = len d.
Proof.
  intros Hab Hor HW. pose proof (absorbed_elim _ _ Hab) as (a & b & k & -> & Ha & Hb & Hh & Hx & Hn & Ht).
  unfold write_blocks, chunk in HW. destruct (Nat.leb_spec 64 (length p)) as [Hl|Hl].
  2: { injection HW as <- <-. exists []. rewrite app_nil_r. split; [done|]. split; [done|]. split; [done|]. split; [lia|done]. }
  destruct Hor as [->|Hz]; [cbn in Hl; lia|].
  assert (b = []) as -> by (destruct b; [done|cbn in Hn; lia]).
  pose proof (Nat.div_mod_eq (length p) 64). pose proof (Nat.mod_upper_bound (length p) 64 ltac:(done)).
  set (j := (length p / 64)%nat) in *. injection HW as <- <-.
  exists (take (j * 64) p). split; [by rewrite take_drop|]. split.
  - rewrite app_nil_r, <- (app_nil_r (a ++ take (j * 64) p)).
    apply absorbed_intro with (k := (k + j)%nat); try done; cbn [block x nx].
    + rewrite length_app, length_take. lia.
    + cbn [h block]. unfold block. cbn [h]. rewrite block_loop_full, Hh.
      change (iv {| h := _; x := _; nx := _; len := _; is224 := _ |}) with (iv d).
      by rewrite (blocks_app (iv d) a _ k).
  - split; [right; done|]. split; [rewrite length_drop; lia|done].
Qed.

Lemma write_rest_spec d m p :
  absorbed d m -> (p = [] \/ nx d = 0%nat) -> (length p < 64)%nat ->
  absorbed (write_rest d p) (m ++ p) /\ is224 (write_rest d p) = is224 d /\ len (write_rest d p) = len d.
Proof.
  intros Hab Hor Hl. pose proof (absorbed_elim _ _ Hab) as (a & b & k & -> & Ha & Hb & Hh & Hx & Hn & Ht).
  unfold write_rest. destruct (Nat.ltb_spec 0 (length p)) as [Hp|Hp].
  2: { assert (p = []) as -> by (destruct p; [done|cbn in Hp; lia]). by rewrite app_nil_r. }
  destruct Hor as [->|Hz]; [cbn in Hp; lia|].
  assert (b = []) as -> by (destruct b; [done|cbn in Hn; lia]).
  cbn [copy_at]. unfold copy_at. rewrite Hx, Nat.sub_0_r, Nat.min_r by lia.
  rewrite (take_ge p) by lia. cbn [take app]. split; [|done].
  rewrite app_nil_r. apply absorbed_intro with (k := k); try done; cbn [h x nx].
  - rewrite take_0. cbn [app]. rewrite length_app, length_drop. lia.
  - rewrite take_0. cbn [app]. apply take_length_app.
Qed.

Lemma Write_absorbed d m p :
  absorbed d m ->
  absorbed (Write d p) (m ++ p) /\ is224 (Write d p) = is224 d /\ len (Write d p) = u64 (len d + zlen p).
Proof.
  intros [? ? ? ?]. unfold Write. set (d0 := mkDigest _ _ _ _ _).
  destruct (write_fill d0 p) as [d1 p1] eqn:E1.
  apply (write_fill_spec d0 m) in E1 as (q1 & -> & A1 & O1 & I1 & L1); [|by split].
  destruct (write_blocks d1 p1) as [d2 p2] eqn:E2.
  apply (write_blocks_spec d1 (m ++ q1)) in E2 as (q2 & -> & A2 & O2 & S2 & I2 & L2); [|done|done].
  destruct (write_rest_spec d2 ((m ++ q1) ++ q2) p2) as (A3 & I3 & L3); [done|done|done|].
  rewrite <- !app_assoc in A3. split; [done|]. rewrite I3, I2, I1, L3, L2, L1. done.
Qed.

Lemma absorbed_reset d : length (x d) = 64%nat -> absorbed (Reset d) [] /\ len (Reset d) = 0.
Proof. intros Hx. split; [|done]. by split. Qed.

Lemma take_padding n : (1 <= n <= 64)%nat -> take n (x80 :: repeat x00 63) = x80 :: repeat x00 (n - 1).
Proof.
  intros Hn. destruct n as [|n]; [lia|]. cbn [take]. f_equal.
  rewrite Nat.sub_succ, Nat.sub_0_r. by rewrite take_repeat, Nat.min_l by lia.
Qed.

(** Padding always ends on a chunk boundary. *)
Lemma length_fips_pad m : (length (pad m) mod 64 = 0)%nat.
Proof.
  unfold pad. rewrite !length_app. cbn [length].
  rewrite !length_app, repeat_length, length_map, length_seq.
  pose proof (Nat.div_mod_eq (length m) 64). pose proof (Nat.mod_upper_bound (length m) 64 ltac:(done)).
  set (q := (length m / 64)%nat) in *. set (r := (length m mod 64)%nat) in *.
  destruct (Nat.ltb_spec r 56).
  - replace (length m + S (55 - r + 8))%nat with ((q + 1) * 64)%nat by lia. apply Nat.Div0.mod_mul.
  - replace (length m + S (119 - r + 8))%nat with ((q + 2) * 64)%nat by lia. apply Nat.Div0.mod_mul.
Qed.

Definition finish (is224 : bool) (hs : list Z) : list byte :=
  let out := words_bytes (if is224 then take 7 hs else hs) in out ++ repeat x00 (Size - length out).

Lemma checkSum_spec d m :
  absorbed d m -> len d = u64 (zlen m) -> checkSum d = Ok (finish (is224 d) (blocks (iv d) (pad m))).
Proof.
  intros Hab Hlen. unfold checkSum. set (tail := map _ (seq 0 8)).
  set (r := (length m mod 64)%nat). pose proof (Nat.mod_upper_bound (length m) 64 ltac:(done)) as Hr.
  assert (Hmod : len d mod 64 = Z.of_nat r).
  { rewrite Hlen. unfold wrap, zlen, r. rewrite Nat2Z.inj_mod. change (Z.of_nat 64) with 64. dlia. }
  set (zeros := if (r <? 56)%nat then (55 - r)%nat else (119 - r)%nat).
  set (d1 := if len d mod 64 <? 56 then _ else _).
  assert (Hd1 : d1 = Write d (x80 :: repeat x00 zeros)).
  { unfold d1, zeros. rewrite Hmod. destruct (Z.ltb_spec (Z.of_nat r) 56), (Nat.ltb_spec r 56); try lia;
      rewrite take_padding by lia; do 3 f_equal; lia. }
  destruct (Write_absorbed d m (x80 :: repeat x00 zeros) Hab) as (A1 & I1 & _). rewrite <- Hd1 in A1, I1.
  destruct (Write_absorbed d1 _ tail A1) as (A2 & I2 & _).
  assert (Hpad : (m ++ x80 :: repeat x00 zeros) ++ tail = pad m).
  { unfold tail. rewrite Hlen. unfold pad. rewrite <- app_assoc. done. }
  rewrite Hpad in A2. destruct A2 as [Hh _ Hnx _]. rewrite Hnx, length_fips_pad. cbn [Nat.eqb].
  unfold finish, iv. rewrite Hh, I2, I1. unfold iv. by rewrite I2, I1.
Qed.

(** Writing a sequence of pieces. *)
Definition write_all (d : digest) (ps : list (list byte)) : digest := foldl Write d ps.

Lemma write_all_absorbed d m ps :
  absorbed d m -> len d = u64 (zlen m) ->
  absorbed (write_all d ps) (m ++ concat ps) /\ is224 (write_all d ps) = is224 d /\
  len (write_all d ps) = u64 (zlen (m ++ concat ps)).
Proof.
  unfold write_all. revert d m. induction ps as [|p ps IH]; intros d m Hab Hl; cbn [foldl concat].
  - by rewrite app_nil_r.
  - destruct (Write_absorbed d m p Hab) as (A & I & L).
    destruct (IH (Write d p) (m ++ p)) as (A' & I' & L'); [done| |].
    + rewrite L, Hl, zlen_app. unfold wrap. by rewrite Zplus_mod_idemp_l.
    + rewrite <- !app_assoc in *. split; [done|]. split; [congruence|done].
Qed.

Definition sha256 (m : list byte) : list byte := finish false (blocks init256 (pad m)).
Definition sha224 (m : list byte) : list byte := take Size224 (finish true (blocks init224 (pad m))).

Lemma length_words_bytes hs : length (words_bytes hs) = (4 * length hs)%nat.
Proof. induction hs as [|w hs IH]; [done|]. cbn. unfold words_bytes in IH. rewrite IH. lia. Qed.

Lemma length_sha256 m : length (sha256 m) = 32%nat.
Proof.
  unfold sha256, finish. rewrite length_app, repeat_length, length_words_bytes. unfold Size.
  assert (length (blocks init256 (pad m)) = 8)%nat as ->; [|lia].
  unfold blocks. generalize (chunks (length (pad m) / chunk) (pad m)). intros l.
  destruct l as [|c l] using rev_ind; [done|]. by rewrite foldl_app.
Qed.

Lemma Sum256_Ok m : Sum256 m = Ok (sha256 m).
Proof.
  unfold Sum256. destruct (absorbed_reset (zero_digest false)) as [A L]; [done|].
  destruct (Write_absorbed _ [] m A) as (A' & I' & L'). cbn [app] in A'.
  rewrite (checkSum_spec _ m A'), I'; [|by rewrite L', L]. unfold iv. by rewrite I'.
Qed.

Lemma Sum_spec f ps last :
  Sum (write_all (Reset (zero_digest f)) ps) last
  = Ok (let hash := finish f (blocks (if f then init224 else init256) (pad (concat ps ++ last))) in
        if f then take Size224 hash else hash).
Proof.
  destruct (absorbed_reset (zero_digest f)) as [A L]; [done|].
  destruct (write_all_absorbed _ [] ps A L) as (A1 & I1 & L1). cbn [app] in A1, L1.
  destruct (Write_absorbed _ _ last A1) as (A2 & I2 & L2). unfold Sum.
  rewrite (checkSum_spec _ _ A2).
  - unfold iv. cbn. rewrite I2, I1. done.
  - rewrite L2, L1, zlen_app. unfold wrap. by rewrite Zplus_mod_idemp_l.
Qed.

(** A prefix absorbed once, then a tail per Sum. *)
Lemma Sum_New p last : Sum (Write New p) last = Ok (sha256 (p ++ last)).
Proof. pose proof (Sum_spec false [p] last) as HS. cbn [concat] in HS. by rewrite app_nil_r in HS. Qed.


(** The FIPS 180-4 test vectors "abc" and the empty message. *)
Example sha256_abc : sha256 (bs "abc") =
  map z2b [0xba; 0x78; 0x16; 0xbf; 0x8f; 0x01; 0xcf; 0xea; 0x41; 0x41; 0x40; 0xde; 0x5d; 0xae; 0x22; 0x23;
           0xb0; 0x03; 0x61; 0xa3; 0x96; 0x17; 0x7a; 0x9c; 0xb4; 0x10; 0xff; 0x61; 0xf2; 0x00; 0x15; 0xad].
Proof. vm_compute. reflexivity. Qed.

Example sha224_abc : sha224 (bs "abc") =
  map z2b [0x23; 0x09; 0x7d; 0x22; 0x34; 0x05; 0xd8; 0x22; 0x86; 0x42; 0xa4; 0x77; 0xbd; 0xa2; 0x55; 0xb3;
           0x2a; 0xad; 0xbc; 0xe4; 0xbd; 0xa0; 0xb3; 0xf7; 0xe3; 0x6c; 0x9d; 0xa7].
Proof. vm_compute. reflexivity. Qed.

(** ** The interface other components use *)

(** A 256-bit hash: what nip77 and nip01 rely on of crypto/sha256. *)
Class Hash256 := {
  sum256 : list byte -> list byte;
  sum256_length : forall l, length (sum256 l) = 32%nat;
}.

(** The digest above implements it. *)
#[global] Instance sha256_hash : Hash256 := {| sum256 := sha256; sum256_length := length_sha256 |}.
