(* ===== verification/NegCodec.v ===== *)
(** * nip77: negentropy messages and their binary form

    [nip77/negentropy.go] (data types, varints, fingerprints) and
    [nip77/encoding.go] (the message codec).  A [bytes.Reader] is the list of
    unread bytes; [uint64] arithmetic wraps. *)

From S2P Require Import Prelude GoLib.

Definition ProtocolVersion1 : Z := 0x61.
Definition InfiniteTimestamp : Z := 2 ^ 64 - 1.
Definition DefaultFrameSizeLimit : Z := 30000.
Definition MinFrameSizeLimit : Z := 4096.
Definition buckets : nat := 16.

(** An event of the reconciliation set; [ID] holds 32 bytes. *)
Record Item := mkItem { Timestamp : Z; ID : list byte }.

Record Bound := mkBound { bTimestamp : Z; IDPrefix : list byte }.

(** [Mode]: 0 Skip, 1 Fingerprint, 2 IdList. *)
Record Range := mkRange { UpperBound : Bound; Mode : Z; Payload : list byte }.

Record Message := mkMessage { ProtocolVersion : byte; Ranges : list Range }.

Inductive NegErr :=
  | ErrTooShort | ErrVersion | ErrTimestamp | ErrPrefixLen | ErrPrefix | ErrMode
  | ErrFingerprint | ErrIdList | ErrUnknownMode | ErrFingerprintLen | ErrShortID | ErrHex.

Definition item_ok (i : Item) : Prop := 0 <= Timestamp i < 2 ^ 64 /\ length (ID i) = 32%nat.

#[global] Instance Item_eq_dec : EqDecision Item.
Proof. solve_decision. Defined.

(** ** Varints *)

(** The base-128 digits of [x], most significant first, in front of [acc]:
    the loop that fills [buf] from its end.  Ten iterations cover 70 bits. *)
Fixpoint varint_digits (fuel : nat) (x : Z) (acc : list Z) : list Z :=
  match fuel with
  | O => acc
  | S fuel =>
      if x =? 0 then acc
      else varint_digits fuel (Z.shiftr x 7) (Z.land x 0x7F :: acc)
  end.

(** The high bit on every digit except the last. *)
Fixpoint set_high (l : list Z) : list Z :=
  match l with
  | [] => []
  | [d] => [d]
  | d :: r => Z.lor d 0x80 :: set_high r
  end.

Definition encodeVarint (x : Z) : list byte :=
  if x =? 0 then [z2b 0] else map z2b (set_high (varint_digits 10 x [])).

(** One digit shifted into a [uint64]. *)
Definition varint_step (res d : Z) : Z := Z.lor (u64 (Z.shiftl res 7)) d.

Fixpoint varint_loop (res : Z) (buf : list byte) : option (Z * list byte) :=
  match buf with
  | [] => None
  | b :: r =>
      let res := varint_step res (Z.land (b2z b) 0x7F) in
      if Z.land (b2z b) 0x80 =? 0 then Some (res, r) else varint_loop res r
  end.

(** [None] is the reader's io.EOF. *)
Definition decodeReaderVarint (buf : list byte) : option (Z * list byte) := varint_loop 0 buf.

(** The same, also counting the bytes read. *)
Fixpoint varint_count_loop (res i : Z) (buf : list byte) : option (Z * Z * list byte) :=
  match buf with
  | [] => None
  | b :: r =>
      let res := varint_step res (Z.land (b2z b) 0x7F) in
      if Z.land (b2z b) 0x80 =? 0 then Some (res, i + 1, r) else varint_count_loop res (i + 1) r
  end.

Definition readVarintBytes (buf : list byte) : option (Z * Z * list byte) := varint_count_loop 0 0 buf.

(** ** Messages to bytes *)

(** One range, and the last finite timestamp written after it. *)
Definition encode_range (lastTimestamp : Z) (r : Range) : outcome NegErr (list byte * Z) :=
  let ts := bTimestamp (UpperBound r) in
  let encodedTimestamp := if ts =? InfiniteTimestamp then 0 else u64 (1 + u64 (ts - lastTimestamp)) in
  let lastTimestamp := if ts =? InfiniteTimestamp then lastTimestamp else ts in
  let head := encodeVarint encodedTimestamp
    ++ encodeVarint (zlen (IDPrefix (UpperBound r))) ++ IDPrefix (UpperBound r)
    ++ [z2b (Mode r)] in
  if Mode r =? 0 then Ok (head, lastTimestamp)
  else if Mode r =? 1 then
    if zlen (Payload r) =? 16 then Ok (head ++ Payload r, lastTimestamp) else Err ErrFingerprintLen
  else if Mode r =? 2 then Ok (head ++ Payload r, lastTimestamp)
  else Err ErrUnknownMode.

Fixpoint encode_ranges (lastTimestamp : Z) (rs : list Range) : outcome NegErr (list byte) :=
  match rs with
  | [] => Ok []
  | r :: rs =>
      '(b, last) ← encode_range lastTimestamp r;
      bs ← encode_ranges last rs;
      Ok (b ++ bs)
  end.

Definition ToBytes (msg : Message) : outcome NegErr (list byte) :=
  b ← encode_ranges 0 (Ranges msg); Ok (ProtocolVersion msg :: b).

(** ** Messages from bytes *)

Definition of_opt {E A} (o : option A) (e : E) : outcome E A :=
  match o with Some a => Ok a | None => Err e end.

(** [p := make([]byte, n); io.ReadFull(buf, p)]. *)
Definition read_full (n : Z) (buf : list byte) (e : NegErr) : outcome NegErr (list byte * list byte) :=
  if make_ok n 1 then
    if n <=? zlen buf then Ok (take (Z.to_nat n) buf, drop (Z.to_nat n) buf) else Err e
  else Panic.

(** The payload of a range in mode [mode]. *)
Definition read_payload (mode : Z) (buf : list byte) : outcome NegErr (list byte * list byte) :=
  if mode =? 0 then Ok ([], buf)
  else if mode =? 1 then read_full 16 buf ErrFingerprint
  else if mode =? 2 then
    '(lengthVal, n, buf) ← of_opt (readVarintBytes buf) ErrIdList;
    let idsLen := u64 (lengthVal * 32) in
    '(idsBytes, buf) ← read_full idsLen buf ErrIdList;
    if make_ok (n + idsLen) 1 then Ok (encodeVarint lengthVal ++ idsBytes, buf) else Panic
  else Err ErrUnknownMode.

(** One iteration of FromBytes' loop. *)
Definition read_range (lastTimestamp : Z) (buf : list byte)
    : outcome NegErr (Range * Z * list byte) :=
  '(encodedTimestamp, buf) ← of_opt (decodeReaderVarint buf) ErrTimestamp;
  let offset := u64 (encodedTimestamp - 1) in
  let ts := if encodedTimestamp =? 0 then InfiniteTimestamp else u64 (lastTimestamp + offset) in
  let last := if encodedTimestamp =? 0 then lastTimestamp else ts in
  '(prefixLen, buf) ← of_opt (decodeReaderVarint buf) ErrPrefixLen;
  '(prefix, buf) ← read_full prefixLen buf ErrPrefix;
  match buf with
  | [] => Err ErrMode
  | modeByte :: buf =>
      '(payload, buf) ← read_payload (b2z modeByte) buf;
      Ok (mkRange (mkBound ts prefix) (b2z modeByte) payload, last, buf)
  end.

(** [for buf.Len() > 0]: every iteration reads at least a byte, so the
    length of the buffer bounds the number of iterations. *)
Fixpoint read_ranges (fuel : nat) (lastTimestamp : Z) (buf : list byte)
    : outcome NegErr (list Range) :=
  match buf, fuel with
  | [], _ => Ok []
  | _, O => Panic
  | _, S fuel =>
      '(r, last, rest) ← read_range lastTimestamp buf;
      rs ← read_ranges fuel last rest;
      Ok (r :: rs)
  end.

Definition FromBytes (data : list byte) : outcome NegErr Message :=
  match data with
  | [] => Err ErrTooShort
  | v :: buf =>
      if b2z v =? ProtocolVersion1 then
        rs ← read_ranges (length buf) 0 buf; Ok (mkMessage v rs)
      else Err ErrVersion
  end.

Definition ToHex (msg : Message) : outcome NegErr gostring :=
  b ← ToBytes msg; Ok (Hex.encode b).

Definition FromHex (h : gostring) : outcome NegErr Message :=
  b ← of_opt (Hex.decode h) ErrHex; FromBytes b.

(** ** Id lists *)

Definition encodeIdList (items : list Item) : list byte :=
  encodeVarint (zlen items) ++ concat (map ID items).

(** [count] reads of 32 bytes each: at the end of the payload [Read] fails,
    and a short read is refused. *)
Fixpoint read_ids (fuel : nat) (count : Z) (buf : list byte) : outcome NegErr (list gostring) :=
  if count <=? 0 then Ok []
  else if zlen buf =? 0 then Err ErrIdList
  else if zlen buf <? 32 then Err ErrShortID
  else match fuel with
  | O => Panic
  | S fuel => ids ← read_ids fuel (count - 1) (drop 32 buf); Ok (Hex.encode (take 32 buf) :: ids)
  end.

(** A Go string header takes 16 bytes, so [make([]string, 0, count)] panics
    beyond [max_alloc / 16]. *)
Definition decodeIdList (payload : list byte) : outcome NegErr (list gostring) :=
  '(count, buf) ← of_opt (decodeReaderVarint payload) ErrIdList;
  if make_ok count 16 then read_ids (length buf) count buf else Panic.

(** ** Varint lemmas *)

Lemma land_7F x : Z.land x 0x7F = x mod 128.
Proof. change 0x7F with (Z.ones 7). by rewrite Z.land_ones by lia. Qed.

Lemma varint_step_spec res d :
  0 <= d < 128 -> varint_step res d = (res * 128 + d) mod 2 ^ 64.
Proof.
  intros Hd. unfold varint_step. rewrite Z.shiftl_mul_pow2 by lia. unfold wrap.
  replace ((res * 2 ^ 7) mod 2 ^ 64) with (Z.shiftl (res mod 2 ^ 57) 7)
    by (rewrite Z.shiftl_mul_pow2 by lia; dlia).
  rewrite Z.lor_comm, BE.lor_shiftl_add by lia. dlia.
Qed.

(** A digit byte: its payload bits and its continuation bit. *)
Lemma digit_byte_last d : 0 <= d < 128 ->
  Z.land (b2z (z2b d)) 0x7F = d /\ Z.land (b2z (z2b d)) 0x80 = 0.
Proof.
  intros Hd. rewrite b2z_z2b, Z.mod_small by lia. split.
  - rewrite land_7F. dlia.
  - apply Z.bits_inj'; intros i Hi. rewrite Z.land_spec, Z.bits_0.
    destruct (decide (i = 7)) as [->|].
    + assert (Z.testbit d 7 = false) as -> by (apply Z.testbit_false; [lia|]; change (2 ^ 7) with 128; by rewrite Z.div_small). done.
    + change 0x80 with (2 ^ 7). by rewrite Z.pow2_bits_false, andb_false_r by lia.
Qed.

Lemma digit_byte_more d : 0 <= d < 128 ->
  Z.land (b2z (z2b (Z.lor d 0x80))) 0x7F = d /\ (Z.land (b2z (z2b (Z.lor d 0x80))) 0x80 =? 0) = false.
Proof.
  intros Hd. change 0x80 with (Z.shiftl 1 7) at 1 2.
  rewrite BE.lor_shiftl_add, b2z_z2b, Z.mod_small by lia. split.
  - rewrite land_7F. dlia.
  - apply Z.eqb_neq. intros H. apply (f_equal (fun z => Z.testbit z 7)) in H.
    rewrite Z.land_spec, Z.bits_0 in H. change (Z.testbit 0x80 7) with true in H.
    rewrite andb_true_r, Z.testbit_false in H by lia.
    change (2 ^ 7) with 128 in H. dlia.
Qed.

Definition digits_ok (l : list Z) : Prop := Forall (fun d => 0 <= d < 128) l.

Lemma varint_digits_ok fuel x acc :
  digits_ok acc -> digits_ok (varint_digits fuel x acc).
Proof.
  revert x acc. induction fuel as [|fuel IH]; intros x acc Ha; cbn [varint_digits]; [done|].
  destruct (x =? 0); [done|]. apply IH. constructor; [|done].
  rewrite land_7F. apply Z.mod_pos_bound. lia.
Qed.

Lemma varint_digits_ne fuel x acc : acc <> [] -> varint_digits fuel x acc <> [].
Proof.
  revert x acc. induction fuel as [|fuel IH]; intros x acc Ha; cbn [varint_digits]; [done|].
  destruct (x =? 0); [done|]. by apply IH.
Qed.

(** Reading digits back shifts them into the accumulator one by one. *)
Lemma varint_loop_digits ds res rest :
  digits_ok ds -> ds <> [] ->
  varint_loop res (map z2b (set_high ds) ++ rest) = Some (foldl varint_step res ds, rest).
Proof.
  revert res. induction ds as [|d ds IH]; intros res Hds Hne; [done|].
  inversion Hds; subst. destruct ds as [|d' ds].
  - cbn. destruct (digit_byte_last d) as [-> ->]; done.
  - cbn [set_high map app varint_loop]. destruct (digit_byte_more d) as [-> ->]; [done|].
    by apply IH.
Qed.

Lemma varint_count_loop_digits ds res i rest :
  digits_ok ds -> ds <> [] ->
  varint_count_loop res i (map z2b (set_high ds) ++ rest)
  = Some (foldl varint_step res ds, i + zlen ds, rest).
Proof.
  revert res i. induction ds as [|d ds IH]; intros res i Hds Hne; [done|].
  inversion Hds; subst. destruct ds as [|d' ds].
  - cbn. destruct (digit_byte_last d) as [-> ->]; done.
  - cbn [set_high map app varint_count_loop]. destruct (digit_byte_more d) as [-> ->]; [done|].
    cbn [set_high] in IH. rewrite IH by done. cbn [foldl]. rewrite (zlen_cons d). do 2 f_equal.
    f_equal. lia.
Qed.

Lemma varint_digits_value fuel x acc :
  0 <= x < 2 ^ 64 -> x < 128 ^ Z.of_nat fuel ->
  foldl varint_step 0 (varint_digits fuel x acc) = foldl varint_step x acc.
Proof.
  revert x acc. induction fuel as [|fuel IH]; intros x acc Hx Hf; cbn [varint_digits].
  { cbn in Hf. by replace x with 0 by lia. }
  destruct (Z.eqb_spec x 0) as [->|Hne]; [done|].
  rewrite Nat2Z.inj_succ, Z.pow_succ_r in Hf by lia.
  rewrite Z.shiftr_div_pow2 by lia. change (2 ^ 7) with 128.
  rewrite IH by dlia. cbn [foldl].
  rewrite land_7F, varint_step_spec by dlia.
  rewrite Z.mod_small by dlia. f_equal.
  dlia.
Qed.

Lemma varint_digits_S fuel x acc : x <> 0 ->
  varint_digits (S fuel) x acc = varint_digits fuel (Z.shiftr x 7) (Z.land x 0x7F :: acc).
Proof. intros Hx. cbn [varint_digits]. by rewrite (proj2 (Z.eqb_neq _ _)) by done. Qed.

Lemma varint_digits_nonempty x : 0 < x -> varint_digits 10 x [] <> [].
Proof.
  intros. rewrite varint_digits_S by lia. by apply varint_digits_ne.
Qed.

Lemma varint_app x rest :
  0 <= x < 2 ^ 64 -> decodeReaderVarint (encodeVarint x ++ rest) = Some (x, rest).
Proof.
  intros Hx. unfold decodeReaderVarint, encodeVarint.
  destruct (Z.eqb_spec x 0) as [->|Hne]; [done|].
  rewrite varint_loop_digits.
  - by rewrite varint_digits_value by (cbn; lia).
  - apply varint_digits_ok. constructor.
  - apply varint_digits_nonempty. lia.
Qed.

Lemma length_set_high l : length (set_high l) = length l.
Proof. induction l as [|d [|d' l] IH]; cbn in *; lia. Qed.

Lemma readVarint_app x rest :
  0 <= x < 2 ^ 64 ->
  readVarintBytes (encodeVarint x ++ rest) = Some (x, zlen (encodeVarint x), rest).
Proof.
  intros Hx. unfold readVarintBytes, encodeVarint.
  destruct (Z.eqb_spec x 0) as [->|Hne]; [done|].
  rewrite varint_count_loop_digits.
  - rewrite varint_digits_value by (cbn; lia). unfold zlen. by rewrite length_map, length_set_high.
  - apply varint_digits_ok. constructor.
  - apply varint_digits_nonempty. lia.
Qed.

Lemma length_varint_digits fuel x acc :
  (length (varint_digits fuel x acc) <= fuel + length acc)%nat.
Proof.
  revert x acc. induction fuel as [|fuel IH]; intros x acc; cbn [varint_digits]; [lia|].
  destruct (x =? 0); [lia|]. specialize (IH (Z.shiftr x 7) (Z.land x 0x7F :: acc)). cbn in IH. lia.
Qed.

Lemma zlen_encodeVarint x : 0 <= x -> 1 <= zlen (encodeVarint x) <= 10.
Proof.
  intros Hx. unfold encodeVarint, zlen. destruct (Z.eqb_spec x 0); [cbn; lia|].
  rewrite length_map, length_set_high.
  pose proof (length_varint_digits 10 x []). pose proof (varint_digits_nonempty x).
  destruct (varint_digits 10 x []); cbn in *; [naive_solver lia|lia].
Qed.

(** A varint of a value below 128 is one byte. *)
Lemma zlen_encodeVarint_small x : 0 <= x < 128 -> zlen (encodeVarint x) = 1.
Proof.
  intros Hx. unfold encodeVarint. destruct (Z.eqb_spec x 0); [done|].
  rewrite varint_digits_S by done.
  rewrite Z.shiftr_div_pow2, Z.div_small by lia. done.
Qed.

Lemma varint_loop_shorter res buf x rest :
  varint_loop res buf = Some (x, rest) -> (length rest < length buf)%nat.
Proof.
  revert res. induction buf as [|b buf IH]; intros res H; cbn in H; [done|].
  destruct (Z.land (b2z b) 0x80 =? 0); simplify_eq; cbn; [lia|]. apply IH in H. lia.
Qed.

Lemma varint_count_loop_shorter res i buf x n rest :
  varint_count_loop res i buf = Some (x, n, rest) -> (length rest < length buf)%nat.
Proof.
  revert res i. induction buf as [|b buf IH]; intros res i H; cbn in H; [done|].
  destruct (Z.land (b2z b) 0x80 =? 0); simplify_eq; cbn; [lia|]. apply IH in H. lia.
Qed.

(** ** Well-formed messages *)

(** What the payload of a range holds in each mode; an id list is a count
    and that many 32-byte ids, of a size that can be allocated. *)
Definition payload_ok (r : Range) : Prop :=
  (Mode r = 0 /\ Payload r = []) \/
  (Mode r = 1 /\ length (Payload r) = 16%nat) \/
  (Mode r = 2 /\ exists n ids, 0 <= n < 2 ^ 43 /\ zlen ids = 32 * n /\
     Payload r = encodeVarint n ++ ids).

(** Bounds ascend, as the delta encoding of timestamps assumes. *)
Fixpoint ranges_ok (last : Z) (rs : list Range) : Prop :=
  match rs with
  | [] => True
  | r :: rs =>
      payload_ok r /\ zlen (IDPrefix (UpperBound r)) <= max_alloc /\
      if bTimestamp (UpperBound r) =? InfiniteTimestamp then ranges_ok last rs
      else last <= bTimestamp (UpperBound r) < InfiniteTimestamp
           /\ ranges_ok (bTimestamp (UpperBound r)) rs
  end.

Definition message_ok (m : Message) : Prop :=
  b2z (ProtocolVersion m) = ProtocolVersion1 /\ ranges_ok 0 (Ranges m).

Lemma read_full_app n (l rest : list byte) e :
  zlen l = n -> n <= max_alloc -> read_full n (l ++ rest) e = Ok (l, rest).
Proof.
  intros Hn Hm. pose proof (zlen_nonneg l). pose proof (zlen_nonneg rest).
  unfold read_full, make_ok.
  rewrite !(proj2 (Z.leb_le _ _)) by (rewrite ?zlen_app; lia). cbn.
  replace (Z.to_nat n) with (length l) by (unfold zlen in Hn; lia).
  by rewrite take_length_app, drop_length_app.
Qed.

Lemma read_payload_app r rest :
  payload_ok r -> read_payload (Mode r) (Payload r ++ rest) = Ok (Payload r, rest).
Proof.
  intros [[HM HP]|[[HM HP]|(HM & n & ids & Hn & Hids & HP)]]; unfold read_payload; rewrite HM, ?HP; cbn [Z.eqb Pos.eqb].
  - done.
  - apply read_full_app; unfold zlen, max_alloc; lia.
  - rewrite <- app_assoc, readVarint_app by lia. cbn -[read_full make_ok encodeVarint].
    rewrite wrap_small by lia. replace (n * 32) with (32 * n) by lia.
    rewrite read_full_app by (unfold max_alloc; lia). cbn -[make_ok encodeVarint].
    pose proof (zlen_encodeVarint n). unfold make_ok, max_alloc.
    by rewrite !(proj2 (Z.leb_le _ _)) by lia.
Qed.

Lemma mode_byte r : payload_ok r -> b2z (z2b (Mode r)) = Mode r.
Proof. intros H. rewrite b2z_z2b. apply Z.mod_small. destruct H as [[]|[[]|[]]]; lia. Qed.

(** The bytes of one well-formed range. *)
Lemma encode_range_Ok last r b last' :
  payload_ok r -> encode_range last r = Ok (b, last') ->
  let ts := bTimestamp (UpperBound r) in
  let enc := if ts =? InfiniteTimestamp then 0 else u64 (1 + u64 (ts - last)) in
  b = encodeVarint enc ++ encodeVarint (zlen (IDPrefix (UpperBound r)))
      ++ IDPrefix (UpperBound r) ++ [z2b (Mode r)] ++ Payload r /\
  last' = if ts =? InfiniteTimestamp then last else ts.
Proof.
  unfold encode_range, zlen. intros [[HM HP]|[[HM HP]|(HM & _)]]; rewrite HM, ?HP; cbn [Z.eqb Pos.eqb];
    intros [= <- <-]; rewrite <- ?app_assoc; done.
Qed.

Lemma encode_range_total last r : payload_ok r -> exists b last', encode_range last r = Ok (b, last').
Proof.
  unfold encode_range, zlen. intros [[HM HP]|[[HM HP]|(HM & _)]]; rewrite HM, ?HP; cbn [Z.eqb Pos.eqb]; eauto.
Qed.

Lemma read_range_app last r b last' rest :
  payload_ok r -> zlen (IDPrefix (UpperBound r)) <= max_alloc -> 0 <= last < 2 ^ 64 ->
  ((bTimestamp (UpperBound r) =? InfiniteTimestamp) = false ->
   last <= bTimestamp (UpperBound r) < InfiniteTimestamp) ->
  encode_range last r = Ok (b, last') ->
  read_range last (b ++ rest) = Ok (r, last', rest).
Proof.
  intros Hp Hl Hlast Hts HE. apply encode_range_Ok in HE as [-> ->]; [|done].
  destruct r as [[ts pre] mode pl]; cbn [UpperBound bTimestamp IDPrefix Mode Payload] in *.
  set (enc := if ts =? InfiniteTimestamp then 0 else _).
  assert (Henc : 0 <= enc < 2 ^ 64) by (unfold enc; destruct (_ =? _); [lia | by apply wrap_range]).
  unfold read_range. rewrite <- !app_assoc, varint_app by done.
  cbn -[decodeReaderVarint encodeVarint read_full read_payload Z.eqb u64 app].
  rewrite varint_app by (unfold max_alloc in Hl; pose proof (zlen_nonneg pre); lia).
  cbn -[decodeReaderVarint encodeVarint read_full read_payload Z.eqb u64 app].
  rewrite read_full_app by (try done).
  cbn -[read_payload Z.eqb u64]. pose proof (mode_byte _ Hp) as HM. cbn in HM. rewrite HM.
  pose proof (read_payload_app _ rest Hp) as HP. cbn [Payload Mode] in HP. rewrite HP.
  cbn -[Z.eqb u64]. unfold enc. destruct (ts =? InfiniteTimestamp) eqn:E.
  - bool_prop. by subst ts.
  - specialize (Hts eq_refl). unfold InfiniteTimestamp in Hts.
    rewrite (wrap_small 64 (ts - last)) by lia. rewrite (wrap_small 64 (1 + _)) by lia.
    rewrite (wrap_small 64 (1 + _ - 1)) by lia. rewrite (proj2 (Z.eqb_neq _ _)) by lia.
    replace (last + _) with ts by lia. by rewrite wrap_small by lia.
Qed.

(** ** The loop of FromBytes has enough fuel *)

Lemma read_full_shorter n buf e l rest :
  read_full n buf e = Ok (l, rest) -> (length rest <= length buf)%nat.
Proof.
  unfold read_full. repeat case_scrutinee; intros [= <- <-]. rewrite length_drop. lia.
Qed.

Lemma read_payload_shorter m buf l rest :
  read_payload m buf = Ok (l, rest) -> (length rest <= length buf)%nat.
Proof.
  unfold read_payload. destruct (m =? 0); [by intros [= <- <-]|].
  destruct (m =? 1); [apply read_full_shorter|]. destruct (m =? 2); [|done].
  unfold readVarintBytes. destruct (varint_count_loop _ _ _) as [[[x n] r]|] eqn:E; [|done]. cbn.
  apply varint_count_loop_shorter in E. intros H. inv_ok.
  destruct a as [ids r']. apply read_full_shorter in E0. destruct (make_ok _ _); simplify_eq. lia.
Qed.

Lemma read_range_shorter last buf r last' rest :
  read_range last buf = Ok (r, last', rest) -> (length rest < length buf)%nat.
Proof.
  unfold read_range, decodeReaderVarint. intros H.
  destruct (varint_loop 0 buf) as [[x b1]|] eqn:E1; [|done]. cbn -[read_full read_payload varint_loop] in H.
  destruct (varint_loop 0 b1) as [[y b2]|] eqn:E2; [|done]. cbn -[read_full read_payload varint_loop] in H.
  apply varint_loop_shorter in E1, E2. inv_ok. destruct a as [pre b3].
  apply read_full_shorter in E. destruct b3 as [|mb b4]; [done|].
  inv_ok. destruct a as [pl b5]. apply read_payload_shorter in E0. cbn in E.
  simplify_eq. lia.
Qed.

Lemma read_ranges_fuel fuel last buf :
  (length buf <= fuel)%nat -> read_ranges fuel last buf = read_ranges (length buf) last buf.
Proof.
  revert last buf. induction fuel as [fuel IH] using lt_wf_ind; intros last buf Hf.
  destruct buf as [|b buf]; [by destruct fuel|]. destruct fuel as [|fuel]; [cbn in Hf; lia|].
  cbn [read_ranges length]. destruct (read_range last (b :: buf)) as [[[r l'] rest]|e|] eqn:E; [|done|done].
  apply read_range_shorter in E. cbn in E, Hf. cbn [mbind outcome_bind].
  rewrite (IH fuel), (IH (length buf)) by lia. done.
Qed.

(** The loop, without its fuel. *)
Lemma read_ranges_unfold last buf :
  read_ranges (length buf) last buf =
  match buf with
  | [] => Ok []
  | _ => '(r, l', rest) ← read_range last buf; rs ← read_ranges (length rest) l' rest; Ok (r :: rs)
  end.
Proof.
  destruct buf as [|b buf]; [done|]. cbn [read_ranges length].
  destruct (read_range last (b :: buf)) as [[[r l'] rest]|e|] eqn:E; [|done|done].
  apply read_range_shorter in E. cbn in E. cbn [mbind outcome_bind].
  by rewrite read_ranges_fuel by lia.
Qed.

Lemma encode_range_nonempty last r b last' :
  payload_ok r -> encode_range last r = Ok (b, last') -> b <> [].
Proof.
  intros Hp HE. apply encode_range_Ok in HE as [-> _]; [|done].
  intros H. apply (f_equal length) in H. rewrite !length_app in H. cbn in H. lia.
Qed.

Lemma ranges_roundtrip last rs :
  0 <= last < 2 ^ 64 -> ranges_ok last rs ->
  exists b, encode_ranges last rs = Ok b /\ read_ranges (length b) last b = Ok rs.
Proof.
  revert last. induction rs as [|r rs IH]; intros last Hl Hok; [by exists []|].
  destruct Hok as (Hp & Hpre & Hts).
  destruct (encode_range_total last r Hp) as (b & last' & HE).
  assert (Hnext : 0 <= last' < 2 ^ 64 /\ ranges_ok last' rs).
  { apply encode_range_Ok in HE as [_ ->]; [|done]. unfold InfiniteTimestamp in *.
    destruct (_ =? _); [done|]. split; [lia|tauto]. }
  destruct (IH last') as (bs' & HE' & HR); [tauto|tauto|].
  exists (b ++ bs'). cbn [encode_ranges]. rewrite HE. cbn. rewrite HE'. split; [done|].
  pose proof (encode_range_nonempty _ _ _ _ Hp HE).
  rewrite read_ranges_unfold. destruct (b ++ bs') eqn:Eb; [by destruct b|]. rewrite <- Eb.
  erewrite read_range_app by (try done; intros E; rewrite E in Hts; tauto).
  cbn. by rewrite HR.
Qed.

(** ** Id lists *)

Lemma length_concat_ids items :
  Forall item_ok items -> length (concat (map ID items)) = (32 * length items)%nat.
Proof.
  induction 1 as [|i items [_ Hi] _ IH]; [done|]. cbn. rewrite length_app, Hi, IH. lia.
Qed.

Lemma read_ids_items fuel items :
  Forall item_ok items -> (length items <= fuel)%nat ->
  read_ids fuel (zlen items) (concat (map ID items)) = Ok (map (fun i => Hex.encode (ID i)) items).
Proof.
  intros Hok. revert fuel. induction Hok as [|i items [_ Hi] Hok IH]; intros fuel Hf; [by destruct fuel|].
  destruct fuel as [|fuel]; [cbn in Hf; lia|].
  pose proof (zlen_nonneg items). pose proof (zlen_nonneg (concat (map ID items))) as Hnn.
  cbn [read_ids map concat]. rewrite zlen_app, zlen_cons.
  assert (zlen (ID i) = 32) as -> by (unfold zlen; lia).
  rewrite (proj2 (Z.leb_gt _ _)), (proj2 (Z.eqb_neq _ _)), (proj2 (Z.ltb_ge _ _)) by lia.
  rewrite <- Hi at 1. rewrite drop_length_app, <- Hi, take_length_app.
  replace (1 + zlen items - 1) with (zlen items) by lia.
  rewrite IH by (cbn in Hf; lia). done.
Qed.

Lemma decodeIdList_encode items :
  Forall item_ok items -> zlen items < 2 ^ 43 ->
  decodeIdList (encodeIdList items) = Ok (map (fun i => Hex.encode (ID i)) items).
Proof.
  intros Hok Hn. pose proof (zlen_nonneg items). unfold decodeIdList, encodeIdList.
  rewrite varint_app by lia. cbn -[make_ok read_ids].
  unfold make_ok, max_alloc. rewrite !(proj2 (Z.leb_le _ _)) by lia. cbn [andb].
  apply read_ids_items; [done|]. rewrite length_concat_ids by done. lia.
Qed.

(** The payload a peer lists its items with is a well-formed IdList. *)
Lemma encodeIdList_payload_ok b items :
  Forall item_ok items -> zlen items < 2 ^ 43 -> payload_ok (mkRange b 2 (encodeIdList items)).
Proof.
  intros Hok Hn. right. right. split; [done|]. exists (zlen items), (concat (map ID items)).
  pose proof (zlen_nonneg items). split; [lia|]. split; [|done].
  unfold zlen. rewrite length_concat_ids by done. lia.
Qed.

Lemma read_full_0 buf e : read_full 0 buf e = Ok ([], buf).
Proof. apply (read_full_app 0 [] buf); [done|]. unfold max_alloc. lia. Qed.

(** A range up to infinity with an empty id prefix. *)
Lemma read_range_infinite last mode rest :
  read_range last (encodeVarint 0 ++ encodeVarint 0 ++ mode :: rest) =
  '(payload, buf) ← read_payload (b2z mode) rest;
  Ok (mkRange (mkBound InfiniteTimestamp []) (b2z mode) payload, last, buf).
Proof.
  unfold read_range. rewrite varint_app by lia. cbn -[decodeReaderVarint encodeVarint read_full read_payload].
  rewrite varint_app by lia. cbn -[read_full read_payload].
  by rewrite read_full_0.
Qed.

(** The count of an id list is multiplied by 32 in 64 bits. *)
Lemma read_payload_overflow k :
  1 <= k < 32 -> read_payload 2 (encodeVarint (2 ^ 59 * k)) = Ok (encodeVarint (2 ^ 59 * k), []).
Proof.
  intros Hk. unfold read_payload. cbn -[readVarintBytes read_full make_ok encodeVarint].
  pose proof (readVarint_app (2 ^ 59 * k) [] ltac:(lia)) as HV. rewrite app_nil_r in HV. rewrite HV.
  cbn -[encodeVarint read_full make_ok].
  assert (u64 (2 ^ 59 * k * 32) = 0) as -> by (unfold wrap; dlia).
  rewrite read_full_0.
  cbn -[encodeVarint make_ok]. pose proof (zlen_encodeVarint (2 ^ 59 * k) ltac:(lia)).
  unfold make_ok, max_alloc. rewrite !(proj2 (Z.leb_le _ _)) by lia. cbn -[encodeVarint]. by rewrite app_nil_r.
Qed.

(** ** Properties of the codec *)

(** reading back an encoded varint yields the value and leaves exactly
    the bytes that followed it, with either reader; the encoding takes one to
    ten bytes. *)
Theorem encodeVarint_roundtrip (x : Z) (rest : list byte) (Hx : 0 <= x < 2 ^ 64) :
  decodeReaderVarint (encodeVarint x ++ rest) = Some (x, rest) /\
  readVarintBytes (encodeVarint x ++ rest) = Some (x, zlen (encodeVarint x), rest) /\
  1 <= zlen (encodeVarint x) <= 10.
Proof.
  split; [|split]; [by apply varint_app | by apply readVarint_app | apply zlen_encodeVarint; lia].
Qed.

Lemma encodeVarint_roundtrip_witness :
  decodeReaderVarint (encodeVarint 1677721600 ++ [x07]) = Some (1677721600, [x07]) /\
  readVarintBytes (encodeVarint 1677721600 ++ [x07])
  = Some (1677721600, zlen (encodeVarint 1677721600), [x07]) /\
  1 <= zlen (encodeVarint 1677721600) <= 10.
Proof. apply (encodeVarint_roundtrip 1677721600 [x07]). lia. Defined.

(** every well-formed message can be encoded, and decoding the bytes gives
    the message back: bounds (delta-encoded timestamps included), modes and
    payloads. *)
Theorem message_roundtrip (m : Message) (Hm : message_ok m) :
  exists b, ToBytes m = Ok b /\ FromBytes b = Ok m.
Proof.
  destruct Hm as [Hv Hr]. destruct (ranges_roundtrip 0 (Ranges m)) as (b & HE & HR); [lia|done|].
  exists (ProtocolVersion m :: b). unfold ToBytes, FromBytes. rewrite HE. cbn -[read_ranges].
  rewrite Hv. cbn -[read_ranges]. rewrite HR. by destruct m.
Qed.

Definition sample_message : Message :=
  mkMessage x61
    [mkRange (mkBound 1700000000 [x0a; x0b]) 1 (repeat x2a 16);
     mkRange (mkBound 1700000000 [x0a; x0c]) 0 [];
     mkRange (mkBound InfiniteTimestamp []) 2 (encodeVarint 1 ++ repeat x11 32)].

Lemma message_roundtrip_witness :
  exists b, ToBytes sample_message = Ok b /\ FromBytes b = Ok sample_message.
Proof.
  apply message_roundtrip. split; [reflexivity|].
  unfold sample_message. cbn [Ranges ranges_ok UpperBound bTimestamp IDPrefix].
  change (1700000000 =? InfiniteTimestamp) with false.
  change (InfiniteTimestamp =? InfiniteTimestamp) with true. cbn iota.
  split; [right; left; split; reflexivity|]. split; [vm_compute; discriminate|].
  split; [unfold InfiniteTimestamp; lia|].
  split; [left; split; reflexivity|]. split; [vm_compute; discriminate|].
  split; [unfold InfiniteTimestamp; lia|].
  split; [right; right; split; [reflexivity|]|split; [vm_compute; discriminate|exact I]].
  exists 1, (repeat x11 32). split; [lia|]. split; reflexivity.
Defined.

(** two length fields a peer controls stop the process.  A range whose id
    prefix declares more than [max_alloc] bytes panics FromBytes, whatever
    follows; and FromBytes accepts an id list that declares [2^59 * k] ids and
    carries none ([lengthVal * 32] wraps to 0), on which decodeIdList
    panics. *)
Theorem declared_length_panics (n k : Z) (rest : list byte)
    (Hn : max_alloc < n < 2 ^ 64) (Hk : 1 <= k < 32) :
  FromBytes (x61 :: encodeVarint 1 ++ encodeVarint n ++ rest) = Panic /\
  (let payload := encodeVarint (2 ^ 59 * k) in
   FromBytes (x61 :: encodeVarint 0 ++ encodeVarint 0 ++ [x02] ++ payload)
   = Ok (mkMessage x61 [mkRange (mkBound InfiniteTimestamp []) 2 payload]) /\
   decodeIdList payload = Panic).
Proof.
  assert (Hp : forall last, read_range last (encodeVarint 1 ++ encodeVarint n ++ rest) = Panic).
  { intros last. unfold read_range. rewrite varint_app by lia. cbn -[decodeReaderVarint encodeVarint read_full].
    rewrite varint_app by (unfold max_alloc in Hn; lia). cbn -[read_full].
    unfold read_full, make_ok. by rewrite (proj2 (Z.leb_gt (n * 1) _)), andb_false_r by lia. }
  split.
  - unfold FromBytes. change (b2z x61 =? ProtocolVersion1) with true. cbn [andb].
    by rewrite read_ranges_unfold, Hp.
  - cbn zeta. set (p := encodeVarint (2 ^ 59 * k)). split.
    + unfold FromBytes. change (b2z x61 =? ProtocolVersion1) with true. cbn [andb].
      rewrite read_ranges_unfold. cbn [app]. rewrite read_range_infinite.
      change (b2z x02) with 2. unfold p. by rewrite read_payload_overflow.
    + unfold decodeIdList, p. rewrite <- (app_nil_r (encodeVarint _)), varint_app by lia.
      cbn -[make_ok]. unfold make_ok, max_alloc.
      by rewrite (proj2 (Z.leb_gt (2 ^ 59 * k * 16) _)), andb_false_r by lia.
Qed.

Lemma declared_length_panics_witness :
  FromBytes (x61 :: encodeVarint 1 ++ encodeVarint (2 ^ 62) ++ []) = Panic /\
  (let payload := encodeVarint (2 ^ 59 * 1) in
   FromBytes (x61 :: encodeVarint 0 ++ encodeVarint 0 ++ [x02] ++ payload)
   = Ok (mkMessage x61 [mkRange (mkBound InfiniteTimestamp []) 2 payload]) /\
   decodeIdList payload = Panic).
Proof. apply (declared_length_panics (2 ^ 62) 1 []); unfold max_alloc; lia. Defined.
