(* ===== verification/NegReconcile.v ===== *)
(** * nip77: range-based set reconciliation

    [nip77/negentropy.go] (items, fingerprints, Initiate) and
    [nip77/reconcile.go].  The hash is any [Hash256]; the response under
    construction, the frame and the loop's variables are explicit state.

    The diff of an id list iterates a Go map ([for id := range theirMap]), so
    the order of [idsNeed] is unspecified; the model fixes one order and the
    theorems speak of membership. *)

From S2P Require Import Prelude GoLib Sha256 NegCodec.

(** ** Items and bounds *)

(** Compare: by timestamp, then by the 32 id bytes. *)
Definition Compare (i other : Item) : Z :=
  if Timestamp i <? Timestamp other then -1
  else if Timestamp other <? Timestamp i then 1
  else match Cmp.compare (ID i) (ID other) with Lt => -1 | Eq => 0 | Gt => 1 end.

(** The prefix loop of ItemIsBeforeBound over [i < min(len(prefix), 32)]. *)
Fixpoint prefix_before (id prefix : list byte) : bool :=
  match id, prefix with
  | a :: id, b :: prefix =>
      if b2z a <? b2z b then true
      else if b2z b <? b2z a then false
      else prefix_before id prefix
  | _, _ => false
  end.

Definition ItemIsBeforeBound (item : Item) (bound : Bound) : bool :=
  if bTimestamp bound =? InfiniteTimestamp then true
  else if Timestamp item <? bTimestamp bound then true
  else if bTimestamp bound <? Timestamp item then false
  else prefix_before (ID item) (IDPrefix bound).

(** The length of the common prefix of two ids, at most 31. *)
Fixpoint shared_prefix (fuel : nat) (a b : list byte) : nat :=
  match fuel, a, b with
  | S fuel, x :: a, y :: b => if bool_decide (x = y) then S (shared_prefix fuel a b) else 0
  | _, _, _ => 0
  end.

Definition minimalBound (prev curr : Item) : Bound :=
  if negb (Timestamp prev =? Timestamp curr) then mkBound (Timestamp curr) []
  else
    let shared := shared_prefix 31 (ID prev) (ID curr) in
    mkBound (Timestamp curr) (take (S shared) (ID curr)).

(** ** Fingerprints *)

(** addMod256: byte-wise little-endian addition with a [uint16] carry; the
    last carry is dropped. *)
Fixpoint add_carry (carry : Z) (a b : list byte) : list byte :=
  match a, b with
  | x :: a, y :: b =>
      let val := u16 (b2z x + b2z y + carry) in
      z2b val :: add_carry (Z.shiftr val 8) a b
  | _, _ => []
  end.

Definition addMod256 (a b : list byte) : list byte := add_carry 0 a b.

Section WithHash.
Context {hash : Hash256}.

Definition computeFingerprint (items : list Item) : list byte :=
  let sum := foldl (fun sum item => addMod256 sum (ID item)) (repeat x00 32) items in
  take 16 (sum256 (sum ++ encodeVarint (zlen items))).

(** ** Reconciliation state *)

Record Negentropy := mkNegentropy {
  Items : list Item;
  IsInitiator : bool;
  FrameSizeLimit : Z;
  reported : gset gostring;
}.

Definition New (items : list Item) : Negentropy :=
  mkNegentropy items false DefaultFrameSizeLimit ∅.

(** splitRange's loop over the buckets: [i] the bucket, [curr] its first item. *)
Fixpoint split_buckets (n : nat) (items : list Item) (upper per extra : nat) (upperBound : Bound)
    (i curr : nat) : list Range :=
  match n with
  | O => []
  | S n =>
      let size := if (i <? extra)%nat then S per else per in
      let fp := computeFingerprint (slice curr (curr + size) items) in
      let curr := (curr + size)%nat in
      let bound :=
        if (curr =? upper)%nat then upperBound
        else match items !! (curr - 1)%nat, items !! curr with
             | Some p, Some c => minimalBound p c
             | _, _ => upperBound
             end in
      mkRange bound 1 fp :: split_buckets n items upper per extra upperBound (S i) curr
  end.

Definition splitRange (items : list Item) (lower upper : nat) (upperBound : Bound) : list Range :=
  let num := (upper - lower)%nat in
  if (num <? 2 * buckets)%nat then [mkRange upperBound 2 (encodeIdList (slice lower upper items))]
  else split_buckets buckets items upper (num / buckets) (num mod buckets) upperBound 0 lower.

Definition Initiate (n : Negentropy) : Negentropy * Message :=
  let n := mkNegentropy (Items n) true (FrameSizeLimit n) (reported n) in
  (n, mkMessage x61 (splitRange (Items n) 0 (length (Items n)) (mkBound InfiniteTimestamp []))).

Definition IsComplete (msg : Message) : bool :=
  forallb (fun r => Mode r =? 0) (Ranges msg).

(** lowerBound: the first index at or after [from] whose item is not before
    [bound]. *)
Definition lowerBound (items : list Item) (from : nat) (bound : Bound) : nat :=
  (from + Search.search (length items - from) (fun i =>
    match items !! (from + i)%nat with
    | Some it => negb (ItemIsBeforeBound it bound)
    | None => true
    end))%nat.

(** ** Frame accounting *)

Record frame := mkFrame { size : Z; limit : Z; lastTs : Z }.

Definition idListHeader : Z := 64.

Definition frameLimit (n : Negentropy) : Z :=
  if FrameSizeLimit n <=? 0 then 0 else Z.max (FrameSizeLimit n) MinFrameSizeLimit.

Definition exceeded (f : frame) (n : Z) : bool := (0 <? limit f) && (limit f - 200 <? n).

(** rangeLen: the encoded size of [r] and the timestamp left in [*lastTs]. *)
Definition rangeLen (r : Range) (last : Z) : Z * Z :=
  let inf := bTimestamp (UpperBound r) =? InfiniteTimestamp in
  let ts := if inf then 0 else u64 (1 + bTimestamp (UpperBound r) - last) in
  let last := if inf then last else bTimestamp (UpperBound r) in
  let n := zlen (encodeVarint ts) + zlen (encodeVarint (zlen (IDPrefix (UpperBound r))))
    + zlen (IDPrefix (UpperBound r)) + 1 in
  (if Mode r =? 1 then n + 16 else if Mode r =? 2 then n + zlen (Payload r) else n, last).

Fixpoint measure_from (last : Z) (rs : list Range) : Z :=
  match rs with
  | [] => 0
  | r :: rs => let '(n, last) := rangeLen r last in n + measure_from last rs
  end.

Definition measure (f : frame) (rs : list Range) : Z := measure_from (lastTs f) rs.

(** The last finite bound among [rs], or [last]. *)
Definition last_ts (last : Z) (rs : list Range) : Z :=
  foldl (fun last r => if bTimestamp (UpperBound r) =? InfiniteTimestamp then last
                       else bTimestamp (UpperBound r)) last rs.

Definition commit (f : frame) (m : list Range) (rs : list Range) : frame * list Range :=
  (mkFrame (size f + measure f rs) (limit f) (last_ts (lastTs f) rs), m ++ rs).

(** ** Reconcile *)

Definition report (n : Negentropy) (id : gostring) : Negentropy * bool :=
  if IsInitiator n then
    if decide (id ∈ reported n) then (n, false)
    else (mkNegentropy (Items n) (IsInitiator n) (FrameSizeLimit n) ({[id]} ∪ reported n), true)
  else (n, true).

(** Our items of the range against their ids. *)
Fixpoint diff_items (n : Negentropy) (theirMap : gset gostring) (items : list Item) (have : list gostring)
    : Negentropy * gset gostring * list gostring :=
  match items with
  | [] => (n, theirMap, have)
  | item :: items =>
      let idHex := Hex.encode (ID item) in
      if decide (idHex ∈ theirMap) then diff_items n (theirMap ∖ {[idHex]}) items have
      else
        let '(n, new) := report n idHex in
        diff_items n theirMap items (if new then have ++ [idHex] else have)
  end.

(** What is left of their ids. *)
Fixpoint report_rest (n : Negentropy) (ids : list gostring) (need : list gostring)
    : Negentropy * list gostring :=
  match ids with
  | [] => (n, need)
  | id :: ids =>
      let '(n, new) := report n id in
      report_rest n ids (if new then need ++ [id] else need)
  end.

(** The variables of Reconcile's loop. *)
Record rstate := mkR {
  rNeg : Negentropy;
  rResp : list Range;
  rFrame : frame;
  rHave : list gostring;
  rNeed : list gostring;
  rPrevIdx : nat;
  rPrevBound : Bound;
  rWrittenIdx : nat;
  rSkip : bool;
}.

(** How an iteration ends. *)
Inductive verdict := Continue | Break | Fail (e : NegErr) | Crash.

(** The first index at which an id list starting at [base] bytes no longer
    fits, if any. *)
Fixpoint list_cut (f : frame) (base : Z) (lower : nat) (n : nat) (i : nat) : option nat :=
  match n with
  | O => None
  | S n =>
      if exceeded f (base + idListHeader + (Z.of_nat i - Z.of_nat lower + 1) * 32) then Some i
      else list_cut f base lower n (S i)
  end.

(** What an iteration's switch leaves: the state, the uncommitted ranges [o],
    the new [upper] and [full]. *)
Record swres := mkSw { swState : rstate; swO : list Range; swUpper : nat; swFull : bool }.

Definition set_skip (st : rstate) (b : bool) : rstate :=
  mkR (rNeg st) (rResp st) (rFrame st) (rHave st) (rNeed st) (rPrevIdx st) (rPrevBound st) (rWrittenIdx st) b.

(** The closure [doSkip]: a pending Skip is emitted once. *)
Definition doSkip (st : rstate) (o : list Range) : rstate * list Range :=
  if rSkip st then (set_skip st false, o ++ [mkRange (rPrevBound st) 0 []]) else (st, o).

(** Case 2 for the responder: list our ids, cut at an item bound if they do
    not fit. *)
Definition list_range (st : rstate) (lower upper : nat) (theirBound : Bound) : swres :=
  let items := Items (rNeg st) in
  let '(st, o) := doSkip st [] in
  let base := size (rFrame st) + measure (rFrame st) o in
  let '(end_, bound, full) :=
    match list_cut (rFrame st) base lower (upper - lower) lower with
    | Some i =>
        (i, match items !! i with
            | Some it => mkBound (Timestamp it) (ID it)
            | None => theirBound
            end, true)
    | None => (upper, theirBound, false)
    end in
  let o := o ++ [mkRange bound 2 (encodeIdList (slice lower end_ items))] in
  let '(f, resp) := commit (rFrame st) (rResp st) o in
  mkSw (mkR (rNeg st) resp f (rHave st) (rNeed st) (rPrevIdx st) (rPrevBound st) end_ (rSkip st))
       [] end_ full.

(** The switch on theirRange.Mode; a mode outside 0..2 does nothing. *)
Definition mode_switch (st : rstate) (r : Range) (lower upper : nat) : swres + verdict :=
  let items := Items (rNeg st) in
  if Mode r =? 0 then inl (mkSw (set_skip st true) [] upper false)
  else if Mode r =? 1 then
    if decide (computeFingerprint (slice lower upper items) = Payload r)
    then inl (mkSw (set_skip st true) [] upper false)
    else
      let '(st, o) := doSkip st [] in
      inl (mkSw st (o ++ splitRange items lower upper (UpperBound r)) upper false)
  else if Mode r =? 2 then
    match decodeIdList (Payload r) with
    | Err e => inr (Fail e)
    | Panic => inr Crash
    | Ok theirIDs =>
        let theirMap : gset gostring := list_to_set theirIDs in
        let '(n, rest, have) := diff_items (rNeg st) theirMap (slice lower upper items) (rHave st) in
        let '(n, need) := report_rest n (elements rest) (rNeed st) in
        let st := mkR n (rResp st) (rFrame st) have need (rPrevIdx st) (rPrevBound st)
                      (rWrittenIdx st) (rSkip st) in
        if IsInitiator n then inl (mkSw (set_skip st true) [] upper false)
        else inl (list_range st lower upper (UpperBound r))
    end
  else inl (mkSw st [] upper false).

(** One iteration of the loop over theirMsg.Ranges. *)
Definition rstep (st : rstate) (r : Range) : rstate * verdict :=
  let lower := rPrevIdx st in
  let upper := lowerBound (Items (rNeg st)) lower (UpperBound r) in
  let skipBefore := rSkip st in
  match mode_switch st r lower upper with
  | inr v => (st, v)
  | inl (mkSw st o upper full) =>
      let items := Items (rNeg st) in
      if full || exceeded (rFrame st) (size (rFrame st) + measure (rFrame st) o) then
        let '(resp, written) :=
          if negb full && skipBefore
          then (rResp st ++ [mkRange (rPrevBound st) 0 []], lower)
          else (rResp st, rWrittenIdx st) in
        let resp := resp ++ [mkRange (mkBound InfiniteTimestamp []) 1
                               (computeFingerprint (drop written items))] in
        (mkR (rNeg st) resp (rFrame st) (rHave st) (rNeed st) (rPrevIdx st) (rPrevBound st)
             written (rSkip st), Break)
      else
        let '(f, resp, written) :=
          if (0 <? length o)%nat
          then let '(f, resp) := commit (rFrame st) (rResp st) o in (f, resp, upper)
          else (rFrame st, rResp st, rWrittenIdx st) in
        (mkR (rNeg st) resp f (rHave st) (rNeed st) upper (UpperBound r) written (rSkip st), Continue)
  end.

Fixpoint rloop (st : rstate) (rs : list Range) : rstate * verdict :=
  match rs with
  | [] => (st, Continue)
  | r :: rs =>
      match rstep st r with
      | (st, Continue) => rloop st rs
      | (st, v) => (st, v)
      end
  end.

(** The zero Bound and the state before the loop. *)
Definition rinit (n : Negentropy) : rstate :=
  mkR n [] (mkFrame 1 (frameLimit n) 0) [] [] 0 (mkBound 0 []) 0 false.

(** The response, idsHave and idsNeed; [n] is updated in place. *)
Definition Reconcile (n : Negentropy) (theirMsg : Message)
    : Negentropy * outcome NegErr (Message * list gostring * list gostring) :=
  match rloop (rinit n) (Ranges theirMsg) with
  | (st, Fail e) => (rNeg st, Err e)
  | (st, Crash) => (rNeg st, Panic)
  | (st, _) => (rNeg st, Ok (mkMessage x61 (rResp st), rHave st, rNeed st))
  end.

End WithHash.
