(* ===== verification/NegOrder.v ===== *)
(** * nip77: the item order, range bounds and fingerprints

    Lemmas and properties of [NegReconcile]'s comparison, bound and
    fingerprint functions. *)

From S2P Require Import Prelude GoLib Sha256 NegCodec NegReconcile.

(** ** Compare is a strict total order *)

Lemma Compare_refl i : Compare i i = 0.
Proof. unfold Compare. by rewrite Z.ltb_irrefl, Cmp.compare_refl. Qed.

Lemma Compare_values i j : Compare i j = -1 \/ Compare i j = 0 \/ Compare i j = 1.
Proof. unfold Compare. repeat case_scrutinee; auto. Qed.

Lemma Compare_antisym i j : Compare j i = - Compare i j.
Proof.
  unfold Compare. rewrite (Cmp.compare_antisym (ID i) (ID j)).
  repeat case_scrutinee; bool_prop; simplify_eq; try lia; cbn in *; simplify_eq; try lia.
  all: by destruct (Cmp.compare (ID i) (ID j)).
Qed.

Lemma Compare_lt i j :
  Compare i j = -1 <-> Timestamp i < Timestamp j \/
    (Timestamp i = Timestamp j /\ Cmp.compare (ID i) (ID j) = Lt).
Proof.
  unfold Compare. repeat case_scrutinee; bool_prop; split; intros; try done; try lia.
  all: destruct_or?; destruct_and?; try lia; try done. right. split; [lia|done].
Qed.

Lemma Compare_eq i j : Compare i j = 0 <-> i = j.
Proof.
  split; [|intros ->; apply Compare_refl]. unfold Compare.
  repeat case_scrutinee; bool_prop; intros; try done.
  match goal with E : Cmp.compare _ _ = Eq |- _ => apply Cmp.compare_eq in E end.
  destruct i, j; cbn in *. f_equal; [lia|done].
Qed.

Lemma Compare_lt_trans i j k : Compare i j = -1 -> Compare j k = -1 -> Compare i k = -1.
Proof.
  rewrite !Compare_lt. intros [H1|[H1 C1]] [H2|[H2 C2]]; try (left; lia).
  right. split; [lia|]. by apply Cmp.compare_lt_trans with (ID j).
Qed.

(** Items strictly ascending, as New expects them. *)
Definition sorted (items : list Item) : Prop :=
  forall i j a b, (i < j)%nat -> items !! i = Some a -> items !! j = Some b -> Compare a b = -1.

Fixpoint sortedb (items : list Item) : bool :=
  match items with
  | a :: ((b :: _) as r) => (Compare a b =? -1) && sortedb r
  | _ => true
  end.

Lemma sorted_cons a l :
  sorted l -> (forall b, l !! 0%nat = Some b -> Compare a b = -1) -> sorted (a :: l).
Proof.
  intros Hl H0 i j x y Hij Hx Hy. destruct j as [|j]; [lia|]. destruct i as [|i]; cbn in Hx, Hy.
  - simplify_eq. destruct l as [|b l]; [done|]. specialize (H0 b eq_refl).
    destruct j as [|j]; [cbn in Hy; simplify_eq; done|]. apply Compare_lt_trans with b; [done|].
    apply (Hl 0%nat (S j)); [lia|done|done].
  - apply (Hl i j); [lia|done|done].
Qed.

Lemma sortedb_sound items : sortedb items = true -> sorted items.
Proof.
  induction items as [|a l IH]; intros H; [by intros ? ? ? ? ? ?|].
  apply sorted_cons.
  - apply IH. destruct l; [done|]. cbn in H. by bool_prop.
  - intros b Hb. destruct l; [done|]. cbn in Hb. simplify_eq. cbn in H. by bool_prop.
Qed.

Lemma sorted_nth_le items i j a b :
  sorted items -> (i <= j)%nat -> items !! i = Some a -> items !! j = Some b ->
  a = b \/ Compare a b = -1.
Proof.
  intros Hs Hij Ha Hb. destruct (decide (i = j)) as [->|]; [left; congruence|].
  right. apply (Hs i j); [lia|done|done].
Qed.

(** ** Bounds cut the order *)

Lemma prefix_before_mono x y p :
  length x = length y -> Cmp.compare x y = Lt -> prefix_before y p = true -> prefix_before x p = true.
Proof.
  revert y p. induction x as [|a x IH]; intros [|b y] [|c p] Hl; cbn in *; try done.
  destruct (Z.compare_spec (b2z a) (b2z b)) as [E|E|E]; try done.
  - intros Hc. rewrite E. destruct (_ <? _); [done|]. destruct (_ <? _); [done|]. apply IH; [lia|done].
  - intros _. destruct (Z.ltb_spec (b2z b) (b2z c)); [intros; by rewrite (proj2 (Z.ltb_lt _ _)) by lia|].
    destruct (Z.ltb_spec (b2z c) (b2z b)); [done|].
    intros. by rewrite (proj2 (Z.ltb_lt _ _)) by lia.
Qed.

Lemma before_mono i j bd :
  length (ID i) = length (ID j) -> Compare i j = -1 ->
  ItemIsBeforeBound j bd = true -> ItemIsBeforeBound i bd = true.
Proof.
  intros Hl Hc. apply Compare_lt in Hc. unfold ItemIsBeforeBound.
  destruct (_ =? _); [done|].
  destruct (Z.ltb_spec (Timestamp j) (bTimestamp bd)).
  { intros _. by rewrite (proj2 (Z.ltb_lt _ _)) by lia. }
  destruct (Z.ltb_spec (bTimestamp bd) (Timestamp j)); [done|]. intros Hp.
  destruct Hc as [Hc|[He Hc]]; [by rewrite (proj2 (Z.ltb_lt _ _)) by lia|].
  rewrite !(proj2 (Z.ltb_ge _ _)) by lia. by apply prefix_before_mono with (ID j).
Qed.

Lemma Forall_item_len items i a b j :
  Forall item_ok items -> items !! i = Some a -> items !! j = Some b -> length (ID a) = length (ID b).
Proof.
  intros Hok Ha Hb. rewrite Forall_lookup in Hok.
  destruct (Hok _ _ Ha) as [_ ->], (Hok _ _ Hb) as [_ ->]. done.
Qed.

(** lowerBound finds the cut: [from..r) is before the bound, [r..) is not. *)
Lemma lowerBound_spec items from bd :
  sorted items -> Forall item_ok items -> (from <= length items)%nat ->
  let r := lowerBound items from bd in
  (from <= r <= length items)%nat /\
  (forall k it, (from <= k < r)%nat -> items !! k = Some it -> ItemIsBeforeBound it bd = true) /\
  (forall k it, (r <= k)%nat -> items !! k = Some it -> ItemIsBeforeBound it bd = false).
Proof.
  intros Hs Hok Hf. unfold lowerBound. set (f := fun i => _). set (n := (length items - from)%nat).
  destruct (Search.search_spec n f) as (H1 & H2 & H3).
  { intros a b Hab Ha. unfold f in *. destruct (items !! (from + b)%nat) as [y|] eqn:Ey; [|done].
    destruct (lookup_lt_is_Some_2 items (from + a)%nat) as [x Ex]; [lia|]. rewrite Ex in Ha.
    apply negb_true_iff in Ha. apply negb_true_iff. destruct (ItemIsBeforeBound y bd) eqn:Eb; [|done].
    destruct (decide (a = b)) as [->|]; [congruence|].
    rewrite (before_mono x y bd) in Ha; [done| |apply (Hs (from + a)%nat (from + b)%nat); [lia|done|done]|done].
    by eapply Forall_item_len. }
  cbn zeta. split; [lia|]. split.
  - intros k it Hk Hit. specialize (H2 (k - from)%nat ltac:(lia)). unfold f in H2.
    replace (from + (k - from))%nat with k in H2 by lia. rewrite Hit in H2. by apply negb_false_iff in H2.
  - intros k it Hk Hit. apply lookup_lt_Some in Hit as Hlt.
    specialize (H3 (k - from)%nat ltac:(lia)). unfold f in H3.
    replace (from + (k - from))%nat with k in H3 by lia. rewrite Hit in H3. by apply negb_true_iff in H3.
Qed.

(** Conversely a cut is what lowerBound returns. *)
Lemma lowerBound_unique items from bd r :
  (from <= r <= length items)%nat ->
  (forall k it, (from <= k < r)%nat -> items !! k = Some it -> ItemIsBeforeBound it bd = true) ->
  (forall k it, (r <= k)%nat -> items !! k = Some it -> ItemIsBeforeBound it bd = false) ->
  lowerBound items from bd = r.
Proof.
  intros Hr Hlo Hhi. unfold lowerBound.
  rewrite (Search.search_unique _ _ (r - from)); [lia|lia| |].
  - intros k Hk. destruct (lookup_lt_is_Some_2 items (from + k)%nat) as [x Ex]; [lia|].
    rewrite Ex. rewrite (Hlo (from + k)%nat x); [done|lia|done].
  - intros k Hk. destruct (items !! (from + k)%nat) as [x|] eqn:Ex; [|done].
    rewrite (Hhi (from + k)%nat x); [done|lia|done].
Qed.

(** ** minimalBound *)

Lemma prefix_before_nil l : prefix_before l [] = false.
Proof. by destruct l. Qed.

Lemma shared_prefix_spec fuel x y :
  length x = length y -> Cmp.compare x y = Lt -> (length x <= S fuel)%nat ->
  let s := shared_prefix fuel x y in
  take s x = take s y /\ prefix_before x (take (S s) y) = true /\ prefix_before y (take (S s) y) = false.
Proof.
  revert x y. induction fuel as [|fuel IH]; intros [|a x] [|b y] Hl Hc Hf; cbn in *; try done; try lia.
  - destruct x; [|cbn in Hf; lia]. destruct y; [|done].
    split; [done|]. rewrite !Z.ltb_irrefl. destruct (Z.compare_spec (b2z a) (b2z b)); try done.
    by rewrite (proj2 (Z.ltb_lt _ _)) by lia.
  - destruct (Z.compare_spec (b2z a) (b2z b)) as [E|E|E]; [|clear IH|done].
    + apply b2z_inj in E as ->. rewrite bool_decide_true by done. rewrite !Z.ltb_irrefl.
      destruct (IH x y) as (H1 & H2 & H3); [lia|done|lia|]. cbn. by rewrite H1.
    + rewrite bool_decide_false by (intros ->; lia). cbn.
      by rewrite (proj2 (Z.ltb_lt _ _)), Z.ltb_irrefl, take_0, prefix_before_nil by lia.
Qed.

(** Two ids that agree on the bytes of a prefix compare alike with it. *)
Lemma prefix_before_take x y p s :
  take s x = take s y -> (length p <= s)%nat -> length x = length y ->
  prefix_before x p = prefix_before y p.
Proof.
  revert y p s. induction x as [|a x IH]; intros [|b y] [|c p] s Ht Hp Hl; cbn in *; try done.
  destruct s as [|s]; [lia|]. cbn in Ht. injection Ht as -> Ht.
  destruct (_ <? _); [done|]. destruct (_ <? _); [done|]. apply IH with s; [done|lia|lia].
Qed.

Lemma minimalBound_cut prev curr :
  item_ok prev -> item_ok curr -> Timestamp curr < InfiniteTimestamp -> Compare prev curr = -1 ->
  ItemIsBeforeBound prev (minimalBound prev curr) = true /\
  ItemIsBeforeBound curr (minimalBound prev curr) = false.
Proof.
  intros [_ Hp] [_ Hc] Hfin Hlt. apply Compare_lt in Hlt. unfold minimalBound, ItemIsBeforeBound.
  destruct (Z.eqb_spec (Timestamp prev) (Timestamp curr)) as [E|E]; cbn [negb bTimestamp IDPrefix].
  - destruct Hlt as [|[_ Hlt]]; [lia|].
    destruct (shared_prefix_spec 31 (ID prev) (ID curr)) as (_ & H1 & H2); [lia|done|lia|].
    rewrite (proj2 (Z.eqb_neq _ _)), E, !Z.ltb_irrefl by lia. done.
  - rewrite (proj2 (Z.eqb_neq _ _)), (proj2 (Z.ltb_lt _ _)), Z.ltb_irrefl by lia. split; [done|].
    apply prefix_before_nil.
Qed.

Lemma minimalBound_shortest prev curr b :
  item_ok prev -> item_ok curr -> Compare prev curr = -1 ->
  ItemIsBeforeBound prev b = true -> ItemIsBeforeBound curr b = false ->
  (length (IDPrefix (minimalBound prev curr)) <= length (IDPrefix b))%nat.
Proof.
  intros [_ Hp] [_ Hc] Hlt HB HA. apply Compare_lt in Hlt. unfold minimalBound.
  destruct (Z.eqb_spec (Timestamp prev) (Timestamp curr)) as [E|E]; cbn [negb IDPrefix]; [|cbn; lia].
  destruct Hlt as [|[_ Hlt]]; [lia|].
  destruct (shared_prefix_spec 31 (ID prev) (ID curr)) as (H0 & _ & _); [lia|done|lia|].
  set (s := shared_prefix 31 (ID prev) (ID curr)) in *.
  destruct (decide (length (IDPrefix b) <= s)%nat) as [Hle|Hgt]; [exfalso|rewrite length_take; lia].
  unfold ItemIsBeforeBound in HA, HB. destruct (_ =? InfiniteTimestamp); [done|]. rewrite E in HB.
  destruct (_ <? _); [done|]. destruct (_ <? _); [done|].
  rewrite (prefix_before_take (ID prev) (ID curr) _ s) in HB; [congruence|done|done|lia].
Qed.

(** ** Fingerprints *)

Fixpoint le_val (l : list byte) : Z :=
  match l with [] => 0 | b :: l => b2z b + 256 * le_val l end.

Lemma le_val_bound l : 0 <= le_val l < 256 ^ zlen l.
Proof.
  induction l as [|b l IH]; [split; [done|reflexivity]|]. rewrite zlen_cons. cbn [le_val].
  rewrite Z.pow_add_r by (pose proof (zlen_nonneg l); lia). pose proof (b2z_range b). lia.
Qed.

Lemma le_val_inj l k : length l = length k -> le_val l = le_val k -> l = k.
Proof.
  revert k. induction l as [|a l IH]; intros [|b k] Hl Hv; cbn [le_val length] in *; try done.
  pose proof (b2z_range a). pose proof (b2z_range b).
  f_equal; [apply b2z_inj; lia | apply IH; [lia|lia]].
Qed.

Lemma add_carry_spec c a b :
  length a = length b -> 0 <= c <= 1 ->
  length (add_carry c a b) = length a /\
  le_val (add_carry c a b) = (le_val a + le_val b + c) mod 256 ^ zlen a.
Proof.
  revert c b. induction a as [|x a IH]; intros c [|y b] Hl Hc; try done.
  { cbn. split; [done|]. by rewrite Z.mod_1_r. }
  pose proof (b2z_range x). pose proof (b2z_range y). pose proof (zlen_nonneg a).
  cbn [add_carry le_val length]. set (v := b2z x + b2z y + c).
  rewrite (wrap_small 16) by lia. rewrite Z.shiftr_div_pow2 by lia. change (2 ^ 8) with 256.
  destruct (IH (v / 256) b) as [-> ->]; [cbn in Hl; lia|unfold v; dlia|].
  split; [done|]. rewrite b2z_z2b, zlen_cons, Z.pow_add_r by lia. change (256 ^ 1) with 256.
  rewrite Z.rem_mul_r by (try lia; apply Z.pow_pos_nonneg; lia).
  replace (b2z x + 256 * le_val a + (b2z y + 256 * le_val b) + c) with (v + (le_val a + le_val b) * 256)
    by (unfold v; lia).
  rewrite Z.mod_add, Z.div_add by lia. do 3 f_equal. lia.
Qed.

Lemma addMod256_spec a b :
  length a = 32%nat -> length b = 32%nat ->
  length (addMod256 a b) = 32%nat /\ le_val (addMod256 a b) = (le_val a + le_val b) mod 2 ^ 256.
Proof.
  intros Ha Hb. destruct (add_carry_spec 0 a b) as [H1 H2]; [lia|lia|].
  unfold addMod256. rewrite H1, H2, Z.add_0_r. split; [done|]. f_equal. unfold zlen. by rewrite Ha.
Qed.

Definition id_sum (items : list Item) : Z := foldr (fun i s => le_val (ID i) + s) 0 items.

Lemma sum_items_spec acc items :
  length acc = 32%nat -> Forall item_ok items ->
  length (foldl (fun sum item => addMod256 sum (ID item)) acc items) = 32%nat /\
  le_val (foldl (fun sum item => addMod256 sum (ID item)) acc items)
  = (le_val acc + id_sum items) mod 2 ^ 256.
Proof.
  intros Ha Hok. revert acc Ha. induction Hok as [|i items [_ Hi] _ IH]; intros acc Ha.
  - cbn [foldl id_sum foldr]. split; [done|]. rewrite Z.add_0_r, Z.mod_small; [done|].
    pose proof (le_val_bound acc) as Hb. unfold zlen in Hb. by rewrite Ha in Hb.
  - cbn [foldl]. destruct (addMod256_spec acc (ID i)) as [H1 H2]; [done|done|].
    destruct (IH _ H1) as [H3 H4]. split; [done|]. rewrite H4, H2.
    cbn [id_sum foldr]. fold (id_sum items). rewrite Zplus_mod_idemp_l. f_equal. lia.
Qed.

Lemma id_sum_perm items items' : items ≡ₚ items' -> id_sum items = id_sum items'.
Proof. unfold id_sum. induction 1; cbn [foldr]; lia. Qed.

Section Fingerprints.
Context {hash : Hash256}.

Lemma fingerprint_length items : length (computeFingerprint items) = 16%nat.
Proof. unfold computeFingerprint. rewrite length_take, sum256_length. lia. Qed.

Lemma fingerprint_perm items items' :
  Forall item_ok items -> items ≡ₚ items' -> computeFingerprint items = computeFingerprint items'.
Proof.
  intros Hok Hp. assert (Hok' : Forall item_ok items') by (by rewrite <- Hp). unfold computeFingerprint.
  destruct (sum_items_spec (repeat x00 32) items) as [L V]; [done|done|].
  destruct (sum_items_spec (repeat x00 32) items') as [L' V']; [done|done|].
  rewrite (le_val_inj _ _ (eq_trans L (eq_sym L'))) by (rewrite V, V'; by rewrite (id_sum_perm _ _ Hp)).
  unfold zlen. by rewrite (Permutation_length Hp).
Qed.

End Fingerprints.

(** ** Properties *)

(** [Compare] is the strict total order the protocol sorts by: it
    distinguishes distinct items, is antisymmetric and transitive; and an item
    before another one is before every bound the other is before. *)
Theorem Compare_total_order (i j k : Item) :
  (Compare i j = 0 <-> i = j) /\ Compare j i = - Compare i j /\
  (Compare i j = -1 -> Compare j k = -1 -> Compare i k = -1) /\
  (Compare i j = -1 \/ Compare i j = 0 \/ Compare i j = 1) /\
  (forall b, length (ID i) = length (ID j) -> Compare i j = -1 ->
     ItemIsBeforeBound j b = true -> ItemIsBeforeBound i b = true).
Proof.
  split; [apply Compare_eq|]. split; [apply Compare_antisym|]. split; [apply Compare_lt_trans|].
  split; [apply Compare_values|]. intros b. apply before_mono.
Qed.

Definition item_a : Item := mkItem 1700000000 (x00 :: x01 :: repeat x02 30).
Definition item_b : Item := mkItem 1700000000 (x00 :: x03 :: repeat x02 30).
Definition item_c : Item := mkItem 1700000007 (repeat x00 32).

Lemma Compare_total_order_witness :
  Compare item_a item_b = -1 /\ Compare item_b item_c = -1 /\ Compare item_a item_c = -1.
Proof.
  destruct (Compare_total_order item_a item_b item_c) as (_ & _ & H & _).
  split; [reflexivity|]. split; [reflexivity|]. apply H; reflexivity.
Defined.

(** minimalBound separates two consecutive items, the left one before it
    and the right one not, and no bound that separates them has a shorter id
    prefix. *)
Theorem minimalBound_minimal (prev curr : Item) (b : Bound)
    (Hp : item_ok prev) (Hc : item_ok curr) (Hfin : Timestamp curr < InfiniteTimestamp)
    (Hlt : Compare prev curr = -1) :
  let m := minimalBound prev curr in
  ItemIsBeforeBound prev m = true /\ ItemIsBeforeBound curr m = false /\
  (ItemIsBeforeBound prev b = true -> ItemIsBeforeBound curr b = false ->
   (length (IDPrefix m) <= length (IDPrefix b))%nat).
Proof.
  cbn zeta. destruct (minimalBound_cut prev curr) as [H1 H2]; [done..|].
  split; [done|]. split; [done|]. by apply minimalBound_shortest.
Qed.

Lemma minimalBound_minimal_witness :
  let m := minimalBound item_a item_b in
  ItemIsBeforeBound item_a m = true /\ ItemIsBeforeBound item_b m = false /\
  (ItemIsBeforeBound item_a (mkBound 1700000000 (x00 :: x02 :: [])) = true ->
   ItemIsBeforeBound item_b (mkBound 1700000000 (x00 :: x02 :: [])) = false ->
   (length (IDPrefix m) <= 2)%nat).
Proof.
  apply (minimalBound_minimal item_a item_b (mkBound 1700000000 [x00; x02])).
  - split; [cbn; lia|reflexivity].
  - split; [cbn; lia|reflexivity].
  - unfold InfiniteTimestamp. cbn. lia.
  - reflexivity.
Defined.

(** addMod256 is addition of little-endian integers mod 2^256, and so
    computeFingerprint depends on the set of items only, not on the order in
    which a peer holds or adds them. *)
Theorem fingerprint_order_free `{!Hash256} (a b : list byte) (items items' : list Item)
    (Ha : length a = 32%nat) (Hb : length b = 32%nat)
    (Hok : Forall item_ok items) (Hperm : items ≡ₚ items') :
  le_val (addMod256 a b) = (le_val a + le_val b) mod 2 ^ 256 /\
  computeFingerprint items = computeFingerprint items' /\
  length (computeFingerprint items) = 16%nat.
Proof.
  split; [by apply addMod256_spec|]. split; [by apply fingerprint_perm|apply fingerprint_length].
Qed.

Lemma fingerprint_order_free_witness :
  le_val (addMod256 (repeat xff 32) (x02 :: repeat x00 31))
  = (le_val (repeat xff 32) + le_val (x02 :: repeat x00 31)) mod 2 ^ 256 /\
  computeFingerprint [item_a; item_c] = computeFingerprint [item_c; item_a] /\
  length (computeFingerprint [item_a; item_c]) = 16%nat.
Proof.
  apply fingerprint_order_free; [reflexivity|reflexivity| |constructor].
  repeat constructor; cbn; lia.
Defined.
