(* ===== verification/NegSession.v ===== *)
(** * nip77: what a reconciliation round achieves

    The encoded size of a response and its limit, the exactness of the diff an
    id list yields, convergence on equal sets, and one way in which the frame
    limit loses items. *)

From S2P Require Import Prelude GoLib Sha256 NegCodec NegReconcile NegOrder.

Section Session.
Context {hash : Hash256}.

(** ** rangeLen is the encoded size *)

(** A range ToBytes accepts. *)
Definition encodable (r : Range) : Prop :=
  Mode r = 0 \/ (Mode r = 1 /\ zlen (Payload r) = 16) \/ Mode r = 2.

Lemma rangeLen_encode last r :
  encodable r -> exists b, encode_range last r = Ok (b, (rangeLen r last).2) /\ (rangeLen r last).1 = zlen b.
Proof.
  intros Hr. unfold encode_range, rangeLen.
  assert (E : forall t, u64 (1 + u64 (t - last)) = u64 (1 + t - last)).
  { intros t. unfold wrap. rewrite Zplus_mod_idemp_r. f_equal. lia. }
  rewrite E. set (ts := if _ =? InfiniteTimestamp then 0 else _).
  set (last' := if _ =? InfiniteTimestamp then _ else _).
  destruct Hr as [->|[[-> Hp]| ->]]; cbn [Z.eqb Pos.eqb fst snd].
  - eexists. split; [done|]. autorewrite with nmilat. lia.
  - rewrite Hp. cbn [Z.eqb Pos.eqb]. eexists. split; [done|]. autorewrite with nmilat. lia.
  - eexists. split; [done|]. autorewrite with nmilat. lia.
Qed.

Lemma rangeLen_last r last :
  (rangeLen r last).2 = if bTimestamp (UpperBound r) =? InfiniteTimestamp then last else bTimestamp (UpperBound r).
Proof. done. Qed.

Lemma measure_encode last rs :
  Forall encodable rs -> exists b, encode_ranges last rs = Ok b /\ measure_from last rs = zlen b.
Proof.
  intros Hrs. revert last. induction Hrs as [|r rs Hr _ IH]; intros last; [by exists []|].
  destruct (rangeLen_encode last r Hr) as (b & HE & HL). cbn [encode_ranges measure_from].
  rewrite HE. destruct (rangeLen r last) as [n last'] eqn:ER. cbn [fst snd] in HL, HE |- *.
  destruct (IH last') as (bs' & HE' & HM). cbn. rewrite HE'. eexists. split; [done|].
  rewrite zlen_app. lia.
Qed.

Lemma measure_app last rs rs' :
  measure_from last (rs ++ rs') = measure_from last rs + measure_from (last_ts last rs) rs'.
Proof.
  revert last. induction rs as [|r rs IH]; intros last; [done|].
  cbn [app measure_from last_ts foldl]. pose proof (rangeLen_last r last) as HL.
  destruct (rangeLen r last) as [n last']. cbn in HL. rewrite IH, <- HL. unfold last_ts. lia.
Qed.

Lemma last_ts_app last rs rs' : last_ts last (rs ++ rs') = last_ts (last_ts last rs) rs'.
Proof. unfold last_ts. by rewrite foldl_app. Qed.

(** The size of a range by its parts; a prefix is at most an id. *)
Lemma rangeLen_bound r last :
  encodable r -> zlen (IDPrefix (UpperBound r)) <= 32 ->
  (rangeLen r last).1 <= 44 + (if Mode r =? 1 then 16 else if Mode r =? 2 then zlen (Payload r) else 0).
Proof.
  intros Hr Hp. unfold rangeLen. cbn [fst]. pose proof (zlen_nonneg (IDPrefix (UpperBound r))).
  rewrite (zlen_encodeVarint_small (zlen (IDPrefix _))) by lia.
  set (ts := if _ =? InfiniteTimestamp then 0 else _).
  assert (Hts : 0 <= ts) by (unfold ts; destruct (_ =? _); [lia | by apply wrap_range]).
  pose proof (zlen_encodeVarint ts Hts). destruct (Mode r =? 1), (Mode r =? 2); lia.
Qed.

(** The closing fingerprint takes 19 bytes. *)
Lemma rangeLen_closing last fp : (rangeLen (mkRange (mkBound InfiniteTimestamp []) 1 fp) last).1 = 19.
Proof. reflexivity. Qed.

(** ** The response stays within the frame *)

Lemma zlen_encodeIdList items :
  Forall item_ok items -> zlen (encodeIdList items) = zlen (encodeVarint (zlen items)) + 32 * zlen items.
Proof.
  intros Hok. unfold encodeIdList. rewrite zlen_app. f_equal. unfold zlen.
  rewrite length_concat_ids by done. lia.
Qed.

(** Loop invariant: the frame counts what the response encodes to, within
    [limit - slack]. *)
Record frame_inv (slack : Z) (st : rstate) : Prop := {
  fi_enc : Forall encodable (rResp st);
  fi_size : size (rFrame st) = 1 + measure_from 0 (rResp st);
  fi_last : lastTs (rFrame st) = last_ts 0 (rResp st);
  fi_limit : MinFrameSizeLimit <= limit (rFrame st);
  fi_slack : size (rFrame st) <= limit (rFrame st) - slack;
  fi_bound : zlen (IDPrefix (rPrevBound st)) <= 32;
  fi_items : Forall item_ok (Items (rNeg st));
}.

Lemma commit_inv slack slack' st o st' :
  frame_inv slack st -> Forall encodable o ->
  rFrame st' = (commit (rFrame st) (rResp st) o).1 -> rResp st' = (commit (rFrame st) (rResp st) o).2 ->
  Items (rNeg st') = Items (rNeg st) -> zlen (IDPrefix (rPrevBound st')) <= 32 ->
  size (rFrame st) + measure (rFrame st) o <= limit (rFrame st) - slack' ->
  frame_inv slack' st'.
Proof.
  intros [H1 H2 H3 H4 H5 H6 H7] Ho Hf Hr Hi Hb Hs.
  split; rewrite ?Hf, ?Hr, ?Hi; cbn [commit fst snd size limit lastTs]; auto.
  - by apply Forall_app.
  - unfold measure. rewrite H2, H3, measure_app. lia.
  - by rewrite H3, last_ts_app.
Qed.

Lemma exceeded_false f n : 0 < limit f -> exceeded f n = false -> n <= limit f - 200.
Proof. unfold exceeded. intros Hl H. rewrite (proj2 (Z.ltb_lt _ _)) in H by lia. cbn in H. bool_prop. lia. Qed.

Lemma list_cut_spec f base lower n i :
  0 < limit f -> (lower <= i)%nat ->
  ((lower < i)%nat -> base + 64 + (Z.of_nat i - Z.of_nat lower) * 32 <= limit f - 200) ->
  let e := match list_cut f base lower n i with Some e => e | None => (i + n)%nat end in
  (i <= e <= i + n)%nat /\
  ((lower < e)%nat -> base + 64 + (Z.of_nat e - Z.of_nat lower) * 32 <= limit f - 200).
Proof.
  intros Hl. revert i. induction n as [|n IH]; intros i Hi Hb; cbn [list_cut].
  { rewrite Nat.add_0_r. split; [lia|done]. }
  destruct (exceeded _ _) eqn:E; [split; [lia|done]|].
  apply exceeded_false in E; [|done]. unfold idListHeader in E.
  destruct (IH (S i)) as [H1 H2]; [lia|lia|]. cbn zeta in *.
  destruct (list_cut f base lower n (S i)); [split; [lia|done]|].
  replace (i + S n)%nat with (S i + n)%nat by lia. split; [lia|done].
Qed.

Lemma slice_ok items a b : Forall item_ok items -> Forall item_ok (slice a b items).
Proof. intros H. unfold slice. by apply Forall_take, Forall_drop. Qed.

Lemma split_buckets_enc n items upper per extra ub i curr :
  Forall encodable (split_buckets n items upper per extra ub i curr).
Proof.
  revert i curr. induction n as [|n IH]; intros i curr; cbn [split_buckets]; constructor; [|apply IH].
  right. left. split; [done|]. cbn [Payload]. unfold zlen. by rewrite fingerprint_length.
Qed.

Lemma splitRange_enc items lower upper ub : Forall encodable (splitRange items lower upper ub).
Proof.
  unfold splitRange. destruct (_ <? _)%nat; [|apply split_buckets_enc].
  constructor; [by right; right|constructor].
Qed.

Lemma doSkip_spec st o st' o' :
  doSkip st o = (st', o') ->
  rNeg st' = rNeg st /\ rResp st' = rResp st /\ rFrame st' = rFrame st /\ rHave st' = rHave st /\
  rNeed st' = rNeed st /\ rPrevIdx st' = rPrevIdx st /\ rPrevBound st' = rPrevBound st /\
  rWrittenIdx st' = rWrittenIdx st /\
  o' = if rSkip st then o ++ [mkRange (rPrevBound st) 0 []] else o.
Proof. unfold doSkip. destruct (rSkip st) eqn:E; intros [= <- <-]; cbn; repeat split; done. Qed.

Lemma measure_skip last b :
  zlen (IDPrefix b) <= 32 -> measure_from last [mkRange b 0 []] <= 44.
Proof.
  intros Hb. cbn [measure_from]. pose proof (rangeLen_bound (mkRange b 0 []) last) as HL.
  destruct (rangeLen _ _) as [n l]. cbn [fst] in HL. specialize (HL (or_introl eq_refl) Hb). cbn in HL. lia.
Qed.

Lemma measure_list last b items :
  zlen (IDPrefix b) <= 32 -> Forall item_ok items ->
  measure_from last [mkRange b 2 (encodeIdList items)]
  <= 44 + zlen (encodeVarint (zlen items)) + 32 * zlen items.
Proof.
  intros Hb Hok. cbn [measure_from].
  pose proof (rangeLen_bound (mkRange b 2 (encodeIdList items)) last) as HL.
  destruct (rangeLen _ _) as [n l]. cbn [fst] in HL.
  specialize (HL (or_intror (or_intror eq_refl)) Hb). cbn [Mode Payload] in HL.
  rewrite zlen_encodeIdList in HL by done. cbn [Z.eqb Pos.eqb] in HL. lia.
Qed.

Lemma list_range_inv st lower upper tb :
  frame_inv 200 st -> zlen (IDPrefix tb) <= 32 -> (lower <= upper <= length (Items (rNeg st)))%nat ->
  frame_inv 111 (swState (list_range st lower upper tb)) /\ swO (list_range st lower upper tb) = [].
Proof.
  intros HI Htb Hlu. unfold list_range. destruct (doSkip st []) as [st1 o] eqn:ES.
  apply doSkip_spec in ES as (En & Er & Ef & _ & _ & _ & Eb & _ & ->).
  set (o1 := if rSkip st then _ else _). rewrite Er, Ef, En.
  pose proof HI as [H1 H2 H3 H4 H5 H6 H7]. unfold MinFrameSizeLimit in H4.
  assert (Ho1 : Forall encodable o1 /\ measure (rFrame st) o1 <= 44).
  { unfold o1. destruct (rSkip st); cbn [app]; split; try (repeat constructor; fail); [|cbn; lia].
    by apply measure_skip. }
  destruct Ho1 as [Ho1 Hm1]. set (base := size (rFrame st) + measure (rFrame st) o1).
  destruct (list_cut_spec (rFrame st) base lower (upper - lower) lower) as [He Hfit]; [lia|lia|lia|].
  set (items := Items (rNeg st)) in *.
  assert (G : forall e bound full, (lower <= e <= upper)%nat ->
    ((lower < e)%nat -> base + 64 + (Z.of_nat e - Z.of_nat lower) * 32 <= limit (rFrame st) - 200) ->
    zlen (IDPrefix bound) <= 32 ->
    let o := o1 ++ [mkRange bound 2 (encodeIdList (slice lower e items))] in
    let '(f, resp) := commit (rFrame st) (rResp st) o in
    frame_inv 111 (swState (mkSw (mkR (rNeg st) resp f (rHave st1) (rNeed st1) (rPrevIdx st1)
      (rPrevBound st1) e (rSkip st1)) [] e full))).
  { intros e bound full Hel Hef Hbd. cbn [commit swState].
    apply commit_inv with (slack := 200) (st := st) (o := o1 ++ [mkRange bound 2 (encodeIdList (slice lower e items))]);
      try done; cbn [rPrevBound].
    - apply Forall_app. split; [done|]. constructor; [by right; right|constructor].
    - by rewrite Eb.
    - unfold measure in *. rewrite measure_app.
      pose proof (measure_list (last_ts (lastTs (rFrame st)) o1) bound (slice lower e items) Hbd (slice_ok _ _ _ H7)) as HL.
      assert (Hz : zlen (slice lower e items) = Z.of_nat e - Z.of_nat lower)
        by (unfold zlen; rewrite length_slice; lia).
      rewrite Hz in HL. destruct (decide (lower < e)%nat) as [Hlt|Hge].
      + specialize (Hef Hlt). pose proof (zlen_encodeVarint (Z.of_nat e - Z.of_nat lower) ltac:(lia)).
        unfold base, measure in Hef. lia.
      + replace (Z.of_nat e - Z.of_nat lower) with 0 in HL by lia.
        change (zlen (encodeVarint 0)) with 1 in HL. lia. }
  split.
  - destruct (list_cut _ _ _ _ _) as [e|] eqn:EC.
    + apply (G e _ true); [lia|done|]. destruct (items !! e) as [it|] eqn:Ei; [|done].
      rewrite Forall_lookup in H7. destruct (H7 _ _ Ei) as [_ Hlen]. cbn [IDPrefix]. unfold zlen. lia.
    + apply (G upper _ false); [lia| |done]. replace upper with (lower + (upper - lower))%nat by lia. done.
  - by destruct (list_cut _ _ _ _ _).
Qed.

Lemma report_Items n id n' b : report n id = (n', b) -> Items n' = Items n /\ IsInitiator n' = IsInitiator n.
Proof. unfold report. repeat case_scrutinee; intros [= <- <-]; done. Qed.

Lemma diff_items_Items n tm items have n' tm' have' :
  diff_items n tm items have = (n', tm', have') -> Items n' = Items n /\ IsInitiator n' = IsInitiator n.
Proof.
  revert n tm have. induction items as [|it items IH]; intros n tm have; cbn [diff_items].
  - by intros [= <- <- <-].
  - destruct (decide _); [apply IH|]. destruct (report n _) as [n1 b] eqn:ER.
    apply report_Items in ER as [E1 E2]. intros H. apply IH in H as [? ?]. split; congruence.
Qed.

Lemma report_rest_Items n ids need n' need' :
  report_rest n ids need = (n', need') -> Items n' = Items n /\ IsInitiator n' = IsInitiator n.
Proof.
  revert n need. induction ids as [|id ids IH]; intros n need; cbn [report_rest].
  - by intros [= <- <-].
  - destruct (report n _) as [n1 b] eqn:ER.
    apply report_Items in ER as [E1 E2]. intros H. apply IH in H as [? ?]. split; congruence.
Qed.

Lemma frame_inv_eq s s' st st' :
  frame_inv s st -> s' <= s -> rResp st' = rResp st -> rFrame st' = rFrame st ->
  rPrevBound st' = rPrevBound st -> Items (rNeg st') = Items (rNeg st) -> frame_inv s' st'.
Proof. intros [? ? ? ? ? ? ?] Hs H1 H2 H3 H4. split; rewrite ?H1, ?H2, ?H3, ?H4; auto; lia. Qed.

Lemma mode_switch_inv st r lower upper sw :
  frame_inv 200 st -> zlen (IDPrefix (UpperBound r)) <= 32 ->
  (lower <= upper <= length (Items (rNeg st)))%nat ->
  mode_switch st r lower upper = inl sw ->
  frame_inv 111 (swState sw) /\ Forall encodable (swO sw).
Proof.
  intros HI Hb Hlu. unfold mode_switch. destruct (Mode r =? 0).
  { intros [= <-]. split; [|constructor]. by eapply frame_inv_eq. }
  destruct (Mode r =? 1).
  { destruct (decide _); [intros [= <-]; split; [by eapply frame_inv_eq|constructor]|].
    destruct (doSkip st []) as [st1 o] eqn:ES. apply doSkip_spec in ES as (En & Er & Ef & _ & _ & _ & Eb & _ & ->).
    intros [= <-]. cbn [swState swO]. split; [by eapply frame_inv_eq; [done|lia| | | |]; congruence|].
    apply Forall_app. split; [|apply splitRange_enc]. destruct (rSkip st); [|constructor].
    constructor; [by left|constructor]. }
  destruct (Mode r =? 2); [|intros [= <-]; split; [by eapply frame_inv_eq|constructor]].
  destruct (decodeIdList (Payload r)) as [ids|e|]; [|done|done].
  destruct (diff_items _ _ _ _) as [[n1 rest] have] eqn:ED. apply diff_items_Items in ED as [I1 _].
  destruct (report_rest _ _ _) as [n2 need] eqn:ER. apply report_rest_Items in ER as [I2 _].
  set (st2 := mkR n2 _ _ _ _ _ _ _ _).
  assert (HI2 : frame_inv 200 st2) by (eapply frame_inv_eq; [done|lia|done..|cbn; congruence]).
  destruct (IsInitiator n2); intros [= <-].
  - split; [|constructor]. by eapply frame_inv_eq.
  - destruct (list_range_inv st2 lower upper (UpperBound r)) as [G1 G2]; [done|done|cbn; congruence|].
    split; [done|]. rewrite G2. constructor.
Qed.

Lemma lowerBound_range items from b :
  (from <= length items)%nat -> (from <= lowerBound items from b <= length items)%nat.
Proof.
  intros. unfold lowerBound. set (f := fun i => _). pose proof (Search.search_le (length items - from) f). lia.
Qed.

Lemma list_cut_range f base lower n i e : list_cut f base lower n i = Some e -> (i <= e < i + n)%nat.
Proof.
  revert i. induction n as [|n IH]; intros i; cbn [list_cut]; [done|].
  destruct (exceeded _ _); [intros [= <-]; lia|]. intros H. apply IH in H. lia.
Qed.

Lemma list_cut_none f base lower n i :
  base + 64 + (Z.of_nat (i + n) - Z.of_nat lower) * 32 <= limit f - 200 -> list_cut f base lower n i = None.
Proof.
  revert i. induction n as [|n IH]; intros i H; cbn [list_cut]; [done|].
  unfold exceeded at 1, idListHeader. rewrite (proj2 (Z.ltb_ge (limit f - 200) _)), andb_false_r by lia.
  apply IH. replace (S i + n)%nat with (i + S n)%nat by lia. done.
Qed.

Lemma mode_switch_state st r lower upper sw :
  (lower <= upper)%nat -> mode_switch st r lower upper = inl sw ->
  (lower <= swUpper sw <= upper)%nat /\ Items (rNeg (swState sw)) = Items (rNeg st) /\
  limit (rFrame (swState sw)) = limit (rFrame st).
Proof.
  intros Hlu. unfold mode_switch. destruct (Mode r =? 0); [intros [= <-]; done|].
  destruct (Mode r =? 1).
  { destruct (decide _); [intros [= <-]; done|].
    destruct (doSkip st []) as [st1 o] eqn:ES. apply doSkip_spec in ES as (En & Er & Ef & _).
    intros [= <-]. cbn. by rewrite En, Ef. }
  destruct (Mode r =? 2); [|intros [= <-]; done].
  destruct (decodeIdList (Payload r)) as [ids|e|]; [|done|done].
  destruct (diff_items _ _ _ _) as [[n1 rest] have] eqn:ED. apply diff_items_Items in ED as [I1 _].
  destruct (report_rest _ _ _) as [n2 need] eqn:ER. apply report_rest_Items in ER as [I2 _].
  destruct (IsInitiator n2); intros [= <-]; [cbn; split; [done|split; [congruence|done]]|].
  unfold list_range. destruct (doSkip _ _) as [st1 o] eqn:ES. apply doSkip_spec in ES as (En & Er & Ef & _).
  destruct (list_cut _ _ _ _ _) as [e|] eqn:EC; cbn; rewrite En, Ef; cbn.
  - apply list_cut_range in EC. split; [lia|]. split; [congruence|done].
  - split; [lia|]. split; [congruence|done].
Qed.

Lemma rstep_frame st r st' v :
  frame_inv 200 st -> (rPrevIdx st <= length (Items (rNeg st)))%nat ->
  zlen (IDPrefix (UpperBound r)) <= 32 -> rstep st r = (st', v) ->
  match v with
  | Continue => frame_inv 200 st' /\ (rPrevIdx st' <= length (Items (rNeg st')))%nat /\
                limit (rFrame st') = limit (rFrame st)
  | Break => Forall encodable (rResp st') /\ 1 + measure_from 0 (rResp st') <= limit (rFrame st)
  | _ => True
  end.
Proof.
  intros HI Hidx Hb. unfold rstep. set (upper := lowerBound _ _ _).
  assert (Hlu : (rPrevIdx st <= upper <= length (Items (rNeg st)))%nat) by (by apply lowerBound_range).
  destruct (mode_switch st r (rPrevIdx st) upper) as [sw|v0] eqn:EM.
  2: { intros [= <- <-]. unfold mode_switch in EM.
       repeat (match type of EM with context [match ?x with _ => _ end] => destruct x end); by simplify_eq. }
  destruct (mode_switch_inv _ _ _ _ _ HI Hb Hlu EM) as [HI1 Ho].
  destruct (mode_switch_state _ _ _ _ _ (proj1 Hlu) EM) as (Hup & HIt & Hlim).
  destruct sw as [st1 o up full]; cbn [swState swO swUpper] in *.
  pose proof HI1 as [E1 E2 E3 E4 E5 E6 E7]. unfold MinFrameSizeLimit in E4.
  destruct (full || exceeded _ _) eqn:EX.
  - destruct (if negb full && rSkip st then _ else _) as [resp written] eqn:ER. intros [= <- <-]. cbn [rResp].
    assert (HR : Forall encodable resp /\ measure_from 0 resp <= measure_from 0 (rResp st1) + 44).
    { destruct (negb full && rSkip st); injection ER as <- <-; [|split; [done|lia]].
      split; [apply Forall_app; split; [done|]; constructor; [by left|constructor]|].
      rewrite measure_app. pose proof (measure_skip (last_ts 0 (rResp st1)) (rPrevBound st1) E6). lia. }
    destruct HR as [HR1 HR2]. split.
    + apply Forall_app. split; [done|]. constructor; [|constructor]. right. left. split; [done|].
      cbn [Payload]. unfold zlen. by rewrite fingerprint_length.
    + rewrite measure_app. cbn [measure_from].
      pose proof (rangeLen_closing (last_ts 0 resp) (computeFingerprint (drop written (Items (rNeg st1))))) as HC.
      destruct (rangeLen _ _) as [nn ll]. cbn [fst] in HC. lia.
  - apply orb_false_iff in EX as [_ EX]. apply exceeded_false in EX; [|lia].
    destruct (0 <? length o)%nat eqn:EL; intros [= <- <-]; cbn [rPrevIdx rFrame rNeg].
    + split; [|split; [rewrite HIt; lia|done]].
      by eapply commit_inv with (o := o); try done.
    + assert (o = []) as -> by (destruct o; [done|cbn in EL; done]). cbn in EX.
      split; [|split; [rewrite HIt; lia|done]]. split; cbn [rResp rFrame rPrevBound rNeg]; auto.
      unfold measure in EX. cbn in EX. lia.
Qed.

Lemma rloop_frame st rs st' v :
  frame_inv 200 st -> (rPrevIdx st <= length (Items (rNeg st)))%nat ->
  Forall (fun r => zlen (IDPrefix (UpperBound r)) <= 32) rs -> rloop st rs = (st', v) ->
  match v with
  | Fail _ | Crash => True
  | _ => Forall encodable (rResp st') /\ 1 + measure_from 0 (rResp st') <= limit (rFrame st)
  end.
Proof.
  intros HI Hidx Hrs. revert st HI Hidx. induction Hrs as [|r rs Hr Hrs IH]; intros st HI Hidx; cbn [rloop].
  - intros [= <- <-]. destruct HI as [? E ? ? ? ? ?]. split; [done|]. lia.
  - destruct (rstep st r) as [st1 v1] eqn:ES. pose proof (rstep_frame _ _ _ _ HI Hidx Hr ES) as HS.
    destruct v1; [|intros [= <- <-]; done..].
    destruct HS as (HI1 & Hidx1 & Hlim). intros HL. specialize (IH st1 HI1 Hidx1 HL).
    by rewrite <- Hlim.
Qed.

End Session.

(** A response encodes, to the size the frame counted. *)
Lemma response_encodes {hash : Hash256} (n n' : Negentropy) (msg resp : Message)
    (have need : list gostring)
    (Hlim : 0 < FrameSizeLimit n) (Hok : Forall item_ok (Items n))
    (Hpre : Forall (fun r => zlen (IDPrefix (UpperBound r)) <= 32) (Ranges msg))
    (HR : Reconcile n msg = (n', Ok (resp, have, need))) :
  exists b, ToBytes resp = Ok b /\ zlen b <= Z.max (FrameSizeLimit n) MinFrameSizeLimit /\
            zlen b = 1 + measure_from 0 (Ranges resp).
Proof.
  unfold Reconcile in HR. destruct (rloop (rinit n) (Ranges msg)) as [st v] eqn:EL.
  assert (HF : limit (rFrame (rinit n)) = Z.max (FrameSizeLimit n) MinFrameSizeLimit).
  { cbn. unfold frameLimit. by rewrite (proj2 (Z.leb_gt _ _)) by lia. }
  assert (HI : frame_inv 200 (rinit n)).
  { split; cbn [rinit rResp rFrame rPrevBound rNeg size lastTs limit] in *; try done; rewrite ?HF;
      unfold MinFrameSizeLimit; lia. }
  apply rloop_frame in EL; [|done|cbn; lia|done]. rewrite HF in EL.
  assert (G : Forall encodable (rResp st) /\ 1 + measure_from 0 (rResp st)
              <= Z.max (FrameSizeLimit n) MinFrameSizeLimit /\ Ranges resp = rResp st /\ ProtocolVersion resp = x61).
  { destruct v; simplify_eq; cbn; tauto. }
  destruct G as (G1 & G2 & G3 & G4). destruct (measure_encode 0 _ G1) as (b & HE & HM).
  exists (x61 :: b). unfold ToBytes. rewrite G3, G4, HE. cbn. split; [done|].
  rewrite zlen_cons, <- HM. split; [lia|done].
Qed.

(** C37: rangeLen is exactly the size ToBytes writes; and a response under a
    frame limit encodes, and never takes more than the limit (raised to
    MinFrameSizeLimit), provided the peer's id prefixes are at most as long as
    an id. *)
Theorem response_within_frame {hash : Hash256} (n n' : Negentropy) (msg resp : Message)
    (have need : list gostring)
    (Hlim : 0 < FrameSizeLimit n) (Hok : Forall item_ok (Items n))
    (Hpre : Forall (fun r => zlen (IDPrefix (UpperBound r)) <= 32) (Ranges msg))
    (HR : Reconcile n msg = (n', Ok (resp, have, need))) :
  exists b, ToBytes resp = Ok b /\ zlen b <= Z.max (FrameSizeLimit n) MinFrameSizeLimit /\
            zlen b = 1 + measure_from 0 (Ranges resp).
Proof. by apply (response_encodes n n' msg resp have need). Qed.

(** A small exchange: the peer lists one item of ours and one of its own. *)
Definition small_set : list Item := [item_a; item_b; item_c].
Definition small_msg : Message :=
  mkMessage x61 [mkRange (mkBound InfiniteTimestamp []) 2
    (encodeIdList [item_b; mkItem 1700000003 (repeat x07 32)])].

Definition small_resp : Message :=
  mkMessage x61 [mkRange (mkBound InfiniteTimestamp []) 2 (encodeIdList small_set)].

Lemma response_within_frame_witness :
  exists b, ToBytes small_resp = Ok b /\
    zlen b <= Z.max (FrameSizeLimit (New small_set)) MinFrameSizeLimit /\
    zlen b = 1 + measure_from 0 (Ranges small_resp).
Proof.
  apply (response_within_frame (New small_set) (New small_set) small_msg small_resp
    [Hex.encode (ID item_a); Hex.encode (ID item_c)] [Hex.encode (repeat x07 32)]).
  - reflexivity.
  - repeat constructor; cbn; lia.
  - constructor; [vm_compute; discriminate|constructor].
  - vm_compute. reflexivity.
Defined.

(** ** The diff of an id list *)

Section Diff.
Context {hash : Hash256}.

Definition hex_ids (items : list Item) : list gostring := map (fun i => Hex.encode (ID i)) items.

(** Ids the caller was told of already. *)
Definition seen (n : Negentropy) : gset gostring := if IsInitiator n then reported n else ∅.

Lemma report_spec n id :
  let '(n', new) := report n id in
  (new = true <-> id ∉ seen n) /\ Items n' = Items n /\ IsInitiator n' = IsInitiator n /\
  FrameSizeLimit n' = FrameSizeLimit n /\
  seen n' = if IsInitiator n then {[id]} ∪ seen n else ∅.
Proof.
  unfold report, seen. destruct (IsInitiator n) eqn:EI.
  - destruct (decide _); cbn; rewrite ?EI; split; try done.
    + repeat split; try done. set_solver.
  - rewrite EI. repeat split; try done.
Qed.

Lemma seen_report n h id :
  id ∈ (if IsInitiator n then {[h]} ∪ seen n else ∅ : gset gostring) <->
  id ∈ seen n \/ (IsInitiator n = true /\ id = h).
Proof.
  unfold seen. destruct (IsInitiator n).
  - rewrite elem_of_union, elem_of_singleton. tauto.
  - rewrite elem_of_empty. naive_solver.
Qed.

Lemma elem_of_snoc_if (b : bool) (l : list gostring) x y :
  y ∈ (if b then l ++ [x] else l) <-> y ∈ l \/ (b = true /\ y = x).
Proof.
  destruct b; [rewrite elem_of_app, list_elem_of_singleton; tauto|]. naive_solver.
Qed.

Lemma diff_items_spec n tm items have n' tm' have' :
  NoDup (hex_ids items) -> diff_items n tm items have = (n', tm', have') ->
  tm' = tm ∖ list_to_set (hex_ids items) /\
  (forall id, id ∈ have' <-> id ∈ have \/ (id ∈ hex_ids items /\ id ∉ tm /\ id ∉ seen n)) /\
  (forall id, id ∈ seen n' <-> id ∈ seen n \/ (IsInitiator n = true /\ id ∈ hex_ids items /\ id ∉ tm)).
Proof.
  revert n tm have. induction items as [|it items IH]; intros n tm have Hnd; cbn [diff_items hex_ids map].
  { intros [= <- <- <-]. set_solver. }
  apply NoDup_cons in Hnd as [Hnin Hnd]. fold (hex_ids items) in *. set (h := Hex.encode (ID it)) in *.
  destruct (decide (h ∈ tm)) as [Hin|Hout].
  - intros HD. apply IH in HD as (-> & HH & HS); [clear IH|done]. split; [clear HH HS; set_solver|].
    split; intros id; rewrite ?HH, ?HS, elem_of_cons, elem_of_difference, elem_of_singleton; clear HH HS;
      destruct (decide (id = h)) as [->|]; tauto.
  - pose proof (report_spec n h) as HR. destruct (report n h) as [n1 new]. destruct HR as (HN & _ & HI & _ & HSn).
    intros HD. apply IH in HD as (-> & HH & HS); [clear IH|done]. rewrite HI in HS.
    split; [clear HH HS; set_solver|].
    assert (HS1 : forall id, id ∈ seen n1 <-> id ∈ seen n \/ (IsInitiator n = true /\ id = h))
      by (intros id; rewrite HSn; apply seen_report).
    split; intros id; rewrite ?HH, ?HS, ?HS1, elem_of_cons; clear HH HS HS1 HSn HI.
    + rewrite (elem_of_snoc_if new have h id). rewrite HN. destruct (decide (id = h)) as [->|]; [|tauto].
      destruct (decide (h ∈ seen n)); tauto.
    + destruct (decide (id = h)) as [->|]; tauto.
Qed.

Lemma report_rest_spec n ids need n' need' :
  NoDup ids -> report_rest n ids need = (n', need') ->
  forall id, id ∈ need' <-> id ∈ need \/ (id ∈ ids /\ id ∉ seen n).
Proof.
  revert n need. induction ids as [|h ids IH]; intros n need Hnd; cbn [report_rest].
  { intros [= <- <-] id. rewrite elem_of_nil. tauto. }
  apply NoDup_cons in Hnd as [Hnin Hnd].
  pose proof (report_spec n h) as HR. destruct (report n h) as [n1 new]. destruct HR as (HN & _ & HI & _ & HSn).
  intros HD id. rewrite (IH _ _ Hnd HD). rewrite HSn, seen_report, elem_of_cons.
  rewrite (elem_of_snoc_if new need h id), HN. clear IH HSn HI HD.
  destruct (decide (id = h)) as [->|]; [|tauto]. destruct (decide (h ∈ seen n)); tauto.
Qed.

(** One IdList range, against an honest list of [theirs]. *)
Lemma idlist_diff st b lower upper theirs sw :
  let ours := slice lower upper (Items (rNeg st)) in
  NoDup (hex_ids ours) -> Forall item_ok theirs -> zlen theirs < 2 ^ 43 ->
  mode_switch st (mkRange b 2 (encodeIdList theirs)) lower upper = inl sw ->
  forall id,
  (id ∈ rHave (swState sw) <->
   id ∈ rHave st \/ (id ∈ hex_ids ours /\ id ∉ hex_ids theirs /\ id ∉ seen (rNeg st))) /\
  (id ∈ rNeed (swState sw) <->
   id ∈ rNeed st \/ (id ∈ hex_ids theirs /\ id ∉ hex_ids ours /\ id ∉ seen (rNeg st))).
Proof.
  intros ours Hnd Hok Hn. unfold mode_switch. cbn [Mode Payload Z.eqb Pos.eqb].
  rewrite decodeIdList_encode by done. fold (hex_ids theirs) ours.
  destruct (diff_items _ _ ours _) as [[n1 rest] have] eqn:ED.
  pose proof (diff_items_Items _ _ _ _ _ _ _ ED) as [_ HI].
  apply diff_items_spec in ED as (-> & HH & HS); [|done].
  destruct (report_rest _ _ _) as [n2 need] eqn:ER. pose proof (report_rest_Items _ _ _ _ _ ER) as [_ HI2].
  pose proof (report_rest_spec _ _ _ _ _ (NoDup_elements _) ER) as HN.
  assert (HG : forall id,
    (id ∈ have <-> id ∈ rHave st \/ (id ∈ hex_ids ours /\ id ∉ hex_ids theirs /\ id ∉ seen (rNeg st))) /\
    (id ∈ need <-> id ∈ rNeed st \/ (id ∈ hex_ids theirs /\ id ∉ hex_ids ours /\ id ∉ seen (rNeg st)))).
  { intros id. split; [rewrite HH, elem_of_list_to_set; tauto|].
    rewrite HN, elem_of_elements, HS, elem_of_difference, !elem_of_list_to_set. tauto. }
  destruct (IsInitiator n2); intros [= <-]; [exact HG|].
  unfold list_range. destruct (doSkip _ _) as [st1 o] eqn:ES.
  apply doSkip_spec in ES as (_ & _ & _ & E1 & E2 & _).
  destruct (match list_cut _ _ _ _ _ with Some _ => _ | None => _ end) as [[e bd] fl].
  cbn [commit swState rHave rNeed]. rewrite E1, E2. exact HG.
Qed.

End Diff.

(** ** Equal sets *)

Section Equal.
Context {hash : Hash256}.

Definition inf_bound : Bound := mkBound InfiniteTimestamp [].

Lemma lowerBound_inf items from :
  (from <= length items)%nat -> lowerBound items from inf_bound = length items.
Proof.
  intros. apply lowerBound_unique; [lia|done|].
  intros k it Hk Hit. apply lookup_lt_Some in Hit. lia.
Qed.

Lemma slice_all {A} (l : list A) : slice 0 (length l) l = l.
Proof. unfold slice. rewrite drop_0, Nat.sub_0_r. by apply take_ge. Qed.

(** Items with a timestamp below infinity. *)
Definition finite_items (items : list Item) : Prop :=
  Forall (fun i => Timestamp i < InfiniteTimestamp) items.

(** The bound a bucket ends with cuts the items at the bucket's end. *)
Lemma lowerBound_minimal items curr c p q :
  sorted items -> Forall item_ok items -> finite_items items -> (curr < c)%nat ->
  items !! (c - 1)%nat = Some p -> items !! c = Some q ->
  lowerBound items curr (minimalBound p q) = c.
Proof.
  intros Hs Hok Hfin Hc Hp Hq. rewrite Forall_lookup in Hok. unfold finite_items in Hfin.
  rewrite Forall_lookup in Hfin. apply lookup_lt_Some in Hq as Hlt.
  destruct (minimalBound_cut p q) as [Hb Ha]; eauto. { apply (Hs (c - 1)%nat c); [lia|done|done]. }
  apply lowerBound_unique; [lia| |].
  - intros k it Hk Hit. destruct (sorted_nth_le items k (c - 1) it p) as [->|H]; [done|lia|done|done|done|].
    eapply before_mono; [|done|done]. destruct (Hok _ _ Hit) as [_ ->], (Hok _ _ Hp) as [_ ->]. done.
  - intros k it Hk Hit. destruct (ItemIsBeforeBound it _) eqn:E; [|done].
    destruct (sorted_nth_le items c k q it) as [->|H]; [done|lia|done|done|congruence|].
    rewrite (before_mono q it) in Ha; [done| |done|done].
    destruct (Hok _ _ Hit) as [_ ->], (Hok _ _ Hq) as [_ ->]. done.
Qed.

(** A step over a range whose fingerprint matches only records a Skip. *)
Lemma rstep_match st b fp up :
  lowerBound (Items (rNeg st)) (rPrevIdx st) b = up ->
  fp = computeFingerprint (slice (rPrevIdx st) up (Items (rNeg st))) ->
  exceeded (rFrame st) (size (rFrame st)) = false ->
  rstep st (mkRange b 1 fp) =
  (mkR (rNeg st) (rResp st) (rFrame st) (rHave st) (rNeed st) up b (rWrittenIdx st) true, Continue).
Proof.
  intros Hup -> Hex. unfold rstep. cbn [UpperBound]. rewrite Hup. unfold mode_switch. cbn [Mode Z.eqb Pos.eqb Payload].
  rewrite decide_True by done. cbn [set_skip rFrame size orb]. unfold measure. cbn [measure_from].
  rewrite Z.add_0_r. cbn [rFrame]. by rewrite Hex.
Qed.

Definition same_round (st st' : rstate) : Prop :=
  rNeg st' = rNeg st /\ rResp st' = rResp st /\ rHave st' = rHave st /\ rNeed st' = rNeed st.

Lemma rloop_buckets n items per extra i curr st :
  sorted items -> Forall item_ok items -> finite_items items -> (0 < per)%nat ->
  (curr + n * per + (Nat.min extra (i + n) - Nat.min extra i) = length items)%nat ->
  Items (rNeg st) = items -> rPrevIdx st = curr -> exceeded (rFrame st) (size (rFrame st)) = false ->
  exists st', rloop st (split_buckets n items (length items) per extra inf_bound i curr) = (st', Continue) /\
    same_round st st'.
Proof.
  intros Hs Hok Hfin Hper. revert i curr st. induction n as [|n IH]; intros i curr st Hsum Hit Hidx Hex.
  { exists st. done. }
  cbn [split_buckets rloop]. set (size := if (i <? extra)%nat then S per else per).
  assert (Hsize : (size = per + (Nat.min extra (S i) - Nat.min extra i))%nat).
  { unfold size. destruct (Nat.ltb_spec i extra); lia. }
  set (c := (curr + size)%nat). set (bd := if (c =? length items)%nat then inf_bound else _).
  assert (Hc : (c <= length items)%nat) by lia.
  assert (Hlb : lowerBound items curr bd = c).
  { unfold bd. destruct (Nat.eqb_spec c (length items)) as [E|E]; [rewrite lowerBound_inf; lia|].
    destruct (lookup_lt_is_Some_2 items (c - 1)%nat) as [p Ep]; [lia|].
    destruct (lookup_lt_is_Some_2 items c) as [q Eq]; [lia|]. rewrite Ep, Eq.
    apply lowerBound_minimal; try done. lia. }
  rewrite (rstep_match st bd _ c) by (rewrite ?Hit, ?Hidx; done).
  destruct (IH (S i) c (mkR (rNeg st) (rResp st) (rFrame st) (rHave st) (rNeed st) c bd (rWrittenIdx st) true))
    as (st' & HL & HR); try done.
  { rewrite Nat.add_succ_r in Hsum. replace (S i + n)%nat with (S (i + n)) by lia. lia. }
  exists st'. rewrite HL. split; [done|]. exact HR.
Qed.

Lemma diff_items_self n items have :
  NoDup (hex_ids items) ->
  diff_items n (list_to_set (hex_ids items)) items have = (n, ∅, have).
Proof.
  intros Hnd. assert (G : forall tm, list_to_set (hex_ids items) ⊆ tm ->
    diff_items n tm items have = (n, tm ∖ list_to_set (hex_ids items), have)).
  { induction items as [|it items IH]; intros tm Hsub; cbn [diff_items hex_ids map list_to_set] in *.
    - by rewrite difference_empty_L.
    - apply NoDup_cons in Hnd as [Hnin Hnd]. fold (hex_ids items) in *.
      set (h := Hex.encode (ID it)) in *.
      rewrite decide_True by (apply Hsub, elem_of_union_l; by apply elem_of_singleton).
      rewrite IH; [|done|].
      + by rewrite difference_difference_l_L.
      + intros x Hx. apply elem_of_difference. split; [by apply Hsub, elem_of_union_r|].
        rewrite elem_of_singleton. intros ->. by apply elem_of_list_to_set in Hx. }
  rewrite G by done. by rewrite difference_diag_L.
Qed.

Lemma hex_ids_nodup items : NoDup (map ID items) -> NoDup (hex_ids items).
Proof.
  intros Hnd. unfold hex_ids. rewrite <- (map_map ID Hex.encode).
  by apply (NoDup_fmap_2 Hex.encode (map ID items)).
Qed.

(** A single IdList up to infinity, for either role, when all fits. *)
Lemma reconcile_list_full n items :
  Items n = items -> reported n = ∅ -> FrameSizeLimit n = DefaultFrameSizeLimit ->
  Forall item_ok items -> NoDup (map ID items) -> (length items < 32)%nat ->
  let m := mkMessage x61 [mkRange inf_bound 2 (encodeIdList items)] in
  Reconcile n m = (n, Ok (if IsInitiator n then mkMessage x61 [] else m, [], [])).
Proof.
  intros Hi Hrep Hlim Hok Hnd Hl. cbn zeta. unfold Reconcile. cbn [Ranges rloop].
  unfold rstep. cbn [rinit rPrevIdx rNeg UpperBound]. rewrite Hi, lowerBound_inf by lia.
  unfold mode_switch. cbn [Mode Payload Z.eqb Pos.eqb rNeg rHave rNeed rinit].
  rewrite decodeIdList_encode by (try done; unfold zlen; lia). rewrite Hi, slice_all.
  fold (hex_ids items). rewrite diff_items_self by (by apply hex_ids_nodup).
  rewrite elements_empty. cbn [report_rest].
  assert (Hfl : frameLimit n = 30000) by (unfold frameLimit; rewrite Hlim; reflexivity).
  destruct (IsInitiator n) eqn:EI.
  - cbn [rinit rFrame rResp rPrevIdx rPrevBound rWrittenIdx rSkip set_skip size measure measure_from].
    rewrite Hfl. done.
  - unfold list_range. cbn [doSkip rSkip rinit rNeg rFrame rResp rHave rNeed rPrevIdx rPrevBound rWrittenIdx].
    rewrite Hi, Hfl. set (f := mkFrame 1 30000 0).
    assert (HC : list_cut f (size f + measure f []) 0 (length items - 0) 0 = None).
    { apply list_cut_none. cbn. lia. }
    rewrite HC, slice_all. cbn [commit app fst snd size].
    set (o := [mkRange inf_bound 2 (encodeIdList items)]).
    assert (HX : exceeded (mkFrame (size f + measure f o) 30000 (last_ts 0 o)) (size f + measure f o + 0) = false).
    { pose proof (measure_list 0 inf_bound items ltac:(vm_compute; discriminate) Hok) as HM. fold o in HM.
      pose proof (zlen_encodeVarint (zlen items) (zlen_nonneg _)). unfold exceeded. cbn [limit size f].
      unfold measure. cbn [lastTs f]. rewrite (proj2 (Z.ltb_ge (30000 - 200) _)); [done|]. unfold zlen in *. lia. }
    match goal with |- context [exceeded ?a ?b] =>
      change (exceeded a b) with (exceeded (mkFrame (size f + measure f o) 30000 (last_ts 0 o)) (size f + measure f o + 0))
    end.
    by rewrite HX.
Qed.
End Equal.

Lemma frameLimit_cases n : frameLimit n = 0 \/ 4096 <= frameLimit n.
Proof. unfold frameLimit, MinFrameSizeLimit. destruct (_ <=? _); lia. Qed.

(** ** Properties of a round *)

(** C36: given the peer's honest list of its items of the whole range,
    Reconcile reports as idsHave exactly our ids the peer does not list, and as
    idsNeed exactly the listed ids we do not hold, less what an initiator was
    told before; the initiator's answer is then complete. *)
Theorem idlist_diff_exact {hash : Hash256} (n : Negentropy) (theirs : list Item)
    (Hours : NoDup (map ID (Items n))) (Hok : Forall item_ok theirs) (Hn : zlen theirs < 2 ^ 43) :
  exists n' resp have need,
    Reconcile n (mkMessage x61 [mkRange inf_bound 2 (encodeIdList theirs)]) = (n', Ok (resp, have, need)) /\
    (forall id, id ∈ have <-> id ∈ hex_ids (Items n) /\ id ∉ hex_ids theirs /\ id ∉ seen n) /\
    (forall id, id ∈ need <-> id ∈ hex_ids theirs /\ id ∉ hex_ids (Items n) /\ id ∉ seen n) /\
    (IsInitiator n = true -> IsComplete resp = true).
Proof.
  unfold Reconcile. cbn [Ranges rloop]. set (m := mkRange inf_bound 2 (encodeIdList theirs)).
  set (st0 := rinit n). unfold rstep. change (rPrevIdx st0) with 0%nat. change (rNeg st0) with n.
  change (UpperBound m) with inf_bound. rewrite lowerBound_inf by lia.
  destruct (mode_switch st0 m 0 (length (Items n))) as [sw|v] eqn:EM.
  2: { unfold mode_switch, m in EM. cbn [Mode Payload Z.eqb Pos.eqb] in EM.
       rewrite decodeIdList_encode in EM by done.
       repeat (match type of EM with context [match ?x with _ => _ end] => destruct x end); by simplify_eq. }
  pose proof (idlist_diff st0 inf_bound 0 (length (Items n)) theirs sw) as HD. cbn zeta in HD.
  change (rNeg st0) with n in HD. rewrite slice_all in HD. specialize (HD (hex_ids_nodup _ Hours) Hok Hn EM).
  assert (HC : IsInitiator n = true -> swO sw = [] /\ swFull sw = false /\ rResp (swState sw) = [] /\
    rFrame (swState sw) = mkFrame 1 (frameLimit n) 0).
  { intros HI. unfold mode_switch, m in EM. cbn [Mode Payload Z.eqb Pos.eqb] in EM.
    rewrite decodeIdList_encode in EM by done.
    destruct (diff_items _ _ _ _) as [[n1 rest] hv] eqn:E1. apply diff_items_Items in E1 as [_ J1].
    destruct (report_rest _ _ _) as [n2 nd] eqn:E2. apply report_rest_Items in E2 as [_ J2].
    rewrite J2, J1 in EM. change (rNeg st0) with n in EM. rewrite HI in EM. injection EM as <-. done. }
  destruct sw as [st1 o up full]; cbn [swState swO swFull] in *.
  set (resp := if full || _ then _ else _).
  assert (HV : exists resp_ v, (let '(st, v) := resp in (st, v)) = (resp_, v) /\ rHave resp_ = rHave st1 /\
    rNeed resp_ = rNeed st1 /\ (v = Continue \/ v = Break) /\
    (IsInitiator n = true -> rResp resp_ = [])).
  { unfold resp. destruct (full || _) eqn:EX.
    - destruct (if negb full && _ then _ else _) as [rr ww]. do 2 eexists. split; [done|].
      repeat split; auto. intros HI. destruct (HC HI) as (-> & -> & Hr & Hf). exfalso.
      rewrite Hf in EX. cbn in EX. unfold exceeded in EX. cbn in EX. bool_prop. pose proof (frameLimit_cases n). lia.
    - destruct (0 <? length o)%nat eqn:EO; do 2 eexists; (split; [done|]); repeat split; auto;
        intros HI; destruct (HC HI) as (-> & -> & Hr & Hf); [done|]. exact Hr. }
  destruct HV as (r1 & v & HV & HH & HNd & Hv & HRn). destruct resp as [r1' v']. simplify_eq.
  exists (rNeg r1), (mkMessage x61 (rResp r1)), (rHave r1), (rNeed r1). split.
  { by destruct Hv as [->| ->]. }
  rewrite HH, HNd. split; [|split].
  - intros id. rewrite (proj1 (HD id)). cbn. rewrite elem_of_nil. tauto.
  - intros id. rewrite (proj2 (HD id)). cbn. rewrite elem_of_nil. tauto.
  - intros HI. by rewrite (HRn HI).
Qed.

Lemma idlist_diff_exact_witness :
  exists n' resp have need,
    Reconcile (New small_set) small_msg = (n', Ok (resp, have, need)) /\
    (forall id, id ∈ have <-> id ∈ hex_ids small_set /\
       id ∉ hex_ids [item_b; mkItem 1700000003 (repeat x07 32)] /\ id ∉ seen (New small_set)) /\
    (forall id, id ∈ need <-> id ∈ hex_ids [item_b; mkItem 1700000003 (repeat x07 32)] /\
       id ∉ hex_ids small_set /\ id ∉ seen (New small_set)) /\
    (IsInitiator (New small_set) = true -> IsComplete resp = true).
Proof.
  apply (idlist_diff_exact (New small_set) [item_b; mkItem 1700000003 (repeat x07 32)]).
  - apply (bool_decide_unpack _). vm_compute. exact I.
  - repeat constructor; cbn; lia.
  - reflexivity.
Defined.

Lemma equal_sets {hash : Hash256} (items : list Item)
    (Hs : sorted items) (Hok : Forall item_ok items) (Hfin : finite_items items)
    (Hnd : NoDup (map ID items)) :
  let '(n1, m1) := Initiate (New items) in
  exists n2 m2 n3 m3,
    Reconcile (New items) m1 = (n2, Ok (m2, [], [])) /\
    Reconcile n1 m2 = (n3, Ok (m3, [], [])) /\ IsComplete m3 = true.
Proof.
  unfold Initiate. cbn [Items New FrameSizeLimit reported]. unfold splitRange.
  rewrite Nat.sub_0_r. unfold buckets. destruct (Nat.ltb_spec (length items) (2 * 16)) as [Hl|Hl].
  - rewrite slice_all. fold inf_bound. do 4 eexists. split; [|split].
    + rewrite (reconcile_list_full (New items) items); try done.
    + rewrite (reconcile_list_full (mkNegentropy items true DefaultFrameSizeLimit ∅) items); try done.
    + reflexivity.
  - fold inf_bound. pose proof (Nat.div_mod_eq (length items) 16) as HE.
    pose proof (Nat.mod_upper_bound (length items) 16 ltac:(done)) as HM.
    set (per := (length items / 16)%nat) in *. set (extra := (length items mod 16)%nat) in *.
    destruct (rloop_buckets 16 items per extra 0 0 (rinit (New items))) as (st' & HL & H1 & H2 & H3 & H4);
      try done; [lia|cbn [Nat.add]; lia|].
    exists (New items), (mkMessage x61 []). do 2 eexists.
    split; [|split; [reflexivity|reflexivity]].
    unfold Reconcile. cbn [Ranges]. rewrite HL, H1, H2, H3, H4. done.
Qed.

(** two peers with the same sorted items agree in one exchange: the
    responder's answer to Initiate's message reports no difference, and the
    initiator's answer to it reports none and is complete. *)
Theorem equal_sets_converge {hash : Hash256} (items : list Item)
    (Hs : sorted items) (Hok : Forall item_ok items) (Hfin : finite_items items)
    (Hnd : NoDup (map ID items)) :
  let '(n1, m1) := Initiate (New items) in
  exists n2 m2 n3 m3,
    Reconcile (New items) m1 = (n2, Ok (m2, [], [])) /\
    Reconcile n1 m2 = (n3, Ok (m3, [], [])) /\ IsComplete m3 = true.
Proof. by apply equal_sets. Qed.

Definition forty : list Item := map (fun k => mkItem (1700000000 + Z.of_nat k / 3) (z2b (Z.of_nat k) :: repeat x09 31)) (seq 0 40).

Lemma equal_sets_converge_witness :
  let '(n1, m1) := Initiate (New forty) in
  exists n2 m2 n3 m3,
    Reconcile (New forty) m1 = (n2, Ok (m2, [], [])) /\
    Reconcile n1 m2 = (n3, Ok (m3, [], [])) /\ IsComplete m3 = true.
Proof.
  apply (equal_sets_converge forty).
  - apply sortedb_sound. vm_compute. reflexivity.
  - repeat constructor; vm_compute; intuition discriminate.
  - repeat constructor.
  - apply (bool_decide_unpack _). vm_compute. exact I.
Defined.

(** ** The closing Skip of a cut response

    When an empty range fills the frame, Reconcile has already written the
    pending Skip and the range's own id list, and then writes the Skip a second
    time.  Its bound lies before the bound just written, and one second before
    it the delta encoding wraps to 0, which reads as infinity. *)

Module ClosingSkip.

Definition id_of (k : Z) : list byte := z2b k :: repeat x11 31.

(** The responder's items; the peer holds none of them. *)
Definition server_items : list Item :=
  map (fun k => mkItem 1000 (id_of (Z.of_nat k))) (seq 0 118) ++ [mkItem 9000 (id_of 200)].
Definition server : Negentropy := mkNegentropy server_items false MinFrameSizeLimit ∅.
Definition client : Negentropy := mkNegentropy [] true MinFrameSizeLimit ∅.

Definition at_ (ts : Z) : Bound := mkBound ts (repeat x00 32).

(** A well-formed message of a peer without items: lists and skips of ranges
    in which it has nothing. *)
Definition request : Message := mkMessage x61
  [mkRange (at_ 2000) 2 (encodeIdList []); mkRange (at_ 3000) 0 [];
   mkRange (at_ 4000) 2 (encodeIdList []); mkRange (at_ 5000) 0 [];
   mkRange (at_ 5001) 2 (encodeIdList []); mkRange inf_bound 1 (computeFingerprint [])].

(** One message over the wire, and the receiver's round on it. *)
Definition deliver (n : Negentropy) (m : Message) : Negentropy * outcome NegErr (Message * list gostring * list gostring) :=
  match ToBytes m with
  | Ok b => match FromBytes b with Ok m' => Reconcile n m' | _ => (n, Err ErrHex) end
  | _ => (n, Err ErrHex)
  end.

Definition msg_of (o : outcome NegErr (Message * list gostring * list gostring)) : Message :=
  match o with Ok (m, _, _) => m | _ => mkMessage x00 [] end.
Definition need_of (o : outcome NegErr (Message * list gostring * list gostring)) : list gostring :=
  match o with Ok (_, _, need) => need | _ => [] end.

(** The exchange: server, client, server, client. *)
Definition s1 := deliver server request.
Definition c1 := deliver client (msg_of s1.2).
Definition s2 := deliver s1.1 (msg_of c1.2).
Definition c2 := deliver c1.1 (msg_of s2.2).

End ClosingSkip.

(** the exchange ends, all rounds succeed and the client's last answer is
    complete, while the id of an item only the server holds is in no idsNeed:
    the repeated Skip was decoded as a Skip to infinity. *)
Theorem closing_skip_loses_item :
  is_ok ClosingSkip.s1.2 = true /\ is_ok ClosingSkip.c1.2 = true /\
  is_ok ClosingSkip.s2.2 = true /\ is_ok ClosingSkip.c2.2 = true /\
  IsComplete (ClosingSkip.msg_of ClosingSkip.c2.2) = true /\
  Hex.encode (ClosingSkip.id_of 200) ∈ hex_ids (Items ClosingSkip.server) /\
  Hex.encode (ClosingSkip.id_of 200) ∉ ClosingSkip.need_of ClosingSkip.c1.2 ++ ClosingSkip.need_of ClosingSkip.c2.2.
Proof.
  repeat (split; [vm_compute; reflexivity|]). split.
  - apply (bool_decide_unpack _). vm_compute. exact I.
  - apply (bool_decide_unpack _). vm_compute. exact I.
Qed.
