(* ===== verification/HuddleWire.v ===== *)
(** * huddle/wire: the huddle audio frame codec

    [huddle/wire/wire.go]: the per-frame header a client authors and the
    routing prefix a relay prepends.  [int8] levels are signed [Z]s. *)

From S2P Require Import Prelude GoLib.

Definition SampleRate : Z := 48000.
Definition Channels : Z := 1.
Definition FrameDurationMillis : Z := 20.
Definition SamplesPerFrame : Z := SampleRate * FrameDurationMillis / 1000.

Definition MinProtocolVersion : Z := 1.
Definition CurrentProtocolVersion : Z := 3.
Definition DefaultProtocolVersion : Z := 1.

Definition HeaderLen : Z := 8.
Definition FlagDTX : Z := 0x01.
Definition LevelSilenceFloor : Z := -127.
Definition MaxFrameBytes : Z := 4096.
Definition MaxControlBytes : Z := 8192.

Definition SupportedProtocolVersion (v : Z) : bool :=
  (MinProtocolVersion <=? v) && (v <=? CurrentProtocolVersion).

Definition HasHeader (v : Z) : bool := 2 <=? v.

Record FrameHeader := mkHeader { Seq : Z; Ts48k : Z; LevelDbov : Z; Flags : Z }.

Definition zero_header : FrameHeader := mkHeader 0 0 0 0.

Definition IsDTX (h : FrameHeader) : bool := negb (Z.land (Flags h) FlagDTX =? 0).

Definition ClampLevel (level : Z) : Z :=
  if (level <? LevelSilenceFloor) || (0 <? level) then LevelSilenceFloor else level.

(** The header, the payload and [ok]. *)
Definition ParseFrame (b : list byte) : FrameHeader * list byte * bool :=
  if zlen b <? HeaderLen then (zero_header, [], false)
  else (mkHeader (BE.get16 (slice 0 2 b)) (BE.get32 (slice 2 6 b))
          (ClampLevel (s8 (b2z (b !!! 6%nat)))) (b2z (b !!! 7%nat)),
        drop 8 b, true).

(** [ok] and the reason it is not. *)
Definition ValidClientFrame (v : Z) (b : list byte) : bool * gostring :=
  if zlen b =? 0 then (false, bs "empty frame")
  else if MaxFrameBytes <? zlen b then (false, bs "frame exceeds the maximum size")
  else if negb (HasHeader v) then (true, [])
  else if zlen b <=? HeaderLen then (false, bs "frame carries a header but no payload")
  else
    let '(_, payload, parsed) := ParseFrame b in
    if negb parsed || (zlen payload =? 0) then (false, bs "frame header failed to parse")
    else (true, []).

Definition AppendFrame (dst : list byte) (header : FrameHeader) (opus : list byte) : list byte :=
  dst ++ BE.put16 (Seq header) ++ BE.put32 (Ts48k header)
    ++ [z2b (ClampLevel (LevelDbov header)); z2b (Flags header)] ++ opus.

Definition EncodeFrame (header : FrameHeader) (opus : list byte) : list byte :=
  AppendFrame [] header opus.

Definition PrefixLen (v : Z) : Z := if 3 <=? v then 2 else 1.

Definition AppendRelayPrefix (dst : list byte) (v peerIndex epoch : Z) : list byte :=
  let dst := dst ++ [z2b peerIndex] in
  if 3 <=? v then dst ++ [z2b epoch] else dst.

Definition RelayFrame (v peerIndex epoch : Z) (frame : list byte) : list byte :=
  AppendRelayPrefix [] v peerIndex epoch ++ frame.

(** The peer index, the epoch, the frame and [ok]. *)
Definition ParseRelayFrame (v : Z) (b : list byte) : Z * Z * list byte * bool :=
  let n := PrefixLen v in
  if zlen b <? n then (0, 0, [], false)
  else (b2z (b !!! 0%nat), (if 3 <=? v then b2z (b !!! 1%nat) else 0), drop (Z.to_nat n) b, true).

(** A header as a Go value: every field within its type. *)
Definition header_ok (h : FrameHeader) : Prop :=
  0 <= Seq h < 2 ^ 16 /\ 0 <= Ts48k h < 2 ^ 32 /\ -128 <= LevelDbov h < 128 /\ 0 <= Flags h < 256.

(** What a header becomes on the wire. *)
Definition clamped (h : FrameHeader) : FrameHeader :=
  mkHeader (Seq h) (Ts48k h) (ClampLevel (LevelDbov h)) (Flags h).

Lemma ClampLevel_range l : -127 <= ClampLevel l <= 0.
Proof. unfold ClampLevel, LevelSilenceFloor. destruct (_ || _) eqn:E; [lia|]. bool_prop. lia. Qed.

Lemma ClampLevel_id l : -127 <= l <= 0 -> ClampLevel l = l.
Proof.
  intros. unfold ClampLevel, LevelSilenceFloor. by rewrite !(proj2 (Z.ltb_ge _ _)) by lia.
Qed.

Lemma s8_byte l : -128 <= l < 128 -> s8 (b2z (z2b l)) = l.
Proof.
  intros H. rewrite b2z_z2b. unfold s8. rewrite Zmod_mod.
  destruct (Z.ltb_spec (l mod 256) 128); dlia.
Qed.

Lemma ParseFrame_Encode h opus :
  header_ok h -> ParseFrame (EncodeFrame h opus) = (clamped h, opus, true).
Proof.
  intros (Hs & Ht & Hl & Hf). pose proof (zlen_nonneg opus). pose proof (ClampLevel_range (LevelDbov h)).
  unfold EncodeFrame, AppendFrame, ParseFrame. cbn [app].
  rewrite (proj2 (Z.ltb_ge _ _)) by (unfold BE.put16, BE.put32, HeaderLen; autorewrite with nmilat; lia).
  f_equal. f_equal. unfold clamped. f_equal.
  - apply (BE.get16_put16 (Seq h) []). done.
  - apply (BE.get32_put32 (Ts48k h) []). done.
  - change (((BE.put16 (Seq h) ++ BE.put32 (Ts48k h)
      ++ z2b (ClampLevel (LevelDbov h)) :: z2b (Flags h) :: opus)) !!! 6%nat)
      with (z2b (ClampLevel (LevelDbov h))).
    rewrite s8_byte by lia. by apply ClampLevel_id.
  - change (((BE.put16 (Seq h) ++ BE.put32 (Ts48k h)
      ++ z2b (ClampLevel (LevelDbov h)) :: z2b (Flags h) :: opus)) !!! 7%nat)
      with (z2b (Flags h)).
    rewrite b2z_z2b. by apply Z.mod_small.
Qed.

Lemma relay_frame_parse v idx epoch frame :
  0 <= idx < 256 -> 0 <= epoch < 256 ->
  ParseRelayFrame v (RelayFrame v idx epoch frame) = (idx, if 3 <=? v then epoch else 0, frame, true).
Proof.
  intros Hi He. pose proof (zlen_nonneg frame).
  unfold ParseRelayFrame, RelayFrame, AppendRelayPrefix, PrefixLen.
  destruct (3 <=? v); cbn [app];
    (rewrite (proj2 (Z.ltb_ge _ _)) by (autorewrite with nmilat; lia));
    cbn [lookup_total list_lookup_total]; by rewrite !b2z_z2b, !Z.mod_small by lia.
Qed.

(** ** Properties *)

(** a header and payload survive the wire: parsing an encoded frame gives
    the payload verbatim and every header field, the level clamped into
    [-127, 0] (which leaves an in-range level alone); reserved flag bits
    survive. *)
Theorem frame_roundtrip (h : FrameHeader) (opus : list byte) (Hh : header_ok h) :
  ParseFrame (EncodeFrame h opus) = (clamped h, opus, true) /\
  -127 <= LevelDbov (clamped h) <= 0 /\
  (-127 <= LevelDbov h <= 0 -> clamped h = h).
Proof.
  split; [by apply ParseFrame_Encode|]. split; [apply ClampLevel_range|].
  intros Hl. unfold clamped. rewrite ClampLevel_id by done. by destruct h.
Qed.

Lemma frame_roundtrip_witness :
  let h := mkHeader 513 70000 (-128) 0x83 in
  ParseFrame (EncodeFrame h [x0a]) = (mkHeader 513 70000 (-127) 0x83, [x0a], true) /\
  -127 <= LevelDbov (clamped h) <= 0 /\ (-127 <= LevelDbov h <= 0 -> clamped h = h).
Proof. apply (frame_roundtrip (mkHeader 513 70000 (-128) 0x83) [x0a]). repeat split; cbn; lia. Defined.

(** a relayed frame splits back into the author's index, its epoch (from
    version 3 on, 0 before) and the author's bytes verbatim, and is longer by
    exactly PrefixLen. *)
Theorem relay_frame_roundtrip (v idx epoch : Z) (frame : list byte)
    (Hi : 0 <= idx < 256) (He : 0 <= epoch < 256) :
  ParseRelayFrame v (RelayFrame v idx epoch frame)
  = (idx, if 3 <=? v then epoch else 0, frame, true) /\
  zlen (RelayFrame v idx epoch frame) = PrefixLen v + zlen frame.
Proof.
  split; [by apply relay_frame_parse|].
  unfold RelayFrame, AppendRelayPrefix, PrefixLen. destruct (3 <=? v); cbn [app]; autorewrite with nmilat; lia.
Qed.

Lemma relay_frame_roundtrip_witness :
  ParseRelayFrame 3 (RelayFrame 3 254 7 [x01; x02]) = (254, 7, [x01; x02], true) /\
  zlen (RelayFrame 3 254 7 [x01; x02]) = PrefixLen 3 + zlen [x01; x02].
Proof. apply (relay_frame_roundtrip 3 254 7 [x01; x02]); lia. Defined.

(** the admission policy: a frame is accepted exactly when it is non-empty,
    at most MaxFrameBytes long and, under a version with headers, longer than
    the header; the final parse check never refuses. *)
Theorem ValidClientFrame_iff (v : Z) (b : list byte) :
  (ValidClientFrame v b).1 = true <->
  1 <= zlen b <= MaxFrameBytes /\ (2 <= v -> HeaderLen < zlen b).
Proof.
  pose proof (zlen_nonneg b). unfold ValidClientFrame, HasHeader, MaxFrameBytes, HeaderLen.
  destruct (Z.eqb_spec (zlen b) 0); [cbn; split; [done|lia]|].
  destruct (Z.ltb_spec 4096 (zlen b)); [cbn; split; [done|lia]|].
  destruct (Z.leb_spec 2 v); cbn [negb]; [|cbn; split; [lia|done]].
  destruct (Z.leb_spec (zlen b) 8); [cbn; split; [done|lia]|].
  unfold ParseFrame, HeaderLen. rewrite (proj2 (Z.ltb_ge _ _)) by lia. cbn [negb orb].
  assert (zlen (drop 8 b) = zlen b - 8) as -> by (unfold zlen in *; rewrite length_drop; lia).
  rewrite (proj2 (Z.eqb_neq _ _)) by lia. cbn. split; [lia|done].
Qed.
