(* ===== verification/HuddleRoom.v ===== *)
(** * huddle/room: the audio room

    [huddle/room/sink.go] (frames, sinks) and [huddle/room/room.go] (the peer
    registry and the fan-out).  Every method runs under the room's mutex, so
    an operation is a function from state to state.  A [Sink] is an interface
    value; peers hold references into a store of sinks, which the delivering
    operations update.  Go ranges over a map in an unspecified order: those
    operations take the order as an argument, and the theorems hold for every
    order of the peers. *)

From S2P Require Import Prelude GoLib HuddleWire.

Definition AudioQueueDepth : Z := 8.
Definition ControlQueueDepth : Z := 32.
Definition MaxPeers : nat := 25.
Definition IndexSpace : nat := 255.

Inductive RoomErr := ErrRoomFull | ErrRoomEnded | ErrUpgradeRequired | ErrBadVersion | ErrNoSink.

#[global] Instance RoomErr_eq_dec : EqDecision RoomErr.
Proof. solve_decision. Defined.

Record Control := mkControl { JSON : gostring; Close : bool }.

Record PeerInfo := mkPeerInfo { piPubkey : gostring; piIndex : Z; piEpoch : Z }.

Record Frame := mkFrame { Author : PeerInfo; Version : Z; Client : list byte; Relayed : list byte }.

(** Frame.Payload *)
Definition FramePayload (f : Frame) : FrameHeader * list byte * bool :=
  if negb (HasHeader (Version f)) then (zero_header, Client f, false)
  else let '(header, payload, ok) := ParseFrame (Client f) in
       if ok then (header, payload, true) else (zero_header, [], false).

(** ** Sinks *)

(** The Sink interface: each method updates the sink and reports whether the
    message was accepted. *)
Class Sink (S : Type) := {
  SendFrame : S -> Frame -> S * bool;
  SendControl : S -> Control -> S * bool;
}.

(** Two bounded channels; the depths are their capacities. *)
Record ChannelSink := mkChannelSink {
  audio : list (list byte); audioCap : Z;
  ctrl : list Control; ctrlCap : Z;
}.

Definition NewChannelSinkWithDepth (audioDepth controlDepth : Z) : ChannelSink :=
  let audioDepth := if audioDepth <? 1 then 1 else audioDepth in
  let controlDepth := if controlDepth <? 1 then 1 else controlDepth in
  mkChannelSink [] audioDepth [] controlDepth.

Definition NewChannelSink : ChannelSink := NewChannelSinkWithDepth AudioQueueDepth ControlQueueDepth.

(** [select { case s.audio <- f.Relayed: ... default: ... }] *)
Definition ChannelSink_SendFrame (s : ChannelSink) (f : Frame) : ChannelSink * bool :=
  if zlen (audio s) <? audioCap s
  then (mkChannelSink (audio s ++ [Relayed f]) (audioCap s) (ctrl s) (ctrlCap s), true)
  else (s, false).

Definition ChannelSink_SendControl (s : ChannelSink) (c : Control) : ChannelSink * bool :=
  if zlen (ctrl s) <? ctrlCap s
  then (mkChannelSink (audio s) (audioCap s) (ctrl s ++ [c]) (ctrlCap s), true)
  else (s, false).

#[global] Instance ChannelSink_Sink : Sink ChannelSink :=
  {| SendFrame := ChannelSink_SendFrame; SendControl := ChannelSink_SendControl |}.

(** ** Rooms *)

Abbreviation PeerID := Z (only parsing).
Abbreviation SinkRef := nat (only parsing).

Record Peer := mkPeer {
  pID : PeerID; Pubkey : gostring; Index : Z; Epoch : Z; sink : SinkRef; dropped : Z;
}.

Record Roster := mkRoster { Revision : Z; Peers : list PeerInfo }.

Record Room := mkRoom {
  peers : gmap PeerID Peer;
  byIndex : gmap Z PeerID;
  epochs : list Z;
  cursor : Z;
  nextID : PeerID;
  revision : Z;
  version : Z;
  ended : bool;
}.

Definition New : Room := mkRoom ∅ ∅ (repeat 0 IndexSpace) 0 1 0 0 false.

Definition ProtocolVersion (r : Room) : Z := version r.
Definition Len (r : Room) : nat := size (peers r).
Definition Ended (r : Room) : bool := ended r.

Definition info (p : Peer) : PeerInfo := mkPeerInfo (Pubkey p) (Index p) (Epoch p).

Definition rosterLocked (r : Room) : Roster :=
  mkRoster (revision r) (map (fun kv => info kv.2) (map_to_list (peers r))).

(** The sweep of allocateIndexLocked over [n] more candidates, from [i]. *)
Fixpoint find_index (taken : gmap Z PeerID) (cursor : Z) (n : nat) (i : Z) : option Z :=
  match n with
  | O => None
  | S n =>
      let candidate := u8 (u16 (cursor + i) mod 255) in
      match taken !! candidate with
      | Some _ => find_index taken cursor n (i + 1)
      | None => Some candidate
      end
  end.

(** The index and the new cursor. *)
Definition allocateIndexLocked (r : Room) : option (Z * Z) :=
  match find_index (byIndex r) (cursor r) IndexSpace 0 with
  | Some c => Some (c, (c + 1) mod 255)
  | None => None
  end.

(** AddPeer: the room is changed even by a refusal after the version was
    pinned. *)
Definition AddPeer (r : Room) (pubkey : gostring) (protocolVersion : Z) (snk : option SinkRef)
    : Room * outcome RoomErr (Peer * Roster) :=
  if negb (SupportedProtocolVersion protocolVersion) then (r, Err ErrBadVersion)
  else match snk with
  | None => (r, Err ErrNoSink)
  | Some s =>
      if ended r then (r, Err ErrRoomEnded)
      else if (MaxPeers <=? size (peers r))%nat then (r, Err ErrRoomFull)
      else if negb (version r =? 0) && negb (version r =? protocolVersion) then (r, Err ErrUpgradeRequired)
      else
        let version := if version r =? 0 then protocolVersion else version r in
        match allocateIndexLocked r with
        | None => (mkRoom (peers r) (byIndex r) (epochs r) (cursor r) (nextID r) (revision r) version (ended r),
                   Err ErrRoomFull)
        | Some (index, cursor) =>
            let epoch := u8 (epochs r !!! Z.to_nat index + 1) in
            let epochs := <[Z.to_nat index := epoch]> (epochs r) in
            let peer := mkPeer (nextID r) pubkey index epoch s 0 in
            let r := mkRoom (<[nextID r := peer]> (peers r)) (<[index := nextID r]> (byIndex r)) epochs cursor
                            (u64 (nextID r + 1)) (u64 (revision r + 1)) version (ended r) in
            (r, Ok (peer, rosterLocked r))
        end
  end.

(** Removing a peer from the registry, its index included if it holds it. *)
Definition unregister (r : Room) (id : PeerID) (peer : Peer) : Room :=
  let byIndex := match byIndex r !! Index peer with
                 | Some holder => if holder =? id then delete (Index peer) (byIndex r) else byIndex r
                 | None => byIndex r
                 end in
  mkRoom (delete id (peers r)) byIndex (epochs r) (cursor r) (nextID r) (revision r) (version r) (ended r).

Definition bump (r : Room) : Room :=
  mkRoom (peers r) (byIndex r) (epochs r) (cursor r) (nextID r) (u64 (revision r + 1)) (version r) (ended r).

Definition RemovePeer (r : Room) (id : PeerID) : Room * option Peer :=
  match peers r !! id with
  | None => (r, None)
  | Some peer => (bump (unregister r id peer), Some peer)
  end.

Section Delivery.
Context {S : Type} `{!Sink S}.

(** The sinks behind the references. *)
Abbreviation sinks := (gmap SinkRef S).

Definition send_frame (ss : sinks) (ref : SinkRef) (f : Frame) : sinks * bool :=
  match ss !! ref with
  | Some s => let '(s', ok) := SendFrame s f in (<[ref := s']> ss, ok)
  | None => (ss, false)
  end.

Definition send_control (ss : sinks) (ref : SinkRef) (c : Control) : sinks * bool :=
  match ss !! ref with
  | Some s => let '(s', ok) := SendControl s c in (<[ref := s']> ss, ok)
  | None => (ss, false)
  end.

(** One peer of EvictPubkey's loop. *)
Definition evict_one (pubkey message : gostring) (acc : Room * sinks * Z) (id : PeerID) : Room * sinks * Z :=
  let '(r, ss, evicted) := acc in
  match peers r !! id with
  | None => acc
  | Some peer =>
      if decide (Pubkey peer = pubkey) then
        let ss := if decide (message = []) then ss
                  else (send_control ss (sink peer) (mkControl message false)).1 in
        let ss := (send_control ss (sink peer) (mkControl [] true)).1 in
        (unregister r id peer, ss, evicted + 1)
      else acc
  end.

Definition EvictPubkey (order : list PeerID) (r : Room) (ss : sinks) (pubkey message : gostring)
    : Room * sinks * Z :=
  let '(r, ss, evicted) := foldl (evict_one pubkey message) (r, ss, 0) order in
  (if 0 <? evicted then bump r else r, ss, evicted).

Definition set_dropped (p : Peer) (d : Z) : Peer :=
  mkPeer (pID p) (Pubkey p) (Index p) (Epoch p) (sink p) d.

Definition set_peers (r : Room) (ps : gmap PeerID Peer) : Room :=
  mkRoom ps (byIndex r) (epochs r) (cursor r) (nextID r) (revision r) (version r) (ended r).

(** One recipient of BroadcastFrame's loop. *)
Definition deliver_one (author : PeerID) (delivery : Frame) (acc : Room * sinks * Z) (id : PeerID)
    : Room * sinks * Z :=
  let '(r, ss, ndropped) := acc in
  if id =? author then acc
  else match peers r !! id with
  | None => acc
  | Some peer =>
      let '(ss, ok) := send_frame ss (sink peer) delivery in
      if ok then (r, ss, ndropped)
      else (set_peers r (<[id := set_dropped peer (u64 (dropped peer + 1))]> (peers r)), ss, ndropped + 1)
  end.

(** The frame every recipient shares. *)
Definition delivery_of (r : Room) (sender : Peer) (frame : list byte) : Frame :=
  mkFrame (info sender) (version r) frame (RelayFrame (version r) (Index sender) (Epoch sender) frame).

Definition BroadcastFrame (order : list PeerID) (r : Room) (ss : sinks) (author : PeerID) (frame : list byte)
    : Room * sinks * Z :=
  match peers r !! author with
  | None => (r, ss, 0)
  | Some sender => foldl (deliver_one author (delivery_of r sender frame)) (r, ss, 0) order
  end.

(** One recipient of BroadcastControl's loop. *)
Definition control_one (r : Room) (message : gostring) (skip : PeerID) (acc : sinks * Z) (id : PeerID) : sinks * Z :=
  let '(ss, ndropped) := acc in
  if id =? skip then acc
  else match peers r !! id with
  | None => acc
  | Some peer =>
      let '(ss, ok) := send_control ss (sink peer) (mkControl message false) in
      (ss, if ok then ndropped else ndropped + 1)
  end.

Definition BroadcastControl (order : list PeerID) (r : Room) (ss : sinks) (message : gostring) (skip : PeerID)
    : sinks * Z :=
  foldl (control_one r message skip) (ss, 0) order.

Definition RoomSendControl (r : Room) (ss : sinks) (id : PeerID) (message : gostring) : sinks * bool :=
  match peers r !! id with
  | None => (ss, false)
  | Some peer => send_control ss (sink peer) (mkControl message false)
  end.

(** One peer of End's loop. *)
Definition end_one (acc : Room * sinks) (id : PeerID) : Room * sinks :=
  let '(r, ss) := acc in
  match peers r !! id with
  | None => acc
  | Some peer =>
      let ss := (send_control ss (sink peer) (mkControl [] true)).1 in
      (mkRoom (delete id (peers r)) (delete (Index peer) (byIndex r)) (epochs r) (cursor r)
              (nextID r) (revision r) (version r) (ended r), ss)
  end.

Definition End_ (order : list PeerID) (r : Room) (ss : sinks) : Room * sinks :=
  if ended r then (r, ss)
  else
    let r := mkRoom (peers r) (byIndex r) (epochs r) (cursor r) (nextID r) (revision r) (version r) true in
    let '(r, ss) := foldl end_one (r, ss) order in
    (bump r, ss).

(** An order in which Go may range over the peers. *)
Definition peer_order (r : Room) (order : list PeerID) : Prop := order ≡ₚ elements (dom (peers r)).

End Delivery.
