(* ===== verification/HuddleRoomInv.v ===== *)
(** * huddle/room: the registry invariant

    What every reachable room satisfies: routing indices and peers are in
    bijection, occupancy and versions are bounded, peer ids are fresh. *)

From S2P Require Import Prelude GoLib HuddleWire HuddleRoom.

Record room_inv (r : Room) : Prop := {
  (** a peer is registered under its id and holds its index *)
  ri_peer : forall id p, peers r !! id = Some p ->
    pID p = id /\ 0 <= Index p < 255 /\ byIndex r !! Index p = Some id /\
    Epoch p = epochs r !!! Z.to_nat (Index p) /\ 0 < id < nextID r;
  (** an index is held by a registered peer *)
  ri_index : forall i id, byIndex r !! i = Some id -> exists p, peers r !! id = Some p /\ Index p = i;
  ri_size : (size (peers r) <= MaxPeers)%nat;
  ri_epochs : length (epochs r) = IndexSpace;
  ri_epoch : forall i, 0 <= epochs r !!! i < 256;
  ri_cursor : 0 <= cursor r < 255;
  ri_next : 0 < nextID r < 2 ^ 64;
  ri_version : version r = 0 \/ SupportedProtocolVersion (version r) = true;
  ri_pinned : version r = 0 -> peers r = ∅;
  ri_ended : ended r = true -> peers r = ∅;
}.

Lemma New_inv : room_inv New.
Proof.
  split; cbn [New peers byIndex epochs cursor nextID version ended]; try done; try lia.
  - rewrite map_size_empty. unfold MaxPeers. lia.
  - intros i. rewrite list_lookup_total_alt. destruct (repeat 0 IndexSpace !! i) as [e|] eqn:E; [|done].
    apply list_elem_of_lookup_2, list_elem_of_In, repeat_spec in E. by subst.
Qed.

(** ** Allocation *)

Lemma candidate_spec c i : 0 <= c < 255 -> 0 <= i < 255 -> u8 (u16 (c + i) mod 255) = (c + i) mod 255.
Proof.
  intros Hc Hi. rewrite (wrap_small 16) by lia. apply wrap_small.
  pose proof (Z.mod_pos_bound (c + i) 255). lia.
Qed.

Lemma find_index_Some taken c n i idx :
  0 <= c < 255 -> 0 <= i -> i + Z.of_nat n <= 255 ->
  find_index taken c n i = Some idx -> 0 <= idx < 255 /\ taken !! idx = None.
Proof.
  intros Hc. revert i. induction n as [|n IH]; intros i Hi Hn; cbn [find_index]; [done|].
  rewrite candidate_spec by lia. destruct (taken !! ((c + i) mod 255)) eqn:E.
  - apply IH; lia.
  - intros [= <-]. split; [apply Z.mod_pos_bound; lia|done].
Qed.

Lemma find_index_None taken c n i :
  0 <= c < 255 -> 0 <= i -> i + Z.of_nat n <= 255 -> find_index taken c n i = None ->
  forall j, i <= j < i + Z.of_nat n -> is_Some (taken !! ((c + j) mod 255)).
Proof.
  intros Hc. revert i. induction n as [|n IH]; intros i Hi Hn; cbn [find_index]; [lia|].
  rewrite candidate_spec by lia. destruct (taken !! ((c + i) mod 255)) eqn:E; [|done].
  intros HF j Hj. destruct (decide (j = i)) as [->|]; [by rewrite E|]. apply (IH (i + 1)); auto; lia.
Qed.

(** The indices in use number the peers. *)
Lemma byIndex_size r : room_inv r -> (size (byIndex r) <= size (peers r))%nat.
Proof.
  intros HI.
  assert (G : forall i, i ∈ elements (dom (byIndex r)) ->
    i ∈ map (fun kv => Index kv.2) (map_to_list (peers r))).
  { intros i Hi. apply elem_of_elements, elem_of_dom in Hi as [id Hid].
    destruct (ri_index r HI i id Hid) as (p & Hp & <-).
    apply (list_elem_of_fmap_2 (fun kv => Index kv.2) _ (id, p)). by apply elem_of_map_to_list. }
  pose proof (NoDup_submseteq _ _ (NoDup_elements (dom (byIndex r))) G) as HS.
  apply submseteq_length in HS. rewrite length_map, length_map_to_list in HS.
  rewrite <- (size_dom (byIndex r)). exact HS.
Qed.

(** The sweep always finds an index: 25 peers cannot hold 255 of them. *)
Lemma allocate_total r : room_inv r -> exists idx,
  allocateIndexLocked r = Some (idx, (idx + 1) mod 255) /\ 0 <= idx < 255 /\ byIndex r !! idx = None.
Proof.
  intros HI. unfold allocateIndexLocked. pose proof (ri_cursor r HI) as Hc.
  destruct (find_index _ _ _ _) as [idx|] eqn:E.
  - exists idx. split; [done|]. apply find_index_Some in E; [done|done|lia|unfold IndexSpace; lia].
  - exfalso. pose proof (find_index_None (byIndex r) (cursor r) IndexSpace 0 Hc (Z.le_refl 0) ltac:(unfold IndexSpace; lia) E) as HN.
    assert (G : forall k, k ∈ map Z.of_nat (seq 0 255) -> k ∈ elements (dom (byIndex r))).
    { intros k Hk. apply list_elem_of_In, in_map_iff in Hk as (n & <- & Hn). apply in_seq in Hn.
      apply elem_of_elements, elem_of_dom.
      specialize (HN ((Z.of_nat n - cursor r) mod 255)). unfold IndexSpace in HN.
      rewrite Zplus_mod_idemp_r in HN. replace (cursor r + (Z.of_nat n - cursor r)) with (Z.of_nat n) in HN by lia.
      rewrite (Z.mod_small (Z.of_nat n)) in HN by lia. apply HN.
      pose proof (Z.mod_pos_bound (Z.of_nat n - cursor r) 255). lia. }
    assert (HND : NoDup (map Z.of_nat (seq 0 255))).
    { apply (NoDup_fmap_2 Z.of_nat). apply NoDup_seq. }
    pose proof (submseteq_length _ _ (NoDup_submseteq _ _ HND G)) as HL. rewrite length_map, length_seq in HL.
    pose proof (byIndex_size r HI) as HB. pose proof (ri_size r HI) as HS. unfold MaxPeers in HS.
    rewrite <- (size_dom (byIndex r)) in HB. change (size (dom (byIndex r))) with (length (elements (dom (byIndex r)))) in HB. lia.
Qed.

(** ** Operations preserve the invariant *)

Lemma AddPeer_Ok r pubkey v s r' p ros :
  room_inv r -> AddPeer r pubkey v (Some s) = (r', Ok (p, ros)) ->
  exists idx, byIndex r !! idx = None /\ 0 <= idx < 255 /\
    SupportedProtocolVersion v = true /\ ended r = false /\ (size (peers r) < MaxPeers)%nat /\
    (version r = 0 \/ version r = v) /\
    let epoch := u8 (epochs r !!! Z.to_nat idx + 1) in
    p = mkPeer (nextID r) pubkey idx epoch s 0 /\
    r' = mkRoom (<[nextID r := p]> (peers r)) (<[idx := nextID r]> (byIndex r))
           (<[Z.to_nat idx := epoch]> (epochs r)) ((idx + 1) mod 255)
           (u64 (nextID r + 1)) (u64 (revision r + 1)) v (ended r) /\
    ros = rosterLocked r'.
Proof.
  intros HI. unfold AddPeer. destruct (allocate_total r HI) as (idx & -> & Hidx & Hfree).
  destruct (SupportedProtocolVersion v) eqn:ES; [|done]. cbn [negb].
  destruct (ended r) eqn:EE; [done|]. destruct (Nat.leb_spec MaxPeers (size (peers r))); [done|].
  destruct (Z.eqb_spec (version r) 0) as [E0|E0]; cbn [negb andb].
  - intros [= <- <- <-]. exists idx. cbv zeta. split_and!; by auto || lia.
  - destruct (Z.eqb_spec (version r) v) as [Ev|Ev]; [|done]. cbn [negb].
    intros [= <- <- <-]. exists idx. cbv zeta. rewrite Ev. split_and!; by auto || lia.
Qed.

Lemma fresh_id r id : room_inv r -> nextID r <= id -> peers r !! id = None.
Proof.
  intros HI Hid. destruct (peers r !! id) as [p|] eqn:E; [|done].
  destruct (ri_peer r HI id p E) as (_ & _ & _ & _ & ?). lia.
Qed.

Lemma AddPeer_inv r pubkey v snk :
  room_inv r -> nextID r + 1 < 2 ^ 64 -> room_inv (AddPeer r pubkey v snk).1.
Proof.
  intros HI Hnext. destruct snk as [s|].
  2: { unfold AddPeer. by destruct (SupportedProtocolVersion v). }
  destruct (AddPeer r pubkey v (Some s)) as [r' res] eqn:EA. cbn [fst]. destruct res as [[p ros]|e|].
  2,3: unfold AddPeer in EA; destruct (allocate_total r HI) as (idx & Ha & _); rewrite Ha in EA;
    repeat (match type of EA with context [if ?c then _ else _] => destruct c end); by simplify_eq.
  apply AddPeer_Ok in EA as (idx & Hfree & Hidx & HS & HE & Hsz & Hv & Hp & -> & _); [|done]. rewrite Hp.
  pose proof (ri_next r HI) as Hn. pose proof (fresh_id r (nextID r) HI (Z.le_refl _)) as Hfresh.
  assert (Hep : forall j x, Z.to_nat idx <> j -> <[Z.to_nat idx := x]> (epochs r) !!! j = epochs r !!! j).
  { intros j x Hj. by rewrite list_lookup_total_insert_ne. }
  split; cbn [peers byIndex epochs cursor nextID version ended revision].
  - intros id q Hq. rewrite (wrap_small 64) by lia. apply lookup_insert_Some in Hq as [[<- <-]|[Hne Hq]].
    + cbn [pID Index Epoch]. rewrite lookup_insert_eq. rewrite list_lookup_total_insert_eq
        by (rewrite (ri_epochs r HI); unfold IndexSpace; lia). repeat split; auto; lia.
    + destruct (ri_peer r HI id q Hq) as (H1 & H2 & H3 & H4 & H5).
      assert (Index q <> idx) by (intros EI; rewrite EI in H3; congruence).
      rewrite lookup_insert_ne by done. rewrite Hep by lia. repeat split; auto; lia.
  - intros i id Hi. apply lookup_insert_Some in Hi as [[<- <-]|[Hne Hi]].
    + eexists. by rewrite lookup_insert_eq.
    + destruct (ri_index r HI i id Hi) as (q & Hq & HqI). exists q.
      rewrite lookup_insert_ne by (intros <-; congruence). done.
  - rewrite map_size_insert_None by done. lia.
  - by rewrite length_insert, (ri_epochs r HI).
  - intros i. destruct (decide (Z.to_nat idx = i)) as [<-|Hne]; [|rewrite Hep by done; apply HI].
    rewrite list_lookup_total_insert_eq by (rewrite (ri_epochs r HI); unfold IndexSpace; lia).
    apply (wrap_range 8). lia.
  - apply Z.mod_pos_bound. lia.
  - rewrite wrap_small; lia.
  - by right.
  - intros ->. done.
  - by rewrite HE.
Qed.

Lemma unregister_lookup r id p :
  room_inv r -> peers r !! id = Some p ->
  unregister r id p = mkRoom (delete id (peers r)) (delete (Index p) (byIndex r)) (epochs r) (cursor r)
                        (nextID r) (revision r) (version r) (ended r).
Proof.
  intros HI Hp. unfold unregister. destruct (ri_peer r HI id p Hp) as (_ & _ & -> & _).
  by rewrite Z.eqb_refl.
Qed.

Lemma unregister_inv r id p : room_inv r -> peers r !! id = Some p -> room_inv (unregister r id p).
Proof.
  intros HI Hp. rewrite unregister_lookup by done.
  destruct (ri_peer r HI id p Hp) as (E1 & E2 & E3 & E4 & E5).
  split; cbn [peers byIndex epochs cursor nextID version ended revision]; try (by apply HI).
  - intros id' q Hq. apply lookup_delete_Some in Hq as [Hne Hq].
    destruct (ri_peer r HI id' q Hq) as (F1 & F2 & F3 & F4 & F5).
    assert (Index q <> Index p) by (intros EI; rewrite EI in F3; congruence).
    rewrite lookup_delete_ne by done. repeat split; auto; lia.
  - intros i id' Hi. apply lookup_delete_Some in Hi as [Hne Hi].
    destruct (ri_index r HI i id' Hi) as (q & Hq & HqI). exists q. split; [|done].
    rewrite lookup_delete_ne; [done|]. intros <-. congruence.
  - rewrite map_size_delete_Some by done. pose proof (ri_size r HI). lia.
  - intros Hv. rewrite (ri_pinned r HI Hv). apply delete_empty.
  - intros Hv. rewrite (ri_ended r HI Hv). apply delete_empty.
Qed.

Lemma bump_inv r : room_inv r -> room_inv (bump r).
Proof. intros []. by split. Qed.

Lemma RemovePeer_inv r id : room_inv r -> room_inv (RemovePeer r id).1.
Proof.
  intros HI. unfold RemovePeer. destruct (peers r !! id) as [p|] eqn:E; [|done].
  by apply bump_inv, unregister_inv.
Qed.

Section Delivery.
Context {S : Type} `{!Sink S}.

Abbreviation sinks := (gmap SinkRef S).

Lemma evict_one_inv pubkey message (acc : Room * sinks * Z) id :
  room_inv acc.1.1 -> room_inv (evict_one pubkey message acc id).1.1.
Proof.
  destruct acc as [[r ss] n]. cbn. intros HI. destruct (peers r !! id) as [p|] eqn:E; [|done].
  destruct (decide _); [|done]. by apply unregister_inv.
Qed.

Lemma EvictPubkey_inv order r (ss : sinks) pubkey message :
  room_inv r -> room_inv (EvictPubkey order r ss pubkey message).1.1.
Proof.
  intros HI. unfold EvictPubkey.
  pose proof (foldl_inv (fun acc => room_inv acc.1.1) (evict_one pubkey message) order (r, ss, 0)
    (evict_one_inv pubkey message) HI) as HF.
  destruct (foldl _ _ _) as [[r' ss'] n]. cbn in *. destruct (0 <? n); [by apply bump_inv|done].
Qed.

(** Marking a peer's drop counter. *)
Lemma set_dropped_inv r id p d :
  room_inv r -> peers r !! id = Some p -> room_inv (set_peers r (<[id := set_dropped p d]> (peers r))).
Proof.
  intros HI Hp. split; cbn [set_peers peers byIndex epochs cursor nextID version ended revision]; try (by apply HI).
  - intros id' q Hq. apply lookup_insert_Some in Hq as [[<- <-]|[_ Hq]]; [|by apply HI].
    exact (ri_peer r HI id p Hp).
  - intros i id' Hi. destruct (ri_index r HI i id' Hi) as (q & Hq & HqI).
    destruct (decide (id = id')) as [->|Hne].
    + eexists. rewrite lookup_insert_eq. split; [done|]. cbn. congruence.
    + exists q. by rewrite lookup_insert_ne.
  - rewrite map_size_insert_Some by (by eexists). apply HI.
  - intros Hv. by rewrite (ri_pinned r HI Hv) in Hp.
  - intros Hv. by rewrite (ri_ended r HI Hv) in Hp.
Qed.

Lemma deliver_one_inv author f (acc : Room * sinks * Z) id :
  room_inv acc.1.1 -> room_inv (deliver_one author f acc id).1.1.
Proof.
  destruct acc as [[r ss] n]. cbn. intros HI. destruct (id =? author); [done|].
  destruct (peers r !! id) as [p|] eqn:E; [|done]. destruct (send_frame _ _ _) as [ss' []]; [done|].
  by apply set_dropped_inv.
Qed.

Lemma BroadcastFrame_inv order r (ss : sinks) author frame :
  room_inv r -> room_inv (BroadcastFrame order r ss author frame).1.1.
Proof.
  intros HI. unfold BroadcastFrame. destruct (peers r !! author) as [p|]; [|done].
  apply (foldl_inv (fun acc => room_inv acc.1.1)); [|done]. apply deliver_one_inv.
Qed.

(** End's loop deletes each peer of the order, with its index. *)
Lemma end_loop order r (ss : sinks) r' ss' :
  foldl end_one (r, ss) order = (r', ss') ->
  r' = mkRoom (peers r') (byIndex r') (epochs r) (cursor r) (nextID r) (revision r) (version r) (ended r) /\
  (forall id, peers r' !! id = if decide (id ∈ order) then None else peers r !! id) /\
  (forall i, byIndex r' !! i <> None ->
     byIndex r' !! i = byIndex r !! i /\
     forall id p, id ∈ order -> peers r !! id = Some p -> Index p <> i).
Proof.
  revert r ss. induction order as [|x order IH]; intros r ss; cbn [foldl].
  { intros [= <- <-]. split; [by destruct r|]. split; [done|].
    intros i Hi. split; [done|]. intros id p Hid. by apply not_elem_of_nil in Hid. }
  cbn [end_one]. destruct (peers r !! x) as [p|] eqn:E; intros HF; apply IH in HF as (HE & HP & HB).
  - cbn [peers byIndex epochs cursor nextID revision version ended] in *. split; [done|]. split.
    + intros id. rewrite HP. destruct (decide (id = x)) as [->|Hne].
      * rewrite lookup_delete_eq, (decide_True (P := x ∈ x :: order)) by left. by destruct (decide _).
      * rewrite lookup_delete_ne by done. destruct (decide (id ∈ order)).
        -- by rewrite decide_True by (by right).
        -- rewrite decide_False; [done|]. by rewrite elem_of_cons; intros [|].
    + intros i Hi. destruct (HB i Hi) as [HBi HBp]. destruct (decide (Index p = i)) as [<-|Hne].
      { by rewrite HBi, lookup_delete_eq in Hi. }
      rewrite lookup_delete_ne in HBi by done. split; [done|]. intros id q Hid Hq.
      destruct (decide (id = x)) as [->|Hix]; [congruence|]. apply elem_of_cons in Hid as [?|Hid]; [done|].
      apply (HBp id q Hid). by rewrite lookup_delete_ne.
  - split; [done|]. split.
    + intros id. rewrite HP. destruct (decide (id = x)) as [->|Hne].
      * rewrite E, (decide_True (P := x ∈ x :: order)) by left. by destruct (decide _).
      * destruct (decide (id ∈ order)); [by rewrite decide_True by (by right)|].
        rewrite decide_False; [done|]. by rewrite elem_of_cons; intros [|].
    + intros i Hi. destruct (HB i Hi) as [HBi HBp]. split; [done|]. intros id q Hid Hq.
      apply elem_of_cons in Hid as [->|Hid]; [congruence|]. by apply (HBp id q Hid).
Qed.

(** An ended room is empty, whatever the order, and stays otherwise as it was. *)
Lemma End_spec order r (ss : sinks) :
  room_inv r -> peer_order r order -> ended r = false ->
  (End_ order r ss).1 = mkRoom ∅ ∅ (epochs r) (cursor r) (nextID r) (u64 (revision r + 1)) (version r) true.
Proof.
  intros HI HO HE. unfold End_. rewrite HE. cbv zeta. destruct (foldl _ _ _) as [r' ss'] eqn:EF.
  apply end_loop in EF as (-> & HP & HB).
  unfold bump. cbn [fst peers byIndex epochs cursor nextID revision version ended] in *.
  assert (Hin : forall id, is_Some (peers r !! id) -> id ∈ order).
  { intros id Hid. unfold peer_order in HO. rewrite HO. by apply elem_of_elements, elem_of_dom. }
  f_equal; apply map_empty.
  - intros id. rewrite HP. destruct (decide _) as [|Hn]; [done|].
    destruct (peers r !! id) eqn:E; [|done]. exfalso. by apply Hn, Hin.
  - intros i. destruct (byIndex r' !! i) as [id|] eqn:E; [|done]. exfalso.
    destruct (HB i) as [HBi HBp]; [congruence|]. rewrite E in HBi. symmetry in HBi.
    destruct (ri_index r HI i id HBi) as (p & Hp & HpI). apply (HBp id p); [|done|done]. by apply Hin.
Qed.

Lemma End_inv order r (ss : sinks) :
  room_inv r -> peer_order r order -> room_inv (End_ order r ss).1.
Proof.
  intros HI HO. destruct (ended r) eqn:HE; [unfold End_; by rewrite HE|].
  rewrite End_spec by done. split; cbn; try done; try (by apply HI).
  - rewrite map_size_empty. lia.
Qed.

(** ** Runs *)

(** One method call on a room; the number is that of AddPeer calls. *)
Inductive room_step : nat -> Room -> Room -> Prop :=
  | step_add r pubkey v snk : room_step 1 r (AddPeer r pubkey v snk).1
  | step_remove r id : room_step 0 r (RemovePeer r id).1
  | step_evict order r (ss : sinks) pubkey message :
      peer_order r order -> room_step 0 r (EvictPubkey order r ss pubkey message).1.1
  | step_broadcast order r (ss : sinks) author frame :
      peer_order r order -> room_step 0 r (BroadcastFrame order r ss author frame).1.1
  | step_end order r (ss : sinks) : peer_order r order -> room_step 0 r (End_ order r ss).1.

Inductive room_run (r : Room) : nat -> Room -> Prop :=
  | run_nil : room_run r 0 r
  | run_step n r1 k r2 : room_run r n r1 -> room_step k r1 r2 -> room_run r (n + k) r2.

(** Every method but AddPeer only gives indices back. *)
Definition shrinks (r r' : Room) : Prop :=
  epochs r' = epochs r /\ nextID r' = nextID r /\ byIndex r' ⊆ byIndex r.

Lemma shrinks_refl r : shrinks r r.
Proof. done. Qed.

Lemma unregister_shrinks r0 r id p : shrinks r0 r -> shrinks r0 (unregister r id p).
Proof.
  intros (He & Hn & Hb). split; [done|]. split; [done|]. cbn. etrans; [|exact Hb].
  destruct (byIndex r !! Index p) as [h|]; [|done]. destruct (h =? id); [apply delete_subseteq|done].
Qed.

Lemma evict_one_shrinks r0 pubkey message (acc : Room * sinks * Z) id :
  shrinks r0 acc.1.1 -> shrinks r0 (evict_one pubkey message acc id).1.1.
Proof.
  destruct acc as [[r ss] n]. cbn. intros HS. destruct (peers r !! id) as [p|]; [|done].
  destruct (decide _); [|done]. by apply unregister_shrinks.
Qed.

Lemma deliver_one_shrinks r0 author f (acc : Room * sinks * Z) id :
  shrinks r0 acc.1.1 -> shrinks r0 (deliver_one author f acc id).1.1.
Proof.
  destruct acc as [[r ss] n]. cbn. intros HS. destruct (id =? author); [done|].
  destruct (peers r !! id) as [p|]; [|done]. by destruct (send_frame _ _ _) as [ss' []].
Qed.

Lemma room_step_shrinks k r r' :
  room_inv r -> room_step k r r' -> (exists pubkey v snk, k = 1%nat /\ r' = (AddPeer r pubkey v snk).1) \/
                                    (k = 0%nat /\ shrinks r r').
Proof.
  intros HI HS. destruct HS as [r pubkey v snk|r id|order r ss pubkey message HO|order r ss author frame HO|order r ss HO].
  - left. by exists pubkey, v, snk.
  - right. split; [done|]. unfold RemovePeer. destruct (peers r !! id) as [p|]; [|apply shrinks_refl].
    apply (unregister_shrinks r r id p), shrinks_refl.
  - right. split; [done|]. unfold EvictPubkey.
    pose proof (foldl_inv (fun acc => shrinks r acc.1.1) (evict_one pubkey message) order (r, ss, 0)
      (evict_one_shrinks r pubkey message) (shrinks_refl r)) as HF.
    destruct (foldl _ _ _) as [[r' ss'] n]. cbn in *. by destruct (0 <? n).
  - right. split; [done|]. unfold BroadcastFrame. destruct (peers r !! author) as [p|]; [|apply shrinks_refl].
    apply (foldl_inv (fun acc => shrinks r acc.1.1)); [apply deliver_one_shrinks|apply shrinks_refl].
  - right. split; [done|]. destruct (ended r) eqn:HE; [unfold End_; rewrite HE; apply shrinks_refl|].
    rewrite End_spec by done. split; [done|]. split; [done|]. apply map_empty_subseteq.
Qed.

Lemma AddPeer_result r pubkey v snk :
  room_inv r ->
  (exists e, AddPeer r pubkey v snk = (r, Err e)) \/
  (exists s p ros r', snk = Some s /\ AddPeer r pubkey v snk = (r', Ok (p, ros))).
Proof.
  intros HI. destruct snk as [s|].
  2: { left. unfold AddPeer. destruct (SupportedProtocolVersion v); by eexists. }
  unfold AddPeer. destruct (allocate_total r HI) as (idx & -> & _).
  repeat match goal with |- context [if ?c then _ else _] => destruct c end;
    (left; by eexists) || (right; by eexists _, _, _, _).
Qed.

Lemma room_step_inv k r r' :
  room_inv r -> nextID r + Z.of_nat k < 2 ^ 64 -> room_step k r r' ->
  room_inv r' /\ nextID r' <= nextID r + Z.of_nat k.
Proof.
  intros HI Hn HS. split.
  - destruct HS; [apply AddPeer_inv; [done|lia]|by apply RemovePeer_inv|by apply EvictPubkey_inv
                 |by apply BroadcastFrame_inv|by apply End_inv].
  - destruct (room_step_shrinks k r r' HI HS) as [(pk & v & snk & -> & ->)|(-> & _ & -> & _)]; [|lia].
    destruct (AddPeer_result r pk v snk HI) as [[e ->]|(s & p & ros & r' & -> & HA)]; [cbn; lia|].
    rewrite HA. apply AddPeer_Ok in HA as (idx & _ & _ & _ & _ & _ & _ & _ & -> & _); [|done].
    cbn [fst nextID]. pose proof (ri_next r HI). rewrite wrap_small; lia.
Qed.

Lemma room_run_inv r n r' :
  room_inv r -> nextID r + Z.of_nat n < 2 ^ 64 -> room_run r n r' ->
  room_inv r' /\ nextID r' <= nextID r + Z.of_nat n.
Proof.
  intros HI Hn HR. induction HR as [|n r1 k r2 HR IH HS]; [split; [done|lia]|].
  destruct IH as [HI1 HN1]; [lia|].
  destruct (room_step_inv k r1 r2 HI1 ltac:(lia) HS). split; [done|lia].
Qed.

(** Over a run, an index's epoch counts its assignments, and its holder
    changes only by one. *)
Lemma room_run_epoch r n r' i :
  0 <= i -> room_inv r -> nextID r + Z.of_nat n < 2 ^ 64 -> room_run r n r' ->
  exists a, 0 <= a <= Z.of_nat n /\ epochs r' !!! Z.to_nat i = u8 (epochs r !!! Z.to_nat i + a) /\
    (a = 0 -> forall id, byIndex r' !! i = Some id -> byIndex r !! i = Some id).
Proof.
  intros Hi HI Hn HR. induction HR as [|n r1 k r2 HR IH HS].
  { exists 0. split; [lia|]. split; [|done]. rewrite wrap_small; pose proof (ri_epoch r HI (Z.to_nat i)); lia. }
  destruct IH as (a & Ha & HE & HB); [lia|].
  destruct (room_run_inv r n r1 HI ltac:(lia) HR) as [HI1 _].
  destruct (room_step_shrinks k r1 r2 HI1 HS) as [(pk & v & snk & -> & ->)|(-> & He & _ & Hsub)].
  2: { exists a. rewrite He. split; [lia|]. split; [done|]. intros H0 id Hid.
       apply (HB H0). by apply (lookup_weaken _ _ _ _ Hid). }
  destruct (AddPeer_result r1 pk v snk HI1) as [[e ->]|(s & p & ros & r2 & -> & HA)].
  { exists a. split; [lia|done]. }
  rewrite HA. cbn [fst]. apply AddPeer_Ok in HA as (idx & Hfree & Hidx & _ & _ & _ & _ & _ & -> & _); [|done].
  cbn [epochs byIndex]. destruct (decide (idx = i)) as [->|Hne].
  - exists (a + 1). split; [lia|]. split; [|lia].
    rewrite list_lookup_total_insert_eq by (rewrite (ri_epochs r1 HI1); unfold IndexSpace; lia).
    rewrite HE. unfold u8, wrap. rewrite Zplus_mod_idemp_l. f_equal. lia.
  - exists a. split; [lia|]. rewrite lookup_insert_ne by done. split; [|done]. rewrite <- HE.
    by rewrite list_lookup_total_insert_ne by lia.
Qed.

(** ** Properties *)

(** every room reachable from a new one by fewer than 2^64 - 1 joins, in any
    interleaving of joins, leaves, evictions, broadcasts and an end, and for
    any order Go ranges over the peers in, keeps its registry consistent: at
    most MaxPeers peers; peers and routing indices in bijection, so two live
    peers never share an index; ids below nextID; each live peer's epoch the
    current one of its index; an ended or unpinned room empty. *)
Theorem room_reachable_inv (n : nat) (r : Room) (Hn : Z.of_nat n + 1 < 2 ^ 64) (HR : room_run New n r) :
  room_inv r /\
  forall i j p q, peers r !! i = Some p -> peers r !! j = Some q -> Index p = Index q -> i = j.
Proof.
  destruct (room_run_inv New n r New_inv ltac:(cbn [New nextID]; lia) HR) as [HI _]. split; [done|].
  intros i j p q Hp Hq HE. destruct (ri_peer r HI i p Hp) as (_ & _ & H1 & _).
  destruct (ri_peer r HI j q Hq) as (_ & _ & H2 & _). congruence.
Qed.

(** a stale frame is attributable: when the holder of an index changes
    within 255 joins, the new holder's epoch differs from the old one's, so
    the (index, epoch) prefix of a late frame of the departed peer cannot be
    taken for the new peer's. *)
Theorem index_reuse_distinguishable (m n : nat) (r r' : Room) (i j : PeerID) (p q : Peer)
    (Hm : Z.of_nat (m + n) + 1 < 2 ^ 64) (Hn : (n <= 255)%nat)
    (HR : room_run New m r) (HR' : room_run r n r')
    (Hp : peers r !! i = Some p) (Hq : peers r' !! j = Some q)
    (HI : Index p = Index q) (Hij : i <> j) :
  Epoch p <> Epoch q.
Proof.
  destruct (room_run_inv New m r New_inv ltac:(cbn [New nextID]; lia) HR) as [HIr HN]. cbn [New nextID] in HN.
  destruct (room_run_inv r n r' HIr ltac:(lia) HR') as [HIr' _].
  destruct (ri_peer r HIr i p Hp) as (_ & Hidx & Hbi & Hep & _).
  destruct (ri_peer r' HIr' j q Hq) as (_ & _ & Hbj & Heq & _).
  destruct (room_run_epoch r n r' (Index p) ltac:(lia) HIr ltac:(lia) HR') as (a & Ha & HE & HB).
  rewrite <- HI in Hbj, Heq. rewrite Hep, Heq, HE. pose proof (ri_epoch r HIr (Z.to_nat (Index p))) as He.
  assert (a <> 0) by (intros ->; specialize (HB eq_refl j Hbj); congruence).
  unfold u8, wrap. intros HX. dlia.
Qed.

(** A guest that joins and leaves [n] times. *)
Definition guest_visit (r : Room) : Room :=
  (RemovePeer (AddPeer r (bs "guest") 3 (Some 0%nat)).1 (nextID r)).1.

Lemma guest_run r m n r0 : room_run r0 m r -> room_run r0 (m + n) (Nat.iter n guest_visit r).
Proof.
  intros HR. induction n as [|n IH]; [by rewrite Nat.add_0_r|]. cbn [Nat.iter nat_rect].
  replace (m + Datatypes.S n)%nat with (m + n + 1 + 0)%nat by lia.
  eapply run_step; [|apply step_remove]. eapply run_step; [exact IH|apply step_add].
Qed.

End Delivery.

(** A room with one peer. *)
Definition host_room : Room := (AddPeer New (bs "host") 3 (Some 0%nat)).1.

Lemma host_run : room_run (S := ChannelSink) New 1 host_room.
Proof. change 1%nat with (0 + 1)%nat. eapply run_step; [apply run_nil|apply step_add]. Qed.

Lemma room_reachable_inv_witness : room_inv host_room /\ 
  forall i j p q, peers host_room !! i = Some p -> peers host_room !! j = Some q -> Index p = Index q -> i = j.
Proof. apply (room_reachable_inv (S := ChannelSink) 1); [done|apply host_run]. Defined.

(** After the host left, 254 visits bring the cursor back to its index. *)
Lemma index_reuse_distinguishable_witness :
  let r' := (AddPeer (Nat.iter 254 guest_visit (RemovePeer host_room 1).1) (bs "next") 3 (Some 1%nat)).1 in
  exists p q, peers host_room !! 1 = Some p /\ peers r' !! 256 = Some q /\ Index p = Index q /\ Epoch p <> Epoch q.
Proof.
  intros r'. exists (mkPeer 1 (bs "host") 0 1 0%nat 0), (mkPeer 256 (bs "next") 0 2 1%nat 0).
  split; [vm_compute; reflexivity|]. split; [vm_compute; reflexivity|]. split; [reflexivity|].
  apply (index_reuse_distinguishable (S := ChannelSink) 1 255 host_room r' 1 256);
    [lia|lia|apply host_run| |vm_compute; reflexivity|vm_compute; reflexivity|reflexivity|lia].
  - change 255%nat with (254 + 1)%nat. eapply run_step; [|apply step_add].
    change 254%nat with (0 + 0 + 254)%nat. apply guest_run.
    eapply run_step; [apply run_nil|apply step_remove].
Defined.
