(* ===== verification/HuddleFanout.v ===== *)
(** * huddle/room: admission, fan-out and eviction

    What AddPeer answers, whom BroadcastFrame reaches and whom EvictPubkey
    removes, for every order in which Go may range over the peers. *)

From S2P Require Import Prelude GoLib HuddleWire HuddleRoom HuddleRoomInv.

(** ** Admission *)

(** The first guard of AddPeer that refuses. *)
Definition refusal (r : Room) (v : Z) (snk : option SinkRef) : option RoomErr :=
  if negb (SupportedProtocolVersion v) then Some ErrBadVersion
  else if decide (snk = None) then Some ErrNoSink
  else if ended r then Some ErrRoomEnded
  else if (MaxPeers <=? Len r)%nat then Some ErrRoomFull
  else if negb (ProtocolVersion r =? 0) && negb (ProtocolVersion r =? v) then Some ErrUpgradeRequired
  else None.

Lemma AddPeer_refused r pubkey v snk e :
  room_inv r -> refusal r v snk = Some e -> AddPeer r pubkey v snk = (r, Err e).
Proof.
  intros HI. unfold refusal, AddPeer, Len, ProtocolVersion. destruct (SupportedProtocolVersion v); [|by intros [= ->]].
  cbn [negb]. destruct snk as [s|]; cbn; [|by intros [= ->]].
  repeat match goal with |- context [if ?c then _ else _] => destruct c end; congruence.
Qed.

Lemma AddPeer_admitted r pubkey v snk :
  room_inv r -> refusal r v snk = None ->
  exists s p ros r', snk = Some s /\ AddPeer r pubkey v snk = (r', Ok (p, ros)).
Proof.
  intros HI HR. destruct (AddPeer_result r pubkey v snk HI) as [[e He]|]; [|done]. exfalso. revert He HR.
  unfold refusal, AddPeer, Len, ProtocolVersion. destruct (allocate_total r HI) as (idx & -> & _).
  destruct (SupportedProtocolVersion v); [|done]. cbn [negb]. destruct snk as [s|]; cbn; [|done].
  repeat match goal with |- context [if ?c then _ else _] => destruct c end; congruence.
Qed.

(** AddPeer on a consistent room refuses with the first guard that
    applies, leaving the room unchanged, and otherwise admits: the peer gets
    the next id and an index nobody holds, the room is pinned to its version
    and the roster it is given lists exactly the earlier peers and itself. *)
Theorem AddPeer_outcome (r : Room) (pubkey : gostring) (v : Z) (snk : option SinkRef) (HI : room_inv r) :
  match refusal r v snk with
  | Some e => AddPeer r pubkey v snk = (r, Err e)
  | None =>
      exists s p ros r',
        snk = Some s /\ AddPeer r pubkey v snk = (r', Ok (p, ros)) /\
        p = mkPeer (nextID r) pubkey (Index p) (u8 (epochs r !!! Z.to_nat (Index p) + 1)) s 0 /\
        byIndex r !! Index p = None /\ 0 <= Index p < 255 /\
        peers r' = <[pID p := p]> (peers r) /\ Len r' = (Len r + 1)%nat /\
        ProtocolVersion r' = v /\
        Revision ros = u64 (revision r + 1) /\ Peers ros ≡ₚ info p :: Peers (rosterLocked r)
  end.
Proof.
  destruct (refusal r v snk) as [e|] eqn:ER; [by apply AddPeer_refused|].
  destruct (AddPeer_admitted r pubkey v snk HI ER) as (s & p & ros & r' & -> & HA).
  exists s, p, ros, r'. split; [done|]. split; [done|].
  apply AddPeer_Ok in HA as (idx & Hfree & Hidx & _ & _ & _ & _ & Hp & -> & ->); [|done].
  pose proof (fresh_id r (nextID r) HI (Z.le_refl _)) as Hfresh.
  assert (Index p = idx) as -> by (by rewrite Hp). assert (pID p = nextID r) as -> by (by rewrite Hp).
  split; [done|]. split; [done|]. split; [done|]. split; [done|]. split.
  - unfold Len. cbn [peers]. rewrite map_size_insert_None by done. lia.
  - split; [done|]. split; [done|]. unfold rosterLocked. cbn [peers Peers].
    change (info p) with ((fun kv : PeerID * Peer => info kv.2) (nextID r, p)).
    rewrite <- map_cons. apply Permutation_map, map_to_list_insert, Hfresh.
Qed.

Lemma AddPeer_outcome_witness :
  exists r' p ros, AddPeer host_room (bs "guest") 3 (Some 4%nat) = (r', Ok (p, ros)) /\ Len r' = 2%nat /\
    AddPeer host_room (bs "guest") 2 (Some 4%nat) = (host_room, Err ErrUpgradeRequired).
Proof.
  assert (HI : room_inv host_room).
  { apply (room_run_inv (S := ChannelSink) New 1); [apply New_inv|done|apply host_run]. }
  pose proof (AddPeer_outcome host_room (bs "guest") 3 (Some 4%nat) HI) as H1.
  pose proof (AddPeer_outcome host_room (bs "guest") 2 (Some 4%nat) HI) as H2.
  replace (refusal host_room 3 (Some 4%nat)) with (@None RoomErr) in H1 by (vm_compute; reflexivity).
  replace (refusal host_room 2 (Some 4%nat)) with (Some ErrUpgradeRequired) in H2 by (vm_compute; reflexivity).
  destruct H1 as (s & p & ros & r' & _ & HA & _ & _ & _ & _ & HL & _).
  exists r', p, ros. split; [exact HA|]. split; [rewrite HL; vm_compute; reflexivity|exact H2].
Defined.

Section Fanout.
Context {S : Type} `{!Sink S}.

Abbreviation sinks := (gmap SinkRef S).

(** No two peers share a sink. *)
Definition sinks_distinct (r : Room) : Prop :=
  forall i j p q, peers r !! i = Some p -> peers r !! j = Some q -> sink p = sink q -> i = j.

(** ** Broadcast *)

(** Whether the peer's sink accepts the frame, and the peer afterwards. *)
Definition hears (ss : sinks) (f : Frame) (p : Peer) : bool :=
  match ss !! sink p with Some s => (SendFrame s f).2 | None => false end.

Definition after_frame (ss : sinks) (f : Frame) (p : Peer) : Peer :=
  if hears ss f p then p else set_dropped p (u64 (dropped p + 1)).

(** The recipients of the order whose sink refuses. *)
Definition refusing (r : Room) (ss : sinks) (author : PeerID) (f : Frame) (order : list PeerID) : list PeerID :=
  List.filter (fun id => negb (id =? author) &&
    match peers r !! id with Some p => negb (hears ss f p) | None => false end) order.

Record delivered (r : Room) (ss : sinks) (author : PeerID) (f : Frame) (order : list PeerID)
    (r' : Room) (ss' : sinks) : Prop := {
  dl_frame : r' = set_peers r (peers r');
  dl_peers : forall id, peers r' !! id =
    if decide (id ∈ order /\ id <> author) then after_frame ss f <$> peers r !! id else peers r !! id;
  dl_sent : forall id p, id ∈ order -> id <> author -> peers r !! id = Some p ->
    ss' !! sink p = (fun s => (SendFrame s f).1) <$> ss !! sink p;
  dl_other : forall ref, (forall id p, id ∈ order -> id <> author -> peers r !! id = Some p -> sink p <> ref) ->
    ss' !! ref = ss !! ref;
}.

Lemma send_frame_hears (ss : sinks) p f : (send_frame ss (sink p) f).2 = hears ss f p.
Proof. unfold send_frame, hears. destruct (ss !! sink p) as [s|]; [|done]. by destruct (SendFrame s f). Qed.

Lemma send_frame_lookup (ss : sinks) p f : (send_frame ss (sink p) f).1 !! sink p = (fun s => (SendFrame s f).1) <$> ss !! sink p.
Proof.
  unfold send_frame. destruct (ss !! sink p) as [s|] eqn:E; [|cbn; by rewrite E].
  destruct (SendFrame s f) as [s' ok] eqn:ES. cbn. by rewrite lookup_insert_eq, ES.
Qed.

Lemma send_frame_other (ss : sinks) p f ref : sink p <> ref -> (send_frame ss (sink p) f).1 !! ref = ss !! ref.
Proof.
  intros Hne. unfold send_frame. destruct (ss !! sink p) as [s|]; [|done].
  destruct (SendFrame s f). by apply lookup_insert_ne.
Qed.

(** One recipient, as a function of what its sink answers. *)
Lemma deliver_one_eq author f r (ss : sinks) n id p :
  id <> author -> peers r !! id = Some p ->
  deliver_one author f (r, ss, n) id
  = (set_peers r (<[id := after_frame ss f p]> (peers r)), (send_frame ss (sink p) f).1,
     n + if hears ss f p then 0 else 1).
Proof.
  intros Hid Hp. cbn. rewrite (proj2 (Z.eqb_neq _ _)) by done. rewrite Hp. unfold after_frame.
  rewrite <- send_frame_hears. destruct (send_frame ss (sink p) f) as [ss1 []]; cbn [fst snd]; f_equal.
  - rewrite insert_id by done. by destruct r.
  - lia.
Qed.

(** A peer that is the author or has left changes nothing. *)
Lemma deliver_skip author f r (ss : sinks) n x :
  x = author \/ peers r !! x = None -> deliver_one author f (r, ss, n) x = (r, ss, n).
Proof.
  intros Hx. cbn. destruct (Z.eqb_spec x author); [done|]. destruct Hx as [|Hx]; [done|]. by rewrite Hx.
Qed.

Lemma delivered_skip author f r (ss : sinks) x order r' ss' :
  x = author \/ peers r !! x = None ->
  delivered r ss author f order r' ss' -> delivered r ss author f (x :: order) r' ss'.
Proof.
  intros Hx [D1 D2 D3 D4]. split; [done| | |].
  - intros id. rewrite D2. destruct (decide (id = x)) as [->|Hne].
    + destruct Hx as [->|Hx]; [by rewrite !decide_False by tauto|]. rewrite Hx. by do 2 destruct (decide _).
    + apply decide_ext. rewrite elem_of_cons. tauto.
  - intros id q Hid Hne Hq. apply elem_of_cons in Hid as [->|Hid]; [destruct Hx; congruence|]. by apply (D3 id).
  - intros ref Href. apply D4. intros id q Hid. apply Href. by right.
Qed.

Lemma refusing_skip author f r (ss : sinks) x order :
  x = author \/ peers r !! x = None -> refusing r ss author f (x :: order) = refusing r ss author f order.
Proof.
  intros Hx. unfold refusing. cbn [List.filter]. destruct (Z.eqb_spec x author); [done|].
  destruct Hx as [|Hx]; [done|]. by rewrite Hx.
Qed.

Section Recipient.
Set Default Proof Using "All".
Context (author : PeerID) (f : Frame) (r : Room) (ss : sinks) (x : PeerID) (p : Peer) (order : list PeerID).
Hypotheses (Hxa : x <> author) (Hp : peers r !! x = Some p) (Hx : x ∉ order) (HSD : sinks_distinct r).

Let r1 : Room := set_peers r (<[x := after_frame ss f p]> (peers r)).
Let ss1 : sinks := (send_frame ss (sink p) f).1.

Lemma recipient_sink : sink (after_frame ss f p) = sink p.
Proof. unfold after_frame. by destruct (hears ss f p). Qed.

Lemma recipient_distinct : sinks_distinct r1.
Proof.
  assert (G : forall i q, peers r1 !! i = Some q -> exists q', peers r !! i = Some q' /\ sink q' = sink q).
  { intros i q Hq. cbn in Hq. apply lookup_insert_Some in Hq as [[<- <-]|[_ Hq]]; [exists p|by exists q].
    by rewrite recipient_sink. }
  intros i j q q' Hi Hj HE. destruct (G i q Hi) as (u & Hu & Eu). destruct (G j q' Hj) as (w & Hw & Ew).
  apply (HSD i j u w); congruence.
Qed.

(** The other recipients' sinks are as before. *)
Lemma recipient_other id q : id <> x -> peers r !! id = Some q -> ss1 !! sink q = ss !! sink q.
Proof. intros Hid Hq. apply send_frame_other. intros HE. apply Hid. by apply (HSD id x q p). Qed.

Lemma recipient_hears id q : id <> x -> peers r !! id = Some q -> hears ss1 f q = hears ss f q.
Proof. intros Hid Hq. unfold hears. by rewrite (recipient_other id q). Qed.

Lemma recipient_refusing :
  refusing r ss author f (x :: order) = (if hears ss f p then [] else [x]) ++ refusing r1 ss1 author f order.
Proof.
  unfold refusing. cbn [List.filter]. rewrite (proj2 (Z.eqb_neq _ _)) by done. rewrite Hp. cbn [negb andb].
  assert (List.filter (fun id => negb (id =? author) &&
      match peers r !! id with Some q => negb (hears ss f q) | None => false end) order
    = List.filter (fun id => negb (id =? author) &&
      match peers r1 !! id with Some q => negb (hears ss1 f q) | None => false end) order) as ->.
  { apply list_filter_ext. intros id Hid. assert (id <> x) by (by intros ->).
    cbn. rewrite lookup_insert_ne by done. destruct (peers r !! id) as [q|] eqn:Eq; [|done].
    by rewrite (recipient_hears id q). }
  by destruct (hears ss f p).
Qed.

Lemma recipient_delivered r' ss' :
  delivered r1 ss1 author f order r' ss' -> delivered r ss author f (x :: order) r' ss'.
Proof.
  intros [D1 D2 D3 D4]. split; [by rewrite D1| | |].
  - intros id. rewrite D2. cbn. destruct (decide (id = x)) as [->|Hne].
    + rewrite decide_False by tauto. rewrite decide_True by (split; [by left|done]).
      by rewrite lookup_insert_eq, Hp.
    + rewrite lookup_insert_ne by done.
      destruct (decide (id ∈ order /\ id <> author)) as [Hin|Hin].
      * rewrite decide_True by (rewrite elem_of_cons; tauto).
        destruct (peers r !! id) as [q|] eqn:Eq; [|done]. cbn. unfold after_frame.
        by rewrite (recipient_hears id q).
      * by rewrite decide_False by (rewrite elem_of_cons; tauto).
  - intros id q Hid Hne Hq. destruct (decide (id = x)) as [->|Hidx].
    + rewrite Hp in Hq. injection Hq as <-. rewrite D4; [apply send_frame_lookup|].
      intros id q Hid' _ Hq HE. assert (id <> x) by (by intros ->).
      cbn in Hq. rewrite lookup_insert_ne in Hq by done. by apply (HSD id x q p) in HE.
    + apply elem_of_cons in Hid as [?|Hid]; [done|].
      rewrite (D3 id q Hid Hne) by (cbn; by rewrite lookup_insert_ne). by rewrite (recipient_other id q).
  - intros ref Href. rewrite D4.
    + apply send_frame_other. apply (Href x p); [by left|done|done].
    + intros id q Hid Hne Hq. assert (id <> x) by (by intros ->). cbn in Hq. rewrite lookup_insert_ne in Hq by done.
      apply (Href id q); [by right|done|done].
Qed.

End Recipient.

Lemma deliver_loop author f order r (ss : sinks) n r' ss' n' :
  NoDup order -> sinks_distinct r -> foldl (deliver_one author f) (r, ss, n) order = (r', ss', n') ->
  delivered r ss author f order r' ss' /\ n' = n + zlen (refusing r ss author f order).
Proof.
  revert r ss n. induction order as [|x order IH]; intros r ss n HND HSD; cbn [foldl].
  { intros [= <- <- <-]. split; [|unfold zlen; cbn; lia]. split; [by destruct r| | |done].
    - intros id. rewrite decide_False; [done|]. intros [Hid _]. by apply not_elem_of_nil in Hid.
    - intros id p Hid. by apply not_elem_of_nil in Hid. }
  apply NoDup_cons in HND as [Hx HND].
  destruct (decide (x = author \/ peers r !! x = None)) as [Hsk|Hsk].
  - rewrite deliver_skip by done. intros HF. apply IH in HF as [HD ->]; [|done|done].
    rewrite refusing_skip by done. split; [by apply delivered_skip|done].
  - destruct (peers r !! x) as [p|] eqn:Hp; [|tauto]. assert (Hxa : x <> author) by tauto.
    rewrite (deliver_one_eq _ _ _ _ _ _ p) by done. intros HF.
    apply IH in HF as [HD ->]; [|done|by apply (recipient_distinct author f r ss x p order)].
    split; [by apply recipient_delivered in HD|].
    rewrite (recipient_refusing author f r ss x p order) by done. rewrite zlen_app. generalize (zlen (refusing (set_peers r (<[x:=after_frame ss f p]> (peers r))) (send_frame ss (sink p) f).1 author f order)). intros k. destruct (hears ss f p); unfold zlen; cbn [length]; lia.
Qed.


(** C34: a broadcast reaches every peer but its author, exactly once, and
    nobody else: each other peer's sink is handed the shared frame, whose
    relayed bytes parse back to the author's index, epoch (from version 3) and
    bytes; the author's own sink and every foreign sink stay as they were; a
    refusing peer's drop counter, and nobody else's, goes up by one, and the
    result counts exactly those.  A sender that is no longer registered is not
    relayed.  All of it whatever the order of the map. *)
Theorem BroadcastFrame_spec (order : list PeerID) (r : Room) (ss : sinks) (author : PeerID) (frame : list byte)
    (HI : room_inv r) (HSD : sinks_distinct r) (HO : peer_order r order) :
  let '(r', ss', n) := BroadcastFrame order r ss author frame in
  match peers r !! author with
  | None => r' = r /\ ss' = ss /\ n = 0
  | Some sender =>
      let f := delivery_of r sender frame in
      ParseRelayFrame (version r) (Relayed f)
        = (Index sender, if 3 <=? version r then Epoch sender else 0, frame, true) /\
      r' = set_peers r (peers r') /\
      peers r' !! author = Some sender /\ ss' !! sink sender = ss !! sink sender /\
      (forall id p, id <> author -> peers r !! id = Some p ->
         peers r' !! id = Some (after_frame ss f p) /\
         ss' !! sink p = (fun s => (SendFrame s f).1) <$> ss !! sink p) /\
      (forall ref, (forall id p, peers r !! id = Some p -> sink p <> ref) -> ss' !! ref = ss !! ref) /\
      n = zlen (refusing r ss author f (elements (dom (peers r))))
  end.
Proof.
  unfold peer_order in HO. unfold BroadcastFrame. destruct (peers r !! author) as [sender|] eqn:Ea; [|done].
  cbv zeta. destruct (foldl _ _ _) as [[r' ss'] n] eqn:EF.
  assert (HND : NoDup order) by (rewrite HO; apply NoDup_elements).
  assert (Hin : forall id p, peers r !! id = Some p -> id ∈ order).
  { intros id p Hid. rewrite HO. apply elem_of_elements, elem_of_dom. by eexists. }
  apply deliver_loop in EF as [[D1 D2 D3 D4] ->]; [|done|done].
  destruct (ri_peer r HI author sender Ea) as (_ & Hidx & _ & Hep & _).
  split. { cbn [delivery_of Relayed]. apply relay_frame_parse; [lia|]. rewrite Hep. apply HI. }
  split; [done|]. split. { rewrite D2, decide_False by tauto. done. }
  split. { apply D4. intros id p _ Hne Hp HE. by apply (HSD id author p sender) in HE. }
  split. { intros id p Hne Hp. split; [|apply (D3 id); [by apply (Hin id p)|done|done]].
           rewrite D2, decide_True by (split; [by apply (Hin id p)|done]). by rewrite Hp. }
  split. { intros ref Href. apply D4. intros id p _ _ Hp. by apply (Href id). }
  unfold refusing, zlen. rewrite Z.add_0_l. f_equal. by rewrite HO.
Qed.

(** ** Eviction *)

Definition targets (r : Room) (pubkey : gostring) (id : PeerID) : bool :=
  match peers r !! id with Some p => bool_decide (Pubkey p = pubkey) | None => false end.

(** The sink of an evicted peer: the message, when there is one, then the close. *)
Definition dismissed (message : gostring) (s : S) : S :=
  let s := if decide (message = []) then s else (SendControl s (mkControl message false)).1 in
  (SendControl s (mkControl [] true)).1.

Definition dismiss (ss : sinks) (message : gostring) (ref : SinkRef) : sinks :=
  let ss := if decide (message = []) then ss else (send_control ss ref (mkControl message false)).1 in
  (send_control ss ref (mkControl [] true)).1.

Lemma send_control_lookup (ss : sinks) ref c :
  (send_control ss ref c).1 = alter (fun s => (SendControl s c).1) ref ss.
Proof.
  apply map_eq. intros i. unfold send_control. destruct (ss !! ref) as [s|] eqn:E.
  - destruct (SendControl s c) as [s' ok] eqn:ES. cbn. destruct (decide (ref = i)) as [<-|Hne].
    + by rewrite lookup_insert_eq, lookup_alter_eq, E; cbn; rewrite ES.
    + by rewrite lookup_insert_ne, lookup_alter_ne.
  - cbn. destruct (decide (ref = i)) as [<-|Hne]; [by rewrite lookup_alter_eq, E|by rewrite lookup_alter_ne].
Qed.

Lemma dismiss_eq (ss : sinks) message ref : dismiss ss message ref = alter (dismissed message) ref ss.
Proof.
  unfold dismiss, dismissed. rewrite send_control_lookup. destruct (decide (message = [])); [done|].
  rewrite send_control_lookup. by rewrite alter_alter_eq.
Qed.

Lemma evict_one_eq pubkey message r (ss : sinks) n id p :
  peers r !! id = Some p ->
  evict_one pubkey message (r, ss, n) id =
  if targets r pubkey id then (unregister r id p, alter (dismissed message) (sink p) ss, n + 1) else (r, ss, n).
Proof.
  intros Hp. cbn. rewrite Hp. unfold targets. rewrite Hp. rewrite <- dismiss_eq.
  destruct (decide (Pubkey p = pubkey)) as [E|E]; [by rewrite bool_decide_true|by rewrite bool_decide_false].
Qed.

Record evicted (r : Room) (ss : sinks) (pubkey message : gostring) (order : list PeerID)
    (r' : Room) (ss' : sinks) : Prop := {
  ev_rest : r' = mkRoom (peers r') (byIndex r') (epochs r) (cursor r) (nextID r) (revision r) (version r) (ended r);
  ev_peers : forall id, peers r' !! id = if decide (id ∈ order /\ targets r pubkey id) then None else peers r !! id;
  ev_sent : forall id p, id ∈ order -> peers r !! id = Some p -> Pubkey p = pubkey ->
    ss' !! sink p = dismissed message <$> ss !! sink p;
  ev_other : forall ref, (forall id p, id ∈ order -> peers r !! id = Some p -> Pubkey p = pubkey -> sink p <> ref) ->
    ss' !! ref = ss !! ref;
}.

Lemma evict_skip r (ss : sinks) pubkey message x order r' ss' :
  targets r pubkey x = false ->
  evicted r ss pubkey message order r' ss' -> evicted r ss pubkey message (x :: order) r' ss'.
Proof.
  intros Hx [E1 E2 E3 E4].
  assert (G : forall p, peers r !! x = Some p -> Pubkey p <> pubkey).
  { intros p Hp HE. unfold targets in Hx. rewrite Hp, bool_decide_true in Hx by done. done. }
  split; [done| | |].
  - intros id. rewrite E2. apply decide_ext. rewrite elem_of_cons.
    destruct (decide (id = x)) as [->|]; [rewrite Hx; cbn; tauto|tauto].
  - intros id p Hid Hp HE. apply elem_of_cons in Hid as [->|Hid]; [by apply G in Hp|]. by apply (E3 id).
  - intros ref Href. apply E4. intros id p Hid. apply Href. by right.
Qed.

Lemma evict_step r (ss : sinks) pubkey message x p order r' ss' :
  x ∉ order -> peers r !! x = Some p -> targets r pubkey x = true -> sinks_distinct r ->
  evicted (unregister r x p) (alter (dismissed message) (sink p) ss) pubkey message order r' ss' ->
  evicted r ss pubkey message (x :: order) r' ss'.
Proof.
  intros Hx Hp Ht HSD [E1 E2 E3 E4]. cbn [unregister peers] in *.
  assert (HL : forall id, id ∈ order -> delete x (peers r) !! id = peers r !! id).
  { intros id Hid. apply lookup_delete_ne. by intros ->. }
  assert (HE : Pubkey p = pubkey) by (unfold targets in Ht; rewrite Hp in Ht; by apply bool_decide_eq_true in Ht).
  split; [by rewrite E1| | |].
  - intros id. rewrite E2. destruct (decide (id = x)) as [->|Hne].
    + rewrite decide_False by tauto. rewrite decide_True by (split; [by left|by rewrite Ht]). apply lookup_delete_eq.
    + rewrite lookup_delete_ne by done. apply decide_ext. rewrite elem_of_cons. unfold targets. cbn.
      rewrite lookup_delete_ne by done. tauto.
  - intros id q Hid Hq HqE. destruct (decide (id = x)) as [->|Hne].
    + rewrite Hp in Hq. injection Hq as <-. rewrite E4; [by rewrite lookup_alter_eq|].
      intros id' q Hid' Hq _ HS. rewrite HL in Hq by done. apply (HSD id' x q p) in HS; [|done|done]. by subst.
    + apply elem_of_cons in Hid as [?|Hid]; [done|]. rewrite (E3 id q); [|done|by rewrite HL|done].
      rewrite lookup_alter_ne; [done|]. intros HS. by apply (HSD x id p q) in HS.
  - intros ref Href. rewrite E4.
    + apply lookup_alter_ne. apply (Href x p); [by left|done|done].
    + intros id q Hid Hq. rewrite HL in Hq by done. apply (Href id q); [by right|done].
Qed.

Lemma evict_loop order r (ss : sinks) pubkey message n r' ss' n' :
  NoDup order -> sinks_distinct r -> foldl (evict_one pubkey message) (r, ss, n) order = (r', ss', n') ->
  evicted r ss pubkey message order r' ss' /\ n' = n + zlen (List.filter (targets r pubkey) order).
Proof.
  revert r ss n. induction order as [|x order IH]; intros r ss n HND HSD; cbn [foldl List.filter].
  { intros [= <- <- <-]. split; [|unfold zlen; cbn; lia]. split; [by destruct r| | |done].
    - intros id. rewrite decide_False; [done|]. intros [Hid _]. by apply not_elem_of_nil in Hid.
    - intros id p Hid. by apply not_elem_of_nil in Hid. }
  apply NoDup_cons in HND as [Hx HND]. destruct (targets r pubkey x) eqn:Ht.
  - pose proof Ht as Ht'. unfold targets in Ht'. destruct (peers r !! x) as [p|] eqn:Hp; [|done].
    rewrite (evict_one_eq _ _ _ _ _ _ p) by done. rewrite Ht. intros HF.
    apply IH in HF as [HD ->]; [|done|].
    + split; [by apply (evict_step r ss pubkey message x p)|].
      assert (List.filter (targets (unregister r x p) pubkey) order = List.filter (targets r pubkey) order) as ->.
      { apply list_filter_ext. intros id Hid. unfold targets. cbn.
        by rewrite lookup_delete_ne by (by intros ->). }
      rewrite zlen_cons. lia.
    + intros i j q q' Hq Hq'. cbn in Hq, Hq'. apply lookup_delete_Some in Hq as [_ Hq], Hq' as [_ Hq']. by apply (HSD i j).
  - assert (evict_one pubkey message (r, ss, n) x = (r, ss, n)) as ->.
    { destruct (peers r !! x) as [p|] eqn:Hp; [|cbn; by rewrite Hp].
      rewrite (evict_one_eq _ _ _ _ _ _ p) by done. by rewrite Ht. }
    intros HF. apply IH in HF as [HD ->]; [|done|done]. split; [by apply evict_skip|done].
Qed.

Lemma EvictPubkey_rest order r (ss : sinks) pubkey message r' ss' n :
  sinks_distinct r -> peer_order r order -> EvictPubkey order r ss pubkey message = (r', ss', n) ->
  peers r' = filter (fun kv => Pubkey kv.2 <> pubkey) (peers r) /\
  n = zlen (List.filter (targets r pubkey) (elements (dom (peers r)))) /\
  revision r' = (if 0 <? n then u64 (revision r + 1) else revision r) /\
  (forall id p, peers r !! id = Some p -> Pubkey p = pubkey ->
     ss' !! sink p = dismissed message <$> ss !! sink p) /\
  (forall ref, (forall id p, peers r !! id = Some p -> Pubkey p = pubkey -> sink p <> ref) ->
     ss' !! ref = ss !! ref).
Proof.
  intros HSD HO. unfold peer_order in HO. unfold EvictPubkey.
  destruct (foldl _ _ _) as [[r1 ss1] n1] eqn:EF. intros [= <- <- <-].
  assert (HND : NoDup order) by (rewrite HO; apply NoDup_elements).
  assert (Hin : forall id p, peers r !! id = Some p -> id ∈ order).
  { intros id p Hid. rewrite HO. apply elem_of_elements, elem_of_dom. by eexists. }
  apply evict_loop in EF as [[E1 E2 E3 E4] Hn]; [|done|done]. rewrite Z.add_0_l in Hn.
  split. { transitivity (peers r1); [by destruct (0 <? n1)|]. apply map_eq. intros id. rewrite E2.
    rewrite map_lookup_filter. destruct (peers r !! id) as [p|] eqn:Hp; cbn; [|by destruct (decide _)].
    unfold targets. rewrite Hp. destruct (decide (Pubkey p = pubkey)) as [HE|HE].
    - rewrite decide_True by (split; [by apply (Hin id p)|by apply bool_decide_pack]). by case_guard.
    - rewrite decide_False by (rewrite bool_decide_spec; tauto). by case_guard. }
  split. { rewrite Hn. unfold zlen. by rewrite HO. }
  split. { rewrite E1. by destruct (0 <? n1). }
  split. { intros id p Hp HE. by apply (E3 id p (Hin id p Hp)). }
  intros ref Href. apply E4. intros id p _ Hp HE. by apply (Href id p).
Qed.

(** revoking a pubkey removes exactly its peers: they are gone from the
    registry and their indices are free, every other peer stays, the revision
    moves iff somebody was removed and the count is right; each removed peer's
    sink got the message (when there is one) and then the close, and no other
    sink was touched. *)
Theorem EvictPubkey_spec (order : list PeerID) (r : Room) (ss : sinks) (pubkey message : gostring)
    (HI : room_inv r) (HSD : sinks_distinct r) (HO : peer_order r order) :
  let '(r', ss', n) := EvictPubkey order r ss pubkey message in
  room_inv r' /\
  peers r' = filter (fun kv => Pubkey kv.2 <> pubkey) (peers r) /\
  n = zlen (List.filter (targets r pubkey) (elements (dom (peers r)))) /\
  revision r' = (if 0 <? n then u64 (revision r + 1) else revision r) /\
  (forall id p, peers r !! id = Some p -> Pubkey p = pubkey ->
     byIndex r' !! Index p = None /\ ss' !! sink p = dismissed message <$> ss !! sink p) /\
  (forall ref, (forall id p, peers r !! id = Some p -> Pubkey p = pubkey -> sink p <> ref) ->
     ss' !! ref = ss !! ref).
Proof.
  pose proof (EvictPubkey_inv order r ss pubkey message HI) as HI'.
  destruct (EvictPubkey order r ss pubkey message) as [[r' ss'] n] eqn:EE. cbn in HI'.
  apply EvictPubkey_rest in EE as (H1 & H2 & H3 & H4 & H5); [|done|done].
  split_and!; try done. intros id p Hp HE. split; [|by apply (H4 id)].
  destruct (byIndex r' !! Index p) as [h|] eqn:Eh; [|done]. exfalso.
  destruct (ri_index r' HI' _ h Eh) as (q & Hq & HqI). rewrite H1 in Hq.
  apply map_lookup_filter_Some in Hq as [Hq HqE].
  destruct (ri_peer r HI h q Hq) as (_ & _ & B1 & _). destruct (ri_peer r HI id p Hp) as (_ & _ & B2 & _).
  cbn in HqE. rewrite HqI in B1. congruence.
Qed.

End Fanout.

(** ** Witnesses *)

(** Two peers, the second's audio queue full. *)
Definition pair_room : Room := (AddPeer host_room (bs "guest") 3 (Some 1%nat)).1.
Definition pair_sinks : gmap SinkRef ChannelSink :=
  {[ 0%nat := NewChannelSink; 1%nat := mkChannelSink [[x00]] 1 [] 1 ]}.

Lemma pair_inv : room_inv pair_room.
Proof.
  apply (room_run_inv (S := ChannelSink) New 2); [apply New_inv|done|].
  change 2%nat with (1 + 1)%nat. eapply run_step; [apply host_run|apply step_add].
Qed.

Lemma pair_peers : map_to_list (peers pair_room)
  = [(2, mkPeer 2 (bs "guest") 1 1 1%nat 0); (1, mkPeer 1 (bs "host") 0 1 0%nat 0)].
Proof. vm_compute. reflexivity. Qed.

Lemma pair_distinct : sinks_distinct pair_room.
Proof.
  assert (G : forall i p, peers pair_room !! i = Some p -> i = 1 + Z.of_nat (sink p)).
  { intros i p Hp. apply elem_of_map_to_list in Hp. rewrite pair_peers in Hp.
    rewrite !elem_of_cons in Hp. destruct Hp as [[= -> ->]|[[= -> ->]|Hp]]; [done|done|].
    by apply not_elem_of_nil in Hp. }
  intros i j p q Hp%G Hq%G HE. lia.
Qed.

Lemma pair_order : peer_order pair_room [1; 2].
Proof. unfold peer_order. vm_compute. apply perm_swap. Qed.

Lemma BroadcastFrame_spec_witness :
  let '(r', ss', n) := BroadcastFrame [1; 2] pair_room pair_sinks 1 [x01] in
  n = 1 /\ dropped <$> peers r' !! 2 = Some 1 /\ peers r' !! 1 = peers pair_room !! 1.
Proof.
  pose proof (BroadcastFrame_spec [1; 2] pair_room pair_sinks 1 [x01] pair_inv pair_distinct pair_order) as HB.
  destruct (BroadcastFrame _ _ _ _ _) as [[r' ss'] n].
  destruct (peers pair_room !! 1) as [sender|] eqn:E1; [|vm_compute in E1; discriminate].
  destruct HB as (_ & _ & HA & _ & HP & _ & Hn).
  destruct (HP 2 (mkPeer 2 (bs "guest") 1 1 1%nat 0) ltac:(done) ltac:(vm_compute; reflexivity)) as [H2 _].
  split; [|split].
  - rewrite Hn. vm_compute in E1. injection E1 as <-. vm_compute. reflexivity.
  - rewrite H2. vm_compute. reflexivity.
  - exact HA.
Defined.

Lemma EvictPubkey_spec_witness :
  let '(r', ss', n) := EvictPubkey [1; 2] pair_room pair_sinks (bs "guest") [] in
  n = 1 /\ Len r' = 1%nat /\ peers r' !! 2 = None.
Proof.
  pose proof (EvictPubkey_spec [1; 2] pair_room pair_sinks (bs "guest") [] pair_inv pair_distinct pair_order) as HB.
  destruct (EvictPubkey _ _ _ _ _) as [[r' ss'] n]. destruct HB as (_ & HP & Hn & _).
  unfold Len. rewrite HP, Hn. split; [|split]; vm_compute; reflexivity.
Defined.
