(* ===== verification/HuddleManager.v ===== *)
(** * huddle/room: the room manager

    [huddle/room/manager.go].  The manager maps room ids to [*Room]; callers
    keep the pointers Join gave them, so rooms live in a store and the map
    holds references into it.  A dropped room stays in the store, unreachable
    from the map.  Each method runs under the manager's mutex. *)

From S2P Require Import Prelude GoLib HuddleWire HuddleRoom HuddleRoomInv HuddleFanout.

Definition DefaultMaxRooms : Z := 256.

Inductive JoinErr := ErrTooManyRooms | JoinRefused (e : RoomErr).

Abbreviation RoomRef := nat (only parsing).

(** The manager, the store of rooms and the store's next reference. *)
Record Manager := mkManager {
  rooms : gmap gostring RoomRef;
  maxRooms : Z;
  heap : gmap RoomRef Room;
  fresh : RoomRef;
}.

Definition NewManager (maxRooms : Z) : Manager :=
  mkManager ∅ (if maxRooms <=? 0 then DefaultMaxRooms else maxRooms) ∅ 0.

(** Dereferencing; New for a reference outside the store, of which there is none. *)
Definition room_at (m : Manager) (ref : RoomRef) : Room := default New (heap m !! ref).

Definition put_room (m : Manager) (ref : RoomRef) (r : Room) : Manager :=
  mkManager (rooms m) (maxRooms m) (<[ref := r]> (heap m)) (fresh m).

Definition drop_id (m : Manager) (id : gostring) : Manager :=
  mkManager (delete id (rooms m)) (maxRooms m) (heap m) (fresh m).

(** [r = New(); m.rooms[id] = r] *)
Definition create_room (m : Manager) (id : gostring) : Manager * RoomRef :=
  (mkManager (<[id := fresh m]> (rooms m)) (maxRooms m) (<[fresh m := New]> (heap m)) (fresh m + 1)%nat, fresh m).

Definition Join (m : Manager) (id pubkey : gostring) (protocolVersion : Z) (snk : option SinkRef)
    : Manager * outcome JoinErr (RoomRef * Peer * Roster) :=
  let existed := bool_decide (is_Some (rooms m !! id)) in
  if negb existed && (maxRooms m <=? Z.of_nat (size (rooms m))) then (m, Err ErrTooManyRooms)
  else
    let '(m, ref) := match rooms m !! id with Some ref => (m, ref) | None => create_room m id end in
    let '(r, res) := AddPeer (room_at m ref) pubkey protocolVersion snk in
    let m := put_room m ref r in
    match res with
    | Ok (peer, roster) => (m, Ok (ref, peer, roster))
    | Err e => (if existed then m else drop_id m id, Err (JoinRefused e))
    | Panic => (m, Panic)
    end.

Definition Leave (m : Manager) (id : gostring) (peer : PeerID) : Manager * bool :=
  match rooms m !! id with
  | None => (m, false)
  | Some ref =>
      let '(r, removed) := RemovePeer (room_at m ref) peer in
      let m := put_room m ref r in
      (if (Len r =? 0)%nat then drop_id m id else m, bool_decide (is_Some removed))
  end.

Definition Get (m : Manager) (id : gostring) : option RoomRef := rooms m !! id.

Definition MLen (m : Manager) : nat := size (rooms m).

Definition Occupancy (m : Manager) : gmap gostring nat := (fun ref => Len (room_at m ref)) <$> rooms m.

Section Rooms.
Context {S : Type} `{!Sink S}.
Abbreviation sinks := (gmap SinkRef S).

(** The order in which Go ranges over a room's peers. *)
Context (ord : Room -> list PeerID).

(** One room of EvictPubkey's loop. *)
Definition evict_room (pubkey message : gostring) (acc : Manager * sinks * Z) (id : gostring)
    : Manager * sinks * Z :=
  let '(m, ss, total) := acc in
  match rooms m !! id with
  | None => acc
  | Some ref =>
      let '(r, ss, n) := EvictPubkey (ord (room_at m ref)) (room_at m ref) ss pubkey message in
      let m := put_room m ref r in
      if n =? 0 then (m, ss, total)
      else (if (Len r =? 0)%nat then drop_id m id else m, ss, total + n)
  end.

Definition MEvictPubkey (order : list gostring) (m : Manager) (ss : sinks) (pubkey message : gostring)
    : Manager * sinks * Z :=
  foldl (evict_room pubkey message) (m, ss, 0) order.

Definition MEnd (m : Manager) (ss : sinks) (id : gostring) : Manager * sinks * bool :=
  match rooms m !! id with
  | None => (m, ss, false)
  | Some ref =>
      let '(r, ss) := End_ (ord (room_at m ref)) (room_at m ref) ss in
      (drop_id (put_room m ref r) id, ss, true)
  end.

(** ** The manager's invariant *)

(** A room that is hosted: consistent, occupied, not ended; [n] bounds the
    joins so far. *)
Record hosted (n : nat) (r : Room) : Prop := {
  ho_inv : room_inv r;
  ho_occupied : peers r <> ∅;
  ho_open : ended r = false;
  ho_next : nextID r <= Z.of_nat n + 1;
}.

Record mgr_inv (n : nat) (m : Manager) : Prop := {
  mi_hosted : forall id ref, rooms m !! id = Some ref -> exists r, heap m !! ref = Some r /\ hosted n r;
  mi_inj : forall i j ref, rooms m !! i = Some ref -> rooms m !! j = Some ref -> i = j;
  mi_cap : Z.of_nat (size (rooms m)) <= maxRooms m;
  mi_fresh : forall ref, is_Some (heap m !! ref) -> (ref < fresh m)%nat;
}.

Lemma hosted_mono n k r : (n <= k)%nat -> hosted n r -> hosted k r.
Proof. intros Hk []. split; auto; lia. Qed.

Lemma mgr_inv_mono n k m : (n <= k)%nat -> mgr_inv n m -> mgr_inv k m.
Proof.
  intros Hk HM. split; try apply HM. intros id ref Hid.
  destruct (mi_hosted n m HM id ref Hid) as (r & Hr & Hh). exists r. split; [done|by apply (hosted_mono n)].
Qed.

Lemma room_at_hosted n m id ref : mgr_inv n m -> rooms m !! id = Some ref ->
  hosted n (room_at m ref) /\ heap m !! ref = Some (room_at m ref).
Proof.
  intros HM Hid. destruct (mi_hosted n m HM id ref Hid) as (r & Hr & Hh). unfold room_at. by rewrite Hr.
Qed.

Lemma NewManager_inv k : mgr_inv 0 (NewManager k).
Proof.
  split; cbn; try done.
  - rewrite map_size_empty. destruct (Z.leb_spec k 0); unfold DefaultMaxRooms; lia.
  - intros ref [? H]. by rewrite lookup_empty in H.
Qed.

Lemma put_room_inv n m id ref r :
  mgr_inv n m -> rooms m !! id = Some ref -> hosted n r -> mgr_inv n (put_room m ref r).
Proof.
  intros HM Hid Hr. split; cbn; try apply HM.
  - intros id' ref' Hid'. destruct (decide (ref = ref')) as [<-|Hne].
    + exists r. by rewrite lookup_insert_eq.
    + rewrite lookup_insert_ne by done. by apply (mi_hosted n m HM id').
  - intros ref' Hs. apply lookup_insert_is_Some in Hs as [<-|[_ Hs]]; [|by apply HM].
    apply HM. destruct (room_at_hosted n m id ref HM Hid) as [_ ->]. by eexists.
Qed.

Lemma drop_put_inv n m id ref r :
  mgr_inv n m -> rooms m !! id = Some ref -> mgr_inv n (drop_id (put_room m ref r) id).
Proof.
  intros HM Hid. split; cbn.
  - intros id' ref' Hid'. apply lookup_delete_Some in Hid' as [Hne Hid'].
    rewrite lookup_insert_ne; [by apply (mi_hosted n m HM id')|]. intros <-. by apply Hne, (mi_inj n m HM id id' ref).
  - intros i j ref' [_ Hi]%lookup_delete_Some [_ Hj]%lookup_delete_Some. by apply (mi_inj n m HM i j ref').
  - rewrite map_size_delete_Some by (by eexists). pose proof (mi_cap n m HM). lia.
  - intros ref' Hs. apply lookup_insert_is_Some in Hs as [<-|[_ Hs]]; [|by apply HM].
    apply HM. destruct (room_at_hosted n m id ref HM Hid) as [_ ->]. by eexists.
Qed.

(** AddPeer on a hosted or a new room. *)
Lemma AddPeer_hosted n r pubkey v snk r' p ros :
  Z.of_nat n + 2 < 2 ^ 64 -> room_inv r -> nextID r <= Z.of_nat n + 1 ->
  AddPeer r pubkey v snk = (r', Ok (p, ros)) -> hosted (n + 1) r'.
Proof.
  intros Hn HI Hnext HA. destruct snk as [s|]; [|revert HA; unfold AddPeer; by destruct (SupportedProtocolVersion v)].
  pose proof (AddPeer_inv r pubkey v (Some s) HI ltac:(lia)) as HI'. rewrite HA in HI'. cbn in HI'.
  apply AddPeer_Ok in HA as (idx & _ & _ & _ & HE & _ & _ & _ & -> & _); [|done].
  split; [done| |by cbn|].
  - cbn. apply insert_non_empty.
  - cbn [nextID]. pose proof (ri_next r HI). rewrite wrap_small; lia.
Qed.

Lemma put_same m ref r : heap m !! ref = Some r -> put_room m ref r = m.
Proof. intros Hr. unfold put_room. rewrite insert_id by done. by destruct m. Qed.

Lemma room_at_created rs k h f g : room_at (mkManager rs k (<[f := New]> h) g) f = New.
Proof. unfold room_at. cbn [heap]. by rewrite lookup_insert_eq. Qed.

Lemma create_room_inv n m id r :
  mgr_inv n m -> rooms m !! id = None -> Z.of_nat (size (rooms m)) < maxRooms m -> hosted n r ->
  mgr_inv n (put_room (create_room m id).1 (fresh m) r).
Proof.
  intros HM Hid Hsz Hr. split; cbn.
  - intros id' ref [[<- <-]|[Hne Hid']]%lookup_insert_Some.
    + exists r. by rewrite lookup_insert_eq.
    + destruct (mi_hosted n m HM id' ref Hid') as (q & Hq & Hh). exists q. split; [|done].
      pose proof (mi_fresh n m HM ref ltac:(by eexists)). by rewrite !lookup_insert_ne by lia.
  - intros i j ref Hi Hj.
    assert (G : forall k, rooms m !! k = Some (fresh m) -> False).
    { intros k Hk. destruct (mi_hosted n m HM k _ Hk) as (q & Hq & _).
      pose proof (mi_fresh n m HM (fresh m) ltac:(by eexists)). lia. }
    apply lookup_insert_Some in Hi as [[<- <-]|[Hni Hi]]; apply lookup_insert_Some in Hj as [[<- Hj]|[Hnj Hj]];
      try done; [by apply G in Hj|by subst; apply G in Hi|by apply (mi_inj n m HM i j ref)].
  - rewrite map_size_insert_None by done. lia.
  - intros ref Hs. rewrite !lookup_insert_is_Some in Hs. destruct Hs as [<-|[_ [<-|[_ Hs]]]]; [lia|lia|].
    pose proof (mi_fresh n m HM ref Hs). lia.
Qed.

Lemma Join_refused n m id pubkey v snk m' e :
  mgr_inv n m -> Join m id pubkey v snk = (m', Err e) ->
  rooms m' = rooms m /\ maxRooms m' = maxRooms m /\
  (forall ref, (ref < fresh m)%nat -> heap m' !! ref = heap m !! ref) /\
  (forall ref, is_Some (heap m' !! ref) -> (ref < fresh m')%nat).
Proof.
  intros HM. unfold Join. destruct (rooms m !! id) as [ref|] eqn:Hid.
  - rewrite bool_decide_true by (by eexists). cbn [negb andb].
    destruct (room_at_hosted n m id ref HM Hid) as [Hh Hr].
    destruct (AddPeer_result (room_at m ref) pubkey v snk (ho_inv _ _ Hh)) as [[e' ->]|(s & p & ros & r' & -> & ->)]; [|done].
    intros [= <- <-]. rewrite put_same by done. split_and!; try done. apply HM.
  - rewrite bool_decide_false by (by apply is_Some_None). cbn [negb andb].
    destruct (Z.leb_spec (maxRooms m) (Z.of_nat (size (rooms m)))).
    { intros [= <- <-]. split_and!; try done. apply HM. }
    cbn [create_room]. rewrite room_at_created.
    destruct (AddPeer_result New pubkey v snk New_inv) as [[e' ->]|(s & p & ros & r' & -> & ->)]; [|done].
    intros [= <- <-]. cbn. split; [by apply delete_insert_id|]. split; [done|]. split.
    + intros ref Href. by rewrite !lookup_insert_ne by lia.
    + intros ref Hs. rewrite !lookup_insert_is_Some in Hs. destruct Hs as [<-|[_ [<-|[_ Hs]]]]; [lia|lia|].
      pose proof (mi_fresh n m HM ref Hs). lia.
Qed.

Lemma Join_inv n m id pubkey v snk :
  Z.of_nat n + 2 < 2 ^ 64 -> mgr_inv n m -> mgr_inv (n + 1) (Join m id pubkey v snk).1.
Proof.
  intros Hn HM. destruct (Join m id pubkey v snk) as [m' res] eqn:EJ. cbn [fst]. destruct res as [x|e|].
  - revert EJ. unfold Join. destruct (rooms m !! id) as [ref|] eqn:Hid.
    + rewrite bool_decide_true by (by eexists). cbn [negb andb].
      destruct (room_at_hosted n m id ref HM Hid) as [Hh Hr].
      destruct (AddPeer _ pubkey v snk) as [r' [[p ros]|e|]] eqn:EA; [|done|done]. intros [= <- <-].
      apply (put_room_inv _ _ id); [by apply (mgr_inv_mono n); [lia|]|done|].
      apply (AddPeer_hosted n) in EA; [done|done|apply Hh|apply Hh].
    + rewrite bool_decide_false by (by apply is_Some_None). cbn [negb andb].
      destruct (Z.leb_spec (maxRooms m) (Z.of_nat (size (rooms m)))); [done|].
      destruct (create_room m id) as [m1 ref] eqn:EC. injection EC as Em1 <-.
      destruct (AddPeer (room_at m1 (fresh m)) pubkey v snk) as [r' [[p ros]|e|]] eqn:EA; [|done|done]. intros [= <- <-].
      rewrite <- Em1 in *. apply (create_room_inv (n + 1) m id r'); [by apply (mgr_inv_mono n); [lia|]|done|done|].
      rewrite room_at_created in EA.
      apply (AddPeer_hosted n) in EA; [done|done|apply New_inv|cbn; lia].
  - apply Join_refused with (n := n) in EJ as (HR & HX & HH & HF); [|done]. split.
    + intros i ref Hi. rewrite HR in Hi. destruct (mi_hosted n m HM i ref Hi) as (r & Hr & Hh).
      exists r. rewrite HH by (apply HM; by eexists). split; [done|]. by apply (hosted_mono n); [lia|].
    + rewrite HR. apply HM.
    + rewrite HR, HX. apply HM.
    + done.
  - exfalso. revert EJ. unfold Join. case_match; [done|].
    destruct (match rooms m !! id with Some ref => (m, ref) | None => create_room m id end) as [m1 ref] eqn:E1.
    assert (HI : room_inv (room_at m1 ref)).
    { destruct (rooms m !! id) as [ref'|] eqn:Hid.
      - injection E1 as <- <-. by apply (room_at_hosted n m id).
      - unfold create_room in E1. injection E1 as <- <-. rewrite room_at_created. apply New_inv. }
    by destruct (AddPeer_result (room_at m1 ref) pubkey v snk HI) as [[e ->]|(s & p & ros & r' & -> & ->)].
Qed.

(** Storing a room back, and dropping it if it is empty. *)
Lemma settle_inv n m id ref r :
  mgr_inv n m -> rooms m !! id = Some ref -> room_inv r -> ended r = false -> nextID r <= Z.of_nat n + 1 ->
  mgr_inv n (if (Len r =? 0)%nat then drop_id (put_room m ref r) id else put_room m ref r).
Proof.
  intros HM Hid HI HE HN. destruct (Nat.eqb_spec (Len r) 0) as [HL|HL]; [by apply drop_put_inv|].
  apply (put_room_inv n m id); [done|done|]. split; auto. intros Hp. apply HL. unfold Len. by rewrite Hp, map_size_empty.
Qed.

Lemma Leave_inv n m id peer : mgr_inv n m -> mgr_inv n (Leave m id peer).1.
Proof.
  intros HM. unfold Leave. destruct (rooms m !! id) as [ref|] eqn:Hid; [|done].
  destruct (room_at_hosted n m id ref HM Hid) as [Hh _]. pose proof (RemovePeer_inv _ peer (ho_inv _ _ Hh)) as HI.
  assert (HF : ended (RemovePeer (room_at m ref) peer).1 = false /\
               nextID (RemovePeer (room_at m ref) peer).1 = nextID (room_at m ref)).
  { unfold RemovePeer. destruct (peers _ !! peer); split; try done; apply Hh. }
  destruct (RemovePeer (room_at m ref) peer) as [r removed]. cbn [fst] in *. destruct HF as [HE HN].
  apply settle_inv; try done. rewrite HN. apply Hh.
Qed.

(** What an eviction leaves alone; a count of zero means nothing changed. *)
Lemma EvictPubkey_frame order r (ss : sinks) pubkey message r' ss' n :
  EvictPubkey order r ss pubkey message = (r', ss', n) ->
  ended r' = ended r /\ nextID r' = nextID r /\ (n = 0 -> r' = r).
Proof.
  unfold EvictPubkey. destruct (foldl _ _ _) as [[r1 ss1] n1] eqn:EF. intros [= <- <- <-].
  assert (G : ended r1 = ended r /\ nextID r1 = nextID r /\ 0 <= n1 /\ (n1 = 0 -> r1 = r)).
  { enough (G : (fun acc : Room * sinks * Z => ended acc.1.1 = ended r /\ nextID acc.1.1 = nextID r /\
             0 <= acc.2 /\ (acc.2 = 0 -> acc.1.1 = r)) (r1, ss1, n1)) by exact G.
    rewrite <- EF. apply foldl_inv; [|done].
    intros [[r2 ss2] n2] id (H1 & H2 & H3 & H4). cbn in *. destruct (peers r2 !! id) as [p|]; [|done].
    destruct (decide _); [|done]. cbn. split_and!; auto; lia. }
  destruct G as (G1 & G2 & G3 & G4). destruct (Z.ltb_spec 0 n1); cbn; split_and!; auto; lia.
Qed.

Lemma evict_room_inv n pubkey message (acc : Manager * sinks * Z) id :
  mgr_inv n acc.1.1 -> mgr_inv n (evict_room pubkey message acc id).1.1.
Proof.
  destruct acc as [[m ss] total]. cbn [fst]. intros HM. unfold evict_room.
  destruct (rooms m !! id) as [ref|] eqn:Hid; [|done].
  destruct (room_at_hosted n m id ref HM Hid) as [Hh Hr].
  pose proof (EvictPubkey_inv (ord (room_at m ref)) _ ss pubkey message (ho_inv _ _ Hh)) as HI.
  destruct (EvictPubkey _ _ _ _ _) as [[r ss'] k] eqn:EE. cbn [fst] in HI.
  apply EvictPubkey_frame in EE as (HE & HN & HZ).
  destruct (Z.eqb_spec k 0) as [Hk|Hk]; cbn [fst]; [by rewrite (HZ Hk), put_same|].
  apply settle_inv; try done; [rewrite HE; apply Hh|rewrite HN; apply Hh].
Qed.

Lemma MEvictPubkey_inv n order m (ss : sinks) pubkey message :
  mgr_inv n m -> mgr_inv n (MEvictPubkey order m ss pubkey message).1.1.
Proof.
  intros HM. apply (foldl_inv (fun acc : Manager * sinks * Z => mgr_inv n acc.1.1)); [|done].
  apply evict_room_inv.
Qed.

Lemma MEnd_inv n m (ss : sinks) id : mgr_inv n m -> mgr_inv n (MEnd m ss id).1.1.
Proof.
  intros HM. unfold MEnd. destruct (rooms m !! id) as [ref|] eqn:Hid; [|done].
  destruct (End_ _ _ _) as [r ss']. by apply drop_put_inv.
Qed.

(** ** Runs of the manager *)

Inductive mgr_run (m : Manager) : nat -> Manager -> Prop :=
  | mrun_nil : mgr_run m 0 m
  | mrun_join n m1 id pubkey v snk : mgr_run m n m1 -> mgr_run m (n + 1) (Join m1 id pubkey v snk).1
  | mrun_leave n m1 id peer : mgr_run m n m1 -> mgr_run m n (Leave m1 id peer).1
  | mrun_evict n m1 order (ss : sinks) pubkey message :
      mgr_run m n m1 -> mgr_run m n (MEvictPubkey order m1 ss pubkey message).1.1
  | mrun_end n m1 (ss : sinks) id : mgr_run m n m1 -> mgr_run m n (MEnd m1 ss id).1.1
  | mrun_frame n m1 id ref order (ss : sinks) author frame :
      mgr_run m n m1 -> rooms m1 !! id = Some ref ->
      mgr_run m n (put_room m1 ref (BroadcastFrame order (room_at m1 ref) ss author frame).1.1).

Lemma BroadcastFrame_hosted n order r (ss : sinks) author frame :
  hosted n r -> hosted n (BroadcastFrame order r ss author frame).1.1.
Proof.
  intros HH. unfold BroadcastFrame. destruct (peers r !! author) as [p|]; [|done].
  apply (foldl_inv (fun acc : Room * sinks * Z => hosted n acc.1.1)); [|done].
  intros [[r1 ss1] k] id H1. pose proof (deliver_one_inv author (delivery_of r p frame) (r1, ss1, k) id (ho_inv _ _ H1)) as HI.
  cbn [fst] in *. unfold deliver_one in *. destruct (id =? author); [done|].
  destruct (peers r1 !! id) as [q|] eqn:Hq; [|done]. destruct (send_frame _ _ _) as [ss' []]; [done|].
  cbn [fst] in *. split; [done| |apply H1|apply H1]. cbn. apply insert_non_empty.
Qed.

Lemma mgr_run_inv n k m : Z.of_nat n + 1 < 2 ^ 64 -> mgr_run (NewManager k) n m -> mgr_inv n m.
Proof.
  intros Hn HR. induction HR; [apply NewManager_inv|apply Join_inv; [lia|apply IHHR; lia]| | | |];
    specialize (IHHR Hn).
  - by apply Leave_inv.
  - by apply MEvictPubkey_inv.
  - by apply MEnd_inv.
  - apply (put_room_inv _ _ id); [done|done|]. apply BroadcastFrame_hosted. by apply (room_at_hosted n m1 id).
Qed.

(** C40: however joins, leaves, evictions, ends and broadcasts interleave, the
    manager hosts at most its cap of rooms, each one consistent, occupied and
    not ended, and no two ids share a room: an idle process holds none. *)
Theorem manager_reachable_inv (n : nat) (k : Z) (m : Manager)
    (Hn : Z.of_nat n + 1 < 2 ^ 64) (HR : mgr_run (NewManager k) n m) :
  Z.of_nat (MLen m) <= maxRooms m /\
  (forall i j ref, Get m i = Some ref -> Get m j = Some ref -> i = j) /\
  (forall id ref, Get m id = Some ref -> room_inv (room_at m ref) /\ Ended (room_at m ref) = false) /\
  (forall id len, Occupancy m !! id = Some len -> (1 <= len <= MaxPeers)%nat).
Proof.
  pose proof (mgr_run_inv n k m Hn HR) as HM. split; [apply HM|]. split; [apply HM|]. split.
  - intros id ref Hid. destruct (room_at_hosted n m id ref HM Hid) as [[] _]. done.
  - intros id len Hl. unfold Occupancy in Hl. apply lookup_fmap_Some in Hl as (ref & <- & Hid).
    destruct (room_at_hosted n m id ref HM Hid) as [[HI HO _ _] _]. split; [|apply HI].
    unfold Len. destruct (size (peers (room_at m ref))) eqn:E; [|lia]. by apply map_size_empty_inv in E.
Qed.

(** a refused join leaves nothing behind: the hosted rooms, and what is in
    them, are exactly those before, whether the room existed or had to be
    created; and a join is never refused for the cap when the room exists. *)
Theorem Join_refused_unchanged (n : nat) (k : Z) (m m' : Manager) (id pubkey : gostring) (v : Z)
    (snk : option SinkRef) (e : JoinErr)
    (Hn : Z.of_nat n + 1 < 2 ^ 64) (HR : mgr_run (NewManager k) n m)
    (HJ : Join m id pubkey v snk = (m', Err e)) :
  rooms m' = rooms m /\ Occupancy m' = Occupancy m /\
  (forall i ref, Get m i = Some ref -> room_at m' ref = room_at m ref) /\
  (e = ErrTooManyRooms -> Get m id = None /\ Z.of_nat (MLen m) = maxRooms m).
Proof.
  pose proof (mgr_run_inv n k m Hn HR) as HM.
  pose proof (Join_refused n m id pubkey v snk m' e HM HJ) as (HR' & HX & HH & _).
  assert (HA : forall i ref, Get m i = Some ref -> room_at m' ref = room_at m ref).
  { intros i ref Hi. destruct (mi_hosted n m HM i ref Hi) as (r & Hr & _). unfold room_at.
    by rewrite HH by (apply HM; by eexists). }
  split; [done|]. split; [|split; [done|]].
  - unfold Occupancy. rewrite HR'. apply map_eq. intros i. rewrite !lookup_fmap.
    destruct (rooms m !! i) as [ref|] eqn:Hi; [|done]. cbn. by rewrite (HA i).
  - intros ->. unfold Get. revert HJ. unfold Join. destruct (rooms m !! id) as [ref|] eqn:Hid.
    + rewrite bool_decide_true by (by eexists). cbn [negb andb]. by destruct (AddPeer _ _ _ _) as [? [[]| |]].
    + rewrite bool_decide_false by (by apply is_Some_None). cbn [negb andb].
      destruct (Z.leb_spec (maxRooms m) (Z.of_nat (size (rooms m)))) as [Hle|].
      * intros _. split; [done|]. pose proof (mi_cap n m HM). unfold MLen. lia.
      * cbn [create_room]. by destruct (AddPeer _ _ _ _) as [? [[]| |]].
Qed.

End Rooms.

(** ** Witnesses *)

Definition one_manager : Manager := (Join (NewManager 1) (bs "r") (bs "host") 3 (Some 0%nat)).1.

Lemma one_run ord : mgr_run (S := ChannelSink) ord (NewManager 1) 1 one_manager.
Proof. change 1%nat with (0 + 1)%nat. apply mrun_join, mrun_nil. Qed.

Lemma manager_reachable_inv_witness :
  Occupancy one_manager !! bs "r" = Some 1%nat /\ Z.of_nat (MLen one_manager) <= maxRooms one_manager.
Proof.
  split; [vm_compute; reflexivity|].
  by destruct (manager_reachable_inv (S := ChannelSink) (fun _ => []) 1 1 one_manager ltac:(lia) (one_run _)).
Defined.

Lemma Join_refused_unchanged_witness :
  exists m', Join one_manager (bs "other") (bs "guest") 3 (Some 1%nat) = (m', Err ErrTooManyRooms) /\
    rooms m' = rooms one_manager /\ Z.of_nat (MLen one_manager) = maxRooms one_manager.
Proof.
  exists one_manager.
  assert (HJ : Join one_manager (bs "other") (bs "guest") 3 (Some 1%nat) = (one_manager, Err ErrTooManyRooms))
    by (vm_compute; reflexivity).
  destruct (Join_refused_unchanged (S := ChannelSink) (fun _ => []) 1 1 one_manager one_manager
    (bs "other") (bs "guest") 3 (Some 1%nat) ErrTooManyRooms ltac:(lia) (one_run _) HJ) as (HR & _ & _ & HE).
  split; [exact HJ|]. split; [exact HR|]. by apply HE.
Defined.

(** a late Leave can remove a stranger.  PeerIDs restart at 1 in a
    re-created room and Leave looks the room up by id, so when a peer was
    evicted, its room dropped and re-created by another pubkey, the evicted
    peer's own Leave (the session calls it with the room id and its old
    PeerID) removes the other pubkey's peer and drops the room. *)
Theorem stale_leave_removes_stranger :
  let alice := bs "alice" in
  let bob := bs "bob" in
  let '(m1, res1) := Join (NewManager 0) (bs "r") alice 3 (Some 0%nat) in
  let '(m2, _, evicted) := MEvictPubkey (S := ChannelSink) (fun r => elements (dom (peers r))) [bs "r"] m1
                             {[ 0%nat := NewChannelSink ]} alice [] in
  let '(m3, res3) := Join m2 (bs "r") bob 3 (Some 1%nat) in
  let '(m4, removed) := Leave m3 (bs "r") 1 in
  (exists ref p ros, res1 = Ok (ref, p, ros) /\ pID p = 1 /\ Pubkey p = alice) /\ evicted = 1 /\
  (exists ref p ros, res3 = Ok (ref, p, ros) /\ pID p = 1 /\ Pubkey p = bob) /\
  Occupancy m3 !! bs "r" = Some 1%nat /\ removed = true /\ MLen m4 = 0%nat.
Proof.
  vm_compute. split; [by do 3 eexists|]. split; [done|]. split; [by do 3 eexists|]. done.
Qed.
