(* ===== verification/NostrUtils.v ===== *)
(** * utils: event and key helpers

    [utils/event.go] (kinds, tags, "a" coordinates, the canonical JSON of tags
    and content), [utils/keys.go] (hex keys) and the kind ranges of
    [nip16/treatment.go], [nip33/replaceable.go] and [nip09/deletion.go].  The
    file also shows that the canonical JSON determines what it was made of. *)

From S2P Require Import Prelude GoLib.

Inductive UtilErr :=
  | ErrKind | ErrSyntax | ErrTagEmpty | ErrTagNotFound | ErrTagNotUnique | ErrTagNoValue
  | ErrTagName | ErrTagValues | ErrATagLen | ErrNotReplaceable
  | ErrKeySize | ErrKeyHex | ErrKeyDecode | ErrKeyLength | ErrInvalidPrivateKey.

Abbreviation tag := (list gostring).
Abbreviation tags := (list tag).

(** ** Kinds *)

Definition IsReplaceableKind (kind : Z) : bool :=
  (kind =? 0) || (kind =? 3) || ((10000 <=? kind) && (kind <? 20000)).

Definition IsEphemeralKind (kind : Z) : bool := (20000 <=? kind) && (kind <? 30000).

Definition IsParamReplaceableKind (kind : Z) : bool := (30000 <=? kind) && (kind <? 40000).

Definition KindDeletion : Z := 5.
Definition IsDeletionKind (kind : Z) : bool := kind =? KindDeletion.

Definition ValidateKind (kind : Z) : outcome UtilErr unit :=
  if (kind <? 0) || (65535 <? kind) then Err ErrKind else Ok tt.

Definition ValidateStrKind (skind : gostring) : outcome UtilErr Z :=
  match Dec.atoi skind with
  | None => Err ErrSyntax
  | Some kind => if (kind <? 0) || (65535 <? kind) then Err ErrKind else Ok kind
  end.

(** ** Tags *)

(** [len(tag) > 0 && tag[0] == name] *)
Definition tag_is (name : gostring) (t : tag) : bool :=
  match t with x :: _ => bool_decide (x = name) | [] => false end.

Definition ValidateEventTags (ts : tags) : outcome UtilErr unit :=
  if existsb (fun t : tag => match t with [] => true | _ => false end) ts then Err ErrTagEmpty else Ok tt.

Definition LookupEventTag (ts : tags) (tagName : gostring) : option tags :=
  match List.filter (tag_is tagName) ts with
  | [] => None
  | result => Some result
  end.

(** The loop of FindUniqueEventTag; [found] is None for nil. *)
Fixpoint find_unique (found : option tag) (tagName : gostring) (ts : tags) : outcome UtilErr tag :=
  match ts with
  | [] => match found with Some t => Ok t | None => Err ErrTagNotFound end
  | t :: ts =>
      if tag_is tagName t then
        match found with Some _ => Err ErrTagNotUnique | None => find_unique (Some t) tagName ts end
      else find_unique found tagName ts
  end.

Definition FindUniqueEventTag (ts : tags) (tagName : gostring) : outcome UtilErr tag :=
  find_unique None tagName ts.

Definition FindUniqueEventTagValue (ts : tags) (tagName : gostring) : outcome UtilErr gostring :=
  t ← FindUniqueEventTag ts tagName;
  match t with
  | _ :: v :: _ => Ok v
  | _ => Err ErrTagNoValue
  end.

(** unicode.IsLetter on a rune below 256 (Latin-1). *)
Definition is_letter (c : byte) : bool :=
  let r := b2z c in
  ((65 <=? r) && (r <=? 90)) || ((97 <=? r) && (r <=? 122)) ||
  (r =? 0xaa) || (r =? 0xb5) || (r =? 0xba) ||
  ((0xc0 <=? r) && negb (r =? 0xd7) && negb (r =? 0xf7)).

Definition ValidateIndexableTag (name : gostring) : outcome UtilErr unit :=
  match name with
  | [c] => if is_letter c then Ok tt else Err ErrTagName
  | _ => Err ErrTagName
  end.

(** ** Keys *)

(** A hex digit of either case. *)
Definition is_hex (c : byte) : bool :=
  let c := b2z c in
  negb (((c <? 48) || (57 <? c)) && ((c <? 97) || (102 <? c)) && ((c <? 65) || (70 <? c))).

Definition Validate32Key (hexStr : gostring) : outcome UtilErr unit :=
  if negb (zlen hexStr =? 64) then Err ErrKeySize
  else if forallb is_hex hexStr then Ok tt else Err ErrKeyHex.

Definition ValidateFilterTag (name : gostring) (vals : list gostring) : outcome UtilErr unit :=
  match vals with
  | [] => Err ErrTagValues
  | v :: _ =>
      if decide (name = bs "e" \/ name = bs "p") then Validate32Key v
      else ValidateIndexableTag name
  end.

(** secp256k1's group order n, big-endian. *)
Definition curveOrder : list byte :=
  map z2b [0xff; 0xff; 0xff; 0xff; 0xff; 0xff; 0xff; 0xff; 0xff; 0xff; 0xff; 0xff; 0xff; 0xff; 0xff; 0xfe;
           0xba; 0xae; 0xdc; 0xe6; 0xaf; 0x48; 0xa0; 0x3b; 0xbf; 0xd2; 0x5e; 0x8c; 0xd0; 0x36; 0x41; 0x41].

(** ParsePrivateKeyHex up to the conversion into the curve library's key. *)
Definition ParsePrivateKeyHex (privKeyHex : gostring) : outcome UtilErr (list byte) :=
  match Hex.decode privKeyHex with
  | None => Err ErrKeyDecode
  | Some b =>
      if negb (zlen b =? 32) then Err ErrKeyLength
      else if negb (Cmp.ltb b curveOrder) || bool_decide (b = repeat x00 32) then Err ErrInvalidPrivateKey
      else Ok b
  end.

(** ** Coordinates *)

(** strings.Split on a one-byte separator. *)
Fixpoint split_on (sep : byte) (s : gostring) : list gostring :=
  match s with
  | [] => [[]]
  | c :: s =>
      if decide (c = sep) then [] :: split_on sep s
      else match split_on sep s with
           | [] => [[c]]
           | w :: ws => (c :: w) :: ws
           end
  end.

Definition colon : byte := x3a.

Definition ParseATag (s : gostring) : outcome UtilErr (Z * gostring * gostring) :=
  match split_on colon s with
  | [k; pubKey; d] =>
      match Dec.atoi k with
      | None => Err ErrSyntax
      | Some kind =>
          _ ← ValidateKind kind;
          _ ← ensure (IsReplaceableKind kind || IsParamReplaceableKind kind) ErrNotReplaceable;
          _ ← Validate32Key pubKey;
          Ok (kind, pubKey, d)
      end
  | _ => Err ErrATagLen
  end.

Definition FormatATag (kind : Z) (pubKey dValue : gostring) : outcome UtilErr gostring :=
  _ ← ValidateKind kind;
  _ ← ensure (IsReplaceableKind kind || IsParamReplaceableKind kind) ErrNotReplaceable;
  _ ← Validate32Key pubKey;
  Ok (Dec.itoa kind ++ colon :: pubKey ++ colon :: dValue).

(** ** Canonical JSON *)

Definition hexDigits : gostring := bs "0123456789abcdef".
Definition hexDigit (nibble : Z) : byte := hexDigits !!! Z.to_nat nibble.

Definition escape_byte (c : byte) : gostring :=
  match c with
  | x5c => [x5c; x5c]
  | x22 => [x5c; x22]
  | x0a => bs "\n"
  | x0d => bs "\r"
  | x09 => bs "\t"
  | x08 => bs "\b"
  | x0c => bs "\f"
  | _ => if b2z c <? 0x20
         then bs "\u00" ++ [hexDigit (Z.shiftr (b2z c) 4); hexDigit (Z.land (b2z c) 0xF)]
         else [c]
  end.

Definition EscapeJSONString (s : gostring) : gostring := concat (map escape_byte s).

(** [if i > 0 { buf.WriteByte(',') }] *)
Definition comma (i : nat) : gostring := if (0 <? i)%nat then [x2c] else [].

Fixpoint marshal_values (j : nat) (vs : tag) : gostring :=
  match vs with
  | [] => []
  | v :: vs => comma j ++ x22 :: EscapeJSONString v ++ x22 :: marshal_values (j + 1) vs
  end.

Fixpoint marshal_tags (i : nat) (ts : tags) : gostring :=
  match ts with
  | [] => []
  | t :: ts => comma i ++ x5b :: marshal_values 0 t ++ x5d :: marshal_tags (i + 1) ts
  end.

Definition MarshalTags (ts : tags) : gostring := x5b :: marshal_tags 0 ts ++ [x5d].

(** The canonical pre-image [[0,"<pubkey>",<created_at>,<kind>,<tags>,"<content>"]];
    nip01.Event.Serialize and nip13.hashID both spell it out. *)
Definition preimage `{!GoLower} (pubKey : gostring) (createdAt kind : Z) (ts : tags) (content : gostring) : gostring :=
  bs "[0," ++ x22 :: ToLower pubKey ++ x22 :: x2c :: Dec.format_uint createdAt ++ x2c :: Dec.itoa kind ++ x2c ::
  MarshalTags ts ++ x2c :: x22 :: EscapeJSONString content ++ [x22; x5d].

(** ** What the canonical JSON was made of *)

(** Reading one escaped byte back. *)
Definition unescape1 (s : gostring) : option (byte * gostring) :=
  match s with
  | x5c :: x75 :: x30 :: x30 :: a :: b :: r =>
      match Hex.from_char a, Hex.from_char b with
      | Some a, Some b => Some (z2b (16 * a + b), r)
      | _, _ => None
      end
  | x5c :: x5c :: r => Some (x5c, r)
  | x5c :: x22 :: r => Some (x22, r)
  | x5c :: x6e :: r => Some (x0a, r)
  | x5c :: x72 :: r => Some (x0d, r)
  | x5c :: x74 :: r => Some (x09, r)
  | x5c :: x62 :: r => Some (x08, r)
  | x5c :: x66 :: r => Some (x0c, r)
  | x22 :: _ => None
  | c :: r => Some (c, r)
  | [] => None
  end.

Lemma unescape1_escape c r : unescape1 (escape_byte c ++ r) = Some (c, r).
Proof. destruct c; reflexivity. Qed.

(** An escaped string followed by its closing quote can be split in one way
    only. *)
Lemma escape_split s1 s2 r1 r2 :
  EscapeJSONString s1 ++ x22 :: r1 = EscapeJSONString s2 ++ x22 :: r2 -> s1 = s2 /\ r1 = r2.
Proof.
  unfold EscapeJSONString. revert s2.
  induction s1 as [|c1 s1 IH]; intros [|c2 s2]; cbn [map concat app]; rewrite <- ?app_assoc; intros HE.
  - by injection HE.
  - apply (f_equal unescape1) in HE. by rewrite unescape1_escape in HE.
  - apply (f_equal unescape1) in HE. by rewrite unescape1_escape in HE.
  - apply (f_equal unescape1) in HE. rewrite !unescape1_escape in HE. injection HE as -> HE.
    by apply IH in HE as [-> ->].
Qed.

Lemma marshal_values_split j vs1 vs2 r1 r2 :
  marshal_values j vs1 ++ x5d :: r1 = marshal_values j vs2 ++ x5d :: r2 -> vs1 = vs2 /\ r1 = r2.
Proof.
  revert j vs2. induction vs1 as [|v1 vs1 IH]; intros j [|v2 vs2]; cbn [marshal_values app].
  - by intros [= ->].
  - by destruct j.
  - by destruct j.
  - rewrite <- !app_assoc. intros HE. apply app_inv_head in HE. cbn [app] in HE. injection HE as HE.
    rewrite <- !app_assoc in HE. cbn [app] in HE. apply escape_split in HE as [-> HE].
    by apply IH in HE as [-> ->].
Qed.

Lemma marshal_tags_split i ts1 ts2 r1 r2 :
  marshal_tags i ts1 ++ x5d :: r1 = marshal_tags i ts2 ++ x5d :: r2 -> ts1 = ts2 /\ r1 = r2.
Proof.
  revert i ts2. induction ts1 as [|t1 ts1 IH]; intros i [|t2 ts2]; cbn [marshal_tags app].
  - by intros [= ->].
  - by destruct i.
  - by destruct i.
  - rewrite <- !app_assoc. intros HE. apply app_inv_head in HE. cbn [app] in HE. injection HE as HE.
    rewrite <- !app_assoc in HE. cbn [app] in HE. apply marshal_values_split in HE as [-> HE].
    by apply IH in HE as [-> ->].
Qed.

(** Splitting at the first occurrence of a separator. *)
Lemma sep_split {A} (sep : A) (l1 l2 r1 r2 : list A) :
  sep ∉ l1 -> sep ∉ l2 -> l1 ++ sep :: r1 = l2 ++ sep :: r2 -> l1 = l2 /\ r1 = r2.
Proof.
  revert l2. induction l1 as [|a l1 IH]; intros [|b l2] H1 H2; cbn [app]; intros HE.
  - by injection HE.
  - injection HE as -> _. by destruct H2; left.
  - injection HE as -> _. by destruct H1; left.
  - injection HE as -> HE. apply not_elem_of_cons in H1 as [_ H1], H2 as [_ H2].
    by apply IH in HE as [-> ->].
Qed.

Lemma digits_no c l : Forall (fun d => Dec.is_digit d = true) l -> Dec.is_digit c = false -> c ∉ l.
Proof. intros HF Hc Hin. rewrite Forall_forall in HF. apply HF in Hin. congruence. Qed.

Lemma format_uint_inj a b : 0 <= a -> 0 <= b -> Dec.format_uint a = Dec.format_uint b -> a = b.
Proof. intros Ha Hb HE. apply (f_equal Dec.parse_digits) in HE. rewrite !Dec.parse_format_uint in HE by done. congruence. Qed.

Lemma itoa_no_comma z : x2c ∉ Dec.itoa z.
Proof.
  unfold Dec.itoa. destruct (z <? 0); rewrite ?not_elem_of_cons; try split; try done;
    (apply digits_no; [apply Dec.format_uint_digits|reflexivity]).
Qed.

(** ** Kinds and keys *)

Lemma ValidateKind_ok kind : ValidateKind kind = Ok tt <-> 0 <= kind <= 65535.
Proof. unfold ValidateKind. destruct (Z.ltb_spec kind 0), (Z.ltb_spec 65535 kind); cbn; split; (done || lia). Qed.

Lemma is_hex_from_char c : is_hex c = true <-> is_Some (Hex.from_char c).
Proof. destruct c; vm_compute; split; (done || by eexists || by intros [? [=]]). Qed.

Lemma is_hex_lower c : is_hex c = true -> b2z c < 128 /\ lower_byte c <> x22.
Proof. destruct c; vm_compute; done. Qed.

Lemma Validate32Key_ok s :
  Validate32Key s = Ok tt <-> zlen s = 64 /\ Forall (fun c => is_hex c = true) s.
Proof.
  unfold Validate32Key. destruct (Z.eqb_spec (zlen s) 64); cbn [negb]; [|split; [done|tauto]].
  destruct (forallb is_hex s) eqn:E.
  - split; [|done]. intros _. split; [done|]. apply Forall_forall. intros c Hc. rewrite forallb_forall in E.
    by apply E, list_elem_of_In.
  - split; [done|]. intros [_ HF]. rewrite Forall_forall in HF. assert (forallb is_hex s = true); [|congruence].
    apply forallb_forall. intros c Hc. by apply HF, list_elem_of_In.
Qed.

Lemma Validate32Key_lower `{!GoLower} s :
  Validate32Key s = Ok tt -> ToLower s = map lower_byte s /\ x22 ∉ ToLower s.
Proof.
  rewrite Validate32Key_ok. intros [_ HF].
  assert (HA : ToLower s = map lower_byte s).
  { apply ToLower_ascii. eapply Forall_impl; [exact HF|]. intros c Hc. by apply is_hex_lower. }
  split; [done|]. rewrite HA. intros Hin. apply list_elem_of_In, in_map_iff in Hin as (c & HE & Hc).
  rewrite Forall_forall in HF. apply list_elem_of_In, HF, is_hex_lower in Hc as [_ Hc]. done.
Qed.

(** A valid key decodes to 32 bytes. *)
Lemma hex_decodes s : (Nat.Even (length s)) -> Forall (fun c => is_hex c = true) s -> is_Some (Hex.decode s).
Proof.
  intros [k Hk]. revert s Hk. induction k as [|k IH]; intros s Hk HF.
  { destruct s; [by eexists|cbn in Hk; lia]. }
  destruct s as [|a [|b s]]; [cbn in Hk; lia..|]. cbn in Hk. inversion HF as [|? ? Ha HF']; subst.
  inversion HF' as [|? ? Hb HF'']; subst. apply is_hex_from_char in Ha as [x Hx], Hb as [y Hy].
  cbn [Hex.decode]. rewrite Hx, Hy. destruct (IH s ltac:(lia) HF'') as [l ->]. by eexists.
Qed.

Lemma Validate32Key_decodes s : Validate32Key s = Ok tt -> exists b, Hex.decode s = Some b /\ length b = 32%nat.
Proof.
  rewrite Validate32Key_ok. intros [Hl HF]. unfold zlen in Hl.
  destruct (hex_decodes s) as [b Hb]; [exists 32%nat; lia|done|]. exists b. split; [done|].
  apply Hex.decode_length in Hb. lia.
Qed.

(** The canonical pre-image, for keys without a quote. *)
Lemma preimage_split `{!GoLower} pk1 pk2 c1 c2 k1 k2 ts1 ts2 s1 s2 :
  x22 ∉ ToLower pk1 -> x22 ∉ ToLower pk2 -> 0 <= c1 < 2 ^ 64 -> 0 <= c2 < 2 ^ 64 ->
  - 2 ^ 63 <= k1 < 2 ^ 63 -> - 2 ^ 63 <= k2 < 2 ^ 63 ->
  preimage pk1 c1 k1 ts1 s1 = preimage pk2 c2 k2 ts2 s2 ->
  ToLower pk1 = ToLower pk2 /\ c1 = c2 /\ k1 = k2 /\ ts1 = ts2 /\ s1 = s2.
Proof.
  intros Hp1 Hp2 Hc1 Hc2 Hk1 Hk2 HE. unfold preimage in HE.
  apply app_inv_head in HE. injection HE as HE.
  apply sep_split in HE as [Hpk HE]; [|done|done]. injection HE as HE.
  apply sep_split in HE as [Hc HE]; [|apply digits_no; [apply Dec.format_uint_digits|done]..].
  apply format_uint_inj in Hc; [|lia|lia].
  apply sep_split in HE as [Hk HE]; [|apply itoa_no_comma..].
  assert (k1 = k2) by (apply (f_equal Dec.atoi) in Hk; rewrite !Dec.atoi_itoa in Hk by done; congruence).
  unfold MarshalTags in HE. cbn [app] in HE. injection HE as HE. rewrite <- !app_assoc in HE. cbn [app] in HE.
  apply marshal_tags_split in HE as [Hts HE]. injection HE as HE.
  apply escape_split in HE as [Hs _]. done.
Qed.

(** ** Splitting *)

Lemma split_on_app sep l r : sep ∉ l -> split_on sep (l ++ sep :: r) = l :: split_on sep r.
Proof.
  induction l as [|c l IH]; intros Hl; cbn [app split_on]; [by rewrite decide_True|].
  apply not_elem_of_cons in Hl as [Hc Hl]. rewrite decide_False by done. by rewrite (IH Hl).
Qed.

Lemma split_on_none sep l : sep ∉ l -> split_on sep l = [l].
Proof.
  induction l as [|c l IH]; intros Hl; cbn [split_on]; [done|].
  apply not_elem_of_cons in Hl as [Hc Hl]. rewrite decide_False by done. by rewrite (IH Hl).
Qed.

Lemma split_on_some sep l : sep ∈ l -> exists a b r, split_on sep l = a :: b :: r.
Proof.
  intros Hl. destruct (list_elem_of_split_l l sep Hl) as (l1 & l2 & -> & Hl1).
  rewrite split_on_app by done. destruct l2 as [|c l2]; [by do 3 eexists|]. cbn [split_on].
  destruct (decide (c = sep)); [by do 3 eexists|]. destruct (split_on sep l2); by do 3 eexists.
Qed.

Lemma key_no_colon s : Forall (fun c => is_hex c = true) s -> colon ∉ s.
Proof. intros HF Hin. rewrite Forall_forall in HF. by apply HF in Hin. Qed.

(** ** Properties *)

(** a coordinate FormatATag builds is read back by ParseATag exactly when its
    d-value has no colon; one with a colon, which FormatATag renders, is
    refused for its length. *)
Theorem atag_roundtrip (kind : Z) (pubKey d s : gostring) (HF : FormatATag kind pubKey d = Ok s) :
  ParseATag s = if decide (colon ∈ d) then Err ErrATagLen else Ok (kind, pubKey, d).
Proof.
  unfold FormatATag in HF. inv_ok. unfold ValidateKind in *. destruct ((kind <? 0) || (65535 <? kind)) eqn:EK; [done|].
  bool_prop. destruct a1. pose proof E1 as HK. apply Validate32Key_ok in HK as [_ HX].
  unfold ParseATag. rewrite split_on_app by (apply digits_no; [apply Dec.itoa_digits; lia|done]).
  rewrite split_on_app by (by apply key_no_colon). destruct (decide (colon ∈ d)) as [Hd|Hd].
  - by destruct (split_on_some colon d Hd) as (a' & b & r & ->).
  - rewrite split_on_none by done. rewrite Dec.atoi_itoa by lia.
    unfold ValidateKind. rewrite (proj2 (Z.ltb_ge kind 0)) by lia. rewrite (proj2 (Z.ltb_ge 65535 kind)) by lia.
    cbn. rewrite E0. cbn. by rewrite E1.
Qed.

Lemma atag_roundtrip_witness :
  let key := repeat x61 64 in
  let s := bs "30023:" ++ key ++ bs ":a:b" in
  FormatATag 30023 key (bs "a:b") = Ok s /\ ParseATag s = Err ErrATagLen.
Proof.
  intros key s. assert (HF : FormatATag 30023 key (bs "a:b") = Ok s) by (vm_compute; reflexivity).
  split; [exact HF|]. pose proof (atag_roundtrip 30023 key (bs "a:b") s HF) as HR.
  rewrite HR. vm_compute. reflexivity.
Defined.

Lemma find_unique_found t name ts :
  find_unique (Some t) name ts = match List.filter (tag_is name) ts with [] => Ok t | _ => Err ErrTagNotUnique end.
Proof. induction ts as [|u ts IH]; cbn; [done|]. by destruct (tag_is name u). Qed.

(** the tag a unique lookup returns is the only one of its name: the answer
    is decided by how many tags LookupEventTag collects (none, one, several),
    and the value lookup adds exactly the missing-value case. *)
Theorem FindUniqueEventTag_spec (ts : tags) (name : gostring) :
  FindUniqueEventTag ts name =
    match LookupEventTag ts name with
    | None => Err ErrTagNotFound
    | Some [t] => Ok t
    | Some _ => Err ErrTagNotUnique
    end /\
  (forall v, FindUniqueEventTagValue ts name = Ok v <->
     exists r, LookupEventTag ts name = Some [name :: v :: r]).
Proof.
  assert (HU : FindUniqueEventTag ts name =
    match LookupEventTag ts name with
    | None => Err ErrTagNotFound | Some [t] => Ok t | Some _ => Err ErrTagNotUnique end).
  { unfold FindUniqueEventTag, LookupEventTag. induction ts as [|t ts IH]; cbn; [done|].
    destruct (tag_is name t); [|done]. rewrite find_unique_found. by destruct (List.filter _ ts). }
  split; [done|]. intros v. unfold FindUniqueEventTagValue. rewrite HU.
  assert (HN : forall t l, LookupEventTag ts name = Some (t :: l) -> tag_is name t = true).
  { intros t l HL. unfold LookupEventTag in HL.
    assert (HI : In t (List.filter (tag_is name) ts)) by (destruct (List.filter _ ts); [done|injection HL as -> ->; by left]).
    by apply List.filter_In in HI as [_ HI]. }
  destruct (LookupEventTag ts name) as [[|t [|u l]]|] eqn:EL; cbn.
  - split; [done|]. by intros (r & [=]).
  - specialize (HN t [] eq_refl). split.
    + destruct t as [|x [|y r]]; try done. intros [= ->]. cbn in HN. apply bool_decide_eq_true in HN as ->. by exists r.
    + by intros (r & [= ->]).
  - split; [done|]. by intros (r & [=]).
  - split; [done|]. by intros (r & [=]).
Qed.
