(* ===== verification/Pow.v ===== *)
(** * nip13: proof of work

    [nip13/nip13.go]: difficulty of an id, validation of a nonce tag, and the
    miner.  The miner's workers are functions of the number of attempts the
    context lets them make; which worker's result is received first is the
    scheduler's choice and an argument of the search. *)

From S2P Require Import Prelude GoLib Sha256 NostrUtils.

Definition POWTagName : gostring := bs "nonce".

Record Fields := mkFields {
  fID : gostring; fPubKey : gostring; fCreatedAt : Z; fKind : Z; fTags : tags; fContent : gostring; fSig : gostring;
}.

Inductive PowErr :=
  | PErrSize | PErrHex | PErrNoNonce | PErrNonces | PErrNonceLen | PErrAtoi | PErrInsufficient | PErrMismatch
  | PErrSigned | PErrPubkey (e : UtilErr) | PErrKind (e : UtilErr) | PErrNoncePresent | PErrCancelled.

(** The inner loop of countZerosFromBytes, over the bits below [i]; the flag is
    set when a one bit ends the count. *)
Fixpoint byte_zeros (i : nat) (b : Z) (count : Z) : Z * bool :=
  match i with
  | O => (count, false)
  | S i => if Z.land (Z.shiftr b (Z.of_nat i)) 1 =? 0 then byte_zeros i b (count + 1) else (count, true)
  end.

Fixpoint count_zeros (count : Z) (bytes : list byte) : Z :=
  match bytes with
  | [] => count
  | b :: bytes =>
      if b2z b =? 0 then count_zeros (count + 8) bytes
      else let '(count, stop) := byte_zeros 8 (b2z b) count in
           if stop then count else count_zeros count bytes
  end.

Definition countZerosFromBytes (bytes : list byte) : Z := count_zeros 0 bytes.

Definition countZerosFromHex (hexStr : gostring) : outcome PowErr Z :=
  if negb (zlen hexStr =? 64) then Err PErrSize
  else match Hex.decode hexStr with
       | None => Err PErrHex
       | Some bytes => Ok (countZerosFromBytes bytes)
       end.

Definition Difficulty (id : gostring) : outcome PowErr Z := countZerosFromHex id.

Section Pow.
Context {GoLower0 : GoLower}.

(** The forked digest never panics, see [Sha256.digest_refines_fips]. *)
Definition hashID (ev : Fields) : outcome unit (list byte) :=
  Sum256 (preimage (fPubKey ev) (fCreatedAt ev) (fKind ev) (fTags ev) (fContent ev)).

Definition ValidatePow (ev : Fields) : outcome PowErr (gostring * Z) :=
  match LookupEventTag (fTags ev) POWTagName with
  | None => Err PErrNoNonce
  | Some nonces =>
      match nonces with
      | [[_; nonce; d]] =>
          match Dec.atoi d with
          | None => Err PErrAtoi
          | Some difficulty =>
              zeros ← countZerosFromHex (fID ev);
              if zeros <? difficulty then Err PErrInsufficient
              else match hashID ev with
                   | Ok eventIDBytes =>
                       if decide (Hex.encode eventIDBytes = fID ev) then Ok (nonce, difficulty)
                       else Err PErrMismatch
                   | _ => Panic
                   end
          end
      | [_] => Err PErrNonceLen
      | _ => Err PErrNonces
      end
  end.

(** ** Mining *)

(** mineWorker: [fuel] attempts until the context is done. *)
Fixpoint mineWorker (fuel : nat) (hash : digest) (suffix : list byte) (targetDifficulty nonce stride : Z)
    : outcome unit (option (Z * gostring)) :=
  match fuel with
  | O => Ok None
  | S fuel =>
      idBytes ← Sum hash (Dec.format_uint nonce ++ suffix);
      if targetDifficulty <=? countZerosFromBytes idBytes
      then Ok (Some (nonce, Hex.encode idBytes))
      else mineWorker fuel hash suffix targetDifficulty (u64 (nonce + stride)) stride
  end.

(** computeNonceParallel: the [winner]'s result is received first, after
    [fuel] of its attempts; no result by then is a cancelled context. *)
Definition computeNonceParallel (winner fuel : nat) (prefix suffix : list byte) (targetDifficulty workers : Z)
    : outcome PowErr (Z * gostring) :=
  let workers := Z.max workers 1 in
  match mineWorker fuel (Write New prefix) suffix targetDifficulty (Z.of_nat winner) workers with
  | Ok (Some res) => Ok res
  | Ok None => Err PErrCancelled
  | _ => Panic
  end.

Definition nonce_tag (nonce targetDifficulty : Z) : tag :=
  [POWTagName; Dec.format_uint nonce; Dec.itoa targetDifficulty].

(** The bytes before and after the nonce. *)
Definition mine_prefix (ev : Fields) : list byte :=
  let tagsBytes := MarshalTags (fTags ev) in
  let prefixTags := take (length tagsBytes - 1) tagsBytes in
  let prefixTags := if (0 <? length (fTags ev))%nat then prefixTags ++ [x2c] else prefixTags in
  let prefixTags := prefixTags ++ [x5b; x22] ++ POWTagName ++ [x22; x2c; x22] in
  bs "[0," ++ x22 :: ToLower (fPubKey ev) ++ x22 :: x2c :: Dec.format_uint (fCreatedAt ev) ++ x2c ::
  Dec.itoa (fKind ev) ++ x2c :: prefixTags.

Definition mine_suffix (ev : Fields) (targetDifficulty : Z) : list byte :=
  [x22; x2c; x22] ++ Dec.itoa targetDifficulty ++ [x22; x5d; x5d; x2c; x22] ++
  EscapeJSONString (fContent ev) ++ [x22; x5d].

Definition Mine (winner fuel : nat) (ev : Fields) (targetDifficulty workers : Z) : outcome PowErr (gostring * tag) :=
  if 0 <? zlen (fSig ev) then Err PErrSigned
  else match Validate32Key (fPubKey ev) with
  | Err e => Err (PErrPubkey e)
  | Panic => Panic
  | Ok _ =>
  match ValidateKind (fKind ev) with
  | Err e => Err (PErrKind e)
  | Panic => Panic
  | Ok _ =>
  match LookupEventTag (fTags ev) POWTagName with
  | Some _ => Err PErrNoncePresent
  | None =>
      '(nonceVal, id) ← computeNonceParallel winner fuel (mine_prefix ev) (mine_suffix ev targetDifficulty)
                          targetDifficulty workers;
      Ok (id, nonce_tag nonceVal targetDifficulty)
  end end end.

(** The event the nonce tag is appended to, with its id. *)
Definition with_nonce (ev : Fields) (id : gostring) (t : tag) : Fields :=
  mkFields id (fPubKey ev) (fCreatedAt ev) (fKind ev) (fTags ev ++ [t]) (fContent ev) (fSig ev).

End Pow.

(** ** Difficulty as a number *)

(** The big-endian value of a byte string, and the length of a number in bits. *)
Fixpoint be_value (l : list byte) : Z :=
  match l with [] => 0 | b :: l => b2z b * 2 ^ (8 * zlen l) + be_value l end.

Definition bit_length (v : Z) : Z := if v =? 0 then 0 else Z.log2 v + 1.

Lemma be_value_range l : 0 <= be_value l < 2 ^ (8 * zlen l).
Proof.
  induction l as [|b l IH]; cbn [be_value]; [done|]. pose proof (b2z_range b). pose proof (zlen_nonneg l).
  rewrite zlen_cons. replace (8 * (1 + zlen l)) with (8 + 8 * zlen l) by lia. rewrite Z.pow_add_r by lia.
  change (2 ^ 8) with 256. split; nia.
Qed.

Lemma low_bit i b : 0 <= i -> 0 <= b < 2 ^ (i + 1) -> (Z.land (Z.shiftr b i) 1 =? 0) = (b <? 2 ^ i).
Proof.
  intros Hi Hb. rewrite Z.shiftr_div_pow2 by done. change 1 with (Z.ones 1) at 1. rewrite Z.land_ones by lia.
  rewrite Z.pow_add_r in Hb by lia. change (2 ^ 1) with 2 in *.
  assert (0 < 2 ^ i) by (apply Z.pow_pos_nonneg; lia).
  assert (0 <= b / 2 ^ i < 2) by (split; [apply Z.div_pos; lia|apply Z.div_lt_upper_bound; lia]).
  rewrite Z.mod_small by lia. destruct (Z.ltb_spec b (2 ^ i)) as [Hl|Hl].
  - by rewrite Z.div_small by lia.
  - apply Z.eqb_neq. assert (1 <= b / 2 ^ i); [|lia]. apply Z.div_le_lower_bound; lia.
Qed.

Lemma byte_zeros_spec i b c : 0 <= b < 2 ^ Z.of_nat i ->
  byte_zeros i b c = (c + Z.of_nat i - bit_length b, negb (b =? 0)).
Proof.
  revert c. induction i as [|i IH]; intros c Hb; cbn [byte_zeros].
  { assert (b = 0) as -> by (cbn in Hb; lia). cbn. f_equal. lia. }
  rewrite Nat2Z.inj_succ in Hb. rewrite low_bit by lia. destruct (Z.ltb_spec b (2 ^ Z.of_nat i)) as [Hl|Hl].
  - rewrite IH by lia. f_equal. lia.
  - assert (0 < 2 ^ Z.of_nat i) by (apply Z.pow_pos_nonneg; lia). unfold bit_length.
    rewrite (proj2 (Z.eqb_neq b 0)) by lia. cbn [negb]. f_equal.
    rewrite (Z.log2_unique b (Z.of_nat i)) by lia. lia.
Qed.

Lemma bit_length_cons b l : 0 < b2z b ->
  bit_length (be_value (b :: l)) = 8 * zlen l + bit_length (b2z b).
Proof.
  intros Hb. pose proof (be_value_range l) as Hv. pose proof (zlen_nonneg l).
  assert (Hp : 0 < 2 ^ (8 * zlen l)) by (apply Z.pow_pos_nonneg; lia).
  unfold bit_length. cbn [be_value]. rewrite !(proj2 (Z.eqb_neq _ 0)) by nia.
  pose proof (Z.log2_spec (b2z b) Hb) as [L1 L2]. pose proof (Z.log2_nonneg (b2z b)).
  rewrite (Z.log2_unique _ (8 * zlen l + Z.log2 (b2z b))); [lia|lia|].
  rewrite <- Z.add_succ_r, !Z.pow_add_r by lia. split; nia.
Qed.

Lemma count_zeros_spec c l : count_zeros c l = c + 8 * zlen l - bit_length (be_value l).
Proof.
  revert c. induction l as [|b l IH]; intros c; cbn [count_zeros]; [cbn; unfold zlen; cbn; lia|].
  pose proof (b2z_range b) as Hb. destruct (Z.eqb_spec (b2z b) 0) as [E|E].
  - rewrite IH. cbn [be_value]. rewrite E, zlen_cons. rewrite Z.mul_0_l, Z.add_0_l. lia.
  - rewrite byte_zeros_spec by (cbn; lia). rewrite (proj2 (Z.eqb_neq _ 0)) by done. cbn [negb].
    rewrite bit_length_cons by lia. rewrite zlen_cons. lia.
Qed.

Lemma bit_length_le v t : 0 <= v -> 0 <= t -> bit_length v <= t <-> v < 2 ^ t.
Proof.
  intros Hv Ht. unfold bit_length. destruct (Z.eqb_spec v 0) as [->|Hne].
  - split; [|lia]. intros _. by apply Z.pow_pos_nonneg.
  - rewrite (Z.log2_lt_pow2 v t) by lia. lia.
Qed.

(** Difficulty counts the leading zero bits of the 256-bit id: the count is
    within 0..256 and meets a target exactly when the id, read as a number, is
    below the target's power of two. *)
Theorem Difficulty_threshold (b : list byte) (t : Z) (Hb : length b = 32%nat) (Ht : 0 <= t <= 256) :
  exists z, Difficulty (Hex.encode b) = Ok z /\ 0 <= z <= 256 /\ (t <= z <-> be_value b < 2 ^ (256 - t)).
Proof.
  exists (countZerosFromBytes b). unfold Difficulty, countZerosFromHex.
  assert (zlen (Hex.encode b) = 64) as -> by (unfold zlen; rewrite Hex.length_encode; lia).
  rewrite Hex.decode_encode. split; [done|]. unfold countZerosFromBytes. rewrite count_zeros_spec.
  assert (zlen b = 32) as Hz by (unfold zlen; lia). pose proof (be_value_range b) as Hv. rewrite Hz in *.
  change (8 * 32) with 256 in *. assert (HL : bit_length (be_value b) <= 256) by (apply bit_length_le; lia).
  assert (0 <= bit_length (be_value b)) by (unfold bit_length; case_match; [lia|pose proof (Z.log2_nonneg (be_value b)); lia]).
  split; [lia|]. rewrite <- bit_length_le by lia. lia.
Qed.

Lemma Difficulty_threshold_witness :
  let b := x00 :: x1f :: repeat xff 30 in
  exists z, Difficulty (Hex.encode b) = Ok z /\ 0 <= z <= 256 /\ (11 <= z <-> be_value b < 2 ^ (256 - 11)).
Proof. apply (Difficulty_threshold (x00 :: x1f :: repeat xff 30) 11); [reflexivity|lia]. Defined.

(** ** The splice *)

Definition plain (c : byte) : bool := bool_decide (escape_byte c = [c]).

Lemma escape_plain s : Forall (fun c => plain c = true) s -> EscapeJSONString s = s.
Proof.
  unfold EscapeJSONString. induction s as [|c s IH]; intros HF; [done|]. inversion HF as [|? ? Hc HF']; subst.
  cbn [map concat]. rewrite (IH HF'). apply bool_decide_eq_true in Hc. by rewrite Hc.
Qed.

Lemma digit_plain c : Dec.is_digit c = true -> plain c = true.
Proof. destruct c; vm_compute; done. Qed.

Lemma format_uint_plain z : EscapeJSONString (Dec.format_uint z) = Dec.format_uint z.
Proof. apply escape_plain. eapply Forall_impl; [apply Dec.format_uint_digits|apply digit_plain]. Qed.

Lemma itoa_plain z : EscapeJSONString (Dec.itoa z) = Dec.itoa z.
Proof.
  unfold Dec.itoa. destruct (z <? 0); [|apply format_uint_plain]. apply escape_plain. constructor; [done|].
  eapply Forall_impl; [apply Dec.format_uint_digits|apply digit_plain].
Qed.

Lemma marshal_tags_snoc i ts t :
  marshal_tags i (ts ++ [t]) = marshal_tags i ts ++ comma (i + length ts) ++ x5b :: marshal_values 0 t ++ [x5d].
Proof.
  revert i. induction ts as [|u ts IH]; intros i; cbn [app marshal_tags length].
  - by rewrite Nat.add_0_r.
  - rewrite IH. replace (i + 1 + length ts)%nat with (i + S (length ts))%nat by lia.
    rewrite <- !app_assoc. cbn [app]. rewrite <- !app_assoc. done.
Qed.

Section Mining.
Context {GoLower0 : GoLower}.

(** The bytes the miner hashes are the canonical pre-image of the event with the
    nonce tag appended. *)
Lemma splice ev n d :
  mine_prefix ev ++ Dec.format_uint n ++ mine_suffix ev d
  = preimage (fPubKey ev) (fCreatedAt ev) (fKind ev) (fTags ev ++ [nonce_tag n d]) (fContent ev).
Proof.
  unfold mine_prefix, mine_suffix, preimage, MarshalTags.
  assert (take (length (x5b :: marshal_tags 0 (fTags ev) ++ [x5d]) - 1) (x5b :: marshal_tags 0 (fTags ev) ++ [x5d])
          = x5b :: marshal_tags 0 (fTags ev)) as ->.
  { cbn [length]. rewrite length_app. cbn [length].
    replace (S (length (marshal_tags 0 (fTags ev)) + 1) - 1)%nat with (length (x5b :: marshal_tags 0 (fTags ev)))
      by (cbn; lia). apply (take_length_app (x5b :: marshal_tags 0 (fTags ev))). }
  rewrite marshal_tags_snoc. cbn [Nat.add nonce_tag marshal_values]. rewrite format_uint_plain, itoa_plain.
  change (EscapeJSONString POWTagName) with POWTagName.
  unfold comma. destruct (length (fTags ev)) as [|m]; cbn [Nat.ltb Nat.leb Nat.add app];
    repeat (rewrite <- ?app_assoc, <- ?app_comm_cons; cbn [app]); reflexivity.
Qed.

(** One attempt. *)
Definition attempt (ev : Fields) (d n : Z) : list byte :=
  sha256 (preimage (fPubKey ev) (fCreatedAt ev) (fKind ev) (fTags ev ++ [nonce_tag n d]) (fContent ev)).

Lemma mineWorker_step ev d fuel n stride :
  mineWorker (S fuel) (Write New (mine_prefix ev)) (mine_suffix ev d) d n stride =
  if d <=? countZerosFromBytes (attempt ev d n) then Ok (Some (n, Hex.encode (attempt ev d n)))
  else mineWorker fuel (Write New (mine_prefix ev)) (mine_suffix ev d) d (u64 (n + stride)) stride.
Proof. cbn [mineWorker]. rewrite Sum_New, splice. done. Qed.

Lemma mineWorker_sound ev d fuel n stride n' id :
  0 <= n < 2 ^ 64 ->
  mineWorker fuel (Write New (mine_prefix ev)) (mine_suffix ev d) d n stride = Ok (Some (n', id)) ->
  0 <= n' < 2 ^ 64 /\ id = Hex.encode (attempt ev d n') /\ d <= countZerosFromBytes (attempt ev d n').
Proof.
  revert n. induction fuel as [|fuel IH]; intros n Hn; [done|]. rewrite mineWorker_step.
  destruct (Z.leb_spec d (countZerosFromBytes (attempt ev d n))).
  - by intros [= <- <-].
  - apply IH. apply (wrap_range 64). lia.
Qed.

(** A worker that would reach [n + k * stride] without wrapping stops there at
    the latest. *)
Lemma mineWorker_reaches ev d fuel k n stride :
  0 <= n -> 0 < stride -> n + Z.of_nat k * stride < 2 ^ 64 ->
  d <= countZerosFromBytes (attempt ev d (n + Z.of_nat k * stride)) -> (k < fuel)%nat ->
  exists j, (j <= k)%nat /\ let n' := n + Z.of_nat j * stride in
    mineWorker fuel (Write New (mine_prefix ev)) (mine_suffix ev d) d n stride
      = Ok (Some (n', Hex.encode (attempt ev d n'))) /\
    forall i, (i < j)%nat -> countZerosFromBytes (attempt ev d (n + Z.of_nat i * stride)) < d.
Proof.
  revert n fuel. induction k as [|k IH]; intros n fuel Hn Hs Hw Hd Hf; (destruct fuel as [|fuel]; [lia|]).
  - rewrite Z.add_0_r in Hd. exists 0%nat. rewrite mineWorker_step. rewrite (proj2 (Z.leb_le _ _)) by done.
    cbn zeta. rewrite Z.add_0_r. split; [lia|]. split; [done|lia].
  - rewrite mineWorker_step. destruct (Z.leb_spec d (countZerosFromBytes (attempt ev d n))) as [Hle|Hlt].
    { exists 0%nat. cbn zeta. rewrite Z.add_0_r. split; [lia|]. split; [done|lia]. }
    assert (He : forall m : nat, n + stride + Z.of_nat m * stride = n + Z.of_nat (S m) * stride) by lia.
    rewrite wrap_small by lia. destruct (IH (n + stride) fuel) as (j & Hj & HM & Hmin); try lia.
    { by rewrite He. }
    exists (S j). split; [lia|]. cbn zeta in *. rewrite <- He. split; [exact HM|].
    intros [|i] Hi; [by rewrite Z.add_0_r|]. rewrite <- He. apply Hmin. lia.
Qed.

(** The guards of Mine. *)
Definition minable (ev : Fields) : Prop :=
  fSig ev = [] /\ Validate32Key (fPubKey ev) = Ok tt /\ ValidateKind (fKind ev) = Ok tt /\
  LookupEventTag (fTags ev) POWTagName = None.

Lemma Mine_guards winner fuel ev d workers r :
  Mine winner fuel ev d workers = Ok r -> minable ev.
Proof.
  unfold Mine, minable. destruct (Z.ltb_spec 0 (zlen (fSig ev))) as [|Hz]; [done|].
  destruct (Validate32Key _) as [[]| |]; [|done|done]. destruct (ValidateKind _) as [[]| |]; [|done|done].
  destruct (LookupEventTag _ _); [done|]. intros _. split; [|done].
  destruct (fSig ev) as [|c sg]; [done|]. rewrite zlen_cons in Hz. pose proof (zlen_nonneg sg). lia.
Qed.

Lemma Mine_minable winner fuel ev d workers :
  minable ev -> Mine winner fuel ev d workers =
    ('(nonceVal, id) ← computeNonceParallel winner fuel (mine_prefix ev) (mine_suffix ev d) d workers;
     Ok (id, nonce_tag nonceVal d)).
Proof. intros (H1 & H2 & H3 & H4). unfold Mine. rewrite H1, H2, H3, H4. done. Qed.

Lemma lookup_snoc ts t :
  LookupEventTag ts POWTagName = None -> tag_is POWTagName t = true ->
  LookupEventTag (ts ++ [t]) POWTagName = Some [t].
Proof.
  unfold LookupEventTag. intros HL Ht. rewrite List.filter_app. destruct (List.filter _ ts); [|done].
  cbn [app List.filter]. by rewrite Ht.
Qed.

Lemma countZerosFromHex_encode b : length b = 32%nat -> countZerosFromHex (Hex.encode b) = Ok (countZerosFromBytes b).
Proof.
  intros Hb. unfold countZerosFromHex.
  assert (zlen (Hex.encode b) = 64) as -> by (unfold zlen; rewrite Hex.length_encode; lia).
  by rewrite Hex.decode_encode.
Qed.

Lemma Mine_facts winner fuel ev d workers id t :
  - 2 ^ 63 <= d < 2 ^ 63 -> Z.of_nat winner < 2 ^ 63 -> Mine winner fuel ev d workers = Ok (id, t) ->
  exists n, 0 <= n < 2 ^ 64 /\ t = nonce_tag n d /\ id = Hex.encode (attempt ev d n) /\
    d <= countZerosFromBytes (attempt ev d n) /\
    forall sig, ValidatePow (mkFields id (fPubKey ev) (fCreatedAt ev) (fKind ev) (fTags ev ++ [t]) (fContent ev) sig)
      = Ok (Dec.format_uint n, d).
Proof.
  intros Hd Hw HM. pose proof (Mine_guards _ _ _ _ _ _ HM) as HG. rewrite Mine_minable in HM by done.
  unfold computeNonceParallel in HM.
  destruct (mineWorker _ _ _ _ _ _) as [[[n id']|]| |] eqn:EW; cbn in HM; try done. injection HM as <- <-.
  apply mineWorker_sound in EW as (Hn & Hid & Hz); [|lia]. exists n. do 4 (split; [done|]). intros sig.
  assert (HZ : countZerosFromHex id' = Ok (countZerosFromBytes (attempt ev d n)))
    by (rewrite Hid; apply countZerosFromHex_encode, length_sha256).
  unfold ValidatePow. cbn [fTags fID]. destruct HG as (_ & _ & _ & HL).
  rewrite lookup_snoc by done. cbn [nonce_tag]. rewrite Dec.atoi_itoa by done. rewrite HZ. cbn [mbind outcome_bind].
  rewrite (proj2 (Z.ltb_ge _ _)) by done. unfold hashID. rewrite Sum256_Ok.
  by rewrite decide_True by done.
Qed.

(** what Mine returns is right, whichever worker won and after however many
    attempts: the id is the hash of the event with the nonce tag appended, its
    difficulty meets the target, and the mined event passes ValidatePow, which
    reports that nonce and that target. *)
Theorem Mine_sound (winner fuel : nat) (ev : Fields) (d workers : Z) (id : gostring) (t : tag)
    (Hd : - 2 ^ 63 <= d < 2 ^ 63) (Hw : Z.of_nat winner < 2 ^ 63)
    (HM : Mine winner fuel ev d workers = Ok (id, t)) :
  exists n, 0 <= n < 2 ^ 64 /\ t = nonce_tag n d /\
    (b ← hashID (with_nonce ev id t); Ok (Hex.encode b)) = Ok id /\
    (exists z, Difficulty id = Ok z /\ d <= z) /\
    ValidatePow (with_nonce ev id t) = Ok (Dec.format_uint n, d).
Proof.
  apply Mine_facts in HM as (n & Hn & -> & Hid & Hz & Hpow); [|done|done]. exists n.
  split; [done|]. split; [done|]. split; [|split; [|apply Hpow]].
  - unfold hashID. rewrite Sum256_Ok. cbn [mbind outcome_bind]. by rewrite Hid.
  - exists (countZerosFromBytes (attempt ev d n)). split; [|done].
    rewrite Hid. apply countZerosFromHex_encode, length_sha256.
Qed.

(** the search is complete: if any 64-bit nonce meets the target, the
    worker in charge of its stride finds a nonce (that one or an earlier one of
    the stride) within k / workers + 1 attempts, and a single worker finds the
    least. *)
Theorem Mine_complete (ev : Fields) (d workers k : Z) (fuel : nat)
    (HG : minable ev) (Hk : 0 <= k < 2 ^ 64) (Hdk : d <= countZerosFromBytes (attempt ev d k))
    (Hfuel : k / Z.max workers 1 < Z.of_nat fuel) :
  exists n, n <= k /\ n mod Z.max workers 1 = k mod Z.max workers 1 /\
    Mine (Z.to_nat (k mod Z.max workers 1)) fuel ev d workers
      = Ok (Hex.encode (attempt ev d n), nonce_tag n d) /\
    (workers <= 1 -> forall i, 0 <= i < n -> countZerosFromBytes (attempt ev d i) < d).
Proof.
  set (w := Z.max workers 1) in *. assert (Hw : 0 < w) by lia.
  pose proof (Z.mod_pos_bound k w Hw) as Hm. pose proof (Z.div_pos k w ltac:(lia) Hw) as Hq.
  assert (Hk' : k mod w + Z.of_nat (Z.to_nat (k / w)) * w = k)
    by (rewrite Z2Nat.id by done; pose proof (Z.div_mod k w); lia).
  destruct (mineWorker_reaches ev d fuel (Z.to_nat (k / w)) (k mod w) w) as (j & Hj & HM & Hmin);
    [lia|lia|rewrite Hk'; lia|by rewrite Hk'|lia|].
  exists (k mod w + Z.of_nat j * w). split; [nia|]. split; [by rewrite Z.mod_add, Z.mod_mod by lia|].
  split.
  - rewrite Mine_minable by done. unfold computeNonceParallel. fold w. rewrite Z2Nat.id by lia. cbn zeta in HM.
    by rewrite HM.
  - intros Hw1 i Hi. assert (Hw1' : w = 1) by lia. rewrite Hw1' in *. rewrite Z.mod_1_r in *.
    specialize (Hmin (Z.to_nat i) ltac:(lia)). replace (0 + Z.of_nat (Z.to_nat i) * 1) with i in Hmin by lia. done.
Qed.

End Mining.

(** ** Witnesses *)

Definition sample_fields : Fields :=
  mkFields [] (repeat x61 64) 1700000000 1 [[bs "t"; bs "x"]] (bs "hello") [].

(** With four bits of work, nonce 24 is the first that qualifies. *)
Lemma Mine_complete_witness :
  exists n, n <= 24 /\
    Mine (GoLower0 := ascii_lower) 0 25 sample_fields 4 0
      = Ok (Hex.encode (attempt (GoLower0 := ascii_lower) sample_fields 4 n), nonce_tag n 4).
Proof.
  destruct (Mine_complete (GoLower0 := ascii_lower) sample_fields 4 0 24 25) as (n & Hn & _ & HM & _).
  - vm_compute. tauto.
  - lia.
  - vm_compute. discriminate.
  - vm_compute. reflexivity.
  - exists n. split; [exact Hn|exact HM].
Defined.

Lemma Mine_sound_witness :
  exists id, Mine (GoLower0 := ascii_lower) 0 25 sample_fields 4 0 = Ok (id, nonce_tag 24 4) /\
    exists z, Difficulty id = Ok z /\ 4 <= z.
Proof.
  eexists. assert (HM : Mine (GoLower0 := ascii_lower) 0 25 sample_fields 4 0 = Ok (_, nonce_tag 24 4))
    by (vm_compute; reflexivity).
  split; [exact HM|].
  destruct (Mine_sound (GoLower0 := ascii_lower) 0 25 sample_fields 4 0 _ _ ltac:(lia) ltac:(lia) HM)
    as (n & _ & _ & _ & Hz & _). exact Hz.
Defined.
