(* ===== verification/Event.v ===== *)
(** * nip01: events

    [nip01/event.go]: the event, its canonical pre-image and id, mining, signing
    and verification, and [utils.GetPublicKey].  The secp256k1 library is not
    part of the repository: its operations are the class [Schnorr], and what
    the code relies on of them the record [SchnorrLaws].  [time.Now] is an
    argument. *)

From S2P Require Import Prelude GoLib Sha256 NostrUtils Pow.

Record Event := mkEvent {
  ID : gostring; PubKey : gostring; CreatedAt : Z; Kind : Z; Tags : tags; Content : gostring; Sig : gostring;
}.

#[global] Instance Event_eq_dec : EqDecision Event.
Proof. solve_decision. Defined.

Inductive EventErr :=
  | EvID (e : UtilErr) | EvPubKey (e : UtilErr) | EvKind (e : UtilErr) | EvPow (e : PowErr)
  | EvSigHex | EvSigParse | EvMismatch | EvInsufficientPow (got want : Z)
  | EvPubHex | EvPubParse | EvBadSig | EvPrivKey (e : UtilErr) | EvSignFail.

(** BIP-340 signatures over secp256k1 (go-flokicoin crypto and crypto/schnorr). *)
Class Schnorr := {
  PrivateKey : Type;
  PublicKey : Type;
  Signature : Type;
  PrivKeyFromBytes : list byte -> PrivateKey;
  (** PubKey().SerializeCompressed() *)
  compressed : PrivateKey -> list byte;
  ParsePubKey : list byte -> option PublicKey;
  ParseSignature : list byte -> option Signature;
  SerializeSig : Signature -> list byte;
  SchnorrSign : PrivateKey -> list byte -> option Signature;
  SchnorrVerify : Signature -> list byte -> PublicKey -> bool;
}.

(** A compressed key is a sign byte and 32 bytes; a signature survives
    serialization; a signature of a 32-byte digest verifies under the x-only
    key of its signer. *)
Record SchnorrLaws `{!Schnorr} : Prop := {
  compressed_length : forall sk, length (compressed sk) = 33%nat;
  ParseSignature_Serialize : forall s, ParseSignature (SerializeSig s) = Some s;
  Sign_verifies : forall sk h s, length h = 32%nat -> SchnorrSign sk h = Some s ->
    exists pk, ParsePubKey (drop 1 (compressed sk)) = Some pk /\ SchnorrVerify s h pk = true;
}.

Definition ev_err {A} (f : UtilErr -> EventErr) (m : outcome UtilErr A) : outcome EventErr A :=
  match m with Ok a => Ok a | Err e => Err (f e) | Panic => Panic end.

Definition NewEvent (now kind : Z) (content : gostring) (ts : tags) : Event :=
  mkEvent [] [] (u64 now) kind ts content [].

Definition NewUnsignedEvent (now kind : Z) (pubkey content : gostring) (ts : tags) : Event :=
  mkEvent [] pubkey (u64 now) kind ts content [].

Definition Validate (ev : Event) : outcome EventErr unit :=
  _ ← ev_err EvID (Validate32Key (ID ev));
  _ ← ev_err EvPubKey (Validate32Key (PubKey ev));
  ev_err EvKind (ValidateKind (Kind ev)).

Section Event.
Context {GoLower0 : GoLower} {Schnorr0 : Schnorr}.

Definition Serialize (ev : Event) : gostring :=
  preimage (PubKey ev) (CreatedAt ev) (Kind ev) (Tags ev) (Content ev).

Definition HashID (ev : Event) : list byte := sha256 (Serialize ev).

(** ** Verification *)

Inductive VerifyOption := WithMinPowDifficulty (bits : Z) | WithoutPowCheck.

Record verifyConfig := mkVerifyConfig { skipPow : bool; minPowDifficulty : Z }.

Definition apply_option (c : verifyConfig) (o : VerifyOption) : verifyConfig :=
  match o with
  | WithMinPowDifficulty bits => mkVerifyConfig (skipPow c) bits
  | WithoutPowCheck => mkVerifyConfig true (minPowDifficulty c)
  end.

Definition config (opts : list VerifyOption) : verifyConfig :=
  foldl apply_option (mkVerifyConfig false 0) opts.

Definition fields_of (ev : Event) (id sig : gostring) : Fields :=
  mkFields id (PubKey ev) (CreatedAt ev) (Kind ev) (Tags ev) (Content ev) sig.

Definition pow_check (cfg : verifyConfig) (ev : Event) : outcome EventErr unit :=
  if skipPow cfg then Ok tt
  else match LookupEventTag (Tags ev) POWTagName with
       | None => Ok tt
       | Some _ => match ValidatePow (fields_of ev (ID ev) []) with
                   | Ok _ => Ok tt
                   | Err e => Err (EvPow e)
                   | Panic => Panic
                   end
       end.

Definition min_pow_check (cfg : verifyConfig) (genID : gostring) : outcome EventErr unit :=
  if 0 <? minPowDifficulty cfg then
    match Difficulty genID with
    | Ok difficulty =>
        if difficulty <? minPowDifficulty cfg then Err (EvInsufficientPow difficulty (minPowDifficulty cfg))
        else Ok tt
    | Err e => Err (EvPow e)
    | Panic => Panic
    end
  else Ok tt.

(** A nil error of a parse. *)
Definition or_err {A} (m : option A) (e : EventErr) : outcome EventErr A :=
  match m with Some a => Ok a | None => Err e end.

Definition Verify (opts : list VerifyOption) (ev : Event) : outcome EventErr unit :=
  _ ← Validate ev;
  let cfg := config opts in
  _ ← pow_check cfg ev;
  sigBytes ← or_err (Hex.decode (Sig ev)) EvSigHex;
  signature ← or_err (ParseSignature sigBytes) EvSigParse;
  let genEventIDBytes := HashID ev in
  let genID := Hex.encode genEventIDBytes in
  _ ← ensure (bool_decide (ID ev = genID)) EvMismatch;
  _ ← min_pow_check cfg genID;
  publicKeyBytes ← or_err (Hex.decode (PubKey ev)) EvPubHex;
  pubkey ← or_err (ParsePubKey publicKeyBytes) EvPubParse;
  ensure (SchnorrVerify signature genEventIDBytes pubkey) EvBadSig.

(** ** Signing and mutation *)

(** The x-only key of a parsed private key, in hex. *)
Definition key_hex (b : list byte) : gostring := Hex.encode (drop 1 (compressed (PrivKeyFromBytes b))).

Definition GetPublicKey (privKeyHex : gostring) : outcome UtilErr gostring :=
  b ← ParsePrivateKeyHex privKeyHex; Ok (key_hex b).

Definition set_PubKey (ev : Event) (pk : gostring) : Event :=
  mkEvent (ID ev) pk (CreatedAt ev) (Kind ev) (Tags ev) (Content ev) (Sig ev).

(** The event is changed in place: its key even when the signer then fails. *)
Definition Sign (ev : Event) (privateKey : gostring) : Event * outcome EventErr unit :=
  match ParsePrivateKeyHex privateKey with
  | Err e => (ev, Err (EvPrivKey e))
  | Panic => (ev, Panic)
  | Ok b =>
      let ev := set_PubKey ev (key_hex b) in
      let genEventIDBytes := HashID ev in
      match SchnorrSign (PrivKeyFromBytes b) genEventIDBytes with
      | None => (ev, Err EvSignFail)
      | Some sig =>
          (mkEvent (Hex.encode genEventIDBytes) (PubKey ev) (CreatedAt ev) (Kind ev) (Tags ev) (Content ev)
                   (Hex.encode (SerializeSig sig)), Ok tt)
      end
  end.

Definition NewSignedEvent (now kind : Z) (content privateKey : gostring) (ts : tags) : outcome EventErr Event :=
  let '(ev, res) := Sign (NewEvent now kind content ts) privateKey in
  _ ← res; Ok ev.

Definition AddTag (ev : Event) (t : tag) : Event :=
  mkEvent (ID ev) (PubKey ev) (CreatedAt ev) (Kind ev) (Tags ev ++ [t]) (Content ev) (Sig ev).

Definition Rehash (ev : Event) : Event :=
  mkEvent (Hex.encode (HashID ev)) (PubKey ev) (CreatedAt ev) (Kind ev) (Tags ev) (Content ev) (Sig ev).

(** Event.Mine, with the schedule of [Pow.Mine]. *)
Definition EvMine (winner fuel : nat) (ev : Event) (targetDifficulty workers : Z) : Event * outcome PowErr unit :=
  match Mine winner fuel (fields_of ev [] (Sig ev)) targetDifficulty workers with
  | Ok (id, nonceTag) =>
      (mkEvent id (PubKey ev) (CreatedAt ev) (Kind ev) (Tags ev ++ [nonceTag]) (Content ev) (Sig ev), Ok tt)
  | Err e => (ev, Err e)
  | Panic => (ev, Panic)
  end.

(** nil for no value. *)
Definition GetTag (ev : Event) (tagName : gostring) : option (list gostring) :=
  match concat (map (fun t : tag => match t with
                                    | n :: ((_ :: _) as vs) => if decide (n = tagName) then vs else []
                                    | _ => [] end) (Tags ev)) with
  | [] => None
  | values => Some values
  end.

(** ** What Verify establishes *)

(** The pow check of a nonce tag passes. *)
Definition nonce_ok (ev : Event) : Prop :=
  LookupEventTag (Tags ev) POWTagName = None \/ exists n d, ValidatePow (fields_of ev (ID ev) []) = Ok (n, d).

Lemma pow_check_Ok cfg ev : pow_check cfg ev = Ok tt <-> skipPow cfg = true \/ nonce_ok ev.
Proof.
  unfold pow_check, nonce_ok. destruct (skipPow cfg); [tauto|].
  destruct (LookupEventTag _ _); [|tauto]. destruct (ValidatePow _) as [[n d]|e|]; split; try done.
  - intros _. right. right. by exists n, d.
  - intros [|[|(n & d & [=])]]; done.
  - intros [|[|(n & d & [=])]]; done.
Qed.

Lemma HashID_difficulty ev : Difficulty (Hex.encode (HashID ev)) = Ok (countZerosFromBytes (HashID ev)).
Proof. apply countZerosFromHex_encode, length_sha256. Qed.

Lemma min_pow_check_Ok cfg ev :
  min_pow_check cfg (Hex.encode (HashID ev)) = Ok tt <->
  minPowDifficulty cfg <= 0 \/ minPowDifficulty cfg <= countZerosFromBytes (HashID ev).
Proof.
  unfold min_pow_check. destruct (Z.ltb_spec 0 (minPowDifficulty cfg)); [|split; [lia|done]].
  rewrite HashID_difficulty. destruct (Z.ltb_spec (countZerosFromBytes (HashID ev)) (minPowDifficulty cfg)).
  - split; [done|lia].
  - split; [lia|done].
Qed.

Lemma ev_err_Ok {A} f (m : outcome UtilErr A) a : ev_err f m = Ok a <-> m = Ok a.
Proof. destruct m; cbn; naive_solver. Qed.

Lemma or_err_Ok {A} (m : option A) e a : or_err m e = Ok a <-> m = Some a.
Proof. destruct m; cbn; naive_solver. Qed.

Lemma Validate_Ok ev : Validate ev = Ok tt <->
  Validate32Key (ID ev) = Ok tt /\ Validate32Key (PubKey ev) = Ok tt /\ 0 <= Kind ev <= 65535.
Proof.
  unfold Validate. rewrite <- ValidateKind_ok. destruct (Validate32Key (ID ev)) as [[]| |], (Validate32Key (PubKey ev)) as [[]| |];
    cbn; rewrite ?ev_err_Ok; naive_solver.
Qed.

Lemma bind_unit_Ok {E A} (m : outcome E unit) (k : unit -> outcome E A) a :
  (m ≫= k) = Ok a <-> m = Ok tt /\ k tt = Ok a.
Proof. destruct m as [[]| |]; cbn; naive_solver. Qed.

(** The conditions of an accepted event. *)
Definition accepted (cfg : verifyConfig) (ev : Event) : Prop :=
  Validate32Key (PubKey ev) = Ok tt /\ 0 <= Kind ev <= 65535 /\
  ID ev = Hex.encode (HashID ev) /\
  (skipPow cfg = true \/ nonce_ok ev) /\
  (minPowDifficulty cfg <= 0 \/ minPowDifficulty cfg <= countZerosFromBytes (HashID ev)) /\
  exists sigBytes s pkBytes pk,
    Hex.decode (Sig ev) = Some sigBytes /\ ParseSignature sigBytes = Some s /\
    Hex.decode (PubKey ev) = Some pkBytes /\ ParsePubKey pkBytes = Some pk /\
    SchnorrVerify s (HashID ev) pk = true.

Lemma digit_is_hex n : 0 <= n < 16 -> is_hex (Hex.digit n) = true.
Proof. intros Hn. apply is_hex_from_char. rewrite Hex.from_char_digit by done. by eexists. Qed.

Lemma encode_hex b : Forall (fun c => is_hex c = true) (Hex.encode b).
Proof.
  unfold Hex.encode. induction b as [|c b IH]; cbn; [done|]. pose proof (b2z_range c).
  repeat constructor; try (apply digit_is_hex); try done; dlia.
Qed.

Lemma encode_key b : length b = 32%nat -> Validate32Key (Hex.encode b) = Ok tt.
Proof.
  intros Hb. apply Validate32Key_ok. split; [unfold zlen; rewrite Hex.length_encode; lia|apply encode_hex].
Qed.

Lemma Verify_accepted opts ev : Verify opts ev = Ok tt <-> accepted (config opts) ev.
Proof.
  unfold Verify, accepted. cbv zeta. rewrite !bind_unit_Ok, Validate_Ok, pow_check_Ok. split.
  - intros ((HI & HP & HK) & Hpow & H). inv_ok. rewrite !or_err_Ok in *.
    destruct a1. apply bool_decide_eq_true in E1. destruct a2. apply min_pow_check_Ok in E2.
    do 5 (split; [done|]). by exists a, a0, a3, a4.
  - intros (HP & HK & HI & Hpow & Hmin & sb & s & pb & pk & H1 & H2 & H3 & H4 & H5).
    split; [|split; [done|]].
    + split; [|done]. rewrite HI. apply encode_key, length_sha256.
    + apply min_pow_check_Ok in Hmin. rewrite H1. cbn [or_err mbind outcome_bind]. rewrite H2.
      cbn [or_err mbind outcome_bind]. rewrite bool_decide_true by done. cbn [ensure mbind outcome_bind].
      rewrite Hmin, H3. cbn [or_err mbind outcome_bind]. rewrite H4. cbn [or_err mbind outcome_bind]. by rewrite H5.
Qed.

(** ** Signing *)

Lemma ParsePrivateKeyHex_Ok s b : ParsePrivateKeyHex s = Ok b ->
  Hex.decode s = Some b /\ length b = 32%nat /\ Cmp.ltb b curveOrder = true /\ b <> repeat x00 32.
Proof.
  unfold ParsePrivateKeyHex. destruct (Hex.decode s) as [b'|]; [|done].
  destruct (Z.eqb_spec (zlen b') 32) as [Hl|]; [|done]. cbn [negb].
  destruct (Cmp.ltb b' curveOrder) eqn:EL; [|done]. cbn [negb orb].
  destruct (bool_decide (b' = repeat x00 32)) eqn:EB; [done|]. intros [= <-].
  apply bool_decide_eq_false in EB. split_and!; try done. unfold zlen in Hl. lia.
Qed.

Lemma key_hex_valid b : SchnorrLaws -> length (drop 1 (compressed (PrivKeyFromBytes b))) = 32%nat.
Proof. intros HL. rewrite length_drop, (compressed_length HL). done. Qed.

Lemma Sign_Ok ev key ev' : Sign ev key = (ev', Ok tt) ->
  exists b s, ParsePrivateKeyHex key = Ok b /\
    let ev1 := set_PubKey ev (key_hex b) in
    SchnorrSign (PrivKeyFromBytes b) (HashID ev1) = Some s /\
    ev' = mkEvent (Hex.encode (HashID ev1)) (key_hex b) (CreatedAt ev) (Kind ev) (Tags ev) (Content ev)
                  (Hex.encode (SerializeSig s)).
Proof.
  unfold Sign. destruct (ParsePrivateKeyHex key) as [b|e|]; [|done|done]. cbv zeta.
  destruct (SchnorrSign _ _) as [s|] eqn:ES; [|done]. intros [= <-]. exists b, s. by cbv zeta.
Qed.

(** A signed event meets every condition of [accepted] but the pow ones. *)
Lemma Sign_accepted ev key ev' cfg :
  SchnorrLaws -> 0 <= Kind ev <= 65535 -> Sign ev key = (ev', Ok tt) ->
  skipPow cfg = true \/ nonce_ok ev' ->
  minPowDifficulty cfg <= 0 \/ minPowDifficulty cfg <= countZerosFromBytes (HashID ev') -> accepted cfg ev'.
Proof.
  intros HL HK HS Hpow Hmin. apply Sign_Ok in HS as (b & s & HP & Hs & ->). cbv zeta in Hs.
  pose proof (key_hex_valid b HL) as Hlen.
  destruct (Sign_verifies HL _ _ _ (length_sha256 _) Hs) as (pk & Hpk & Hv).
  split; [by apply encode_key|]. split; [done|]. split; [done|]. split; [done|]. split; [done|].
  exists (SerializeSig s), s, (drop 1 (compressed (PrivKeyFromBytes b))), pk. cbn [Sig PubKey].
  unfold key_hex. rewrite !Hex.decode_encode. split; [done|]. split; [by apply ParseSignature_Serialize|]. done.
Qed.

(** ** Properties *)

(** C4: Verify accepts exactly the events that are what they claim: a 64-digit
    hex key and a kind in range, an id that is the lowercase hex SHA-256 of the
    canonical pre-image, a signature over that hash that verifies under the
    event's own key, a nonce tag (when there is one and the check is on) that
    ValidatePow accepts and, under a minimum, that much difficulty in the
    hash. *)
Theorem Verify_iff (opts : list VerifyOption) (ev : Event) :
  Verify opts ev = Ok tt <-> accepted (config opts) ev.
Proof. apply Verify_accepted. Qed.

Lemma same_id_same_event (o1 o2 : list VerifyOption) (ev1 ev2 : Event)
    (H1 : Verify o1 ev1 = Ok tt) (H2 : Verify o2 ev2 = Ok tt)
    (Hc1 : 0 <= CreatedAt ev1 < 2 ^ 64) (Hc2 : 0 <= CreatedAt ev2 < 2 ^ 64)
    (HID : ID ev1 = ID ev2) :
  (ToLower (PubKey ev1) = ToLower (PubKey ev2) /\ CreatedAt ev1 = CreatedAt ev2 /\ Kind ev1 = Kind ev2 /\
   Tags ev1 = Tags ev2 /\ Content ev1 = Content ev2) \/
  (Serialize ev1 <> Serialize ev2 /\ sha256 (Serialize ev1) = sha256 (Serialize ev2)).
Proof.
  apply Verify_accepted in H1 as (HP1 & HK1 & HI1 & _), H2 as (HP2 & HK2 & HI2 & _).
  assert (HE : sha256 (Serialize ev1) = sha256 (Serialize ev2)).
  { apply Hex.encode_inj. fold (HashID ev1) (HashID ev2). congruence. }
  destruct (decide (Serialize ev1 = Serialize ev2)) as [HS|HS]; [left|by right].
  apply Validate32Key_lower in HP1 as [_ HP1], HP2 as [_ HP2].
  apply preimage_split in HS; try done; lia.
Qed.

(** an id commits to the event: two accepted events with the same id agree
    on the author (up to case), time, kind, tags and content, or exhibit a
    SHA-256 collision. *)
Theorem event_id_binds (o1 o2 : list VerifyOption) (ev1 ev2 : Event)
    (H1 : Verify o1 ev1 = Ok tt) (H2 : Verify o2 ev2 = Ok tt)
    (Hc1 : 0 <= CreatedAt ev1 < 2 ^ 64) (Hc2 : 0 <= CreatedAt ev2 < 2 ^ 64)
    (HID : ID ev1 = ID ev2) :
  (ToLower (PubKey ev1) = ToLower (PubKey ev2) /\ CreatedAt ev1 = CreatedAt ev2 /\ Kind ev1 = Kind ev2 /\
   Tags ev1 = Tags ev2 /\ Content ev1 = Content ev2) \/
  (Serialize ev1 <> Serialize ev2 /\ sha256 (Serialize ev1) = sha256 (Serialize ev2)).
Proof. by apply (same_id_same_event o1 o2). Qed.

(** what Sign produced verifies: with a key in range and a kind in range,
    signing sets the key, the id and the signature so that Verify accepts,
    leaves time, kind, tags and content alone, and the key is the one
    GetPublicKey derives (an event with a nonce tag needs the pow check off). *)
Theorem Sign_then_Verify (ev ev' : Event) (key : gostring) (opts : list VerifyOption)
    (HL : SchnorrLaws) (HK : 0 <= Kind ev <= 65535) (HS : Sign ev key = (ev', Ok tt))
    (Hpow : skipPow (config opts) = true \/ LookupEventTag (Tags ev) POWTagName = None)
    (Hmin : minPowDifficulty (config opts) <= 0) :
  Verify opts ev' = Ok tt /\ GetPublicKey key = Ok (PubKey ev') /\
  CreatedAt ev' = CreatedAt ev /\ Kind ev' = Kind ev /\ Tags ev' = Tags ev /\ Content ev' = Content ev.
Proof.
  pose proof (Sign_Ok ev key ev' HS) as (b & s & HP & _ & He). split.
  - apply Verify_accepted, (Sign_accepted ev key); try done; [|by left].
    destruct Hpow as [|HN]; [by left|right; left]. by rewrite He.
  - rewrite He. unfold GetPublicKey. by rewrite HP.
Qed.

(** mining and signing compose: an event mined under its signer's key and
    then signed with that key verifies with the target as required minimum,
    its nonce tag checked as well. *)
Theorem mined_then_signed_verifies (winner fuel : nat) (ev ev1 ev2 : Event) (d workers : Z) (key : gostring)
    (HL : SchnorrLaws) (Hd : 0 <= d < 2 ^ 63) (Hw : Z.of_nat winner < 2 ^ 63)
    (HKey : GetPublicKey key = Ok (PubKey ev))
    (HM : EvMine winner fuel ev d workers = (ev1, Ok tt)) (HS : Sign ev1 key = (ev2, Ok tt)) :
  Verify [WithMinPowDifficulty d] ev2 = Ok tt /\ ID ev2 = ID ev1 /\
  exists n, Tags ev2 = Tags ev ++ [nonce_tag n d].
Proof.
  unfold EvMine in HM. destruct (Mine _ _ _ _ _) as [[id t]|e|] eqn:EM; [|done|done]. injection HM as <-.
  pose proof (Mine_guards _ _ _ _ _ _ EM) as (_ & _ & HK & _). cbn [fields_of fKind] in HK.
  apply Mine_facts in EM as (n & Hn & -> & Hid & Hz & Hpow); [|lia|done].
  pose proof (Sign_Ok _ _ _ HS) as (b & s & HP & _ & He).
  assert (HPK : PubKey ev = key_hex b) by (unfold GetPublicKey in HKey; rewrite HP in HKey; by injection HKey).
  assert (HH : HashID ev2 = attempt (fields_of ev [] (Sig ev)) d n) by (rewrite He; unfold HashID, Serialize, attempt; cbn; by rewrite HPK).
  assert (HI2 : ID ev2 = id) by (rewrite Hid, <- HH, He; reflexivity).
  split; [|split; [done|rewrite He; by exists n]].
  apply Verify_accepted. eapply (Sign_accepted _ key ev2 _ HL); [|exact HS| |].
  - by apply ValidateKind_ok.
  - right. right. exists (Dec.format_uint n), d. rewrite HI2, He. unfold fields_of. cbn. rewrite <- HPK. apply Hpow.
  - right. by rewrite HH.
Qed.

End Event.

(** ** Witnesses *)

(** A stand-in for the curve library that satisfies its laws: the signature of a
    digest is the digest. *)
Definition toy_schnorr : Schnorr := {|
  PrivateKey := list byte; PublicKey := list byte; Signature := list byte;
  PrivKeyFromBytes b := b;
  compressed sk := x02 :: take 32 (sk ++ repeat x00 32);
  ParsePubKey := Some; ParseSignature := Some; SerializeSig s := s;
  SchnorrSign _ h := Some h;
  SchnorrVerify s h _ := bool_decide (s = h);
|}.

#[local] Existing Instance toy_schnorr.

Lemma toy_laws : SchnorrLaws.
Proof.
  split; cbn.
  - intros sk. cbn. rewrite length_take, length_app. cbn [length]. lia.
  - done.
  - intros sk h s _ [= <-]. eexists. split; [done|]. by apply bool_decide_eq_true.
Qed.

#[local] Existing Instance ascii_lower.

Definition sample_key : gostring := repeat x31 64.
Definition sample_event : Event := NewEvent 1700000000 1 (bs "hello") [[bs "t"; bs "x"]].
Definition signed_event : Event := (Sign sample_event sample_key).1.

Lemma Sign_then_Verify_witness :
  Verify [] signed_event = Ok tt /\ GetPublicKey sample_key = Ok (PubKey signed_event).
Proof.
  destruct (Sign_then_Verify sample_event signed_event sample_key [] toy_laws) as (HV & HG & _).
  - cbn. lia.
  - vm_compute. reflexivity.
  - right. vm_compute. reflexivity.
  - cbn. lia.
  - split; [exact HV|exact HG].
Defined.

Lemma event_id_binds_witness :
  let ev2 := mkEvent (ID signed_event) (PubKey signed_event) 1700000000 1 (Tags signed_event) (bs "hello")
               (Sig signed_event) in
  Content signed_event = Content ev2 \/
  (Serialize signed_event <> Serialize ev2 /\ sha256 (Serialize signed_event) = sha256 (Serialize ev2)).
Proof.
  intros ev2. destruct (event_id_binds [] [WithoutPowCheck] signed_event ev2) as [(_ & _ & _ & _ & HC)|HC].
  - vm_compute. reflexivity.
  - vm_compute. reflexivity.
  - vm_compute. split; [discriminate|reflexivity].
  - vm_compute. split; [discriminate|reflexivity].
  - reflexivity.
  - left. exact HC.
  - right. exact HC.
Defined.

Definition keyed_event : Event := set_PubKey sample_event (PubKey signed_event).

Lemma mined_then_signed_verifies_witness :
  let mined := (EvMine 0 30 keyed_event 2 1).1 in
  let signed := (Sign mined sample_key).1 in
  Verify [WithMinPowDifficulty 2] signed = Ok tt /\ ID signed = ID mined.
Proof.
  intros mined signed.
  destruct (mined_then_signed_verifies 0 30 keyed_event mined signed 2 1 sample_key toy_laws) as (HV & HI & _).
  - lia.
  - lia.
  - vm_compute. reflexivity.
  - vm_compute. reflexivity.
  - vm_compute. reflexivity.
  - split; [exact HV|exact HI].
Defined.

(** * encoding/json on events

    The interface between the packages that carry an event as JSON and the
    codec of [encoding/json] for [nip01.Event]. *)

Class EventJSON := {
  MarshalEvent : Event -> list byte;
  UnmarshalEvent : list byte -> option Event;
}.

(** The event survives its encoding (Go replaces invalid UTF-8, so not every
    event does). *)
Definition json_stable `{!EventJSON} (ev : Event) : Prop := UnmarshalEvent (MarshalEvent ev) = Some ev.
