(* ===== verification/Filter.v ===== *)
(** * nip01: subscription filters

    [nip01/filters.go] (matching, equality, groups) and [nip01/filter_builder.go].
    Match distinguishes a nil id, author or kind list (no constraint) from an
    empty one (nothing matches), so those fields are options.  The JSON codec
    of a filter is not modelled. *)

From S2P Require Import Prelude GoLib Sha256 NostrUtils Pow Event.

Record SubscriptionFilter := mkFilter {
  IDs : option (list gostring);
  Authors : option (list gostring);
  Kinds : option (list Z);
  FTags : gmap gostring (list gostring);
  Since : Z;
  Until : Z;
  Limit : Z;
  Search : gostring;
  Cache : gostring;
  BeforeID : gostring;
}.

(** len and range do not see the difference between nil and empty. *)
Definition elems {A} (o : option (list A)) : list A := default [] o.

(** append: nil stays nil when nothing is appended. *)
Definition append_opt {A} (o : option (list A)) (l : list A) : option (list A) :=
  match o, l with None, [] => None | _, _ => Some (elems o ++ l) end.

(** ** Building *)

Definition NewFilter : SubscriptionFilter := mkFilter None None None ∅ 0 0 0 [] [] [].

Definition WithKinds (sf : SubscriptionFilter) (kinds : list Z) : SubscriptionFilter :=
  mkFilter (IDs sf) (Authors sf) (append_opt (Kinds sf) kinds) (FTags sf) (Since sf) (Until sf) (Limit sf)
           (Search sf) (Cache sf) (BeforeID sf).
Definition WithAuthors (sf : SubscriptionFilter) (pubkeys : list gostring) : SubscriptionFilter :=
  mkFilter (IDs sf) (append_opt (Authors sf) pubkeys) (Kinds sf) (FTags sf) (Since sf) (Until sf) (Limit sf)
           (Search sf) (Cache sf) (BeforeID sf).
Definition WithIDs (sf : SubscriptionFilter) (ids : list gostring) : SubscriptionFilter :=
  mkFilter (append_opt (IDs sf) ids) (Authors sf) (Kinds sf) (FTags sf) (Since sf) (Until sf) (Limit sf)
           (Search sf) (Cache sf) (BeforeID sf).
Definition WithLimit (sf : SubscriptionFilter) (n : Z) : SubscriptionFilter :=
  mkFilter (IDs sf) (Authors sf) (Kinds sf) (FTags sf) (Since sf) (Until sf) n (Search sf) (Cache sf) (BeforeID sf).
Definition WithSince (sf : SubscriptionFilter) (t : Z) : SubscriptionFilter :=
  mkFilter (IDs sf) (Authors sf) (Kinds sf) (FTags sf) t (Until sf) (Limit sf) (Search sf) (Cache sf) (BeforeID sf).
Definition WithUntil (sf : SubscriptionFilter) (t : Z) : SubscriptionFilter :=
  mkFilter (IDs sf) (Authors sf) (Kinds sf) (FTags sf) (Since sf) t (Limit sf) (Search sf) (Cache sf) (BeforeID sf).
Definition WithTag (sf : SubscriptionFilter) (name : gostring) (values : list gostring) : SubscriptionFilter :=
  mkFilter (IDs sf) (Authors sf) (Kinds sf) (<[name := elems (FTags sf !! name) ++ values]> (FTags sf))
           (Since sf) (Until sf) (Limit sf) (Search sf) (Cache sf) (BeforeID sf).

(** ** Matching *)

Definition hasMatchingPrefix (candidates : list gostring) (full : gostring) : bool :=
  existsb (fun c => (zlen c <? 64) && (zlen c <=? zlen full) && bool_decide (take (length c) full = c)) candidates.

Definition eventHasTagValue (ts : tags) (tagKey : gostring) (wanted : list gostring) : bool :=
  existsb (fun t : tag => match t with
                          | n :: ((_ :: _) as vs) => bool_decide (n = tagKey) && existsb (fun v => in_list v wanted) vs
                          | _ => false
                          end) ts.

(** strings.HasPrefix and strings.Contains *)
Definition has_prefix (s p : gostring) : bool := bool_decide (take (length p) s = p).

Fixpoint contains (s sub : gostring) : bool :=
  has_prefix s sub || match s with [] => false | _ :: s => contains s sub end.

Section Match.
Context {GoLower0 : GoLower}.

Definition Match (sf : SubscriptionFilter) (ev : Event) : bool :=
  match IDs sf with
  | Some ids => in_list (ID ev) ids || hasMatchingPrefix ids (ID ev)
  | None => true
  end &&
  match Authors sf with
  | Some authors => in_list (PubKey ev) authors || hasMatchingPrefix authors (PubKey ev)
  | None => true
  end &&
  match Kinds sf with Some kinds => in_list (Kind ev) kinds | None => true end &&
  negb (negb (Since sf =? 0) && (CreatedAt ev <? Since sf)) &&
  negb (negb (Until sf =? 0) && (Until sf <? CreatedAt ev)) &&
  forallb (fun kv => eventHasTagValue (Tags ev) kv.1 kv.2) (map_to_list (FTags sf)) &&
  (bool_decide (Search sf = []) || contains (ToLower (Content ev)) (ToLower (Search sf))).

Definition GroupMatch (all : list SubscriptionFilter) (ev : Event) : bool := existsb (fun f => Match f ev) all.

End Match.

Definition IsEmpty (sf : SubscriptionFilter) : bool :=
  bool_decide (elems (IDs sf) = []) && bool_decide (elems (Authors sf) = []) && bool_decide (elems (Kinds sf) = []) &&
  bool_decide (size (FTags sf) = 0%nat) && (Since sf =? 0) && (Until sf =? 0) && (Limit sf =? 0).

(** ** Equality and groups *)

Definition Equals (sf other : SubscriptionFilter) : bool :=
  bool_decide (elems (IDs sf) = elems (IDs other)) &&
  bool_decide (elems (Authors sf) = elems (Authors other)) &&
  bool_decide (elems (Kinds sf) = elems (Kinds other)) &&
  (Since sf =? Since other) && (Until sf =? Until other) && (Limit sf =? Limit other) &&
  bool_decide (Search sf = Search other) && bool_decide (Cache sf = Cache other) &&
  bool_decide (size (FTags sf) = size (FTags other)) &&
  forallb (fun kv => match FTags other !! kv.1 with
                     | Some ov => bool_decide (kv.2 = ov)
                     | None => false
                     end) (map_to_list (FTags sf)).

(** A SubscriptionFilterGroup is its slice of filters. *)
Definition Add (all filters : list SubscriptionFilter) : list SubscriptionFilter := all ++ filters.

Fixpoint GroupEquals (all other : list SubscriptionFilter) : bool :=
  match all, other with
  | [], [] => true
  | f :: all, g :: other => Equals f g && GroupEquals all other
  | _, _ => false
  end.

Definition ResetSince (all : list SubscriptionFilter) (lastUpdate : Z) : list SubscriptionFilter :=
  if 0 <? lastUpdate then map (fun f => WithSince f lastUpdate) all else all.

Definition HasSearch (all : list SubscriptionFilter) : bool :=
  existsb (fun f => negb (bool_decide (Search f = []))) all.

(** ** Matching, declaratively *)

(** An id or author list admits a string: no list, or some entry that is the
    string itself or, if shorter than a full key, a prefix of it. *)
Definition admits (o : option (list gostring)) (s : gostring) : Prop :=
  match o with
  | None => True
  | Some l => exists c, c ∈ l /\ (c = s \/ (zlen c < 64 /\ c `prefix_of` s))
  end.

Lemma take_prefix (c s : gostring) : take (length c) s = c <-> c `prefix_of` s.
Proof.
  split; [intros HE; exists (drop (length c) s); by rewrite <- HE at 1; rewrite take_drop|].
  intros [k ->]. apply take_length_app.
Qed.

Lemma hasMatchingPrefix_spec l s :
  hasMatchingPrefix l s = true <-> exists c, c ∈ l /\ zlen c < 64 /\ c `prefix_of` s.
Proof.
  unfold hasMatchingPrefix. rewrite existsb_exists. split.
  - intros (c & Hc & HE). rewrite !andb_true_iff, bool_decide_eq_true, take_prefix, Z.ltb_lt in HE.
    exists c. split; [by apply list_elem_of_In|]. tauto.
  - intros (c & Hc & Hl & HP). exists c. split; [by apply list_elem_of_In|].
    pose proof (prefix_length _ _ HP). rewrite (proj2 (Z.ltb_lt _ _)) by done.
    rewrite (proj2 (Z.leb_le _ _)) by (unfold zlen; lia). cbn. by apply bool_decide_eq_true, take_prefix.
Qed.

Lemma admits_spec o s :
  match o with Some l => in_list s l || hasMatchingPrefix l s | None => true end = true <-> admits o s.
Proof.
  destruct o as [l|]; [|done]. unfold admits, in_list. rewrite orb_true_iff, bool_decide_eq_true, hasMatchingPrefix_spec.
  split.
  - intros [Hin|(c & Hc & Hl & HP)]; [exists s; auto|exists c; auto].
  - intros (c & Hc & [->|[Hl HP]]); [by left|right; by exists c].
Qed.

Lemma eventHasTagValue_spec ts k wanted :
  eventHasTagValue ts k wanted = true <-> exists vs v, (k :: vs) ∈ ts /\ v ∈ vs /\ v ∈ wanted.
Proof.
  unfold eventHasTagValue. rewrite existsb_exists. split.
  - intros ([|n [|a vs]] & Ht & H); [done..|].
    rewrite andb_true_iff, bool_decide_eq_true, existsb_exists in H. destruct H as (-> & v & Hv & Hw).
    apply bool_decide_eq_true in Hw.
    exists (a :: vs), v. split; [by apply list_elem_of_In|]. split; [by apply list_elem_of_In|done].
  - intros (vs & v & Ht & Hv & Hw). exists (k :: vs). split; [by apply list_elem_of_In|].
    destruct vs as [|a vs]; [by apply not_elem_of_nil in Hv|]. rewrite bool_decide_true by done. cbn [andb].
    apply existsb_exists. exists v. split; [by apply list_elem_of_In|by apply bool_decide_eq_true].
Qed.

Lemma forallb_map_to_list {K A} `{Countable K} (m : gmap K A) (p : K * A -> bool) :
  forallb p (map_to_list m) = true <-> forall k v, m !! k = Some v -> p (k, v) = true.
Proof.
  rewrite forallb_forall. split.
  - intros HF k v Hk. apply HF, list_elem_of_In. by apply elem_of_map_to_list.
  - intros HF [k v] Hin. apply list_elem_of_In, elem_of_map_to_list in Hin. by apply HF.
Qed.

Section Properties.
Context {GoLower0 : GoLower}.

Lemma Match_spec sf ev :
  Match sf ev = true <->
  admits (IDs sf) (ID ev) /\ admits (Authors sf) (PubKey ev) /\
  (forall kinds, Kinds sf = Some kinds -> Kind ev ∈ kinds) /\
  (Since sf <> 0 -> Since sf <= CreatedAt ev) /\
  (Until sf <> 0 -> CreatedAt ev <= Until sf) /\
  (forall k wanted, FTags sf !! k = Some wanted -> exists vs v, (k :: vs) ∈ Tags ev /\ v ∈ vs /\ v ∈ wanted) /\
  (Search sf <> [] -> contains (ToLower (Content ev)) (ToLower (Search sf)) = true).
Proof.
  unfold Match. rewrite !andb_true_iff, !admits_spec, forallb_map_to_list, orb_true_iff, bool_decide_eq_true.
  assert (HK : match Kinds sf with Some kinds => in_list (Kind ev) kinds | None => true end = true <->
               forall kinds, Kinds sf = Some kinds -> Kind ev ∈ kinds).
  { destruct (Kinds sf) as [ks|]; [|by split]. unfold in_list. rewrite bool_decide_eq_true.
    split; [by intros H ? [= <-]|by intros H; apply H]. }
  assert (HS : negb (negb (Since sf =? 0) && (CreatedAt ev <? Since sf)) = true <-> (Since sf <> 0 -> Since sf <= CreatedAt ev)).
  { destruct (Z.eqb_spec (Since sf) 0), (Z.ltb_spec (CreatedAt ev) (Since sf)); cbn; split; (done || lia). }
  assert (HU : negb (negb (Until sf =? 0) && (Until sf <? CreatedAt ev)) = true <-> (Until sf <> 0 -> CreatedAt ev <= Until sf)).
  { destruct (Z.eqb_spec (Until sf) 0), (Z.ltb_spec (Until sf) (CreatedAt ev)); cbn; split; (done || lia). }
  assert (HT : (forall k v, FTags sf !! k = Some v -> eventHasTagValue (Tags ev) (k, v).1 (k, v).2 = true) <->
    (forall k wanted, FTags sf !! k = Some wanted -> exists vs v, (k :: vs) ∈ Tags ev /\ v ∈ vs /\ v ∈ wanted)).
  { split; intros H k v Hk; [apply eventHasTagValue_spec|apply eventHasTagValue_spec]; by apply H. }
  rewrite HK, HS, HU, HT. destruct (decide (Search sf = [])); tauto.
Qed.

(** Match admits an event exactly when every constraint present holds: its id
    and author equal, or extend a shorter-than-64-digit, entry of the list; its
    kind is listed; it is within [since, until] (0 meaning unbounded); for
    every tag key some tag of that name carries a wanted value; and the search
    text, if any, occurs in the content up to case.  A group admits what one of
    its filters admits. *)
Theorem Match_iff (all : list SubscriptionFilter) (ev : Event) :
  GroupMatch all ev = true <-> exists sf, sf ∈ all /\
  admits (IDs sf) (ID ev) /\ admits (Authors sf) (PubKey ev) /\
  (forall kinds, Kinds sf = Some kinds -> Kind ev ∈ kinds) /\
  (Since sf <> 0 -> Since sf <= CreatedAt ev) /\
  (Until sf <> 0 -> CreatedAt ev <= Until sf) /\
  (forall k wanted, FTags sf !! k = Some wanted -> exists vs v, (k :: vs) ∈ Tags ev /\ v ∈ vs /\ v ∈ wanted) /\
  (Search sf <> [] -> contains (ToLower (Content ev)) (ToLower (Search sf)) = true).
Proof.
  unfold GroupMatch. rewrite existsb_exists. split.
  - intros (sf & Hin & HM). exists sf. split; [by apply list_elem_of_In|by apply Match_spec].
  - intros (sf & Hin & HM). exists sf. split; [by apply list_elem_of_In|by apply Match_spec].
Qed.

Lemma WithSince_match f t ev : 0 < t ->
  Match (WithSince f t) ev = true <-> t <= CreatedAt ev /\ Match (WithSince f 0) ev = true.
Proof.
  intros Ht. rewrite !Match_spec. cbn [WithSince IDs Authors Kinds FTags Since Until Search]. intuition (auto; lia).
Qed.

(** resuming a group at a timestamp delivers exactly the events from it on
    that the filters admit without their own since, and nothing a filter with
    an earlier since would not have admitted. *)
Theorem ResetSince_match (all : list SubscriptionFilter) (t : Z) (ev : Event) (Ht : 0 < t) :
  (GroupMatch (ResetSince all t) ev = true <->
   t <= CreatedAt ev /\ GroupMatch (map (fun f => WithSince f 0) all) ev = true) /\
  ((forall f, f ∈ all -> Since f <= t) -> GroupMatch (ResetSince all t) ev = true -> GroupMatch all ev = true).
Proof.
  unfold ResetSince. rewrite (proj2 (Z.ltb_lt 0 t)) by done. unfold GroupMatch. split.
  - rewrite !existsb_exists. split.
    + intros (g & Hg & HM). apply in_map_iff in Hg as (f & <- & Hf). apply WithSince_match in HM as [Hle HM]; [|done].
      split; [done|]. exists (WithSince f 0). split; [by apply (in_map (fun f => WithSince f 0))|done].
    + intros (Hle & g & Hg & HM). apply in_map_iff in Hg as (f & <- & Hf). exists (WithSince f t).
      split; [by apply (in_map (fun f => WithSince f t))|]. by apply WithSince_match.
  - intros HS. rewrite !existsb_exists. intros (g & Hg & HM). apply in_map_iff in Hg as (f & <- & Hf).
    exists f. split; [done|]. specialize (HS f ltac:(by apply list_elem_of_In)). revert HM. rewrite !Match_spec.
    cbn [WithSince IDs Authors Kinds FTags Since Until Search]. intuition (auto; lia).
Qed.

Lemma ResetSince_match_witness :
  let ev := mkEvent [] [] 9 1 [] [] [] in
  GroupMatch (ResetSince [WithKinds NewFilter [1]] 5) ev = true <->
  5 <= CreatedAt ev /\ GroupMatch (map (fun f => WithSince f 0) [WithKinds NewFilter [1]]) ev = true.
Proof. intros ev. apply (ResetSince_match [WithKinds NewFilter [1]] 5 ev). lia. Defined.

(** ** Equality *)

Lemma Equals_spec f g :
  Equals f g = true <->
  elems (IDs f) = elems (IDs g) /\ elems (Authors f) = elems (Authors g) /\ elems (Kinds f) = elems (Kinds g) /\
  Since f = Since g /\ Until f = Until g /\ Limit f = Limit g /\ Search f = Search g /\ Cache f = Cache g /\
  FTags f = FTags g.
Proof.
  unfold Equals. rewrite !andb_true_iff, !bool_decide_eq_true, !Z.eqb_eq, forallb_map_to_list. split.
  - intros [[H HS] HF]. assert (HT : FTags f = FTags g); [|tauto].
    apply map_subseteq_size_eq; [|lia]. apply map_subseteq_spec. intros k v Hk. specialize (HF k v Hk). cbn in HF.
    destruct (FTags g !! k) as [ov|]; [|done]. by apply bool_decide_eq_true in HF as ->.
  - intros (H1 & H2 & H3 & H4 & H5 & H6 & H7 & H8 & HT). split; [split; [tauto|by rewrite HT]|].
    intros k v Hk. cbn. rewrite <- HT, Hk. by apply bool_decide_eq_true.
Qed.

(** Whether the lists Match treats specially when nil are nil. *)
Definition same_nil (f g : SubscriptionFilter) : Prop :=
  (IDs f = None <-> IDs g = None) /\ (Authors f = None <-> Authors g = None) /\ (Kinds f = None <-> Kinds g = None).

Lemma elems_eq {A} (o p : option (list A)) : elems o = elems p -> (o = None <-> p = None) -> o = p.
Proof. destruct o, p; cbn; intros HE [H1 H2]; try congruence; [by specialize (H2 eq_refl)|by specialize (H1 eq_refl)]. Qed.

(** filter equality is an equivalence, and equal filters select the same
    events provided they agree on which of ids, authors and kinds are nil. *)
Theorem Equals_equivalence :
  (forall f, Equals f f = true) /\ (forall f g, Equals f g = Equals g f) /\
  (forall f g h, Equals f g = true -> Equals g h = true -> Equals f h = true) /\
  (forall f g ev, Equals f g = true -> same_nil f g -> Match f ev = Match g ev).
Proof.
  split; [|split; [|split]].
  - intros f. by apply Equals_spec.
  - intros f g. apply eq_true_iff_eq. rewrite !Equals_spec. naive_solver.
  - intros f g h. rewrite !Equals_spec. naive_solver congruence.
  - intros f g ev HE (N1 & N2 & N3). apply Equals_spec in HE as (E1 & E2 & E3 & E4 & E5 & _ & E7 & _ & ET).
    apply elems_eq in E1, E2, E3; try done. unfold Match. by rewrite E1, E2, E3, E4, E5, E7, ET.
Qed.

(** without that proviso Equals is coarser than Match: a nil and an empty
    kind list are "the same filter" although one selects every event and the
    other none.  Nor does it compare the before_id cursor: two pages of one
    query are "the same filter". *)
Theorem Equals_conflates :
  let f := NewFilter in
  let g := mkFilter None None (Some []) ∅ 0 0 0 [] [] [] in
  let page id := mkFilter None None None ∅ 0 7 0 [] [] id in
  (Equals f g = true /\ (forall ev, Match f ev = true) /\ (forall ev, Match g ev = false)) /\
  (page (bs "a") <> page (bs "b") /\ Equals (page (bs "a")) (page (bs "b")) = true).
Proof.
  split; [split; [by vm_compute|]; split; [done|]; intros ev; reflexivity|]. split; [by vm_compute|by vm_compute].
Qed.

End Properties.
