(* ===== verification/Latest.v ===== *)
(** * nip01: replaceable events

    [nip01/latest.go]: which of several versions of a replaceable or addressable
    event wins.  [deadline] is [now.Add(maxSkew).Unix()]; nil events are None. *)

From S2P Require Import Prelude GoLib Sha256 NostrUtils Pow Event.

Section Latest.
Context {GoLower0 : GoLower}.

Definition Supersedes (a b : Event) : bool :=
  if negb (CreatedAt a =? CreatedAt b) then CreatedAt b <? CreatedAt a
  else Cmp.ltb (ToLower (ID a)) (ToLower (ID b)).

(** One iteration of LatestVersion's loop. *)
Definition latest_step (limit : Z) (best : option Event) (ev : option Event) : option Event :=
  match ev with
  | None => best
  | Some ev =>
      if limit <? CreatedAt ev then best
      else match best with
           | None => Some ev
           | Some b => if Supersedes ev b then Some ev else best
           end
  end.

Definition limit_of (deadline : Z) : Z := u64 (Z.max deadline 0).

Definition LatestVersion (events : list (option Event)) (deadline : Z) : option Event :=
  foldl (latest_step (limit_of deadline)) None events.

(** The value of the first "d" tag, empty when it has none. *)
Fixpoint dTag_of (ts : tags) : gostring :=
  match ts with
  | [] => []
  | t :: ts =>
      if tag_is (bs "d") t then match t with _ :: v :: _ => v | _ => [] end
      else dTag_of ts
  end.

Definition dTag (ev : Event) : gostring := dTag_of (Tags ev).

Definition ReplaceableAddress (ev : Event) : option gostring :=
  if IsParamReplaceableKind (Kind ev) then
    Some (Dec.itoa (Kind ev) ++ colon :: ToLower (PubKey ev) ++ colon :: dTag ev)
  else if IsReplaceableKind (Kind ev) then
    Some (Dec.itoa (Kind ev) ++ colon :: ToLower (PubKey ev) ++ [colon])
  else None.

(** The grouping loop. *)
Definition group_step (groups : gmap gostring (list (option Event))) (ev : option Event)
    : gmap gostring (list (option Event)) :=
  match ev with
  | None => groups
  | Some e =>
      match ReplaceableAddress e with
      | None => groups
      | Some addr => <[addr := default [] (groups !! addr) ++ [ev]]> groups
      end
  end.

Definition LatestVersions (events : list (option Event)) (deadline : Z) : gmap gostring Event :=
  omap (fun evs => LatestVersion evs deadline) (foldl group_step ∅ events).

(** ** The order *)

Lemma Supersedes_irrefl a : Supersedes a a = false.
Proof. unfold Supersedes. rewrite Z.eqb_refl. apply Cmp.ltb_irrefl. Qed.

Lemma Supersedes_trans a b c : Supersedes a b = true -> Supersedes b c = true -> Supersedes a c = true.
Proof.
  unfold Supersedes.
  destruct (Z.eqb_spec (CreatedAt a) (CreatedAt b)), (Z.eqb_spec (CreatedAt b) (CreatedAt c)),
    (Z.eqb_spec (CreatedAt a) (CreatedAt c)); cbn [negb]; rewrite ?Z.ltb_lt; try lia.
  apply Cmp.ltb_trans.
Qed.

(** Two versions neither of which supersedes the other: one event id. *)
Lemma Supersedes_total a b : Supersedes a b = false -> Supersedes b a = false ->
  CreatedAt a = CreatedAt b /\ ToLower (ID a) = ToLower (ID b).
Proof.
  unfold Supersedes. rewrite (Z.eqb_sym (CreatedAt b)).
  destruct (Z.eqb_spec (CreatedAt a) (CreatedAt b)); cbn [negb]; rewrite ?Z.ltb_ge; [|lia].
  intros H1 H2. split; [done|by apply Cmp.ltb_total].
Qed.

(** ** The winner *)

Definition eligible (limit : Z) (events : list (option Event)) (ev : Event) : Prop :=
  Some ev ∈ events /\ CreatedAt ev <= limit.

(** The winner among [events] of a fold that started from nothing. *)
Definition wins (limit : Z) (events : list (option Event)) (best : option Event) : Prop :=
  match best with
  | None => forall ev, ~ eligible limit events ev
  | Some b => eligible limit events b /\ forall ev, eligible limit events ev -> Supersedes ev b = false
  end.

Lemma eligible_snoc limit events x ev :
  eligible limit (events ++ [x]) ev <-> eligible limit events ev \/ (x = Some ev /\ CreatedAt ev <= limit).
Proof. unfold eligible. rewrite elem_of_app, list_elem_of_singleton. intuition congruence. Qed.

Lemma latest_step_wins limit events best x :
  wins limit events best -> wins limit (events ++ [x]) (latest_step limit best x).
Proof.
  intros HW. destruct x as [e|]; cbn [latest_step].
  2: { destruct best as [b|]; cbn in *; [destruct HW as [HE HB]; split|]; intros; rewrite eligible_snoc in *; naive_solver. }
  destruct (Z.ltb_spec limit (CreatedAt e)) as [Hl|Hl].
  { assert (HN : forall ev, eligible limit (events ++ [Some e]) ev <-> eligible limit events ev).
    { intros ev. rewrite eligible_snoc. split; [|tauto]. intros [|[[= <-] ?]]; [done|lia]. }
    destruct best as [b|]; cbn in *; [destruct HW as [HE HB]; split; [by apply HN|]|]; intros ev Hev; apply HN in Hev; auto.
    by apply (HW ev). }
  assert (He : eligible limit (events ++ [Some e]) e) by (apply eligible_snoc; right; done).
  destruct best as [b|]; [destruct HW as [HE HB]; destruct (Supersedes e b) eqn:ES|]; cbn in *.
  - split; [done|]. intros ev Hev. apply eligible_snoc in Hev as [Hev|[[= <-] _]]; [|apply Supersedes_irrefl].
    specialize (HB ev Hev). destruct (Supersedes ev e) eqn:E2; [|done].
    by rewrite (Supersedes_trans ev e b E2 ES) in HB.
  - split; [apply eligible_snoc; by left|]. intros ev Hev. apply eligible_snoc in Hev as [Hev|[[= <-] _]]; auto.
  - split; [done|]. intros ev Hev. apply eligible_snoc in Hev as [Hev|[[= <-] _]]; [by apply HW in Hev|apply Supersedes_irrefl].
Qed.

Lemma LatestVersion_wins events deadline : wins (limit_of deadline) events (LatestVersion events deadline).
Proof.
  unfold LatestVersion. induction events as [|x events IH] using rev_ind.
  - cbn. intros ev [Hin _]. by apply not_elem_of_nil in Hin.
  - rewrite foldl_app. by apply latest_step_wins.
Qed.

(** Supersedes is a strict order that leaves only equal time and id
    unordered, and LatestVersion returns its greatest eligible event: one of the
    list, not dated past the limit, that no eligible event supersedes; nil
    exactly when none is eligible.  Any permutation of the list gives a winner
    of the same time and id. *)
Theorem LatestVersion_greatest (events events' : list (option Event)) (deadline : Z) (HP : events ≡ₚ events') :
  match LatestVersion events deadline, LatestVersion events' deadline with
  | Some b, Some b' =>
      eligible (limit_of deadline) events b /\
      (forall ev, eligible (limit_of deadline) events ev ->
         ev = b \/ Supersedes b ev = true \/ (CreatedAt ev = CreatedAt b /\ ToLower (ID ev) = ToLower (ID b))) /\
      CreatedAt b = CreatedAt b' /\ ToLower (ID b) = ToLower (ID b')
  | None, None => forall ev, ~ eligible (limit_of deadline) events ev
  | _, _ => False
  end.
Proof.
  pose proof (LatestVersion_wins events deadline) as W1. pose proof (LatestVersion_wins events' deadline) as W2.
  assert (HE : forall ev, eligible (limit_of deadline) events ev <-> eligible (limit_of deadline) events' ev).
  { intros ev. unfold eligible. by rewrite HP. }
  destruct (LatestVersion events deadline) as [b|], (LatestVersion events' deadline) as [b'|]; cbn in *.
  - destruct W1 as [E1 M1], W2 as [E2 M2]. split; [done|]. split.
    + intros ev Hev. right. destruct (Supersedes b ev) eqn:ES; [by left|right].
      apply Supersedes_total; auto.
    + apply Supersedes_total; [by apply M2, HE|by apply M1, HE].
  - apply (W2 b). by apply HE, W1.
  - apply (W1 b'). by apply HE, W2.
  - done.
Qed.

(** ** Grouping *)

(** The events of one slot, in order. *)
Definition in_slot (addr : gostring) (ev : option Event) : bool :=
  match ev with Some e => bool_decide (ReplaceableAddress e = Some addr) | None => false end.

Lemma groups_lookup events addr :
  foldl group_step ∅ events !! addr
  = match List.filter (in_slot addr) events with [] => None | l => Some l end.
Proof.
  induction events as [|x events IH] using rev_ind; [done|].
  rewrite foldl_app, List.filter_app. cbn [foldl List.filter]. set (g := foldl group_step ∅ events) in *.
  destruct x as [e|]; cbn [group_step in_slot]; [|by rewrite app_nil_r].
  destruct (ReplaceableAddress e) as [a|]; [|rewrite bool_decide_false by done; by rewrite app_nil_r].
  destruct (decide (a = addr)) as [->|Hne].
  - rewrite lookup_insert_eq, bool_decide_true by done. rewrite IH. by destruct (List.filter _ events).
  - rewrite lookup_insert_ne by done. rewrite bool_decide_false by congruence. by rewrite app_nil_r.
Qed.

(** LatestVersions keeps exactly one winner per slot: what it maps an address
    to is the LatestVersion of the events of that slot, in every case (no
    event, only future-dated ones, several versions), and it is itself of that
    slot; events of other kinds never appear. *)
Theorem LatestVersions_spec (events : list (option Event)) (deadline : Z) (addr : gostring) :
  LatestVersions events deadline !! addr = LatestVersion (List.filter (in_slot addr) events) deadline /\
  (forall ev, LatestVersions events deadline !! addr = Some ev ->
     Some ev ∈ events /\ ReplaceableAddress ev = Some addr /\
     (IsReplaceableKind (Kind ev) || IsParamReplaceableKind (Kind ev)) = true).
Proof.
  assert (HL : LatestVersions events deadline !! addr = LatestVersion (List.filter (in_slot addr) events) deadline).
  { unfold LatestVersions. rewrite lookup_omap, groups_lookup. by destruct (List.filter _ events). }
  split; [done|]. intros ev Hev. rewrite HL in Hev.
  pose proof (LatestVersion_wins (List.filter (in_slot addr) events) deadline) as HW. rewrite Hev in HW.
  destruct HW as [[Hin _] _]. apply list_elem_of_In, List.filter_In in Hin as [Hin HS]. cbn in HS.
  apply bool_decide_eq_true in HS. split; [by apply list_elem_of_In|]. split; [done|].
  unfold ReplaceableAddress in HS. destruct (IsParamReplaceableKind _); [apply orb_true_r|].
  by destruct (IsReplaceableKind _).
Qed.

End Latest.

Lemma LatestVersion_greatest_witness :
  let e t i := Some (mkEvent [i] [] t 0 [] [] []) in
  let l1 := [e 5 x62; e 9 x63; e 5 x61; None] in
  let l2 := [e 9 x63; e 5 x61; e 5 x62; None] in
  LatestVersion (GoLower0 := ascii_lower) l1 7 = e 5 x61 /\
  CreatedAt <$> LatestVersion (GoLower0 := ascii_lower) l1 7
  = CreatedAt <$> LatestVersion (GoLower0 := ascii_lower) l2 7.
Proof.
  intros e l1 l2. split; [vm_compute; reflexivity|].
  pose proof (LatestVersion_greatest (GoLower0 := ascii_lower) l1 l2 7
    (Permutation_middle [e 9 x63; e 5 x61] [None] (e 5 x62))) as HG.
  destruct (LatestVersion l1 7) as [b|], (LatestVersion l2 7) as [b'|]; cbn.
  - destruct HG as (_ & _ & HC & _). rewrite HC. reflexivity.
  - destruct HG.
  - destruct HG.
  - reflexivity.
Defined.
