(* ===== verification/StoreDb.v ===== *)
(** * relay/store.go: writing events and their indexes

    A transaction's view of the database, and the operations that put an event
    with its index entries or take it out again, with the counters of
    [relay/store_counters.go] that change in the same transaction.  The zap and
    social indexes and the feeds are other components: the interface
    [Derived], called wherever the code calls them, which may refuse a write
    but cannot touch the store's own buckets. *)

From S2P Require Import Prelude GoLib Bolt Sha256 NostrUtils Pow Event Filter.

(** * relay/store.go: index keys and cursors

    The buckets of the event store, the keys an event has in each of them, and
    the cursors a filter walks.  Every query index ends its keys in created_at
    and the arrival number, so a prefix walked backwards yields its events
    newest first. *)

Inductive Index :=
  | indexEvents | indexID | indexPubkey | indexKind | indexTag | indexCreatedAt | indexExpiration | indexKindPubkey.

#[global] Instance Index_eq_dec : EqDecision Index.
Proof. solve_decision. Defined.

Inductive StoreErr :=
  | ErrEventDuplicated | ErrEventNotFound | ErrHexKey | ErrKeySizeBad | ErrFilter | ErrBoltPut | ErrEventJSON
  | ErrBadRecord | ErrDerivedIndex | ErrTaskType
  | OutOfPasses. (* no error of the code: the bound the model puts on the passes of a scan *)

#[global] Instance StoreErr_eq_dec : EqDecision StoreErr.
Proof. solve_decision. Defined.

Definition of_opt {A} (o : option A) (e : StoreErr) : outcome StoreErr A :=
  match o with Some a => Ok a | None => Err e end.

Definition defaultMaxLimit : Z := 10000000.
Definition defaultMaxIndexableTags : Z := 5.
Definition filterMinLimit : Z := 1.
Definition maxCursorChunk : Z := 4096.
Definition rangeProbeCap : Z := 1024.

(** ** Numbers in keys *)

Definition itob (v : Z) : gostring := BE.put64 v.

Definition btoi (b : gostring) : outcome StoreErr Z :=
  if (length b <? 8)%nat then Panic else Ok (BE.get64 b).

Definition maxUint64Bytes : gostring := itob (2 ^ 64 - 1).
Definition maxSuffixBytes : gostring := repeat xff (8 + 8).

Definition concatKey (parts : list gostring) : gostring := concat parts.

(** ** Tags *)

Definition tagIndexPrefix (name value : gostring) : option gostring :=
  match name with
  | [c] => if 0xFFFF <? zlen value then None
           else Some ([c] ++ [z2b (Z.shiftr (zlen value) 8); z2b (zlen value)] ++ value)
  | _ => None
  end.

(** The loop of prepareIndexableTags; [n] entries have been found. *)
Fixpoint indexable_from (n maxIndexableTags : Z) (ts : tags) : list gostring :=
  match ts with
  | [] => []
  | (tagName :: tagFirstVal :: _) :: ts =>
      if is_ok (ValidateIndexableTag tagName) then
        match tagIndexPrefix tagName tagFirstVal with
        | None => indexable_from n maxIndexableTags ts
        | Some entry =>
            entry :: (if n + 1 =? maxIndexableTags then [] else indexable_from (n + 1) maxIndexableTags ts)
        end
      else indexable_from n maxIndexableTags ts
  | _ :: ts => indexable_from n maxIndexableTags ts
  end.

Definition prepareIndexableTags (ts : tags) (maxIndexableTags : Z) : list gostring :=
  indexable_from 0 maxIndexableTags ts.

(** strconv.ParseUint's value when its error is ignored: zero for a syntax
    error, the greatest uint64 for a number out of range. *)
Definition parse_uint_value (s : gostring) : Z :=
  match Dec.parse_digits s with Some z => Z.min z (2 ^ 64 - 1) | None => 0 end.

Fixpoint getExpiration (ts : tags) : Z :=
  match ts with
  | [] => 0
  | (n :: v :: _) :: ts => if decide (n = bs "expiration") then parse_uint_value v else getExpiration ts
  | _ :: ts => getExpiration ts
  end.

Fixpoint findFirstDtagValue (ts : tags) : outcome StoreErr gostring :=
  match ts with
  | [] => Ok []
  | [] :: _ => Panic (* t[0] of an empty tag *)
  | [_] :: ts => findFirstDtagValue ts
  | (n :: v :: _) :: ts => if decide (n = bs "d" \/ n = bs "D") then Ok v else findFirstDtagValue ts
  end.

(** ** The keys of an event *)

Record indexKeys := mkKeys {
  k_evsid : gostring;
  k_createdAt : gostring;
  k_id : gostring;
  k_pubkey : gostring;
  k_kind : gostring;
  k_kindPubkey : gostring;
  k_createdAtK : gostring;
  k_expiration : option gostring;
  k_tags : list gostring;
}.

(** The expiration an event is indexed under; 0 for none. *)
Definition expiration_of (ev : Event) : Z :=
  let exp := getExpiration (Tags ev) in
  if (exp =? 0) && IsEphemeralKind (Kind ev) then u64 (CreatedAt ev + 600) else exp.

Definition indexKeysFor (event : Event) (evsid maxIndexableTags : Z) : outcome StoreErr indexKeys :=
  pubkeyBytes ← of_opt (Hex.decode (PubKey event)) ErrHexKey;
  eventIDBytes ← of_opt (Hex.decode (ID event)) ErrHexKey;
  let evsidBytes := itob evsid in
  let createdAtBytes := itob (CreatedAt event) in
  let kindBytes := itob (u64 (Kind event)) in
  let exp := expiration_of event in
  Ok (mkKeys evsidBytes createdAtBytes
    (concatKey [eventIDBytes; createdAtBytes; evsidBytes])
    (concatKey [pubkeyBytes; createdAtBytes; evsidBytes])
    (concatKey [kindBytes; createdAtBytes; evsidBytes])
    (concatKey [kindBytes; pubkeyBytes; createdAtBytes; evsidBytes])
    (concatKey [createdAtBytes; eventIDBytes; evsidBytes])
    (if 0 <? exp then Some (concatKey [itob exp; evsidBytes]) else None)
    (map (fun entry => concatKey [entry; createdAtBytes; evsidBytes])
         (prepareIndexableTags (Tags event) maxIndexableTags))).

Definition fixedIndexEntries (k : indexKeys) : list (Index * gostring) :=
  [(indexID, k_id k); (indexPubkey, k_pubkey k); (indexKind, k_kind k); (indexKindPubkey, k_kindPubkey k);
   (indexCreatedAt, k_createdAtK k)].

(** Everything put (and deleted) for an event, in the code's order. *)
Definition index_entries (k : indexKeys) : list (Index * gostring) :=
  fixedIndexEntries k ++ map (fun t => (indexTag, t)) (k_tags k) ++
  match k_expiration k with Some e => [(indexExpiration, e)] | None => [] end.

(** ** Cursors *)

Record storeCursor := mkCursor {
  maxKey : gostring;
  matchKey : gostring -> bool;
  parseKey : gostring -> outcome StoreErr (option gostring * Z);
}.

(** [len(k) != n] is an error; the arrival number is the last eight bytes. *)
Definition parse_tail (n : nat) (idOf : gostring -> option gostring) (k : gostring)
    : outcome StoreErr (option gostring * Z) :=
  if (length k =? n)%nat then evsid ← btoi (drop (n - 8) k); Ok (idOf k, evsid) else Err ErrKeySizeBad.

Definition prefix_cursor (prefix : gostring) (n : nat) (idOf : gostring -> option gostring) : storeCursor :=
  mkCursor (concatKey [prefix; maxSuffixBytes]) (fun k => has_prefix k prefix) (parse_tail n idOf).

Definition decodeKey (s : gostring) : outcome StoreErr gostring :=
  match Hex.decode s with
  | Some b => if (length b =? 32)%nat then Ok b else Err ErrFilter
  | None => Err ErrFilter
  end.

Fixpoint createCursorsByID (ids : list gostring) : outcome StoreErr (list storeCursor) :=
  match ids with
  | [] => Ok []
  | eid :: ids =>
      prefix ← decodeKey eid;
      cs ← createCursorsByID ids;
      Ok (prefix_cursor prefix (32 + 8 + 8) (fun k => Some (take 32 k)) :: cs)
  end.

(** [order] is the order in which the map is ranged over. *)
Definition createCursorsByTags (order : list (gostring * list gostring)) : list storeCursor :=
  flat_map (fun '(tagName, tagValues) =>
    omap (fun tagVal => prefix ← tagIndexPrefix tagName tagVal;
                        Some (prefix_cursor prefix (length prefix + 8 + 8) (fun _ => None))) tagValues) order.

Fixpoint createCursorsByAuthors (authors : list gostring) : outcome StoreErr (list storeCursor) :=
  match authors with
  | [] => Ok []
  | pubKey :: authors =>
      prefix ← decodeKey pubKey;
      cs ← createCursorsByAuthors authors;
      Ok (prefix_cursor prefix (32 + 8 + 8) (fun _ => None) :: cs)
  end.

Definition createCursorsByKinds (kinds : list Z) : list storeCursor :=
  map (fun kind => prefix_cursor (itob (u64 kind)) (8 + 8 + 8) (fun _ => None)) kinds.

(** The inner loop, over the authors. *)
Fixpoint kind_author_cursors (prefixKind : gostring) (authors : list gostring) : outcome StoreErr (list storeCursor) :=
  match authors with
  | [] => Ok []
  | pubKey :: authors =>
      pubKeyBytes ← decodeKey pubKey;
      cs ← kind_author_cursors prefixKind authors;
      Ok (prefix_cursor (concatKey [prefixKind; pubKeyBytes]) (8 + 32 + 8 + 8) (fun _ => None) :: cs)
  end.

Fixpoint createCursorsByKindsAndAuthors (kinds : list Z) (authors : list gostring)
    : outcome StoreErr (list storeCursor) :=
  match kinds with
  | [] => Ok []
  | kind :: kinds =>
      cs ← kind_author_cursors (itob (u64 kind)) authors;
      rest ← createCursorsByKindsAndAuthors kinds authors;
      Ok (cs ++ rest)
  end.

Definition defaultCursor : storeCursor :=
  mkCursor (concatKey [maxUint64Bytes]) (fun _ => true) (parse_tail 48 (fun k => Some (take 32 (drop 8 k)))).

Inductive DerivedIndex := zaps | social.

Class Derived := {
  derived : Type;
  (** write(tx, index, ev, evsid, add) *)
  derived_write : derived -> DerivedIndex -> Event -> Z -> bool -> outcome StoreErr derived;
  feedsDeleted : derived -> Event -> outcome StoreErr derived;
}.

(** The default configuration: no derived index, no feed. *)
Definition no_derived : Derived := {|
  derived := unit;
  derived_write _ _ _ _ _ := Ok tt;
  feedsDeleted _ _ := Ok tt;
|}.

Section Store.
Context {Bolt0 : Bolt} {JSON0 : EventJSON} {Derived0 : Derived}.

Record Tx := mkTx {
  bucket : Index -> Bucket;
  meta : Bucket;
  counters : option Bucket;
  derived_state : derived;
}.

Definition set_bucket (tx : Tx) (i : Index) (b : Bucket) : Tx :=
  mkTx (fun j => if decide (j = i) then b else bucket tx j) (meta tx) (counters tx) (derived_state tx).
Definition set_meta (tx : Tx) (b : Bucket) : Tx := mkTx (bucket tx) b (counters tx) (derived_state tx).
Definition set_counters (tx : Tx) (b : Bucket) : Tx := mkTx (bucket tx) (meta tx) (Some b) (derived_state tx).
Definition set_derived (tx : Tx) (d : derived) : Tx := mkTx (bucket tx) (meta tx) (counters tx) d.

Definition bput (tx : Tx) (i : Index) (k v : gostring) : outcome StoreErr Tx :=
  b ← of_opt (Put (bucket tx i) k v) ErrBoltPut; Ok (set_bucket tx i b).
Definition bdel (tx : Tx) (i : Index) (k : gostring) : Tx := set_bucket tx i (Delete (bucket tx i) k).

Definition write (tx : Tx) (d : DerivedIndex) (ev : Event) (evsid : Z) (add : bool) : outcome StoreErr Tx :=
  s ← derived_write (derived_state tx) d ev evsid add; Ok (set_derived tx s).

(** ** Counters *)

Definition ctrAuthors : gostring := bs "authors".
Definition ctrKindsMark : gostring := bs "kinds-mark".
Definition ctrKindsDone : gostring := bs "kinds-done".
Definition ctrAuthorsMark : gostring := bs "authors-mark".
Definition ctrAuthorsDone : gostring := bs "authors-done".

Definition kindCounterKey (kind : gostring) : gostring := bs "k" ++ kind.

(** int64(x) of a uint64. *)
Definition s64 (z : Z) : Z := let r := u64 z in if r <? 2 ^ 63 then r else r - 2 ^ 64.

Definition addCounter (b : Bucket) (key : gostring) (delta : Z) : outcome StoreErr Bucket :=
  let n := match Get b key with
           | Some v => if (length v =? 8)%nat then s64 (BE.get64 v) else 0
           | None => 0
           end in
  let n := s64 (n + delta) in
  if n <=? 0 then Ok (Delete b key) else of_opt (Put b key (itob (u64 n))) ErrBoltPut.

Definition counted (c : Bucket) (done mark key : gostring) : bool :=
  match Get c done with
  | Some _ => true
  | None => match Get c mark with
            | Some m => negb (Cmp.ltb m key)
            | None => false
            end
  end.

Definition hasPrefixKey (b : Bucket) (prefix : gostring) : bool :=
  match Seek b prefix with Some (k, _) => has_prefix k prefix | None => false end.

Definition countEvent (tx : Tx) (k : indexKeys) (delta : Z) : outcome StoreErr Tx :=
  match counters tx with
  | None => Ok tx
  | Some c =>
      c ← (if counted c ctrKindsDone ctrKindsMark (k_kind k)
           then addCounter c (kindCounterKey (take 8 (k_kind k))) delta else Ok c);
      if (length (k_pubkey k) <? 32)%nat then Panic
      else
        let pubkey := take 32 (k_pubkey k) in
        c ← (if counted c ctrAuthorsDone ctrAuthorsMark pubkey && negb (hasPrefixKey (bucket tx indexPubkey) pubkey)
             then addCounter c ctrAuthors delta else Ok c);
        Ok (set_counters tx c)
  end.

Definition countInsert (tx : Tx) (k : indexKeys) : outcome StoreErr Tx := countEvent tx k 1.
Definition countDelete (tx : Tx) (k : indexKeys) : outcome StoreErr Tx := countEvent tx k (-1).

(** ** Index entries *)

Fixpoint put_entries (tx : Tx) (es : list (Index * gostring)) (v : gostring) : outcome StoreErr Tx :=
  match es with
  | [] => Ok tx
  | (i, k) :: es => tx ← bput tx i k v; put_entries tx es v
  end.

Definition putEventIndexes (tx : Tx) (k : indexKeys) : outcome StoreErr Tx := put_entries tx (index_entries k) (k_createdAt k).

Definition delEventIndexes (tx : Tx) (k : indexKeys) : Tx :=
  foldl (fun tx '(i, key) => bdel tx i key) tx (index_entries k).

(** ** Events *)

Context (MaxIndexableTags : Z).

Definition stampSeq (tx : Tx) (seq : Z) : outcome StoreErr Tx :=
  b ← of_opt (Put (meta tx) (bs "seq") (itob seq)) ErrBoltPut; Ok (set_meta tx b).

Definition insertEvent (tx : Tx) (event : Event) : outcome StoreErr (Tx * Z) :=
  let '(b, evsid) := NextSequence (bucket tx indexEvents) in
  let tx := set_bucket tx indexEvents b in
  tx ← bput tx indexEvents (itob evsid) (MarshalEvent event);
  tx ← stampSeq tx evsid;
  Ok (tx, evsid).

Definition insertIndexes (tx : Tx) (event : Event) (evsid : Z) : outcome StoreErr Tx :=
  keys ← indexKeysFor event evsid MaxIndexableTags;
  tx ← countInsert tx keys;
  tx ← putEventIndexes tx keys;
  tx ← write tx zaps event evsid true;
  write tx social event evsid true.

Definition insertWithIndexes (tx : Tx) (event : Event) : outcome StoreErr Tx :=
  r ← insertEvent tx event; let '(tx, evsid) := r in insertIndexes tx event evsid.

Definition delete_event (tx : Tx) (evsid : Z) (ev : Event) : outcome StoreErr Tx :=
  let tx := bdel tx indexEvents (itob evsid) in
  keys ← indexKeysFor ev evsid MaxIndexableTags;
  let tx := delEventIndexes tx keys in
  tx ← countDelete tx keys;
  tx ← write tx zaps ev evsid false;
  tx ← write tx social ev evsid false;
  d ← feedsDeleted (derived_state tx) ev;
  Ok (set_derived tx d).

Definition findEventUsingTx (tx : Tx) (evsid : Z) : outcome StoreErr Event :=
  match Get (bucket tx indexEvents) (itob evsid) with
  | None => Err ErrEventNotFound
  | Some raw => of_opt (UnmarshalEvent raw) ErrEventJSON
  end.

Definition findEventAndBytesUsingTx (tx : Tx) (evsid : Z) : outcome StoreErr (Event * gostring) :=
  match Get (bucket tx indexEvents) (itob evsid) with
  | None => Err ErrEventNotFound
  | Some raw => event ← of_opt (UnmarshalEvent raw) ErrEventJSON; Ok (event, raw)
  end.

Definition deleteByEvsid (tx : Tx) (evsid : Z) : outcome StoreErr Tx :=
  match findEventUsingTx tx evsid with
  | Err ErrEventNotFound => Ok tx
  | Err e => Err e
  | Panic => Panic
  | Ok event => delete_event tx evsid event
  end.

(** deleteAll, on the arrival numbers of its PotentialEvents. *)
Fixpoint deleteAll (tx : Tx) (evsids : list Z) : outcome StoreErr Tx :=
  match evsids with
  | [] => Ok tx
  | id :: evsids => tx ← deleteByEvsid tx id; deleteAll tx evsids
  end.

Definition checkEventDuplication (tx : Tx) (ev : Event) : outcome StoreErr unit :=
  eventIDBytes ← of_opt (Hex.decode (ID ev)) ErrHexKey;
  match SeekPrev (bucket tx indexID) (concatKey [eventIDBytes; maxSuffixBytes]) with
  | Some (k, _) => if has_prefix k eventIDBytes then Err ErrEventDuplicated else Ok tt
  | None => Ok tt
  end.

End Store.
