(* ===== verification/StoreInv.v ===== *)
(** * relay/store.go: what the buckets hold

    The abstract store is a map from arrival numbers to events; [represents]
    says that a transaction's buckets are exactly that map and its index
    entries.  Inserting and deleting refine insertion into and deletion from the
    map. *)

From S2P Require Import Prelude GoLib Bolt Sha256 NostrUtils Pow Event Filter StoreDb.

(** ** Keys *)

Definition key_bytes (s : gostring) : gostring := default [] (Hex.decode s).

Definition hex32_ok (s : gostring) : Prop := exists b, Hex.decode s = Some b /\ length b = 32%nat.

(** Every entry an event has, in bucket and key. *)
Definition keys_of (mit : Z) (ev : Event) (id : Z) : list (Index * gostring) :=
  match indexKeysFor ev id mit with Ok k => index_entries k | _ => [] end.

Lemma key_bytes_ok s : hex32_ok s -> Hex.decode s = Some (key_bytes s) /\ length (key_bytes s) = 32%nat.
Proof. intros (b & HD & HL). unfold key_bytes. rewrite HD. done. Qed.

Lemma indexKeysFor_ok ev id mit :
  hex32_ok (PubKey ev) -> hex32_ok (ID ev) -> exists k, indexKeysFor ev id mit = Ok k /\ keys_of mit ev id = index_entries k /\
    k_evsid k = itob id /\ k_createdAt k = itob (CreatedAt ev) /\
    k_id k = key_bytes (ID ev) ++ itob (CreatedAt ev) ++ itob id /\
    k_pubkey k = key_bytes (PubKey ev) ++ itob (CreatedAt ev) ++ itob id /\
    k_kind k = itob (u64 (Kind ev)) ++ itob (CreatedAt ev) ++ itob id /\
    k_kindPubkey k = itob (u64 (Kind ev)) ++ key_bytes (PubKey ev) ++ itob (CreatedAt ev) ++ itob id /\
    k_createdAtK k = itob (CreatedAt ev) ++ key_bytes (ID ev) ++ itob id /\
    k_expiration k = (if 0 <? expiration_of ev then Some (itob (expiration_of ev) ++ itob id) else None) /\
    k_tags k = map (fun e => e ++ itob (CreatedAt ev) ++ itob id) (prepareIndexableTags (Tags ev) mit).
Proof.
  intros HP HI. unfold keys_of, indexKeysFor. destruct (key_bytes_ok _ HP) as [-> _]. destruct (key_bytes_ok _ HI) as [-> _].
  cbn [of_opt mbind outcome_bind]. eexists. split; [reflexivity|]. cbn -[itob app expiration_of].
  unfold concatKey. cbn [concat]. rewrite !app_nil_r.
  split_and!; reflexivity.
Qed.

(** The entries per index. *)
Lemma keys_of_spec mit ev id i k :
  hex32_ok (PubKey ev) -> hex32_ok (ID ev) ->
  (i, k) ∈ keys_of mit ev id <->
  match i with
  | indexEvents => False
  | indexID => k = key_bytes (ID ev) ++ itob (CreatedAt ev) ++ itob id
  | indexPubkey => k = key_bytes (PubKey ev) ++ itob (CreatedAt ev) ++ itob id
  | indexKind => k = itob (u64 (Kind ev)) ++ itob (CreatedAt ev) ++ itob id
  | indexKindPubkey => k = itob (u64 (Kind ev)) ++ key_bytes (PubKey ev) ++ itob (CreatedAt ev) ++ itob id
  | indexCreatedAt => k = itob (CreatedAt ev) ++ key_bytes (ID ev) ++ itob id
  | indexExpiration => 0 < expiration_of ev /\ k = itob (expiration_of ev) ++ itob id
  | indexTag => exists e, e ∈ prepareIndexableTags (Tags ev) mit /\ k = e ++ itob (CreatedAt ev) ++ itob id
  end.
Proof.
  intros HP HI. destruct (indexKeysFor_ok ev id mit HP HI) as (K & _ & -> & _ & _ & H1 & H2 & H3 & H4 & H5 & H6 & H7).
  unfold index_entries, fixedIndexEntries. rewrite H1, H2, H3, H4, H5, H6, H7. clear.
  rewrite !elem_of_app, !elem_of_cons, elem_of_nil, list_elem_of_fmap.
  assert (HE : (i, k) ∈ match (if 0 <? expiration_of ev then Some (itob (expiration_of ev) ++ itob id) else None) with
                        | Some e => [(indexExpiration, e)] | None => [] end <->
               i = indexExpiration /\ 0 < expiration_of ev /\ k = itob (expiration_of ev) ++ itob id).
  { destruct (Z.ltb_spec 0 (expiration_of ev)); [rewrite list_elem_of_singleton|rewrite elem_of_nil]; naive_solver lia. }
  rewrite HE. setoid_rewrite list_elem_of_fmap. destruct i; naive_solver.
Qed.

(** Every key ends in the arrival number. *)
Lemma keys_of_suffix mit ev id i k : (i, k) ∈ keys_of mit ev id -> i <> indexEvents /\ exists p, k = p ++ itob id.
Proof.
  unfold keys_of, indexKeysFor. destruct (Hex.decode (PubKey ev)) as [pk|]; [|by intros ?%elem_of_nil].
  destruct (Hex.decode (ID ev)) as [eid|]; [|by intros ?%elem_of_nil]. cbn [of_opt mbind outcome_bind].
  unfold index_entries, fixedIndexEntries. cbn -[itob app]. rewrite !elem_of_app, !elem_of_cons, elem_of_nil, list_elem_of_fmap.
  intros HK. assert (HT : exists p, k = concatKey (p ++ [itob id]) /\ i <> indexEvents).
  { destruct HK as [HK|HK].
    { repeat destruct HK as [[= -> ->]|HK]; [by exists [eid; itob (CreatedAt ev)]|by exists [pk; itob (CreatedAt ev)]
      |by exists [itob (u64 (Kind ev)); itob (CreatedAt ev)]|by exists [itob (u64 (Kind ev)); pk; itob (CreatedAt ev)]
      |by exists [itob (CreatedAt ev); eid]|done]. }
    destruct HK as [(t & [= -> ->] & Ht)|HK].
    - apply list_elem_of_fmap in Ht as (e & -> & _). by exists [e; itob (CreatedAt ev)].
    - destruct (0 <? expiration_of ev); [|by apply elem_of_nil in HK].
      apply list_elem_of_singleton in HK as [= -> ->]. by exists [itob (expiration_of ev)]. }
  destruct HT as (p & -> & Hi). split; [done|]. exists (concat p). unfold concatKey. rewrite concat_app. cbn [concat].
  by rewrite app_nil_r.
Qed.

Lemma itob_inj a b : 0 <= a < 2 ^ 64 -> 0 <= b < 2 ^ 64 -> itob a = itob b -> a = b.
Proof. apply BE.put64_inj. Qed.

Lemma suffix_id p q a b :
  0 <= a < 2 ^ 64 -> 0 <= b < 2 ^ 64 -> p ++ itob a = q ++ itob b -> a = b.
Proof.
  intros Ha Hb HE. apply itob_inj; [done|done|]. apply app_inj_2 in HE as [_ HE]; [done|]. done.
Qed.

Lemma keys_of_id mit ev ev' id id' i i' k :
  0 <= id < 2 ^ 64 -> 0 <= id' < 2 ^ 64 ->
  (i, k) ∈ keys_of mit ev id -> (i', k) ∈ keys_of mit ev' id' -> id = id'.
Proof.
  intros H1 H2 HK HK'. apply keys_of_suffix in HK as [_ [p ->]]. apply keys_of_suffix in HK' as [_ [q HE]].
  by eapply suffix_id.
Qed.

Section Represents.
Context {Bolt0 : Bolt} {JSON0 : EventJSON} {Derived0 : Derived} (BL : BoltLaws) (mit : Z).

(** An event the store can hold. *)
Definition ev_ok (ev : Event) : Prop :=
  hex32_ok (PubKey ev) /\ hex32_ok (ID ev) /\ 0 <= CreatedAt ev < 2 ^ 64 /\ json_stable ev.

(** The arrival number of the last insertion. *)
Definition seq_of (tx : Tx) : Z := Sequence (bucket tx indexEvents).

Record represents (tx : Tx) (S : gmap Z Event) : Prop := {
  rep_seq : 0 <= seq_of tx < 2 ^ 64 - 1;
  rep_ids : forall id ev, S !! id = Some ev -> 0 < id <= seq_of tx /\ ev_ok ev;
  rep_events : forall k v, kv (bucket tx indexEvents) !! k = Some v <->
    exists id ev, S !! id = Some ev /\ k = itob id /\ v = MarshalEvent ev;
  rep_index : forall i k v, i <> indexEvents -> kv (bucket tx i) !! k = Some v <->
    exists id ev, S !! id = Some ev /\ (i, k) ∈ keys_of mit ev id /\ v = itob (CreatedAt ev);
}.

#[local] Set Default Proof Using "All".

Lemma bput_Ok tx i k v tx' :
  bput tx i k v = Ok tx' -> exists b, tx' = set_bucket tx i b /\ kv b = <[k := v]> (kv (bucket tx i)) /\
    Sequence b = Sequence (bucket tx i).
Proof.
  unfold bput. destruct (Put _ k v) as [b|] eqn:E; [|done]. cbn. intros [= <-]. exists b.
  by apply (Put_Some BL) in E as (_ & -> & ->).
Qed.

(** What a run of puts (of deletes) leaves in the buckets. *)
Lemma put_entries_Ok tx es v tx' :
  put_entries tx es v = Ok tx' ->
  meta tx' = meta tx /\ counters tx' = counters tx /\ derived_state tx' = derived_state tx /\
  (forall i, Sequence (bucket tx' i) = Sequence (bucket tx i)) /\
  forall i k, kv (bucket tx' i) !! k = if decide ((i, k) ∈ es) then Some v else kv (bucket tx i) !! k.
Proof.
  revert tx. induction es as [|[i k] es IH]; intros tx; cbn [put_entries].
  { intros [= <-]. split_and!; [done..|]. intros i k. by rewrite decide_False by apply not_elem_of_nil. }
  intros HE. inv_ok. apply bput_Ok in E as (b & -> & Hkv & Hs). apply IH in HE as (H1 & H2 & H3 & H4 & H5). clear IH.
  split_and!; [done..| |].
  - intros j. rewrite H4. cbn. by destruct (decide (j = i)) as [->|].
  - intros j k'. rewrite H5. destruct (decide ((j, k') ∈ es)) as [Hin|Hin]; [by rewrite decide_True by by right|].
    cbn [set_bucket bucket]. destruct (decide (j = i)) as [->|Hj]; last first.
    { rewrite decide_False; [done|]. intros [[= -> ->]|]%elem_of_cons; done. }
    rewrite Hkv. destruct (decide (k = k')) as [->|Hk].
    + rewrite lookup_insert_eq. by rewrite decide_True by by left.
    + rewrite lookup_insert_ne by done. rewrite decide_False; [done|]. intros [[= ->]|]%elem_of_cons; done.
Qed.

Lemma bdel_lookup tx i k j k' :
  kv (bucket (bdel tx i k) j) !! k' = if decide (j = i /\ k' = k) then None else kv (bucket tx j) !! k'.
Proof.
  unfold bdel. cbn [set_bucket bucket]. destruct (decide (j = i)) as [->|Hj].
  - destruct (Delete_kv BL (bucket tx i) k) as [-> _]. destruct (decide (k = k')) as [->|Hk].
    + rewrite lookup_delete_eq. by rewrite decide_True.
    + rewrite lookup_delete_ne by done. by rewrite decide_False by naive_solver.
  - by rewrite decide_False by naive_solver.
Qed.

Lemma bdel_seq tx i k j : Sequence (bucket (bdel tx i k) j) = Sequence (bucket tx j).
Proof.
  unfold bdel. cbn [set_bucket bucket]. destruct (decide (j = i)) as [->|Hj]; [|done].
  by destruct (Delete_kv BL (bucket tx i) k) as [_ ->].
Qed.

Lemma del_entries tx es :
  let tx' := foldl (fun tx '(i, key) => bdel tx i key) tx es in
  meta tx' = meta tx /\ counters tx' = counters tx /\ derived_state tx' = derived_state tx /\
  (forall i, Sequence (bucket tx' i) = Sequence (bucket tx i)) /\
  forall i k, kv (bucket tx' i) !! k = if decide ((i, k) ∈ es) then None else kv (bucket tx i) !! k.
Proof.
  revert tx. induction es as [|[i k] es IH]; intros tx; cbn [foldl].
  { split_and!; [done..|]. intros i k. by rewrite decide_False by apply not_elem_of_nil. }
  destruct (IH (bdel tx i k)) as (H1 & H2 & H3 & H4 & H5). split_and!; [done..| |].
  - intros j. by rewrite H4, bdel_seq.
  - intros j k'. rewrite H5, bdel_lookup. repeat case_decide; try done; set_solver.
Qed.

(** A transaction that differs only outside the event and index buckets. *)
Lemma represents_bucket tx tx' S : bucket tx' = bucket tx -> represents tx S -> represents tx' S.
Proof. intros HB [H1 H2 H3 H4]. split; unfold seq_of in *; rewrite HB; done. Qed.

Lemma countEvent_bucket tx k delta tx' : countEvent tx k delta = Ok tx' -> bucket tx' = bucket tx.
Proof.
  unfold countEvent. destruct (counters tx); [|by intros [= <-]]. intros HE. inv_ok.
  destruct (_ <? 32)%nat; [done|]. inv_ok. done.
Qed.

Lemma write_bucket tx d ev id add tx' : write tx d ev id add = Ok tx' -> bucket tx' = bucket tx /\ counters tx' = counters tx.
Proof. unfold write. intros HE. inv_ok. done. Qed.

(** ** Insertion *)

Lemma insert_events tx S ev tx' id :
  represents tx S -> seq_of tx + 1 < 2 ^ 64 - 1 -> insertEvent tx ev = Ok (tx', id) ->
  id = seq_of tx + 1 /\ seq_of tx' = id /\ counters tx' = counters tx /\
  kv (bucket tx' indexEvents) = <[itob id := MarshalEvent ev]> (kv (bucket tx indexEvents)) /\
  forall i, i <> indexEvents -> bucket tx' i = bucket tx i.
Proof.
  intros HR Hseq HE. unfold insertEvent in HE. pose proof (NextSequence_kv BL (bucket tx indexEvents)) as HN.
  destruct (NextSequence _) as [b n]. destruct HN as (Hkv & Hn & Hs). inv_ok.
  apply bput_Ok in E as (b' & -> & Hkv' & Hs'). unfold stampSeq in E0. inv_ok.
  destruct (Put _ _ _) as [m|]; [|done]. cbn in E. injection E as <-.
  pose proof (rep_seq _ _ HR). unfold seq_of in *. rewrite wrap_small in * by lia.
  cbn [set_bucket set_meta bucket counters] in *.
  rewrite !decide_True in * by done. split_and!; [done|congruence|done| |].
  - rewrite Hkv'. by rewrite Hkv.
  - intros i Hi. by rewrite !decide_False.
Qed.

(** Inserting an event adds it to the map under the next arrival number. *)
Lemma insertWithIndexes_spec tx S ev tx' :
  represents tx S -> ev_ok ev -> seq_of tx + 1 < 2 ^ 64 - 1 ->
  insertWithIndexes mit tx ev = Ok tx' ->
  represents tx' (<[seq_of tx + 1 := ev]> S) /\ seq_of tx' = seq_of tx + 1.
Proof.
  intros HR HO Hseq HE. unfold insertWithIndexes in HE. inv_ok. destruct a as [tx1 id].
  apply (insert_events tx S) in E as (Hid & Hs1 & _ & He1 & Ho1); [|done|done].
  unfold insertIndexes in HE. inv_ok. rename a into keys. destruct HO as (HP & HI & Hc & HJ).
  destruct (indexKeysFor_ok ev id mit HP HI) as (K & EK & HKK & _ & HcK & _). rewrite EK in E. injection E as <-.
  unfold countInsert in E0. apply countEvent_bucket in E0. apply put_entries_Ok in E1 as (_ & _ & _ & Hs2 & H2).
  apply write_bucket in E2 as [E2 _]. apply write_bucket in HE as [HE _]. rewrite E2 in HE. rewrite E0 in Hs2, H2.
  assert (HB : bucket tx' = bucket a1) by done. clear E2 HE.
  assert (HS : seq_of tx' = seq_of tx + 1) by (unfold seq_of in *; rewrite HB, Hs2; lia).
  pose proof (rep_seq _ _ HR) as Hr.
  assert (HN : forall id' ev', S !! id' = Some ev' -> id' <> id) by (intros ? ? H'; apply (rep_ids _ _ HR) in H'; lia).
  split; [|done]. subst id. split.
  - rewrite HS. lia.
  - intros id' ev'. rewrite HS, lookup_insert_Some. intros [[<- <-]|[_ H']]; [split; [lia|done]|].
    apply (rep_ids _ _ HR) in H' as [? ?]. split; [lia|done].
  - intros k v. rewrite HB, H2. rewrite decide_False by (rewrite <- HKK; by intros [? _]%keys_of_suffix).
    rewrite He1, lookup_insert_Some, (rep_events _ _ HR). split.
    + intros [[<- <-]|(_ & id' & ev' & H' & -> & ->)].
      * exists (seq_of tx + 1), ev. by rewrite lookup_insert_eq.
      * exists id', ev'. split; [|done]. rewrite lookup_insert_ne; [done|]. intros <-. by apply (HN _ _ H').
    + intros (id' & ev' & H' & -> & ->). apply lookup_insert_Some in H' as [[<- <-]|[Hne H']]; [by left|]. right.
      split; [|by eexists _, _]. intros HE. apply itob_inj in HE; [done|lia|]. apply (rep_ids _ _ HR) in H'. lia.
  - intros i k v Hi. rewrite HB, H2, <- HKK, Ho1 by done. destruct (decide ((i, k) ∈ keys_of mit ev (seq_of tx + 1))) as [Hin|Hin].
    + rewrite HcK. split.
      * intros [= <-]. exists (seq_of tx + 1), ev. by rewrite lookup_insert_eq.
      * intros (id' & ev' & H' & Hk & ->). apply lookup_insert_Some in H' as [[<- <-]|[Hne H']]; [done|].
        exfalso. apply Hne. apply (rep_ids _ _ HR) in H' as [? _]. eapply keys_of_id; [..|exact Hin|exact Hk]; lia.
    + rewrite (rep_index _ _ HR) by done. split; intros (id' & ev' & H' & Hk & ->); exists id', ev'.
      * split; [|done]. rewrite lookup_insert_ne; [done|]. intros <-. by apply (HN _ _ H').
      * apply lookup_insert_Some in H' as [[<- <-]|[Hne H']]; done.
Qed.

(** ** Deletion *)

(** The buckets without an event and its entries. *)
Definition removed (tx : Tx) (id : Z) (es : list (Index * gostring)) : Tx :=
  foldl (fun tx '(i, key) => bdel tx i key) (bdel tx indexEvents (itob id)) es.

Lemma delete_event_Ok tx id ev tx' : delete_event mit tx id ev = Ok tx' ->
  exists k tx1, indexKeysFor ev id mit = Ok k /\ countDelete (removed tx id (index_entries k)) k = Ok tx1 /\
    bucket tx' = bucket (removed tx id (index_entries k)) /\ counters tx' = counters tx1.
Proof.
  intros HE. unfold delete_event in HE. inv_ok. exists a, a0. split; [done|]. split; [exact E0|]. apply countEvent_bucket in E0.
  apply write_bucket in E1 as [E1 E1']. apply write_bucket in E2 as [E2 E2']. cbn [set_derived bucket counters]. split; [|congruence].
  rewrite E2, E1, E0. done.
Qed.

Lemma removed_spec tx S id ev tx' :
  represents tx S -> S !! id = Some ev -> bucket tx' = bucket (removed tx id (keys_of mit ev id)) ->
  represents tx' (delete id S) /\ seq_of tx' = seq_of tx.
Proof.
  intros HR Hid HB. destruct (rep_ids _ _ HR _ _ Hid) as [Hrng _]. unfold removed in HB.
  set (tx1 := bdel tx indexEvents (itob id)) in *. destruct (del_entries tx1 (keys_of mit ev id)) as (_ & _ & _ & Hs & HD).
  set (tx2 := foldl _ _ _) in *. clearbody tx2.
  assert (HS : seq_of tx' = seq_of tx). { unfold seq_of. rewrite HB, Hs. subst tx1. apply bdel_seq. }
  split; [|done]. pose proof (rep_seq _ _ HR). split.
  - by rewrite HS.
  - intros id' ev'. rewrite HS, lookup_delete_Some. intros [_ H']. by apply (rep_ids _ _ HR).
  - intros k v. rewrite HB, HD. rewrite decide_False by by intros [? _]%keys_of_suffix.
    subst tx1. rewrite bdel_lookup. destruct (decide _) as [[_ ->]|Hne].
    + split; [done|]. intros (id' & ev' & H' & HE & _). apply lookup_delete_Some in H' as [Hne H'].
      apply itob_inj in HE; [done|lia|]. apply (rep_ids _ _ HR) in H'. lia.
    + rewrite (rep_events _ _ HR). split; intros (id' & ev' & H' & -> & ->); exists id', ev'; rewrite ?lookup_delete_Some in *.
      * split; [|done]. split; [|done]. intros ->. by apply Hne.
      * by destruct H'.
  - intros i k v Hi. rewrite HB, HD. destruct (decide _) as [Hin|Hin].
    + split; [done|]. intros (id' & ev' & H' & Hk & _). apply lookup_delete_Some in H' as [Hne H']. exfalso. apply Hne.
      apply (rep_ids _ _ HR) in H' as [? _]. eapply keys_of_id; [..|exact Hin|exact Hk]; lia.
    + subst tx1. rewrite bdel_lookup, decide_False by naive_solver. rewrite (rep_index _ _ HR) by done.
      split; intros (id' & ev' & H' & Hk & ->); exists id', ev'; rewrite ?lookup_delete_Some in *.
      * split; [|done]. split; [|done]. intros <-. replace ev' with ev in Hk by congruence. done.
      * by destruct H'.
Qed.

Lemma delete_event_spec tx S id ev tx' :
  represents tx S -> S !! id = Some ev -> delete_event mit tx id ev = Ok tx' ->
  represents tx' (delete id S) /\ seq_of tx' = seq_of tx.
Proof.
  intros HR Hid (K & tx1 & EK & _ & HB & _)%delete_event_Ok. destruct (rep_ids _ _ HR _ _ Hid) as [_ (HP & HI & _)].
  destruct (indexKeysFor_ok ev id mit HP HI) as (K' & EK' & HKK & _). replace K' with K in HKK by congruence. rewrite <- HKK in HB.
  by apply (removed_spec tx S id ev).
Qed.

Lemma find_represents tx S id :
  represents tx S -> 0 <= id < 2 ^ 64 -> Get (bucket tx indexEvents) (itob id) = MarshalEvent <$> S !! id.
Proof.
  intros HR Hid. rewrite (Get_kv BL). apply option_eq. intros v. rewrite (rep_events _ _ HR). split.
  - intros (id' & ev & H' & HE & ->). apply itob_inj in HE as ->; [by rewrite H'|done|].
    apply (rep_ids _ _ HR) in H'. pose proof (rep_seq _ _ HR). lia.
  - intros HE. apply fmap_Some in HE as (ev & H' & ->). by eexists _, _.
Qed.

Lemma findEventUsingTx_spec tx S id :
  represents tx S -> 0 <= id < 2 ^ 64 ->
  findEventUsingTx tx id = match S !! id with Some ev => Ok ev | None => Err ErrEventNotFound end.
Proof.
  intros HR Hid. unfold findEventUsingTx. rewrite (find_represents tx S) by done.
  destruct (S !! id) as [ev|] eqn:E; [|done]. cbn. apply (rep_ids _ _ HR) in E as [_ (_ & _ & _ & ->)]. done.
Qed.

Lemma findEventAndBytes_spec tx S id :
  represents tx S -> 0 <= id < 2 ^ 64 ->
  findEventAndBytesUsingTx tx id
  = match S !! id with Some ev => Ok (ev, MarshalEvent ev) | None => Err ErrEventNotFound end.
Proof.
  intros HR Hid. unfold findEventAndBytesUsingTx. rewrite (find_represents tx S) by done.
  destruct (S !! id) as [ev|] eqn:E; [|done]. cbn. apply (rep_ids _ _ HR) in E as [_ (_ & _ & _ & ->)]. done.
Qed.

Lemma deleteByEvsid_spec tx S id tx' :
  represents tx S -> 0 <= id < 2 ^ 64 -> deleteByEvsid mit tx id = Ok tx' ->
  represents tx' (delete id S) /\ seq_of tx' = seq_of tx.
Proof.
  intros HR Hid HE. unfold deleteByEvsid in HE. rewrite (findEventUsingTx_spec tx S) in HE by done.
  destruct (S !! id) as [ev|] eqn:E; [by eapply delete_event_spec|].
  injection HE as <-. by rewrite delete_id.
Qed.

Lemma deleteAll_spec ids tx S tx' :
  represents tx S -> Forall (fun id => 0 <= id < 2 ^ 64) ids -> deleteAll mit tx ids = Ok tx' ->
  represents tx' (filter (fun x => x.1 ∉ ids) S) /\ seq_of tx' = seq_of tx.
Proof.
  revert tx S. induction ids as [|id ids IH]; intros tx S HR HF; cbn [deleteAll].
  { intros [= <-]. split; [|done]. rewrite map_filter_id; [done|]. intros. apply not_elem_of_nil. }
  intros HE. inv_ok. inversion HF as [|? ? Hid HF']; subst. apply (deleteByEvsid_spec tx S) in E as [HR' Hs]; [|done|done].
  destruct (IH _ _ HR' HF' HE) as [HR'' Hs']. split; [|lia]. replace (filter _ S) with (filter (fun x => x.1 ∉ ids) (delete id S)); [done|].
  apply map_eq. intros i. apply option_eq. intros ev. rewrite !map_lookup_filter_Some, lookup_delete_Some. cbn.
  rewrite not_elem_of_cons. naive_solver.
Qed.

End Represents.
