(* ===== verification/StoreScan.v ===== *)
(** * relay/store.go: queries

    The scan of one filter: its plan ([newStoreScanIn], [chooseTagScan]), a
    cursor's pass over its range ([Collect], [match]), the heap that merges the
    cursors, the passes ([scan]) and the query over several filters; the live
    tail is in StoreTail.v.  A pass runs in a read transaction of its own, so
    [scan] takes the transaction each pass sees; a query inside a transaction
    sees one.  Contexts are not cancelled and the store is not closed while a
    scan runs.  What is delivered to the channel is the returned list. *)

From S2P Require Import Prelude GoLib GoHeap Bolt Sha256 NostrUtils Pow Event Filter StoreDb.

(** ** Candidates and their heap *)

Record PotentialEvent := mkPE { Evsid : Z; PCreatedAt : Z; EventID : gostring; Bytes : gostring }.

(** eventQueue.Less: newest first, then the latest arrival. *)
Definition Less (a b : PotentialEvent) : bool :=
  if negb (PCreatedAt a =? PCreatedAt b) then PCreatedAt b <? PCreatedAt a else Evsid b <? Evsid a.

Definition AddEvent (eq : list PotentialEvent) (ev : PotentialEvent) : list PotentialEvent := push Less eq ev.
Definition PopEvent (eq : list PotentialEvent) : option (PotentialEvent * list PotentialEvent) := pop Less eq.

Record scanContext := mkCtx {
  index : Index;
  queueEvents : list PotentialEvent;
  filter : SubscriptionFilter;
  queued : gset Z;
  boundaryEvsid : Z;
  beforeIDEvsid : Z;
  hasBeforeID : bool;
}.

Definition set_queue (ss : scanContext) (q : list PotentialEvent) (s : gset Z) : scanContext :=
  mkCtx (index ss) q (filter ss) s (boundaryEvsid ss) (beforeIDEvsid ss) (hasBeforeID ss).
Definition set_boundary (ss : scanContext) (b : Z) : scanContext :=
  mkCtx (index ss) (queueEvents ss) (filter ss) (queued ss) b (beforeIDEvsid ss) (hasBeforeID ss).

(** ** One entry *)

(** The checks of match that the index alone can answer: already a candidate or
    delivered, outside the window, at or past the page boundary. *)
Definition skipped (ss : scanContext) (sent : gset Z) (evsid created : Z) : bool :=
  bool_decide (evsid ∈ queued ss) || bool_decide (evsid ∈ sent) ||
  ((0 <? Since (filter ss)) && (created <? Since (filter ss))) ||
  ((0 <? Until (filter ss)) && (Until (filter ss) <? created)) ||
  (hasBeforeID ss && (created =? Until (filter ss)) && (beforeIDEvsid ss <=? evsid)).

Inductive matched := Queued | Skipped | OutOfRange.

Definition match_entry (sc : storeCursor) (ss : scanContext) (sent : gset Z) (k v : gostring)
    : outcome StoreErr (scanContext * matched) :=
  if negb (matchKey sc k) then Ok (ss, OutOfRange)
  else
    p ← parseKey sc k;
    let '(idBytes, evsid) := p in
    if bool_decide (evsid ∈ queued ss) || bool_decide (evsid ∈ sent) then Ok (ss, Skipped)
    else
      created ← btoi v;
      if skipped ss sent evsid created then Ok (ss, Skipped)
      else
        let idHex := match idBytes with
                     | Some b => if (length b =? 32)%nat then Hex.encode b else []
                     | None => []
                     end in
        Ok (set_queue ss (AddEvent (queueEvents ss) (mkPE evsid created idHex [])) ({[evsid]} ∪ queued ss), Queued).

Record collectResult := mkRes {
  ResumeKey : option gostring;
  RQueued : Z;
  Scanned : Z;
  LastCreated : Z;
  Exhausted : bool;
}.

Definition exhaust (res : collectResult) : collectResult :=
  mkRes (ResumeKey res) (RQueued res) (Scanned res) (LastCreated res) true.

(** The loop of Collect over the pairs the cursor yields. *)
Fixpoint collect (sc : storeCursor) (fetchUntilEmpty : bool) (sent : gset Z) (l : list (gostring * gostring))
    (ss : scanContext) (limit : Z) (res : collectResult) : outcome StoreErr (scanContext * collectResult) :=
  match l with
  | [] => Ok (ss, exhaust res)
  | (k, v) :: l =>
      if negb ((0 <? limit) || fetchUntilEmpty) then Ok (ss, res)
      else if fetchUntilEmpty && (0 <? boundaryEvsid ss) &&
              match parseKey sc k with Ok (_, evsid) => evsid <=? boundaryEvsid ss | _ => false end
      then collect sc fetchUntilEmpty sent l ss limit res
      else
        created ← btoi v;
        if (0 <? Since (filter ss)) && (created <? Since (filter ss)) then Ok (ss, exhaust res)
        else
          m ← match_entry sc ss sent k v;
          let '(ss, r) := m in
          let res' q := mkRes (Some k) (RQueued res + q) (Scanned res + 1) created (Exhausted res) in
          match r with
          | OutOfRange => Ok (ss, exhaust res)
          | Skipped => collect sc fetchUntilEmpty sent l ss limit (res' 0)
          | Queued => collect sc fetchUntilEmpty sent l ss (limit - 1) (res' 1)
          end
  end.

Section Scan.
Context {Bolt0 : Bolt} {JSON0 : EventJSON} {Derived0 : Derived} {GoLower0 : GoLower}.

Definition Collect (tx : Tx) (sc : storeCursor) (ss : scanContext) (sent : gset Z) (resumeKey : option gostring)
    (limit : Z) (fetchUntilEmpty : bool) : outcome StoreErr (scanContext * collectResult) :=
  let res := mkRes resumeKey 0 0 0 false in
  if (limit <=? 0) && negb fetchUntilEmpty then Ok (ss, res)
  else collect sc fetchUntilEmpty sent
         (walk (bucket tx (index ss)) (match resumeKey with Some k => k | None => maxKey sc end)) ss limit res.

(** ** Emission *)

(** collectBatch.  Each round pops a candidate, so the heap's size bounds them. *)
Fixpoint collect_batch (fuel : nat) (tx : Tx) (fetchUntilEmpty : bool) (frontier remaining added : Z)
    (ss : scanContext) (sent : gset Z) (batch : list PotentialEvent)
    : outcome StoreErr (list PotentialEvent * Z * scanContext * gset Z) :=
  match fuel with
  | O => Ok (batch, added, ss, sent)
  | S fuel =>
      if (0 <=? remaining) && (remaining <=? added) then Ok (batch, added, ss, sent)
      else match queueEvents ss with
      | [] => Ok (batch, added, ss, sent)
      | top :: _ =>
          if (0 <? frontier) && (PCreatedAt top <=? frontier) then Ok (batch, added, ss, sent)
          else match PopEvent (queueEvents ss) with
          | None => Panic
          | Some (potEvent, q) =>
              let ss := set_queue ss q (queued ss) in
              match findEventAndBytesUsingTx tx (Evsid potEvent) with
              | Err ErrEventNotFound => collect_batch fuel tx fetchUntilEmpty frontier remaining added ss sent batch
              | Err e => Err e
              | Panic => Panic
              | Ok (event, raw) =>
                  if negb fetchUntilEmpty && IsEphemeralKind (Kind event)
                  then collect_batch fuel tx fetchUntilEmpty frontier remaining added ss sent batch
                  else if negb (Match (filter ss) event)
                  then collect_batch fuel tx fetchUntilEmpty frontier remaining added ss sent batch
                  else
                    let pe := mkPE (Evsid potEvent) (PCreatedAt potEvent) (ID event) raw in
                    collect_batch fuel tx fetchUntilEmpty frontier remaining (added + 1) ss
                      ({[Evsid potEvent]} ∪ sent) (batch ++ [pe])
              end
          end
      end
  end.

Definition collectBatch (tx : Tx) (fetchUntilEmpty : bool) (frontier remaining : Z) (ss : scanContext) (sent : gset Z)
    : outcome StoreErr (list PotentialEvent * Z * scanContext * gset Z) :=
  collect_batch (length (queueEvents ss)) tx fetchUntilEmpty frontier remaining 0 ss sent [].

(** ** Passes *)

(** A cursor with where it will resume and whether it has ended. *)
Record cursorState := mkCur { cursor : storeCursor; resume : option gostring; exhausted : bool }.

Record passState := mkPass { pFrontier : Z; pAnyActive : bool; pProgressed : bool; pScanned : Z }.

(** The loop over the cursors; [remaining] is the unspent limit. *)
Fixpoint collect_all (tx : Tx) (fetchUntilEmpty : bool) (remaining : Z) (sent : gset Z) (cs : list cursorState)
    (ss : scanContext) (p : passState) : outcome StoreErr (list cursorState * scanContext * passState) :=
  match cs with
  | [] => Ok ([], ss, p)
  | c :: cs =>
      if exhausted c then
        r ← collect_all tx fetchUntilEmpty remaining sent cs ss p;
        let '(cs, ss, p) := r in Ok (c :: cs, ss, p)
      else if negb fetchUntilEmpty && (remaining <=? 0) then Ok (c :: cs, ss, p)
      else
        let chunk := if negb fetchUntilEmpty && (remaining <? maxCursorChunk) then remaining else maxCursorChunk in
        x ← Collect tx (cursor c) ss sent (resume c) chunk fetchUntilEmpty;
        let '(ss, res) := x in
        let c := mkCur (cursor c) (ResumeKey res) (Exhausted res) in
        let p := mkPass
          (if negb (Exhausted res) && (pFrontier p <? LastCreated res) then LastCreated res else pFrontier p)
          (pAnyActive p || negb (Exhausted res)) (pProgressed p || (0 <? Scanned res)) (pScanned p + Scanned res) in
        r ← collect_all tx fetchUntilEmpty remaining sent cs ss p;
        let '(cs, ss, p) := r in Ok (c :: cs, ss, p)
  end.

Record storeScan := mkScan {
  cursors : list storeCursor;
  lastMaxEvsid : Z;
  hasWatermark : bool;
  capped : bool;
  scanned : Z;
  sctx : scanContext;
}.

(** The passes of scan; None when the passes allowed run out.  [snap n] is what
    the n-th pass's transaction sees. *)
Fixpoint scan_passes (fuel : nat) (snap : nat -> Tx) (pass : nat) (fetchUntilEmpty : bool) (cs : list cursorState)
    (emitted : Z) (s : storeScan) (sent : gset Z) (out : list PotentialEvent)
    : option (outcome StoreErr (list PotentialEvent * storeScan * gset Z)) :=
  match fuel with
  | O => None
  | S fuel =>
      let tx := snap pass in
      let s := if (pass =? 0)%nat
               then mkScan (cursors s) (Sequence (bucket tx indexEvents)) true (capped s) (scanned s) (sctx s) else s in
      let remaining := Limit (filter (sctx s)) - emitted in
      match collect_all tx fetchUntilEmpty remaining sent cs (sctx s) (mkPass 0 false false 0) with
      | Err e => Some (Err e)
      | Panic => Some Panic
      | Ok (cs, ss, p) =>
          let frontier := if pAnyActive p then pFrontier p else 0 in
          match collectBatch tx fetchUntilEmpty frontier (if fetchUntilEmpty then -1 else remaining) ss sent with
          | Err e => Some (Err e)
          | Panic => Some Panic
          | Ok (batch, added, ss, sent) =>
              let emitted := emitted + added in
              let out := out ++ batch in
              let progressed := pProgressed p || (0 <? added) in
              let upd cap ss := mkScan (cursors s) (lastMaxEvsid s) (hasWatermark s) (capped s || cap)
                                       (scanned s + pScanned p) ss in
              let cleared := if fetchUntilEmpty then ss else set_queue ss [] (queued ss) in
              if negb fetchUntilEmpty && (Limit (filter ss) <=? emitted) then Some (Ok (out, upd true cleared, sent))
              else if (forallb exhausted cs && bool_decide (queueEvents ss = [])) || negb progressed
              then Some (Ok (out, upd false cleared, sent))
              else scan_passes fuel snap (S pass) fetchUntilEmpty cs emitted (upd false ss) sent out
          end
      end
  end.

(** scan, except for the live tail of a query that has scanned before. *)
Definition scan (fuel : nat) (snap : nat -> Tx) (fetchUntilEmpty : bool) (s : storeScan) (sent : gset Z)
    : option (outcome StoreErr (list PotentialEvent * storeScan * gset Z)) :=
  match cursors s with
  | [] => Some (Ok ([], s, sent))
  | _ =>
      let s := mkScan (cursors s) (lastMaxEvsid s) (hasWatermark s) (capped s) (scanned s)
                      (set_boundary (sctx s) (lastMaxEvsid s)) in
      scan_passes fuel snap 0 fetchUntilEmpty (map (fun c => mkCur c None false) (cursors s)) 0 s sent []
  end.

(** ** Plans *)

Definition resolveEvsidByID (tx : Tx) (idHex : gostring) : outcome StoreErr (option Z) :=
  match Hex.decode idHex with
  | Some prefix =>
      if negb (length prefix =? 32)%nat then Ok None
      else match Seek (bucket tx indexID) prefix with
      | None => Ok None
      | Some (k, _) =>
          if negb (has_prefix k prefix) || negb (length k =? 32 + 8 + 8)%nat then Ok None
          else evsid ← btoi (drop 40 k); Ok (Some evsid)
      end
  | None => Ok None
  end.

(** The entries of one range, counted from [n] on up to [limit]. *)
Fixpoint count_range (sc : storeCursor) (l : list (gostring * gostring)) (n limit : Z) : Z :=
  match l with
  | [] => n
  | (k, _) :: l => if matchKey sc k then (if limit <=? n + 1 then n + 1 else count_range sc l (n + 1) limit) else n
  end.

Fixpoint count_ranges (b : Bucket) (cs : list storeCursor) (n limit : Z) : Z :=
  match cs with
  | [] => n
  | sc :: cs =>
      let m := count_range sc (walk b (maxKey sc)) n limit in
      if (n <? m) && (limit <=? m) then m else count_ranges b cs m limit
  end.

Definition countRanges (b : Bucket) (cs : list storeCursor) (limit : Z) : Z := count_ranges b cs 0 limit.

(** A tag name can drive the scan when all its values can be indexed. *)
Definition indexable (nv : gostring * list gostring) : bool :=
  match nv.2 with
  | [] => false
  | _ => forallb (fun v => match tagIndexPrefix nv.1 v with Some _ => true | None => false end) nv.2
  end.

(** sort.Strings on the names, which are distinct. *)
Definition name_le (a b : gostring * list gostring) : Prop := Cmp.ltb b.1 a.1 = false.
#[local] Instance name_le_dec : RelDecision name_le.
Proof. intros a b. unfold name_le. apply _. Defined.

Definition sort_names (l : list (gostring * list gostring)) : list (gostring * list gostring) :=
  merge_sort name_le l.

(** The best plan so far against the others. *)
Fixpoint pick_plan (b : Bucket) (best : list storeCursor) (bestCount : Z) (plans : list (list storeCursor))
    : list storeCursor * Z :=
  match plans with
  | [] => (best, bestCount)
  | plan :: plans =>
      let n := countRanges b plan bestCount in
      if n <? bestCount then pick_plan b plan n plans else pick_plan b best bestCount plans
  end.

Definition chooseTagScan (tx : Tx) (f : SubscriptionFilter) : outcome StoreErr (Index * list storeCursor) :=
  let order := map_to_list (FTags f) in
  match map (fun nv => createCursorsByTags [nv]) (sort_names (List.filter indexable order)) with
  | [] => Ok (indexTag, createCursorsByTags order)
  | plan0 :: plans =>
      let useKindPubkey := match elems (Kinds f), elems (Authors f) with _ :: _, _ :: _ => true | _, _ => false end in
      match plans, useKindPubkey with
      | [], false => Ok (indexTag, plan0)
      | _, _ =>
          kindPubkey ← (if useKindPubkey then createCursorsByKindsAndAuthors (elems (Kinds f)) (elems (Authors f))
                        else Ok []);
          let '(best, bestCount) :=
            pick_plan (bucket tx indexTag) plan0 (countRanges (bucket tx indexTag) plan0 rangeProbeCap) plans in
          if useKindPubkey && (rangeProbeCap <=? bestCount) &&
             (countRanges (bucket tx indexKindPubkey) kindPubkey rangeProbeCap <? bestCount)
          then Ok (indexKindPubkey, kindPubkey)
          else Ok (indexTag, best)
      end
  end.

Definition plan_scan (tx : Tx) (f : SubscriptionFilter) : outcome StoreErr (Index * list storeCursor) :=
  match elems (IDs f), bool_decide (size (FTags f) = 0%nat), elems (Authors f), elems (Kinds f) with
  | (_ :: _) as ids, _, _, _ => cs ← createCursorsByID ids; Ok (indexID, cs)
  | [], false, _, _ => chooseTagScan tx f
  | [], true, (_ :: _) as authors, (_ :: _) as kinds =>
      cs ← createCursorsByKindsAndAuthors kinds authors; Ok (indexKindPubkey, cs)
  | [], true, (_ :: _) as authors, [] => cs ← createCursorsByAuthors authors; Ok (indexPubkey, cs)
  | [], true, [], (_ :: _) as kinds => Ok (indexKind, createCursorsByKinds kinds)
  | [], true, [], [] => Ok (indexCreatedAt, [defaultCursor])
  end.

Definition newStoreScanIn (tx : Tx) (f : SubscriptionFilter) : outcome StoreErr storeScan :=
  before ← (if decide (BeforeID f = []) then Ok None else resolveEvsidByID tx (BeforeID f));
  p ← plan_scan tx f;
  let '(idx, cs) := p in
  Ok (mkScan cs 0 false false 0
        (mkCtx idx [] f ∅ 0 (default 0 before) (match before with Some _ => true | None => false end))).

(** ** Queries *)

Context (MaxLimit : Z).

Definition clamp (value min max : Z) : Z :=
  if value =? 0 then max else if value <? min then min else if max <? value then max else value.

Fixpoint newStoreQuery (tx : Tx) (filters : list SubscriptionFilter) : outcome StoreErr (list storeScan) :=
  match filters with
  | [] => Ok []
  | f :: filters =>
      s ← newStoreScanIn tx (WithLimit f (clamp (Limit f) filterMinLimit MaxLimit));
      rest ← newStoreQuery tx filters;
      Ok (s :: rest)
  end.

(** fetch: the filters' scans in turn, sharing what was sent. *)
Fixpoint fetch (fuel : nat) (snap : nat -> Tx) (keepOpen : bool) (scanners : list storeScan) (sent : gset Z)
    : option (outcome StoreErr (list PotentialEvent * gset Z)) :=
  match scanners with
  | [] => Some (Ok ([], sent))
  | s :: scanners =>
      match scan fuel snap keepOpen s sent with
      | None => None
      | Some (Err e) => Some (Err e)
      | Some Panic => Some Panic
      | Some (Ok (out, _, sent)) =>
          match fetch fuel snap keepOpen scanners sent with
          | Some (Ok (out', sent)) => Some (Ok (out ++ out', sent))
          | r => r
          end
      end
  end.

(** More passes than a scan can make: every pass but the last moves a cursor. *)
Definition scan_fuel (tx : Tx) (s : storeScan) : nat :=
  S (length (cursors s) * S (size (kv (bucket tx (index (sctx s)))))).

Definition query_fuel (tx : Tx) (q : list storeScan) : nat := max_list (map (scan_fuel tx) q).

(** findEvents: one filter, inside the caller's transaction. *)
Definition findEvents (tx : Tx) (f : SubscriptionFilter) : outcome StoreErr (list PotentialEvent) :=
  q ← newStoreQuery tx [f];
  match fetch (query_fuel tx q) (fun _ => tx) false q ∅ with
  | None => Err OutOfPasses
  | Some r => x ← r; Ok x.1
  end.

End Scan.
