(* ===== verification/StoreMerge.v ===== *)
(** * relay/store.go: the merge of a filter's cursors

    One scan delivers, newest first, the deliverable events of the union of
    its cursors' ranges, up to the filter's limit: the heap and the frontier
    merge the ranges, whatever their number and however a pass is cut. *)

From S2P Require Import Prelude GoLib GoHeap Bolt Sha256 NostrUtils Pow Event Filter StoreDb StoreInv StoreScan.

(** ** Entries: creation time and arrival number *)

Abbreviation entry := (Z * Z)%type.

(** Newest first, then the latest arrival. *)
Definition newer (a b : entry) : Prop := b.1 < a.1 \/ (a.1 = b.1 /\ b.2 <= a.2).

#[global] Instance newer_dec : RelDecision newer.
Proof. intros a b. unfold newer. apply _. Defined.
#[global] Instance newer_trans : Transitive newer.
Proof. intros [a a'] [b b'] [c c']. unfold newer. cbn. lia. Qed.
#[global] Instance newer_total : Total newer.
Proof. intros [a a'] [b b']. unfold newer. cbn. lia. Qed.
#[global] Instance newer_antisymm : AntiSymm (=) newer.
Proof. intros [a a'] [b b']. unfold newer. cbn. intros. f_equal; lia. Qed.

Definition pair_of (pe : PotentialEvent) : entry := (PCreatedAt pe, Evsid pe).

Lemma Less_newer a b : Less b a = false <-> newer (pair_of a) (pair_of b).
Proof.
  unfold Less, newer, pair_of. cbn. destruct (Z.eqb_spec (PCreatedAt b) (PCreatedAt a)) as [E|E]; cbn [negb].
  - rewrite Z.ltb_ge. lia.
  - rewrite Z.ltb_ge. lia.
Qed.

Lemma Less_refl a : le Less a a.
Proof. unfold le. apply Less_newer. unfold newer. lia. Qed.
Lemma Less_trans a b c : le Less a b -> le Less b c -> le Less a c.
Proof. unfold le. rewrite !Less_newer. apply newer_trans. Qed.
Lemma Less_le a b : Less a b = true -> le Less a b.
Proof.
  unfold le. intros H. destruct (Less b a) eqn:E; [|done].
  assert (~ newer (pair_of a) (pair_of b)) by (rewrite <- Less_newer, E; done).
  assert (~ newer (pair_of b) (pair_of a)) by (rewrite <- Less_newer, H; done).
  destruct (newer_total (pair_of a) (pair_of b)); done.
Qed.

Definition heap (q : list PotentialEvent) : Prop := heap_ok Less q.

Lemma AddEvent_heap q pe : heap q -> heap (AddEvent q pe) /\ AddEvent q pe ≡ₚ pe :: q.
Proof.
  intros HQ. split; [|apply push_perm]. by apply (push_ok Less Less_refl Less_trans Less_le).
Qed.

Lemma PopEvent_heap pe q : heap (pe :: q) -> exists q', PopEvent (pe :: q) = Some (pe, q') /\ heap q' /\ q ≡ₚ q' /\
  forall x, x ∈ pe :: q -> newer (pair_of pe) (pair_of x).
Proof.
  intros HQ. pose proof (pop_spec Less Less_refl Less_trans Less_le _ HQ) as HP.
  unfold PopEvent. destruct (pop Less (pe :: q)) as [[a q']|] eqn:E; [|done]. destruct HP as (HP & HO & HM).
  assert (Ha : a = pe).
  { unfold pop in E. cbn [length] in E. set (d := down _ _ _ _ _) in E. destruct (d !! length q) as [z|] eqn:Ed; [|done].
    injection E as E _. subst z. clear HP HO HM. destruct q as [|p q].
    - subst d. cbn in Ed. congruence.
    - subst d. rewrite (down_above Less Less_refl Less_trans Less_le _ _ 0%nat (length (p :: q)) (length (p :: q))) in Ed by (cbn [length]; lia).
      destruct (lookup_lt_is_Some_2 (pe :: p :: q) (length (p :: q))) as [z Hz]; [cbn; lia|].
      rewrite (swap_lookup _ _ _ pe z) in Ed by done. cbn [length] in Ed. rewrite decide_False, decide_True in Ed by lia. congruence. }
  subst a. exists q'. split; [done|]. split; [done|]. split; [by apply Permutation_cons_inv in HP|].
  intros x Hx. apply Less_newer. by apply HM.
Qed.

(** ** Ranges *)

(** What an index pair says: the creation time is the value, the arrival number
    the end of the key. *)
Definition ent (x : gostring * gostring) : entry := (BE.get64 x.2, BE.get64 (drop (length x.1 - 8) x.1)).

Fixpoint range (sc : storeCursor) (l : list (gostring * gostring)) : list (gostring * gostring) :=
  match l with
  | [] => []
  | x :: l => if matchKey sc x.1 then x :: range sc l else []
  end.

(** The part of match's checks that does not depend on what was seen. *)
Definition window (ss : scanContext) (e : entry) : bool :=
  negb ((0 <? Since (filter ss)) && (e.1 <? Since (filter ss))) &&
  negb ((0 <? Until (filter ss)) && (Until (filter ss) <? e.1)) &&
  negb (hasBeforeID ss && (e.1 =? Until (filter ss)) && (beforeIDEvsid ss <=? e.2)).

Lemma skipped_spec ss sent e :
  skipped ss sent e.2 e.1 = bool_decide (e.2 ∈ queued ss) || bool_decide (e.2 ∈ sent) || negb (window ss e).
Proof. unfold skipped, window. destruct (bool_decide _), (bool_decide _), (_ && _), (_ && _), (_ && _ && _); reflexivity. Qed.

(** A cursor that fits a bucket: in its range keys parse, newer keys come first,
    and the range has no gap. *)
Record good_cursor `{!Bolt} (b : Bucket) (sc : storeCursor) : Prop := {
  g_val : forall k v, kv b !! k = Some v -> length v = 8%nat;
  g_parse : forall k v, kv b !! k = Some v -> matchKey sc k = true -> exists o, parseKey sc k = Ok (o, (ent (k, v)).2);
  g_order : forall k1 v1 k2 v2, kv b !! k1 = Some v1 -> kv b !! k2 = Some v2 ->
    matchKey sc k1 = true -> matchKey sc k2 = true -> Cmp.ltb k2 k1 = true -> (ent (k2, v2)).1 <= (ent (k1, v1)).1;
  g_gap : forall k k', is_Some (kv b !! k) -> is_Some (kv b !! k') -> Cmp.ltb k (maxKey sc) = true ->
    matchKey sc k = false -> Cmp.ltb k' k = true -> matchKey sc k' = false;
}.

(** Adding what was found to a heap and its set of arrival numbers. *)
Definition absorbed (ss : scanContext) (sent : gset Z) (seen : list entry) (q q' : list PotentialEvent) (Q Q' : gset Z)
    : Prop :=
  heap q' /\ exists new : list entry,
    map pair_of q' ≡ₚ new ++ map pair_of q /\ NoDup new.*2 /\ Q' = list_to_set new.*2 ∪ Q /\
    (forall e, e ∈ new -> e ∈ seen /\ window ss e = true /\ e.2 ∉ Q /\ e.2 ∉ sent) /\
    (forall e, e ∈ seen -> window ss e = true -> e.2 ∉ sent -> e.2 ∈ Q').

Lemma absorbed_refl ss sent q Q : heap q -> absorbed ss sent [] q q Q Q.
Proof.
  intros HQ. split; [done|]. exists []. split_and!; [done|constructor|set_solver| |].
  - intros e He. by apply elem_of_nil in He.
  - intros e He. by apply elem_of_nil in He.
Qed.

Lemma absorbed_trans ss sent s1 s2 q1 q2 q3 Q1 Q2 Q3 :
  absorbed ss sent s1 q1 q2 Q1 Q2 -> absorbed ss sent s2 q2 q3 Q2 Q3 -> absorbed ss sent (s1 ++ s2) q1 q3 Q1 Q3.
Proof.
  intros (_ & n1 & P1 & D1 & E1 & F1 & G1) (HO & n2 & P2 & D2 & E2 & F2 & G2). split; [done|]. exists (n2 ++ n1).
  split_and!.
  - by rewrite P2, P1, app_assoc.
  - rewrite fmap_app. apply NoDup_app. split_and!; [done| |done]. intros x Hx2 Hx1.
    apply list_elem_of_fmap in Hx2 as (e & -> & He). apply F2 in He as (_ & _ & He & _). subst Q2. set_solver.
  - subst. rewrite fmap_app, list_to_set_app_L. set_solver.
  - intros e [He|He]%elem_of_app; [apply F2 in He|apply F1 in He]; subst; set_solver.
  - intros e [He|He]%elem_of_app Hw Hs; [specialize (G1 e He Hw Hs); subst; set_solver|by apply G2].
Qed.

(** One entry: skipped, or one more candidate. *)
Lemma absorbed_skip ss sent e q Q :
  heap q -> e.2 ∈ Q \/ e.2 ∈ sent \/ window ss e = false -> absorbed ss sent [e] q q Q Q.
Proof.
  intros HQ Hsk. split; [done|]. exists []. split_and!; [done|constructor|set_solver| |].
  - intros e' He. by apply elem_of_nil in He.
  - intros e' He Hw Hs. apply list_elem_of_singleton in He as ->. destruct Hsk as [?|[?|E]]; [done|done|by rewrite E in Hw].
Qed.

Lemma absorbed_add ss sent e pe q Q :
  heap q -> pair_of pe = e -> e.2 ∉ Q -> e.2 ∉ sent -> window ss e = true ->
  absorbed ss sent [e] q (AddEvent q pe) Q ({[e.2]} ∪ Q).
Proof.
  intros HQ Hpe H1 H2 H3. destruct (AddEvent_heap q pe HQ) as [HO HP]. split; [done|]. exists [e]. split_and!.
  - rewrite HP. cbn. by rewrite Hpe.
  - apply NoDup_singleton.
  - cbn. set_solver.
  - intros e' He. apply list_elem_of_singleton in He as ->. split; [set_solver|done].
  - intros e' He _ _. apply list_elem_of_singleton in He as ->. set_solver.
Qed.

(** ** One cursor, one pass *)

Lemma set_queue_id ss : set_queue ss (queueEvents ss) (queued ss) = ss.
Proof. by destruct ss. Qed.

Lemma set_queue_twice ss q Q q' Q' : set_queue (set_queue ss q Q) q' Q' = set_queue ss q' Q'.
Proof. done. Qed.

Lemma window_set_queue ss q Q : window (set_queue ss q Q) = window ss.
Proof. done. Qed.

Lemma btoi_8 v : length v = 8%nat -> btoi v = Ok (BE.get64 v).
Proof. intros HL. unfold btoi. by rewrite HL. Qed.

Section Cursor.
Context {Bolt0 : Bolt} (b : Bucket) (sc : storeCursor) (HG : good_cursor b sc).

(** Pairs a walk of this cursor can meet. *)
Definition pairs_ok (l : list (gostring * gostring)) : Prop :=
  (forall k v, (k, v) ∈ l -> kv b !! k = Some v /\ Cmp.ltb k (maxKey sc) = true) /\ StronglySorted after l.

Lemma pairs_ok_tail x l : pairs_ok (x :: l) -> pairs_ok l.
Proof. intros [H1 H2]. inversion H2; subst. split; [|done]. intros k v Hin. apply H1. by right. Qed.

Lemma pairs_ok_head k v k' v' l : pairs_ok ((k, v) :: l) -> (k', v') ∈ l -> Cmp.ltb k' k = true.
Proof. intros [_ HS] Hin. inversion HS as [|? ? _ HF]; subst. rewrite Forall_forall in HF. by apply (HF (k', v')). Qed.

Lemma range_elem l x : x ∈ range sc l -> x ∈ l /\ matchKey sc x.1 = true.
Proof.
  induction l as [|y l IH]; cbn; [by intros ?%elem_of_nil|]. destruct (matchKey sc y.1) eqn:E; [|by intros ?%elem_of_nil].
  intros [->|Hin]%elem_of_cons; [split; [by left|done]|]. destruct (IH Hin). split; [by right|done].
Qed.

#[local] Set Default Proof Using "All".

(** Once the walk drops below the window, nothing further is in it. *)
Lemma below_since ss k v l x :
  pairs_ok ((k, v) :: l) -> matchKey sc k = true -> 0 < Since (filter ss) -> BE.get64 v < Since (filter ss) ->
  x ∈ (k, v) :: l -> matchKey sc x.1 = true -> window ss (ent x) = false.
Proof.
  intros HO Hm HS Hlt Hx Hmx. assert (Hle : (ent x).1 < Since (filter ss)).
  { apply elem_of_cons in Hx as [->|Hx]; [done|]. destruct x as [k' v'].
    apply Z.le_lt_trans with (BE.get64 v); [|done].
    assert (H1 : kv b !! k = Some v) by (apply HO; by left). assert (H2 : kv b !! k' = Some v') by (apply HO; by right).
    apply (g_order _ _ HG k v k' v'); [done..|]. by eapply pairs_ok_head. }
  unfold window. rewrite (proj2 (Z.ltb_lt 0 _)) by done. by rewrite (proj2 (Z.ltb_lt _ _)) by done.
Qed.

(** What one entry in range does to the scan. *)
Lemma match_entry_spec ss sent k v :
  kv b !! k = Some v -> matchKey sc k = true -> heap (queueEvents ss) ->
  exists q' Q' r, match_entry sc ss sent k v = Ok (set_queue ss q' Q', r) /\
    absorbed ss sent [ent (k, v)] (queueEvents ss) q' (queued ss) Q' /\ (r = Queued \/ r = Skipped).
Proof.
  intros Hk Hm HQ. destruct (g_parse _ _ HG k v Hk Hm) as (o & HP). pose proof (g_val _ _ HG k v Hk) as H8. set (e := ent (k, v)) in *.
  unfold match_entry. rewrite Hm, HP. cbn [negb mbind outcome_bind].
  destruct (bool_decide (e.2 ∈ queued ss) || bool_decide (e.2 ∈ sent)) eqn:Es.
  { exists (queueEvents ss), (queued ss), Skipped. rewrite set_queue_id. split; [done|]. split; [|by right].
    apply absorbed_skip; [done|]. apply orb_true_iff in Es. rewrite !bool_decide_eq_true in Es. tauto. }
  rewrite (btoi_8 v H8). cbn [mbind outcome_bind]. change (BE.get64 v) with e.1. rewrite skipped_spec, Es. cbn [orb].
  apply orb_false_iff in Es. rewrite !bool_decide_eq_false in Es. destruct Es as [Es1 Es2].
  destruct (window ss e) eqn:Ew; cbn [negb].
  - eexists _, _, Queued. split; [reflexivity|]. split; [|by left]. by apply absorbed_add.
  - exists (queueEvents ss), (queued ss), Skipped. rewrite set_queue_id. split; [done|]. split; [|by right].
    apply absorbed_skip; [done|]. tauto.
Qed.

(** How a pass over [l] ended, having examined [l1] and left [l2]. *)
Definition pass_end (ss : scanContext) (limit : Z) (l1 l2 : list (gostring * gostring)) (res res' : collectResult) : Prop :=
  Scanned res' = Scanned res + zlen l1 /\
  if Exhausted res' then forall x, x ∈ range sc l2 -> window ss (ent x) = false
  else (l1 = [] /\ limit = 0 /\ res' = res /\ l2 <> []) \/
       (exists k v l1', l1 = l1' ++ [(k, v)] /\ ResumeKey res' = Some k /\ LastCreated res' = (ent (k, v)).1 /\ l2 <> []).

Lemma collect_spec sent l ss limit res :
  pairs_ok l -> heap (queueEvents ss) -> 0 <= limit -> Exhausted res = false ->
  exists l1 l2 q' Q' res', l = l1 ++ l2 /\ collect sc false sent l ss limit res = Ok (set_queue ss q' Q', res') /\
    absorbed ss sent (map ent l1) (queueEvents ss) q' (queued ss) Q' /\
    Forall (fun x => matchKey sc x.1 = true) l1 /\ pass_end ss limit l1 l2 res res'.
Proof.
  revert ss limit res. induction l as [|[k v] l IH]; intros ss limit res HO HQ Hlim Hex; cbn [collect].
  { exists [], [], (queueEvents ss), (queued ss), (exhaust res). rewrite set_queue_id.
    split_and!; [done|done|by apply absorbed_refl|constructor|]. split; [cbn [Scanned exhaust]; rewrite zlen_nil; lia|]. cbn. intros x Hx. by apply elem_of_nil in Hx. }
  assert (Hk : kv b !! k = Some v) by (apply HO; by left).
  destruct (Z.ltb_spec 0 limit) as [Hpos|Hz]; cbn [orb negb]; last first.
  { exists [], ((k, v) :: l), (queueEvents ss), (queued ss), res. rewrite set_queue_id.
    split_and!; [done|done|by apply absorbed_refl|constructor|]. split; [cbn [Scanned exhaust]; rewrite zlen_nil; lia|]. rewrite Hex. left. split_and!; [done|lia|done|done]. }
  cbn [andb]. rewrite (btoi_8 v (g_val _ _ HG k v Hk)). cbn [mbind outcome_bind].
  destruct ((0 <? Since (filter ss)) && (BE.get64 v <? Since (filter ss))) eqn:Es.
  { exists [], ((k, v) :: l), (queueEvents ss), (queued ss), (exhaust res). rewrite set_queue_id.
    split_and!; [done|done|by apply absorbed_refl|constructor|]. split; [cbn [Scanned exhaust]; rewrite zlen_nil; lia|]. cbn [Exhausted exhaust].
    intros x Hx. cbn [range] in Hx. destruct (matchKey sc (k, v).1) eqn:Em; [|by apply elem_of_nil in Hx]. bool_prop.
    assert (Hx' : x ∈ range sc ((k, v) :: l)) by (cbn [range]; by rewrite Em).
    apply range_elem in Hx' as [? ?]. by apply (below_since ss k v l). }
  destruct (matchKey sc k) eqn:Em; last first.
  { unfold match_entry. rewrite Em. cbn [negb mbind outcome_bind].
    exists [], ((k, v) :: l), (queueEvents ss), (queued ss), (exhaust res). rewrite set_queue_id.
    split_and!; [done|done|by apply absorbed_refl|constructor|]. split; [cbn [Scanned exhaust]; rewrite zlen_nil; lia|]. cbn [Exhausted exhaust range fst].
    rewrite Em. intros x Hx. by apply elem_of_nil in Hx. }
  destruct (match_entry_spec ss sent k v Hk Em HQ) as (q1 & Q1 & r & -> & HA & Hr). cbn [mbind outcome_bind].
  assert (HQ1 : heap (queueEvents (set_queue ss q1 Q1))) by apply HA.
  assert (HI : forall limit' dq, 0 <= limit' ->
    exists l1 l2 q' Q' res', (k, v) :: l = l1 ++ l2 /\
      collect sc false sent l (set_queue ss q1 Q1) limit' (mkRes (Some k) (RQueued res + dq) (Scanned res + 1) (BE.get64 v) (Exhausted res))
        = Ok (set_queue ss q' Q', res') /\
      absorbed ss sent (map ent l1) (queueEvents ss) q' (queued ss) Q' /\
      Forall (fun x => matchKey sc x.1 = true) l1 /\ pass_end ss limit l1 l2 res res').
  { intros limit' dq Hl'. destruct (IH (set_queue ss q1 Q1) limit' (mkRes (Some k) (RQueued res + dq) (Scanned res + 1) (BE.get64 v) (Exhausted res)))
      as (l1 & l2 & q' & Q' & res' & -> & -> & HA' & HF & HS & HE); [by eapply pairs_ok_tail|done|done|done|].
    exists ((k, v) :: l1), l2, q', Q', res'. split_and!; [done|by rewrite set_queue_twice| |by constructor|].
    - cbn [map]. exact (absorbed_trans ss sent [ent (k, v)] (map ent l1) _ _ _ _ _ _ HA HA').
    - split; [cbn [Scanned] in HS; rewrite zlen_cons; lia|]. destruct (Exhausted res'); [exact HE|]. right.
      destruct HE as [(-> & _ & -> & Hne)|(k' & v' & l1' & -> & HR & HC & Hne)].
      + by exists k, v, [].
      + by exists k', v', ((k, v) :: l1'). }
  destruct Hr as [-> | ->]; apply HI; lia.
Qed.

End Cursor.

(** ** Resuming *)

Section Resume.
Context {Bolt0 : Bolt} (BL : BoltLaws).
#[local] Set Default Proof Using "All".

#[local] Instance after_antisymm : AntiSymm (=) after.
Proof. intros x y H1 H2. unfold after in *. by rewrite (Cmp.ltb_asym _ _ H1) in H2. Qed.

Lemma sorted_NoDup (l : list (gostring * gostring)) : StronglySorted after l -> NoDup l.
Proof.
  induction 1 as [|x l HS IH HF]; constructor; [|done]. intros Hin. rewrite Forall_forall in HF.
  specialize (HF x Hin). unfold after in HF. by rewrite Cmp.ltb_irrefl in HF.
Qed.

(** The walk resumed at a key it has yielded continues after it. *)
Lemma walk_resume b s l1 k v l2 : walk b s = l1 ++ (k, v) :: l2 -> walk b k = l2.
Proof.
  intros HE. destruct (walk_spec BL b s) as [HI HS]. destruct (walk_spec BL b k) as [HI' HS'].
  rewrite HE in HI, HS. apply StronglySorted_app in HS as (H1 & _ & HS2).
  inversion HS2 as [|? ? HS3 HF]; subst. rewrite Forall_forall in HF.
  apply (StronglySorted_unique after); [done|done|]. apply NoDup_Permutation; [by apply sorted_NoDup|by apply sorted_NoDup|].
  intros [k' v']. rewrite HI'. split.
  - intros [Hk Hlt]. assert (Hks : Cmp.ltb k s = true) by (apply (HI k v); set_solver).
    assert (Hin : (k', v') ∈ l1 ++ (k, v) :: l2) by (apply HI; split; [done|by apply Cmp.ltb_trans with k]).
    apply elem_of_app in Hin as [Hin|[[= -> ->]|Hin]%elem_of_cons]; [| |done].
    + specialize (H1 (k', v') (k, v) Hin ltac:(by left)) as Hin'. clear Hin; rename Hin' into Hin. unfold after in Hin. cbn in Hin. by rewrite (Cmp.ltb_asym _ _ Hin) in Hlt.
    + by rewrite Cmp.ltb_irrefl in Hlt.
  - intros Hin. split; [apply HI; set_solver|]. by apply (HF (k', v')).
Qed.

Lemma range_app sc l1 l2 : Forall (fun x => matchKey sc x.1 = true) l1 -> range sc (l1 ++ l2) = l1 ++ range sc l2.
Proof. induction 1 as [|x l1 Hx HF IH]; [done|]. cbn. by rewrite Hx, IH. Qed.

Definition start (c : cursorState) : gostring := match resume c with Some k => k | None => maxKey (cursor c) end.

(** What a cursor may still yield. *)
Definition rest (b : Bucket) (c : cursorState) : list (gostring * gostring) :=
  if exhausted c then [] else range (cursor c) (walk b (start c)).

Definition cur_ok (b : Bucket) (c : cursorState) : Prop :=
  good_cursor b (cursor c) /\ (exhausted c = false -> Cmp.ltb (maxKey (cursor c)) (start c) = false).

Lemma walk_ok b c : cur_ok b c -> exhausted c = false -> pairs_ok b (cursor c) (walk b (start c)).
Proof.
  intros [HG HR] Hex. destruct (walk_spec BL b (start c)) as [HI HS]. split; [|done]. intros k v Hin.
  apply HI in Hin as [Hk Hlt]. split; [done|]. specialize (HR Hex).
  destruct (Cmp.ltb k (maxKey (cursor c))) eqn:E; [done|]. destruct (Cmp.ltb (maxKey (cursor c)) k) eqn:E'.
  - by rewrite (Cmp.ltb_trans _ _ _ E' Hlt) in HR.
  - by rewrite (Cmp.ltb_total _ _ E E'), HR in Hlt.
Qed.

Section Passes.
Context {JSON0 : EventJSON} {Derived0 : Derived} (tx : Tx) (ss : scanContext).
Abbreviation b := (bucket tx (index ss)).

(** The outcome of one cursor's turn. *)
Lemma Collect_spec (c : cursorState) sent q Q chunk :
  cur_ok b c -> exhausted c = false -> heap q -> 0 < chunk ->
  exists q' Q' res seen, Collect tx (cursor c) (set_queue ss q Q) sent (resume c) chunk false = Ok (set_queue ss q' Q', res) /\
    let c' := mkCur (cursor c) (ResumeKey res) (Exhausted res) in
    cur_ok b c' /\ absorbed ss sent seen q q' Q Q' /\
    (forall e, e ∈ seen -> e ∈ map ent (rest b c)) /\
    (forall e, e ∈ map ent (rest b c) -> e ∈ seen \/ e ∈ map ent (rest b c') \/ window ss e = false) /\
    (Exhausted res = false ->
       (forall e, e ∈ map ent (rest b c') -> e.1 <= LastCreated res /\ e ∈ map ent (rest b c)) /\
       (length (rest b c') < length (rest b c))%nat /\ 0 < Scanned res /\
       exists i, (LastCreated res, i) ∈ map ent (rest b c)).
Proof.
  intros HC Hex HQ Hch. pose proof (walk_ok _ _ HC Hex) as HO. destruct HC as [HG HR].
  unfold Collect. rewrite (proj2 (Z.leb_gt chunk 0)) by done. cbn [andb set_queue index]. fold (start c).
  destruct (collect_spec b (cursor c) HG sent (walk b (start c)) (set_queue ss q Q) chunk (mkRes (resume c) 0 0 0 false))
    as (l1 & l2 & q' & Q' & res & HE & -> & HA & HF & HS & HN); [done|done|lia|done|].
  rewrite set_queue_twice. cbn [set_queue queueEvents queued] in HA. exists q', Q', res, (map ent l1). split; [done|].
  assert (HRest : rest b c = l1 ++ range (cursor c) l2) by (unfold rest; rewrite Hex, HE; by apply range_app).
  assert (HSub : forall e, e ∈ map ent l1 -> e ∈ map ent (rest b c)).
  { intros e. rewrite HRest, map_app, elem_of_app. by left. }
  destruct (Exhausted res) eqn:EX.
  - split_and!; [by split|exact HA|exact HSub| |done].
    intros e. rewrite HRest, map_app, elem_of_app, !list_elem_of_fmap. intros [He|(x & -> & Hx)]; [by left|].
    right; right. by apply HN.
  - destruct HN as [(_ & -> & _)|(k & v & l1' & -> & HK & HLC & Hne)]; [lia|].
    assert (HW : walk b k = l2) by (eapply (walk_resume b (start c) l1' k v); by rewrite HE, <- app_assoc).
    assert (HR' : rest b (mkCur (cursor c) (ResumeKey res) false) = range (cursor c) l2).
    { unfold rest, start. cbn. by rewrite HK, HW. }
    assert (Hkm : Cmp.ltb k (maxKey (cursor c)) = true /\ kv b !! k = Some v /\ matchKey (cursor c) k = true).
    { destruct HO as [HO _]. destruct (HO k v) as [? ?]; [rewrite HE; set_solver|]. split_and!; [done|done|].
      rewrite Forall_forall in HF. apply (HF (k, v)). set_solver. }
    destruct Hkm as (Hkm & Hkv & Hmk). split_and!.
    + split; [done|]. intros _. unfold start. cbn. rewrite HK. by apply Cmp.ltb_asym.
    + exact HA.
    + exact HSub.
    + intros e. rewrite HR', HRest, map_app, elem_of_app. tauto.
    + intros _. rewrite HR'. split_and!.
      * intros e He. split; [|rewrite HRest, map_app, elem_of_app; by right]. apply list_elem_of_fmap in He as ([k' v'] & -> & Hin).
        apply range_elem in Hin as [Hin Hm]. rewrite HLC. rewrite <- HW in Hin. apply (walk_spec BL) in Hin as [Hkv' Hlt].
        by apply (g_order _ _ HG k v k' v').
      * rewrite HRest, !length_app. cbn [length]. lia.
      * rewrite HS, zlen_app. cbn [Scanned]. unfold zlen. cbn [length]. lia.
      * exists (ent (k, v)).2. apply list_elem_of_fmap. exists (k, v). rewrite HLC. split; [by destruct (ent (k, v))|].
        rewrite HRest. set_solver.
Qed.

(** What all cursors together may still yield, and how long they may take. *)
Definition pending (cs : list cursorState) : list entry := concat (map (fun c => map ent (rest b c)) cs).

Definition effort (cs : list cursorState) : nat :=
  sum_list (map (fun c => if exhausted c then 0%nat else S (length (rest b c))) cs).

Definition active (cs : list cursorState) : bool := existsb (fun c => negb (exhausted c)) cs.

Lemma pending_cons e c cs : e ∈ pending (c :: cs) <-> e ∈ map ent (rest b c) \/ e ∈ pending cs.
Proof. unfold pending. cbn. by rewrite elem_of_app. Qed.

Lemma pending_inactive cs : active cs = false -> pending cs = [] /\ effort cs = 0%nat.
Proof.
  induction cs as [|c cs IH]; [done|]. unfold active, pending, effort in *. cbn. intros HA. bool_prop.
  destruct IH as [IH1 IH2]; [done|]. rewrite IH1, app_nil_r. unfold rest. rewrite H. done.
Qed.

(** One round over the cursors: everything pending is seen, is still pending or
    is outside the window; what is still pending is no newer than the frontier;
    and the round is progress. *)
Record round (sent : gset Z) (cs cs' : list cursorState) (p p' : passState) (seen : list entry) : Prop := {
  rd_ok : Forall (cur_ok b) cs';
  rd_seen : forall e, e ∈ seen -> e ∈ pending cs;
  rd_cover : forall e, e ∈ pending cs -> e ∈ seen \/ e ∈ pending cs' \/ window ss e = false;
  rd_sub : forall e, e ∈ pending cs' -> e ∈ pending cs;
  rd_front : forall e, e ∈ pending cs' -> e.1 <= pFrontier p';
  rd_mono : pFrontier p <= pFrontier p';
  rd_any : pAnyActive p' = pAnyActive p || active cs';
  rd_prog : pProgressed p = true \/ active cs' = true -> pProgressed p' = true;
  rd_effort : if active cs then (effort cs' < effort cs)%nat else effort cs' = effort cs;
  rd_pos : (forall e, e ∈ pending cs -> 0 < e.1) -> 0 < pFrontier p \/ active cs' = true -> 0 < pFrontier p';
}.

Lemma collect_all_spec remaining sent cs q Q p :
  Forall (cur_ok b) cs -> heap q -> 0 < remaining ->
  exists cs' q' Q' p' seen,
    collect_all tx false remaining sent cs (set_queue ss q Q) p = Ok (cs', set_queue ss q' Q', p') /\
    absorbed ss sent seen q q' Q Q' /\ round sent cs cs' p p' seen.
Proof.
  intros HF HQ Hrem. revert q Q p HQ. induction HF as [|c cs HC HF IH]; intros q Q p HQ; cbn [collect_all].
  { exists [], q, Q, p, []. split; [done|]. split; [by apply absorbed_refl|].
    split; try done; try (intros; set_solver); try lia; cbn; rewrite ?orb_false_r; naive_solver. }
  destruct (exhausted c) eqn:Hex.
  - destruct (IH q Q p HQ) as (cs' & q' & Q' & p' & seen & -> & HA & HR). cbn.
    exists (c :: cs'), q', Q', p', seen. split; [done|]. split; [done|]. destruct HR.
    assert (HE : forall l, pending (c :: l) = pending l) by (intros l; unfold pending; cbn; unfold rest; by rewrite Hex).
    assert (HAct : forall l, active (c :: l) = active l) by (intros l; unfold active; cbn; by rewrite Hex).
    assert (HEf : forall l, effort (c :: l) = effort l) by (intros l; unfold effort; cbn; by rewrite Hex).
    split; rewrite ?HE, ?HAct, ?HEf; try done. by constructor.
  - cbn [negb andb]. rewrite (proj2 (Z.leb_gt remaining 0)) by done. set (chunk := if remaining <? _ then _ else _).
    assert (Hch : 0 < chunk) by (subst chunk; unfold maxCursorChunk; destruct (_ <? _); lia). clearbody chunk.
    destruct (Collect_spec c sent q Q chunk HC Hex HQ Hch) as (q1 & Q1 & res & s1 & -> & HC1 & HA1 & HS1 & HCov1 & HN1).
    cbn [mbind outcome_bind]. set (c1 := mkCur _ _ _) in *.
    set (p1 := mkPass _ _ _ _).
    destruct (IH q1 Q1 p1) as (cs' & q' & Q' & p' & seen & -> & HA & HR); [apply HA1|]. cbn [mbind outcome_bind].
    exists (c1 :: cs'), q', Q', p', (s1 ++ seen). split; [done|]. split; [by eapply absorbed_trans|].
    assert (HAct : active (c1 :: cs') = negb (Exhausted res) || active cs') by done.
    assert (Hp1 : pFrontier p <= pFrontier p1 /\ (Exhausted res = false -> LastCreated res <= pFrontier p1)).
    { subst p1. cbn. destruct (Exhausted res); cbn; [split; [lia|done]|]. destruct (Z.ltb_spec (pFrontier p) (LastCreated res)); split; lia. }
    assert (Hc1 : Exhausted res = true -> rest b c1 = []) by (intros E; unfold rest; cbn; by rewrite E).
    destruct HR, Hp1 as [Hp1 Hp1']. split.
    + by constructor.
    + intros e [He|He]%elem_of_app; rewrite pending_cons; [left; by apply HS1|right; by apply rd_seen0].
    + intros e. rewrite !pending_cons, elem_of_app. intros [He|He]; [apply HCov1 in He|apply rd_cover0 in He]; tauto.
    + intros e. rewrite !pending_cons. intros [He|He]; [|right; by apply rd_sub0]. left.
      destruct (Exhausted res) eqn:EX; [by rewrite Hc1 in He; [apply elem_of_nil in He|]|]. by apply HN1.
    + intros e. rewrite pending_cons. intros [He|He]; [|by apply rd_front0].
      destruct (Exhausted res) eqn:EX; [by rewrite Hc1 in He; [apply elem_of_nil in He|]|].
      apply (proj1 (HN1 eq_refl)) in He as [He _]. specialize (Hp1' eq_refl). lia.
    + lia.
    + rewrite rd_any0, HAct. subst p1. cbn. by rewrite orb_assoc.
    + intros HP. apply rd_prog0. rewrite HAct in HP. subst p1. cbn. destruct HP as [->|HP]; [by left|].
      destruct (Exhausted res) eqn:EX; [by right|]. left. destruct (HN1 eq_refl) as (_ & _ & HSc & _).
      rewrite (proj2 (Z.ltb_lt _ _)) by done. by destruct (pProgressed p).
    + assert (HE : (effort (c1 :: cs') < effort (c :: cs))%nat).
      { unfold effort in *. cbn. rewrite Hex. destruct (Exhausted res) eqn:EX.
        - destruct (active cs); lia.
        - destruct (HN1 eq_refl) as (_ & HLt & _). destruct (active cs); lia. }
      replace (active (c :: cs)) with true by (unfold active; cbn; by rewrite Hex). exact HE.
    + intros Hpos HP. assert (Hpos' : forall e, e ∈ pending cs -> 0 < e.1) by (intros e He; apply Hpos; rewrite pending_cons; by right).
      destruct HP as [HP|HP]; [apply rd_pos0; [done|left; lia]|]. rewrite HAct in HP.
      destruct (Exhausted res) eqn:EX; [apply rd_pos0; [done|by right]|]. apply rd_pos0; [done|]. left.
      destruct (HN1 eq_refl) as (_ & _ & _ & i & Hi). specialize (Hpos (LastCreated res, i)).
      rewrite pending_cons in Hpos. specialize (Hpos (or_introl Hi)). cbn in Hpos. specialize (Hp1' eq_refl). lia.
Qed.

End Passes.
End Resume.
