(* ===== verification/StoreExact.v ===== *)
(** * relay/store.go: what a scan delivers

    For cursors that fit their bucket, a scan inside one transaction delivers
    exactly the deliverable entries of the cursors' ranges, newest first and up
    to the limit. *)

From S2P Require Import Prelude GoLib GoHeap Bolt Sha256 NostrUtils Pow Event Filter StoreDb StoreInv StoreScan StoreMerge.

Section Exact.
Context {Bolt0 : Bolt} {JSON0 : EventJSON} {Derived0 : Derived} {GoLower0 : GoLower} (BL : BoltLaws) (mit : Z).
Context (tx : Tx) (S : gmap Z Event) (HR : represents mit tx S) (ss : scanContext) (sent0 : gset Z).

(** The candidates: every entry in the ranges and the window that was not sent
    before, newest first. *)
Context (total : list entry) (Hsorted : StronglySorted newer total) (Hnodup : NoDup total.*2).
Context (Htotal : forall e, e ∈ total -> window ss e = true /\ e.2 ∉ sent0 /\
  exists ev, S !! e.2 = Some ev /\ CreatedAt ev = e.1).

(** What the event itself decides. *)
Definition deliver (e : entry) : bool :=
  match S !! e.2 with
  | Some ev => negb (IsEphemeralKind (Kind ev)) && Match (filter ss) ev
  | None => false
  end.

Definition potential (e : entry) : PotentialEvent :=
  match S !! e.2 with
  | Some ev => mkPE e.2 e.1 (ID ev) (MarshalEvent ev)
  | None => mkPE e.2 e.1 [] []
  end.

Definition delivered (l : list entry) : list entry := List.filter deliver l.

(** The state of the merge after [PL] has been popped and with [R] to come. *)
Record merge_inv (PL R : list entry) (q : list PotentialEvent) (Q sent : gset Z) (cs : list cursorState) : Prop := {
  mi_split : total = PL ++ R;
  mi_heap : heap q;
  mi_q : forall pe, pe ∈ q -> pair_of pe ∈ R;
  mi_nodup : NoDup (map pair_of q).*2;
  mi_Q : forall id, id ∈ Q <-> id ∈ PL.*2 \/ id ∈ (map pair_of q).*2;
  mi_R : forall e, e ∈ R -> e.2 ∈ Q \/ e ∈ pending tx ss cs;
  mi_sent : sent = sent0 ∪ list_to_set (delivered PL).*2;
  mi_pend : forall e, e ∈ pending tx ss cs -> window ss e = true -> e.2 ∉ sent0 -> e ∈ total;
}.

#[local] Set Default Proof Using "All".

Lemma total_inj e e' : e ∈ total -> e' ∈ total -> e.2 = e'.2 -> e = e'.
Proof.
  intros He He' HE. apply list_elem_of_lookup in He as [i Hi]. apply list_elem_of_lookup in He' as [j Hj].
  assert (i = j); [|congruence]. apply (NoDup_lookup total.*2 i j e.2); [done|by rewrite list_lookup_fmap, Hi|].
  rewrite list_lookup_fmap, Hj. cbn. congruence.
Qed.

Lemma split_disjoint PL R e : total = PL ++ R -> e ∈ R -> e.2 ∉ PL.*2.
Proof.
  intros HT He Hin. pose proof Hnodup as HN. rewrite HT, fmap_app in HN. apply NoDup_app in HN as (_ & HN & _).
  apply (HN _ Hin). apply list_elem_of_fmap. by exists e.
Qed.

Lemma delivered_ids e l : e ∈ delivered l -> e.2 ∈ l.*2.
Proof.
  intros He. apply list_elem_of_In, filter_In in He as [He _]. apply list_elem_of_fmap. exists e.
  split; [done|by apply list_elem_of_In].
Qed.

(** A round over the cursors keeps the merge. *)
Lemma merge_round PL R q q' Q Q' sent cs cs' p p' seen :
  merge_inv PL R q Q sent cs -> absorbed ss sent seen q q' Q Q' -> round tx ss sent cs cs' p p' seen ->
  merge_inv PL R q' Q' sent cs'.
Proof.
  intros [H1 H2 H3 H4 H5 H6 H7 H8] (HQ' & new & HP & HN & HE & HF & HG) HRd.
  assert (Hnew : forall e, e ∈ new -> e ∈ R).
  { intros e He. apply HF in He as (Hs & Hw & HnQ & Hns). assert (Ht : e ∈ total).
    { apply H8; [by apply (rd_seen _ _ _ _ _ _ _ _ HRd)|done|]. subst sent. set_solver. }
    rewrite H1, elem_of_app in Ht. destruct Ht as [Ht|]; [|done]. destruct HnQ. apply H5. left. apply list_elem_of_fmap. by exists e. }
  split.
  - done.
  - done.
  - intros pe Hpe. assert (Hin : pair_of pe ∈ map pair_of q') by (apply list_elem_of_fmap; by exists pe).
    rewrite HP, elem_of_app in Hin. destruct Hin as [Hin|Hin]; [by apply Hnew|].
    apply list_elem_of_fmap in Hin as (pe' & -> & Hin). by apply H3.
  - assert (HP2 : (map pair_of q').*2 ≡ₚ new.*2 ++ (map pair_of q).*2) by (rewrite HP; by rewrite fmap_app).
    rewrite HP2. apply NoDup_app. split_and!; [done| |done]. intros x Hx Hx'. apply list_elem_of_fmap in Hx as (e & -> & He).
    apply HF in He as (_ & _ & HnQ & _). apply HnQ, H5. by right.
  - intros id. rewrite HE, elem_of_union, elem_of_list_to_set, H5.
    assert (HP2 : (map pair_of q').*2 ≡ₚ new.*2 ++ (map pair_of q).*2) by (rewrite HP; by rewrite fmap_app).
    rewrite HP2, elem_of_app. tauto.
  - intros e He. pose proof (split_disjoint _ _ _ H1 He) as Hd.
    assert (Ht : e ∈ total) by (rewrite H1; set_solver). destruct (Htotal e Ht) as (Hw & Hs0 & _).
    destruct (H6 e He) as [HeQ|Hp]; [left; rewrite HE; set_solver|].
    apply (rd_cover _ _ _ _ _ _ _ _ HRd) in Hp as [Hp|[Hp|Hp]]; [|by right|congruence]. left. apply HG; [done|done|].
    subst sent. rewrite elem_of_union, elem_of_list_to_set. intros [|Hin]; [done|]. apply Hd.
    apply list_elem_of_fmap in Hin as (e' & HE' & Hin). rewrite HE'. by apply delivered_ids.
  - done.
  - intros e He. apply H8. by apply (rd_sub _ _ _ _ _ _ _ _ HRd).
Qed.

(** The root of the heap, above the frontier, is the next entry. *)
Lemma merge_next PL R pe q Q sent cs frontier :
  merge_inv PL R (pe :: q) Q sent cs -> (forall e, e ∈ pending tx ss cs -> e.1 <= frontier) ->
  (frontier < PCreatedAt pe \/ pending tx ss cs = []) ->
  exists q' R', PopEvent (pe :: q) = Some (pe, q') /\ R = pair_of pe :: R' /\ length q' = length q /\
    forall sent', sent' = sent0 ∪ list_to_set (delivered (PL ++ [pair_of pe])).*2 ->
    merge_inv (PL ++ [pair_of pe]) R' q' Q sent' cs.
Proof.
  intros [H1 H2 H3 H4 H5 H6 H7 H8] HF Hf. destruct (PopEvent_heap pe q H2) as (q' & HPop & HQ' & HP & HM).
  assert (HeR : pair_of pe ∈ R) by (apply H3; by left).
  assert (Hmax : forall e, e ∈ R -> newer (pair_of pe) e).
  { intros e He. destruct (H6 e He) as [HeQ|Hpe].
    - apply H5 in HeQ as [HeQ|HeQ]; [by destruct (split_disjoint _ _ _ H1 He)|].
      apply list_elem_of_fmap in HeQ as (e' & HE & Hin). apply list_elem_of_fmap in Hin as (x & -> & Hx).
      assert (e = pair_of x) as ->; [|by apply HM]. apply total_inj; [rewrite H1; set_solver| |done].
      rewrite H1, elem_of_app. right. by apply H3.
    - destruct Hf as [Hf|Hf]; [|rewrite Hf in Hpe; by apply elem_of_nil in Hpe]. left. apply HF in Hpe. cbn. lia. }
  assert (HRs : StronglySorted newer R) by (rewrite H1 in Hsorted; by apply StronglySorted_app in Hsorted as (_ & _ & ?)).
  destruct R as [|h R']; [by apply elem_of_nil in HeR|].
  assert (h = pair_of pe) as ->.
  { apply elem_of_cons in HeR as [HeR|HeR]; [done|]. apply (anti_symm newer); [|apply Hmax; by left].
    inversion HRs as [|? ? _ HFo]; subst. rewrite Forall_forall in HFo. by apply HFo. }
  exists q', R'. split; [done|]. split; [done|]. split; [symmetry; by apply Permutation_length|]. intros sent' Hs'.
  assert (HP2 : (map pair_of q).*2 ≡ₚ (map pair_of q').*2) by (by rewrite HP).
  assert (HT : total = (PL ++ [pair_of pe]) ++ R') by (by rewrite <- app_assoc).
  inversion H4 as [|? ? Hni HN]; subst.
  split.
  - done.
  - done.
  - intros x Hx. rewrite <- HP in Hx. assert (Hxr : pair_of x ∈ pair_of pe :: R') by (apply H3; by right).
    apply elem_of_cons in Hxr as [HE|]; [|done]. destruct Hni. apply list_elem_of_fmap. exists (pair_of x).
    split; [by rewrite HE|]. apply list_elem_of_fmap. by exists x.
  - by rewrite <- HP2.
  - intros id. rewrite H5, fmap_app, elem_of_app, <- HP2. cbn. rewrite elem_of_cons, elem_of_cons, elem_of_nil. tauto.
  - intros e He. apply H6. by right.
  - done.
  - done.
Qed.

Lemma delivered_app l1 l2 : delivered (l1 ++ l2) = delivered l1 ++ delivered l2.
Proof. apply List.filter_app. Qed.

Lemma delivered_cons e l : delivered (e :: l) = if deliver e then e :: delivered l else delivered l.
Proof. done. Qed.

(** collectBatch emits the next deliverable entries in order, until the limit, the
    frontier or the end of the heap. *)
Lemma batch_spec fuel PL R q Q sent cs frontier remaining added batch :
  merge_inv PL R q Q sent cs -> (forall e, e ∈ pending tx ss cs -> e.1 <= frontier) ->
  0 < frontier \/ pending tx ss cs = [] -> (length q <= fuel)%nat -> 0 <= added <= remaining ->
  exists PL' R' q' sent', R = PL' ++ R' /\
    collect_batch fuel tx false frontier remaining added (set_queue ss q Q) sent batch
    = Ok (batch ++ map potential (delivered PL'), added + zlen (delivered PL'), set_queue ss q' Q, sent') /\
    merge_inv (PL ++ PL') R' q' Q sent' cs /\ added + zlen (delivered PL') <= remaining /\
    (added + zlen (delivered PL') = remaining \/ q' = [] \/ 0 < frontier).
Proof.
  revert PL R q sent added batch. induction fuel as [|fuel IH]; intros PL R q sent added batch HI HF Hf Hlen Hadd.
  { destruct q; [|cbn in Hlen; lia]. exists [], R, [], sent. cbn. rewrite !app_nil_r, Z.add_0_r.
    split_and!; try done; [lia|tauto]. }
  assert (Hstop : (added = remaining \/ q = [] \/ 0 < frontier) ->
    exists PL' R' q' sent', R = PL' ++ R' /\
      Ok (batch, added, set_queue ss q Q, sent)
      = @Ok StoreErr _ (batch ++ map potential (delivered PL'), added + zlen (delivered PL'), set_queue ss q' Q, sent') /\
      merge_inv (PL ++ PL') R' q' Q sent' cs /\ added + zlen (delivered PL') <= remaining /\
      (added + zlen (delivered PL') = remaining \/ q' = [] \/ 0 < frontier)).
  { intros Hst. exists [], R, q, sent. cbn. rewrite !app_nil_r, Z.add_0_r. split_and!; try done. lia. }
  cbn [collect_batch]. rewrite (proj2 (Z.leb_le 0 remaining)) by lia. cbn [andb].
  destruct (Z.leb_spec remaining added) as [Hle|Hlt]; [apply Hstop; left; lia|].
  cbn [set_queue queueEvents]. destruct q as [|pe q]; [apply Hstop; tauto|].
  destruct ((0 <? frontier) && (PCreatedAt pe <=? frontier)) eqn:Efr; [bool_prop; apply Hstop; tauto|].
  assert (Hfr : frontier < PCreatedAt pe \/ pending tx ss cs = []).
  { apply andb_false_iff in Efr as [Efr|Efr]; bool_prop; [|by left]. destruct Hf; [lia|by right]. }
  destruct (merge_next _ _ _ _ _ _ _ _ HI HF Hfr) as (q' & R' & HPop & -> & Hlq & HI').
  rewrite HPop. set (e := pair_of pe) in *.
  assert (He : e ∈ total) by (rewrite (mi_split _ _ _ _ _ _ HI); set_solver).
  destruct (Htotal e He) as (_ & _ & ev & Hev & Hce).
  assert (Hrng : 0 <= Evsid pe < 2 ^ 64).
  { apply (rep_ids _ _ _ HR) in Hev as [Hi _]. pose proof (rep_seq _ _ _ HR). change (e.2) with (Evsid pe) in Hi. lia. }
  rewrite (findEventAndBytes_spec BL mit tx S) by done. change (Evsid pe) with e.2. rewrite Hev.
  cbn [set_queue queued filter]. rewrite set_queue_twice.
  assert (HD : delivered (PL ++ [e]) = delivered PL ++ (if deliver e then [e] else [])) by (rewrite delivered_app; done).
  assert (Hskip : deliver e = false -> exists PL' R'0 q'0 sent',
    e :: R' = PL' ++ R'0 /\
    collect_batch fuel tx false frontier remaining added (set_queue ss q' Q) sent batch
    = Ok (batch ++ map potential (delivered PL'), added + zlen (delivered PL'), set_queue ss q'0 Q, sent') /\
    merge_inv (PL ++ PL') R'0 q'0 Q sent' cs /\ added + zlen (delivered PL') <= remaining /\
    (added + zlen (delivered PL') = remaining \/ q'0 = [] \/ 0 < frontier)).
  { intros Ed. destruct (IH (PL ++ [e]) R' q' sent added batch) as (PL' & R'' & q'' & sent' & -> & -> & HI'' & Hle' & Hend);
      [apply HI'; rewrite HD, Ed, app_nil_r; apply (mi_sent _ _ _ _ _ _ HI)|done|done|cbn in Hlen; lia|lia|].
    exists (e :: PL'), R'', q'', sent'. rewrite delivered_cons, Ed.
    rewrite <- app_assoc in HI''. split_and!; done. }
  destruct (IsEphemeralKind (Kind ev)) eqn:Ee; cbn [negb andb].
  { apply Hskip. unfold deliver. rewrite Hev, Ee. done. }
  destruct (Match (filter ss) ev) eqn:Em; cbn [negb].
  2:{ apply Hskip. unfold deliver. rewrite Hev, Ee, Em. done. }
  assert (Ed : deliver e = true) by (unfold deliver; rewrite Hev, Ee, Em; done).
  assert (Hpo : potential e = mkPE e.2 (PCreatedAt pe) (ID ev) (MarshalEvent ev)) by (unfold potential; by rewrite Hev).
  destruct (IH (PL ++ [e]) R' q' ({[e.2]} ∪ sent) (added + 1) (batch ++ [potential e]))
    as (PL' & R'' & q'' & sent' & -> & HEq & HI'' & Hle' & Hend).
  { apply HI'. rewrite HD, Ed, fmap_app, list_to_set_app_L, (mi_sent _ _ _ _ _ _ HI). cbn. set_solver. }
  { done. } { done. } { cbn in Hlen. lia. } { lia. }
  rewrite <- Hpo, HEq. exists (e :: PL'), R'', q'', sent'. rewrite delivered_cons, Ed, zlen_cons. rewrite <- app_assoc in HI''. cbn [map].
  split_and!; [done|f_equal; f_equal; f_equal; f_equal; [by rewrite <- app_assoc|lia]|done|lia|].
  destruct Hend as [|[|]]; [left; lia|tauto|tauto].
Qed.

(** ** The passes *)

Definition answer : list entry := take (Z.to_nat (Limit (filter ss))) (delivered total).

Lemma answer_prefix PL R : total = PL ++ R -> zlen (delivered PL) = Limit (filter ss) -> answer = delivered PL.
Proof.
  intros HT HL. unfold answer. rewrite HT, delivered_app, <- HL. unfold zlen. rewrite Nat2Z.id. apply take_length_app.
Qed.

Lemma answer_all PL : total = PL -> zlen (delivered PL) <= Limit (filter ss) -> answer = delivered PL.
Proof. intros HT HL. unfold answer. rewrite HT. apply take_ge. unfold zlen in HL. lia. Qed.

(** Every entry pending counts towards the frontier, wanted or not. *)
Definition pending_pos (cs : list cursorState) : Prop := forall e, e ∈ pending tx ss cs -> 0 < e.1.

Lemma active_effort cs : active cs = true -> (0 < effort tx ss cs)%nat.
Proof.
  unfold active, effort. induction cs as [|c cs IH]; cbn; [done|]. destruct (exhausted c); cbn; [|lia].
  intros HA. apply IH in HA. lia.
Qed.

Lemma forallb_active cs : forallb exhausted cs = negb (active cs).
Proof. unfold active. induction cs as [|c cs IH]; cbn; [done|]. rewrite IH. by destruct (exhausted c). Qed.

Lemma passes_spec fuel pass cs PL R q Q sent s :
  merge_inv PL R q Q sent cs -> Forall (cur_ok (bucket tx (index ss))) cs -> pending_pos cs ->
  sctx s = set_queue ss q Q -> zlen (delivered PL) < Limit (filter ss) -> (effort tx ss cs < fuel)%nat ->
  exists s' sent', scan_passes fuel (fun _ => tx) pass false cs (zlen (delivered PL)) s sent (map potential (delivered PL))
    = Some (Ok (map potential answer, s', sent')) /\ sent' = sent0 ∪ list_to_set answer.*2.
Proof.
  revert pass cs PL R q Q sent s. induction fuel as [|fuel IH]; intros pass cs PL R q Q sent s HI HC HPP Hctx Hlim Hfuel; [lia|].
  cbn [scan_passes]. set (s1 := if (pass =? 0)%nat then _ else s).
  assert (Hctx1 : sctx s1 = set_queue ss q Q) by (subst s1; by destruct (pass =? 0)%nat). clearbody s1. rewrite Hctx1.
  cbn [set_queue filter].
  destruct (collect_all_spec BL tx ss (Limit (filter ss) - zlen (delivered PL)) sent cs q Q (mkPass 0 false false 0))
    as (cs' & q1 & Q1 & p' & seen & -> & HA & HRd); [done|apply (mi_heap _ _ _ _ _ _ HI)|lia|].
  pose proof (merge_round _ _ _ _ _ _ _ _ _ _ _ _ HI HA HRd) as HI1.
  pose proof (rd_any _ _ _ _ _ _ _ _ HRd) as Hany. cbn [pAnyActive orb] in Hany. rewrite Hany.
  set (frontier := if active cs' then pFrontier p' else 0).
  assert (Hfr : (forall e, e ∈ pending tx ss cs' -> e.1 <= frontier) /\
                (if active cs' then 0 < frontier else frontier = 0 /\ pending tx ss cs' = [])).
  { subst frontier. destruct (active cs') eqn:EA.
    - split; [apply (rd_front _ _ _ _ _ _ _ _ HRd)|]. apply (rd_pos _ _ _ _ _ _ _ _ HRd); [done|by right].
    - destruct (pending_inactive BL tx ss cs' EA) as [-> _]. split; [|done]. intros e He. by apply elem_of_nil in He. }
  clearbody frontier. destruct Hfr as [Hfr1 Hfr2].
  destruct (batch_spec (length q1) PL R q1 Q1 sent cs' frontier (Limit (filter ss) - zlen (delivered PL)) 0 [])
    as (PL' & R' & q2 & sent2 & -> & HB & HI2 & Hle & Hend); [done|done| |done|lia|].
  { destruct (active cs'); [by left|right; tauto]. }
  unfold collectBatch. cbn [set_queue queueEvents]. unfold set_queue in HB at 1. unfold set_queue at 1. rewrite HB. clear HB.
  rewrite !app_nil_l, Z.add_0_l in *. cbn [negb andb set_queue filter queueEvents].
  assert (HDD : zlen (delivered PL) + zlen (delivered PL') = zlen (delivered (PL ++ PL'))) by (by rewrite delivered_app, zlen_app).
  assert (HMM : map potential (delivered PL) ++ map potential (delivered PL') = map potential (delivered (PL ++ PL')))
    by (by rewrite delivered_app, map_app).
  rewrite HDD, HMM. pose proof (mi_split _ _ _ _ _ _ HI2) as HT2. pose proof (mi_sent _ _ _ _ _ _ HI2) as Hs2.
  assert (Hdry : active cs' = false -> zlen (delivered (PL ++ PL')) < Limit (filter ss) -> q2 = [] /\ R' = []).
  { intros EA Hlt. rewrite EA in Hfr2. destruct Hfr2 as [Hf0 Hp0]. destruct Hend as [|[->|]]; [lia| |lia]. split; [done|].
    destruct R' as [|e R']; [done|]. destruct (mi_R _ _ _ _ _ _ HI2 e ltac:(by left)) as [HeQ|Hep].
    - apply (mi_Q _ _ _ _ _ _ HI2) in HeQ as [HeQ|HeQ]; [|by apply elem_of_nil in HeQ].
      destruct (split_disjoint (PL ++ PL') (e :: R') e HT2 ltac:(by left) HeQ).
    - rewrite Hp0 in Hep. by apply elem_of_nil in Hep. }
  destruct (Z.leb_spec (Limit (filter ss)) (zlen (delivered (PL ++ PL')))) as [Hfull|Hmore].
  { assert (HE : answer = delivered (PL ++ PL')) by (apply (answer_prefix _ _ HT2); lia).
    rewrite HE. eexists _, _. split; [reflexivity|done]. }
  rewrite forallb_active. destruct (active cs') eqn:EA; cbn [negb andb orb].
  - rewrite (rd_prog _ _ _ _ _ _ _ _ HRd) by (by right). cbn [orb negb].
    apply (IH (Datatypes.S pass) cs' (PL ++ PL') R' q2 Q1 sent2); [done|apply (rd_ok _ _ _ _ _ _ _ _ HRd)| |done|done|].
    + intros e He. by apply HPP, (rd_sub _ _ _ _ _ _ _ _ HRd).
    + pose proof (rd_effort _ _ _ _ _ _ _ _ HRd) as HEf. destruct (active cs) eqn:EAc; [lia|].
      destruct (pending_inactive BL tx ss cs EAc) as [_ HE0]. pose proof (active_effort cs' EA). lia.
  - destruct (Hdry eq_refl Hmore) as [-> ->]. rewrite bool_decide_true by done. cbn [orb].
    assert (HE : answer = delivered (PL ++ PL')) by (apply answer_all; [by rewrite HT2, app_nil_r|lia]).
    rewrite HE. eexists _, _. split; [reflexivity|done].
Qed.

End Exact.

(** ** The scan against the abstract store *)

(** Newest first. *)
Definition newer_event (x y : Z * Event) : Prop := newer (CreatedAt x.2, x.1) (CreatedAt y.2, y.1).
#[global] Instance newer_event_dec : RelDecision newer_event.
Proof. intros x y. unfold newer_event. apply _. Defined.

(** The stored events that satisfy a predicate, newest first: what a query
    promises. *)
Definition newest (S : gmap Z Event) (P : Z -> Event -> bool) : list (Z * Event) :=
  merge_sort newer_event (List.filter (fun x => P x.1 x.2) (map_to_list S)).

(** An event has an entry in the range of some cursor. *)
Definition reachable (mit : Z) (ix : Index) (cs : list storeCursor) (id : Z) (ev : Event) : bool :=
  existsb (fun sc => existsb (fun x => bool_decide (x.1 = ix) && matchKey sc x.2 && Cmp.ltb x.2 (maxKey sc))
                             (keys_of mit ev id)) cs.

Lemma newest_spec S P :
  (forall id ev, (id, ev) ∈ newest S P <-> S !! id = Some ev /\ P id ev = true) /\
  NoDup (newest S P).*1 /\ StronglySorted newer (map (fun x => (CreatedAt x.2, x.1)) (newest S P)).
Proof.
  assert (HP : newest S P ≡ₚ List.filter (fun x => P x.1 x.2) (map_to_list S)) by apply merge_sort_Permutation.
  split_and!.
  - intros id ev. rewrite HP. rewrite list_elem_of_In, filter_In, <- list_elem_of_In, elem_of_map_to_list. done.
  - rewrite HP. assert (HN : NoDup (map_to_list S).*1) by apply NoDup_fst_map_to_list. clear HP. revert HN.
    induction (map_to_list S) as [|[i e] l IH]; cbn; [done|]. intros HN. inversion HN as [|? ? Hni HN']; subst.
    destruct (P i e); [|by apply IH]. cbn. constructor; [|by apply IH]. intros Hin. apply Hni.
    apply list_elem_of_fmap in Hin as (x & -> & Hx). apply list_elem_of_In, filter_In in Hx as [Hx _].
    apply list_elem_of_fmap. exists x. split; [done|by apply list_elem_of_In].
  - assert (HS : StronglySorted newer_event (newest S P)).
    { apply Sorted_StronglySorted.
      - intros x y z. unfold newer_event. apply newer_trans.
      - apply Sorted_merge_sort. intros x y. unfold newer_event. change (newer (CreatedAt x.2, x.1) (CreatedAt y.2, y.1) \/ newer (CreatedAt y.2, y.1) (CreatedAt x.2, x.1)). apply newer_total. }
    clear HP. induction HS as [|x l HS IH HF]; [constructor|]. cbn. constructor; [exact IH|].
    rewrite Forall_forall in HF. apply Forall_forall. intros y Hy. apply list_elem_of_fmap in Hy as (z & -> & Hz).
    by apply (HF z Hz).
Qed.

Definition entry_of (x : Z * Event) : entry := (CreatedAt x.2, x.1).

Lemma NoDup_snd (l : list entry) : NoDup l.*2 -> NoDup l.
Proof. apply NoDup_fmap_1. Qed.

(** The list of a predicate that implies another is that predicate's share of the
    other's list. *)
Lemma newest_filter S P P' (D : entry -> bool) :
  (forall id ev, S !! id = Some ev -> P' id ev = P id ev && D (CreatedAt ev, id)) ->
  List.filter D (map entry_of (newest S P)) = map entry_of (newest S P').
Proof.
  intros HE. destruct (newest_spec S P) as (H1 & H2 & H3). destruct (newest_spec S P') as (H1' & H2' & H3').
  assert (HN : forall l : list (Z * Event), NoDup l.*1 -> NoDup (map entry_of l)).
  { intros l Hl. apply NoDup_snd. rewrite <- list_fmap_compose. exact Hl. }
  apply (StronglySorted_unique newer).
  - clear -H3. change (StronglySorted newer (map entry_of (newest S P))) in H3. induction H3 as [|x l HS IH HF]; [constructor|]. cbn.
    destruct (D x); [|done]. constructor; [done|]. rewrite Forall_forall in HF |- *. intros y Hy.
    apply list_elem_of_In, filter_In in Hy as [Hy _]. apply HF. by apply list_elem_of_In.
  - exact H3'.
  - apply NoDup_Permutation; [apply NoDup_ListNoDup, List.NoDup_filter, NoDup_ListNoDup, HN, H2|apply HN, H2'|].
    intros e. rewrite list_elem_of_In, filter_In, <- list_elem_of_In, !list_elem_of_fmap. split.
    + intros [([id ev] & -> & Hx) HD]. apply H1 in Hx as [Hid HP]. exists (id, ev). split; [done|]. apply H1'.
      split; [done|]. rewrite HE by done. rewrite HP. exact HD.
    + intros ([id ev] & -> & Hx). apply H1' in Hx as [Hid HP]. rewrite HE in HP by done. bool_prop.
      split; [|done]. exists (id, ev). split; [done|by apply H1].
Qed.

(** Predicates that agree on the stored events give the same list. *)
Lemma newest_ext S P P' : (forall id ev, S !! id = Some ev -> P id ev = P' id ev) -> newest S P = newest S P'.
Proof.
  intros HE. unfold newest. f_equal. apply filter_ext_in. intros [id ev] Hin%list_elem_of_In. apply HE.
  by apply elem_of_map_to_list.
Qed.

Lemma range_length sc l : (length (range sc l) <= length l)%nat.
Proof. induction l as [|x l IH]; cbn; [done|]. destruct (matchKey sc x.1); cbn; lia. Qed.

Lemma prevs_length `{!Bolt} fuel b k : (length (prevs fuel b k) <= fuel)%nat.
Proof. revert k. induction fuel as [|fuel IH]; intros k; cbn; [done|]. destruct (SeekPrev b k) as [[k' v]|]; cbn; [|lia]. specialize (IH k'). lia. Qed.

Section Scan.
Context {Bolt0 : Bolt} {JSON0 : EventJSON} {Derived0 : Derived} {GoLower0 : GoLower} (BL : BoltLaws) (mit : Z).
Context (tx : Tx) (S : gmap Z Event) (HR : represents mit tx S) (ix : Index) (Hix : ix <> indexEvents).
#[local] Set Default Proof Using "All".

(** An index pair names its event. *)
Lemma ent_spec k v : kv (bucket tx ix) !! k = Some v ->
  exists id ev, S !! id = Some ev /\ (ix, k) ∈ keys_of mit ev id /\ ent (k, v) = (CreatedAt ev, id) /\ length v = 8%nat.
Proof.
  intros Hk. apply (rep_index _ _ _ HR) in Hk as (id & ev & Hid & HK & ->); [|done]. exists id, ev.
  destruct (rep_ids _ _ _ HR _ _ Hid) as [Hr (_ & _ & Hc & _)]. pose proof (rep_seq _ _ _ HR).
  split_and!; [done|done| |done]. apply keys_of_suffix in HK as [_ [p ->]]. unfold ent. cbn [fst snd].
  rewrite length_app. replace (length p + length (itob id) - 8)%nat with (length p) by (unfold itob; rewrite BE.length_put64; lia).
  rewrite drop_length_app. unfold itob. rewrite <- (app_nil_r (BE.put64 (CreatedAt ev))), <- (app_nil_r (BE.put64 id)).
  by rewrite !BE.get64_put64 by lia.
Qed.

(** A range is all the pairs below the cursor's top that match. *)
Lemma range_walk sc x : good_cursor (bucket tx ix) sc ->
  x ∈ range sc (walk (bucket tx ix) (maxKey sc)) <->
  kv (bucket tx ix) !! x.1 = Some x.2 /\ matchKey sc x.1 = true /\ Cmp.ltb x.1 (maxKey sc) = true.
Proof.
  intros HG. destruct (walk_spec BL (bucket tx ix) (maxKey sc)) as [HI HS]. destruct x as [k v]. cbn [fst snd]. split.
  - intros Hin. apply range_elem in Hin as [Hin Hm]. apply HI in Hin as [? ?]. done.
  - intros (Hk & Hm & Hlt). assert (Hin : (k, v) ∈ walk (bucket tx ix) (maxKey sc)) by (by apply HI).
    assert (HA : forall y, y ∈ walk (bucket tx ix) (maxKey sc) -> kv (bucket tx ix) !! y.1 = Some y.2 /\ Cmp.ltb y.1 (maxKey sc) = true).
    { intros [k' v'] Hy. by apply HI in Hy. }
    clear HI. revert HS Hin HA. induction (walk _ _) as [|y l IH]; intros HS Hin HA; [by apply elem_of_nil in Hin|]. cbn [range].
    inversion HS as [|? ? HS' HF]; subst. rewrite Forall_forall in HF.
    apply elem_of_cons in Hin as [<-|Hin]; [cbn [fst]; rewrite Hm; by left|].
    destruct (HA y ltac:(by left)) as [Hy Hyl]. destruct (matchKey sc y.1) eqn:Ey.
    + right. apply IH; [done|done|]. intros z Hz. apply HA. by right.
    + specialize (HF _ Hin). unfold after in HF. cbn in HF.
      rewrite (g_gap _ _ HG y.1 k) in Hm; [done|by eexists|by eexists|done|done|done].
Qed.

Definition initial (cs : list storeCursor) : list cursorState := map (fun c => mkCur c None false) cs.

Lemma pending_initial ss cs e : index ss = ix -> Forall (good_cursor (bucket tx ix)) cs ->
  e ∈ pending tx ss (initial cs) <->
  exists ev, S !! e.2 = Some ev /\ CreatedAt ev = e.1 /\ reachable mit ix cs e.2 ev = true.
Proof.
  intros Hss HG. unfold reachable. induction HG as [|sc cs HG HF IH].
  { cbn. rewrite elem_of_nil. split; [done|]. by intros (ev & _ & _ & ?). }
  cbn [initial map existsb]. fold (initial cs). rewrite pending_cons by done. cbn [existsb]. setoid_rewrite orb_true_iff. rewrite Hss.
  assert (HE : e ∈ map ent (rest (bucket tx (ix)) (mkCur sc None false)) <->
    exists ev, S !! e.2 = Some ev /\ CreatedAt ev = e.1 /\
      existsb (fun x => bool_decide (x.1 = ix) && matchKey sc x.2 && Cmp.ltb x.2 (maxKey sc)) (keys_of mit ev e.2) = true).
  { unfold rest, start. cbn [exhausted resume cursor]. rewrite list_elem_of_fmap. split.
    - intros (x & -> & Hx). apply range_walk in Hx as (Hk & Hm & Hlt); [|done].
      destruct x as [k v]. destruct (ent_spec k v Hk) as (id & ev & Hid & HK & -> & _). exists ev. cbn [fst snd].
      split_and!; [done|done|]. apply existsb_exists. exists (ix, k). split; [by apply list_elem_of_In|]. cbn [fst snd] in *.
      rewrite Hm, Hlt. by rewrite bool_decide_true by done.
    - intros (ev & Hid & Hc & HX). apply existsb_exists in HX as ([i k] & HK & HX). apply list_elem_of_In in HK. cbn [fst snd] in HX. bool_prop. subst i.
      assert (Hk : kv (bucket tx (ix)) !! k = Some (itob (CreatedAt ev))) by (apply (rep_index _ _ _ HR); [done|by eexists _, _]).
      exists (k, itob (CreatedAt ev)). split; [|by apply range_walk].
      destruct (ent_spec _ _ Hk) as (id' & ev' & Hid' & HK' & -> & _).
      assert (e.2 = id').
      { destruct (rep_ids _ _ _ HR _ _ Hid), (rep_ids _ _ _ HR _ _ Hid'). pose proof (rep_seq _ _ _ HR).
        eapply keys_of_id; [..|exact HK|exact HK']; lia. }
      subst id'. replace ev' with ev by congruence. rewrite Hc. by destruct e. }
  rewrite HE, IH. clear. naive_solver.
Qed.

(** The predicate a scan decides: reachable, in the window, not sent before, and
    admitted by the filter (ephemeral events are not history). *)
Definition wanted (ss : scanContext) (sent : gset Z) (cs : list storeCursor) (id : Z) (ev : Event) : bool :=
  reachable mit ix cs id ev && window ss (CreatedAt ev, id) && negb (bool_decide (id ∈ sent)) &&
  negb (IsEphemeralKind (Kind ev)) && Match (filter ss) ev.

Definition as_potential (x : Z * Event) : PotentialEvent := mkPE x.1 (CreatedAt x.2) (ID x.2) (MarshalEvent x.2).

(** How many passes can be needed. *)
Definition passes_bound (ss : scanContext) (cs : list storeCursor) : nat := effort tx ss (initial cs).

Lemma passes_le ss cs : (passes_bound ss cs <= length cs * Datatypes.S (size (kv (bucket tx (index ss)))))%nat.
Proof.
  unfold passes_bound, effort. induction cs as [|c cs IH]; [done|]. cbn [initial map sum_list length exhausted].
  fold (initial cs). assert (length (rest (bucket tx (index ss)) (mkCur c None false)) <= size (kv (bucket tx (index ss))))%nat.
  { unfold rest. cbn [exhausted]. etrans; [apply range_length|]. apply prevs_length. }
  unfold id. rewrite Nat.mul_succ_l, Nat.add_comm. apply Nat.add_le_mono; [exact IH|lia].
Qed.

(** The scan of good cursors delivers the newest wanted events, up to the limit. *)
Lemma scan_newest s sent fuel :
  index (sctx s) = ix -> Forall (good_cursor (bucket tx ix)) (cursors s) ->
  queueEvents (sctx s) = [] -> queued (sctx s) = ∅ -> 0 < Limit (filter (sctx s)) ->
  (forall id ev, S !! id = Some ev -> reachable mit ix (cursors s) id ev = true -> 0 < CreatedAt ev) ->
  (passes_bound (sctx s) (cursors s) < fuel)%nat ->
  let res := take (Z.to_nat (Limit (filter (sctx s)))) (newest S (wanted (sctx s) sent (cursors s))) in
  exists s', scan fuel (fun _ => tx) false s sent = Some (Ok (map as_potential res, s', sent ∪ list_to_set res.*1)).
Proof.
  intros Hs HG Hq HQ Hlim Hpos Hfuel res.
  set (ss := set_boundary (sctx s) (lastMaxEvsid s)).
  set (P0 := fun id ev => reachable mit ix (cursors s) id ev && window ss (CreatedAt ev, id) && negb (bool_decide (id ∈ sent))).
  set (total := map (fun x => (CreatedAt x.2, x.1)) (newest S P0)).
  destruct (newest_spec S P0) as (HN1 & HN2 & HN3).
  assert (HT : forall e, e ∈ total <-> exists ev, S !! e.2 = Some ev /\ CreatedAt ev = e.1 /\ P0 e.2 ev = true).
  { intros e. unfold total. rewrite list_elem_of_fmap. split.
    - intros ([id ev] & -> & Hx). apply HN1 in Hx as [? ?]. by exists ev.
    - intros (ev & Hid & Hc & HP). exists (e.2, ev). split; [cbn; rewrite Hc; by destruct e|]. by apply HN1. }
  assert (HND : NoDup total.*2).
  { unfold total. rewrite <- list_fmap_compose. exact HN2. }
  assert (HTot : forall e, e ∈ total -> window ss e = true /\ e.2 ∉ sent /\ exists ev, S !! e.2 = Some ev /\ CreatedAt ev = e.1).
  { intros e He. apply HT in He as (ev & Hid & Hc & HP). unfold P0 in HP. bool_prop. rewrite Hc in *.
    split_and!; [by destruct e|done|by exists ev]. }
  assert (HDel : answer S ss total = map entry_of res).
  { unfold answer, delivered, total. change (fun x => _) with entry_of.
    rewrite (newest_filter S P0 (wanted (sctx s) sent (cursors s))); [by rewrite firstn_map|].
    intros id ev Hid. unfold wanted, P0, deliver. cbn [snd]. rewrite Hid. change (window ss) with (window (sctx s)).
    by rewrite andb_assoc. }
  assert (HD1 : map (potential S) (answer S ss total) = map as_potential res).
  { rewrite HDel, map_map. apply map_ext_in. intros [id ev] Hin%list_elem_of_In.
    apply elem_of_take in Hin as (i & Hi & _). apply list_elem_of_lookup_2, newest_spec in Hi as [Hid _].
    unfold potential, entry_of, as_potential. cbn [fst snd]. by rewrite Hid. }
  assert (HD2 : (answer S ss total).*2 = res.*1) by (rewrite HDel; rewrite <- list_fmap_compose; done).
  destruct (decide (cursors s = [])) as [EC|EC].
  { exists s. unfold scan. subst res. rewrite EC. replace (newest S _) with (@nil (Z * Event)).
    - rewrite take_nil. cbn. by rewrite union_empty_r_L.
    - symmetry. apply elem_of_nil_inv. intros [id ev] Hx. apply newest_spec in Hx as [_ Hx]. done. }
  assert (HSc : scan fuel (fun _ => tx) false s sent = scan_passes fuel (fun _ => tx) 0 false (initial (cursors s)) 0
    (mkScan (cursors s) (lastMaxEvsid s) (hasWatermark s) (capped s) (scanned s) ss) sent []).
  { unfold scan. by destruct (cursors s). }
  rewrite HSc. clear HSc.
  assert (HPI : forall e, e ∈ pending tx ss (initial (cursors s)) <->
    exists ev, S !! e.2 = Some ev /\ CreatedAt ev = e.1 /\ reachable mit ix (cursors s) e.2 ev = true) by (intros; by apply pending_initial).
  destruct (passes_spec BL mit tx S HR ss sent total HN3 HND HTot fuel 0 (initial (cursors s)) [] total [] ∅ sent
    (mkScan (cursors s) (lastMaxEvsid s) (hasWatermark s) (capped s) (scanned s) ss)) as (s' & sent' & HE & ->).
  - split; [done|intros i a b [_ Hi]; cbn in Hi; lia| | | | |set_solver|].
    + intros pe Hpe. by apply elem_of_nil in Hpe.
    + constructor.
    + intros id. set_solver.
    + intros e He. right. apply HPI. apply HT in He as (ev & Hid & Hc & HP). exists ev. unfold P0 in HP. bool_prop. done.
    + intros e (ev & Hid & Hc & Hr)%HPI Hw Hns. apply HT. exists ev. split_and!; [done|done|]. unfold P0.
      rewrite Hr, Hc, bool_decide_false by done. rewrite <- (surjective_pairing e). by rewrite Hw.
  - apply Forall_forall. intros c Hc. apply list_elem_of_fmap in Hc as (sc & -> & Hc). rewrite Forall_forall in HG.
    split; [cbn [cursor ss set_boundary index]; rewrite Hs; by apply HG|]. intros _. apply Cmp.ltb_irrefl.
  - intros e (ev & Hid & Hc & Hr)%HPI. rewrite <- Hc. by eapply Hpos.
  - unfold ss. destruct (sctx s). cbn in *. by subst.
  - cbn. rewrite zlen_nil. done.
  - done.
  - exists s'. cbn [delivered List.filter map] in HE. rewrite zlen_nil in HE. rewrite HE, HD1, HD2. done.
Qed.

End Scan.
