(* ===== verification/StoreQuery.v ===== *)
(** * relay/store.go: what a query answers

    Every plan the store can choose for a filter walks ranges that hold all the
    events the filter admits, so a query answers with the newest of them. *)

From S2P Require Import Prelude GoLib GoHeap Bolt Sha256 NostrUtils Pow Event Filter StoreDb StoreInv StoreScan StoreMerge StoreExact.

(** ** Prefixes *)

Lemma has_prefix_app p s : has_prefix (p ++ s) p = true.
Proof. unfold has_prefix. apply bool_decide_eq_true. apply take_length_app. Qed.

Lemma has_prefix_inv k p : has_prefix k p = true -> exists s, k = p ++ s.
Proof. unfold has_prefix. rewrite bool_decide_eq_true. intros HE. exists (drop (length p) k). by rewrite <- HE at 1; rewrite take_drop. Qed.

Lemma has_prefix_same a s p : length a = length p -> has_prefix (a ++ s) p = true -> a = p.
Proof. intros HL (s' & HE)%has_prefix_inv. by apply app_inj_1 in HE as [-> _]. Qed.

Lemma length_itob z : length (itob z) = 8%nat.
Proof. apply BE.length_put64. Qed.

Lemma tagIndexPrefix_inj n v n' v' p p' s s' :
  tagIndexPrefix n v = Some p -> tagIndexPrefix n' v' = Some p' -> p ++ s = p' ++ s' -> p = p'.
Proof.
  unfold tagIndexPrefix. destruct n as [|c [|? ?]]; [done| |done]. destruct n' as [|c' [|? ?]]; [done| |done].
  destruct (Z.ltb_spec 0xFFFF (zlen v)) as [|Hv]; [done|]. destruct (Z.ltb_spec 0xFFFF (zlen v')) as [|Hv']; [done|].
  intros [= <-] [= <-]. cbn [app]. intros [= -> E1 E2 HE]. assert (HL : zlen v = zlen v').
  { apply (f_equal b2z) in E1, E2. rewrite !b2z_z2b in E1, E2. rewrite !Z.shiftr_div_pow2 in E1 by lia.
    unfold zlen in *. change (2 ^ 8) with 256 in *. clear HE. Z.to_euclidean_division_equations. lia. }
  unfold zlen in HL. apply app_inj_1 in HE as [-> _]; [done|lia].
Qed.

Lemma prepare_tagIndex n mit ts e : e ∈ indexable_from n mit ts -> exists name v, tagIndexPrefix name v = Some e.
Proof.
  revert n. induction ts as [|[|name [|v t]] ts IH]; intros n; cbn [indexable_from]; [by intros ?%elem_of_nil|apply IH|apply IH|].
  destruct (is_ok _); [|apply IH]. destruct (tagIndexPrefix name v) as [p|] eqn:E; [|apply IH].
  intros [->|Hin]%elem_of_cons; [by exists name, v|]. destruct (_ =? _); [by apply elem_of_nil in Hin|by apply IH in Hin].
Qed.

(** ** Page boundaries, abstractly *)

(** No two stored events share an id. *)
Definition ids_unique (S : gmap Z Event) : Prop :=
  forall i j e e', S !! i = Some e -> S !! j = Some e' -> key_bytes (ID e) = key_bytes (ID e') -> i = j.

(** The arrival number of the event with an id. *)
Definition stored_id (S : gmap Z Event) (s : gostring) : option Z :=
  match Hex.decode s with
  | Some b => if (length b =? 32)%nat
              then fst <$> head (List.filter (fun x => bool_decide (key_bytes (ID x.2) = b)) (map_to_list S))
              else None
  | None => None
  end.

Lemma stored_id_spec S b : ids_unique S ->
  (exists id ev, S !! id = Some ev /\ key_bytes (ID ev) = b /\
     fst <$> head (List.filter (fun x => bool_decide (key_bytes (ID x.2) = b)) (map_to_list S)) = Some id) \/
  ((forall id ev, S !! id = Some ev -> key_bytes (ID ev) <> b) /\
     fst <$> head (List.filter (fun x => bool_decide (key_bytes (ID x.2) = b)) (map_to_list S)) = None).
Proof.
  intros HU. set (l := List.filter _ _).
  assert (Hl : forall id ev, (id, ev) ∈ l <-> S !! id = Some ev /\ key_bytes (ID ev) = b).
  { intros id ev. unfold l. rewrite list_elem_of_In, filter_In, <- list_elem_of_In, elem_of_map_to_list, bool_decide_eq_true. done. }
  destruct l as [|[id ev] l].
  - right. split; [|done]. intros id ev Hid HE. eapply elem_of_nil, Hl. by split.
  - left. exists id, ev. destruct (proj1 (Hl id ev) ltac:(by left)) as [? ?]. done.
Qed.

(** ** Plans *)

(** The index knows the event under one wanted value of every tag the filter
    names: the store indexes a tag's first value, and only the first few
    indexable tags of an event. *)
Definition tag_visible (mit : Z) (f : SubscriptionFilter) (ev : Event) : Prop :=
  forall name wanted, FTags f !! name = Some wanted ->
  exists v p, v ∈ wanted /\ tagIndexPrefix name v = Some p /\ p ∈ prepareIndexableTags (Tags ev) mit.

Lemma decodeKey_Ok s : hex32_ok s -> decodeKey s = Ok (key_bytes s) /\ length (key_bytes s) = 32%nat.
Proof. intros (HD & HL)%key_bytes_ok. unfold decodeKey. rewrite HD, HL. done. Qed.

(** The hex keys a filter lists are full keys, so that its prefix matching never
    applies. *)
Lemma admits_full o s : Forall hex32_ok (elems o) -> elems o <> [] -> admits o s -> s ∈ elems o.
Proof.
  destruct o as [l|]; [|done]. cbn. rewrite Forall_forall. intros HF _ (c & Hc & [->|[Hl _]]); [done|].
  destruct (HF c Hc) as (b & HD & HL). apply Hex.decode_length in HD. unfold zlen in Hl. lia.
Qed.

Lemma byID_Ok ids : Forall hex32_ok ids ->
  createCursorsByID ids = Ok (map (fun s => prefix_cursor (key_bytes s) (32 + 8 + 8) (fun k => Some (take 32 k))) ids).
Proof. induction 1 as [|s ids Hs _ IH]; [done|]. cbn [createCursorsByID]. destruct (decodeKey_Ok s Hs) as [-> _]. cbn [mbind outcome_bind]. by rewrite IH. Qed.

Lemma byAuthors_Ok l : Forall hex32_ok l ->
  createCursorsByAuthors l = Ok (map (fun s => prefix_cursor (key_bytes s) (32 + 8 + 8) (fun _ => None)) l).
Proof. induction 1 as [|s ids Hs _ IH]; [done|]. cbn [createCursorsByAuthors]. destruct (decodeKey_Ok s Hs) as [-> _]. cbn [mbind outcome_bind]. by rewrite IH. Qed.

Lemma kindAuthors_Ok p l : Forall hex32_ok l ->
  kind_author_cursors p l = Ok (map (fun s => prefix_cursor (p ++ key_bytes s) (8 + 32 + 8 + 8) (fun _ => None)) l).
Proof.
  induction 1 as [|s ids Hs _ IH]; [done|]. cbn [kind_author_cursors]. destruct (decodeKey_Ok s Hs) as [-> _]. cbn [mbind outcome_bind].
  rewrite IH. unfold concatKey. cbn [concat map]. by rewrite app_nil_r.
Qed.

Lemma byKindsAndAuthors_Ok ks l : Forall hex32_ok l -> createCursorsByKindsAndAuthors ks l =
  Ok (flat_map (fun kind => map (fun s => prefix_cursor (itob (u64 kind) ++ key_bytes s) (8 + 32 + 8 + 8) (fun _ => None)) l) ks).
Proof.
  intros HF. induction ks as [|kind ks IH]; [done|]. cbn [createCursorsByKindsAndAuthors]. rewrite kindAuthors_Ok by done.
  cbn [mbind outcome_bind]. by rewrite IH.
Qed.

(** A key between a prefix and that prefix extended has the prefix. *)
Lemma prefix_between p a k : Cmp.ltb k p = false -> Cmp.ltb (p ++ a) k = false -> has_prefix k p = true.
Proof.
  intros H1 H2. destruct (Cmp.ltb k (p ++ a)) eqn:E.
  - destruct (Cmp.between_prefix p [] _ k E) as [c ->]; [by rewrite app_nil_r|apply has_prefix_app].
  - rewrite (Cmp.ltb_total _ _ E H2). apply has_prefix_app.
Qed.

Lemma extension_ge p t : Cmp.ltb (p ++ t) p = false.
Proof. unfold Cmp.ltb. rewrite <- (app_nil_r p) at 2. rewrite Cmp.compare_app_l. by destruct t. Qed.

Lemma match_kinds `{!GoLower} f ev : Match f ev = true -> elems (Kinds f) <> [] -> Kind ev ∈ elems (Kinds f).
Proof. intros (_ & _ & HK & _)%Match_spec. destruct (Kinds f) as [l|]; [|done]. intros _. by apply HK. Qed.

Lemma pick_plan_in `{!Bolt} b best n plans : (pick_plan b best n plans).1 = best \/ (pick_plan b best n plans).1 ∈ plans.
Proof.
  revert best n. induction plans as [|plan plans IH]; intros best n; cbn [pick_plan]; [by left|].
  destruct (_ <? n).
  - right. destruct (IH plan (countRanges b plan n)) as [->|Hin]; [by left|by right].
  - destruct (IH best n) as [->|Hin]; [by left|by right; right].
Qed.

Section Plans.
Context {Bolt0 : Bolt} {JSON0 : EventJSON} {Derived0 : Derived} {GoLower0 : GoLower} (BL : BoltLaws) (mit : Z).
Context (tx : Tx) (S : gmap Z Event) (HR : represents mit tx S).
Context (Htimes : forall id ev, S !! id = Some ev -> CreatedAt ev < 2 ^ 64 - 1).
#[local] Set Default Proof Using "All".

(** The keys of [ix] that start with [p] are [p] with a creation time and an
    arrival number. *)
Definition owns (ix : Index) (p : gostring) : Prop :=
  forall id ev k, S !! id = Some ev -> (ix, k) ∈ keys_of mit ev id -> has_prefix k p = true ->
  k = p ++ itob (CreatedAt ev) ++ itob id.

Lemma stored_range id ev : S !! id = Some ev -> 0 < id < 2 ^ 64 - 1 /\ 0 <= CreatedAt ev < 2 ^ 64 - 1.
Proof.
  intros Hid. pose proof (Htimes _ _ Hid). pose proof (rep_seq _ _ _ HR).
  destruct (rep_ids _ _ _ HR _ _ Hid) as [? (_ & _ & ? & _)]. lia.
Qed.

Lemma prefix_good ix p n idOf :
  ix <> indexEvents -> owns ix p -> n = (length p + 16)%nat -> good_cursor (bucket tx ix) (prefix_cursor p n idOf).
Proof.
  intros Hix HO ->. split.
  - intros k v Hk. destruct (ent_spec BL mit tx S HR ix Hix k v Hk) as (? & ? & _ & _ & _ & ?). done.
  - cbn [prefix_cursor matchKey parseKey]. intros k v Hk Hm.
    destruct (ent_spec BL mit tx S HR ix Hix k v Hk) as (id & ev & Hid & HK & -> & _).
    apply (HO id ev) in HK as ->; [|done|done]. unfold parse_tail. rewrite !length_app, !length_itob, Nat.eqb_refl.
    replace (length p + 16 - 8)%nat with (length (p ++ itob (CreatedAt ev))) by (rewrite length_app, length_itob; lia).
    rewrite app_assoc, drop_length_app. unfold btoi. rewrite length_itob. cbn [Nat.ltb Nat.leb mbind outcome_bind].
    eexists. unfold itob. rewrite <- (app_nil_r (BE.put64 id)), BE.get64_put64 by (apply stored_range in Hid; lia). done.
  - cbn [prefix_cursor matchKey]. intros k1 v1 k2 v2 H1 H2 Hm1 Hm2 Hlt.
    destruct (ent_spec BL mit tx S HR ix Hix _ _ H1) as (i1 & e1 & Hi1 & HK1 & -> & _).
    destruct (ent_spec BL mit tx S HR ix Hix _ _ H2) as (i2 & e2 & Hi2 & HK2 & -> & _). cbn [fst].
    apply (HO i1 e1) in HK1 as ->; [|done|done]. apply (HO i2 e2) in HK2 as ->; [|done|done].
    rewrite Cmp.ltb_lt, Cmp.compare_app_l, Cmp.compare_app in Hlt by (by rewrite !length_itob).
    unfold itob in Hlt. pose proof (stored_range _ _ Hi1). pose proof (stored_range _ _ Hi2).
    rewrite BE.compare_put64 in Hlt by lia. destruct (Z.compare_spec (CreatedAt e2) (CreatedAt e1)); [lia|lia|done].
  - cbn [prefix_cursor matchKey maxKey]. intros k k' _ _ Hlt Hm Hlt'. destruct (has_prefix k' p) eqn:E; [|done].
    apply has_prefix_inv in E as [s ->]. unfold concatKey in Hlt. cbn [concat] in Hlt. rewrite app_nil_r in Hlt.
    destruct (Cmp.between_prefix p s maxSuffixBytes k) as [c ->]; [done|by apply Cmp.ltb_asym|].
    by rewrite has_prefix_app in Hm.
Qed.

(** An event whose key extends a cursor's prefix is in its range. *)
Lemma prefix_reach ix p n idOf cs id ev :
  S !! id = Some ev -> (ix, p ++ itob (CreatedAt ev) ++ itob id) ∈ keys_of mit ev id ->
  prefix_cursor p n idOf ∈ cs -> reachable mit ix cs id ev = true.
Proof.
  intros Hid HK HC. unfold reachable. apply existsb_exists. exists (prefix_cursor p n idOf). split; [by apply list_elem_of_In|].
  apply existsb_exists. exists (ix, p ++ itob (CreatedAt ev) ++ itob id). split; [by apply list_elem_of_In|].
  rewrite bool_decide_true by done. cbn [snd prefix_cursor matchKey maxKey]. rewrite has_prefix_app. cbn [andb].
  unfold concatKey. cbn [concat]. rewrite app_nil_r, Cmp.ltb_lt, Cmp.compare_app_l.
  change maxSuffixBytes with (itob (2 ^ 64 - 1) ++ itob (2 ^ 64 - 1)). rewrite Cmp.compare_app by (by rewrite !length_itob).
  unfold itob. pose proof (stored_range _ _ Hid). rewrite !BE.compare_put64 by lia.
  destruct (Z.compare_spec (CreatedAt ev) (2 ^ 64 - 1)); [lia|done|lia].
Qed.

Lemma owns_keys ix (part : Event -> gostring) p :
  (forall id ev k, S !! id = Some ev -> (ix, k) ∈ keys_of mit ev id -> k = part ev ++ itob (CreatedAt ev) ++ itob id) ->
  (forall id ev, S !! id = Some ev -> length (part ev) = length p) -> owns ix p.
Proof.
  intros HK HL id ev k Hid Hk Hp. rewrite (HK id ev k Hid Hk) in Hp |- *.
  apply has_prefix_same in Hp as ->; [done|]. by eapply HL.
Qed.

Lemma stored_keys id ev i k : S !! id = Some ev -> (i, k) ∈ keys_of mit ev id <-> 
  match i with
  | indexEvents => False
  | indexID => k = key_bytes (ID ev) ++ itob (CreatedAt ev) ++ itob id
  | indexPubkey => k = key_bytes (PubKey ev) ++ itob (CreatedAt ev) ++ itob id
  | indexKind => k = itob (u64 (Kind ev)) ++ itob (CreatedAt ev) ++ itob id
  | indexKindPubkey => k = (itob (u64 (Kind ev)) ++ key_bytes (PubKey ev)) ++ itob (CreatedAt ev) ++ itob id
  | indexCreatedAt => k = itob (CreatedAt ev) ++ key_bytes (ID ev) ++ itob id
  | indexExpiration => 0 < expiration_of ev /\ k = itob (expiration_of ev) ++ itob id
  | indexTag => exists e, e ∈ prepareIndexableTags (Tags ev) mit /\ k = e ++ itob (CreatedAt ev) ++ itob id
  end.
Proof.
  intros Hid. destruct (rep_ids _ _ _ HR _ _ Hid) as [_ (HP & HI & _)]. rewrite keys_of_spec by done.
  destruct i; [done..|]. by rewrite <- app_assoc.
Qed.

Lemma stored_lengths id ev : S !! id = Some ev -> length (key_bytes (ID ev)) = 32%nat /\ length (key_bytes (PubKey ev)) = 32%nat.
Proof.
  intros Hid. destruct (rep_ids _ _ _ HR _ _ Hid) as [_ (HP & HI & _)].
  split; [by apply (key_bytes_ok _ HI)|by apply (key_bytes_ok _ HP)].
Qed.

(** An index whose keys are a part of fixed length, a creation time and an
    arrival number. *)
Lemma owns_ID p : length p = 32%nat -> owns indexID p.
Proof.
  intros HL. apply (owns_keys _ (fun ev => key_bytes (ID ev))); [intros id ev k Hid; by apply (stored_keys id ev)|].
  intros id ev Hid. apply stored_lengths in Hid. lia.
Qed.

Lemma owns_Pubkey p : length p = 32%nat -> owns indexPubkey p.
Proof.
  intros HL. apply (owns_keys _ (fun ev => key_bytes (PubKey ev))); [intros id ev k Hid; by apply (stored_keys id ev)|].
  intros id ev Hid. apply stored_lengths in Hid. lia.
Qed.

Lemma owns_Kind p : length p = 8%nat -> owns indexKind p.
Proof.
  intros HL. apply (owns_keys _ (fun ev => itob (u64 (Kind ev)))); [intros id ev k Hid; by apply (stored_keys id ev)|].
  intros id ev Hid. by rewrite length_itob.
Qed.

Lemma owns_KindPubkey p : length p = 40%nat -> owns indexKindPubkey p.
Proof.
  intros HL. apply (owns_keys _ (fun ev => itob (u64 (Kind ev)) ++ key_bytes (PubKey ev))); [intros id ev k Hid; by apply (stored_keys id ev)|].
  intros id ev Hid. rewrite length_app, length_itob. apply stored_lengths in Hid. lia.
Qed.

Lemma owns_Tag name v p : tagIndexPrefix name v = Some p -> owns indexTag p.
Proof.
  intros HT id ev k Hid HK Hp. apply (stored_keys id ev) in HK as (e & He & ->); [|done].
  apply prepare_tagIndex in He as (name' & v' & HT'). apply has_prefix_inv in Hp as [s HE].
  by rewrite (tagIndexPrefix_inj _ _ _ _ _ _ _ _ HT' HT HE).
Qed.

(** What a plan must give: cursors that fit, and reach what is wanted. *)
Definition plan_good (f : SubscriptionFilter) (plan : Index * list storeCursor) : Prop :=
  plan.1 <> indexEvents /\ Forall (good_cursor (bucket tx plan.1)) plan.2 /\
  forall id ev, S !! id = Some ev -> Match f ev = true -> tag_visible mit f ev -> reachable mit plan.1 plan.2 id ev = true.

Lemma plan_prefixes f ix cs :
  ix <> indexEvents ->
  (forall sc, sc ∈ cs -> exists p n idOf, owns ix p /\ n = (length p + 16)%nat /\ sc = prefix_cursor p n idOf) ->
  (forall id ev, S !! id = Some ev -> Match f ev = true -> tag_visible mit f ev ->
     exists p n idOf, prefix_cursor p n idOf ∈ cs /\ (ix, p ++ itob (CreatedAt ev) ++ itob id) ∈ keys_of mit ev id) ->
  plan_good f (ix, cs).
Proof.
  intros Hix HG HM. split; [done|]. split.
  - apply Forall_forall. intros sc (p & n & idOf & HO & Hn & ->)%HG. by apply prefix_good.
  - intros id ev Hid Hf Hv. destruct (HM id ev Hid Hf Hv) as (p & n & idOf & HC & HK). by eapply prefix_reach.
Qed.

Lemma plan_ID f cs : Forall hex32_ok (elems (IDs f)) -> elems (IDs f) <> [] ->
  createCursorsByID (elems (IDs f)) = Ok cs -> plan_good f (indexID, cs).
Proof.
  intros HF Hne. rewrite byID_Ok by done. intros [= <-]. apply plan_prefixes; [done| |].
  - intros sc (s & -> & Hs)%list_elem_of_fmap. rewrite Forall_forall in HF. destruct (key_bytes_ok _ (HF s Hs)) as [_ HL].
    eexists _, _, _. split; [by apply owns_ID|]. split; [|done]. lia.
  - intros id ev Hid (HI & _)%Match_spec _. apply admits_full in HI; [|done|done].
    eexists (key_bytes (ID ev)), _, _. split; [apply list_elem_of_fmap; by exists (ID ev)|]. by apply (stored_keys id ev).
Qed.

Lemma plan_Authors f cs : Forall hex32_ok (elems (Authors f)) -> elems (Authors f) <> [] ->
  createCursorsByAuthors (elems (Authors f)) = Ok cs -> plan_good f (indexPubkey, cs).
Proof.
  intros HF Hne. rewrite byAuthors_Ok by done. intros [= <-]. apply plan_prefixes; [done| |].
  - intros sc (s & -> & Hs)%list_elem_of_fmap. rewrite Forall_forall in HF. destruct (key_bytes_ok _ (HF s Hs)) as [_ HL].
    eexists _, _, _. split; [by apply owns_Pubkey|]. split; [|done]. lia.
  - intros id ev Hid (_ & HI & _)%Match_spec _. apply admits_full in HI; [|done|done].
    eexists (key_bytes (PubKey ev)), _, _. split; [apply list_elem_of_fmap; by exists (PubKey ev)|]. by apply (stored_keys id ev).
Qed.

Lemma plan_Kinds f : elems (Kinds f) <> [] -> plan_good f (indexKind, createCursorsByKinds (elems (Kinds f))).
Proof.
  intros Hne. unfold createCursorsByKinds. apply plan_prefixes; [done| |].
  - intros sc (k & -> & Hs)%list_elem_of_fmap. eexists _, _, _. split; [apply owns_Kind, length_itob|]. split; [|done].
    by rewrite length_itob.
  - intros id ev Hid HM _. eexists (itob (u64 (Kind ev))), _, _. split; [|by apply (stored_keys id ev)].
    apply list_elem_of_fmap. exists (Kind ev). split; [done|]. by apply match_kinds.
Qed.

Lemma plan_KindsAuthors f cs : Forall hex32_ok (elems (Authors f)) -> elems (Authors f) <> [] -> elems (Kinds f) <> [] ->
  createCursorsByKindsAndAuthors (elems (Kinds f)) (elems (Authors f)) = Ok cs -> plan_good f (indexKindPubkey, cs).
Proof.
  intros HF Hne Hnk. rewrite byKindsAndAuthors_Ok by done. intros [= <-]. apply plan_prefixes; [done| |].
  - intros sc Hsc. apply list_elem_of_In, in_flat_map in Hsc as (kind & _ & Hsc). apply list_elem_of_In, list_elem_of_fmap in Hsc as (s & -> & Hs).
    rewrite Forall_forall in HF. destruct (key_bytes_ok _ (HF s Hs)) as [_ HL].
    assert (HL' : length (itob (u64 kind) ++ key_bytes s) = 40%nat) by (rewrite length_app, length_itob; lia).
    eexists _, _, _. split; [by apply owns_KindPubkey|]. split; [|done]. lia.
  - intros id ev Hid HM _. pose proof (match_kinds f ev HM Hnk) as Hk. apply Match_spec in HM as (_ & HI & _). apply admits_full in HI; [|done|done].
    eexists (itob (u64 (Kind ev)) ++ key_bytes (PubKey ev)), _, _. split; [|by apply (stored_keys id ev)].
    apply list_elem_of_In, in_flat_map. exists (Kind ev). split; [by apply list_elem_of_In|].
    apply list_elem_of_In, list_elem_of_fmap. by exists (PubKey ev).
Qed.

(** Cursors over a set of tag names that covers one name of the filter. *)
Lemma plan_Tags f order :
  (forall name wanted, (name, wanted) ∈ order -> FTags f !! name = Some wanted) -> order <> [] ->
  plan_good f (indexTag, createCursorsByTags order).
Proof.
  intros HO Hne. apply plan_prefixes; [done| |].
  - intros sc Hsc. unfold createCursorsByTags in Hsc. apply list_elem_of_In, in_flat_map in Hsc as ([name vs] & _ & Hsc).
    apply list_elem_of_In, list_elem_of_omap in Hsc as (v & _ & Hsc). destruct (tagIndexPrefix name v) as [p|] eqn:E; [|done].
    injection Hsc as <-. eexists _, _, _. split; [by eapply owns_Tag|]. split; [|done]. lia.
  - intros id ev Hid _ HV. destruct order as [|[name wanted] order]; [done|].
    destruct (HV name wanted) as (v & p & Hv & HT & Hp); [apply HO; by left|].
    exists p, (length p + 8 + 8)%nat, (fun _ => None). split; [|apply (stored_keys id ev); [done|by exists p]].
    unfold createCursorsByTags. cbn [flat_map]. apply elem_of_app. left. apply list_elem_of_omap. exists v. split; [done|].
    by rewrite HT.
Qed.

Lemma plan_default f : plan_good f (indexCreatedAt, [defaultCursor]).
Proof.
  assert (HK : forall k v, kv (bucket tx indexCreatedAt) !! k = Some v -> length v = 8%nat /\
    exists id ev, S !! id = Some ev /\ ent (k, v) = (CreatedAt ev, id) /\ k = itob (CreatedAt ev) ++ key_bytes (ID ev) ++ itob id).
  { intros k v Hk. destruct (ent_spec BL mit tx S HR indexCreatedAt ltac:(done) k v Hk) as (id & ev & Hid & HK & HE & HL).
    split; [done|]. exists id, ev. split_and!; [done|done|]. by apply (stored_keys id ev) in HK. }
  split; [done|]. cbn [fst snd]. split.
  - apply Forall_singleton. split.
    + intros k v Hk. by destruct (HK k v Hk).
    + intros k v Hk _. destruct (HK k v Hk) as (_ & id & ev & Hid & -> & ->). cbn [defaultCursor parseKey snd].
      unfold parse_tail. destruct (stored_lengths _ _ Hid) as [HL _]. rewrite !length_app, !length_itob, HL. cbn [Nat.eqb Nat.add Nat.sub].
      rewrite app_assoc. replace 40%nat with (length (itob (CreatedAt ev) ++ key_bytes (ID ev))) by (rewrite length_app, length_itob; lia).
      rewrite drop_length_app. unfold btoi. rewrite length_itob. cbn [Nat.ltb Nat.leb mbind outcome_bind].
      eexists. unfold itob. rewrite <- (app_nil_r (BE.put64 id)), BE.get64_put64 by (apply stored_range in Hid; lia). done.
    + intros k1 v1 k2 v2 H1 H2 _ _ Hlt. destruct (HK _ _ H1) as (_ & i1 & e1 & Hi1 & -> & ->).
      destruct (HK _ _ H2) as (_ & i2 & e2 & Hi2 & -> & ->). cbn [fst]. rewrite Cmp.ltb_lt, Cmp.compare_app in Hlt by (by rewrite !length_itob).
      unfold itob in Hlt. pose proof (stored_range _ _ Hi1). pose proof (stored_range _ _ Hi2).
      rewrite BE.compare_put64 in Hlt by lia. destruct (Z.compare_spec (CreatedAt e2) (CreatedAt e1)); [lia|lia|done].
    + done.
  - intros id ev Hid _ _. unfold reachable. cbn [existsb]. apply orb_true_iff. left. apply existsb_exists.
    exists (indexCreatedAt, itob (CreatedAt ev) ++ key_bytes (ID ev) ++ itob id).
    split; [apply list_elem_of_In; by apply (stored_keys id ev)|]. rewrite bool_decide_true by done. cbn [snd defaultCursor matchKey maxKey andb].
    unfold concatKey, maxUint64Bytes. cbn [concat]. rewrite Cmp.ltb_lt, Cmp.compare_app by (by rewrite !length_itob).
    unfold itob. pose proof (stored_range _ _ Hid). rewrite BE.compare_put64 by lia.
    by destruct (Z.compare_spec (CreatedAt ev) (2 ^ 64 - 1)); [lia| |lia].
Qed.

Lemma choose_good f : size (FTags f) <> 0%nat -> Forall hex32_ok (elems (Authors f)) ->
  exists plan, chooseTagScan tx f = Ok plan /\ plan_good f plan.
Proof.
  intros Hsz HA. unfold chooseTagScan. set (order := map_to_list (FTags f)).
  assert (HO : forall name wanted, (name, wanted) ∈ order -> FTags f !! name = Some wanted) by (intros ? ?; apply elem_of_map_to_list).
  assert (Hne : order <> []) by (intros E; apply map_to_list_empty_iff in E; rewrite E, map_size_empty in Hsz; done).
  set (names := sort_names _). assert (HN : forall x, x ∈ names -> x ∈ order).
  { intros x. unfold names, sort_names. rewrite merge_sort_Permutation, list_elem_of_In, filter_In, <- list_elem_of_In. tauto. }
  assert (HP : forall p, p ∈ map (fun nv => createCursorsByTags [nv]) names -> plan_good f (indexTag, p)).
  { intros p (nv & -> & Hin)%list_elem_of_fmap. apply plan_Tags; [|done]. intros name wanted Hx. apply list_elem_of_singleton in Hx. subst nv. by apply HO, HN. }
  destruct (map _ names) as [|plan0 plans]; [eexists; split; [done|by apply plan_Tags]|].
  set (use := match elems (Kinds f) with [] => false | _ => _ end).
  assert (Huse : use = true -> elems (Kinds f) <> [] /\ elems (Authors f) <> []) by (subst use; by destruct (elems (Kinds f)), (elems (Authors f))).
  assert (HG : exists plan, (kindPubkey ← (if use then createCursorsByKindsAndAuthors (elems (Kinds f)) (elems (Authors f)) else Ok []);
     let '(best, bestCount) := pick_plan (bucket tx indexTag) plan0 (countRanges (bucket tx indexTag) plan0 rangeProbeCap) plans in
     if use && (rangeProbeCap <=? bestCount) && (countRanges (bucket tx indexKindPubkey) kindPubkey rangeProbeCap <? bestCount)
     then Ok (indexKindPubkey, kindPubkey) else Ok (indexTag, best)) = Ok plan /\ plan_good f plan).
  { pose proof (pick_plan_in (bucket tx indexTag) plan0 (countRanges (bucket tx indexTag) plan0 rangeProbeCap) plans) as Hin.
    destruct (pick_plan _ _ _ _) as [best n]. cbn [fst] in Hin.
    assert (Hbest : plan_good f (indexTag, best)) by (apply HP; destruct Hin as [->|?]; [by left|by right]).
    destruct use; cbn [andb]; [|cbn [mbind outcome_bind]; by eexists].
    destruct (Huse eq_refl) as [Hk Ha]. rewrite byKindsAndAuthors_Ok by done. cbn [mbind outcome_bind].
    destruct (_ && _); [|by eexists]. eexists. split; [done|]. apply plan_KindsAuthors; [done..|]. by apply byKindsAndAuthors_Ok. }
  destruct plans as [|p1 plans]; [|exact HG]. destruct use; [exact HG|]. eexists. split; [done|]. apply HP. by left.
Qed.

Lemma plan_scan_good f : Forall hex32_ok (elems (IDs f)) -> Forall hex32_ok (elems (Authors f)) ->
  exists plan, plan_scan tx f = Ok plan /\ plan_good f plan.
Proof.
  intros HI HA. unfold plan_scan. pose proof (plan_ID f) as PI. pose proof (plan_Authors f) as PA. pose proof (plan_Kinds f) as PK.
  pose proof (plan_KindsAuthors f) as PKA. destruct (elems (IDs f)) as [|i ids].
  2:{ rewrite byID_Ok by done. eexists. split; [done|]. apply PI; [done|done|]. by apply byID_Ok. }
  destruct (decide (size (FTags f) = 0%nat)) as [E|E]; [rewrite bool_decide_true by done|rewrite bool_decide_false by done; by apply choose_good].
  destruct (elems (Authors f)) as [|a l], (elems (Kinds f)) as [|k ks].
  - eexists. split; [done|apply plan_default].
  - eexists. split; [done|by apply PK].
  - rewrite byAuthors_Ok by done. eexists. split; [done|]. apply PA; [done|done|]. by apply byAuthors_Ok.
  - rewrite byKindsAndAuthors_Ok by done. eexists. split; [done|]. apply PKA; [done..|]. by apply byKindsAndAuthors_Ok.
Qed.

(** ** Looking an id up *)

Lemma id_sound p k v : length p = 32%nat -> kv (bucket tx indexID) !! k = Some v -> has_prefix k p = true ->
  exists id ev, S !! id = Some ev /\ key_bytes (ID ev) = p /\ k = p ++ itob (CreatedAt ev) ++ itob id.
Proof.
  intros EL Hk Hp. apply (rep_index _ _ _ HR) in Hk as (id & ev & Hid & HK & _); [|done]. exists id, ev.
  pose proof (owns_ID p EL id ev k Hid HK Hp) as HE. split_and!; [done| |done].
  apply (stored_keys id ev) in HK; [|done]. rewrite HK in Hp. apply has_prefix_same in Hp; [done|].
  apply stored_lengths in Hid. lia.
Qed.

Lemma id_present id ev : S !! id = Some ev ->
  kv (bucket tx indexID) !! (key_bytes (ID ev) ++ itob (CreatedAt ev) ++ itob id) = Some (itob (CreatedAt ev)).
Proof.
  intros Hid. apply (rep_index _ _ _ HR); [done|]. exists id, ev. split_and!; [done| |done]. by apply (stored_keys id ev).
Qed.

Lemma resolve_spec s : ids_unique S -> resolveEvsidByID tx s = Ok (stored_id S s).
Proof.
  intros HU. unfold resolveEvsidByID, stored_id. destruct (Hex.decode s) as [p|] eqn:ED; [|done].
  destruct (length p =? 32)%nat eqn:EL; [|done]. apply Nat.eqb_eq in EL. cbn [negb].
  pose proof (Seek_kv BL (bucket tx indexID) p) as HS. pose proof (id_sound p) as Hsound.
  destruct (stored_id_spec S p HU) as [(id & ev & Hid & Hp & ->)|[Hno ->]].
  - pose proof (id_present id ev Hid) as Hin. rewrite Hp in Hin.
    destruct (Seek _ p) as [[k v]|]; last first.
    { pose proof (extension_ge p (itob (CreatedAt ev) ++ itob id)) as Hge. by rewrite HS in Hge by by eexists. }
    destruct HS as (Hk & Hlt & Hmin). specialize (Hmin _ (mk_is_Some _ _ Hin) (extension_ge _ _)).
    pose proof (prefix_between _ _ _ Hlt Hmin) as Hpre. rewrite Hpre.
    destruct (Hsound k v EL Hk Hpre) as (id' & ev' & Hid' & Hp' & ->).
    assert (id' = id) by (eapply (HU id' id ev' ev); [done|done|congruence]). subst id'.
    rewrite !length_app, !length_itob, EL. cbn [negb orb Nat.eqb Nat.add].
    rewrite app_assoc. replace 40%nat with (length (p ++ itob (CreatedAt ev'))) by (rewrite length_app, length_itob; lia).
    rewrite drop_length_app. unfold btoi. rewrite length_itob. cbn [Nat.ltb Nat.leb mbind outcome_bind].
    unfold itob. rewrite <- (app_nil_r (BE.put64 id)), BE.get64_put64 by (apply stored_range in Hid; lia). done.
  - destruct (Seek _ p) as [[k v]|]; [|done]. destruct HS as (Hk & _). destruct (has_prefix k p) eqn:Hp; [|done].
    destruct (Hsound k v EL Hk Hp) as (id & ev & Hid & HE & _). destruct (Hno id ev Hid HE).
Qed.

(** A duplicate is refused exactly when the id is stored. *)
Lemma duplication_spec ev : hex32_ok (ID ev) ->
  (checkEventDuplication tx ev = Err ErrEventDuplicated /\ exists id e, S !! id = Some e /\ key_bytes (ID e) = key_bytes (ID ev)) \/
  (checkEventDuplication tx ev = Ok tt /\ forall id e, S !! id = Some e -> key_bytes (ID e) <> key_bytes (ID ev)).
Proof.
  intros (HD & HL)%key_bytes_ok. unfold checkEventDuplication. rewrite HD. cbn [of_opt mbind outcome_bind].
  set (p := key_bytes (ID ev)) in *. unfold concatKey. cbn [concat]. rewrite app_nil_r.
  pose proof (SeekPrev_kv BL (bucket tx indexID) (p ++ maxSuffixBytes)) as HS.
  assert (Hbelow : forall id e, S !! id = Some e -> Cmp.ltb (p ++ itob (CreatedAt e) ++ itob id) (p ++ maxSuffixBytes) = true).
  { intros id e Hid. rewrite Cmp.ltb_lt, Cmp.compare_app_l. change maxSuffixBytes with (itob (2 ^ 64 - 1) ++ itob (2 ^ 64 - 1)).
    rewrite Cmp.compare_app by (by rewrite !length_itob). unfold itob. pose proof (stored_range _ _ Hid).
    rewrite !BE.compare_put64 by lia. by destruct (Z.compare_spec (CreatedAt e) (2 ^ 64 - 1)); [lia| |lia]. }
  assert (Hnone : (forall k v, kv (bucket tx indexID) !! k = Some v -> Cmp.ltb k (p ++ maxSuffixBytes) = true -> has_prefix k p = false) ->
    forall id e, S !! id = Some e -> key_bytes (ID e) <> p).
  { intros HN id e Hid HE. pose proof (id_present id e Hid) as Hin. rewrite HE in Hin.
    specialize (HN _ _ Hin (Hbelow id e Hid)). by rewrite has_prefix_app in HN. }
  destruct (SeekPrev _ _) as [[k v]|].
  - destruct HS as (Hk & Hlt & Hmax). destruct (has_prefix k p) eqn:Hp.
    + left. split; [done|]. destruct (id_sound p k v HL Hk Hp) as (id & e & Hid & HE & _). by exists id, e.
    + right. split; [done|]. apply Hnone. intros k' v' Hk' Hlt'. destruct (has_prefix k' p) eqn:Hp'; [|done].
      apply has_prefix_inv in Hp' as [t ->]. specialize (Hmax _ (mk_is_Some _ _ Hk') Hlt').
      destruct (Cmp.between_prefix p t maxSuffixBytes k Hlt Hmax) as [c ->]. by rewrite has_prefix_app in Hp.
  - right. split; [done|]. apply Hnone. intros k v Hk Hlt. by rewrite (HS k) in Hlt by by eexists.
Qed.

End Plans.

(** ** Queries *)

Section Query.
Context {Bolt0 : Bolt} {JSON0 : EventJSON} {Derived0 : Derived} {GoLower0 : GoLower}.

(** What a one-filter query asks for: admitted by the filter, no ephemeral event,
    and past the event the page starts after. *)
Definition query_wants (S : gmap Z Event) (f : SubscriptionFilter) (id : Z) (ev : Event) : bool :=
  negb (IsEphemeralKind (Kind ev)) && Match f ev &&
  negb (match stored_id S (BeforeID f) with Some b => (CreatedAt ev =? Until f) && (b <=? id) | None => false end).

Lemma Match_window f ev : Match f ev = true -> 0 <= CreatedAt ev ->
  negb ((0 <? Since f) && (CreatedAt ev <? Since f)) && negb ((0 <? Until f) && (Until f <? CreatedAt ev)) = true.
Proof.
  intros (_ & _ & _ & HS & HU & _)%Match_spec Hc.
  destruct (Z.ltb_spec 0 (Since f)), (Z.ltb_spec (CreatedAt ev) (Since f)), (Z.ltb_spec 0 (Until f)), (Z.ltb_spec (Until f) (CreatedAt ev)); cbn; lia.
Qed.

Lemma clamp_pos v max : 0 < max -> 0 < clamp v filterMinLimit max <= max.
Proof.
  intros HM. unfold clamp, filterMinLimit. destruct (Z.eqb_spec v 0); [lia|].
  destruct (Z.ltb_spec v 1); [lia|]. destruct (Z.ltb_spec max v); lia.
Qed.

Section Store.
Context (BL : BoltLaws) (mit MaxLimit : Z) (tx : Tx) (S : gmap Z Event).
Context (HR : represents mit tx S) (HU : ids_unique S) (HM : 0 < MaxLimit).
Context (Htimes : forall id ev, S !! id = Some ev -> 0 < CreatedAt ev < 2 ^ 64 - 1).
#[local] Set Default Proof Using "All".

Lemma times_below id ev : S !! id = Some ev -> CreatedAt ev < 2 ^ 64 - 1.
Proof. intros H. apply Htimes in H. lia. Qed.

(** Whatever is planned: the answer is the newest of what is asked for and
    reached, and everything visible is reached. *)
(** The scan a filter's query plans, and what it delivers. *)
Definition planned (f : SubscriptionFilter) (ix : Index) (cs : list storeCursor) : storeScan :=
  mkScan cs 0 false false 0 (mkCtx ix [] (WithLimit f (clamp (Limit f) filterMinLimit MaxLimit)) ∅ 0 (default 0 (stored_id S (BeforeID f)))
    (match stored_id S (BeforeID f) with Some _ => true | None => false end)).

Definition answer_over (f : SubscriptionFilter) (P : Z -> Event -> bool) : list (Z * Event) :=
  take (Z.to_nat (clamp (Limit f) filterMinLimit MaxLimit)) (newest S P).

Lemma query_scan f : Forall hex32_ok (elems (IDs f)) -> Forall hex32_ok (elems (Authors f)) ->
  exists ix cs, (forall id ev, S !! id = Some ev -> Match f ev = true -> tag_visible mit f ev -> reachable mit ix cs id ev = true) /\
  newStoreQuery MaxLimit tx [f] = Ok [planned f ix cs] /\
  let res := answer_over f (fun id ev => reachable mit ix cs id ev && query_wants S f id ev) in
  exists s', scan (query_fuel tx [planned f ix cs]) (fun _ => tx) false (planned f ix cs) ∅ = Some (Ok (map as_potential res, s', list_to_set res.*1)).
Proof.
  intros HI HA. set (f' := WithLimit f (clamp (Limit f) filterMinLimit MaxLimit)).
  destruct (plan_scan_good BL mit tx S HR times_below f') as ([ix cs] & HP & Hix & HG & HRe); [done|done|]. cbn [fst snd] in *.
  exists ix, cs. split; [exact HRe|]. split.
  { cbn [newStoreQuery]. fold f'. unfold newStoreScanIn. rewrite (resolve_spec BL mit tx S HR times_below) by done. cbn [f' WithLimit BeforeID].
    unfold planned. destruct (decide (BeforeID f = [])) as [E|E]; cbn [mbind outcome_bind]; rewrite HP; cbn [mbind outcome_bind]; [by rewrite E|done]. }
  destruct (scan_newest BL mit tx S HR ix Hix (planned f ix cs) ∅ (query_fuel tx [planned f ix cs])) as (s' & ->); [done|done|done|done|by apply clamp_pos| | |].
  { intros id ev Hid _. apply Htimes in Hid; lia. }
  { unfold query_fuel. cbn [map]. change (max_list [scan_fuel tx ?s]) with (Nat.max (scan_fuel tx s) 0).
    rewrite Nat.max_0_r. apply Nat.lt_succ_r, (passes_le BL mit tx S HR ix Hix). }
  exists s'. rewrite union_empty_l_L. unfold answer_over. cbn [sctx planned filter WithLimit Limit cursors].
  match goal with |- Some (Ok (map _ (take _ (newest S ?P)), _, _)) = Some (Ok (map _ (take _ (newest S ?Q)), _, _)) =>
    assert (HE : newest S P = newest S Q); [|by rewrite HE] end.
  apply newest_ext. intros id ev Hid. unfold wanted, query_wants. cbn [filter]. change (Match (WithLimit f _) ev) with (Match f ev).
  destruct (Match f ev) eqn:EM; [|by rewrite !andb_false_r].
  rewrite bool_decide_false by set_solver. unfold window. cbn [filter fst snd hasBeforeID beforeIDEvsid f' WithLimit Since Until].
  rewrite Match_window by (done || (apply Htimes in Hid; lia)). cbn [andb negb]. rewrite !andb_true_r, <- andb_assoc. f_equal.
  rewrite andb_comm. f_equal. by destruct (stored_id S (BeforeID f)).
Qed.

Lemma findEvents_scan f : Forall hex32_ok (elems (IDs f)) -> Forall hex32_ok (elems (Authors f)) ->
  exists ix cs, (forall id ev, S !! id = Some ev -> Match f ev = true -> tag_visible mit f ev -> reachable mit ix cs id ev = true) /\
  findEvents MaxLimit tx f = Ok (map as_potential (answer_over f (fun id ev => reachable mit ix cs id ev && query_wants S f id ev))).
Proof.
  intros HI HA. destruct (query_scan f HI HA) as (ix & cs & HRe & HQ & s' & HS). exists ix, cs. split; [exact HRe|].
  unfold findEvents. rewrite HQ. cbn [mbind outcome_bind fetch]. rewrite HS. by rewrite app_nil_r.
Qed.

(** Only the events asked for count, when their tags are indexed. *)
Lemma answer_over_wants f P : (forall id ev, S !! id = Some ev -> Match f ev = true -> P id ev = true) ->
  newest S (fun id ev => P id ev && query_wants S f id ev) = newest S (query_wants S f).
Proof.
  intros HP. apply newest_ext. intros id ev Hid. unfold query_wants. destruct (Match f ev) eqn:EM; [|by rewrite !andb_false_r].
  by rewrite (HP id ev Hid EM).
Qed.

Lemma findEvents_spec f : Forall hex32_ok (elems (IDs f)) -> Forall hex32_ok (elems (Authors f)) ->
  (forall id ev, S !! id = Some ev -> Match f ev = true -> tag_visible mit f ev) ->
  findEvents MaxLimit tx f
  = Ok (map as_potential (take (Z.to_nat (clamp (Limit f) filterMinLimit MaxLimit)) (newest S (query_wants S f)))).
Proof.
  intros HI HA Htags. destruct (findEvents_scan f HI HA) as (ix & cs & HRe & ->). unfold answer_over.
  rewrite answer_over_wants; [done|]. intros id ev Hid Hm. by apply HRe; [|done|by apply (Htags id ev)].
Qed.

End Store.

(** C1: a query over one filter answers exactly with the newest stored events the
    filter asks for, newest first (by creation time, then by arrival) and up to
    the clamped limit, whichever index the planner picks and however the scan
    is cut into passes; and it does answer, within the passes [scan_fuel] allows.
    The filter's keys must be full keys, the events' times inside
    (0, MaxUint64), and the tag values the filter names be indexed. *)
Theorem findEvents_newest (BL : BoltLaws) (mit MaxLimit : Z) (tx : Tx) (S : gmap Z Event) (f : SubscriptionFilter)
    (HR : represents mit tx S) (HU : ids_unique S) (HM : 0 < MaxLimit)
    (Htimes : forall id ev, S !! id = Some ev -> 0 < CreatedAt ev < 2 ^ 64 - 1)
    (HI : Forall hex32_ok (elems (IDs f))) (HA : Forall hex32_ok (elems (Authors f)))
    (Htags : forall id ev, S !! id = Some ev -> Match f ev = true -> tag_visible mit f ev) :
  findEvents MaxLimit tx f
  = Ok (map as_potential (take (Z.to_nat (clamp (Limit f) filterMinLimit MaxLimit)) (newest S (query_wants S f)))).
Proof. by apply (findEvents_spec BL mit). Qed.

End Query.
