(* ===== verification/StoreEvents.v ===== *)
(** * relay/store.go: the write path

    What the store does with an event it accepts: refuse a duplicate, apply a
    deletion request, keep one version of a replaceable event, index the
    rest; the tasks, and their batches with the retry one by one.  A batch is
    given the database as it is and yields the database as committed, with the
    answer each task gets.  The twenty-second timeouts do not expire. *)

From S2P Require Import Prelude GoLib GoHeap Bolt Sha256 NostrUtils Pow Event Filter StoreDb StoreScan.

Definition compareKeys (id1 id2 : gostring) : outcome StoreErr bool :=
  bytes1 ← of_opt (Hex.decode id1) ErrHexKey;
  bytes2 ← of_opt (Hex.decode id2) ErrHexKey;
  Ok (Cmp.ltb bytes1 bytes2).

(** The loop of determineLatestAndToDelete. *)
Fixpoint determine_latest (latestPE : PotentialEvent) (toDelete pes : list PotentialEvent)
    : PotentialEvent * list PotentialEvent :=
  match pes with
  | [] => (latestPE, toDelete)
  | pe :: pes =>
      if PCreatedAt latestPE <? PCreatedAt pe then determine_latest pe (toDelete ++ [latestPE]) pes
      else if PCreatedAt pe =? PCreatedAt latestPE then
        match compareKeys (EventID pe) (EventID latestPE) with
        | Ok true => determine_latest pe (toDelete ++ [latestPE]) pes
        | Ok false => determine_latest latestPE (toDelete ++ [pe]) pes
        | _ => (latestPE, toDelete)
        end
      else determine_latest latestPE (toDelete ++ [pe]) pes
  end.

(** A deletion request's tags, read in order. *)
Record delRequest := mkDel {
  eventsToDelete : list PotentialEvent;
  eventsID : list gostring;
  requestedKinds : gset Z;
}.

Inductive Task :=
  | EventInsertTask (events : list Event)
  | EventDeleteTask (pes : list Z)
  | UnknownTask.

Section Events.
Context {Bolt0 : Bolt} {JSON0 : EventJSON} {Derived0 : Derived} {GoLower0 : GoLower}.
Context (MaxIndexableTags MaxLimit : Z).

(** ** Replaceable events *)

Definition determineLatestAndToDelete (pes : list PotentialEvent) : outcome StoreErr (PotentialEvent * list PotentialEvent) :=
  match pes with
  | [] => Panic
  | pe :: pes => Ok (determine_latest pe [] pes)
  end.

Definition insertOrReplaceEvent (tx : Tx) (ev : Event) (latestPE : PotentialEvent) : outcome StoreErr Tx :=
  if PCreatedAt latestPE <? CreatedAt ev then
    tx ← deleteByEvsid MaxIndexableTags tx (Evsid latestPE); insertWithIndexes MaxIndexableTags tx ev
  else if CreatedAt ev =? PCreatedAt latestPE then
    isLess ← compareKeys (ID ev) (EventID latestPE);
    if (isLess : bool) then
      tx ← deleteByEvsid MaxIndexableTags tx (Evsid latestPE); insertWithIndexes MaxIndexableTags tx ev
    else Ok tx
  else Ok tx.

Definition insertReplaceableEvent (tx : Tx) (ev : Event) (pes : list PotentialEvent) : outcome StoreErr Tx :=
  match pes with
  | [] => insertWithIndexes MaxIndexableTags tx ev
  | _ =>
      r ← determineLatestAndToDelete pes;
      let '(latestPE, toDelete) := r in
      tx ← deleteAll MaxIndexableTags tx (map Evsid toDelete);
      insertOrReplaceEvent tx ev latestPE
  end.

Definition replaceableFilter (pubKey : gostring) (kind since until : Z) : SubscriptionFilter :=
  mkFilter None (Some [pubKey]) (Some [kind]) ∅ since until 500 [] [] [].

Definition findReplaceableEvents (tx : Tx) (pubKey : gostring) (kind since until : Z) : outcome StoreErr (list PotentialEvent) :=
  findEvents MaxLimit tx (replaceableFilter pubKey kind since until).

Definition paramFilter (pubKey : gostring) (kind : Z) (dValue : gostring) (since until : Z) : SubscriptionFilter :=
  mkFilter None (Some [pubKey]) (Some [kind]) {[bs "d" := [dValue]]} since until 500 [] [] [].

Definition findParameterizedReplaceableEvents (tx : Tx) (pubKey : gostring) (kind : Z) (dValue : gostring) (since until : Z)
    : outcome StoreErr (list PotentialEvent) :=
  findEvents MaxLimit tx (paramFilter pubKey kind dValue since until).

(** ** Deletion requests *)

(** The loop over the cursors of findEventEvsidByEventID. *)
Fixpoint collect_ids (tx : Tx) (cs : list storeCursor) (limit : Z) (sc : scanContext) : outcome StoreErr scanContext :=
  match cs with
  | [] => Ok sc
  | c :: cs => r ← Collect tx c sc ∅ None limit false; collect_ids tx cs limit r.1
  end.

Definition findEventEvsidByEventID (tx : Tx) (ids : list gostring) : outcome StoreErr (list PotentialEvent) :=
  cursors ← createCursorsByID ids;
  sc ← collect_ids tx cursors (zlen ids) (mkCtx indexID [] NewFilter ∅ 0 0 false);
  Ok (queueEvents sc).

(** One tag of a deletion request. *)
Definition del_tag (tx : Tx) (until : Z) (d : delRequest) (t : tag) : outcome StoreErr delRequest :=
  match t with
  | [c] :: v :: _ =>
      if decide ([c] = bs "k") then
        match ValidateStrKind v with
        | Ok kind => Ok (mkDel (eventsToDelete d) (eventsID d) ({[kind]} ∪ requestedKinds d))
        | _ => Ok d
        end
      else if decide ([c] = bs "e") then
        match Validate32Key v with
        | Ok _ => Ok (mkDel (eventsToDelete d) (eventsID d ++ [v]) (requestedKinds d))
        | _ => Ok d
        end
      else if decide ([c] = bs "a") then
        match ParseATag v with
        | Ok (kind, pubKey, dValue) =>
            if IsReplaceableKind kind then
              pes ← findReplaceableEvents tx pubKey kind 0 until;
              Ok (mkDel (eventsToDelete d ++ pes) (eventsID d) ({[kind]} ∪ requestedKinds d))
            else if IsParamReplaceableKind kind then
              pes ← findParameterizedReplaceableEvents tx pubKey kind dValue 0 until;
              Ok (mkDel (eventsToDelete d ++ pes) (eventsID d) ({[kind]} ∪ requestedKinds d))
            else Ok d
        | _ => Ok d
        end
      else Ok d
  | _ => Ok d
  end.

Fixpoint del_tags (tx : Tx) (until : Z) (d : delRequest) (ts : tags) : outcome StoreErr delRequest :=
  match ts with
  | [] => Ok d
  | t :: ts => d ← del_tag tx until d t; del_tags tx until d ts
  end.

Definition findEventsToDelete (tx : Tx) (ts : tags) (until : Z) : outcome StoreErr (list PotentialEvent * gset Z) :=
  d ← del_tags tx until (mkDel [] [] ∅) ts;
  pes ← findEventEvsidByEventID tx (eventsID d);
  Ok (eventsToDelete d ++ pes, requestedKinds d ∖ {[5]}).

Fixpoint deleteAllRestricted (tx : Tx) (delEvent : Event) (pes : list PotentialEvent) (allowedKinds : gset Z)
    : outcome StoreErr Tx :=
  match pes with
  | [] => Ok tx
  | pe :: pes =>
      match findEventUsingTx tx (Evsid pe) with
      | Err ErrEventNotFound => deleteAllRestricted tx delEvent pes allowedKinds
      | Err e => Err e
      | Panic => Panic
      | Ok event =>
          if negb (bool_decide (allowedKinds = ∅)) && negb (bool_decide (Kind event ∈ allowedKinds))
          then deleteAllRestricted tx delEvent pes allowedKinds
          else if negb (bool_decide (PubKey delEvent = PubKey event))
          then deleteAllRestricted tx delEvent pes allowedKinds
          else if IsDeletionKind (Kind event)
          then deleteAllRestricted tx delEvent pes allowedKinds
          else tx ← delete_event MaxIndexableTags tx (Evsid pe) event;
               deleteAllRestricted tx delEvent pes allowedKinds
      end
  end.

(** ** One event *)

Definition insert (tx : Tx) (ev : Event) : outcome StoreErr Tx :=
  if IsDeletionKind (Kind ev) then
    r ← findEventsToDelete tx (Tags ev) (CreatedAt ev);
    let '(pes, allowedKinds) := r in
    tx ← deleteAllRestricted tx ev pes allowedKinds;
    insertWithIndexes MaxIndexableTags tx ev
  else if IsEphemeralKind (Kind ev) then insertWithIndexes MaxIndexableTags tx ev
  else if IsParamReplaceableKind (Kind ev) then
    dValue ← findFirstDtagValue (Tags ev);
    pes ← findParameterizedReplaceableEvents tx (PubKey ev) (Kind ev) dValue 0 0;
    insertReplaceableEvent tx ev pes
  else if IsReplaceableKind (Kind ev) then
    pes ← findReplaceableEvents tx (PubKey ev) (Kind ev) 0 0;
    insertReplaceableEvent tx ev pes
  else insertWithIndexes MaxIndexableTags tx ev.

(** ** Tasks *)

(** The events of an insert task; [taskErr] is the duplicate met so far. *)
Fixpoint apply_events (tx : Tx) (taskErr : option StoreErr) (evs : list Event) : outcome StoreErr (Tx * option StoreErr) :=
  match evs with
  | [] => Ok (tx, taskErr)
  | ev :: evs =>
      match checkEventDuplication tx ev with
      | Err ErrEventDuplicated => apply_events tx (Some ErrEventDuplicated) evs
      | Err e => Err e
      | Panic => Panic
      | Ok _ => tx ← insert tx ev; apply_events tx taskErr evs
      end
  end.

(** Err aborts the transaction; the second component is the task's own error. *)
Definition applyTask (tx : Tx) (task : Task) : outcome StoreErr (Tx * option StoreErr) :=
  match task with
  | EventInsertTask events => apply_events tx None events
  | EventDeleteTask pes => tx ← deleteAll MaxIndexableTags tx pes; Ok (tx, None)
  | UnknownTask => Ok (tx, Some ErrTaskType)
  end.

Fixpoint applyTasks (tx : Tx) (tasks : list Task) : outcome StoreErr (Tx * list (option StoreErr)) :=
  match tasks with
  | [] => Ok (tx, [])
  | task :: tasks =>
      r ← applyTask tx task;
      let '(tx, taskErr) := r in
      r ← applyTasks tx tasks;
      let '(tx, errs) := r in
      Ok (tx, taskErr :: errs)
  end.

(** The retry: each task in a transaction of its own, rolled back if it fails. *)
Fixpoint retryTasks (db : Tx) (tasks : list Task) : outcome StoreErr (Tx * list (option StoreErr)) :=
  match tasks with
  | [] => Ok (db, [])
  | task :: tasks =>
      match applyTask db task with
      | Panic => Panic
      | r =>
          let '(db, res) := match r with Ok (db, taskErr) => (db, taskErr) | Err e => (db, Some e) | Panic => (db, None) end in
          r ← retryTasks db tasks;
          let '(db, errs) := r in
          Ok (db, res :: errs)
      end
  end.

(** ExecuteBatch: the committed database, and what each task is told (None for
    done). *)
Definition ExecuteBatch (db : Tx) (tasks : list Task) : outcome StoreErr (Tx * list (option StoreErr)) :=
  match applyTasks db tasks with
  | Ok r => Ok r
  | Panic => Panic
  | Err e => match tasks with
             | [_] => Ok (db, [Some e])
             | _ => retryTasks db tasks
             end
  end.

(** EventInsertTask.Execute: one transaction per event, stopping at the first error. *)
Fixpoint ExecuteInsert (db : Tx) (events : list Event) : outcome StoreErr (Tx * option StoreErr) :=
  match events with
  | [] => Ok (db, None)
  | ev :: events =>
      match (_ ← checkEventDuplication db ev; insert db ev) with
      | Panic => Panic
      | Err e => Ok (db, Some e)
      | Ok db => ExecuteInsert db events
      end
  end.

(** ** Expiry *)

(** The keys pruneExpiredEvents reads, in order, up to the first that is not due. *)
Fixpoint due (nowBytes : gostring) (l : list (gostring * gostring)) : outcome StoreErr (list Z) :=
  match l with
  | [] => Ok []
  | (k, _) :: l =>
      if negb (length k =? 16)%nat then due nowBytes l
      else if Cmp.ltb nowBytes (take 8 k) then Ok []
      else evsid ← btoi (drop 8 k); rest ← due nowBytes l; Ok (evsid :: rest)
  end.

(** pruneExpiredEvents at [now]: the task it queues, None when nothing is due. *)
Definition pruneExpiredEvents (tx : Tx) (now : Z) : outcome StoreErr (option Task) :=
  ids ← due (itob (u64 now)) (ascend (bucket tx indexExpiration) []);
  Ok (match ids with [] => None | _ => Some (EventDeleteTask ids) end).

End Events.
