(* ===== verification/StoreLife.v ===== *)
(** * relay/store.go: what the write path keeps

    The invariant of a running store, and what each write does to the abstract
    map of stored events. *)

From S2P Require Import Prelude GoLib GoHeap Bolt Sha256 NostrUtils Pow Event Filter Latest StoreDb StoreInv StoreScan StoreMerge StoreExact StoreQuery StoreEvents.

(** ** Which version wins *)

(** Newer, or as new with the smaller id. *)
Definition beats (a b : Event) : bool :=
  (CreatedAt b <? CreatedAt a) || ((CreatedAt a =? CreatedAt b) && Cmp.ltb (key_bytes (ID a)) (key_bytes (ID b))).

Lemma beats_Supersedes `{!GoLower} a b : hex32_ok (ID a) -> hex32_ok (ID b) -> beats a b = Supersedes a b.
Proof.
  intros (Ha & _)%key_bytes_ok (Hb & _)%key_bytes_ok. unfold beats, Supersedes. rewrite (ToLower_ltb _ _ _ _ Ha Hb).
  destruct (Z.eqb_spec (CreatedAt a) (CreatedAt b)), (Z.ltb_spec (CreatedAt b) (CreatedAt a)); cbn; try done; lia.
Qed.

(** Being unbeaten passes to what beats. *)
Lemma unbeaten_trans a b c : beats a b = false -> beats c b = true -> beats a c = false.
Proof.
  unfold beats. intros Hab Hcb. destruct (Z.ltb_spec (CreatedAt b) (CreatedAt a)) as [|H1]; [done|]. cbn [orb] in Hab.
  destruct (Z.ltb_spec (CreatedAt b) (CreatedAt c)) as [H2|H2].
  - rewrite (proj2 (Z.ltb_ge _ _)) by lia. by rewrite (proj2 (Z.eqb_neq _ _)) by lia.
  - cbn [orb] in Hcb. apply andb_true_iff in Hcb as [Hc%Z.eqb_eq Hk]. rewrite (proj2 (Z.ltb_ge _ _)) by lia. cbn [orb].
    destruct (Z.eqb_spec (CreatedAt a) (CreatedAt c)) as [E|E]; [|done]. cbn [andb].
    rewrite (proj2 (Z.eqb_eq _ _)) in Hab by lia. cbn [andb] in Hab.
    destruct (Cmp.ltb (key_bytes (ID a)) (key_bytes (ID c))) eqn:E3; [|done]. by rewrite (Cmp.ltb_trans _ _ _ E3 Hk) in Hab.
Qed.

Lemma compareKeys_Ok a b : hex32_ok a -> hex32_ok b -> compareKeys a b = Ok (Cmp.ltb (key_bytes a) (key_bytes b)).
Proof. intros (Ha & _)%key_bytes_ok (Hb & _)%key_bytes_ok. unfold compareKeys. by rewrite Ha, Hb. Qed.

Section Determine.
Context {JSON0 : EventJSON}.

(** The candidates of a query, as the loop sees them: the one kept is unbeaten,
    the others are to be deleted. *)
Lemma determine_latest_spec l x0 d :
  Forall (fun x => hex32_ok (ID x.2)) (x0 :: l) -> (forall y, y ∈ d -> beats y.2 x0.2 = false) ->
  exists x del, determine_latest (as_potential x0) (map as_potential d) (map as_potential l)
    = (as_potential x, map as_potential del) /\ x :: del ≡ₚ x0 :: d ++ l /\ (forall y, y ∈ del -> beats y.2 x.2 = false).
Proof.
  revert x0 d. induction l as [|x l IH]; intros x0 d HF Hd; cbn [map determine_latest].
  { exists x0, d. by rewrite app_nil_r. }
  inversion HF as [|? ? H0 HF']; subst. inversion HF' as [|? ? H1 HF'']; subst. cbn [as_potential PCreatedAt EventID].
  rewrite compareKeys_Ok by done.
  assert (Hwin : beats x.2 x0.2 = true -> exists x' del,
    determine_latest (as_potential x) (map as_potential d ++ [as_potential x0]) (map as_potential l) = (as_potential x', map as_potential del) /\
    x' :: del ≡ₚ x0 :: d ++ x :: l /\ (forall y, y ∈ del -> beats y.2 x'.2 = false)).
  { intros Hb. destruct (IH x (d ++ [x0])) as (x' & del & HE & HP & HB); [by constructor| |].
    - intros y [Hy| ->%list_elem_of_singleton]%elem_of_app; [by eapply unbeaten_trans; [apply Hd|]|].
      destruct (beats x0.2 x.2) eqn:E; [|done]. pose proof (unbeaten_trans x.2 x.2 x0.2) as HT.
      rewrite Hb in HT. unfold beats in HT at 1. rewrite Z.ltb_irrefl, Cmp.ltb_irrefl, andb_false_r in HT. by discriminate (HT eq_refl E).
    - rewrite map_app in HE. exists x', del. split_and!; [done| |done]. rewrite HP. solve_Permutation. }
  assert (Hlose : beats x.2 x0.2 = false -> exists x' del,
    determine_latest (as_potential x0) (map as_potential d ++ [as_potential x]) (map as_potential l) = (as_potential x', map as_potential del) /\
    x' :: del ≡ₚ x0 :: d ++ x :: l /\ (forall y, y ∈ del -> beats y.2 x'.2 = false)).
  { intros Hb. destruct (IH x0 (d ++ [x])) as (x' & del & HE & HP & HB); [by constructor| |].
    - intros y [Hy| ->%list_elem_of_singleton]%elem_of_app; [by apply Hd|done].
    - rewrite map_app in HE. exists x', del. split_and!; [done| |done]. rewrite HP. solve_Permutation. }
  unfold beats in Hwin at 1, Hlose at 1.
  destruct (CreatedAt x0.2 <? CreatedAt x.2); [by apply Hwin|]. cbn [orb] in *.
  destruct (CreatedAt x.2 =? CreatedAt x0.2); [|by apply Hlose]. cbn [andb] in *.
  destruct (Cmp.ltb (key_bytes (ID x.2)) (key_bytes (ID x0.2))); [by apply Hwin|by apply Hlose].
Qed.

End Determine.

Definition without (ids : list Z) (S : gmap Z Event) : gmap Z Event := base.filter (fun x => x.1 ∉ ids) S.

Lemma without_lookup ids S id ev : without ids S !! id = Some ev <-> S !! id = Some ev /\ id ∉ ids.
Proof. unfold without. by rewrite map_lookup_filter_Some. Qed.

(** The abstract store may lose events and gain one under a new number. *)
Definition evolves (S S' : gmap Z Event) (n : Z) (ev : Event) : Prop :=
  forall id e, S' !! id = Some e -> S !! id = Some e \/ (id = n /\ e = ev).

Lemma evolves_without S ids n ev : evolves S (without ids S) n ev.
Proof. intros i e. rewrite without_lookup. tauto. Qed.

Lemma evolves_insert S S1 n ev : evolves S S1 n ev -> evolves S (<[n := ev]> S1) n ev.
Proof. intros HE i e. rewrite lookup_insert_Some. intros [[<- <-]|[_ Hi]]; [by right|by apply HE]. Qed.

Lemma evolves_refl S n ev : evolves S S n ev.
Proof. by left. Qed.

Lemma evolves_delete S i n ev : evolves S (delete i S) n ev.
Proof. intros j e. rewrite lookup_delete_Some. tauto. Qed.

#[export] Hint Resolve evolves_without evolves_insert evolves_refl evolves_delete : nmilat.

(** ** The invariant *)

(** One version per author and replaceable kind. *)
Definition one_version (S : gmap Z Event) : Prop :=
  forall i j e e', S !! i = Some e -> S !! j = Some e' -> IsReplaceableKind (Kind e) = true ->
  Kind e = Kind e' -> PubKey e = PubKey e' -> i = j.

(** ** Reading a deletion request *)

Definition e_ids (ts : tags) : list gostring :=
  omap (fun t : tag => match t with
    | n :: v :: _ => if decide (n = bs "e") then if is_ok (Validate32Key v) then Some v else None else None
    | _ => None end) ts.

Definition a_coords (ts : tags) : list (Z * gostring * gostring) :=
  omap (fun t : tag => match t with
    | n :: v :: _ => if decide (n = bs "a") then match ParseATag v with Ok x => Some x | _ => None end else None
    | _ => None end) ts.

Definition k_kinds (ts : tags) : list Z :=
  omap (fun t : tag => match t with
    | n :: v :: _ => if decide (n = bs "k") then match ValidateStrKind v with Ok k => Some k | _ => None end else None
    | _ => None end) ts.

(** The kinds a request restricts itself to; none for any kind. *)
Definition del_kinds (ts : tags) : gset Z := (list_to_set (k_kinds ts) ∪ list_to_set (a_coords ts).*1.*1) ∖ {[5]}.

(** The filter a coordinate is looked up with. *)
Definition coord_filter (until : Z) (x : Z * gostring * gostring) : SubscriptionFilter :=
  if IsReplaceableKind x.1.1 then replaceableFilter x.1.2 x.1.1 0 until else paramFilter x.1.2 x.1.1 x.2 0 until.

Lemma ParseATag_kind v kind pk d : ParseATag v = Ok (kind, pk, d) ->
  IsReplaceableKind kind || IsParamReplaceableKind kind = true /\ hex32_ok pk.
Proof.
  unfold ParseATag. destruct (split_on colon v) as [|a [|b [|c [|? ?]]]]; try done. destruct (Dec.atoi a); [|done].
  intros HE. inv_ok. unfold ensure in E0. destruct (_ || _) eqn:EK; [|done]. destruct a2. by apply Validate32Key_decodes in E1.
Qed.

Lemma kind_classes k : IsReplaceableKind k = true -> IsDeletionKind k = false /\ IsEphemeralKind k = false /\ IsParamReplaceableKind k = false.
Proof.
  unfold IsReplaceableKind, IsDeletionKind, IsEphemeralKind, IsParamReplaceableKind, KindDeletion.
  rewrite !andb_false_iff, !Z.eqb_neq, !Z.leb_gt, !Z.ltb_ge. intros. bool_prop. lia.
Qed.

Section Life.
Context {Bolt0 : Bolt} {JSON0 : EventJSON} {Derived0 : Derived} {GoLower0 : GoLower}.

(** An event the store can take: keys that are keys, a time inside the range
    queries cover, and an encoding that reads back. *)
Definition admissible (ev : Event) : Prop := ev_ok ev /\ 0 < CreatedAt ev < 2 ^ 64 - 1.

Record store_inv (mit : Z) (tx : Tx) (S : gmap Z Event) : Prop := {
  si_rep : represents mit tx S;
  si_ids : ids_unique S;
  si_times : forall id ev, S !! id = Some ev -> 0 < CreatedAt ev < 2 ^ 64 - 1;
  si_one : one_version S;
}.

Context (BL : BoltLaws) (mit MaxLimit : Z) (HM : 0 < MaxLimit).
#[local] Set Default Proof Using "All".

Lemma stored_ok tx S id ev : represents mit tx S -> S !! id = Some ev -> 0 <= id < 2 ^ 64 /\ ev_ok ev.
Proof. intros HR Hid. destruct (rep_ids _ _ _ HR _ _ Hid) as [? ?]. pose proof (rep_seq _ _ _ HR). split; [lia|done]. Qed.

(** ** Versions *)

Lemma insertReplaceable_spec tx S ev l tx' :
  represents mit tx S -> ev_ok ev -> seq_of tx + 1 < 2 ^ 64 - 1 -> (forall x, x ∈ l -> S !! x.1 = Some x.2) ->
  insertReplaceableEvent mit tx ev (map as_potential l) = Ok tx' ->
  match l with
  | [] => represents mit tx' (<[seq_of tx + 1 := ev]> S) /\ seq_of tx' = seq_of tx + 1
  | _ => exists x del, x :: del ≡ₚ l /\ (forall y, y ∈ del -> beats y.2 x.2 = false) /\
      if beats ev x.2 then represents mit tx' (<[seq_of tx + 1 := ev]> (without l.*1 S)) /\ seq_of tx' = seq_of tx + 1
      else represents mit tx' (without del.*1 S) /\ seq_of tx' = seq_of tx
  end.
Proof.
  intros HR HO Hseq Hl HE. destruct l as [|x0 l]; [by apply (insertWithIndexes_spec BL mit) with (S := S) in HE|].
  unfold insertReplaceableEvent in HE. cbn [map determineLatestAndToDelete mbind outcome_bind] in HE.
  assert (Hok : forall x, x ∈ x0 :: l -> 0 <= x.1 < 2 ^ 64 /\ ev_ok x.2) by (intros x Hx; eapply stored_ok; [done|by apply Hl]).
  destruct (determine_latest_spec l x0 []) as (x & del & HD & HP & HB); [|by intros y Hy%elem_of_nil|].
  { apply Forall_forall. intros x Hx. apply Hok in Hx as [_ (_ & Hx & _)]. done. }
  cbn [map app] in HD, HP. rewrite HD in HE. inv_ok. rename a into tx1. exists x, del. split; [done|]. split; [done|].
  rewrite map_map in E. change (map (fun y => Evsid (as_potential y)) del) with del.*1 in E.
  assert (Hin : forall y, y ∈ x :: del -> y ∈ x0 :: l) by (intros y; by rewrite HP).
  apply (deleteAll_spec BL mit) with (S := S) in E as [HR1 Hs1]; [|done|].
  2:{ apply Forall_forall. intros i Hi. apply list_elem_of_fmap in Hi as (y & -> & Hy). apply Hok, Hin. by right. }
  fold (without del.*1 S) in HR1. destruct (Hok x (Hin x ltac:(by left))) as [Hx (_ & Hxi & _)].
  assert (Hdel : forall tx2, deleteByEvsid mit tx1 x.1 = Ok tx2 -> represents mit tx2 (without (x0 :: l).*1 S) /\ seq_of tx2 = seq_of tx).
  { intros tx2 H2. apply (deleteByEvsid_spec BL mit) with (S := without del.*1 S) in H2 as [H2 Hs2]; [|done|done]. split; [|lia].
    replace (without (x0 :: l).*1 S) with (delete x.1 (without del.*1 S)); [done|]. apply map_eq. intros i. apply option_eq. intros e.
    rewrite lookup_delete_Some, !without_lookup. assert (HP1 : (x0 :: l).*1 ≡ₚ x.1 :: del.*1) by (by rewrite <- HP).
    rewrite HP1, not_elem_of_cons. naive_solver. }
  assert (Hins : forall tx2, deleteByEvsid mit tx1 x.1 = Ok tx2 -> insertWithIndexes mit tx2 ev = Ok tx' ->
    represents mit tx' (<[seq_of tx + 1 := ev]> (without (x0 :: l).*1 S)) /\ seq_of tx' = seq_of tx + 1).
  { intros tx2 H2 H3. apply Hdel in H2 as [H2 Hs2].
    apply (insertWithIndexes_spec BL mit) with (S := without (x0 :: l).*1 S) in H3 as [H3 Hs3]; [|done|done|lia].
    rewrite Hs2 in H3. split; [done|lia]. }
  unfold insertOrReplaceEvent in HE. cbn [as_potential PCreatedAt EventID Evsid] in HE.
  unfold beats. destruct (CreatedAt x.2 <? CreatedAt ev); cbn [orb].
  { inv_ok. by eapply Hins. }
  destruct (CreatedAt ev =? CreatedAt x.2); cbn [andb]; [|injection HE as <-; split; [done|lia]].
  rewrite compareKeys_Ok in HE by (done || apply HO). cbn [mbind outcome_bind] in HE.
  destruct (Cmp.ltb _ _); [inv_ok; by eapply Hins|]. injection HE as <-. split; [done|lia].
Qed.

Lemma insertReplaceable_evolves tx S ev l tx' :
  represents mit tx S -> ev_ok ev -> seq_of tx + 1 < 2 ^ 64 - 1 -> (forall x, x ∈ l -> S !! x.1 = Some x.2) ->
  insertReplaceableEvent mit tx ev (map as_potential l) = Ok tx' ->
  exists S', represents mit tx' S' /\ evolves S S' (seq_of tx + 1) ev /\ seq_of tx <= seq_of tx' <= seq_of tx + 1.
Proof.
  intros HR HO Hseq Hl HE. apply (insertReplaceable_spec tx S) in HE; [|done..].
  destruct l as [|x0 l].
  - destruct HE as [HE ->]. eexists. split; [done|]. split; [auto with nmilat|lia].
  - destruct HE as (x & del & _ & _ & HE). destruct (beats ev x.2); destruct HE as [HE ->];
      (eexists; split; [done|]; split; [auto with nmilat|lia]).
Qed.

(** ** Deletion requests *)

(** What a request may delete: its author's events, no deletion request, and only
    the kinds it names if it names any. *)
Definition may_delete (del : Event) (kinds : gset Z) (e : Event) : bool :=
  (bool_decide (kinds = ∅) || bool_decide (Kind e ∈ kinds)) && bool_decide (PubKey del = PubKey e) &&
  negb (IsDeletionKind (Kind e)).

Lemma deleteAllRestricted_spec pes del kinds tx S tx' :
  represents mit tx S -> Forall (fun pe => 0 <= Evsid pe < 2 ^ 64) pes -> deleteAllRestricted mit tx del pes kinds = Ok tx' ->
  exists S', represents mit tx' S' /\ seq_of tx' = seq_of tx /\
  forall id e, S' !! id = Some e <-> S !! id = Some e /\ ~ (id ∈ map Evsid pes /\ may_delete del kinds e = true).
Proof.
  revert tx S. induction pes as [|pe pes IH]; intros tx S HR HF; cbn [deleteAllRestricted map].
  { intros [= <-]. exists S. split_and!; [done|done|]. intros id e. rewrite elem_of_nil. tauto. }
  inversion HF as [|? ? Hpe HF']; subst. rewrite (findEventUsingTx_spec BL mit tx S) by done.
  destruct (S !! Evsid pe) as [ev|] eqn:ES; last first.
  { intros HE. destruct (IH tx S HR HF' HE) as (S' & HR' & Hs & HS'). exists S'. split_and!; [done|done|].
    intros id e. rewrite HS', elem_of_cons. naive_solver congruence. }
  assert (HK : (if may_delete del kinds ev then tx1 ← delete_event mit tx (Evsid pe) ev; deleteAllRestricted mit tx1 del pes kinds
      else deleteAllRestricted mit tx del pes kinds) = Ok tx' ->
    exists S', represents mit tx' S' /\ seq_of tx' = seq_of tx /\
    forall id e, S' !! id = Some e <-> S !! id = Some e /\ ~ (id ∈ Evsid pe :: map Evsid pes /\ may_delete del kinds e = true)).
  { destruct (may_delete del kinds ev) eqn:EM; intros HE.
    - inv_ok. apply (delete_event_spec BL mit) with (S := S) in E as [HR1 Hs1]; [|done|done].
      destruct (IH _ _ HR1 HF' HE) as (S' & HR' & Hs & HS'). exists S'. split_and!; [done|lia|].
      intros id e. rewrite HS', lookup_delete_Some, elem_of_cons. naive_solver congruence.
    - destruct (IH _ _ HR HF' HE) as (S' & HR' & Hs & HS'). exists S'. split_and!; [done|lia|].
      intros id e. rewrite HS', elem_of_cons. naive_solver congruence. }
  intros HE. apply HK. revert HE. unfold may_delete.
  destruct (bool_decide (kinds = ∅)), (bool_decide (Kind ev ∈ kinds)), (bool_decide (PubKey del = PubKey ev)), (IsDeletionKind (Kind ev)); done.
Qed.

(** The numbers of the events with the given ids. *)
Lemma id_range_short tx S p idOf : store_inv mit tx S -> length p = 32%nat ->
  (length (rest (bucket tx indexID) (mkCur (prefix_cursor p 48 idOf) None false)) <= 1)%nat.
Proof.
  intros [HR HU HT _] HL. assert (Ht : forall id ev, S !! id = Some ev -> CreatedAt ev < 2 ^ 64 - 1) by (intros ? ? H; apply HT in H; lia).
  pose proof (prefix_good BL mit tx S HR Ht indexID p 48 idOf ltac:(done) (owns_ID BL mit tx S HR Ht p HL) ltac:(lia)) as HG.
  unfold rest, start. cbn [exhausted resume cursor]. set (l := range _ _).
  assert (Hall : forall x y, x ∈ l -> y ∈ l -> x = y).
  { assert (Hl : forall x, x ∈ l -> exists id ev, S !! id = Some ev /\ key_bytes (ID ev) = p /\ x = (p ++ itob (CreatedAt ev) ++ itob id, itob (CreatedAt ev))).
    { intros [k v] Hx. apply (range_walk BL mit tx S HR indexID ltac:(done)) in Hx as (Hk & Hm & _); [|done]. cbn [fst snd] in *.
      destruct (id_sound BL mit tx S HR Ht p k v HL Hk Hm) as (id & ev & Hid & HE & ->). exists id, ev. split_and!; [done|done|].
      pose proof (id_present BL mit tx S HR Ht id ev Hid) as HP. rewrite HE in HP. congruence. }
    intros x y (i & e & Hi & He & ->)%Hl (j & e' & Hj & He' & ->)%Hl. assert (i = j) by (eapply HU; [exact Hi|exact Hj|congruence]).
    subst j. replace e' with e by congruence. done. }
  assert (HN : NoDup l).
  { unfold l. destruct (walk_spec BL (bucket tx indexID) (maxKey (prefix_cursor p 48 idOf))) as [_ HS]. apply sorted_NoDup in HS; [|done].
    clear -HS. induction (walk _ _) as [|x w IH]; [constructor|]. inversion HS as [|? ? Hx HS']; subst. cbn [range].
    destruct (matchKey _ _); [|constructor]. constructor; [|by apply IH]. intros Hin. by apply range_elem in Hin as [Hin _]. }
  destruct l as [|x [|y l]]; cbn; [lia|lia|]. exfalso. inversion HN as [|? ? Hx _]; subst. apply Hx.
  rewrite (Hall x y); [by left|by left|by right; left].
Qed.

Lemma collect_ids_spec tx S cs limit q Q :
  represents mit tx S -> 0 < limit -> heap q -> let ss := mkCtx indexID [] NewFilter ∅ 0 0 false in
  Forall (fun sc => good_cursor (bucket tx indexID) sc /\ (length (rest (bucket tx indexID) (mkCur sc None false)) <= 1)%nat) cs ->
  exists q' Q' seen, collect_ids tx cs limit (set_queue ss q Q) = Ok (set_queue ss q' Q') /\ absorbed ss ∅ seen q q' Q Q' /\
  forall e, e ∈ seen <-> e ∈ pending tx ss (initial cs).
Proof.
  intros HR Hlim Hq ss HF. revert q Q Hq. induction HF as [|sc cs [HG H1] HF IH]; intros q Q Hq; cbn [collect_ids].
  { exists q, Q, []. split; [done|]. split; [by apply absorbed_refl|]. done. }
  destruct (Collect_spec BL tx ss (mkCur sc None false) ∅ q Q limit) as (q1 & Q1 & res & seen & HEq & HC & HA & Hseen & Hcov & Hend);
    [split; [done|intros _; apply Cmp.ltb_irrefl]|done|done|done|]. cbn [cursor resume] in HEq. rewrite HEq. cbn [mbind outcome_bind fst cursor].
  destruct (IH q1 Q1 ltac:(apply HA)) as (q2 & Q2 & seen2 & -> & HA2 & Hs2). eexists q2, Q2, (seen ++ seen2). split; [done|].
  split; [by eapply absorbed_trans|]. intros e. cbn [initial map]. fold (initial cs). rewrite elem_of_app, pending_cons, Hs2 by done.
  cbn [ss index] in *. split; [intros [He|He]; [left; by apply Hseen|by right]|]. intros [He|He]; [|by right]. left.
  destruct (Hcov e He) as [?|[He'|?]]; [done| |done]. exfalso. cbn [cursor] in He', Hend. destruct (Exhausted res) eqn:EX.
  - unfold rest in He'. cbn [exhausted] in He'. by apply elem_of_nil in He'.
  - destruct (Hend eq_refl) as (_ & Hlt & _). destruct (rest _ (mkCur sc (ResumeKey res) false)) as [|? ?]; [by apply elem_of_nil in He'|].
    cbn [length] in Hlt. lia.
Qed.

Lemma findByIDs_spec tx S ids : store_inv mit tx S -> Forall hex32_ok ids ->
  exists pes, findEventEvsidByEventID tx ids = Ok pes /\ Forall (fun pe => 0 <= Evsid pe < 2 ^ 64) pes /\
  forall id, id ∈ map Evsid pes <-> exists ev, S !! id = Some ev /\ key_bytes (ID ev) ∈ map key_bytes ids.
Proof.
  intros HI HF. pose proof HI as [HR HU HT _].
  assert (Ht : forall id ev, S !! id = Some ev -> CreatedAt ev < 2 ^ 64 - 1) by (intros ? ? H; apply HT in H; lia).
  unfold findEventEvsidByEventID. rewrite byID_Ok by done. cbn [mbind outcome_bind].
  set (cs := map _ ids). set (ss := mkCtx indexID [] NewFilter ∅ 0 0 false).
  assert (HC : Forall (fun sc => good_cursor (bucket tx indexID) sc /\ (length (rest (bucket tx indexID) (mkCur sc None false)) <= 1)%nat) cs).
  { apply Forall_forall. intros sc Hsc. apply list_elem_of_fmap in Hsc as (s & -> & Hs). rewrite Forall_forall in HF.
    destruct (key_bytes_ok _ (HF s Hs)) as [_ HL]. split; [|by eapply id_range_short].
    apply (prefix_good BL mit tx S HR Ht); [done|by apply (owns_ID BL mit tx S HR Ht)|cbn; lia]. }
  assert (HX : exists q' Q' seen, collect_ids tx cs (zlen ids) ss = Ok (set_queue ss q' Q') /\ absorbed ss ∅ seen [] q' ∅ Q' /\
    forall e, e ∈ seen <-> e ∈ pending tx ss (initial cs)).
  { destruct ids as [|i ids].
    - exists [], ∅, []. split; [done|]. split; [apply absorbed_refl; intros i a b [_ Hi]; cbn in Hi; lia|done].
    - apply (collect_ids_spec tx S cs); [done|rewrite zlen_cons; pose proof (zlen_nonneg ids); lia|intros j a b [_ Hj]; cbn in Hj; lia|done]. }
  destruct HX as (q' & Q' & seen & -> & (_ & new & HP & _ & HQ & Hnew & Hall) & Hseen). cbn [mbind outcome_bind set_queue queueEvents].
  exists q'. split; [done|]. assert (HP' : map pair_of q' ≡ₚ new) by (by rewrite HP, app_nil_r).
  assert (Hids : forall id, id ∈ map Evsid q' <-> exists ev, S !! id = Some ev /\ key_bytes (ID ev) ∈ map key_bytes ids).
  { intros id. assert (HE : id ∈ map Evsid q' <-> exists e, e ∈ new /\ e.2 = id).
    { setoid_rewrite <- HP'. rewrite list_elem_of_fmap. split.
      - intros (pe & -> & Hpe). exists (pair_of pe). split; [|done]. apply list_elem_of_fmap. by exists pe.
      - intros (e & He & <-). apply list_elem_of_fmap in He as (pe & -> & Hpe). by exists pe. }
    assert (Hreach : forall ev, S !! id = Some ev -> reachable mit indexID cs id ev = true <-> key_bytes (ID ev) ∈ map key_bytes ids).
    { intros ev Hid. rewrite list_elem_of_fmap. split.
      - intros HRe. unfold reachable in HRe. apply existsb_exists in HRe as (sc & Hsc & HRe). apply existsb_exists in HRe as ([i k] & HK & HRe).
        apply list_elem_of_In, list_elem_of_fmap in Hsc as (s & -> & Hs). apply list_elem_of_In in HK. cbn [fst snd prefix_cursor matchKey] in HRe.
        apply andb_true_iff in HRe as [HRe _]. apply andb_true_iff in HRe as [Hi%bool_decide_eq_true Hp]. subst i.
        apply (stored_keys BL mit tx S HR Ht id ev) in HK; [|done]. subst k. exists s. split; [|done].
        rewrite Forall_forall in HF. destruct (key_bytes_ok _ (HF s Hs)) as [_ HL]. apply has_prefix_same in Hp; [done|].
        destruct (stored_lengths BL mit tx S HR Ht id ev Hid). lia.
      - intros (s & HE' & Hs). eapply (prefix_reach BL mit tx S HR Ht) with (p := key_bytes s); [done| |apply list_elem_of_fmap; by exists s].
        apply (stored_keys BL mit tx S HR Ht id ev); [done|]. by rewrite HE'. }
    rewrite HE. split.
    - intros (e & He & <-). apply Hnew in He as (He & _). apply Hseen in He.
      apply (pending_initial BL mit tx S HR indexID ltac:(done) ss) in He as (ev & Hid & _ & HRe); [|done|eapply Forall_impl; [exact HC|by intros ? []]].
      exists ev. split; [done|]. by apply Hreach.
    - intros (ev & Hid & Hk). apply Hreach in Hk; [|done].
      assert (Hp : (CreatedAt ev, id) ∈ pending tx ss (initial cs)).
      { apply (pending_initial BL mit tx S HR indexID ltac:(done) ss); [done|eapply Forall_impl; [exact HC|by intros ? []]|]. by exists ev. }
      apply Hseen in Hp. apply Hall in Hp; [|done|set_solver]. subst Q'. cbn [snd] in Hp. rewrite union_empty_r_L, elem_of_list_to_set in Hp.
      apply list_elem_of_fmap in Hp as (e & -> & He). by exists e. }
  split; [|exact Hids]. apply Forall_forall. intros pe Hpe.
  destruct (proj1 (Hids (Evsid pe)) ltac:(apply list_elem_of_fmap; by exists pe)) as (ev & Hid & _). by eapply stored_ok.
Qed.

Lemma coord_filter_ok until x ts : x ∈ a_coords ts ->
  elems (IDs (coord_filter until x)) = [] /\ Forall hex32_ok (elems (Authors (coord_filter until x))).
Proof.
  intros Hx. unfold a_coords in Hx. apply list_elem_of_omap in Hx as ([|n [|v t]] & _ & HE); [done|done|].
  destruct (decide _); [|done]. destruct (ParseATag v) as [[[kind pk] d]| |] eqn:EP; [|done|done]. injection HE as <-.
  apply ParseATag_kind in EP as [_ HP]. unfold coord_filter. cbn [fst snd]. destruct (IsReplaceableKind kind); cbn; (split; [done|by constructor]).
Qed.

(** One tag, by its name. *)
Lemma del_tag_eq tx until d n v t : del_tag MaxLimit tx until d (n :: v :: t) =
  if decide (n = bs "k") then
    Ok (match ValidateStrKind v with Ok kind => mkDel (eventsToDelete d) (eventsID d) ({[kind]} ∪ requestedKinds d) | _ => d end)
  else if decide (n = bs "e") then
    Ok (if is_ok (Validate32Key v) then mkDel (eventsToDelete d) (eventsID d ++ [v]) (requestedKinds d) else d)
  else if decide (n = bs "a") then
    match ParseATag v with
    | Ok x => pes ← findEvents MaxLimit tx (coord_filter until x);
              Ok (mkDel (eventsToDelete d ++ pes) (eventsID d) ({[x.1.1]} ∪ requestedKinds d))
    | _ => Ok d
    end
  else Ok d.
Proof.
  unfold del_tag. destruct n as [|c [|c' n]]; [by rewrite !decide_False by done| |by rewrite !decide_False by done].
  destruct (decide _); [by destruct (ValidateStrKind v)|]. destruct (decide _); [by destruct (Validate32Key v)|].
  destruct (decide _); [|done]. destruct (ParseATag v) as [[[kind pk] dv]| |] eqn:EP; [|done|done].
  apply ParseATag_kind in EP as [EK _]. unfold coord_filter, findReplaceableEvents, findParameterizedReplaceableEvents. cbn [fst snd].
  destruct (IsReplaceableKind kind); [done|]. cbn [orb] in EK. by rewrite EK.
Qed.

Lemma del_tags_spec tx until ts d :
  (forall x, x ∈ a_coords ts -> exists pes, findEvents MaxLimit tx (coord_filter until x) = Ok pes) ->
  exists d' founds, del_tags MaxLimit tx until d ts = Ok d' /\
    Forall2 (fun x pes => findEvents MaxLimit tx (coord_filter until x) = Ok pes) (a_coords ts) founds /\
    eventsToDelete d' = eventsToDelete d ++ concat founds /\ eventsID d' = eventsID d ++ e_ids ts /\
    requestedKinds d' = requestedKinds d ∪ (list_to_set (k_kinds ts) ∪ list_to_set (a_coords ts).*1.*1).
Proof.
  revert d. induction ts as [|t ts IH]; intros d HA; cbn [del_tags].
  { exists d, []. split_and!; [done|constructor|by rewrite app_nil_r..|]. cbn. set_solver. }
  destruct t as [|n [|v t]]; [by apply IH|by destruct n as [|? [|? ?]]; apply IH|]. rewrite del_tag_eq.
  unfold e_ids, a_coords, k_kinds in *. cbn [omap list_omap] in *. destruct (decide (n = bs "k")) as [->|H1].
  { rewrite !decide_False in * by done. cbn [mbind outcome_bind]. destruct (ValidateStrKind v) as [kind| |]; [|by apply IH|by apply IH].
    destruct (IH (mkDel (eventsToDelete d) (eventsID d) ({[kind]} ∪ requestedKinds d)) HA) as (d' & founds & HD & HF & HE1 & HE2 & HE3).
    exists d', founds. split_and!; [done..|]. rewrite HE3. cbn. by rewrite (union_comm_L {[kind]}), <- !union_assoc_L. }
  destruct (decide (n = bs "e")) as [->|H2].
  { rewrite !(decide_False (P := bs "e" = bs "a")) in * by done. cbn [mbind outcome_bind]. destruct (is_ok (Validate32Key v)); [|by apply IH].
    destruct (IH (mkDel (eventsToDelete d) (eventsID d ++ [v]) (requestedKinds d)) HA) as (d' & founds & HD & HF & HE1 & HE2 & HE3).
    exists d', founds. split_and!; [done..| |done]. rewrite HE2. cbn [eventsID]. by rewrite <- app_assoc. }
  destruct (decide (n = bs "a")) as [->|H3]; [|by apply IH].
  destruct (ParseATag v) as [x| |]; [|by apply IH|by apply IH].
  destruct (HA x ltac:(by left)) as (pes & HP). rewrite HP. cbn [mbind outcome_bind].
  destruct (IH (mkDel (eventsToDelete d ++ pes) (eventsID d) ({[x.1.1]} ∪ requestedKinds d))) as (d' & founds & HD & HF & HE1 & HE2 & HE3);
    [intros y Hy; apply HA; by right|]. exists d', (pes :: founds). split_and!; [done|by constructor| |done|].
  - rewrite HE1. cbn. by rewrite <- app_assoc.
  - rewrite HE3. cbn. rewrite (union_comm_L {[x.1.1]}), <- !union_assoc_L. f_equal. by rewrite !union_assoc_L, (union_comm_L {[x.1.1]}).
Qed.

(** ** Lookups the limit does not cut *)

Definition covered (S : gmap Z Event) (f : SubscriptionFilter) : Prop :=
  (forall id ev, S !! id = Some ev -> Match f ev = true -> tag_visible mit f ev) /\
  zlen (newest S (query_wants S f)) <= clamp (Limit f) filterMinLimit MaxLimit.

Lemma find_sound tx S f : store_inv mit tx S -> Forall hex32_ok (elems (IDs f)) -> Forall hex32_ok (elems (Authors f)) ->
  exists l, findEvents MaxLimit tx f = Ok (map as_potential l) /\
  (forall x, x ∈ l -> S !! x.1 = Some x.2 /\ Match f x.2 = true) /\
  (covered S f -> l = newest S (query_wants S f)).
Proof.
  intros [HR HU HT _] HI HA. destruct (findEvents_scan BL mit MaxLimit tx S HR HU HM HT f HI HA) as (ix & cs & HRe & HF). unfold answer_over in HF.
  set (l := take _ _) in HF. exists l. split; [done|]. split.
  - intros [id ev] Hx. unfold l in Hx. apply elem_of_take in Hx as (i & Hx & _). apply list_elem_of_lookup_2, newest_spec in Hx as [Hid Hw].
    unfold query_wants in Hw. bool_prop. done.
  - intros [Hv Hlen]. unfold l. rewrite (newest_ext S _ (query_wants S f)).
    + apply take_ge. unfold zlen in Hlen. lia.
    + intros id ev Hid. unfold query_wants. destruct (Match f ev) eqn:EM; [|by rewrite !andb_false_r].
      by rewrite (HRe id ev Hid EM (Hv id ev Hid EM)).
Qed.

Lemma coordinate_match pk kind since until ev : hex32_ok pk ->
  Match (replaceableFilter pk kind since until) ev = true <->
  PubKey ev = pk /\ Kind ev = kind /\ (since <> 0 -> since <= CreatedAt ev) /\ (until <> 0 -> CreatedAt ev <= until).
Proof.
  intros Hpk. rewrite Match_spec. cbn [replaceableFilter IDs Authors Kinds FTags Since Until Search].
  assert (HA : admits (Some [pk]) (PubKey ev) <-> PubKey ev = pk).
  { split; [|intros ->; exists pk; split; [by left|by left]]. intros HA. apply (admits_full (Some [pk])) in HA; [|by constructor|done].
    by apply list_elem_of_singleton in HA. }
  assert (HK : (forall kinds, Some [kind] = Some kinds -> Kind ev ∈ kinds) <-> Kind ev = kind).
  { split; [intros H; specialize (H _ eq_refl); by apply list_elem_of_singleton in H|]. intros <- ? [= <-]. by left. }
  rewrite HA, HK. split; [naive_solver|]. intros (H1 & H2 & H3 & H4). split_and!; try done.
Qed.

Lemma replaceable_covered tx S pk kind since until : store_inv mit tx S -> IsReplaceableKind kind = true -> hex32_ok pk ->
  covered S (replaceableFilter pk kind since until).
Proof.
  intros [HR HU HT HO] HK Hpk. split; [by intros ? ? _ _ ? ? Ht|].
  set (f := replaceableFilter _ _ _ _). destruct (newest_spec S (query_wants S f)) as (HN1 & HN2 & _).
  assert (Hle : (length (newest S (query_wants S f)) <= 1)%nat).
  { assert (Hall : forall x, x ∈ newest S (query_wants S f) -> S !! x.1 = Some x.2 /\ PubKey x.2 = pk /\ Kind x.2 = kind).
    { intros [id ev] Hx. apply HN1 in Hx as [Hid Hw]. unfold query_wants in Hw. bool_prop.
      match goal with H : Match _ _ = true |- _ => apply coordinate_match in H as (? & ? & _); [|done] end. done. }
    destruct (newest S (query_wants S f)) as [|x [|y l]]; cbn; [lia|lia|]. exfalso.
    destruct (Hall x ltac:(by left)) as (Hx & Hxp & Hxk). destruct (Hall y ltac:(by right; left)) as (Hy & Hyp & Hyk).
    cbn [fmap list_fmap] in HN2. inversion HN2 as [|? ? Hni _]; subst. apply Hni, elem_of_cons. left.
    apply (HO _ _ _ _ Hx Hy); congruence. }
  pose proof (clamp_pos (Limit f) MaxLimit HM) as HC. unfold zlen. cbn [Limit f replaceableFilter] in *. lia.
Qed.

Lemma coord_wants S until x ts id ev : x ∈ a_coords ts -> Match (coord_filter until x) ev = true ->
  query_wants S (coord_filter until x) id ev = true.
Proof.
  intros Hx HMt. assert (HK : Kind ev = x.1.1).
  { apply Match_spec in HMt as (_ & _ & HK & _). unfold coord_filter in HK.
    destruct (IsReplaceableKind x.1.1); specialize (HK _ eq_refl); by apply list_elem_of_singleton in HK. }
  unfold query_wants. rewrite HMt, HK. unfold a_coords in Hx. apply list_elem_of_omap in Hx as ([|n [|v t]] & _ & HE); [done|done|].
  destruct (decide _); [|done]. destruct (ParseATag v) as [[[kind pk] d]| |] eqn:EP; [|done|done]. injection HE as <-.
  apply ParseATag_kind in EP as [EK _]. cbn [fst snd] in *.
  assert (HB : BeforeID (coord_filter until (kind, pk, d)) = []) by (unfold coord_filter; cbn [fst snd]; by destruct (IsReplaceableKind kind)).
  rewrite HB. cbn. rewrite !andb_true_r. unfold IsReplaceableKind, IsParamReplaceableKind, IsEphemeralKind in *.
  apply negb_true_iff, andb_false_iff. rewrite Z.leb_gt, Z.ltb_ge. bool_prop. lia.
Qed.

(** Everything a deletion request looks up, and the kinds it may delete. *)
Lemma findEventsToDelete_spec tx S ts until : store_inv mit tx S ->
  exists pes, findEventsToDelete MaxLimit tx ts until = Ok (pes, del_kinds ts) /\
  Forall (fun pe => 0 <= Evsid pe < 2 ^ 64) pes /\
  (forall id, id ∈ map Evsid pes -> exists ev, S !! id = Some ev /\
     (key_bytes (ID ev) ∈ map key_bytes (e_ids ts) \/ exists x, x ∈ a_coords ts /\ Match (coord_filter until x) ev = true)) /\
  (forall id ev, S !! id = Some ev -> key_bytes (ID ev) ∈ map key_bytes (e_ids ts) -> id ∈ map Evsid pes) /\
  (forall id ev x, S !! id = Some ev -> x ∈ a_coords ts -> covered S (coord_filter until x) -> Match (coord_filter until x) ev = true ->
     id ∈ map Evsid pes).
Proof.
  intros HI. pose proof HI as [HR _ _ _].
  assert (HF : forall x, x ∈ a_coords ts -> exists l, findEvents MaxLimit tx (coord_filter until x) = Ok (map as_potential l) /\
    (forall y, y ∈ l -> S !! y.1 = Some y.2 /\ Match (coord_filter until x) y.2 = true) /\
    (covered S (coord_filter until x) -> l = newest S (query_wants S (coord_filter until x)))).
  { intros x Hx. destruct (coord_filter_ok until x ts Hx) as [E HA]. apply find_sound; [done|by rewrite E|done]. }
  destruct (del_tags_spec tx until ts (mkDel [] [] ∅)) as (d & founds & HD & HFo & HE1 & HE2 & HE3).
  { intros x Hx. destruct (HF x Hx) as (l & Hl & _). by eexists. }
  unfold findEventsToDelete. rewrite HD. cbn [mbind outcome_bind]. cbn [eventsToDelete eventsID requestedKinds app] in HE1, HE2, HE3.
  assert (HV : Forall hex32_ok (e_ids ts)).
  { apply Forall_forall. intros s Hs. unfold e_ids in Hs. apply list_elem_of_omap in Hs as ([|n [|v t]] & _ & HE); [done|done|].
    destruct (decide _); [|done]. destruct (Validate32Key v) as [[]| |] eqn:EV; [|done|done]. injection HE as <-. by apply Validate32Key_decodes in EV. }
  rewrite HE2. destruct (findByIDs_spec tx S (e_ids ts) HI HV) as (pes & -> & HPr & HPi). cbn [mbind outcome_bind app].
  assert (Hk : requestedKinds d ∖ {[5]} = del_kinds ts) by (unfold del_kinds; rewrite HE3; by rewrite union_empty_l_L).
  rewrite HE1, Hk. exists (concat founds ++ pes). split; [done|].
  assert (HA : forall id, id ∈ map Evsid (concat founds) -> exists x ev, x ∈ a_coords ts /\ S !! id = Some ev /\ Match (coord_filter until x) ev = true).
  { intros id Hid. apply list_elem_of_fmap in Hid as (pe & -> & Hpe). apply list_elem_of_In, in_concat in Hpe as (l & Hl & Hpe).
    apply list_elem_of_In, list_elem_of_lookup in Hl as (i & Hl). destruct (Forall2_lookup_r _ _ _ _ _ HFo Hl) as (x & Hx & HL).
    apply list_elem_of_lookup_2 in Hx. destruct (HF x Hx) as (l' & Hl' & Hsound & _). rewrite Hl' in HL. injection HL as <-.
    apply list_elem_of_In, list_elem_of_fmap in Hpe as (y & -> & Hy). destruct (Hsound y Hy). by exists x, y.2. }
  split_and!.
  - apply Forall_app. split; [|done]. apply Forall_forall. intros pe Hpe.
    destruct (HA (Evsid pe)) as (x & ev & _ & Hid & _); [apply list_elem_of_fmap; by exists pe|]. by eapply stored_ok.
  - intros id. rewrite map_app, elem_of_app. intros [Hid|Hid].
    + apply HA in Hid as (x & ev & Hx & Hid & HMt). exists ev. split; [done|]. right. by exists x.
    + apply HPi in Hid as (ev & Hid & He). exists ev. split; [done|by left].
  - intros id ev Hid He. rewrite map_app, elem_of_app. right. apply HPi. by exists ev.
  - intros id ev x Hid Hx HC HMt. rewrite map_app, elem_of_app. left. destruct (HF x Hx) as (l & Hl & _ & Hcov). specialize (Hcov HC). subst l.
    apply list_elem_of_lookup in Hx as (i & Hx). destruct (Forall2_lookup_l _ _ _ _ _ HFo Hx) as (l & Hil & HL).
    rewrite Hl in HL. injection HL as <-. apply list_elem_of_fmap. exists (as_potential (id, ev)). split; [done|].
    apply list_elem_of_In, in_concat. exists (map as_potential (newest S (query_wants S (coord_filter until x)))).
    split; [apply list_elem_of_In; by eapply list_elem_of_lookup_2|]. apply list_elem_of_In, list_elem_of_fmap. exists (id, ev). split; [done|].
    apply newest_spec. split; [done|]. apply coord_wants with ts; [by eapply list_elem_of_lookup_2|done].
Qed.

(** ** The invariant kept *)

Definition fresh (S : gmap Z Event) (ev : Event) : Prop := forall id e, S !! id = Some e -> key_bytes (ID e) <> key_bytes (ID ev).

Lemma evolves_inv tx S tx' S' n ev :
  store_inv mit tx S -> represents mit tx' S' -> evolves S S' n ev -> admissible ev -> fresh S ev ->
  (IsReplaceableKind (Kind ev) = true -> S' !! n = Some ev ->
     forall i e, S' !! i = Some e -> Kind e = Kind ev -> PubKey e = PubKey ev -> i = n) ->
  store_inv mit tx' S'.
Proof.
  intros [HR HU HT HO] HR' HE [_ Ha] Hf Hv. split; [done| | |].
  - intros i j e e' Hi Hj HK. destruct (HE _ _ Hi) as [Hi'|[-> ->]], (HE _ _ Hj) as [Hj'|[-> ->]].
    + by eapply HU.
    + by destruct (Hf _ _ Hi').
    + by destruct (Hf _ _ Hj').
    + done.
  - intros id e Hid. destruct (HE _ _ Hid) as [Hid'|[_ ->]]; [by eapply HT|done].
  - intros i j e e' Hi Hj Hr HK HP. destruct (HE _ _ Hi) as [Hi'|[-> ->]], (HE _ _ Hj) as [Hj'|[-> ->]].
    + by eapply HO.
    + apply (Hv ltac:(congruence) Hj _ _ Hi); congruence.
    + symmetry. apply (Hv Hr Hi _ _ Hj); congruence.
    + done.
Qed.

Lemma insertWithIndexes_inv tx S ev tx' :
  store_inv mit tx S -> admissible ev -> fresh S ev -> seq_of tx + 1 < 2 ^ 64 - 1 -> IsReplaceableKind (Kind ev) = false ->
  insertWithIndexes mit tx ev = Ok tx' ->
  store_inv mit tx' (<[seq_of tx + 1 := ev]> S) /\ seq_of tx' = seq_of tx + 1.
Proof.
  intros HI Ha Hf Hs Hk HE. destruct (insertWithIndexes_spec BL mit tx S ev tx') as [HR' Hs']; [apply HI|apply Ha|done|done|].
  split; [|done]. eapply evolves_inv; [exact HI|done|auto with nmilat|done|done|by rewrite Hk].
Qed.

(** ** Replaceable events *)

Definition same_coordinate (ev e : Event) : bool := (Kind e =? Kind ev) && bool_decide (PubKey e = PubKey ev).

(** The stored version of a replaceable event. *)
Definition current_version (S : gmap Z Event) (ev : Event) : option (Z * Event) :=
  head (newest S (fun _ e => same_coordinate ev e)).

Lemma replaceable_lookup tx S ev : store_inv mit tx S -> hex32_ok (PubKey ev) -> IsReplaceableKind (Kind ev) = true ->
  findReplaceableEvents MaxLimit tx (PubKey ev) (Kind ev) 0 0 = Ok (map as_potential (option_list (current_version S ev))) /\
  match current_version S ev with
  | None => forall i e, S !! i = Some e -> same_coordinate ev e = false
  | Some x => S !! x.1 = Some x.2 /\ forall i e, S !! i = Some e -> same_coordinate ev e = true -> i = x.1
  end.
Proof.
  intros HI Hpk HK. unfold findReplaceableEvents. set (f := replaceableFilter _ _ _ _).
  destruct (find_sound tx S f) as (l & -> & _ & Hcov); [done|constructor|by constructor|].
  rewrite (Hcov (replaceable_covered tx S _ _ 0 0 HI HK Hpk)). clear Hcov l.
  assert (HN : newest S (query_wants S f) = newest S (fun _ e => same_coordinate ev e)).
  { apply newest_ext. intros id e _. apply eq_true_iff_eq. unfold query_wants, same_coordinate, f.
    change (stored_id S (BeforeID _)) with (@None Z). rewrite !andb_true_iff, coordinate_match, Z.eqb_eq, bool_decide_eq_true, negb_true_iff by done.
    split; [naive_solver|]. intros [H1 H2]. split_and!; try done; try lia. unfold IsReplaceableKind, IsEphemeralKind in *.
    apply andb_false_iff. rewrite Z.leb_gt, Z.ltb_ge. bool_prop. lia. }
  rewrite HN. clear HN. unfold current_version. destruct (newest_spec S (fun _ e => same_coordinate ev e)) as (H1 & H2 & _).
  destruct HI as [_ _ _ HO]. destruct (newest S _) as [|x l] eqn:EN.
  { split; [done|]. cbn. intros i e Hi. destruct (same_coordinate ev e) eqn:E; [|done]. by destruct (proj1 (elem_of_nil (i, e)) (proj2 (H1 i e) (conj Hi E))). }
  destruct (proj1 (H1 x.1 x.2)) as [Hx Hc]; [destruct x; by left|].
  assert (Hu : forall i e, S !! i = Some e -> same_coordinate ev e = true -> i = x.1).
  { intros i e Hi Hc'. unfold same_coordinate in *. bool_prop. apply (HO _ _ _ _ Hi Hx); congruence. }
  destruct l as [|y l]; [done|]. exfalso. destruct (proj1 (H1 y.1 y.2)) as [Hy Hcy]; [destruct y; by right; left|].
  cbn [fmap list_fmap] in H2. inversion H2 as [|? ? Hni _]; subst. apply Hni, elem_of_cons. left. symmetry. by eapply Hu.
Qed.

(** What storing a replaceable event does to the abstract store. *)
Definition replace (S : gmap Z Event) (n : Z) (ev : Event) : gmap Z Event :=
  match current_version S ev with
  | None => <[n := ev]> S
  | Some x => if beats ev x.2 then <[n := ev]> (delete x.1 S) else S
  end.

Lemma insert_replaceable_spec tx S ev tx' :
  store_inv mit tx S -> admissible ev -> fresh S ev -> seq_of tx + 1 < 2 ^ 64 - 1 -> IsReplaceableKind (Kind ev) = true ->
  insert mit MaxLimit tx ev = Ok tx' ->
  store_inv mit tx' (replace S (seq_of tx + 1) ev) /\ seq_of tx <= seq_of tx' <= seq_of tx + 1.
Proof.
  intros HI Ha Hf Hs HK HE. pose proof HI as [HR HU HT HO]. pose proof Ha as [(Hpk & _) _].
  destruct (kind_classes _ HK) as (K1 & K2 & K3). unfold insert in HE. rewrite K1, K2, K3, HK in HE.
  destruct (replaceable_lookup tx S ev HI Hpk HK) as [HF Hcv]. rewrite HF in HE. cbn [mbind outcome_bind] in HE.
  apply (insertReplaceable_spec tx S) in HE; [|done|apply Ha|done|].
  2:{ intros x Hx. destruct (current_version S ev) as [y|]; [|by apply elem_of_nil in Hx]. apply list_elem_of_singleton in Hx as ->. apply Hcv. }
  unfold replace. destruct (current_version S ev) as [x|]; cbn [option_list] in HE.
  - destruct Hcv as [Hx Hu]. destruct HE as (y & del & HP & _ & HE).
    assert (y = x /\ del = []) as [-> ->] by (apply Permutation_singleton_r in HP; naive_solver).
    destruct (beats ev x.2); destruct HE as [HR' Hs'].
    + assert (HEq : without [x].*1 S = delete x.1 S).
      { apply map_eq. intros i. apply option_eq. intros e. rewrite without_lookup, lookup_delete_Some. cbn. rewrite list_elem_of_singleton. naive_solver. }
      change (represents mit tx' (<[seq_of tx + 1:=ev]> (without [x].*1 S))) in HR'. rewrite HEq in HR'. split; [|lia]. eapply evolves_inv; [exact HI|done| |done|done|].
      * auto with nmilat.
      * intros _ _ i e. rewrite lookup_insert_Some, lookup_delete_Some. intros [[<- _]|(_ & Hne & Hi)] Hk Hp; [done|].
        destruct Hne. symmetry. apply (Hu i e Hi). unfold same_coordinate. rewrite Hk, Hp, Z.eqb_refl. by apply bool_decide_eq_true.
    + assert (HEq : without (@nil (Z * Event)).*1 S = S).
      { apply map_eq. intros i. apply option_eq. intros e. rewrite without_lookup. cbn. rewrite elem_of_nil. naive_solver. }
      change (represents mit tx' (without (@nil (Z * Event)).*1 S)) in HR'. rewrite HEq in HR'. split; [|lia]. by split.
  - destruct HE as [HR' Hs']. split; [|lia]. eapply evolves_inv; [exact HI|done| |done|done|].
    + auto with nmilat.
    + intros _ _ i e. rewrite lookup_insert_Some. intros [[<- _]|(_ & Hi)] Hk Hp; [done|].
      specialize (Hcv i e Hi). unfold same_coordinate in Hcv. rewrite Hk, Hp, Z.eqb_refl, bool_decide_true in Hcv by done. done.
Qed.

End Life.
