(* ===== verification/StoreBatch.v ===== *)
(** * relay/store.go: events, tasks and batches

    The whole write path against the abstract store: every handler keeps the
    invariant, a deletion request removes what it may and nothing else, a batch
    is the sequence of its tasks. *)

From S2P Require Import Prelude GoLib GoHeap Bolt Sha256 NostrUtils Pow Event Filter Latest StoreDb StoreInv StoreScan StoreMerge StoreExact StoreQuery StoreEvents StoreLife.

Section Sequence.
Context {Bolt0 : Bolt} {JSON0 : EventJSON} {Derived0 : Derived} {GoLower0 : GoLower} (mit MaxLimit : Z).

(** A batch that goes through is its tasks one by one. *)
Lemma applyTasks_retry tx tasks r : applyTasks mit MaxLimit tx tasks = Ok r -> retryTasks mit MaxLimit tx tasks = Ok r.
Proof.
  revert tx r. induction tasks as [|task tasks IH]; intros tx r; cbn [applyTasks retryTasks]; [done|].
  intros HE. inv_ok. destruct a as [tx1 te]. inv_ok. destruct a as [tx2 errs]. rewrite E. rewrite (IH _ _ E0). exact HE.
Qed.

Lemma applyTasks_panic tx tasks : applyTasks mit MaxLimit tx tasks = Panic -> retryTasks mit MaxLimit tx tasks = Panic.
Proof.
  revert tx. induction tasks as [|task tasks IH]; intros tx; cbn [applyTasks retryTasks]; [done|].
  destruct (applyTask mit MaxLimit tx task) as [[tx1 te]|e|]; cbn [mbind outcome_bind]; [|done|done].
  specialize (IH tx1). destruct (applyTasks mit MaxLimit tx1 tasks) as [[tx2 errs]|e|]; cbn [mbind outcome_bind]; [done|done|].
  intros _. by rewrite IH.
Qed.

Lemma ExecuteBatch_retry tx tasks : ExecuteBatch mit MaxLimit tx tasks = retryTasks mit MaxLimit tx tasks.
Proof.
  unfold ExecuteBatch. destruct (applyTasks mit MaxLimit tx tasks) as [r|e|] eqn:E.
  - symmetry. by apply applyTasks_retry.
  - destruct tasks as [|t [|t' tasks]]; [done| |done]. revert E. cbn [applyTasks retryTasks].
    destruct (applyTask mit MaxLimit tx t) as [[tx1 te]|e'|]; cbn [mbind outcome_bind]; [done|by intros [= ->]|done].
  - symmetry. by apply applyTasks_panic.
Qed.

(** The tasks in two runs. *)
Lemma retryTasks_app tx tx1 l1 l2 e1 : retryTasks mit MaxLimit tx l1 = Ok (tx1, e1) ->
  retryTasks mit MaxLimit tx (l1 ++ l2) = (r ← retryTasks mit MaxLimit tx1 l2; Ok (r.1, e1 ++ r.2)).
Proof.
  revert tx e1. induction l1 as [|t l1 IH]; intros tx e1; cbn [retryTasks app].
  { intros [= <- <-]. by destruct (retryTasks mit MaxLimit tx l2) as [[? ?]|?|]. }
  destruct (applyTask mit MaxLimit tx t) as [[tx2 te]|e|]; [| |done]; intros HE; inv_ok; destruct a as [tx3 errs]; injection HE as <- <-;
    rewrite (IH _ _ E); by destruct (retryTasks mit MaxLimit tx3 l2) as [[? ?]|?|].
Qed.

End Sequence.

Section Batch.
Context {Bolt0 : Bolt} {JSON0 : EventJSON} {Derived0 : Derived} {GoLower0 : GoLower}.
Context (BL : BoltLaws) (mit MaxLimit : Z) (HM : 0 < MaxLimit).
#[local] Set Default Proof Using "All".

(** ** Deletion requests *)

(** A request names an event by id, or by a coordinate it is not newer than. *)
Definition named (ev e : Event) : Prop :=
  key_bytes (ID e) ∈ map key_bytes (e_ids (Tags ev)) \/
  exists x, x ∈ a_coords (Tags ev) /\ Match (coord_filter (CreatedAt ev) x) e = true.

(** It names it by an id, or by a coordinate the lookup covers. *)
Definition surely_named (S : gmap Z Event) (ev e : Event) : Prop :=
  key_bytes (ID e) ∈ map key_bytes (e_ids (Tags ev)) \/
  exists x, x ∈ a_coords (Tags ev) /\ covered mit MaxLimit S (coord_filter (CreatedAt ev) x) /\
    Match (coord_filter (CreatedAt ev) x) e = true.

Record deletes (S S' : gmap Z Event) (n : Z) (ev : Event) : Prop := {
  dl_new : S' !! n = Some ev;
  dl_old : forall id e, S' !! id = Some e -> S !! id = Some e \/ (id = n /\ e = ev);
  dl_only : forall id e, S !! id = Some e -> S' !! id <> Some e -> may_delete ev (del_kinds (Tags ev)) e = true /\ named ev e;
  dl_all : forall id e, S !! id = Some e -> may_delete ev (del_kinds (Tags ev)) e = true -> surely_named S ev e -> S' !! id = None;
}.

Lemma insert_deletion_spec tx S ev tx' :
  store_inv mit tx S -> admissible ev -> fresh S ev -> seq_of tx + 1 < 2 ^ 64 - 1 -> IsDeletionKind (Kind ev) = true ->
  insert mit MaxLimit tx ev = Ok tx' ->
  exists S', store_inv mit tx' S' /\ seq_of tx' = seq_of tx + 1 /\ deletes S S' (seq_of tx + 1) ev.
Proof.
  intros HI Ha Hf Hs HK HE. pose proof HI as [HR HU HT HO]. unfold insert in HE. rewrite HK in HE.
  destruct (findEventsToDelete_spec BL mit MaxLimit HM tx S (Tags ev) (CreatedAt ev) HI) as (pes & HP & HPr & Hsound & Hids & Hcoord).
  rewrite HP in HE. cbn [mbind outcome_bind] in HE. inv_ok.
  apply (deleteAllRestricted_spec BL mit MaxLimit HM) with (S := S) in E as (S1 & HR1 & Hs1 & HS1); [|done|done].
  destruct (insertWithIndexes_spec BL mit a S1 ev tx') as [HR2 Hs2]; [done|apply Ha|lia|done|]. rewrite Hs1 in HR2, Hs2.
  assert (Hnew : forall id e, S !! id = Some e -> id <> seq_of tx + 1).
  { intros id e Hid. apply (rep_ids _ _ _ HR) in Hid as [? _]. lia. }
  assert (Hold : forall id e, (<[seq_of tx + 1 := ev]> S1) !! id = Some e -> S !! id = Some e \/ (id = seq_of tx + 1 /\ e = ev)).
  { intros id e. rewrite lookup_insert_Some, HS1. naive_solver. }
  exists (<[seq_of tx + 1 := ev]> S1). split_and!; [|done|].
  - eapply evolves_inv; [done|done|exact HI|done|exact Hold|done|done|]. intros Hr. destruct (kind_classes _ Hr) as [Hd _]. congruence.
  - split; [by rewrite lookup_insert_eq|exact Hold| |].
    + intros id e Hid Hgone. rewrite lookup_insert_ne in Hgone by (symmetry; by eapply Hnew).
      destruct (decide (id ∈ map Evsid pes /\ may_delete ev (del_kinds (Tags ev)) e = true)) as [[Hin Hmd]|Hn]; last first.
      { destruct Hgone. apply HS1. done. }
      split; [done|]. apply Hsound in Hin as (e' & Hid' & Hnm). replace e' with e in Hnm by congruence. exact Hnm.
    + intros id e Hid Hmd Hnm. rewrite lookup_insert_ne by (symmetry; by eapply Hnew).
      destruct (S1 !! id) as [e'|] eqn:E1; [|done]. apply HS1 in E1 as [Hid' Hno]. replace e' with e in * by congruence.
      destruct Hno. split; [|done]. destruct Hnm as [Hnm|(x & Hx & Hc & Hm)]; [by eapply Hids|by eapply Hcoord].
Qed.

(** ** Every event *)

(** An event that is no version of another is stored, next to what was stored
    unless it is a deletion request. *)
Definition kept (S S' : gmap Z Event) (n : Z) (ev : Event) : Prop :=
  IsReplaceableKind (Kind ev) = false -> IsParamReplaceableKind (Kind ev) = false ->
  S' !! n = Some ev /\ (IsDeletionKind (Kind ev) = false -> S' = <[n := ev]> S).

Lemma insert_inv tx S ev tx' :
  store_inv mit tx S -> admissible ev -> fresh S ev -> seq_of tx + 1 < 2 ^ 64 - 1 -> insert mit MaxLimit tx ev = Ok tx' ->
  exists S', store_inv mit tx' S' /\ evolves S S' (seq_of tx + 1) ev /\ kept S S' (seq_of tx + 1) ev /\ seq_of tx <= seq_of tx' <= seq_of tx + 1.
Proof.
  intros HI Ha Hf Hs HE. unfold kept. destruct (IsDeletionKind (Kind ev)) eqn:K1.
  { destruct (insert_deletion_spec tx S ev tx') as (S' & HI' & Hs' & HD); [done..|]. exists S'. split; [done|].
    split; [exact (dl_old _ _ _ _ HD)|]. split; [intros _ _; split; [exact (dl_new _ _ _ _ HD)|done]|lia]. }
  destruct (IsReplaceableKind (Kind ev)) eqn:K4.
  { destruct (insert_replaceable_spec BL mit MaxLimit HM tx S ev tx') as [HI' Hs']; [done..|]. eexists. split; [done|]. split; [|split; [done|lia]].
    unfold replace. destruct (current_version S ev) as [x|]; [destruct (beats ev x.2)|]; auto with nmilat. }
  unfold insert in HE. rewrite K1, K4 in HE.
  destruct (IsEphemeralKind (Kind ev) || negb (IsParamReplaceableKind (Kind ev))) eqn:K2.
  { assert (HE' : insertWithIndexes mit tx ev = Ok tx') by (destruct (IsEphemeralKind (Kind ev)); [done|]; by destruct (IsParamReplaceableKind (Kind ev))).
    destruct (insertWithIndexes_inv BL mit MaxLimit HM tx S ev tx') as [HI' Hs']; [done..|]. eexists. split; [done|].
    split; [auto with nmilat|]. split; [intros _ _; split; [apply lookup_insert_eq|done]|lia]. }
  apply orb_false_iff in K2 as [K2 K3%negb_false_iff]. rewrite K2, K3 in HE. inv_ok.
  destruct (find_sound BL mit MaxLimit HM tx S (paramFilter (PubKey ev) (Kind ev) a 0 0)) as (l & Hl & Hsound & _);
    [done|constructor|constructor; [apply Ha|constructor]|].
  unfold findParameterizedReplaceableEvents in E0. rewrite Hl in E0. injection E0 as <-.
  destruct (insertReplaceable_evolves BL mit MaxLimit HM tx S ev l tx') as (S' & HR' & HEv & Hs'); [apply HI|apply Ha|done|by intros x Hx; apply Hsound|done|].
  exists S'. split; [|split; [done|split; [congruence|done]]]. eapply evolves_inv; [done|done|exact HI|done|exact HEv|done|done|]. by rewrite K4.
Qed.

(** ** Tasks *)

(** What tasks carry: events the store can take, arrival numbers. *)
Definition task_ok (t : Task) : Prop :=
  match t with
  | EventInsertTask events => Forall admissible events
  | EventDeleteTask ids => Forall (fun id => 0 <= id < 2 ^ 64) ids
  | UnknownTask => True
  end.

Definition task_events (t : Task) : list Event := match t with EventInsertTask events => events | _ => [] end.

(** The store after some tasks: its events were there or came with a task, and
    arrival numbers only grow. *)
Definition grown (S S' : gmap Z Event) (evs : list Event) : Prop :=
  forall id e, S' !! id = Some e -> S !! id = Some e \/ e ∈ evs.

Lemma apply_events_inv evs tx S te tx' te' :
  store_inv mit tx S -> Forall admissible evs -> seq_of tx + zlen evs < 2 ^ 64 - 1 ->
  apply_events mit MaxLimit tx te evs = Ok (tx', te') ->
  exists S', store_inv mit tx' S' /\ grown S S' evs /\ seq_of tx <= seq_of tx' <= seq_of tx + zlen evs.
Proof.
  revert tx S te. induction evs as [|ev evs IH]; intros tx S te HI HF Hs; cbn [apply_events].
  { intros [= <- <-]. exists S. rewrite zlen_nil. split; [done|]. split; [by left|lia]. }
  inversion HF as [|? ? Ha HF']; subst. rewrite zlen_cons in *. pose proof (zlen_nonneg evs). pose proof HI as [HR HU HT _].
  destruct (duplication_spec BL mit tx S HR (times_below BL mit MaxLimit tx S HR HU HM HT) ev ltac:(apply Ha)) as [[-> _]|[-> Hfr]].
  - intros HE. destruct (IH tx S _ HI HF' ltac:(lia) HE) as (S' & HI' & HG & Hs'). exists S'. split; [done|]. split; [|lia].
    intros id e He. apply HG in He. set_solver.
  - intros HE. inv_ok. destruct (insert_inv tx S ev a) as (S1 & HI1 & HE1 & Hs1); [done|done|done|lia|done|].
    destruct (IH a S1 _ HI1 HF' ltac:(lia) HE) as (S' & HI' & HG & Hs'). exists S'. split; [done|]. split; [|lia].
    intros id e He. destruct (HG id e He) as [He'|He']; [|right; by apply elem_of_cons; right]. destruct (HE1 _ _ He') as [?|[_ Heq]]; [by left|right; rewrite Heq; apply elem_of_cons; by left].
Qed.

Lemma without_inv ids tx S tx' : store_inv mit tx S -> represents mit tx' (without ids S) -> store_inv mit tx' (without ids S).
Proof.
  intros [HR HU HT HO] HR'. assert (HS : forall id e, without ids S !! id = Some e -> S !! id = Some e) by (by intros ? ? [? _]%without_lookup).
  split; [done| | |].
  - intros i j e e' Hi Hj. apply (HU i j e e'); by apply HS.
  - intros id e Hid. by eapply HT, HS.
  - intros i j e e' Hi Hj. apply (HO i j e e'); by apply HS.
Qed.

Lemma applyTask_inv task tx S tx' te :
  store_inv mit tx S -> task_ok task -> seq_of tx + zlen (task_events task) < 2 ^ 64 - 1 ->
  applyTask mit MaxLimit tx task = Ok (tx', te) ->
  exists S', store_inv mit tx' S' /\ grown S S' (task_events task) /\ seq_of tx <= seq_of tx' <= seq_of tx + zlen (task_events task).
Proof.
  intros HI HT Hs. destruct task as [evs|ids|]; cbn [applyTask task_events] in *.
  - by apply apply_events_inv.
  - intros HE. inv_ok. apply (deleteAll_spec BL mit) with (S := S) in E as [HR' Hs']; [|apply HI|done].
    exists (without ids S). split; [by eapply without_inv|]. rewrite zlen_nil. split; [|lia].
    intros id e He. apply without_lookup in He as [? _]. by left.
  - intros [= <- <-]. exists S. rewrite zlen_nil. split; [done|]. split; [by left|lia].
Qed.

Definition all_events (tasks : list Task) : list Event := flat_map task_events tasks.

Lemma retryTasks_inv tasks tx S tx' errs :
  store_inv mit tx S -> Forall task_ok tasks -> seq_of tx + zlen (all_events tasks) < 2 ^ 64 - 1 ->
  retryTasks mit MaxLimit tx tasks = Ok (tx', errs) ->
  exists S', store_inv mit tx' S' /\ grown S S' (all_events tasks) /\ length errs = length tasks.
Proof.
  revert tx S errs. induction tasks as [|task tasks IH]; intros tx S errs HI HF Hs; cbn [retryTasks].
  { intros [= <- <-]. exists S. split; [done|]. split; [by left|done]. }
  inversion HF as [|? ? HT HF']; subst. cbn [all_events flat_map] in *. fold (all_events tasks) in *. rewrite zlen_app in Hs.
  pose proof (zlen_nonneg (all_events tasks)). pose proof (zlen_nonneg (task_events task)).
  assert (HN : forall tx1 S1 r, store_inv mit tx1 S1 -> grown S S1 (task_events task) -> seq_of tx1 <= seq_of tx + zlen (task_events task) ->
    (x ← retryTasks mit MaxLimit tx1 tasks; let '(db, errs) := x in Ok (db, r :: errs)) = Ok (tx', errs) ->
    exists S', store_inv mit tx' S' /\ grown S S' (task_events task ++ all_events tasks) /\ length errs = Datatypes.S (length tasks)).
  { intros tx1 S1 r HI1 HG1 Hs1 HE. inv_ok. destruct a as [db errs0]. injection HE as <- <-.
    destruct (IH tx1 S1 errs0 HI1 HF' ltac:(lia) E) as (S' & HI' & HG & HL). exists S'. split; [done|]. split; [|cbn; lia].
    intros id e He. destruct (HG id e He) as [He'|He']; [|set_solver]. apply HG1 in He'. set_solver. }
  destruct (applyTask mit MaxLimit tx task) as [[tx1 te]|e|] eqn:EA; [|by apply (HN tx S); [done|by left|lia]|done].
  destruct (applyTask_inv task tx S tx1 te) as (S1 & HI1 & HG1 & Hs1); [done|done|lia|done|]. by apply (HN tx1 S1); [done|done|lia].
Qed.

End Batch.

(** * relay/store.go: when a write succeeds

    An admissible event whose keys and encoding fit the database is always
    stored (or superseded); one whose indexed tag does not fit is refused; and
    one empty tag on an addressable event stops the process. *)

(** The derived indexes accept every write. *)
Record derived_total `{!Derived} : Prop := {
  dt_write : forall s i ev id add, exists s', derived_write s i ev id add = Ok s';
  dt_feeds : forall s ev, exists s', feedsDeleted s ev = Ok s';
}.

Section Total.
Context {Bolt0 : Bolt} {JSON0 : EventJSON} {Derived0 : Derived} {GoLower0 : GoLower}.

(** What the database can hold of an event. *)
Definition fits (mit : Z) (ev : Event) : Prop :=
  zlen (MarshalEvent ev) <= MaxValueSize /\
  forall p, p ∈ prepareIndexableTags (Tags ev) mit -> zlen p + 16 <= MaxKeySize.

Context (BL : BoltLaws) (mit MaxLimit : Z) (HM : 0 < MaxLimit) (HD : derived_total).
#[local] Set Default Proof Using "All".

Lemma put_small k v : k <> [] -> zlen k <= MaxKeySize -> zlen v <= MaxValueSize -> put_ok k v = true.
Proof.
  intros Hk H1 H2. unfold put_ok. rewrite bool_decide_false by done. rewrite (proj2 (Z.leb_le _ _) H1), (proj2 (Z.leb_le _ _) H2). done.
Qed.

Lemma zlen_itob z : zlen (itob z) = 8.
Proof. unfold zlen. by rewrite length_itob. Qed.

Lemma put_itob k z : k <> [] -> zlen k <= MaxKeySize -> put_ok k (itob z) = true.
Proof. intros. apply put_small; [done|done|]. rewrite zlen_itob. vm_compute. discriminate. Qed.

Lemma bput_total tx i k v : put_ok k v = true -> exists tx', bput tx i k v = Ok tx'.
Proof. intros HP. unfold bput. destruct (Put_total BL (bucket tx i) k v HP) as [b ->]. cbn. by eexists. Qed.

Lemma addCounter_total b key delta : key <> [] -> zlen key <= MaxKeySize -> exists b', addCounter b key delta = Ok b'.
Proof.
  intros Hk Hl. unfold addCounter. destruct (_ <=? 0); [by eexists|].
  set (n := u64 _). destruct (Put_total BL b key (itob n) (put_itob _ _ Hk Hl)) as [b' ->]. by eexists.
Qed.

Lemma countEvent_total tx k delta : (8 <= length (k_kind k))%nat -> (32 <= length (k_pubkey k))%nat ->
  exists tx', countEvent tx k delta = Ok tx'.
Proof.
  intros Hk Hp. unfold countEvent. destruct (counters tx) as [c|]; [|by eexists].
  assert (H1 : exists c', (if counted c ctrKindsDone ctrKindsMark (k_kind k)
    then addCounter c (kindCounterKey (take 8 (k_kind k))) delta else Ok c) = Ok c').
  { destruct (counted _ _ _ _); [|by eexists]. apply addCounter_total; [done|]. unfold kindCounterKey, zlen. rewrite length_app, length_take.
    unfold MaxKeySize. cbn [length bs]. change (length (bs "k")) with 1%nat. lia. }
  destruct H1 as [c' ->]. cbn [mbind outcome_bind]. rewrite (proj2 (Nat.ltb_ge _ _) Hp).
  match goal with |- context [if ?b then _ else _] => destruct b end; [|by eexists]. destruct (addCounter_total c' ctrAuthors delta) as [c'' ->]; [done|by vm_compute|]. by eexists.
Qed.

Lemma put_entries_total tx es v : Forall (fun x => put_ok x.2 v = true) es -> exists tx', put_entries tx es v = Ok tx'.
Proof.
  intros HF. revert tx. induction HF as [|[i k] es Hx _ IH]; intros tx; cbn [put_entries]; [by eexists|].
  destruct (bput_total tx i k v Hx) as [tx1 ->]. apply IH.
Qed.

Lemma write_total tx d ev id add : exists tx', write tx d ev id add = Ok tx'.
Proof. unfold write. destruct (dt_write HD (derived_state tx) d ev id add) as [s ->]. by eexists. Qed.

(** The keys of an event, as put. *)
Lemma keys_fit ev id K : ev_ok ev -> indexKeysFor ev id mit = Ok K ->
  k_createdAt K = itob (CreatedAt ev) /\ (8 <= length (k_kind K))%nat /\ (32 <= length (k_pubkey K))%nat /\
  ((forall p, p ∈ prepareIndexableTags (Tags ev) mit -> zlen p + 16 <= MaxKeySize) <-> Forall (fun x => put_ok x.2 (k_createdAt K) = true) (index_entries K)).
Proof.
  intros (HP & HI & _) HK. destruct (indexKeysFor_ok ev id mit HP HI) as (K' & HK' & HKK & _ & HC & _ & Hpk & Hk & _).
  assert (K' = K) by congruence. subst K'. rewrite Hk, Hpk, !length_app, !length_itob. destruct (key_bytes_ok _ HP) as [_ LP]. destruct (key_bytes_ok _ HI) as [_ LI].
  rewrite LP. split_and!; [done|lia|lia|]. rewrite HC, <- HKK, Forall_forall. split.
  - intros Ht [i k] Hx. cbn [snd]. apply put_itob.
    { apply keys_of_suffix in Hx as [_ [p ->]]. by destruct p. }
    apply keys_of_spec in Hx; [|done|done]. unfold zlen, MaxKeySize in *.
    assert (HL : (length k <= 56)%nat \/ exists p, p ∈ prepareIndexableTags (Tags ev) mit /\ length k = (length p + 16)%nat).
    { destruct i; [done| | | |destruct Hx as (p & Hp & ->)| |destruct Hx as [_ ->]|]; try subst k;
        rewrite !length_app, !length_itob; try (left; lia). right. exists p. split; [done|lia]. }
    destruct HL as [HL|(p & Hp & HL)]; [lia|]. specialize (Ht p Hp). lia.
  - intros HF p Hp. specialize (HF (indexTag, p ++ itob (CreatedAt ev) ++ itob id)). cbn [snd] in HF.
    assert (Hput : put_ok (p ++ itob (CreatedAt ev) ++ itob id) (itob (CreatedAt ev)) = true) by (apply HF, keys_of_spec; [done|done|by exists p]).
    unfold put_ok in Hput. bool_prop. rewrite !zlen_app, !zlen_itob in *. lia.
Qed.

Lemma insertEvent_total tx ev : zlen (MarshalEvent ev) <= MaxValueSize -> exists tx' id, insertEvent tx ev = Ok (tx', id).
Proof.
  intros HV. unfold insertEvent. destruct (NextSequence _) as [b id].
  destruct (bput_total (set_bucket tx indexEvents b) indexEvents (itob id) (MarshalEvent ev)) as [tx1 ->].
  { apply put_small; [done|rewrite zlen_itob; by vm_compute|done]. }
  cbn [mbind outcome_bind]. unfold stampSeq.
  destruct (Put_total BL (meta tx1) (bs "seq") (itob id)) as [m ->]; [apply put_itob; [done|by vm_compute]|]. cbn. by eexists _, _.
Qed.

Lemma insertWithIndexes_total tx ev : ev_ok ev -> fits mit ev -> exists tx', insertWithIndexes mit tx ev = Ok tx'.
Proof.
  intros HO [HV HK]. unfold insertWithIndexes. destruct (insertEvent_total tx ev HV) as (tx1 & id & ->). cbn [mbind outcome_bind].
  unfold insertIndexes. destruct (indexKeysFor_ok ev id mit) as (K & EK & _); [apply HO|apply HO|]. rewrite EK. cbn [mbind outcome_bind].
  destruct (keys_fit ev id K HO EK) as (_ & H8 & H32 & HF). unfold countInsert.
  destruct (countEvent_total tx1 K 1 H8 H32) as [tx2 ->]. cbn [mbind outcome_bind]. unfold putEventIndexes.
  destruct (put_entries_total tx2 (index_entries K) (k_createdAt K)) as [tx3 ->]; [by apply HF|]. cbn [mbind outcome_bind].
  destruct (write_total tx3 zaps ev id true) as [tx4 ->]. cbn [mbind outcome_bind]. apply write_total.
Qed.

Lemma delete_event_total tx id ev : ev_ok ev -> exists tx', delete_event mit tx id ev = Ok tx'.
Proof.
  intros HO. unfold delete_event. destruct (indexKeysFor_ok ev id mit) as (K & EK & _); [apply HO|apply HO|]. rewrite EK. cbn [mbind outcome_bind].
  destruct (keys_fit ev id K HO EK) as (_ & H8 & H32 & _). unfold countDelete.
  set (tx1 := delEventIndexes _ _). destruct (countEvent_total tx1 K (-1) H8 H32) as [tx2 ->]. cbn [mbind outcome_bind].
  destruct (write_total tx2 zaps ev id false) as [tx3 ->]. cbn [mbind outcome_bind].
  destruct (write_total tx3 social ev id false) as [tx4 ->]. cbn [mbind outcome_bind].
  destruct (dt_feeds HD (derived_state tx4) ev) as [s ->]. by eexists.
Qed.

Lemma deleteByEvsid_total tx S id : represents mit tx S -> 0 <= id < 2 ^ 64 -> exists tx', deleteByEvsid mit tx id = Ok tx'.
Proof.
  intros HR Hid. unfold deleteByEvsid. rewrite (findEventUsingTx_spec BL mit tx S) by done.
  destruct (S !! id) as [ev|] eqn:E; [|by eexists]. apply delete_event_total. by eapply (rep_ids _ _ _ HR).
Qed.

Lemma deleteAll_total ids tx S : represents mit tx S -> Forall (fun id => 0 <= id < 2 ^ 64) ids -> exists tx', deleteAll mit tx ids = Ok tx'.
Proof.
  intros HR HF. revert tx S HR. induction HF as [|id ids Hid HF IH]; intros tx S HR; cbn [deleteAll]; [by eexists|].
  destruct (deleteByEvsid_total tx S id HR Hid) as [tx1 E]. rewrite E. apply (deleteByEvsid_spec BL mit) with (S := S) in E as [HR1 _]; [|done|done].
  by eapply IH.
Qed.

Lemma deleteAllRestricted_total pes del kinds tx S :
  represents mit tx S -> Forall (fun pe => 0 <= Evsid pe < 2 ^ 64) pes -> exists tx', deleteAllRestricted mit tx del pes kinds = Ok tx'.
Proof.
  intros HR HF. revert tx S HR. induction HF as [|pe pes Hpe HF IH]; intros tx S HR; cbn [deleteAllRestricted]; [by eexists|].
  rewrite (findEventUsingTx_spec BL mit tx S) by done. destruct (S !! Evsid pe) as [ev|] eqn:E; [|by eapply IH].
  destruct (_ && _); [by eapply IH|]. destruct (negb _); [by eapply IH|]. destruct (IsDeletionKind _); [by eapply IH|].
  destruct (delete_event_total tx (Evsid pe) ev) as [tx1 E1]; [by eapply (rep_ids _ _ _ HR)|]. rewrite E1. cbn [mbind outcome_bind].
  apply (delete_event_spec BL mit) with (S := S) in E1 as [HR1 _]; [|done|done]. by eapply IH.
Qed.

Lemma insertReplaceable_total tx S ev l : represents mit tx S -> ev_ok ev -> fits mit ev -> (forall x, x ∈ l -> S !! x.1 = Some x.2) ->
  exists tx', insertReplaceableEvent mit tx ev (map as_potential l) = Ok tx'.
Proof.
  intros HR HO Hfit Hl. destruct l as [|x0 l]; [by apply insertWithIndexes_total|].
  assert (Hok : forall x, x ∈ x0 :: l -> 0 <= x.1 < 2 ^ 64 /\ ev_ok x.2) by (intros x Hx; eapply (stored_ok BL mit MaxLimit HM); [exact HR|by apply Hl]).
  unfold insertReplaceableEvent. cbn [map determineLatestAndToDelete mbind outcome_bind].
  destruct (determine_latest_spec l x0 []) as (x & del & HDt & HP & _); [|by intros y Hy%elem_of_nil|].
  { apply Forall_forall. intros x Hx. by apply Hok in Hx as [_ (_ & Hx & _)]. }
  cbn [map app] in HDt, HP. rewrite HDt. assert (Hin : forall y, y ∈ x :: del -> y ∈ x0 :: l) by (intros y; by rewrite HP).
  rewrite map_map. change (map (fun y => Evsid (as_potential y)) del) with del.*1.
  assert (HFd : Forall (fun id => 0 <= id < 2 ^ 64) del.*1).
  { apply Forall_forall. intros i Hi. apply list_elem_of_fmap in Hi as (y & -> & Hy). apply Hok, Hin. by right. }
  destruct (deleteAll_total del.*1 tx S HR HFd) as [tx1 E1]. rewrite E1. cbn [mbind outcome_bind].
  apply (deleteAll_spec BL mit) with (S := S) in E1 as [HR1 _]; [|done|done].
  destruct (Hok x (Hin x ltac:(by left))) as [Hx (_ & Hxi & _)].
  unfold insertOrReplaceEvent. cbn [as_potential PCreatedAt EventID Evsid].
  assert (Hswap : exists tx', (tx2 ← deleteByEvsid mit tx1 x.1; insertWithIndexes mit tx2 ev) = Ok tx').
  { destruct (deleteByEvsid_total _ _ x.1 HR1 Hx) as [tx2 ->]. cbn [mbind outcome_bind]. by apply insertWithIndexes_total. }
  destruct (_ <? _); [done|]. destruct (_ =? _); [|by eexists]. rewrite compareKeys_Ok by (done || apply HO). cbn [mbind outcome_bind].
  destruct (Cmp.ltb _ _); [done|by eexists].
Qed.

(** The first d tag can be read when no tag before it is empty. *)
Lemma findFirstDtagValue_total ts : Forall (fun t : tag => t <> []) ts -> exists d, findFirstDtagValue ts = Ok d.
Proof.
  induction 1 as [|[|n [|v t]] ts Ht _ IH]; cbn [findFirstDtagValue]; [by eexists|done|done|]. destruct (decide _); [by eexists|done].
Qed.

Lemma insert_total tx S ev : store_inv mit tx S -> admissible ev -> fits mit ev ->
  (IsParamReplaceableKind (Kind ev) = true -> Forall (fun t : tag => t <> []) (Tags ev)) ->
  exists tx', insert mit MaxLimit tx ev = Ok tx'.
Proof.
  intros HI Ha Hfit Ht. pose proof HI as [HR _ _ _]. pose proof Ha as [HO _]. unfold insert.
  destruct (IsDeletionKind (Kind ev)).
  { destruct (findEventsToDelete_spec BL mit MaxLimit HM tx S (Tags ev) (CreatedAt ev) HI) as (pes & -> & HPr & _). cbn [mbind outcome_bind].
    destruct (deleteAllRestricted_total pes ev (del_kinds (Tags ev)) tx S HR HPr) as [tx1 ->]. cbn [mbind outcome_bind]. by apply insertWithIndexes_total. }
  destruct (IsEphemeralKind (Kind ev)); [by apply insertWithIndexes_total|].
  destruct (IsParamReplaceableKind (Kind ev)).
  { destruct (findFirstDtagValue_total (Tags ev) (Ht eq_refl)) as [d ->]. cbn [mbind outcome_bind]. unfold findParameterizedReplaceableEvents.
    destruct (find_sound BL mit MaxLimit HM tx S (paramFilter (PubKey ev) (Kind ev) d 0 0)) as (l & -> & Hsound & _);
      [done|constructor|constructor; [apply Ha|constructor]|]. cbn [mbind outcome_bind]. eapply insertReplaceable_total; [done|done|done|].
    intros x Hx. by apply Hsound. }
  destruct (IsReplaceableKind (Kind ev)); [|by apply insertWithIndexes_total]. unfold findReplaceableEvents.
  destruct (find_sound BL mit MaxLimit HM tx S (replaceableFilter (PubKey ev) (Kind ev) 0 0)) as (l & -> & Hsound & _);
    [done|constructor|constructor; [apply Ha|constructor]|]. cbn [mbind outcome_bind]. eapply insertReplaceable_total; [done|done|done|].
  intros x Hx. by apply Hsound.
Qed.

(** ** Refusals *)

Lemma put_entries_fail tx es v : ~ Forall (fun x => put_ok x.2 v = true) es -> put_entries tx es v = Err ErrBoltPut.
Proof.
  revert tx. induction es as [|[i k] es IH]; intros tx Hn; [by destruct Hn|]. cbn [put_entries]. unfold bput.
  pose proof (Put_kv BL (bucket tx i) k v) as HP. destruct (put_ok k v) eqn:E.
  - destruct HP as (b & -> & _). cbn [of_opt mbind outcome_bind]. apply IH. intros HF. apply Hn. by constructor.
  - by rewrite HP.
Qed.

Lemma oversized_fails tx ev : ev_ok ev -> zlen (MarshalEvent ev) <= MaxValueSize ->
  (exists p, p ∈ prepareIndexableTags (Tags ev) mit /\ MaxKeySize < zlen p + 16) -> insertWithIndexes mit tx ev = Err ErrBoltPut.
Proof.
  intros HO HV (p & Hp & Hlong). unfold insertWithIndexes. destruct (insertEvent_total tx ev HV) as (tx1 & id & ->). cbn [mbind outcome_bind].
  unfold insertIndexes. destruct (indexKeysFor_ok ev id mit) as (K & EK & _); [apply HO|apply HO|]. rewrite EK. cbn [mbind outcome_bind].
  destruct (keys_fit ev id K HO EK) as (_ & H8 & H32 & HF). unfold countInsert.
  destruct (countEvent_total tx1 K 1 H8 H32) as [tx2 ->]. cbn [mbind outcome_bind]. unfold putEventIndexes.
  rewrite put_entries_fail; [done|]. rewrite <- HF. intros Ht. specialize (Ht p Hp). lia.
Qed.

End Total.
