(* ===== verification/StoreProps.v ===== *)
(** * relay/store.go: what the store promises

    The properties of the write path, each against the abstract map of stored
    events, with a small store they are evaluated on. *)

From S2P Require Import Prelude GoLib GoHeap Bolt Sha256 NostrUtils Pow Event Filter Latest StoreDb StoreInv StoreScan StoreMerge StoreExact StoreQuery StoreEvents StoreLife StoreBatch.

(** ** Expiry *)

Definition expired (now : Z) (ev : Event) : Prop := 0 < expiration_of ev <= now.

#[global] Instance expired_dec now ev : Decision (expired now ev).
Proof. unfold expired. apply _. Defined.

Lemma parse_uint_range s : 0 <= parse_uint_value s < 2 ^ 64.
Proof.
  unfold parse_uint_value. destruct (Dec.parse_digits s) as [z|] eqn:E; [|lia].
  unfold Dec.parse_digits in E. destruct s as [|c s]; [done|]. destruct (Dec.bytes_uint (c :: s)) as [d|]; [|done]. injection E as <-. lia.
Qed.

Lemma expiration_range ev : 0 <= expiration_of ev < 2 ^ 64.
Proof.
  unfold expiration_of. assert (HG : 0 <= getExpiration (Tags ev) < 2 ^ 64).
  { induction (Tags ev) as [|[|n [|v t]] ts IH]; cbn [getExpiration]; [lia|done|done|].
    destruct (decide _); [apply parse_uint_range|done]. }
  destruct (_ && _); [|done]. unfold wrap. apply Z.mod_pos_bound. lia.
Qed.

Lemma take_itob e s : take 8 (itob e ++ s) = itob e.
Proof. rewrite <- (length_itob e). apply take_length_app. Qed.

Lemma drop_itob e s : drop 8 (itob e ++ s) = s.
Proof. rewrite <- (length_itob e). apply drop_length_app. Qed.

Section Expiry.
Context {Bolt0 : Bolt} {JSON0 : EventJSON} {Derived0 : Derived} {GoLower0 : GoLower} (BL : BoltLaws) (mit MaxLimit : Z).
#[local] Set Default Proof Using "All".

Definition expiry_key (k : gostring) (e id : Z) : Prop := k = itob e ++ itob id /\ 0 < e < 2 ^ 64 /\ 0 <= id < 2 ^ 64.

Lemma due_spec now l : 0 <= now < 2 ^ 64 -> StronglySorted before l ->
  (forall k v, (k, v) ∈ l -> exists e id, expiry_key k e id) ->
  exists ids, due (itob now) l = Ok ids /\
  forall id, id ∈ ids <-> 0 <= id < 2 ^ 64 /\ exists e v, 0 < e <= now /\ (itob e ++ itob id, v) ∈ l.
Proof.
  intros Hn HS. induction HS as [|[k v] l HS IH HF]; intros HK; cbn [due].
  { exists []. split; [done|]. intros id. rewrite elem_of_nil. split; [done|]. intros (_ & e & v & _ & Hin). by apply elem_of_nil in Hin. }
  destruct (HK k v ltac:(by left)) as (e & id & -> & He & Hid). rewrite length_app, !length_itob. cbn [Nat.eqb Nat.add negb].
  rewrite take_itob. unfold itob at 1 2.
  destruct IH as (ids & HE & HI); [intros; eapply HK; by right|].
  assert (Hpair : forall e' id' v', 0 < e' -> e' < 2 ^ 64 -> 0 <= id' < 2 ^ 64 -> (itob e' ++ itob id', v') ∈ l -> e <= e').
  { intros e' id' v' H1 H2 H3 Hin. rewrite Forall_forall in HF. specialize (HF _ Hin). unfold before in HF. cbn [fst] in HF.
    rewrite Cmp.ltb_lt, Cmp.compare_app in HF by (by rewrite !length_itob). unfold itob in HF. rewrite BE.compare_put64 in HF by lia.
    destruct (Z.compare_spec e e'); [lia|lia|done]. }
  assert (Hkey : forall e' id', 0 < e' <= now -> 0 <= id' < 2 ^ 64 -> itob e' ++ itob id' = itob e ++ itob id -> e' = e /\ id' = id).
  { intros e' id' H1 H2 HEq. apply app_inj_1 in HEq as [H3 H4]; [|by rewrite !length_itob]. split; apply itob_inj; (done || lia). }
  destruct (Cmp.ltb (BE.put64 now) (BE.put64 e)) eqn:EL.
  - rewrite Cmp.ltb_lt, BE.compare_put64 in EL by lia. assert (Hlt : now < e) by exact EL. exists []. split; [done|].
    intros i. rewrite elem_of_nil. split; [done|]. intros (Hi & e' & v' & He' & [HEq%(f_equal fst)|Hin]%elem_of_cons).
    + apply Hkey in HEq as [Hee _]; [lia|done|done].
    + apply Hpair in Hin; lia.
  - assert (Hle : e <= now).
    { destruct (Z.leb_spec e now) as [|Hgt]; [done|]. exfalso. unfold Cmp.ltb in EL. rewrite BE.compare_put64 in EL by lia.
      by rewrite (proj2 (Z.compare_lt_iff _ _) Hgt) in EL. }
    rewrite drop_itob. unfold btoi. rewrite length_itob. cbn [Nat.ltb Nat.leb mbind outcome_bind].
    rewrite HE. unfold itob at 1. rewrite <- (app_nil_r (BE.put64 id)), BE.get64_put64 by lia. cbn [mbind outcome_bind].
    exists (id :: ids). split; [done|]. intros i. rewrite elem_of_cons, HI. split.
    + intros [->|(Hi & e' & v' & He' & Hin)]; [split; [done|]; exists e, v; split; [lia|by left]|].
      split; [done|]. exists e', v'. split; [done|by right].
    + intros (Hi & e' & v' & He' & [HEq%(f_equal fst)|Hin]%elem_of_cons).
      * left. by apply Hkey in HEq as [_ ->].
      * right. split; [done|]. by exists e', v'.
Qed.

Lemma prune_spec tx S now : represents mit tx S -> 0 <= now < 2 ^ 64 ->
  exists ids, pruneExpiredEvents tx now = Ok (match ids with [] => None | _ => Some (EventDeleteTask ids) end) /\
  forall id, id ∈ ids <-> exists ev, S !! id = Some ev /\ expired now ev.
Proof.
  intros HR Hn. destruct (ascend_spec BL (bucket tx indexExpiration) []) as [HA HS].
  assert (HK : forall k v, (k, v) ∈ ascend (bucket tx indexExpiration) [] <->
    exists id ev, S !! id = Some ev /\ 0 < expiration_of ev /\ k = itob (expiration_of ev) ++ itob id /\ v = itob (CreatedAt ev)).
  { intros k v. rewrite HA, (rep_index _ _ _ HR) by done. split.
    - intros [(id & ev & Hid & Hk & ->) _]. exists id, ev. apply keys_of_spec in Hk as [? ->]; [done|apply (rep_ids _ _ _ HR _ _ Hid)..].
    - intros (id & ev & Hid & He & -> & ->). split; [|done]. exists id, ev. split_and!; [done| |done].
      apply keys_of_spec; [apply (rep_ids _ _ _ HR _ _ Hid)..|done]. }
  destruct (due_spec now (ascend (bucket tx indexExpiration) [])) as (ids & HD & HI); [done|done| |].
  { intros k v Hin. apply HK in Hin as (id & ev & Hid & He & -> & _). exists (expiration_of ev), id. split; [done|].
    pose proof (expiration_range ev). pose proof (rep_seq _ _ _ HR). apply (rep_ids _ _ _ HR) in Hid as [? _]. lia. }
  exists ids. unfold pruneExpiredEvents. unfold wrap. rewrite Z.mod_small by done. rewrite HD. split; [done|]. intros id. rewrite HI. split.
  - intros (Hi & e & v & He & Hin). apply HK in Hin as (id' & ev & Hid & Hpos & HEq & _).
    pose proof (expiration_range ev). pose proof (rep_seq _ _ _ HR). destruct (rep_ids _ _ _ HR _ _ Hid) as [? _].
    apply app_inj_1 in HEq as [HX1 HX2]; [|by rewrite !length_itob]. apply itob_inj in HX1, HX2; [|lia..]. subst. exists ev. split; [done|]. unfold expired. lia.
  - intros (ev & Hid & He). unfold expired in He. pose proof (rep_seq _ _ _ HR). destruct (rep_ids _ _ _ HR _ _ Hid) as [? _].
    split; [lia|]. exists (expiration_of ev), (itob (CreatedAt ev)). split; [lia|]. apply HK. exists id, ev. split_and!; (done || lia).
Qed.

End Expiry.

(** ** Addressable events *)

Lemma param_classes k : IsParamReplaceableKind k = true -> IsDeletionKind k = false /\ IsEphemeralKind k = false /\ IsReplaceableKind k = false.
Proof.
  unfold IsReplaceableKind, IsDeletionKind, IsEphemeralKind, IsParamReplaceableKind, KindDeletion.
  rewrite !orb_false_iff, !andb_false_iff, !Z.eqb_neq, !Z.leb_gt, !Z.ltb_ge. intros. bool_prop. lia.
Qed.

Lemma beats_self e : beats e e = false.
Proof. unfold beats. by rewrite Z.ltb_irrefl, Cmp.ltb_irrefl, andb_false_r. Qed.

Section Addressable.
Context {Bolt0 : Bolt} {JSON0 : EventJSON} {Derived0 : Derived} {GoLower0 : GoLower} (BL : BoltLaws) (mit MaxLimit : Z) (HM : 0 < MaxLimit).
#[local] Set Default Proof Using "All".

(** The events found are among those the lookup's filter admits; only they are
    removed. *)
Lemma insert_param tx S ev d tx' :
  store_inv mit tx S -> admissible ev -> fresh S ev -> seq_of tx + 1 < 2 ^ 64 - 1 -> IsParamReplaceableKind (Kind ev) = true ->
  findFirstDtagValue (Tags ev) = Ok d -> insert mit MaxLimit tx ev = Ok tx' ->
  let f := paramFilter (PubKey ev) (Kind ev) d 0 0 in
  exists S' l, store_inv mit tx' S' /\ evolves S S' (seq_of tx + 1) ev /\
  (forall x, x ∈ l -> S !! x.1 = Some x.2 /\ Match f x.2 = true) /\
  (covered mit MaxLimit S f -> l = newest S (query_wants S f)) /\
  match l with
  | [] => S' = <[seq_of tx + 1 := ev]> S
  | _ => exists x del, x :: del ≡ₚ l /\ (forall y, y ∈ del -> beats y.2 x.2 = false) /\
      S' = if beats ev x.2 then <[seq_of tx + 1 := ev]> (without l.*1 S) else without del.*1 S
  end.
Proof.
  intros HI Ha Hf Hs HK Hd HE f. destruct (param_classes _ HK) as (K1 & K2 & K4). unfold insert in HE. rewrite K1, K2, HK, Hd in HE.
  cbn [mbind outcome_bind] in HE. unfold findParameterizedReplaceableEvents in HE. fold f in HE.
  destruct (find_sound BL mit MaxLimit HM tx S f) as (l & Hl & Hsound & Hcov); [done|constructor|constructor; [apply Ha|constructor]|].
  rewrite Hl in HE. cbn [mbind outcome_bind] in HE.
  apply (insertReplaceable_spec BL mit MaxLimit HM tx S) in HE; [|apply HI|apply Ha|done|by intros x Hx; apply Hsound].
  assert (Hinv : forall S', represents mit tx' S' -> evolves S S' (seq_of tx + 1) ev -> store_inv mit tx' S').
  { intros S' HR' HEv. eapply (evolves_inv BL mit MaxLimit HM); [exact HI|done|exact HEv|done|done|by rewrite K4]. }
  destruct l as [|x0 l].
  - destruct HE as [HR' _]. exists (<[seq_of tx + 1 := ev]> S), []. split_and!; [apply Hinv; auto with nmilat|auto with nmilat|done|done|done].
  - destruct HE as (x & del & HP & HB & HE). eexists _, (x0 :: l).
    assert (HR' : represents mit tx' (if beats ev x.2 then <[seq_of tx + 1 := ev]> (without (x0 :: l).*1 S) else without del.*1 S))
      by (destruct (beats ev x.2); apply HE).
    assert (HEv : evolves S (if beats ev x.2 then <[seq_of tx + 1 := ev]> (without (x0 :: l).*1 S) else without del.*1 S) (seq_of tx + 1) ev).
    { destruct (beats ev x.2); auto with nmilat. }
    split_and!; [by apply Hinv|exact HEv|done|done|]. exists x, del. split_and!; [exact HP|exact HB|reflexivity].
Qed.

Lemma param_wants S f ev id e : Kinds f = Some [Kind ev] -> IsParamReplaceableKind (Kind ev) = true -> BeforeID f = [] ->
  query_wants S f id e = Match f e.
Proof.
  intros Hk HK Hb. unfold query_wants. rewrite Hb. change (stored_id S []) with (@None Z). cbn [negb]. rewrite andb_true_r.
  destruct (Match f e) eqn:EM; [|by rewrite andb_false_r]. apply Match_spec in EM as (_ & _ & Hke & _). specialize (Hke _ Hk).
  apply list_elem_of_singleton in Hke. rewrite Hke. destruct (param_classes _ HK) as (_ & -> & _). done.
Qed.

(** The store after an addressable event, against the versions its lookup admits. *)
Record latest_only (f : SubscriptionFilter) (S S' : gmap Z Event) (n : Z) (ev : Event) (i : Z) (w : Event) : Prop := {
  lo_kept : S' !! i = Some w;
  lo_from : (i = n /\ w = ev) \/ S !! i = Some w;
  lo_match : Match f w = true;
  lo_one : forall j e, S' !! j = Some e -> Match f e = true -> j = i;
  lo_best : beats ev w = false /\ forall j e, S !! j = Some e -> Match f e = true -> beats e w = false;
  lo_rest : forall j e, Match f e = false -> S' !! j = Some e <-> S !! j = Some e;
}.

Lemma insert_param_latest tx S ev d tx' :
  store_inv mit tx S -> admissible ev -> fresh S ev -> seq_of tx + 1 < 2 ^ 64 - 1 -> IsParamReplaceableKind (Kind ev) = true ->
  findFirstDtagValue (Tags ev) = Ok d -> insert mit MaxLimit tx ev = Ok tx' ->
  let f := paramFilter (PubKey ev) (Kind ev) d 0 0 in
  covered mit MaxLimit S f -> Match f ev = true ->
  exists S' i w, store_inv mit tx' S' /\ latest_only f S S' (seq_of tx + 1) ev i w.
Proof.
  intros HI Ha Hf Hs HK Hd HE f Hc Hm. destruct (insert_param tx S ev d tx') as (S' & l & HI' & _ & Hl & Hcov & HS'); [done..|]. fold f in Hl, Hcov.
  assert (Hall : forall j e, S !! j = Some e -> Match f e = true -> (j, e) ∈ l).
  { intros j e Hj He. rewrite (Hcov Hc). apply newest_spec. split; [done|]. by rewrite (param_wants S f ev). }
  assert (Hn : forall j e, S !! j = Some e -> j <> seq_of tx + 1).
  { intros j e Hj. destruct HI as [HR _ _ _]. apply (rep_ids _ _ _ HR) in Hj as [? _]. lia. }
  exists S'. destruct l as [|x0 l].
  { subst S'. exists (seq_of tx + 1), ev. split; [done|]. split.
    - by rewrite lookup_insert_eq.
    - by left.
    - done.
    - intros j e. rewrite lookup_insert_Some. intros [[<- _]|[_ Hj]] He; [done|]. apply (Hall _ _ Hj) in He. by apply elem_of_nil in He.
    - split; [apply beats_self|]. intros j e Hj He. apply (Hall _ _ Hj) in He. by apply elem_of_nil in He.
    - intros j e He. rewrite lookup_insert_Some. split; [intros [[_ <-]|[_ ?]]; [congruence|done]|]. intros Hj. right.
      split; [|done]. intros <-. by apply (Hn _ _ Hj). }
  destruct HS' as (x & del & HP & HB & ->). set (L := x0 :: l) in *.
  assert (HPin : forall y, y ∈ L <-> y = x \/ y ∈ del) by (intros y; by rewrite <- HP, elem_of_cons).
  destruct (Hl x) as [Hx Hxm]; [apply HPin; by left|].
  assert (Hbest : forall j e, S !! j = Some e -> Match f e = true -> beats e x.2 = false).
  { intros j e Hj He. specialize (Hall j e Hj He). apply HPin in Hall as [HEq|Hin]; [rewrite <- HEq; apply beats_self|by apply (HB (j, e))]. }
  assert (Hids : forall j e, S !! j = Some e -> j ∈ L.*1 <-> Match f e = true).
  { intros j e Hj. split; [|intros He; apply list_elem_of_fmap; exists (j, e); split; [done|by apply Hall]].
    intros (y & -> & Hy)%list_elem_of_fmap. destruct (Hl y Hy) as [Hy' Hym]. congruence. }
  destruct (beats ev x.2) eqn:EB.
  - exists (seq_of tx + 1), ev. split; [done|]. split.
    + by rewrite lookup_insert_eq.
    + by left.
    + done.
    + intros j e. rewrite lookup_insert_Some, without_lookup. intros [[<- _]|(_ & Hj & Hni)] He; [done|]. destruct Hni. by eapply Hids.
    + split; [apply beats_self|]. intros j e Hj He. by eapply unbeaten_trans; [apply (Hbest j)|].
    + intros j e He. rewrite lookup_insert_Some, without_lookup. split; [intros [[_ <-]|(_ & ? & _)]; [congruence|done]|]. intros Hj. right.
      split; [intros <-; by apply (Hn _ _ Hj)|]. split; [done|]. rewrite (Hids j e Hj). congruence.
  - exists x.1, x.2. split; [done|]. assert (Hnd : x.1 ∉ del.*1).
    { assert (HND : NoDup L.*1) by (rewrite (Hcov Hc); apply newest_spec). assert (HP1 : L.*1 ≡ₚ x.1 :: del.*1) by (by rewrite <- HP).
      rewrite HP1 in HND. by inversion HND. }
    split.
    + apply without_lookup. done.
    + by right.
    + done.
    + intros j e. rewrite without_lookup. intros [Hj Hni] He. specialize (Hall j e Hj He). apply HPin in Hall as [HEq|Hin]; [by rewrite <- HEq|].
      destruct Hni. apply list_elem_of_fmap. by exists (j, e).
    + split; [done|]. exact Hbest.
    + intros j e He. rewrite without_lookup. split; [tauto|]. intros Hj. split; [done|]. intros Hin.
      assert (HL : j ∈ L.*1). { apply list_elem_of_fmap in Hin as (y & -> & Hy). apply list_elem_of_fmap. exists y. split; [done|]. apply HPin. by right. }
      rewrite (Hids j e Hj) in HL. congruence.
Qed.

End Addressable.

(** ** The promises *)

Section Promises.
Context {Bolt0 : Bolt} {JSON0 : EventJSON} {Derived0 : Derived} {GoLower0 : GoLower}.

(** C2: the store's invariant — events and every index agree, no id is stored
    twice, one version per author and replaceable kind — survives every batch
    of insert and delete tasks, whether it commits at once or is retried task by
    task; no event appears that no task brought; every task is answered. *)
Theorem batch_keeps_store (BL : BoltLaws) (mit MaxLimit : Z) (tx tx' : Tx) (S : gmap Z Event) (tasks : list Task)
    (errs : list (option StoreErr)) (HM : 0 < MaxLimit) (HI : store_inv mit tx S) (HT : Forall task_ok tasks)
    (Hseq : seq_of tx + zlen (all_events tasks) < 2 ^ 64 - 1) (HE : ExecuteBatch mit MaxLimit tx tasks = Ok (tx', errs)) :
  exists S', store_inv mit tx' S' /\ grown S S' (all_events tasks) /\ length errs = length tasks.
Proof. rewrite ExecuteBatch_retry in HE. by eapply (retryTasks_inv BL mit MaxLimit HM). Qed.

(** C35: batching is invisible: committing a batch, with its retry on failure, gives
    the database and the answers of running its tasks one by one, each in a
    transaction of its own; and a task that fails is answered its error and
    leaves no trace in what the others do. *)
Theorem batch_isolates (mit MaxLimit : Z) (tx : Tx) :
  (forall tasks, ExecuteBatch mit MaxLimit tx tasks = retryTasks mit MaxLimit tx tasks) /\
  (forall l1 t l2 tx1 e1 e, ExecuteBatch mit MaxLimit tx l1 = Ok (tx1, e1) -> applyTask mit MaxLimit tx1 t = Err e ->
     ExecuteBatch mit MaxLimit tx (l1 ++ t :: l2) = (r ← ExecuteBatch mit MaxLimit tx1 l2; Ok (r.1, e1 ++ Some e :: r.2)) /\
     ExecuteBatch mit MaxLimit tx (l1 ++ l2) = (r ← ExecuteBatch mit MaxLimit tx1 l2; Ok (r.1, e1 ++ r.2))).
Proof.
  split; [intros; apply ExecuteBatch_retry|]. intros l1 t l2 tx1 e1 e HE Ht. rewrite !ExecuteBatch_retry in *. split.
  - rewrite (retryTasks_app _ _ _ _ _ _ _ HE). cbn [retryTasks]. rewrite Ht. by destruct (retryTasks mit MaxLimit tx1 l2) as [[? ?]|?|].
  - by apply retryTasks_app.
Qed.

(** an insert is refused as a duplicate exactly when an event with that id is
    stored, and then changes nothing. *)
Theorem duplicate_refused (BL : BoltLaws) (mit MaxLimit : Z) (tx : Tx) (S : gmap Z Event) (ev : Event)
    (HM : 0 < MaxLimit) (HI : store_inv mit tx S) (Ha : admissible ev) :
  ((exists id e, S !! id = Some e /\ key_bytes (ID e) = key_bytes (ID ev)) ->
     ExecuteBatch mit MaxLimit tx [EventInsertTask [ev]] = Ok (tx, [Some ErrEventDuplicated])) /\
  (fresh S ev -> ExecuteBatch mit MaxLimit tx [EventInsertTask [ev]] =
     match insert mit MaxLimit tx ev with Ok tx' => Ok (tx', [None]) | Err e => Ok (tx, [Some e]) | Panic => Panic end).
Proof.
  pose proof HI as [HR HU HT _]. rewrite ExecuteBatch_retry. cbn [retryTasks applyTask apply_events].
  destruct (duplication_spec BL mit tx S HR (times_below BL mit MaxLimit tx S HR HU HM HT) ev ltac:(apply Ha)) as [[-> (id & e & Hid & HE)]|[-> Hf]].
  - split; [done|]. intros Hf. by destruct (Hf id e Hid).
  - split; [intros (id & e & Hid & HE); by destruct (Hf id e Hid)|]. intros _. by destruct (insert mit MaxLimit tx ev).
Qed.

(** C12: storing a replaceable event (a profile, a contact list, kinds 10000 to
    19999) leaves exactly one version for its author and kind: the one that
    [Supersedes] the other, of the new event and the stored one; nothing else
    changes, and the write does not fail. *)
Theorem replaceable_latest (BL : BoltLaws) (mit MaxLimit : Z) (tx : Tx) (S : gmap Z Event) (ev : Event)
    (HM : 0 < MaxLimit) (HD : derived_total) (HI : store_inv mit tx S) (Ha : admissible ev) (Hfit : fits mit ev)
    (Hf : fresh S ev) (Hseq : seq_of tx + 1 < 2 ^ 64 - 1) (HK : IsReplaceableKind (Kind ev) = true) :
  let n := seq_of tx + 1 in
  let S' := match current_version S ev with
            | None => <[n := ev]> S
            | Some (i, e) => if Supersedes ev e then <[n := ev]> (delete i S) else S
            end in
  (exists tx', insert mit MaxLimit tx ev = Ok tx' /\ store_inv mit tx' S') /\
  exists i w, forall j e, S' !! j = Some e -> same_coordinate ev e = true -> j = i /\ e = w.
Proof.
  intros n S'. destruct (kind_classes _ HK) as (_ & _ & K3).
  destruct (insert_total BL mit MaxLimit HM HD tx S ev) as [tx' HE]; [done|done|done|by rewrite K3|].
  destruct (insert_replaceable_spec BL mit MaxLimit HM tx S ev tx') as [HI' _]; [done..|].
  assert (HS : replace S n ev = S').
  { unfold replace, S'. pose proof (replaceable_lookup BL mit MaxLimit HM tx S ev HI ltac:(apply Ha) HK) as [_ Hc].
    destruct (current_version S ev) as [[i e]|]; [|done]. destruct Hc as [Hi _]. cbn [fst snd] in *. rewrite beats_Supersedes; [done|apply Ha|].
    pose proof HI as [HR _ _ _]. apply (rep_ids _ _ _ HR) in Hi. apply Hi. }
  fold n in HI'. rewrite HS in HI'. split; [by exists tx'|].
  destruct (current_version S' ev) as [[i w]|] eqn:EC; pose proof (replaceable_lookup BL mit MaxLimit HM tx' S' ev HI' ltac:(apply Ha) HK) as [_ Hc];
    rewrite EC in Hc.
  - destruct Hc as [Hi Hu]. exists i, w. intros j e Hj Hs. specialize (Hu j e Hj Hs). cbn [fst snd] in *. subst j. split; [done|congruence].
  - exists 0, ev. intros j e Hj Hs. by rewrite (Hc j e Hj) in Hs.
Qed.

(** storing an addressable event (kinds 30000 to 39999) whose address the index
    knows leaves exactly one event of the address: the one no other version
    beats; events of other addresses are untouched, and the write does not fail. *)
Theorem addressable_latest (BL : BoltLaws) (mit MaxLimit : Z) (tx : Tx) (S : gmap Z Event) (ev : Event) (d : gostring)
    (HM : 0 < MaxLimit) (HD : derived_total) (HI : store_inv mit tx S) (Ha : admissible ev) (Hfit : fits mit ev)
    (Hf : fresh S ev) (Hseq : seq_of tx + 1 < 2 ^ 64 - 1) (HK : IsParamReplaceableKind (Kind ev) = true)
    (Htags : Forall (fun t : tag => t <> []) (Tags ev)) (Hd : findFirstDtagValue (Tags ev) = Ok d)
    (Hcov : covered mit MaxLimit S (paramFilter (PubKey ev) (Kind ev) d 0 0))
    (Hm : Match (paramFilter (PubKey ev) (Kind ev) d 0 0) ev = true) :
  exists tx' S' i w, insert mit MaxLimit tx ev = Ok tx' /\ store_inv mit tx' S' /\
    latest_only (paramFilter (PubKey ev) (Kind ev) d 0 0) S S' (seq_of tx + 1) ev i w.
Proof.
  destruct (insert_total BL mit MaxLimit HM HD tx S ev) as [tx' HE]; [done..|].
  destruct (insert_param_latest BL mit MaxLimit HM tx S ev d tx') as (S' & i & w & HI' & HL); [done..|]. by exists tx', S', i, w.
Qed.


(** every admissible event that fits the database and is not stored yet is
    accepted, whatever its kind, provided an addressable event has no empty
    tag; the store then holds at most what it held and the event.  An event that
    is no version of another is stored, next to everything stored before unless
    it is a deletion request. *)
Theorem insert_accepts (BL : BoltLaws) (mit MaxLimit : Z) (tx : Tx) (S : gmap Z Event) (ev : Event)
    (HM : 0 < MaxLimit) (HD : derived_total) (HI : store_inv mit tx S) (Ha : admissible ev) (Hfit : fits mit ev)
    (Hf : fresh S ev) (Hseq : seq_of tx + 1 < 2 ^ 64 - 1)
    (Htags : IsParamReplaceableKind (Kind ev) = true -> Forall (fun t : tag => t <> []) (Tags ev)) :
  exists tx' S', ExecuteBatch mit MaxLimit tx [EventInsertTask [ev]] = Ok (tx', [None]) /\ store_inv mit tx' S' /\
    evolves S S' (seq_of tx + 1) ev /\ kept S S' (seq_of tx + 1) ev.
Proof.
  destruct (insert_total BL mit MaxLimit HM HD tx S ev) as [tx' HE]; [done..|].
  destruct (insert_inv BL mit MaxLimit HM tx S ev tx') as (S' & HI' & HEv & HKp & _); [done..|]. exists tx', S'. split; [|done].
  pose proof HI as [HR HU HT _]. rewrite ExecuteBatch_retry. cbn [retryTasks applyTask apply_events].
  destruct (duplication_spec BL mit tx S HR (times_below BL mit MaxLimit tx S HR HU HM HT) ev ltac:(apply Ha)) as [[_ (id & e & Hid & HEq)]|[-> _]].
  - by destruct (Hf id e Hid).
  - by rewrite HE.
Qed.

(** the housekeeper deletes exactly the stored events whose expiry (their
    expiration tag, or ten minutes for an ephemeral event) has come, even if
    other writes commit between its reading the index and its task. *)
Theorem expiry_exact (BL : BoltLaws) (mit MaxLimit : Z) (tx tx2 : Tx) (S S2 : gmap Z Event) (now : Z)
    (HM : 0 < MaxLimit) (HD : derived_total) (HI : store_inv mit tx S) (HI2 : store_inv mit tx2 S2) (Hn : 0 <= now < 2 ^ 64)
    (Hlater : forall id e, S2 !! id = Some e -> S !! id = Some e \/ S !! id = None) :
  exists t, pruneExpiredEvents tx now = Ok t /\
  match t with
  | None => forall id ev, S !! id = Some ev -> ~ expired now ev
  | Some task => exists tx', ExecuteBatch mit MaxLimit tx2 [task] = Ok (tx', [None]) /\
      store_inv mit tx' (base.filter (fun x => ~ (S !! x.1 = Some x.2 /\ expired now x.2)) S2)
  end.
Proof.
  pose proof HI as [HR _ _ _]. destruct (prune_spec BL mit MaxLimit tx S now HR Hn) as (ids & HE & Hids).
  exists (match ids with [] => None | _ => Some (EventDeleteTask ids) end). split; [done|]. destruct ids as [|i ids].
  { intros id ev Hid He. eapply elem_of_nil, Hids. by exists ev. }
  set (l := i :: ids) in *. pose proof HI2 as [HR2 _ _ _].
  assert (HF : Forall (fun id => 0 <= id < 2 ^ 64) l).
  { apply Forall_forall. intros id (ev & Hid & _)%Hids. by destruct (stored_ok BL mit MaxLimit HM tx S id ev HR Hid). }
  destruct (deleteAll_total BL mit MaxLimit HM HD l tx2 S2 HR2 HF) as [tx' HE']. exists tx'.
  rewrite ExecuteBatch_retry. cbn [retryTasks applyTask]. rewrite HE'. split; [done|].
  apply (deleteAll_spec BL mit) with (S := S2) in HE' as [HR' _]; [|done|done]. fold (without l S2) in HR'.
  replace (base.filter _ S2) with (without l S2); [by eapply (without_inv BL mit MaxLimit HM)|].
  apply map_eq. intros id. apply option_eq. intros e. rewrite without_lookup, map_lookup_filter_Some. cbn [fst snd].
  split; intros [Hid Hno]; (split; [done|]).
  - intros [Hs He]. apply Hno, Hids. by exists e.
  - intros (ev & Hs & He)%Hids. apply Hno. destruct (Hlater id e Hid) as [Hs'|Hs']; [|congruence]. replace e with ev by congruence. done.
Qed.

(** an addressable event whose first tag is empty stops the process: no check
    before the store refuses it, and the insert, like any batch it starts,
    panics. *)
Theorem empty_tag_panics (mit MaxLimit : Z) (tx : Tx) (ev : Event) (ts : tags)
    (HK : IsParamReplaceableKind (Kind ev) = true) (HT : Tags ev = [] :: ts) (Hdup : checkEventDuplication tx ev = Ok tt) :
  Validate ev = Validate (mkEvent (ID ev) (PubKey ev) (CreatedAt ev) (Kind ev) ts (Content ev) (Sig ev)) /\
  forall tasks, ExecuteBatch mit MaxLimit tx (EventInsertTask [ev] :: tasks) = Panic.
Proof.
  split; [done|]. intros tasks. rewrite ExecuteBatch_retry. cbn [retryTasks applyTask apply_events]. rewrite Hdup.
  destruct (param_classes _ HK) as (K1 & K2 & _). unfold insert. by rewrite K1, K2, HK, HT.
Qed.

(** a tag value whose index key exceeds the database's key size, though within
    the uint16 the index allows for, is not left out of the index: the whole
    event is refused, alone or in a batch. *)
Theorem oversized_tag_refused (BL : BoltLaws) (mit MaxLimit : Z) (tx : Tx) (S : gmap Z Event) (ev : Event) (p : gostring)
    (HM : 0 < MaxLimit) (HD : derived_total) (HI : store_inv mit tx S) (Ha : admissible ev) (Hf : fresh S ev)
    (HV : zlen (MarshalEvent ev) <= MaxValueSize) (Hp : p ∈ prepareIndexableTags (Tags ev) mit)
    (Hlong : MaxKeySize < zlen p + 16) (HK : Kind ev = 1) :
  ExecuteBatch mit MaxLimit tx [EventInsertTask [ev]] = Ok (tx, [Some ErrBoltPut]).
Proof.
  pose proof HI as [HR HU HT _]. rewrite ExecuteBatch_retry. cbn [retryTasks applyTask apply_events].
  destruct (duplication_spec BL mit tx S HR (times_below BL mit MaxLimit tx S HR HU HM HT) ev ltac:(apply Ha)) as [[_ (id & e & Hid & HEq)]|[-> _]].
  { by destruct (Hf id e Hid). }
  unfold insert. rewrite HK. cbn -[insertWithIndexes].
  rewrite (oversized_fails BL mit MaxLimit HM HD); [done|apply Ha|done|by exists p].
Qed.

(** addressable events without a d tag are never replaced, although a missing d
    is the empty address: storing another version keeps every stored one. *)
Theorem dless_versions_accumulate (BL : BoltLaws) (mit MaxLimit : Z) (tx : Tx) (S : gmap Z Event) (ev : Event)
    (HM : 0 < MaxLimit) (HD : derived_total) (HI : store_inv mit tx S) (Ha : admissible ev) (Hfit : fits mit ev)
    (Hf : fresh S ev) (Hseq : seq_of tx + 1 < 2 ^ 64 - 1) (HK : IsParamReplaceableKind (Kind ev) = true)
    (Htags : Forall (fun t : tag => t <> []) (Tags ev))
    (Hno : forall id e vs, S !! id = Some e -> same_coordinate ev e = true -> (bs "d" :: vs) ∉ Tags e) :
  exists tx', insert mit MaxLimit tx ev = Ok tx' /\ store_inv mit tx' (<[seq_of tx + 1 := ev]> S).
Proof.
  destruct (insert_total BL mit MaxLimit HM HD tx S ev) as [tx' HE]; [done..|].
  destruct (findFirstDtagValue_total BL mit MaxLimit HM HD (Tags ev) Htags) as [d Hd].
  destruct (insert_param BL mit MaxLimit HM tx S ev d tx') as (S' & l & HI' & _ & Hl & _ & HS'); [done..|].
  exists tx'. split; [done|]. destruct l as [|x l]; [by rewrite HS' in HI'|]. exfalso. destruct (Hl x ltac:(by left)) as [Hx Hm].
  apply Match_spec in Hm as (_ & HAu & HKi & _ & _ & HTa & _). destruct (HTa (bs "d") [d]) as (vs & v & Hin & _); [apply lookup_singleton_eq|].
  apply (Hno x.1 x.2 vs Hx); [|done]. unfold same_coordinate. specialize (HKi _ eq_refl). apply list_elem_of_singleton in HKi.
  apply (admits_full (Some [PubKey ev])) in HAu; [|constructor; [apply Ha|constructor]|done]. apply list_elem_of_singleton in HAu.
  rewrite HKi, HAu, Z.eqb_refl. by apply bool_decide_eq_true.
Qed.

(** a request with an a tag deletes nothing of another kind, not even the events
    its e tags name, although no k tag restricts it. *)
Theorem coordinate_shields_ids (BL : BoltLaws) (mit MaxLimit : Z) (tx : Tx) (S : gmap Z Event) (ev : Event) (x : Z * gostring * gostring)
    (HM : 0 < MaxLimit) (HD : derived_total) (HI : store_inv mit tx S) (Ha : admissible ev) (Hfit : fits mit ev)
    (Hf : fresh S ev) (Hseq : seq_of tx + 1 < 2 ^ 64 - 1) (HK : IsDeletionKind (Kind ev) = true)
    (Hx : x ∈ a_coords (Tags ev)) (Hk : k_kinds (Tags ev) = []) :
  exists tx' S', insert mit MaxLimit tx ev = Ok tx' /\ store_inv mit tx' S' /\
  forall id e, S !! id = Some e -> Kind e ∉ (a_coords (Tags ev)).*1.*1 -> S' !! id = Some e.
Proof.
  destruct (insert_total BL mit MaxLimit HM HD tx S ev) as [tx' HE]; [done|done|done| |].
  { intros HP. apply param_classes in HP as [HP _]. congruence. }
  destruct (insert_deletion_spec BL mit MaxLimit HM tx S ev tx') as (S' & HI' & _ & HDl); [done..|]. exists tx', S'. split_and!; [done|done|].
  intros id e Hid Hni. destruct (decide (S' !! id = Some e)) as [|Hgone]; [done|]. exfalso.
  destruct (dl_only _ _ _ _ _ _ HDl id e Hid Hgone) as [Hmd _]. unfold may_delete in Hmd. bool_prop.
  assert (HX : x.1.1 ∈ del_kinds (Tags ev)).
  { unfold del_kinds. apply elem_of_difference. split.
    - apply elem_of_union. right. apply elem_of_list_to_set. apply list_elem_of_fmap. exists x.1. split; [done|]. apply list_elem_of_fmap. by exists x.
    - rewrite elem_of_singleton. intros H5. unfold a_coords in Hx. apply list_elem_of_omap in Hx as ([|n [|v t]] & _ & HEq); [done|done|].
      destruct (decide _); [|done]. destruct (ParseATag v) as [[[kind pk] dd]| |] eqn:EP; [|done|done]. injection HEq as <-.
      apply ParseATag_kind in EP as [EK _]. cbn [fst] in H5. by rewrite H5 in EK. }
  match goal with H : _ || _ = true |- _ => apply orb_true_iff in H as [H%bool_decide_eq_true|H%bool_decide_eq_true] end.
  - rewrite H in HX. set_solver.
  - unfold del_kinds in H. rewrite Hk in H. set_solver.
Qed.

End Promises.
