(* ===== verification/StoreDemo.v ===== *)
(** * relay/store.go: a small store

    A store over the finite-map database, with no derived index, on which the
    properties of the store are evaluated; and what the write path does with
    events it was not meant to meet. *)

From S2P Require Import Prelude GoLib GoHeap Bolt Sha256 NostrUtils Pow Event Filter Latest StoreDb StoreInv StoreScan StoreMerge StoreExact StoreQuery StoreEvents StoreLife StoreBatch StoreProps.

(** ** The empty store *)

Definition empty_tx `{!Bolt} `{!Derived} (d : derived) : Tx := mkTx (fun _ => EmptyBucket) EmptyBucket None d.

Lemma empty_inv `{!Bolt} `{!EventJSON} `{!Derived} (BL : BoltLaws) mit d : store_inv mit (empty_tx d) ∅.
Proof.
  destruct (kv_empty BL) as [HK HS]. split.
  - split.
    + unfold seq_of. cbn. lia.
    + intros id ev. by rewrite lookup_empty.
    + intros k v. cbn [empty_tx bucket]. rewrite HK, lookup_empty. split; [done|]. by intros (? & ? & ? & _).
    + intros i k v _. cbn [empty_tx bucket]. rewrite HK, lookup_empty. split; [done|]. by intros (? & ? & ? & _).
  - intros i j e e'. by rewrite lookup_empty.
  - intros id ev. by rewrite lookup_empty.
  - intros i j e e'. by rewrite lookup_empty.
Qed.

(** ** Instances *)

(** A codec for the events of a table: an event is its place in it. *)
Fixpoint place (ev : Event) (l : list Event) : Z :=
  match l with
  | [] => 0
  | e :: l => if decide (ID e = ID ev) then 0 else 1 + place ev l
  end.

Definition table_json (l : list Event) : EventJSON := {|
  MarshalEvent ev := BE.put64 (place ev l);
  UnmarshalEvent b := l !! Z.to_nat (BE.get64 b);
|}.

Definition key_of (c : byte) : gostring := repeat c 64.

(** One author's notes, a profile and its successor, a deletion request. *)
Definition note (c : byte) (t : Z) (ts : tags) : Event := mkEvent (key_of c) (key_of "a"%byte) t 1 ts [] [].
Definition note1 : Event := note "1"%byte 10 [[bs "t"; bs "go"]].
Definition note2 : Event := note "2"%byte 20 [[bs "expiration"; bs "25"]].
Definition profile1 : Event := mkEvent (key_of "3"%byte) (key_of "a"%byte) 30 0 [] [] [].
Definition profile2 : Event := mkEvent (key_of "4"%byte) (key_of "a"%byte) 40 0 [] [] [].
Definition request : Event := mkEvent (key_of "5"%byte) (key_of "a"%byte) 50 5 [[bs "e"; key_of "1"%byte]] [] [].
Definition article : Event := mkEvent (key_of "6"%byte) (key_of "a"%byte) 60 30023 [[bs "d"; bs "post"]] [] [].
Definition article2 : Event := mkEvent (key_of "7"%byte) (key_of "a"%byte) 70 30023 [[bs "d"; bs "post"]] [] [].
Definition bare1 : Event := mkEvent (key_of "8"%byte) (key_of "a"%byte) 80 30023 [] [] [].
Definition bare2 : Event := mkEvent (key_of "9"%byte) (key_of "a"%byte) 90 30023 [] [] [].
Definition mixed : Event := mkEvent (key_of "b"%byte) (key_of "a"%byte) 95 5
  [[bs "e"; key_of "1"%byte]; [bs "a"; bs "30023:" ++ key_of "a"%byte ++ bs ":post"]] [] [].
(** A text of 32760 bytes, known by its length only. *)
Lemma long_text : { v : gostring | zlen v = 32760 }.
Proof. exists (repeat "x"%byte (Z.to_nat 32760)). unfold zlen. rewrite repeat_length. lia. Qed.
Definition long : gostring := proj1_sig long_text.
Definition huge : Event := mkEvent (key_of "c"%byte) (key_of "a"%byte) 96 1 [[bs "t"; long]] [] [].
Definition hollow : Event := mkEvent (key_of "d"%byte) (key_of "a"%byte) 97 30023 [[]] [] [].

Definition table : list Event :=
  [note1; note2; profile1; profile2; request; article; article2; bare1; bare2; mixed; huge].

(** Membership in an explicit list. *)
Ltac listed := repeat (apply elem_of_cons; first [left; reflexivity | right]).

Module Demo.

#[local] Instance demo_bolt : Bolt := MapBolt.map_bolt.
#[local] Instance demo_json : EventJSON := table_json table.
#[local] Instance demo_derived : Derived := no_derived.
#[local] Instance demo_lower : GoLower := ascii_lower.

Lemma demo_laws : BoltLaws.
Proof. exact MapBolt.map_bolt_laws. Qed.

Lemma demo_total : derived_total.
Proof. split; intros; by exists tt. Qed.

Lemma key_ok c : is_hex c = true -> hex32_ok (key_of c).
Proof. destruct c; intros HE; vm_compute in HE; (discriminate HE || (eexists; split; vm_compute; reflexivity)). Qed.

Definition events : list Event := [note1; note2; profile1; profile2; request; article; article2; bare1; bare2; mixed].

Lemma event_ok ev c :
  ID ev = key_of c -> is_hex c = true -> PubKey ev = key_of "a"%byte -> UnmarshalEvent (MarshalEvent ev) = Some ev ->
  (0 <? CreatedAt ev) && (CreatedAt ev <? 2 ^ 64 - 1) && (zlen (MarshalEvent ev) <=? MaxValueSize) &&
  forallb (fun p => zlen p + 16 <=? MaxKeySize) (prepareIndexableTags (Tags ev) 5) = true ->
  admissible ev /\ fits 5 ev.
Proof.
  intros HI Hc HP HJ HB. rewrite !andb_true_iff, !Z.ltb_lt, Z.leb_le, forallb_forall in HB. destruct HB as [[[H1 H2] H3] H4].
  split; [split; [split_and!; [rewrite HP; by apply key_ok|rewrite HI; by apply key_ok|lia|lia|exact HJ]|lia]|].
  split; [done|]. intros p Hp. apply Z.leb_le, H4. by apply list_elem_of_In.
Qed.

Lemma events_ok ev : ev ∈ events -> admissible ev /\ fits 5 ev.
Proof.
  intros Hin. assert (HF : Forall (fun ev => admissible ev /\ fits 5 ev) events).
  { unfold events. repeat (apply Forall_cons_2; [eapply event_ok; [reflexivity|reflexivity|reflexivity|vm_compute; reflexivity|vm_compute; reflexivity]|]).
    apply Forall_nil_2. }
  rewrite Forall_forall in HF. by apply HF.
Qed.

Definition start : Tx := empty_tx tt.

Definition store (tx : Tx) (ev : Event) : Tx := match insert 5 100 tx ev with Ok tx' => tx' | _ => tx end.

(** Storing an event of the table that is not yet stored, none of its kind. *)
Lemma store_plain tx S ev :
  store_inv 5 tx S -> ev ∈ events -> fresh S ev -> seq_of tx + 1 < 2 ^ 64 - 1 ->
  IsDeletionKind (Kind ev) = false -> IsReplaceableKind (Kind ev) = false -> IsParamReplaceableKind (Kind ev) = false ->
  insert 5 100 tx ev = Ok (store tx ev) /\ store_inv 5 (store tx ev) (<[seq_of tx + 1 := ev]> S) /\ seq_of (store tx ev) = seq_of tx + 1.
Proof.
  intros HI Hin Hf Hs K1 K2 K3. destruct (events_ok ev Hin) as [Ha Hfit].
  destruct (insert_total demo_laws 5 100 ltac:(lia) demo_total tx S ev) as [tx' HE]; [done|done|done|by rewrite K3|].
  unfold store. rewrite HE. split; [done|]. apply (insertWithIndexes_inv demo_laws 5 100 ltac:(lia)); [done|done|done|done|done|].
  unfold insert in HE. rewrite K1, K2, K3 in HE. by destruct (IsEphemeralKind (Kind ev)).
Qed.

Definition tx1 : Tx := store start note1.
Definition tx2 : Tx := store tx1 note2.
Definition S1 : gmap Z Event := {[1 := note1]}.
Definition S2 : gmap Z Event := <[2 := note2]> {[1 := note1]}.

Lemma tx1_inv : store_inv 5 tx1 S1 /\ seq_of tx1 = 1.
Proof.
  destruct (store_plain start ∅ note1) as (_ & HI & Hs); [apply empty_inv, demo_laws|by left|by intros ? ? ?|by vm_compute|done..|].
  split; [exact HI|exact Hs].
Qed.

Lemma tx2_inv : store_inv 5 tx2 S2 /\ seq_of tx2 = 2.
Proof.
  destruct tx1_inv as [HI1 Hs1]. destruct (store_plain tx1 S1 note2) as (_ & HI & Hs); [done|by right; left| |by rewrite Hs1|done..|].
  { intros id e Hid. unfold S1 in Hid. apply lookup_singleton_Some in Hid as [_ <-]. by vm_compute. }
  rewrite Hs1 in HI, Hs. split; [exact HI|exact Hs].
Qed.

(** What is stored in the small stores. *)
Lemma S2_lookup id e : S2 !! id = Some e -> (id = 1 /\ e = note1) \/ (id = 2 /\ e = note2).
Proof. unfold S2. rewrite lookup_insert_Some, lookup_singleton_Some. naive_solver. Qed.

Lemma S2_fresh ev : ev ∈ [profile1; profile2; request; article; article2; bare1; bare2; mixed] -> fresh S2 ev.
Proof.
  intros Hin id e He. apply S2_lookup in He. repeat (apply elem_of_cons in Hin as [->|Hin]; [destruct He as [[_ ->]|[_ ->]]; by vm_compute|]).
  by apply elem_of_nil in Hin.
Qed.

Lemma in_events ev : ev ∈ [profile1; profile2; request; article; article2; bare1; bare2; mixed] -> admissible ev /\ fits 5 ev.
Proof. intros Hin. apply events_ok. do 2 apply elem_of_cons, or_intror. exact Hin. Qed.

(** ** The properties at work *)

Lemma findEvents_newest_witness :
  findEvents 100 tx2 (WithTag NewFilter (bs "t") [bs "go"])
  = Ok (map as_potential (take 100 (newest S2 (query_wants S2 (WithTag NewFilter (bs "t") [bs "go"]))))).
Proof.
  destruct tx2_inv as [[HR HU HT _] _].
  apply (findEvents_newest demo_laws 5 100 tx2 S2 (WithTag NewFilter (bs "t") [bs "go"]) HR HU ltac:(lia) HT); [constructor|constructor|].
  intros id ev Hid HM name wanted Hw. apply S2_lookup in Hid as [[_ ->]|[_ ->]]; [|by vm_compute in HM].
  unfold WithTag in Hw. cbn [FTags] in Hw. apply lookup_insert_Some in Hw as [[<- <-]|[_ Hw]]; [|done].
  exists (bs "go"). eexists. split; [by left|]. split; [reflexivity|]. by left.
Defined.

Lemma batch_keeps_store_witness :
  exists tx' S', ExecuteBatch 5 100 tx2 [EventInsertTask [profile1]; EventDeleteTask [1]] = Ok (tx', [None; None]) /\
  store_inv 5 tx' S' /\ grown S2 S' [profile1].
Proof.
  destruct tx2_inv as [HI Hs].
  assert (HX : (match ExecuteBatch 5 100 tx2 [EventInsertTask [profile1]; EventDeleteTask [1]] with Ok r => r.2 | _ => [] end) = [None; None])
    by (vm_compute; reflexivity).
  destruct (ExecuteBatch 5 100 tx2 [EventInsertTask [profile1]; EventDeleteTask [1]]) as [[tx' errs]| |] eqn:E; [|discriminate HX|discriminate HX].
  cbn [snd] in HX. subst errs.
  destruct (batch_keeps_store demo_laws 5 100 tx2 tx' S2 [EventInsertTask [profile1]; EventDeleteTask [1]] [None; None]) as (S' & HI' & HG & _);
    [lia|exact HI| |rewrite Hs; vm_compute; reflexivity|exact E|].
  { repeat constructor; try lia; by apply in_events; left. }
  exists tx', S'. split; [reflexivity|]. split; [exact HI'|exact HG].
Defined.

Lemma duplicate_refused_witness :
  ExecuteBatch 5 100 tx2 [EventInsertTask [note1]] = Ok (tx2, [Some ErrEventDuplicated]).
Proof.
  destruct tx2_inv as [HI _]. apply (duplicate_refused demo_laws 5 100 tx2 S2 note1 ltac:(lia) HI); [apply events_ok; by left|].
  exists 1, note1. done.
Defined.

Lemma batch_isolates_witness :
  ExecuteBatch 5 100 start ([EventInsertTask [note1]] ++ EventInsertTask [mkEvent (bs "zz") [] 1 1 [] [] []] :: [EventInsertTask [note2]])
  = (r ← ExecuteBatch 5 100 tx1 [EventInsertTask [note2]]; Ok (r.1, [None] ++ Some ErrHexKey :: r.2)).
Proof.
  destruct (proj2 (batch_isolates 5 100 start) [EventInsertTask [note1]] (EventInsertTask [mkEvent (bs "zz") [] 1 1 [] [] []])
    [EventInsertTask [note2]] tx1 [None] ErrHexKey) as [HX _]; [|reflexivity|exact HX].
  destruct (store_plain start ∅ note1) as (HE & _); [apply empty_inv, demo_laws|by left|by intros ? ? ?|by vm_compute|done..|].
  rewrite ExecuteBatch_retry. cbn [retryTasks applyTask apply_events].
  assert (HC : checkEventDuplication start note1 = Ok tt) by (vm_compute; reflexivity). rewrite HC, HE. reflexivity.
Defined.

Lemma replaceable_latest_witness :
  exists tx', insert 5 100 tx2 profile1 = Ok tx' /\ store_inv 5 tx' (<[3 := profile1]> S2).
Proof.
  destruct tx2_inv as [HI Hs]. destruct (in_events profile1 ltac:(by left)) as [Ha Hfit].
  destruct (replaceable_latest demo_laws 5 100 tx2 S2 profile1 ltac:(lia) demo_total HI Ha Hfit (S2_fresh profile1 ltac:(by left))) as [HX _];
    [rewrite Hs; vm_compute; reflexivity|reflexivity|].
  rewrite Hs in HX. exact HX.
Defined.

Lemma addressable_latest_witness :
  exists tx' S' i w, insert 5 100 tx2 article = Ok tx' /\ store_inv 5 tx' S' /\
    latest_only (paramFilter (key_of "a"%byte) 30023 (bs "post") 0 0) S2 S' 3 article i w.
Proof.
  destruct tx2_inv as [HI Hs]. destruct (in_events article ltac:(listed)) as [Ha Hfit].
  replace 3 with (seq_of tx2 + 1) by (by rewrite Hs).
  apply (addressable_latest demo_laws 5 100 tx2 S2 article (bs "post") ltac:(lia) demo_total HI Ha Hfit (S2_fresh article ltac:(listed)));
    [rewrite Hs; vm_compute; reflexivity|reflexivity|repeat constructor; discriminate|reflexivity| |vm_compute; reflexivity].
  assert (Hno : forall id ev, S2 !! id = Some ev -> Match (paramFilter (key_of "a"%byte) 30023 (bs "post") 0 0) ev = false)
    by (intros id ev [[_ ->]|[_ ->]]%S2_lookup; vm_compute; reflexivity).
  split; [intros id ev Hid HMt; exfalso; specialize (Hno id ev Hid); unfold article in HMt; cbn [PubKey Kind] in HMt; rewrite HMt in Hno; discriminate Hno|vm_compute; discriminate].
Defined.


Lemma insert_accepts_witness :
  exists tx' S', ExecuteBatch 5 100 tx2 [EventInsertTask [article]] = Ok (tx', [None]) /\ store_inv 5 tx' S' /\ evolves S2 S' 3 article /\ kept S2 S' 3 article.
Proof.
  destruct tx2_inv as [HI Hs]. destruct (in_events article ltac:(listed)) as [Ha Hfit].
  replace 3 with (seq_of tx2 + 1) by (by rewrite Hs).
  apply (insert_accepts demo_laws 5 100 tx2 S2 article ltac:(lia) demo_total HI Ha Hfit (S2_fresh article ltac:(listed)));
    [rewrite Hs; vm_compute; reflexivity|]. intros _. repeat constructor; discriminate.
Defined.

Lemma expiry_exact_witness :
  exists t, pruneExpiredEvents tx2 25 = Ok t /\
  match t with
  | None => forall id ev, S2 !! id = Some ev -> ~ expired 25 ev
  | Some task => exists tx', ExecuteBatch 5 100 tx2 [task] = Ok (tx', [None]) /\
      store_inv 5 tx' (base.filter (fun x => ~ (S2 !! x.1 = Some x.2 /\ expired 25 x.2)) S2)
  end.
Proof.
  destruct tx2_inv as [HI Hs].
  apply (expiry_exact demo_laws 5 100 tx2 tx2 S2 S2 25 ltac:(lia) demo_total HI HI ltac:(lia)). intros id e Hid. by left.
Defined.

Lemma empty_tag_panics_witness :
  Validate hollow = Ok tt /\ forall tasks, ExecuteBatch 5 100 tx2 (EventInsertTask [hollow] :: tasks) = Panic.
Proof.
  split; [vm_compute; reflexivity|].
  apply (empty_tag_panics 5 100 tx2 hollow []); [reflexivity|reflexivity|vm_compute; reflexivity].
Defined.

Lemma oversized_tag_refused_witness :
  zlen long < 0xFFFF /\ ExecuteBatch 5 100 tx2 [EventInsertTask [huge]] = Ok (tx2, [Some ErrBoltPut]).
Proof.
  pose proof (proj2_sig long_text) as HL. fold long in HL. split; [rewrite HL; reflexivity|]. destruct tx2_inv as [HI Hs].
  set (p := bs "t" ++ [z2b (Z.shiftr 32760 8); z2b 32760] ++ long).
  assert (HT : tagIndexPrefix (bs "t") long = Some p) by (unfold tagIndexPrefix; cbn [bs]; rewrite HL; reflexivity).
  apply (oversized_tag_refused demo_laws 5 100 tx2 S2 huge p ltac:(lia) demo_total HI).
  - split; [split_and!; [by apply key_ok|by apply key_ok|vm_compute; discriminate|vm_compute; reflexivity|reflexivity]|split; vm_compute; reflexivity].
  - intros id e [[_ ->]|[_ ->]]%S2_lookup; by vm_compute.
  - vm_compute. discriminate.
  - unfold prepareIndexableTags. cbn [huge Tags indexable_from]. change (is_ok (ValidateIndexableTag (bs "t"))) with true. rewrite HT. by left.
  - unfold p. rewrite !zlen_app, HL. vm_compute. reflexivity.
  - reflexivity.
Defined.

Lemma dless_versions_accumulate_witness :
  ReplaceableAddress bare1 = ReplaceableAddress bare2 /\ Supersedes bare2 bare1 = true /\
  exists tx tx', insert 5 100 tx2 bare1 = Ok tx /\ insert 5 100 tx bare2 = Ok tx' /\ store_inv 5 tx' (<[4 := bare2]> (<[3 := bare1]> S2)).
Proof.
  split; [vm_compute; reflexivity|]. split; [vm_compute; reflexivity|]. destruct tx2_inv as [HI Hs].
  destruct (in_events bare1 ltac:(listed)) as [Ha1 Hf1]. destruct (in_events bare2 ltac:(listed)) as [Ha2 Hf2].
  destruct (dless_versions_accumulate demo_laws 5 100 tx2 S2 bare1 ltac:(lia) demo_total HI Ha1 Hf1 (S2_fresh bare1 ltac:(listed)))
    as (tx & HE & HI1); [rewrite Hs; vm_compute; reflexivity|reflexivity|constructor| |].
  { intros id e vs [[_ ->]|[_ ->]]%S2_lookup Hsc; vm_compute in Hsc; discriminate Hsc. }
  rewrite Hs in HI1. assert (Hst : seq_of tx = 3).
  { assert (Hs2 : seq_of tx2 + 1 < 2 ^ 64 - 1) by (rewrite Hs; reflexivity).
    assert (Hfr2 : fresh S2 bare1) by (apply S2_fresh; listed).
    destruct (insert_inv demo_laws 5 100 eq_refl tx2 S2 bare1 tx HI Ha1 Hfr2 Hs2 HE) as (S' & _ & _ & Hb).
    pose proof HI1 as [HR1 _ _ _]. destruct (rep_ids _ _ _ HR1 3 bare1) as [Hr _]; [apply lookup_insert_eq|]. lia. }
  assert (Hfr : fresh (<[3 := bare1]> S2) bare2).
  { intros id e. rewrite lookup_insert_Some. intros [[_ <-]|[_ He]]; [by vm_compute|]. by eapply (S2_fresh bare2 ltac:(listed)). }
  destruct (dless_versions_accumulate demo_laws 5 100 tx (<[3 := bare1]> S2) bare2 ltac:(lia) demo_total HI1 Ha2 Hf2 Hfr)
    as (tx' & HE' & HI2); [rewrite Hst; vm_compute; reflexivity|reflexivity|constructor| |].
  { intros id e vs. rewrite lookup_insert_Some. intros [[_ <-]|[_ [[_ ->]|[_ ->]]%S2_lookup]] Hsc; [|vm_compute in Hsc; discriminate Hsc..].
    intros Hin. by apply elem_of_nil in Hin. }
  rewrite Hst in HI2. exists tx, tx'. split; [exact HE|]. split; [exact HE'|exact HI2].
Defined.

Lemma coordinate_shields_ids_witness :
  e_ids (Tags mixed) = [ID note1] /\
  exists tx' S', insert 5 100 tx2 mixed = Ok tx' /\ store_inv 5 tx' S' /\ S' !! 1 = Some note1.
Proof.
  split; [vm_compute; reflexivity|]. destruct tx2_inv as [HI Hs]. destruct (in_events mixed ltac:(listed)) as [Ha Hfit].
  destruct (coordinate_shields_ids demo_laws 5 100 tx2 S2 mixed (30023, key_of "a"%byte, bs "post") ltac:(lia) demo_total HI Ha Hfit
    (S2_fresh mixed ltac:(listed))) as (tx' & S' & HE & HI' & Hkeep); [rewrite Hs; vm_compute; reflexivity|reflexivity| |vm_compute; reflexivity|].
  { replace (a_coords (Tags mixed)) with [(30023, key_of "a"%byte, bs "post")] by (vm_compute; reflexivity). by left. }
  exists tx', S'. split; [exact HE|]. split; [exact HI'|]. apply Hkeep; [reflexivity|].
  replace (a_coords (Tags mixed)) with [(30023, key_of "a"%byte, bs "post")] by (vm_compute; reflexivity). cbn.
  by intros ?%list_elem_of_singleton.
Defined.

End Demo.
