(* ===== verification/StoreTail.v ===== *)
(** * relay/store.go: the live tail

    [scanTail] and [tailCandidate]: a query that has scanned once reads what has
    arrived since, by arrival number.  Each round opens two transactions, one
    for the sequence and one for the events; [snap] is what they see.  The store
    is not closed and a scan slot is free. *)

From S2P Require Import Prelude GoLib GoHeap Bolt Sha256 NostrUtils Pow Event Filter StoreDb StoreInv StoreScan StoreMerge StoreExact StoreQuery StoreEvents StoreLife StoreDemo.

Section Tail.
Context {Bolt0 : Bolt} {JSON0 : EventJSON} {Derived0 : Derived} {GoLower0 : GoLower}.

Definition tailCandidate (ss : scanContext) (sent : gset Z) (evsid : Z) (raw : gostring) : outcome StoreErr (option PotentialEvent) :=
  if bool_decide (evsid ∈ sent) then Ok None
  else
    event ← of_opt (UnmarshalEvent raw) ErrEventJSON;
    if hasBeforeID ss && (CreatedAt event =? Until (filter ss)) && (beforeIDEvsid ss <=? evsid) then Ok None
    else if negb (Match (filter ss) event) then Ok None
    else Ok (Some (mkPE evsid (CreatedAt event) (ID event) raw)).

Record tailState := mkTail { t_last : Z; t_more : bool; t_sent : gset Z; t_batch : list PotentialEvent }.

(** The loop over the pairs from the watermark on; [examined] so far. *)
Fixpoint tail_loop (ss : scanContext) (seq : Z) (l : list (gostring * gostring)) (examined : Z) (t : tailState) : outcome StoreErr tailState :=
  match l with
  | [] => Ok t
  | (k, v) :: l =>
      evsid ← btoi k;
      if seq <? evsid then Ok t
      else
        pe ← tailCandidate ss (t_sent t) evsid v;
        let t := match pe with
                 | Some pe => mkTail evsid (t_more t) ({[evsid]} ∪ t_sent t) (t_batch t ++ [pe])
                 | None => mkTail evsid (t_more t) (t_sent t) (t_batch t)
                 end in
        if maxCursorChunk <=? examined + 1 then Ok (mkTail (t_last t) true (t_sent t) (t_batch t))
        else tail_loop ss seq l (examined + 1) t
  end.

(** Newest first, then the latest arrival: the comparison of SortFunc. *)
Definition pe_newer (a b : PotentialEvent) : Prop := newer (pair_of a) (pair_of b).
#[global] Instance pe_newer_dec : RelDecision pe_newer.
Proof. intros a b. unfold pe_newer. apply _. Defined.

Definition set_last (s : storeScan) (last : Z) : storeScan :=
  mkScan (cursors s) last (hasWatermark s) (capped s) (scanned s) (sctx s).

(** The rounds of scanTail; None when the rounds allowed run out. *)
Fixpoint scan_tail (fuel : nat) (snap : nat -> Tx) (round : nat) (s : storeScan) (sent : gset Z) (out : list PotentialEvent)
    : option (outcome StoreErr (list PotentialEvent * storeScan * gset Z)) :=
  match fuel with
  | O => None
  | Datatypes.S fuel =>
      if Sequence (bucket (snap (2 * round)%nat) indexEvents) <=? lastMaxEvsid s then Some (Ok (out, s, sent))
      else
        let b := bucket (snap (2 * round + 1)%nat) indexEvents in
        let seq := Sequence b in
        match tail_loop (sctx s) seq (ascend b (itob (u64 (lastMaxEvsid s + 1)))) 0 (mkTail (lastMaxEvsid s) false sent []) with
        | Err e => Some (Err e)
        | Panic => Some Panic
        | Ok t =>
            let s := set_last s (if t_more t then t_last t else seq) in
            let out := out ++ merge_sort pe_newer (t_batch t) in
            if t_more t then scan_tail fuel snap (Datatypes.S round) s (t_sent t) out
            else Some (Ok (out, s, t_sent t))
        end
  end.

Definition scanTail (fuel : nat) (snap : nat -> Tx) (s : storeScan) (sent : gset Z)
    : option (outcome StoreErr (list PotentialEvent * storeScan * gset Z)) := scan_tail fuel snap 0 s sent [].

(** scan as a subscription calls it, with no transaction of the caller's: the
    tail once a watermark is known. *)
Definition Scan (fuel : nat) (snap : nat -> Tx) (fetchUntilEmpty : bool) (s : storeScan) (sent : gset Z)
    : option (outcome StoreErr (list PotentialEvent * storeScan * gset Z)) :=
  match cursors s with
  | [] => Some (Ok ([], s, sent))
  | _ => if fetchUntilEmpty && hasWatermark s then scanTail fuel snap s sent else scan fuel snap fetchUntilEmpty s sent
  end.

Lemma Scan_first fuel snap s sent : Scan fuel snap false s sent = scan fuel snap false s sent.
Proof. unfold Scan, scan. by destruct (cursors s). Qed.

Lemma Scan_tail fuel snap s sent : hasWatermark s = true -> cursors s <> [] -> Scan fuel snap true s sent = scanTail fuel snap s sent.
Proof. intros HW HC. unfold Scan. rewrite HW. by destruct (cursors s). Qed.

(** ** What the tail delivers *)

(** What is wanted of an event that arrives. *)
Definition tail_wants (ss : scanContext) (sent : gset Z) (x : Z * Event) : bool :=
  negb (bool_decide (x.1 ∈ sent)) &&
  negb (hasBeforeID ss && (CreatedAt x.2 =? Until (filter ss)) && (beforeIDEvsid ss <=? x.1)) && Match (filter ss) x.2.

Definition enc (x : Z * Event) : gostring * gostring := (itob x.1, MarshalEvent x.2).

Definition arrived (x y : Z * Event) : Prop := x.1 < y.1.

Context (BL : BoltLaws) (mit : Z) (tx : Tx) (S : gmap Z Event) (HR : represents mit tx S).
#[local] Set Default Proof Using "All".

(** The pairs from a number on are the events that arrived from it on, in order. *)
Lemma ascend_arrivals w : 0 <= w < 2 ^ 64 ->
  exists xs, ascend (bucket tx indexEvents) (itob w) = map enc xs /\
  (forall x, x ∈ xs <-> S !! x.1 = Some x.2 /\ w <= x.1) /\ StronglySorted arrived xs.
Proof.
  intros Hw. destruct (ascend_spec BL (bucket tx indexEvents) (itob w)) as [HA HS]. set (l := ascend _ _) in *.
  assert (Hrange : forall id ev, S !! id = Some ev -> 0 < id < 2 ^ 64) by (intros id ev Hid; pose proof (rep_seq _ _ _ HR); apply (rep_ids _ _ _ HR) in Hid as [? _]; lia).
  assert (Hcmp : forall a b, 0 <= a < 2 ^ 64 -> 0 <= b < 2 ^ 64 -> Cmp.ltb (itob a) (itob b) = (a <? b)).
  { intros a b Ha Hb. unfold Cmp.ltb, itob. rewrite BE.compare_put64 by done. by destruct (Z.compare_spec a b), (Z.ltb_spec a b); try lia. }
  assert (HX : exists xs, l = map enc xs /\ forall x, x ∈ xs -> S !! x.1 = Some x.2).
  { assert (HF : forall y, y ∈ l -> exists x, y = enc x /\ S !! x.1 = Some x.2).
    { intros [k v] Hy. apply HA in Hy as [Hk _]. apply (rep_events _ _ _ HR) in Hk as (id & ev & Hid & -> & ->). by exists (id, ev). }
    clear HA HS. clearbody l. induction l as [|y l IH]; [exists []; split; [done|by intros ? ?%elem_of_nil]|].
    destruct (HF y ltac:(by left)) as (x & -> & Hx). destruct IH as (xs & -> & Hxs); [intros z Hz; apply HF; by right|].
    exists (x :: xs). split; [done|]. intros z [->|Hz]%elem_of_cons; [done|by apply Hxs]. }
  destruct HX as (xs & HE & Hxs). exists xs. split; [done|]. split.
  - intros [id ev]. cbn [fst snd]. split.
    + intros Hin. pose proof (Hxs _ Hin) as Hid. cbn [fst snd] in Hid. split; [done|].
      assert (Hl : (itob id, MarshalEvent ev) ∈ l) by (rewrite HE; apply list_elem_of_fmap; by exists (id, ev)).
      apply HA in Hl as [_ Hlt]. rewrite Hcmp in Hlt by (apply Hrange in Hid; lia). apply Z.ltb_ge in Hlt. done.
    + intros [Hid Hle]. assert (Hl : (itob id, MarshalEvent ev) ∈ l).
      { apply HA. split; [apply (rep_events _ _ _ HR); by exists id, ev|]. rewrite Hcmp by (apply Hrange in Hid; lia). by apply Z.ltb_ge. }
      rewrite HE in Hl. apply list_elem_of_fmap in Hl as ([id' ev'] & HEq & Hin). pose proof (Hxs _ Hin) as Hid'. cbn [fst snd] in Hid'.
      apply (f_equal fst) in HEq. unfold enc in HEq. cbn [fst] in HEq. apply itob_inj in HEq as ->; [|apply Hrange in Hid, Hid'; lia..].
      by replace ev with ev' by congruence.
  - rewrite HE in HS. clear HE HA. induction xs as [|x xs IH]; [constructor|]. inversion HS as [|? ? HS' HF]; subst.
    constructor; [apply IH; [done|intros y Hy; apply Hxs; by right]|]. apply Forall_forall. intros y Hy. rewrite Forall_forall in HF.
    specialize (HF (enc y) ltac:(apply list_elem_of_fmap; by exists y)). unfold before, enc in HF. cbn [fst] in HF.
    pose proof (Hrange _ _ (Hxs x ltac:(by left))). pose proof (Hrange _ _ (Hxs y ltac:(by right))). rewrite Hcmp in HF by lia.
    unfold arrived. by apply Z.ltb_lt.
Qed.

Lemma btoi_itob id : 0 <= id < 2 ^ 64 -> btoi (itob id) = Ok id.
Proof.
  intros Hid. unfold btoi. rewrite length_itob. cbn. unfold itob. by rewrite <- (app_nil_r (BE.put64 id)), BE.get64_put64.
Qed.

Lemma tailCandidate_spec ss sent x : ev_ok x.2 ->
  tailCandidate ss sent x.1 (MarshalEvent x.2) = Ok (if tail_wants ss sent x then Some (as_potential x) else None).
Proof.
  intros (_ & _ & _ & HJ). unfold tailCandidate, tail_wants. rewrite HJ. cbn [of_opt mbind outcome_bind].
  destruct (bool_decide (x.1 ∈ sent)); [done|]. cbn [negb andb]. destruct (hasBeforeID ss && _ && _); [done|]. cbn [negb andb].
  by destruct (Match (filter ss) x.2).
Qed.

Definition wanted_of (ss : scanContext) (sent : gset Z) (xs : list (Z * Event)) : list (Z * Event) := List.filter (tail_wants ss sent) xs.

(** One round over the arrivals. *)
Lemma tail_loop_spec ss seq sent0 xs examined t :
  (forall x, x ∈ xs -> S !! x.1 = Some x.2 /\ x.1 <= seq) -> StronglySorted arrived xs ->
  (forall x, x ∈ xs -> x.1 ∈ t_sent t <-> x.1 ∈ sent0) -> 0 <= examined < maxCursorChunk ->
  exists xs1 xs2 t', xs = xs1 ++ xs2 /\ tail_loop ss seq (map enc xs) examined t = Ok t' /\
    t_batch t' = t_batch t ++ map as_potential (wanted_of ss sent0 xs1) /\
    t_sent t' = t_sent t ∪ list_to_set (wanted_of ss sent0 xs1).*1 /\
    (t_last t' = t_last t /\ xs1 = [] \/ exists x, x ∈ xs1 /\ t_last t' = x.1 /\ (forall y, y ∈ xs1 -> y.1 <= x.1) /\ forall y, y ∈ xs2 -> x.1 < y.1) /\
    (t_more t' = t_more t /\ xs2 = [] \/ t_more t' = true /\ xs1 <> [] /\ examined + zlen xs1 = maxCursorChunk).
Proof.
  revert examined t. induction xs as [|x xs IH]; intros examined t Hxs HS Hsent Hex; cbn [map tail_loop].
  { exists [], [], t. cbn. rewrite app_nil_r, union_empty_r_L. split_and!; [done|done|done|done|by left|by left]. }
  inversion HS as [|? ? HS' HF]; subst. rewrite Forall_forall in HF. destruct (Hxs x ltac:(by left)) as [Hx Hle].
  pose proof (rep_seq _ _ _ HR) as Hseq. destruct (rep_ids _ _ _ HR _ _ Hx) as [Hid Hok]. unfold enc at 1. rewrite btoi_itob by lia. cbn [mbind outcome_bind].
  rewrite (proj2 (Z.ltb_ge _ _)) by done. rewrite tailCandidate_spec by done. cbn [mbind outcome_bind].
  assert (Hwx : tail_wants ss (t_sent t) x = tail_wants ss sent0 x).
  { unfold tail_wants. do 3 f_equal. apply bool_decide_ext. apply Hsent. by left. }
  rewrite Hwx. set (t1 := match (if tail_wants ss sent0 x then Some (as_potential x) else None) with
    | Some pe => mkTail x.1 (t_more t) ({[x.1]} ∪ t_sent t) (t_batch t ++ [pe]) | None => mkTail x.1 (t_more t) (t_sent t) (t_batch t) end).
  assert (Ht1 : t_batch t1 = t_batch t ++ map as_potential (wanted_of ss sent0 [x]) /\ t_sent t1 = t_sent t ∪ list_to_set (wanted_of ss sent0 [x]).*1 /\
    t_last t1 = x.1 /\ t_more t1 = t_more t).
  { subst t1. unfold wanted_of. cbn [List.filter]. destruct (tail_wants ss sent0 x); cbn; rewrite ?app_nil_r, ?union_empty_r_L; split_and!; try done. by rewrite union_comm_L. }
  clearbody t1. destruct Ht1 as (HB & HSe & HL & HMo).
  destruct (Z.leb_spec maxCursorChunk (examined + 1)) as [Hfull|Hmore].
  - exists [x], xs. eexists. split_and!; [done|reflexivity|done|done| |].
    + right. exists x. split_and!; [by left|done|by intros y ->%list_elem_of_singleton|exact HF].
    + right. split_and!; [done|done|]. unfold zlen. cbn [length]. lia.
  - destruct (IH (examined + 1) t1) as (xs1 & xs2 & t' & -> & HE & HB' & HSe' & HLa & HMo');
      [intros y Hy; apply Hxs; by right|done| |lia|].
    { intros y Hy. rewrite HSe, elem_of_union, elem_of_list_to_set, Hsent by (by right). split; [|tauto]. intros [|Hin]; [done|]. exfalso.
      apply list_elem_of_fmap in Hin as (z & HEq & Hz). unfold wanted_of in Hz. apply list_elem_of_In, filter_In in Hz as [Hz%list_elem_of_In _].
      apply list_elem_of_singleton in Hz as ->. specialize (HF y Hy). unfold arrived in HF. lia. }
    exists (x :: xs1), xs2, t'. assert (HW : wanted_of ss sent0 (x :: xs1) = wanted_of ss sent0 [x] ++ wanted_of ss sent0 xs1).
    { unfold wanted_of. cbn [List.filter]. by destruct (tail_wants ss sent0 x). }
    rewrite HW. split_and!; [done|done|by rewrite HB', HB, map_app, app_assoc|by rewrite HSe', HSe, fmap_app, list_to_set_app_L, union_assoc_L| |].
    + destruct HLa as [[HLa ->]|(z & Hz & HLa & Hbefore & Hafter)]; right.
      * exists x. split_and!; [by left|congruence|by intros y ->%list_elem_of_singleton|]. intros y Hy. apply HF. by rewrite app_nil_l.
      * exists z. split_and!; [by right|done| |done]. intros y [->|Hy]%elem_of_cons; [|by apply Hbefore].
        specialize (HF z ltac:(apply elem_of_app; by left)). unfold arrived in HF. lia.
    + destruct HMo' as [[HM ->]|(HM & _ & Hn)]; [left; split; [congruence|done]|right; split_and!; [done|done|]]. rewrite zlen_cons. lia.
Qed.

(** The arrivals after a number. *)
Definition arrivals (w : Z) (xs : list (Z * Event)) : Prop :=
  (forall x, x ∈ xs <-> S !! x.1 = Some x.2 /\ w < x.1) /\ StronglySorted arrived xs.

Lemma arrivals_exist w : 0 <= w < 2 ^ 64 - 1 ->
  exists xs, ascend (bucket tx indexEvents) (itob (u64 (w + 1))) = map enc xs /\ arrivals w xs.
Proof.
  intros Hw. unfold wrap. rewrite Z.mod_small by lia. destruct (ascend_arrivals (w + 1)) as (xs & HE & HI & HS); [lia|].
  exists xs. split; [done|]. split; [|done]. intros x. rewrite HI. split; intros [? ?]; (split; [done|lia]).
Qed.

Lemma arrivals_nil w xs : arrivals w xs -> seq_of tx <= w -> xs = [].
Proof.
  intros [HI _] Hw. apply elem_of_nil_inv. intros x Hx. apply HI in Hx as [Hx Hlt]. apply (rep_ids _ _ _ HR) in Hx as [? _]. lia.
Qed.

Lemma wanted_more ss sent xs1 xs2 : StronglySorted arrived (xs1 ++ xs2) ->
  wanted_of ss (sent ∪ list_to_set (wanted_of ss sent xs1).*1) xs2 = wanted_of ss sent xs2.
Proof.
  intros HS. apply filter_ext_in. intros y Hy%list_elem_of_In. unfold tail_wants. do 3 f_equal. apply bool_decide_ext.
  rewrite elem_of_union, elem_of_list_to_set. split; [|tauto]. intros [|Hin]; [done|]. exfalso.
  apply list_elem_of_fmap in Hin as (z & HEq & Hz). unfold wanted_of in Hz. apply list_elem_of_In, filter_In in Hz as [Hz%list_elem_of_In _].
  apply StronglySorted_app in HS as (HS & _). specialize (HS z y Hz Hy). unfold arrived in HS. lia.
Qed.

Lemma wanted_app ss sent xs1 xs2 : wanted_of ss sent (xs1 ++ xs2) = wanted_of ss sent xs1 ++ wanted_of ss sent xs2.
Proof. apply List.filter_app. Qed.

#[local] Instance arrived_antisymm : AntiSymm (=) arrived.
Proof. intros x y H1 H2. unfold arrived in *. lia. Qed.
#[local] Instance pe_newer_trans : Transitive pe_newer.
Proof. intros a b c. unfold pe_newer. apply newer_trans. Qed.

Lemma scan_tail_spec fuel round s sent out :
  0 <= lastMaxEvsid s < 2 ^ 64 - 1 -> forall xs, arrivals (lastMaxEvsid s) xs -> (length xs < fuel)%nat ->
  exists o, scan_tail fuel (fun _ => tx) round s sent out
    = Some (Ok (out ++ o, set_last s (Z.max (lastMaxEvsid s) (seq_of tx)), sent ∪ list_to_set (wanted_of (sctx s) sent xs).*1)) /\
  o ≡ₚ map as_potential (wanted_of (sctx s) sent xs) /\ (zlen xs < maxCursorChunk -> StronglySorted pe_newer o).
Proof.
  revert round s sent out. induction fuel as [|fuel IH]; intros round s sent out Hw xs HX Hf; [lia|]. cbn [scan_tail].
  change (Sequence (bucket tx indexEvents)) with (seq_of tx). destruct (Z.leb_spec (seq_of tx) (lastMaxEvsid s)) as [Hle|Hlt].
  { exists []. rewrite (arrivals_nil _ _ HX Hle). cbn. rewrite app_nil_r, union_empty_r_L, Z.max_l by done. split; [by destruct s|]. split; [done|constructor]. }
  destruct (arrivals_exist (lastMaxEvsid s) Hw) as (xs' & HE & HX').
  assert (xs' = xs) as ->.
  { destruct HX as [H1 H2], HX' as [H1' H2']. assert (HN : forall l, StronglySorted arrived l -> NoDup l).
    { clear. induction 1 as [|x l _ IH HF]; constructor; [|done]. intros Hin. rewrite Forall_forall in HF. specialize (HF x Hin). unfold arrived in HF. lia. }
    apply (StronglySorted_unique arrived); [done|done|]. apply NoDup_Permutation; [by apply HN|by apply HN|]. intros x. by rewrite H1, H1'. }
  destruct HX as [HI HS]. rewrite HE.
  destruct (tail_loop_spec (sctx s) (seq_of tx) sent xs 0 (mkTail (lastMaxEvsid s) false sent [])) as (xs1 & xs2 & t & -> & -> & HB & HSe & HLa & HMo);
    [|done|done|by vm_compute|].
  { intros x Hx. apply HI in Hx as [Hx _]. split; [done|]. apply (rep_ids _ _ _ HR) in Hx as [? _]. lia. }
  cbn [t_batch t_sent t_more t_last app] in HB, HSe, HMo, HLa. rewrite HB, HSe.
  assert (HP1 : merge_sort pe_newer (map as_potential (wanted_of (sctx s) sent xs1)) ≡ₚ map as_potential (wanted_of (sctx s) sent xs1)) by apply merge_sort_Permutation.
  destruct HMo as [[-> ->]|(-> & Hne & Hn)].
  - rewrite app_nil_r in *. eexists. split; [by rewrite Z.max_r by lia|]. split; [done|]. intros _. apply Sorted_StronglySorted; [apply _|].
    apply Sorted_merge_sort. intros a b. unfold pe_newer. apply newer_total.
  - destruct HLa as [[_ ->]|(x & Hx & HLx & Hbefore & Hafter)]; [done|].
    assert (HX2 : arrivals x.1 xs2).
    { split; [|by apply StronglySorted_app in HS as (_ & _ & ?)]. assert (Hxw : lastMaxEvsid s < x.1) by (apply (HI x), elem_of_app; by left). intros y. split.
      - intros Hy. split; [by apply (HI y), elem_of_app; right|by apply Hafter].
      - intros [Hy Hxy]. assert (Hin : y ∈ xs1 ++ xs2) by (apply HI; split; [done|lia]). apply elem_of_app in Hin as [Hin|]; [|done].
        specialize (Hbefore y Hin). lia. }
    assert (Hx2 : 0 <= x.1 <= seq_of tx /\ seq_of tx < 2 ^ 64 - 1).
    { destruct (proj1 (HI x) ltac:(apply elem_of_app; by left)) as [Hid _]. pose proof (rep_seq _ _ _ HR). apply (rep_ids _ _ _ HR) in Hid as [? _]. lia. }
    rewrite HLx. destruct (IH (Datatypes.S round) (set_last s x.1) (sent ∪ list_to_set (wanted_of (sctx s) sent xs1).*1)
      (out ++ merge_sort pe_newer (map as_potential (wanted_of (sctx s) sent xs1)))) with (xs := xs2) as (o & HEq & HPo & _);
      [cbn [set_last lastMaxEvsid]; lia|done| |].
    { rewrite length_app in Hf. destruct xs1; [done|]. cbn in Hf. lia. }
    cbn [set_last sctx lastMaxEvsid] in HEq, HPo. rewrite wanted_more in HEq, HPo by done. rewrite HEq. eexists. split.
    + rewrite <- app_assoc, wanted_app, fmap_app, list_to_set_app_L, union_assoc_L. by rewrite !Z.max_r by lia.
    + split; [by rewrite wanted_app, map_app, HPo, HP1|]. rewrite zlen_app. unfold zlen in *. lia.
Qed.

End Tail.

(** ** What a scan leaves behind *)

Section Frame.
Context {Bolt0 : Bolt} {JSON0 : EventJSON} {Derived0 : Derived} {GoLower0 : GoLower}.

(** A scan only moves candidates: everything else of its context stays. *)
Definition framed (ss ss' : scanContext) : Prop := exists q Q, ss' = set_queue ss q Q.

Lemma framed_refl ss : framed ss ss.
Proof. exists (queueEvents ss), (queued ss). by rewrite set_queue_id. Qed.

Lemma framed_trans ss1 ss2 ss3 : framed ss1 ss2 -> framed ss2 ss3 -> framed ss1 ss3.
Proof. intros (q & Q & ->) (q' & Q' & ->). exists q', Q'. by rewrite set_queue_twice. Qed.

Lemma framed_queue ss q Q : framed ss (set_queue ss q Q).
Proof. by exists q, Q. Qed.

#[local] Hint Resolve framed_refl framed_queue : core.

Lemma match_entry_framed sc ss sent k v ss' r : match_entry sc ss sent k v = Ok (ss', r) -> framed ss ss'.
Proof.
  unfold match_entry. destruct (negb _); [by intros [= <- _]|]. destruct (parseKey sc k) as [[b id]| |]; cbn [mbind outcome_bind]; [|done|done].
  destruct (bool_decide _ || _); [by intros [= <- _]|]. destruct (btoi v); cbn [mbind outcome_bind]; [|done|done].
  destruct (skipped _ _ _ _); intros [= <- _]; auto.
Qed.

Lemma collect_framed sc fue sent l ss limit res ss' res' : collect sc fue sent l ss limit res = Ok (ss', res') -> framed ss ss'.
Proof.
  revert ss limit res. induction l as [|[k v] l IH]; intros ss limit res; cbn [collect]; [by intros [= <- _]|].
  destruct (negb _); [by intros [= <- _]|]. destruct (fue && _ && _); [apply IH|].
  destruct (btoi v); cbn [mbind outcome_bind]; [|done|done]. destruct ((_ <? _) && _); [by intros [= <- _]|].
  destruct (match_entry _ _ _ _ _) as [[ss1 r]| |] eqn:EM; cbn [mbind outcome_bind]; [|done|done]. apply match_entry_framed in EM.
  destruct r; [intros H; eapply framed_trans; [done|by eapply IH]..|]. by intros [= <- _].
Qed.

Lemma collect_all_framed tx fue remaining sent cs ss p cs' ss' p' : collect_all tx fue remaining sent cs ss p = Ok (cs', ss', p') -> framed ss ss'.
Proof.
  revert ss p cs' ss' p'. induction cs as [|c cs IH]; intros ss p cs' ss' p'; cbn [collect_all]; [by intros [= _ <- _]|].
  destruct (exhausted c).
  { destruct (collect_all _ _ _ _ cs ss p) as [[[? ?] ?]| |] eqn:E; cbn [mbind outcome_bind]; intros [= _ <- _]. by eapply IH. }
  destruct (negb fue && _); [by intros [= _ <- _]|]. unfold Collect.
  destruct ((_ <=? 0) && negb fue); cbn [mbind outcome_bind].
  - destruct (collect_all _ _ _ _ cs _ _) as [[[? ?] ?]| |] eqn:E; cbn [mbind outcome_bind]; intros [= _ <- _]. by eapply IH.
  - destruct (collect _ _ _ _ _ _ _) as [[ss1 res]| |] eqn:EC; cbn [mbind outcome_bind]; [|done|done]. apply collect_framed in EC.
    destruct (collect_all _ _ _ _ cs _ _) as [[[? ?] ?]| |] eqn:E; cbn [mbind outcome_bind]; intros [= _ <- _].
    eapply framed_trans; [done|]. by eapply IH.
Qed.

Lemma collect_batch_framed fuel tx fue frontier remaining added ss sent batch batch' added' ss' sent' :
  collect_batch fuel tx fue frontier remaining added ss sent batch = Ok (batch', added', ss', sent') -> framed ss ss'.
Proof.
  revert added ss sent batch. induction fuel as [|fuel IH]; intros added ss sent batch; cbn [collect_batch]; [by intros [= _ _ <- _]|].
  destruct (_ && _); [by intros [= _ _ <- _]|]. destruct (queueEvents ss) as [|top q] eqn:EQ; [by intros [= _ _ <- _]|].
  destruct (_ && _); [by intros [= _ _ <- _]|]. destruct (PopEvent (top :: q)) as [[pe q']|]; [|done].
  assert (HT : framed (set_queue ss q' (queued ss)) ss' -> framed ss ss') by (intros H; eapply framed_trans; [apply framed_queue|exact H]).
  destruct (findEventAndBytesUsingTx tx (Evsid pe)) as [[ev raw]|[]|]; try done; [|intros H; by eapply HT, IH].
  destruct (negb fue && _); [intros H; by eapply HT, IH|]. destruct (negb (Match _ _)); intros H; by eapply HT, IH.
Qed.

Lemma scan_passes_framed fuel snap pass fue cs emitted s sent out out' s' sent' :
  scan_passes fuel snap pass fue cs emitted s sent out = Some (Ok (out', s', sent')) ->
  framed (sctx s) (sctx s') /\ cursors s' = cursors s /\
  (if (pass =? 0)%nat then lastMaxEvsid s' = seq_of (snap 0%nat) /\ hasWatermark s' = true
   else lastMaxEvsid s' = lastMaxEvsid s /\ hasWatermark s' = hasWatermark s).
Proof.
  revert pass cs emitted s sent out. induction fuel as [|fuel IH]; intros pass cs emitted s sent out; [done|]. cbn [scan_passes].
  set (s0 := if (pass =? 0)%nat then _ else s). set (rem := Limit _ - emitted).
  assert (H0 : sctx s0 = sctx s /\ cursors s0 = cursors s) by (by unfold s0; destruct (pass =? 0)%nat). destruct H0 as [H0 H0c].
  assert (HW : if (pass =? 0)%nat then lastMaxEvsid s0 = seq_of (snap 0%nat) /\ hasWatermark s0 = true
    else lastMaxEvsid s0 = lastMaxEvsid s /\ hasWatermark s0 = hasWatermark s).
  { unfold s0. destruct (Nat.eqb_spec pass 0) as [->|]; done. }
  clearbody s0. destruct (collect_all _ _ _ _ _ _ _) as [[[cs1 ss1] p]| |] eqn:EC; [|done|done]. apply collect_all_framed in EC. rewrite H0 in EC.
  unfold collectBatch. destruct (collect_batch _ _ _ _ _ _ _ _ _) as [[[[batch added] ss2] sent2]| |] eqn:EB; [|done|done].
  apply collect_batch_framed in EB. pose proof (framed_trans _ _ _ EC EB) as HF.
  assert (HC : framed (sctx s) (if fue then ss2 else set_queue ss2 [] (queued ss2))) by (destruct fue; [done|eapply framed_trans; [done|auto]]).
  destruct (negb fue && _); [intros [= _ <- _]; cbn; split_and!; [done|done|by destruct (pass =? 0)%nat]|].
  destruct (_ || _); [intros [= _ <- _]; cbn; split_and!; [done|done|by destruct (pass =? 0)%nat]|].
  intros H. apply IH in H as (H1 & H2 & H3). cbn in H1, H2, H3. split_and!; [by apply (framed_trans _ _ _ HF)|by rewrite H2|].
  destruct H3 as [-> ->]. by destruct (pass =? 0)%nat.
Qed.

(** A scan takes the store's sequence as its watermark. *)
Lemma scan_framed fuel snap fue s sent out s' sent' :
  scan fuel snap fue s sent = Some (Ok (out, s', sent')) -> cursors s <> [] ->
  lastMaxEvsid s' = seq_of (snap 0%nat) /\ hasWatermark s' = true /\ cursors s' = cursors s /\ framed (set_boundary (sctx s) (lastMaxEvsid s)) (sctx s').
Proof.
  intros HS HC. unfold scan in HS. destruct (cursors s) as [|c cs] eqn:E; [done|]. apply scan_passes_framed in HS as (HF & Hc & H1 & H2). done.
Qed.

End Frame.


(** ** A subscription: the stored events, then the ones that arrive *)

Section Subscription.
Context {Bolt0 : Bolt} {JSON0 : EventJSON} {Derived0 : Derived} {GoLower0 : GoLower}.

(** What a subscription opened on [S] wants of an event that arrives later. *)
Definition tail_asks (S : gmap Z Event) (f : SubscriptionFilter) (id : Z) (ev : Event) : bool :=
  Match f ev && negb (match stored_id S (BeforeID f) with Some b => (CreatedAt ev =? Until f) && (b <=? id) | None => false end).

Lemma pe_newer_antisymm x y : pe_newer (as_potential x) (as_potential y) -> pe_newer (as_potential y) (as_potential x) -> x.1 = y.1.
Proof. unfold pe_newer, pair_of, as_potential, newer. cbn. lia. Qed.

(** A list sorted newest first is determined by its members. *)
Lemma newest_unique S P o xs :
  o ≡ₚ map as_potential xs -> StronglySorted pe_newer o -> NoDup xs.*1 ->
  (forall x, x ∈ xs <-> S !! x.1 = Some x.2 /\ P x.1 x.2 = true) -> o = map as_potential (newest S P).
Proof.
  intros HP HS HN HX. destruct (newest_spec S P) as (HN1 & HN2 & HN3).
  assert (HE : xs ≡ₚ newest S P).
  { apply NoDup_Permutation; [by eapply NoDup_fmap_1|by eapply NoDup_fmap_1|]. intros [id ev]. by rewrite HX, HN1. }
  assert (HS' : StronglySorted pe_newer (map as_potential (newest S P))).
  { clear -HN3. induction (newest S P) as [|x l IH]; [constructor|]. inversion HN3 as [|? ? H1 H2]; subst. cbn [map]. constructor; [by apply IH|].
    apply Forall_forall. intros y (z & -> & Hz)%list_elem_of_fmap. rewrite Forall_forall in H2. apply H2, list_elem_of_fmap. by exists z. }
  rewrite HE in HP. clear HN1 HN3 HX HE HN. revert o HP HS. induction (newest S P) as [|x l IH]; intros o HP HS; [by apply Permutation_nil_r in HP|].
  inversion HS' as [|? ? H1 H2]; subst. rewrite Forall_forall in H2. cbn [map fmap list_fmap] in *. apply NoDup_cons in HN2 as [Hx HN2].
  destruct o as [|a o]; [by apply Permutation_nil_cons in HP|]. inversion HS as [|? ? H3 H4]; subst. rewrite Forall_forall in H4.
  assert (a = as_potential x) as ->.
  { assert (Ha : a ∈ as_potential x :: map as_potential l) by (rewrite <- HP; by left). apply elem_of_cons in Ha as [->|Ha]; [done|].
    assert (Hp : as_potential x ∈ a :: o) by (rewrite HP; by left). apply elem_of_cons in Hp as [<-|Hp]; [done|]. exfalso.
    pose proof Ha as (y & -> & Hy)%list_elem_of_fmap. apply Hx, list_elem_of_fmap. exists y. split; [|done].
    by apply pe_newer_antisymm; [apply H2|apply H4]. }
  f_equal. apply IH; [done|done|by apply Permutation_cons_inv in HP|done].
Qed.

Lemma tail_wants_asks MaxLimit S f ss sent x q Q b :
  ss = set_queue (set_boundary (sctx (planned MaxLimit S f b.1 b.2)) 0) q Q -> x.1 ∉ sent -> tail_wants ss sent x = tail_asks S f x.1 x.2.
Proof.
  intros -> Hx. unfold tail_wants, tail_asks. rewrite bool_decide_false by done. cbn [set_queue set_boundary filter hasBeforeID beforeIDEvsid planned sctx WithLimit Until negb andb].
  change (Match (WithLimit f _) x.2) with (Match f x.2). rewrite andb_comm. f_equal. by destruct (stored_id S (BeforeID f)).
Qed.

Lemma arrivals_NoDup S w xs : arrivals S w xs -> NoDup xs.*1.
Proof.
  intros [_ HS]. induction HS as [|x l _ IH HF]; [constructor|]. cbn [fmap list_fmap]. constructor; [|exact IH].
  intros (y & HE & Hy)%list_elem_of_fmap. rewrite Forall_forall in HF. specialize (HF y Hy). unfold arrived in HF. lia.
Qed.

Lemma arrivals_size S w xs : arrivals S w xs -> (length xs <= size S)%nat.
Proof.
  intros HX. pose proof (arrivals_NoDup S w xs HX) as HN. destruct HX as [HI _]. rewrite <- length_map_to_list.
  apply submseteq_length, NoDup_submseteq; [by eapply NoDup_fmap_1|]. intros [id ev] Hx. by apply elem_of_map_to_list, (HI (id, ev)).
Qed.

(** Arrivals are at most as many as the numbers given out. *)
Lemma sorted_room lo hi xs : StronglySorted arrived xs -> (forall x, x ∈ xs -> lo < x.1 <= hi) -> lo <= hi -> zlen xs <= hi - lo.
Proof.
  intros HS. revert lo. induction HS as [|x l _ IH HF]; intros lo HX Hle; [rewrite zlen_nil; lia|]. rewrite zlen_cons.
  pose proof (HX x ltac:(by left)). rewrite Forall_forall in HF. specialize (IH x.1). enough (zlen l <= hi - x.1) by lia.
  apply IH; [|lia]. intros y Hy. pose proof (HF y Hy). pose proof (HX y ltac:(by right)). unfold arrived in *. lia.
Qed.

Lemma wanted_NoDup ss sent xs : NoDup xs.*1 -> NoDup (wanted_of ss sent xs).*1.
Proof.
  unfold wanted_of. induction xs as [|x xs IH]; intros HX; [constructor|]. cbn [fmap list_fmap] in HX. apply NoDup_cons in HX as [H1 H2].
  cbn [List.filter]. destruct (tail_wants _ _ x); [|by apply IH]. cbn [fmap list_fmap]. constructor; [|by apply IH].
  intros (y & HEq & Hy)%list_elem_of_fmap. apply H1, list_elem_of_fmap. exists y. split; [done|]. by apply list_elem_of_In, filter_In in Hy as [?%list_elem_of_In _].
Qed.

(** The tail of a subscription that has delivered [history] from [tx]. *)
Lemma tail_half (BL : BoltLaws) mit MaxLimit tx tx' S S' f b q Q (history : list (Z * Event)) s rounds :
  represents mit tx S -> represents mit tx' S' -> seq_of tx <= seq_of tx' -> (forall x, x ∈ history -> x.1 <= seq_of tx) ->
  sctx s = set_queue (set_boundary (sctx (planned MaxLimit S f b.1 b.2)) 0) q Q -> lastMaxEvsid s = seq_of tx -> (size S' < rounds)%nat ->
  let fresh := newest S' (fun id ev => (seq_of tx <? id) && tail_asks S f id ev) in
  exists o s' sent', scanTail rounds (fun _ => tx') s (list_to_set history.*1) = Some (Ok (o, s', sent')) /\
    o ≡ₚ map as_potential fresh /\ (seq_of tx' - seq_of tx < maxCursorChunk -> o = map as_potential fresh) /\ lastMaxEvsid s' = seq_of tx'.
Proof.
  intros HR HR' Hseq Hold HF HW Hrounds fresh. pose proof (rep_seq _ _ _ HR) as Hr.
  assert (Hw : 0 <= lastMaxEvsid s < 2 ^ 64 - 1) by (rewrite HW; exact Hr).
  destruct (arrivals_exist BL mit tx' S' HR' (lastMaxEvsid s) Hw) as (xs & _ & HX).
  destruct (scan_tail_spec BL mit tx' S' HR' rounds 0 s (list_to_set history.*1) [] Hw xs HX) as (o & HE & HP & HO).
  { pose proof (arrivals_size S' _ xs HX). lia. }
  set (l := wanted_of (sctx s) (list_to_set history.*1) xs) in *.
  assert (Hl : forall x, x ∈ l <-> S' !! x.1 = Some x.2 /\ (seq_of tx <? x.1) && tail_asks S f x.1 x.2 = true).
  { intros x. unfold l, wanted_of. rewrite list_elem_of_In, filter_In, <- list_elem_of_In, (proj1 HX), HW, andb_true_iff, Z.ltb_lt.
    assert (HA : seq_of tx < x.1 -> tail_wants (sctx s) (list_to_set history.*1) x = tail_asks S f x.1 x.2).
    { intros Hx. apply (tail_wants_asks MaxLimit S f (sctx s) _ x q Q b); [exact HF|]. rewrite elem_of_list_to_set, list_elem_of_fmap.
      intros (y & HEq & Hy). specialize (Hold y Hy). lia. }
    split; [intros [[Hx Hlt] Hwt]; by rewrite HA in Hwt|]. intros [Hx [Hlt Hwt]]. by rewrite HA. }
  assert (HNl : NoDup l.*1) by (apply wanted_NoDup; by eapply arrivals_NoDup).
  exists o. eexists _, _. split; [exact HE|].
  destruct (newest_spec S' (fun id ev => (seq_of tx <? id) && tail_asks S f id ev)) as (HN1 & HN2 & _). fold fresh in HN1, HN2. split_and!.
  - rewrite HP. apply Permutation_map, NoDup_Permutation; [by eapply NoDup_fmap_1|by eapply NoDup_fmap_1|]. intros [id ev]. by rewrite Hl, HN1.
  - intros Hfew. apply (newest_unique S' _ o l HP); [|done|exact Hl]. apply HO. eapply Z.le_lt_trans; [|exact Hfew].
    apply sorted_room; [apply HX| |done]. intros x Hx. apply (proj1 HX) in Hx as [Hx Hlt]. rewrite HW in Hlt. apply (rep_ids _ _ _ HR') in Hx as [? _]. lia.
  - cbn [set_last lastMaxEvsid]. rewrite HW. lia.
Qed.

(** C3: a subscription first delivers the newest stored events its filter asks
    for, up to its limit, and then, when it is woken with more events stored,
    exactly those that arrived since and that the filter wants: none is missed,
    none delivered twice.  While fewer than maxCursorChunk have arrived they come
    newest first.  [rounds] bounds the tail's transactions. *)
Theorem subscription_exactly_once (BL : BoltLaws) (mit MaxLimit : Z) (tx tx' : Tx) (S S' : gmap Z Event) (f : SubscriptionFilter) (s : storeScan) (rounds : nat)
    (HR : represents mit tx S) (HU : ids_unique S) (HM : 0 < MaxLimit)
    (HT : forall id ev, S !! id = Some ev -> 0 < CreatedAt ev < 2 ^ 64 - 1)
    (HR' : represents mit tx' S') (Hseq : seq_of tx <= seq_of tx')
    (HI : Forall hex32_ok (elems (IDs f))) (HA : Forall hex32_ok (elems (Authors f)))
    (Htags : forall id ev, S !! id = Some ev -> Match f ev = true -> tag_visible mit f ev)
    (Hs : newStoreQuery MaxLimit tx [f] = Ok [s]) (Hc : cursors s <> []) (Hrounds : (size S' < rounds)%nat) :
  let history := take (Z.to_nat (clamp (Limit f) filterMinLimit MaxLimit)) (newest S (query_wants S f)) in
  let fresh := newest S' (fun id ev => (seq_of tx <? id) && tail_asks S f id ev) in
  exists s1 sent1 o s2 sent2,
    Scan (query_fuel tx [s]) (fun _ => tx) false s ∅ = Some (Ok (map as_potential history, s1, sent1)) /\
    Scan rounds (fun _ => tx') true s1 sent1 = Some (Ok (o, s2, sent2)) /\
    o ≡ₚ map as_potential fresh /\ (seq_of tx' - seq_of tx < maxCursorChunk -> o = map as_potential fresh) /\
    NoDup (map Evsid (map as_potential history ++ o)) /\ lastMaxEvsid s2 = seq_of tx'.
Proof.
  intros history fresh. destruct (query_scan BL mit MaxLimit tx S HR HU HM HT f HI HA) as (ix & cs & HRe & HQ & s1 & HS).
  rewrite HQ in Hs. injection Hs as <-. unfold answer_over in HS.
  rewrite (answer_over_wants BL mit MaxLimit tx S HR HU HM HT) in HS by (intros id ev Hid Hm; by apply HRe; [|done|by apply (Htags id ev)]). fold history in HS.
  destruct (scan_framed _ _ _ _ _ _ _ _ HS Hc) as (HW & Hwm & Hcs & q & Q & HF).
  assert (Hold : forall x, x ∈ history -> x.1 <= seq_of tx).
  { intros [id ev] Hx. apply elem_of_take in Hx as (i & Hx & _). apply list_elem_of_lookup_2, newest_spec in Hx as [Hid _].
    apply (rep_ids _ _ _ HR) in Hid as [? _]. cbn [fst]. lia. }
  destruct (tail_half BL mit MaxLimit tx tx' S S' f (ix, cs) q Q history s1 rounds HR HR' Hseq Hold HF HW Hrounds) as (o & s2 & sent2 & HE & HP & HO & HL).
  exists s1, (list_to_set history.*1), o, s2, sent2. split_and!; [by rewrite Scan_first|by rewrite (Scan_tail _ _ _ _ Hwm), HE by (by rewrite Hcs)|done|done| |done].
  rewrite map_app, HP, !map_map. change (map (fun x => Evsid (as_potential x)) ?l) with (l.*1). apply NoDup_app. split_and!; [|intros i|apply newest_spec].
  - unfold history. rewrite fmap_take. eapply sublist_NoDup; [apply newest_spec|apply sublist_take].
  - intros (x & -> & Hx)%list_elem_of_fmap ([j e] & HEq & Hy)%list_elem_of_fmap. specialize (Hold x Hx). apply newest_spec in Hy as [_ Hy]. bool_prop. cbn [fst] in *. lia.
Qed.

End Subscription.

Module TailDemo.
Import Demo.

#[local] Existing Instances demo_bolt demo_json demo_derived demo_lower.

Definition feed : storeScan := mkScan [defaultCursor] 0 false false 0 (mkCtx indexCreatedAt [] (WithLimit NewFilter 100) ∅ 0 0 false).

(** Opened when only the first note is stored, woken with the second. *)
Lemma subscription_exactly_once_witness :
  exists s1 sent1 o s2 sent2, newStoreQuery 100 tx1 [NewFilter] = Ok [feed] /\
    Scan (query_fuel tx1 [feed]) (fun _ => tx1) false feed ∅ = Some (Ok (map as_potential [(1, note1)], s1, sent1)) /\
    Scan 3 (fun _ => tx2) true s1 sent1 = Some (Ok (o, s2, sent2)) /\
    o = map as_potential (newest S2 (fun id ev => (1 <? id) && tail_asks S1 NewFilter id ev)).
Proof.
  destruct tx1_inv as [[HR HU HT _] Hs1]. destruct tx2_inv as [[HR' _ _ _] Hs2].
  destruct (subscription_exactly_once demo_laws 5 100 tx1 tx2 S1 S2 NewFilter feed 3 HR HU ltac:(lia) HT HR') as (s1 & sent1 & o & s2 & sent2 & H1 & H2 & _ & H3 & _);
    [rewrite Hs1, Hs2; lia|constructor|constructor| |reflexivity|discriminate|vm_compute; lia|].
  { intros id ev Hid _ name wanted Hw. unfold NewFilter in Hw. cbn [FTags] in Hw. discriminate Hw. }
  exists s1, sent1, o, s2, sent2. split; [reflexivity|]. rewrite Hs1, Hs2 in *. split; [exact H1|]. split; [exact H2|]. apply H3. vm_compute. reflexivity.
Defined.

End TailDemo.
