(* ===== verification/StoreCounters.v ===== *)
(** * relay/store_counters.go: reading the counters and counting an old store

    [Counts], [CountFromCounters], and the backfill of a store from before the
    counters: a first transaction, then chunks, each in a transaction of its own,
    so that batches commit between them.  The updates of the counters by the
    writes themselves are in StoreDb.v. *)

From S2P Require Import Prelude GoLib GoHeap Bolt Sha256 NostrUtils Pow Event Filter StoreDb StoreScan.

Record CountsT := mkCounts { Events : Z; CAuthors : Z; CKinds : gmap Z Z; Ready : bool }.

Section Counters.
Context {Bolt0 : Bolt} {JSON0 : EventJSON} {Derived0 : Derived} {GoLower0 : GoLower}.

Definition present (b : Bucket) (k : gostring) : bool := match Get b k with Some _ => true | None => false end.

(** The loop of Counts over the pairs from "k" on.  A key at or after "k" is not
    empty. *)
Fixpoint read_kinds (l : list (gostring * gostring)) (out : CountsT) : outcome StoreErr CountsT :=
  match l with
  | [] => Ok out
  | (k, v) :: l =>
      if negb (has_prefix k (bs "k")) then Ok out
      else if negb (length k =? 9)%nat || negb (length v =? 8)%nat then read_kinds l out
      else
        n ← btoi v;
        kind ← btoi (drop 1 k);
        read_kinds l (mkCounts (u64 (Events out + n)) (CAuthors out) (<[s64 kind := n]> (CKinds out)) (Ready out))
  end.

Definition Counts (tx : Tx) : outcome StoreErr CountsT :=
  match counters tx with
  | None => Ok (mkCounts 0 0 ∅ false)
  | Some c =>
      let ready := present c ctrKindsDone && present c ctrAuthorsDone in
      authors ← match Get c ctrAuthors with
                | Some v => if (length v =? 8)%nat then btoi v else Ok 0
                | None => Ok 0
                end;
      read_kinds (ascend c (bs "k")) (mkCounts 0 authors ∅ ready)
  end.

Definition count_of (c : CountsT) (kind : Z) : Z := default 0 (CKinds c !! kind).

(** A filter that needs a scan.  A decoded cache field is not empty. *)
Definition needs_scan (f : SubscriptionFilter) : bool :=
  negb (bool_decide (elems (IDs f) = [])) || negb (bool_decide (elems (Authors f) = [])) ||
  negb (bool_decide (size (FTags f) = 0%nat)) || (0 <? Since f) || (0 <? Until f) || (0 <? Limit f) ||
  negb (bool_decide (Search f = [])) || negb (bool_decide (Cache f = [])) || negb (bool_decide (BeforeID f = [])).

Definition no_kinds (f : SubscriptionFilter) : bool := bool_decide (elems (Kinds f) = []).

(** None: not answered from the counters. *)
Definition CountFromCounters (tx : Tx) (all : list SubscriptionFilter) : outcome StoreErr (option Z) :=
  match all with
  | [] => Ok None
  | _ =>
      if existsb needs_scan all then Ok None
      else
        let kinds : gset Z := list_to_set (flat_map (fun f => elems (Kinds f)) all) in
        c ← Counts tx;
        if negb (Ready c) then Ok None
        else if existsb no_kinds all then Ok (Some (s64 (Events c)))
        else Ok (Some (foldr (fun k n => s64 (n + s64 (count_of c k))) 0 (elements kinds)))
  end.

(** ** The backfill *)

Definition cput (c : Bucket) (k v : gostring) : outcome StoreErr Bucket := of_opt (Put c k v) ErrBoltPut.

(** The first transaction: the bucket, and whether counting is complete. *)
Definition backfill_start (tx : Tx) : outcome StoreErr (Tx * bool) :=
  let c := match counters tx with Some c => c | None => EmptyBucket end in
  if present c ctrKindsDone && present c ctrAuthorsDone then Ok (set_counters tx c, true)
  else match First (bucket tx indexKind) with
  | Some _ => Ok (set_counters tx c, false)
  | None =>
      c ← cput c ctrKindsDone [x01];
      c ← cput c ctrAuthorsDone [x01];
      Ok (set_counters tx c, true)
  end.

(** pending[string(k[:8])]++ over the keys of a chunk. *)
Definition pending (l : list (gostring * gostring)) : gmap gostring Z :=
  foldl (fun m x => if (8 <=? length x.1)%nat then <[take 8 x.1 := default 0 (m !! take 8 x.1) + 1]> m else m) ∅ l.

Fixpoint add_all (c : Bucket) (l : list (gostring * Z)) : outcome StoreErr Bucket :=
  match l with
  | [] => Ok c
  | (kind, n) :: l => c ← addCounter c (kindCounterKey kind) n; add_all c l
  end.

Context (countersChunk : nat).

(** Where the chunk starts: past the mark, or at the first key. *)
Definition kinds_from (c b : Bucket) : list (gostring * gostring) :=
  match Get c ctrKindsMark with
  | Some mark => match ascend b mark with
                 | (k, v) :: l => if decide (k = mark) then l else (k, v) :: l
                 | [] => []
                 end
  | None => ascend b []
  end.

Definition countKindsChunk (tx : Tx) : outcome StoreErr (Tx * bool) :=
  match counters tx with
  | None => Panic
  | Some c =>
      if present c ctrKindsDone then Ok (tx, true)
      else
        let l := kinds_from c (bucket tx indexKind) in
        let chunk := take countersChunk l in
        c ← add_all c (map_to_list (pending chunk));
        c ← match last chunk with
            | Some (k, _) => cput c ctrKindsMark k
            | None => Ok c
            end;
        match drop countersChunk l with
        | [] => c ← cput c ctrKindsDone [x01]; Ok (set_counters tx c, true)
        | _ => Ok (set_counters tx c, false)
        end
  end.

(** The loop over authors: where it stopped, the last one counted, how many. *)
Fixpoint author_loop (room : nat) (b : Bucket) (k : option (gostring * gostring)) (last : option gostring) (n : Z)
    : option (gostring * gostring) * option gostring * Z :=
  match room, k with
  | S room, Some (key, _) =>
      if (length key <? 32)%nat then author_loop room b (Next b key) last (n + 1)
      else author_loop room b (Seek b (concatKey [take 32 key; maxSuffixBytes])) (Some (take 32 key)) (n + 1)
  | _, _ => (k, last, n)
  end.

Definition countAuthorsChunk (tx : Tx) : outcome StoreErr (Tx * bool) :=
  match counters tx with
  | None => Panic
  | Some c =>
      if present c ctrAuthorsDone then Ok (tx, true)
      else
        let b := bucket tx indexPubkey in
        let k := match Get c ctrAuthorsMark with
                 | Some mark => Seek b (concatKey [mark; maxSuffixBytes])
                 | None => First b
                 end in
        let '(k, last, n) := author_loop countersChunk b k None 0 in
        c ← addCounter c ctrAuthors n;
        c ← match last with
            | Some a => cput c ctrAuthorsMark a
            | None => Ok c
            end;
        match k with
        | None => c ← cput c ctrAuthorsDone [x01]; Ok (set_counters tx c, true)
        | Some _ => Ok (set_counters tx c, false)
        end
  end.

(** The two loops of backfillCounters when nothing else commits in between:
    chunks until one reports it has finished; None when [fuel] runs out. *)
Fixpoint run_step (fuel : nat) (step : Tx -> outcome StoreErr (Tx * bool)) (tx : Tx) : option (outcome StoreErr Tx) :=
  match fuel with
  | O => None
  | S fuel =>
      match step tx with
      | Err e => Some (Err e)
      | Panic => Some Panic
      | Ok (tx, true) => Some (Ok tx)
      | Ok (tx, false) => run_step fuel step tx
      end
  end.

Definition backfillCounters (fuel : nat) (tx : Tx) : option (outcome StoreErr Tx) :=
  match backfill_start tx with
  | Err e => Some (Err e)
  | Panic => Some Panic
  | Ok (tx, true) => Some (Ok tx)
  | Ok (tx, false) =>
      match run_step fuel countKindsChunk tx with
      | Some (Ok tx) => run_step fuel countAuthorsChunk tx
      | r => r
      end
  end.

End Counters.
