(* ===== verification/StoreCountInv.v ===== *)
(** * relay/store_counters.go: what the counters count

    The counters mirror two indexes: per kind, the keys of the kind index that
    the backfill has passed; and the authors of the author index it has passed.
    Every write and every chunk of the backfill keeps them so. *)

From S2P Require Import Prelude GoLib GoHeap Bolt Sha256 NostrUtils Pow Event Filter StoreDb StoreInv StoreScan StoreMerge StoreExact StoreQuery StoreEvents StoreLife StoreBatch StoreTail StoreCounters.

(** ** Tallies *)

(** The keys of a kind among those [D] has. *)
Definition kind_tally (D : gostring -> bool) (m : gmap gostring gostring) (kind : gostring) : Z :=
  Z.of_nat (size (base.filter (fun x : gostring * gostring => take 8 x.1 = kind /\ D x.1 = true) m)).

Definition authors (m : gmap gostring gostring) : gset gostring := set_map (take 32) (dom m : gset gostring).

Definition author_tally (D : gostring -> bool) (m : gmap gostring gostring) : Z :=
  Z.of_nat (size (base.filter (fun a => D a = true) (authors m))).

Definition one_if (P : Prop) `{!Decision P} : Z := if decide P then 1 else 0.

Lemma kind_tally_insert D m k v kind : m !! k = None ->
  kind_tally D (<[k := v]> m) kind = kind_tally D m kind + one_if (take 8 k = kind /\ D k = true).
Proof.
  intros Hk. unfold kind_tally, one_if. rewrite map_filter_insert. cbn [fst]. destruct (decide _).
  - rewrite map_size_insert_None; [lia|]. apply map_lookup_filter_None. by left.
  - rewrite delete_id by done. lia.
Qed.

Lemma kind_tally_delete D m k v kind : m !! k = Some v ->
  kind_tally D (delete k m) kind = kind_tally D m kind - one_if (take 8 k = kind /\ D k = true).
Proof.
  intros Hk. rewrite <- (insert_delete_id m k v) at 2 by done. rewrite kind_tally_insert by apply lookup_delete_eq. lia.
Qed.

Lemma authors_insert m k v : authors (<[k := v]> m) = {[take 32 k]} ∪ authors m.
Proof. unfold authors. rewrite dom_insert_L. set_solver. Qed.

Lemma author_tally_insert D m k v :
  author_tally D (<[k := v]> m) = author_tally D m + one_if (take 32 k ∉ authors m /\ D (take 32 k) = true).
Proof.
  unfold author_tally, one_if. rewrite authors_insert. set (P := fun a => D a = true).
  assert (HU : base.filter P ({[take 32 k]} ∪ authors m) = base.filter P ({[take 32 k]} : gset gostring) ∪ base.filter P (authors m)) by set_solver.
  rewrite HU. destruct (decide (D (take 32 k) = true)) as [HD|HD].
  - replace (base.filter P ({[take 32 k]} : gset gostring)) with ({[take 32 k]} : gset gostring) by set_solver. destruct (decide _) as [[Hn _]|Hn].
    + rewrite size_union, size_singleton by set_solver. lia.
    + assert (take 32 k ∈ authors m) by (destruct (decide (take 32 k ∈ authors m)); tauto).
      replace ({[take 32 k]} ∪ base.filter P (authors m)) with (base.filter P (authors m)) by set_solver. lia.
  - replace (base.filter P ({[take 32 k]} : gset gostring)) with (∅ : gset gostring) by set_solver. rewrite union_empty_l_L, decide_False by tauto. lia.
Qed.

Lemma author_tally_delete D m k v : m !! k = Some v ->
  author_tally D (delete k m) = author_tally D m - one_if (take 32 k ∉ authors (delete k m) /\ D (take 32 k) = true).
Proof.
  intros Hk. rewrite <- (insert_delete_id m k v) at 2 by done. rewrite author_tally_insert. lia.
Qed.

Lemma kind_tally_le D m kind : 0 <= kind_tally D m kind <= Z.of_nat (size m).
Proof. unfold kind_tally. split; [lia|]. apply Nat2Z.inj_le, map_subseteq_size, map_filter_subseteq. Qed.

Lemma author_tally_le D m : 0 <= author_tally D m <= Z.of_nat (size m).
Proof.
  split; [unfold author_tally; lia|]. induction m as [|k v m Hk IH] using map_ind; [by vm_compute|].
  rewrite author_tally_insert, map_size_insert_None by done. unfold one_if. destruct (decide _); lia.
Qed.

Section CountInv.
Context {Bolt0 : Bolt} {JSON0 : EventJSON} {Derived0 : Derived} {GoLower0 : GoLower} (BL : BoltLaws).

Definition kinds_in (c : Bucket) : gostring -> bool := counted c ctrKindsDone ctrKindsMark.
Definition authors_in (c : Bucket) : gostring -> bool := counted c ctrAuthorsDone ctrAuthorsMark.

(** A counter at a value; zero is kept by leaving the key out. *)
Definition counter_at (c : Bucket) (key : gostring) (n : Z) : Prop := kv c !! key = if n <=? 0 then None else Some (itob n).

(** The counters against the keys of the kind and the author index. *)
Definition counts_at (mk mp : gmap gostring gostring) (c : Bucket) : Prop :=
  (forall kind, length kind = 8%nat -> counter_at c (kindCounterKey kind) (kind_tally (kinds_in c) mk kind)) /\
  counter_at c ctrAuthors (author_tally (authors_in c) mp) /\
  (forall a, kv c !! ctrAuthorsMark = Some a -> length a = 32%nat).

Definition counts_ok (tx : Tx) (c : Bucket) : Prop := counts_at (kv (bucket tx indexKind)) (kv (bucket tx indexPubkey)) c.

#[local] Set Default Proof Using "All".

Lemma addCounter_Ok c key n delta :
  counter_at c key n -> 0 <= n < 2 ^ 63 -> 0 <= n + delta < 2 ^ 63 -> put_ok key (itob 0) = true ->
  exists c', addCounter c key delta = Ok c' /\ counter_at c' key (n + delta) /\ forall k, k <> key -> kv c' !! k = kv c !! k.
Proof.
  intros HC Hn Hd Hput. unfold addCounter. rewrite (Get_kv BL), HC.
  replace (match (if n <=? 0 then None else Some (itob n)) with Some v => if (length v =? 8)%nat then s64 (BE.get64 v) else 0 | None => 0 end) with n.
  2: { destruct (Z.leb_spec n 0); [lia|]. rewrite length_itob. cbn [Nat.eqb]. unfold itob. rewrite <- (app_nil_r (BE.put64 n)), BE.get64_put64 by lia. by rewrite s64_small by lia. }
  rewrite s64_small by lia. destruct (Z.leb_spec (n + delta) 0) as [Hz|Hz].
  - eexists. split; [done|]. destruct (Delete_kv BL c key) as [HK _]. unfold counter_at. rewrite HK, lookup_delete_eq, (proj2 (Z.leb_le _ _)) by done.
    split; [done|]. intros k Hk. by rewrite lookup_delete_ne.
  - unfold wrap. rewrite Z.mod_small by lia. pose proof (Put_kv BL c key (itob (n + delta))) as HP.
    replace (put_ok key (itob (n + delta))) with true in HP by (rewrite <- Hput; unfold put_ok, zlen; by rewrite !length_itob).
    destruct HP as (c' & -> & HK & _). exists c'. split; [done|]. unfold counter_at. rewrite HK, lookup_insert_eq, (proj2 (Z.leb_gt _ _)) by done.
    split; [done|]. intros k Hk. by rewrite lookup_insert_ne.
Qed.

Lemma counted_ext c c' done mark k : kv c' !! done = kv c !! done -> kv c' !! mark = kv c !! mark -> counted c' done mark k = counted c done mark k.
Proof. intros H1 H2. unfold counted. by rewrite !(Get_kv BL), H1, H2. Qed.

(** The author index has an entry of the author. *)
Lemma hasPrefixKey_spec b p : length p = 32%nat -> hasPrefixKey b p = bool_decide (p ∈ authors (kv b)).
Proof.
  intros HL. unfold hasPrefixKey. pose proof (Seek_kv BL b p) as HS. symmetry. destruct (bool_decide_reflect (p ∈ authors (kv b))) as [Hin|Hin].
  - unfold authors in Hin. apply elem_of_map in Hin as (k & HE & Hk%elem_of_dom).
    assert (Hge : Cmp.ltb k p = false) by (rewrite HE, <- (take_drop 32 k) at 1; apply extension_ge).
    destruct (Seek b p) as [[k' v]|]; [|by rewrite HS in Hge]. destruct HS as (_ & Hlt & Hmin). specialize (Hmin k Hk Hge). symmetry.
    eapply prefix_between; [done|]. rewrite <- (take_drop 32 k), <- HE in Hmin. exact Hmin.
  - destruct (Seek b p) as [[k' v]|]; [|done]. destruct HS as (Hk & _). destruct (has_prefix k' p) eqn:EP; [|done]. destruct Hin.
    apply has_prefix_inv in EP as (s & ->). unfold authors. apply elem_of_map. exists (p ++ s). split; [by rewrite take_app_length'|]. by apply elem_of_dom.
Qed.

(** The names in the counters' bucket differ by their lengths. *)
Ltac by_length := let HE := fresh in intros HE; apply (f_equal length) in HE; unfold kindCounterKey in HE; rewrite ?length_app in HE; cbn in HE; lia.

Definition small (m : gmap gostring gostring) : Prop := Z.of_nat (size m) < 2 ^ 63.

(** The counter of the event's kind. *)
Lemma count_kind c key delta mk mk' :
  (forall kind, length kind = 8%nat -> counter_at c (kindCounterKey kind) (kind_tally (kinds_in c) mk kind)) ->
  small mk -> small mk' -> length (take 8 key) = 8%nat ->
  (forall D kind, kind_tally D mk' kind = kind_tally D mk kind + delta * one_if (take 8 key = kind /\ D key = true)) ->
  exists c1, (if counted c ctrKindsDone ctrKindsMark key then addCounter c (kindCounterKey (take 8 key)) delta else Ok c) = Ok c1 /\
    (forall kind, length kind = 8%nat -> counter_at c1 (kindCounterKey kind) (kind_tally (kinds_in c) mk' kind)) /\
    forall x, length x <> 9%nat -> kv c1 !! x = kv c !! x.
Proof.
  unfold small. intros HK Sk Sk' L8 Tk. pose proof (Tk (kinds_in c)) as T. change (counted c ctrKindsDone ctrKindsMark) with (kinds_in c).
  unfold one_if in T. destruct (kinds_in c key) eqn:ED; last first.
  { exists c. split; [done|]. split; [|done]. intros kind Hkl. rewrite T, decide_False by (intros [_ ?]; done). rewrite Z.mul_0_r, Z.add_0_r. by apply HK. }
  pose proof (kind_tally_le (kinds_in c) mk (take 8 key)). pose proof (kind_tally_le (kinds_in c) mk' (take 8 key)) as Hb.
  rewrite T, decide_True in Hb by done.
  destruct (addCounter_Ok c (kindCounterKey (take 8 key)) _ delta (HK _ L8)) as (c1 & -> & HC1 & HO1); [lia|lia| |].
  { unfold put_ok, kindCounterKey, zlen. rewrite length_app, L8, length_itob. by vm_compute. }
  exists c1. split; [done|]. split.
  - intros kind Hkl. rewrite T. destruct (decide (take 8 key = kind)) as [<-|Hne].
    + rewrite decide_True by done. by rewrite Z.mul_1_r.
    + rewrite decide_False by tauto. rewrite Z.mul_0_r, Z.add_0_r. unfold counter_at. rewrite HO1; [by apply HK|]. by intros [=].
  - intros x Hx. apply HO1. intros ->. apply Hx. unfold kindCounterKey. by rewrite length_app, L8.
Qed.

(** The counter of authors; [m] is the author index countEvent looks into. *)
Lemma count_author c c1 a delta m mp mp' :
  counter_at c1 ctrAuthors (author_tally (authors_in c) mp) -> small mp -> small mp' ->
  (forall D, author_tally D mp' = author_tally D mp + delta * one_if (a ∉ authors m /\ D a = true)) ->
  exists c2, (if counted c ctrAuthorsDone ctrAuthorsMark a && negb (bool_decide (a ∈ authors m)) then addCounter c1 ctrAuthors delta else Ok c1) = Ok c2 /\
    counter_at c2 ctrAuthors (author_tally (authors_in c) mp') /\ forall x, length x <> 7%nat -> kv c2 !! x = kv c1 !! x.
Proof.
  unfold small. intros HA1 Sp Sp' Tp. pose proof (Tp (authors_in c)) as T. change (counted c ctrAuthorsDone ctrAuthorsMark) with (authors_in c). unfold one_if in T.
  pose proof (author_tally_le (authors_in c) mp). pose proof (author_tally_le (authors_in c) mp') as Hb. rewrite T in Hb.
  destruct (decide _) as [[Hn HD]|Hn].
  - rewrite HD, bool_decide_false by done. cbn [andb negb]. rewrite T.
    destruct (addCounter_Ok c1 ctrAuthors _ (delta * 1) HA1) as (c2 & HE2 & HC2 & HO2); [lia|lia|by vm_compute|]. rewrite Z.mul_1_r in HE2 at 1.
    exists c2. split; [done|]. split; [done|]. intros x Hx. apply HO2. by intros ->.
  - rewrite Z.mul_0_r, Z.add_0_r in T. rewrite T. exists c1. split; [|done]. destruct (authors_in c a) eqn:EA; [|done].
    rewrite bool_decide_true; [done|]. destruct (decide (a ∈ authors m)); tauto.
Qed.

(** One event more or less: the counters follow the indexes. *)
Lemma countEvent_spec tx c k delta tx' mk mp mk' mp' :
  counters tx = Some c -> counts_at mk mp c -> small mk -> small mk' -> small mp -> small mp' ->
  length (take 8 (k_kind k)) = 8%nat -> length (take 32 (k_pubkey k)) = 32%nat ->
  (forall D kind, kind_tally D mk' kind = kind_tally D mk kind + delta * one_if (take 8 (k_kind k) = kind /\ D (k_kind k) = true)) ->
  (forall D, author_tally D mp' = author_tally D mp +
    delta * one_if (take 32 (k_pubkey k) ∉ authors (kv (bucket tx indexPubkey)) /\ D (take 32 (k_pubkey k)) = true)) ->
  countEvent tx k delta = Ok tx' -> exists c', counters tx' = Some c' /\ counts_at mk' mp' c'.
Proof.
  intros Hc (HK & HA & HM) Sk Sk' Sp Sp' L8 L32 Tk Tp HE. unfold countEvent in HE. rewrite Hc in HE.
  destruct (count_kind c (k_kind k) delta mk mk') as (c1 & HE1 & HK1 & HO1); [done..|]. rewrite HE1 in HE. cbn [mbind outcome_bind] in HE.
  destruct (length (k_pubkey k) <? 32)%nat; [done|]. rewrite (counted_ext c c1), hasPrefixKey_spec in HE by first [done|apply HO1; done].
  destruct (count_author c c1 (take 32 (k_pubkey k)) delta (kv (bucket tx indexPubkey)) mp mp') as (c2 & HE2 & HA2 & HO2);
    [unfold counter_at; by rewrite HO1|done..|].
  rewrite HE2 in HE. cbn [mbind outcome_bind] in HE. injection HE as <-. exists c2. split; [done|].
  assert (HF : forall x, length x <> 9%nat -> length x <> 7%nat -> kv c2 !! x = kv c !! x) by (intros x ? ?; rewrite HO2, HO1; done).
  assert (HKI : kinds_in c2 = kinds_in c) by (unfold kinds_in, counted; by rewrite !(Get_kv BL), !HF).
  assert (HAI : authors_in c2 = authors_in c) by (unfold authors_in, counted; by rewrite !(Get_kv BL), !HF).
  split_and!; [|by rewrite HAI|intros a; rewrite HF by done; apply HM]. rewrite HKI. intros kind Hkl. unfold counter_at. rewrite HO2; [by apply HK1|]. unfold kindCounterKey. by rewrite length_app, Hkl.
Qed.

(** ** The two writes *)

Context (mit : Z).

Definition kind_key (x : Z * Event) : gostring := itob (u64 (Kind x.2)) ++ itob (CreatedAt x.2) ++ itob x.1.
Definition author_key (x : Z * Event) : gostring := key_bytes (PubKey x.2) ++ itob (CreatedAt x.2) ++ itob x.1.

Lemma keys_unique tx S x y p q : represents mit tx S -> x ∈ map_to_list S -> y ∈ map_to_list S -> p ++ itob x.1 = q ++ itob y.1 -> x = y.
Proof.
  intros HR Hx Hy HE. destruct x as [i e], y as [j e']. apply elem_of_map_to_list in Hx, Hy. cbn [fst] in HE. pose proof (rep_seq _ _ _ HR).
  apply suffix_id in HE; [|apply (rep_ids _ _ _ HR) in Hx as [? _]; lia|apply (rep_ids _ _ _ HR) in Hy as [? _]; lia]. subst j. congruence.
Qed.

(** An index with one key per event holds the stored events' keys. *)
Lemma index_keys tx S i (g : Z * Event -> gostring) (h : Z * Event -> gostring) :
  represents mit tx S -> i <> indexEvents -> (forall x, g x = h x ++ itob x.1) ->
  (forall ev id k, ev_ok ev -> (i, k) ∈ keys_of mit ev id <-> k = g (id, ev)) ->
  (map_to_list (kv (bucket tx i))).*1 ≡ₚ g <$> map_to_list S.
Proof.
  intros HR Hi Hg HK. apply NoDup_Permutation; [apply NoDup_fst_map_to_list| |].
  - apply NoDup_fmap_2_strong; [|apply NoDup_map_to_list]. intros x y Hx Hy HE. rewrite !Hg in HE. by eapply keys_unique.
  - intros k. rewrite !list_elem_of_fmap. split.
    + intros ([k' v] & -> & Hk%elem_of_map_to_list). apply (rep_index _ _ _ HR) in Hk as (id & ev & Hid & Hin & _); [|done]. exists (id, ev).
      split; [|by apply elem_of_map_to_list]. apply HK in Hin; [done|]. by apply (rep_ids _ _ _ HR) in Hid as [_ ?].
    + intros ([id ev] & -> & Hid%elem_of_map_to_list). exists (g (id, ev), itob (CreatedAt ev)). split; [done|]. apply elem_of_map_to_list, (rep_index _ _ _ HR); [done|].
      exists id, ev. split_and!; [done| |done]. apply HK; [|done]. by apply (rep_ids _ _ _ HR) in Hid as [_ ?].
Qed.

Lemma kind_keys tx S : represents mit tx S -> (map_to_list (kv (bucket tx indexKind))).*1 ≡ₚ kind_key <$> map_to_list S.
Proof.
  intros HR. apply (index_keys tx S indexKind kind_key (fun x => itob (u64 (Kind x.2)) ++ itob (CreatedAt x.2))); [done|done| |].
  - intros x. unfold kind_key. by rewrite app_assoc.
  - intros ev id k (HP & HI & _). apply (keys_of_spec mit ev id indexKind k HP HI).
Qed.

Lemma author_keys tx S : represents mit tx S -> (map_to_list (kv (bucket tx indexPubkey))).*1 ≡ₚ author_key <$> map_to_list S.
Proof.
  intros HR. apply (index_keys tx S indexPubkey author_key (fun x => key_bytes (PubKey x.2) ++ itob (CreatedAt x.2))); [done|done| |].
  - intros x. unfold author_key. by rewrite app_assoc.
  - intros ev id k (HP & HI & _). apply (keys_of_spec mit ev id indexPubkey k HP HI).
Qed.

(** There are at most as many events as numbers were given out. *)
Lemma stored_size tx S : represents mit tx S -> Z.of_nat (size S) <= seq_of tx.
Proof.
  intros HR. pose proof (rep_seq _ _ _ HR) as Hs. destruct (arrivals_exist BL mit tx S HR 0) as (xs & _ & HX); [lia|].
  assert (HL : zlen xs <= seq_of tx - 0).
  { apply sorted_room; [apply HX| |lia]. intros x Hx. apply (proj1 HX) in Hx as [Hx ?]. apply (rep_ids _ _ _ HR) in Hx as [? _]. lia. }
  enough (size S <= length xs)%nat by (unfold zlen in HL; lia). rewrite <- length_map_to_list. apply submseteq_length, NoDup_submseteq; [apply NoDup_map_to_list|].
  intros [id ev] Hid%elem_of_map_to_list. apply (proj1 HX). split; [done|]. apply (rep_ids _ _ _ HR) in Hid as [? _]. cbn [fst]. lia.
Qed.

Lemma index_small tx S : represents mit tx S -> seq_of tx < 2 ^ 63 -> small (kv (bucket tx indexKind)) /\ small (kv (bucket tx indexPubkey)).
Proof.
  intros HR Hs. pose proof (stored_size tx S HR). pose proof (Permutation_length (kind_keys tx S HR)) as H1. pose proof (Permutation_length (author_keys tx S HR)) as H2.
  rewrite !length_fmap, !length_map_to_list in H1, H2. unfold small. lia.
Qed.

Lemma entries_kind K k : (indexKind, k) ∈ index_entries K <-> k = k_kind K.
Proof.
  unfold index_entries, fixedIndexEntries. rewrite !elem_of_app, !elem_of_cons, elem_of_nil, list_elem_of_fmap.
  destruct (k_expiration K); rewrite ?list_elem_of_singleton, ?elem_of_nil; naive_solver.
Qed.

Lemma entries_author K k : (indexPubkey, k) ∈ index_entries K <-> k = k_pubkey K.
Proof.
  unfold index_entries, fixedIndexEntries. rewrite !elem_of_app, !elem_of_cons, elem_of_nil, list_elem_of_fmap.
  destruct (k_expiration K); rewrite ?list_elem_of_singleton, ?elem_of_nil; naive_solver.
Qed.

(** The counters mirror the indexes, and [n] more events can be numbered. *)
Definition counting (n : Z) (tx : Tx) : Prop :=
  exists S, represents mit tx S /\ 0 <= n < 2 ^ 63 - seq_of tx /\ forall c, counters tx = Some c -> counts_ok tx c.

Lemma counting_mono n n' tx : counting n tx -> 0 <= n' <= n -> counting n' tx.
Proof. intros (S & HR & Hs & HC) Hn. exists S. split_and!; [done|lia|lia|done]. Qed.

Lemma key_lengths ev id K : ev_ok ev -> indexKeysFor ev id mit = Ok K ->
  k_kind K = kind_key (id, ev) /\ k_pubkey K = author_key (id, ev) /\ keys_of mit ev id = index_entries K /\
  length (take 8 (k_kind K)) = 8%nat /\ length (take 32 (k_pubkey K)) = 32%nat.
Proof.
  intros (HP & HI & _) EK. destruct (indexKeysFor_ok ev id mit HP HI) as (K' & EK' & HKK & _ & _ & _ & Hpk & Hk & _). replace K' with K in * by congruence.
  rewrite Hpk, Hk. destruct (key_bytes_ok _ HP) as [_ HL]. split_and!; [done|done|done| |].
  - by rewrite take_app_length' by (by rewrite length_itob).
  - by rewrite take_app_length'.
Qed.

Lemma insert_counting n tx ev tx' : 0 <= n -> counting (n + 1) tx -> ev_ok ev -> insertWithIndexes mit tx ev = Ok tx' -> counting n tx'.
Proof.
  intros Hn (S & HR & Hs & HC) HO HE. pose proof (rep_seq _ _ _ HR) as Hseq.
  destruct (insertWithIndexes_spec BL mit tx S ev tx' HR HO) as [HR' Hs']; [lia|done|].
  exists (<[seq_of tx + 1 := ev]> S). split_and!; [done|lia|lia|]. intros c' Hc'.
  destruct (index_small tx S HR) as [Sk Sp]; [lia|]. destruct (index_small tx' _ HR') as [Sk' Sp']; [lia|].
  unfold insertWithIndexes in HE. inv_ok. destruct a as [tx1 id]. apply (insert_events BL mit tx S) in E as (Hid & _ & Hc1 & _ & HB1); [|done|lia].
  unfold insertIndexes in HE. inv_ok. destruct (key_lengths ev id a HO E) as (Hkk & Hak & HKK & L8 & L32).
  apply (write_bucket BL mit) in E2 as [EB2 EC2], HE as [EB3 EC3]. apply (put_entries_Ok BL mit) in E1 as (_ & EC1 & _ & _ & HP1).
  pose proof (countEvent_bucket BL mit _ _ _ _ E0) as EB0.
  assert (Hfresh : forall i k, i <> indexEvents -> (i, k) ∈ index_entries a -> kv (bucket tx i) !! k = None).
  { intros i k Hi Hin. apply eq_None_not_Some. intros [v Hv]. apply (rep_index _ _ _ HR) in Hv as (id' & ev' & Hid' & Hk' & _); [|done].
    rewrite <- HKK in Hin. apply (rep_ids _ _ _ HR) in Hid' as [? _]. assert (id = id') by (eapply keys_of_id; [..|exact Hin|exact Hk']; lia). lia. }
  assert (HM : forall i k, i <> indexEvents -> (forall k', (i, k') ∈ index_entries a <-> k' = k) ->
    kv (bucket tx' i) = <[k := k_createdAt a]> (kv (bucket tx i)) /\ kv (bucket tx i) !! k = None).
  { intros i k Hi Hin. split; [|apply Hfresh; [done|by apply Hin]]. apply map_eq. intros k'. rewrite EB3, EB2, HP1, EB0, HB1 by done. destruct (decide ((i, k') ∈ _)) as [Hk|Hk].
    - apply Hin in Hk as ->. by rewrite lookup_insert_eq.
    - rewrite lookup_insert_ne; [done|]. intros <-. by apply Hk, Hin. }
  destruct (HM indexKind (k_kind a)) as [HMk HFk]; [done|apply entries_kind|]. destruct (HM indexPubkey (k_pubkey a)) as [HMp HFp]; [done|apply entries_author|].
  assert (Hcs : counters tx' = counters a0) by congruence. destruct (counters tx1) as [c|] eqn:Ec1; last first.
  { unfold countInsert, countEvent in E0. rewrite Ec1 in E0. injection E0 as <-. congruence. }
  destruct (countEvent_spec tx1 c a 1 a0 (kv (bucket tx indexKind)) (kv (bucket tx indexPubkey)) (kv (bucket tx' indexKind)) (kv (bucket tx' indexPubkey)))
    as (c2 & Hc2 & HF); [done|apply HC; congruence|done..| | |exact E0|].
  - intros D kind. rewrite HMk, kind_tally_insert by done. lia.
  - intros D. rewrite HMp, author_tally_insert, (HB1 indexPubkey) by done. lia.
  - replace c' with c2 by congruence. exact HF.
Qed.

Lemma itob_u64 z : itob (u64 z) = itob z.
Proof.
  assert (HB : forall n, 0 <= n <= 56 -> z2b (Z.shiftr (u64 z) n) = z2b (Z.shiftr z n)).
  { intros n Hn. unfold z2b, wrap. rewrite !Z.shiftr_div_pow2 by lia. change 256 with (2 ^ 8).
    enough (HE : (z mod 2 ^ 64 / 2 ^ n) mod 2 ^ 8 = (z / 2 ^ n) mod 2 ^ 8) by (by rewrite HE). apply Z.bits_inj'. intros i Hi.
    destruct (Z.lt_ge_cases i 8); [|by rewrite !Z.mod_pow2_bits_high by lia]. by rewrite !Z.mod_pow2_bits_low, !Z.div_pow2_bits, Z.mod_pow2_bits_low by lia. }
  unfold itob, BE.put64. rewrite !HB by lia. pose proof (HB 0 ltac:(lia)) as H0. rewrite !Z.shiftr_0_r in H0. by rewrite H0.
Qed.

Lemma delete_counting n tx id ev tx' : counting n tx -> findEventUsingTx tx id = Ok ev -> delete_event mit tx id ev = Ok tx' -> counting n tx'.
Proof.
  intros (S & HR & Hs & HC) HF HE. pose proof (rep_seq _ _ _ HR) as Hseq. apply (delete_event_Ok BL mit) in HE as (K & tx1 & EK & EC & EB & ECt).
  set (id' := u64 id). assert (Hid' : 0 <= id' < 2 ^ 64) by apply Z.mod_pos_bound, eq_refl.
  assert (HI : itob id = itob id') by (unfold id'; by rewrite itob_u64).
  replace (indexKeysFor ev id mit) with (indexKeysFor ev id' mit) in EK by (unfold indexKeysFor; by rewrite HI). unfold removed in EC, EB. rewrite HI in EC, EB. fold (removed tx id' (index_entries K)) in EC, EB.
  assert (Hst : S !! id' = Some ev).
  { replace (findEventUsingTx tx id) with (findEventUsingTx tx id') in HF by (unfold findEventUsingTx; by rewrite HI).
    rewrite (findEventUsingTx_spec BL mit tx S) in HF by done. destruct (S !! id'); [congruence|done]. }
  destruct (rep_ids _ _ _ HR _ _ Hst) as [_ HO]. destruct (key_lengths ev id' K HO EK) as (Hkk & Hak & HKK & L8 & L32).
  destruct (removed_spec BL mit tx S id' ev tx') as [HR' Hs']; [done|done|by rewrite HKK|]. exists (delete id' S). split_and!; [done|lia|lia|]. intros c' Hc'.
  destruct (index_small tx S HR) as [Sk Sp]; [lia|]. destruct (index_small tx' _ HR') as [Sk' Sp']; [lia|].
  destruct (del_entries BL mit (bdel tx indexEvents (itob id')) (index_entries K)) as (_ & EC1 & _ & _ & HD). fold (removed tx id' (index_entries K)) in EC1, HD.
  assert (HM : forall i k, i <> indexEvents -> (forall k', (i, k') ∈ index_entries K <-> k' = k) ->
    kv (bucket tx' i) = delete k (kv (bucket tx i)) /\ exists v, kv (bucket tx i) !! k = Some v).
  { intros i k Hi Hin. split.
    - apply map_eq. intros k'. rewrite EB, HD, (bdel_lookup BL mit). destruct (decide ((i, k') ∈ _)) as [Hk|Hk].
      + apply Hin in Hk as ->. by rewrite lookup_delete_eq.
      + rewrite lookup_delete_ne by (intros <-; by apply Hk, Hin). by rewrite decide_False by naive_solver.
    - exists (itob (CreatedAt ev)). apply (rep_index _ _ _ HR); [done|]. exists id', ev. split_and!; [done| |done]. rewrite HKK. by apply Hin. }
  destruct (HM indexKind (k_kind K)) as [HMk [vk HFk]]; [done|apply entries_kind|]. destruct (HM indexPubkey (k_pubkey K)) as [HMp [vp HFp]]; [done|apply entries_author|].
  assert (Hct : counters (removed tx id' (index_entries K)) = counters tx) by (rewrite EC1; done). destruct (counters tx) as [c|] eqn:Ec; last first.
  { unfold countDelete, countEvent in EC. rewrite Hct in EC. injection EC as <-. congruence. }
  destruct (countEvent_spec (removed tx id' (index_entries K)) c K (-1) tx1 (kv (bucket tx indexKind)) (kv (bucket tx indexPubkey)) (kv (bucket tx' indexKind)) (kv (bucket tx' indexPubkey)))
    as (c2 & Hc2 & HFin); [done|by apply HC|done..| | |exact EC|].
  - intros D kind. rewrite HMk, (kind_tally_delete D _ _ vk) by done. lia.
  - intros D. rewrite <- EB, HMp, (author_tally_delete D _ _ vp) by done. lia.
  - replace c' with c2 by congruence. exact HFin.
Qed.

End CountInv.

(** * relay/store_counters.go: batches and backfill

    Every batch keeps the counters in step with the indexes, and so does every
    chunk of the backfill; batches commit between the chunks in any order. *)

Section Batches.
Context {Bolt0 : Bolt} {JSON0 : EventJSON} {Derived0 : Derived} {GoLower0 : GoLower} (BL : BoltLaws) (mit MaxLimit : Z).
#[local] Set Default Proof Using "All".
#[local] Notation counting := (counting mit).

Lemma deleteByEvsid_counting n tx id tx' : counting n tx -> deleteByEvsid mit tx id = Ok tx' -> counting n tx'.
Proof.
  intros HC. unfold deleteByEvsid. destruct (findEventUsingTx tx id) as [ev|[]|] eqn:EF; try done; [|by intros [= <-]].
  intros HE. by eapply (delete_counting BL mit).
Qed.

Lemma deleteAll_counting n tx ids tx' : counting n tx -> deleteAll mit tx ids = Ok tx' -> counting n tx'.
Proof.
  revert tx. induction ids as [|id ids IH]; intros tx HC; cbn [deleteAll]; [by intros [= <-]|].
  intros HE. inv_ok. eapply IH; [|done]. by eapply deleteByEvsid_counting.
Qed.

Lemma restricted_counting n tx del pes kinds tx' : counting n tx -> deleteAllRestricted mit tx del pes kinds = Ok tx' -> counting n tx'.
Proof.
  revert tx. induction pes as [|pe pes IH]; intros tx HC; cbn [deleteAllRestricted]; [by intros [= <-]|].
  destruct (findEventUsingTx tx (Evsid pe)) as [ev|[]|] eqn:EF; try done; [|by apply IH].
  destruct (_ && _); [by apply IH|]. destruct (negb _); [by apply IH|]. destruct (IsDeletionKind _); [by apply IH|].
  intros HE. inv_ok. eapply IH; [|done]. by eapply (delete_counting BL mit).
Qed.

Lemma replace_counting n tx ev pes tx' : 0 <= n -> counting (n + 1) tx -> ev_ok ev -> insertReplaceableEvent mit tx ev pes = Ok tx' -> counting n tx'.
Proof.
  intros Hn HC HO. assert (Hkeep : forall tx, counting (n + 1) tx -> counting n tx) by (intros; eapply counting_mono; [done..|lia]).
  unfold insertReplaceableEvent. destruct pes as [|pe pes]; [by apply (insert_counting BL mit)|]. intros HE. inv_ok. destruct a as [latest toDelete].
  inv_ok. apply (deleteAll_counting (n + 1)) in E0; [|done]. unfold insertOrReplaceEvent in HE.
  assert (HR : forall r, (tx0 ← deleteByEvsid mit a (Evsid latest); insertWithIndexes mit tx0 ev) = Ok r -> counting n r).
  { intros r HX. inv_ok. eapply (insert_counting BL mit); [done| |done|done]. by eapply deleteByEvsid_counting. }
  destruct (_ <? _); [by apply HR|]. destruct (_ =? _); [|injection HE as <-; by apply Hkeep]. inv_ok. destruct a0; [by apply HR|]. injection HE as <-. by apply Hkeep.
Qed.

Lemma insert_event_counting n tx ev tx' : 0 <= n -> counting (n + 1) tx -> ev_ok ev -> insert mit MaxLimit tx ev = Ok tx' -> counting n tx'.
Proof.
  intros Hn HC HO. unfold insert. destruct (IsDeletionKind _).
  { intros HE. inv_ok. destruct a as [pes kinds]. inv_ok. eapply (insert_counting BL mit); [done| |done|done]. by eapply restricted_counting. }
  destruct (IsEphemeralKind _); [by apply (insert_counting BL mit)|].
  destruct (IsParamReplaceableKind _); [intros HE; inv_ok; by eapply replace_counting|].
  destruct (IsReplaceableKind _); [intros HE; inv_ok; by eapply replace_counting|]. by apply (insert_counting BL mit).
Qed.

Lemma events_counting n evs tx te tx' te' : 0 <= n -> counting (n + zlen evs) tx -> Forall admissible evs ->
  apply_events mit MaxLimit tx te evs = Ok (tx', te') -> counting n tx'.
Proof.
  intros Hn. revert tx te. induction evs as [|ev evs IH]; intros tx te HC HF; cbn [apply_events].
  { intros [= <- _]. rewrite zlen_nil, Z.add_0_r in HC. done. }
  inversion HF as [|? ? [HO _] HF']; subst. rewrite zlen_cons in HC. pose proof (zlen_nonneg evs).
  destruct (checkEventDuplication tx ev) as [u|[]|]; try done.
  - intros HE. inv_ok. eapply IH; [|done|done]. eapply insert_event_counting; [lia| |done|done]. by replace (n + zlen evs + 1) with (n + (1 + zlen evs)) by lia.
  - apply IH; [|done]. eapply counting_mono; [done..|lia].
Qed.

Lemma task_counting n task tx tx' te : 0 <= n -> counting (n + zlen (task_events task)) tx -> task_ok task ->
  applyTask mit MaxLimit tx task = Ok (tx', te) -> counting n tx'.
Proof.
  intros Hn. destruct task as [evs|ids|]; cbn [task_events applyTask task_ok]; intros HC HT.
  - by apply events_counting.
  - rewrite zlen_nil, Z.add_0_r in HC. intros HE. inv_ok. by eapply deleteAll_counting.
  - rewrite zlen_nil, Z.add_0_r in HC. by intros [= <- _].
Qed.

(** A batch keeps the counters in step. *)
Lemma batch_counting n tasks tx tx' errs : 0 <= n -> counting (n + zlen (all_events tasks)) tx -> Forall task_ok tasks ->
  ExecuteBatch mit MaxLimit tx tasks = Ok (tx', errs) -> counting n tx'.
Proof.
  intros Hn. rewrite ExecuteBatch_retry. revert tx errs. induction tasks as [|task tasks IH]; intros tx errs HC HF; cbn [retryTasks].
  { intros [= <- _]. cbn [all_events flat_map] in HC. by rewrite zlen_nil, Z.add_0_r in HC. }
  inversion HF as [|? ? HT HF']; subst. cbn [all_events flat_map] in HC. fold (all_events tasks) in HC. rewrite zlen_app in HC.
  pose proof (zlen_nonneg (all_events tasks)). pose proof (zlen_nonneg (task_events task)).
  assert (HN : forall tx1 r, counting (n + zlen (all_events tasks)) tx1 ->
    (x ← retryTasks mit MaxLimit tx1 tasks; let '(db, errs) := x in Ok (db, r :: errs)) = Ok (tx', errs) -> counting n tx').
  { intros tx1 r HC1 HE. inv_ok. destruct a as [db errs0]. injection HE as <- _. by eapply IH. }
  destruct (applyTask mit MaxLimit tx task) as [[tx1 te]|e|] eqn:EA; [|apply HN; eapply counting_mono; [done..|lia]|done].
  apply HN. eapply task_counting; [lia| |done|done]. by replace (n + zlen (all_events tasks) + zlen (task_events task)) with (n + (zlen (task_events task) + zlen (all_events tasks))) by lia.
Qed.

End Batches.
