(* ===== verification/StoreBackfill.v ===== *)
(** * relay/store_counters.go: the chunks of the backfill

    One chunk of either pass moves the mark over the keys it has counted, so the
    counters stay what StoreCountInv.v says they are; a chunk that does not
    finish its pass leaves strictly less to count. *)

From S2P Require Import Prelude GoLib GoHeap Bolt Sha256 NostrUtils Pow Event Filter StoreDb StoreInv StoreScan StoreMerge StoreExact StoreQuery StoreEvents StoreLife StoreTail StoreCounters StoreCountInv.

(** ** Passing keys *)

Lemma kind_tally_ext D D' m kind : (forall k, is_Some (m !! k) -> D k = D' k) -> kind_tally D m kind = kind_tally D' m kind.
Proof.
  intros HD. unfold kind_tally. do 2 f_equal. apply map_filter_ext. intros k v Hk. cbn [fst]. rewrite (HD k); [done|by eexists].
Qed.

Definition passing (D : gostring -> bool) (ks : list gostring) (k : gostring) : bool := D k || bool_decide (k ∈ ks).

(** How many keys of a list have the kind. *)
Definition occ (kind : gostring) (ks : list gostring) : Z := foldr (fun k n => one_if (take 8 k = kind) + n) 0 ks.

Lemma occ_nonneg kind ks : 0 <= occ kind ks.
Proof. induction ks as [|k ks IH]; [done|]. cbn [occ foldr]. fold (occ kind ks). unfold one_if. destruct (decide _); lia. Qed.

Lemma tally_pass_one D m x kind : is_Some (m !! x) -> D x = false ->
  kind_tally (fun k => D k || bool_decide (k = x)) m kind = kind_tally D m kind + one_if (take 8 x = kind).
Proof.
  intros [v Hx] HD. rewrite <- (insert_delete_id m x v) by done. rewrite !kind_tally_insert by apply lookup_delete_eq.
  rewrite (kind_tally_ext (fun k => D k || bool_decide (k = x)) D).
  - rewrite HD, bool_decide_true by done. unfold one_if. destruct (decide (take 8 x = kind)); rewrite ?(decide_True (P := _ /\ _)), ?(decide_False (P := _ /\ _)) by naive_solver; cbn [orb]; repeat (destruct (decide _)); naive_solver lia.
  - intros k [w Hk]. apply lookup_delete_Some in Hk as [Hne _]. rewrite bool_decide_false by done. by rewrite orb_false_r.
Qed.

Lemma tally_pass D m ks kind : NoDup ks -> (forall k, k ∈ ks -> is_Some (m !! k) /\ D k = false) ->
  kind_tally (passing D ks) m kind = kind_tally D m kind + occ kind ks.
Proof.
  induction ks as [|x ks IH]; intros HN HK.
  { rewrite (kind_tally_ext (passing D []) D); [cbn; lia|]. intros k _. unfold passing. rewrite bool_decide_false by apply not_elem_of_nil. apply orb_false_r. }
  apply NoDup_cons in HN as [Hx HN]. destruct (HK x ltac:(by left)) as [Hm HD]. cbn [occ foldr]. fold (occ kind ks).
  rewrite (kind_tally_ext (passing D (x :: ks)) (fun k => passing D ks k || bool_decide (k = x))).
  - rewrite tally_pass_one by (first [done|unfold passing; rewrite HD, bool_decide_false; done]). rewrite IH by (first [done|intros; apply HK; by right]). lia.
  - intros k _. unfold passing. rewrite <- orb_assoc. f_equal. apply eq_iff_eq_true. rewrite orb_true_iff, !bool_decide_eq_true. set_solver.
Qed.

(** ** The pending additions of a chunk *)

Definition bump (m : gmap gostring Z) (x : gostring * gostring) : gmap gostring Z :=
  if (8 <=? length x.1)%nat then <[take 8 x.1 := default 0 (m !! take 8 x.1) + 1]> m else m.

Lemma pending_spec l : (forall x, x ∈ l -> (8 <= length x.1)%nat) -> forall m,
  (forall kind, default 0 (foldl bump m l !! kind) = default 0 (m !! kind) + occ kind l.*1) /\
  (forall kind n, foldl bump m l !! kind = Some n -> length kind = 8%nat \/ is_Some (m !! kind)).
Proof.
  induction l as [|x l IH]; intros HL m; cbn [foldl occ fmap list_fmap foldr]; [split; [intros; lia|intros kind n Hk; right; by eexists]|].
  destruct (IH ltac:(intros y Hy; apply HL; by right) (bump m x)) as [H1 H2].
  pose proof (HL x ltac:(by left)) as Hx. assert (HB : bump m x = <[take 8 x.1 := default 0 (m !! take 8 x.1) + 1]> m).
  { unfold bump. by rewrite (proj2 (Nat.leb_le _ _)). }
  split.
  - intros kind. rewrite H1, HB. fold (occ kind l.*1). set (o := occ kind l.*1). unfold one_if.
    destruct (decide (take 8 x.1 = kind)) as [<-|Hne]; [rewrite lookup_insert_eq; cbn [default from_option]|rewrite lookup_insert_ne by done]; unfold id; lia.
  - intros kind n Hk. destruct (H2 kind n Hk) as [?|Hs]; [by left|]. rewrite HB in Hs. destruct (decide (take 8 x.1 = kind)) as [<-|Hne].
    + left. rewrite length_take. lia.
    + rewrite lookup_insert_ne in Hs by done. by right.
Qed.

Section Chunks.
Context {Bolt0 : Bolt} {JSON0 : EventJSON} {Derived0 : Derived} {GoLower0 : GoLower} (BL : BoltLaws).
#[local] Set Default Proof Using "All".

Lemma add_all_spec l c (t : gostring -> Z) :
  (forall kind, length kind = 8%nat -> counter_at c (kindCounterKey kind) (t kind)) ->
  NoDup l.*1 -> (forall kind n, (kind, n) ∈ l -> length kind = 8%nat /\ 0 <= t kind < 2 ^ 63 /\ 0 <= t kind + n < 2 ^ 63) ->
  exists c', add_all c l = Ok c' /\ (forall x, length x <> 9%nat -> kv c' !! x = kv c !! x) /\
    forall kind, length kind = 8%nat -> counter_at c' (kindCounterKey kind) (t kind + default 0 ((list_to_map l : gmap gostring Z) !! kind)).
Proof.
  revert c t. induction l as [|[kind n] l IH]; intros c t HC HN HL.
  { exists c. split_and!; [done|done|]. intros kind Hk. cbn [list_to_map foldr]. rewrite lookup_empty. cbn. rewrite Z.add_0_r. by apply HC. }
  cbn [fmap list_fmap fst] in HN. apply NoDup_cons in HN as [Hn HN]. destruct (HL kind n ltac:(by left)) as (H8 & Hb & Hb').
  destruct (addCounter_Ok BL c (kindCounterKey kind) (t kind) n) as (c1 & HE & HC1 & HO1); [by apply HC|done|done| |].
  { unfold put_ok, kindCounterKey, zlen. rewrite length_app, H8, length_itob. by vm_compute. }
  destruct (IH c1 (fun k => if decide (k = kind) then t kind + n else t k)) as (c' & HE' & HO' & HC').
  - intros k Hk. destruct (decide (k = kind)) as [->|Hne]; [done|]. unfold counter_at. rewrite HO1 by (intros [=]; done). by apply HC.
  - done.
  - intros k n' Hin. assert (k <> kind) by (intros ->; apply Hn, list_elem_of_fmap; by exists (kind, n')). rewrite decide_False by done. apply HL. by right.
  - exists c'. cbn [add_all]. rewrite HE. split_and!; [done| |].
    + intros x Hx. rewrite HO' by done. apply HO1. intros ->. apply Hx. unfold kindCounterKey. by rewrite length_app, H8.
    + intros k Hk. specialize (HC' k Hk). cbn [list_to_map foldr uncurry]. destruct (decide (k = kind)) as [->|Hne].
      * rewrite lookup_insert_eq. assert (HX : (list_to_map l : gmap gostring Z) !! kind = None) by (by apply not_elem_of_list_to_map_1).
        rewrite HX in HC'. cbn in HC' |- *. by rewrite Z.add_0_r in HC'.
      * by rewrite lookup_insert_ne.
Qed.

(** What a pass still has to count, in order. *)
Lemma kinds_from_spec c b : present c ctrKindsDone = false ->
  (forall k v, (k, v) ∈ kinds_from c b <-> kv b !! k = Some v /\ kinds_in c k = false) /\ StronglySorted before (kinds_from c b).
Proof.
  unfold present, kinds_from, kinds_in, counted. destruct (Get c ctrKindsDone); [done|]. intros _.
  destruct (Get c ctrKindsMark) as [mark|]; last first.
  { destruct (ascend_spec BL b []) as [HA HS]. split; [|done]. intros k v. rewrite HA. split; intros [? _]; (split; [done|]); [done|]. by destruct k. }
  destruct (ascend_spec BL b mark) as [HA HS]. setoid_rewrite negb_false_iff.
  assert (HX : forall k v, kv b !! k = Some v -> Cmp.ltb mark k = true -> (k, v) ∈ ascend b mark) by (intros k v Hk Hl; apply HA; split; [done|by apply Cmp.ltb_asym]).
  destruct (ascend b mark) as [|[k0 v0] l].
  { split; [|done]. intros k v. split; [by intros ?%elem_of_nil|]. intros [? ?]. by apply HX. }
  inversion HS as [|? ? HS' HF]; subst. rewrite Forall_forall in HF. destruct (decide (k0 = mark)) as [->|Hne].
  - split; [|done]. intros k v. split.
    + intros Hin. split; [by apply (HA k v); right|]. exact (HF (k, v) Hin).
    + intros [Hk Hl]. apply HX in Hk as [[= -> _]|?]%elem_of_cons; [|done..]. by rewrite Cmp.ltb_irrefl in Hl.
  - split; [|done]. intros k v. split; [|intros [? ?]; by apply HX]. intros Hin. apply HA in Hin as HK. destruct HK as [Hk Hge]. split; [done|].
    destruct (Cmp.ltb mark k) eqn:EL; [done|]. exfalso. assert (k = mark) as -> by (by apply Cmp.ltb_total).
    apply elem_of_cons in Hin as [[= -> _]|Hin]; [done|]. specialize (HF _ Hin). unfold before in HF. cbn [fst] in HF.
    assert (Hg0 : Cmp.ltb k0 mark = false) by (apply (HA k0 v0); by left). congruence.
Qed.

Lemma cput_Ok c k v : put_ok k v = true -> exists c', cput c k v = Ok c' /\ kv c' = <[k := v]> (kv c).
Proof. intros HP. unfold cput. pose proof (Put_kv BL c k v) as HK. rewrite HP in HK. destruct HK as (c' & -> & HK & _). by exists c'. Qed.

Lemma sorted_keys l : StronglySorted before l -> NoDup l.*1.
Proof.
  induction 1 as [|x l _ IH HF]; cbn [fmap list_fmap]; constructor; [|done]. intros (y & HE & Hy)%list_elem_of_fmap.
  rewrite Forall_forall in HF. specialize (HF y Hy). unfold before in HF. rewrite HE, Cmp.ltb_irrefl in HF. done.
Qed.

(** The additions of a chunk bring the kind counters past its keys. *)
Lemma add_chunk c m chunk :
  (forall kind, length kind = 8%nat -> counter_at c (kindCounterKey kind) (kind_tally (kinds_in c) m kind)) -> small m ->
  NoDup chunk.*1 -> (forall k v, (k, v) ∈ chunk -> m !! k = Some v /\ kinds_in c k = false /\ (8 <= length k)%nat) ->
  exists c', add_all c (map_to_list (pending chunk)) = Ok c' /\ (forall x, length x <> 9%nat -> kv c' !! x = kv c !! x) /\
    forall kind, length kind = 8%nat -> counter_at c' (kindCounterKey kind) (kind_tally (passing (kinds_in c) chunk.*1) m kind).
Proof.
  intros HC Hm HN HK. destruct (pending_spec chunk) with (m := (∅ : gmap gostring Z)) as [HP1 HP2]; [intros [k v] Hin; apply HK in Hin; tauto|].
  fold (pending chunk) in HP1, HP2.
  assert (HT : forall kind, kind_tally (passing (kinds_in c) chunk.*1) m kind = kind_tally (kinds_in c) m kind + default 0 (pending chunk !! kind)).
  { intros kind. rewrite tally_pass, HP1, lookup_empty; [cbn; lia|done|]. intros k ([k' v] & -> & Hin)%list_elem_of_fmap. apply HK in Hin as (? & ? & _). split; [by eexists|done]. }
  destruct (add_all_spec (map_to_list (pending chunk)) c (kind_tally (kinds_in c) m) HC) as (c' & HE & HO & HC').
  - apply NoDup_fst_map_to_list.
  - intros kind n Hin%elem_of_map_to_list. destruct (HP2 kind n Hin) as [H8|[? HX]]; [|by rewrite lookup_empty in HX].
    specialize (HT kind). rewrite Hin in HT. cbn in HT. unfold small in Hm.
    pose proof (kind_tally_le (kinds_in c) m kind). pose proof (kind_tally_le (passing (kinds_in c) chunk.*1) m kind). split; [done|]. lia.
  - exists c'. split_and!; [done|done|]. intros kind Hk. rewrite HT. specialize (HC' kind Hk). by rewrite list_to_map_to_list in HC'.
Qed.

(** The keys at or below the last of a chunk are the chunk's and the counted. *)
Lemma mark_passes D l n k0 v0 k v :
  (forall k v, (k, v) ∈ l -> D k = false) -> StronglySorted before l -> (forall k', D k' = true -> forall x, x ∈ l -> Cmp.ltb k' x.1 = true) ->
  last (take n l) = Some (k0, v0) -> D k = true \/ (k, v) ∈ l -> negb (Cmp.ltb k0 k) = passing D (take n l).*1 k.
Proof.
  intros HD HS HB HL Hk. apply last_Some in HL as [l1 HL]. rewrite <- (take_drop n l) in HS. apply StronglySorted_app in HS as (Hcross & HSt & _).
  assert (Hin0 : (k0, v0) ∈ take n l) by (rewrite HL; apply elem_of_app; right; by left).
  assert (Hin0l : (k0, v0) ∈ l) by (rewrite <- (take_drop n l); apply elem_of_app; by left).
  apply eq_iff_eq_true. unfold passing. rewrite negb_true_iff, orb_true_iff, bool_decide_eq_true. split.
  - intros Hle. destruct Hk as [|Hk]; [by left|]. right. rewrite <- (take_drop n l) in Hk. apply elem_of_app in Hk as [Hk|Hk]; [apply list_elem_of_fmap; by exists (k, v)|].
    specialize (Hcross _ _ Hin0 Hk). unfold before in Hcross. cbn [fst] in Hcross. congruence.
  - intros [HDk|Hin]; [apply Cmp.ltb_asym; exact (HB k HDk _ Hin0l)|]. apply list_elem_of_fmap in Hin as ([k' v'] & -> & Hin). cbn [fst]. rewrite HL in Hin, HSt.
    apply StronglySorted_app in HSt as (Hc & _ & _). apply elem_of_app in Hin as [Hin|[= -> ->]%list_elem_of_singleton]; [|apply Cmp.ltb_irrefl].
    apply Cmp.ltb_asym. exact (Hc _ _ Hin ltac:(by left)).
Qed.

(** What is counted comes before what is not. *)
Lemma counted_segment c dn mark k k' : counted c dn mark k = true -> counted c dn mark k' = false -> Cmp.ltb k k' = true.
Proof.
  unfold counted. destruct (Get c dn); [done|]. destruct (Get c mark) as [m|]; [|done]. rewrite negb_true_iff, negb_false_iff. intros H1 H2.
  destruct (Cmp.ltb k m) eqn:E; [by eapply Cmp.ltb_trans|]. by replace k with m by (by apply Cmp.ltb_total).
Qed.

(** The state after a chunk of the kind index. *)
Lemma kinds_marked (c c1 : Bucket) (m : gmap gostring gostring) chunk rest :
  present c ctrKindsDone = false -> StronglySorted before (chunk ++ rest) ->
  (forall k v, (k, v) ∈ chunk ++ rest <-> m !! k = Some v /\ kinds_in c k = false) -> (chunk = [] -> rest = []) ->
  (forall x : gostring, length x <> 9%nat -> kv c1 !! x = kv c !! x) -> (forall x, x ∈ chunk -> zlen x.1 <= MaxKeySize) ->
  exists c', (c ← match last chunk with Some (k, _) => cput c1 ctrKindsMark k | None => Ok c1 end;
              match rest with [] => c ← cput c ctrKindsDone [x01]; Ok (c, true) | _ => Ok (c, false) end) = Ok (c', bool_decide (rest = [])) /\
    (forall k, is_Some (m !! k) -> kinds_in c' k = passing (kinds_in c) chunk.*1 k) /\
    (forall x : gostring, length x <> 10%nat -> kv c' !! x = kv c1 !! x) /\ present c' ctrKindsDone = bool_decide (rest = []).
Proof.
  intros Hnd HS HL Hne Hc1 Hsz.
  assert (H2 : exists c2, match last chunk with Some (k, _) => cput c1 ctrKindsMark k | None => Ok c1 end = Ok c2 /\
    (forall x, x <> ctrKindsMark -> kv c2 !! x = kv c1 !! x) /\ forall k v, last chunk = Some (k, v) -> kv c2 !! ctrKindsMark = Some k).
  { destruct (last chunk) as [[k v]|] eqn:EL; [|by exists c1]. destruct (cput_Ok c1 ctrKindsMark k) as (c2 & HE & HK).
    - assert (Hin : (k, v) ∈ chunk) by (apply last_Some in EL as [l1 ->]; apply elem_of_app; right; by left). apply Hsz in Hin. cbn [fst] in Hin.
      unfold put_ok. cbn [bool_decide]. apply andb_true_iff. split; [by vm_compute|]. apply Z.leb_le. unfold MaxKeySize, MaxValueSize in *. lia.
    - exists c2. split_and!; [done| |]; [intros x Hx; by rewrite HK, lookup_insert_ne|]. intros k' v' [= <- <-]. by rewrite HK, lookup_insert_eq. }
  destruct H2 as (c2 & -> & HO2 & HM2). cbn [mbind outcome_bind]. destruct rest as [|r rest].
  - destruct (cput_Ok c2 ctrKindsDone [x01]) as (c3 & -> & HK); [by vm_compute|]. exists c3. cbn [mbind outcome_bind]. rewrite bool_decide_true by done.
    assert (HD : Get c3 ctrKindsDone = Some [x01]) by (by rewrite (Get_kv BL), HK, lookup_insert_eq). split_and!; [done| | |by unfold present; rewrite HD].
    + intros k [v Hk]. unfold kinds_in at 1, counted. rewrite HD. symmetry. unfold passing. destruct (kinds_in c k) eqn:ED; [done|]. apply bool_decide_eq_true.
      rewrite app_nil_r in HL. apply list_elem_of_fmap. exists (k, v). split; [done|]. by apply HL.
    + intros x Hx. rewrite HK, lookup_insert_ne by (intros <-; by apply Hx). apply HO2. intros ->. by apply Hx.
  - exists c2. rewrite bool_decide_false by done.
    assert (HD : Get c2 ctrKindsDone = None).
    { rewrite (Get_kv BL), HO2, Hc1 by done. unfold present in Hnd. rewrite (Get_kv BL) in Hnd. by destruct (kv c !! ctrKindsDone). }
    split_and!; [done| | |by unfold present; rewrite HD]; [|intros x Hx; apply HO2; intros ->; by apply Hx].
    destruct (last chunk) as [[k0 v0]|] eqn:EL; [|apply last_None in EL; by specialize (Hne EL)].
    intros k [v Hk]. unfold kinds_in at 1, counted. rewrite HD, (Get_kv BL), (HM2 k0 v0) by done.
    rewrite <- (take_app_length chunk (r :: rest)) in EL |- *. apply (mark_passes (kinds_in c) _ _ k0 v0 k v); [|done| |done|].
    + intros k' v' Hin. by apply HL in Hin as [_ ?].
    + intros k' Hk' [x vx] Hx. apply HL in Hx as [_ Hx]. by eapply counted_segment.
    + destruct (kinds_in c k) eqn:ED; [by left|]. right. by apply HL.
Qed.

(** What one chunk of a pass leaves: the indexes as they were, the counters in
    step with them; [left] is what the pass still has to count. *)
Definition chunk_ok (left : Bucket -> nat) (dn other : gostring) (tx : Tx) (c : Bucket) (r : Tx * bool) : Prop :=
  exists c', bucket r.1 = bucket tx /\ counters r.1 = Some c' /\ counts_ok tx c' /\ present c' dn = r.2 /\
    (present c other = true -> present c' other = true) /\ (r.2 = false -> (left c' < left c)%nat).

Definition kinds_left (tx : Tx) (c : Bucket) : nat := length (kinds_from c (bucket tx indexKind)).

Lemma kinds_chunk n tx c : (0 < n)%nat -> counters tx = Some c -> counts_ok tx c -> small (kv (bucket tx indexKind)) ->
  (forall k, is_Some (kv (bucket tx indexKind) !! k) -> length k = 24%nat) ->
  exists r, countKindsChunk n tx = Ok r /\ chunk_ok (kinds_left tx) ctrKindsDone ctrAuthorsDone tx c r.
Proof.
  intros Hn Hc (HK & HA & HM) Sk H24. unfold countKindsChunk. rewrite Hc. destruct (present c ctrKindsDone) eqn:EP.
  { eexists. split; [done|]. by exists c. }
  unfold kinds_left. set (b := bucket tx indexKind) in *. destruct (kinds_from_spec c b EP) as [HL HS]. set (l := kinds_from c b) in *.
  assert (Htd : l = take n l ++ drop n l) by (by rewrite take_drop). assert (Hin : forall x, x ∈ take n l -> x ∈ l) by (intros x Hx; rewrite Htd; apply elem_of_app; by left).
  destruct (add_chunk c (kv b) (take n l)) as (c1 & HE1 & HO1 & HC1); [done|done| | |].
  { apply sorted_keys. rewrite Htd in HS. by apply StronglySorted_app in HS as (_ & ? & _). }
  { intros k v Hx. pose proof (proj1 (HL k v) (Hin _ Hx)) as [Hk HD]. split_and!; [done|done|]. rewrite (H24 k) by (by eexists). lia. }
  destruct (kinds_marked c c1 (kv b) (take n l) (drop n l)) as (c' & HE & HD' & HO' & HP); [done|by rewrite <- Htd|by rewrite <- Htd| |done| |].
  { intros HX. destruct n; [lia|]. by destruct l. }
  { intros [k v] Hx. apply Hin, HL in Hx as [Hk _]. unfold zlen. cbn [fst]. rewrite (H24 k) by (by eexists). by vm_compute. }
  exists (set_counters tx c', bool_decide (drop n l = [])). rewrite HE1. cbn [mbind outcome_bind]. inv_ok. rewrite E. cbn [mbind outcome_bind]. split.
  { destruct (drop n l); inv_ok; [rewrite E0|]; by simplify_eq. }
  assert (HC' : counts_ok tx c').
  { split_and!.
    - intros kind Hk. rewrite (kind_tally_ext _ (passing (kinds_in c) (take n l).*1)) by apply HD'. unfold counter_at. rewrite HO'; [by apply HC1|].
      unfold kindCounterKey. rewrite length_app, Hk. done.
    - assert (HAI : authors_in c' = authors_in c) by (unfold authors_in, counted; by rewrite !(Get_kv BL), !HO', !HO1). rewrite HAI. unfold counter_at. by rewrite HO', HO1.
    - intros x. rewrite HO', HO1 by done. apply HM. }
  exists c'. split_and!; [done|done|exact HC'|done|unfold present; by rewrite !(Get_kv BL), HO', HO1|]. cbn [snd]. intros Hf. rewrite Hf in HP.
  destruct (kinds_from_spec c' b HP) as [HL' HS']. enough (length (take n l ++ kinds_from c' b) <= length l)%nat as HX.
  { assert (l <> []) by (intros E0; by rewrite E0, drop_nil in Hf). assert (0 < length l)%nat by (destruct l; [done|cbn; lia]).
    rewrite length_app, length_take in HX. fold l. lia. }
  apply submseteq_length, NoDup_submseteq.
  - apply NoDup_app. split_and!; [apply (NoDup_fmap_1 fst), sorted_keys; rewrite Htd in HS; by apply StronglySorted_app in HS as (_ & ? & _)| |by apply (NoDup_fmap_1 fst), sorted_keys].
    intros [k v] Hx Hx'. apply HL' in Hx' as [Hk Hnk]. rewrite HD' in Hnk by (by eexists). unfold passing in Hnk. rewrite orb_false_iff, bool_decide_eq_false in Hnk.
    destruct Hnk as [_ Hnk]. apply Hnk, list_elem_of_fmap. by exists (k, v).
  - intros [k v] [Hx|Hx]%elem_of_app; [by apply Hin|]. apply HL' in Hx as [Hk Hnk]. apply HL. split; [done|]. rewrite HD' in Hnk by (by eexists).
    unfold passing in Hnk. by apply orb_false_iff in Hnk as [? _].
Qed.

(** ** Authors *)

Lemma author_tally_ext D D' m : (forall a, a ∈ authors m -> D a = D' a) -> author_tally D m = author_tally D' m.
Proof.
  intros HD. unfold author_tally. do 2 f_equal. apply set_eq. intros a. rewrite !elem_of_filter. split; intros [? Ha]; (split; [|done]); [rewrite <- HD|rewrite HD]; done.
Qed.

Lemma author_pass D D' m x : x ∈ authors m -> D x = false -> (forall a, a ∈ authors m -> D' a = D a || bool_decide (a = x)) ->
  author_tally D' m = author_tally D m + 1.
Proof.
  intros Hx HD HD'. unfold author_tally. replace (base.filter (fun a => D' a = true) (authors m)) with ({[x]} ∪ base.filter (fun a => D a = true) (authors m)).
  - rewrite size_union, size_singleton; [lia|]. apply disjoint_singleton_l. rewrite elem_of_filter. intros [? _]. congruence.
  - apply set_eq. intros a. rewrite elem_of_union, elem_of_singleton, !elem_of_filter. split.
    + intros [->|[Ha Hin]]; [rewrite HD', bool_decide_true, orb_true_r by done; done|]. by rewrite HD', Ha.
    + intros [Ha Hin]. rewrite HD', orb_true_iff, bool_decide_eq_true in Ha by done. destruct Ha; [by right|by left].
Qed.

(** Up to an author. *)
Definition upto (a x : gostring) : bool := negb (Cmp.ltb a x).

(** The cursor stands at the first author not counted. *)
Definition stands (D : gostring -> bool) (m : gmap gostring gostring) (o : option (gostring * gostring)) : Prop :=
  match o with
  | None => forall a, a ∈ authors m -> D a = true
  | Some (k, v) => m !! k = Some v /\ D (take 32 k) = false /\ forall a, a ∈ authors m -> D a = false -> Cmp.ltb a (take 32 k) = false
  end.

(** The keys of the author index: a number below the greatest ends them. *)
Definition author_shaped (m : gmap gostring gostring) : Prop :=
  forall k, is_Some (m !! k) -> length k = 48%nat /\ Cmp.ltb (drop 32 k) maxSuffixBytes = true.

Lemma author_of m k : is_Some (m !! k) -> take 32 k ∈ authors m.
Proof. intros Hk. unfold authors. apply elem_of_map. exists k. split; [done|]. by apply elem_of_dom. Qed.

Lemma authors_inv m a : a ∈ authors m -> exists k, is_Some (m !! k) /\ a = take 32 k.
Proof. unfold authors. intros (k & -> & Hk%elem_of_dom)%elem_of_map. by exists k. Qed.

(** The key past an author separates the authors. *)
Lemma past_author m k a : author_shaped m -> is_Some (m !! k) -> length a = 32%nat -> Cmp.ltb k (a ++ maxSuffixBytes) = upto a (take 32 k).
Proof.
  intros HS Hk Ha. destruct (HS k Hk) as [HL HM]. apply Cmp.ltb_lt in HM. unfold upto, Cmp.ltb. rewrite <- (take_drop 32 k) at 1.
  rewrite Cmp.compare_app by (rewrite length_take; lia). rewrite HM, (Cmp.compare_antisym (take 32 k) a). by destruct (Cmp.compare (take 32 k) a).
Qed.

Lemma author_mono k k' : length k = 48%nat -> length k' = 48%nat -> Cmp.ltb k k' = false -> Cmp.ltb (take 32 k) (take 32 k') = false.
Proof.
  intros HL HL'. unfold Cmp.ltb. rewrite <- (take_drop 32 k) at 1. rewrite <- (take_drop 32 k') at 1. rewrite Cmp.compare_app by (rewrite !length_take; lia).
  by destruct (Cmp.compare (take 32 k) (take 32 k')).
Qed.

Lemma seek_past b a : author_shaped (kv b) -> length a = 32%nat -> stands (upto a) (kv b) (Seek b (concatKey [a; maxSuffixBytes])).
Proof.
  intros HS Ha. unfold concatKey. cbn [concat]. rewrite app_nil_r. pose proof (Seek_kv BL b (a ++ maxSuffixBytes)) as HK.
  destruct (Seek b (a ++ maxSuffixBytes)) as [[k v]|].
  - destruct HK as (Hk & Hge & Hmin). split_and!; [done|by erewrite <- past_author by (done || by eexists)|].
    intros x (k' & Hk' & ->)%authors_inv Hx. rewrite <- (past_author (kv b)) in Hx by done. specialize (Hmin k' Hk' Hx).
    apply author_mono; [by apply HS|by apply HS; eexists|done].
  - intros x (k & Hk & ->)%authors_inv. rewrite <- (past_author (kv b)) by done. by apply HK.
Qed.

Lemma seek_first b : author_shaped (kv b) -> stands (fun _ => false) (kv b) (First b).
Proof.
  intros HS. unfold First. pose proof (Seek_kv BL b []) as HK. assert (H0 : forall k, Cmp.ltb k [] = false) by (by intros []).
  destruct (Seek b []) as [[k v]|].
  - destruct HK as (Hk & _ & Hmin). split_and!; [done|done|]. intros x (k' & Hk' & ->)%authors_inv _.
    apply author_mono; [by apply HS|by apply HS; eexists|by apply Hmin].
  - intros x (k & Hk & ->)%authors_inv. specialize (HK k Hk). by rewrite H0 in HK.
Qed.

Lemma author_loop_spec room b : author_shaped (kv b) -> forall o lst n D,
  stands D (kv b) o -> (forall a a', D a = true -> D a' = false -> Cmp.ltb a a' = true) ->
  exists o' lst' n' D', author_loop room b o lst n = (o', lst', n') /\ stands D' (kv b) o' /\
    n' = n + author_tally D' (kv b) - author_tally D (kv b) /\
    (lst' = lst /\ D' = D /\ (room = O \/ o' = None) \/ exists a, lst' = Some a /\ D' = upto a /\ length a = 32%nat /\ n < n').
Proof.
  intros HS. induction room as [|room IH]; intros o lst n D HD Hseg.
  { exists o, lst, n, D. cbn [author_loop]. split_and!; [done|done|lia|]. left. auto. }
  destruct o as [[k v]|]; cbn [author_loop]; [|exists None, lst, n, D; split_and!; [done|done|lia|]; left; auto].
  destruct HD as (Hk & HDk & Hmin). destruct (HS k ltac:(by eexists)) as [HL _]. rewrite (proj2 (Nat.ltb_ge _ _)) by lia.
  set (a := take 32 k) in *. assert (Ha : length a = 32%nat) by (unfold a; rewrite length_take; lia).
  assert (HT : author_tally (upto a) (kv b) = author_tally D (kv b) + 1).
  { apply (author_pass _ _ _ a); [apply author_of; by eexists|done|]. intros x Hx. unfold upto. apply eq_iff_eq_true.
    rewrite negb_true_iff, orb_true_iff, bool_decide_eq_true. split.
    - intros Hle. destruct (D x) eqn:Ex; [by left|]. right. apply Cmp.ltb_total; [by apply Hmin|done].
    - intros [Hx'| ->]; [|apply Cmp.ltb_irrefl]. by apply Cmp.ltb_asym, Hseg. }
  destruct (IH (Seek b (concatKey [a; maxSuffixBytes])) (Some a) (n + 1) (upto a)) as (o' & lst' & n' & D' & HE & HD' & Hn & Hl).
  - by apply seek_past.
  - unfold upto. intros x x'. rewrite negb_true_iff, negb_false_iff. intros H1 H2.
    destruct (Cmp.ltb x a) eqn:E; [by eapply Cmp.ltb_trans|]. by replace x with a by (by apply Cmp.ltb_total).
  - exists o', lst', n', D'. split_and!; [done|done|lia|]. right. destruct Hl as [(-> & -> & _)|(a' & -> & -> & HL' & Hn')]; [exists a|exists a']; split_and!; try done; lia.
Qed.

Definition authors_left (tx : Tx) (c : Bucket) : nat :=
  size (base.filter (fun a => authors_in c a = false) (authors (kv (bucket tx indexPubkey)))).

Lemma author_split D m : author_tally D m + Z.of_nat (size (base.filter (fun a => D a = false) (authors m))) = Z.of_nat (size (authors m)).
Proof.
  unfold author_tally. rewrite <- Nat2Z.inj_add, <- size_union.
  - do 2 f_equal. apply set_eq. intros a. rewrite elem_of_union, !elem_of_filter. destruct (D a); naive_solver.
  - intros a. rewrite !elem_of_filter. intros [? _] [? _]. congruence.
Qed.

(** Where an authors chunk starts. *)
Lemma authors_start c b : present c ctrAuthorsDone = false -> author_shaped (kv b) -> (forall a, kv c !! ctrAuthorsMark = Some a -> length a = 32%nat) ->
  stands (authors_in c) (kv b) (match Get c ctrAuthorsMark with Some mark => Seek b (concatKey [mark; maxSuffixBytes]) | None => First b end).
Proof.
  intros Hnd HS HM. unfold present in Hnd. unfold authors_in, counted. destruct (Get c ctrAuthorsDone); [done|].
  rewrite (Get_kv BL). destruct (kv c !! ctrAuthorsMark) as [mark|]; [apply seek_past; [done|by apply HM]|by apply seek_first].
Qed.

(** What an authors chunk does not write. *)
Lemma authors_frame tx c c3 :
  (forall kind, length kind = 8%nat -> counter_at c (kindCounterKey kind) (kind_tally (kinds_in c) (kv (bucket tx indexKind)) kind)) ->
  (forall x : gostring, length x <> 12%nat -> length x <> 7%nat -> kv c3 !! x = kv c !! x) ->
  (forall kind, length kind = 8%nat -> counter_at c3 (kindCounterKey kind) (kind_tally (kinds_in c3) (kv (bucket tx indexKind)) kind)) /\
  (present c ctrKindsDone = true -> present c3 ctrKindsDone = true).
Proof.
  intros HK HO. split; [|unfold present; by rewrite !(Get_kv BL), HO]. intros kind Hk.
  replace (kinds_in c3) with (kinds_in c) by (unfold kinds_in, counted; by rewrite !(Get_kv BL), !HO). unfold counter_at.
  rewrite HO; [by apply HK|..]; unfold kindCounterKey; by rewrite length_app, Hk.
Qed.

(** The mark moves to the last author counted, if any. *)
Lemma authors_marked c1 lst : (forall a, lst = Some a -> length a = 32%nat) ->
  exists c2, match lst with Some a => cput c1 ctrAuthorsMark a | None => Ok c1 end = Ok c2 /\
    (forall x, x <> ctrAuthorsMark -> kv c2 !! x = kv c1 !! x) /\ kv c2 !! ctrAuthorsMark = match lst with Some a => Some a | None => kv c1 !! ctrAuthorsMark end.
Proof.
  intros HL. destruct lst as [a|]; [|by exists c1]. destruct (cput_Ok c1 ctrAuthorsMark a) as (c2 & HE2 & HK2).
  - unfold put_ok, zlen. rewrite (HL a) by done. by vm_compute.
  - exists c2. split_and!; [done|intros x Hx; by rewrite HK2, lookup_insert_ne|by rewrite HK2, lookup_insert_eq].
Qed.

Lemma authors_chunk n tx c : (0 < n)%nat -> counters tx = Some c -> counts_ok tx c -> small (kv (bucket tx indexPubkey)) -> author_shaped (kv (bucket tx indexPubkey)) ->
  exists r, countAuthorsChunk n tx = Ok r /\ chunk_ok (authors_left tx) ctrAuthorsDone ctrKindsDone tx c r.
Proof.
  intros Hn Hc (HK & HA & HM) Sp HS. unfold countAuthorsChunk. rewrite Hc. destruct (present c ctrAuthorsDone) eqn:EP.
  { eexists. split; [done|]. by exists c. }
  unfold authors_left. set (b := bucket tx indexPubkey) in *.
  destruct (author_loop_spec n b HS _ None 0 (authors_in c) (authors_start c b EP HS HM)) as (o & lst & cnt & D & HE & HD & Hcnt & Hl);
    [intros a a'; apply counted_segment|]. rewrite HE.
  pose proof (author_tally_le (authors_in c) (kv b)). pose proof (author_tally_le D (kv b)). unfold small in Sp.
  destruct (addCounter_Ok BL c ctrAuthors _ cnt HA) as (c1 & -> & HC1 & HO1); [lia|lia|by vm_compute|]. cbn [mbind outcome_bind].
  replace (author_tally (authors_in c) (kv b) + cnt) with (author_tally D (kv b)) in HC1 by lia.
  destruct (authors_marked c1 lst) as (c2 & -> & HO2 & HM2).
  { intros a ->. destruct Hl as [(? & _)|(a' & [= <-] & _ & HL & _)]; done. }
  rewrite HO1 in HM2 by done. cbn [mbind outcome_bind].
  assert (HM2' : forall a, kv c2 !! ctrAuthorsMark = Some a -> length a = 32%nat).
  { intros a. rewrite HM2. destruct Hl as [(-> & _)|(a' & -> & _ & HL & _)]; [apply HM|by intros [= <-]]. }
  assert (HF2 : forall x : gostring, length x <> 12%nat -> length x <> 7%nat -> kv c2 !! x = kv c !! x).
  { intros x Hx Hx'. rewrite HO2, HO1; [done| |]; intros ->; by (apply Hx || apply Hx'). }
  destruct o as [[k v]|].
  - destruct (authors_frame tx c c2 HK HF2) as [HK2 HP2]. eexists. split; [done|]. exists c2.
    assert (HDone : Get c2 ctrAuthorsDone = None).
    { rewrite (Get_kv BL), HO2, HO1 by done. unfold present in EP. rewrite (Get_kv BL) in EP. by destruct (kv c !! ctrAuthorsDone). }
    destruct Hl as [(_ & _ & [?|?])|(a & -> & -> & HL & Hpos)]; [lia|done|].
    assert (HAI : authors_in c2 = upto a) by (unfold authors_in, counted; by rewrite HDone, (Get_kv BL), HM2).
    split_and!; [done|done| |by unfold present; rewrite HDone|done|].
    + split_and!; [done|rewrite HAI; unfold counter_at; by rewrite HO2|done].
    + intros _. rewrite HAI. pose proof (author_split (upto a) (kv b)). pose proof (author_split (authors_in c) (kv b)). lia.
  - destruct (cput_Ok c2 ctrAuthorsDone [x01]) as (c3 & -> & HK3); [by vm_compute|]. cbn [mbind outcome_bind]. eexists. split; [done|]. exists c3.
    assert (HO3 : forall x, x <> ctrAuthorsDone -> kv c3 !! x = kv c2 !! x) by (intros x Hx; by rewrite HK3, lookup_insert_ne).
    destruct (authors_frame tx c c3 HK) as [HK3' HP3]; [intros x Hx Hx'; rewrite HO3; [by apply HF2|]; intros ->; by apply Hx|].
    assert (HDone : Get c3 ctrAuthorsDone = Some [x01]) by (by rewrite (Get_kv BL), HK3, lookup_insert_eq).
    split_and!; [done|done| |by unfold present; rewrite HDone|done|done].
    split_and!; [done| |intros a; rewrite HO3 by done; apply HM2'].
    rewrite (author_tally_ext _ D); [unfold counter_at; by rewrite HO3, HO2|]. intros a Ha. unfold authors_in, counted. rewrite HDone. symmetry. by apply HD.
Qed.

End Chunks.
