(* ===== verification/StoreCountProps.v ===== *)
(** * relay/store_counters.go: the counters are exact

    What the counters say once the backfill is done, whatever was written while
    it ran, and that it gets done. *)

From S2P Require Import Prelude GoLib GoHeap Bolt Sha256 NostrUtils Pow Event Filter StoreDb StoreInv StoreScan StoreMerge StoreExact StoreQuery StoreEvents StoreLife StoreBatch StoreProps StoreDemo StoreTail StoreCounters StoreCountInv StoreBackfill.

(** ** Counting *)

Definition cnt {A} (P : A -> bool) (xs : list A) : Z := zlen (List.filter P xs).

Lemma cnt_cons {A} (P : A -> bool) x xs : cnt P (x :: xs) = (if P x then 1 else 0) + cnt P xs.
Proof. unfold cnt. cbn [List.filter]. destruct (P x); [apply zlen_cons|done]. Qed.

Lemma cnt_ext {A} (P Q : A -> bool) xs : (forall x, x ∈ xs -> P x = Q x) -> cnt P xs = cnt Q xs.
Proof. intros HE. unfold cnt. f_equal. apply filter_ext_in. intros x Hx. by apply HE, list_elem_of_In. Qed.

Lemma cnt_perm {A} (P : A -> bool) xs ys : xs ≡ₚ ys -> cnt P xs = cnt P ys.
Proof. induction 1; rewrite ?cnt_cons; lia. Qed.

Lemma cnt_le {A} (P : A -> bool) xs : 0 <= cnt P xs <= zlen xs.
Proof. induction xs as [|x xs IH]; [done|]. rewrite cnt_cons, zlen_cons. destruct (P x); lia. Qed.

Lemma cnt_all {A} (P : A -> bool) xs : (forall x, x ∈ xs -> P x = true) -> cnt P xs = zlen xs.
Proof.
  induction xs as [|x xs IH]; intros HP; [done|]. rewrite cnt_cons, zlen_cons, HP, IH; [lia| |by left]. intros; apply HP; by right.
Qed.

Lemma cnt_pos {A} (P : A -> bool) xs : 0 < cnt P xs <-> exists x, x ∈ xs /\ P x = true.
Proof.
  induction xs as [|x xs IH]; [split; [done|by intros (? & ?%elem_of_nil & _)]|]. rewrite cnt_cons. pose proof (cnt_le P xs).
  destruct (P x) eqn:EP; [split; [intros _; exists x; split; [by left|done]|lia]|]. rewrite Z.add_0_l, IH.
  split; intros (y & Hy & HP); exists y; (split; [|done]); [by right|]. apply elem_of_cons in Hy as [->|]; [congruence|done].
Qed.

(** Counting class by class. *)
Lemma cnt_classes {A B} `{!EqDecision B} (f : A -> B) (K : list B) (xs : list A) : NoDup K ->
  foldr (fun k n => n + cnt (fun x => bool_decide (f x = k)) xs) 0 K = cnt (fun x => bool_decide (f x ∈ K)) xs.
Proof.
  induction 1 as [|k K Hk HN IH]; cbn [foldr].
  { induction xs as [|x xs IH]; [done|]. rewrite cnt_cons, <- IH, bool_decide_false by apply not_elem_of_nil. done. }
  rewrite IH. clear IH. induction xs as [|x xs IH]; [done|]. rewrite !cnt_cons.
  rewrite (bool_decide_ext (f x ∈ k :: K) (f x = k \/ f x ∈ K)) by apply elem_of_cons. rewrite bool_decide_or.
  destruct (bool_decide_reflect (f x = k)) as [Hf|Hf], (bool_decide_reflect (f x ∈ K)) as [Hin|Hin]; cbn [orb]; [by rewrite Hf in Hin|lia..].
Qed.

(** How many stored events satisfy a test. *)
Definition how_many (P : Event -> bool) (S : gmap Z Event) : Z := cnt (fun x => P x.2) (map_to_list S).

Definition authors_of (S : gmap Z Event) : gset gostring := list_to_set ((fun x => key_bytes (PubKey x.2)) <$> map_to_list S).

(** A Go int. *)
Definition is_int (z : Z) : Prop := - 2 ^ 63 <= z < 2 ^ 63.

Lemma u64_inj a b : is_int a -> is_int b -> u64 a = u64 b -> a = b.
Proof.
  unfold is_int, wrap. intros Ha Hb HE. pose proof (Z.div_mod a (2 ^ 64)) as H1. pose proof (Z.div_mod b (2 ^ 64)) as H2. lia.
Qed.

Lemma s64_u64 z : is_int z -> s64 (u64 z) = z.
Proof.
  unfold is_int, s64, wrap. intros Hz. rewrite Zmod_mod. destruct (Z.lt_ge_cases z 0).
  - replace (z mod 2 ^ 64) with (z + 2 ^ 64); [destruct (Z.ltb_spec (z + 2 ^ 64) (2 ^ 63)); lia|]. rewrite <- (Z.mod_small (z + 2 ^ 64) (2 ^ 64)) by lia.
    by rewrite <- (Z.mul_1_l (2 ^ 64)) at 1; rewrite Z_mod_plus_full.
  - rewrite Z.mod_small by lia. destruct (Z.ltb_spec z (2 ^ 63)); lia.
Qed.

Section Exact.
Context {Bolt0 : Bolt} {JSON0 : EventJSON} {Derived0 : Derived} {GoLower0 : GoLower} (BL : BoltLaws) (mit : Z).
#[local] Set Default Proof Using "All".

(** ** The indexes against the stored events *)

Lemma kind_tally_all D m kind : (forall k, D k = true) -> kind_tally D m kind = cnt (fun k => bool_decide (take 8 k = kind)) (map_to_list m).*1.
Proof.
  intros HD. induction m as [|k v m Hk IH] using map_ind; [by vm_compute|].
  rewrite kind_tally_insert, (cnt_perm _ _ (k :: (map_to_list m).*1)), cnt_cons, IH by (first [done|by rewrite map_to_list_insert by done]).
  unfold one_if. rewrite HD. destruct (bool_decide_reflect (take 8 k = kind)); [rewrite decide_True by done|rewrite decide_False by tauto]; lia.
Qed.

Lemma kinds_stored tx S D kind : represents mit tx S -> (forall k, D k = true) ->
  kind_tally D (kv (bucket tx indexKind)) kind = cnt (fun x => bool_decide (itob (u64 (Kind x.2)) = kind)) (map_to_list S).
Proof.
  intros HR HD. rewrite kind_tally_all, (cnt_perm _ _ _ (kind_keys BL mit tx S HR)) by done. induction (map_to_list S) as [|x l IH]; [done|].
  cbn [fmap list_fmap]. rewrite !cnt_cons, IH. unfold kind_key. by rewrite take_app_length' by (by rewrite length_itob).
Qed.

Lemma authors_stored tx S : represents mit tx S -> authors (kv (bucket tx indexPubkey)) = authors_of S.
Proof.
  intros HR. apply set_eq. intros a. unfold authors_of. rewrite elem_of_list_to_set, list_elem_of_fmap.
  assert (HK : forall k, is_Some (kv (bucket tx indexPubkey) !! k) <-> exists x, x ∈ map_to_list S /\ k = author_key x).
  { intros k. transitivity (k ∈ (map_to_list (kv (bucket tx indexPubkey))).*1).
    - rewrite list_elem_of_fmap. split; [intros [v Hv]; exists (k, v); split; [done|by apply elem_of_map_to_list]|]. intros ([k' v] & -> & Hk%elem_of_map_to_list). by eexists.
    - rewrite (author_keys BL mit tx S HR), list_elem_of_fmap. naive_solver. }
  assert (Htake : forall x, x ∈ map_to_list S -> take 32 (author_key x) = key_bytes (PubKey x.2)).
  { intros [id ev] Hx%elem_of_map_to_list. apply (rep_ids _ _ _ HR) in Hx as [_ (HP & _)]. destruct (key_bytes_ok _ HP) as [_ HL]. unfold author_key. by rewrite take_app_length'. }
  split.
  - intros (k & Hk & ->)%(authors_inv BL). apply HK in Hk as (x & Hx & ->). exists x. split; [by apply Htake|done].
  - intros (x & -> & Hx). rewrite <- Htake by done. apply (author_of BL), HK. by exists x.
Qed.

Lemma kind_shape tx S : represents mit tx S -> forall k, is_Some (kv (bucket tx indexKind) !! k) -> length k = 24%nat.
Proof.
  intros HR k [v Hk]. apply (rep_index _ _ _ HR) in Hk as (id & ev & Hid & Hin & _); [|done]. apply (rep_ids _ _ _ HR) in Hid as [_ (HP & HI & _)].
  apply keys_of_spec in Hin; [|done..]. subst k. by rewrite !length_app, !length_itob.
Qed.

Lemma author_shape tx S : represents mit tx S -> author_shaped (kv (bucket tx indexPubkey)).
Proof.
  intros HR k [v Hk]. apply (rep_index _ _ _ HR) in Hk as (id & ev & Hid & Hin & _); [|done]. pose proof (rep_seq _ _ _ HR). apply (rep_ids _ _ _ HR) in Hid as [Hr (HP & HI & Hc & _)].
  apply keys_of_spec in Hin; [|done..]. subst k. destruct (key_bytes_ok _ HP) as [_ HL]. rewrite drop_app_length' by done. split; [by rewrite !length_app, !length_itob, HL|].
  change maxSuffixBytes with (itob (2 ^ 64 - 1) ++ itob (2 ^ 64 - 1)). rewrite Cmp.ltb_lt, Cmp.compare_app by (by rewrite !length_itob).
  unfold itob. rewrite !BE.compare_put64 by lia. destruct (Z.compare_spec (CreatedAt ev) (2 ^ 64 - 1)); [by apply Z.compare_lt_iff; lia|done|lia].
Qed.

Lemma represents_unique tx S S' : represents mit tx S -> represents mit tx S' -> S = S'.
Proof.
  intros HR HR'. assert (HS : forall S1 S2 id ev, represents mit tx S1 -> represents mit tx S2 -> S1 !! id = Some ev -> S2 !! id = Some ev).
  { intros S1 S2 id ev H1 H2 Hid. assert (Hk : kv (bucket tx indexEvents) !! itob id = Some (MarshalEvent ev)) by (apply (rep_events _ _ _ H1); by exists id, ev).
    apply (rep_events _ _ _ H2) in Hk as (id' & ev' & Hid' & HE & HM). pose proof (rep_seq _ _ _ H1). pose proof (rep_seq _ _ _ H2).
    destruct (rep_ids _ _ _ H1 _ _ Hid) as [Hr (_ & _ & _ & HJ)]. destruct (rep_ids _ _ _ H2 _ _ Hid') as [Hr' (_ & _ & _ & HJ')].
    apply itob_inj in HE as ->; [|lia..]. unfold json_stable in HJ, HJ'. rewrite HM in HJ. congruence. }
  apply map_eq. intros id. apply option_eq. intros ev. split; by apply HS.
Qed.

(** ** Reading *)

Definition counter_pair (x : gostring * gostring) : bool := has_prefix x.1 (bs "k") && (length x.1 =? 9)%nat && (length x.2 =? 8)%nat.

Definition take_in (out : CountsT) (x : gostring * gostring) : CountsT :=
  mkCounts (u64 (Events out + BE.get64 x.2)) (CAuthors out) (<[s64 (BE.get64 (drop 1 x.1)) := BE.get64 x.2]> (CKinds out)) (Ready out).

Lemma read_kinds_spec l out : StronglySorted before l -> (forall x, x ∈ l -> Cmp.ltb x.1 (bs "k") = false) ->
  read_kinds l out = Ok (foldl take_in out (List.filter counter_pair l)).
Proof.
  revert out. induction l as [|[k v] l IH]; intros out HS HG; [done|]. inversion HS as [|? ? HS' HF]; subst. cbn [read_kinds List.filter].
  rewrite Forall_forall in HF. assert (IH' : forall out, read_kinds l out = Ok (foldl take_in out (List.filter counter_pair l))) by (intros; apply IH; [done|intros; apply HG; by right]).
  unfold counter_pair at 1. cbn [fst snd]. destruct (has_prefix k (bs "k")) eqn:EP; cbn [negb andb].
  - destruct (Nat.eqb_spec (length k) 9) as [E9|E9], (Nat.eqb_spec (length v) 8) as [E8|E8]; cbn [negb orb andb]; try apply IH'.
    rewrite (btoi_8 v), (btoi_8 (drop 1 k)) by (first [done|rewrite length_drop; lia]). cbn [mbind outcome_bind]. rewrite IH'. done.
  - replace (List.filter counter_pair l) with (@nil (gostring * gostring)); [done|]. symmetry. apply elem_of_nil_inv. intros [k' v'] Hin.
    apply list_elem_of_In, filter_In in Hin as [Hin%list_elem_of_In Hc]. unfold counter_pair in Hc. cbn [fst snd] in Hc. bool_prop.
    match goal with H : has_prefix k' _ = true |- _ => apply has_prefix_inv in H as (s & ->) end.
    assert (Hp : has_prefix k (bs "k") = true); [|congruence]. eapply prefix_between; [apply (HG (k, v)); by left|].
    specialize (HF _ Hin). unfold before in HF. apply Cmp.ltb_asym. exact HF.
Qed.

Definition kind_pair (N : Z -> Z) (z : Z) : gostring * gostring := (kindCounterKey (itob (u64 z)), itob (N z)).

Lemma map_witness {A B} (f : A -> B) (P : A -> Prop) (l : list B) : (forall y, y ∈ l -> exists x, P x /\ y = f x) ->
  exists xs, l = map f xs /\ Forall P xs.
Proof.
  induction l as [|y l IH]; intros HL; [by exists []|]. destruct (HL y ltac:(by left)) as (x & Hx & ->).
  destruct IH as (xs & -> & HF); [intros; apply HL; by right|]. exists (x :: xs). split; [done|by constructor].
Qed.

Lemma fold_kinds N zs : NoDup zs -> Forall is_int zs -> (forall z, 0 <= N z < 2 ^ 63) -> forall out,
  0 <= Events out -> Events out + foldr (fun z n => n + N z) 0 zs < 2 ^ 64 ->
  exists M, foldl take_in out (map (kind_pair N) zs) = mkCounts (Events out + foldr (fun z n => n + N z) 0 zs) (CAuthors out) M (Ready out) /\
    forall z, M !! z = if decide (z ∈ zs) then Some (N z) else CKinds out !! z.
Proof.
  intros HN HI Hb. induction zs as [|z zs IH]; intros out H0 Hs; cbn [map foldl foldr] in *.
  { exists (CKinds out). rewrite Z.add_0_r. split; [by destruct out|]. intros z. by rewrite decide_False by apply not_elem_of_nil. }
  apply NoDup_cons in HN as [Hz HN]. inversion HI as [|? ? Hiz HI']; subst. specialize (IH HN HI').
  assert (Hsum : 0 <= foldr (fun z n => n + N z) 0 zs) by (clear -Hb; induction zs as [|y zs IH]; [done|]; cbn [foldr]; specialize (Hb y); lia).
  assert (HT : take_in out (kind_pair N z) = mkCounts (Events out + N z) (CAuthors out) (<[z := N z]> (CKinds out)) (Ready out)).
  { unfold take_in, kind_pair, kindCounterKey. cbn [fst snd]. change (drop 1 (bs "k" ++ itob (u64 z))) with (itob (u64 z)).
    assert (HG : forall v, 0 <= v < 2 ^ 64 -> BE.get64 (itob v) = v) by (intros v Hv; unfold itob; by rewrite <- (app_nil_r (BE.put64 v)), BE.get64_put64).
    rewrite !HG, s64_u64 by (first [done|apply Z.mod_pos_bound; lia|specialize (Hb z); lia]). unfold wrap. rewrite Z.mod_small by (specialize (Hb z); lia). done. }
  rewrite HT. destruct (IH (mkCounts (Events out + N z) (CAuthors out) (<[z := N z]> (CKinds out)) (Ready out))) as (M & HE & HM); [cbn [Events]; specialize (Hb z); lia|cbn [Events]; lia|].
  cbn [Events CAuthors CKinds Ready] in *. exists M. split; [rewrite HE; f_equal; lia|]. intros y. rewrite HM. destruct (decide (y ∈ zs)) as [Hy|Hy].
  - by rewrite decide_True by (by right).
  - destruct (decide (z = y)) as [<-|Hne]; [rewrite lookup_insert_eq, decide_True by (by left); done|].
    rewrite lookup_insert_ne, decide_False by (first [done|set_solver]). done.
Qed.

Definition of_kind (S : gmap Z Event) (z : Z) : Z := how_many (fun ev => bool_decide (Kind ev = z)) S.

(** The counters' pairs of a store that has been counted. *)
Lemma counter_pairs tx S c : represents mit tx S -> seq_of tx < 2 ^ 63 -> counts_ok tx c -> (forall k, kinds_in c k = true) -> (forall id ev, S !! id = Some ev -> is_int (Kind ev)) ->
  exists zs, List.filter counter_pair (ascend c (bs "k")) = map (kind_pair (of_kind S)) zs /\ NoDup zs /\ Forall is_int zs /\ forall id ev, S !! id = Some ev -> Kind ev ∈ zs.
Proof.
  intros HR Hs (HK & _) HD Hint. destruct (ascend_spec BL c (bs "k")) as [HA HS]. set (q := List.filter counter_pair _).
  assert (HN : forall z, is_int z -> kind_tally (kinds_in c) (kv (bucket tx indexKind)) (itob (u64 z)) = of_kind S z).
  { intros z Hz. rewrite (kinds_stored tx S) by done. apply cnt_ext. intros [id ev] Hx%elem_of_map_to_list. cbn [snd]. apply bool_decide_ext. split; [|by intros ->].
    intros HE%itob_inj; [|apply Z.mod_pos_bound; lia..]. apply u64_inj; [by eapply Hint|done|done]. }
  assert (Hq : forall x, x ∈ q -> exists z, is_int z /\ x = kind_pair (of_kind S) z).
  { intros [k v] Hx. apply list_elem_of_In, filter_In in Hx as [Hx%list_elem_of_In Hc]. apply HA in Hx as [Hk _]. unfold counter_pair in Hc. cbn [fst snd] in Hc.
    rewrite !andb_true_iff, !Nat.eqb_eq in Hc. destruct Hc as [[(kind & ->)%has_prefix_inv H9] _]. rewrite length_app in H9. cbn in H9.
    assert (H8 : length kind = 8%nat) by lia. specialize (HK kind H8). unfold counter_at, kindCounterKey in HK. rewrite Hk in HK.
    set (t := kind_tally _ _ kind) in HK. destruct (Z.leb_spec t 0) as [?|Ht]; [done|]. injection HK as ->.
    assert (Hex : exists x, x ∈ map_to_list S /\ bool_decide (itob (u64 (Kind x.2)) = kind) = true)
      by (unfold t in Ht; rewrite (kinds_stored tx S) in Ht by done; by apply cnt_pos in Ht).
    destruct Hex as ([id ev] & Hx%elem_of_map_to_list & <-%bool_decide_eq_true). exists (Kind ev). assert (is_int (Kind ev)) by (by eapply Hint). split; [done|].
    unfold kind_pair, kindCounterKey. cbn [snd]. by rewrite <- HN. }
  apply map_witness in Hq as (zs & Hq & HF). exists zs. split_and!; [done| |done|].
  - apply (NoDup_fmap_1 (kind_pair (of_kind S))). change (NoDup (map (kind_pair (of_kind S)) zs)). rewrite <- Hq. unfold q.
    apply (sorted_keys BL), NoDup_fmap_1, NoDup_ListNoDup in HS. apply NoDup_ListNoDup, List.NoDup_filter. done.
  - intros id ev Hid. pose proof (Hint id ev Hid) as Hi. set (z := Kind ev) in *.
    assert (Hpos : 0 < of_kind S z) by (apply cnt_pos; exists (id, ev); split; [by apply elem_of_map_to_list|by apply bool_decide_eq_true]).
    assert (Hin : kind_pair (of_kind S) z ∈ q).
    { pose proof (HK (itob (u64 z)) (length_itob _)) as HC. unfold counter_at in HC. rewrite HN in HC by done. rewrite (proj2 (Z.leb_gt _ _)) in HC by done.
      apply list_elem_of_In, filter_In. split; [|unfold counter_pair, kind_pair, kindCounterKey; cbn [fst snd]; by rewrite has_prefix_app].
      apply list_elem_of_In, HA. split; [done|]. apply extension_ge. }
    rewrite Hq in Hin. apply list_elem_of_fmap in Hin as (z' & HE & Hz'). replace z with z'; [done|]. apply (f_equal fst) in HE. unfold kind_pair, kindCounterKey in HE. cbn [fst] in HE.
    apply app_inv_head in HE. apply itob_inj in HE; [|apply Z.mod_pos_bound; lia..]. apply u64_inj; [|done|done]. rewrite Forall_forall in HF. by apply HF.
Qed.

(** The counters read back, when everything has been counted. *)
Lemma Counts_done tx S c : represents mit tx S -> seq_of tx < 2 ^ 63 -> (forall id ev, S !! id = Some ev -> is_int (Kind ev)) ->
  counters tx = Some c -> counts_ok tx c -> present c ctrKindsDone && present c ctrAuthorsDone = true ->
  exists M, Counts tx = Ok (mkCounts (Z.of_nat (size S)) (Z.of_nat (size (authors_of S))) M true) /\ forall z, is_int z -> default 0 (M !! z) = of_kind S z.
Proof.
  intros HR Hs Hint Hc HO HD. pose proof HO as (HK & HA & _). unfold Counts. rewrite Hc, HD. apply andb_true_iff in HD as [HD1 HD2]. unfold present in HD1, HD2.
  assert (HKI : forall k, kinds_in c k = true) by (intros k; unfold kinds_in, counted; by destruct (Get c ctrKindsDone)).
  assert (HAI : forall a, authors_in c a = true) by (intros a; unfold authors_in, counted; by destruct (Get c ctrAuthorsDone)).
  assert (HAS : author_tally (authors_in c) (kv (bucket tx indexPubkey)) = Z.of_nat (size (authors_of S))).
  { unfold author_tally. rewrite <- (authors_stored tx S) by done. do 2 f_equal. apply set_eq. intros a. rewrite elem_of_filter. naive_solver. }
  pose proof (author_tally_le (authors_in c) (kv (bucket tx indexPubkey))) as Hale. destruct (index_small BL mit tx S HR Hs) as [_ Sp]. unfold small in Sp.
  pose proof (stored_size BL mit tx S HR) as Hsz.
  replace (match Get c ctrAuthors with Some v => if (length v =? 8)%nat then btoi v else Ok 0 | None => Ok 0 end)
    with (@Ok StoreErr Z (Z.of_nat (size (authors_of S)))).
  2: { rewrite (Get_kv BL), HA, HAS. destruct (Z.leb_spec (Z.of_nat (size (authors_of S))) 0); [f_equal; lia|]. rewrite length_itob. cbn [Nat.eqb]. by rewrite (btoi_itob BL mit tx S HR) by lia. }
  cbn [mbind outcome_bind]. destruct (ascend_spec BL c (bs "k")) as [HAs HSs].
  rewrite read_kinds_spec by (first [done|intros [k v] Hx; by apply HAs in Hx as [_ ?]]).
  destruct (counter_pairs tx S c HR Hs HO HKI Hint) as (zs & -> & HN & HF & Hall).
  assert (Hsum : foldr (fun z n => n + of_kind S z) 0 zs = Z.of_nat (size S)).
  { unfold of_kind, how_many. rewrite (cnt_classes (fun x : Z * Event => Kind x.2)) by done. rewrite <- length_map_to_list. apply cnt_all.
    intros [id ev] Hx%elem_of_map_to_list. apply bool_decide_eq_true. by eapply Hall. }
  destruct (fold_kinds (of_kind S) zs HN HF) with (out := mkCounts 0 (Z.of_nat (size (authors_of S))) ∅ true) as (M & -> & HM).
  { intros z. unfold of_kind, how_many. pose proof (cnt_le (fun x : Z * Event => bool_decide (Kind x.2 = z)) (map_to_list S)) as Hb. unfold zlen in Hb. rewrite length_map_to_list in Hb. lia. }
  { done. }
  { cbn [Events]. rewrite Hsum. lia. }
  exists M. cbn [Events CAuthors Ready]. rewrite Hsum. split; [done|]. intros z Hz. rewrite HM. destruct (decide (z ∈ zs)) as [Hin|Hin]; [done|]. cbn [CKinds]. rewrite lookup_empty. cbn.
  destruct (decide (0 < of_kind S z)) as [Hp|Hp].
  - exfalso. apply cnt_pos in Hp as ([id ev] & Hx%elem_of_map_to_list & HE%bool_decide_eq_true). apply Hin. rewrite <- HE. by eapply Hall.
  - unfold of_kind, how_many in *. pose proof (cnt_le (fun x : Z * Event => bool_decide (Kind x.2 = z)) (map_to_list S)). lia.
Qed.

(** ** The backfill, with batches in between *)

Lemma counts_ok_buckets tx tx' c : bucket tx' = bucket tx -> counts_ok tx c -> counts_ok tx' c.
Proof. unfold counts_ok. by intros ->. Qed.

Lemma chunk_counting left dn other n tx c r : counting mit n tx -> counters tx = Some c -> chunk_ok left dn other tx c r -> counting mit n r.1.
Proof.
  intros (S & HR & Hn & _) Hc (c' & HB & HC & HO & _). exists S. split; [by apply (represents_bucket BL mit tx)|]. split; [unfold seq_of in *; by rewrite HB|].
  intros c'' E. replace c'' with c' by congruence. by apply (counts_ok_buckets tx).
Qed.

Lemma kinds_step chunk n tx c : (0 < chunk)%nat -> counting mit n tx -> counters tx = Some c ->
  exists r, countKindsChunk chunk tx = Ok r /\ chunk_ok (kinds_left tx) ctrKindsDone ctrAuthorsDone tx c r.
Proof.
  intros Hk (S & HR & Hn & HC) Hc. destruct (index_small BL mit tx S HR) as [Sk _]; [lia|].
  apply (kinds_chunk BL); [done|done|by apply HC|done|by apply (kind_shape tx S)].
Qed.

Lemma authors_step chunk n tx c : (0 < chunk)%nat -> counting mit n tx -> counters tx = Some c ->
  exists r, countAuthorsChunk chunk tx = Ok r /\ chunk_ok (authors_left tx) ctrAuthorsDone ctrKindsDone tx c r.
Proof.
  intros Hk (S & HR & Hn & HC) Hc. destruct (index_small BL mit tx S HR) as [_ Sp]; [lia|].
  apply (authors_chunk BL); [done|done|by apply HC|done|by apply (author_shape tx S)].
Qed.

(** A store from before counters. *)
Lemma uncounted_ok tx : counts_ok tx EmptyBucket.
Proof.
  destruct (kv_empty BL) as [HE _]. assert (HG : forall k, Get EmptyBucket k = None) by (intros; by rewrite (Get_kv BL), HE, lookup_empty).
  assert (HK : forall k, kinds_in EmptyBucket k = false) by (intros; unfold kinds_in, counted; by rewrite !HG).
  assert (HA : forall a, authors_in EmptyBucket a = false) by (intros; unfold authors_in, counted; by rewrite !HG).
  split_and!.
  - intros kind _. unfold counter_at. rewrite HE, lookup_empty. replace (kind_tally _ _ _) with 0; [done|]. symmetry. unfold kind_tally.
    rewrite (proj2 (map_empty_filter _ _)); [done|]. intros k v _. cbn. rewrite HK. naive_solver.
  - unfold counter_at. rewrite HE, lookup_empty. replace (author_tally _ _) with 0; [done|]. symmetry. unfold author_tally.
    replace (base.filter _ _) with (∅ : gset gostring); [done|]. symmetry. apply set_eq. intros a. rewrite elem_of_filter, HA. set_solver.
  - intros a. by rewrite HE, lookup_empty.
Qed.

Lemma start_step n tx : counting mit n tx -> exists tx' fin c', backfill_start tx = Ok (tx', fin) /\ bucket tx' = bucket tx /\ counting mit n tx' /\
  counters tx' = Some c' /\ (fin = true -> present c' ctrKindsDone && present c' ctrAuthorsDone = true).
Proof.
  intros (S & HR & Hn & HC). unfold backfill_start. set (c := match counters tx with Some c => c | None => EmptyBucket end).
  assert (HO : counts_ok tx c) by (unfold c; destruct (counters tx); [by apply HC|apply uncounted_ok]).
  assert (Hset : forall c', counts_ok tx c' -> counting mit n (set_counters tx c')).
  { intros c' H'. exists S. split; [by apply (represents_bucket BL mit tx)|]. split; [done|]. by intros ? [= <-]. }
  destruct (_ && _) eqn:EP; [exists (set_counters tx c), true, c; split_and!; eauto|].
  destruct (First (bucket tx indexKind)) eqn:EF; [exists (set_counters tx c), false, c; split_and!; eauto; done|].
  destruct (cput_Ok BL c ctrKindsDone [x01]) as (c1 & -> & HK1); [by vm_compute|]. cbn [mbind outcome_bind].
  destruct (cput_Ok BL c1 ctrAuthorsDone [x01]) as (c2 & -> & HK2); [by vm_compute|]. cbn [mbind outcome_bind].
  exists (set_counters tx c2), true, c2. split_and!; [done|done| |done|]; last first.
  { intros _. unfold present. rewrite !(Get_kv BL), HK2, lookup_insert_ne, lookup_insert_eq, HK1, lookup_insert_eq by done. done. }
  apply Hset. assert (HS : S = ∅).
  { pose proof (Seek_kv BL (bucket tx indexKind) []) as HX. unfold First in EF. rewrite EF in HX. apply map_empty. intros id. apply eq_None_not_Some. intros [ev Hid].
    assert (Hk : kind_key (id, ev) ∈ (map_to_list (kv (bucket tx indexKind))).*1) by (rewrite (kind_keys BL mit tx S HR); apply list_elem_of_fmap; exists (id, ev); split; [done|by apply elem_of_map_to_list]).
    apply list_elem_of_fmap in Hk as ([k v] & _ & Hk%elem_of_map_to_list). specialize (HX k ltac:(by eexists)). by destruct k. }
  subst S. assert (HMk : kv (bucket tx indexKind) = ∅).
  { apply map_to_list_empty_iff, (fmap_nil_inv fst), Permutation_nil_r. by rewrite (kind_keys BL mit tx ∅ HR), map_to_list_empty. }
  assert (HMp : kv (bucket tx indexPubkey) = ∅).
  { apply map_to_list_empty_iff, (fmap_nil_inv fst), Permutation_nil_r. by rewrite (author_keys BL mit tx ∅ HR), map_to_list_empty. }
  destruct HO as (H1 & H2 & H3). unfold counts_ok, counts_at. rewrite HMk, HMp in *. split_and!.
  - intros kind Hk. specialize (H1 kind Hk). unfold counter_at in *. rewrite HK2, HK1, !lookup_insert_ne, H1; [done|..]; intros HE%(f_equal length); unfold kindCounterKey in HE; rewrite length_app, Hk in HE; discriminate HE.
  - unfold counter_at in *. by rewrite HK2, HK1, !lookup_insert_ne.
  - intros a. rewrite HK2, HK1, !lookup_insert_ne by done. apply H3.
Qed.

End Exact.

(** ** Theorems *)

Section Theorems.
Context {Bolt0 : Bolt} {JSON0 : EventJSON} {Derived0 : Derived} {GoLower0 : GoLower}.

#[local] Set Default Proof Using "All".

(** What can commit after the first transaction of the backfill, in any order:
    batches, [n] events in all, and chunks of either pass. *)
Inductive runs (mit MaxLimit : Z) (chunk : nat) : Z -> Tx -> Tx -> Prop :=
  | runs_refl tx : runs mit MaxLimit chunk 0 tx tx
  | runs_batch n tx tasks tx1 errs tx' :
      Forall task_ok tasks -> ExecuteBatch mit MaxLimit tx tasks = Ok (tx1, errs) ->
      runs mit MaxLimit chunk n tx1 tx' -> runs mit MaxLimit chunk (zlen (all_events tasks) + n) tx tx'
  | runs_kinds n tx tx1 fin tx' :
      countKindsChunk chunk tx = Ok (tx1, fin) -> runs mit MaxLimit chunk n tx1 tx' -> runs mit MaxLimit chunk n tx tx'
  | runs_authors n tx tx1 fin tx' :
      countAuthorsChunk chunk tx = Ok (tx1, fin) -> runs mit MaxLimit chunk n tx1 tx' -> runs mit MaxLimit chunk n tx tx'.

(** A store whose events are all counted, and whose counters are right. *)
Definition counted_store (mit : Z) (tx : Tx) (S : gmap Z Event) : Prop :=
  represents mit tx S /\ seq_of tx < 2 ^ 63 /\ (forall id ev, S !! id = Some ev -> is_int (Kind ev)) /\
  exists c, counters tx = Some c /\ counts_ok tx c /\ present c ctrKindsDone && present c ctrAuthorsDone = true.

Lemma runs_nonneg mit MaxLimit chunk n tx tx' : runs mit MaxLimit chunk n tx tx' -> 0 <= n.
Proof. induction 1; auto with lia. pose proof (zlen_nonneg (all_events tasks)). lia. Qed.

Lemma runs_counting (BL : BoltLaws) mit MaxLimit chunk n tx tx' : (0 < chunk)%nat -> runs mit MaxLimit chunk n tx tx' -> counting mit n tx -> counting mit 0 tx'.
Proof.
  intros Hk. induction 1 as [tx|n tx tasks tx1 errs tx' HF HE HR IH|n tx tx1 fin tx' HE HR IH|n tx tx1 fin tx' HE HR IH]; intros HC; [done|..]; apply IH.
  - pose proof (runs_nonneg _ _ _ _ _ _ HR). eapply (batch_counting BL mit MaxLimit); [done| |done|exact HE]. by rewrite Z.add_comm.
  - destruct (counters tx) as [c|] eqn:Ec; [|unfold countKindsChunk in HE; by rewrite Ec in HE].
    destruct (kinds_step BL mit chunk n tx c Hk HC Ec) as (r & HE' & Hr). rewrite HE in HE'. injection HE' as <-. by apply (chunk_counting BL mit _ _ _ n tx c (tx1, fin)) in Hr.
  - destruct (counters tx) as [c|] eqn:Ec; [|unfold countAuthorsChunk in HE; by rewrite Ec in HE].
    destruct (authors_step BL mit chunk n tx c Hk HC Ec) as (r & HE' & Hr). rewrite HE in HE'. injection HE' as <-. by apply (chunk_counting BL mit _ _ _ n tx c (tx1, fin)) in Hr.
Qed.

Lemma Ready_counted mit tx S r : counting mit 0 tx -> represents mit tx S -> BoltLaws -> (forall id ev, S !! id = Some ev -> is_int (Kind ev)) ->
  Counts tx = Ok r -> Ready r = true -> counted_store mit tx S.
Proof.
  intros (S' & HR' & Hn & HC) HR BL Hint HE Hr. split_and!; [done|lia|done|]. unfold Counts in HE. destruct (counters tx) as [c|]; [|by simplify_eq].
  exists c. split_and!; [done|by apply HC|]. inv_ok.
  assert (HX : forall l out r, read_kinds l out = Ok r -> Ready r = Ready out).
  { clear. induction l as [|[k v] l IH]; intros out r; cbn [read_kinds]; [by intros [= <-]|]. destruct (negb _); [by intros [= <-]|]. destruct (_ || _); [apply IH|].
    intros HE. inv_ok. by apply IH in HE. }
  apply HX in HE. cbn [Ready] in HE. congruence.
Qed.

(** C22: once the backfill of an old store is done, the counters are the exact numbers
    of stored events, of authors and of events of every kind, whatever batches
    committed between its chunks and after them. *)
Theorem counters_exact (BL : BoltLaws) (mit MaxLimit : Z) (chunk : nat) (tx tx0 tx' : Tx) (S S' : gmap Z Event) (fin : bool) (n : Z) (r : CountsT)
    (Hchunk : (0 < chunk)%nat) (HR : represents mit tx S) (Hold : counters tx = None) (Hstart : backfill_start tx = Ok (tx0, fin))
    (Hruns : runs mit MaxLimit chunk n tx0 tx') (Hroom : seq_of tx + n < 2 ^ 63)
    (HR' : represents mit tx' S') (Hint : forall id ev, S' !! id = Some ev -> is_int (Kind ev))
    (Hcounts : Counts tx' = Ok r) (Hready : Ready r = true) :
  Events r = Z.of_nat (size S') /\ CAuthors r = Z.of_nat (size (authors_of S')) /\
  forall kind, is_int kind -> count_of r kind = how_many (fun ev => bool_decide (Kind ev = kind)) S'.
Proof.
  pose proof (runs_nonneg _ _ _ _ _ _ Hruns) as Hn. assert (HC : counting mit n tx) by (exists S; split_and!; [done|lia|lia|]; by rewrite Hold).
  destruct (start_step BL mit n tx HC) as (tx1 & fin1 & c1 & HE & _ & HC1 & _). rewrite Hstart in HE. injection HE as <- <-.
  apply (runs_counting BL _ _ _ _ _ _ Hchunk Hruns) in HC1.
  destruct (Ready_counted mit tx' S' r HC1 HR' BL Hint Hcounts Hready) as (_ & Hs & _ & c & Hc & HO & HP).
  destruct (Counts_done BL mit tx' S' c HR' Hs Hint Hc HO HP) as (M & HE & HM). rewrite Hcounts in HE. injection HE as ->. done.
Qed.

Lemma run_step_done (BL : BoltLaws) mit step (left : Tx -> Bucket -> nat) dn other n :
  (forall tx c, counting mit n tx -> counters tx = Some c -> exists r, step tx = Ok r /\ chunk_ok (left tx) dn other tx c r) ->
  (forall tx tx', bucket tx' = bucket tx -> left tx' = left tx) ->
  forall fuel tx c, counting mit n tx -> counters tx = Some c -> (left tx c < fuel)%nat ->
  exists tx' c', run_step fuel step tx = Some (Ok tx') /\ bucket tx' = bucket tx /\ counting mit n tx' /\ counters tx' = Some c' /\
    present c' dn = true /\ (present c other = true -> present c' other = true).
Proof.
  intros Hstep Hleft. induction fuel as [|fuel IH]; intros tx c HC Hc Hf; [lia|]. cbn [run_step].
  destruct (Hstep tx c HC Hc) as ([tx1 fin] & -> & Hr). pose proof (chunk_counting BL mit _ _ _ n tx c _ HC Hc Hr) as HC1.
  destruct Hr as (c1 & HB & Hc1 & _ & HP & HO & HL). cbn [fst snd] in *. destruct fin; [exists tx1, c1; split_and!; done|].
  destruct (IH tx1 c1 HC1 Hc1) as (tx' & c' & HE & HB' & HC' & Hc' & HP' & HO'); [rewrite (Hleft tx tx1) by done; specialize (HL eq_refl); lia|].
  exists tx', c'. split_and!; [done|congruence|done|done|done|auto].
Qed.

Lemma kinds_left_le (BL : BoltLaws) mit tx S c : represents mit tx S -> (kinds_left tx c <= size S)%nat.
Proof.
  intros HR. assert (HN : forall fuel b o, (length (nexts fuel b o) <= fuel)%nat).
  { clear. induction fuel as [|fuel IH]; intros b o; [by destruct o|]. destruct o as [[k v]|]; cbn; [specialize (IH b (Next b k))|]; lia. }
  pose proof (Permutation_length (kind_keys BL mit tx S HR)) as HP. rewrite !length_fmap, !length_map_to_list in HP. unfold kinds_left, kinds_from. rewrite <- HP.
  destruct (Get c ctrKindsMark) as [m|]; [|apply HN]. pose proof (HN (size (kv (bucket tx indexKind))) (bucket tx indexKind) (Seek (bucket tx indexKind) m)) as HL.
  fold (ascend (bucket tx indexKind) m) in HL. destruct (ascend _ m) as [|[k v] l]; [lia|]. cbn [length] in HL. destruct (decide (k = m)); cbn [length]; lia.
Qed.

Lemma authors_left_le (BL : BoltLaws) mit tx S c : represents mit tx S -> (authors_left tx c <= size S)%nat.
Proof.
  intros HR. pose proof (Permutation_length (author_keys BL mit tx S HR)) as HP. rewrite !length_fmap, !length_map_to_list in HP.
  pose proof (author_tally_le (fun a => negb (authors_in c a)) (kv (bucket tx indexPubkey))) as [_ HA]. unfold author_tally in HA. unfold authors_left.
  replace (base.filter (fun a => authors_in c a = false) (authors (kv (bucket tx indexPubkey))))
    with (base.filter (fun a => negb (authors_in c a) = true) (authors (kv (bucket tx indexPubkey)))); [lia|].
  apply set_eq. intros a. by rewrite !elem_of_filter, negb_true_iff.
Qed.

Lemma backfill_done (BL : BoltLaws) (mit : Z) (chunk fuel : nat) (tx : Tx) (S : gmap Z Event)
    (Hchunk : (0 < chunk)%nat) (HR : represents mit tx S) (Hold : counters tx = None) (Hroom : seq_of tx < 2 ^ 63)
    (Hint : forall id ev, S !! id = Some ev -> is_int (Kind ev)) (Hfuel : (size S < fuel)%nat) :
  exists tx', backfillCounters chunk fuel tx = Some (Ok tx') /\ bucket tx' = bucket tx /\ counted_store mit tx' S.
Proof.
  assert (HC : counting mit 0 tx) by (exists S; split_and!; [done|lia|lia|]; by rewrite Hold).
  destruct (start_step BL mit 0 tx HC) as (tx0 & fin & c0 & HE & HB0 & HC0 & Hc0 & Hfin). unfold backfillCounters. rewrite HE.
  assert (Hdone : forall tx' c', bucket tx' = bucket tx -> counting mit 0 tx' -> counters tx' = Some c' -> present c' ctrKindsDone && present c' ctrAuthorsDone = true -> counted_store mit tx' S).
  { intros tx' c' HB' (S'' & HR'' & Hn & HC'') Hc' HP. split_and!; [by apply (represents_bucket BL mit tx)|lia|done|]. exists c'. split_and!; [done|by apply HC''|done]. }
  destruct fin; [exists tx0; split_and!; [done|done|by apply (Hdone tx0 c0); [| | |apply Hfin]]|].
  assert (HRt : forall t, bucket t = bucket tx -> represents mit t S) by (intros; by apply (represents_bucket BL mit tx)).
  destruct (run_step_done BL mit (countKindsChunk chunk) kinds_left ctrKindsDone ctrAuthorsDone 0) with (fuel := fuel) (tx := tx0) (c := c0)
    as (tx1 & c1 & HE1 & HB1 & HC1 & Hc1 & HP1 & _); [intros; by apply (kinds_step BL mit chunk 0)|intros ? ? Hb; unfold kinds_left; by rewrite Hb|done|done| |].
  { eapply Nat.le_lt_trans; [apply (kinds_left_le BL mit tx0 S), HRt, HB0|done]. }
  rewrite HE1.
  destruct (run_step_done BL mit (countAuthorsChunk chunk) authors_left ctrAuthorsDone ctrKindsDone 0) with (fuel := fuel) (tx := tx1) (c := c1)
    as (tx2 & c2 & HE2 & HB2 & HC2 & Hc2 & HP2 & HO2); [intros; by apply (authors_step BL mit chunk 0)|intros ? ? Hb; unfold authors_left; by rewrite Hb|done|done| |].
  { eapply Nat.le_lt_trans; [apply (authors_left_le BL mit tx1 S), HRt; congruence|done]. }
  exists tx2. split_and!; [done|congruence|]. apply (Hdone tx2 c2); [congruence|done|done|]. rewrite HP2, (HO2 HP1). done.
Qed.

(** C39: left alone, the backfill ends: with chunks of any size, after at most one
    transaction more per pass than there are events, everything is counted. *)
Theorem backfill_completes (BL : BoltLaws) (mit : Z) (chunk fuel : nat) (tx : Tx) (S : gmap Z Event)
    (Hchunk : (0 < chunk)%nat) (HR : represents mit tx S) (Hold : counters tx = None) (Hroom : seq_of tx < 2 ^ 63)
    (Hint : forall id ev, S !! id = Some ev -> is_int (Kind ev)) (Hfuel : (size S < fuel)%nat) :
  exists tx', backfillCounters chunk fuel tx = Some (Ok tx') /\ bucket tx' = bucket tx /\ counted_store mit tx' S.
Proof. by apply (backfill_done BL mit). Qed.

(** A filter the counters can answer: it names kinds or nothing, and no list in
    it is there but empty. *)
Definition kinds_only (f : SubscriptionFilter) : Prop :=
  needs_scan f = false /\ IDs f <> Some [] /\ Authors f <> Some [] /\ Kinds f <> Some [] /\
  0 <= Since f /\ 0 <= Until f /\ forall k, k ∈ elems (Kinds f) -> is_int k.

Lemma nil_or_absent {A} (o : option (list A)) : elems o = [] -> o <> Some [] -> o = None.
Proof. destruct o as [[|]|]; [done|done|done]. Qed.

Lemma needs_scan_false f : needs_scan f = false ->
  elems (IDs f) = [] /\ elems (Authors f) = [] /\ FTags f = ∅ /\ Since f <= 0 /\ Until f <= 0 /\ Search f = [] /\ BeforeID f = [].
Proof.
  unfold needs_scan. rewrite !orb_false_iff, !negb_false_iff, !bool_decide_eq_true, !Z.ltb_ge, map_size_empty_iff. tauto.
Qed.

Lemma kinds_only_Match f ev : kinds_only f -> Match f ev = match Kinds f with Some ks => in_list (Kind ev) ks | None => true end.
Proof.
  intros (HN & HI & HA & _ & HS & HU & _). apply needs_scan_false in HN as (H1 & H2 & HT & HS' & HU' & HSe & _). unfold Match.
  rewrite (nil_or_absent _ H1 HI), (nil_or_absent _ H2 HA), HT, HSe, map_to_list_empty. replace (Since f) with 0 by lia. replace (Until f) with 0 by lia.
  cbn. by rewrite !andb_true_r.
Qed.

(** The sum over distinct kinds, computed in int64. *)
Lemma sum_kinds c S K : (forall k, k ∈ K -> count_of c k = of_kind S k) -> NoDup K -> Z.of_nat (size S) < 2 ^ 63 ->
  foldr (fun k n => s64 (n + s64 (count_of c k))) 0 K = cnt (fun x : Z * Event => bool_decide (Kind x.2 ∈ K)) (map_to_list S).
Proof.
  intros HC HN Hs. rewrite <- (cnt_classes (fun x : Z * Event => Kind x.2)) by done.
  assert (Hb : forall P : Z * Event -> bool, 0 <= cnt P (map_to_list S) < 2 ^ 63).
  { intros P. pose proof (cnt_le P (map_to_list S)) as Hle. unfold zlen in Hle. rewrite length_map_to_list in Hle. lia. }
  induction HN as [|k K Hk HN IH]; [done|]. cbn [foldr]. rewrite IH by (intros; apply HC; by right). rewrite HC by (by left).
  pose proof (cnt_classes (fun x : Z * Event => Kind x.2) (k :: K) (map_to_list S) ltac:(by constructor)) as HX. cbn [foldr] in HX.
  pose proof (Hb (fun x => bool_decide (Kind x.2 = k))) as H1. pose proof (Hb (fun x => bool_decide (Kind x.2 ∈ k :: K))) as H2. rewrite <- HX in H2.
  unfold of_kind, how_many. assert (HS : forall z, 0 <= z < 2 ^ 63 -> s64 z = z) by (intros; apply s64_small; lia). rewrite (HS _ H1). by apply HS.
Qed.

(** a COUNT whose filters name kinds only, or nothing, is answered from the
    counters with the number of stored events the filters admit. *)
Theorem count_answers (BL : BoltLaws) (mit : Z) (tx : Tx) (S : gmap Z Event) (all : list SubscriptionFilter)
    (HS : counted_store mit tx S) (Hall : Forall kinds_only all) (Hne : all <> []) :
  CountFromCounters tx all = Ok (Some (how_many (GroupMatch all) S)).
Proof.
  destruct HS as (HR & Hs & Hint & c & Hc & HO & HP). destruct (Counts_done BL mit tx S c HR Hs Hint Hc HO HP) as (M & HE & HM).
  pose proof (stored_size BL mit tx S HR) as Hsz. rewrite Forall_forall in Hall. unfold CountFromCounters. rewrite HE. cbn [mbind outcome_bind Ready negb Events].
  assert (HN : existsb needs_scan all = false) by (apply not_true_iff_false; intros (f & Hf%list_elem_of_In & HX)%existsb_exists; destruct (Hall f Hf) as [? _]; congruence).
  rewrite HN. destruct all as [|f0 all0]; [done|]. set (all := f0 :: all0) in *. clearbody all. clear Hne f0 all0.
  destruct (existsb no_kinds all) eqn:EN.
  - apply existsb_exists in EN as (f & Hf%list_elem_of_In & HX%bool_decide_eq_true). pose proof (Hall f Hf) as Hk. pose proof Hk as (_ & _ & _ & HK & _).
    do 2 f_equal. rewrite s64_small by lia. rewrite <- length_map_to_list. symmetry. apply cnt_all. intros x _. apply existsb_exists. exists f.
    split; [by apply list_elem_of_In|]. rewrite kinds_only_Match by done. by rewrite (nil_or_absent _ HX HK).
  - do 2 f_equal. rewrite (sum_kinds _ S); [|intros k Hk; apply HM|apply NoDup_elements|lia].
    + apply cnt_ext. intros x _. apply eq_iff_eq_true. unfold GroupMatch. rewrite bool_decide_eq_true, elem_of_elements, elem_of_list_to_set, list_elem_of_In, in_flat_map, existsb_exists.
      split; intros (f & Hf & HX); exists f; (split; [done|]); apply list_elem_of_In in Hf; rewrite kinds_only_Match in * by (by apply Hall).
      * destruct (Kinds f); [|done]. by apply bool_decide_eq_true, list_elem_of_In.
      * destruct (Kinds f) as [ks|] eqn:EK; [by apply bool_decide_eq_true, list_elem_of_In in HX|]. exfalso. apply not_true_iff_false in EN. apply EN, existsb_exists. exists f.
        split; [by apply list_elem_of_In|]. unfold no_kinds. by rewrite EK.
    + apply elem_of_elements, elem_of_list_to_set, list_elem_of_In, in_flat_map in Hk as (f & Hf%list_elem_of_In & Hk%list_elem_of_In).
      destruct (Hall f Hf) as (_ & _ & _ & _ & _ & _ & Hi). by apply Hi.
Qed.

(** COUNT and REQ disagree on a filter that holds an empty list: the counters
    answer with every stored event, though the filter admits none and a query
    over it delivers none. *)
Theorem empty_list_counts_all (BL : BoltLaws) (mit MaxLimit : Z) (tx : Tx) (S : gmap Z Event) (f : SubscriptionFilter)
    (HS : counted_store mit tx S) (HU : ids_unique S) (HT : forall id ev, S !! id = Some ev -> 0 < CreatedAt ev < 2 ^ 64 - 1) (HM : 0 < MaxLimit)
    (Hf : needs_scan f = false) (Hempty : Kinds f = Some []) :
  CountFromCounters tx [f] = Ok (Some (Z.of_nat (size S))) /\ (forall ev, Match f ev = false) /\ findEvents MaxLimit tx f = Ok [].
Proof.
  destruct HS as (HR & Hs & Hint & c & Hc & HO & HP). destruct (Counts_done BL mit tx S c HR Hs Hint Hc HO HP) as (M & HE & _).
  pose proof (stored_size BL mit tx S HR) as Hsz.
  assert (Hno : forall ev, Match f ev = false) by (intros ev; unfold Match; rewrite Hempty; cbn; by rewrite !andb_false_r).
  destruct (needs_scan_false f Hf) as (HI & HA & _). split_and!; [|done|].
  - unfold CountFromCounters. cbn [existsb]. rewrite Hf, HE. cbn [orb mbind outcome_bind Ready negb Events]. unfold no_kinds. rewrite Hempty. cbn. by rewrite s64_small by lia.
  - rewrite (findEvents_spec BL mit MaxLimit tx S HR HU HM HT); [|by rewrite HI|by rewrite HA|intros id ev _ HX; by rewrite Hno in HX].
    replace (newest S (query_wants S f)) with (@nil (Z * Event)); [by rewrite take_nil|]. symmetry. apply elem_of_nil_inv. intros [id ev] Hx.
    apply newest_spec in Hx as [_ Hx]. unfold query_wants in Hx. rewrite Hno in Hx. by rewrite andb_false_r in Hx.
Qed.

End Theorems.

(** * relay/store_counters.go: the small store counted

    The store of StoreDemo.v, kept without counters, is counted in chunks of one
    key while a note is stored. *)

Definition step_of {A} `{!Bolt} `{!Derived} (o : outcome StoreErr (Tx * A)) (d : Tx) : Tx := match o with Ok r => r.1 | _ => d end.

Lemma step_of_Ok {A} `{!Bolt} `{!Derived} (o : outcome StoreErr (Tx * A)) d b :
  match o with Ok r => Some r.2 | _ => None end = Some b -> o = Ok (step_of o d, b).
Proof. destruct o as [[t x]| |]; [by intros [= <-]|done|done]. Qed.

Lemma Ok_pair {A B} (a a' : A) (b b' : B) : @Ok StoreErr (A * B) (a, b) = Ok (a', b') -> a' = a /\ b' = b.
Proof. by intros [= -> ->]. Qed.

Module CountDemo.
Import Demo.

#[local] Existing Instances demo_bolt demo_json demo_derived demo_lower.

Definition t0 : Tx := step_of (backfill_start tx1) tx1.
Definition t1 : Tx := step_of (countKindsChunk 1 t0) tx1.
Definition t2 : Tx := step_of (ExecuteBatch 5 100 t1 [EventInsertTask [note2]]) tx1.
Definition t3 : Tx := step_of (countAuthorsChunk 1 t2) tx1.

Lemma t0_step : backfill_start tx1 = Ok (t0, false).
Proof. apply step_of_Ok. vm_compute. reflexivity. Qed.
Lemma t1_step : countKindsChunk 1 t0 = Ok (t1, true).
Proof. apply step_of_Ok. vm_compute. reflexivity. Qed.
Lemma t2_step : ExecuteBatch 5 100 t1 [EventInsertTask [note2]] = Ok (t2, [None]).
Proof. apply step_of_Ok. vm_compute. reflexivity. Qed.
Lemma t3_step : countAuthorsChunk 1 t2 = Ok (t3, true).
Proof. apply step_of_Ok. vm_compute. reflexivity. Qed.

Lemma run : runs 5 100 1 1 t0 t3.
Proof.
  eapply runs_kinds; [exact t1_step|]. eapply (runs_batch _ _ _ 0 t1 [EventInsertTask [note2]]); [|exact t2_step|].
  - repeat constructor; apply events_ok; listed.
  - eapply runs_authors; [exact t3_step|apply runs_refl].
Qed.

#[local] Opaque t0 t1 t2 t3 tx1 tx2.

Lemma tx1_counting : counting 5 1 tx1.
Proof. destruct tx1_inv as [[HR _ _ _] Hs]. exists S1. rewrite Hs. split; [exact HR|]. split; [lia|]. intros c Hc. exfalso. assert (HN : counters tx1 = None) by (vm_compute; reflexivity). rewrite HN in Hc. discriminate Hc. Qed.

(** The chunks leave the events alone, and the note is stored between them. *)
Lemma t3_rep : represents 5 t3 S2.
Proof.
  destruct tx1_inv as [HI Hs]. destruct (start_step demo_laws 5 1 tx1 tx1_counting) as (t & fin & c0 & HE & HB0 & HC0 & Hc0 & _).
  rewrite t0_step in HE. apply Ok_pair in HE as [-> _]. destruct (kinds_step demo_laws 5 1 1 t0 c0 ltac:(lia) HC0 Hc0) as ([t fin'] & HE & Hr).
  rewrite t1_step in HE. apply Ok_pair in HE as [-> ->]. pose proof (chunk_counting demo_laws 5 _ _ _ _ _ _ _ HC0 Hc0 Hr) as HC1. destruct Hr as (c1 & HB1 & Hc1 & _). cbn [fst] in *.
  assert (HB : bucket t1 = bucket tx1) by (rewrite HB1; exact HB0).
  assert (HI1 : store_inv 5 t1 S1) by (destruct HI as [HR HU HT HV]; split; [exact (represents_bucket demo_laws 5 tx1 t1 S1 HB HR)|exact HU|exact HT|exact HV]).
  assert (Hs1 : seq_of t1 = 1) by (unfold seq_of; rewrite HB; exact Hs).
  destruct (store_plain t1 S1 note2) as (HE & HI2 & Hs2); [exact HI1|listed| |rewrite Hs1; reflexivity|reflexivity|reflexivity|reflexivity|].
  { intros id e Hid. unfold S1 in Hid. apply lookup_singleton_Some in Hid as [_ <-]. vm_compute. discriminate. }
  assert (HT : ExecuteBatch 5 100 t1 [EventInsertTask [note2]] = Ok (store t1 note2, [None])).
  { rewrite ExecuteBatch_retry. cbn [retryTasks applyTask apply_events].
    assert (HC : checkEventDuplication t1 note2 = Ok tt) by (vm_compute; reflexivity). rewrite HC, HE. reflexivity. }
  rewrite t2_step in HT. apply Ok_pair in HT as [HT _]. rewrite Hs1, HT in HI2.
  pose proof (batch_counting demo_laws 5 100 0 [EventInsertTask [note2]] t1 t2 [None] ltac:(lia) HC1
    ltac:(repeat constructor; apply events_ok; listed) t2_step) as HC2.
  destruct (counters t2) as [c2|] eqn:Ec2.
  2: { pose proof t3_step as HX. unfold countAuthorsChunk in HX. rewrite Ec2 in HX. discriminate HX. }
  destruct (authors_step demo_laws 5 1 0 t2 c2 ltac:(lia) HC2 Ec2) as ([t fin'] & HE3 & Hr). rewrite t3_step in HE3. apply Ok_pair in HE3 as [-> ->]. destruct Hr as (c3 & HB3 & _). cbn [fst] in HB3.
  destruct HI2 as [HR2 _ _ _]. exact (represents_bucket demo_laws 5 t2 t3 S2 HB3 HR2).
Qed.

Lemma S2_int id ev : S2 !! id = Some ev -> is_int (Kind ev).
Proof. intros [[_ ->]|[_ ->]]%S2_lookup; split; vm_compute; (discriminate || reflexivity). Qed.

Definition counts3 : CountsT := mkCounts 2 1 {[1 := 2]} true.

Lemma counters_exact_witness :
  Counts t3 = Ok counts3 /\ Events counts3 = Z.of_nat (size S2) /\ CAuthors counts3 = Z.of_nat (size (authors_of S2)) /\
  forall kind, is_int kind -> count_of counts3 kind = how_many (fun ev => bool_decide (Kind ev = kind)) S2.
Proof.
  assert (HC : Counts t3 = Ok counts3) by (vm_compute; reflexivity). split; [exact HC|]. destruct tx1_inv as [[HR _ _ _] Hs].
  apply (counters_exact demo_laws 5 100 1 tx1 t0 t3 S1 S2 false 1 counts3 ltac:(lia) HR); [vm_compute; reflexivity|exact t0_step|exact run| |exact t3_rep|exact S2_int|exact HC|reflexivity].
  rewrite Hs. vm_compute. reflexivity.
Defined.

Lemma backfill_completes_witness : exists tx', backfillCounters 1 3 tx2 = Some (Ok tx') /\ bucket tx' = bucket tx2 /\ counted_store 5 tx' S2.
Proof.
  destruct tx2_inv as [[HR _ _ _] Hs].
  apply (backfill_completes demo_laws 5 1 3 tx2 S2 ltac:(lia) HR); [vm_compute; reflexivity|rewrite Hs; vm_compute; reflexivity|exact S2_int|vm_compute; lia].
Defined.

(** Text notes, and everything. *)
Lemma count_answers_witness : exists tx', counted_store 5 tx' S2 /\
  CountFromCounters tx' [mkFilter None None (Some [1]) ∅ 0 0 0 [] [] []] = Ok (Some 2).
Proof.
  destruct tx2_inv as [[HR _ _ _] Hs].
  destruct (backfill_done demo_laws 5 1 3 tx2 S2 ltac:(lia) HR) as (tx' & _ & _ & HC);
    [vm_compute; reflexivity|rewrite Hs; vm_compute; reflexivity|exact S2_int|vm_compute; lia|]. exists tx'. split; [exact HC|].
  replace 2 with (how_many (GroupMatch [mkFilter None None (Some [1]) ∅ 0 0 0 [] [] []]) S2) by (vm_compute; reflexivity).
  apply (count_answers demo_laws 5 tx' S2 _ HC); [|discriminate]. repeat constructor; try discriminate; try lia.
  all: match goal with H : _ ∈ _ |- _ => apply list_elem_of_singleton in H as -> end; vm_compute; (discriminate || reflexivity).
Defined.

Lemma empty_list_counts_all_witness : exists tx', counted_store 5 tx' S2 /\
  let f := mkFilter None None (Some []) ∅ 0 0 0 [] [] [] in
  CountFromCounters tx' [f] = Ok (Some 2) /\ (forall ev, Match f ev = false) /\ findEvents 100 tx' f = Ok [].
Proof.
  destruct tx2_inv as [[HR HU HT _] Hs].
  destruct (backfill_done demo_laws 5 1 3 tx2 S2 ltac:(lia) HR) as (tx' & _ & _ & HC);
    [vm_compute; reflexivity|rewrite Hs; vm_compute; reflexivity|exact S2_int|vm_compute; lia|]. exists tx'. split; [exact HC|].
  change 2 with (Z.of_nat (size S2)). apply (empty_list_counts_all demo_laws 5 100 tx' S2 _ HC HU HT ltac:(lia)); reflexivity.
Defined.

End CountDemo.
