(* ===== verification/Nip44.v ===== *)
(** * nip44: encrypted payloads, version 2

    [nip44/encryption.go] and [nip44/hex.go].  HMAC-SHA256 is spelled out over
    [Sha256.sha256]; HKDF, ChaCha20 and the curve's shared secret are libraries
    outside the repository and stay parameters ([Nip44Lib], with its laws).
    The random nonce of Encrypt is an argument. *)

From S2P Require Import Prelude GoLib Sha256 NostrUtils Pow Event.

Definition PayloadVersion : Z := 2.
Definition MinPlaintextSize : Z := 1.
Definition MaxPlaintextSize : Z := 2 ^ 32 - 1.
Definition extendedPrefixThreshold : Z := 65536.

Inductive N44Err :=
  | ErrInvalidVersion | ErrMessageTooShort | ErrInvalidPadding | ErrInvalidMAC | ErrInvalidPlaintextLength
  | ErrInvalidKeys | ErrBase64 | ErrCipher | ErrPrivKey (e : UtilErr) | ErrPubKeyHex | ErrPubKey.

(** ** Padding *)

(** [int(math.Pow(2, math.Floor(math.Log2(float64(n)))+1))]; the float64
    computation is exact for [0 < n < 2^32]. *)
Definition next_power (n : Z) : Z := 2 ^ (Z.log2 n + 1).

Definition calcPaddedLen (l : Z) : Z :=
  if l <=? 32 then 32
  else
    let nextPower := next_power (l - 1) in
    let chunk := if nextPower <=? 256 then 32 else nextPower / 8 in
    chunk * ((l - 1) / chunk + 1).

Definition prefixLen (unpaddedLen : Z) : Z := if extendedPrefixThreshold <=? unpaddedLen then 6 else 2.

Definition pad (plaintext : gostring) : list byte :=
  let unpaddedLen := zlen plaintext in
  let prefix := if prefixLen unpaddedLen =? 2 then BE.put16 (u16 unpaddedLen)
                else [x00; x00] ++ BE.put32 (u32 unpaddedLen) in
  prefix ++ plaintext ++ repeat x00 (Z.to_nat (calcPaddedLen unpaddedLen - unpaddedLen)).

Definition unpad (padded : list byte) : outcome N44Err gostring :=
  if zlen padded <? 2 then Err ErrInvalidPadding
  else
    let finish (unpaddedLen prefixLen : Z) :=
      if negb (zlen padded =? prefixLen + calcPaddedLen unpaddedLen) then Err ErrInvalidPadding
      else Ok (slice (Z.to_nat prefixLen) (Z.to_nat (prefixLen + unpaddedLen)) padded) in
    let unpaddedLen := BE.get16 padded in
    if unpaddedLen =? 0 then
      if zlen padded <? 6 then Err ErrInvalidPadding
      else let unpaddedLen := BE.get32 (drop 2 padded) in
           if unpaddedLen <? extendedPrefixThreshold then Err ErrInvalidPadding
           else finish unpaddedLen 6
    else finish unpaddedLen 2.

(** ** HMAC-SHA256 *)

Definition hmac_block (key : list byte) : list byte :=
  let key := if (64 <? length key)%nat then sha256 key else key in
  key ++ repeat x00 (64 - length key).

Definition xor_all (m : Z) (l : list byte) : list byte := map (fun b => z2b (Z.lxor (b2z b) m)) l.

Definition hmac_sha256 (key message : list byte) : list byte :=
  let k := hmac_block key in
  sha256 (xor_all 0x5c k ++ sha256 (xor_all 0x36 k ++ message)).

Definition hmacAad (key message aad : list byte) : list byte := hmac_sha256 key (aad ++ message).

(** ** Libraries *)

Class Nip44Lib `{!Schnorr} := {
  (** golang.org/x/crypto/hkdf over SHA-256: the first bytes of Expand, and Extract *)
  hkdf_expand : list byte -> list byte -> list byte;
  hkdf_extract : list byte -> list byte -> list byte;
  (** chacha20.NewUnauthenticatedCipher and its XORKeyStream *)
  chacha20 : list byte -> list byte -> option (list byte -> list byte);
  (** btcec.GenerateSharedSecret: the x coordinate *)
  GenerateSharedSecret : PrivateKey -> PublicKey -> list byte;
}.

(** 76 bytes are read of Expand; a stream cipher with keys of the right sizes
    keeps lengths and undoes itself; the shared secret is symmetric. *)
Record Nip44Laws `{!Schnorr} `{!Nip44Lib} : Prop := {
  hkdf_expand_length : forall k n, length (hkdf_expand k n) = 76%nat;
  chacha20_stream : forall k n, length k = 32%nat -> length n = 12%nat ->
    exists f, chacha20 k n = Some f /\ (forall m, length (f m) = length m) /\ (forall m, f (f m) = m);
  shared_symmetric : forall s1 s2 p1 p2,
    ParsePubKey (drop 1 (compressed s1)) = Some p1 -> ParsePubKey (drop 1 (compressed s2)) = Some p2 ->
    GenerateSharedSecret s1 p2 = GenerateSharedSecret s2 p1;
}.

Section Nip44.
Context {Schnorr0 : Schnorr} {Lib : Nip44Lib}.

Record Keys := mkKeys { ChaChaKey : list byte; ChaChaNonce : list byte; HMACKey : list byte }.

Record payload := mkPayload { nonce : list byte; ciphertext : list byte; mac : list byte }.

Definition GenerateConversationKey (privKey : PrivateKey) (pubKey : PublicKey) : list byte :=
  hkdf_extract (GenerateSharedSecret privKey pubKey) (bs "nip44-v2").

Definition getMessageKeys (conversationKey nonce : list byte) : Keys :=
  let keys := hkdf_expand conversationKey nonce in
  mkKeys (slice 0 32 keys) (slice 32 44 keys) (slice 44 76 keys).

Definition checkPlaintextLen (n : Z) : outcome N44Err unit :=
  if (n <? MinPlaintextSize) || (MaxPlaintextSize <? n) then Err ErrInvalidPlaintextLength else Ok tt.

Definition encryptWithNonce (plaintext : gostring) (conversationKey nonce : list byte) : outcome N44Err gostring :=
  let keys := getMessageKeys conversationKey nonce in
  let padded := pad plaintext in
  match chacha20 (ChaChaKey keys) (ChaChaNonce keys) with
  | None => Err ErrCipher
  | Some stream =>
      let ciphertext := stream padded in
      let mac := hmacAad (HMACKey keys) ciphertext nonce in
      Ok (B64.encode (z2b PayloadVersion :: nonce ++ ciphertext ++ mac))
  end.

Definition Encrypt (nonce : list byte) (plaintext : gostring) (conversationKey : list byte) : outcome N44Err gostring :=
  _ ← checkPlaintextLen (zlen plaintext);
  encryptWithNonce plaintext conversationKey nonce.

Definition parsePayload (s : gostring) : outcome N44Err payload :=
  match B64.decode s with
  | None => Err ErrBase64
  | Some data =>
      if zlen data <? 97 then Err ErrMessageTooShort
      else if negb (b2z (data !!! 0%nat) =? PayloadVersion) then Err ErrInvalidVersion
      else Ok (mkPayload (slice 1 33 data) (slice 33 (length data - 32) data) (drop (length data - 32) data))
  end.

Definition payload_keys (p : payload) (conversationKey : list byte) : outcome N44Err Keys :=
  let keys := getMessageKeys conversationKey (nonce p) in
  if decide (hmacAad (HMACKey keys) (ciphertext p) (nonce p) = mac p) then Ok keys else Err ErrInvalidMAC.

Definition payload_open (p : payload) (keys : Keys) : outcome N44Err gostring :=
  match chacha20 (ChaChaKey keys) (ChaChaNonce keys) with
  | None => Err ErrCipher
  | Some stream => unpad (stream (ciphertext p))
  end.

Definition Decrypt (s : gostring) (conversationKey : list byte) : outcome N44Err gostring :=
  p ← parsePayload s;
  keys ← payload_keys p conversationKey;
  payload_open p keys.

Definition MessageKeys (conversationKey : list byte) (s : gostring) : outcome N44Err Keys :=
  p ← parsePayload s; payload_keys p conversationKey.

Definition OpenWithKeys (keys : Keys) (s : gostring) : outcome N44Err gostring :=
  if negb (zlen (ChaChaKey keys) =? 32) || negb (zlen (ChaChaNonce keys) =? 12) || negb (zlen (HMACKey keys) =? 32)
  then Err ErrInvalidKeys
  else
    p ← parsePayload s;
    if decide (hmacAad (HMACKey keys) (ciphertext p) (nonce p) = mac p) then payload_open p keys
    else Err ErrInvalidMAC.

(** ** Hex keys *)

Definition ConversationKeyHex (privKeyHex pubKeyHex : gostring) : outcome N44Err (list byte) :=
  match ParsePrivateKeyHex privKeyHex with
  | Err e => Err (ErrPrivKey e)
  | Panic => Panic
  | Ok b =>
      match Hex.decode pubKeyHex with
      | None => Err ErrPubKeyHex
      | Some pubBytes =>
          match ParsePubKey pubBytes with
          | None => Err ErrPubKey
          | Some pub => Ok (GenerateConversationKey (PrivKeyFromBytes b) pub)
          end
      end
  end.

Definition EncryptHex (nonce : list byte) (plaintext privKeyHex pubKeyHex : gostring) : outcome N44Err gostring :=
  key ← ConversationKeyHex privKeyHex pubKeyHex; Encrypt nonce plaintext key.

Definition DecryptHex (s privKeyHex pubKeyHex : gostring) : outcome N44Err gostring :=
  key ← ConversationKeyHex privKeyHex pubKeyHex; Decrypt s key.

End Nip44.

(** ** Padding, proved *)

Lemma next_power_spec n : 0 < n -> 2 <= next_power n /\ n < next_power n <= 2 * n.
Proof.
  intros Hn. unfold next_power. pose proof (Z.log2_spec n Hn) as [H1 H2]. pose proof (Z.log2_nonneg n).
  rewrite <- Z.add_1_r in H2. rewrite Z.pow_add_r in * by lia. change (2 ^ 1) with 2 in *.
  assert (1 <= 2 ^ Z.log2 n) by (pose proof (Z.pow_pos_nonneg 2 (Z.log2 n)); lia). lia.
Qed.

(** The chunk of a padded length, and its divisibility by 32. *)
Definition pad_chunk (l : Z) : Z :=
  if next_power (l - 1) <=? 256 then 32 else next_power (l - 1) / 8.

Lemma pad_chunk_spec l : 32 < l ->
  32 <= pad_chunk l /\ (pad_chunk l = 32 \/ 4 * pad_chunk l <= l - 1) /\ (32 | pad_chunk l).
Proof.
  intros Hl. unfold pad_chunk. pose proof (next_power_spec (l - 1) ltac:(lia)) as (H1 & H2 & H3).
  destruct (Z.leb_spec (next_power (l - 1)) 256) as [|Hgt]; [split; [lia|]; split; [lia|by exists 1]|].
  unfold next_power in *. set (k := Z.log2 (l - 1) + 1) in *.
  assert (Hk : 9 <= k).
  { destruct (Z.le_gt_cases 9 k); [done|]. assert (2 ^ k <= 2 ^ 8) by (apply Z.pow_le_mono_r; lia). lia. }
  assert (HE : 2 ^ k = 8 * (32 * 2 ^ (k - 8))).
  { replace k with (8 + (k - 8)) at 1 by lia. rewrite Z.pow_add_r by lia. change (2 ^ 8) with 256. lia. }
  rewrite HE in *. replace (8 * (32 * 2 ^ (k - 8)) / 8) with (32 * 2 ^ (k - 8)) by dlia.
  split; [lia|]. split; [lia|]. exists (2 ^ (k - 8)). lia.
Qed.

Lemma calcPaddedLen_spec l : 1 <= l ->
  l <= calcPaddedLen l /\ 32 <= calcPaddedLen l /\ (32 | calcPaddedLen l) /\
  (calcPaddedLen l - l < 32 \/ 4 * (calcPaddedLen l - l) < l).
Proof.
  intros Hl. unfold calcPaddedLen. destruct (Z.leb_spec l 32) as [|Hgt]; [split_and!; try lia; by exists 1|].
  fold (pad_chunk l). destruct (pad_chunk_spec l Hgt) as (Hc & Ho & [q Hq]).
  pose proof (Z.div_mod (l - 1) (pad_chunk l)). pose proof (Z.mod_pos_bound (l - 1) (pad_chunk l)).
  assert (0 <= (l - 1) / pad_chunk l) by (apply Z.div_pos; lia).
  split_and!; [nia|nia| |nia]. exists (q * ((l - 1) / pad_chunk l + 1)). rewrite Hq at 1. lia.
Qed.

Lemma zlen_repeat {A} (a : A) n : 0 <= n -> zlen (repeat a (Z.to_nat n)) = n.
Proof. intros. unfold zlen. rewrite repeat_length. lia. Qed.

Lemma zlen_pad p : 1 <= zlen p -> zlen (pad p) = prefixLen (zlen p) + calcPaddedLen (zlen p).
Proof.
  intros Hp. destruct (calcPaddedLen_spec _ Hp) as (Hle & _). unfold pad. rewrite !zlen_app, zlen_repeat by lia.
  unfold prefixLen. destruct (extendedPrefixThreshold <=? zlen p); cbn [Z.eqb]; rewrite ?zlen_app; unfold zlen; cbn; lia.
Qed.

Lemma unpad_pad p : 1 <= zlen p < 2 ^ 32 -> unpad (pad p) = Ok p.
Proof.
  intros Hp. destruct (calcPaddedLen_spec (zlen p) ltac:(lia)) as (Hle & Hmin & _).
  pose proof (zlen_pad p ltac:(lia)) as HL. unfold unpad. rewrite HL.
  unfold prefixLen in *. unfold extendedPrefixThreshold in *.
  destruct (Z.leb_spec 65536 (zlen p)) as [Hbig|Hsmall].
  - rewrite (proj2 (Z.ltb_ge _ 2)) by lia. unfold pad, prefixLen, extendedPrefixThreshold.
    rewrite (proj2 (Z.leb_le 65536 (zlen p))) by lia. change (6 =? 2) with false. cbv iota.
    rewrite (wrap_small 32) by lia. rewrite <- app_assoc.
    change (BE.get16 ([x00; x00] ++ _)) with 0. change (0 =? 0) with true. cbv iota.
    rewrite (proj2 (Z.ltb_ge _ 6)) by lia. change (drop 2 ([x00; x00] ++ ?r)) with r.
    rewrite BE.get32_put32 by lia. rewrite (proj2 (Z.ltb_ge (zlen p) 65536)) by lia.
    rewrite Z.eqb_refl. cbn [negb]. f_equal. unfold slice.
    change (drop (Z.to_nat 6) ([x00; x00] ++ BE.put32 (zlen p) ++ ?r)) with r.
    replace (Z.to_nat (6 + zlen p) - Z.to_nat 6)%nat with (length p) by (unfold zlen; lia). apply take_length_app.
  - rewrite (proj2 (Z.ltb_ge _ 2)) by lia. unfold pad, prefixLen, extendedPrefixThreshold.
    rewrite (proj2 (Z.leb_gt 65536 (zlen p))) by lia. change (2 =? 2) with true. cbv iota.
    rewrite (wrap_small 16) by lia. rewrite BE.get16_put16 by lia.
    rewrite (proj2 (Z.eqb_neq (zlen p) 0)) by lia. rewrite Z.eqb_refl. cbn [negb]. f_equal. unfold slice.
    change (drop (Z.to_nat 2) (BE.put16 (zlen p) ++ ?r)) with r.
    replace (Z.to_nat (2 + zlen p) - Z.to_nat 2)%nat with (length p) by (unfold zlen; lia). apply take_length_app.
Qed.

(** a plaintext of 1 to 2^32 - 1 bytes survives padding, under either length
    prefix; the padded length never falls short of it, is at least 32 and a
    multiple of 32, and exceeds it by less than 32 bytes or a quarter. *)
Theorem pad_roundtrip (p : gostring) (Hp : 1 <= zlen p < 2 ^ 32) :
  unpad (pad p) = Ok p /\
  zlen (pad p) = prefixLen (zlen p) + calcPaddedLen (zlen p) /\
  zlen p <= calcPaddedLen (zlen p) /\ 32 <= calcPaddedLen (zlen p) /\ (32 | calcPaddedLen (zlen p)) /\
  (calcPaddedLen (zlen p) - zlen p < 32 \/ 4 * (calcPaddedLen (zlen p) - zlen p) < zlen p).
Proof. split; [by apply unpad_pad|]. split; [apply zlen_pad; lia|]. apply calcPaddedLen_spec. lia. Qed.

Lemma pad_roundtrip_witness : unpad (pad (bs "hello")) = Ok (bs "hello") /\ zlen (pad (bs "hello")) = 34.
Proof. destruct (pad_roundtrip (bs "hello")) as (H1 & H2 & _); [vm_compute; split; [discriminate|reflexivity]|].
  split; [exact H1|]. rewrite H2. vm_compute. reflexivity. Defined.

(** ** Payloads *)

Section Payloads.
Context {Schnorr0 : Schnorr} {Lib : Nip44Lib}.

Lemma parse_built n c m :
  length n = 32%nat -> (32 <= length c)%nat -> length m = 32%nat ->
  parsePayload (B64.encode (z2b PayloadVersion :: n ++ c ++ m)) = Ok (mkPayload n c m).
Proof.
  intros Hn Hc Hm. unfold parsePayload. rewrite B64.b64_decode_encode.
  assert (HL : length (z2b PayloadVersion :: n ++ c ++ m) = (65 + length c)%nat)
    by (cbn [length]; rewrite !length_app; lia).
  rewrite (proj2 (Z.ltb_ge _ _)) by (unfold zlen; lia). cbn [lookup_total list_lookup_total].
  change (b2z (z2b PayloadVersion) =? PayloadVersion) with true. cbn [negb]. rewrite HL. f_equal.
  assert (H1 : drop 33 (z2b PayloadVersion :: n ++ c ++ m) = c ++ m).
  { cbn [drop]. rewrite <- Hn. apply drop_length_app. }
  replace (65 + length c - 32)%nat with (33 + length c)%nat by lia. f_equal.
  - unfold slice. cbn [drop Nat.sub]. rewrite <- Hn. apply take_length_app.
  - unfold slice. rewrite H1. replace (33 + length c - 33)%nat with (length c) by lia. apply take_length_app.
  - rewrite <- drop_drop, H1. apply drop_length_app.
Qed.

Lemma message_keys_lengths ck n : Nip44Laws ->
  length (ChaChaKey (getMessageKeys ck n)) = 32%nat /\ length (ChaChaNonce (getMessageKeys ck n)) = 12%nat /\
  length (HMACKey (getMessageKeys ck n)) = 32%nat.
Proof.
  intros HL. unfold getMessageKeys. cbn [ChaChaKey ChaChaNonce HMACKey].
  by rewrite !length_slice by (rewrite (hkdf_expand_length HL); lia).
Qed.

Lemma Encrypt_opens ck n p :
  Nip44Laws -> length n = 32%nat -> 1 <= zlen p < 2 ^ 32 ->
  exists s, Encrypt n p ck = Ok s /\ Decrypt s ck = Ok p /\
    MessageKeys ck s = Ok (getMessageKeys ck n) /\ OpenWithKeys (getMessageKeys ck n) s = Ok p.
Proof.
  intros HL Hn Hp. destruct (message_keys_lengths ck n HL) as (K1 & K2 & K3).
  destruct (chacha20_stream HL _ _ K1 K2) as (f & Hf & Hlen & Hinv).
  unfold Encrypt, checkPlaintextLen, MinPlaintextSize, MaxPlaintextSize.
  rewrite (proj2 (Z.ltb_ge (zlen p) 1)), (proj2 (Z.ltb_ge _ (zlen p))) by lia. cbn [orb mbind outcome_bind].
  unfold encryptWithNonce. rewrite Hf. eexists. split; [done|].
  pose proof (zlen_pad p ltac:(lia)) as HP. destruct (calcPaddedLen_spec (zlen p) ltac:(lia)) as (_ & H32 & _).
  assert (Hpre : 2 <= prefixLen (zlen p)) by (unfold prefixLen; destruct (_ <=? _); lia).
  set (c := f (pad p)). assert (Hc : (32 <= length c)%nat) by (unfold c; rewrite Hlen; unfold zlen in *; lia).
  set (keys := getMessageKeys ck n) in *.
  pose proof (parse_built n c (hmacAad (HMACKey keys) c n) Hn Hc (length_sha256 _)) as HB.
  unfold Decrypt, MessageKeys, OpenWithKeys, payload_keys, payload_open. rewrite HB. cbn [mbind outcome_bind].
  cbn [nonce ciphertext mac]. fold keys. rewrite decide_True by done. cbn [mbind outcome_bind]. rewrite Hf.
  assert (HU : unpad (f c) = Ok p) by (unfold c; rewrite Hinv; by apply unpad_pad).
  split; [exact HU|]. split; [done|].
  rewrite !(proj2 (Z.eqb_eq _ _)) by (unfold zlen; lia). cbn [negb orb]. by rewrite decide_True.
Qed.

(** What unpad returns has the length the prefix declares. *)
Lemma unpad_length b p : unpad b = Ok p -> 1 <= zlen p < 2 ^ 32.
Proof.
  assert (G : forall l k, 1 <= l -> 0 <= k -> zlen b = k + calcPaddedLen l ->
    zlen (slice (Z.to_nat k) (Z.to_nat (k + l)) b) = l).
  { intros l k Hl Hk HE. destruct (calcPaddedLen_spec l Hl) as (Hle & _). unfold zlen in *.
    rewrite length_slice; lia. }
  unfold unpad. destruct (zlen b <? 2); [done|]. pose proof (BE.get16_range b) as H16.
  pose proof (BE.get32_range (drop 2 b)) as H32. unfold extendedPrefixThreshold.
  destruct (Z.eqb_spec (BE.get16 b) 0).
  - destruct (zlen b <? 6); [done|]. destruct (Z.ltb_spec (BE.get32 (drop 2 b)) 65536); [done|].
    destruct (Z.eqb_spec (zlen b) (6 + calcPaddedLen (BE.get32 (drop 2 b)))); [|done].
    cbn [negb]. intros [= <-]. rewrite G; lia.
  - destruct (Z.eqb_spec (zlen b) (2 + calcPaddedLen (BE.get16 b))); [|done].
    cbn [negb]. intros [= <-]. rewrite G; lia.
Qed.

Lemma payload_parts (data : list byte) : (97 <= length data)%nat ->
  data = (data !!! 0%nat) :: slice 1 33 data ++ slice 33 (length data - 32) data ++ drop (length data - 32) data.
Proof.
  intros Hl. assert (HE : drop (length data - 32) data = slice (length data - 32) (length data) data).
  { unfold slice. rewrite take_ge; [done|]. rewrite length_drop. lia. }
  rewrite HE, <- !slice_app by lia. destruct data as [|b data]; [cbn in Hl; lia|].
  cbn [lookup_total list_lookup_total]. f_equal. unfold slice. cbn [drop]. rewrite take_ge; [done|]. rewrite drop_0. cbn [length]. lia.
Qed.

(** encryption of a plaintext of legal length always succeeds and is undone
    by decryption under the same conversation key, and by the message keys
    alone; the two parties of a conversation derive the same key, so what one
    encrypts to the other's public key the other decrypts. *)
Theorem encrypt_decrypt (n : list byte) (p ka kb pa pb : gostring)
    (HS : SchnorrLaws) (HL : Nip44Laws) (Hn : length n = 32%nat) (Hp : 1 <= zlen p < 2 ^ 32)
    (Ha : GetPublicKey ka = Ok pa) (Hb : GetPublicKey kb = Ok pb)
    (Hpa : exists k, ConversationKeyHex kb pa = Ok k) (Hpb : exists k, ConversationKeyHex ka pb = Ok k) :
  exists s ck, EncryptHex n p ka pb = Ok s /\ DecryptHex s kb pa = Ok p /\ DecryptHex s ka pb = Ok p /\
    ConversationKeyHex ka pb = Ok ck /\
    exists keys, MessageKeys ck s = Ok keys /\ OpenWithKeys keys s = Ok p.
Proof.
  destruct Hpb as [ck Hck], Hpa as [ck' Hck'].
  assert (ck' = ck) as ->.
  { unfold GetPublicKey in Ha, Hb. inv_ok. unfold ConversationKeyHex in Hck, Hck'. rewrite E, E0 in *.
    unfold key_hex in *. rewrite Hex.decode_encode in Hck, Hck'.
    destruct (ParsePubKey (drop 1 (compressed (PrivKeyFromBytes a)))) as [q1|] eqn:P1; [|done].
    destruct (ParsePubKey (drop 1 (compressed (PrivKeyFromBytes a0)))) as [q2|] eqn:P2; [|done].
    injection Hck as <-. injection Hck' as <-. unfold GenerateConversationKey. f_equal.
    by apply (shared_symmetric HL). }
  destruct (Encrypt_opens ck n p HL Hn Hp) as (s & H1 & H2 & H3 & H4). exists s, ck.
  unfold EncryptHex, DecryptHex. rewrite Hck, Hck'. cbn. split_and!; try done. by eexists.
Qed.

(** nothing is returned unauthenticated: whatever Decrypt returns comes from
    a payload of the right version whose MAC, over nonce and ciphertext, is the
    HMAC under the key derived from the conversation key and that nonce, and is
    a plaintext of legal length. *)
Theorem Decrypt_authenticated (s p : gostring) (ck : list byte) (HD : Decrypt s ck = Ok p) :
  exists data n c, B64.decode s = Some data /\ data !!! 0%nat = z2b PayloadVersion /\ (97 <= length data)%nat /\
    data = z2b PayloadVersion :: n ++ c ++ hmacAad (HMACKey (getMessageKeys ck n)) c n /\ length n = 32%nat /\
    1 <= zlen p < 2 ^ 32 /\ (exists f, chacha20 (ChaChaKey (getMessageKeys ck n)) (ChaChaNonce (getMessageKeys ck n)) = Some f /\
                             unpad (f c) = Ok p).
Proof.
  unfold Decrypt in HD. inv_ok. unfold parsePayload in E. destruct (B64.decode s) as [data|]; [|done].
  destruct (Z.ltb_spec (zlen data) 97) as [|Hlen]; [done|].
  destruct (Z.eqb_spec (b2z (data !!! 0%nat)) PayloadVersion) as [Hv|]; [|done]. injection E as <-.
  unfold payload_keys in E0. cbn [nonce ciphertext mac] in E0. destruct (decide _) as [HM|]; [|done]. injection E0 as <-.
  unfold payload_open in HD. cbn [nonce ciphertext mac] in HD.
  destruct (chacha20 _ _) as [f|] eqn:Ef; [|done]. unfold zlen in Hlen.
  exists data, (slice 1 33 data), (slice 33 (length data - 32) data).
  assert (Hv' : data !!! 0%nat = z2b PayloadVersion) by (by apply b2z_inj; rewrite Hv).
  split; [done|]. split; [done|]. split; [lia|]. split.
  { rewrite HM, <- Hv'. apply payload_parts. lia. }
  split; [rewrite length_slice; lia|]. split; [by apply unpad_length in HD|]. by exists f.
Qed.

End Payloads.

(** ** Witnesses *)

(** Stand-ins that satisfy the laws of the libraries: the identity stream and a
    constant secret. *)
#[local] Existing Instance toy_schnorr.

#[local] Instance toy_lib : Nip44Lib := {|
  hkdf_expand _ _ := repeat x00 76;
  hkdf_extract s _ := s;
  chacha20 _ _ := Some (fun m => m);
  GenerateSharedSecret _ _ := repeat x07 32;
|}.

Lemma toy_lib_laws : Nip44Laws.
Proof. split; [done| |done]. intros k n _ _. by eexists. Qed.

Lemma encrypt_decrypt_witness :
  exists s, EncryptHex (repeat x01 32) (bs "hi") sample_key sample_key = Ok s /\
    DecryptHex s sample_key sample_key = Ok (bs "hi").
Proof.
  destruct (encrypt_decrypt (repeat x01 32) (bs "hi") sample_key sample_key sample_key sample_key toy_laws toy_lib_laws)
    as (s & ck & H1 & H2 & _).
  - reflexivity.
  - vm_compute. split; [discriminate|reflexivity].
  - vm_compute. reflexivity.
  - vm_compute. reflexivity.
  - eexists. vm_compute. reflexivity.
  - eexists. vm_compute. reflexivity.
  - exists s. split; [exact H1|exact H2].
Defined.

Lemma Decrypt_authenticated_witness :
  let s := match Encrypt (repeat x01 32) (bs "hi") (repeat x07 32) with Ok s => s | _ => [] end in
  exists data, B64.decode s = Some data /\ (97 <= length data)%nat.
Proof.
  intros s. destruct (Decrypt_authenticated s (bs "hi") (repeat x07 32)) as (data & n & c & H1 & _ & H2 & _).
  - vm_compute. reflexivity.
  - exists data. split; [exact H1|exact H2].
Defined.
