(* ===== verification/Nip98.v ===== *)
(** * nip98: HTTP auth

    [nip98/seen.go] (the replay cache), [nip98/auth.go] (verification),
    [nip98/sign.go] (the client side) and [utils.GetFullHTTPURL].  Times are
    nanoseconds since the Unix epoch; the clock, the random salt and the JSON
    codec of events are parameters. *)

From S2P Require Import Prelude GoLib Sha256 NostrUtils Pow Event.

Inductive N98Err :=
  | ErrMissingAuthHeader | ErrInvalidNIP98Event | ErrEventExpired | ErrMethodMismatch | ErrURLMismatch
  | ErrWrongPubkey | ErrMissingPayloadTag | ErrPayloadMismatch | ErrNoAllowedPubkeys | ErrReplayed
  | ErrReplayCacheFull | ErrSign (e : EventErr).

Definition second : Z := 10 ^ 9.
Definition DefaultWindow : Z := 60 * second.
Definition DefaultSeenMax : Z := 2 ^ 20.
Definition KindHTTPAuth : Z := 27235.
Definition maxUnix : Z := 2 ^ 62 - 1.
Definition MaxHeader : Z := 16 * 1024.

(** ** The replay cache *)

Record SeenIDs := mkSeen { smax : Z; ids : gmap gostring Z; nextGC : Z; gcEvery : Z }.

(** The zero time.Time, January 1 of year 1. *)
Definition zero_time : Z := - 62135596800 * second.

Definition NewSeenIDs (max : Z) : SeenIDs :=
  mkSeen (if max <=? 0 then DefaultSeenMax else max) ∅ zero_time (10 * second).

Definition sweep (s : SeenIDs) (now : Z) : SeenIDs :=
  mkSeen (smax s) (filter (fun kv => now < kv.2) (ids s)) (now + gcEvery s) (gcEvery s).

Definition Use (s : SeenIDs) (id : gostring) (forgetAt now : Z) : SeenIDs * outcome N98Err unit :=
  if match ids s !! id with Some until => now <? until | None => false end then (s, Err ErrReplayed)
  else
    let s := if negb (now <? nextGC s) || (smax s <=? Z.of_nat (size (ids s))) then sweep s now else s in
    if bool_decide (ids s !! id = None) && (smax s <=? Z.of_nat (size (ids s))) then (s, Err ErrReplayCacheFull)
    else (mkSeen (smax s) (<[id := forgetAt]> (ids s)) (nextGC s) (gcEvery s), Ok tt).

Definition SeenLen (s : SeenIDs) : nat := size (ids s).

(** ** Requests *)

Record Request := mkRequest {
  Method : gostring; Host : gostring; RequestURI : gostring; hasTLS : bool; ForwardedProto : gostring;
  Authorization : gostring;
}.

Definition GetFullHTTPURL (r : Request) : gostring :=
  let scheme := if hasTLS r || bool_decide (ForwardedProto r = bs "https") then bs "https" else bs "http" in
  scheme ++ bs "://" ++ Host r ++ RequestURI r.

Record Options := mkOptions {
  AllowedPubkeys : list gostring;
  Body : option (list byte);
  RequirePayload : bool;
  NormalizeRootPath : bool;
  Window : Z;
  ExpectURL : gostring;
  ExpectMethod : gostring;
}.

Definition allowed (pubkeys : list gostring) (pubkey : gostring) : bool := in_list pubkey pubkeys.

(** strings.TrimSuffix(s, "/") *)
Definition trim_slash (s : gostring) : gostring :=
  match last s with
  | Some c => if decide (c = x2f) then take (length s - 1) s else s
  | None => s
  end.

Definition urlMatches (tagURL reqURL : gostring) (normalizeRoot : bool) : bool :=
  bool_decide (tagURL = reqURL) || (normalizeRoot && bool_decide (trim_slash tagURL = trim_slash reqURL)).

Definition lowerHex64 (s : gostring) : bool :=
  (zlen s =? 64) &&
  forallb (fun c => negb (((b2z c <? 48) || (57 <? b2z c)) && ((b2z c <? 97) || (102 <? b2z c)))) s.

(** strings.EqualFold against a hex string: no rune outside ASCII folds to a hex
    digit. *)
Definition equal_fold_hex (s hex : gostring) : bool := bool_decide (map lower_byte s = map lower_byte hex).

(** The tag loop; the flags and the payload values seen so far. *)
Fixpoint check_tags (r : Request) (opts : Options) (reqURL : gostring) (hasURL hasMethod : bool)
    (payloadTags : list gostring) (ts : tags) : outcome N98Err (bool * bool * list gostring) :=
  match ts with
  | [] => Ok (hasURL, hasMethod, payloadTags)
  | (n :: v :: _) :: ts =>
      if decide (n = bs "u") then
        if urlMatches v reqURL (NormalizeRootPath opts)
        then check_tags r opts reqURL true hasMethod payloadTags ts else Err ErrURLMismatch
      else if decide (n = bs "method") then
        if negb (bool_decide (v = Method r)) ||
           (negb (bool_decide (ExpectMethod opts = [])) && negb (bool_decide (v = ExpectMethod opts)))
        then Err ErrMethodMismatch else check_tags r opts reqURL hasURL true payloadTags ts
      else if decide (n = bs "payload") then check_tags r opts reqURL hasURL hasMethod (payloadTags ++ [v]) ts
      else check_tags r opts reqURL hasURL hasMethod payloadTags ts
  | _ :: ts => check_tags r opts reqURL hasURL hasMethod payloadTags ts
  end.

Section Nip98.
Context {GoLower0 : GoLower} {Schnorr0 : Schnorr} {JSON0 : EventJSON}.

Definition window_of (opts : Options) : Z := if Window opts <=? 0 then DefaultWindow else Window opts.

(** The event of an Authorization header. *)
Definition header_event (h : gostring) : outcome N98Err Event :=
  if (zlen h <? 7) || (MaxHeader <? zlen h) || negb (bool_decide (take 6 h = bs "Nostr "))
  then Err ErrMissingAuthHeader
  else match B64.decode (drop 6 h) with
       | None => Err ErrMissingAuthHeader
       | Some payloadJSON =>
           match UnmarshalEvent payloadJSON with
           | None => Err ErrInvalidNIP98Event
           | Some event => Ok event
           end
       end.

(** Checks 5 and 6: the tags and the body. *)
Definition check_binding (r : Request) (opts : Options) (event : Event) : outcome N98Err unit :=
  let reqURL := if decide (ExpectURL opts = []) then GetFullHTTPURL r else ExpectURL opts in
  '(hasURL, hasMethod, payloadTags) ← check_tags r opts reqURL false false [] (Tags event);
  _ ← ensure (hasURL && hasMethod) ErrInvalidNIP98Event;
  _ ← ensure (negb (RequirePayload opts && bool_decide (payloadTags = []))) ErrMissingPayloadTag;
  let sum := Hex.encode (sha256 (default [] (Body opts))) in
  ensure (negb (negb (bool_decide (payloadTags = [])) && (bool_decide (is_Some (Body opts)) || RequirePayload opts))
          || forallb (fun p => equal_fold_hex p sum) payloadTags) ErrPayloadMismatch.

(** Check 4: [now] in nanoseconds; [int64] of a bounded uint64 is itself. *)
Definition fresh_at (opts : Options) (event : Event) (nowT : Z) : bool :=
  let now := nowT / second in
  let w := window_of opts / second in
  negb ((maxUnix <? CreatedAt event) || (CreatedAt event <? now - w) || (now + w <? CreatedAt event)).

Definition verify_event (r : Request) (opts : Options) (nowT : Z) (pubkeyAllowed : gostring -> bool) (event : Event)
    : outcome N98Err unit :=
  _ ← ensure ((Kind event =? KindHTTPAuth) && lowerHex64 (PubKey event)) ErrInvalidNIP98Event;
  _ ← ensure (pubkeyAllowed (PubKey event)) ErrWrongPubkey;
  _ ← ensure (is_ok (Verify [WithoutPowCheck] event)) ErrInvalidNIP98Event;
  _ ← ensure (fresh_at opts event nowT) ErrEventExpired;
  check_binding r opts event.

(** verify, with the shared cache of accepted ids if there is one. *)
Definition verify (seen : option SeenIDs) (r : Request) (opts : Options) (nowT : Z) (pubkeyAllowed : gostring -> bool)
    : option SeenIDs * outcome N98Err gostring :=
  match header_event (Authorization r) with
  | Err e => (seen, Err e)
  | Panic => (seen, Panic)
  | Ok event =>
      match verify_event r opts nowT pubkeyAllowed event with
      | Err e => (seen, Err e)
      | Panic => (seen, Panic)
      | Ok _ =>
          match seen with
          | None => (seen, Ok (PubKey event))
          | Some s =>
              let '(s, res) := Use s (ID event) (CreatedAt event * second + (window_of opts + second)) nowT in
              (Some s, _ ← res; Ok (PubKey event))
          end
      end
  end.

Definition VerifyHTTP (seen : option SeenIDs) (r : Request) (opts : Options) (nowT : Z)
    : option SeenIDs * outcome N98Err gostring :=
  match AllowedPubkeys opts with
  | [] => (seen, Err ErrNoAllowedPubkeys)
  | _ => verify seen r opts nowT (allowed (AllowedPubkeys opts))
  end.

Definition VerifyAnyPubkey (seen : option SeenIDs) (r : Request) (opts : Options) (nowT : Z)
    : option SeenIDs * outcome N98Err gostring :=
  verify seen r opts nowT (fun _ => true).

(** ** The client *)

Definition newEvent (salt : list byte) (now : Z) (url method : gostring) (payload : option (list byte)) : Event :=
  let ts := [[bs "u"; url]; [bs "method"; method]] in
  let ts := match payload with
            | Some p => ts ++ [[bs "payload"; Hex.encode (sha256 p)]]
            | None => ts
            end in
  let ts := ts ++ [[bs "salt"; Hex.encode salt]] in
  mkEvent [] [] (u64 now) KindHTTPAuth ts [] [].

Definition encode_header (ev : Event) : gostring := bs "Nostr " ++ B64.encode (MarshalEvent ev).

(** NewAuthHeader: Sign with a key of this process. *)
Definition NewAuthHeader (salt : list byte) (now : Z) (privKeyHex url method : gostring) (body : option (list byte))
    : outcome N98Err gostring :=
  let '(ev, res) := Sign (newEvent salt now url method body) privKeyHex in
  match res with
  | Ok _ => Ok (encode_header ev)
  | Err e => Err (ErrSign e)
  | Panic => Panic
  end.

End Nip98.

(** ** The cache, proved *)

Lemma sweep_lookup s now id until : ids s !! id = Some until -> now < until -> ids (sweep s now) !! id = Some until.
Proof. intros Hid Hu. cbn. by apply map_lookup_filter_Some. Qed.

(** The cache as Use sees it after its sweep. *)
Definition swept (s : SeenIDs) (now : Z) : SeenIDs :=
  if negb (now <? nextGC s) || (smax s <=? Z.of_nat (size (ids s))) then sweep s now else s.

Lemma swept_lookup s now id until : ids s !! id = Some until -> now < until -> ids (swept s now) !! id = Some until.
Proof. intros Hid Hu. unfold swept. case_match; [by apply sweep_lookup|done]. Qed.

Lemma swept_smax s now : smax (swept s now) = smax s.
Proof. unfold swept. by case_match. Qed.

Lemma swept_size s now : (size (ids (swept s now)) <= size (ids s))%nat.
Proof. unfold swept. case_match; [|done]. apply map_subseteq_size, map_filter_subseteq. Qed.

(** A live id stays, whatever is used: itself is refused, and nothing else
    displaces it. *)
Lemma Use_keeps s id f now id' until :
  ids s !! id' = Some until -> now < until -> ids (Use s id f now).1 !! id' = Some until.
Proof.
  intros Hid Hu. unfold Use. fold (swept s now). destruct (decide (id = id')) as [->|Hne].
  - by rewrite Hid, (proj2 (Z.ltb_lt _ _)).
  - destruct (match ids s !! id with Some until => now <? until | None => false end); [done|].
    pose proof (swept_lookup s now id' until Hid Hu) as HS. destruct (_ && _); [done|].
    cbn. by rewrite lookup_insert_ne.
Qed.

Lemma Use_Ok s id f now s' : Use s id f now = (s', Ok tt) -> ids s' !! id = Some f.
Proof.
  unfold Use. fold (swept s now). destruct (match ids s !! id with Some until => now <? until | None => false end); [done|].
  destruct (_ && _); [done|]. intros [= <-]. cbn. apply lookup_insert_eq.
Qed.

Lemma Use_bound s id f now :
  Z.of_nat (size (ids s)) <= smax s ->
  Z.of_nat (size (ids (Use s id f now).1)) <= smax (Use s id f now).1 /\ smax (Use s id f now).1 = smax s.
Proof.
  intros Hs. unfold Use. fold (swept s now).
  destruct (match ids s !! id with Some until => now <? until | None => false end); [done|].
  pose proof (swept_size s now) as Hz. rewrite swept_smax.
  destruct (bool_decide (ids (swept s now) !! id = None)) eqn:EB;
    [destruct (Z.leb_spec (smax s) (Z.of_nat (size (ids (swept s now)))))|]; cbn [andb fst ids smax];
    rewrite ?swept_smax; (split; [|done]).
  - lia.
  - apply bool_decide_eq_true in EB. rewrite map_size_insert_None by done. lia.
  - apply bool_decide_eq_false in EB. rewrite map_size_insert_Some by (by apply not_eq_None_Some). lia.
Qed.

(** A sequence of calls: id, forget time, clock. *)
Definition uses (s : SeenIDs) (calls : list (gostring * Z * Z)) : SeenIDs :=
  foldl (fun s c => (Use s c.1.1 c.1.2 c.2).1) s calls.

Lemma uses_keep s calls id until :
  ids s !! id = Some until -> Forall (fun c => c.2 < until) calls -> ids (uses s calls) !! id = Some until.
Proof.
  unfold uses. revert s. induction calls as [|c calls IH]; intros s Hid HF; [done|].
  inversion HF as [|? ? Hc HF']; subst. cbn [foldl]. apply IH; [|done]. by apply Use_keeps.
Qed.

Lemma uses_bound s calls :
  Z.of_nat (size (ids s)) <= smax s -> Z.of_nat (size (ids (uses s calls))) <= smax s /\ smax (uses s calls) = smax s.
Proof.
  unfold uses. revert s. induction calls as [|c calls IH]; intros s Hs; [done|]. cbn [foldl].
  destruct (Use_bound s c.1.1 c.1.2 c.2 Hs) as [HB HM]. destruct (IH (Use s c.1.1 c.1.2 c.2).1) as [H1 H2]; [done|].
  rewrite HM in *. done.
Qed.

(** ** Tags *)

Definition tag_values (name : gostring) (ts : tags) : list gostring :=
  flat_map (fun t : tag => match t with n :: v :: _ => if decide (n = name) then [v] else [] | _ => [] end) ts.

Definition some_value (name : gostring) (ts : tags) : bool := negb (bool_decide (tag_values name ts = [])).

Definition method_ok (r : Request) (opts : Options) (v : gostring) : Prop :=
  v = Method r /\ (ExpectMethod opts <> [] -> v = ExpectMethod opts).

Lemma check_tags_spec r opts url ts hu hm ps u m p :
  check_tags r opts url hu hm ps ts = Ok (u, m, p) <->
  Forall (fun v => urlMatches v url (NormalizeRootPath opts) = true) (tag_values (bs "u") ts) /\
  Forall (method_ok r opts) (tag_values (bs "method") ts) /\
  u = hu || some_value (bs "u") ts /\ m = hm || some_value (bs "method") ts /\ p = ps ++ tag_values (bs "payload") ts.
Proof.
  unfold some_value, tag_values. revert hu hm ps. induction ts as [|[|n [|v t]] ts IH]; intros hu hm ps; cbn [check_tags flat_map app].
  - rewrite bool_decide_true by done. cbn. rewrite !orb_false_r, app_nil_r. split; [naive_solver|].
    by intros (_ & _ & -> & -> & ->).
  - apply IH.
  - apply IH.
  - destruct (decide (n = bs "u")) as [->|Hu]; [|destruct (decide (n = bs "method")) as [->|Hm];
      [|destruct (decide (n = bs "payload")) as [->|Hp]]].
    + rewrite (decide_False (P := bs "u" = bs "method")), (decide_False (P := bs "u" = bs "payload")) by (by vm_compute).
      cbn [app]. rewrite Forall_cons.
      destruct (urlMatches v url (NormalizeRootPath opts)); [|split; [done|naive_solver]].
      rewrite IH. rewrite (bool_decide_false (v :: _ = [])) by done. cbn [orb]. rewrite orb_true_r. naive_solver.
    + rewrite (decide_False (P := bs "method" = bs "payload")) by (by vm_compute).
      cbn [app]. rewrite Forall_cons.
      assert (HM : (negb (bool_decide (v = Method r)) ||
        (negb (bool_decide (ExpectMethod opts = [])) && negb (bool_decide (v = ExpectMethod opts)))) = false <->
        method_ok r opts v).
      { unfold method_ok. rewrite orb_false_iff, andb_false_iff, !negb_false_iff, !bool_decide_eq_true.
        destruct (decide (ExpectMethod opts = [])); tauto. }
      destruct (negb (bool_decide (v = Method r)) || _).
      * split; [done|]. intros (_ & [Hv _] & _). apply HM in Hv. done.
      * rewrite IH. rewrite (bool_decide_false (v :: _ = [])) by done. cbn [orb]. rewrite orb_true_r.
        apply proj1 in HM. specialize (HM eq_refl). naive_solver.
    + cbn [app]. rewrite IH, <- app_assoc. done.
    + cbn [app]. apply IH.
Qed.

Section Logins.
Context {GoLower0 : GoLower} {Schnorr0 : Schnorr} {JSON0 : EventJSON}.

Definition expected_url (r : Request) (opts : Options) : gostring :=
  if decide (ExpectURL opts = []) then GetFullHTTPURL r else ExpectURL opts.

(** The event is bound to this request and its body. *)
Definition bound_to (r : Request) (opts : Options) (ev : Event) : Prop :=
  tag_values (bs "u") (Tags ev) <> [] /\
  Forall (fun v => urlMatches v (expected_url r opts) (NormalizeRootPath opts) = true) (tag_values (bs "u") (Tags ev)) /\
  tag_values (bs "method") (Tags ev) <> [] /\ Forall (method_ok r opts) (tag_values (bs "method") (Tags ev)) /\
  (RequirePayload opts = true -> tag_values (bs "payload") (Tags ev) <> []) /\
  (is_Some (Body opts) \/ RequirePayload opts = true ->
   Forall (fun p => equal_fold_hex p (Hex.encode (sha256 (default [] (Body opts)))) = true)
          (tag_values (bs "payload") (Tags ev))).

Lemma some_value_spec name ts : some_value name ts = true <-> tag_values name ts <> [].
Proof. unfold some_value. by rewrite negb_true_iff, bool_decide_eq_false. Qed.

Lemma check_binding_spec r opts ev : check_binding r opts ev = Ok tt <-> bound_to r opts ev.
Proof.
  unfold check_binding, bound_to. fold (expected_url r opts). cbv zeta.
  set (url := expected_url r opts). set (sum := Hex.encode _).
  assert (HF : forall l, forallb (fun p => equal_fold_hex p sum) l = true <-> Forall (fun p => equal_fold_hex p sum = true) l).
  { intros l. rewrite forallb_forall, Forall_forall. by setoid_rewrite list_elem_of_In. }
  destruct (check_tags r opts url false false [] (Tags ev)) as [[[u m] p]|e|] eqn:EC.
  - apply check_tags_spec in EC as (HU & HM & -> & -> & ->). cbn [orb app].
    cbn [mbind outcome_bind]. rewrite !bind_unit_Ok, !ensure_Ok, andb_true_iff, !some_value_spec.
    rewrite negb_true_iff, andb_false_iff, bool_decide_eq_false, orb_true_iff, negb_true_iff, andb_false_iff, HF,
      negb_false_iff, orb_false_iff, bool_decide_eq_true, bool_decide_eq_false.
    destruct (RequirePayload opts); destruct (decide (is_Some (Body opts)));
      destruct (decide (tag_values (bs "payload") (Tags ev) = [])) as [E|]; try rewrite E;
      intuition (try congruence; auto using Forall_nil).
  - split; [done|]. intros (_ & HU & _ & HM & _).
    assert (exists x, check_tags r opts url false false [] (Tags ev) = Ok x) as [x Hx]; [|congruence].
    eexists (_, _, _). apply check_tags_spec. split; [done|]. split; [done|]. done.
  - split; [done|]. intros (_ & HU & _ & HM & _).
    assert (exists x, check_tags r opts url false false [] (Tags ev) = Ok x) as [x Hx]; [|congruence].
    eexists (_, _, _). apply check_tags_spec. split; [done|]. split; [done|]. done.
Qed.

Lemma fresh_at_spec opts ev nowT : 0 <= CreatedAt ev ->
  fresh_at opts ev nowT = true <->
  CreatedAt ev <= maxUnix /\ Z.abs (CreatedAt ev - nowT / second) <= window_of opts / second.
Proof.
  intros Hc. unfold fresh_at. rewrite negb_true_iff, !orb_false_iff, !Z.ltb_ge. lia.
Qed.

Lemma is_ok_unit {E} (m : outcome E unit) : is_ok m = true <-> m = Ok tt.
Proof. destruct m as [[]| |]; cbn; naive_solver. Qed.

Lemma verify_event_spec r opts nowT allow ev : 0 <= CreatedAt ev ->
  verify_event r opts nowT allow ev = Ok tt <->
  Kind ev = KindHTTPAuth /\ lowerHex64 (PubKey ev) = true /\ allow (PubKey ev) = true /\
  accepted (config [WithoutPowCheck]) ev /\
  (CreatedAt ev <= maxUnix /\ Z.abs (CreatedAt ev - nowT / second) <= window_of opts / second) /\
  bound_to r opts ev.
Proof.
  intros Hc. unfold verify_event. rewrite !bind_unit_Ok, !ensure_Ok, andb_true_iff, Z.eqb_eq, is_ok_unit,
    Verify_accepted, fresh_at_spec, check_binding_spec by done. tauto.
Qed.

(** a request is authenticated only by a kind-27235 event of an allowed,
    lower-case key, whose id and signature verify, dated within the window of
    the server's clock, and bound to this URL, this method and, when the body
    is given or required, to it: every u, method and payload tag is checked,
    not just the first. *)
Theorem verify_sound (seen seen' : option SeenIDs) (r : Request) (opts : Options) (nowT : Z) (pk : gostring)
    (Hev : forall b ev, UnmarshalEvent b = Some ev -> 0 <= CreatedAt ev)
    (HV : VerifyHTTP seen r opts nowT = (seen', Ok pk)) :
  exists ev, header_event (Authorization r) = Ok ev /\ pk = PubKey ev /\ pk ∈ AllowedPubkeys opts /\
    Kind ev = KindHTTPAuth /\ lowerHex64 pk = true /\ accepted (config [WithoutPowCheck]) ev /\
    Z.abs (CreatedAt ev - nowT / second) <= window_of opts / second /\ bound_to r opts ev.
Proof.
  unfold VerifyHTTP in HV. destruct (AllowedPubkeys opts) as [|a l] eqn:EA; [done|]. rewrite <- EA in *.
  unfold verify in HV. destruct (header_event _) as [ev|e|] eqn:EH; [|done|done].
  assert (Hc : 0 <= CreatedAt ev).
  { clear HV. revert EH. unfold header_event. destruct (_ || _ || _); [done|]. destruct (B64.decode _) as [b|]; [|done].
    destruct (UnmarshalEvent b) as [ev'|] eqn:EU; [|done]. intros [= <-]. by apply (Hev b). }
  destruct (verify_event _ _ _ _ ev) as [[]|e|] eqn:EV; [|done|done].
  apply verify_event_spec in EV as (H1 & H2 & H3 & H4 & [_ H5] & H6); [|done].
  assert (pk = PubKey ev) as ->.
  { destruct seen as [s|]; [|by injection HV]. destruct (Use _ _ _ _) as [s1 [[]| |]]; cbn in HV; by injection HV. }
  exists ev. unfold allowed, in_list in H3. apply bool_decide_eq_true in H3. done.
Qed.

(** C29: each login works once: after an event was accepted, no later request
    carrying it is, however many other logins came between, under a clock that
    does not go back, for the same or a shorter window; and the cache never
    outgrows its cap. *)
Theorem login_once (s s1 : SeenIDs) (calls : list (gostring * Z * Z)) (r r' : Request) (opts opts' : Options)
    (now now' : Z) (allow allow' : gostring -> bool) (ev : Event) (pk : gostring)
    (Hcap : Z.of_nat (size (ids s)) <= smax s)
    (Hev : header_event (Authorization r) = Ok ev) (Hev' : header_event (Authorization r') = Ok ev)
    (HV : verify (Some s) r opts now allow = (Some s1, Ok pk))
    (Hclock : Forall (fun c => now <= c.2 <= now') calls)
    (Hw : window_of opts' <= window_of opts) :
  (forall pk', (verify (Some (uses s1 calls)) r' opts' now' allow').2 <> Ok pk') /\
  Z.of_nat (SeenLen (uses s1 calls)) <= smax s.
Proof.
  unfold verify in *. rewrite Hev in HV. rewrite Hev'.
  destruct (verify_event r opts now allow ev) as [[]|e|]; [|done|done].
  set (f := CreatedAt ev * second + (window_of opts + second)) in *.
  destruct (Use s (ID ev) f now) as [s1' res] eqn:EU. destruct res as [[]| |]; cbn in HV; [|done|done].
  injection HV as <- <-. split.
  - destruct (verify_event r' opts' now' allow' ev) as [[]|e|] eqn:EV; [|done|done].
    assert (Hnow : now' < f).
    { assert (HF : fresh_at opts' ev now' = true).
      { unfold verify_event in EV. rewrite !bind_unit_Ok, !ensure_Ok in EV. tauto. }
      unfold fresh_at in HF. rewrite negb_true_iff, !orb_false_iff, !Z.ltb_ge in HF. destruct HF as [[_ HF] _].
      unfold f, second in *. dlia. }
    assert (HI : ids (uses s1' calls) !! ID ev = Some f).
    { apply uses_keep; [by apply Use_Ok in EU|]. eapply Forall_impl; [exact Hclock|]. cbn. lia. }
    intros pk'. unfold Use. rewrite HI, (proj2 (Z.ltb_lt _ _)) by done. cbn. done.
  - destruct (Use_bound s (ID ev) f now Hcap) as [HB HM]. rewrite EU in HB, HM. cbn in HB, HM.
    rewrite <- HM. apply uses_bound. done.
Qed.

Lemma lowerHex64_encode b : length b = 32%nat -> lowerHex64 (Hex.encode b) = true.
Proof.
  intros Hb. unfold lowerHex64. assert (zlen (Hex.encode b) = 64) as -> by (unfold zlen; rewrite Hex.length_encode; lia).
  cbn [andb Z.eqb]. apply forallb_forall. intros c Hc. unfold Hex.encode in Hc. apply in_flat_map in Hc as (x & _ & Hc).
  assert (G : forall n, 0 <= n < 16 -> (fun c => negb (((b2z c <? 48) || (57 <? b2z c)) && ((b2z c <? 97) || (102 <? b2z c)))) (Hex.digit n) = true).
  { intros n Hn. unfold Hex.digit. destruct (Z.ltb_spec n 10); rewrite b2z_z2b, Z.mod_small by lia;
      repeat match goal with |- context [?a <? ?b] => destruct (Z.ltb_spec a b) end; (done || lia). }
  pose proof (b2z_range x). destruct Hc as [<-|[<-|[]]]; apply G; dlia.
Qed.

Lemma newEvent_values salt now url method payload :
  let ts := Tags (newEvent salt now url method payload) in
  tag_values (bs "u") ts = [url] /\ tag_values (bs "method") ts = [method] /\
  tag_values (bs "payload") ts = match payload with Some p => [Hex.encode (sha256 p)] | None => [] end.
Proof. destruct payload; split_and!; reflexivity. Qed.

(** a header the client builds is accepted by the server it was built for:
    same URL and method, the same body (present if the server requires a
    payload), within the window, for any key in range. *)
Theorem login_accepted (salt : list byte) (t now : Z) (key url method h : gostring) (body : option (list byte))
    (r : Request) (opts : Options)
    (HL : SchnorrLaws) (Ht : 0 <= t <= maxUnix)
    (HJ : let ev := (Sign (newEvent salt t url method body) key).1 in UnmarshalEvent (MarshalEvent ev) = Some ev)
    (HN : NewAuthHeader salt t key url method body = Ok h) (Hsize : zlen h <= MaxHeader) (Hmin : 7 <= zlen h)
    (Ha : Authorization r = h) (Hm : Method r = method) (Hu : expected_url r opts = url)
    (Hx : ExpectMethod opts <> [] -> ExpectMethod opts = method)
    (Hb : Body opts = body) (Hp : RequirePayload opts = true -> is_Some body)
    (Hw : Z.abs (t - now / second) <= window_of opts / second) :
  exists pk, GetPublicKey key = Ok pk /\ VerifyAnyPubkey None r opts now = (None, Ok pk).
Proof.
  unfold NewAuthHeader in HN. destruct (Sign _ key) as [ev res] eqn:ES. cbn [fst] in HJ.
  destruct res as [[]| |]; [|done|done]. injection HN as HN.
  pose proof (Sign_Ok _ _ _ ES) as (b & sg & HP & _ & He). cbv zeta in He.
  exists (PubKey ev). split; [unfold GetPublicKey; rewrite HP, He; done|].
  assert (HH : header_event (Authorization r) = Ok ev).
  { unfold header_event. rewrite Ha. rewrite (proj2 (Z.ltb_ge (zlen h) 7)), (proj2 (Z.ltb_ge MaxHeader (zlen h))) by lia.
    rewrite <- HN. unfold encode_header. rewrite bool_decide_true by reflexivity. cbn [negb orb].
    change (drop 6 (bs "Nostr " ++ ?x)) with x. by rewrite B64.b64_decode_encode, HJ. }
  assert (HC : CreatedAt ev = t).
  { rewrite He. cbn [CreatedAt newEvent]. unfold maxUnix in *. rewrite wrap_small; lia. }
  unfold VerifyAnyPubkey, verify. rewrite HH.
  assert (verify_event r opts now (fun _ => true) ev = Ok tt) as ->; [|done].
  apply verify_event_spec; [lia|]. rewrite HC. split_and!; try done.
  - by rewrite He.
  - rewrite He. apply lowerHex64_encode. by apply key_hex_valid.
  - apply (Sign_accepted (newEvent salt t url method body) key); [done|done|done|by left|left; cbn; lia].
  - lia.
  - assert (HT : Tags ev = Tags (newEvent salt t url method body)) by (by rewrite He).
    destruct (newEvent_values salt t url method body) as (V1 & V2 & V3). unfold bound_to. rewrite HT, V1, V2, V3, Hu.
    split_and!; try done.
    + constructor; [|done]. unfold urlMatches. by rewrite bool_decide_true.
    + constructor; [|done]. split; [done|]. intros. by rewrite Hx.
    + intros HR. by destruct (Hp HR) as [x ->].
    + intros _. rewrite Hb. destruct body as [p|]; [|done]. constructor; [|done]. by apply bool_decide_eq_true.
Qed.

End Logins.

(** ** Witnesses *)

#[local] Existing Instance toy_schnorr.
#[local] Existing Instance ascii_lower.

Definition login_url : gostring := bs "https://relay.example/upload".
Definition login_event : Event :=
  (Sign (newEvent (repeat x05 16) 1700000000 login_url (bs "POST") (Some (bs "body"))) sample_key).1.

(** A codec for that one event. *)
#[local] Instance one_json : EventJSON := {|
  MarshalEvent _ := [x01];
  UnmarshalEvent b := if decide (b = [x01]) then Some login_event else None;
|}.

Definition login_request : Request :=
  mkRequest (bs "POST") (bs "relay.example") (bs "/upload") true [] (encode_header login_event).
Definition login_options : Options := mkOptions [sample_key] (Some (bs "body")) true false 0 [] [].

Lemma one_json_created b ev : UnmarshalEvent b = Some ev -> 0 <= CreatedAt ev.
Proof. cbn. destruct (decide (b = [x01])); [|discriminate]. intros [= <-]. vm_compute. discriminate. Qed.

Lemma verify_sound_witness :
  exists ev, header_event (Authorization login_request) = Ok ev /\ bound_to login_request login_options ev.
Proof.
  destruct (verify_sound None None login_request login_options (1700000030 * second) sample_key one_json_created)
    as (ev & H1 & _ & _ & _ & _ & _ & _ & H2).
  - vm_compute. reflexivity.
  - exists ev. split; [exact H1|exact H2].
Defined.

Definition login_seen : SeenIDs :=
  default (NewSeenIDs 10)
    (verify (Some (NewSeenIDs 10)) login_request login_options (1700000030 * second) (fun _ => true)).1.

Lemma login_once_witness :
  (verify (Some (uses login_seen [(bs "other", 0, 1700000040 * second)])) login_request login_options
     (1700000050 * second) (fun _ => true)).2 <> Ok sample_key.
Proof.
  apply (login_once (NewSeenIDs 10) login_seen [(bs "other", 0, 1700000040 * second)] login_request login_request
    login_options login_options (1700000030 * second) (1700000050 * second) (fun _ => true) (fun _ => true)
    login_event sample_key).
  - vm_compute. discriminate.
  - vm_compute. reflexivity.
  - vm_compute. reflexivity.
  - vm_compute. reflexivity.
  - constructor; [|constructor]. unfold second. cbn. lia.
  - lia.
Defined.

Lemma login_accepted_witness :
  exists pk, GetPublicKey sample_key = Ok pk /\
    VerifyAnyPubkey None login_request login_options (1700000030 * second) = (None, Ok pk).
Proof.
  apply (login_accepted (repeat x05 16) 1700000000 (1700000030 * second) sample_key login_url (bs "POST")
    (Authorization login_request) (Some (bs "body")) login_request login_options toy_laws).
  - vm_compute. split; discriminate.
  - vm_compute. reflexivity.
  - vm_compute. reflexivity.
  - vm_compute. discriminate.
  - vm_compute. discriminate.
  - reflexivity.
  - reflexivity.
  - vm_compute. reflexivity.
  - intros H. exfalso. apply H. reflexivity.
  - reflexivity.
  - intros _. eexists. reflexivity.
  - vm_compute. discriminate.
Defined.
