(* ===== verification/Nip19.v ===== *)
(** * nip19: bech32 entities

    [nip19/nip19.go] and [nip19/pubkey.go]: TLV records, the nprofile, nevent and
    naddr pointers, and reading a public key from user input.  The bech32
    library is outside the repository and stays a parameter ([Bech32]). *)

From S2P Require Import Prelude GoLib Sha256 NostrUtils Pow Event.

Definition tlvSpecial : byte := x00.
Definition tlvRelay : byte := x01.
Definition tlvAuthor : byte := x02.
Definition tlvKind : byte := x03.

Inductive N19Err :=
  | ErrTLVTooLong | ErrBech32 | ErrPrefix | ErrConvert | ErrHex | ErrShort | ErrUnknownTag | ErrNotHex
  | ErrKeySize19 | ErrIDSize | ErrAuthorSize | ErrNoKey | ErrNoID | ErrNoIdentifier | ErrNoAuthor | ErrNoKind
  | ErrPrivateKey | ErrBadKey.

(** chainutil/bech32: ConvertBits in both directions, Encode and DecodeNoLimit. *)
Class Bech32 := {
  to5 : list byte -> option (list byte);
  from5 : list byte -> option (list byte);
  BechEncode : gostring -> list byte -> option gostring;
  BechDecodeNoLimit : gostring -> option (gostring * list byte);
}.

(** Regrouping succeeds and is undone; a lower-case human-readable part of
    letters and the groups survive the encoding, whose text is that part, "1"
    and characters of a lower-case alphanumeric alphabet, at least the six of
    the checksum. *)
Definition alnum (c : byte) : bool := (48 <=? b2z c) && (b2z c <=? 57) || (97 <=? b2z c) && (b2z c <=? 122).

Record Bech32Laws `{!Bech32} : Prop := {
  from5_to5 : forall d, exists b, to5 d = Some b /\ from5 b = Some d;
  decode_encode : forall hrp d b, to5 d = Some b -> Forall (fun c => 97 <= b2z c <= 122) hrp -> hrp <> [] ->
    exists s, BechEncode hrp b = Some s /\ BechDecodeNoLimit s = Some (hrp, b);
  encode_shape : forall hrp d b s, to5 d = Some b -> BechEncode hrp b = Some s ->
    exists t c, s = hrp ++ x31 :: t ++ [c] /\ forallb alnum (t ++ [c]) = true;
}.

(** ** TLV *)

Definition tlvEntry : Type := byte * list byte.

Fixpoint encodeTLVEntries (entries : list tlvEntry) : outcome N19Err (list byte) :=
  match entries with
  | [] => Ok []
  | (typ, value) :: entries =>
      if 255 <? zlen value then Err ErrTLVTooLong
      else rest ← encodeTLVEntries entries; Ok (typ :: z2b (zlen value) :: value ++ rest)
  end.

Abbreviation tlvMap := (gmap byte (list (list byte))).

(** [m[t] = append(m[t], v)] *)
Definition tlv_add (m : tlvMap) (e : tlvEntry) : tlvMap := <[e.1 := default [] (m !! e.1) ++ [e.2]]> m.

(** The loop, on what is left of the data; every round consumes two bytes. *)
Fixpoint tlv_loop (fuel : nat) (result : tlvMap) (data : list byte) : tlvMap :=
  match fuel with
  | O => result
  | S fuel =>
      match data with
      | t :: l :: rest =>
          if zlen rest <? b2z l then result
          else tlv_loop fuel (tlv_add result (t, take (Z.to_nat (b2z l)) rest)) (drop (Z.to_nat (b2z l)) rest)
      | _ => result
      end
  end.

Definition decodeTLVEntries (data : list byte) : tlvMap := tlv_loop (length data) ∅ data.

(** [m[t]], nil for none. *)
Definition tlv_get (m : tlvMap) (t : byte) : list (list byte) := default [] (m !! t).

Section Nip19.
Context {B : Bech32}.

Definition of_option {A} (m : option A) (e : N19Err) : outcome N19Err A :=
  match m with Some a => Ok a | None => Err e end.

Definition encodeBech32Bytes (prefix : gostring) (data : list byte) : outcome N19Err gostring :=
  bits5 ← of_option (to5 data) ErrConvert;
  of_option (BechEncode prefix bits5) ErrBech32.

Definition decodeBech32Bytes (bech32string wantPrefix : gostring) : outcome N19Err (list byte) :=
  '(prefix, bits5) ← of_option (BechDecodeNoLimit bech32string) ErrBech32;
  _ ← ensure (bool_decide (prefix = wantPrefix)) ErrPrefix;
  of_option (from5 bits5) ErrConvert.

Definition CheckPublicKey (publicKeyHex : gostring) : outcome N19Err unit :=
  _ ← of_option (Hex.decode publicKeyHex) ErrHex; Ok tt.

(** The [any] of Decode. *)
Inductive decoded := HexValue (s : gostring) | RawData (d : list byte).

Definition Decode (bech32string : gostring) : outcome N19Err (gostring * decoded) :=
  '(prefix, bits5) ← of_option (BechDecodeNoLimit bech32string) ErrBech32;
  data ← of_option (from5 bits5) ErrConvert;
  if decide (prefix = bs "npub" \/ prefix = bs "nsec" \/ prefix = bs "note") then
    _ ← ensure (negb (zlen data <? 32)) ErrShort;
    Ok (prefix, HexValue (Hex.encode (take 32 data)))
  else if decide (prefix = bs "nprofile" \/ prefix = bs "nevent" \/ prefix = bs "naddr") then
    Ok (prefix, RawData data)
  else Err ErrUnknownTag.

Definition decodeSimple (wantPrefix bech32string : gostring) : outcome N19Err gostring :=
  '(prefix, value) ← Decode bech32string;
  _ ← ensure (bool_decide (prefix = wantPrefix)) ErrPrefix;
  match value with HexValue s => Ok s | RawData _ => Err ErrNotHex end.

Definition DecodePublicKey (npub : gostring) : outcome N19Err gostring := decodeSimple (bs "npub") npub.
Definition DecodePrivateKey (nsec : gostring) : outcome N19Err gostring := decodeSimple (bs "nsec") nsec.
Definition DecodeNote (note : gostring) : outcome N19Err gostring := decodeSimple (bs "note") note.

(** A 32-byte hex field. *)
Definition hex32 (s : gostring) (size_err : N19Err) : outcome N19Err (list byte) :=
  b ← of_option (Hex.decode s) ErrHex;
  _ ← ensure (zlen b =? 32) size_err;
  Ok b.

Definition relay_entries (relays : list gostring) : list tlvEntry := map (fun r => (tlvRelay, r)) relays.

(** ** nprofile *)

Record ProfilePointer := mkProfile { ppPublicKey : gostring; ppRelays : list gostring }.

Definition EncodeProfile (publicKeyHex : gostring) (relays : list gostring) : outcome N19Err gostring :=
  pk ← hex32 publicKeyHex ErrKeySize19;
  data ← encodeTLVEntries ((tlvSpecial, pk) :: relay_entries relays);
  encodeBech32Bytes (bs "nprofile") data.

Definition DecodeProfile (bech32string : gostring) : outcome N19Err ProfilePointer :=
  data ← decodeBech32Bytes bech32string (bs "nprofile");
  let tlv := decodeTLVEntries data in
  match tlv_get tlv tlvSpecial with
  | [pk] => if zlen pk =? 32 then Ok (mkProfile (Hex.encode pk) (tlv_get tlv tlvRelay)) else Err ErrNoKey
  | _ => Err ErrNoKey
  end.

Definition DecodeNprofile (bech32string : gostring) : outcome N19Err gostring :=
  pointer ← DecodeProfile bech32string; Ok (ppPublicKey pointer).

(** ** nevent *)

Record EventPointer := mkEventPointer {
  epID : gostring; epRelays : list gostring; epAuthor : gostring; epKind : Z;
}.

Definition EncodeEvent (p : EventPointer) : outcome N19Err gostring :=
  id ← hex32 (epID p) ErrIDSize;
  author ← (if decide (epAuthor p = []) then Ok []
            else a ← hex32 (epAuthor p) ErrAuthorSize; Ok [(tlvAuthor, a)]);
  let kind := if epKind p =? 0 then [] else [(tlvKind, BE.put32 (u32 (epKind p)))] in
  data ← encodeTLVEntries ((tlvSpecial, id) :: relay_entries (epRelays p) ++ author ++ kind);
  encodeBech32Bytes (bs "nevent") data.

Definition DecodeEvent (bech32string : gostring) : outcome N19Err EventPointer :=
  data ← decodeBech32Bytes bech32string (bs "nevent");
  let tlv := decodeTLVEntries data in
  match tlv_get tlv tlvSpecial with
  | [id] =>
      if zlen id =? 32 then
        let author := match tlv_get tlv tlvAuthor with
                      | [a] => if zlen a =? 32 then Hex.encode a else []
                      | _ => []
                      end in
        let kind := match tlv_get tlv tlvKind with
                    | [k] => if zlen k =? 4 then BE.get32 k else 0
                    | _ => 0
                    end in
        Ok (mkEventPointer (Hex.encode id) (tlv_get tlv tlvRelay) author kind)
      else Err ErrNoID
  | _ => Err ErrNoID
  end.

(** ** naddr *)

Record EntityPointer := mkEntity {
  enIdentifier : gostring; enPublicKey : gostring; enKind : Z; enRelays : list gostring;
}.

Definition EncodeAddr (p : EntityPointer) : outcome N19Err gostring :=
  pk ← hex32 (enPublicKey p) ErrKeySize19;
  data ← encodeTLVEntries ((tlvSpecial, enIdentifier p) :: relay_entries (enRelays p) ++
                           [(tlvAuthor, pk); (tlvKind, BE.put32 (u32 (enKind p)))]);
  encodeBech32Bytes (bs "naddr") data.

Definition DecodeAddr (bech32string : gostring) : outcome N19Err EntityPointer :=
  data ← decodeBech32Bytes bech32string (bs "naddr");
  let tlv := decodeTLVEntries data in
  match tlv_get tlv tlvSpecial with
  | [ident] =>
      match tlv_get tlv tlvAuthor with
      | [a] =>
          if zlen a =? 32 then
            match tlv_get tlv tlvKind with
            | [k] => if zlen k =? 4 then Ok (mkEntity ident (Hex.encode a) (BE.get32 k) (tlv_get tlv tlvRelay))
                     else Err ErrNoKind
            | _ => Err ErrNoKind
            end
          else Err ErrNoAuthor
      | _ => Err ErrNoAuthor
      end
  | _ => Err ErrNoIdentifier
  end.

(** ** Keys and notes *)

Definition encodeSimple (prefix hexStr : gostring) : outcome N19Err gostring :=
  b ← of_option (Hex.decode hexStr) ErrHex; encodeBech32Bytes prefix b.

Definition EncodePrivateKey (privateKeyHex : gostring) : outcome N19Err gostring := encodeSimple (bs "nsec") privateKeyHex.
Definition EncodePublicKey (publicKeyHex : gostring) : outcome N19Err gostring := encodeSimple (bs "npub") publicKeyHex.
Definition EncodeNote (eventIDHex : gostring) : outcome N19Err gostring := encodeSimple (bs "note") eventIDHex.

Definition starts_with (p s : gostring) : bool := bool_decide (take (length p) s = p).

Definition NormalizeToHex (input : gostring) : gostring :=
  let input := TrimSpace input in
  if starts_with (bs "nsec") input || starts_with (bs "npub") input || starts_with (bs "note") input then
    match Decode input with Ok (_, HexValue s) => s | _ => input end
  else if starts_with (bs "nprofile") input then
    match DecodeNprofile input with Ok pk => pk | _ => input end
  else if starts_with (bs "nevent") input then
    match DecodeEvent input with Ok ev => epID ev | _ => input end
  else input.

Definition ParsePublicKey `{!GoLower, !Schnorr} (input : gostring) : outcome N19Err gostring :=
  let input := TrimSpace input in
  let lower := ToLower input in
  if starts_with (bs "nsec1") lower then Err ErrPrivateKey
  else
    key ← (if starts_with (bs "npub1") lower then decodeBech32Bytes input (bs "npub")
           else if starts_with (bs "nprofile1") lower then
             p ← DecodeProfile input; of_option (Hex.decode (ppPublicKey p)) ErrHex
           else if negb (zlen input =? 64) then Err ErrKeySize19
           else of_option (Hex.decode input) ErrHex);
    _ ← ensure (zlen key =? 32) ErrKeySize19;
    _ ← of_option (ParsePubKey key) ErrBadKey;
    Ok (Hex.encode key).

End Nip19.

(** ** TLV, proved *)

Lemma tlv_loop_encode es d m fuel :
  encodeTLVEntries es = Ok d -> (length d <= fuel)%nat -> tlv_loop fuel m d = foldl tlv_add m es.
Proof.
  revert d m fuel. induction es as [|[t v] es IH]; intros d m fuel; cbn [encodeTLVEntries foldl].
  { intros [= <-] _. by destruct fuel. }
  destruct (Z.ltb_spec 255 (zlen v)) as [|Hv]; [done|]. intros HE Hf. inv_ok.
  destruct fuel as [|fuel]; [cbn in Hf; lia|]. cbn [tlv_loop length] in *. pose proof (zlen_nonneg v).
  rewrite b2z_z2b, Z.mod_small by lia.
  rewrite (proj2 (Z.ltb_ge _ _)) by (rewrite zlen_app; pose proof (zlen_nonneg a); lia).
  replace (Z.to_nat (zlen v)) with (length v) by (unfold zlen; lia).
  rewrite take_length_app, drop_length_app. apply IH; [done|]. rewrite length_app in Hf. lia.
Qed.

Definition values_of (t : byte) (es : list tlvEntry) : list (list byte) :=
  map snd (List.filter (fun e => bool_decide (e.1 = t)) es).

Lemma tlv_get_add m es t : tlv_get (foldl tlv_add m es) t = tlv_get m t ++ values_of t es.
Proof.
  unfold values_of. revert m. induction es as [|[u v] es IH]; intros m; cbn [foldl List.filter map].
  - by rewrite app_nil_r.
  - rewrite IH. unfold tlv_get, tlv_add. cbn [fst snd]. destruct (decide (u = t)) as [->|Hne].
    + rewrite lookup_insert_eq, bool_decide_true by done. cbn. by rewrite <- app_assoc.
    + rewrite lookup_insert_ne, bool_decide_false by done. done.
Qed.

Lemma decodeTLV_encode es d t :
  encodeTLVEntries es = Ok d -> tlv_get (decodeTLVEntries d) t = values_of t es.
Proof.
  intros HE. unfold decodeTLVEntries. rewrite (tlv_loop_encode es) by done. rewrite tlv_get_add. done.
Qed.

Lemma values_of_app t l k : values_of t (l ++ k) = values_of t l ++ values_of t k.
Proof. unfold values_of. by rewrite List.filter_app, map_app. Qed.

Lemma values_of_relays t rs : values_of t (relay_entries rs) = if decide (t = tlvRelay) then rs else [].
Proof.
  unfold values_of, relay_entries. induction rs as [|r rs IH]; cbn; [by destruct (decide _)|].
  destruct (decide (t = tlvRelay)) as [->|Hne].
  - rewrite bool_decide_true by done. cbn. by rewrite IH.
  - rewrite bool_decide_false by congruence. done.
Qed.

Lemma hex32_Ok s e b : hex32 s e = Ok b -> Hex.encode b = map lower_byte s /\ zlen b = 32.
Proof.
  unfold hex32. intros HE. inv_ok. destruct (Hex.decode s) as [b'|] eqn:ED; [|done]. cbn in E. injection E as <-.
  apply Z.eqb_eq in E0. split; [by apply encode_lower|done].
Qed.

Lemma encode_alnum d : forallb alnum (Hex.encode d) = true.
Proof.
  rewrite (encode_lower (Hex.encode d) d (Hex.decode_encode d)). apply forallb_forall. intros c Hc.
  apply in_map_iff in Hc as (c' & <- & Hc). pose proof (encode_hex d) as HF. rewrite List.Forall_forall in HF.
  specialize (HF c' Hc). destruct c'; vm_compute in HF; (discriminate HF || reflexivity).
Qed.

Section Properties.
Context {B : Bech32}.

Lemma bech_roundtrip prefix d s :
  Bech32Laws -> Forall (fun c => 97 <= b2z c <= 122) prefix -> prefix <> [] ->
  encodeBech32Bytes prefix d = Ok s ->
  exists b, BechDecodeNoLimit s = Some (prefix, b) /\ from5 b = Some d /\ decodeBech32Bytes s prefix = Ok d.
Proof.
  intros HL Hp Hne HE. unfold encodeBech32Bytes in HE. destruct (from5_to5 HL d) as (b & Hb & Hf).
  rewrite Hb in HE. cbn in HE. destruct (decode_encode HL prefix d b Hb Hp Hne) as (s' & Hs & Hd).
  rewrite Hs in HE. cbn in HE. injection HE as ->. exists b. split; [done|]. split; [done|].
  unfold decodeBech32Bytes. rewrite Hd. cbn. rewrite bool_decide_true by done. cbn. by rewrite Hf.
Qed.

Ltac letters := repeat (apply Forall_cons; split; [vm_compute; split; discriminate|]); by apply Forall_nil.

(** The optional entries of an nevent. *)
Lemma author_values author es :
  (if decide (author = []) then Ok [] else a ← hex32 author ErrAuthorSize; Ok [(tlvAuthor, a)]) = Ok es ->
  values_of tlvSpecial es = [] /\ values_of tlvRelay es = [] /\ values_of tlvKind es = [] /\
  match values_of tlvAuthor es with [x] => if zlen x =? 32 then Hex.encode x else [] | _ => [] end
  = map lower_byte author.
Proof.
  destruct (decide (author = [])) as [->|Hne]; [by intros [= <-]|]. intros HE. inv_ok.
  apply hex32_Ok in E as [Ha Hl]. split_and!; [reflexivity..|]. change (values_of tlvAuthor [(tlvAuthor, a)]) with [a].
  cbv iota. by rewrite Hl, Ha.
Qed.

Lemma put32_len k : zlen (BE.put32 k) = 4.
Proof. done. Qed.

Lemma get32_kind k : 0 <= k < 2 ^ 32 -> BE.get32 (BE.put32 (u32 k)) = k.
Proof. intros Hk. rewrite wrap_small by done. rewrite <- (app_nil_r (BE.put32 k)). by apply BE.get32_put32. Qed.

Lemma kind_values k : 0 <= k < 2 ^ 32 ->
  let es := if k =? 0 then [] else [(tlvKind, BE.put32 (u32 k))] in
  values_of tlvSpecial es = [] /\ values_of tlvRelay es = [] /\ values_of tlvAuthor es = [] /\
  match values_of tlvKind es with [x] => if zlen x =? 4 then BE.get32 x else 0 | _ => 0 end = k.
Proof.
  intros Hk. destruct (Z.eqb_spec k 0) as [->|]; [done|]. cbv zeta. split_and!; [reflexivity..|].
  change (values_of tlvKind [(tlvKind, ?x)]) with [x]. cbv iota. rewrite put32_len. by apply get32_kind.
Qed.

Lemma profile_roundtrip pk relays s :
  Bech32Laws -> EncodeProfile pk relays = Ok s -> DecodeProfile s = Ok (mkProfile (map lower_byte pk) relays).
Proof.
  intros HL HE. unfold EncodeProfile in HE. inv_ok. apply hex32_Ok in E as [Hpk H32].
  apply bech_roundtrip in HE as (b & _ & _ & HD); [|done|letters|done].
  unfold DecodeProfile. rewrite HD. cbn [mbind outcome_bind].
  rewrite !(decodeTLV_encode _ _ _ E0). change ((tlvSpecial, a) :: ?l) with ([(tlvSpecial, a)] ++ l).
  rewrite !values_of_app, !values_of_relays. change (values_of tlvSpecial [(tlvSpecial, a)]) with [a].
  change (values_of tlvRelay [(tlvSpecial, a)]) with (@nil (list byte)).
  rewrite (decide_False (P := tlvSpecial = tlvRelay)), (decide_True (P := tlvRelay = tlvRelay)) by done. cbn [app]. cbv iota. by rewrite H32, Hpk, ?app_nil_r.
Qed.

Lemma event_roundtrip p s :
  Bech32Laws -> EncodeEvent p = Ok s -> 0 <= epKind p < 2 ^ 32 ->
  DecodeEvent s = Ok (mkEventPointer (map lower_byte (epID p)) (epRelays p) (map lower_byte (epAuthor p)) (epKind p)).
Proof.
  intros HL HE Hk. unfold EncodeEvent in HE. inv_ok. apply hex32_Ok in E as [Hid H32].
  apply bech_roundtrip in HE as (b & _ & _ & HD); [|done|letters|done].
  unfold DecodeEvent. rewrite HD. cbn [mbind outcome_bind].
  rewrite !(decodeTLV_encode _ _ _ E1). change ((tlvSpecial, a) :: ?l) with ([(tlvSpecial, a)] ++ l).
  rewrite !values_of_app, !values_of_relays.
  destruct (author_values _ _ E0) as (A1 & A2 & A3 & A4). destruct (kind_values _ Hk) as (K1 & K2 & K3 & K4).
  rewrite A1, A2, A3, K1, K2, K3, !app_nil_r.
  change (values_of tlvSpecial [(tlvSpecial, a)]) with [a]. change (values_of tlvRelay [(tlvSpecial, a)]) with (@nil (list byte)).
  change (values_of tlvAuthor [(tlvSpecial, a)]) with (@nil (list byte)).
  change (values_of tlvKind [(tlvSpecial, a)]) with (@nil (list byte)).
  rewrite ?(decide_False (P := tlvSpecial = tlvRelay)), ?(decide_False (P := tlvAuthor = tlvRelay)),
    ?(decide_False (P := tlvKind = tlvRelay)), ?(decide_True (P := tlvRelay = tlvRelay)) by done.
  cbn [app]. cbv iota. rewrite H32. change (32 =? 32) with true. cbv iota. by rewrite A4, K4, Hid.
Qed.

Lemma addr_roundtrip p s :
  Bech32Laws -> EncodeAddr p = Ok s -> 0 <= enKind p < 2 ^ 32 ->
  DecodeAddr s = Ok (mkEntity (enIdentifier p) (map lower_byte (enPublicKey p)) (enKind p) (enRelays p)).
Proof.
  intros HL HE Hk. unfold EncodeAddr in HE. inv_ok. apply hex32_Ok in E as [Hpk H32].
  apply bech_roundtrip in HE as (b & _ & _ & HD); [|done|letters|done].
  unfold DecodeAddr. rewrite HD. cbn [mbind outcome_bind]. rewrite !(decodeTLV_encode _ _ _ E0).
  set (k := BE.put32 (u32 (enKind p))).
  assert (HV : forall t, values_of t ((tlvSpecial, enIdentifier p) :: relay_entries (enRelays p) ++ [(tlvAuthor, a); (tlvKind, k)])
    = values_of t [(tlvSpecial, enIdentifier p)] ++ (if decide (t = tlvRelay) then enRelays p else []) ++
      values_of t [(tlvAuthor, a); (tlvKind, k)]).
  { intros t. etransitivity; [apply (values_of_app t [(tlvSpecial, enIdentifier p)])|].
    by rewrite values_of_app, values_of_relays. }
  rewrite !HV. rewrite ?(decide_False (P := tlvSpecial = tlvRelay)), ?(decide_False (P := tlvAuthor = tlvRelay)),
    ?(decide_False (P := tlvKind = tlvRelay)), ?(decide_True (P := tlvRelay = tlvRelay)) by done.
  change (values_of tlvSpecial _ ++ _) with [enIdentifier p].
  change (values_of tlvAuthor [(tlvSpecial, enIdentifier p)] ++ _) with [a].
  change (values_of tlvKind [(tlvSpecial, enIdentifier p)] ++ _) with [k].
  change (values_of tlvRelay [(tlvSpecial, enIdentifier p)]) with (@nil (list byte)).
  change (values_of tlvRelay [(tlvAuthor, a); (tlvKind, k)]) with (@nil (list byte)).
  cbv iota. rewrite H32. change (32 =? 32) with true. cbv iota. unfold k at 1. rewrite put32_len. change (4 =? 4) with true.
  cbv iota. unfold k. rewrite get32_kind by done. cbn [app]. by rewrite app_nil_r, Hpk.
Qed.

(** shareable pointers survive their encoding: an nprofile, nevent or naddr
    that encodes decodes to the same pointer, keys and ids in lower case, the
    relay hints in order, the optional author and kind present exactly when
    they were given. *)
Theorem pointer_roundtrip (HL : Bech32Laws) :
  (forall pk relays s, EncodeProfile pk relays = Ok s -> DecodeProfile s = Ok (mkProfile (map lower_byte pk) relays)) /\
  (forall p s, EncodeEvent p = Ok s -> 0 <= epKind p < 2 ^ 32 ->
     DecodeEvent s = Ok (mkEventPointer (map lower_byte (epID p)) (epRelays p) (map lower_byte (epAuthor p)) (epKind p))) /\
  (forall p s, EncodeAddr p = Ok s -> 0 <= enKind p < 2 ^ 32 ->
     DecodeAddr s = Ok (mkEntity (enIdentifier p) (map lower_byte (enPublicKey p)) (enKind p) (enRelays p))).
Proof. split_and!; intros *; [by apply profile_roundtrip|by apply event_roundtrip|by apply addr_roundtrip]. Qed.

(** a bare key or note survives its encoding when it is 32 bytes; the encoder
    takes any length, and what is longer comes back cut to its first 32 bytes,
    what is shorter is refused. *)
Theorem npub_roundtrip (HL : Bech32Laws) (h s : gostring) (HE : EncodePublicKey h = Ok s) :
  exists b, Hex.decode h = Some b /\
    DecodePublicKey s = if zlen b <? 32 then Err ErrShort else Ok (take 64 (map lower_byte h)).
Proof.
  unfold EncodePublicKey, encodeSimple in HE. inv_ok. destruct (Hex.decode h) as [b|] eqn:ED; [|done].
  cbn in E. injection E as <-. exists b. split; [done|].
  apply bech_roundtrip in HE as (c & Hd & Hf & _); [|done|letters|done].
  unfold DecodePublicKey, decodeSimple, Decode. rewrite Hd. cbn [of_option mbind outcome_bind]. rewrite Hf.
  cbn [of_option mbind outcome_bind]. rewrite decide_True by (by left).
  destruct (Z.ltb_spec (zlen b) 32) as [|Hl]; cbn; [done|]. rewrite bool_decide_true by done. cbn. f_equal.
  rewrite <- (encode_lower h b) by done. rewrite <- (take_drop 32 b) at 2. unfold Hex.encode.
  rewrite flat_map_app. fold (Hex.encode (take 32 b)).
  replace 64%nat with (length (Hex.encode (take 32 b))).
  - by rewrite take_length_app.
  - rewrite Hex.length_encode, length_take. unfold zlen in Hl. lia.
Qed.

(** ** Keys from user input *)

Section Input.
Context {GoLower0 : GoLower} {Schnorr0 : Schnorr}.

(** ASCII letters and digits. *)
Definition plain (c : byte) : bool := alnum (lower_byte c).

Lemma plain_byte c : plain c = true -> Trim.solid c = true /\ b2z c < 128.
Proof. destruct c; intros HE; vm_compute in HE; (discriminate HE || (split; [reflexivity|vm_compute; reflexivity])). Qed.

Lemma alnum_lower c : alnum c = true -> lower_byte c = c.
Proof. destruct c; intros HE; vm_compute in HE; (discriminate HE || reflexivity). Qed.

Lemma hex_plain c : is_hex c = true -> plain c = true /\ lower_byte c <> x6e.
Proof. destruct c; intros HE; vm_compute in HE; (discriminate HE || done). Qed.

Lemma plain_lower s : forallb plain s = true -> ToLower s = map lower_byte s.
Proof.
  intros HF. apply ToLower_ascii, List.Forall_forall. intros c Hc. rewrite forallb_forall in HF.
  by apply plain_byte, HF.
Qed.

Lemma plain_trim us vs s :
  Forall (fun u => u ∈ Trim.spaces) us -> Forall (fun u => u ∈ Trim.spaces) vs ->
  forallb plain s = true -> s <> [] -> TrimSpace (concat us ++ s ++ concat vs) = s.
Proof.
  intros HU HV HF Hne. rewrite forallb_forall in HF. destruct s as [|c s]; [done|].
  destruct (exists_last Hne) as (m & d & HE).
  apply (Trim.TrimSpace_between us vs c d s m HU HV); [| |done]; apply plain_byte, HF; [by left|].
  rewrite HE. apply in_elt.
Qed.

Lemma alnum_text s : forallb alnum s = true -> forallb plain s = true /\ map lower_byte s = s.
Proof.
  intros HF. rewrite forallb_forall in HF. split.
  - apply forallb_forall. intros c Hc. unfold plain. rewrite alnum_lower by auto. auto.
  - rewrite <- (map_id s) at 2. apply map_ext_in. intros c Hc. by apply alnum_lower, HF.
Qed.

Lemma starts_with_app p s : starts_with p (p ++ s) = true.
Proof. unfold starts_with. apply bool_decide_eq_true. apply take_length_app. Qed.

(** The text of a bech32 encoding, as ParsePublicKey sees it. *)
Lemma encoded_text us vs hrp d s :
  Bech32Laws -> Forall (fun u => u ∈ Trim.spaces) us -> Forall (fun u => u ∈ Trim.spaces) vs ->
  forallb alnum hrp = true -> encodeBech32Bytes hrp d = Ok s ->
  TrimSpace (concat us ++ s ++ concat vs) = s /\ ToLower s = s /\ exists t, s = (hrp ++ [x31]) ++ t.
Proof.
  intros HL HU HV HA HE. unfold encodeBech32Bytes in HE. inv_ok.
  destruct (to5 d) as [b|] eqn:Eb; [|done]. cbn in E. injection E as <-.
  destruct (BechEncode hrp b) as [s'|] eqn:Es; [|done]. cbn in HE. injection HE as ->.
  destruct (encode_shape HL hrp d b s Eb Es) as (t & c & -> & Ht).
  assert (HF : forallb alnum (hrp ++ x31 :: t ++ [c]) = true).
  { rewrite forallb_app, HA. cbn [forallb]. by rewrite Ht. }
  destruct (alnum_text _ HF) as [HP HM]. split; [|split].
  - apply plain_trim; [done|done|done|]. by destruct hrp.
  - by rewrite plain_lower.
  - exists (t ++ [c]). by rewrite <- app_assoc.
Qed.

Lemma decode_is_hex h key : Hex.decode h = Some key -> Forall (fun c => is_hex c = true) h.
Proof.
  revert key. induction h as [h IH] using (induction_ltof1 _ (@length _)); unfold ltof in IH.
  destruct h as [|a [|b r]]; cbn; intros key H; simplify_eq; [done|].
  destruct (Hex.from_char a) eqn:Ea, (Hex.from_char b) eqn:Eb, (Hex.decode r) eqn:E; cbn in H; simplify_eq.
  apply IH in E; [|cbn; lia]. repeat (apply Forall_cons; split); [apply is_hex_from_char; by eexists..|done].
Qed.

(** No hex text is taken for a bech32 one. *)
Lemma hex_not_bech h p :
  Forall (fun c => is_hex c = true) h -> starts_with (x6e :: p) (map lower_byte h) = false.
Proof.
  intros HF. apply bool_decide_eq_false. destruct HF as [|c h Hc HF]; [done|]. cbn. intros [=].
  by apply hex_plain in Hc as [_ Hc].
Qed.

Definition between (ws ws' : list gostring) (s : gostring) : gostring := concat ws ++ s ++ concat ws'.

Section Reads.
Context (HL : Bech32Laws) (ws ws' : list gostring) (key : list byte) (pt : PublicKey).
Context (Hws : Forall (fun u => u ∈ Trim.spaces) ws) (Hws' : Forall (fun u => u ∈ Trim.spaces) ws').
Context (Hlen : zlen key = 32) (Hpt : ParsePubKey key = Some pt).

Lemma reads_hex h : Hex.decode h = Some key -> ParsePublicKey (between ws ws' h) = Ok (Hex.encode key).
Proof using Hlen Hpt Hws Hws'.
  intros HD. pose proof (decode_is_hex h key HD) as HH. pose proof (Hex.decode_length h key HD) as HL'.
  assert (HP : forallb plain h = true).
  { apply forallb_forall. rewrite List.Forall_forall in HH. intros c Hc. by apply hex_plain, HH. }
  unfold ParsePublicKey, between. rewrite plain_trim; [|done..|]; last first.
  { intros ->. unfold zlen in *. cbn in HL'. lia. }
  rewrite plain_lower by done. change (bs "nsec1") with (x6e :: bs "sec1").
  change (bs "npub1") with (x6e :: bs "pub1"). change (bs "nprofile1") with (x6e :: bs "profile1").
  rewrite !hex_not_bech by done.
  assert (H64 : zlen h = 64) by (unfold zlen in *; lia). rewrite H64, HD. cbn. by rewrite Hlen, Hpt.
Qed.

Lemma reads_npub s : EncodePublicKey (Hex.encode key) = Ok s -> ParsePublicKey (between ws ws' s) = Ok (Hex.encode key).
Proof using All.
  unfold EncodePublicKey, encodeSimple. rewrite Hex.decode_encode. cbn [of_option mbind outcome_bind]. intros HE.
  destruct (encoded_text ws ws' (bs "npub") _ _ HL Hws Hws' eq_refl HE) as (HT & HLo & t & Ht).
  apply bech_roundtrip in HE as (_ & _ & _ & HD); [|done|letters|done].
  unfold ParsePublicKey, between. rewrite HT, HLo.
  replace (starts_with (bs "nsec1") s) with false by (by rewrite Ht).
  replace (starts_with (bs "npub1") s) with true by (by rewrite Ht).
  rewrite HD. cbn. by rewrite Hlen, Hpt.
Qed.

Lemma reads_nprofile relays s :
  EncodeProfile (Hex.encode key) relays = Ok s -> ParsePublicKey (between ws ws' s) = Ok (Hex.encode key).
Proof using All.
  intros HE. pose proof (profile_roundtrip _ _ _ HL HE) as HD. unfold EncodeProfile in HE. inv_ok.
  destruct (encoded_text ws ws' (bs "nprofile") _ _ HL Hws Hws' eq_refl HE) as (HT & HLo & t & Ht).
  unfold ParsePublicKey, between. rewrite HT, HLo.
  replace (starts_with (bs "nsec1") s) with false by (by rewrite Ht).
  replace (starts_with (bs "npub1") s) with false by (by rewrite Ht).
  replace (starts_with (bs "nprofile1") s) with true by (by rewrite Ht).
  rewrite HD. cbn [mbind outcome_bind ppPublicKey].
  rewrite <- (encode_lower _ key), Hex.decode_encode by apply Hex.decode_encode. cbn. by rewrite Hlen, Hpt.
Qed.

End Reads.

Lemma refuses_nsec ws ws' k s :
  Bech32Laws -> Forall (fun u => u ∈ Trim.spaces) ws -> Forall (fun u => u ∈ Trim.spaces) ws' ->
  EncodePrivateKey k = Ok s -> ParsePublicKey (between ws ws' s) = Err ErrPrivateKey.
Proof.
  intros HL HU HV HE. unfold EncodePrivateKey, encodeSimple in HE. inv_ok.
  destruct (encoded_text ws ws' (bs "nsec") _ _ HL HU HV eq_refl HE) as (HT & HLo & t & Ht).
  unfold ParsePublicKey, between. rewrite HT, HLo. by replace (starts_with (bs "nsec1") s) with true by (by rewrite Ht).
Qed.

(** What ParsePublicKey accepts. *)
Lemma ParsePublicKey_Ok input h :
  ParsePublicKey input = Ok h ->
  exists key pt, zlen key = 32 /\ ParsePubKey key = Some pt /\ h = Hex.encode key.
Proof.
  unfold ParsePublicKey. case_scrutinee; [done|]. intros HE. apply bind_Ok in HE as (key & _ & HE). inv_ok.
  destruct (ParsePubKey key) as [pt|] eqn:EP; [|done]. exists key, pt. split; [by apply Z.eqb_eq|]. done.
Qed.

(** ParsePublicKey reads a key from hex, npub or nprofile text between any
    white space and answers its lower-case hex; it refuses every nsec with
    ErrPrivateKey; and whatever it accepts from any input is the hex of a
    32-byte curve point, which it reads again as itself. *)
Theorem ParsePublicKey_spec (HL : Bech32Laws) (ws ws' : list gostring)
    (Hws : Forall (fun u => u ∈ Trim.spaces) ws) (Hws' : Forall (fun u => u ∈ Trim.spaces) ws') :
  (forall key pt, zlen key = 32 -> ParsePubKey key = Some pt ->
     (forall h, Hex.decode h = Some key -> ParsePublicKey (between ws ws' h) = Ok (Hex.encode key)) /\
     (forall s, EncodePublicKey (Hex.encode key) = Ok s -> ParsePublicKey (between ws ws' s) = Ok (Hex.encode key)) /\
     (forall relays s, EncodeProfile (Hex.encode key) relays = Ok s ->
        ParsePublicKey (between ws ws' s) = Ok (Hex.encode key))) /\
  (forall k s, EncodePrivateKey k = Ok s -> ParsePublicKey (between ws ws' s) = Err ErrPrivateKey) /\
  (forall input h, ParsePublicKey input = Ok h ->
     exists key pt, zlen key = 32 /\ ParsePubKey key = Some pt /\ h = Hex.encode key /\ ParsePublicKey h = Ok h).
Proof.
  split_and!.
  - intros key pt Hl Hp. split_and!; intros *;
      [by eapply reads_hex|by eapply reads_npub|by eapply reads_nprofile].
  - intros k s. by apply refuses_nsec.
  - intros input h HE. apply ParsePublicKey_Ok in HE as (key & pt & Hl & Hp & ->). exists key, pt.
    split_and!; [done..|]. rewrite <- (app_nil_r (Hex.encode key)) at 1.
    apply (reads_hex [] [] key pt); [done..|]. apply Hex.decode_encode.
Qed.

End Input.

End Properties.

(** ** Witnesses *)

(** A stand-in that satisfies the laws of the bech32 library: the part before
    the first "1", the data in hex and a constant in place of the checksum. *)
#[local] Instance toy_bech : Bech32 := {|
  to5 d := Some (Hex.encode d);
  from5 b := Hex.decode b;
  BechEncode hrp b := Some (hrp ++ x31 :: b ++ [x71]);
  BechDecodeNoLimit s :=
    match split_on x31 s with
    | hrp :: _ => if (length hrp <? length s)%nat then Some (hrp, removelast (drop (length hrp + 1) s)) else None
    | [] => None
    end;
|}.

Lemma toy_bech_laws : Bech32Laws.
Proof.
  split.
  - intros d. exists (Hex.encode d). split; [done|]. apply Hex.decode_encode.
  - intros hrp d b [= <-] HF Hne. eexists. split; [reflexivity|]. cbn [BechDecodeNoLimit toy_bech].
    rewrite split_on_app.
    + rewrite length_app. cbn [length]. rewrite (proj2 (Nat.ltb_lt _ _)) by lia. do 2 f_equal.
      rewrite <- drop_drop, drop_length_app. cbn [drop]. apply removelast_last.
    + intros Hin. rewrite Forall_forall in HF. apply HF in Hin. vm_compute in Hin. by destruct Hin.
  - intros hrp d b s [= <-] [= <-]. exists (Hex.encode d), x71. split; [done|].
    rewrite forallb_app. cbn [forallb]. rewrite encode_alnum. reflexivity.
Qed.

Lemma pointer_roundtrip_witness :
  exists s, EncodeEvent (mkEventPointer (repeat x41 64) [bs "wss://r"] [] 1) = Ok s /\
    DecodeEvent s = Ok (mkEventPointer (repeat x61 64) [bs "wss://r"] [] 1).
Proof.
  eexists. split; [vm_compute; reflexivity|].
  destruct (pointer_roundtrip toy_bech_laws) as (_ & HE & _).
  apply (HE (mkEventPointer (repeat x41 64) [bs "wss://r"] [] 1)); [vm_compute; reflexivity|cbn; lia].
Defined.

(** A 33-byte (compressed) key comes back as another key. *)
Lemma npub_roundtrip_witness :
  let h := bs "02" ++ repeat x61 64 in
  exists s b, EncodePublicKey h = Ok s /\ Hex.decode h = Some b /\ DecodePublicKey s = Ok (bs "02" ++ repeat x61 62).
Proof.
  intros h. eexists. destruct (npub_roundtrip toy_bech_laws h _ ltac:(vm_compute; reflexivity)) as (b & Hb & HD).
  exists b. split; [vm_compute; reflexivity|]. split; [exact Hb|]. rewrite HD. vm_compute in Hb. injection Hb as <-.
  vm_compute. reflexivity.
Defined.

#[local] Existing Instance toy_schnorr.
#[local] Existing Instance ascii_lower.

Lemma ParsePublicKey_spec_witness :
  let key := repeat xab 32 in
  ParsePublicKey (concat [[xc2; xa0]] ++ repeat x41 64 ++ concat [[x0d]; [x0a]]) = Ok (Hex.encode (repeat xaa 32)) /\
  exists s, EncodePublicKey (Hex.encode key) = Ok s /\
    ParsePublicKey (concat [[xc2; xa0]] ++ s ++ concat [[x0d]; [x0a]]) = Ok (Hex.encode key).
Proof.
  intros key.
  destruct (ParsePublicKey_spec toy_bech_laws [[xc2; xa0]] [[x0d]; [x0a]]
    ltac:(apply (bool_decide_eq_true_1 _); vm_compute; reflexivity)
    ltac:(apply (bool_decide_eq_true_1 _); vm_compute; reflexivity)) as (HK & _ & _).
  split.
  - destruct (HK (repeat xaa 32) (repeat xaa 32) eq_refl eq_refl) as (HX & _). apply HX. vm_compute. reflexivity.
  - eexists. split; [vm_compute; reflexivity|]. destruct (HK key key eq_refl eq_refl) as (_ & HX & _).
    apply HX. vm_compute. reflexivity.
Defined.
