(* ===== verification/GroupsForest.v ===== *)
(** * The forest of subgroups

    Groups name a parent and list their children.  [forest]: the two agree, the
    parents lead to a root, and linked groups share their privacy.  The three
    operations that change links (a new root, an edit, a deletion) keep it, each
    as the map of links it leaves. *)

From S2P Require Import Prelude.

Record link := mkLink { lpar : gostring; lchi : list gostring; lpriv : bool }.
Abbreviation links_map := (gmap gostring link).

(** One step up, and being at or above a group. *)
Definition up (L : links_map) (x y : gostring) : Prop := exists l, L !! x = Some l /\ x <> [] /\ lpar l = y.
Definition above (L : links_map) (x y : gostring) : Prop := rtc (up L) x y.

Inductive rooted (L : links_map) : gostring -> Prop :=
  | rooted_top : rooted L []
  | rooted_up id l : L !! id = Some l -> rooted L (lpar l) -> rooted L id.

Record forest (L : links_map) : Prop := {
  f_ids : L !! [] = None;
  f_nodup : forall id l, L !! id = Some l -> NoDup (lchi l);
  f_down : forall id l x, L !! id = Some l -> x ∈ lchi l -> exists lx, L !! x = Some lx /\ lpar lx = id;
  f_up : forall id l, L !! id = Some l -> lpar l <> [] ->
    exists lp, L !! lpar l = Some lp /\ id ∈ lchi lp /\ lpriv lp = lpriv l;
  f_root : forall id l, L !! id = Some l -> rooted L id;
}.

Lemma forest_empty : forest ∅.
Proof. split; intros *; by rewrite lookup_empty. Qed.

Lemma up_det L x y z : up L x y -> up L x z -> y = z.
Proof. intros (l & Hl & _ & <-) (l' & Hl' & _ & <-). congruence. Qed.

Lemma rooted_mono L L' x :
  rooted L x ->
  (forall id l, above L x id -> L !! id = Some l -> id <> [] -> exists l', L' !! id = Some l' /\ lpar l' = lpar l) -> rooted L' x.
Proof.
  induction 1 as [|id l Hl HR IH]; intros HM; [constructor|]. destruct (decide (id = [])) as [->|Hne]; [constructor|].
  destruct (HM id l) as (l' & Hl' & HE); [constructor|done..|]. econstructor; [done|]. rewrite HE. apply IH.
  intros i li Ha Hi Hn. apply HM; [|done..]. eapply rtc_l; [|done]. by exists l.
Qed.

(** No group is above itself. *)
Lemma rooted_acyclic L x y : rooted L x -> up L x y -> ~ above L y x.
Proof.
  intros HR. revert y. induction HR as [|id l Hl HR IH]; intros y Hu Ha.
  { by destruct Hu as (_ & _ & ? & _). }
  assert (y = lpar l) as -> by (destruct Hu as (l' & Hl' & _ & <-); congruence).
  apply rtc_inv in Ha as [HE|(z & Hz & Ha)].
  - apply (IH (lpar l)); [by rewrite HE at 1|constructor].
  - apply (IH z Hz). eapply rtc_r; [done|]. done.
Qed.

(** A root without children is added. *)
Lemma add_root L id p :
  forest L -> L !! id = None -> id <> [] -> forest (<[id := mkLink [] [] p]> L).
Proof.
  intros HF HN Hid. split.
  - rewrite lookup_insert_ne by done. apply HF.
  - intros i l. rewrite lookup_insert_Some. intros [[_ <-]|[_ Hl]]; [constructor|by eapply f_nodup].
  - intros i l x. rewrite lookup_insert_Some. intros [[_ <-]|[_ Hl]] Hx; [by apply elem_of_nil in Hx|].
    destruct (f_down _ HF _ _ _ Hl Hx) as (lx & Hlx & HE). exists lx. rewrite lookup_insert_ne; [done|]. congruence.
  - intros i l. rewrite lookup_insert_Some. intros [[_ <-]|[Hne Hl]] Hp; [done|].
    destruct (f_up _ HF _ _ Hl Hp) as (lp & Hlp & HE). exists lp. rewrite lookup_insert_ne; [done|]. congruence.
  - intros i l. rewrite lookup_insert_Some. intros [[<- <-]|[Hne Hl]].
    + econstructor; [by rewrite lookup_insert_eq|constructor].
    + eapply rooted_mono; [by eapply f_root|]. intros j lj _ Hj _. exists lj. rewrite lookup_insert_ne; [done|]. congruence.
Qed.

(** ** An edit of one group *)

Definition drop_child (x : gostring) (cs : list gostring) : list gostring :=
  List.filter (fun id => negb (bool_decide (id = x))) cs.

Lemma drop_child_elem x y cs : y ∈ drop_child x cs <-> y ∈ cs /\ y <> x.
Proof. unfold drop_child. rewrite !list_elem_of_In, filter_In, negb_true_iff, bool_decide_eq_false. done. Qed.

Lemma drop_child_nodup x cs : NoDup cs -> NoDup (drop_child x cs).
Proof. rewrite !NoDup_ListNoDup. apply List.NoDup_filter. Qed.

(** What an edit of [G], from parent [oldp] to [newp], leaves of the links. *)
Definition edited (G newp : gostring) (chi' : list gostring) (priv : bool) (oldp : gostring) (L : links_map) : links_map :=
  map_imap (fun id l =>
    if bool_decide (id = G) then Some (mkLink newp chi' priv)
    else if bool_decide (newp = oldp) then Some l
    else if bool_decide (id = oldp) then Some (mkLink (lpar l) (drop_child G (lchi l)) (lpriv l))
    else if bool_decide (id = newp) then Some (mkLink (lpar l) (lchi l ++ [G]) (lpriv l))
    else Some l) L.

Record edit_ok (L : links_map) (G newp : gostring) (chi' : list gostring) (priv : bool) (lG : link) : Prop := {
  e_G : L !! G = Some lG;
  e_chi : chi' ≡ₚ lchi lG;
  e_parent : newp <> lpar lG -> newp <> [] ->
    newp <> G /\ ~ above L newp G /\ exists lp, L !! newp = Some lp /\ lpriv lp = priv;
  e_same : newp = lpar lG -> newp <> [] -> priv <> lpriv lG -> exists lp, L !! newp = Some lp /\ lpriv lp = priv;
  e_priv : priv <> lpriv lG -> forall x lx, x ∈ lchi lG -> L !! x = Some lx -> lpriv lx = priv;
}.

Section Edit.
Context (L : links_map) (HF : forest L) (G newp : gostring) (chi' : list gostring) (priv : bool) (lG : link).
Context (HE : edit_ok L G newp chi' priv lG).
#[local] Set Default Proof Using "All".

Let L' := edited G newp chi' priv (lpar lG) L.

Lemma G_nonempty : G <> [].
Proof. intros ->. pose proof (e_G _ _ _ _ _ _ HE) as H. by rewrite (f_ids _ HF) in H. Qed.

(** G is not its own parent. *)
Lemma parent_not_G : lpar lG <> G.
Proof.
  intros HP. apply (rooted_acyclic L G G); [eapply f_root; [done|apply HE]| |constructor].
  exists lG. split; [apply HE|]. split; [apply G_nonempty|done].
Qed.

(** Every group but G keeps its parent and privacy; and its children, but for
    G, which moves from the old parent to the new. *)
Lemma edited_other id l : id <> G -> L !! id = Some l -> exists l', L' !! id = Some l' /\ lpar l' = lpar l /\ lpriv l' = lpriv l /\
  (forall x, x <> G -> x ∈ lchi l' <-> x ∈ lchi l) /\ (NoDup (lchi l) -> NoDup (lchi l')) /\
  (G ∈ lchi l' <-> newp = id).
Proof.
  intros Hne Hl. unfold L', edited. rewrite map_lookup_imap, Hl. cbn [mbind option_bind]. rewrite (bool_decide_eq_false_2 (id = G)) by done.
  assert (HG : G ∈ lchi l <-> lpar lG = id).
  { split; intros H.
    - destruct (f_down _ HF _ _ _ Hl H) as (lx & Hlx & <-). pose proof (e_G _ _ _ _ _ _ HE). congruence.
    - subst id. destruct (decide (lpar lG = [])) as [E|E]; [rewrite E, (f_ids _ HF) in Hl; done|].
      destruct (f_up _ HF _ _ (e_G _ _ _ _ _ _ HE) E) as (lp & Hlp & Hin & _). congruence. }
  case_bool_decide as E1.
  { exists l. split_and!; try done. rewrite HG. by rewrite E1. }
  case_bool_decide as E2.
  { subst id. eexists. split; [done|]. cbn. split_and!; try done.
    - intros x Hx. rewrite drop_child_elem. tauto.
    - apply drop_child_nodup.
    - rewrite drop_child_elem. split; [tauto|]. done. }
  case_bool_decide as E3.
  { subst id. eexists. split; [done|]. cbn. split_and!; try done.
    - intros x Hx. rewrite elem_of_app, list_elem_of_singleton. tauto.
    - intros HN. apply NoDup_app. split_and!; [done| |apply NoDup_singleton]. intros x Hx ->%list_elem_of_singleton.
      apply HG in Hx. congruence.
    - rewrite elem_of_app, list_elem_of_singleton. tauto. }
  exists l. split_and!; try done. rewrite HG. split; congruence.
Qed.

Lemma edited_G : L' !! G = Some (mkLink newp chi' priv).
Proof. unfold L', edited. rewrite map_lookup_imap, (e_G _ _ _ _ _ _ HE). cbn. by rewrite bool_decide_eq_true_2. Qed.

Lemma edited_inv id l' : L' !! id = Some l' ->
  (id = G /\ l' = mkLink newp chi' priv) \/ (id <> G /\ exists l, L !! id = Some l).
Proof.
  intros Hl. destruct (decide (id = G)) as [->|Hne]; [left; rewrite edited_G in Hl; split; congruence|]. right. split; [done|].
  unfold L', edited in Hl. rewrite map_lookup_imap in Hl. destruct (L !! id) as [l|]; [by eexists|done].
Qed.

Lemma edited_rooted id l : L !! id = Some l -> rooted L' id.
Proof.
  intros Hl. assert (HN : rooted L' newp).
  { destruct (decide (newp = [])) as [->|Hn]; [constructor|].
    assert (Ha : ~ above L newp G).
    { destruct (decide (newp = lpar lG)) as [E|E]; [|by apply (e_parent _ _ _ _ _ _ HE E Hn)].
      rewrite E. eapply rooted_acyclic; [eapply f_root; [done|apply HE]|]. exists lG. split; [apply HE|]. split; [apply G_nonempty|done]. }
    assert (HLn : exists ln, L !! newp = Some ln).
    { destruct (decide (newp = lpar lG)) as [E|E].
      - destruct (f_up _ HF G lG) as (lp & Hlp & _); [apply HE|congruence|]. exists lp. by rewrite E.
      - destruct (e_parent _ _ _ _ _ _ HE E Hn) as (_ & _ & lp & Hlp & _). by exists lp. }
    destruct HLn as [ln Hln]. eapply rooted_mono; [by eapply f_root|]. intros j lj Haj Hj _.
    destruct (edited_other j lj) as (l' & Hl' & HP & _); [by intros ->|done|]. by exists l'. }
  assert (HG : rooted L' G) by (econstructor; [apply edited_G|done]).
  pose proof (f_root _ HF _ _ Hl) as HR. clear Hl l. induction HR as [|id l Hl _ IH]; [constructor|].
  destruct (decide (id = G)) as [->|Hne]; [done|]. destruct (edited_other id l Hne Hl) as (l' & Hl' & HP & _).
  econstructor; [done|]. by rewrite HP.
Qed.

Lemma edited_forest : forest L'.
Proof.
  split.
  - unfold L', edited. rewrite map_lookup_imap. by rewrite (f_ids _ HF).
  - intros id l' Hl'. apply edited_inv in Hl' as H. destruct H as [[-> ->]|(Hne & l & Hl)].
    + cbn. rewrite (e_chi _ _ _ _ _ _ HE). eapply f_nodup; [done|apply HE].
    + destruct (edited_other id l Hne Hl) as (l2 & Hl2 & _ & _ & _ & HN & _). assert (l2 = l') as -> by congruence.
      apply HN. by eapply f_nodup.
  - intros id l' x Hl' Hx. destruct (decide (x = G)) as [->|HxG].
    + exists (mkLink newp chi' priv). split; [apply edited_G|]. apply edited_inv in Hl' as H. destruct H as [[-> ->]|(Hne & l & Hl)].
      * cbn in Hx. rewrite (e_chi _ _ _ _ _ _ HE) in Hx. destruct (f_down _ HF _ _ _ (e_G _ _ _ _ _ _ HE) Hx) as (lx & Hlx & HP).
        exfalso. apply parent_not_G. pose proof (e_G _ _ _ _ _ _ HE). congruence.
      * destruct (edited_other id l Hne Hl) as (l2 & Hl2 & _ & _ & _ & _ & HG). assert (l2 = l') as -> by congruence. by apply HG.
    + assert (HX : exists lx, L !! x = Some lx /\ lpar lx = id).
      { apply edited_inv in Hl' as H. destruct H as [[-> ->]|(Hne & l & Hl)].
        - cbn in Hx. rewrite (e_chi _ _ _ _ _ _ HE) in Hx. eapply f_down; [done|apply HE|done].
        - destruct (edited_other id l Hne Hl) as (l2 & Hl2 & _ & _ & HC & _ & _). assert (l2 = l') as -> by congruence.
          eapply f_down; [done..|]. by apply HC. }
      destruct HX as (lx & Hlx & HP). destruct (edited_other x lx HxG Hlx) as (l2 & Hl2 & HP2 & _). exists l2. split; [done|congruence].
  - intros id l' Hl' Hp. apply edited_inv in Hl' as H. destruct H as [[-> ->]|(Hne & l & Hl)].
    + cbn in Hp |- *. assert (HQ : newp <> G /\ exists lp, L !! newp = Some lp /\ lpriv lp = priv).
      { destruct (decide (newp = lpar lG)) as [E|E]; [|destruct (e_parent _ _ _ _ _ _ HE E Hp) as (? & _ & ?); done].
        split; [rewrite E; apply parent_not_G|]. destruct (decide (priv = lpriv lG)) as [EP|EP]; [|by apply (e_same _ _ _ _ _ _ HE)].
        destruct (f_up _ HF G lG) as (lp & Hlp & _ & HPr); [apply HE|congruence|]. exists lp. rewrite E. split; [done|congruence]. }
      destruct HQ as (HnG & lp & Hlp & HPr). destruct (edited_other newp lp HnG Hlp) as (l2 & Hl2 & _ & HP2 & _ & _ & HG).
      exists l2. split; [done|]. split; [by apply HG|congruence].
    + destruct (edited_other id l Hne Hl) as (l2 & Hl2 & HP & HPr & _). assert (l2 = l') as -> by congruence.
      rewrite HP in Hp |- *. destruct (f_up _ HF _ _ Hl Hp) as (lp & Hlp & Hin & HPP).
      destruct (decide (lpar l = G)) as [EG|EG].
      * rewrite EG in *. exists (mkLink newp chi' priv). split; [apply edited_G|]. assert (lp = lG) as -> by (pose proof (e_G _ _ _ _ _ _ HE); congruence).
        split; [cbn; by rewrite (e_chi _ _ _ _ _ _ HE)|]. cbn. destruct (decide (priv = lpriv lG)) as [EP|EP]; [congruence|].
        rewrite HPr. symmetry. by eapply (e_priv _ _ _ _ _ _ HE EP).
      * destruct (edited_other (lpar l) lp EG Hlp) as (l3 & Hl3 & _ & HPr3 & HC & _). exists l3. split; [done|]. split; [by apply HC|congruence].
  - intros id l' Hl'. apply edited_inv in Hl' as H. destruct H as [[-> ->]|(Hne & l & Hl)].
    + eapply edited_rooted, HE.
    + by eapply edited_rooted.
Qed.

End Edit.

(** ** A deletion *)

(** [G] goes: its parent forgets it and its children become roots. *)
Definition deleted (G : gostring) (lG : link) (L : links_map) : links_map :=
  map_imap (fun id l =>
    let l := if bool_decide (id = lpar lG) then mkLink (lpar l) (drop_child G (lchi l)) (lpriv l) else l in
    Some (if bool_decide (id ∈ lchi lG) then mkLink [] (lchi l) (lpriv l) else l)) (base.delete G L).

Section Delete.
Context (L : links_map) (HF : forest L) (G : gostring) (lG : link) (HG : L !! G = Some lG).
#[local] Set Default Proof Using "All".

Let L' := deleted G lG L.

Lemma deleted_other id l : id <> G -> L !! id = Some l -> exists l', L' !! id = Some l' /\ lpriv l' = lpriv l /\
  lpar l' = (if bool_decide (lpar l = G) then [] else lpar l) /\ (forall x, x ∈ lchi l' <-> x ∈ lchi l /\ x <> G) /\ (NoDup (lchi l) -> NoDup (lchi l')).
Proof.
  intros Hne Hl. unfold L', deleted. rewrite map_lookup_imap, lookup_delete_ne, Hl by done. cbn [mbind option_bind].
  assert (HC : id ∈ lchi lG <-> lpar l = G).
  { split; intros H.
    - destruct (f_down _ HF _ _ _ HG H) as (lx & Hlx & <-). congruence.
    - destruct (f_up _ HF _ _ Hl) as (lp & Hlp & Hin & _); [|congruence]. rewrite H. intros ->. by rewrite (f_ids _ HF) in HG. }
  assert (HM : G ∈ lchi l -> id = lpar lG).
  { intros H. destruct (f_down _ HF _ _ _ Hl H) as (lx & Hlx & <-). congruence. }
  eexists. split; [done|]. rewrite (bool_decide_ext (id ∈ lchi lG) (lpar l = G)) by done.
  destruct (bool_decide_reflect (id = lpar lG)) as [E|E], (bool_decide_reflect (lpar l = G)) as [EG|EG]; cbn; split_and!; try done;
    try (intros x; rewrite drop_child_elem; done); try apply drop_child_nodup;
    intros x; split; try tauto; intros Hx; (split; [done|]); intros ->; auto.
Qed.

Lemma deleted_inv id l' : L' !! id = Some l' -> id <> G /\ exists l, L !! id = Some l.
Proof.
  unfold L', deleted. rewrite map_lookup_imap. destruct (decide (id = G)) as [->|Hne]; [by rewrite lookup_delete_eq|].
  rewrite lookup_delete_ne by done. destruct (L !! id) as [l|]; [|done]. intros _. split; [done|by eexists].
Qed.

Lemma deleted_forest : forest L'.
Proof.
  split.
  - destruct (L' !! []) as [l0|] eqn:E; [|done]. apply deleted_inv in E as (_ & l & Hl). by rewrite (f_ids _ HF) in Hl.
  - intros id l' Hl'. apply deleted_inv in Hl' as H. destruct H as (Hne & l & Hl).
    destruct (deleted_other id l Hne Hl) as (l2 & Hl2 & _ & _ & _ & HN). assert (l2 = l') as -> by congruence. apply HN. by eapply f_nodup.
  - intros id l' x Hl' Hx. apply deleted_inv in Hl' as H. destruct H as (Hne & l & Hl).
    destruct (deleted_other id l Hne Hl) as (l2 & Hl2 & _ & _ & HC & _). assert (l2 = l') as -> by congruence.
    apply HC in Hx as [Hx HxG]. destruct (f_down _ HF _ _ _ Hl Hx) as (lx & Hlx & HP).
    destruct (deleted_other x lx HxG Hlx) as (l3 & Hl3 & _ & HP3 & _). exists l3. split; [done|]. rewrite HP3, HP. by rewrite bool_decide_eq_false_2.
  - intros id l' Hl' Hp. apply deleted_inv in Hl' as H. destruct H as (Hne & l & Hl).
    destruct (deleted_other id l Hne Hl) as (l2 & Hl2 & HPr & HP & _). assert (l2 = l') as -> by congruence.
    rewrite HP in Hp |- *. case_bool_decide as EG; [done|]. destruct (f_up _ HF _ _ Hl Hp) as (lp & Hlp & Hin & HPP).
    destruct (deleted_other (lpar l) lp EG Hlp) as (l3 & Hl3 & HPr3 & _ & HC & _). exists l3. split; [done|]. split; [by apply HC|congruence].
  - intros id l' Hl'. apply deleted_inv in Hl' as H. destruct H as (Hne & l & Hl). clear Hl'.
    pose proof (f_root _ HF _ _ Hl) as HR. clear Hl l l'. induction HR as [|id l0 Hl _ IH]; [constructor|].
    destruct (deleted_other id l0 Hne Hl) as (l2 & Hl2 & _ & HP & _). econstructor; [done|]. rewrite HP.
    case_bool_decide as EG; [constructor|]. by apply IH.
Qed.

End Delete.
