(* ===== verification/Nip29.v ===== *)
(** * nip29: relay-based groups

    [nip29/nip29.go]: the kinds of group events, the group id and timeline
    tags, a relay's moderation policy, and for each kind of event its parser and
    its builder.  A parser's loop over the tags is a fold with an error.  The
    order in which Go ranges over a policy's roles is an argument. *)

From S2P Require Import Prelude GoLib Sha256 NostrUtils Pow Event.

Definition KindPutUser : Z := 9000.
Definition KindRemoveUser : Z := 9001.
Definition KindEditMetadata : Z := 9002.
Definition KindDeleteEvent : Z := 9005.
Definition KindCreateGroup : Z := 9007.
Definition KindDeleteGroup : Z := 9008.
Definition KindCreateInvite : Z := 9009.
Definition KindUpdatePinList : Z := 9010.
Definition KindJoinRequest : Z := 9021.
Definition KindLeaveRequest : Z := 9022.

Definition KindGroupMetadata : Z := 39000.
Definition KindGroupAdmins : Z := 39001.
Definition KindGroupMembers : Z := 39002.
Definition KindGroupRoles : Z := 39003.
Definition KindLiveParticipants : Z := 39004.
Definition KindGroupPinnedEvents : Z := 39005.

Definition ModerationKindMin : Z := 9000.
Definition ModerationKindMax : Z := 9020.

Definition TagGroupID : gostring := bs "h".
Definition TagPrevious : gostring := bs "previous".
Definition TimelineReferenceLength : Z := 8.
Definition DuplicateErrorPrefix : gostring := bs "duplicate: ".

Inductive GroupErr :=
  | ErrWrongKind (got : Z) | ErrMissingHTag | ErrEmptyHTag | ErrMissingDTag | ErrMissingPTag | ErrMissingETag
  | ErrMissingCodeTag | ErrInvalidPubkey (s : gostring) | ErrInvalidEventID (s : gostring)
  | ErrInvalidSupportKind (s : gostring) | ErrInvalidATag (s : gostring) | ErrInvalidReference (s : gostring)
  | ErrInvalidSignature (e : EventErr) | ErrDuplicateParentTag.

#[global] Instance UtilErr_eq_dec : EqDecision UtilErr.
Proof. solve_decision. Defined.

(** An error wrapped with [fmt.Errorf("%w: ...")]. *)
Definition wrap_err {E F A} (f : E -> F) (m : outcome E A) : outcome F A :=
  match m with Ok a => Ok a | Err e => Err (f e) | Panic => Panic end.

(** ** Kinds *)

Definition IsModerationKind (kind : Z) : bool := (ModerationKindMin <=? kind) && (kind <=? ModerationKindMax).
Definition IsUserRequestKind (kind : Z) : bool := (kind =? KindJoinRequest) || (kind =? KindLeaveRequest).
Definition IsGroupMetadataKind (kind : Z) : bool := (KindGroupMetadata <=? kind) && (kind <=? KindGroupPinnedEvents).
Definition IsRelayAuthoredKind (kind : Z) : bool := IsGroupMetadataKind kind.
Definition RequiresGroupIDTag (kind : Z) : bool := IsModerationKind kind || IsUserRequestKind kind.

(** ** Group ids and timeline references *)

(** [len(tag) >= 2 && tag[0] == name], with the value. *)
Definition tag2 (name : gostring) (t : tag) : option gostring :=
  match t with
  | n :: v :: _ => if bool_decide (n = name) then Some v else None
  | _ => None
  end.

Fixpoint GroupIDFromTags (ts : tags) : outcome GroupErr gostring :=
  match ts with
  | [] => Err ErrMissingHTag
  | t :: ts => match tag2 TagGroupID t with
               | Some [] => Err ErrEmptyHTag
               | Some v => Ok v
               | None => GroupIDFromTags ts
               end
  end.

Fixpoint GroupIDFromDTag (ts : tags) : outcome GroupErr gostring :=
  match ts with
  | [] => Err ErrMissingDTag
  | t :: ts => match tag2 (bs "d") t with Some v => Ok v | None => GroupIDFromDTag ts end
  end.

(** [isHex]: a non-empty string of hexadecimal digits. *)
Definition isHex (s : gostring) : bool := forallb is_hex s && negb (bool_decide (s = [])).

Fixpoint check_references (vals : list gostring) : outcome GroupErr unit :=
  match vals with
  | [] => Ok tt
  | ref :: vals =>
      if negb (zlen ref =? TimelineReferenceLength) then Err (ErrInvalidReference ref)
      else if negb (isHex ref) then Err (ErrInvalidReference ref)
      else check_references vals
  end.

Fixpoint TimelineReferences (ts : tags) : outcome GroupErr (list gostring) :=
  match ts with
  | [] => Ok []
  | t :: ts =>
      if tag_is TagPrevious t then
        _ ← check_references (tail t);
        refs ← TimelineReferences ts;
        Ok (tail t ++ refs)
      else TimelineReferences ts
  end.

Definition truncate_ref (id : gostring) : gostring := take (Z.to_nat TimelineReferenceLength) id.

Definition AddTimelineReferences (ev : Event) (eventIDs : list gostring) : Event :=
  match eventIDs with
  | [] => ev
  | _ => AddTag ev (TagPrevious :: map truncate_ref eventIDs)
  end.

(** ** Moderation policies *)

Definition ModerationPolicy : Type := gmap gostring (list Z).

Definition policy_kinds (p : ModerationPolicy) (role : gostring) : list Z := default [] (p !! role).

Definition Allows (p : ModerationPolicy) (role : gostring) (kind : Z) : bool :=
  existsb (fun allowed => allowed =? kind) (policy_kinds p role).

Definition AllowsAny (p : ModerationPolicy) (roles : list gostring) (kind : Z) : bool :=
  existsb (fun role => Allows p role kind) roles.

Definition ModerationKindName (kind : Z) : gostring :=
  if kind =? KindPutUser then bs "put-user"
  else if kind =? KindRemoveUser then bs "remove-user"
  else if kind =? KindEditMetadata then bs "edit-metadata"
  else if kind =? KindDeleteEvent then bs "delete-event"
  else if kind =? KindCreateGroup then bs "create-group"
  else if kind =? KindDeleteGroup then bs "delete-group"
  else if kind =? KindCreateInvite then bs "create-invite"
  else if kind =? KindUpdatePinList then bs "update-pins"
  else bs "kind " ++ Dec.itoa kind.

Record GroupRole := mkRole { rName : gostring; rDescription : gostring }.

(** [strings.Join] *)
Fixpoint strings_Join (l : list gostring) (sep : gostring) : gostring :=
  match l with
  | [] => []
  | [s] => s
  | s :: l => s ++ sep ++ strings_Join l sep
  end.

(** [sort.Strings]: insertion into a list sorted byte-wise. *)
Fixpoint insert_string (s : gostring) (l : list gostring) : list gostring :=
  match l with
  | [] => [s]
  | x :: l' => if Cmp.ltb x s then x :: insert_string s l' else s :: l
  end.

Definition sort_Strings (l : list gostring) : list gostring := foldr insert_string [] l.

Definition role_of (p : ModerationPolicy) (descriptions : gmap gostring gostring) (name : gostring) : GroupRole :=
  let desc := default [] (descriptions !! name) in
  let desc := if bool_decide (desc = []) && negb (bool_decide (policy_kinds p name = []))
              then bs "may " ++ strings_Join (map ModerationKindName (policy_kinds p name)) (bs ", ")
              else desc in
  mkRole name desc.

(** [names]: the roles as the loop of RoleNames ranges over them. *)
Definition Roles (p : ModerationPolicy) (names : list gostring) (descriptions : gmap gostring gostring) : list GroupRole :=
  map (role_of p descriptions) (sort_Strings names).

(** ** Metadata (kind 39000) *)

Record GroupMetadata := mkGroupMetadata {
  mID : gostring; mName : gostring; mPicture : gostring; mBanner : gostring; mAbout : gostring;
  mParent : gostring; mChildren : list gostring;
  mPrivate : bool; mRestricted : bool; mHidden : bool; mClosed : bool; mLiveKit : bool;
  mSupportedKinds : list Z; mSupportedKindsSet : bool;
}.

Definition emptyMetadata : GroupMetadata :=
  mkGroupMetadata [] [] [] [] [] [] [] false false false false false [] false.

Definition SupportsKind (m : GroupMetadata) (kind : Z) : bool :=
  if negb (mSupportedKindsSet m) then true else existsb (fun k => k =? kind) (mSupportedKinds m).

Definition IsSubgroup (m : GroupMetadata) : bool := negb (bool_decide (mParent m = [])).

Fixpoint parse_kinds (raws : list gostring) : outcome GroupErr (list Z) :=
  match raws with
  | [] => Ok []
  | raw :: raws =>
      match Dec.atoi raw with
      | None => Err (ErrInvalidSupportKind raw)
      | Some kind => ks ← parse_kinds raws; Ok (kind :: ks)
      end
  end.

(** The single-element tags: presence is the value. *)
Definition flag_tag (m : GroupMetadata) (name : gostring) : option GroupMetadata :=
  let '(mkGroupMetadata i n p b a pa ch pr re hi cl lk sk ss) := m in
  if bool_decide (name = bs "private") then Some (mkGroupMetadata i n p b a pa ch true re hi cl lk sk ss)
  else if bool_decide (name = bs "restricted") then Some (mkGroupMetadata i n p b a pa ch pr true hi cl lk sk ss)
  else if bool_decide (name = bs "hidden") then Some (mkGroupMetadata i n p b a pa ch pr re true cl lk sk ss)
  else if bool_decide (name = bs "closed") then Some (mkGroupMetadata i n p b a pa ch pr re hi true lk sk ss)
  else if bool_decide (name = bs "livekit") then Some (mkGroupMetadata i n p b a pa ch pr re hi cl true sk ss)
  else None.

Definition add_kinds (m : GroupMetadata) (ks : list Z) : GroupMetadata :=
  let '(mkGroupMetadata i n p b a pa ch pr re hi cl lk sk _) := m in
  mkGroupMetadata i n p b a pa ch pr re hi cl lk (sk ++ ks) true.

(** The metadata under construction, [haveD] and [haveParent]. *)
Definition meta_state : Type := GroupMetadata * bool * bool.

(** The tags with a value. *)
Definition value_tag (st : meta_state) (name v : gostring) : outcome GroupErr meta_state :=
  let '(m, haveD, haveParent) := st in
  let '(mkGroupMetadata i n p b a pa ch pr re hi cl lk sk ss) := m in
  if bool_decide (name = bs "d") then Ok (mkGroupMetadata v n p b a pa ch pr re hi cl lk sk ss, true, haveParent)
  else if bool_decide (name = bs "name") then Ok (mkGroupMetadata i v p b a pa ch pr re hi cl lk sk ss, haveD, haveParent)
  else if bool_decide (name = bs "picture") then Ok (mkGroupMetadata i n v b a pa ch pr re hi cl lk sk ss, haveD, haveParent)
  else if bool_decide (name = bs "banner") then Ok (mkGroupMetadata i n p v a pa ch pr re hi cl lk sk ss, haveD, haveParent)
  else if bool_decide (name = bs "about") then Ok (mkGroupMetadata i n p b v pa ch pr re hi cl lk sk ss, haveD, haveParent)
  else if bool_decide (name = bs "parent") then
    if haveParent then Err ErrDuplicateParentTag
    else Ok (mkGroupMetadata i n p b a v ch pr re hi cl lk sk ss, haveD, true)
  else if bool_decide (name = bs "child") then
    Ok (mkGroupMetadata i n p b a pa (ch ++ [v]) pr re hi cl lk sk ss, haveD, haveParent)
  else Ok st.

Definition metadata_tag (st : meta_state) (t : tag) : outcome GroupErr meta_state :=
  match t with
  | [] => Ok st
  | name :: vals =>
      match flag_tag st.1.1 name with
      | Some m => Ok (m, st.1.2, st.2)
      | None =>
          if bool_decide (name = bs "supported_kinds") then
            ks ← parse_kinds vals;
            Ok (add_kinds st.1.1 ks, st.1.2, st.2)
          else match vals with
               | [] => Ok st
               | v :: _ => value_tag st name v
               end
      end
  end.

Fixpoint metadata_tags (st : meta_state) (ts : tags) : outcome GroupErr meta_state :=
  match ts with
  | [] => Ok st
  | t :: ts => st ← metadata_tag st t; metadata_tags st ts
  end.

Definition ParseGroupMetadata (ev : Event) : outcome GroupErr GroupMetadata :=
  if negb (Kind ev =? KindGroupMetadata) then Err (ErrWrongKind (Kind ev)) else
  st ← metadata_tags (emptyMetadata, false, false) (Tags ev);
  if negb (st.1.2) then Err ErrMissingDTag else Ok st.1.1.

Definition appendIfSet (ts : tags) (name value : gostring) : tags :=
  if bool_decide (value = []) then ts else ts ++ [[name; value]].

Definition appendFlag (ts : tags) (name : gostring) (set : bool) : tags :=
  if negb set then ts else ts ++ [[name]].

(** The tags NewGroupMetadata puts into the event; [m] holds the fields of
    GroupMetadataParams, which are those of GroupMetadata beside the key and
    the content. *)
Definition metadata_tag_list (m : GroupMetadata) : tags :=
  let ts := [[bs "d"; mID m]] in
  let ts := appendIfSet ts (bs "name") (mName m) in
  let ts := appendIfSet ts (bs "picture") (mPicture m) in
  let ts := appendIfSet ts (bs "banner") (mBanner m) in
  let ts := appendIfSet ts (bs "about") (mAbout m) in
  let ts := appendIfSet ts (bs "parent") (mParent m) in
  let ts := ts ++ map (fun child => [bs "child"; child]) (mChildren m) in
  let ts := appendFlag ts (bs "private") (mPrivate m) in
  let ts := appendFlag ts (bs "restricted") (mRestricted m) in
  let ts := appendFlag ts (bs "hidden") (mHidden m) in
  let ts := appendFlag ts (bs "closed") (mClosed m) in
  let ts := appendFlag ts (bs "livekit") (mLiveKit m) in
  if mSupportedKindsSet m then ts ++ [bs "supported_kinds" :: map Dec.itoa (mSupportedKinds m)] else ts.

Record GroupMetadataParams := mkMetadataParams { pSelfPubkey : gostring; pFields : GroupMetadata; pContent : gostring }.

Definition NewGroupMetadata (now : Z) (p : GroupMetadataParams) : Event :=
  NewUnsignedEvent now KindGroupMetadata (pSelfPubkey p) (pContent p) (metadata_tag_list (pFields p)).

(** ** Admins, members, roles, participants and pins (kinds 39001 to 39005) *)

Definition check_kind (ev : Event) (kind : Z) : outcome GroupErr unit :=
  if negb (Kind ev =? kind) then Err (ErrWrongKind (Kind ev)) else Ok tt.

Definition check_pubkey (s : gostring) : outcome GroupErr unit :=
  wrap_err (fun _ => ErrInvalidPubkey s) (Validate32Key s).

Record Admin := mkAdmin { aPubkey : gostring; aRoles : list gostring }.
Record GroupAdmins := mkGroupAdmins { gaID : gostring; gaAdmins : list Admin }.

Fixpoint parse_admins (ts : tags) : outcome GroupErr (list Admin) :=
  match ts with
  | [] => Ok []
  | t :: ts => match tag2 (bs "p") t with
               | None => parse_admins ts
               | Some pk => _ ← check_pubkey pk; l ← parse_admins ts; Ok (mkAdmin pk (drop 2 t) :: l)
               end
  end.

Definition ParseGroupAdmins (ev : Event) : outcome GroupErr GroupAdmins :=
  _ ← check_kind ev KindGroupAdmins;
  id ← GroupIDFromDTag (Tags ev);
  l ← parse_admins (Tags ev);
  Ok (mkGroupAdmins id l).

Definition AdminsRolesFor (a : GroupAdmins) (pubkey : gostring) : list gostring :=
  match List.find (fun x => bool_decide (aPubkey x = pubkey)) (gaAdmins a) with
  | Some x => aRoles x
  | None => []
  end.

Definition NewGroupAdmins (now : Z) (self id : gostring) (admins : list Admin) (content : gostring) : Event :=
  NewUnsignedEvent now KindGroupAdmins self content
    ([bs "d"; id] :: map (fun a => bs "p" :: aPubkey a :: aRoles a) admins).

Record GroupMembers := mkGroupMembers { gmID : gostring; gmMembers : list gostring }.

(** The loop over the tags of one name that hold a public key. *)
Fixpoint parse_keys (name : gostring) (ts : tags) : outcome GroupErr (list gostring) :=
  match ts with
  | [] => Ok []
  | t :: ts => match tag2 name t with
               | None => parse_keys name ts
               | Some pk => _ ← check_pubkey pk; l ← parse_keys name ts; Ok (pk :: l)
               end
  end.

Definition ParseGroupMembers (ev : Event) : outcome GroupErr GroupMembers :=
  _ ← check_kind ev KindGroupMembers;
  id ← GroupIDFromDTag (Tags ev);
  l ← parse_keys (bs "p") (Tags ev);
  Ok (mkGroupMembers id l).

Definition MembersContains (m : GroupMembers) (pubkey : gostring) : bool :=
  existsb (fun x => bool_decide (x = pubkey)) (gmMembers m).

Definition NewGroupMembers (now : Z) (self id : gostring) (members : list gostring) (content : gostring) : Event :=
  NewUnsignedEvent now KindGroupMembers self content ([bs "d"; id] :: map (fun m => [bs "p"; m]) members).

Record GroupRoles := mkGroupRoles { grID : gostring; grRoles : list GroupRole }.

Fixpoint parse_roles (ts : tags) : list GroupRole :=
  match ts with
  | [] => []
  | t :: ts => match tag2 (bs "role") t with
               | None => parse_roles ts
               | Some name => mkRole name (default [] (t !! 2%nat)) :: parse_roles ts
               end
  end.

Definition ParseGroupRoles (ev : Event) : outcome GroupErr GroupRoles :=
  _ ← check_kind ev KindGroupRoles;
  id ← GroupIDFromDTag (Tags ev);
  Ok (mkGroupRoles id (parse_roles (Tags ev))).

Definition role_tag (r : GroupRole) : tag :=
  if bool_decide (rDescription r = []) then [bs "role"; rName r] else [bs "role"; rName r; rDescription r].

Definition NewGroupRoles (now : Z) (self id : gostring) (roles : list GroupRole) (content : gostring) : Event :=
  NewUnsignedEvent now KindGroupRoles self content ([bs "d"; id] :: map role_tag roles).

Record LiveParticipants := mkLive { lpID : gostring; lpParticipants : list gostring }.

Definition ParseLiveParticipants (ev : Event) : outcome GroupErr LiveParticipants :=
  _ ← check_kind ev KindLiveParticipants;
  id ← GroupIDFromDTag (Tags ev);
  l ← parse_keys (bs "participant") (Tags ev);
  Ok (mkLive id l).

Definition NewLiveParticipants (now : Z) (self id : gostring) (participants : list gostring) (content : gostring) : Event :=
  NewUnsignedEvent now KindLiveParticipants self content
    ([bs "d"; id] :: map (fun m => [bs "participant"; m]) participants).

Record GroupPinnedEvents := mkPinned { gpID : gostring; gpEvents : list gostring; gpAddresses : list gostring }.

Fixpoint parsePinReferences (ts : tags) : outcome GroupErr (list gostring * list gostring) :=
  match ts with
  | [] => Ok ([], [])
  | t :: ts =>
      match tag2 (bs "e") t, tag2 (bs "a") t with
      | Some id, _ =>
          _ ← wrap_err (fun _ => ErrInvalidEventID id) (Validate32Key id);
          r ← parsePinReferences ts; Ok (id :: r.1, r.2)
      | None, Some addr =>
          _ ← wrap_err (fun _ => ErrInvalidATag addr) (ParseATag addr);
          r ← parsePinReferences ts; Ok (r.1, addr :: r.2)
      | None, None => parsePinReferences ts
      end
  end.

Definition appendPinReferences (ts : tags) (events addresses : list gostring) : tags :=
  ts ++ map (fun id => [bs "e"; id]) events ++ map (fun a => [bs "a"; a]) addresses.

Definition ParseGroupPinnedEvents (ev : Event) : outcome GroupErr GroupPinnedEvents :=
  _ ← check_kind ev KindGroupPinnedEvents;
  id ← GroupIDFromDTag (Tags ev);
  r ← parsePinReferences (Tags ev);
  Ok (mkPinned id r.1 r.2).

Definition NewGroupPinnedEvents (now : Z) (self id : gostring) (events addresses : list gostring) (content : gostring) : Event :=
  NewUnsignedEvent now KindGroupPinnedEvents self content (appendPinReferences [[bs "d"; id]] events addresses).

(** ** Requests of users (kinds 9021 and 9022) *)

Record JoinRequest := mkJoin { jGroupID : gostring; jCode : gostring; jReason : gostring }.

(** The first tag of the name with a value. *)
Fixpoint first_value (name : gostring) (ts : tags) : option gostring :=
  match ts with
  | [] => None
  | t :: ts => match tag2 name t with Some v => Some v | None => first_value name ts end
  end.

Definition ParseJoinRequest (ev : Event) : outcome GroupErr JoinRequest :=
  _ ← check_kind ev KindJoinRequest;
  groupID ← GroupIDFromTags (Tags ev);
  Ok (mkJoin groupID (default [] (first_value (bs "code") (Tags ev))) (Content ev)).

Definition NewJoinRequest (now : Z) (pubkey groupID code reason : gostring) : Event :=
  NewUnsignedEvent now KindJoinRequest pubkey reason (appendIfSet [[TagGroupID; groupID]] (bs "code") code).

Definition DuplicateJoinError (reason : gostring) : gostring := DuplicateErrorPrefix ++ reason.

Definition IsDuplicateJoinError (message : gostring) : bool :=
  (zlen DuplicateErrorPrefix <=? zlen message) &&
  bool_decide (take (length DuplicateErrorPrefix) message = DuplicateErrorPrefix).

Record LeaveRequest := mkLeave { lGroupID : gostring; lReason : gostring }.

Definition ParseLeaveRequest (ev : Event) : outcome GroupErr LeaveRequest :=
  _ ← check_kind ev KindLeaveRequest;
  groupID ← GroupIDFromTags (Tags ev);
  Ok (mkLeave groupID (Content ev)).

Definition NewLeaveRequest (now : Z) (pubkey groupID reason : gostring) : Event :=
  NewUnsignedEvent now KindLeaveRequest pubkey reason [[TagGroupID; groupID]].

(** ** Moderation events (kinds 9000 to 9020) *)

Record ModerationAction := mkAction {
  actKind : Z; actGroupID : gostring; actReason : gostring; actPubkey : gostring; actRoles : list gostring;
  actEventID : gostring; actCode : gostring; actPinnedEvents : list gostring; actPinnedAddresses : list gostring;
  actMetadata : option GroupMetadata; actPrevious : list gostring;
}.

(** The loop over the tags: Pubkey, Roles and Code so far. *)
Fixpoint action_tags (st : gostring * list gostring * gostring) (ts : tags)
    : outcome GroupErr (gostring * list gostring * gostring) :=
  match ts with
  | [] => Ok st
  | t :: ts =>
      let '(pubkey, roles, code) := st in
      match tag2 (bs "p") t, tag2 (bs "code") t with
      | Some pk, _ =>
          if negb (bool_decide (pubkey = [])) then action_tags st ts
          else _ ← check_pubkey pk; action_tags (pk, drop 2 t, code) ts
      | None, Some c => action_tags (pubkey, roles, c) ts
      | None, None => action_tags st ts
      end
  end.

Definition with_ID (m : GroupMetadata) (id : gostring) : GroupMetadata :=
  let '(mkGroupMetadata _ n p b a pa ch pr re hi cl lk sk ss) := m in
  mkGroupMetadata id n p b a pa ch pr re hi cl lk sk ss.

Definition parseMetadataFields (ts : tags) : outcome GroupErr GroupMetadata :=
  meta ← ParseGroupMetadata (mkEvent [] [] 0 KindGroupMetadata ([bs "d"; []] :: ts) [] []);
  Ok (with_ID meta []).

Definition ParseModerationAction (ev : Event) : outcome GroupErr ModerationAction :=
  if negb (IsModerationKind (Kind ev)) then Err (ErrWrongKind (Kind ev)) else
  groupID ← GroupIDFromTags (Tags ev);
  previous ← TimelineReferences (Tags ev);
  st ← action_tags ([], [], []) (Tags ev);
  let '(pubkey, roles, code) := st in
  let action eventID pe pa meta :=
    mkAction (Kind ev) groupID (Content ev) pubkey roles eventID code pe pa meta previous in
  if (Kind ev =? KindPutUser) || (Kind ev =? KindRemoveUser) then
    if bool_decide (pubkey = []) then Err ErrMissingPTag else Ok (action [] [] [] None)
  else if Kind ev =? KindDeleteEvent then
    r ← parsePinReferences (Tags ev);
    match r.1 with
    | [] => Err ErrMissingETag
    | e :: _ => Ok (action e [] [] None)
    end
  else if Kind ev =? KindCreateInvite then
    if bool_decide (code = []) then Err ErrMissingCodeTag else Ok (action [] [] [] None)
  else if Kind ev =? KindUpdatePinList then
    r ← parsePinReferences (Tags ev);
    Ok (action [] r.1 r.2 None)
  else if Kind ev =? KindEditMetadata then
    meta ← parseMetadataFields (Tags ev);
    Ok (action [] [] [] (Some (with_ID meta groupID)))
  else Ok (action [] [] [] None).

Definition NewPutUser (now : Z) (pubkey groupID memberPubkey : gostring) (roles : list gostring) : Event :=
  NewUnsignedEvent now KindPutUser pubkey [] [[TagGroupID; groupID]; bs "p" :: memberPubkey :: roles].

Definition NewRemoveUser (now : Z) (pubkey groupID memberPubkey : gostring) : Event :=
  NewUnsignedEvent now KindRemoveUser pubkey [] [[TagGroupID; groupID]; [bs "p"; memberPubkey]].

Definition NewEditMetadata (now : Z) (pubkey groupID : gostring) (p : GroupMetadataParams) : Event :=
  let built := NewGroupMetadata now p in
  NewUnsignedEvent now KindEditMetadata pubkey (pContent p)
    ([TagGroupID; groupID] :: List.filter (fun t => negb (tag_is (bs "d") t)) (Tags built)).

Definition NewDeleteEvent (now : Z) (pubkey groupID eventID : gostring) : Event :=
  NewUnsignedEvent now KindDeleteEvent pubkey [] [[TagGroupID; groupID]; [bs "e"; eventID]].

Definition NewCreateGroup (now : Z) (pubkey groupID : gostring) : Event :=
  NewUnsignedEvent now KindCreateGroup pubkey [] [[TagGroupID; groupID]].

Definition NewDeleteGroup (now : Z) (pubkey groupID : gostring) : Event :=
  NewUnsignedEvent now KindDeleteGroup pubkey [] [[TagGroupID; groupID]].

Definition NewCreateInvite (now : Z) (pubkey groupID code : gostring) : Event :=
  NewUnsignedEvent now KindCreateInvite pubkey [] [[TagGroupID; groupID]; [bs "code"; code]].

Definition NewUpdatePinList (now : Z) (pubkey groupID : gostring) (events addresses : list gostring) : Event :=
  NewUnsignedEvent now KindUpdatePinList pubkey [] (appendPinReferences [[TagGroupID; groupID]] events addresses).

(** ** Signature-checking wrappers *)
Section Validate.
Context {GoLower0 : GoLower} {Schnorr0 : Schnorr}.

(** [event.Verify()], then the parser. *)
Definition verified {A} (parse : Event -> outcome GroupErr A) (ev : Event) : outcome GroupErr unit :=
  _ ← wrap_err ErrInvalidSignature (Verify [] ev);
  _ ← parse ev;
  Ok tt.

Definition ValidateGroupMetadata : Event -> outcome GroupErr unit := verified ParseGroupMetadata.
Definition ValidateModerationAction : Event -> outcome GroupErr unit := verified ParseModerationAction.
Definition ValidateGroupAdmins : Event -> outcome GroupErr unit := verified ParseGroupAdmins.
Definition ValidateGroupMembers : Event -> outcome GroupErr unit := verified ParseGroupMembers.
Definition ValidateGroupRoles : Event -> outcome GroupErr unit := verified ParseGroupRoles.
Definition ValidateLiveParticipants : Event -> outcome GroupErr unit := verified ParseLiveParticipants.
Definition ValidateGroupPinnedEvents : Event -> outcome GroupErr unit := verified ParseGroupPinnedEvents.
Definition ValidateJoinRequest : Event -> outcome GroupErr unit := verified ParseJoinRequest.
Definition ValidateLeaveRequest : Event -> outcome GroupErr unit := verified ParseLeaveRequest.

End Validate.
