(* ===== verification/Nip29Props.v ===== *)
(** * nip29: what its parsers read

    Each builder's event parses back to what it was built from; what a parser
    accepts is well formed; the advertised roles do not depend on the order in
    which a policy is ranged over. *)

From S2P Require Import Prelude GoLib Sha256 NostrUtils Pow Event Nip29.

(** ** Metadata *)

Lemma metadata_tags_app st a b :
  metadata_tags st (a ++ b) = metadata_tags st a ≫= fun st => metadata_tags st b.
Proof.
  revert st. induction a as [|t a IH]; intros st; [done|]. cbn [app metadata_tags].
  by destruct (metadata_tag st t) as [st'|e|]; [apply IH|..].
Qed.

Lemma metadata_ifset st0 ts st name v st' :
  metadata_tags st0 ts = Ok st ->
  (v = [] -> st' = st) -> metadata_tag st [name; v] = Ok st' ->
  metadata_tags st0 (appendIfSet ts name v) = Ok st'.
Proof.
  intros HT He Hv. unfold appendIfSet. case_bool_decide as E; [by rewrite He|].
  rewrite metadata_tags_app, HT. cbn [mbind outcome_bind metadata_tags]. by rewrite Hv.
Qed.

Lemma metadata_flag st0 ts st name set st' :
  metadata_tags st0 ts = Ok st ->
  (set = false -> st' = st) -> (set = true -> metadata_tag st [name] = Ok st') ->
  metadata_tags st0 (appendFlag ts name set) = Ok st'.
Proof.
  intros HT Hf Ht. unfold appendFlag. destruct set; cbn [negb]; [|by rewrite Hf].
  rewrite metadata_tags_app, HT. cbn [mbind outcome_bind metadata_tags]. by rewrite Ht.
Qed.

Lemma metadata_children st0 ts m hd hp l :
  metadata_tags st0 ts = Ok (m, hd, hp) ->
  metadata_tags st0 (ts ++ map (fun c => [bs "child"; c]) l) =
    Ok (mkGroupMetadata (mID m) (mName m) (mPicture m) (mBanner m) (mAbout m) (mParent m) (mChildren m ++ l)
          (mPrivate m) (mRestricted m) (mHidden m) (mClosed m) (mLiveKit m) (mSupportedKinds m) (mSupportedKindsSet m), hd, hp).
Proof.
  intros HT. rewrite metadata_tags_app, HT. cbn [mbind outcome_bind]. clear HT. revert m.
  induction l as [|c l IH]; intros [i n p b a pa ch pr re hi cl lk sk ss]; cbn [map metadata_tags].
  { cbn. by rewrite app_nil_r. }
  change (metadata_tag _ _) with
    (Ok (E := GroupErr) (mkGroupMetadata i n p b a pa (ch ++ [c]) pr re hi cl lk sk ss, hd, hp)).
  cbn [mbind outcome_bind]. rewrite IH. cbn. by rewrite <- app_assoc.
Qed.

Definition int_range (z : Z) : Prop := - 2 ^ 63 <= z < 2 ^ 63.

Lemma parse_kinds_itoa ks : Forall int_range ks -> parse_kinds (map Dec.itoa ks) = Ok ks.
Proof.
  induction 1 as [|k ks Hk _ IH]; [done|]. cbn [map parse_kinds]. by rewrite Dec.atoi_itoa, IH.
Qed.

(** What the tags can carry: kind numbers that fit an [int], and none unless
    the list is set. *)
Definition meta_ok (m : GroupMetadata) : Prop :=
  Forall int_range (mSupportedKinds m) /\ (mSupportedKindsSet m = false -> mSupportedKinds m = []).

(** The tags after the first, [hd] and [id] being what that left. *)
Lemma metadata_list_parse m :
  meta_ok m ->
  exists hp, metadata_tags (emptyMetadata, false, false) (metadata_tag_list m) = Ok (m, true, hp).
Proof.
  destruct m as [i n p b a pa ch pr re hi cl lk sk ss]. intros [HK HS]; cbn in HK, HS.
  unfold metadata_tag_list; cbn [mID mName mPicture mBanner mAbout mParent mChildren
    mPrivate mRestricted mHidden mClosed mLiveKit mSupportedKinds mSupportedKindsSet].
  exists (negb (bool_decide (pa = []))). set (hp := negb (bool_decide (pa = []))).
  assert (HT : metadata_tags (emptyMetadata, false, false)
    (appendIfSet (appendIfSet (appendIfSet (appendIfSet [[bs "d"; i]] (bs "name") n) (bs "picture") p) (bs "banner") b) (bs "about") a)
    = Ok (mkGroupMetadata i n p b a [] [] false false false false false [] false, true, false)).
  { pose (at_ n p b a := (mkGroupMetadata i n p b a [] [] false false false false false [] false, true, false)).
    apply (metadata_ifset _ _ (at_ n p b [])); [|by intros ->|reflexivity].
    apply (metadata_ifset _ _ (at_ n p [] [])); [|by intros ->|reflexivity].
    apply (metadata_ifset _ _ (at_ n [] [] [])); [|by intros ->|reflexivity].
    apply (metadata_ifset _ _ (at_ [] [] [] [])); [|by intros ->|reflexivity]. reflexivity. }
  assert (HP : metadata_tags (emptyMetadata, false, false) (appendIfSet
    (appendIfSet (appendIfSet (appendIfSet (appendIfSet [[bs "d"; i]] (bs "name") n) (bs "picture") p) (bs "banner") b) (bs "about") a)
    (bs "parent") pa) = Ok (mkGroupMetadata i n p b a pa [] false false false false false [] false, true, hp)).
  { unfold hp, appendIfSet at 1. case_bool_decide as E; [by subst pa|]. rewrite metadata_tags_app, HT. reflexivity. }
  assert (HF : metadata_tags (emptyMetadata, false, false)
    (appendFlag (appendFlag (appendFlag (appendFlag (appendFlag ((appendIfSet
    (appendIfSet (appendIfSet (appendIfSet (appendIfSet [[bs "d"; i]] (bs "name") n) (bs "picture") p) (bs "banner") b) (bs "about") a)
    (bs "parent") pa) ++ map (fun c => [bs "child"; c]) ch) (bs "private") pr) (bs "restricted") re) (bs "hidden") hi) (bs "closed") cl)
    (bs "livekit") lk) = Ok (mkGroupMetadata i n p b a pa ch pr re hi cl lk [] false, true, hp)).
  { pose (at_ pr re hi cl lk := (mkGroupMetadata i n p b a pa ch pr re hi cl lk [] false, true, hp)).
    apply (metadata_flag _ _ (at_ pr re hi cl false)); [|by intros ->|by intros ->].
    apply (metadata_flag _ _ (at_ pr re hi false false)); [|by intros ->|by intros ->].
    apply (metadata_flag _ _ (at_ pr re false false false)); [|by intros ->|by intros ->].
    apply (metadata_flag _ _ (at_ pr false false false false)); [|by intros ->|by intros ->].
    apply (metadata_flag _ _ (at_ false false false false false)); [|by intros ->|by intros ->].
    exact (metadata_children _ _ _ _ _ ch HP). }
  destruct ss; [|by rewrite HF, HS]. rewrite metadata_tags_app, HF. cbn [mbind outcome_bind metadata_tags].
  change (metadata_tag ?st (_ :: ?vals)) with (parse_kinds vals ≫= fun ks => Ok (add_kinds st.1.1 ks, st.1.2, st.2)).
  by rewrite parse_kinds_itoa.
Qed.

Lemma metadata_roundtrip now p :
  meta_ok (pFields p) -> ParseGroupMetadata (NewGroupMetadata now p) = Ok (pFields p).
Proof.
  intros HM. destruct (metadata_list_parse _ HM) as [hp HT]. unfold ParseGroupMetadata, NewGroupMetadata, NewUnsignedEvent.
  cbn [Kind Tags]. change (KindGroupMetadata =? KindGroupMetadata) with true. cbn [negb]. by rewrite HT.
Qed.

(** ** Tags of other names are skipped *)

Definition named_in (names : list gostring) (t : tag) : Prop := exists n vals, t = n :: vals /\ n ∈ names.

Lemma tag2_skip names name t : named_in names t -> name ∉ names -> tag2 name t = None.
Proof.
  intros (n & vals & -> & Hn) Hx. destruct vals as [|v vals]; [done|]. cbn. rewrite bool_decide_eq_false_2; [done|]. by intros ->.
Qed.

Lemma tag_is_skip names name t : named_in names t -> name ∉ names -> tag_is name t = false.
Proof. intros (n & vals & -> & Hn) Hx. cbn. apply bool_decide_eq_false_2. by intros ->. Qed.

Lemma TimelineReferences_skip names ts :
  Forall (named_in names) ts -> TagPrevious ∉ names -> TimelineReferences ts = Ok [].
Proof. intros HF Hx. induction HF as [|t ts Ht _ IH]; [done|]. cbn. by rewrite (tag_is_skip names). Qed.

Lemma action_tags_skip names st ts :
  Forall (named_in names) ts -> bs "p" ∉ names -> bs "code" ∉ names -> action_tags st ts = Ok st.
Proof.
  intros HF Hp Hc. induction HF as [|t ts Ht _ IH]; [done|]. destruct st as [[pk ro] co]. cbn [action_tags].
  by rewrite !(tag2_skip names).
Qed.

Lemma filter_skip names name ts :
  Forall (named_in names) ts -> name ∉ names -> List.filter (fun t => negb (tag_is name t)) ts = ts.
Proof. intros HF Hx. induction HF as [|t ts Ht _ IH]; [done|]. cbn. rewrite (tag_is_skip names) by done. by rewrite IH. Qed.

Definition meta_names : list gostring :=
  [bs "name"; bs "picture"; bs "banner"; bs "about"; bs "parent"; bs "child"; bs "private"; bs "restricted";
   bs "hidden"; bs "closed"; bs "livekit"; bs "supported_kinds"].

Lemma named_ifset names ts n v :
  Forall (named_in names) ts -> n ∈ names -> Forall (named_in names) (appendIfSet ts n v).
Proof.
  intros HT Hn. unfold appendIfSet. case_bool_decide; [done|]. apply Forall_app. split; [done|].
  constructor; [by exists n, [v]|done].
Qed.

Lemma named_flag names ts n b :
  Forall (named_in names) ts -> n ∈ names -> Forall (named_in names) (appendFlag ts n b).
Proof.
  intros HT Hn. unfold appendFlag. destruct b; [|done]. apply Forall_app. split; [done|].
  constructor; [by exists n, []|done].
Qed.

(** The tags after the id, which do not depend on it. *)
Definition metadata_rest (m : GroupMetadata) : tags := tail (metadata_tag_list m).

Lemma ifset_cons t ts n v : appendIfSet (t :: ts) n v = t :: appendIfSet ts n v.
Proof. unfold appendIfSet. by case_bool_decide. Qed.
Lemma flag_cons t ts n b : appendFlag (t :: ts) n b = t :: appendFlag ts n b.
Proof. unfold appendFlag. by destruct b. Qed.

Lemma metadata_rest_spec m :
  metadata_tag_list m = [bs "d"; mID m] :: metadata_rest m /\
  metadata_rest (with_ID m []) = metadata_rest m /\ Forall (named_in meta_names) (metadata_rest m).
Proof.
  destruct m as [i n p b a pa ch pr re hi cl lk sk ss]. unfold metadata_rest, metadata_tag_list. cbn [with_ID mID mName mPicture
    mBanner mAbout mParent mChildren mPrivate mRestricted mHidden mClosed mLiveKit mSupportedKinds mSupportedKindsSet].
  rewrite !ifset_cons. cbn [app]. rewrite !flag_cons.
  assert (HF : Forall (named_in meta_names) (appendFlag (appendFlag (appendFlag (appendFlag (appendFlag ((appendIfSet
    (appendIfSet (appendIfSet (appendIfSet (appendIfSet [] (bs "name") n) (bs "picture") p) (bs "banner") b) (bs "about") a)
    (bs "parent") pa) ++ map (fun c => [bs "child"; c]) ch) (bs "private") pr) (bs "restricted") re) (bs "hidden") hi) (bs "closed") cl)
    (bs "livekit") lk)).
  { do 5 (apply named_flag; [|by apply (bool_decide_unpack _)]). apply Forall_app. split.
    - do 5 (apply named_ifset; [|by apply (bool_decide_unpack _)]). done.
    - apply Forall_map, Forall_true. intros c. exists (bs "child"), [c]. split; [done|by apply (bool_decide_unpack _)]. }
  destruct ss; cbn [app tail]; split; try done. split; [done|]. apply Forall_app. split; [done|].
  constructor; [|done]. eexists _, _. split; [done|]. by apply (bool_decide_unpack _).
Qed.

(** Decide a closed membership in, or absence from, a list of names. *)
Ltac by_names := by apply (bool_decide_unpack _).

Lemma edit_fields now pk gid p :
  meta_ok (pFields p) ->
  parseMetadataFields (Tags (NewEditMetadata now pk gid p)) = Ok (with_ID (pFields p) []).
Proof.
  intros HM. destruct (metadata_rest_spec (pFields p)) as (HL & HR & HN).
  assert (HM' : meta_ok (with_ID (pFields p) [])) by by destruct (pFields p).
  destruct (metadata_list_parse _ HM') as [hp HT]. destruct (metadata_rest_spec (with_ID (pFields p) [])) as (HL' & _ & _).
  rewrite HL', HR in HT. replace (mID (with_ID (pFields p) [])) with (@nil byte) in HT by by destruct (pFields p).
  unfold parseMetadataFields, ParseGroupMetadata, NewEditMetadata, NewGroupMetadata, NewUnsignedEvent. cbn [Kind Tags].
  change (KindGroupMetadata =? KindGroupMetadata) with true. cbn [negb]. rewrite HL.
  change (List.filter (fun t => negb (tag_is (bs "d") t)) ([bs "d"; mID (pFields p)] :: ?l)) with (List.filter (fun t => negb (tag_is (bs "d") t)) l).
  rewrite (filter_skip meta_names) by (done || by_names).
  change (metadata_tags ?st (?t1 :: [TagGroupID; gid] :: ?l)) with (metadata_tags st (t1 :: l)).
  rewrite HT. cbn. by destruct (pFields p).
Qed.

(** ** Lists of references *)

Definition valid_key (s : gostring) : Prop := Validate32Key s = Ok tt.
Definition valid_addr (s : gostring) : Prop := is_ok (ParseATag s) = true.

Lemma parse_admins_map l :
  Forall (fun a => valid_key (aPubkey a)) l ->
  parse_admins (map (fun a => bs "p" :: aPubkey a :: aRoles a) l) = Ok l.
Proof.
  induction 1 as [|[pk ro] l Hk _ IH]; [done|]. cbn [map parse_admins aPubkey aRoles].
  change (tag2 (bs "p") (bs "p" :: pk :: ro)) with (Some pk). unfold check_pubkey. rewrite Hk. cbn [mbind outcome_bind wrap_err].
  rewrite IH. done.
Qed.

Lemma parse_keys_map name l :
  Forall valid_key l -> parse_keys name (map (fun m => [name; m]) l) = Ok l.
Proof.
  induction 1 as [|pk l Hk _ IH]; [done|]. cbn [map parse_keys tag2]. rewrite bool_decide_eq_true_2 by done.
  unfold check_pubkey. rewrite Hk. cbn [mbind outcome_bind wrap_err]. by rewrite IH.
Qed.

Lemma parse_roles_map l : parse_roles (map role_tag l) = l.
Proof.
  induction l as [|[n d] l IH]; [done|]. cbn [map]. unfold role_tag at 1. cbn [rName rDescription]. case_bool_decide as E.
  - subst d. change (parse_roles ([bs "role"; n] :: ?ts)) with (mkRole n [] :: parse_roles ts). by rewrite IH.
  - change (parse_roles ([bs "role"; n; d] :: ?ts)) with (mkRole n d :: parse_roles ts). by rewrite IH.
Qed.

Lemma parse_pins ts events addresses :
  Forall valid_key events -> Forall valid_addr addresses -> parsePinReferences ts = Ok ([], []) ->
  parsePinReferences (appendPinReferences ts events addresses) = Ok (events, addresses).
Proof.
  intros HE HA HT. unfold appendPinReferences.
  assert (HAd : parsePinReferences (map (fun a => [bs "a"; a]) addresses) = Ok ([], addresses)).
  { clear HT HE. induction HA as [|a l Ha _ IH]; [done|]. cbn [map parsePinReferences].
    change (tag2 (bs "e") [bs "a"; a]) with (@None gostring). change (tag2 (bs "a") [bs "a"; a]) with (Some a). cbn beta iota.
    unfold valid_addr in Ha. destruct (ParseATag a); [|done..]. cbn [wrap_err mbind outcome_bind]. by rewrite IH. }
  assert (HEv : parsePinReferences (map (fun id => [bs "e"; id]) events ++ map (fun a => [bs "a"; a]) addresses) = Ok (events, addresses)).
  { clear HT. induction HE as [|e l He _ IH]; [done|]. cbn [map app parsePinReferences].
    change (tag2 (bs "e") [bs "e"; e]) with (Some e). cbn beta iota. rewrite He. cbn [wrap_err mbind outcome_bind]. by rewrite IH. }
  revert HT. induction ts as [|t ts IH]; [done|]. cbn [app parsePinReferences].
  destruct (tag2 (bs "e") t) as [id|]; [|destruct (tag2 (bs "a") t) as [ad|]].
  - destruct (wrap_err _ (Validate32Key id)); cbn [mbind outcome_bind]; [|done..].
    by destruct (parsePinReferences ts).
  - destruct (wrap_err _ (ParseATag ad)); cbn [mbind outcome_bind]; [|done..].
    by destruct (parsePinReferences ts).
  - exact IH.
Qed.

(** The relay's own events: rosters, roles and pins survive their events. *)
Lemma lists_roundtrip now self id content admins members roles events addresses :
  Forall (fun a => valid_key (aPubkey a)) admins -> Forall valid_key members ->
  Forall valid_key events -> Forall valid_addr addresses ->
  ParseGroupAdmins (NewGroupAdmins now self id admins content) = Ok (mkGroupAdmins id admins) /\
  ParseGroupMembers (NewGroupMembers now self id members content) = Ok (mkGroupMembers id members) /\
  ParseLiveParticipants (NewLiveParticipants now self id members content) = Ok (mkLive id members) /\
  ParseGroupRoles (NewGroupRoles now self id roles content) = Ok (mkGroupRoles id roles) /\
  ParseGroupPinnedEvents (NewGroupPinnedEvents now self id events addresses content) = Ok (mkPinned id events addresses).
Proof.
  intros HA HM HE HAd.
  pose proof (parse_admins_map _ HA) as H1. pose proof (parse_keys_map (bs "p") _ HM) as H2.
  pose proof (parse_keys_map (bs "participant") _ HM) as H3. pose proof (parse_roles_map roles) as H4.
  pose proof (parse_pins [[bs "d"; id]] events addresses HE HAd eq_refl) as H5.
  split_and!.
  - change (ParseGroupAdmins _) with (l ← parse_admins (map (fun a => bs "p" :: aPubkey a :: aRoles a) admins); Ok (E := GroupErr) (mkGroupAdmins id l)).
    by rewrite H1.
  - change (ParseGroupMembers _) with (l ← parse_keys (bs "p") (map (fun m => [bs "p"; m]) members); Ok (E := GroupErr) (mkGroupMembers id l)).
    by rewrite H2.
  - change (ParseLiveParticipants _) with (l ← parse_keys (bs "participant") (map (fun m => [bs "participant"; m]) members); Ok (E := GroupErr) (mkLive id l)).
    by rewrite H3.
  - change (ParseGroupRoles _) with (Ok (E := GroupErr) (mkGroupRoles id (parse_roles (map role_tag roles)))). by rewrite H4.
  - change (ParseGroupPinnedEvents _) with
      (r ← parsePinReferences (appendPinReferences [[bs "d"; id]] events addresses); Ok (E := GroupErr) (mkPinned id r.1 r.2)).
    by rewrite H5.
Qed.

(** ** Moderation events *)

(** A moderation event whose group tag comes first. *)
Lemma parse_action now kind pk gid content ts pubkey roles code :
  IsModerationKind kind = true -> gid <> [] -> TimelineReferences ts = Ok [] ->
  action_tags ([], [], []) ts = Ok (pubkey, roles, code) ->
  ParseModerationAction (NewUnsignedEvent now kind pk content ([TagGroupID; gid] :: ts)) =
    (let all := [TagGroupID; gid] :: ts in
     let action eventID pe pa meta := mkAction kind gid content pubkey roles eventID code pe pa meta [] in
     if (kind =? KindPutUser) || (kind =? KindRemoveUser) then
       if bool_decide (pubkey = []) then Err ErrMissingPTag else Ok (action [] [] [] None)
     else if kind =? KindDeleteEvent then
       r ← parsePinReferences all; match r.1 with [] => Err ErrMissingETag | e :: _ => Ok (action e [] [] None) end
     else if kind =? KindCreateInvite then
       if bool_decide (code = []) then Err ErrMissingCodeTag else Ok (action [] [] [] None)
     else if kind =? KindUpdatePinList then r ← parsePinReferences all; Ok (action [] r.1 r.2 None)
     else if kind =? KindEditMetadata then
       meta ← parseMetadataFields all; Ok (action [] [] [] (Some (with_ID meta gid)))
     else Ok (action [] [] [] None)).
Proof.
  intros HK Hg HT HA. unfold ParseModerationAction, NewUnsignedEvent. cbn [Kind Tags Content]. rewrite HK. cbn [negb].
  replace (GroupIDFromTags ([TagGroupID; gid] :: ts)) with (Ok (E := GroupErr) gid) by by destruct gid.
  change (TimelineReferences ([TagGroupID; gid] :: ts)) with (TimelineReferences ts).
  change (action_tags ([], [], []) ([TagGroupID; gid] :: ts)) with (action_tags ([], [], []) ts).
  rewrite HT, HA. done.
Qed.

(** Each builder's moderation event parses to the action it was built from. *)
Lemma moderation_roundtrip now pk gid member roles eventID code events addresses p :
  gid <> [] -> valid_key member -> valid_key eventID -> code <> [] ->
  Forall valid_key events -> Forall valid_addr addresses -> meta_ok (pFields p) ->
  let act kind := mkAction kind gid [] in
  ParseModerationAction (NewPutUser now pk gid member roles) = Ok (act KindPutUser member roles [] [] [] [] None []) /\
  ParseModerationAction (NewRemoveUser now pk gid member) = Ok (act KindRemoveUser member [] [] [] [] [] None []) /\
  ParseModerationAction (NewDeleteEvent now pk gid eventID) = Ok (act KindDeleteEvent [] [] eventID [] [] [] None []) /\
  ParseModerationAction (NewCreateGroup now pk gid) = Ok (act KindCreateGroup [] [] [] [] [] [] None []) /\
  ParseModerationAction (NewDeleteGroup now pk gid) = Ok (act KindDeleteGroup [] [] [] [] [] [] None []) /\
  ParseModerationAction (NewCreateInvite now pk gid code) = Ok (act KindCreateInvite [] [] [] code [] [] None []) /\
  ParseModerationAction (NewUpdatePinList now pk gid events addresses) = Ok (act KindUpdatePinList [] [] [] [] events addresses None []) /\
  ParseModerationAction (NewEditMetadata now pk gid p) =
    Ok (mkAction KindEditMetadata gid (pContent p) [] [] [] [] [] [] (Some (with_ID (pFields p) gid)) []).
Proof.
  intros Hg Hm He Hc HE HA HM act.
  assert (Hm' : member <> []) by by intros ->.
  assert (HP : forall r, action_tags ([], [], []) [bs "p" :: member :: r] = Ok (member, r, [])).
  { intros r. cbn [action_tags]. change (tag2 (bs "p") (bs "p" :: member :: r)) with (Some member). cbn beta iota.
    rewrite bool_decide_eq_true_2 by done. cbn [negb]. unfold check_pubkey. by rewrite Hm. }
  assert (HPin : Forall (named_in [bs "e"; bs "a"]) (map (fun id => [bs "e"; id]) events ++ map (fun a => [bs "a"; a]) addresses)).
  { apply Forall_app. split; apply Forall_map, Forall_true; intros x; eexists _, _; (split; [done|by_names]). }
  destruct (metadata_rest_spec (pFields p)) as (HL & HR & HN).
  split_and!.
  - unfold NewPutUser. erewrite parse_action; [|done|done|done|apply HP]. cbn. by rewrite bool_decide_eq_false_2.
  - unfold NewRemoveUser. erewrite parse_action; [|done|done|done|apply HP]. cbn. by rewrite bool_decide_eq_false_2.
  - unfold NewDeleteEvent. erewrite parse_action; [|done|done|done|reflexivity].
    change ([TagGroupID; gid] :: [[bs "e"; eventID]]) with (appendPinReferences [[TagGroupID; gid]] [eventID] []).
    cbv zeta. rewrite parse_pins; [done|by repeat constructor|done|done].
  - unfold NewCreateGroup. by erewrite parse_action.
  - unfold NewDeleteGroup. by erewrite parse_action.
  - unfold NewCreateInvite. erewrite parse_action; [|done|done|done|reflexivity]. cbv zeta. by rewrite (bool_decide_eq_false_2 (code = [])).
  - unfold NewUpdatePinList. unfold appendPinReferences. cbn [app].
    erewrite parse_action; [|done|done|by apply (TimelineReferences_skip [bs "e"; bs "a"]); [|by_names]|
      by apply (action_tags_skip [bs "e"; bs "a"]); [|by_names|by_names]].
    change ([TagGroupID; gid] :: ?l) with (appendPinReferences [[TagGroupID; gid]] events addresses).
    cbv zeta. rewrite parse_pins; done.
  - pose proof (edit_fields now pk gid p HM) as HF. unfold NewEditMetadata in HF |- *. cbn [Tags NewGroupMetadata NewUnsignedEvent] in HF |- *.
    rewrite HL in HF |- *. change (List.filter (fun t => negb (tag_is (bs "d") t)) ([bs "d"; mID (pFields p)] :: ?l))
      with (List.filter (fun t => negb (tag_is (bs "d") t)) l) in HF |- *.
    rewrite (filter_skip meta_names) in HF |- * by (done || by_names).
    erewrite parse_action; [|done|done|by apply (TimelineReferences_skip meta_names); [|by_names]|
      by apply (action_tags_skip meta_names); [|by_names|by_names]].
    cbv zeta. rewrite HF. cbn. by destruct (pFields p).
Qed.

(** ** Roles *)

Definition str_le (a b : gostring) : Prop := Cmp.ltb b a = false.

#[global] Instance str_le_trans : Transitive str_le.
Proof.
  intros a b c Hab Hbc. unfold str_le in *. destruct (Cmp.ltb c a) eqn:E; [|done].
  destruct (Cmp.ltb a b) eqn:Eab.
  - by rewrite (Cmp.ltb_trans _ _ _ E Eab) in Hbc.
  - assert (a = b) as -> by by apply Cmp.ltb_total. congruence.
Qed.

#[global] Instance str_le_antisym : AntiSymm (=) str_le.
Proof. intros a b Hab Hba. by apply Cmp.ltb_total. Qed.

Lemma insert_string_perm s l : insert_string s l ≡ₚ s :: l.
Proof.
  induction l as [|x l IH]; [done|]. cbn. destruct (Cmp.ltb x s); [|done]. rewrite IH. apply Permutation_swap.
Qed.

Lemma sort_Strings_perm l : sort_Strings l ≡ₚ l.
Proof. induction l as [|x l IH]; [done|]. cbn. rewrite insert_string_perm. by rewrite IH. Qed.

Lemma insert_string_sorted s l : StronglySorted str_le l -> StronglySorted str_le (insert_string s l).
Proof.
  induction 1 as [|x l HS IH HF]; cbn; [by repeat constructor|]. destruct (Cmp.ltb x s) eqn:E.
  - constructor; [done|]. rewrite insert_string_perm. constructor; [|done]. unfold str_le.
    destruct (Cmp.ltb s x) eqn:E2; [|done]. pose proof (Cmp.ltb_trans _ _ _ E E2) as H. by rewrite Cmp.ltb_irrefl in H.
  - constructor; [by constructor|]. constructor; [done|]. eapply Forall_impl; [done|]. intros y Hy. by transitivity x.
Qed.

Lemma sort_Strings_sorted l : StronglySorted str_le (sort_Strings l).
Proof. induction l as [|x l IH]; [constructor|]. by apply insert_string_sorted. Qed.

(** The roles a relay advertises are sorted by name, one for each role of the
    policy, whatever order its map is ranged over in. *)
Lemma Roles_order p names names' descriptions :
  names ≡ₚ names' ->
  Roles p names descriptions = Roles p names' descriptions /\
  map rName (Roles p names descriptions) ≡ₚ names /\ StronglySorted str_le (map rName (Roles p names descriptions)).
Proof.
  intros HP. unfold Roles. rewrite !map_map. cbn [rName role_of]. rewrite map_id. split_and!.
  - f_equal. apply (StronglySorted_unique str_le); [apply sort_Strings_sorted..|]. by rewrite !sort_Strings_perm.
  - apply sort_Strings_perm.
  - apply sort_Strings_sorted.
Qed.

(** ** What an accepted action holds *)

Lemma GroupIDFromTags_nonempty ts gid : GroupIDFromTags ts = Ok gid -> gid <> [].
Proof.
  induction ts as [|t ts IH]; [done|]. cbn [GroupIDFromTags]. destruct (tag2 TagGroupID t) as [[|c v]|]; [done| |exact IH]. by intros [= <-].
Qed.

Lemma action_tags_key st ts st' :
  (st.1.1 = [] \/ valid_key st.1.1) -> action_tags st ts = Ok st' -> st'.1.1 = [] \/ valid_key st'.1.1.
Proof.
  revert st. induction ts as [|t ts IH]; intros [[pk ro] co] Hst; cbn [action_tags fst]; [by intros [= <-]|].
  destruct (tag2 (bs "p") t) as [k|]; [|by destruct (tag2 (bs "code") t); apply IH].
  destruct (negb _); [by apply IH|]. unfold check_pubkey. destruct (Validate32Key k) as [[]|e|] eqn:E; [|done..].
  cbn [wrap_err mbind outcome_bind]. apply IH. by right.
Qed.

Ltac kinds :=
  unfold KindPutUser, KindRemoveUser, KindCreateInvite, KindEditMetadata, KindDeleteEvent, KindUpdatePinList in *;
  split_and!; try done; intros; try (exfalso; lia).

Lemma action_sound ev a :
  ParseModerationAction ev = Ok a ->
  actKind a = Kind ev /\ GroupIDFromTags (Tags ev) = Ok (actGroupID a) /\ actGroupID a <> [] /\
  (Kind ev = KindPutUser \/ Kind ev = KindRemoveUser -> valid_key (actPubkey a)) /\
  (Kind ev = KindCreateInvite -> actCode a <> []) /\
  (Kind ev = KindEditMetadata -> exists m, actMetadata a = Some m /\ mID m = actGroupID a).
Proof.
  unfold ParseModerationAction. destruct (IsModerationKind (Kind ev)); [|done]. cbn [negb].
  destruct (GroupIDFromTags (Tags ev)) as [gid|e|] eqn:Eg; [|done..]. apply GroupIDFromTags_nonempty in Eg as Hg.
  destruct (TimelineReferences (Tags ev)) as [prev|e|]; [|done..]. cbn [mbind outcome_bind].
  destruct (action_tags ([], [], []) (Tags ev)) as [[[pk ro] co]|e|] eqn:Ea; [|done..].
  apply action_tags_key in Ea as Hk; [|by left]. cbn [fst] in Hk. cbn [mbind outcome_bind]. intros HR. cbn beta iota zeta in HR.
  destruct ((Kind ev =? KindPutUser) || (Kind ev =? KindRemoveUser)) eqn:E1.
  { case_bool_decide as Ep; [done|]. injection HR as <-. cbn. destruct Hk as [|Hk]; [done|]. apply orb_true_iff in E1. rewrite !Z.eqb_eq in E1.
    unfold KindPutUser, KindRemoveUser, KindCreateInvite, KindEditMetadata in *. split_and!; try done; intros HE; lia. }
  apply orb_false_iff in E1 as [E1 E2]. bool_prop.
  destruct (Kind ev =? KindDeleteEvent) eqn:E3.
  { bool_prop. destruct (parsePinReferences (Tags ev)) as [[[|e es] as_]|e|]; [done| |done..]. injection HR as <-. cbn.
    clear - Hg E1 E2 E3 Hk. kinds. }
  destruct (Kind ev =? KindCreateInvite) eqn:E4.
  { bool_prop. case_bool_decide as Ec; [done|]. injection HR as <-. cbn. clear - Hg E1 E2 E4 Ec. kinds. }
  destruct (Kind ev =? KindUpdatePinList) eqn:E5.
  { bool_prop. destruct (parsePinReferences (Tags ev)) as [[es as_]|e|]; [|done..]. injection HR as <-. cbn. clear - Hg E1 E2 E5 Hk. kinds. }
  bool_prop. destruct (Kind ev =? KindEditMetadata) eqn:E6.
  { bool_prop. destruct (parseMetadataFields (Tags ev)) as [m|e|]; [|done..]. injection HR as <-. cbn.
    assert (HM : exists m0, Some (with_ID m gid) = Some m0 /\ mID m0 = gid) by (eexists; split; [done|by destruct m]).
    clear - Hg E1 E2 E6 HM. kinds. }
  bool_prop. injection HR as <-. cbn. clear - Hg E1 E2 E4 E6. kinds.
Qed.

(** ** An example *)

Definition sample_key : gostring := repeat "a"%byte 64.
Definition sample_fields : GroupMetadata :=
  mkGroupMetadata (bs "club") (bs "Club") [] [] [] (bs "top") [bs "sub"] true false false true false [9; 11] true.
Definition sample_params : GroupMetadataParams := mkMetadataParams sample_key sample_fields (bs "moved").

Lemma metadata_roundtrip_witness : ParseGroupMetadata (NewGroupMetadata 10 sample_params) = Ok sample_fields.
Proof. apply (metadata_roundtrip 10 sample_params). split; [repeat constructor; done|done]. Defined.

Lemma lists_roundtrip_witness :
  ParseGroupAdmins (NewGroupAdmins 10 sample_key (bs "club") [mkAdmin sample_key [bs "admin"]] []) = Ok (mkGroupAdmins (bs "club") [mkAdmin sample_key [bs "admin"]]).
Proof.
  apply (lists_roundtrip 10 sample_key (bs "club") [] [mkAdmin sample_key [bs "admin"]] [sample_key] [] [sample_key] []);
    repeat constructor; vm_compute; reflexivity.
Defined.

Lemma moderation_roundtrip_witness :
  ParseModerationAction (NewPutUser 10 sample_key (bs "club") sample_key [bs "admin"])
  = Ok (mkAction KindPutUser (bs "club") [] sample_key [bs "admin"] [] [] [] [] None []).
Proof.
  apply (moderation_roundtrip 10 sample_key (bs "club") sample_key [bs "admin"] sample_key (bs "x") [sample_key] [] sample_params);
    first [discriminate | (repeat constructor; vm_compute; reflexivity) | (split; [repeat constructor; done|done])].
Defined.
