(* ===== verification/GroupStore.v ===== *)
(** * relay: the records of groups

    [relay/store_groups.go]: the record of a group, its roster, and the two
    buckets that persist groups and their invites.  The JSON codec of the
    records is the class [GroupJSON]; a bucket that does not exist yet is [None].
    A failed transaction is rolled back. *)

From S2P Require Import Prelude GoLib Bolt Sha256 NostrUtils Pow Event Filter StoreDb.

Record GroupMember := mkMember { Pubkey : gostring; MRoles : list gostring }.

Record GroupMetadataFields := mkFields {
  fName : gostring; fPicture : gostring; fBanner : gostring; fAbout : gostring;
  fParent : gostring; fChildren : list gostring;
  fPrivate : bool; fRestricted : bool; fHidden : bool; fClosed : bool; fLiveKit : bool;
  fSupportedKinds : list Z; fSupportedKindsSet : bool;
}.

Record GroupPins := mkPins { pinEvents : list gostring; pinAddresses : list gostring }.

Record GroupRecord := mkGroup {
  grpID : gostring; Metadata : GroupMetadataFields; Members : list GroupMember; Pins : GroupPins; grpCreatedAt : Z;
}.

Record GroupInvite := mkInvite { invGroupID : gostring; invCode : gostring; invCreatedAt : Z; invUsed : bool }.

#[global] Instance GroupMember_eq_dec : EqDecision GroupMember.
Proof. solve_decision. Defined.
#[global] Instance GroupMetadataFields_eq_dec : EqDecision GroupMetadataFields.
Proof. solve_decision. Defined.
#[global] Instance GroupPins_eq_dec : EqDecision GroupPins.
Proof. solve_decision. Defined.
#[global] Instance GroupRecord_eq_dec : EqDecision GroupRecord.
Proof. solve_decision. Defined.
#[global] Instance GroupInvite_eq_dec : EqDecision GroupInvite.
Proof. solve_decision. Defined.

(** ** The roster *)

Definition member (r : GroupRecord) (pubkey : gostring) : option GroupMember :=
  List.find (fun m => bool_decide (Pubkey m = pubkey)) (Members r).

Definition rec_IsMember (r : GroupRecord) (pubkey : gostring) : bool :=
  match member r pubkey with Some _ => true | None => false end.

Definition rec_IsAdmin (r : GroupRecord) (pubkey : gostring) : bool :=
  match member r pubkey with Some m => negb (bool_decide (MRoles m = [])) | None => false end.

Definition RolesFor (r : GroupRecord) (pubkey : gostring) : list gostring :=
  match member r pubkey with Some m => MRoles m | None => [] end.

Definition with_Members (r : GroupRecord) (ms : list GroupMember) : GroupRecord :=
  mkGroup (grpID r) (Metadata r) ms (Pins r) (grpCreatedAt r).

(** The loop of withMember, and whether it replaced an entry. *)
Fixpoint replace_member (m : GroupMember) (l : list GroupMember) : list GroupMember * bool :=
  match l with
  | [] => ([], false)
  | existing :: l =>
      let '(ms, replaced) := replace_member m l in
      if bool_decide (Pubkey existing = Pubkey m) then (m :: ms, true) else (existing :: ms, replaced)
  end.

Definition withMember (r : GroupRecord) (m : GroupMember) : GroupRecord :=
  let '(ms, replaced) := replace_member m (Members r) in
  with_Members r (if replaced then ms else ms ++ [m]).

Definition withoutMember (r : GroupRecord) (pubkey : gostring) : GroupRecord :=
  with_Members r (List.filter (fun existing => negb (bool_decide (Pubkey existing = pubkey))) (Members r)).

(** ** The buckets *)

(** encoding/json on the records; Marshal does not fail on them. *)
Class GroupJSON := {
  MarshalGroup : GroupRecord -> gostring;
  UnmarshalGroup : gostring -> option GroupRecord;
  MarshalInvite : GroupInvite -> gostring;
  UnmarshalInvite : gostring -> option GroupInvite;
  (** memberNoticeContent: type, group and actor *)
  MarshalNotice : gostring -> gostring -> gostring -> gostring;
}.

(** A record that survives its codec. *)
Definition group_stable `{!GroupJSON} (r : GroupRecord) : Prop := UnmarshalGroup (MarshalGroup r) = Some r.
Definition invite_stable `{!GroupJSON} (i : GroupInvite) : Prop := UnmarshalInvite (MarshalInvite i) = Some i.

Inductive InviteErr := ErrGroupInviteNotFound | ErrGroupInviteExhausted | InviteStore (e : StoreErr).

Section Buckets.
Context {Bolt0 : Bolt} {GroupJSON0 : GroupJSON}.

(** CreateBucketIfNotExists *)
Definition ensure_bucket (b : option Bucket) : Bucket := default EmptyBucket b.

Definition GetGroup (b : option Bucket) (id : gostring) : outcome StoreErr (option GroupRecord) :=
  match b with
  | None => Ok None
  | Some b => match Get b id with
              | None => Ok None
              | Some data => match UnmarshalGroup data with Some r => Ok (Some r) | None => Err ErrEventJSON end
              end
  end.

Definition PutGroup (b : option Bucket) (r : GroupRecord) : outcome StoreErr (option Bucket) :=
  match Put (ensure_bucket b) (grpID r) (MarshalGroup r) with
  | Some b => Ok (Some b)
  | None => Err ErrBoltPut
  end.

Definition DeleteGroup (b : option Bucket) (id : gostring) : option Bucket :=
  match b with None => None | Some b => Some (Delete b id) end.

(** The loop of ForEach over the values of a bucket. *)
Fixpoint unmarshal_all (l : list (gostring * gostring)) : outcome StoreErr (list GroupRecord) :=
  match l with
  | [] => Ok []
  | (_, v) :: l => match UnmarshalGroup v with
                   | None => Err ErrEventJSON
                   | Some r => rs ← unmarshal_all l; Ok (r :: rs)
                   end
  end.

Definition ListGroups (b : option Bucket) : outcome StoreErr (list GroupRecord) :=
  match b with None => Ok [] | Some b => unmarshal_all (ascend b []) end.

(** ** Invites *)

Definition groupInviteKey (groupID code : gostring) : gostring := groupID ++ [x00] ++ code.

Definition PutGroupInvite (b : option Bucket) (inv : GroupInvite) : outcome StoreErr (option Bucket) :=
  match Put (ensure_bucket b) (groupInviteKey (invGroupID inv) (invCode inv)) (MarshalInvite inv) with
  | Some b => Ok (Some b)
  | None => Err ErrBoltPut
  end.

Definition GetGroupInvite (b : option Bucket) (groupID code : gostring) : outcome StoreErr (option GroupInvite) :=
  match b with
  | None => Ok None
  | Some b => match Get b (groupInviteKey groupID code) with
              | None => Ok None
              | Some data => match UnmarshalInvite data with Some i => Ok (Some i) | None => Err ErrEventJSON end
              end
  end.

Definition ConsumeGroupInvite (b : option Bucket) (groupID code : gostring)
    : outcome InviteErr (option Bucket * GroupInvite) :=
  let b := ensure_bucket b in
  let key := groupInviteKey groupID code in
  match Get b key with
  | None => Err ErrGroupInviteNotFound
  | Some data =>
      match UnmarshalInvite data with
      | None => Err (InviteStore ErrEventJSON)
      | Some inv =>
          if invUsed inv then Err ErrGroupInviteExhausted else
          let inv := mkInvite (invGroupID inv) (invCode inv) (invCreatedAt inv) true in
          match Put b key (MarshalInvite inv) with
          | None => Err (InviteStore ErrBoltPut)
          | Some b => Ok (Some b, inv)
          end
      end
  end.

End Buckets.
