(* ===== verification/Groups.v ===== *)
(** * relay: group hosting

    [relay/groups_cache.go], [relay/groups.go] and [relay/groups_notices.go]: the
    groups a relay hosts and what moderation events and requests do to them.
    [GroupsService] holds the cache, the buckets behind it and the settings; an
    operation is a computation [M] over it, in which [None] is a run-time panic.
    The event store is the class [EventDB], as the handlers use it.  The clock
    is an argument: one reading per request.  Every handler sends one OK, its
    result. *)

From S2P Require Import Prelude GoLib Bolt Sha256 NostrUtils Pow Event Filter StoreDb StoreScan Nip29 GroupStore.

(** What the handlers ask of the event store.  The task of an insertion can
    commit and still report an error (a duplicate among its events). *)
Class EventDB := {
  EvState : Type;
  QueryEvents : EvState -> SubscriptionFilter -> outcome StoreErr (list Event);
  FindEvents : EvState -> SubscriptionFilter -> outcome StoreErr (list PotentialEvent);
  DeleteAll : EvState -> list PotentialEvent -> outcome StoreErr EvState;
  InsertEvents : EvState -> list Event -> outcome StoreErr (EvState * option StoreErr);
}.

Record MemberNoticeKinds := mkNoticeKinds { Added : Z; Removed : Z }.
#[global] Instance MemberNoticeKinds_eq_dec : EqDecision MemberNoticeKinds.
Proof. solve_decision. Defined.

(** A connection, as far as groups are concerned: the relay's identity and the
    keys authenticated on it. *)
Record Session := mkSession { selfPubkey : gostring; PrivKey : gostring; readerPubkeys : list gostring }.

(** The OK message: a text, or a prefix and an error's text. *)
Inductive Message := Text (s : gostring) | Refusal (e : GroupErr).
Record OkResponse := mkOk { rEventID : gostring; Accepted : bool; rMessage : Message }.

Definition defaultGroupModerationPolicy : ModerationPolicy :=
  {[ bs "admin" := [KindPutUser; KindRemoveUser; KindEditMetadata; KindDeleteEvent; KindDeleteGroup; KindCreateInvite; KindUpdatePinList] ]}.

Definition DefaultMemberNoticeKinds : MemberNoticeKinds := mkNoticeKinds 44100 44101.

(** ** Functions on values *)

(** The map counts of isPermutation. *)
Definition count_up (counts : gmap gostring Z) (x : gostring) : gmap gostring Z :=
  <[x := default 0 (counts !! x) + 1]> counts.

Fixpoint count_down (counts : gmap gostring Z) (b : list gostring) : bool :=
  match b with
  | [] => true
  | x :: b =>
      let n := default 0 (counts !! x) - 1 in
      if n <? 0 then false else count_down (<[x := n]> counts) b
  end.

Definition isPermutation (a b : list gostring) : bool :=
  if negb (zlen a =? zlen b) then false else count_down (foldl count_up ∅ a) b.

Definition groupMetadataFieldsFromAction (m : option GroupMetadata) : GroupMetadataFields :=
  match m with
  | None => mkFields [] [] [] [] [] [] false false false false false [] false
  | Some m => mkFields (mName m) (mPicture m) (mBanner m) (mAbout m) (mParent m) (mChildren m) (mPrivate m) (mRestricted m)
                       (mHidden m) (mClosed m) (mLiveKit m) (mSupportedKinds m) (mSupportedKindsSet m)
  end.

Definition with_Children (f : GroupMetadataFields) (cs : list gostring) : GroupMetadataFields :=
  mkFields (fName f) (fPicture f) (fBanner f) (fAbout f) (fParent f) cs (fPrivate f) (fRestricted f) (fHidden f) (fClosed f)
           (fLiveKit f) (fSupportedKinds f) (fSupportedKindsSet f).
Definition with_Parent (f : GroupMetadataFields) (p : gostring) : GroupMetadataFields :=
  mkFields (fName f) (fPicture f) (fBanner f) (fAbout f) p (fChildren f) (fPrivate f) (fRestricted f) (fHidden f) (fClosed f)
           (fLiveKit f) (fSupportedKinds f) (fSupportedKindsSet f).
Definition with_Metadata (r : GroupRecord) (f : GroupMetadataFields) : GroupRecord :=
  mkGroup (grpID r) f (Members r) (Pins r) (grpCreatedAt r).
Definition with_Pins (r : GroupRecord) (p : GroupPins) : GroupRecord :=
  mkGroup (grpID r) (Metadata r) (Members r) p (grpCreatedAt r).

Definition newGroupRecord (now : Z) (id creator : gostring) : GroupRecord :=
  mkGroup id (mkFields [] [] [] [] [] [] true false false true false [] false) [mkMember creator [bs "admin"]] (mkPins [] []) now.

(** Tag filters of one value. *)
Definition tag_filter (name value : gostring) : gmap gostring (list gostring) := {[ name := [value] ]}.

Definition tagsEqual (a b : tags) : bool := bool_decide (a = b).

Section Groups.
Context {GoLower0 : GoLower} {Schnorr0 : Schnorr} {Bolt0 : Bolt} {GroupJSON0 : GroupJSON} {EventDB0 : EventDB}.

Record GroupsService := mkGroups {
  groupsB : option Bucket; invitesB : option Bucket; evs : EvState;
  cache : gmap gostring GroupRecord;
  policy : ModerationPolicy; relayAdmins : gset gostring; memberNotices : option MemberNoticeKinds;
  moderationLog : bool; pendingJoins : bool; roleDescriptions : gmap gostring gostring;
  signer : option (gostring * gostring);
  (** the errors of PutGroup so far, each of which its caller logs *)
  storeErrors : list StoreErr;
}.

Definition set_groupsB (g : GroupsService) b := mkGroups b (invitesB g) (evs g) (cache g) (policy g) (relayAdmins g)
  (memberNotices g) (moderationLog g) (pendingJoins g) (roleDescriptions g) (signer g) (storeErrors g).
Definition set_invitesB (g : GroupsService) b := mkGroups (groupsB g) b (evs g) (cache g) (policy g) (relayAdmins g)
  (memberNotices g) (moderationLog g) (pendingJoins g) (roleDescriptions g) (signer g) (storeErrors g).
Definition set_evs (g : GroupsService) e := mkGroups (groupsB g) (invitesB g) e (cache g) (policy g) (relayAdmins g)
  (memberNotices g) (moderationLog g) (pendingJoins g) (roleDescriptions g) (signer g) (storeErrors g).
Definition set_cache (g : GroupsService) c := mkGroups (groupsB g) (invitesB g) (evs g) c (policy g) (relayAdmins g)
  (memberNotices g) (moderationLog g) (pendingJoins g) (roleDescriptions g) (signer g) (storeErrors g).

Definition log_error (g : GroupsService) (e : StoreErr) := mkGroups (groupsB g) (invitesB g) (evs g) (cache g) (policy g)
  (relayAdmins g) (memberNotices g) (moderationLog g) (pendingJoins g) (roleDescriptions g) (signer g) (storeErrors g ++ [e]).

(** ** Computations *)

Definition M (A : Type) : Type := GroupsService -> option (GroupsService * A).

#[global] Instance M_ret : MRet M := fun A a g => Some (g, a).
#[global] Instance M_bind : MBind M := fun A B k m g =>
  match m g with Some (g', a) => k a g' | None => None end.

Definition panics {A} : M A := fun _ => None.
Definition get : M GroupsService := fun g => Some (g, g).
Definition put_cache (c : gmap gostring GroupRecord) : M unit := fun g => Some (set_cache g c, tt).

Fixpoint for_each {A} (f : A -> M unit) (l : list A) : M unit :=
  match l with
  | [] => mret tt
  | x :: l => _ ← f x; for_each f l
  end.

(** The event store's methods; an error changes nothing. *)
Definition queryEvents (f : SubscriptionFilter) : M (outcome StoreErr (list Event)) := fun g =>
  match QueryEvents (evs g) f with Panic => None | r => Some (g, r) end.
Definition findEvents (f : SubscriptionFilter) : M (outcome StoreErr (list PotentialEvent)) := fun g =>
  match FindEvents (evs g) f with Panic => None | r => Some (g, r) end.
Definition deleteAll (pes : list PotentialEvent) : M (option StoreErr) := fun g =>
  match DeleteAll (evs g) pes with Panic => None | Err e => Some (g, Some e) | Ok s => Some (set_evs g s, None) end.
Definition insertEvents (l : list Event) : M (option StoreErr) := fun g =>
  match InsertEvents (evs g) l with Panic => None | Err e => Some (g, Some e) | Ok (s, err) => Some (set_evs g s, err) end.

(** ** The cache and the settings *)

Definition cache_put (r : GroupRecord) : M unit := g ← get; put_cache (<[grpID r := r]> (cache g)).
Definition cache_remove (id : gostring) : M unit := g ← get; put_cache (base.delete id (cache g)).
Definition cache_replace (records : list GroupRecord) : M unit :=
  put_cache (foldl (fun c r => <[grpID r := r]> c) ∅ records).

Definition NewGroupsService (gb ib : option Bucket) (e : EvState) : GroupsService :=
  mkGroups gb ib e ∅ defaultGroupModerationPolicy ∅ None false false ∅ None [].

Definition LoadFromStore : M (option StoreErr) :=
  g ← get;
  match ListGroups (groupsB g) with
  | Ok records => _ ← cache_replace records; mret None
  | Err e => mret (Some e)
  | Panic => panics
  end.

Definition Count (g : GroupsService) : Z := Z.of_nat (size (cache g)).
Definition Exists (g : GroupsService) (id : gostring) : bool := match cache g !! id with Some _ => true | None => false end.
Definition isRelayAdmin (g : GroupsService) (pubkey : gostring) : bool := bool_decide (ToLower pubkey ∈ relayAdmins g).

(** A predicate on the record of a hosted group. *)
Definition cached (g : GroupsService) (id : gostring) (P : GroupRecord -> bool) : bool :=
  match cache g !! id with Some r => P r | None => false end.

Definition IsAdmin (g : GroupsService) (id pubkey : gostring) : bool :=
  cached g id (fun r => rec_IsAdmin r pubkey || isRelayAdmin g pubkey).
Definition IsMember (g : GroupsService) (id pubkey : gostring) : bool := cached g id (fun r => rec_IsMember r pubkey).
Definition CanPerform (g : GroupsService) (id pubkey : gostring) (kind : Z) : bool :=
  cached g id (fun r => if isRelayAdmin g pubkey then true else AllowsAny (policy g) (RolesFor r pubkey) kind).
Definition IsPrivate (g : GroupsService) (id : gostring) : bool := cached g id (fun r => fPrivate (Metadata r)).
Definition IsClosed (g : GroupsService) (id : gostring) : bool := cached g id (fun r => fClosed (Metadata r)).
Definition IsRestricted (g : GroupsService) (id : gostring) : bool := cached g id (fun r => fRestricted (Metadata r)).
Definition IsHidden (g : GroupsService) (id : gostring) : bool := cached g id (fun r => fHidden (Metadata r)).

(** PutGroup, then the cache. *)
Definition commit (r : GroupRecord) : M (option StoreErr) := fun g =>
  match PutGroup (groupsB g) r with
  | Ok b => Some (set_cache (set_groupsB g b) (<[grpID r := r]> (cache g)), None)
  | Err e => Some (log_error g e, Some e)
  | Panic => None
  end.

Definition Create (r : GroupRecord) : M (option StoreErr) := commit r.

Definition DeleteG (id : gostring) : M (option GroupRecord) := fun g =>
  let r := cache g !! id in
  Some (set_cache (set_groupsB g (DeleteGroup (groupsB g) id)) (base.delete id (cache g)), r).

(** Replace the record of a hosted group by [f] of it. *)
Definition update (id : gostring) (f : GroupRecord -> GroupRecord) : M (outcome StoreErr (option GroupRecord)) :=
  g ← get;
  match cache g !! id with
  | None => mret (Ok None)
  | Some cur =>
      err ← commit (f cur);
      match err with Some e => mret (Err e) | None => mret (Ok (Some (f cur))) end
  end.

Definition UpsertMember (id : gostring) (m : GroupMember) := update id (fun cur => withMember cur m).
Definition RemoveMember (id pubkey : gostring) := update id (fun cur => withoutMember cur pubkey).
Definition SetMetadata (id : gostring) (f : GroupMetadataFields) := update id (fun cur => with_Metadata cur f).
Definition SetPins (id : gostring) (p : GroupPins) := update id (fun cur => with_Pins cur p).
Definition SetChildren (id : gostring) (cs : list gostring) :=
  update id (fun cur => with_Metadata cur (with_Children (Metadata cur) cs)).
Definition SetParent (id parent : gostring) :=
  update id (fun cur => with_Metadata cur (with_Parent (Metadata cur) parent)).

Definition removeChild (parentID childID : gostring) : M (outcome StoreErr (option GroupRecord)) :=
  g ← get;
  match cache g !! parentID with
  | None => mret (Ok None)
  | Some parent => SetChildren parentID (List.filter (fun id => negb (bool_decide (id = childID))) (fChildren (Metadata parent)))
  end.

Definition addChild (parentID childID : gostring) : M (outcome StoreErr (option GroupRecord)) :=
  g ← get;
  match cache g !! parentID with
  | None => mret (Ok None)
  | Some parent => SetChildren parentID (fChildren (Metadata parent) ++ [childID])
  end.

(** The walk up the parents.  [None]: the fuel ran out. *)
Fixpoint cycle_walk (fuel : nat) (c : gmap gostring GroupRecord) (visited : gset gostring) (current groupID : gostring)
    : option bool :=
  match fuel with
  | O => None
  | S fuel =>
      if bool_decide (current = []) then Some false
      else if bool_decide (current = groupID) then Some true
      else if bool_decide (current ∈ visited) then Some false
      else match c !! current with
           | None => Some false
           | Some r => cycle_walk fuel c ({[current]} ∪ visited) (fParent (Metadata r)) groupID
           end
  end.

(** A walk visits each group at most once. *)
Definition createsCycle (g : GroupsService) (startParent groupID : gostring) : bool :=
  default false (cycle_walk (S (S (size (cache g)))) (cache g) ∅ startParent groupID).

Definition linkedAcrossPrivacy (g : GroupsService) (parent : gostring) (children : list gostring) (private : bool) : bool :=
  (negb (bool_decide (parent = [])) && negb (eqb (IsPrivate g parent) private)) ||
  existsb (fun c => Exists g c && negb (eqb (IsPrivate g c) private)) children.

Definition liveGroups (g : GroupsService) (ids : list gostring) : list gostring := List.filter (Exists g) ids.

(** ** Events the relay signs *)

Definition with_CreatedAt (ev : Event) (t : Z) : Event :=
  mkEvent (ID ev) (PubKey ev) t (Kind ev) (Tags ev) (Content ev) (Sig ev).

(** publishSelfSigned of relay/membership.go; its failures are logged. *)
Definition publishSelfSigned (s : Session) (ev : Event) : M unit :=
  if bool_decide (PrivKey s = []) then mret tt else
  match Sign ev (PrivKey s) with
  | (ev, Ok _) => _ ← insertEvents [ev]; mret tt
  | (_, Err _) => mret tt
  | (_, Panic) => panics
  end.

Definition mirrorCreatedAt (now : Z) (kind : Z) (groupID : gostring) : M Z :=
  r ← queryEvents (mkFilter None None (Some [kind]) (tag_filter (bs "d") groupID) 0 0 1 [] [] []);
  match r with
  | Ok (existing :: _) => if CreatedAt existing <? u64 now then mret (u64 now) else mret (u64 (CreatedAt existing + 1))
  | _ => mret (u64 now)
  end.

(** Stamp a mirror and publish it. *)
Definition publish_mirror (now : Z) (s : Session) (ev : Event) (groupID : gostring) : M unit :=
  t ← mirrorCreatedAt now (Kind ev) groupID;
  publishSelfSigned s (with_CreatedAt ev t).

Definition metadata_of (r : GroupRecord) : GroupMetadata :=
  let f := Metadata r in
  mkGroupMetadata (grpID r) (fName f) (fPicture f) (fBanner f) (fAbout f) (fParent f) (fChildren f) (fPrivate f) (fRestricted f)
    (fHidden f) (fClosed f) (fLiveKit f) (fSupportedKinds f) (fSupportedKindsSet f).

Definition publishGroupMetadataMirror (now : Z) (s : Session) (r : GroupRecord) : M unit :=
  publish_mirror now s (NewGroupMetadata now (mkMetadataParams (selfPubkey s) (metadata_of r) [])) (grpID r).

Definition roster_admins (r : GroupRecord) : list Admin :=
  map (fun m => mkAdmin (Pubkey m) (MRoles m)) (List.filter (fun m => negb (bool_decide (MRoles m = []))) (Members r)).

(** [None]: the nil pointer a vanished group would be. *)
Definition publishGroupRosterMirrors (now : Z) (s : Session) (r : option GroupRecord) : M unit :=
  match r with
  | None => panics
  | Some r =>
      _ ← publish_mirror now s (NewGroupAdmins now (selfPubkey s) (grpID r) (roster_admins r) []) (grpID r);
      publish_mirror now s (NewGroupMembers now (selfPubkey s) (grpID r) (map Pubkey (Members r)) []) (grpID r)
  end.

Definition publishGroupPinsMirror (now : Z) (s : Session) (r : GroupRecord) : M unit :=
  publish_mirror now s
    (NewGroupPinnedEvents now (selfPubkey s) (grpID r) (pinEvents (Pins r)) (pinAddresses (Pins r)) []) (grpID r).

(** Republish the metadata of a record that a setter may have changed. *)
Definition mirror_if (now : Z) (s : Session) (r : outcome StoreErr (option GroupRecord)) : M unit :=
  match r with Ok (Some r) => publishGroupMetadataMirror now s r | _ => mret tt end.

Definition publishMemberNotice (now : Z) (s : Session) (groupID mem actor cause : gostring) (added : bool) : M unit :=
  g ← get;
  match memberNotices g with
  | None => mret tt
  | Some kinds =>
      let '(kind, typ) := if added then (Added kinds, bs "member_added") else (Removed kinds, bs "member_removed") in
      let ts := [[bs "p"; mem]; [bs "h"; groupID]] ++ (if bool_decide (cause = []) then [] else [[bs "e"; cause]]) in
      publishSelfSigned s (mkEvent [] (selfPubkey s) (u64 now) kind ts (MarshalNotice typ groupID actor) [])
  end.

Definition service_Roles (g : GroupsService) : list GroupRole :=
  Nip29.Roles (policy g) (map fst (map_to_list (policy g))) (roleDescriptions g).

Definition publishRoles (now : Z) (pubkey privkey id : gostring) : M unit :=
  g ← get;
  let ev := NewGroupRoles now pubkey id (service_Roles g) [] in
  prev ← queryEvents (mkFilter None (Some [pubkey]) (Some [KindGroupRoles]) (tag_filter (bs "d") id) 0 0 1 [] [] []);
  let publish ev :=
    match Sign ev privkey with
    | (ev, Ok _) => _ ← insertEvents [ev]; mret tt
    | (_, Err _) => mret tt
    | (_, Panic) => panics
    end in
  match prev with
  | Ok [p] =>
      if tagsEqual (Tags p) (Tags ev) then mret tt
      else publish (if CreatedAt ev <=? CreatedAt p then with_CreatedAt ev (u64 (CreatedAt p + 1)) else ev)
  | _ => publish ev
  end.

(** [order]: the groups as the loop ranges over the snapshot. *)
Definition publishAllRoles (now : Z) (order : list gostring) : M unit :=
  g ← get;
  match signer g with
  | None => mret tt
  | Some (pubkey, privkey) => for_each (publishRoles now pubkey privkey) order
  end.

Definition recordModeration (ev : Event) : M unit :=
  g ← get;
  if negb (moderationLog g) then mret tt else _ ← insertEvents [ev]; mret tt.

(** Find and delete; a failure is logged. *)
Definition purge (f : SubscriptionFilter) : M unit :=
  pes ← findEvents f;
  match pes with
  | Ok ((_ :: _) as pes) => _ ← deleteAll pes; mret tt
  | _ => mret tt
  end.

Definition purge_filters (s : Session) (groupID : gostring) : list SubscriptionFilter :=
  [mkFilter None (Some [selfPubkey s])
     (Some [KindGroupMetadata; KindGroupAdmins; KindGroupMembers; KindGroupRoles; KindLiveParticipants; KindGroupPinnedEvents])
     (tag_filter (bs "d") groupID) 0 0 0 [] [] [];
   mkFilter None None None (tag_filter (bs "h") groupID) 0 0 0 [] [] []].

Definition purgeGroupEvents (s : Session) (groupID : gostring) : M unit := for_each purge (purge_filters s groupID).

Definition joins_filter (groupID pubkey : gostring) : SubscriptionFilter :=
  mkFilter None (Some [pubkey]) (Some [KindJoinRequest]) (tag_filter (bs "h") groupID) 0 0 0 [] [] [].

Definition clearPendingJoins (groupID pubkey : gostring) : M unit :=
  if bool_decide (pubkey = []) then mret tt else purge (joins_filter groupID pubkey).

(** ** Settings *)

Definition SetModerationPolicy (now : Z) (order : list gostring) (p : ModerationPolicy) : M unit :=
  _ ← (fun g => Some (mkGroups (groupsB g) (invitesB g) (evs g) (cache g) p (relayAdmins g) (memberNotices g) (moderationLog g)
                        (pendingJoins g) (roleDescriptions g) (signer g) (storeErrors g), tt)) : M unit;
  publishAllRoles now order.

Definition SetModerationLog (on : bool) : M unit := fun g =>
  Some (mkGroups (groupsB g) (invitesB g) (evs g) (cache g) (policy g) (relayAdmins g) (memberNotices g) on
          (pendingJoins g) (roleDescriptions g) (signer g) (storeErrors g), tt).

Definition SetPendingJoins (on : bool) : M unit := fun g =>
  Some (mkGroups (groupsB g) (invitesB g) (evs g) (cache g) (policy g) (relayAdmins g) (memberNotices g) (moderationLog g)
          on (roleDescriptions g) (signer g) (storeErrors g), tt).

Definition SetRoleDescriptions (now : Z) (order : list gostring) (d : gmap gostring gostring) : M unit :=
  _ ← (fun g => Some (mkGroups (groupsB g) (invitesB g) (evs g) (cache g) (policy g) (relayAdmins g) (memberNotices g)
                        (moderationLog g) (pendingJoins g) d (signer g) (storeErrors g), tt)) : M unit;
  publishAllRoles now order.

Definition SetRelayAdmins (pubkeys : list gostring) : M unit := fun g =>
  let set := list_to_set (map ToLower (List.filter (fun pk => negb (bool_decide (pk = []))) pubkeys)) in
  Some (mkGroups (groupsB g) (invitesB g) (evs g) (cache g) (policy g) set (memberNotices g) (moderationLog g)
          (pendingJoins g) (roleDescriptions g) (signer g) (storeErrors g), tt).

Definition SetMemberNotices (kinds : MemberNoticeKinds) : M unit := fun g =>
  let k := if bool_decide (kinds = mkNoticeKinds 0 0) then None else Some kinds in
  Some (mkGroups (groupsB g) (invitesB g) (evs g) (cache g) (policy g) (relayAdmins g) k (moderationLog g)
          (pendingJoins g) (roleDescriptions g) (signer g) (storeErrors g), tt).

Definition setSigner (pubkey privkey : gostring) : M unit := fun g =>
  if bool_decide (pubkey = []) || bool_decide (privkey = []) then Some (g, tt) else
  Some (mkGroups (groupsB g) (invitesB g) (evs g) (cache g) (policy g) (relayAdmins g) (memberNotices g) (moderationLog g)
          (pendingJoins g) (roleDescriptions g) (Some (pubkey, privkey)) (storeErrors g), tt).

(** ** Handlers *)

Definition refuse (ev : Event) (msg : gostring) : M OkResponse := mret (mkOk (ID ev) false (Text msg)).
Definition refuse_err (ev : Event) (e : GroupErr) : M OkResponse := mret (mkOk (ID ev) false (Refusal e)).
Definition accept (ev : Event) (msg : gostring) : M OkResponse := mret (mkOk (ID ev) true (Text msg)).

Definition handleCreate (now : Z) (s : Session) (ev : Event) : M OkResponse :=
  match GroupIDFromTags (Tags ev) with
  | Panic => panics
  | Err e => refuse_err ev e
  | Ok groupID =>
      g ← get;
      if Exists g groupID then
        mret (mkOk (ID ev) (IsAdmin g groupID (PubKey ev)) (Text (bs "duplicate: a group with that id already exists.")))
      else
        let r := newGroupRecord now groupID (PubKey ev) in
        err ← Create r;
        match err with
        | Some _ => refuse ev (bs "error: could not store group")
        | None =>
            _ ← publishGroupMetadataMirror now s r;
            _ ← publishGroupRosterMirrors now s (Some r);
            _ ← publishMemberNotice now s groupID (PubKey ev) (PubKey ev) (ID ev) true;
            _ ← (if bool_decide (PrivKey s = []) then mret tt else publishRoles now (selfPubkey s) (PrivKey s) (grpID r));
            _ ← recordModeration ev;
            accept ev (bs "info: group " ++ groupID ++ bs " created.")
        end
  end.

Definition handleDeleteGroup (now : Z) (s : Session) (ev : Event) : M OkResponse :=
  match GroupIDFromTags (Tags ev) with
  | Panic => panics
  | Err e => refuse_err ev e
  | Ok groupID =>
      g ← get;
      if negb (Exists g groupID) then refuse ev (bs "restricted: no such group.")
      else if negb (CanPerform g groupID (PubKey ev) KindDeleteGroup) then
        refuse ev (bs "restricted: only a group admin may delete this group.")
      else
        deleted ← DeleteG groupID;
        _ ← purgeGroupEvents s groupID;
        children ← match deleted with
                   | None => mret []
                   | Some d =>
                       _ ← for_each (fun m => publishMemberNotice now s groupID (Pubkey m) (PubKey ev) (ID ev) false) (Members d);
                       _ ← (if bool_decide (fParent (Metadata d) = []) then mret tt
                            else parent ← removeChild (fParent (Metadata d)) groupID; mirror_if now s parent);
                       mret (fChildren (Metadata d))
                   end;
        _ ← for_each (fun childID => child ← SetParent childID []; mirror_if now s child) children;
        accept ev (bs "info: group " ++ groupID ++ bs " deleted.")
  end.

(** The checks the moderation handlers share: the event parses, the group is
    hosted and its author may perform the action. *)
Definition moderate (ev : Event) (kind : Z) (denied : gostring) (act : ModerationAction -> M OkResponse) : M OkResponse :=
  match ParseModerationAction ev with
  | Panic => panics
  | Err e => refuse_err ev e
  | Ok action =>
      g ← get;
      if negb (Exists g (actGroupID action)) then refuse ev (bs "restricted: no such group.")
      else if negb (CanPerform g (actGroupID action) (PubKey ev) kind) then refuse ev denied
      else act action
  end.

Definition handlePutUser (now : Z) (s : Session) (ev : Event) : M OkResponse :=
  moderate ev KindPutUser (bs "restricted: you may not add members to this group.") (fun action =>
    g ← get;
    let wasMember := IsMember g (actGroupID action) (actPubkey action) in
    r ← UpsertMember (actGroupID action) (mkMember (actPubkey action) (actRoles action));
    match r with
    | Panic => panics
    | Err _ => refuse ev (bs "error: could not update group roster")
    | Ok r =>
        _ ← publishGroupRosterMirrors now s r;
        _ ← (if wasMember then mret tt
             else publishMemberNotice now s (actGroupID action) (actPubkey action) (PubKey ev) (ID ev) true);
        _ ← clearPendingJoins (actGroupID action) (actPubkey action);
        _ ← recordModeration ev;
        accept ev (bs "info: member added.")
    end).

Definition handleRemoveUser (now : Z) (s : Session) (ev : Event) : M OkResponse :=
  moderate ev KindRemoveUser (bs "restricted: you may not remove members from this group.") (fun action =>
    g ← get;
    let wasMember := IsMember g (actGroupID action) (actPubkey action) in
    r ← RemoveMember (actGroupID action) (actPubkey action);
    match r with
    | Panic => panics
    | Err _ => refuse ev (bs "error: could not update group roster")
    | Ok r =>
        _ ← publishGroupRosterMirrors now s r;
        _ ← (if wasMember
             then publishMemberNotice now s (actGroupID action) (actPubkey action) (PubKey ev) (ID ev) false else mret tt);
        _ ← clearPendingJoins (actGroupID action) (actPubkey action);
        _ ← recordModeration ev;
        accept ev (bs "info: member removed.")
    end).

(** Why a reparenting edit is refused. *)
Definition parent_refusal (g : GroupsService) (ev : Event) (groupID newParent : gostring) (private : bool) : option gostring :=
  if bool_decide (newParent = groupID) then Some (bs "restricted: a group cannot be its own parent.")
  else if negb (Exists g newParent) then Some (bs "restricted: the named parent group does not exist.")
  else if createsCycle g newParent groupID then Some (bs "restricted: that parent assignment would create a cycle.")
  else if negb (IsAdmin g newParent (PubKey ev)) then Some (bs "restricted: you must also be an admin of the new parent group.")
  else if negb (eqb private (IsPrivate g newParent)) then Some (bs "restricted: cannot link groups with different privacy settings.")
  else None.

(** Why an edit of the metadata is refused. *)
Definition edit_refusal (g : GroupsService) (ev : Event) (groupID : gostring) (m : GroupMetadata) : option gostring :=
  let current := cache g !! groupID in
  let oldParent := match current with Some r => fParent (Metadata r) | None => [] end in
  let newParent := mParent m in
  let reparenting := negb (bool_decide (newParent = oldParent)) in
  match (if reparenting && negb (bool_decide (newParent = []))
         then parent_refusal g ev groupID newParent (mPrivate m) else None) with
  | Some msg => Some msg
  | None =>
      match current with
      | None => None
      | Some cur =>
          if negb (eqb (mPrivate m) (fPrivate (Metadata cur))) &&
             linkedAcrossPrivacy g newParent (fChildren (Metadata cur)) (mPrivate m)
          then Some (bs "restricted: cannot change the privacy of a linked group; its parent and subgroups must share the same setting, so detach it first.")
          else if negb (isPermutation (liveGroups g (fChildren (Metadata cur))) (liveGroups g (mChildren m)))
          then Some (bs "restricted: this edit must re-list every current subgroup; none may be added or omitted here.")
          else None
      end
  end.

Definition handleEditMetadata (now : Z) (s : Session) (ev : Event) : M OkResponse :=
  moderate ev KindEditMetadata (bs "restricted: only a group admin may edit this group's metadata.") (fun action =>
    match actMetadata action with
    | None => panics
    | Some m =>
        g ← get;
        let groupID := actGroupID action in
        let oldParent := match cache g !! groupID with Some r => fParent (Metadata r) | None => [] end in
        let newParent := mParent m in
        match edit_refusal g ev groupID m with
        | Some msg => refuse ev msg
        | None =>
            let fields := with_Children (groupMetadataFieldsFromAction (Some m)) (liveGroups g (mChildren m)) in
            r ← SetMetadata groupID fields;
            match r with
            | Panic => panics
            | Err _ => refuse ev (bs "error: could not update group metadata")
            | Ok None => panics
            | Ok (Some r) =>
                _ ← publishGroupMetadataMirror now s r;
                _ ← (if bool_decide (newParent = oldParent) then mret tt else
                       _ ← (if bool_decide (oldParent = []) then mret tt
                            else old ← removeChild oldParent groupID; mirror_if now s old);
                       if bool_decide (newParent = []) then mret tt
                       else new ← addChild newParent groupID; mirror_if now s new);
                _ ← recordModeration ev;
                accept ev (bs "info: group metadata updated.")
            end
        end
    end).

Definition ids_filter (eventID : gostring) : SubscriptionFilter := mkFilter (Some [eventID]) None None ∅ 0 0 1 [] [] [].

Definition handleDeleteEvent (ev : Event) : M OkResponse :=
  moderate ev KindDeleteEvent (bs "restricted: only a group admin may delete group events.") (fun action =>
    targets ← queryEvents (ids_filter (actEventID action));
    match targets with
    | Panic => panics
    | Err _ => refuse ev (bs "error: could not look up that event")
    | Ok [] => refuse ev (bs "restricted: no such event.")
    | Ok (target :: _) =>
        if match GroupIDFromTags (Tags target) with
           | Ok targetGroupID => bool_decide (targetGroupID = actGroupID action)
           | _ => false
           end
        then
          pes ← findEvents (ids_filter (actEventID action));
          match pes with
          | Panic => panics
          | Err _ => refuse ev (bs "error: could not delete that event")
          | Ok pes =>
              err ← deleteAll pes;
              match err with
              | Some _ => refuse ev (bs "error: could not delete that event")
              | None => _ ← recordModeration ev; accept ev (bs "info: event deleted.")
              end
          end
        else refuse ev (bs "restricted: that event does not belong to this group.")
    end).

Definition put_invite (inv : GroupInvite) : M (option StoreErr) := fun g =>
  match PutGroupInvite (invitesB g) inv with
  | Ok b => Some (set_invitesB g b, None)
  | Err e => Some (g, Some e)
  | Panic => None
  end.

Definition consume_invite (groupID code : gostring) : M (outcome InviteErr GroupInvite) := fun g =>
  match ConsumeGroupInvite (invitesB g) groupID code with
  | Ok (b, inv) => Some (set_invitesB g b, Ok inv)
  | Err e => Some (g, Err e)
  | Panic => None
  end.

Definition handleCreateInvite (now : Z) (ev : Event) : M OkResponse :=
  moderate ev KindCreateInvite (bs "restricted: only a group admin may create invites.") (fun action =>
    err ← put_invite (mkInvite (actGroupID action) (actCode action) now false);
    match err with
    | Some _ => refuse ev (bs "error: could not store invite")
    | None => _ ← recordModeration ev; accept ev (bs "info: invite created.")
    end).

Definition storePendingJoin (groupID : gostring) (ev : Event) : M OkResponse :=
  _ ← clearPendingJoins groupID (PubKey ev);
  err ← insertEvents [ev];
  match err with
  | Some _ => refuse ev (bs "error: could not store join request")
  | None => accept ev (bs "info: your join request is pending admin approval.")
  end.

Definition isKnownGroupInviteError (e : InviteErr) : bool :=
  match e with ErrGroupInviteNotFound | ErrGroupInviteExhausted => true | InviteStore _ => false end.

(** The admission of a request that may join. *)
Definition admit_user (now : Z) (s : Session) (groupID : gostring) (ev : Event) : M OkResponse :=
  r ← UpsertMember groupID (mkMember (PubKey ev) []);
  match r with
  | Panic => panics
  | Err _ => refuse ev (bs "error: could not store membership")
  | Ok r =>
      _ ← publishGroupRosterMirrors now s r;
      _ ← publishMemberNotice now s groupID (PubKey ev) (PubKey ev) (ID ev) true;
      _ ← clearPendingJoins groupID (PubKey ev);
      accept ev (bs "info: welcome to the group!")
  end.

Definition handleJoinRequest (now : Z) (s : Session) (ev : Event) : M OkResponse :=
  match ParseJoinRequest ev with
  | Panic => panics
  | Err e => refuse_err ev e
  | Ok jr =>
      g ← get;
      if negb (Exists g (jGroupID jr)) then refuse ev (bs "restricted: no such group.")
      else if IsMember g (jGroupID jr) (PubKey ev) then
        accept ev (DuplicateErrorPrefix ++ bs "you are already a member of this group.")
      else if IsClosed g (jGroupID jr) then
        if bool_decide (jCode jr = []) then
          if pendingJoins g then storePendingJoin (jGroupID jr) ev
          else refuse ev (bs "restricted: this group is closed; an invite code or admin approval is required.")
        else
          inv ← consume_invite (jGroupID jr) (jCode jr);
          match inv with
          | Panic => panics
          | Err e => refuse ev (if isKnownGroupInviteError e then bs "restricted: that is an invalid invite code."
                                else bs "error: could not validate invite code")
          | Ok _ => admit_user now s (jGroupID jr) ev
          end
      else admit_user now s (jGroupID jr) ev
  end.

Definition handleLeaveRequest (now : Z) (s : Session) (ev : Event) : M OkResponse :=
  match ParseLeaveRequest ev with
  | Panic => panics
  | Err e => refuse_err ev e
  | Ok lr =>
      g ← get;
      if negb (Exists g (lGroupID lr)) then refuse ev (bs "restricted: no such group.")
      else if negb (IsMember g (lGroupID lr) (PubKey ev)) then
        _ ← clearPendingJoins (lGroupID lr) (PubKey ev);
        accept ev (DuplicateErrorPrefix ++ bs "you are not a member of this group.")
      else
        r ← RemoveMember (lGroupID lr) (PubKey ev);
        match r with
        | Panic => panics
        | Err _ => refuse ev (bs "error: could not update membership")
        | Ok r =>
            _ ← publishGroupRosterMirrors now s r;
            _ ← publishMemberNotice now s (lGroupID lr) (PubKey ev) (PubKey ev) (ID ev) false;
            accept ev (bs "info: you have left the group.")
        end
  end.

Definition handleUpdatePinList (now : Z) (s : Session) (ev : Event) : M OkResponse :=
  moderate ev KindUpdatePinList (bs "restricted: only a group admin may update this group's pinned list.") (fun action =>
    r ← SetPins (actGroupID action) (mkPins (actPinnedEvents action) (actPinnedAddresses action));
    match r with
    | Panic => panics
    | Err _ => refuse ev (bs "error: could not update pinned list")
    | Ok None => panics
    | Ok (Some r) =>
        _ ← publishGroupPinsMirror now s r;
        _ ← recordModeration ev;
        accept ev (bs "info: pinned list updated.")
    end).

(** HandleEvent on a relay that hosts groups. *)
Definition HandleEvent (now : Z) (s : Session) (ev : Event) : M OkResponse :=
  if Kind ev =? KindCreateGroup then handleCreate now s ev
  else if Kind ev =? KindDeleteGroup then handleDeleteGroup now s ev
  else if Kind ev =? KindPutUser then handlePutUser now s ev
  else if Kind ev =? KindRemoveUser then handleRemoveUser now s ev
  else if Kind ev =? KindEditMetadata then handleEditMetadata now s ev
  else if Kind ev =? KindDeleteEvent then handleDeleteEvent ev
  else if Kind ev =? KindCreateInvite then handleCreateInvite now ev
  else if Kind ev =? KindUpdatePinList then handleUpdatePinList now s ev
  else if Kind ev =? KindJoinRequest then handleJoinRequest now s ev
  else if Kind ev =? KindLeaveRequest then handleLeaveRequest now s ev
  else refuse ev (bs "restricted: unsupported NIP-29 event kind").

End Groups.
