(* ===== verification/GroupsInv.v ===== *)
(** * relay: what a group event does to the groups

    The invariant of the groups a relay hosts ([wf]), the changes a handler makes
    to them, and what every handler keeps: most of a handler is publishing, which
    leaves the groups alone ([quiet]); what it commits goes to the bucket and to
    the cache together ([steady]). *)

From S2P Require Import Prelude GoLib Bolt Sha256 NostrUtils Pow Event Filter StoreDb StoreScan GroupsForest Nip29 Nip29Props GroupStore Groups.

(** ** Links *)

Definition link_of (r : GroupRecord) : link :=
  mkLink (fParent (Metadata r)) (fChildren (Metadata r)) (fPrivate (Metadata r)).
Definition links (c : gmap gostring GroupRecord) : links_map := link_of <$> c.

Lemma links_alter (f : GroupRecord -> GroupRecord) (F : link -> link) id c :
  (forall r, link_of (f r) = F (link_of r)) -> links (alter f id c) = alter F id (links c).
Proof.
  intros HE. unfold links. apply map_eq. intros i. rewrite lookup_fmap. destruct (decide (i = id)) as [->|Hne].
  - rewrite !lookup_alter_eq, lookup_fmap. destruct (c !! id) as [r|]; [|done]. cbn. by rewrite HE.
  - by rewrite !lookup_alter_ne, lookup_fmap by done.
Qed.

Definition ids_ok (c : gmap gostring GroupRecord) : Prop := forall id r, c !! id = Some r -> grpID r = id.

Record wf (c : gmap gostring GroupRecord) : Prop := {
  wf_ids : ids_ok c;
  wf_roster : forall id r, c !! id = Some r -> NoDup (map Pubkey (Members r));
  wf_forest : forest (links c);
}.

(** ** Changes of the hosted groups *)

Definition cutChild (x : gostring) (r : GroupRecord) : GroupRecord :=
  with_Metadata r (with_Children (Metadata r) (drop_child x (fChildren (Metadata r)))).
Definition hangChild (x : gostring) (r : GroupRecord) : GroupRecord :=
  with_Metadata r (with_Children (Metadata r) (fChildren (Metadata r) ++ [x])).
Definition toRoot (r : GroupRecord) : GroupRecord := with_Metadata r (with_Parent (Metadata r) []).

(** The groups after group [G] is removed, its record being [d]. *)
Definition remove_group (G : gostring) (d : GroupRecord) (c : gmap gostring GroupRecord) : gmap gostring GroupRecord :=
  let c := base.delete G c in
  let c := if bool_decide (fParent (Metadata d) = []) then c else alter (cutChild G) (fParent (Metadata d)) c in
  foldl (fun c x => alter toRoot x c) c (fChildren (Metadata d)).

(** The groups after the metadata of [G], whose parent was [oldp], becomes [f]. *)
Definition edit_group (G oldp : gostring) (f : GroupMetadataFields) (c : gmap gostring GroupRecord) : gmap gostring GroupRecord :=
  let c := alter (fun r => with_Metadata r f) G c in
  if bool_decide (fParent f = oldp) then c else
  let c := if bool_decide (oldp = []) then c else alter (cutChild G) oldp c in
  if bool_decide (fParent f = []) then c else alter (hangChild G) (fParent f) c.

(** ** The walk of createsCycle *)

Lemma cycle_walk_total fuel c visited current G :
  visited ⊆ dom c -> (size (dom c) < size visited + fuel)%nat -> is_Some (cycle_walk fuel c visited current G).
Proof.
  revert visited current. induction fuel as [|fuel IH]; intros visited current Hs Hf.
  { apply subseteq_size in Hs. lia. }
  cbn [cycle_walk]. repeat case_bool_decide; try by eexists. destruct (c !! current) as [r|] eqn:E; [|by eexists].
  apply IH; [apply elem_of_dom_2 in E; set_solver|]. rewrite size_union by set_solver. rewrite size_singleton. lia.
Qed.

(** The walk is right: what has been visited leads only to itself or on. *)
Lemma cycle_walk_spec fuel c visited current G b :
  G <> [] -> c !! [] = None ->
  (forall v, v ∈ visited -> v <> G /\ forall w, up (links c) v w -> w ∈ visited \/ w = current) ->
  cycle_walk fuel c visited current G = Some b -> b = true <-> above (links c) current G.
Proof.
  intros HG H0. revert visited current. induction fuel as [|fuel IH]; intros visited current Hv; [done|].
  cbn [cycle_walk]. case_bool_decide as E0.
  { intros [= <-]. split; [done|]. intros Ha. subst current. apply rtc_inv in Ha as [Ha|(w & (_ & _ & ? & _) & _)]; [by destruct HG|done]. }
  case_bool_decide as E1; [intros [= <-]; subst; split; [constructor|done]|].
  case_bool_decide as E2.
  { intros [= <-]. split; [done|]. intros Ha. exfalso.
    assert (HC : forall x, above (links c) current x -> x ∈ visited).
    { intros x Hx. unfold above in Hx. apply (rtc_ind_r (fun y => y ∈ visited) current) in Hx; [done|done|].
      intros y z _ Hyz Hy. destruct (proj2 (Hv y Hy) z Hyz) as [?| ->]; done. }
    by destruct (Hv G (HC G Ha)). }
  assert (HL : links c !! current = link_of <$> c !! current) by apply lookup_fmap.
  destruct (c !! current) as [r|] eqn:E3; cbn in HL.
  - intros HW. eapply IH in HW; [rewrite HW|].
    + assert (HU : up (links c) current (fParent (Metadata r))) by by exists (link_of r).
      split; [intros Ha; by eapply rtc_l|]. intros Ha. apply rtc_inv in Ha as [Ha|(w & Hw & Ha)]; [done|].
      by rewrite (up_det _ _ _ _ HU Hw).
    + intros v [->%elem_of_singleton|Hv']%elem_of_union.
      * split; [done|]. intros w Hw. right. symmetry. eapply up_det; [|exact Hw]. by exists (link_of r).
      * destruct (Hv v Hv') as [? Hw]. split; [done|]. intros w Huw. destruct (Hw w Huw) as [?| ->]; left; set_solver.
  - intros [= <-]. split; [done|]. intros Ha. apply rtc_inv in Ha as [Ha|(w & (l & Hl & _) & _)]; [done|]. by rewrite HL in Hl.
Qed.

Lemma filter_Exists_all {A} (P : A -> bool) l : (forall x, x ∈ l -> P x = true) -> List.filter P l = l.
Proof.
  induction l as [|x l IH]; intros HP; [done|]. cbn. rewrite HP by by left. f_equal. apply IH. intros y Hy. apply HP. by right.
Qed.

(** ** isPermutation *)

Definition occurs (x : gostring) (l : list gostring) : Z := Z.of_nat (length (List.filter (fun y => bool_decide (y = x)) l)).

Lemma count_up_spec a c x : default 0 (foldl count_up c a !! x) = default 0 (c !! x) + occurs x a.
Proof.
  unfold occurs. revert c. induction a as [|y a IH]; intros c; cbn [foldl List.filter]; [cbn; lia|]. rewrite IH. unfold count_up.
  case_bool_decide as E; [subst; rewrite lookup_insert_eq; cbn; lia|rewrite lookup_insert_ne by done; lia].
Qed.

Lemma count_down_spec b c :
  (forall x, 0 <= default 0 (c !! x)) -> count_down c b = true <-> forall x, occurs x b <= default 0 (c !! x).
Proof.
  unfold occurs. revert c. induction b as [|y b IH]; intros c Hc; cbn [count_down]; [split; [|done]; intros _ x; apply Hc|].
  destruct (Z.ltb_spec (default 0 (c !! y) - 1) 0) as [Hl|Hl].
  - split; [done|]. intros HA. specialize (HA y). cbn [List.filter] in HA. rewrite bool_decide_eq_true_2 in HA by done. cbn in HA. lia.
  - rewrite IH.
    + split; intros HA x; specialize (HA x); cbn [List.filter] in *; case_bool_decide as E.
      * subst. rewrite lookup_insert_eq in HA. cbn in *. lia.
      * by rewrite lookup_insert_ne in HA.
      * subst. rewrite lookup_insert_eq. cbn in *. lia.
      * by rewrite lookup_insert_ne.
    + intros x. destruct (decide (y = x)) as [->|Hne]; [rewrite lookup_insert_eq; cbn; lia|by rewrite lookup_insert_ne].
Qed.

Lemma occurs_le_perm b a : length a = length b -> (forall x, occurs x b <= occurs x a) -> a ≡ₚ b.
Proof.
  unfold occurs. revert a. induction b as [|y b IH]; intros a HL HA.
  { by apply nil_length_inv in HL as ->. }
  assert (Hy : y ∈ a).
  { specialize (HA y). cbn [List.filter] in HA. rewrite bool_decide_eq_true_2 in HA by done.
    destruct (List.filter (fun z => bool_decide (z = y)) a) as [|z l] eqn:E; [cbn in HA; lia|].
    assert (Hz : In z (List.filter (fun z => bool_decide (z = y)) a)) by (rewrite E; by left).
    apply filter_In in Hz as [Hz1 Hz2]. apply bool_decide_eq_true in Hz2 as ->. by apply list_elem_of_In. }
  apply elem_of_Permutation in Hy as [a' Ha]. rewrite Ha. f_equiv. apply IH.
  - apply Permutation_length in Ha. cbn in *. lia.
  - intros x. specialize (HA x).
    assert (HP : length (List.filter (fun z => bool_decide (z = x)) a) = length (List.filter (fun z => bool_decide (z = x)) (y :: a'))).
    { clear - Ha. induction Ha as [| |u v l|? ? ? ? IH1 ? IH2]; cbn [List.filter]; try done.
      - by destruct (bool_decide _); cbn; rewrite ?IHHa.
      - by destruct (bool_decide (v = x)), (bool_decide (u = x)).
      - congruence. }
    rewrite HP in HA. cbn [List.filter] in HA. destruct (bool_decide (y = x)); cbn in HA; lia.
Qed.

Lemma isPermutation_iff a b : isPermutation a b = true <-> a ≡ₚ b.
Proof.
  unfold isPermutation, zlen. destruct (Z.eqb_spec (Z.of_nat (length a)) (Z.of_nat (length b))) as [HL|HL]; cbn [negb]; last first.
  { split; [done|]. intros HP%Permutation_length. lia. }
  assert (Hc : forall x, default 0 (foldl count_up ∅ a !! x) = occurs x a) by (intros x; by rewrite count_up_spec, lookup_empty).
  rewrite count_down_spec; [|intros x; rewrite Hc; unfold occurs; lia]. split.
  - intros HA. apply occurs_le_perm; [lia|]. intros x. rewrite <- Hc. apply HA.
  - intros HP x. rewrite Hc. clear - HP. unfold occurs. induction HP as [| |u v l|? ? ? ? IH1 ? IH2]; cbn [List.filter]; try lia.
    + destruct (bool_decide _); cbn; lia.
    + destruct (bool_decide (v = x)), (bool_decide (u = x)); cbn; lia.
Qed.

(** ** Computations *)

Section Run.
Context {GoLower0 : GoLower} {Schnorr0 : Schnorr} {Bolt0 : Bolt} {GroupJSON0 : GroupJSON} {EventDB0 : EventDB}.

Lemma bind_Some {A B} (m : M A) (k : A -> M B) g g2 b :
  (m ≫= k) g = Some (g2, b) -> exists g1 a, m g = Some (g1, a) /\ k a g1 = Some (g2, b).
Proof. unfold mbind, M_bind. destruct (m g) as [[g1 a]|]; [|done]. eauto. Qed.

(** Only the event store changes. *)
Definition quiet {A} (m : M A) : Prop := forall g g' a, m g = Some (g', a) -> exists e, g' = set_evs g e.

Lemma set_evs_id g : g = set_evs g (evs g).
Proof. by destruct g. Qed.

Lemma quiet_ret {A} (a : A) : quiet (mret a).
Proof. intros g g' b [= <- _]. eexists. apply set_evs_id. Qed.
Lemma quiet_panics {A} : quiet (panics (A := A)).
Proof. done. Qed.
Lemma quiet_get : quiet get.
Proof. intros g g' b [= <- _]. eexists. apply set_evs_id. Qed.
Lemma quiet_bind {A B} (m : M A) (k : A -> M B) : quiet m -> (forall a, quiet (k a)) -> quiet (m ≫= k).
Proof.
  intros Hm Hk g g2 b (g1 & a & E1 & E2)%bind_Some. apply Hm in E1 as [e ->]. apply Hk in E2 as [e' ->]. by exists e'.
Qed.
Lemma quiet_for_each {A} (f : A -> M unit) l : (forall x, quiet (f x)) -> quiet (for_each f l).
Proof. intros Hf. induction l as [|x l IH]; [apply quiet_ret|]. apply quiet_bind; [apply Hf|]. intros _. exact IH. Qed.

Lemma quiet_query f : quiet (queryEvents f).
Proof. intros g g' a. unfold queryEvents. destruct (QueryEvents _ _); intros [= <- _]; eexists; apply set_evs_id. Qed.
Lemma quiet_find f : quiet (findEvents f).
Proof. intros g g' a. unfold findEvents. destruct (FindEvents _ _); intros [= <- _]; eexists; apply set_evs_id. Qed.
Lemma quiet_delete pes : quiet (deleteAll pes).
Proof.
  intros g g' a. unfold deleteAll. destruct (DeleteAll _ _) as [e'|e|]; intros [= <- _]; eexists; [done|apply set_evs_id].
Qed.
Lemma quiet_insert l : quiet (insertEvents l).
Proof.
  intros g g' a. unfold insertEvents. destruct (InsertEvents _ _) as [[e' err]|e|]; intros [= <- _]; eexists; [done|apply set_evs_id].
Qed.

#[local] Hint Resolve quiet_ret quiet_panics quiet_get quiet_query quiet_find quiet_delete quiet_insert quiet_for_each : quiet.

(** Decide quietness by the shape of a computation. *)
Ltac quiet_step :=
  match goal with
  | |- quiet (mbind _ _) => apply quiet_bind; [|intros ?]
  | |- quiet (if ?b then _ else _) => destruct b
  | |- quiet (match ?x with _ => _ end) => destruct x
  | |- quiet (let (_, _) := ?x in _) => destruct x
  | |- quiet _ => solve [eauto with quiet]
  | |- forall _, quiet _ => intros ?
  end.
Ltac quiet := repeat quiet_step.

Lemma quiet_self s ev : quiet (publishSelfSigned s ev).
Proof. unfold publishSelfSigned. quiet. Qed.
#[local] Hint Resolve quiet_self : quiet.
Lemma quiet_mirrorAt now k id : quiet (mirrorCreatedAt now k id).
Proof. unfold mirrorCreatedAt. quiet. Qed.
#[local] Hint Resolve quiet_mirrorAt : quiet.
Lemma quiet_mirror now s ev id : quiet (publish_mirror now s ev id).
Proof. unfold publish_mirror. quiet. Qed.
#[local] Hint Resolve quiet_mirror : quiet.
Lemma quiet_metadata now s r : quiet (publishGroupMetadataMirror now s r).
Proof. unfold publishGroupMetadataMirror. quiet. Qed.
Lemma quiet_roster now s r : quiet (publishGroupRosterMirrors now s r).
Proof. unfold publishGroupRosterMirrors. quiet. Qed.
Lemma quiet_pins now s r : quiet (publishGroupPinsMirror now s r).
Proof. unfold publishGroupPinsMirror. quiet. Qed.
Lemma quiet_notice now s id m a c b : quiet (publishMemberNotice now s id m a c b).
Proof. unfold publishMemberNotice. quiet. Qed.
Lemma quiet_roles now pk sk id : quiet (publishRoles now pk sk id).
Proof. unfold publishRoles. quiet. Qed.
Lemma quiet_record ev : quiet (recordModeration ev).
Proof. unfold recordModeration. quiet. Qed.
Lemma quiet_purge f : quiet (purge f).
Proof. unfold purge. quiet. Qed.
#[local] Hint Resolve quiet_metadata quiet_roster quiet_pins quiet_notice quiet_roles quiet_record quiet_purge : quiet.
Lemma quiet_purgeGroup s id : quiet (purgeGroupEvents s id).
Proof. unfold purgeGroupEvents. quiet. Qed.
Lemma quiet_clear id pk : quiet (clearPendingJoins id pk).
Proof. unfold clearPendingJoins. quiet. Qed.
Lemma quiet_mirror_if now s r : quiet (mirror_if now s r).
Proof. unfold mirror_if. quiet. Qed.
Lemma quiet_allRoles now order : quiet (publishAllRoles now order).
Proof. unfold publishAllRoles. quiet. Qed.
#[local] Hint Resolve quiet_purgeGroup quiet_clear quiet_mirror_if quiet_allRoles : quiet.
Lemma quiet_pending id ev : quiet (storePendingJoin id ev).
Proof. unfold storePendingJoin, refuse, accept. quiet. Qed.
#[local] Hint Resolve quiet_pending : quiet.

(** ** What every computation keeps *)

Definition settings (g : GroupsService) :=
  (policy g, relayAdmins g, memberNotices g, moderationLog g, pendingJoins g, roleDescriptions g, signer g).

Definition bucket_kv (b : option Bucket) : gmap gostring gostring := match b with Some b => kv b | None => ∅ end.

(** The bucket holds the cached records, encoded, and nothing else. *)
Definition mirrors (g : GroupsService) : Prop := forall id, bucket_kv (groupsB g) !! id = MarshalGroup <$> cache g !! id.

Record steps_to (g g' : GroupsService) : Prop := {
  st_settings : settings g' = settings g;
  st_errors : storeErrors g `prefix_of` storeErrors g';
  st_mirrors : mirrors g -> mirrors g';
  st_ids : ids_ok (cache g) -> ids_ok (cache g');
}.

#[global] Instance steps_to_refl : Reflexive steps_to.
Proof. intros g. by split. Qed.
#[global] Instance steps_to_trans : Transitive steps_to.
Proof. intros g1 g2 g3 [] []. split; [congruence|by etrans|auto..]. Qed.

Definition steady {A} (m : M A) : Prop := forall g g' a, m g = Some (g', a) -> steps_to g g'.

Lemma quiet_steady {A} (m : M A) : quiet m -> steady m.
Proof. intros Hm g g' a E. apply Hm in E as [e ->]. by split. Qed.
Lemma steady_bind {A B} (m : M A) (k : A -> M B) : steady m -> (forall a, steady (k a)) -> steady (m ≫= k).
Proof. intros Hm Hk g g2 b (g1 & a & E1 & E2)%bind_Some. etrans; [by eapply Hm|by eapply Hk]. Qed.
Lemma steady_for_each {A} (f : A -> M unit) l : (forall x, steady (f x)) -> steady (for_each f l).
Proof.
  intros Hf. induction l as [|x l IH]; [apply quiet_steady, quiet_ret|]. apply steady_bind; [apply Hf|]. intros _. exact IH.
Qed.

Context (BL : BoltLaws).

Lemma PutGroup_kv b r b' : PutGroup b r = Ok b' -> bucket_kv b' = <[grpID r := MarshalGroup r]> (bucket_kv b).
Proof using BL.
  unfold PutGroup. destruct (Put _ _ _) as [b1|] eqn:E; [|done]. intros [= <-]. apply (Put_Some BL) in E as (_ & E & _).
  cbn. rewrite E. destruct b; [done|]. cbn. by destruct (kv_empty BL) as [-> _].
Qed.

Lemma steady_commit r : steady (commit r).
Proof using BL.
  intros g g' a. unfold commit. destruct (PutGroup (groupsB g) r) as [b|e|] eqn:E; [| |done]; intros [= <- _].
  - split; [done|done| |].
    + intros HM id. cbn. rewrite (PutGroup_kv _ _ _ E). destruct (decide (id = grpID r)) as [->|Hne].
      * by rewrite !lookup_insert_eq.
      * by rewrite !lookup_insert_ne.
    + intros HI id r'. cbn. rewrite lookup_insert_Some. intros [[<- <-]|[_ Hr]]; [done|by apply HI].
  - split; [done|by eexists|done|done].
Qed.

Lemma steady_delete id : steady (DeleteG id).
Proof using BL.
  intros g g' a. unfold DeleteG. intros [= <- _]. split; [done|done| |].
  - intros HM i. cbn. destruct (groupsB g) as [b|] eqn:E; cbn.
    + destruct (Delete_kv BL b id) as [-> _]. specialize (HM i). rewrite E in HM. cbn in HM.
      destruct (decide (i = id)) as [->|Hne]; [by rewrite !lookup_delete_eq|by rewrite !lookup_delete_ne].
    + specialize (HM i). rewrite E in HM. cbn in HM. rewrite lookup_empty in HM |- *.
      destruct (decide (i = id)) as [->|Hne]; [by rewrite lookup_delete_eq|by rewrite lookup_delete_ne].
  - intros HI i r. cbn. rewrite lookup_delete_Some. intros [_ Hr]. by apply HI.
Qed.

Lemma steady_invite inv : steady (put_invite inv).
Proof. intros g g' a. unfold put_invite. destruct (PutGroupInvite _ _); intros [= <- _]; by split. Qed.
Lemma steady_consume id code : steady (consume_invite id code).
Proof. intros g g' a. unfold consume_invite. destruct (ConsumeGroupInvite _ _ _) as [[b i]|e|]; intros [= <- _]; by split. Qed.

#[local] Hint Resolve steady_commit steady_delete steady_invite steady_consume steady_for_each : steady.

Ltac steady_step :=
  match goal with
  | |- steady (mbind _ _) => apply steady_bind; [|intros ?]
  | |- steady (if ?b then _ else _) => destruct b
  | |- steady (match ?x with _ => _ end) => destruct x
  | |- steady _ => first [solve [apply quiet_steady; eauto with quiet] | solve [eauto with steady]]
  | |- forall _, steady _ => intros ?
  end.
Ltac steady := repeat steady_step.

Lemma steady_update id f : steady (update id f).
Proof using BL. unfold update. steady. Qed.
#[local] Hint Resolve steady_update : steady.
Lemma steady_removeChild p x : steady (removeChild p x).
Proof using BL. unfold removeChild, SetChildren. steady. Qed.
Lemma steady_addChild p x : steady (addChild p x).
Proof using BL. unfold addChild, SetChildren. steady. Qed.
#[local] Hint Resolve steady_removeChild steady_addChild : steady.
Lemma steady_admit now s id ev : steady (admit_user now s id ev).
Proof using BL. unfold admit_user, UpsertMember, refuse, accept. steady. Qed.
#[local] Hint Resolve steady_admit : steady.

Lemma steady_HandleEvent now s ev : steady (HandleEvent now s ev).
Proof using BL.
  unfold HandleEvent, handleCreate, handleDeleteGroup, handlePutUser, handleRemoveUser, handleEditMetadata, handleDeleteEvent,
    handleCreateInvite, handleUpdatePinList, handleJoinRequest, handleLeaveRequest, moderate, Create, UpsertMember, RemoveMember,
    SetMetadata, SetPins, refuse, refuse_err, accept.
  steady. apply steady_for_each. intros x. unfold SetParent. steady.
Qed.

End Run.

#[export] Hint Resolve quiet_ret quiet_panics quiet_get quiet_query quiet_find quiet_delete quiet_insert quiet_for_each : quiet.
#[export] Hint Resolve quiet_self quiet_mirrorAt quiet_mirror quiet_metadata quiet_roster quiet_pins quiet_notice quiet_roles
  quiet_record quiet_purge quiet_purgeGroup quiet_clear quiet_mirror_if quiet_allRoles quiet_pending : quiet.

(** Quietness by the shape of a computation. *)
Ltac by_quiet := unfold refuse, refuse_err, accept;
  repeat match goal with
  | |- quiet (mbind _ _) => apply quiet_bind; [|intros ?]
  | |- quiet (for_each _ _) => apply quiet_for_each; intros ?
  | |- quiet (if ?b then _ else _) => destruct b
  | |- quiet (match ?x with _ => _ end) => destruct x
  | |- quiet (let (_, _) := ?x in _) => destruct x
  | |- quiet _ => solve [eauto with quiet]
  | |- forall _, quiet _ => intros ?
  end.

#[export] Hint Resolve steady_commit steady_delete steady_invite steady_consume steady_for_each steady_update steady_removeChild
  steady_addChild steady_admit : steady.

Ltac by_steady := unfold refuse, refuse_err, accept;
  repeat match goal with
  | |- steady (mbind _ _) => apply steady_bind; [|intros ?]
  | |- steady (for_each _ _) => apply steady_for_each; intros ?
  | |- steady (if ?b then _ else _) => destruct b
  | |- steady (match ?x with _ => _ end) => destruct x
  | |- steady _ => first [solve [apply quiet_steady; eauto with quiet] | solve [eauto with steady]]
  | |- forall _, steady _ => intros ?
  end.
