(* ===== verification/GroupsStep.v ===== *)
(** * relay: the group handlers refine a function on the hosted groups

    [next_groups] says what a group event makes of the hosted groups, with no
    database, no publishing and no clock but for the stamp of a new group.  A
    handler that meets no storage error leaves exactly those groups
    ([HandleEvent_refines]), and the invariant [wf] is kept ([next_groups_wf]). *)

From S2P Require Import Prelude GoLib Bolt Sha256 NostrUtils Pow Event Filter StoreDb StoreScan GroupsForest Nip29 Nip29Props GroupStore Groups GroupsInv.

Section Step.
Context {GoLower0 : GoLower} {Schnorr0 : Schnorr} {Bolt0 : Bolt} {GroupJSON0 : GroupJSON} {EventDB0 : EventDB}.

(** The action of a moderation event whose author may perform it. *)
Definition permitted (g : GroupsService) (ev : Event) : option ModerationAction :=
  match ParseModerationAction ev with
  | Ok a => if CanPerform g (actGroupID a) (PubKey ev) (Kind ev) then Some a else None
  | _ => None
  end.

(** The invite a join request to a closed group needs. *)
Definition invited (g : GroupsService) (groupID code : gostring) : bool :=
  negb (bool_decide (code = [])) && is_ok (ConsumeGroupInvite (invitesB g) groupID code).

Definition on_action (g : GroupsService) (ev : Event) (f : ModerationAction -> gmap gostring GroupRecord) : gmap gostring GroupRecord :=
  match permitted g ev with Some a => f a | None => cache g end.

Definition next_groups (g : GroupsService) (now : Z) (ev : Event) : gmap gostring GroupRecord :=
  let c := cache g in
  if Kind ev =? KindCreateGroup then
    match GroupIDFromTags (Tags ev) with
    | Ok id => if Exists g id then c else <[id := newGroupRecord now id (PubKey ev)]> c
    | _ => c
    end
  else if Kind ev =? KindDeleteGroup then
    match GroupIDFromTags (Tags ev) with
    | Ok id => match c !! id with
               | Some d => if CanPerform g id (PubKey ev) KindDeleteGroup then remove_group id d c else c
               | None => c
               end
    | _ => c
    end
  else if Kind ev =? KindPutUser then
    on_action g ev (fun a => alter (fun r => withMember r (mkMember (actPubkey a) (actRoles a))) (actGroupID a) c)
  else if Kind ev =? KindRemoveUser then
    on_action g ev (fun a => alter (fun r => withoutMember r (actPubkey a)) (actGroupID a) c)
  else if Kind ev =? KindEditMetadata then
    on_action g ev (fun a =>
      match actMetadata a, c !! actGroupID a with
      | Some m, Some r =>
          match edit_refusal g ev (actGroupID a) m with
          | Some _ => c
          | None => edit_group (actGroupID a) (fParent (Metadata r))
                      (with_Children (groupMetadataFieldsFromAction (Some m)) (liveGroups g (mChildren m))) c
          end
      | _, _ => c
      end)
  else if Kind ev =? KindUpdatePinList then
    on_action g ev (fun a => alter (fun r => with_Pins r (mkPins (actPinnedEvents a) (actPinnedAddresses a))) (actGroupID a) c)
  else if Kind ev =? KindJoinRequest then
    match ParseJoinRequest ev with
    | Ok jr =>
        if IsMember g (jGroupID jr) (PubKey ev) then c
        else if IsClosed g (jGroupID jr) && negb (invited g (jGroupID jr) (jCode jr)) then c
        else alter (fun r => withMember r (mkMember (PubKey ev) [])) (jGroupID jr) c
    | _ => c
    end
  else if Kind ev =? KindLeaveRequest then
    match ParseLeaveRequest ev with
    | Ok lr => if IsMember g (lGroupID lr) (PubKey ev)
               then alter (fun r => withoutMember r (PubKey ev)) (lGroupID lr) c else c
    | _ => c
    end
  else c.

(** ** The commits of a handler *)

Context (BL : BoltLaws).

(** A computation without a new storage error, from a state with right ids. *)
Definition clean (g g' : GroupsService) : Prop := storeErrors g' = storeErrors g.

Lemma steps_clean g g1 g2 : steps_to g g1 -> steps_to g1 g2 -> clean g g2 -> clean g g1 /\ clean g1 g2.
Proof.
  intros H1 H2 Hc. destruct (st_errors _ _ H1) as [k1 E1]. destruct (st_errors _ _ H2) as [k2 E2]. unfold clean in *.
  rewrite E2, E1, <- app_assoc in Hc. assert (HN : k1 ++ k2 = []).
  { apply (f_equal length) in Hc. rewrite !length_app in Hc. destruct k1, k2; cbn in Hc; [done|lia..]. }
  apply app_eq_nil in HN as [-> ->]. by rewrite E2, E1, !app_nil_r.
Qed.

Lemma alter_absent (f : GroupRecord -> GroupRecord) (id : gostring) (c : gmap gostring GroupRecord) :
  c !! id = None -> alter f id c = c.
Proof.
  intros HN. apply map_eq. intros i. destruct (decide (i = id)) as [->|Hne]; [by rewrite lookup_alter_eq, HN|by rewrite lookup_alter_ne].
Qed.

Lemma update_clean id f g g' r :
  (forall r, grpID (f r) = grpID r) -> ids_ok (cache g) -> update id f g = Some (g', r) -> clean g g' ->
  r = Ok (f <$> cache g !! id) /\ cache g' = alter f id (cache g) /\ evs g' = evs g /\ invitesB g' = invitesB g.
Proof.
  intros Hf HI. unfold update. intros (g1 & ? & [= <- <-] & E)%bind_Some Hc. destruct (cache g !! id) as [cur|] eqn:El.
  - apply bind_Some in E as (g2 & err & E2 & E). unfold commit in E2. destruct (PutGroup (groupsB g) (f cur)) as [b|e|]; [| |done].
    + injection E2 as <- <-. injection E as <- <-. cbn. split; [done|]. split; [|done]. rewrite Hf, (HI _ _ El).
      apply map_eq. intros i. destruct (decide (i = id)) as [->|Hne].
      * by rewrite lookup_insert_eq, lookup_alter_eq, El.
      * by rewrite lookup_insert_ne, lookup_alter_ne.
    + injection E2 as <- <-. injection E as <- <-. unfold clean in Hc. cbn in Hc. apply (f_equal length) in Hc.
      rewrite length_app in Hc. cbn in Hc. lia.
  - injection E as <- <-. split; [done|]. split; [|done]. symmetry. by apply alter_absent.
Qed.

Lemma alter_same_fun (f f' : GroupRecord -> GroupRecord) (id : gostring) (c : gmap gostring GroupRecord) :
  (forall r, c !! id = Some r -> f r = f' r) -> alter f id c = alter f' id c.
Proof.
  intros HE. apply map_eq. intros i. destruct (decide (i = id)) as [->|Hne]; [|by rewrite !lookup_alter_ne].
  rewrite !lookup_alter_eq. destruct (c !! id) as [r|]; [|done]. cbn. by rewrite HE.
Qed.

Lemma removeChild_clean p x g g' r :
  ids_ok (cache g) -> removeChild p x g = Some (g', r) -> clean g g' -> cache g' = alter (cutChild x) p (cache g).
Proof.
  intros HI. unfold removeChild. intros (g1 & ? & [= <- <-] & E)%bind_Some Hc. destruct (cache g !! p) as [pr|] eqn:El.
  - apply update_clean in E as (_ & -> & _); [|done..]. apply alter_same_fun. intros r' Hr. by replace r' with pr by congruence.
  - injection E as <- <-. symmetry. by apply alter_absent.
Qed.

Lemma addChild_clean p x g g' r :
  ids_ok (cache g) -> addChild p x g = Some (g', r) -> clean g g' -> cache g' = alter (hangChild x) p (cache g).
Proof.
  intros HI. unfold addChild. intros (g1 & ? & [= <- <-] & E)%bind_Some Hc. destruct (cache g !! p) as [pr|] eqn:El.
  - apply update_clean in E as (_ & -> & _); [|done..]. apply alter_same_fun. intros r' Hr. by replace r' with pr by congruence.
  - injection E as <- <-. symmetry. by apply alter_absent.
Qed.

Lemma quiet_run {A} (m : M A) g g' a : quiet m -> m g = Some (g', a) -> exists e, g' = set_evs g e.
Proof. intros Hm. apply Hm. Qed.

(** A record is replaced and the rest only publishes. *)
Lemma update_then {B} id f (k : outcome StoreErr (option GroupRecord) -> M B) g g' b :
  (forall r, grpID (f r) = grpID r) -> (forall r, quiet (k r)) -> ids_ok (cache g) ->
  (r ← update id f; k r) g = Some (g', b) -> clean g g' -> cache g' = alter f id (cache g).
Proof.
  intros Hf Hk HI (g1 & r & E1 & E2)%bind_Some Hc. apply Hk in E2 as [e ->]. apply update_clean in E1 as (_ & E1 & _); [exact E1|done..].
Qed.

Lemma moderate_cases ev kind denied act g g' resp :
  Kind ev = kind -> moderate ev kind denied act g = Some (g', resp) ->
  (permitted g ev = None /\ g' = g) \/ (exists a, permitted g ev = Some a /\ act a g = Some (g', resp)).
Proof.
  intros HK. unfold moderate, permitted. destruct (ParseModerationAction ev) as [a|e|]; [|intros [= <- _]; by left|done].
  intros (g1 & ? & [= <- <-] & E)%bind_Some. unfold Exists, CanPerform, cached in *. rewrite <- HK in E.
  destruct (cache g !! actGroupID a) as [r|]; cbn [negb] in E; [|injection E as <- _; by left].
  destruct (if isRelayAdmin g (PubKey ev) then true else _); cbn [negb] in E; [right; eauto|injection E as <- _; by left].
Qed.

Lemma withMember_ID r m : grpID (withMember r m) = grpID r.
Proof. unfold withMember. by destruct (replace_member m (Members r)). Qed.

Lemma create_refines now s ev g g' resp :
  ids_ok (cache g) -> clean g g' -> handleCreate now s ev g = Some (g', resp) ->
  cache g' = match GroupIDFromTags (Tags ev) with
             | Ok id => if Exists g id then cache g else <[id := newGroupRecord now id (PubKey ev)]> (cache g)
             | _ => cache g
             end.
Proof.
  intros HI Hc. unfold handleCreate. destruct (GroupIDFromTags (Tags ev)) as [id|e|]; [|intros [= <- _]; done|done].
  intros (g1 & ? & [= <- <-] & E)%bind_Some. destruct (Exists g id); [by injection E as <- _|].
  apply bind_Some in E as (g1 & err & E1 & E). apply quiet_run in E as [e ->]; [|by_quiet]. unfold Create, commit in E1. destruct (PutGroup _ _) as [b|e'|]; [| |done]; injection E1 as <- <-; [done|].
  unfold clean in Hc. cbn in Hc. apply (f_equal length) in Hc. rewrite length_app in Hc. cbn in Hc. lia.
Qed.

Lemma put_refines now s ev g g' resp :
  Kind ev = KindPutUser -> ids_ok (cache g) -> clean g g' -> handlePutUser now s ev g = Some (g', resp) ->
  cache g' = on_action g ev (fun a => alter (fun r => withMember r (mkMember (actPubkey a) (actRoles a))) (actGroupID a) (cache g)).
Proof.
  intros HK HI Hc HE. unfold on_action. apply (moderate_cases ev KindPutUser) in HE as [[-> ->]|(a & -> & E)]; [done| |done].
  apply bind_Some in E as (g1 & ? & [= <- <-] & E). eapply update_then in E; [exact E|intros; apply withMember_ID| |done|done]. by_quiet.
Qed.

Lemma remove_refines now s ev g g' resp :
  Kind ev = KindRemoveUser -> ids_ok (cache g) -> clean g g' -> handleRemoveUser now s ev g = Some (g', resp) ->
  cache g' = on_action g ev (fun a => alter (fun r => withoutMember r (actPubkey a)) (actGroupID a) (cache g)).
Proof.
  intros HK HI Hc HE. unfold on_action. apply (moderate_cases ev KindRemoveUser) in HE as [[-> ->]|(a & -> & E)]; [done| |done].
  apply bind_Some in E as (g1 & ? & [= <- <-] & E). eapply update_then in E; [exact E|done| |done|done]. by_quiet.
Qed.

Lemma pins_refines now s ev g g' resp :
  Kind ev = KindUpdatePinList -> ids_ok (cache g) -> clean g g' -> handleUpdatePinList now s ev g = Some (g', resp) ->
  cache g' = on_action g ev (fun a => alter (fun r => with_Pins r (mkPins (actPinnedEvents a) (actPinnedAddresses a))) (actGroupID a) (cache g)).
Proof.
  intros HK HI Hc HE. unfold on_action. apply (moderate_cases ev KindUpdatePinList) in HE as [[-> ->]|(a & -> & E)]; [done| |done].
  eapply update_then in E; [exact E|done| |done|done]. by_quiet.
Qed.

(** The two moderation events that leave the groups alone. *)
Lemma event_refines ev g g' resp :
  Kind ev = KindDeleteEvent -> handleDeleteEvent ev g = Some (g', resp) -> cache g' = cache g.
Proof.
  intros HK HE. apply (moderate_cases ev KindDeleteEvent) in HE as [[_ ->]|(a & _ & E)]; [done| |done].
  by apply quiet_run in E as [e ->]; [|by_quiet].
Qed.

Lemma invite_refines now ev g g' resp :
  Kind ev = KindCreateInvite -> handleCreateInvite now ev g = Some (g', resp) -> cache g' = cache g.
Proof.
  intros HK HE. apply (moderate_cases ev KindCreateInvite) in HE as [[_ ->]|(a & _ & E)]; [done| |done].
  apply bind_Some in E as (g1 & err & E1 & E).
  apply quiet_run in E as [e ->]; [|by_quiet]. unfold put_invite in E1. destruct (PutGroupInvite _ _); [| |done]; by injection E1 as <- <-.
Qed.

Lemma admit_refines now s id ev g g' resp :
  ids_ok (cache g) -> clean g g' -> admit_user now s id ev g = Some (g', resp) ->
  cache g' = alter (fun r => withMember r (mkMember (PubKey ev) [])) id (cache g).
Proof.
  intros HI Hc E. unfold admit_user in E. eapply update_then in E; [exact E|intros; apply withMember_ID| |done|done]. by_quiet.
Qed.

Lemma join_refines now s ev g g' resp :
  ids_ok (cache g) -> clean g g' -> handleJoinRequest now s ev g = Some (g', resp) ->
  cache g' = match ParseJoinRequest ev with
             | Ok jr =>
                 if IsMember g (jGroupID jr) (PubKey ev) then cache g
                 else if IsClosed g (jGroupID jr) && negb (invited g (jGroupID jr) (jCode jr)) then cache g
                 else alter (fun r => withMember r (mkMember (PubKey ev) [])) (jGroupID jr) (cache g)
             | _ => cache g
             end.
Proof.
  intros HI Hc. unfold handleJoinRequest. destruct (ParseJoinRequest ev) as [jr|e|]; [|intros [= <- _]; done|done].
  intros (g1 & ? & [= <- <-] & E)%bind_Some. destruct (Exists g (jGroupID jr)) eqn:Ee; cbn [negb] in E; last first.
  { injection E as <- _. unfold Exists in Ee. destruct (cache g !! jGroupID jr) eqn:El; [done|].
    repeat case_scrutinee; try done. symmetry. by apply alter_absent. }
  destruct (IsMember g _ _); [by injection E as <- _|]. destruct (IsClosed g _); cbn [andb]; [|by eapply admit_refines].
  unfold invited. case_bool_decide as Ec; cbn [negb andb].
  { destruct (pendingJoins g); [|by injection E as <- _]. apply quiet_pending in E as [e ->]. done. }
  apply bind_Some in E as (g1 & inv & E1 & E). unfold consume_invite in E1.
  destruct (ConsumeGroupInvite _ _ _) as [[b i]|e|]; [| |done]; injection E1 as <- <-; cbn [is_ok negb]; [|by injection E as <- _].
  eapply admit_refines in E; [exact E|done|done].
Qed.

Lemma leave_refines now s ev g g' resp :
  ids_ok (cache g) -> clean g g' -> handleLeaveRequest now s ev g = Some (g', resp) ->
  cache g' = match ParseLeaveRequest ev with
             | Ok lr => if IsMember g (lGroupID lr) (PubKey ev)
                        then alter (fun r => withoutMember r (PubKey ev)) (lGroupID lr) (cache g) else cache g
             | _ => cache g
             end.
Proof.
  intros HI Hc. unfold handleLeaveRequest. destruct (ParseLeaveRequest ev) as [lr|e|]; [|intros [= <- _]; done|done].
  intros (g1 & ? & [= <- <-] & E)%bind_Some. destruct (Exists g (lGroupID lr)) eqn:Ee; cbn [negb] in E; last first.
  { injection E as <- _. unfold Exists in Ee. unfold IsMember, cached. by destruct (cache g !! lGroupID lr). }
  destruct (IsMember g _ _); cbn [negb] in E.
  - eapply update_then in E; [exact E|done| |done|done]. by_quiet.
  - by apply quiet_run in E as [e ->]; [|by_quiet].
Qed.

(** ** Edits and deletions *)

Lemma bind_clean {A B} (m : M A) (k : A -> M B) g g2 b :
  steady m -> (forall a, steady (k a)) -> ids_ok (cache g) -> (m ≫= k) g = Some (g2, b) -> clean g g2 ->
  exists g1 a, m g = Some (g1, a) /\ k a g1 = Some (g2, b) /\ clean g g1 /\ clean g1 g2 /\ ids_ok (cache g1).
Proof.
  intros Hm Hk HI (g1 & a & E1 & E2)%bind_Some Hc. exists g1, a. pose proof (Hm _ _ _ E1) as S1. pose proof (Hk _ _ _ _ E2) as S2.
  destruct (steps_clean _ _ _ S1 S2 Hc). split_and!; try done. by apply (st_ids _ _ S1).
Qed.

Lemma cut_then now s p x g g' u :
  ids_ok (cache g) -> (old ← removeChild p x; mirror_if now s old) g = Some (g', u) -> clean g g' ->
  cache g' = alter (cutChild x) p (cache g).
Proof.
  intros HI (g1 & r & E1 & E2)%bind_Some Hc. apply quiet_mirror_if in E2 as [e ->]. eapply removeChild_clean in E1; [exact E1|done|done].
Qed.

Lemma hang_then now s p x g g' u :
  ids_ok (cache g) -> (new ← addChild p x; mirror_if now s new) g = Some (g', u) -> clean g g' ->
  cache g' = alter (hangChild x) p (cache g).
Proof.
  intros HI (g1 & r & E1 & E2)%bind_Some Hc. apply quiet_mirror_if in E2 as [e ->]. eapply addChild_clean in E1; [exact E1|done|done].
Qed.

(** The moves between parents. *)
Lemma relink now s G oldp newp g g' u :
  ids_ok (cache g) ->
  (if bool_decide (newp = oldp) then mret tt else
     _ ← (if bool_decide (oldp = []) then mret tt else old ← removeChild oldp G; mirror_if now s old);
     if bool_decide (newp = []) then mret tt else new ← addChild newp G; mirror_if now s new) g = Some (g', u) ->
  clean g g' ->
  cache g' = if bool_decide (newp = oldp) then cache g else
             let c := if bool_decide (oldp = []) then cache g else alter (cutChild G) oldp (cache g) in
             if bool_decide (newp = []) then c else alter (hangChild G) newp c.
Proof using BL.
  intros HI E Hc. destruct (bool_decide (newp = oldp)); [by injection E as <- _|]. apply bind_clean in E as (g1 & ? & E1 & E2 & C1 & C2 & HI1); [|by_steady..|done|done].
  assert (H1 : cache g1 = if bool_decide (oldp = []) then cache g else alter (cutChild G) oldp (cache g)).
  { destruct (bool_decide (oldp = [])); [by injection E1 as <- _|]. by eapply cut_then. }
  cbv zeta. rewrite <- H1. destruct (bool_decide (newp = [])); [by injection E2 as <- _|]. by eapply hang_then.
Qed.

Lemma edit_refines now s ev g g' resp :
  Kind ev = KindEditMetadata -> ids_ok (cache g) -> clean g g' -> handleEditMetadata now s ev g = Some (g', resp) ->
  cache g' = on_action g ev (fun a =>
      match actMetadata a, cache g !! actGroupID a with
      | Some m, Some r =>
          match edit_refusal g ev (actGroupID a) m with
          | Some _ => cache g
          | None => edit_group (actGroupID a) (fParent (Metadata r))
                      (with_Children (groupMetadataFieldsFromAction (Some m)) (liveGroups g (mChildren m))) (cache g)
          end
      | _, _ => cache g
      end).
Proof using BL.
  intros HK HI Hc HE. unfold on_action. apply (moderate_cases ev KindEditMetadata) in HE as [[-> ->]|(a & HP & E)]; [done| |done].
  rewrite HP. destruct (actMetadata a) as [m|]; [|done]. apply bind_Some in E as (g1 & ? & [= <- <-] & E).
  assert (HX : exists r, cache g !! actGroupID a = Some r).
  { unfold permitted, CanPerform, cached in HP. destruct (ParseModerationAction ev) as [a'|?|]; [|done..].
    destruct (cache g !! actGroupID a') as [r|] eqn:El; [|done]. destruct (if isRelayAdmin _ _ then _ else _); [|done].
    injection HP as ->. by exists r. }
  destruct HX as [r Hr]. cbv zeta in E. rewrite Hr in E |- *. destruct (edit_refusal g ev (actGroupID a) m) as [msg|]; [by injection E as <- _|].
  apply bind_clean in E as (g1 & r1 & E1 & E & C1 & C2 & HI1); [|unfold SetMetadata; by_steady..|done|done].
  apply update_clean in E1 as (-> & HC1 & _ & _); [|done..]. rewrite Hr in E. cbn [fmap option_fmap option_map] in E.
  apply bind_Some in E as (g2 & ? & E2 & E). apply quiet_metadata in E2 as [e ->].
  apply bind_Some in E as (g3 & ? & E3 & E). apply quiet_run in E as [e' ->]; [|by_quiet].
  apply relink in E3; [|done|done]. unfold edit_group. cbn [fParent with_Children groupMetadataFieldsFromAction].
  change (cache (set_evs g3 e')) with (cache g3). rewrite E3. cbn [cache set_evs]. rewrite HC1. done.
Qed.

Lemma promote now s l g g' u :
  ids_ok (cache g) -> for_each (fun childID => child ← SetParent childID []; mirror_if now s child) l g = Some (g', u) ->
  clean g g' -> cache g' = foldl (fun c x => alter toRoot x c) (cache g) l.
Proof using BL.
  revert g. induction l as [|x l IH]; intros g HI E Hc; cbn [for_each] in E; [by injection E as <- _|].
  apply bind_clean in E as (g1 & ? & E1 & E2 & C1 & C2 & HI1); [|unfold SetParent; by_steady..|done|done].
  cbn [foldl]. rewrite (IH g1 HI1 E2 C2). f_equal.
  apply bind_Some in E1 as (g0 & r & E1 & E3). apply quiet_mirror_if in E3 as [e ->]. apply update_clean in E1 as (_ & E1 & _); [exact E1|done..].
Qed.

Lemma delete_refines now s ev g g' resp :
  ids_ok (cache g) -> clean g g' -> handleDeleteGroup now s ev g = Some (g', resp) ->
  cache g' = match GroupIDFromTags (Tags ev) with
             | Ok id => match cache g !! id with
                        | Some d => if CanPerform g id (PubKey ev) KindDeleteGroup then remove_group id d (cache g) else cache g
                        | None => cache g
                        end
             | _ => cache g
             end.
Proof using BL.
  intros HI Hc. unfold handleDeleteGroup. destruct (GroupIDFromTags (Tags ev)) as [id|e|]; [|intros [= <- _]; done|done].
  intros (g1 & ? & [= <- <-] & E)%bind_Some. unfold Exists in E. destruct (cache g !! id) as [d|] eqn:El; cbn [negb] in E; [|by injection E as <- _].
  destruct (CanPerform g id (PubKey ev) KindDeleteGroup); cbn [negb] in E; [|by injection E as <- _].
  apply bind_clean in E as (g1 & d' & E1 & E & C1 & C2 & HI1); [|unfold SetParent; by_steady..|done|done].
  unfold DeleteG in E1. rewrite El in E1. injection E1 as <- <-.
  apply bind_Some in E as (g2 & ? & E2 & E). apply quiet_purgeGroup in E2 as [e ->].
  apply bind_clean in E as (g3 & cs & E3 & E & C3 & C4 & HI3); [|unfold SetParent; by_steady..|exact HI1|exact C2].
  apply bind_clean in E as (g4 & ? & E4 & E & C5 & C6 & HI4); [|unfold SetParent; by_steady..|exact HI3|exact C4]. injection E as <- _.
  apply bind_Some in E3 as (g5 & ? & E5 & E3). apply quiet_run in E5 as [e5 ->]; [|by_quiet].
  apply bind_Some in E3 as (g6 & ? & E6 & E3). injection E3 as <- <-.
  apply promote in E4; [|done|done]. rewrite E4. unfold remove_group. f_equal.
  destruct (bool_decide (fParent (Metadata d) = [])); [by injection E6 as <- _|]. eapply cut_then in E6; [exact E6|exact HI1|exact C3].
Qed.

(** What a handler that meets no storage error leaves. *)
Lemma HandleEvent_groups now s ev g g' resp :
  ids_ok (cache g) -> clean g g' -> HandleEvent now s ev g = Some (g', resp) -> cache g' = next_groups g now ev.
Proof using BL.
  intros HI Hc. unfold HandleEvent, next_groups.
  destruct (Kind ev =? KindCreateGroup) eqn:K1; [by apply create_refines|].
  destruct (Kind ev =? KindDeleteGroup) eqn:K2; [by apply delete_refines|].
  destruct (Kind ev =? KindPutUser) eqn:K3; [apply put_refines; [by apply Z.eqb_eq|done..]|].
  destruct (Kind ev =? KindRemoveUser) eqn:K4; [apply remove_refines; [by apply Z.eqb_eq|done..]|].
  destruct (Kind ev =? KindEditMetadata) eqn:K5; [apply edit_refines; [by apply Z.eqb_eq|done..]|].
  destruct (Kind ev =? KindDeleteEvent) eqn:K6.
  { intros E. apply Z.eqb_eq in K6. rewrite (event_refines _ _ _ _ K6 E). by rewrite K6. }
  destruct (Kind ev =? KindCreateInvite) eqn:K7.
  { intros E. apply Z.eqb_eq in K7. rewrite (invite_refines _ _ _ _ _ K7 E). by rewrite K7. }
  destruct (Kind ev =? KindUpdatePinList) eqn:K8; [apply pins_refines; [by apply Z.eqb_eq|done..]|].
  destruct (Kind ev =? KindJoinRequest) eqn:K9; [by apply join_refines|].
  destruct (Kind ev =? KindLeaveRequest) eqn:K10; [by apply leave_refines|].
  by intros [= <- _].
Qed.

End Step.
