(* ===== verification/GroupsWf.v ===== *)
(** * relay: the hosted groups stay well formed

    [next_groups] keeps [wf]: records sit under their own id, rosters have no
    key twice, and the links form a forest whose linked groups share their
    privacy. *)

From S2P Require Import Prelude GoLib Bolt Sha256 NostrUtils Pow Event Filter StoreDb StoreScan GroupsForest Nip29 Nip29Props GroupStore Groups GroupsInv GroupsStep.

Abbreviation groups := (@gmap gostring (@list_eq_dec byte byte_eq_dec) (@list_countable byte byte_eq_dec byte_countable) GroupRecord).

Lemma links_lookup (c : groups) (id : gostring) : links c !! id = link_of <$> c !! id.
Proof. apply lookup_fmap. Qed.

(** ** Rosters *)

Lemma replace_member_keys m l :
  map Pubkey (replace_member m l).1 = map Pubkey l /\
  (replace_member m l).2 = bool_decide (Pubkey m ∈ map Pubkey l).
Proof.
  induction l as [|x l [IH1 IH2]]; [done|]. cbn [replace_member map]. destruct (replace_member m l) as [ms b]. cbn [fst snd] in *.
  destruct (bool_decide_reflect (Pubkey x = Pubkey m)) as [E|E]; cbn [fst snd map]; rewrite IH1.
  - rewrite E. split; [done|]. symmetry. apply bool_decide_eq_true_2. by left.
  - split; [done|]. rewrite IH2. apply bool_decide_ext. rewrite elem_of_cons. split; [by right|]. intros [HE|]; [by rewrite HE in E|done].
Qed.

Lemma withMember_keys r m :
  map Pubkey (Members (withMember r m)) =
    if bool_decide (Pubkey m ∈ map Pubkey (Members r)) then map Pubkey (Members r) else map Pubkey (Members r) ++ [Pubkey m].
Proof.
  unfold withMember. pose proof (replace_member_keys m (Members r)) as [H1 H2].
  destruct (replace_member m (Members r)) as [ms b]. cbn [fst snd] in *. subst b. cbn [Members with_Members].
  case_bool_decide; [done|]. by rewrite map_app, H1.
Qed.

Lemma withMember_nodup r m : NoDup (map Pubkey (Members r)) -> NoDup (map Pubkey (Members (withMember r m))).
Proof.
  intros HN. rewrite withMember_keys. case_bool_decide as E; [done|]. apply NoDup_app. split_and!; [done| |apply NoDup_singleton].
  intros x Hx ->%list_elem_of_singleton. done.
Qed.

Lemma withoutMember_keys r pk x :
  x ∈ map Pubkey (Members (withoutMember r pk)) <-> x ∈ map Pubkey (Members r) /\ x <> pk.
Proof.
  unfold withoutMember. cbn [Members with_Members]. rewrite !list_elem_of_In, !in_map_iff. setoid_rewrite filter_In.
  setoid_rewrite negb_true_iff. setoid_rewrite bool_decide_eq_false. split.
  - intros (m & <- & Hm & Hn). split; [by exists m|done].
  - intros [(m & <- & Hm) Hn]. by exists m.
Qed.

Lemma withoutMember_nodup r pk : NoDup (map Pubkey (Members r)) -> NoDup (map Pubkey (Members (withoutMember r pk))).
Proof.
  unfold withoutMember. cbn [Members with_Members]. induction (Members r) as [|m l IH]; [done|]. cbn [map List.filter].
  intros [Hm HN]%NoDup_cons. case_bool_decide; cbn [negb]; [by apply IH|]. cbn [map]. apply NoDup_cons. split; [|by apply IH].
  intros Hin. apply Hm. rewrite list_elem_of_In, in_map_iff in Hin |- *. destruct Hin as (y & HE & [Hy _]%filter_In). by exists y.
Qed.

(** A change of one record that keeps its links. *)
Lemma wf_alter (f : GroupRecord -> GroupRecord) (id : gostring) (c : groups) :
  (forall r, grpID (f r) = grpID r) -> (forall r, link_of (f r) = link_of r) ->
  (forall r, NoDup (map Pubkey (Members r)) -> NoDup (map Pubkey (Members (f r)))) -> wf c -> wf (alter f id c).
Proof.
  intros HI HL HN [H1 H2 H3]. split.
  - intros i r. rewrite lookup_alter_Some. intros [(-> & r0 & Hr & ->)|[_ Hr]]; [rewrite HI|]; by apply H1.
  - intros i r. rewrite lookup_alter_Some. intros [(-> & r0 & Hr & ->)|[_ Hr]]; [apply HN|]; by eapply H2.
  - replace (links (alter f id c)) with (links c); [done|]. apply map_eq. intros i. rewrite !links_lookup.
    destruct (decide (i = id)) as [->|Hne]; [|by rewrite lookup_alter_ne]. rewrite lookup_alter_eq. destruct (c !! id) as [r|]; [|done].
    cbn. by rewrite HL.
Qed.

Lemma wf_create (now : Z) (id creator : gostring) (c : groups) :
  c !! id = None -> id <> [] -> wf c -> wf (<[id := newGroupRecord now id creator]> c).
Proof.
  intros HN Hid [H1 H2 H3]. split.
  - intros i r. rewrite lookup_insert_Some. intros [[<- <-]|[_ Hr]]; [done|by apply H1].
  - intros i r. rewrite lookup_insert_Some. intros [[<- <-]|[_ Hr]]; [apply NoDup_singleton|by eapply H2].
  - unfold links. rewrite fmap_insert. apply add_root; [done|by rewrite lookup_fmap, HN|done].
Qed.

(** ** Deletions *)

Lemma toRoot_fold (l : list gostring) (c : groups) (id : gostring) :
  foldl (fun c x => alter toRoot x c) c l !! id =
    (fun r => if bool_decide (id ∈ l) then toRoot r else r) <$> c !! id.
Proof.
  revert c. induction l as [|x l IH]; intros c; cbn [foldl].
  { rewrite bool_decide_eq_false_2 by apply not_elem_of_nil. by destruct (c !! id). }
  rewrite IH. destruct (decide (id = x)) as [->|Hne].
  - rewrite lookup_alter_eq. rewrite (bool_decide_eq_true_2 (x ∈ x :: l)) by by left. destruct (c !! x) as [r|]; [|done]. cbn.
    by case_bool_decide.
  - rewrite lookup_alter_ne by done. destruct (c !! id) as [r|]; [|done]. cbn.
    rewrite (bool_decide_ext (id ∈ x :: l) (id ∈ l)); [done|]. rewrite elem_of_cons. tauto.
Qed.

Lemma remove_group_lookup (G : gostring) (d : GroupRecord) (c : groups) (id : gostring) :
  remove_group G d c !! id =
    if bool_decide (id = G) then None
    else (fun r => let r := if bool_decide (id = fParent (Metadata d)) && negb (bool_decide (fParent (Metadata d) = []))
                            then cutChild G r else r in
                   if bool_decide (id ∈ fChildren (Metadata d)) then toRoot r else r) <$> c !! id.
Proof.
  unfold remove_group. rewrite toRoot_fold. cbv zeta. destruct (decide (id = G)) as [->|Hne].
  - rewrite (bool_decide_eq_true_2 (G = G)) by done.
    assert (HN : (if bool_decide (fParent (Metadata d) = []) then base.delete G c
                  else alter (cutChild G) (fParent (Metadata d)) (base.delete G c)) !! G = None).
    { case_bool_decide; [apply lookup_delete_eq|]. destruct (decide (fParent (Metadata d) = G)) as [->|Hp].
      - by rewrite lookup_alter_eq, lookup_delete_eq.
      - by rewrite lookup_alter_ne, lookup_delete_eq. }
    by rewrite HN.
  - rewrite (bool_decide_eq_false_2 (id = G)) by done. destruct (bool_decide_reflect (fParent (Metadata d) = [])) as [E|E]; cbn [negb].
    + rewrite lookup_delete_ne by done. rewrite andb_false_r. done.
    + rewrite andb_true_r. destruct (decide (id = fParent (Metadata d))) as [->|Hp].
      * rewrite lookup_alter_eq, lookup_delete_ne by done. destruct (c !! fParent (Metadata d)) as [r|]; [|done]. cbn.
        by rewrite (bool_decide_eq_true_2 (fParent (Metadata d) = fParent (Metadata d))).
      * rewrite lookup_alter_ne, lookup_delete_ne by done. by rewrite (bool_decide_eq_false_2 (id = fParent (Metadata d))).
Qed.

Lemma wf_remove (G : gostring) (d : GroupRecord) (c : groups) : c !! G = Some d -> wf c -> wf (remove_group G d c).
Proof.
  intros HG [H1 H2 H3].
  assert (HX : forall id r', remove_group G d c !! id = Some r' -> exists r, c !! id = Some r /\ grpID r' = grpID r /\ Members r' = Members r).
  { intros id r'. rewrite remove_group_lookup. case_bool_decide; [done|]. destruct (c !! id) as [r|]; [|done]. intros [= <-].
    exists r. by repeat case_scrutinee. }
  split.
  - intros id r' Hr. destruct (HX id r' Hr) as (r & Hc & -> & _). by apply H1.
  - intros id r' Hr. destruct (HX id r' Hr) as (r & Hc & _ & ->). by eapply H2.
  - replace (links (remove_group G d c)) with (deleted G (link_of d) (links c)).
    { apply deleted_forest; [done|]. by rewrite links_lookup, HG. }
    apply map_eq. intros id. unfold deleted. rewrite map_lookup_imap, links_lookup, remove_group_lookup.
    destruct (decide (id = G)) as [->|Hne]; [by rewrite lookup_delete_eq, (bool_decide_eq_true_2 (G = G)) by done|].
    rewrite lookup_delete_ne, (bool_decide_eq_false_2 (id = G)), links_lookup by done. destruct (c !! id) as [r|] eqn:El; [|done].
    cbn -[bool_decide]. destruct (bool_decide_reflect (id = fParent (Metadata d))) as [E|E]; [|by destruct (bool_decide (id ∈ _))].
    rewrite (bool_decide_eq_false_2 (fParent (Metadata d) = [])); [cbn -[bool_decide]; by destruct (bool_decide (id ∈ _))|].
    intros HE. pose proof (f_ids _ H3) as Hnil. rewrite links_lookup, <- HE, <- E, El in Hnil. done.
Qed.

(** ** Edits *)

Lemma edit_group_lookup (G oldp : gostring) (f : GroupMetadataFields) (c : groups) (id : gostring) :
  oldp <> G -> (fParent f <> oldp -> fParent f <> G) -> c !! [] = None ->
  edit_group G oldp f c !! id =
    (fun r => if bool_decide (id = G) then with_Metadata r f
              else if bool_decide (fParent f = oldp) then r
              else if bool_decide (id = oldp) then cutChild G r
              else if bool_decide (id = fParent f) then hangChild G r else r) <$> c !! id.
Proof.
  intros Ho Hn H0. unfold edit_group. cbv zeta.
  assert (HA : alter (fun r => with_Metadata r f) G c !! id = (fun r => if bool_decide (id = G) then with_Metadata r f else r) <$> c !! id).
  { destruct (decide (id = G)) as [->|Hne].
    - rewrite lookup_alter_eq. rewrite (bool_decide_eq_true_2 (G = G)) by done. done.
    - rewrite lookup_alter_ne, (bool_decide_eq_false_2 (id = G)) by done. by destruct (c !! id). }
  destruct (bool_decide_reflect (fParent f = oldp)) as [E|E]; [done|]. specialize (Hn E).
  assert (HB : (if bool_decide (oldp = []) then alter (fun r => with_Metadata r f) G c
                else alter (cutChild G) oldp (alter (fun r => with_Metadata r f) G c)) !! id =
               (fun r => if bool_decide (id = G) then with_Metadata r f else if bool_decide (id = oldp) then cutChild G r else r) <$> c !! id).
  { destruct (decide (id = oldp)) as [->|Hne].
    - destruct (bool_decide_reflect (oldp = [])) as [->|Eo]; [by rewrite HA, H0|].
      rewrite lookup_alter_eq, HA. rewrite (bool_decide_eq_false_2 (oldp = G)), (bool_decide_eq_true_2 (oldp = oldp)) by done. by destruct (c !! oldp).
    - rewrite (bool_decide_eq_false_2 (id = oldp)) by done. destruct (bool_decide (oldp = [])); [done|]. by rewrite lookup_alter_ne. }
  set (c2 := if bool_decide (oldp = []) then _ else _) in *.
  destruct (decide (id = fParent f)) as [->|Hne].
  - destruct (bool_decide_reflect (fParent f = [])) as [E0|E0]; [by rewrite HB, E0, H0|].
    rewrite lookup_alter_eq, HB. rewrite (bool_decide_eq_false_2 (fParent f = G)), (bool_decide_eq_false_2 (fParent f = oldp)),
      (bool_decide_eq_true_2 (fParent f = fParent f)) by done. by destruct (c !! fParent f).
  - rewrite (bool_decide_eq_false_2 (id = fParent f)) by done.
    destruct (bool_decide (fParent f = [])); [exact HB|]. by rewrite lookup_alter_ne.
Qed.

Lemma wf_edit (G : gostring) (f : GroupMetadataFields) (r : GroupRecord) (c : groups) :
  c !! G = Some r -> wf c -> edit_ok (links c) G (fParent f) (fChildren f) (fPrivate f) (link_of r) ->
  wf (edit_group G (fParent (Metadata r)) f c).
Proof.
  intros HG [H1 H2 H3] HE.
  assert (H0 : c !! [] = None).
  { pose proof (f_ids _ H3) as H. rewrite links_lookup in H. by destruct (c !! []). }
  assert (Ho : fParent (Metadata r) <> G) by apply (parent_not_G _ H3 _ _ _ _ _ HE).
  assert (Hn : fParent f <> fParent (Metadata r) -> fParent f <> G).
  { intros Hp HfG. destruct (decide (fParent f = [])) as [E|E].
    - rewrite <- HfG, E in HG. congruence.
    - destruct (e_parent _ _ _ _ _ _ HE Hp E) as [Hne _]. by apply Hne. }
  pose proof (fun id => edit_group_lookup G _ f c id Ho Hn H0) as HL.
  assert (HX : forall id r', edit_group G (fParent (Metadata r)) f c !! id = Some r' ->
    exists r0, c !! id = Some r0 /\ grpID r' = grpID r0 /\ Members r' = Members r0).
  { intros id r'. rewrite HL. destruct (c !! id) as [r0|]; [|done]. intros [= <-]. exists r0. by repeat case_scrutinee. }
  split.
  - intros id r' Hr. destruct (HX id r' Hr) as (r0 & Hc & -> & _). by apply H1.
  - intros id r' Hr. destruct (HX id r' Hr) as (r0 & Hc & _ & ->). by eapply H2.
  - replace (links (edit_group G (fParent (Metadata r)) f c)) with (edited G (fParent f) (fChildren f) (fPrivate f) (lpar (link_of r)) (links c)).
    { by apply (edited_forest _ H3 _ _ _ _ _ HE). }
    apply map_eq. intros id. unfold edited. rewrite map_lookup_imap, !links_lookup, HL. destruct (c !! id) as [r0|]; [|done].
    cbn -[bool_decide].
destruct (bool_decide (id = G)); [reflexivity|]. destruct (bool_decide (fParent f = fParent (Metadata r))); [reflexivity|].
    destruct (bool_decide (id = fParent (Metadata r))); [reflexivity|]. by destruct (bool_decide (id = fParent f)).
Qed.

Section Next.
Context {GoLower0 : GoLower} {Schnorr0 : Schnorr} {Bolt0 : Bolt} {GroupJSON0 : GroupJSON} {EventDB0 : EventDB}.

Lemma wf_nil (c : groups) : wf c -> c !! [] = None.
Proof. intros [_ _ H3]. pose proof (f_ids _ H3) as H. rewrite links_lookup in H. by destruct (c !! []). Qed.

(** The walk answers whether the group lies at or above the new parent. *)
Lemma createsCycle_above (g : GroupsService) (p G : gostring) :
  G <> [] -> cache g !! [] = None -> createsCycle g p G = true <-> above (links (cache g)) p G.
Proof.
  intros HG H0. unfold createsCycle.
  destruct (cycle_walk_total (S (S (size (cache g)))) (cache g) ∅ p G) as [b Hb]; [set_solver|rewrite size_empty, size_dom; lia|].
  rewrite Hb. cbn [default]. eapply cycle_walk_spec; [done|done| |exact Hb]. set_solver.
Qed.

(** Hosted children are all live. *)
Lemma live_children (g : GroupsService) G r :
  wf (cache g) -> cache g !! G = Some r -> liveGroups g (fChildren (Metadata r)) = fChildren (Metadata r).
Proof.
  intros [_ _ H3] HG. apply filter_Exists_all. intros x Hx.
  destruct (f_down _ H3 G (link_of r) x) as (lx & Hlx & _); [by rewrite links_lookup, HG|done|].
  rewrite links_lookup in Hlx. unfold Exists. by destruct (cache g !! x).
Qed.

Lemma edit_accepted (g : GroupsService) ev G r m :
  wf (cache g) -> cache g !! G = Some r -> edit_refusal g ev G m = None ->
  edit_ok (links (cache g)) G (mParent m) (liveGroups g (mChildren m)) (mPrivate m) (link_of r).
Proof.
  intros HW HG. unfold edit_refusal. rewrite HG. cbv zeta. intros HR.
  assert (HGn : G <> []) by (intros ->; rewrite (wf_nil _ HW) in HG; done).
  destruct (if negb _ && _ then parent_refusal _ _ _ _ _ else None) as [msg|] eqn:EP; [done|].
  destruct (negb _ && linkedAcrossPrivacy _ _ _ _) eqn:EX; [done|].
  destruct (negb (isPermutation _ _)) eqn:EI; [done|]. clear HR.
  apply negb_false_iff, isPermutation_iff in EI. rewrite (live_children g G r HW HG) in EI.
  assert (HPr : mPrivate m <> fPrivate (Metadata r) -> linkedAcrossPrivacy g (mParent m) (fChildren (Metadata r)) (mPrivate m) = false).
  { intros Hne. destruct (eqb_spec (mPrivate m) (fPrivate (Metadata r))); [done|]. by destruct (linkedAcrossPrivacy _ _ _ _). }
  assert (HIs : forall x lx, links (cache g) !! x = Some lx -> IsPrivate g x = lpriv lx).
  { intros x lx. rewrite links_lookup. unfold IsPrivate, cached. destruct (cache g !! x); [|done]. by intros [= <-]. }
  split.
  - by rewrite links_lookup, HG.
  - symmetry. done.
  - intros Hp Hn. cbn in Hp. rewrite !bool_decide_eq_false_2 in EP by done. cbn [negb andb] in EP. unfold parent_refusal in EP.
    destruct (bool_decide_reflect (mParent m = G)) as [|E1]; [done|]. destruct (Exists g (mParent m)) eqn:E2; [|done]. cbn [negb] in EP.
    destruct (createsCycle g (mParent m) G) eqn:E3; [done|]. destruct (IsAdmin g _ _); [|done]. cbn [negb] in EP.
    destruct (eqb_spec (mPrivate m) (IsPrivate g (mParent m))) as [E4|]; [|done]. split; [done|]. split.
    + rewrite <- (createsCycle_above g) by (done || by apply wf_nil). congruence.
    + unfold Exists in E2. destruct (cache g !! mParent m) as [rp|] eqn:El; [|done]. exists (link_of rp). rewrite links_lookup, El.
      split; [done|]. rewrite E4. unfold IsPrivate, cached. by rewrite El.
  - cbn [lpar link_of lpriv]. intros Hp Hn Hne. specialize (HPr Hne). unfold linkedAcrossPrivacy in HPr. apply orb_false_iff in HPr as [HPr _].
    rewrite bool_decide_eq_false_2 in HPr by done. cbn [negb andb] in HPr. apply negb_false_iff, eqb_prop in HPr.
    destruct HW as [_ _ H3]. destruct (f_up _ H3 G (link_of r)) as (lp & Hlp & _); [by rewrite links_lookup, HG|cbn; congruence|].
    cbn in Hlp. rewrite <- Hp in Hlp. exists lp. split; [done|]. rewrite <- (HIs _ _ Hlp). done.
  - cbn [lchi link_of lpriv]. intros Hne x lx Hx Hlx. specialize (HPr Hne). unfold linkedAcrossPrivacy in HPr. apply orb_false_iff in HPr as [_ HPr].
    rewrite <- (HIs _ _ Hlx). destruct (Exists g x && negb (eqb (IsPrivate g x) (mPrivate m))) eqn:EE.
    + exfalso. assert (HX : existsb (fun c => Exists g c && negb (eqb (IsPrivate g c) (mPrivate m))) (fChildren (Metadata r)) = true).
      { apply existsb_exists. exists x. split; [by apply list_elem_of_In|done]. }
      congruence.
    + rewrite links_lookup in Hlx. unfold Exists in EE. destruct (cache g !! x); [|done]. cbn [andb] in EE. by apply negb_false_iff, eqb_prop in EE.
Qed.

Lemma next_groups_wf (g : GroupsService) now ev : wf (cache g) -> wf (next_groups g now ev).
Proof.
  intros HW. unfold next_groups. destruct (Kind ev =? KindCreateGroup).
  { destruct (GroupIDFromTags (Tags ev)) as [id|?|] eqn:E; [|done..]. unfold Exists. destruct (cache g !! id) eqn:El; [done|].
    apply wf_create; [done|by eapply GroupIDFromTags_nonempty|done]. }
  destruct (Kind ev =? KindDeleteGroup).
  { destruct (GroupIDFromTags (Tags ev)) as [id|?|]; [|done..]. destruct (cache g !! id) as [d|] eqn:El; [|done].
    destruct (CanPerform _ _ _ _); [|done]. by apply wf_remove. }
  unfold on_action. destruct (Kind ev =? KindPutUser).
  { destruct (permitted g ev) as [a|]; [|done]. apply wf_alter; [intros; apply withMember_ID| |intros; by apply withMember_nodup|done].
    intros r. unfold withMember. by destruct (replace_member _ _). }
  destruct (Kind ev =? KindRemoveUser).
  { destruct (permitted g ev) as [a|]; [|done]. apply wf_alter; [done|done|intros; by apply withoutMember_nodup|done]. }
  destruct (Kind ev =? KindEditMetadata).
  { destruct (permitted g ev) as [a|]; [|done]. destruct (actMetadata a) as [m|]; [|done]. destruct (cache g !! actGroupID a) as [r|] eqn:El; [|done].
    destruct (edit_refusal g ev (actGroupID a) m) eqn:ER; [done|]. apply wf_edit; [done|done|]. by eapply edit_accepted. }
  destruct (Kind ev =? KindUpdatePinList).
  { destruct (permitted g ev) as [a|]; [|done]. by apply wf_alter. }
  destruct (Kind ev =? KindJoinRequest).
  { destruct (ParseJoinRequest ev) as [jr|?|]; [|done..]. destruct (IsMember _ _ _); [done|]. destruct (IsClosed _ _ && _); [done|].
    apply wf_alter; [intros; apply withMember_ID| |intros; by apply withMember_nodup|done].
    intros r. unfold withMember. by destruct (replace_member _ _). }
  destruct (Kind ev =? KindLeaveRequest); [|done].
  destruct (ParseLeaveRequest ev) as [lr|?|]; [|done..]. destruct (IsMember _ _ _); [|done].
  apply wf_alter; [done|done|intros; by apply withoutMember_nodup|done].
Qed.

End Next.

(** * relay: the life of the hosted groups

    What holds of the groups in every reachable state of the service: events,
    settings, other writers of the event store, and restarts that load the
    groups back from the database.  The rule of a restart is that of a relay
    whose records survive their codec. *)

Section Life.
Context {GoLower0 : GoLower} {Schnorr0 : Schnorr} {Bolt0 : Bolt} {GroupJSON0 : GroupJSON} {EventDB0 : EventDB}.

(** The service of a new process over the same database. *)
Definition reopen (g : GroupsService) : GroupsService :=
  mkGroups (groupsB g) (invitesB g) (evs g) ∅ defaultGroupModerationPolicy ∅ None false false ∅ None (storeErrors g).

(** A change of the settings. *)
Inductive setting : M unit -> Prop :=
  | set_policy now order p : setting (SetModerationPolicy now order p)
  | set_log on : setting (SetModerationLog on)
  | set_pending on : setting (SetPendingJoins on)
  | set_descriptions now order d : setting (SetRoleDescriptions now order d)
  | set_admins pks : setting (SetRelayAdmins pks)
  | set_notices k : setting (SetMemberNotices k)
  | set_signer pk sk : setting (setSigner pk sk).

Inductive reachable : GroupsService -> Prop :=
  | reach_new e : reachable (NewGroupsService None None e)
  | reach_event g g' now s ev resp : reachable g -> HandleEvent now s ev g = Some (g', resp) -> reachable g'
  | reach_setting g g' m : reachable g -> setting m -> m g = Some (g', tt) -> reachable g'
  | reach_store g e : reachable g -> reachable (set_evs g e)
  | reach_restart g g' : reachable g -> (forall id r, cache g !! id = Some r -> group_stable r) ->
      LoadFromStore (reopen g) = Some (g', None) -> reachable g'.

(** A setting leaves the groups alone. *)
Lemma setting_groups m g g' : setting m -> m g = Some (g', tt) ->
  groupsB g' = groupsB g /\ invitesB g' = invitesB g /\ cache g' = cache g /\ storeErrors g' = storeErrors g.
Proof.
  intros HS E. destruct HS; try (injection E as <-; done).
  - unfold SetModerationPolicy, mbind, M_bind in E. by apply quiet_allRoles in E as [e ->].
  - unfold SetRoleDescriptions, mbind, M_bind in E. by apply quiet_allRoles in E as [e ->].
  - unfold setSigner in E. destruct (_ || _); by injection E as <-.
Qed.

Context (BL : BoltLaws).
#[local] Set Default Proof Using "BL".

(** ** Loading *)

Lemma unmarshal_all_spec l (c : groups) :
  (forall k v, (k, v) ∈ l -> exists r, c !! k = Some r /\ v = MarshalGroup r) ->
  (forall id r, c !! id = Some r -> group_stable r) ->
  exists rs, unmarshal_all l = Ok rs /\ length rs = length l /\
    forall i k v, l !! i = Some (k, v) -> exists r, rs !! i = Some r /\ c !! k = Some r.
Proof.
  intros Hl Hst. induction l as [|[k v] l IH]; [by exists []|]. destruct IH as (rs & E & HL & HI); [intros; apply Hl; by right|].
  destruct (Hl k v) as (r & Hr & ->); [by left|]. cbn [unmarshal_all]. rewrite (Hst _ _ Hr). cbn. rewrite E. cbn.
  exists (r :: rs). split; [done|]. split; [cbn; lia|]. intros [|i] k' v' Hi; [injection Hi as <- <-; by exists r|by eapply HI].
Qed.

Lemma replace_all l (c0 : groups) id :
  NoDup (map grpID l) ->
  foldl (fun (c : groups) r => <[grpID r := r]> c) c0 l !! id =
    match List.find (fun r => bool_decide (grpID r = id)) l with Some r => Some r | None => c0 !! id end.
Proof.
  revert c0. induction l as [|r l IH]; intros c0 HN; [done|]. cbn [map] in HN. apply NoDup_cons in HN as [Hr HN]. cbn [foldl List.find].
  rewrite IH by done. destruct (bool_decide_reflect (grpID r = id)) as [<-|Hne]; [|by rewrite lookup_insert_ne].
  rewrite lookup_insert_eq. destruct (List.find _ l) as [r'|] eqn:E; [|done]. apply find_some in E as [Hin HE].
  apply bool_decide_eq_true in HE. exfalso. apply Hr. rewrite <- HE. apply list_elem_of_In, in_map. by apply list_elem_of_In, list_elem_of_In.
Qed.

(** A restart finds the groups it left. *)
Lemma load_exact g :
  mirrors g -> ids_ok (cache g) -> (forall id r, cache g !! id = Some r -> group_stable r) ->
  exists g', LoadFromStore (reopen g) = Some (g', None) /\ cache g' = cache g /\ groupsB g' = groupsB g /\
    invitesB g' = invitesB g /\ evs g' = evs g /\ storeErrors g' = storeErrors g.
Proof.
  intros HM HI Hst. unfold LoadFromStore, mbind, M_bind, get. cbn [groupsB reopen]. unfold ListGroups. destruct (groupsB g) as [b|] eqn:Eb; last first.
  { eexists. split; [reflexivity|]. cbn. split_and!; try done. apply map_eq. intros id. specialize (HM id). rewrite Eb in HM.
    unfold bucket_kv in HM. rewrite lookup_empty in HM. rewrite lookup_empty. by destruct (cache g !! id). }
  destruct (ascend_spec BL b []) as [Ha Hsort].
  assert (Hk : forall k v, (k, v) ∈ ascend b [] <-> MarshalGroup <$> cache g !! k = Some v).
  { intros k v. rewrite Ha, <- (HM k), Eb. unfold bucket_kv. split; [tauto|]. intros H. split; [done|]. by destruct k. }
  destruct (unmarshal_all_spec (ascend b []) (cache g)) as (rs & E & HL & HR); [|done|].
  { intros k v Hin. apply Hk in Hin. destruct (cache g !! k) as [r|]; [|done]. injection Hin as <-. by exists r. }
  rewrite E. eexists. split; [reflexivity|]. cbn. split_and!; try done. apply map_eq. intros id.
  assert (Hids : map grpID rs = (ascend b []).*1).
  { apply list_eq. intros i. rewrite list_lookup_fmap. change (map grpID rs) with (grpID <$> rs). rewrite list_lookup_fmap.
    destruct (ascend b [] !! i) as [[k v]|] eqn:Ei.
    - destruct (HR i k v Ei) as (r & -> & Hc). cbn. f_equal. by apply HI.
    - apply lookup_ge_None in Ei. cbn. rewrite lookup_ge_None_2; [done|]. lia. }
  assert (HN : NoDup (map grpID rs)).
  { rewrite Hids. clear - Hsort. induction Hsort as [|x l _ IH HF]; [constructor|]. cbn. apply NoDup_cons. split; [|done].
    intros (y & HE & Hy)%list_elem_of_fmap. rewrite Forall_forall in HF. specialize (HF y Hy). unfold before in HF.
    rewrite HE, Cmp.ltb_irrefl in HF. done. }
  rewrite replace_all by done. destruct (cache g !! id) as [r|] eqn:Ec.
  - destruct (List.find (fun r => bool_decide (grpID r = id)) rs) as [r'|] eqn:Ef.
    + apply find_some in Ef as [Hin HE]. apply bool_decide_eq_true in HE. apply list_elem_of_In, list_elem_of_lookup in Hin as [i Hi].
      destruct (ascend b [] !! i) as [[k v]|] eqn:Ei.
      * destruct (HR i k v Ei) as (r2 & Hr2 & Hc2). assert (r2 = r') as -> by congruence. rewrite (HI _ _ Hc2) in HE. congruence.
      * apply lookup_ge_None in Ei. apply lookup_lt_Some in Hi. lia.
    + exfalso. assert (Hin : (id, MarshalGroup r) ∈ ascend b []) by (apply Hk; by rewrite Ec).
      apply list_elem_of_lookup in Hin as [i Hi]. destruct (HR i _ _ Hi) as (r2 & Hr2 & Hc2).
      pose proof (find_none _ _ Ef r2) as Hno. cbn in Hno. rewrite bool_decide_eq_true_2 in Hno; [|by apply HI].
      assert (In r2 rs) by (apply list_elem_of_In; by eapply list_elem_of_lookup_2). by specialize (Hno H).
  - destruct (List.find (fun r => bool_decide (grpID r = id)) rs) as [r'|] eqn:Ef; [|by rewrite lookup_empty].
    exfalso. apply find_some in Ef as [Hin HE]. apply bool_decide_eq_true in HE. apply list_elem_of_In, list_elem_of_lookup in Hin as [i Hi].
    destruct (ascend b [] !! i) as [[k v]|] eqn:Ei.
    + destruct (HR i k v Ei) as (r2 & Hr2 & Hc2). assert (r2 = r') as -> by congruence. rewrite (HI _ _ Hc2) in HE. congruence.
    + apply lookup_ge_None in Ei. apply lookup_lt_Some in Hi. lia.
Qed.

(** ** The invariant *)

Lemma wf_empty : wf (∅ : groups).
Proof.
  split; [by intros id r; rewrite lookup_empty|by intros id r; rewrite lookup_empty|].
  unfold links. rewrite fmap_empty. apply forest_empty.
Qed.

Lemma reachable_mirrors g : reachable g -> mirrors g /\ ids_ok (cache g).
Proof.
  induction 1 as [e|g g' now s ev resp _ [IH1 IH2] E|g g' m _ [IH1 IH2] HS E|g e _ IH|g g' _ [IH1 IH2] Hst E].
  - split; [intros id; cbn; by rewrite !lookup_empty|intros id r; cbn; by rewrite lookup_empty].
  - apply (steady_HandleEvent BL) in E as [_ _ HM HI]. auto.
  - apply setting_groups in E as (E1 & _ & E2 & _); [|done]. unfold mirrors. rewrite E1, E2. done.
  - exact IH.
  - destruct (load_exact g IH1 IH2 Hst) as (g2 & E2 & Hc & Hb & _). assert (g2 = g') as -> by congruence.
    unfold mirrors. rewrite Hc, Hb. done.
Qed.

Lemma reachable_wf g : reachable g -> storeErrors g = [] -> wf (cache g).
Proof.
  induction 1 as [e|g g' now s ev resp HR IH E|g g' m _ IH HS E|g e _ IH|g g' HR IH Hst E]; intros Herr.
  - apply wf_empty.
  - destruct (reachable_mirrors _ HR) as [_ HI]. pose proof (steady_HandleEvent BL now s ev _ _ _ E) as HS.
    assert (Hg : storeErrors g = []). { destruct (st_errors _ _ HS) as [k Hk]. rewrite Herr in Hk. by destruct (storeErrors g). }
    rewrite (HandleEvent_groups BL now s ev g g' resp HI); [by apply next_groups_wf, IH| |done]. unfold clean. congruence.
  - apply setting_groups in E as (_ & _ & E2 & E3); [|done]. rewrite E2. apply IH. congruence.
  - by apply IH.
  - destruct (reachable_mirrors _ HR) as [HM HI]. destruct (load_exact g HM HI Hst) as (g2 & E2 & Hc & _ & _ & _ & HE).
    assert (g2 = g') as -> by congruence. rewrite Hc. apply IH. congruence.
Qed.

End Life.
