(* ===== verification/GroupsAuth.v ===== *)
(** * relay: who changes a group, and when nothing changes

    The lemmas behind the group theorems: what a refused request leaves behind,
    who is behind a change of a group, which invite admits to a closed group. *)

From S2P Require Import Prelude GoLib Bolt Sha256 NostrUtils Pow Event Filter StoreDb StoreScan GroupsForest Nip29 Nip29Props GroupStore Groups GroupsInv GroupsStep GroupsWf.

Section Auth.
Context {GoLower0 : GoLower} {Schnorr0 : Schnorr} {Bolt0 : Bolt} {GroupJSON0 : GroupJSON} {EventDB0 : EventDB}.

(** ** Refusals *)

(** The groups, their bucket and their invites are as before. *)
Definition same_groups (g g' : GroupsService) : Prop :=
  cache g' = cache g /\ groupsB g' = groupsB g /\ invitesB g' = invitesB g.

(** A refusal leaves the groups; what it answers names the event. *)
Definition answers (ev : Event) (m : M OkResponse) : Prop := forall g g' resp, m g = Some (g', resp) ->
  rEventID resp = ID ev /\ (Accepted resp = false -> same_groups g g').

(** An accepting end. *)
Definition accepts (ev : Event) (m : M OkResponse) : Prop :=
  forall g g' resp, m g = Some (g', resp) -> rEventID resp = ID ev /\ Accepted resp = true.

Lemma accepts_bind {A} ev (m : M A) k : (forall a, accepts ev (k a)) -> accepts ev (m ≫= k).
Proof. intros Hk g g' resp (g1 & a & _ & E)%bind_Some. by eapply Hk. Qed.
Lemma accepts_accept ev msg : accepts ev (accept ev msg).
Proof. by intros g g' resp [= _ <-]. Qed.
Lemma accepts_panics ev : accepts ev panics.
Proof. done. Qed.
Lemma accepts_answers ev m : accepts ev m -> answers ev m.
Proof. intros Ha g g' resp E. destruct (Ha _ _ _ E) as [H1 H2]. split; [done|]. congruence. Qed.

Lemma answers_quiet {A} ev (m : M A) k : quiet m -> (forall a, answers ev (k a)) -> answers ev (m ≫= k).
Proof. intros Hm Hk g g' resp (g1 & a & E1 & E2)%bind_Some. apply Hm in E1 as [e ->]. by apply Hk in E2. Qed.
Lemma answers_refuse ev msg : answers ev (refuse ev msg).
Proof. by intros g g' resp [= <- <-]. Qed.
Lemma answers_refuse_err ev e : answers ev (refuse_err ev e).
Proof. by intros g g' resp [= <- <-]. Qed.
Lemma answers_ret ev b msg : answers ev (mret (mkOk (ID ev) b msg)).
Proof. by intros g g' resp [= <- <-]. Qed.
Lemma answers_panics ev : answers ev panics.
Proof. done. Qed.

(** A commit that fails changes nothing; one that succeeds leads to acceptance. *)
Lemma answers_update {id f} ev (k : outcome StoreErr (option GroupRecord) -> M OkResponse) :
  (forall e, answers ev (k (Err e))) -> (forall r, accepts ev (k (Ok r))) -> answers ev (update id f ≫= k).
Proof.
  intros He Ha g g' resp (g1 & r & E1 & E2)%bind_Some. unfold update in E1. apply bind_Some in E1 as (g0 & ? & [= <- <-] & E1).
  destruct (cache g !! id) as [cur|].
  - apply bind_Some in E1 as (g2 & err & E3 & E1). unfold commit in E3. destruct (PutGroup _ _) as [b|e|]; [| |done].
    + injection E3 as <- <-. injection E1 as <- <-. destruct (Ha _ _ _ _ E2) as [H1 H2]. split; [done|]. congruence.
    + injection E3 as <- <-. injection E1 as <- <-. apply He in E2 as [H1 H2]. split; [done|]. intros HF. by destruct (H2 HF) as (H3 & H4 & H5).
  - injection E1 as <- <-. eapply (accepts_answers _ _ (Ha _)). done.
Qed.

#[local] Hint Resolve accepts_accept accepts_panics accepts_answers answers_refuse answers_refuse_err answers_ret answers_panics : answers.

Ltac answers_step :=
  match goal with
  | |- answers _ (update _ _ ≫= _) => apply answers_update; [intros ?|intros ?]
  | |- answers _ (mbind _ _) => apply answers_quiet; [solve [by_quiet]|intros ?]
  | |- accepts _ (mbind _ _) => apply accepts_bind; intros ?
  | |- answers _ (if ?b then _ else _) => destruct b
  | |- answers _ (match ?x with _ => _ end) => destruct x
  | |- accepts _ (match ?x with _ => _ end) => destruct x
  | |- answers _ _ => solve [eauto with answers]
  | |- accepts _ _ => solve [eauto with answers]
  end.
Ltac answers := repeat answers_step.

Lemma moderate_answers ev kind denied act : (forall a, answers ev (act a)) -> answers ev (moderate ev kind denied act).
Proof. intros Ha. unfold moderate. answers. Qed.

Lemma create_answers now s ev : answers ev (handleCreate now s ev).
Proof.
  unfold handleCreate. answers. intros g g' resp (g1 & err & E1 & E2)%bind_Some. unfold Create, commit in E1.
  destruct (PutGroup _ _) as [b|e|]; [| |done]; injection E1 as <- <-.
  - revert E2. match goal with |- ?m _ = _ -> _ => assert (HA : accepts ev m) by answers end. intros E2.
    destruct (HA _ _ _ E2) as [H1 H2]. split; [done|]. congruence.
  - by injection E2 as <- <-.
Qed.

Lemma delete_answers now s ev : answers ev (handleDeleteGroup now s ev).
Proof. unfold handleDeleteGroup. answers. apply accepts_answers. answers. Qed.

Lemma storePendingJoin_answers id ev : answers ev (storePendingJoin id ev).
Proof. unfold storePendingJoin. answers. Qed.

Lemma admit_answers now s id ev : answers ev (admit_user now s id ev).
Proof. unfold admit_user, UpsertMember. answers. Qed.

(** Whatever is refused leaves groups and invites as they were; an invite is
    spent by a refused join only when the roster could not be stored. *)
Lemma HandleEvent_answers now s ev g g' resp :
  HandleEvent now s ev g = Some (g', resp) ->
  rEventID resp = ID ev /\
  (Accepted resp = false -> cache g' = cache g /\ groupsB g' = groupsB g /\ (invitesB g' = invitesB g \/ storeErrors g' <> storeErrors g)).
Proof.
  assert (HW : forall m, answers ev m -> m g = Some (g', resp) -> rEventID resp = ID ev /\
    (Accepted resp = false -> cache g' = cache g /\ groupsB g' = groupsB g /\ (invitesB g' = invitesB g \/ storeErrors g' <> storeErrors g))).
  { intros m Hm E. apply Hm in E as [H1 H2]. split; [done|]. intros HF. destruct (H2 HF) as (? & ? & ?). auto. }
  unfold HandleEvent. destruct (Kind ev =? KindCreateGroup); [apply HW, create_answers|].
  destruct (Kind ev =? KindDeleteGroup); [apply HW, delete_answers|].
  destruct (Kind ev =? KindPutUser); [apply HW, moderate_answers; intros a; unfold UpsertMember; answers|].
  destruct (Kind ev =? KindRemoveUser); [apply HW, moderate_answers; intros a; unfold RemoveMember; answers|].
  destruct (Kind ev =? KindEditMetadata); [apply HW, moderate_answers; intros a; unfold SetMetadata; answers|].
  destruct (Kind ev =? KindDeleteEvent).
  { apply HW, moderate_answers. intros a. answers. }
  destruct (Kind ev =? KindCreateInvite).
  { apply HW, moderate_answers. intros a g1 g2 r (g3 & err & E1 & E2)%bind_Some. unfold put_invite in E1.
    destruct (PutGroupInvite _ _); [| |done]; injection E1 as <- <-; [|by injection E2 as <- <-].
    apply bind_Some in E2 as (g4 & ? & _ & E2). by injection E2 as <- <-. }
  destruct (Kind ev =? KindUpdatePinList); [apply HW, moderate_answers; intros a; unfold SetPins; answers|].
  destruct (Kind ev =? KindJoinRequest).
  { unfold handleJoinRequest. destruct (ParseJoinRequest ev) as [jr|e|]; [|apply HW; answers|apply HW; answers].
    intros (g1 & ? & [= <- <-] & E)%bind_Some. destruct (negb _); [by eapply (HW (refuse ev _)); [answers|]|].
    destruct (IsMember _ _ _); [by eapply (HW (accept ev _)); [answers|]|].
    destruct (IsClosed _ _); [|by eapply HW; [apply admit_answers|]].
    destruct (bool_decide (jCode jr = [])).
    { destruct (pendingJoins g); [by eapply HW; [apply storePendingJoin_answers|]|by eapply (HW (refuse ev _)); [answers|]]. }
    apply bind_Some in E as (g1 & inv & E1 & E). unfold consume_invite in E1.
    destruct (ConsumeGroupInvite _ _ _) as [[b i]|e|]; [| |done]; injection E1 as <- <-.
    - unfold admit_user in E. apply bind_Some in E as (g1 & r & E1 & E). unfold UpsertMember, update in E1.
      apply bind_Some in E1 as (g2 & ? & [= <- <-] & E1). change (cache (set_invitesB g b)) with (cache g) in E1.
      assert (HA : forall r, accepts ev (_ ← publishGroupRosterMirrors now s r;
        _ ← publishMemberNotice now s (jGroupID jr) (PubKey ev) (PubKey ev) (ID ev) true;
        _ ← clearPendingJoins (jGroupID jr) (PubKey ev); accept ev (bs "info: welcome to the group!"))) by (intros r'; answers).
      destruct (cache g !! jGroupID jr) as [cur|].
      + apply bind_Some in E1 as (g2 & err & E2 & E1). unfold commit in E2. destruct (PutGroup _ _) as [b'|e|]; [| |done]; injection E2 as <- <-;
          injection E1 as <- <-.
        * destruct (HA _ _ _ _ E) as [H1 H2]. split; [done|congruence].
        * injection E as <- <-. split; [done|]. intros _. split_and!; [done..|]. right. cbn. intros HE.
          apply (f_equal length) in HE. rewrite length_app in HE. cbn in HE. lia.
      + injection E1 as <- <-. destruct (HA _ _ _ _ E) as [H1 H2]. split; [done|congruence].
    - by eapply (HW (refuse ev _)); [answers|]. }
  destruct (Kind ev =? KindLeaveRequest); [|by apply HW; answers].
  apply HW. unfold handleLeaveRequest, RemoveMember. answers.
Qed.

(** ** Who is behind a change *)

(** Nothing but the roster entry of [pk]. *)
Definition roster_only (pk : gostring) (r r' : GroupRecord) : Prop :=
  grpID r' = grpID r /\ Metadata r' = Metadata r /\ Pins r' = Pins r /\ grpCreatedAt r' = grpCreatedAt r /\
  forall k, k <> pk -> member r' k = member r k.

(** Nothing but the parent and the children. *)
Definition links_only (r r' : GroupRecord) : Prop :=
  grpID r' = grpID r /\ Members r' = Members r /\ Pins r' = Pins r /\ grpCreatedAt r' = grpCreatedAt r /\
  with_Parent (with_Children (Metadata r') []) [] = with_Parent (with_Children (Metadata r) []) [].

(** The author of [ev] is entitled to change the record under [id] this way. *)
Inductive entitled (g : GroupsService) (now : Z) (ev : Event) (id : gostring) : option GroupRecord -> option GroupRecord -> Prop :=
  | en_create : Kind ev = KindCreateGroup -> entitled g now ev id None (Some (newGroupRecord now id (PubKey ev)))
  | en_self r r' : Kind ev = KindJoinRequest \/ Kind ev = KindLeaveRequest ->
      roster_only (PubKey ev) r r' -> RolesFor r' (PubKey ev) = [] -> entitled g now ev id (Some r) (Some r')
  | en_moderator o o' : GroupIDFromTags (Tags ev) = Ok id -> CanPerform g id (PubKey ev) (Kind ev) = true ->
      IsModerationKind (Kind ev) = true -> entitled g now ev id o o'
  | en_relative gid r r' : Kind ev = KindEditMetadata \/ Kind ev = KindDeleteGroup ->
      GroupIDFromTags (Tags ev) = Ok gid -> CanPerform g gid (PubKey ev) (Kind ev) = true ->
      links_only r r' -> (fParent (Metadata r') = fParent (Metadata r) \/ (fParent (Metadata r) = gid /\ fParent (Metadata r') = [])) ->
      drop_child gid (fChildren (Metadata r')) = drop_child gid (fChildren (Metadata r)) ->
      (gid ∈ fChildren (Metadata r') -> gid ∈ fChildren (Metadata r) \/ IsAdmin g id (PubKey ev) = true) ->
      entitled g now ev id (Some r) (Some r').

Lemma find_replace_other m l k : k <> Pubkey m ->
  List.find (fun x => bool_decide (Pubkey x = k)) (replace_member m l).1 = List.find (fun x => bool_decide (Pubkey x = k)) l.
Proof.
  intros Hk. induction l as [|x l IH]; [done|]. cbn [replace_member]. destruct (replace_member m l) as [ms b]. cbn [fst] in IH.
  destruct (bool_decide_reflect (Pubkey x = Pubkey m)) as [E|E]; cbn [fst List.find]; rewrite IH; [|done].
  rewrite E. by rewrite bool_decide_eq_false_2.
Qed.

Lemma find_app {A} (P : A -> bool) l1 l2 :
  List.find P (l1 ++ l2) = match List.find P l1 with Some x => Some x | None => List.find P l2 end.
Proof. induction l1 as [|x l IH]; [done|]. cbn. by destruct (P x). Qed.

Lemma withMember_other r m k : k <> Pubkey m -> member (withMember r m) k = member r k.
Proof.
  intros Hk. unfold member, withMember. pose proof (find_replace_other m (Members r) k Hk) as HF.
  destruct (replace_member m (Members r)) as [ms b]. cbn [fst Members with_Members] in *. rewrite <- HF.
  destruct b; [done|]. rewrite find_app. cbn. rewrite bool_decide_eq_false_2; [|done]. by destruct (List.find _ ms).
Qed.

Lemma member_None r k : member r k = None <-> k ∉ map Pubkey (Members r).
Proof.
  unfold member. split.
  - intros HN Hin. rewrite list_elem_of_In, in_map_iff in Hin. destruct Hin as (m & <- & Hm).
    pose proof (find_none _ _ HN m Hm) as H. cbn in H. by rewrite bool_decide_eq_true_2 in H.
  - intros HN. destruct (List.find _ _) as [m|] eqn:E; [|done]. apply find_some in E as [Hm HE]. apply bool_decide_eq_true in HE as <-.
    exfalso. apply HN. rewrite list_elem_of_In. by apply in_map.
Qed.

Lemma withMember_self r m : member (withMember r m) (Pubkey m) = Some m.
Proof.
  unfold member, withMember. pose proof (replace_member_keys m (Members r)) as [_ HB].
  assert (HF : (replace_member m (Members r)).2 = true -> List.find (fun x => bool_decide (Pubkey x = Pubkey m)) (replace_member m (Members r)).1 = Some m).
  { clear HB. induction (Members r) as [|x l IH]; [done|]. cbn [replace_member]. destruct (replace_member m l) as [ms b]. cbn [fst snd] in IH.
    destruct (bool_decide_reflect (Pubkey x = Pubkey m)) as [E|E]; cbn [fst snd List.find].
    - intros _. by rewrite bool_decide_eq_true_2.
    - rewrite bool_decide_eq_false_2 by done. exact IH. }
  destruct (replace_member m (Members r)) as [ms b] eqn:E. cbn [fst snd Members with_Members] in *. destruct b; [by apply HF|].
  rewrite find_app. pose proof (replace_member_keys m (Members r)) as [HK _]. rewrite E in HK. cbn [fst] in HK.
  symmetry in HB. apply bool_decide_eq_false in HB.
  assert (HN : List.find (fun x => bool_decide (Pubkey x = Pubkey m)) ms = None).
  { apply (member_None (with_Members r ms)). cbn. by rewrite HK. }
  rewrite HN. cbn. by rewrite bool_decide_eq_true_2.
Qed.

Lemma withoutMember_other r pk k : k <> pk -> member (withoutMember r pk) k = member r k.
Proof.
  intros Hk. unfold member, withoutMember. cbn [Members with_Members]. induction (Members r) as [|x l IH]; [done|]. cbn [List.filter List.find].
  destruct (bool_decide_reflect (Pubkey x = pk)) as [E|E]; cbn [negb].
  - rewrite IH. by rewrite bool_decide_eq_false_2 by congruence.
  - cbn [List.find]. by rewrite IH.
Qed.

Lemma withoutMember_self r pk : member (withoutMember r pk) pk = None.
Proof. apply member_None. rewrite withoutMember_keys. tauto. Qed.

Lemma permitted_Some g ev a : permitted g ev = Some a ->
  GroupIDFromTags (Tags ev) = Ok (actGroupID a) /\ CanPerform g (actGroupID a) (PubKey ev) (Kind ev) = true /\ ParseModerationAction ev = Ok a.
Proof.
  unfold permitted. destruct (ParseModerationAction ev) as [a'|?|] eqn:E; [|done..]. destruct (CanPerform _ _ _ _) eqn:EC; [|done].
  intros [= ->]. apply action_sound in E as (_ & HT & _). done.
Qed.

(** A moderation event that changes one record. *)
Lemma alter_entitled g now ev a f id :
  permitted g ev = Some a -> IsModerationKind (Kind ev) = true ->
  alter f (actGroupID a) (cache g) !! id = cache g !! id \/
  entitled g now ev id (cache g !! id) (alter f (actGroupID a) (cache g) !! id).
Proof.
  intros HP HK. apply permitted_Some in HP as (HT & HC & _). destruct (decide (id = actGroupID a)) as [->|Hne].
  - right. by apply en_moderator.
  - left. by apply lookup_alter_ne.
Qed.

Lemma drop_child_idem x cs : drop_child x (drop_child x cs) = drop_child x cs.
Proof.
  unfold drop_child. induction cs as [|c cs IH]; [done|]. cbn [List.filter]. destruct (bool_decide_reflect (c = x)) as [E|E]; cbn [negb]; [done|].
  cbn [List.filter]. rewrite bool_decide_eq_false_2 by done. cbn [negb]. by rewrite IH.
Qed.

Lemma drop_child_app x cs : drop_child x (cs ++ [x]) = drop_child x cs.
Proof. unfold drop_child. rewrite List.filter_app. cbn. rewrite bool_decide_eq_true_2 by done. cbn. apply app_nil_r. Qed.

Lemma cut_relative g now ev id gid r :
  Kind ev = KindEditMetadata \/ Kind ev = KindDeleteGroup -> GroupIDFromTags (Tags ev) = Ok gid ->
  CanPerform g gid (PubKey ev) (Kind ev) = true -> entitled g now ev id (Some r) (Some (cutChild gid r)).
Proof.
  intros HK HT HC. apply en_relative with gid; [done..|by left|apply drop_child_idem|].
  cbn. rewrite drop_child_elem. tauto.
Qed.

Lemma remove_entitled g now ev d id gid :
  wf (cache g) -> Kind ev = KindDeleteGroup -> GroupIDFromTags (Tags ev) = Ok gid -> cache g !! gid = Some d ->
  CanPerform g gid (PubKey ev) (Kind ev) = true ->
  remove_group gid d (cache g) !! id = cache g !! id \/ entitled g now ev id (cache g !! id) (remove_group gid d (cache g) !! id).
Proof.
  intros HW HK HT Hd HC. rewrite remove_group_lookup. destruct (bool_decide_reflect (id = gid)) as [->|Hne].
  { right. apply en_moderator; [done..|]. by rewrite HK. }
  destruct (cache g !! id) as [r|] eqn:Er; [|by left]. cbn -[bool_decide]. destruct HW as [_ _ H3].
  assert (HP : id ∈ fChildren (Metadata d) -> fParent (Metadata r) = gid).
  { intros Hin. destruct (f_down _ H3 gid (link_of d) id) as (lx & Hlx & <-); [by rewrite links_lookup, Hd|done|].
    rewrite links_lookup, Er in Hlx. by injection Hlx as <-. }
  right. destruct (bool_decide_reflect (id ∈ fChildren (Metadata d))) as [Hin|_].
  - specialize (HP Hin). destruct (_ && _).
    + apply en_relative with gid; [by right|done|done|done|by right|apply drop_child_idem|cbn; rewrite drop_child_elem; tauto].
    + apply en_relative with gid; [by right|done|done|done|by right|done|cbn; tauto].
  - destruct (_ && _); [by apply cut_relative; [right|..]|]. apply en_relative with gid; [by right|done|done|done|by left|done|cbn; tauto].
Qed.

Lemma edit_entitled g now ev m r id gid :
  wf (cache g) -> Kind ev = KindEditMetadata -> GroupIDFromTags (Tags ev) = Ok gid -> cache g !! gid = Some r ->
  CanPerform g gid (PubKey ev) (Kind ev) = true -> edit_refusal g ev gid m = None ->
  let f := with_Children (groupMetadataFieldsFromAction (Some m)) (liveGroups g (mChildren m)) in
  edit_group gid (fParent (Metadata r)) f (cache g) !! id = cache g !! id \/
  entitled g now ev id (cache g !! id) (edit_group gid (fParent (Metadata r)) f (cache g) !! id).
Proof.
  intros HW HK HT Hr HC HR f. pose proof (edit_accepted g ev gid r m HW Hr HR) as HE.
  assert (Hn : fParent f <> fParent (Metadata r) -> fParent f <> gid).
  { cbn. intros Hp Hg. destruct (decide (mParent m = [])) as [E|E]; [rewrite <- Hg, E, (wf_nil _ HW) in Hr; done|].
    destruct (e_parent _ _ _ _ _ _ HE Hp E) as [Hne _]. by apply Hne. }
  rewrite edit_group_lookup; [|exact (parent_not_G _ (wf_forest _ HW) _ _ _ _ _ HE)|exact Hn|by apply wf_nil].
  destruct (bool_decide_reflect (id = gid)) as [->|Hne].
  { right. apply en_moderator; [done..|]. by rewrite HK. }
  destruct (cache g !! id) as [r0|] eqn:Er; [|by left]. cbn -[bool_decide f].
  destruct (bool_decide_reflect (fParent f = fParent (Metadata r))) as [Ef|Ef]; [by left|].
  destruct (bool_decide (id = fParent (Metadata r))); [right; by apply cut_relative; [left|..]|].
  destruct (bool_decide_reflect (id = fParent f)) as [Ei|_]; [|by left]. right.
  apply en_relative with gid; [by left|done|done|done|by left|cbn; apply drop_child_app|].
  intros _. right. assert (Hp0 : mParent m <> []).
  { intros E. cbn in Ei. rewrite E in Ei. subst id. by rewrite (wf_nil _ HW) in Er. }
  unfold edit_refusal in HR. rewrite Hr in HR. cbv zeta in HR. cbn in Ef.
  rewrite (bool_decide_eq_false_2 (mParent m = fParent (Metadata r))), (bool_decide_eq_false_2 (mParent m = [])) in HR by done.
  cbn [negb andb] in HR. destruct (parent_refusal _ _ _ _ _) eqn:EP; [done|]. unfold parent_refusal in EP.
  destruct (bool_decide _); [done|]. destruct (negb _); [done|]. destruct (createsCycle _ _ _); [done|].
  cbn in Ei. subst id. by destruct (IsAdmin g (mParent m) (PubKey ev)).
Qed.

(** Every change of a group is one its author is entitled to. *)
Lemma next_groups_entitled g now ev id :
  wf (cache g) -> next_groups g now ev !! id = cache g !! id \/ entitled g now ev id (cache g !! id) (next_groups g now ev !! id).
Proof.
  intros HW. unfold next_groups. destruct (Kind ev =? KindCreateGroup) eqn:K1.
  { apply Z.eqb_eq in K1. destruct (GroupIDFromTags (Tags ev)) as [gid|?|]; [|by left..]. unfold Exists. destruct (cache g !! gid) eqn:El; [by left|].
    destruct (decide (id = gid)) as [->|Hne]; [right; rewrite lookup_insert_eq, El; by constructor|left; by rewrite lookup_insert_ne]. }
  destruct (Kind ev =? KindDeleteGroup) eqn:K2.
  { apply Z.eqb_eq in K2. destruct (GroupIDFromTags (Tags ev)) as [gid|?|] eqn:ET; [|by left..]. destruct (cache g !! gid) as [d|] eqn:El; [|by left].
    destruct (CanPerform _ _ _ _) eqn:EC; [|by left]. apply remove_entitled; [done..|]. by rewrite K2. }
  unfold on_action. destruct (Kind ev =? KindPutUser) eqn:K3.
  { destruct (permitted g ev) as [a|] eqn:EP; [|by left]. apply alter_entitled; [done|]. apply Z.eqb_eq in K3. by rewrite K3. }
  destruct (Kind ev =? KindRemoveUser) eqn:K4.
  { destruct (permitted g ev) as [a|] eqn:EP; [|by left]. apply alter_entitled; [done|]. apply Z.eqb_eq in K4. by rewrite K4. }
  destruct (Kind ev =? KindEditMetadata) eqn:K5.
  { apply Z.eqb_eq in K5. destruct (permitted g ev) as [a|] eqn:EP; [|by left]. destruct (actMetadata a) as [m|]; [|by left].
    destruct (cache g !! actGroupID a) as [r|] eqn:El; [|by left]. destruct (edit_refusal _ _ _ _) eqn:ER; [by left|].
    apply permitted_Some in EP as (HT & HC & _). by apply edit_entitled. }
  destruct (Kind ev =? KindUpdatePinList) eqn:K6.
  { destruct (permitted g ev) as [a|] eqn:EP; [|by left]. apply alter_entitled; [done|]. apply Z.eqb_eq in K6. by rewrite K6. }
  destruct (Kind ev =? KindJoinRequest) eqn:K7.
  { apply Z.eqb_eq in K7. destruct (ParseJoinRequest ev) as [jr|?|]; [|by left..]. destruct (IsMember _ _ _); [by left|].
    destruct (IsClosed _ _ && _); [by left|]. destruct (decide (id = jGroupID jr)) as [->|Hne]; [|left; by apply lookup_alter_ne].
    rewrite lookup_alter_eq. destruct (cache g !! jGroupID jr) as [r|]; [|by left]. right. apply en_self; [by left| |].
    - unfold roster_only. split_and!; try (unfold withMember; by destruct (replace_member _ _)). intros k Hk. by apply withMember_other.
    - unfold RolesFor. change (PubKey ev) with (Pubkey (mkMember (PubKey ev) [])). by rewrite withMember_self. }
  destruct (Kind ev =? KindLeaveRequest) eqn:K8; [|by left]. apply Z.eqb_eq in K8.
  destruct (ParseLeaveRequest ev) as [lr|?|]; [|by left..]. destruct (IsMember _ _ _); [|by left].
  destruct (decide (id = lGroupID lr)) as [->|Hne]; [|left; by apply lookup_alter_ne].
  rewrite lookup_alter_eq. destruct (cache g !! lGroupID lr) as [r|]; [|by left]. right. apply en_self; [by right| |].
  - unfold roster_only. split_and!; try done. intros k Hk. by apply withoutMember_other.
  - unfold RolesFor. by rewrite withoutMember_self.
Qed.

End Auth.
