(* ===== verification/GroupsView.v ===== *)
(** * relay: who may read and post in a group

    The visibility checks of [relay/groups.go], the notices' of
    [relay/groups_notices.go] and [relay/recipient_only.go]: which filters a REQ or
    COUNT may ask, which events it delivers, which events may be posted.  A
    reader is the list of its authenticated keys. *)

From S2P Require Import Prelude GoLib GoHeap Bolt Sha256 NostrUtils Pow Event Filter Latest StoreDb StoreInv StoreScan StoreMerge StoreExact StoreQuery StoreEvents StoreLife StoreBatch GroupsForest Nip29 Nip29Props GroupStore Groups GroupsInv.

Section View.
Context {GoLower0 : GoLower} {Schnorr0 : Schnorr} {Bolt0 : Bolt} {GroupJSON0 : GroupJSON} {EventDB0 : EventDB}.

Definition anyIdentityIsMember (g : GroupsService) (s : list gostring) (groupID : gostring) : bool :=
  existsb (IsMember g groupID) s.
Definition anyIdentityIsAdmin (g : GroupsService) (s : list gostring) (groupID : gostring) : bool :=
  existsb (IsAdmin g groupID) s.

(** ** Filters *)

Definition dNamesGroup (f : SubscriptionFilter) : bool :=
  match elems (Kinds f) with [] => true | ks => existsb IsGroupMetadataKind ks end.

Definition groupIDsInFilter (f : SubscriptionFilter) : list gostring :=
  (if dNamesGroup f then elems (FTags f !! bs "d") else []) ++ elems (FTags f !! bs "h").

(** Why a group may not be asked for: it is not hosted, or private. *)
Definition deniedGroup (g : GroupsService) (s : list gostring) (groupID : gostring) : bool :=
  if negb (Exists g groupID) then true
  else if negb (IsPrivate g groupID) then false
  else negb (anyIdentityIsMember g s groupID).

Definition deniedPrivateGroupFilter (g : GroupsService) (s : list gostring) (fs : list SubscriptionFilter) : option gostring :=
  List.find (deniedGroup g s) (flat_map groupIDsInFilter fs).

(** ** Member notices *)

Definition MemberNotices (g : GroupsService) : option MemberNoticeKinds := memberNotices g.

Definition isMemberNoticeKind (g : GroupsService) (kind : Z) : bool :=
  match MemberNotices g with Some k => (kind =? Added k) || (kind =? Removed k) | None => false end.

Definition names_kind (P : Z -> bool) (f : SubscriptionFilter) : bool :=
  match elems (Kinds f) with [] => true | ks => existsb P ks end.

Definition mayDeliverMemberNotice (g : GroupsService) (fs : list SubscriptionFilter) : bool :=
  match MemberNotices g with None => false | Some _ => existsb (names_kind (isMemberNoticeKind g)) fs end.

Definition namesReader (s : list gostring) (ts : tags) : bool :=
  existsb (fun t => match tag2 (bs "p") t with Some pk => in_list pk s | None => false end) ts.

Definition deniedMemberNotice (g : GroupsService) (s : list gostring) (ev : Event) : bool :=
  if namesReader s (Tags ev) then false else negb (existsb (isRelayAdmin g) s).

(** ** Events *)

Definition deniedModerationEvent (g : GroupsService) (s : list gostring) (ev : Event) : bool :=
  match GroupIDFromTags (Tags ev) with
  | Ok id =>
      if negb (Exists g id) then true
      else if Kind ev =? KindCreateInvite then negb (anyIdentityIsAdmin g s id)
      else negb (anyIdentityIsMember g s id)
  | _ => true
  end.

Definition deniedPendingJoin (g : GroupsService) (s : list gostring) (ev : Event) : bool :=
  match GroupIDFromTags (Tags ev) with
  | Ok id =>
      if negb (Exists g id) then true
      else if existsb (fun pk => bool_decide (pk = PubKey ev)) s then false
      else negb (anyIdentityIsAdmin g s id)
  | _ => true
  end.

(** The tag puts the event into a private group the reader is not in. *)
Definition hidden_tag (g : GroupsService) (s : list gostring) (t : tag) : bool :=
  match tag2 (bs "h") t with Some id => IsPrivate g id && negb (anyIdentityIsMember g s id) | None => false end.

Definition deniedMirror (g : GroupsService) (s : list gostring) (ev : Event) : bool :=
  match GroupIDFromDTag (Tags ev) with
  | Ok id => ((IsPrivate g id || IsHidden g id) && negb (anyIdentityIsMember g s id)) || negb (Exists g id)
  | _ => false
  end.

Definition deniedPrivateGroupEvent (g : GroupsService) (s : list gostring) (ev : Event) : bool :=
  if isMemberNoticeKind g (Kind ev) then deniedMemberNotice g s ev
  else if IsModerationKind (Kind ev) then deniedModerationEvent g s ev
  else if Kind ev =? KindJoinRequest then deniedPendingJoin g s ev
  else if IsGroupMetadataKind (Kind ev) && deniedMirror g s ev then true
  else existsb (hidden_tag g s) (Tags ev).

Definition quoted (s : gostring) : gostring := x22 :: s ++ [x22].

Definition deniedPrivateGroupPotentialEvent `{!EventJSON} (g : GroupsService) (s : list gostring) (pe : PotentialEvent) : bool :=
  if negb (contains (Bytes pe) (quoted (bs "h"))) && negb (contains (Bytes pe) (quoted (bs "d"))) then false
  else match UnmarshalEvent (Bytes pe) with
       | None => false
       | Some ev => deniedPrivateGroupEvent g s ev
       end.

(** ** Skipping the check *)

Definition anyPrivate (g : GroupsService) : bool :=
  existsb (fun x : gostring * GroupRecord => fPrivate (Metadata x.2)) (map_to_list (cache g)).

Definition mayDeliverGroupMetadataKind (fs : list SubscriptionFilter) : bool := existsb (names_kind IsGroupMetadataKind) fs.
Definition mayDeliverModerationKind (fs : list SubscriptionFilter) : bool :=
  existsb (names_kind (fun k => IsModerationKind k || (k =? KindJoinRequest))) fs.

Definition needsPrivacyCheck (g : GroupsService) (fs : list SubscriptionFilter) : bool :=
  anyPrivate g || mayDeliverGroupMetadataKind fs || mayDeliverModerationKind fs || mayDeliverMemberNotice g fs.

(** ** Posting *)

(** The group that refuses the post. *)
Definition deniedGroupWrite (g : GroupsService) (ev : Event) : option gostring :=
  List.find (fun id => (IsPrivate g id || IsClosed g id || IsRestricted g id) && negb (IsMember g id (PubKey ev)))
    (List.filter (Exists g) (omap (tag2 (bs "h")) (Tags ev))).

(** ** Recipient-only kinds *)

Definition recipientOnly (kinds : list Z) (kind : Z) : bool := existsb (fun k => k =? kind) kinds.

Definition namesRecipientOnlyKind (kinds : list Z) (fs : list SubscriptionFilter) : bool :=
  match kinds with [] => false | _ => existsb (fun f => existsb (recipientOnly kinds) (elems (Kinds f))) fs end.

Definition mayMatchRecipientOnlyKind (kinds : list Z) (fs : list SubscriptionFilter) : bool :=
  match kinds with [] => false | _ => existsb (names_kind (recipientOnly kinds)) fs end.

Definition deniedRecipientOnlyEvent (kinds : list Z) (s : list gostring) (ev : Event) : bool :=
  if negb (recipientOnly kinds (Kind ev)) then false else negb (namesReader s (Tags ev)).

(** ** Lemmas *)

Lemma names_kind_false P f k ev :
  names_kind P f = false -> Match f ev = true -> Kind ev = k -> P k = false.
Proof.
  unfold names_kind. intros HN HM <-. apply Match_spec in HM as (_ & _ & HK & _). destruct (Kinds f) as [ks|]; [|done].
  change (elems (Some ks)) with ks in HN. specialize (HK _ eq_refl). destruct ks as [|k0 ks]; [done|].
  destruct (P (Kind ev)) eqn:E; [|done]. rewrite <- HN. symmetry. apply existsb_exists. exists (Kind ev). split; [|done].
  by apply list_elem_of_In.
Qed.

Lemma anyPrivate_false g id : anyPrivate g = false -> IsPrivate g id = false.
Proof.
  intros HA. unfold IsPrivate, cached. destruct (cache g !! id) as [r|] eqn:E; [|done].
  destruct (fPrivate (Metadata r)) eqn:EP; [|done]. rewrite <- HA. symmetry. apply existsb_exists. exists (id, r).
  split; [|done]. by apply list_elem_of_In, elem_of_map_to_list.
Qed.

(** A count or a query that skips the check would have dropped nothing. *)
Lemma skip_check g s fs ev :
  needsPrivacyCheck g fs = false -> GroupMatch fs ev = true -> deniedPrivateGroupEvent g s ev = false.
Proof.
  intros HN HM. unfold needsPrivacyCheck in HN. repeat (apply orb_false_iff in HN as [HN ?]).
  apply existsb_exists in HM as (f & Hf & HM).
  assert (HX : forall P, existsb (names_kind P) fs = false -> P (Kind ev) = false).
  { intros P HP. eapply names_kind_false; [|exact HM|done]. destruct (names_kind P f) eqn:E; [|done].
    rewrite <- HP. symmetry. apply existsb_exists. by exists f. }
  unfold deniedPrivateGroupEvent.
  replace (isMemberNoticeKind g (Kind ev)) with false.
  2:{ symmetry. unfold mayDeliverMemberNotice in H. unfold isMemberNoticeKind at 1. destruct (MemberNotices g) eqn:E; [|done].
      specialize (HX (isMemberNoticeKind g) H). unfold isMemberNoticeKind in HX. by rewrite E in HX. }
  pose proof (HX _ H0) as HMo. cbn beta in HMo. apply orb_false_iff in HMo as [-> ->]. rewrite (HX _ H1). cbn [andb].
  apply not_true_is_false. intros (t & _ & Ht)%existsb_exists. unfold hidden_tag in Ht. destruct (tag2 (bs "h") t) as [id|]; [|done].
  by rewrite (anyPrivate_false g id HN) in Ht.
Qed.

End View.

(** * relay: the group handlers over the event store

    The event store of [StoreDb] and [StoreEvents] as the [EventDB] the group
    handlers use, and what purging a deleted group leaves in it. *)

Section Db.
Context {Bolt0 : Bolt} {JSON0 : EventJSON} {Derived0 : Derived} {GoLower0 : GoLower} (mit MaxLimit : Z).

(** The events of QueryEvents: an arrival number without an event is skipped. *)
Fixpoint fetch_events (tx : Tx) (pes : list PotentialEvent) : outcome StoreErr (list Event) :=
  match pes with
  | [] => Ok []
  | pe :: pes =>
      match findEventUsingTx tx (Evsid pe) with
      | Ok ev => evs ← fetch_events tx pes; Ok (ev :: evs)
      | Err _ => fetch_events tx pes
      | Panic => Panic
      end
  end.

Definition queryEventsTx (tx : Tx) (f : SubscriptionFilter) : outcome StoreErr (list Event) :=
  pes ← StoreScan.findEvents MaxLimit tx f; fetch_events tx pes.

(** One transaction over the arrival numbers. *)
Definition deleteAllTx (tx : Tx) (pes : list PotentialEvent) : outcome StoreErr Tx := StoreDb.deleteAll mit tx (map Evsid pes).

(** One task, and what it is told. *)
Definition insertEventsTx (tx : Tx) (l : list Event) : outcome StoreErr (Tx * option StoreErr) :=
  r ← ExecuteBatch mit MaxLimit tx [EventInsertTask l]; Ok (r.1, from_option id None (head r.2)).

Definition store_db : EventDB := {|
  EvState := Tx;
  QueryEvents := queryEventsTx;
  FindEvents := StoreScan.findEvents MaxLimit;
  DeleteAll := deleteAllTx;
  InsertEvents := insertEventsTx;
|}.

End Db.

Section Purge.
Context {Bolt0 : Bolt} {JSON0 : EventJSON} {Derived0 : Derived} {GoLower0 : GoLower}.
Context (BL : BoltLaws) (mit MaxLimit : Z) (HM : 0 < MaxLimit) (HD : derived_total).
#[local] Set Default Proof Using "All".
#[local] Instance db : EventDB := store_db mit MaxLimit.

(** What the store holds that a filter asks for. *)
Definition held (f : SubscriptionFilter) (e : Event) : bool := negb (IsEphemeralKind (Kind e)) && Match f e.

Lemma fetch_stored tx S (l : list (Z * Event)) :
  represents mit tx S -> (forall x, x ∈ l -> S !! x.1 = Some x.2) -> fetch_events tx (map as_potential l) = Ok l.*2.
Proof.
  intros HR Hl. induction l as [|[id ev] l IH]; [done|]. cbn [map fetch_events as_potential Evsid fst].
  pose proof (Hl (id, ev) ltac:(by left)) as Hid. cbn in Hid. destruct (stored_ok BL mit MaxLimit HM tx S id ev HR Hid) as [Hr _].
  rewrite (findEventUsingTx_spec BL mit tx S) by done. rewrite Hid, IH; [done|]. intros x Hx. apply Hl. by right.
Qed.

(** A filter with full keys and no page. *)
Record plain (f : SubscriptionFilter) : Prop := {
  pl_ids : Forall hex32_ok (elems (IDs f));
  pl_authors : Forall hex32_ok (elems (Authors f));
  pl_page : BeforeID f = [];
}.

Lemma wants_held S f id e : BeforeID f = [] -> query_wants S f id e = held f e.
Proof. intros HB. unfold query_wants, held, stored_id. rewrite HB. cbn. by rewrite andb_true_r. Qed.

(** Purging deletes what the filter asks for and nothing else, unless the index
    does not know an event's tag or the limit cuts the search. *)
Lemma purge_spec f g S :
  store_inv mit (evs g) S -> plain f ->
  exists g' S', purge f g = Some (g', tt) /\ g' = set_evs g (evs g') /\ store_inv mit (evs g') S' /\
    S' ⊆ S /\ (forall id e, S !! id = Some e -> S' !! id = Some e \/ Match f e = true) /\
    (covered mit MaxLimit S f -> forall id e, S' !! id = Some e -> held f e = false).
Proof.
  intros HI [H1 H2 H3]. destruct (find_sound BL mit MaxLimit HM _ S f HI H1 H2) as (l & HF & Hl & HC).
  unfold purge, mbind, M_bind, findEvents. change (FindEvents (evs g) f) with (StoreScan.findEvents MaxLimit (evs g) f). rewrite HF.
  assert (HFl : Forall (fun id => 0 <= id < 2 ^ 64) (map Evsid (map as_potential l))).
  { rewrite Forall_forall. intros id Hid. rewrite list_elem_of_In, map_map, in_map_iff in Hid. destruct Hid as (x & <- & Hx).
    apply list_elem_of_In, Hl in Hx as [Hx _]. cbn. by apply (stored_ok BL mit MaxLimit HM _ S _ _ (si_rep _ _ _ HI) Hx). }
  assert (HW : covered mit MaxLimit S f -> forall id e, without (map Evsid (map as_potential l)) S !! id = Some e -> held f e = false).
  { intros Hc id e [Hid Hno]%without_lookup. destruct (held f e) eqn:E; [|done]. exfalso. apply Hno.
    rewrite list_elem_of_In, map_map, in_map_iff. exists (id, e). split; [done|]. rewrite (HC Hc). apply list_elem_of_In, newest_spec.
    split; [done|]. by rewrite wants_held. }
  destruct (map as_potential l) as [|pe pes] eqn:El.
  { exists g, S. split_and!; try done; [apply set_evs_id|by left|]. intros Hc id e Hid. apply (HW Hc id e), without_lookup. split; [done|]. apply not_elem_of_nil. }
  unfold deleteAll. change (DeleteAll (evs g) (pe :: pes)) with (StoreDb.deleteAll mit (evs g) (map Evsid (pe :: pes))).
  destruct (deleteAll_total BL mit MaxLimit HM HD (map Evsid (pe :: pes)) _ S (si_rep _ _ _ HI) HFl) as [tx' E]. rewrite E.
  apply (deleteAll_spec BL mit) with (S := S) in E as [HR' _]; [|apply HI|done].
  exists (set_evs g tx'), (without (map Evsid (pe :: pes)) S). split_and!; try done.
  - by apply (without_inv BL mit MaxLimit HM) with (tx := evs g).
  - apply map_filter_subseteq.
  - intros id e Hid. destruct (decide (id ∈ map Evsid (pe :: pes))) as [Hin|Hno]; [right|left; by apply without_lookup].
    rewrite <- El, list_elem_of_In, map_map, in_map_iff in Hin. destruct Hin as (x & <- & Hx). apply list_elem_of_In, Hl in Hx as [Hx HMx].
    cbn in Hid. congruence.
Qed.

(** Fewer events are covered too. *)
Lemma covered_mono S S' f : BeforeID f = [] -> S' ⊆ S -> covered mit MaxLimit S f -> covered mit MaxLimit S' f.
Proof.
  intros HB HS [Hv Hlen]. split; [intros id ev Hid; apply (Hv id ev); by eapply lookup_weaken|].
  etrans; [|exact Hlen]. unfold zlen. apply Nat2Z.inj_le, submseteq_length, NoDup_submseteq.
  - apply (NoDup_fmap_1 fst). by apply newest_spec.
  - intros [id ev] [Hid Hw]%newest_spec. apply newest_spec. rewrite wants_held in Hw |- * by done. split; [by eapply lookup_weaken|done].
Qed.

Lemma purge_all fs g S :
  store_inv mit (evs g) S -> Forall plain fs ->
  exists g' S', for_each purge fs g = Some (g', tt) /\ g' = set_evs g (evs g') /\ store_inv mit (evs g') S' /\
    S' ⊆ S /\ (forall id e, S !! id = Some e -> S' !! id = Some e \/ existsb (fun f => Match f e) fs = true) /\
    (Forall (covered mit MaxLimit S) fs -> forall id e, S' !! id = Some e -> existsb (fun f => held f e) fs = false).
Proof.
  intros HI HF. revert g S HI. induction HF as [|f fs Hf HF IH]; intros g S HI.
  { exists g, S. split_and!; try done; [apply set_evs_id|by left]. }
  destruct (purge_spec f g S HI Hf) as (g1 & S1 & E1 & Hg1 & HI1 & HS1 & HD1 & HC1).
  destruct (IH g1 S1 HI1) as (g2 & S2 & E2 & Hg2 & HI2 & HS2 & HD2 & HC2). exists g2, S2. split_and!; try done.
  - cbn [for_each]. unfold mbind, M_bind. by rewrite E1.
  - rewrite Hg2. rewrite Hg1. done.
  - by etrans.
  - intros id e Hid. cbn [existsb]. destruct (HD1 id e Hid) as [H1|H1]; [|right; by rewrite H1].
    destruct (HD2 id e H1) as [H2|H2]; [by left|right; rewrite H2; apply orb_true_r].
  - intros [Hc Hcs]%Forall_cons id e Hid. cbn [existsb]. rewrite (HC1 Hc id e) by (by eapply lookup_weaken). cbn [orb].
    apply (HC2) with id; [|done]. rewrite Forall_forall in Hcs, HF |- *. intros f' Hin. eapply covered_mono; [|exact HS1|by apply Hcs]. by apply HF.
Qed.

Lemma purge_filters_plain s groupID : hex32_ok (selfPubkey s) -> Forall plain (purge_filters s groupID).
Proof. intros Hs. repeat constructor; done. Qed.

End Purge.
