(* ===== verification/GroupsTotal.v ===== *)
(** * relay: every group request is answered

    The parsers of the group events and the handlers run to an answer, whatever
    the event holds, as long as the event store does. *)

From S2P Require Import Prelude GoLib Bolt Sha256 NostrUtils Pow Event Filter StoreDb StoreScan GroupsForest Nip29 Nip29Props GroupStore Groups GroupsInv.

(** ** Parsers *)

Definition safe {E A} (m : outcome E A) : Prop := m <> Panic.

Lemma safe_bind {E A B} (m : outcome E A) (k : A -> outcome E B) : safe m -> (forall a, safe (k a)) -> safe (m ≫= k).
Proof. intros Hm Hk. destruct m as [a|e|]; [apply Hk|done|by destruct Hm]. Qed.

Create HintDb safe.

Ltac by_safe :=
  repeat match goal with
  | |- safe (Ok _) => done
  | |- safe (Err _) => done
  | |- safe (mbind _ _) => apply safe_bind; [|intros ?]
  | |- safe (if ?b then _ else _) => destruct b
  | |- safe (match ?x with _ => _ end) => destruct x
  | |- safe _ => solve [eauto with safe]
  end.

Lemma safe_GroupID ts : safe (GroupIDFromTags ts).
Proof. induction ts as [|t ts IH]; cbn [GroupIDFromTags]; by_safe. Qed.
Lemma safe_check_references vals : safe (check_references vals).
Proof. induction vals; cbn [check_references]; by_safe. Qed.
#[export] Hint Resolve safe_GroupID safe_check_references : safe.
Lemma safe_Timeline ts : safe (TimelineReferences ts).
Proof. induction ts; cbn [TimelineReferences]; by_safe. Qed.
Lemma safe_kinds raws : safe (parse_kinds raws).
Proof. induction raws; cbn [parse_kinds]; by_safe. Qed.
#[export] Hint Resolve safe_Timeline safe_kinds : safe.
Lemma safe_value_tag st name v : safe (value_tag st name v).
Proof. unfold value_tag. by_safe. Qed.
#[export] Hint Resolve safe_value_tag : safe.
Lemma safe_metadata_tag st t : safe (metadata_tag st t).
Proof. unfold metadata_tag. by_safe. Qed.
#[export] Hint Resolve safe_metadata_tag : safe.
Lemma safe_metadata_tags ts st : safe (metadata_tags st ts).
Proof. revert st. induction ts; intros st; cbn [metadata_tags]; by_safe. Qed.
#[export] Hint Resolve safe_metadata_tags : safe.
Lemma safe_wrap {E F A} (f : E -> F) (m : outcome E A) : safe m -> safe (wrap_err f m).
Proof. by destruct m. Qed.
Lemma safe_ensure {E} b (e : E) : safe (ensure b e).
Proof. by destruct b. Qed.
Lemma safe_key s : safe (Validate32Key s).
Proof. unfold Validate32Key. by_safe. Qed.
Lemma safe_kind k : safe (ValidateKind k).
Proof. unfold ValidateKind. by_safe. Qed.
#[export] Hint Resolve safe_wrap safe_ensure safe_key safe_kind : safe.
Lemma safe_ParseATag s : safe (ParseATag s).
Proof. unfold ParseATag. by_safe. Qed.
#[export] Hint Resolve safe_ParseATag : safe.
Lemma safe_pins ts : safe (parsePinReferences ts).
Proof. induction ts; cbn [parsePinReferences]; by_safe. Qed.
Lemma safe_check_pubkey s : safe (check_pubkey s).
Proof. unfold check_pubkey. by_safe. Qed.
Lemma safe_check_kind ev k : safe (check_kind ev k).
Proof. unfold check_kind. by_safe. Qed.
#[export] Hint Resolve safe_pins safe_check_pubkey safe_check_kind : safe.
Lemma safe_action_tags ts st : safe (action_tags st ts).
Proof. revert st. induction ts; intros st; cbn [action_tags]; by_safe. Qed.
Lemma safe_fields ts : safe (parseMetadataFields ts).
Proof. unfold parseMetadataFields, ParseGroupMetadata. by_safe. Qed.
#[export] Hint Resolve safe_action_tags safe_fields : safe.
Lemma safe_ParseModerationAction ev : safe (ParseModerationAction ev).
Proof. unfold ParseModerationAction. by_safe. Qed.
Lemma safe_ParseJoinRequest ev : safe (ParseJoinRequest ev).
Proof. unfold ParseJoinRequest. by_safe. Qed.
Lemma safe_ParseLeaveRequest ev : safe (ParseLeaveRequest ev).
Proof. unfold ParseLeaveRequest. by_safe. Qed.
#[export] Hint Resolve safe_ParseModerationAction safe_ParseJoinRequest safe_ParseLeaveRequest : safe.

(** ** Handlers *)

Section Total.
Context {GoLower0 : GoLower} {Schnorr0 : Schnorr} {Bolt0 : Bolt} {GroupJSON0 : GroupJSON} {EventDB0 : EventDB}.

(** An event store that answers. *)
Record db_answers : Prop := {
  an_query : forall e f, safe (QueryEvents e f);
  an_find : forall e f, safe (FindEvents e f);
  an_delete : forall e pes, safe (DeleteAll e pes);
  an_insert : forall e l, safe (InsertEvents e l);
}.

Lemma safe_privkey k : safe (ParsePrivateKeyHex k).
Proof. unfold ParsePrivateKeyHex. by_safe. Qed.

Lemma safe_Sign ev k : safe (Sign ev k).2.
Proof.
  unfold Sign. pose proof (safe_privkey k) as H. destruct (ParsePrivateKeyHex k) as [b|e|]; [|done|by destruct H]. by destruct (SchnorrSign _ _).
Qed.

Context (HA : db_answers).
#[local] Set Default Proof Using "HA".

Definition total {A} (m : M A) : Prop := forall g, is_Some (m g).

Lemma total_ret {A} (a : A) : total (mret a).
Proof. intros g. by eexists. Qed.
Lemma total_get : total get.
Proof. intros g. by eexists. Qed.
Lemma total_bind {A B} (m : M A) (k : A -> M B) : total m -> (forall a, total (k a)) -> total (m ≫= k).
Proof. intros Hm Hk g. destruct (Hm g) as [[g1 a] E]. unfold mbind, M_bind. rewrite E. apply Hk. Qed.
Lemma total_for_each {A} (f : A -> M unit) l : (forall x, total (f x)) -> total (for_each f l).
Proof. intros Hf. induction l as [|x l IH]; [apply total_ret|]. apply total_bind; [apply Hf|]. intros _. exact IH. Qed.
Lemma total_query f : total (queryEvents f).
Proof. intros g. unfold queryEvents. pose proof (an_query HA (evs g) f) as H. destruct (QueryEvents _ _) as [?|?|]; [by eexists|by eexists|by destruct H]. Qed.
Lemma total_find f : total (findEvents f).
Proof. intros g. unfold findEvents. pose proof (an_find HA (evs g) f) as H. destruct (FindEvents _ _) as [?|?|]; [by eexists|by eexists|by destruct H]. Qed.
(** A search's result is a value or an error. *)
Lemma total_query_bind {B} f (k : outcome StoreErr (list Event) -> M B) :
  (forall l, total (k (Ok l))) -> (forall e, total (k (Err e))) -> total (queryEvents f ≫= k).
Proof.
  intros H1 H2 g. unfold queryEvents, mbind, M_bind. pose proof (an_query HA (evs g) f) as H.
  destruct (QueryEvents _ _) as [?|?|]; [apply H1|apply H2|by destruct H].
Qed.
Lemma total_find_bind {B} f (k : outcome StoreErr (list PotentialEvent) -> M B) :
  (forall l, total (k (Ok l))) -> (forall e, total (k (Err e))) -> total (findEvents f ≫= k).
Proof.
  intros H1 H2 g. unfold findEvents, mbind, M_bind. pose proof (an_find HA (evs g) f) as H.
  destruct (FindEvents _ _) as [?|?|]; [apply H1|apply H2|by destruct H].
Qed.
Lemma total_delete pes : total (deleteAll pes).
Proof. intros g. unfold deleteAll. pose proof (an_delete HA (evs g) pes) as H. destruct (DeleteAll _ _) as [?|?|]; [by eexists|by eexists|by destruct H]. Qed.
Lemma total_insert l : total (insertEvents l).
Proof.
  intros g. unfold insertEvents. pose proof (an_insert HA (evs g) l) as H. destruct (InsertEvents _ _) as [[e err]|e|]; [by eexists|by eexists|by destruct H].
Qed.
Lemma total_commit r : total (commit r).
Proof. intros g. unfold commit, PutGroup. destruct (Put _ _ _); by eexists. Qed.
Lemma total_DeleteG id : total (DeleteG id).
Proof. intros g. by eexists. Qed.
Lemma total_put_invite i : total (put_invite i).
Proof. intros g. unfold put_invite, PutGroupInvite. destruct (Put _ _ _); by eexists. Qed.
Lemma total_consume id code : total (consume_invite id code).
Proof.
  intros g. unfold consume_invite. assert (HS : safe (ConsumeGroupInvite (invitesB g) id code)) by (unfold ConsumeGroupInvite; by_safe).
  destruct (ConsumeGroupInvite _ _ _) as [[b i]|e|]; [by eexists|by eexists|by destruct HS].
Qed.

#[local] Hint Resolve total_ret total_get total_query total_find total_delete total_insert total_commit total_DeleteG total_put_invite
  total_consume : total.

Ltac by_total := unfold refuse, refuse_err, accept;
  repeat match goal with
  | |- total (mbind _ _) => apply total_bind; [|intros ?]
  | |- total (for_each _ _) => apply total_for_each; intros ?
  | |- total (if ?b then _ else _) => destruct b
  | |- total (match ?x with _ => _ end) => destruct x
  | |- total _ => solve [eauto with total]
  | |- forall _, total _ => intros ?
  end.

Lemma total_signed (ev : Event) (k : gostring) (m : Event -> M unit) : (forall ev, total (m ev)) ->
  total (match Sign ev k with (ev, Ok _) => m ev | (_, Err _) => mret tt | (_, Panic) => panics end).
Proof. intros Hm. pose proof (safe_Sign ev k) as H. destruct (Sign ev k) as [ev' [?|?|]]; [apply Hm|apply total_ret|by destruct H]. Qed.

Lemma total_self s ev : total (publishSelfSigned s ev).
Proof. unfold publishSelfSigned. destruct (bool_decide _); [apply total_ret|]. apply (total_signed ev (PrivKey s) (fun ev => _ ← insertEvents [ev]; mret tt)). by_total. Qed.
#[local] Hint Resolve total_self : total.
Lemma total_mirrorAt now k id : total (mirrorCreatedAt now k id).
Proof. unfold mirrorCreatedAt. by_total. Qed.
#[local] Hint Resolve total_mirrorAt : total.
Lemma total_mirror now s ev id : total (publish_mirror now s ev id).
Proof. unfold publish_mirror. by_total. Qed.
#[local] Hint Resolve total_mirror : total.
Lemma total_metadata now s r : total (publishGroupMetadataMirror now s r).
Proof. unfold publishGroupMetadataMirror. by_total. Qed.
Lemma total_roster now s r : total (publishGroupRosterMirrors now s (Some r)).
Proof. unfold publishGroupRosterMirrors. by_total. Qed.
Lemma total_pins now s r : total (publishGroupPinsMirror now s r).
Proof. unfold publishGroupPinsMirror. by_total. Qed.
Lemma total_notice now s id m a c b : total (publishMemberNotice now s id m a c b).
Proof. unfold publishMemberNotice. by_total. Qed.
Lemma total_roles now pk sk id : total (publishRoles now pk sk id).
Proof.
  assert (HP : forall ev, total (match Sign ev sk with (ev, Ok _) => _ ← insertEvents [ev]; mret tt | (_, Err _) => mret tt | (_, Panic) => panics end)).
  { intros ev. apply (total_signed ev sk (fun ev => _ ← insertEvents [ev]; mret tt)). by_total. }
  unfold publishRoles. apply total_bind; [apply total_get|]. intros g. apply total_bind; [apply total_query|]. intros prev.
  destruct prev as [[|p [|]]|e|]; try apply HP. destruct (tagsEqual _ _); [apply total_ret|apply HP].
Qed.
Lemma total_record ev : total (recordModeration ev).
Proof. unfold recordModeration. by_total. Qed.
Lemma total_purge f : total (purge f).
Proof. unfold purge. by_total. Qed.
#[local] Hint Resolve total_metadata total_roster total_pins total_notice total_roles total_record total_purge : total.
Lemma total_purgeGroup s id : total (purgeGroupEvents s id).
Proof. unfold purgeGroupEvents. by_total. Qed.
Lemma total_clear id pk : total (clearPendingJoins id pk).
Proof. unfold clearPendingJoins. by_total. Qed.
Lemma total_mirror_if now s r : total (mirror_if now s r).
Proof. unfold mirror_if. by_total. Qed.
Lemma total_update id f : total (update id f).
Proof. unfold update. by_total. Qed.
#[local] Hint Resolve total_purgeGroup total_clear total_mirror_if total_update : total.

(** The record of a hosted group is there when it is replaced. *)
Lemma update_hosted id f k (g : GroupsService) :
  is_Some (cache g !! id) -> (forall r, total (k (Ok (Some r)))) -> (forall e, total (k (Err e))) -> is_Some ((update id f ≫= k : M OkResponse) g).
Proof.
  intros [cur Hc] Hk He. unfold update, mbind, M_bind, get. rewrite Hc. unfold commit. destruct (PutGroup (groupsB g) (f cur)) as [b|e|] eqn:E.
  - apply Hk.
  - apply He.
  - unfold PutGroup in E. by destruct (Put _ _ _).
Qed.

(** What a moderation handler does runs only on a hosted group. *)
Lemma moderate_total ev kind denied act :
  (forall a g, ParseModerationAction ev = Ok a -> is_Some (cache g !! actGroupID a) -> is_Some (act a g)) -> total (moderate ev kind denied act).
Proof.
  intros Ha g. unfold moderate. pose proof (safe_ParseModerationAction ev) as HS.
  destruct (ParseModerationAction ev) as [a|e|] eqn:E; [|by eexists|by destruct HS]. unfold mbind, M_bind, get, Exists.
  destruct (cache g !! actGroupID a) as [r|] eqn:El; cbn [negb]; [|by eexists]. destruct (CanPerform _ _ _ _); cbn [negb]; [|by eexists].
  apply Ha; [done|]. by rewrite El.
Qed.

Lemma admit_total now s id ev (g : GroupsService) : is_Some (cache g !! id) -> is_Some (admit_user now s id ev g).
Proof. intros Hc. apply update_hosted; [done|intros r; by_total|intros e; by_total]. Qed.

Lemma create_total now s ev : total (handleCreate now s ev).
Proof. unfold handleCreate. pose proof (safe_GroupID (Tags ev)) as H. destruct (GroupIDFromTags _); [|by_total|by destruct H]. unfold Create. by_total. Qed.

Lemma delete_total now s ev : total (handleDeleteGroup now s ev).
Proof.
  unfold handleDeleteGroup. pose proof (safe_GroupID (Tags ev)) as H. destruct (GroupIDFromTags _); [|by_total|by destruct H].
  unfold removeChild, SetChildren, SetParent. by_total.
Qed.

Lemma edit_total now s ev : Kind ev = KindEditMetadata -> total (handleEditMetadata now s ev).
Proof.
  intros HK. apply moderate_total. intros a g Hp Hc. apply action_sound in Hp as (_ & _ & _ & _ & _ & HM). destruct (HM HK) as (m & -> & _).
  unfold mbind at 1, M_bind at 1, get at 1. cbv zeta. destruct (edit_refusal _ _ _ _); [by eexists|].
  apply update_hosted; [done|intros r; unfold removeChild, addChild, SetChildren; by_total|intros e; by_total].
Qed.

Lemma join_total now s ev : total (handleJoinRequest now s ev).
Proof.
  intros g. unfold handleJoinRequest. pose proof (safe_ParseJoinRequest ev) as H. destruct (ParseJoinRequest ev) as [jr|e|]; [|by eexists|by destruct H].
  unfold mbind at 1, M_bind at 1, get at 1. unfold Exists. destruct (cache g !! jGroupID jr) as [r|] eqn:El; cbn [negb]; [|by eexists].
  destruct (IsMember _ _ _); [by eexists|]. destruct (IsClosed _ _); [|by apply admit_total; rewrite El].
  destruct (bool_decide _).
  { destruct (pendingJoins g); [|by eexists]. revert g El. enough (total (storePendingJoin (jGroupID jr) ev)) by auto. unfold storePendingJoin. by_total. }
  unfold mbind at 1, M_bind at 1. destruct (total_consume (jGroupID jr) (jCode jr) g) as [[g1 inv] E]. rewrite E.
  unfold consume_invite in E. destruct (ConsumeGroupInvite _ _ _) as [[b i]|e|]; [| |done]; injection E as <- <-; [|by eexists].
  apply admit_total. cbn. by rewrite El.
Qed.

Lemma leave_total now s ev : total (handleLeaveRequest now s ev).
Proof.
  intros g. unfold handleLeaveRequest. pose proof (safe_ParseLeaveRequest ev) as H. destruct (ParseLeaveRequest ev) as [lr|e|]; [|by eexists|by destruct H].
  unfold mbind at 1, M_bind at 1, get at 1. unfold Exists. destruct (cache g !! lGroupID lr) as [r|] eqn:El; cbn [negb]; [|by eexists].
  destruct (IsMember _ _ _); cbn [negb]; [apply update_hosted; [by rewrite El|intros r'; by_total|intros e; by_total]|].
  revert g El. enough (total (_ ← clearPendingJoins (lGroupID lr) (PubKey ev); accept ev (DuplicateErrorPrefix ++ bs "you are not a member of this group."))) by auto.
  by_total.
Qed.

(** Every request is answered. *)
Lemma HandleEvent_total now s ev : total (HandleEvent now s ev).
Proof.
  unfold HandleEvent. destruct (Kind ev =? KindCreateGroup); [apply create_total|]. destruct (Kind ev =? KindDeleteGroup); [apply delete_total|].
  destruct (Kind ev =? KindPutUser).
  { apply moderate_total. intros a g _ Hc. unfold mbind at 1, M_bind at 1, get at 1. apply update_hosted; [done|intros r; by_total|intros e; by_total]. }
  destruct (Kind ev =? KindRemoveUser).
  { apply moderate_total. intros a g _ Hc. unfold mbind at 1, M_bind at 1, get at 1. apply update_hosted; [done|intros r; by_total|intros e; by_total]. }
  destruct (Kind ev =? KindEditMetadata) eqn:K5; [apply edit_total; by apply Z.eqb_eq|].
  destruct (Kind ev =? KindDeleteEvent).
  { apply moderate_total. intros a g _ _. revert g.
    match goal with |- forall g, is_Some (?m g) => enough (HT : total m) by apply HT end.
    apply total_query_bind; [intros [|t ts]|intros e]; [by_total| |by_total]. destruct (match GroupIDFromTags _ with Ok _ => _ | _ => _ end); [|by_total].
    apply total_find_bind; intros ?; by_total. }
  destruct (Kind ev =? KindCreateInvite).
  { apply moderate_total. intros a g _ _. revert g. match goal with |- forall g, is_Some (?m g) => enough (HT : total m) by apply HT end. by_total. }
  destruct (Kind ev =? KindUpdatePinList).
  { apply moderate_total. intros a g _ Hc. apply update_hosted; [done|intros r; by_total|intros e; by_total]. }
  destruct (Kind ev =? KindJoinRequest); [apply join_total|]. destruct (Kind ev =? KindLeaveRequest); [apply leave_total|]. by_total.
Qed.

End Total.
