(* ===== verification/GroupsProps.v ===== *)
(** * relay: what the group host promises

    The theorems about the hosted groups: their invariant, the refinement of
    [next_groups], who may change what, what a refusal leaves, who is admitted
    to a closed group, what a deletion leaves, and who may read. *)

From S2P Require Import Prelude GoLib GoHeap Bolt Sha256 NostrUtils Pow Event Filter Latest StoreDb StoreInv StoreScan StoreMerge StoreExact StoreQuery StoreEvents StoreLife StoreBatch GroupsForest Nip29 Nip29Props GroupStore Groups GroupsInv GroupsStep GroupsWf GroupsAuth GroupsView GroupsTotal.

Section Props.
Context {GoLower0 : GoLower} {Schnorr0 : Schnorr} {Bolt0 : Bolt} {GroupJSON0 : GroupJSON} {EventDB0 : EventDB}.

Context (BL : BoltLaws).
#[local] Set Default Proof Using "BL".

(** ** Invites *)

Lemma consume_found (b b' : option Bucket) id code inv :
  ConsumeGroupInvite b id code = Ok (b', inv) ->
  exists inv0, GetGroupInvite b id code = Ok (Some inv0) /\ invUsed inv0 = false /\
    inv = mkInvite (invGroupID inv0) (invCode inv0) (invCreatedAt inv0) true /\
    bucket_kv b' = <[groupInviteKey id code := MarshalInvite inv]> (bucket_kv b).
Proof.
  unfold ConsumeGroupInvite, GetGroupInvite, ensure_bucket. destruct b as [b|]; cbn [from_option]; unfold Datatypes.id.
  - destruct (Get b _) as [data|]; [|done]. destruct (UnmarshalInvite data) as [i|]; [|done].
    destruct (invUsed i) eqn:EU; [done|]. destruct (Put b _ _) as [b1|] eqn:EP; [|done]. intros [= <- <-]. eexists. split_and!; [done..|].
    apply (Put_Some BL) in EP as (_ & EP & _). exact EP.
  - rewrite (Get_kv BL). destruct (kv_empty BL) as [-> _]. by rewrite lookup_empty.
Qed.

Lemma consume_used (b : option Bucket) id code inv :
  bucket_kv b !! groupInviteKey id code = Some (MarshalInvite inv) -> invite_stable inv -> invUsed inv = true ->
  ConsumeGroupInvite b id code = Err ErrGroupInviteExhausted.
Proof.
  unfold ConsumeGroupInvite, ensure_bucket. destruct b as [b|]; [|unfold bucket_kv; by rewrite lookup_empty]. cbn [bucket_kv from_option]. intros Hb Hs Hu.
  unfold Datatypes.id. rewrite (Get_kv BL), Hb, Hs. by rewrite Hu.
Qed.

(** The invite of an admission survives the rest of the handler. *)
Lemma admit_invites now s id ev g g' resp : admit_user now s id ev g = Some (g', resp) -> invitesB g' = invitesB g.
Proof.
  unfold admit_user, UpsertMember. intros (g1 & r & E1 & E)%bind_Some.
  assert (H1 : invitesB g1 = invitesB g).
  { unfold update in E1. apply bind_Some in E1 as (g0 & ? & [= <- <-] & E1). destruct (cache g !! id); [|by injection E1 as <- _].
    apply bind_Some in E1 as (g2 & err & E2 & E1). unfold commit in E2. destruct (PutGroup _ _); [| |done]; injection E2 as <- <-; by injection E1 as <- _. }
  rewrite <- H1. destruct r as [r|e|]; [|by injection E as <- _|done].
  match type of E with ?m _ = _ => assert (Hq : quiet m) by by_quiet end. by apply Hq in E as [e ->].
Qed.

(** A join that gets a stranger into a closed group spends an invite. *)
Lemma join_spends now s ev jr g g' resp :
  ParseJoinRequest ev = Ok jr -> IsClosed g (jGroupID jr) = true -> IsMember g (jGroupID jr) (PubKey ev) = false ->
  handleJoinRequest now s ev g = Some (g', resp) -> IsMember g' (jGroupID jr) (PubKey ev) = true ->
  jCode jr <> [] /\ exists b inv, ConsumeGroupInvite (invitesB g) (jGroupID jr) (jCode jr) = Ok (b, inv) /\ invitesB g' = b.
Proof.
  intros HP HC HN E HM. unfold handleJoinRequest in E. rewrite HP in E. apply bind_Some in E as (g1 & ? & [= <- <-] & E).
  destruct (Exists g (jGroupID jr)); cbn [negb] in E; [|injection E as <- _; congruence]. rewrite HN, HC in E.
  destruct (bool_decide_reflect (jCode jr = [])) as [Ec|Ec].
  { destruct (pendingJoins g); [|injection E as <- _; congruence]. apply quiet_pending in E as [e ->]. unfold IsMember, cached in *. cbn in HM. congruence. }
  split; [done|]. apply bind_Some in E as (g1 & inv & E1 & E). unfold consume_invite in E1.
  destruct (ConsumeGroupInvite _ _ _) as [[b i]|e|]; [| |done]; injection E1 as <- <-; [|injection E as <- _; congruence].
  exists b, i. split; [done|]. by apply admit_invites in E.
Qed.

(** ** The theorems *)

(** C8: Whatever happens to the relay (group events, settings, other writers of the
    event store, restarts), as long as no write of a group failed: the groups it
    hosts carry their own ids, no roster names a member twice, parents and
    children agree in both directions, share their privacy setting and form no
    cycle; and the database holds exactly the hosted records. *)
Theorem groups_reachable_inv (g : GroupsService) : GroupsWf.reachable g -> storeErrors g = [] -> wf (cache g) /\ mirrors g.
Proof. intros HR HE. split; [by apply (reachable_wf BL)|by apply (reachable_mirrors BL)]. Qed.

(** C21: A group event that meets no failed write changes the hosted groups as the
    pure function [next_groups] says, and the database with them. *)
Theorem HandleEvent_refines (now : Z) (s : Session) (ev : Event) (g g' : GroupsService) (resp : OkResponse) :
  wf (cache g) -> mirrors g -> HandleEvent now s ev g = Some (g', resp) -> storeErrors g' = storeErrors g ->
  cache g' = next_groups g now ev /\ mirrors g' /\ settings g' = settings g.
Proof.
  intros HW HM E HC. split; [by eapply (HandleEvent_groups BL); [apply HW| |exact E]|].
  apply (steady_HandleEvent BL) in E as [H1 _ H2 _]. auto.
Qed.


(** The answer names the event; a refused event leaves the groups and their
    bucket as they were, and the invites too, unless the roster of an invited
    user could not be stored. *)
Theorem refused_changes_nothing (now : Z) (s : Session) (ev : Event) (g g' : GroupsService) (resp : OkResponse) :
  HandleEvent now s ev g = Some (g', resp) -> Accepted resp = false ->
  rEventID resp = ID ev /\ cache g' = cache g /\ groupsB g' = groupsB g /\ (invitesB g' = invitesB g \/ storeErrors g' <> storeErrors g).
Proof using Type. intros E HA. apply HandleEvent_answers in E as [H1 H2]. destruct (H2 HA) as (? & ? & ?). done. Qed.

(** Every group event is answered, by one OK that names it, whatever its tags
    hold: no path of the handlers and parsers panics while the event store
    answers. *)
Theorem every_request_answered (HA : db_answers) (now : Z) (s : Session) (ev : Event) (g : GroupsService) :
  exists g' resp, HandleEvent now s ev g = Some (g', resp) /\ rEventID resp = ID ev.
Proof using Type.
  destruct (HandleEvent_total HA now s ev g) as [[g' resp] E]. exists g', resp. split; [done|]. by apply HandleEvent_answers in E as [? _].
Qed.

(** The walk up the parents ends within its fuel, and createsCycle is true
    exactly when the group is the new parent or one of its ancestors. *)
Theorem createsCycle_iff (g : GroupsService) (newParent groupID : gostring) :
  wf (cache g) -> groupID <> [] ->
  is_Some (cycle_walk (S (S (size (cache g)))) (cache g) ∅ newParent groupID) /\
  (createsCycle g newParent groupID = true <-> above (links (cache g)) newParent groupID).
Proof using Type.
  clear BL.
  intros HW HG. split; [apply cycle_walk_total; [set_solver|rewrite size_empty, size_dom; lia]|].
  apply createsCycle_above; [done|by apply wf_nil].
Qed.

(** A restart loads back exactly the groups the relay hosted, their invites and
    their events. *)
Theorem restart_exact (g : GroupsService) :
  GroupsWf.reachable g -> (forall id r, cache g !! id = Some r -> group_stable r) ->
  exists g', LoadFromStore (reopen g) = Some (g', None) /\ cache g' = cache g /\ groupsB g' = groupsB g /\
    invitesB g' = invitesB g /\ evs g' = evs g.
Proof.
  intros HR Hst. destruct (reachable_mirrors BL g HR) as [HM HI]. destruct (load_exact BL g HM HI Hst) as (g' & ? & ? & ? & ? & ? & _).
  by exists g'.
Qed.

(** A stranger who gets into a closed group by a join request named a code under
    whose key (with the group) an unused invite was stored, and the code is
    exhausted after. *)
Theorem closed_group_needs_invite (now : Z) (s : Session) (ev : Event) (jr : JoinRequest) (g g' : GroupsService) (resp : OkResponse) :
  ParseJoinRequest ev = Ok jr -> IsClosed g (jGroupID jr) = true -> IsMember g (jGroupID jr) (PubKey ev) = false ->
  (forall i, GetGroupInvite (invitesB g) (jGroupID jr) (jCode jr) = Ok (Some i) ->
     invite_stable (mkInvite (invGroupID i) (invCode i) (invCreatedAt i) true)) ->
  HandleEvent now s ev g = Some (g', resp) -> IsMember g' (jGroupID jr) (PubKey ev) = true ->
  (exists inv, GetGroupInvite (invitesB g) (jGroupID jr) (jCode jr) = Ok (Some inv) /\ invUsed inv = false) /\
  ConsumeGroupInvite (invitesB g') (jGroupID jr) (jCode jr) = Err ErrGroupInviteExhausted.
Proof.
  intros HP HC HN Hst E HM. assert (HK : Kind ev = KindJoinRequest).
  { unfold ParseJoinRequest, check_kind in HP. destruct (Z.eqb_spec (Kind ev) KindJoinRequest); done. }
  unfold HandleEvent in E. rewrite HK in E. change (handleJoinRequest now s ev g = Some (g', resp)) in E.
  destruct (join_spends now s ev jr g g' resp) as (_ & b & inv & Ec & ->); [done..|].
  apply consume_found in Ec as (inv0 & H1 & H2 & -> & H4). split; [by exists inv0|]. eapply consume_used; [by rewrite H4, lookup_insert_eq|by apply Hst|done].
Qed.

(** Once a group is deleted, no group names it any more: not as itself, not as a
    parent, not as a child. *)
Theorem deleted_group_gone (now : Z) (s : Session) (ev : Event) (g g' : GroupsService) (resp : OkResponse) (id : gostring) :
  wf (cache g) -> Kind ev = KindDeleteGroup -> GroupIDFromTags (Tags ev) = Ok id ->
  HandleEvent now s ev g = Some (g', resp) -> Accepted resp = true -> storeErrors g' = storeErrors g ->
  cache g' !! id = None /\
  forall i r, cache g' !! i = Some r -> fParent (Metadata r) <> id /\ id ∉ fChildren (Metadata r).
Proof.
  intros HW HK HT E HA HC. assert (HG : cache g' = next_groups g now ev) by (by eapply (HandleEvent_groups BL); [apply HW| |exact E]).
  assert (Hid : id <> []) by by eapply GroupIDFromTags_nonempty. assert (HW' : wf (cache g')) by (rewrite HG; by apply next_groups_wf).
  assert (HN : cache g' !! id = None).
  { rewrite HG. unfold next_groups. rewrite HK. change (KindDeleteGroup =? KindCreateGroup) with false. cbn iota.
    rewrite Z.eqb_refl, HT. destruct (cache g !! id) as [d|] eqn:Ed; [|done]. destruct (CanPerform _ _ _ _) eqn:EC.
    - rewrite remove_group_lookup. by rewrite bool_decide_eq_true_2.
    - exfalso. unfold HandleEvent in E. rewrite HK in E. change (handleDeleteGroup now s ev g = Some (g', resp)) in E. unfold handleDeleteGroup in E.
      rewrite HT in E. apply bind_Some in E as (g1 & ? & [= <- <-] & E). unfold Exists in E. rewrite Ed, EC in E. by injection E as _ <-. }
  split; [done|]. intros i r Hi. destruct HW' as [_ _ H3]. assert (Hl : links (cache g') !! i = Some (link_of r)) by by rewrite links_lookup, Hi.
  assert (HNl : links (cache g') !! id = None) by by rewrite links_lookup, HN.
  split; [intros Hp|intros Hc].
  - destruct (f_up _ H3 i _ Hl) as (lp & Hlp & _); [cbn; congruence|]. cbn in Hlp. congruence.
  - destruct (f_down _ H3 i _ id Hl Hc) as (lx & Hlx & _). congruence.
Qed.

(** The key of an invite is the group and the code around a NUL byte, which both
    may contain: the invite [y] of group [v NUL x] is found as the invite
    [x NUL y] of group [v]. *)
Theorem invite_crosses_groups (bk b' : option Bucket) (v x y : gostring) (t : Z) :
  let inv := mkInvite (v ++ [x00] ++ x) y t false in
  let used := mkInvite (v ++ [x00] ++ x) y t true in
  PutGroupInvite bk inv = Ok b' -> invite_stable inv -> put_ok (groupInviteKey v (x ++ [x00] ++ y)) (MarshalInvite used) = true ->
  exists b'', ConsumeGroupInvite b' v (x ++ [x00] ++ y) = Ok (b'', used).
Proof.
  intros inv used HP Hs Hok. assert (HK : groupInviteKey (v ++ [x00] ++ x) y = groupInviteKey v (x ++ [x00] ++ y)).
  { unfold groupInviteKey. by rewrite <- !app_assoc. }
  unfold PutGroupInvite in HP. destruct (Put _ _ _) as [b1|] eqn:E; [|done]. injection HP as <-. apply (Put_Some BL) in E as (_ & E & _).
  unfold ConsumeGroupInvite, ensure_bucket. cbn [from_option]. unfold Datatypes.id. rewrite (Get_kv BL), E. cbn [invGroupID invCode inv].
  rewrite HK, lookup_insert_eq, Hs. cbn [invUsed inv invGroupID invCode invCreatedAt].
  destruct (Put_total BL b1 _ _ Hok) as [b2 E2]. unfold used in E2. rewrite E2. by exists (Some b2).
Qed.

End Props.

(** ** Reading *)

Section Reading.
Context {GoLower0 : GoLower} {Schnorr0 : Schnorr} {Bolt0 : Bolt} {GroupJSON0 : GroupJSON} {EventDB0 : EventDB}.

Lemma find_ext {A} (P Q : A -> bool) l : (forall x, P x = Q x) -> List.find P l = List.find Q l.
Proof. intros HE. induction l as [|x l IH]; [done|]. cbn. by rewrite HE, IH. Qed.

Lemma existsb_none {A} (P : A -> bool) l : (forall x, x ∈ l -> P x = false) -> existsb P l = false.
Proof.
  intros HP. destruct (existsb P l) eqn:E; [|done]. apply existsb_exists in E as (x & Hx & Ex).
  by rewrite HP in Ex by by apply list_elem_of_In.
Qed.

(** A count or a query whose filters rule the check out would have dropped
    nothing by it: no event they match is withheld from any reader. *)
Theorem needsPrivacyCheck_sound (g : GroupsService) (s : list gostring) (fs : list SubscriptionFilter) (ev : Event) :
  needsPrivacyCheck g fs = false -> GroupMatch fs ev = true -> deniedPrivateGroupEvent g s ev = false.
Proof. apply skip_check. Qed.

(** A filter is refused the same whether a private group the reader is not in
    exists or not: what is refused does not tell the two apart. *)
Theorem filter_no_oracle (g : GroupsService) (s : list gostring) (fs : list SubscriptionFilter) (id : gostring) (r : GroupRecord) :
  cache g !! id = None -> fPrivate (Metadata r) = true -> (forall pk, pk ∈ s -> rec_IsMember r pk = false) ->
  deniedPrivateGroupFilter (set_cache g (<[id := r]> (cache g))) s fs = deniedPrivateGroupFilter g s fs.
Proof.
  intros HN HP HS. unfold deniedPrivateGroupFilter. apply find_ext. intros x. unfold deniedGroup, Exists, IsPrivate, anyIdentityIsMember, IsMember, cached.
  cbn [cache set_cache]. destruct (decide (x = id)) as [->|Hne].
  - rewrite lookup_insert_eq, HN, HP. cbn [negb]. rewrite existsb_none; [done|exact HS].
  - by rewrite lookup_insert_ne.
Qed.

(** The group an event is stored under, as its kind names it. *)
Definition belongs (g : GroupsService) (ev : Event) (id : gostring) : Prop :=
  if IsModerationKind (Kind ev) || (Kind ev =? KindJoinRequest) then GroupIDFromTags (Tags ev) = Ok id
  else if IsGroupMetadataKind (Kind ev) then GroupIDFromDTag (Tags ev) = Ok id
  else exists t, t ∈ Tags ev /\ tag2 (bs "h") t = Some id.

(** Someone the group does not know: no identity of the session is a member, an
    admin of the relay, the author or named by the event. *)
Record stranger (g : GroupsService) (s : list gostring) (ev : Event) (id : gostring) : Prop := {
  sg_member : forall pk, pk ∈ s -> IsMember g id pk = false;
  sg_admin : forall pk, pk ∈ s -> isRelayAdmin g pk = false;
  sg_author : PubKey ev ∉ s;
  sg_named : namesReader s (Tags ev) = false;
}.


(** Posting into a private, closed or restricted group takes a member: a post
    that no h tag's group refuses names only groups that are open to it. *)
Theorem post_needs_member (g : GroupsService) (ev : Event) (id : gostring) (t : tag) :
  deniedGroupWrite g ev = None -> t ∈ Tags ev -> tag2 (bs "h") t = Some id ->
  IsPrivate g id = true \/ IsClosed g id = true \/ IsRestricted g id = true -> IsMember g id (PubKey ev) = true.
Proof.
  intros HD Ht Hid HP. destruct (IsMember g id (PubKey ev)) eqn:EM; [done|]. exfalso. unfold deniedGroupWrite in HD.
  assert (HX : Exists g id = true).
  { unfold IsPrivate, IsClosed, IsRestricted, cached, Exists in *. destruct (cache g !! id); [done|]. naive_solver. }
  assert (Hin : In id (List.filter (Exists g) (omap (tag2 (bs "h")) (Tags ev)))).
  { apply filter_In. split; [|done]. apply list_elem_of_In, list_elem_of_omap. by exists t. }
  pose proof (find_none _ _ HD id Hin) as Hno. cbn beta in Hno. rewrite EM in Hno. cbn [negb] in Hno. rewrite andb_true_r in Hno.
  apply orb_false_iff in Hno as [[H1 H2]%orb_false_iff H3]. destruct HP as [?|[?|?]]; congruence.
Qed.

End Reading.

(** ** Purging *)

Section Purging.
Context {Bolt0 : Bolt} {JSON0 : EventJSON} {Derived0 : Derived} {GoLower0 : GoLower}.

(** Over the event store itself: purging a group deletes only events of the group
    (its mirrors and what is tagged into it), keeps the store's invariant, always
    succeeds, and leaves none of them, provided the tag index knows their tag and
    the query limit covers them. *)
Theorem purge_exact (BL : BoltLaws) (mit MaxLimit : Z) (HD : derived_total) (s : Session) (groupID : gostring)
    (g : GroupsService (EventDB0 := store_db mit MaxLimit)) (S : gmap Z Event) :
  0 < MaxLimit -> store_inv mit (evs g) S -> hex32_ok (selfPubkey s) ->
  exists g' S', purgeGroupEvents s groupID g = Some (g', tt) /\ g' = set_evs g (evs g') /\ store_inv mit (evs g') S' /\ S' ⊆ S /\
    (forall id e, S !! id = Some e -> S' !! id = Some e \/ existsb (fun f => Match f e) (purge_filters s groupID) = true) /\
    (Forall (covered mit MaxLimit S) (purge_filters s groupID) ->
     forall id e, S' !! id = Some e -> existsb (fun f => negb (IsEphemeralKind (Kind e)) && Match f e) (purge_filters s groupID) = false).
Proof. intros HM HI Hs. apply (purge_all BL mit MaxLimit HM HD); [done|by apply (purge_filters_plain BL mit MaxLimit HM HD)]. Qed.

End Purging.
