(* ===== verification/GroupsDemo.v ===== *)
(** * relay: a small group host

    Instances of what the group host is given, a relay with two linked groups, and
    the group theorems evaluated on it. *)

From S2P Require Import Prelude GoLib GoHeap Bolt Sha256 NostrUtils Pow Event Filter Latest StoreDb StoreInv StoreScan StoreMerge StoreExact StoreQuery StoreEvents StoreLife StoreBatch StoreDemo GroupsForest Nip29 Nip29Props GroupStore Groups GroupsInv GroupsStep GroupsWf GroupsAuth GroupsView GroupsTotal GroupsProps.

(** * relay: two group requests at once

    The setters of [relay/groups_cache.go] read a record from the cache, compute
    the next one and store it; requests of different sessions run on goroutines
    of their own, and only reparenting and deletion hold linkMu.  A setter split
    at its read shows what an interleaving can do. *)

Section Race.
Context {GoLower0 : GoLower} {Schnorr0 : Schnorr} {Bolt0 : Bolt} {GroupJSON0 : GroupJSON} {EventDB0 : EventDB}.

(** The two halves of a setter. *)
Definition read_group (id : gostring) : M (option GroupRecord) := g ← get; mret (cache g !! id).
Definition write_group (f : GroupRecord -> GroupRecord) (cur : option GroupRecord) : M (outcome StoreErr (option GroupRecord)) :=
  match cur with
  | None => mret (Ok None)
  | Some cur => err ← commit (f cur); match err with Some e => mret (Err e) | None => mret (Ok (Some (f cur))) end
  end.

Lemma update_split id f g : update id f g = (cur ← read_group id; write_group f cur) g.
Proof. reflexivity. Qed.

(** Two members are added: both goroutines read, then both write. *)
Definition add_both (id : gostring) (m1 m2 : GroupMember) : M (outcome StoreErr (option GroupRecord) * outcome StoreErr (option GroupRecord)) :=
  c1 ← read_group id;
  c2 ← read_group id;
  r1 ← write_group (fun r => withMember r m1) c1;
  r2 ← write_group (fun r => withMember r m2) c2;
  mret (r1, r2).

Lemma write_hosted f cur (g : GroupsService) b :
  PutGroup (groupsB g) (f cur) = Ok b ->
  write_group f (Some cur) g = Some (set_cache (set_groupsB g b) (<[grpID (f cur) := f cur]> (cache g)), Ok (Some (f cur))).
Proof. intros HP. unfold write_group, mbind, M_bind, commit. by rewrite HP. Qed.

(** Both additions report success, and the first member is not in the group. *)
Theorem addition_lost (g : GroupsService) (id : gostring) (r : GroupRecord) (m1 m2 : GroupMember) (b1 b2 : option Bucket) :
  cache g !! id = Some r -> grpID r = id -> rec_IsMember r (Pubkey m1) = false -> Pubkey m1 <> Pubkey m2 ->
  PutGroup (groupsB g) (withMember r m1) = Ok b1 -> PutGroup b1 (withMember r m2) = Ok b2 ->
  exists g', add_both id m1 m2 g = Some (g', (Ok (Some (withMember r m1)), Ok (Some (withMember r m2)))) /\
    groupsB g' = b2 /\ IsMember g' id (Pubkey m2) = true /\ IsMember g' id (Pubkey m1) = false.
Proof.
  intros Hr Hid HN Hne H1 H2. unfold add_both, read_group, mbind, M_bind, get, mret, M_ret. rewrite Hr.
  rewrite (write_hosted (fun r => withMember r m1) r g b1 H1). rewrite (write_hosted (fun r => withMember r m2) r _ b2); [|exact H2].
  eexists. split; [done|]. cbn. split; [done|]. unfold IsMember, cached. cbn. rewrite !withMember_ID, Hid, lookup_insert_eq.
  unfold rec_IsMember in *. rewrite withMember_self, (withMember_other r m2) by done. by destruct (member r (Pubkey m1)).
Qed.

(** A group is deleted while a member is being added: it is hosted again, and
    stored again. *)
Definition add_and_delete (id : gostring) (m : GroupMember) : M (outcome StoreErr (option GroupRecord)) :=
  c ← read_group id;
  _ ← DeleteG id;
  write_group (fun r => withMember r m) c.

Theorem deletion_undone (g : GroupsService) (id : gostring) (r : GroupRecord) (m : GroupMember) (b : option Bucket) :
  cache g !! id = Some r -> grpID r = id -> PutGroup (DeleteGroup (groupsB g) id) (withMember r m) = Ok b ->
  exists g', add_and_delete id m g = Some (g', Ok (Some (withMember r m))) /\ groupsB g' = b /\ cache g' !! id = Some (withMember r m).
Proof.
  intros Hr Hid HP. unfold add_and_delete, read_group, mbind, M_bind, get, mret, M_ret, DeleteG. rewrite Hr.
  rewrite (write_hosted (fun r => withMember r m) r _ b); [|exact HP]. eexists. split; [done|]. cbn. split; [done|].
  by rewrite withMember_ID, Hid, lookup_insert_eq.
Qed.

End Race.

Module GroupsDemo.

#[local] Instance demo_bolt : Bolt := MapBolt.map_bolt.
#[local] Instance demo_lower : GoLower := ascii_lower.
#[local] Existing Instance toy_schnorr.

(** A list of events as the event store. *)
Definition list_db : EventDB := {|
  EvState := list Event;
  QueryEvents l f := Ok (List.filter (Match f) l);
  FindEvents l f := Ok (map (fun e => mkPE 0 (CreatedAt e) (ID e) []) (List.filter (Match f) l));
  DeleteAll l pes := Ok (List.filter (fun e => negb (in_list (ID e) (map EventID pes))) l);
  InsertEvents l es := Ok (l ++ es, None);
|}.
#[local] Existing Instance list_db.

(** A codec for the records of a table: a record is its place in it. *)
Fixpoint index_of {A} `{!EqDecision A} (x : A) (l : list A) : Z :=
  match l with
  | [] => 0
  | y :: l => if decide (y = x) then 0 else 1 + index_of x l
  end.

Definition a : gostring := key_of "a"%byte.
Definition b : gostring := key_of "b"%byte.
Definition club : gostring := bs "club".
Definition sub : gostring := bs "sub".
Definition now : Z := 100.

Definition club0 : GroupRecord := newGroupRecord now club a.
Definition sub0 : GroupRecord := newGroupRecord now sub a.
Definition sub1 : GroupRecord := with_Metadata sub0 (with_Parent (Metadata sub0) club).
Definition club1 : GroupRecord := with_Metadata club0 (with_Children (Metadata club0) [sub]).
Definition club2 : GroupRecord := withMember club1 (mkMember b []).
Definition group_table : list GroupRecord := [club0; sub0; sub1; club1; club2].
Definition invite0 : GroupInvite := mkInvite club (bs "x") now false.
Definition invite1 : GroupInvite := mkInvite club (bs "x") now true.
(** A group whose id extends another's, and its invite. *)
Definition shadow : gostring := club ++ [x00] ++ bs "x".
Definition invite2 : GroupInvite := mkInvite shadow (bs "y") now false.
Definition invite3 : GroupInvite := mkInvite shadow (bs "y") now true.
Definition invite_table : list GroupInvite := [invite0; invite1; invite2; invite3].

#[local] Instance demo_groups : GroupJSON := {|
  MarshalGroup r := BE.put64 (index_of r group_table);
  UnmarshalGroup s := group_table !! Z.to_nat (BE.get64 s);
  MarshalInvite i := BE.put64 (index_of i invite_table);
  UnmarshalInvite s := invite_table !! Z.to_nat (BE.get64 s);
  MarshalNotice _ _ _ := [];
|}.

Definition demo_laws : BoltLaws := MapBolt.map_bolt_laws.

(** No key of its own: nothing is published. *)
Definition session : Session := mkSession (key_of "e"%byte) [] [a].

Definition event (c : byte) (pk : gostring) (kind : Z) (ts : tags) : Event := mkEvent (key_of c) pk 10 kind ts [] [].
Definition e1 : Event := event "1"%byte a KindCreateGroup [[bs "h"; club]].
Definition e2 : Event := event "2"%byte a KindCreateGroup [[bs "h"; sub]].
Definition e3 : Event := event "3"%byte a KindEditMetadata [[bs "h"; sub]; [bs "parent"; club]; [bs "private"]; [bs "closed"]].
Definition e4 : Event := event "4"%byte a KindCreateInvite [[bs "h"; club]; [bs "code"; bs "x"]].
Definition e5 : Event := event "5"%byte b KindJoinRequest [[bs "h"; club]; [bs "code"; bs "x"]].
Definition e6 : Event := event "6"%byte a KindDeleteGroup [[bs "h"; club]].
Definition e7 : Event := event "7"%byte b KindDeleteGroup [[bs "h"; club]].

Definition step (g : GroupsService) (ev : Event) : GroupsService :=
  match HandleEvent now session ev g with Some (g', _) => g' | None => g end.
Definition answer (g : GroupsService) (ev : Event) : OkResponse :=
  match HandleEvent now session ev g with Some (_, r) => r | None => mkOk [] false (Text []) end.

Definition list_answers : db_answers.
Proof. by split. Qed.

Lemma step_run g ev : HandleEvent now session ev g = Some (step g ev, answer g ev).
Proof. unfold step, answer. destruct (HandleEvent_total list_answers now session ev g) as [[g' r] ->]. done. Qed.

Definition g0 : GroupsService := NewGroupsService None None [].
Definition g1 := step g0 e1.
Definition g2 := step g1 e2.
Definition g3 := step g2 e3.
Definition g4 := step g3 e4.
Definition g5 := step g4 e5.
Definition g6 := step g5 e6.

Lemma run5 : HandleEvent now session e5 g4 = Some (g5, answer g4 e5).
Proof. apply step_run. Qed.
Lemma run6 : HandleEvent now session e6 g5 = Some (g6, answer g5 e6).
Proof. apply step_run. Qed.
Lemma no_errors : storeErrors g4 = [] /\ storeErrors g5 = [] /\ storeErrors g6 = [].
Proof. vm_compute. done. Qed.
Lemma hosted : cache g3 !! club = Some club1 /\ cache g5 !! club = Some club2 /\ cache g5 !! sub = Some sub1 /\ cache g6 !! sub = Some sub0.
Proof. vm_compute. done. Qed.

Lemma step_reach g ev : GroupsWf.reachable g -> GroupsWf.reachable (step g ev).
Proof. intros HR. by eapply reach_event, step_run. Qed.

Lemma reach5 : GroupsWf.reachable g5.
Proof. do 5 apply step_reach. constructor. Qed.
Lemma reach4 : GroupsWf.reachable g4.
Proof. do 4 apply step_reach. constructor. Qed.

#[local] Opaque g3 g4 g5 g6.

Lemma wf5 : wf (cache g5) /\ mirrors g5.
Proof. split; [apply (reachable_wf demo_laws); [apply reach5|vm_compute; reflexivity]|apply (reachable_mirrors demo_laws), reach5]. Qed.
(** The records survive the codec. *)
Lemma stable_check (g : GroupsService) :
  forallb (fun x : gostring * GroupRecord => bool_decide (UnmarshalGroup (MarshalGroup x.2) = Some x.2)) (map_to_list (cache g)) = true ->
  forall id r, cache g !! id = Some r -> group_stable r.
Proof.
  intros HF id r Hr. rewrite forallb_forall in HF. specialize (HF (id, r)). cbn [snd] in HF. apply bool_decide_eq_true in HF; [exact HF|].
  by apply list_elem_of_In, elem_of_map_to_list.
Qed.
Lemma stable5 id r : cache g5 !! id = Some r -> group_stable r.
Proof. apply stable_check. vm_compute. reflexivity. Qed.

Lemma wf4 : wf (cache g4).
Proof. apply (reachable_wf demo_laws); [apply reach4|vm_compute; reflexivity]. Qed.

(** ** The theorems on it *)

Lemma groups_reachable_inv_witness : wf (cache g5) /\ mirrors g5 /\ size (cache g5) = 2%nat.
Proof.
  destruct (groups_reachable_inv demo_laws g5) as [H1 H2]; [apply reach5|vm_compute; reflexivity|].
  split_and!; [done|done|vm_compute; reflexivity].
Defined.

Lemma HandleEvent_refines_witness : cache g6 = next_groups g5 now e6 /\ mirrors g6.
Proof.
  destruct (HandleEvent_refines demo_laws now session e6 g5 g6 (answer g5 e6)) as (H1 & H2 & _);
    [apply wf5|apply wf5|apply run6|by destruct no_errors as (_ & -> & ->)|]. by split.
Defined.


Lemma refused_changes_nothing_witness : Accepted (answer g5 e7) = false /\ cache (step g5 e7) = cache g5.
Proof.
  destruct (refused_changes_nothing now session e7 g5 (step g5 e7) (answer g5 e7)) as (_ & H & _); [apply step_run|vm_compute; reflexivity|].
  split; [vm_compute; reflexivity|exact H].
Defined.

Lemma every_request_answered_witness : exists g' resp, HandleEvent now session e6 g5 = Some (g', resp) /\ rEventID resp = ID e6.
Proof. exact (every_request_answered list_answers now session e6 g5). Defined.

Lemma createsCycle_iff_witness : createsCycle g5 sub club = true /\ above (links (cache g5)) sub club.
Proof.
  destruct (createsCycle_iff g5 sub club) as [_ H]; [apply wf5|discriminate|]. split; [vm_compute; reflexivity|]. apply H. vm_compute. reflexivity.
Defined.

Lemma restart_exact_witness : exists g', LoadFromStore (reopen g5) = Some (g', None) /\ cache g' = cache g5.
Proof.
  destruct (restart_exact demo_laws g5 reach5 stable5) as (g' & H1 & H2 & _). exists g'. exact (conj H1 H2).
Defined.

Lemma closed_group_needs_invite_witness :
  IsMember g5 club b = true /\ ConsumeGroupInvite (invitesB g5) club (bs "x") = Err ErrGroupInviteExhausted.
Proof.
  destruct (closed_group_needs_invite demo_laws now session e5 (mkJoin club (bs "x") []) g4 g5 (answer g4 e5)) as [_ H];
    [vm_compute; reflexivity|vm_compute; reflexivity|vm_compute; reflexivity| |apply run5|vm_compute; reflexivity|].
  - intros i Hi. vm_compute in Hi. injection Hi as <-. vm_compute. reflexivity.
  - split; [vm_compute; reflexivity|exact H].
Defined.

Lemma deleted_group_gone_witness : cache g6 !! club = None /\ forall r, cache g6 !! sub = Some r -> fParent (Metadata r) <> club.
Proof.
  destruct (deleted_group_gone demo_laws now session e6 g5 g6 (answer g5 e6) club) as [H1 H2];
    [apply wf5|reflexivity|vm_compute; reflexivity|apply run6|vm_compute; reflexivity|by destruct no_errors as (_ & -> & ->)|].
  split; [exact H1|]. intros r Hr. apply (H2 sub r Hr).
Defined.

(** *** Reading *)

Definition stranger_key : gostring := key_of "d"%byte.
Definition post (pk : gostring) : Event := event "8"%byte pk 9 [[bs "h"; club]].
Definition notes : SubscriptionFilter := mkFilter None None (Some [1]) ∅ 0 0 0 [] [] [].
Definition about (id : gostring) : SubscriptionFilter := mkFilter None None None (tag_filter (bs "h") id) 0 0 0 [] [] [].

Lemma needsPrivacyCheck_sound_witness : deniedPrivateGroupEvent g0 [stranger_key] note1 = false.
Proof. apply (needsPrivacyCheck_sound g0 [stranger_key] [notes] note1); vm_compute; reflexivity. Defined.

Lemma filter_no_oracle_witness :
  deniedPrivateGroupFilter (set_cache g5 (<[bs "new" := club0]> (cache g5))) [stranger_key] [about (bs "new")] = Some (bs "new") /\
  deniedPrivateGroupFilter g5 [stranger_key] [about (bs "new")] = Some (bs "new").
Proof.
  rewrite (filter_no_oracle g5 [stranger_key] [about (bs "new")] (bs "new") club0); [split; vm_compute; reflexivity|vm_compute; reflexivity|reflexivity|].
  intros pk ->%list_elem_of_singleton. vm_compute. reflexivity.
Defined.


Lemma post_needs_member_witness : deniedGroupWrite g5 (post b) = None /\ IsMember g5 club b = true.
Proof.
  split; [vm_compute; reflexivity|]. apply (post_needs_member g5 (post b) club [bs "h"; club]);
    [vm_compute; reflexivity|by left|vm_compute; reflexivity|left; vm_compute; reflexivity].
Defined.

(** *** An invite of another group *)

Definition f1 : Event := event "a"%byte stranger_key KindCreateGroup [[bs "h"; shadow]].
Definition f2 : Event := event "b"%byte stranger_key KindCreateInvite [[bs "h"; shadow]; [bs "code"; bs "y"]].
Definition f3 : Event := event "c"%byte stranger_key KindJoinRequest [[bs "h"; club]; [bs "code"; bs "x" ++ [x00] ++ bs "y"]].

(** Anyone becomes a member of a closed, private group this way: by creating a
    group of their own, inviting to it and joining the other. *)
Example stranger_invites_himself :
  IsClosed g5 club = true /\ IsMember g5 club stranger_key = false /\
  IsMember (step (step (step g5 f1) f2) f3) club stranger_key = true.
Proof. vm_compute. done. Qed.

(** *** Requests at once *)

Lemma PutGroup_fits (bk : option Bucket) r : put_ok (grpID r) (MarshalGroup r) = true -> exists b', PutGroup bk r = Ok b'.
Proof. intros HP. unfold PutGroup. destruct (Put_total demo_laws (ensure_bucket bk) _ _ HP) as [b' ->]. by exists (Some b'). Qed.

Lemma addition_lost_witness : exists g', add_both club (mkMember b []) (mkMember stranger_key []) g3 =
    Some (g', (Ok (Some (withMember club1 (mkMember b []))), Ok (Some (withMember club1 (mkMember stranger_key []))))) /\
  IsMember g' club b = false.
Proof.
  destruct (PutGroup_fits (groupsB g3) (withMember club1 (mkMember b []))) as [b1 E1]; [vm_compute; reflexivity|].
  destruct (PutGroup_fits b1 (withMember club1 (mkMember stranger_key []))) as [b2 E2]; [vm_compute; reflexivity|].
  destruct (addition_lost g3 club club1 (mkMember b []) (mkMember stranger_key []) b1 b2) as (g' & H1 & _ & _ & H2);
    [apply hosted|reflexivity|vm_compute; reflexivity|discriminate|exact E1|exact E2|]. exists g'; exact (conj H1 H2).
Defined.

Lemma deletion_undone_witness : exists g', add_and_delete club (mkMember b []) g3 = Some (g', Ok (Some club2)) /\ cache g' !! club = Some club2.
Proof.
  destruct (PutGroup_fits (DeleteGroup (groupsB g3) club) (withMember club1 (mkMember b []))) as [b1 E1]; [vm_compute; reflexivity|].
  destruct (deletion_undone g3 club club1 (mkMember b []) b1) as (g' & H1 & _ & H2); [apply hosted|reflexivity|exact E1|].
  exists g'; exact (conj H1 H2).
Defined.

End GroupsDemo.

(** ** Purging a group from the event store *)

Module PurgeDemo.

#[local] Instance purge_bolt : Bolt := MapBolt.map_bolt.
#[local] Instance purge_lower : GoLower := ascii_lower.
#[local] Instance purge_derived : Derived := no_derived.
#[local] Existing Instance toy_schnorr.
#[local] Existing Instance GroupsDemo.demo_groups.

Definition club : gostring := GroupsDemo.club.
Definition topics : tags := map (fun c => [bs "t"; [c]]) [x61; x62; x63; x64; x65].

(** A post with its h tag in front, and one with it behind five topics. *)
Definition near : Event := mkEvent (key_of "1"%byte) (key_of "b"%byte) 10 9 [[bs "h"; club]] [] [].
Definition far : Event := mkEvent (key_of "2"%byte) (key_of "b"%byte) 20 9 (topics ++ [[bs "h"; club]]) [] [].

#[local] Instance purge_json : EventJSON := table_json [near; far].
#[local] Instance purge_db : EventDB := store_db 5 100.

Lemma purge_total : derived_total.
Proof. split; intros; by exists tt. Qed.

Definition post (tx : Tx) (ev : Event) : Tx := match insert 5 100 tx ev with Ok tx' => tx' | _ => tx end.
Definition start : Tx := empty_tx (tt : derived).
Definition tx1 : Tx := post start near.
Definition tx2 : Tx := post tx1 far.

Lemma post_Ok tx ev tx' : insert 5 100 tx ev = Ok tx' -> post tx ev = tx'.
Proof. unfold post. by intros ->. Qed.

Lemma near_ok : admissible near /\ fits 5 near.
Proof.
  split.
  - split; [split_and!; [by apply Demo.key_ok|by apply Demo.key_ok|cbn; lia|cbn; lia|vm_compute; reflexivity]|cbn; lia].
  - split; [vm_compute; discriminate|]. intros p Hp. apply Z.leb_le.
    assert (HF : forallb (fun p => zlen p + 16 <=? MaxKeySize) (prepareIndexableTags (Tags near) 5) = true) by (vm_compute; reflexivity).
    rewrite forallb_forall in HF. apply HF. by apply list_elem_of_In.
Qed.

Lemma purge_tx1_inv : store_inv 5 tx1 {[1 := near]}.
Proof.
  destruct near_ok as [Ha Hf]. pose proof (empty_inv MapBolt.map_bolt_laws 5 (tt : derived)) as HI.
  destruct (insert_total MapBolt.map_bolt_laws 5 100 ltac:(lia) purge_total start ∅ near HI Ha Hf) as [tx' HE]; [done|].
  assert (HT : tx1 = tx') by (apply post_Ok; exact HE). rewrite HT. destruct (insertWithIndexes_inv MapBolt.map_bolt_laws 5 100 ltac:(lia) start ∅ near tx' HI Ha) as [H _];
    [by intros ? ? ?|by vm_compute|reflexivity|exact HE|exact H].
Qed.

Definition session : Session := mkSession (key_of "e"%byte) [] [].

(** A relay with the group, over the store. *)
Definition host (tx : Tx) : GroupsService :=
  mkGroups None None tx {[club := GroupsDemo.club0]} defaultGroupModerationPolicy ∅ None false false ∅ None [].

Lemma tx1_covered : Forall (covered 5 100 {[1 := near]}) (purge_filters session club).
Proof.
  repeat constructor.
  1,3: intros id ev [<- <-]%lookup_singleton_Some HM name wanted Hw.
  - exfalso. vm_compute in HM. discriminate HM.
  - change (({[bs "h" := [club]]} : gmap gostring (list gostring)) !! name = Some wanted) in Hw. apply lookup_singleton_Some in Hw as [<- <-].
    exists club. eexists. split; [by left|]. split; [vm_compute; reflexivity|]. by left.
  - vm_compute. discriminate.
  - vm_compute. discriminate.
Qed.

Lemma purge_exact_witness : exists g' S', purgeGroupEvents session club (host tx1) = Some (g', tt) /\ store_inv 5 (evs g') S' /\ S' !! 1 = None.
Proof.
  destruct (purge_exact MapBolt.map_bolt_laws 5 100 purge_total session club (host tx1) {[1 := near]}) as (g' & S' & H1 & _ & H3 & H4 & _ & H6);
    [reflexivity|exact purge_tx1_inv|by apply Demo.key_ok|]. exists g', S'. split; [exact H1|]. split; [exact H3|].
  destruct (S' !! 1) as [e|] eqn:E; [|reflexivity]. specialize (H6 tx1_covered 1 e E).
  pose proof (lookup_weaken _ _ _ _ E H4) as HE. apply lookup_singleton_Some in HE as [_ <-]. vm_compute in H6. discriminate H6.
Defined.

(** ** What a deletion leaves *)

Definition delete_club : Event := mkEvent (key_of "3"%byte) (key_of "a"%byte) 30 KindDeleteGroup [[bs "h"; club]] [] [].

(** A private group's post whose h tag comes after the indexed ones outlives the
    deletion of the group, and is then served to anyone. *)
Example post_outlives_group :
  deniedPrivateGroupEvent (host tx2) [key_of "d"%byte] far = true /\
  match HandleEvent 100 session delete_club (host tx2) with
  | Some (g', resp) =>
      Accepted resp = true /\ Exists g' club = false /\
      queryEventsTx 100 (evs g') (mkFilter None None (Some [9]) ∅ 0 0 0 [] [] []) = Ok [far] /\
      deniedPrivateGroupEvent g' [key_of "d"%byte] far = false
  | None => False
  end.
Proof. vm_compute. done. Qed.

End PurgeDemo.
