(* ===== verification/Nip43.v ===== *)
(** * nip43: relay access metadata and requests

    [nip43/nip43.go] and the predicate of [nip70/nip70.go]: role definitions,
    membership lists, the user events, join and leave requests and invite
    responses, each with its parser, its builder and its check.  The names are
    those of the package, inside [Access], since nip29 shares many of them. *)

From S2P Require Import Prelude GoLib Sha256 NostrUtils Pow Event Nip29.

(** nip70.IsProtected *)
Definition IsProtected (ts : tags) : bool := existsb (tag_is (bs "-")) ts.

Module Access.

Definition KindRoleDefinition : Z := 33534.
Definition KindMembershipList : Z := 13534.
Definition KindAddUser : Z := 8000.
Definition KindRemoveUser : Z := 8001.
Definition KindJoinRequest : Z := 28934.
Definition KindInviteRequest : Z := 28935.
Definition KindLeaveRequest : Z := 28936.

(** Seconds. *)
Definition DefaultRequestFreshnessWindow : Z := 300.

Definition IsRelayAuthoredKind (kind : Z) : bool :=
  (kind =? KindRoleDefinition) || (kind =? KindMembershipList) || (kind =? KindAddUser) || (kind =? KindRemoveUser) ||
  (kind =? KindInviteRequest).

Inductive AccessErr :=
  | ErrWrongKind (got want : Z) | ErrMissingProtectedTag | ErrMissingDTag | ErrInvalidColor (s : gostring) | ErrInvalidOrder (s : gostring)
  | ErrInvalidMemberPubkey (s : gostring) | ErrMissingPTag (e : UtilErr) | ErrInvalidPubkey (s : gostring) | ErrMissingClaimTag
  | ErrStaleTimestamp | ErrInvalidSignature (e : EventErr).

Definition hasProtectedTag (ts : tags) : bool := IsProtected ts.

(** int64 of a uint64. *)
Definition as_int64 (z : Z) : Z := if z <? 2 ^ 63 then z else z - 2 ^ 64.

(** [now] and [window] in seconds. *)
Definition ValidateFreshness (createdAt now window : Z) : outcome AccessErr unit :=
  if (as_int64 createdAt <? now - window) || (now + window <? as_int64 createdAt) then Err ErrStaleTimestamp else Ok tt.

(** The kind and the protected tag of every event of this NIP. *)
Definition check_shape (ev : Event) (want : Z) : outcome AccessErr unit :=
  if negb (Kind ev =? want) then Err (ErrWrongKind (Kind ev) want)
  else if negb (hasProtectedTag (Tags ev)) then Err ErrMissingProtectedTag else Ok tt.

(** ** Roles *)

Record Role := mkRole { roleID : gostring; Label : gostring; Description : gostring; Color : option Z; Order : option Z }.

(** One tag: the role so far, and whether a d tag was met. *)
Definition role_step (st : Role * bool) (t : tag) : outcome AccessErr (Role * bool) :=
  match t with
  | name :: v :: _ =>
      let '(mkRole i l d c o, haveD) := st in
      if bool_decide (name = bs "d") then Ok (mkRole v l d c o, true)
      else if bool_decide (name = bs "label") then Ok (mkRole i v d c o, haveD)
      else if bool_decide (name = bs "description") then Ok (mkRole i l v c o, haveD)
      else if bool_decide (name = bs "color") then
        match Dec.atoi v with
        | Some n => if (n <? 0) || (360 <? n) then Err (ErrInvalidColor v) else Ok (mkRole i l d (Some n) o, haveD)
        | None => Err (ErrInvalidColor v)
        end
      else if bool_decide (name = bs "order") then
        match Dec.atoi v with
        | Some n => Ok (mkRole i l d c (Some n), haveD)
        | None => Err (ErrInvalidOrder v)
        end
      else Ok st
  | _ => Ok st
  end.

Fixpoint role_steps (st : Role * bool) (ts : tags) : outcome AccessErr (Role * bool) :=
  match ts with
  | [] => Ok st
  | t :: ts => st ← role_step st t; role_steps st ts
  end.

Definition ParseRole (ev : Event) : outcome AccessErr Role :=
  _ ← check_shape ev KindRoleDefinition;
  st ← role_steps (mkRole [] [] [] None None, false) (Tags ev);
  if negb st.2 then Err ErrMissingDTag else Ok st.1.

Definition appendNumber (ts : tags) (name : gostring) (n : option Z) : tags :=
  match n with None => ts | Some n => ts ++ [[name; Dec.itoa n]] end.

(** RoleParams are the key and a role. *)
Definition NewRoleDefinition (now : Z) (selfPubkey : gostring) (r : Role) : Event :=
  NewUnsignedEvent now KindRoleDefinition selfPubkey []
    (appendNumber (appendNumber (appendIfSet (appendIfSet [[bs "-"]; [bs "d"; roleID r]] (bs "label") (Label r))
                                             (bs "description") (Description r))
                                (bs "color") (Color r))
                  (bs "order") (Order r)).

(** ** Membership lists *)

Record Member := mkMember { memPubkey : gostring; memRoles : list gostring }.

Fixpoint parse_members (ts : tags) : outcome AccessErr (list Member) :=
  match ts with
  | [] => Ok []
  | t :: ts =>
      match tag2 (bs "member") t with
      | None => parse_members ts
      | Some pk => match Validate32Key pk with
                   | Ok _ => l ← parse_members ts; Ok (mkMember pk (drop 2 t) :: l)
                   | Err _ => Err (ErrInvalidMemberPubkey pk)
                   | Panic => Panic
                   end
      end
  end.

Definition ParseMembershipList (ev : Event) : outcome AccessErr (list Member) :=
  _ ← check_shape ev KindMembershipList; parse_members (Tags ev).

Definition NewMembershipList (now : Z) (selfPubkey : gostring) (members : list Member) : Event :=
  NewUnsignedEvent now KindMembershipList selfPubkey []
    ([bs "-"] :: map (fun m => bs "member" :: memPubkey m :: memRoles m) members).

(** ** Users added and removed *)

Definition parseUserEvent (ev : Event) (wantKind : Z) : outcome AccessErr gostring :=
  _ ← check_shape ev wantKind;
  pubkey ← wrap_err ErrMissingPTag (FindUniqueEventTagValue (Tags ev) (bs "p"));
  _ ← wrap_err (fun _ => ErrInvalidPubkey pubkey) (Validate32Key pubkey);
  Ok pubkey.

Definition ParseAddUser (ev : Event) : outcome AccessErr gostring := parseUserEvent ev KindAddUser.
Definition ParseRemoveUser (ev : Event) : outcome AccessErr gostring := parseUserEvent ev KindRemoveUser.

Definition NewAddUser (now : Z) (selfPubkey memberPubkey : gostring) : Event :=
  NewUnsignedEvent now KindAddUser selfPubkey [] [[bs "-"]; [bs "p"; memberPubkey]].
Definition NewRemoveUser (now : Z) (selfPubkey memberPubkey : gostring) : Event :=
  NewUnsignedEvent now KindRemoveUser selfPubkey [] [[bs "-"]; [bs "p"; memberPubkey]].

(** ** Requests *)

(** The one claim tag of a join request or an invite response. *)
Definition claim_of (ev : Event) (kind : Z) : outcome AccessErr gostring :=
  _ ← check_shape ev kind;
  match FindUniqueEventTagValue (Tags ev) (bs "claim") with
  | Ok claim => if bool_decide (claim = []) then Err ErrMissingClaimTag else Ok claim
  | Err _ => Err ErrMissingClaimTag
  | Panic => Panic
  end.

Definition ParseJoinRequest (ev : Event) : outcome AccessErr gostring := claim_of ev KindJoinRequest.
Definition NewJoinRequest (now : Z) (userPubkey claim : gostring) : Event :=
  NewUnsignedEvent now KindJoinRequest userPubkey [] [[bs "-"]; [bs "claim"; claim]].

Definition ParseInviteResponse (ev : Event) : outcome AccessErr gostring := claim_of ev KindInviteRequest.
Definition NewInviteResponse (now : Z) (selfPubkey claim : gostring) : Event :=
  NewUnsignedEvent now KindInviteRequest selfPubkey [] [[bs "-"]; [bs "claim"; claim]].

Definition ParseLeaveRequest (ev : Event) : outcome AccessErr unit := check_shape ev KindLeaveRequest.
Definition NewLeaveRequest (now : Z) (userPubkey : gostring) : Event :=
  NewUnsignedEvent now KindLeaveRequest userPubkey [] [[bs "-"]].

(** ** The signed versions *)

Section Signed.
Context {GoLower0 : GoLower} {Schnorr0 : Schnorr}.

Definition verified {A} (parse : Event -> outcome AccessErr A) (ev : Event) : outcome AccessErr unit :=
  match Verify [] ev with
  | Err e => Err (ErrInvalidSignature e)
  | Panic => Panic
  | Ok _ => _ ← parse ev; Ok tt
  end.

Definition ValidateRole := verified ParseRole.
Definition ValidateMembershipList := verified ParseMembershipList.
Definition ValidateAddUser := verified ParseAddUser.
Definition ValidateRemoveUser := verified ParseRemoveUser.
Definition ValidateInviteResponse := verified ParseInviteResponse.

End Signed.

(** ** Round trips *)

Lemma role_steps_app st l1 l2 : role_steps st (l1 ++ l2) = (st ← role_steps st l1; role_steps st l2).
Proof. revert st. induction l1 as [|t l1 IH]; intros st; [done|]. cbn [app role_steps]. destruct (role_step st t); [apply IH|done|done]. Qed.

(** A role a relay may define: a hue in range, an order an int holds. *)
Definition role_ok (r : Role) : Prop :=
  (forall c, Color r = Some c -> 0 <= c <= 360) /\ (forall o, Order r = Some o -> - 2 ^ 63 <= o < 2 ^ 63).

Lemma role_color i l d c0 o b c : 0 <= c <= 360 -> role_step (mkRole i l d c0 o, b) [bs "color"; Dec.itoa c] = Ok (mkRole i l d (Some c) o, b).
Proof.
  intros Hc. cbn -[Dec.atoi Dec.itoa]. rewrite Dec.atoi_itoa by lia. destruct (Z.ltb_spec c 0), (Z.ltb_spec 360 c); (lia || done).
Qed.
Lemma role_order i l d c o0 b o : - 2 ^ 63 <= o < 2 ^ 63 -> role_step (mkRole i l d c o0, b) [bs "order"; Dec.itoa o] = Ok (mkRole i l d c (Some o), b).
Proof. intros Ho. cbn -[Dec.atoi Dec.itoa]. by rewrite Dec.atoi_itoa by lia. Qed.

Lemma role_roundtrip now self r : role_ok r -> ParseRole (NewRoleDefinition now self r) = Ok r.
Proof.
  destruct r as [i l d c o]. intros [HC HO]. cbn in HC, HO. unfold ParseRole, NewRoleDefinition, check_shape, NewUnsignedEvent. cbn [Kind Tags].
  rewrite Z.eqb_refl. cbn [negb roleID Label Description Color Order].
  assert (HT : role_steps (mkRole [] [] [] None None, false)
    (appendIfSet (appendIfSet [[bs "-"]; [bs "d"; i]] (bs "label") l) (bs "description") d) = Ok (mkRole i l d None None, true)).
  { unfold appendIfSet. destruct (bool_decide_reflect (l = [])) as [->|_], (bool_decide_reflect (d = [])) as [->|_]; reflexivity. }
  assert (HP : forall ts, hasProtectedTag ([bs "-"] :: ts) = true) by done.
  assert (HA : exists ts, appendNumber (appendNumber (appendIfSet (appendIfSet [[bs "-"]; [bs "d"; i]] (bs "label") l) (bs "description") d)
    (bs "color") c) (bs "order") o = [bs "-"] :: ts).
  { unfold appendIfSet, appendNumber. destruct (bool_decide (l = [])), (bool_decide (d = [])), c, o; cbn; eexists; reflexivity. }
  destruct HA as [ts HA]. rewrite HA at 1. rewrite HP. cbn [negb mbind outcome_bind].
  unfold appendNumber. destruct c as [c|], o as [o|]; rewrite ?role_steps_app, ?HT; cbn [mbind outcome_bind role_steps].
  - rewrite role_color by by apply HC. cbn [mbind outcome_bind]. by rewrite role_order by by apply HO.
  - by rewrite role_color by by apply HC.
  - by rewrite role_order by by apply HO.
  - done.
Qed.

(** A membership list and the user events carry what they were built from. *)
Lemma members_map l : Forall (fun m => Validate32Key (memPubkey m) = Ok tt) l ->
  parse_members (map (fun m => bs "member" :: memPubkey m :: memRoles m) l) = Ok l.
Proof.
  induction 1 as [|[pk rs] l HV _ IH]; [done|]. cbn [map parse_members memPubkey memRoles].
  change (tag2 (bs "member") (bs "member" :: pk :: rs)) with (Some pk). cbn beta iota. cbn in HV. rewrite HV, IH. done.
Qed.

Lemma access_roundtrip now self pk claim members :
  Validate32Key pk = Ok tt -> claim <> [] -> Forall (fun m => Validate32Key (memPubkey m) = Ok tt) members ->
  ParseMembershipList (NewMembershipList now self members) = Ok members /\
  ParseAddUser (NewAddUser now self pk) = Ok pk /\ ParseRemoveUser (NewRemoveUser now self pk) = Ok pk /\
  ParseJoinRequest (NewJoinRequest now pk claim) = Ok claim /\ ParseInviteResponse (NewInviteResponse now self claim) = Ok claim /\
  ParseLeaveRequest (NewLeaveRequest now pk) = Ok tt.
Proof.
  intros HV Hc HM. split_and!.
  - change (parse_members ([bs "-"] :: map (fun m => bs "member" :: memPubkey m :: memRoles m) members) = Ok members). cbn [parse_members].
    change (tag2 (bs "member") [bs "-"]) with (@None gostring). cbn beta iota. by apply members_map.
  - change (ParseAddUser _) with (_ ← wrap_err (fun _ => ErrInvalidPubkey pk) (Validate32Key pk); Ok (E := AccessErr) pk). by rewrite HV.
  - change (ParseRemoveUser _) with (_ ← wrap_err (fun _ => ErrInvalidPubkey pk) (Validate32Key pk); Ok (E := AccessErr) pk). by rewrite HV.
  - change (ParseJoinRequest _) with (if bool_decide (claim = []) then Err (A := gostring) ErrMissingClaimTag else Ok claim). by rewrite bool_decide_eq_false_2.
  - change (ParseInviteResponse _) with (if bool_decide (claim = []) then Err (A := gostring) ErrMissingClaimTag else Ok claim). by rewrite bool_decide_eq_false_2.
  - done.
Qed.

(** ** Freshness *)

(** Within the window on both sides, for the times a clock can show; a time past
    the range of int64 is never fresh. *)
Lemma freshness_iff createdAt now window :
  0 <= createdAt < 2 ^ 64 -> 0 <= window <= now -> now + window < 2 ^ 63 ->
  ValidateFreshness createdAt now window = Ok tt <-> now - window <= createdAt <= now + window.
Proof.
  intros Hc Hw Hn. unfold ValidateFreshness, as_int64. destruct (Z.ltb_spec createdAt (2 ^ 63)).
  - destruct (Z.ltb_spec createdAt (now - window)), (Z.ltb_spec (now + window) createdAt); cbn; split; (done || lia).
  - destruct (Z.ltb_spec (createdAt - 2 ^ 64) (now - window)); cbn; [split; [done|lia]|lia].
Qed.

End Access.
