(* ===== verification/AgentAuth.v ===== *)
(** * nip42, nipOA, nipAA: who authenticated, and for whom

    [nip42/auth.go]: the check of an AUTH event.  [nipOA/nipOA.go] and
    [nipOA/sign.go]: owner attestations, by which a key vouches for another under
    conditions; the signers but the remote one, whose transport is not here.
    [nipAA/nipAA.go]: an attestation offered at AUTH.  The clock is an argument,
    in seconds. *)

From Stdlib Require Import Btauto.
From S2P Require Import Prelude GoLib Sha256 NostrUtils Pow Event Filter Nip19 Nip43.

(** ** nip42 *)

Definition KindClientAuth : Z := 22242.

Inductive AuthErr := AuthWrongKind (got : Z) | ErrTimestampOutOfSync | ErrRelayTagMismatch | ErrChallengeMismatch.

(** A tag with this name and value. *)
Definition names_value (name value : gostring) (t : tag) : bool :=
  match t with n :: v :: _ => bool_decide (n = name) && bool_decide (v = value) | _ => false end.

Definition ValidateAuthEvent (now kind : Z) (ts : tags) (createdAt : Z) (challenge relayURL : gostring) : outcome AuthErr unit :=
  if negb (kind =? KindClientAuth) then Err (AuthWrongKind kind)
  else if (u64 (u64 now + 600) <? createdAt) || (createdAt <? u64 (u64 now - 600)) then Err ErrTimestampOutOfSync
  else if negb (existsb (names_value (bs "relay") relayURL) ts) then Err ErrRelayTagMismatch
  else if negb (existsb (names_value (bs "challenge") challenge) ts) then Err ErrChallengeMismatch
  else Ok tt.

Definition NewAuthEvent (now : Z) (challenge relayURL : gostring) : Event :=
  NewEvent now KindClientAuth [] [[bs "relay"; relayURL]; [bs "challenge"; challenge]].

(** ** nipOA *)

Definition AuthTagName : gostring := bs "auth".
Definition domainSeparator : gostring := bs "nostr:agent-auth:".
Definition maxKindValue : Z := 65535.
Definition maxCreatedAtValue : Z := 4294967295.

Inductive AttestErr :=
  | ErrMultipleAuthTags | ErrWrongElementCount (n : Z) | ErrInvalidOwnerPubkey | ErrInvalidSignatureHex | ErrSelfAttestation
  | ErrMalformedConditions | ErrUnsupportedClause (s : gostring) | ErrSignatureVerificationFailed
  | ErrInvalidSubordinatePubkey | ErrKeySign | ErrNsec (e : N19Err) | ErrPrivKey (e : UtilErr)
  | ErrCredentialTimestampUnsatisfied.

Record Conditions := mkCond { cKinds : list Z; CreatedAtLT : list Z; CreatedAtGT : list Z; Raw : gostring }.

Definition EvaluateKind (c : Conditions) (kind : Z) : bool := forallb (fun k => kind =? k) (cKinds c).

Definition EvaluateTimeClauses (c : Conditions) (createdAt : Z) : bool :=
  forallb (fun t => createdAt <? t) (CreatedAtLT c) && forallb (fun t => t <? createdAt) (CreatedAtGT c).

Record AuthTag := mkAuthTag { OwnerPubkey : gostring; tConditions : Conditions; tSig : gostring }.

Definition amp : byte := x26.

Definition parseCanonicalDecimal (s : gostring) (max : Z) : option Z :=
  match s with
  | [] => None
  | c :: r =>
      if (1 <? zlen s) && bool_decide (c = "0"%byte) then None
      else if negb (forallb Dec.is_digit s) then None
      else match Dec.parse_uint s with
           | None => None
           | Some n => if max <? n then None else Some n
           end
  end.

(** The text after a prefix. *)
Definition after_prefix (p s : gostring) : option gostring := if has_prefix s p then Some (drop (length p) s) else None.

(** One clause of the conditions. *)
Definition add_clause (c : Conditions) (clause : gostring) : outcome AttestErr Conditions :=
  match clause with
  | [] => Err ErrMalformedConditions
  | _ =>
      match after_prefix (bs "kind=") clause with
      | Some v => match parseCanonicalDecimal v maxKindValue with
                  | Some n => Ok (mkCond (cKinds c ++ [n]) (CreatedAtLT c) (CreatedAtGT c) (Raw c))
                  | None => Err ErrMalformedConditions
                  end
      | None =>
          match after_prefix (bs "created_at<") clause with
          | Some v => match parseCanonicalDecimal v maxCreatedAtValue with
                      | Some n => Ok (mkCond (cKinds c) (CreatedAtLT c ++ [n]) (CreatedAtGT c) (Raw c))
                      | None => Err ErrMalformedConditions
                      end
          | None =>
              match after_prefix (bs "created_at>") clause with
              | Some v => match parseCanonicalDecimal v maxCreatedAtValue with
                          | Some n => Ok (mkCond (cKinds c) (CreatedAtLT c) (CreatedAtGT c ++ [n]) (Raw c))
                          | None => Err ErrMalformedConditions
                          end
              | None => Err (ErrUnsupportedClause clause)
              end
          end
      end
  end.

Fixpoint add_clauses (c : Conditions) (l : list gostring) : outcome AttestErr Conditions :=
  match l with
  | [] => Ok c
  | clause :: l => c ← add_clause c clause; add_clauses c l
  end.

Definition ParseConditions (raw : gostring) : outcome AttestErr Conditions :=
  if bool_decide (raw = []) then Ok (mkCond [] [] [] raw) else add_clauses (mkCond [] [] [] raw) (split_on amp raw).

Definition Preimage (eventPubkey conditions : gostring) : gostring := domainSeparator ++ eventPubkey ++ bs ":" ++ conditions.

(** Until, at a time in seconds. *)
Definition Until (t : Z) : gostring := bs "created_at<" ++ Dec.itoa t.

Definition ExpiredAt (c : Conditions) (now : Z) : bool := negb (EvaluateTimeClauses c (Z.max 0 now)).

Section Attest.
Context {GoLower0 : GoLower} {Schnorr0 : Schnorr}.

Definition VerifySignature (ownerPubkeyHex eventPubkey conditions sigHex : gostring) : outcome AttestErr unit :=
  match Validate32Key ownerPubkeyHex with
  | Ok _ =>
      match Hex.decode sigHex with
      | Some sigBytes =>
          if negb (zlen sigBytes =? 64) then Err ErrInvalidSignatureHex else
          match ParseSignature sigBytes with
          | None => Err ErrInvalidSignatureHex
          | Some signature =>
              match Hex.decode ownerPubkeyHex with
              | None => Err ErrInvalidOwnerPubkey
              | Some b =>
                  match ParsePubKey b with
                  | None => Err ErrInvalidOwnerPubkey
                  | Some ownerPubkey =>
                      if SchnorrVerify signature (sha256 (Preimage eventPubkey conditions)) ownerPubkey then Ok tt
                      else Err ErrSignatureVerificationFailed
                  end
              end
          end
      | None => Err ErrInvalidSignatureHex
      end
  | _ => Err ErrInvalidOwnerPubkey
  end.

(** [Ok None]: no auth tag. *)
Definition ParseAuthTag (ts : tags) (eventPubkey : gostring) : outcome AttestErr (option AuthTag) :=
  match LookupEventTag ts AuthTagName with
  | None => Ok None
  | Some (_ :: _ :: _) => Err ErrMultipleAuthTags
  | Some [] => Panic
  | Some [t] =>
      match t with
      | [_; ownerPubkey; conditionsRaw; sigHex] =>
          match Validate32Key ownerPubkey with
          | Ok _ =>
              if bool_decide (ownerPubkey = eventPubkey) then Err ErrSelfAttestation else
              conditions ← ParseConditions conditionsRaw;
              _ ← VerifySignature ownerPubkey eventPubkey conditionsRaw sigHex;
              Ok (Some (mkAuthTag ownerPubkey conditions sigHex))
          | _ => Err ErrInvalidOwnerPubkey
          end
      | _ => Err (ErrWrongElementCount (zlen t))
      end
  end.

(** Signer: a key and how it signs. *)
Record Signer := mkSigner { SignerPubKey : gostring; SignAttestation : gostring -> gostring -> outcome AttestErr gostring }.

Definition AttestSign (signer : Signer) (subordinateHex conditions : gostring) : outcome AttestErr tag :=
  match Validate32Key subordinateHex with
  | Ok _ =>
      let subordinateHex := ToLower subordinateHex in
      match Validate32Key (SignerPubKey signer) with
      | Ok _ =>
          let attester := ToLower (SignerPubKey signer) in
          if bool_decide (attester = subordinateHex) then Err ErrSelfAttestation else
          _ ← ParseConditions conditions;
          sig ← SignAttestation signer subordinateHex conditions;
          let sig := ToLower (Trim.TrimSpace sig) in
          _ ← VerifySignature attester subordinateHex conditions sig;
          Ok [AuthTagName; attester; conditions; sig]
      | _ => Err ErrInvalidOwnerPubkey
      end
  | _ => Err ErrInvalidSubordinatePubkey
  end.

(** KeySigner, made by NewKeySigner. *)
Definition NewKeySigner `{!Bech32} (privKey : gostring) : outcome AttestErr (gostring * gostring) :=
  let priv := Trim.TrimSpace privKey in
  priv ← (if has_prefix priv (bs "nsec1")
          then match DecodePrivateKey priv with Ok h => Ok h | Err e => Err (ErrNsec e) | Panic => Panic end
          else Ok priv);
  let priv := ToLower priv in
  match GetPublicKey priv with
  | Ok pub => Ok (priv, pub)
  | Err e => Err (ErrPrivKey e)
  | Panic => Panic
  end.

Definition KeySigner_sign (priv subordinatePubkey conditions : gostring) : outcome AttestErr gostring :=
  match ParsePrivateKeyHex priv with
  | Err e => Err (ErrPrivKey e)
  | Panic => Panic
  | Ok b => match SchnorrSign (PrivKeyFromBytes b) (sha256 (Preimage subordinatePubkey conditions)) with
            | None => Err ErrKeySign
            | Some sig => Ok (Hex.encode (SerializeSig sig))
            end
  end.

Definition KeySigner (k : gostring * gostring) : Signer := mkSigner k.2 (KeySigner_sign k.1).

(** ** nipAA *)

(** Seconds. *)
Definition DefaultFreshnessWindow : Z := 120.

Definition AgentFreshness (createdAt now window : Z) : bool :=
  negb ((Access.as_int64 createdAt <? now - window) || (now + window <? Access.as_int64 createdAt)).

Definition EvaluateCredential (eventPubkey : gostring) (ts : tags) (eventCreatedAt : Z) : outcome AttestErr (option AuthTag) :=
  t ← ParseAuthTag ts eventPubkey;
  match t with
  | None => Ok None
  | Some t => if negb (EvaluateTimeClauses (tConditions t) eventCreatedAt) then Err ErrCredentialTimestampUnsatisfied else Ok (Some t)
  end.

End Attest.

(** ** Canonical decimals *)

(** The accepted spellings are exactly the ones FormatUint writes. *)
Lemma canonical_iff s max n : 0 <= max < 2 ^ 64 -> parseCanonicalDecimal s max = Some n <-> 0 <= n <= max /\ s = Dec.format_uint n.
Proof.
  intros Hm. split.
  - destruct s as [|c r]; [done|]. unfold parseCanonicalDecimal. destruct ((1 <? zlen (c :: r)) && _) eqn:E1; [done|].
    destruct (negb _) eqn:E2; [done|]. unfold Dec.parse_uint. destruct (Dec.parse_digits (c :: r)) as [z|] eqn:E3; [|done]. cbn [mbind option_bind].
    destruct (Z.ltb_spec z (2 ^ 64)); [|done]. destruct (Z.ltb_spec max z); [done|]. intros [= ->].
    destruct (Dec.parse_digits_Some _ _ E3) as [Hz _]. split; [lia|]. symmetry. apply Dec.canonical_format; [done|].
    apply andb_false_iff in E1 as [E1|E1]; [left|right; by apply bool_decide_eq_false in E1].
    apply Z.ltb_ge in E1. rewrite zlen_cons in E1. destruct r as [|c' r]; [done|]. rewrite zlen_cons in E1. pose proof (zlen_nonneg r). lia.
  - intros [Hn ->]. pose proof (Dec.parse_uint_format n ltac:(lia)) as HP. pose proof (Dec.format_uint_digits n) as HD.
    pose proof (Dec.format_uint_nonempty n) as HE. unfold parseCanonicalDecimal. destruct (Dec.format_uint n) as [|c r] eqn:EF; [done|].
    assert (HZ : (1 <? zlen (c :: r)) && bool_decide (c = "0"%byte) = false).
    { apply andb_false_iff. destruct (bool_decide_reflect (c = "0"%byte)) as [->|_]; [left|by right]. by rewrite (Dec.format_zero n r EF). }
    rewrite HZ. assert (HF : forallb Dec.is_digit (c :: r) = true) by (apply forallb_forall; rewrite Forall_forall in HD; intros x Hx; apply HD; by apply list_elem_of_In).
    rewrite HF, HP. cbn [negb]. destruct (Z.ltb_spec max n); [lia|done].
Qed.

(** ** Conditions and their text *)

Inductive Clause := CKind (n : Z) | CBefore (t : Z) | CAfter (t : Z).

Definition clause_ok (cl : Clause) : Prop :=
  match cl with CKind n => 0 <= n <= maxKindValue | CBefore t | CAfter t => 0 <= t <= maxCreatedAtValue end.

Definition print_clause (cl : Clause) : gostring :=
  match cl with
  | CKind n => bs "kind=" ++ Dec.format_uint n
  | CBefore t => bs "created_at<" ++ Dec.format_uint t
  | CAfter t => bs "created_at>" ++ Dec.format_uint t
  end.

Fixpoint join_amp (l : list gostring) : gostring :=
  match l with
  | [] => []
  | [s] => s
  | s :: l => s ++ amp :: join_amp l
  end.

Definition push_clause (c : Conditions) (cl : Clause) : Conditions :=
  match cl with
  | CKind n => mkCond (cKinds c ++ [n]) (CreatedAtLT c) (CreatedAtGT c) (Raw c)
  | CBefore t => mkCond (cKinds c) (CreatedAtLT c ++ [t]) (CreatedAtGT c) (Raw c)
  | CAfter t => mkCond (cKinds c) (CreatedAtLT c) (CreatedAtGT c ++ [t]) (Raw c)
  end.

(** What a clause asks of an event. *)
Definition clause_holds (kind createdAt : Z) (cl : Clause) : bool :=
  match cl with CKind n => kind =? n | CBefore t => createdAt <? t | CAfter t => t <? createdAt end.

Lemma has_prefix_here p s : has_prefix (p ++ s) p = true.
Proof. unfold has_prefix. rewrite take_app_length. by apply bool_decide_eq_true. Qed.
Lemma after_prefix_here p s : after_prefix p (p ++ s) = Some s.
Proof. unfold after_prefix. by rewrite has_prefix_here, drop_app_length. Qed.
Lemma after_prefix_Some p s v : after_prefix p s = Some v -> s = p ++ v.
Proof.
  unfold after_prefix, has_prefix. destruct (bool_decide_reflect (take (length p) s = p)) as [E|]; [|done]. intros [= <-].
  rewrite <- E at 1. by rewrite take_drop.
Qed.

Lemma canonical_print max n : 0 <= n <= max -> max < 2 ^ 64 -> parseCanonicalDecimal (Dec.format_uint n) max = Some n.
Proof. intros Hn Hm. apply canonical_iff; [lia|]. by split. Qed.

Lemma add_clause_print c cl : clause_ok cl -> add_clause c (print_clause cl) = Ok (push_clause c cl).
Proof.
  intros Hok. unfold add_clause, print_clause, push_clause. destruct cl as [n|t|t]; cbn [clause_ok] in Hok.
  - change (match bs "kind=" ++ Dec.format_uint n with [] => ?a | _ :: _ => ?b end) with b. rewrite after_prefix_here, canonical_print by done. done.
  - change (match bs "created_at<" ++ Dec.format_uint t with [] => ?a | _ :: _ => ?b end) with b.
    change (after_prefix (bs "kind=") (bs "created_at<" ++ Dec.format_uint t)) with (@None gostring). cbn iota.
    rewrite after_prefix_here, canonical_print by done. done.
  - change (match bs "created_at>" ++ Dec.format_uint t with [] => ?a | _ :: _ => ?b end) with b.
    change (after_prefix (bs "kind=") (bs "created_at>" ++ Dec.format_uint t)) with (@None gostring).
    change (after_prefix (bs "created_at<") (bs "created_at>" ++ Dec.format_uint t)) with (@None gostring). cbn iota.
    rewrite after_prefix_here, canonical_print by done. done.
Qed.

Lemma add_clause_inv c s c' : add_clause c s = Ok c' -> exists cl, clause_ok cl /\ s = print_clause cl /\ c' = push_clause c cl.
Proof.
  unfold add_clause. destruct s as [|x s]; [done|]. set (t := x :: s).
  destruct (after_prefix (bs "kind=") t) as [v|] eqn:E1.
  { destruct (parseCanonicalDecimal v maxKindValue) as [n|] eqn:EC; [|done]. intros [= <-]. apply canonical_iff in EC as [Hn ->]; [|done].
    exists (CKind n). split; [done|]. split; [by apply after_prefix_Some in E1|done]. }
  destruct (after_prefix (bs "created_at<") t) as [v|] eqn:E2.
  { destruct (parseCanonicalDecimal v maxCreatedAtValue) as [n|] eqn:EC; [|done]. intros [= <-]. apply canonical_iff in EC as [Hn ->]; [|done].
    exists (CBefore n). split; [done|]. split; [by apply after_prefix_Some in E2|done]. }
  destruct (after_prefix (bs "created_at>") t) as [v|] eqn:E3; [|done].
  destruct (parseCanonicalDecimal v maxCreatedAtValue) as [n|] eqn:EC; [|done]. intros [= <-]. apply canonical_iff in EC as [Hn ->]; [|done].
  exists (CAfter n). split; [done|]. split; [by apply after_prefix_Some in E3|done].
Qed.

Lemma add_clauses_iff l c c' :
  add_clauses c l = Ok c' <-> exists cls, Forall clause_ok cls /\ l = map print_clause cls /\ c' = foldl push_clause c cls.
Proof.
  revert c. induction l as [|s l IH]; intros c; cbn [add_clauses].
  - split; [intros [= <-]; by exists []|]. intros ([|? ?] & _ & HL & ->); [done|discriminate HL].
  - split.
    + destruct (add_clause c s) as [c1|?|] eqn:E; [|done..]. cbn. intros H. apply IH in H as (cls & HF & -> & ->).
      apply add_clause_inv in E as (cl & H1 & -> & ->). exists (cl :: cls). split; [by constructor|done].
    + intros ([|cl cls] & HF & HL & ->); [done|]. apply Forall_cons in HF as [H1 H2]. injection HL as -> ->.
      rewrite add_clause_print by done. cbn. apply IH. by exists cls.
Qed.

Lemma digits_no_amp n : amp ∉ Dec.format_uint n.
Proof. intros Hin. pose proof (Dec.format_uint_digits n) as HD. rewrite Forall_forall in HD. by specialize (HD _ Hin). Qed.

Lemma print_no_amp cl : amp ∉ print_clause cl.
Proof.
  destruct cl as [n|n|n]; cbn [print_clause]; rewrite elem_of_app; intros [Hin|Hin];
    try (by apply digits_no_amp in Hin); repeat (apply elem_of_cons in Hin as [Hin|Hin]; [done|]); by apply elem_of_nil in Hin.
Qed.

Lemma split_join l : l <> [] -> (forall s, s ∈ l -> amp ∉ s) -> split_on amp (join_amp l) = l.
Proof.
  induction l as [|s [|s2 l] IH]; intros Hne Hl; [done| |].
  - cbn. apply split_on_none, Hl. by left.
  - cbn [join_amp]. rewrite split_on_app by (apply Hl; by left). f_equal. apply IH; [done|]. intros x Hx. apply Hl. by right.
Qed.

Lemma split_nonempty sep s : split_on sep s <> [].
Proof. destruct s as [|c s]; [done|]. cbn [split_on]. destruct (decide (c = sep)); [done|]. by destruct (split_on sep s). Qed.

Lemma join_split s : join_amp (split_on amp s) = s.
Proof.
  induction s as [|c s IH]; [done|]. cbn [split_on]. pose proof (split_nonempty amp s) as HN.
  destruct (split_on amp s) as [|x l]; [done|]. destruct (decide (c = amp)) as [->|Hc].
  - change (join_amp ([] :: x :: l)) with (amp :: join_amp (x :: l)). by rewrite IH.
  - rewrite <- IH. by destruct l as [|y l].
Qed.

(** The texts that parse are exactly the clauses joined by an ampersand, each
    with its number in canonical decimal; parsing collects them. *)
Lemma conditions_iff raw c :
  ParseConditions raw = Ok c <->
  exists cls, Forall clause_ok cls /\ raw = join_amp (map print_clause cls) /\ c = foldl push_clause (mkCond [] [] [] raw) cls.
Proof.
  unfold ParseConditions. destruct (bool_decide_reflect (raw = [])) as [->|Hr].
  - split; [intros [= <-]; by exists []|]. intros (cls & _ & HL & ->). destruct cls as [|cl cls]; [done|].
    exfalso. destruct cl, cls; done.
  - rewrite add_clauses_iff. split; intros (cls & HF & HL & ->); exists cls; (split; [done|]); (split; [|done]).
    + by rewrite <- HL, join_split.
    + rewrite HL. apply split_join; [by destruct cls|]. intros s (cl & -> & _)%list_elem_of_fmap. apply print_no_amp.
Qed.

(** What parsed conditions admit: every clause holds. *)
Lemma holds_fold cls c kind createdAt :
  EvaluateKind (foldl push_clause c cls) kind && EvaluateTimeClauses (foldl push_clause c cls) createdAt =
  EvaluateKind c kind && EvaluateTimeClauses c createdAt && forallb (clause_holds kind createdAt) cls.
Proof.
  revert c. induction cls as [|cl cls IH]; intros c; cbn [foldl forallb]; [by rewrite andb_true_r|]. rewrite IH.
  unfold EvaluateKind, EvaluateTimeClauses. destruct cl; cbn [push_clause cKinds CreatedAtLT CreatedAtGT clause_holds];
    rewrite forallb_app; cbn [forallb]; rewrite andb_true_r; btauto.
Qed.

(** ** Attestations *)

Section Sound.
Context {GoLower0 : GoLower} {Schnorr0 : Schnorr}.

(** The owner signed for this key under these conditions. *)
Definition attested (owner agent conditions sigHex : gostring) : Prop :=
  exists sigBytes s b pk, Hex.decode sigHex = Some sigBytes /\ zlen sigBytes = 64 /\ ParseSignature sigBytes = Some s /\
    Hex.decode owner = Some b /\ ParsePubKey b = Some pk /\ SchnorrVerify s (sha256 (Preimage agent conditions)) pk = true.

Lemma VerifySignature_iff owner agent conditions sigHex :
  VerifySignature owner agent conditions sigHex = Ok tt <-> Validate32Key owner = Ok tt /\ attested owner agent conditions sigHex.
Proof.
  unfold VerifySignature, attested. split.
  - destruct (Validate32Key owner) as [[]|?|]; [|done..]. destruct (Hex.decode sigHex) as [sb|]; [|done].
    destruct (Z.eqb_spec (zlen sb) 64); [|done]. cbn [negb]. destruct (ParseSignature sb) as [s|] eqn:ES; [|done].
    destruct (Hex.decode owner) as [b|]; [|done]. destruct (ParsePubKey b) as [pk|] eqn:EP; [|done].
    destruct (SchnorrVerify _ _ _) eqn:EV; [|done]. intros _. split; [done|]. by exists sb, s, b, pk.
  - intros (-> & sb & s & b & pk & -> & Hl & -> & -> & -> & ->). by rewrite Hl.
Qed.

Lemma ParseAuthTag_Some ts agent t :
  ParseAuthTag ts agent = Ok (Some t) ->
  exists raw, LookupEventTag ts AuthTagName = Some [[AuthTagName; OwnerPubkey t; raw; tSig t]] /\ OwnerPubkey t <> agent /\
    ParseConditions raw = Ok (tConditions t) /\ VerifySignature (OwnerPubkey t) agent raw (tSig t) = Ok tt.
Proof.
  unfold ParseAuthTag. destruct (LookupEventTag ts AuthTagName) as [[|t0 [|]]|] eqn:EL; try done.
  destruct t0 as [|n [|o [|raw [|sig [|]]]]]; try done. destruct (Validate32Key o) as [?|?|]; try done.
  destruct (bool_decide_reflect (o = agent)) as [|Hne]; [done|]. destruct (ParseConditions raw) as [c|?|] eqn:EC; [|done..]. cbn [mbind outcome_bind].
  destruct (VerifySignature o agent raw sig) as [[]|?|] eqn:EV; [|done..]. intros [= <-]. exists raw. cbn. split_and!; try done.
  unfold LookupEventTag in EL. destruct (List.filter (tag_is AuthTagName) ts) as [|t0 l] eqn:EF; [done|]. injection EL as -> ->.
  assert (Hin : In [n; o; raw; sig] (List.filter (tag_is AuthTagName) ts)) by (rewrite EF; by left).
  apply filter_In in Hin as [_ Hin]. cbn in Hin. apply bool_decide_eq_true in Hin as ->. done.
Qed.

(** Whatever a signer answers, a tag that comes out of Sign is one the verifier
    accepts for that key. *)
Lemma sign_verifies signer sub conditions t :
  AttestSign signer sub conditions = Ok t ->
  exists c sig, ParseConditions conditions = Ok c /\
    ParseAuthTag [t] (ToLower sub) = Ok (Some (mkAuthTag (ToLower (SignerPubKey signer)) c sig)).
Proof.
  unfold AttestSign. destruct (Validate32Key sub) as [?|?|]; [|done..]. destruct (Validate32Key (SignerPubKey signer)) as [?|?|]; [|done..].
  cbv zeta. destruct (bool_decide_reflect (ToLower (SignerPubKey signer) = ToLower sub)) as [|Hne]; [done|].
  destruct (ParseConditions conditions) as [c|?|] eqn:EC; [|done..]. cbn [mbind outcome_bind].
  destruct (SignAttestation signer _ _) as [sig0|?|]; [|done..]. cbn [mbind outcome_bind].
  destruct (VerifySignature _ _ _ _) as [[]|?|] eqn:EV; [|done..]. intros [= <-]. exists c, (ToLower (Trim.TrimSpace sig0)). split; [done|].
  apply VerifySignature_iff in EV as HV. destruct HV as [HK _]. unfold ParseAuthTag.
  change (LookupEventTag [[AuthTagName; ToLower (SignerPubKey signer); conditions; ToLower (Trim.TrimSpace sig0)]] AuthTagName)
    with (Some [[AuthTagName; ToLower (SignerPubKey signer); conditions; ToLower (Trim.TrimSpace sig0)]]). cbn iota.
  rewrite HK, bool_decide_eq_false_2 by done. rewrite EC. cbn [mbind outcome_bind]. by rewrite EV.
Qed.

(** What a clause asks of a time. *)
Definition time_holds (createdAt : Z) (cl : Clause) : bool :=
  match cl with CKind _ => true | CBefore t => createdAt <? t | CAfter t => t <? createdAt end.

Lemma time_fold cls c createdAt :
  EvaluateTimeClauses (foldl push_clause c cls) createdAt = EvaluateTimeClauses c createdAt && forallb (time_holds createdAt) cls.
Proof.
  revert c. induction cls as [|cl cls IH]; intros c; cbn [foldl forallb]; [by rewrite andb_true_r|]. rewrite IH.
  unfold EvaluateTimeClauses. destruct cl; cbn [push_clause CreatedAtLT CreatedAtGT time_holds];
    rewrite ?forallb_app; cbn [forallb]; rewrite ?andb_true_r; btauto.
Qed.

(** The other direction of [ParseAuthTag_Some]. *)
Lemma ParseAuthTag_of ts agent t raw :
  LookupEventTag ts AuthTagName = Some [[AuthTagName; OwnerPubkey t; raw; tSig t]] -> OwnerPubkey t <> agent ->
  ParseConditions raw = Ok (tConditions t) -> VerifySignature (OwnerPubkey t) agent raw (tSig t) = Ok tt ->
  ParseAuthTag ts agent = Ok (Some t).
Proof.
  intros HL Hne HC HV. apply VerifySignature_iff in HV as HK. destruct HK as [HK _]. unfold ParseAuthTag. rewrite HL, HK, bool_decide_eq_false_2 by done.
  rewrite HC. cbn [mbind outcome_bind]. rewrite HV. by destruct t.
Qed.


End Sound.
