(* ===== verification/Membership.v ===== *)
(** * relay: membership

    [relay/store_membership.go], [relay/membership_cache.go] and
    [relay/membership.go]: the members of a relay (NIP-43), in a bucket and in a
    cache of decoded keys, and the invite claims by which they join.  The record
    codec is the class [MemberJSON]; [None] is a run-time panic; the clock is an
    argument.  The service tells its hooks who was added and removed: [hooks] is
    the list of those calls.  Its third hook publishes the list of members
    ([relay/session.go]), which [Join] and [Leave] run. *)

From S2P Require Import Prelude GoLib Bolt Sha256 NostrUtils Pow Event Filter StoreDb StoreScan Nip29 GroupStore Groups Nip43.

(** ** The buckets *)

Record MemberRecord := mkMemberRecord { mrPubkey : gostring; mrRoles : list gostring; JoinedAt : Z }.

Record InviteClaim := mkClaim {
  icCode : gostring; icCreatedAt : Z; icExpiresAt : Z; MaxUses : Z; Uses : Z; icRoles : list gostring;
}.

(** encoding/json on the records; Marshal does not fail on them. *)
Class MemberJSON := {
  MarshalMember : MemberRecord -> gostring;
  UnmarshalMember : gostring -> option MemberRecord;
  MarshalClaim : InviteClaim -> gostring;
  UnmarshalClaim : gostring -> option InviteClaim;
}.

Definition claim_stable `{!MemberJSON} (c : InviteClaim) : Prop := UnmarshalClaim (MarshalClaim c) = Some c.
Definition member_stable `{!MemberJSON} (r : MemberRecord) : Prop := UnmarshalMember (MarshalMember r) = Some r.

Inductive ClaimErr := ErrInviteClaimNotFound | ErrInviteClaimExpired | ErrInviteClaimExhausted | ClaimStore (e : StoreErr).

Section Store.
Context {Bolt0 : Bolt} {MemberJSON0 : MemberJSON}.

(** A value of a bucket, decoded. *)
Definition get_json {A} (decode : gostring -> option A) (b : option Bucket) (key : gostring) : outcome StoreErr (option A) :=
  match b with
  | None => Ok None
  | Some b => match Get b key with
              | None => Ok None
              | Some data => match decode data with Some a => Ok (Some a) | None => Err ErrEventJSON end
              end
  end.

Definition put_json (b : option Bucket) (key data : gostring) : outcome StoreErr (option Bucket) :=
  match Put (ensure_bucket b) key data with Some b => Ok (Some b) | None => Err ErrBoltPut end.

Definition GetMember (b : option Bucket) (pubkey : gostring) : outcome StoreErr (option MemberRecord) := get_json UnmarshalMember b pubkey.
Definition PutMember (b : option Bucket) (r : MemberRecord) : outcome StoreErr (option Bucket) := put_json b (mrPubkey r) (MarshalMember r).
Definition store_RemoveMember (b : option Bucket) (pubkey : gostring) : option Bucket :=
  match b with None => None | Some b => Some (Delete b pubkey) end.

Definition ListMembers (b : option Bucket) : list gostring :=
  match b with None => [] | Some b => (ascend b []).*1 end.

Fixpoint decode_all {A} (decode : gostring -> option A) (l : list (gostring * gostring)) : outcome StoreErr (list A) :=
  match l with
  | [] => Ok []
  | (_, v) :: l => match decode v with
                   | None => Err ErrEventJSON
                   | Some a => rest ← decode_all decode l; Ok (a :: rest)
                   end
  end.

Definition ListMemberRecords (b : option Bucket) : outcome StoreErr (list MemberRecord) :=
  match b with None => Ok [] | Some b => decode_all UnmarshalMember (ascend b []) end.

Definition GetInviteClaim (b : option Bucket) (code : gostring) : outcome StoreErr (option InviteClaim) := get_json UnmarshalClaim b code.
Definition PutInviteClaim (b : option Bucket) (c : InviteClaim) : outcome StoreErr (option Bucket) := put_json b (icCode c) (MarshalClaim c).
Definition ListInviteClaims (b : option Bucket) : outcome StoreErr (list InviteClaim) :=
  match b with None => Ok [] | Some b => decode_all UnmarshalClaim (ascend b []) end.
Definition DeleteInviteClaim (b : option Bucket) (code : gostring) : option Bucket :=
  match b with None => None | Some b => Some (Delete b code) end.

(** [Uses++] on an int. *)
Definition used_once (c : InviteClaim) : InviteClaim :=
  mkClaim (icCode c) (icCreatedAt c) (icExpiresAt c) (MaxUses c) (Access.as_int64 (u64 (Uses c + 1))) (icRoles c).

Definition ConsumeInviteClaim (b : option Bucket) (code : gostring) (now : Z) : outcome ClaimErr (option Bucket * InviteClaim) :=
  let b := ensure_bucket b in
  match Get b code with
  | None => Err ErrInviteClaimNotFound
  | Some data =>
      match UnmarshalClaim data with
      | None => Err (ClaimStore ErrEventJSON)
      | Some claim =>
          if (0 <? icExpiresAt claim) && (icExpiresAt claim <? now) then Err ErrInviteClaimExpired
          else if (0 <? MaxUses claim) && (MaxUses claim <=? Uses claim) then Err ErrInviteClaimExhausted
          else match Put b code (MarshalClaim (used_once claim)) with
               | None => Err (ClaimStore ErrBoltPut)
               | Some b => Ok (Some b, used_once claim)
               end
      end
  end.

End Store.

(** ** The cache *)

Definition decodePubkey (pubkeyHex : gostring) : option (list byte) :=
  if negb (zlen pubkeyHex =? 64) then None else Hex.decode pubkeyHex.

Definition member_keys : Type := gset (list byte).

Definition cache_IsMember (c : member_keys) (pubkeyHex : gostring) : bool :=
  match decodePubkey pubkeyHex with Some key => bool_decide (key ∈ c) | None => false end.

Definition member_replace (pubkeys : list gostring) : member_keys := list_to_set (omap decodePubkey pubkeys).
Definition member_add (c : member_keys) (pubkeyHex : gostring) : member_keys :=
  match decodePubkey pubkeyHex with Some key => {[key]} ∪ c | None => c end.
Definition member_remove (c : member_keys) (pubkeyHex : gostring) : member_keys :=
  match decodePubkey pubkeyHex with Some key => c ∖ {[key]} | None => c end.
(** In the order of the map. *)
Definition cache_pubkeys (c : member_keys) : list gostring := map Hex.encode (elements c).

(** ** The service *)

Inductive Hook := onAdd (pubkey : gostring) | onRemove (pubkey : gostring).

(** What the OK says. *)
Inductive AccessMessage := AText (s : gostring) | ARefusal (e : Access.AccessErr).
Record AccessReply := mkReply { aEventID : gostring; aAccepted : bool; aMessage : AccessMessage }.

Section Service.
Context {GoLower0 : GoLower} {Schnorr0 : Schnorr} {Bolt0 : Bolt} {MemberJSON0 : MemberJSON} {EventDB0 : EventDB}.

Record MembershipService := mkMembership {
  membersB : option Bucket; claimsB : option Bucket; mcache : member_keys; hooks : list Hook; mevs : EvState;
}.

Definition NewMembershipService (mb cb : option Bucket) (e : EvState) : MembershipService := mkMembership mb cb ∅ [] e.

Definition MemberLoad (m : MembershipService) : MembershipService :=
  mkMembership (membersB m) (claimsB m) (member_replace (ListMembers (membersB m))) (hooks m) (mevs m).

Definition MemberCount (m : MembershipService) : Z := Z.of_nat (size (mcache m)).
Definition MIsMember (m : MembershipService) (pubkey : gostring) : bool := cache_IsMember (mcache m) pubkey.

Definition set_mevs (m : MembershipService) (e : EvState) : MembershipService :=
  mkMembership (membersB m) (claimsB m) (mcache m) (hooks m) e.
Definition set_claims (m : MembershipService) (b : option Bucket) : MembershipService :=
  mkMembership (membersB m) b (mcache m) (hooks m) (mevs m).

(** Strictly newer than the list in the store. *)
Definition newer_list (self : gostring) (e : EvState) (ev : Event) : option Event :=
  match QueryEvents e (mkFilter None (Some [self]) (Some [Access.KindMembershipList]) ∅ 0 0 1 [] [] []) with
  | Panic => None
  | Ok [prev] => Some (if CreatedAt ev <=? CreatedAt prev then with_CreatedAt ev (u64 (CreatedAt prev + 1)) else ev)
  | _ => Some ev
  end.

(** Sign and store, whatever the store then says. *)
Definition sign_and_store (s : Session) (e : EvState) (ev : Event) : option EvState :=
  match Sign ev (PrivKey s) with
  | (ev, Ok _) => match InsertEvents e [ev] with Ok (e', _) => Some e' | Err _ => Some e | Panic => None end
  | (_, Err _) => Some e
  | (_, Panic) => None
  end.

Definition publishMembershipList (now : Z) (s : Session) (m : MembershipService) : option MembershipService :=
  if bool_decide (PrivKey s = []) || bool_decide (selfPubkey s = []) then Some m else
  match ListMemberRecords (membersB m) with
  | Panic => None
  | Err _ => Some m
  | Ok records =>
      ev ← newer_list (selfPubkey s) (mevs m)
             (Access.NewMembershipList now (selfPubkey s) (map (fun r => Access.mkMember (mrPubkey r) (mrRoles r)) records));
      e ← sign_and_store s (mevs m) ev;
      Some (set_mevs m e)
  end.

(** Join and Leave up to their last hook. *)
Definition enroll (now : Z) (m : MembershipService) (pubkey : gostring) (roles : list gostring) : outcome StoreErr MembershipService :=
  b ← PutMember (membersB m) (mkMemberRecord pubkey roles now);
  Ok (mkMembership b (claimsB m) (member_add (mcache m) pubkey) (hooks m ++ [onAdd pubkey]) (mevs m)).

Definition withdraw (m : MembershipService) (pubkey : gostring) : MembershipService :=
  mkMembership (store_RemoveMember (membersB m) pubkey) (claimsB m) (member_remove (mcache m) pubkey)
    (hooks m ++ [onRemove pubkey]) (mevs m).

Definition Join (now : Z) (s : Session) (m : MembershipService) (pubkey : gostring) (roles : list gostring)
    : option (outcome StoreErr MembershipService) :=
  match enroll now m pubkey roles with
  | Ok m => m ← publishMembershipList now s m; Some (Ok m)
  | Err e => Some (Err e)
  | Panic => None
  end.

Definition Leave (now : Z) (s : Session) (m : MembershipService) (pubkey : gostring) : option MembershipService :=
  publishMembershipList now s (withdraw m pubkey).

Definition defaultMembershipInviteTTL : Z := 24 * 3600 * 10 ^ 9.

(** [nowNs] and [ttl] in nanoseconds; [code] is NewClaim's. *)
Definition IssueInvite (nowNs : Z) (code : gostring) (m : MembershipService) (ttl maxUses : Z) (roles : list gostring)
    : outcome StoreErr (MembershipService * InviteClaim) :=
  let ttl := if ttl <=? 0 then defaultMembershipInviteTTL else ttl in
  let rec := mkClaim code (nowNs / 10 ^ 9) ((nowNs + ttl) / 10 ^ 9) maxUses 0 roles in
  b ← PutInviteClaim (claimsB m) rec;
  Ok (mkMembership (membersB m) b (mcache m) (hooks m) (mevs m), rec).

(** The loop over a published list; members stored before an error stay. *)
Fixpoint put_members (now : Z) (b : option Bucket) (l : list Access.Member) : option Bucket * option StoreErr :=
  match l with
  | [] => (b, None)
  | mem :: l =>
      match PutMember b (mkMemberRecord (Access.memPubkey mem) (Access.memRoles mem) now) with
      | Ok b => put_members now b l
      | Err e => (b, Some e)
      | Panic => (b, None)
      end
  end.

Inductive ReplaceErr := ReplaceParse (e : Access.AccessErr) | ReplaceStore (e : StoreErr).

Definition ReplaceFromEvent (now : Z) (m : MembershipService) (ev : Event) : MembershipService * option ReplaceErr :=
  match Access.ParseMembershipList ev with
  | Ok l =>
      let '(b, err) := put_members now (membersB m) l in
      match err with
      | Some e => (mkMembership b (claimsB m) (mcache m) (hooks m) (mevs m), Some (ReplaceStore e))
      | None =>
          let pubkeys := map Access.memPubkey l in
          let before := cache_pubkeys (mcache m) in
          let c := member_replace pubkeys in
          let removed := List.filter (fun pk => negb (cache_IsMember c pk)) before in
          (mkMembership b (claimsB m) c (hooks m ++ map onRemove removed ++ map onAdd pubkeys) (mevs m), None)
      end
  | Err e => (m, Some (ReplaceParse e))
  | Panic => (m, None)
  end.

(** publishSelfSigned over the event store alone. *)
Definition publish_self (s : Session) (e : EvState) (ev : Event) : option EvState :=
  if bool_decide (PrivKey s = []) then Some e else sign_and_store s e ev.

Record AccessConfig := mkAccessConfig { MembershipPublishAddRemove : bool; relayURL : gostring }.

Definition publish_user (cfg : AccessConfig) (s : Session) (m : MembershipService) (ev : Event) : option MembershipService :=
  if MembershipPublishAddRemove cfg then e ← publish_self s (mevs m) ev; Some (set_mevs m e) else Some m.

Definition handleJoin (now : Z) (cfg : AccessConfig) (s : Session) (ev : Event) (m : MembershipService) : option (MembershipService * AccessReply) :=
  let refuse m msg := Some (m, mkReply (ID ev) false (AText msg)) in
  match Access.ParseJoinRequest ev with
  | Panic => None
  | Err e => Some (m, mkReply (ID ev) false (ARefusal e))
  | Ok claim =>
      if MIsMember m (PubKey ev) then Some (m, mkReply (ID ev) true (AText (bs "duplicate: you are already a member of this relay.")))
      else match ConsumeInviteClaim (claimsB m) claim now with
           | Panic => None
           | Err ErrInviteClaimExpired => refuse m (bs "restricted: that invite code is expired.")
           | Err (ClaimStore _) => refuse m (bs "error: could not validate invite code")
           | Err _ => refuse m (bs "restricted: that is an invalid invite code.")
           | Ok (b, c) =>
               let m := set_claims m b in
               match Join now s m (PubKey ev) (icRoles c) with
               | None | Some Panic => None
               | Some (Err _) => refuse m (bs "error: could not store membership")
               | Some (Ok m) =>
                   m ← publish_user cfg s m (Access.NewAddUser now (selfPubkey s) (PubKey ev));
                   Some (m, mkReply (ID ev) true (AText (bs "info: welcome to " ++ relayURL cfg ++ bs "!")))
               end
           end
  end.

Definition handleLeave (now : Z) (cfg : AccessConfig) (s : Session) (ev : Event) (m : MembershipService) : option (MembershipService * AccessReply) :=
  match Access.ParseLeaveRequest ev with
  | Panic => None
  | Err e => Some (m, mkReply (ID ev) false (ARefusal e))
  | Ok _ =>
      if negb (MIsMember m (PubKey ev)) then Some (m, mkReply (ID ev) true (AText (bs "duplicate: you are not a member of this relay.")))
      else m ← Leave now s m (PubKey ev);
           m ← publish_user cfg s m (Access.NewRemoveUser now (selfPubkey s) (PubKey ev));
           Some (m, mkReply (ID ev) true (AText (bs "info: you have left this relay.")))
  end.

(** [None] for a relay without NIP-43; the two kinds are all it is called with. *)
Definition MemberHandle (now : Z) (cfg : AccessConfig) (s : Session) (ev : Event) (m : option MembershipService)
    : option (option MembershipService * option AccessReply) :=
  match m with
  | None => Some (None, Some (mkReply (ID ev) false (AText (bs "restricted: NIP-43 membership is not enabled on this relay"))))
  | Some m =>
      if Kind ev =? Access.KindJoinRequest then r ← handleJoin now cfg s ev m; Some (Some r.1, Some r.2)
      else if Kind ev =? Access.KindLeaveRequest then r ← handleLeave now cfg s ev m; Some (Some r.1, Some r.2)
      else Some (Some m, None)
  end.

(** ** Checks of the events *)

Definition unit_of {A} (r : outcome Access.AccessErr A) : outcome Access.AccessErr unit := _ ← r; Ok tt.

Definition validateNip43Structure (ev : Event) : outcome Access.AccessErr unit :=
  if Kind ev =? Access.KindRoleDefinition then unit_of (Access.ParseRole ev)
  else if Kind ev =? Access.KindMembershipList then unit_of (Access.ParseMembershipList ev)
  else if Kind ev =? Access.KindAddUser then unit_of (Access.ParseAddUser ev)
  else if Kind ev =? Access.KindRemoveUser then unit_of (Access.ParseRemoveUser ev)
  else if Kind ev =? Access.KindInviteRequest then unit_of (Access.ParseInviteResponse ev)
  else Ok tt.

Definition validateNip43RequestStructure (now : Z) (ev : Event) : outcome Access.AccessErr unit :=
  if Kind ev =? Access.KindJoinRequest then
    _ ← Access.ParseJoinRequest ev; Access.ValidateFreshness (CreatedAt ev) now Access.DefaultRequestFreshnessWindow
  else if Kind ev =? Access.KindLeaveRequest then
    _ ← Access.ParseLeaveRequest ev; Access.ValidateFreshness (CreatedAt ev) now Access.DefaultRequestFreshnessWindow
  else Ok tt.

(** The message is the refusal. *)
Definition CheckSelfAuthored (ev : Event) (self : gostring) (extra : list Z) : option gostring :=
  if negb (Access.IsRelayAuthoredKind (Kind ev)) && negb (existsb (fun k => k =? Kind ev) extra) then None
  else if bool_decide (self = []) || negb (bool_decide (PubKey ev = self))
  then Some (bs "restricted: this event kind may only be published by the relay itself") else None.

End Service.
