(* ===== verification/MembershipProps.v ===== *)
(** * relay: what membership promises

    The cache and the bucket agree in every reachable state of a relay whose
    members use the canonical spelling of their keys; an invite admits no more
    than its uses; who is a member after a request; and where a published list
    or another spelling of a key parts the two. *)

From S2P Require Import Prelude GoLib Bolt Sha256 NostrUtils Pow Event Filter StoreDb StoreScan Nip29 GroupStore Groups GroupsInv Nip43 Membership.

Section Inv.
Context {GoLower0 : GoLower} {Schnorr0 : Schnorr} {Bolt0 : Bolt} {MemberJSON0 : MemberJSON} {EventDB0 : EventDB}.

(** The lower-case spelling of a key. *)
Definition canonical (s : gostring) : Prop := exists k, length k = 32%nat /\ s = Hex.encode k.

(** The bucket holds canonical keys, and the cache those of the bucket. *)
Record member_inv (m : MembershipService) : Prop := {
  mi_canon : forall s, is_Some (bucket_kv (membersB m) !! s) -> canonical s;
  mi_cache : forall k, k ∈ mcache m <-> length k = 32%nat /\ is_Some (bucket_kv (membersB m) !! Hex.encode k);
}.

Lemma decode_canonical k : length k = 32%nat -> decodePubkey (Hex.encode k) = Some k.
Proof.
  intros Hk. unfold decodePubkey. assert (HL : zlen (Hex.encode k) = 64).
  { unfold zlen. rewrite Hex.length_encode. lia. }
  rewrite HL. cbn. apply Hex.decode_encode.
Qed.

Lemma encode_inj a b : Hex.encode a = Hex.encode b -> a = b.
Proof. intros HE. pose proof (Hex.decode_encode a) as H. rewrite HE, Hex.decode_encode in H. by injection H. Qed.

Context (BL : BoltLaws).
#[local] Set Default Proof Using "BL".

Lemma put_json_kv (b b' : option Bucket) k v : put_json b k v = Ok b' -> bucket_kv b' = <[k := v]> (bucket_kv b).
Proof.
  unfold put_json. destruct (Put _ _ _) as [b1|] eqn:E; [|done]. intros [= <-]. apply (Put_Some BL) in E as (_ & E & _).
  cbn. rewrite E. destruct b; [done|]. cbn. by destruct (kv_empty BL) as [-> _].
Qed.

Lemma remove_kv (b : option Bucket) k : bucket_kv (store_RemoveMember b k) = base.delete k (bucket_kv b).
Proof. destruct b as [b|]; cbn; [by destruct (Delete_kv BL b k)|by rewrite delete_empty]. Qed.

Lemma join_inv now m pk roles m' :
  member_inv m -> canonical pk -> enroll now m pk roles = Ok m' ->
  member_inv m' /\ MIsMember m' pk = true /\ bucket_kv (membersB m') = <[pk := MarshalMember (mkMemberRecord pk roles now)]> (bucket_kv (membersB m)) /\
  claimsB m' = claimsB m.
Proof.
  intros [H1 H2] (k & Hk & ->). unfold enroll. destruct (PutMember _ _) as [b|?|] eqn:E; [|done..]. intros [= <-].
  apply put_json_kv in E. cbn [mrPubkey] in E. unfold MIsMember, cache_IsMember, member_add. cbn [membersB mcache claimsB]. rewrite !decode_canonical by done. split_and!.
  - split; cbn [membersB mcache].
    + intros s. rewrite E. destruct (decide (s = Hex.encode k)) as [->|Hne]; [by exists k|]. rewrite lookup_insert_ne by done. apply H1.
    + intros k'. rewrite E, elem_of_union, elem_of_singleton, H2. destruct (decide (k' = k)) as [->|Hne].
      * rewrite lookup_insert_eq. split; [by eauto|tauto].
      * rewrite lookup_insert_ne by (intros ?%encode_inj; by subst). split; [intros [?|?]; [done|done]|by right].
  - apply bool_decide_eq_true. set_solver.
  - exact E.
  - done.
Qed.

Lemma leave_inv m pk : member_inv m -> canonical pk -> member_inv (withdraw m pk) /\ MIsMember (withdraw m pk) pk = false.
Proof.
  intros [H1 H2] (k & Hk & ->). unfold withdraw, MIsMember, cache_IsMember, member_remove. cbn [membersB mcache]. rewrite !decode_canonical by done. split.
  - split; cbn [membersB mcache].
    + intros s. rewrite remove_kv. intros [v Hv]. apply lookup_delete_Some in Hv as [_ Hv]. by apply H1; exists v.
    + intros k'. rewrite remove_kv, elem_of_difference, elem_of_singleton, H2. destruct (decide (k' = k)) as [->|Hne].
      * rewrite lookup_delete_eq. split; [tauto|]. by intros [_ [? ?]].
      * rewrite lookup_delete_ne by (intros ?%encode_inj; by subst). tauto.
  - apply bool_decide_eq_false. set_solver.
Qed.

Lemma claims_inv m b : member_inv m -> member_inv (set_claims m b).
Proof using Type. clear BL. intros [H1 H2]. by split. Qed.
Lemma evs_inv m e : member_inv m -> member_inv (set_mevs m e).
Proof using Type. clear BL. intros [H1 H2]. by split. Qed.

Lemma publish_user_keeps cfg s m ev m' : publish_user cfg s m ev = Some m' -> m' = set_mevs m (mevs m').
Proof using Type. clear BL.
  unfold publish_user. destruct (MembershipPublishAddRemove cfg); [|intros [= <-]; by destruct m].
  destruct (publish_self s (mevs m) ev) as [e|]; [|done]. by intros [= <-].
Qed.

Lemma publishMembershipList_keeps now s m m' : publishMembershipList now s m = Some m' -> m' = set_mevs m (mevs m').
Proof using Type. clear BL.
  unfold publishMembershipList. destruct (_ || _); [intros [= <-]; by destruct m|].
  destruct (ListMemberRecords _); [|intros [= <-]; by destruct m|done]. destruct (newer_list _ _ _) as [ev|]; [|done]. cbn.
  destruct (sign_and_store _ _ _) as [e|]; [|done]. by intros [= <-].
Qed.

(** What a request does to the members. *)
Lemma handleJoin_cases now cfg s ev m m' r : handleJoin now cfg s ev m = Some (m', r) ->
  aEventID r = ID ev /\
  ((membersB m' = membersB m /\ mcache m' = mcache m /\ hooks m' = hooks m /\ (MIsMember m (PubKey ev) = true \/ aAccepted r = false)) \/
   (MIsMember m (PubKey ev) = false /\ aAccepted r = true /\
    exists claim b c m1, Access.ParseJoinRequest ev = Ok claim /\ ConsumeInviteClaim (claimsB m) claim now = Ok (b, c) /\
      enroll now (set_claims m b) (PubKey ev) (icRoles c) = Ok m1 /\ m' = set_mevs m1 (mevs m'))).
Proof using Type. clear BL.
  unfold handleJoin. destruct (Access.ParseJoinRequest ev) as [claim|e|]; [|intros [= <- <-]; (split; [done|]; left; split_and!; auto)|done].
  destruct (MIsMember m (PubKey ev)) eqn:EM; [intros [= <- <-]; (split; [done|]; left; split_and!; auto)|].
  destruct (ConsumeInviteClaim (claimsB m) claim now) as [[b c]|e|] eqn:EC; [| |done].
  - unfold Join. destruct (enroll now (set_claims m b) (PubKey ev) (icRoles c)) as [m1|?|] eqn:EJ; [|intros [= <- <-]; (split; [done|]; left; split_and!; auto)|done].
    destruct (publishMembershipList now s m1) as [m2|] eqn:EL; [|done]. cbn [mbind option_bind]. apply publishMembershipList_keeps in EL.
    destruct (publish_user cfg s m2 _) as [m3|] eqn:EP; [|done]. cbn. intros [= <- <-]. apply publish_user_keeps in EP.
    split; [done|]. right. split_and!; try done. exists claim, b, c, m1. split_and!; try done. by rewrite EP, EL.
  - destruct e; intros [= <- <-]; (split; [done|]; left; split_and!; auto).
Qed.

Lemma handleLeave_cases now cfg s ev m m' r : handleLeave now cfg s ev m = Some (m', r) ->
  aEventID r = ID ev /\
  (m' = m \/ (MIsMember m (PubKey ev) = true /\ aAccepted r = true /\ m' = set_mevs (withdraw m (PubKey ev)) (mevs m'))).
Proof using Type. clear BL.
  unfold handleLeave. destruct (Access.ParseLeaveRequest ev) as [?|e|]; [|intros [= <- <-]; auto|done].
  destruct (MIsMember m (PubKey ev)) eqn:EM; cbn [negb]; [|intros [= <- <-]; auto].
  unfold Leave. destruct (publishMembershipList now s _) as [m1|] eqn:EL; [|done]. cbn [mbind option_bind]. apply publishMembershipList_keeps in EL.
  destruct (publish_user cfg s _ _) as [m2|] eqn:EP; [|done]. cbn. intros [= <- <-]. apply publish_user_keeps in EP.
  split; [done|]. right. split_and!; try done. by rewrite EP, EL.
Qed.

(** ** Reachable states *)

(** A new process over the same database. *)
Definition member_reopen (m : MembershipService) : MembershipService :=
  MemberLoad (mkMembership (membersB m) (claimsB m) ∅ [] (mevs m)).

Inductive member_reach : MembershipService -> Prop :=
  | mr_new e : member_reach (NewMembershipService None None e)
  | mr_event m m' now cfg s ev r : member_reach m -> canonical (PubKey ev) ->
      MemberHandle now cfg s ev (Some m) = Some (Some m', r) -> member_reach m'
  | mr_issue m m' nowNs code ttl uses roles c : member_reach m -> IssueInvite nowNs code m ttl uses roles = Ok (m', c) -> member_reach m'
  | mr_revoke m code : member_reach m -> member_reach (set_claims m (DeleteInviteClaim (claimsB m) code))
  | mr_store m e : member_reach m -> member_reach (set_mevs m e)
  | mr_restart m : member_reach m -> member_reach (member_reopen m).

Lemma reopen_cache m : member_inv m -> mcache (member_reopen m) = mcache m.
Proof.
  intros [H1 H2]. unfold member_reopen, MemberLoad, member_replace. cbn [mcache membersB].
  assert (HL : forall s, s ∈ ListMembers (membersB m) <-> is_Some (bucket_kv (membersB m) !! s)).
  { intros s. unfold ListMembers. destruct (membersB m) as [b|]; cbn [bucket_kv].
    - destruct (ascend_spec BL b []) as [Ha _]. rewrite list_elem_of_fmap. split.
      + intros ([k v] & -> & Hin). apply Ha in Hin as [Hv _]. by exists v.
      + intros [v Hv]. exists (s, v). split; [done|]. apply Ha. split; [done|]. by destruct s.
    - rewrite lookup_empty. split; [by intros ?%elem_of_nil|by intros [? ?]]. }
  apply set_eq. intros k. rewrite elem_of_list_to_set, list_elem_of_omap, H2. split.
  - intros (s & Hs & Hd). apply HL in Hs. destruct (H1 s Hs) as (k' & Hk' & ->). rewrite decode_canonical in Hd by done. by injection Hd as ->.
  - intros [Hk Hs]. exists (Hex.encode k). split; [by apply HL|by apply decode_canonical].
Qed.

Lemma member_reach_inv m : member_reach m -> member_inv m.
Proof.
  induction 1 as [e|m m' now cfg s ev r _ IH HC E|m m' nowNs code ttl uses roles c _ IH E|m code _ IH|m e _ IH|m _ IH].
  - split; cbn; [intros s; by rewrite lookup_empty; intros [? ?]|]. intros k. rewrite lookup_empty. split; [set_solver|by intros [_ [? ?]]].
  - unfold MemberHandle in E. destruct (Kind ev =? Access.KindJoinRequest).
    { destruct (handleJoin now cfg s ev m) as [[m1 r1]|] eqn:EJ; [|done]. cbn in E. injection E as <- _.
      apply handleJoin_cases in EJ as [_ [(E1 & E2 & _ & _)|(_ & _ & claim & b & c & m2 & _ & _ & EJ & ->)]].
      - destruct IH as [H1 H2]. split; rewrite E1; [done|]. intros k. rewrite E2. apply H2.
      - apply evs_inv. apply join_inv in EJ as [? _]; [done|by apply claims_inv|done]. }
    destruct (Kind ev =? Access.KindLeaveRequest); [|by injection E as <- _].
    destruct (handleLeave now cfg s ev m) as [[m1 r1]|] eqn:EL; [|done]. cbn in E. injection E as <- _.
    apply handleLeave_cases in EL as [_ [->|(_ & _ & ->)]]; [done|]. apply evs_inv. by apply leave_inv.
  - unfold IssueInvite in E. destruct (PutInviteClaim _ _) as [b|?|]; [|done..]. injection E as <- _. by apply (claims_inv m b).
  - by apply claims_inv.
  - by apply evs_inv.
  - pose proof (reopen_cache m IH) as HR. destruct IH as [H1 H2]. split; [done|]. intros k. rewrite HR. apply H2.
Qed.

(** ** Invites *)

Definition with_uses (c : InviteClaim) (u : Z) : InviteClaim :=
  mkClaim (icCode c) (icCreatedAt c) (icExpiresAt c) (MaxUses c) u (icRoles c).

(** The outcomes of presenting a code again and again, at these times. *)
Fixpoint attempts (b : option Bucket) (code : gostring) (nows : list Z) : list bool :=
  match nows with
  | [] => []
  | now :: nows =>
      match ConsumeInviteClaim b code now with
      | Ok (b', _) => true :: attempts b' code nows
      | _ => false :: attempts b code nows
      end
  end.

Definition admitted (l : list bool) : Z := zlen (List.filter (fun x => x) l).

(** The claim is stored, with [u] of its uses spent. *)
Definition spent (b : option Bucket) (code : gostring) (c : InviteClaim) (u : Z) : Prop :=
  bucket_kv b !! code = Some (MarshalClaim (with_uses c u)).

Lemma consume_spent b code c u now :
  spent b code c u -> claim_stable (with_uses c u) -> 0 <= u < 2 ^ 63 - 1 ->
  ConsumeInviteClaim b code now =
    if (0 <? icExpiresAt c) && (icExpiresAt c <? now) then Err ErrInviteClaimExpired
    else if (0 <? MaxUses c) && (MaxUses c <=? u) then Err ErrInviteClaimExhausted
    else match Put (ensure_bucket b) code (MarshalClaim (with_uses c (u + 1))) with
         | None => Err (ClaimStore ErrBoltPut)
         | Some b => Ok (Some b, with_uses c (u + 1))
         end.
Proof.
  intros Hb Hs Hu. unfold spent in Hb. destruct b as [b|]; cbn [bucket_kv] in Hb; [|by rewrite lookup_empty in Hb].
  unfold ConsumeInviteClaim, ensure_bucket. cbn [from_option]. unfold Datatypes.id. rewrite (Get_kv BL), Hb, Hs. cbn [icExpiresAt MaxUses Uses with_uses].
  assert (HU : used_once (with_uses c u) = with_uses c (u + 1)).
  { unfold used_once, with_uses. cbn. f_equal. unfold Access.as_int64, u64. rewrite Z.mod_small by lia. by rewrite (proj2 (Z.ltb_lt _ _)) by lia. }
  by rewrite HU.
Qed.

Lemma consume_next b code c u now b' c' :
  spent b code c u -> claim_stable (with_uses c u) -> 0 <= u < 2 ^ 63 - 1 ->
  ConsumeInviteClaim b code now = Ok (b', c') -> spent b' code c (u + 1) /\ (0 < MaxUses c -> u < MaxUses c).
Proof.
  intros Hb Hs Hu HE. rewrite (consume_spent b code c u now Hb Hs Hu) in HE. destruct ((0 <? icExpiresAt c) && _); [done|].
  destruct ((0 <? MaxUses c) && (MaxUses c <=? u)) eqn:EX; [done|]. destruct (Put _ _ _) as [b1|] eqn:EP; [|done]. injection HE as <- <-.
  apply (Put_Some BL) in EP as (_ & EP & _). split.
  - unfold spent. cbn [bucket_kv]. by rewrite EP, lookup_insert_eq.
  - intros HM. apply andb_false_iff in EX as [EX|EX]; [apply Z.ltb_ge in EX; lia|]. by apply Z.leb_gt in EX.
Qed.

Lemma admitted_cons x l : admitted (x :: l) = (if x then 1 else 0) + admitted l.
Proof. unfold admitted. destruct x; cbn [List.filter]; rewrite ?zlen_cons; lia. Qed.

Lemma attempts_bound nows b code c u :
  spent b code c u -> (forall u, 0 <= u <= MaxUses c -> claim_stable (with_uses c u)) -> 0 <= u <= MaxUses c -> 0 < MaxUses c < 2 ^ 63 - 1 ->
  0 <= admitted (attempts b code nows) <= MaxUses c - u.
Proof.
  revert b u. induction nows as [|now nows IH]; intros b u Hb Hs Hu HM; [change (admitted (attempts b code [])) with 0; lia|]. cbn [attempts].
  destruct (ConsumeInviteClaim b code now) as [[b' c']|e|] eqn:E.
  - destruct (consume_next b code c u now b' c' Hb (Hs u Hu) ltac:(lia) E) as [Hb' Hlt]. specialize (Hlt ltac:(lia)).
    rewrite admitted_cons. specialize (IH b' (u + 1) Hb' Hs ltac:(lia) HM). lia.
  - rewrite admitted_cons. specialize (IH b u Hb Hs Hu HM). lia.
  - rewrite admitted_cons. specialize (IH b u Hb Hs Hu HM). lia.
Qed.

(** With room in the database and no deadline passed, every use is granted. *)
Lemma attempts_exact nows b code c u :
  spent b code c u -> (forall u, 0 <= u <= MaxUses c -> claim_stable (with_uses c u)) -> 0 <= u <= MaxUses c -> 0 < MaxUses c < 2 ^ 63 - 1 ->
  (forall u, 0 <= u <= MaxUses c -> put_ok code (MarshalClaim (with_uses c u)) = true) -> (forall now, now ∈ nows -> icExpiresAt c <= 0 \/ now <= icExpiresAt c) ->
  admitted (attempts b code nows) = Z.min (zlen nows) (MaxUses c - u).
Proof.
  revert b u. induction nows as [|now nows IH]; intros b u Hb Hs Hu HM HP HN; [change (admitted (attempts b code [])) with 0; change (zlen (@nil Z)) with 0; lia|]. cbn [attempts]. rewrite zlen_cons.
  pose proof (zlen_nonneg nows) as HZ. assert (HN' : forall n, n ∈ nows -> icExpiresAt c <= 0 \/ n <= icExpiresAt c) by (intros n Hn; apply HN; by right).
  pose proof (consume_spent b code c u now Hb (Hs u Hu) ltac:(lia)) as HC.
  assert (HX : (0 <? icExpiresAt c) && (icExpiresAt c <? now) = false).
  { apply andb_false_iff. destruct (HN now ltac:(by left)); [left; by apply Z.ltb_ge|right; by apply Z.ltb_ge]. }
  rewrite HX, (proj2 (Z.ltb_lt _ _)) in HC by lia. cbn [andb] in HC. destruct (Z.leb_spec (MaxUses c) u) as [Hge|Hlt].
  - rewrite HC, admitted_cons, (IH b u Hb Hs Hu HM HP HN'). lia.
  - destruct (Put_total BL (ensure_bucket b) code _ (HP (u + 1) ltac:(lia))) as [b1 EP]. rewrite EP in HC. rewrite HC, admitted_cons.
    destruct (consume_next b code c u now _ _ Hb (Hs u Hu) ltac:(lia) HC) as [Hb' _]. rewrite (IH _ (u + 1) Hb' Hs ltac:(lia) HM HP HN'). lia.
Qed.

(** ** Lists and spellings *)

Lemma put_members_keeps now l b s : is_Some (bucket_kv b !! s) -> is_Some (bucket_kv (put_members now b l).1 !! s).
Proof.
  revert b. induction l as [|mem l IH]; intros b Hs; [done|]. cbn [put_members]. destruct (PutMember _ _) as [b'|?|] eqn:E; [|done..].
  apply IH. apply put_json_kv in E. rewrite E. destruct (decide (s = mrPubkey (mkMemberRecord (Access.memPubkey mem) (Access.memRoles mem) now))) as [->|Hne].
  - by rewrite lookup_insert_eq.
  - by rewrite lookup_insert_ne.
Qed.

(** A record in the bucket makes a member of the next process. *)
Lemma reopen_member m s k : is_Some (bucket_kv (membersB m) !! s) -> decodePubkey s = Some k -> k ∈ mcache (member_reopen m).
Proof.
  intros Hs Hd. unfold member_reopen, MemberLoad, member_replace. cbn [mcache membersB]. rewrite elem_of_list_to_set, list_elem_of_omap.
  exists s. split; [|done]. unfold ListMembers. destruct (membersB m) as [b|]; cbn [bucket_kv] in Hs; [|rewrite lookup_empty in Hs; by destruct Hs].
  destruct (ascend_spec BL b []) as [Ha _]. destruct Hs as [v Hv]. apply list_elem_of_fmap. exists (s, v). split; [done|]. apply Ha.
  split; [done|]. by destruct s.
Qed.

(** ** The theorems *)

Lemma size_encode (X : gset (list byte)) : size (set_map (D := gset gostring) Hex.encode X) = size X.
Proof using Type.
  clear BL. induction X as [|x X Hx IH] using set_ind_L; [by rewrite set_map_empty|].
  rewrite set_map_union_L, set_map_singleton_L, !size_union, !size_singleton, IH; [done|set_solver|].
  intros s ->%elem_of_singleton (y & E & Hy)%elem_of_map. apply encode_inj in E. by subst.
Qed.

(** In every reachable state, requests, invites, revocations and restarts in any
    order, the cached answer for a key is whether the bucket holds a record under
    it, and a restart answers the same for every text. *)
Theorem membership_reachable_inv m :
  member_reach m ->
  (forall k, length k = 32%nat -> MIsMember m (Hex.encode k) = true <-> is_Some (bucket_kv (membersB m) !! Hex.encode k)) /\
  MemberCount m = Z.of_nat (size (bucket_kv (membersB m))) /\
  (forall s, MIsMember (member_reopen m) s = MIsMember m s).
Proof.
  intros Hr. pose proof (member_reach_inv m Hr) as HI. split_and!.
  - intros k Hk. unfold MIsMember, cache_IsMember. rewrite decode_canonical by done. rewrite bool_decide_eq_true, (mi_cache m HI). tauto.
  - unfold MemberCount. rewrite <- (size_dom (D := gset gostring)). f_equal.
    assert (HD : dom (bucket_kv (membersB m)) = set_map (D := gset gostring) Hex.encode (mcache m)).
    { apply set_eq. intros s. rewrite elem_of_dom, elem_of_map. split.
      - intros Hs. destruct (mi_canon m HI s Hs) as (k & Hk & ->). exists k. split; [done|]. by apply (mi_cache m HI).
      - intros (k & -> & Hk). by apply (mi_cache m HI) in Hk as [_ Hk]. }
    by rewrite HD, size_encode.
  - intros s. unfold MIsMember, cache_IsMember. by rewrite (reopen_cache m HI).
Qed.

(** What a claim is worth at a time. *)
Definition claim_live (c : InviteClaim) (now : Z) : Prop :=
  (0 < icExpiresAt c -> now <= icExpiresAt c) /\ (0 < MaxUses c -> Uses c < MaxUses c).

Lemma consume_live b code now b' c' :
  ConsumeInviteClaim b code now = Ok (b', c') ->
  exists c, GetInviteClaim b code = Ok (Some c) /\ claim_live c now /\ c' = used_once c /\
    bucket_kv b' = <[code := MarshalClaim c']> (bucket_kv b).
Proof.
  unfold ConsumeInviteClaim, GetInviteClaim, get_json, ensure_bucket. destruct b as [b|]; cbn [from_option].
  2:{ rewrite (Get_kv BL). destruct (kv_empty BL) as [-> _]. by rewrite lookup_empty. }
  unfold Datatypes.id. destruct (Get b code) as [data|]; [|done]. destruct (UnmarshalClaim data) as [c|]; [|done].
  destruct (_ && _) eqn:E1; [done|]. destruct ((0 <? MaxUses c) && _) eqn:E2; [done|]. destruct (Put _ _ _) as [b1|] eqn:EP; [|done]. intros [= <- <-].
  exists c. apply (Put_Some BL) in EP as (_ & EP & _). split_and!; try done. split; intros Hp.
  - apply Z.ltb_lt in Hp. rewrite Hp in E1. by apply Z.ltb_ge in E1.
  - apply Z.ltb_lt in Hp. rewrite Hp in E2. by apply Z.leb_gt in E2.
Qed.

(** A key becomes a member only by a join request of its own naming a stored claim
    that is within its time and has uses left: the request is accepted, the claim
    loses one use, the record carries the claim's roles and the time, and nobody
    else's membership changes.  Any other request leaves the members as they were,
    and is refused unless the sender already was one. *)
Theorem join_admits now cfg s ev m m' r :
  member_reach m -> canonical (PubKey ev) -> handleJoin now cfg s ev m = Some (m', r) ->
  aEventID r = ID ev /\ (forall k, decodePubkey k <> decodePubkey (PubKey ev) -> MIsMember m' k = MIsMember m k) /\
  (MIsMember m (PubKey ev) = true -> membersB m' = membersB m) /\
  (MIsMember m (PubKey ev) = false -> aAccepted r = MIsMember m' (PubKey ev) /\
    (MIsMember m' (PubKey ev) = true -> exists code c,
       Access.ParseJoinRequest ev = Ok code /\ GetInviteClaim (claimsB m) code = Ok (Some c) /\ claim_live c now /\
       bucket_kv (claimsB m') = <[code := MarshalClaim (used_once c)]> (bucket_kv (claimsB m)) /\
       bucket_kv (membersB m') = <[PubKey ev := MarshalMember (mkMemberRecord (PubKey ev) (icRoles c) now)]> (bucket_kv (membersB m)))).
Proof.
  intros Hr HC HJ. pose proof (member_reach_inv m Hr) as HI. apply handleJoin_cases in HJ as [HID HJ]. split; [done|].
  destruct HJ as [(E1 & E2 & _ & E3)|(EM & HA & code & b & c & m1 & EP & EC & EJ & ->)].
  - split_and!; try done.
    + intros k _. unfold MIsMember. by rewrite E2.
    + intros EM. unfold MIsMember in *. rewrite E2, EM. destruct E3 as [E3|E3]; [congruence|]. by split.
  - apply consume_live in EC as (c0 & HG & HL & -> & HB). pose proof EJ as EK.
    apply join_inv in EJ as (_ & HM & HK & HQ); [|by apply claims_inv|done]. split_and!.
    + intros k Hk. unfold enroll in EK. destruct (PutMember _ _); [|done..]. injection EK as <-. unfold MIsMember, cache_IsMember, member_add.
      cbn [set_mevs set_claims mcache]. destruct HC as (kk & Hkk & HC). rewrite HC, decode_canonical in Hk |- * by done.
      destruct (decodePubkey k) as [k'|]; [|done]. apply bool_decide_ext. set_solver.
    + intros ?; congruence.
    + intros _. change (MIsMember (set_mevs m1 _) (PubKey ev)) with (MIsMember m1 (PubKey ev)). rewrite HM. split; [done|]. intros _.
      exists code, c0. split_and!; try done. cbn [set_mevs claimsB]. by rewrite HQ.
Qed.

(** C30: However often a code with a limit is presented, and whenever, it admits no more
    than the uses it has left; while its time lasts and the database has room,
    exactly those. *)
Theorem invite_uses_exact nows b code c u :
  spent b code c u -> (forall u, 0 <= u <= MaxUses c -> claim_stable (with_uses c u)) -> 0 <= u <= MaxUses c -> 0 < MaxUses c < 2 ^ 63 - 1 ->
  0 <= admitted (attempts b code nows) <= MaxUses c - u /\
  ((forall u, 0 <= u <= MaxUses c -> put_ok code (MarshalClaim (with_uses c u)) = true) -> (forall now, now ∈ nows -> icExpiresAt c <= 0 \/ now <= icExpiresAt c) ->
   admitted (attempts b code nows) = Z.min (zlen nows) (MaxUses c - u)).
Proof. intros Hb Hs Hu HM. split; [by apply attempts_bound|]. intros HP HN. by apply attempts_exact. Qed.

(** A published list takes effect in the cache alone: who is stored and not on it
    stops being a member, and is one again after a restart. *)
Theorem delisted_member_returns now m ev m' l k :
  Access.ParseMembershipList ev = Ok l -> ReplaceFromEvent now m ev = (m', None) ->
  length k = 32%nat -> is_Some (bucket_kv (membersB m) !! Hex.encode k) -> k ∉ member_replace (map Access.memPubkey l) ->
  MIsMember m' (Hex.encode k) = false /\ MIsMember (member_reopen m') (Hex.encode k) = true.
Proof.
  intros HP HR Hk Hs Hn. unfold ReplaceFromEvent in HR. rewrite HP in HR. destruct (put_members now (membersB m) l) as [b err] eqn:EB.
  destruct err as [e|]; [done|]. injection HR as <-. unfold MIsMember, cache_IsMember. rewrite decode_canonical by done. split.
  - by apply bool_decide_eq_false.
  - apply bool_decide_eq_true, (reopen_member _ (Hex.encode k)); [|by apply decode_canonical]. cbn [membersB].
    pose proof (put_members_keeps now l (membersB m) (Hex.encode k) Hs) as HK. by rewrite EB in HK.
Qed.

End Inv.
