(* ===== verification/RelaySession.v ===== *)
(** * relay: one connection

    [relay/session.go]: the identities a connection has authenticated, what a
    membership change does to them, and [relay/packet.go]'s AUTH, CLOSE and the
    gates of a read; [relay/subscription.go]'s table of open subscriptions and the
    part of [relay/handlers.go]'s openSubscription that changes it.  A connection
    holds what was replied on it, in order.  The clock is an argument, in seconds;
    [None] is a run-time panic. *)

From S2P Require Import Prelude GoLib Bolt Sha256 NegCodec NegReconcile NostrUtils Pow Event Filter StoreDb StoreScan Nip29 GroupStore Groups GroupsView Nip43 AgentAuth Membership.

(** ** Replies *)

Inductive MessageErr :=
  | MEvent (e : EventErr) | MAuthEvent (e : AuthErr) | MAttest (e : AttestErr) | MStale | MAccess (e : Access.AccessErr)
  | MGroup (e : GroupErr) | MStore (e : StoreErr) | MNeg (e : NegErr) | MValidator (s : gostring).

(** A text, or a prefix and the text of an error. *)
Inductive RMessage := Says (s : gostring) | Because (prefix : gostring) (e : MessageErr).

Inductive Reply :=
  | ROk (eventID : gostring) (accepted : bool) (msg : RMessage)
  | RNotice (msg : RMessage)
  | RClosed (sub : gostring) (msg : RMessage)
  | REvent (sub : gostring) (bytes : gostring)
  | REose (sub : gostring)
  | RCount (sub : gostring) (count : Z) (approx : bool)
  | RNegMsg (sub : gostring) (hex : gostring)
  | RNegErr (sub : gostring) (code : RMessage).

(** ** Identities *)

Inductive MembershipStatus := MembershipNone | MembershipActive | MembershipVirtual.
#[global] Instance MembershipStatus_eq_dec : EqDecision MembershipStatus.
Proof. solve_decision. Defined.

Record AuthedIdentity := mkIdentity {
  iPubkey : gostring; iStatus : MembershipStatus; iOwner : gostring; iConditions : option Conditions;
}.

(** The zero value, and an identity without an owner. *)
Definition noIdentity : AuthedIdentity := mkIdentity [] MembershipNone [] None.
Definition plain_identity (pk : gostring) (st : MembershipStatus) : AuthedIdentity := mkIdentity pk st [] None.

Record Conn := mkConn {
  primary : AuthedIdentity; extra : list AuthedIdentity; challenge : gostring;
  subscriptions : gmap gostring (list SubscriptionFilter); negentropySessions : gmap gostring Negentropy; replies : list Reply;
}.

(** A connection that was sent this challenge. *)
Definition NewConn (ch : gostring) : Conn := mkConn noIdentity [] ch ∅ ∅ [].

Definition set_ids (c : Conn) (p : AuthedIdentity) (e : list AuthedIdentity) : Conn :=
  mkConn p e (challenge c) (subscriptions c) (negentropySessions c) (replies c).
Definition set_subs (c : Conn) (m : gmap gostring (list SubscriptionFilter)) : Conn :=
  mkConn (primary c) (extra c) (challenge c) m (negentropySessions c) (replies c).
Definition set_negs (c : Conn) (m : gmap gostring Negentropy) : Conn :=
  mkConn (primary c) (extra c) (challenge c) (subscriptions c) m (replies c).
Definition reply (c : Conn) (r : Reply) : Conn :=
  mkConn (primary c) (extra c) (challenge c) (subscriptions c) (negentropySessions c) (replies c ++ [r]).

Definition AuthedPubkey (c : Conn) : gostring := iPubkey (primary c).
Definition authed (c : Conn) : bool := negb (bool_decide (AuthedPubkey c = [])).

Fixpoint put_extra (l : list AuthedIdentity) (i : AuthedIdentity) : list AuthedIdentity :=
  match l with
  | [] => [i]
  | x :: l => if bool_decide (iPubkey x = iPubkey i) then i :: l else x :: put_extra l i
  end.

Definition addIdentity (c : Conn) (i : AuthedIdentity) : Conn :=
  if bool_decide (iPubkey (primary c) = []) || bool_decide (iPubkey (primary c) = iPubkey i)
  then set_ids c i (extra c) else set_ids c (primary c) (put_extra (extra c) i).

Definition holds_membership (i : AuthedIdentity) : bool := negb (bool_decide (iStatus i = MembershipNone)).
Definition HasMembership (c : Conn) : bool := holds_membership (primary c) || existsb holds_membership (extra c).

(** An identity of this key with one status gets another. *)
Definition moved (from : MembershipStatus) (pubkey : gostring) (i : AuthedIdentity) : bool :=
  bool_decide (iPubkey i = pubkey) && bool_decide (iStatus i = from).
Definition move (from to : MembershipStatus) (pubkey : gostring) (i : AuthedIdentity) : AuthedIdentity :=
  if moved from pubkey i then mkIdentity (iPubkey i) to (iOwner i) (iConditions i) else i.
Definition move_all (from to : MembershipStatus) (pubkey : gostring) (c : Conn) : Conn * bool :=
  (set_ids c (move from to pubkey (primary c)) (map (move from to pubkey) (extra c)),
   moved from pubkey (primary c) || existsb (moved from pubkey) (extra c)).

Definition grantActiveMembership (pubkey : gostring) : Conn -> Conn * bool := move_all MembershipNone MembershipActive pubkey.
Definition revokeActiveMembership (pubkey : gostring) : Conn -> Conn * bool := move_all MembershipActive MembershipNone pubkey.

Definition IdentityMembership (c : Conn) (pubkey : gostring) : option AuthedIdentity :=
  if bool_decide (iPubkey (primary c) = pubkey) then Some (primary c)
  else List.find (fun i => bool_decide (iPubkey i = pubkey)) (extra c).

Definition HasOwnerIdentity (c : Conn) (owner : gostring) : bool :=
  existsb (fun i => bool_decide (iStatus i = MembershipVirtual) && bool_decide (iOwner i = owner)) (primary c :: extra c).

Definition Identities (c : Conn) : list AuthedIdentity :=
  if bool_decide (iPubkey (primary c) = []) then [] else primary c :: extra c.
Definition conn_readerPubkeys (c : Conn) : list gostring := map iPubkey (Identities c).

(** ** The relay's settings *)

Record SessionCfg := mkSessionCfg {
  AuthRequired : bool; MembershipRequired : bool; StrictPow : bool; MinPowDifficulty : Z; MaxSubscriptions : Z;
  AgentAuthEnabled : bool; AgentKindEnforcement : bool; AgentAuthFreshnessWindow : Z;
  RelayAuthoredKinds : list Z; RecipientOnlyKinds : list Z; PresenceQueryKind : Z;
  sRelayURL : gostring; sSelf : gostring; sPrivKey : gostring;
}.

(** ** Open subscriptions *)

Definition defaultMaxSubscriptions : Z := 355.
Definition maxSubscription (cfg : SessionCfg) : Z := if MaxSubscriptions cfg =? 0 then defaultMaxSubscriptions else MaxSubscriptions cfg.

Definition subs_Add (cfg : SessionCfg) (m : gmap gostring (list SubscriptionFilter)) (id : gostring) (fs : list SubscriptionFilter)
    : option (gmap gostring (list SubscriptionFilter)) :=
  if maxSubscription cfg <=? Z.of_nat (base.size m) then None else Some (<[id := fs]> m).
Definition subs_Close (m : gmap gostring (list SubscriptionFilter)) (id : gostring) : gmap gostring (list SubscriptionFilter) := base.delete id m.
(** In the order of the map. *)
Definition StopAllIDs (m : gmap gostring (list SubscriptionFilter)) : list gostring := (map_to_list m).*1.

Definition processClose (c : Conn) (sub : gostring) : Conn :=
  reply (set_subs c (subs_Close (subscriptions c) sub)) (RClosed sub (Says (bs "closed"))).

(** ** AUTH *)

Section Session.
Context {GoLower0 : GoLower} {Schnorr0 : Schnorr} {Bolt0 : Bolt} {MemberJSON0 : MemberJSON} {GroupJSON0 : GroupJSON} {EventDB0 : EventDB}.

Definition acceptAuth (c : Conn) (ev : Event) : Conn := reply c (ROk (ID ev) true (Says (bs "auth-success"))).
Definition rejectAuth (c : Conn) (ev : Event) (msg : RMessage) : Conn := reply c (ROk (ID ev) false msg).

Definition agent_window (cfg : SessionCfg) : Z :=
  if AgentAuthFreshnessWindow cfg <=? 0 then DefaultFreshnessWindow else AgentAuthFreshnessWindow cfg.

(** From step 2 on: the event is the key's own, for this connection. *)
Definition auth_identity (cfg : SessionCfg) (m : MembershipService) (c : Conn) (ev : Event) : option Conn :=
  if MIsMember m (PubKey ev) then Some (acceptAuth (addIdentity c (plain_identity (PubKey ev) MembershipActive)) ev)
  else if negb (AgentAuthEnabled cfg) then Some (acceptAuth (addIdentity c (plain_identity (PubKey ev) MembershipNone)) ev)
  else match EvaluateCredential (PubKey ev) (Tags ev) (CreatedAt ev) with
       | Panic => None
       | Err e => Some (rejectAuth c ev (Because (bs "restricted: ") (MAttest e)))
       | Ok None => Some (rejectAuth c ev (Says (bs "restricted: not a member")))
       | Ok (Some cred) =>
           if negb (MIsMember m (OwnerPubkey cred)) then Some (rejectAuth c ev (Says (bs "restricted: owner is not a member")))
           else Some (acceptAuth (addIdentity c (mkIdentity (PubKey ev) MembershipVirtual (OwnerPubkey cred) (Some (tConditions cred)))) ev)
       end.

Definition processAuth (now : Z) (cfg : SessionCfg) (m : MembershipService) (c : Conn) (ev : Event) : option Conn :=
  if bool_decide (challenge c = []) then Some (reply c (RNotice (Says (bs "auth: no challenge sent")))) else
  match ValidateAuthEvent now (Kind ev) (Tags ev) (CreatedAt ev) (challenge c) (sRelayURL cfg) with
  | Panic => None
  | Err e => Some (rejectAuth c ev (Because (bs "auth-error: ") (MAuthEvent e)))
  | Ok _ =>
      match Verify [] ev with
      | Panic => None
      | Err _ => Some (rejectAuth c ev (Says (bs "auth-error: invalid signature")))
      | Ok _ =>
          if AgentAuthEnabled cfg && negb (AgentFreshness (CreatedAt ev) now (agent_window cfg))
          then Some (rejectAuth c ev (Because (bs "auth-error: ") MStale))
          else auth_identity cfg m c ev
      end
  end.

(** ** The gates of a read *)

Definition groupRefusal (c : Conn) (groupID : gostring) : gostring :=
  (if authed c then bs "restricted: valid membership in group " else bs "auth-required: valid membership in group ") ++ groupID ++ bs " is required".

(** The refusal, if any. *)
Definition readGate (cfg : SessionCfg) (c : Conn) : option gostring :=
  if AuthRequired cfg && negb (authed c) then Some (bs "auth-required: valid NIP-42 authentication required")
  else if MembershipRequired cfg && negb (HasMembership c) then
    if negb (authed c) then Some (bs "auth-required: valid NIP-43 membership required")
    else Some (bs "restricted: valid NIP-43 membership required")
  else None.

Definition refuse_read (c : Conn) (sub : gostring) (msg : RMessage) : Conn := reply (reply c (RNotice msg)) (RClosed sub msg).

(** The kinds, as %v prints them. *)
Fixpoint spaced (l : list gostring) : gostring :=
  match l with
  | [] => []
  | [s] => s
  | s :: l => s ++ bs " " ++ spaced l
  end.
Definition recipientOnlyRefusal (kinds : list Z) : gostring :=
  bs "auth-required: kinds [" ++ spaced (map Dec.itoa kinds) ++ bs "] are served only to their recipient".
Definition refusesRecipientOnlyRead (cfg : SessionCfg) (c : Conn) (fs : list SubscriptionFilter) : bool :=
  negb (authed c) && namesRecipientOnlyKind (RecipientOnlyKinds cfg) fs.

(** What a REQ and a COUNT pass before their filters are read. *)
Definition read_refusal (cfg : SessionCfg) (g : GroupsService) (c : Conn) (fs : list SubscriptionFilter) : option gostring :=
  match readGate cfg c with
  | Some msg => Some msg
  | None =>
      match deniedPrivateGroupFilter g (conn_readerPubkeys c) fs with
      | Some groupID => Some (groupRefusal c groupID)
      | None => if refusesRecipientOnlyRead cfg c fs then Some (recipientOnlyRefusal (RecipientOnlyKinds cfg)) else None
      end
  end.

(** The table's part of openSubscription: [query] is what NewStoreQuery said. *)
Definition open_new (cfg : SessionCfg) (c : Conn) (sub : gostring) (fs : list SubscriptionFilter) (query : outcome StoreErr unit) : option Conn :=
  match query with
  | Panic => None
  | Err e => Some (reply c (RClosed sub (Because (bs "error: failed to create query: ") (MStore e))))
  | Ok _ =>
      match subs_Add cfg (subscriptions c) sub fs with
      | None => Some (reply (reply c (RNotice (Says (bs "too many concurrent subscriptions")))) (RClosed sub (Says [])))
      | Some m => Some (set_subs c m)
      end
  end.

Definition openSubscription (cfg : SessionCfg) (c : Conn) (sub : gostring) (fs : list SubscriptionFilter) (query : outcome StoreErr unit) : option Conn :=
  match subscriptions c !! sub with
  | Some fs' => if GroupEquals fs' fs then Some c else open_new cfg (set_subs c (subs_Close (subscriptions c) sub)) sub fs query
  | None => open_new cfg c sub fs query
  end.

(** A REQ that only the standard handler takes. *)
Definition processRequest (cfg : SessionCfg) (g : GroupsService) (c : Conn) (sub : gostring) (fs : list SubscriptionFilter)
    (query : outcome StoreErr unit) : option Conn :=
  match read_refusal cfg g c fs with
  | Some msg => Some (refuse_read c sub (Says msg))
  | None => openSubscription cfg c sub fs query
  end.

(** What the delivery loop withholds, of what was stored and of what arrives. *)
Definition deniedRecipientOnlyPotentialEvent `{!EventJSON} (kinds : list Z) (s : list gostring) (pe : PotentialEvent) : bool :=
  match kinds with
  | [] => false
  | _ => match UnmarshalEvent (Bytes pe) with None => true | Some ev => deniedRecipientOnlyEvent kinds s ev end
  end.

Definition withheld `{!EventJSON} (cfg : SessionCfg) (g : GroupsService) (s : list gostring) (fs : list SubscriptionFilter) (pe : PotentialEvent) : bool :=
  deniedPrivateGroupPotentialEvent g s pe ||
  (mayMatchRecipientOnlyKind (RecipientOnlyKinds cfg) fs && deniedRecipientOnlyPotentialEvent (RecipientOnlyKinds cfg) s pe).

Definition deliver `{!EventJSON} (cfg : SessionCfg) (g : GroupsService) (c : Conn) (sub : gostring) (fs : list SubscriptionFilter) (pe : PotentialEvent) : Conn :=
  if withheld cfg g (conn_readerPubkeys c) fs pe then c else reply c (REvent sub (Bytes pe)).

(** Of a handler that ranks its own results. *)
Definition SendEvents `{!EventJSON} (cfg : SessionCfg) (g : GroupsService) (c : Conn) (sub : gostring) (events : list Event) : Conn :=
  foldl (fun c ev => if deniedPrivateGroupEvent g (conn_readerPubkeys c) ev || deniedRecipientOnlyEvent (RecipientOnlyKinds cfg) (conn_readerPubkeys c) ev
                     then c else reply c (REvent sub (MarshalEvent ev)))
    (set_subs c (subs_Close (subscriptions c) sub)) events.

End Session.
