(* ===== verification/RelayPacket.v ===== *)
(** * relay: publishing

    [relay/packet.go]: what an EVENT passes before it is stored or handed to the
    membership and group services, and its one OK; [relay/handler_events.go]: the
    same over HTTP; [relay/presence.go]'s record of statuses; and the handler that
    owns the connections ([relay/session.go]): a membership change reaches them
    all.  The registered validators and the embedder's policy are arguments. *)

From S2P Require Import Prelude GoLib Bolt Sha256 NegCodec NegReconcile NostrUtils Pow Event Filter StoreDb StoreScan Nip29 GroupStore Groups GroupsView Nip43 AgentAuth Membership RelaySession.

(** ** Validators *)

(** A refusal, with the prefix a RejectError gives it. *)
Record Rejection := mkRejection { rejPrefix : gostring; rejText : gostring }.

Definition rejectMessage (e : Rejection) : gostring :=
  (if bool_decide (rejPrefix e = []) then bs "invalid" else rejPrefix e) ++ bs ": " ++ rejText e.

Definition Validators : Type := Z -> list (Event -> option Rejection).

(** The first refusal. *)
Fixpoint first_refusal (l : list (Event -> option Rejection)) (ev : Event) : option Rejection :=
  match l with
  | [] => None
  | v :: l => match v ev with Some e => Some e | None => first_refusal l ev end
  end.
Definition RegisterEventValidator (vs : Validators) (kind : Z) (v : Event -> option Rejection) : Validators :=
  fun k => if k =? kind then vs k ++ [v] else vs k.
Definition runEventValidators (vs : Validators) (ev : Event) : option Rejection := first_refusal (vs (Kind ev)) ev.

(** Accepts by the empty text. *)
Definition EventPolicy : Type := Event -> gostring.

Inductive Verdict := VRefuse (msg : RMessage) | VMembership | VGroups | VStore.
#[local] Notation refusal s := (VRefuse (Says (bs s))).

Section Publish.
Context {GoLower0 : GoLower} {Schnorr0 : Schnorr} {Bolt0 : Bolt} {MemberJSON0 : MemberJSON} {GroupJSON0 : GroupJSON} {EventDB0 : EventDB}.

Definition verifyOpts (cfg : SessionCfg) : list VerifyOption :=
  (if StrictPow cfg then [] else [WithoutPowCheck]) ++
  (if StrictPow cfg && (0 <? MinPowDifficulty cfg) then [WithMinPowDifficulty (MinPowDifficulty cfg)] else []).

(** An event refused by Verify. *)
Definition verify_refusal (e : EventErr) : RMessage :=
  match e with
  | EvInsufficientPow _ _ => Because [] (MEvent e)
  | _ => Because (bs "invalid: ") (MEvent e)
  end.

(** The kinds an agent's credential does not allow. *)
Definition kind_refused (cfg : SessionCfg) (c : Conn) (ev : Event) : bool :=
  AgentAuthEnabled cfg && AgentKindEnforcement cfg &&
  match IdentityMembership c (PubKey ev) with
  | Some i => bool_decide (iStatus i = MembershipVirtual) &&
              match iConditions i with Some cond => negb (EvaluateKind cond (Kind ev)) | None => false end
  | None => false
  end.

(** Everything up to the dispatch. *)
Definition admits (cfg : SessionCfg) (vs : Validators) (policy : EventPolicy) (c : Conn) (ev : Event) : outcome RMessage unit :=
  _ ← (if AuthRequired cfg && negb (authed c) then Err (Says (bs "auth-required: valid NIP-42 authentication required")) else Ok tt);
  _ ← (if kind_refused cfg c ev then Err (Says (bs "restricted: kind not authorized by credential")) else Ok tt);
  _ ← match CheckSelfAuthored ev (sSelf cfg) (RelayAuthoredKinds cfg) with Some msg => Err (Says msg) | None => Ok tt end;
  _ ← match Validate ev with Ok _ => Ok tt | Err e => Err (Because (bs "invalid: ") (MEvent e)) | Panic => Panic end;
  _ ← match Verify (verifyOpts cfg) ev with Ok _ => Ok tt | Err e => Err (verify_refusal e) | Panic => Panic end;
  _ ← match runEventValidators vs ev with Some e => Err (Says (rejectMessage e)) | None => Ok tt end;
  _ ← (if bool_decide (policy ev = []) then Ok tt else Err (Says (policy ev)));
  if IsProtected (Tags ev) then
    match IdentityMembership c (PubKey ev) with
    | Some _ => Ok tt
    | None => Err (Says (if authed c then bs "restricted: a protected event may only be published by its author"
                         else bs "auth-required: this event is protected and its author must authenticate first"))
    end
  else Ok tt.

(** What is left for content. *)
Definition content_verdict (cfg : SessionCfg) (g : GroupsService) (c : Conn) (ev : Event) : Verdict :=
  match deniedGroupWrite g ev with
  | Some groupID => VRefuse (Says (bs "restricted: only members may post in group " ++ groupID))
  | None =>
      if MembershipRequired cfg && negb (Access.IsRelayAuthoredKind (Kind ev)) then
        match IdentityMembership c (PubKey ev) with
        | None => refusal "auth-required: valid NIP-43 membership required"
        | Some i => if holds_membership i then VStore else refusal "restricted: valid NIP-43 membership required"
        end
      else VStore
  end.

Definition event_verdict (cfg : SessionCfg) (vs : Validators) (policy : EventPolicy) (g : GroupsService) (c : Conn) (ev : Event) : option Verdict :=
  match admits cfg vs policy c ev with
  | Panic => None
  | Err msg => Some (VRefuse msg)
  | Ok _ =>
      Some (if (Kind ev =? Access.KindJoinRequest) || (Kind ev =? Access.KindLeaveRequest) then VMembership
            else if IsModerationKind (Kind ev) || IsUserRequestKind (Kind ev) then VGroups
            else content_verdict cfg g c ev)
  end.

(** ** The handler *)

(** The event store is the group service's; the membership service is given it
    for each call. *)
Record Relay := mkRelay {
  conns : gmap Z Conn; rmembers : MembershipService; rgroups : GroupsService; presence : gmap gostring gostring;
}.

Definition set_conns (r : Relay) (m : gmap Z Conn) : Relay := mkRelay m (rmembers r) (rgroups r) (presence r).
Definition set_groups (r : Relay) (g : GroupsService) : Relay := mkRelay (conns r) (rmembers r) g (presence r).
Definition reply_to (r : Relay) (id : Z) (rep : Reply) : Relay := set_conns r (alter (fun c => reply c rep) id (conns r)).

(** The membership service over the store, its hooks not yet called. *)
Definition members_in (r : Relay) : MembershipService :=
  mkMembership (membersB (rmembers r)) (claimsB (rmembers r)) (mcache (rmembers r)) [] (evs (rgroups r)).

Definition revokeMembership (cfg : SessionCfg) (pubkey : gostring) (c : Conn) : Conn :=
  let '(c', changed) := revokeActiveMembership pubkey c in
  if negb changed || negb (MembershipRequired cfg) || HasMembership c' then c'
  else foldl (fun c id => reply c (RClosed id (Says (bs "restricted: NIP-43 membership revoked")))) (set_subs c' ∅) (StopAllIDs (subscriptions c')).

Definition grantMembership (pubkey : gostring) (c : Conn) : Conn := (grantActiveMembership pubkey c).1.

Definition call_hook (cfg : SessionCfg) (h : Hook) (c : Conn) : Conn :=
  match h with onAdd pk => grantMembership pk c | onRemove pk => revokeMembership cfg pk c end.
Definition call_hooks (cfg : SessionCfg) (hs : list Hook) (c : Conn) : Conn := foldl (fun c h => call_hook cfg h c) c hs.

(** What the membership service did, on every connection. *)
Definition members_out (cfg : SessionCfg) (r : Relay) (m : MembershipService) : Relay :=
  mkRelay (call_hooks cfg (hooks m) <$> conns r)
    (mkMembership (membersB m) (claimsB m) (mcache m) [] (mevs m)) (set_evs (rgroups r) (mevs m)) (presence r).

Definition session_of (cfg : SessionCfg) (c : Conn) : Session := mkSession (sSelf cfg) (sPrivKey cfg) (conn_readerPubkeys c).

Definition access_message (m : AccessMessage) : RMessage := match m with AText s => Says s | ARefusal e => Because (bs "restricted: ") (MAccess e) end.
Definition group_message (m : Message) : RMessage := match m with Text s => Says s | Refusal e => Because (bs "restricted: ") (MGroup e) end.

(** ** Presence *)

Definition KindPresence : Z := 20001.

Definition recordPresence (cfg : SessionCfg) (r : Relay) (c : Conn) (ev : Event) : Relay :=
  if (PresenceQueryKind cfg =? 0) || negb (Kind ev =? KindPresence) then r
  else match IdentityMembership c (PubKey ev) with
       | Some _ => mkRelay (conns r) (rmembers r) (rgroups r) (<[PubKey ev := Content ev]> (presence r))
       | None => r
       end.

Definition online (r : Relay) (pubkey : gostring) : bool :=
  existsb (fun x : Z * Conn => in_list pubkey (conn_readerPubkeys x.2)) (map_to_list (conns r)).

Definition PresenceStatus (r : Relay) (pubkey : gostring) : gostring :=
  if negb (online r pubkey) then bs "offline"
  else match presence r !! pubkey with
       | Some (_ :: _ as status) => status
       | _ => bs "online"
       end.

(** The connection [c] has just been dropped. *)
Definition forgetPresence (r : Relay) (c : Conn) : Relay :=
  mkRelay (conns r) (rmembers r) (rgroups r)
    (foldl (fun p pk => if online r pk then p else base.delete pk p) (presence r) (conn_readerPubkeys c)).

(** ** Storing, and the one OK *)

(** How the task ended: the store ran it, or it never got there. *)
Inductive TaskEnd := Ran | RateLimited | Unavailable.

Definition store_answer (e : option StoreErr) : bool * RMessage :=
  match e with
  | None => (true, Says [])
  | Some ErrEventDuplicated => (true, Because (bs "duplicate: ") (MStore ErrEventDuplicated))
  | Some _ => (false, Says (bs "error: could not store event"))
  end.

(** The store's answer to the task; it is stored when there is no error. *)
Definition run_task (e : EvState) (ev : Event) (t : TaskEnd) : option (EvState * (bool * RMessage) * bool) :=
  match t with
  | RateLimited => Some (e, (false, Says (bs "rate-limited: too many concurrent tasks")), false)
  | Unavailable => Some (e, (false, Says (bs "error: relay unavailable")), false)
  | Ran => match InsertEvents e [ev] with
           | Ok (e, err) => Some (e, store_answer err, negb (bool_decide (is_Some err)))
           | Err err => Some (e, store_answer (Some err), false)
           | Panic => None
           end
  end.

(** A published member list takes effect. *)
Definition resync (now : Z) (cfg : SessionCfg) (r : Relay) (ev : Event) : Relay :=
  if Kind ev =? Access.KindMembershipList then members_out cfg r (ReplaceFromEvent now (members_in r) ev).1 else r.

(** [late]: StoreReplyTimeout passed before the task ended. *)
Definition store_event (now : Z) (cfg : SessionCfg) (r : Relay) (id : Z) (ev : Event) (late : bool) (t : TaskEnd) : option Relay :=
  match run_task (evs (rgroups r)) ev t with
  | None => None
  | Some (e, (accepted, msg), stored) =>
      let r := set_groups r (set_evs (rgroups r) e) in
      let r := reply_to r id (if late then ROk (ID ev) false (Says (bs "error: relay busy, try again later")) else ROk (ID ev) accepted msg) in
      Some (if stored then resync now cfg r ev else r)
  end.

Definition processEvent (now : Z) (cfg : SessionCfg) (acfg : AccessConfig) (vs : Validators) (policy : EventPolicy)
    (r : Relay) (id : Z) (ev : Event) (late : bool) (t : TaskEnd) : option Relay :=
  match conns r !! id with
  | None => Some r
  | Some c =>
      v ← event_verdict cfg vs policy (rgroups r) c ev;
      match v with
      | VRefuse msg => Some (reply_to r id (ROk (ID ev) false msg))
      | VMembership =>
          x ← MemberHandle now acfg (session_of cfg c) ev (Some (members_in r));
          match x with
          | (Some m, Some rep) => Some (reply_to (members_out cfg r m) id (ROk (aEventID rep) (aAccepted rep) (access_message (aMessage rep))))
          | (Some m, None) => Some (members_out cfg r m)
          | (None, _) => Some r
          end
      | VGroups =>
          x ← HandleEvent now (session_of cfg c) ev (rgroups r);
          Some (reply_to (set_groups r x.1) id (ROk (rEventID x.2) (Accepted x.2) (group_message (rMessage x.2))))
      | VStore => store_event now cfg (recordPresence cfg r c ev) id ev late t
      end
  end.

End Publish.
