(* ===== verification/RelayNeg.v ===== *)
(** * relay: NEG-OPEN, NEG-MSG, NEG-CLOSE and COUNT over the event store

    [relay/store.go]'s queryNip77Items and CountEventsApprox, and
    [relay/packet.go]'s handlers of the packets that use them, over the event store
    of [StoreScan].  A handler's error ends the connection. *)

From S2P Require Import Prelude GoLib GoHeap Bolt Sha256 NegCodec NegReconcile NegOrder NegSession NostrUtils Pow Event Filter Latest StoreDb StoreInv StoreScan StoreMerge StoreExact StoreQuery StoreEvents StoreLife StoreCounters Nip29 GroupStore Groups GroupsView Nip43 AgentAuth Membership RelaySession.

(** Items in the order sort.Slice puts them: greatest first. *)
Definition item_ge (a b : Item) : Prop := 0 <= Compare a b.
#[global] Instance item_ge_dec : RelDecision item_ge.
Proof. intros a b. unfold item_ge. apply _. Defined.

Definition item_of (pe : PotentialEvent) : option Item :=
  match Hex.decode (EventID pe) with
  | Some id => if zlen id =? 32 then Some (mkItem (PCreatedAt pe) id) else None
  | None => None
  end.

Section Neg.
Context {Bolt0 : Bolt} {JSON0 : EventJSON} {Derived0 : Derived} {GoLower0 : GoLower} {GroupJSON0 : GroupJSON} (mit MaxLimit : Z).
#[local] Instance neg_db : EventDB := store_db mit MaxLimit.

Definition queryNip77Items (tx : Tx) (f : SubscriptionFilter) (skip : PotentialEvent -> bool) : outcome StoreErr (list Item) :=
  pes ← StoreScan.findEvents MaxLimit tx f;
  Ok (merge_sort item_ge (omap item_of (List.filter (fun pe => negb (skip pe)) pes))).

(** Run one round of the session, which keeps its state. *)
Definition answer_neg (c : Conn) (sub : gostring) (neg : Negentropy) (msg : gostring) : option Conn :=
  let c := set_negs c (<[sub := neg]> (negentropySessions c)) in
  match FromHex msg with
  | Panic => None
  | Err _ => Some (reply c (RNegErr sub (Says (bs "parse-error"))))
  | Ok theirMsg =>
      let '(neg, res) := Reconcile neg theirMsg in
      let c := set_negs c (<[sub := neg]> (negentropySessions c)) in
      match res with
      | Panic => None
      | Err e => Some (reply c (RNegErr sub (Because (bs "reconcile-error: ") (MNeg e))))
      | Ok (responseMsg, _, _) =>
          match ToHex responseMsg with
          | Panic => None
          | Ok respHex => Some (reply c (RNegMsg sub respHex))
          | Err _ => Some (reply c (RNegMsg sub []))
          end
      end
  end.

(** [Err]: the connection ends. *)
Definition processNegOpen (cfg : SessionCfg) (tx : Tx) (c : Conn) (sub : gostring) (f : SubscriptionFilter) (msg : gostring) : outcome StoreErr Conn :=
  if negb (authed c) && namesRecipientOnlyKind (RecipientOnlyKinds cfg) [f]
  then Ok (reply c (RNegErr sub (Says (recipientOnlyRefusal (RecipientOnlyKinds cfg)))))
  else
    let skip := if mayMatchRecipientOnlyKind (RecipientOnlyKinds cfg) [f]
                then deniedRecipientOnlyPotentialEvent (RecipientOnlyKinds cfg) (conn_readerPubkeys c) else fun _ => false in
    items ← queryNip77Items tx f skip;
    match answer_neg c sub (New (reverse items)) msg with Some c => Ok c | None => Panic end.

Definition processNegMsg (c : Conn) (sub : gostring) (msg : gostring) : option Conn :=
  match negentropySessions c !! sub with
  | None => Some (reply c (RNegErr sub (Says (bs "unknown-session"))))
  | Some neg => answer_neg c sub neg msg
  end.

Definition processNegClose (c : Conn) (sub : gostring) : Conn := set_negs c (base.delete sub (negentropySessions c)).

(** ** COUNT *)

(** Fetch, keeping the scanners. *)
Fixpoint fetch_capped (fuel : nat) (tx : Tx) (scanners : list storeScan) (sent : gset Z)
    : option (outcome StoreErr (list PotentialEvent * bool)) :=
  match scanners with
  | [] => Some (Ok ([], false))
  | s :: scanners =>
      match scan fuel (fun _ => tx) false s sent with
      | None => None
      | Some (Err e) => Some (Err e)
      | Some Panic => Some Panic
      | Some (Ok (out, s, sent)) =>
          match fetch_capped fuel tx scanners sent with
          | Some (Ok (out', cap)) => Some (Ok (out ++ out', capped s || cap))
          | r => r
          end
      end
  end.

Definition CountEventsApprox (tx : Tx) (fs : list SubscriptionFilter) (deny : PotentialEvent -> bool) : outcome StoreErr (Z * bool) :=
  q ← newStoreQuery MaxLimit tx fs;
  match fetch_capped (query_fuel tx q) tx q ∅ with
  | None => Err OutOfPasses
  | Some r => x ← r; Ok (zlen (List.filter (fun pe => negb (deny pe)) x.1), x.2)
  end.

(** The count of a read that passed its gates. *)
Definition count_visible (kinds : list Z) (g : GroupsService) (s : list gostring) (tx : Tx) (fs : list SubscriptionFilter) : outcome StoreErr (Z * bool) :=
  let checkGroups := needsPrivacyCheck g fs in
  let checkRecipient := mayMatchRecipientOnlyKind kinds fs in
  if checkGroups || checkRecipient then
    CountEventsApprox tx fs (fun pe => (checkGroups && deniedPrivateGroupPotentialEvent g s pe) ||
                                       (checkRecipient && deniedRecipientOnlyPotentialEvent kinds s pe))
  else match CountFromCounters tx fs with
       | Ok (Some n) => Ok (n, false)
       | Panic => Panic
       | _ => CountEventsApprox tx fs (fun _ => false)
       end.

Definition processCount (cfg : SessionCfg) (g : GroupsService) (c : Conn) (sub : gostring) (fs : list SubscriptionFilter) : option Conn :=
  match read_refusal cfg g c fs with
  | Some msg => Some (refuse_read c sub (Says msg))
  | None =>
      match count_visible (RecipientOnlyKinds cfg) g (conn_readerPubkeys c) (evs g) fs with
      | Panic => None
      | Err e => Some (refuse_read c sub (Because (bs "error: count failed: ") (MStore e)))
      | Ok (count, approx) => Some (reply c (RCount sub count approx))
      end
  end.

End Neg.

(** ** What NEG-OPEN reconciles *)

(** The item of a stored event. *)
Definition event_item (ev : Event) : Item := mkItem (CreatedAt ev) (key_bytes (ID ev)).

Lemma item_ge_total : Total item_ge.
Proof. intros a b. unfold item_ge. rewrite (Compare_antisym a b). lia. Qed.

Lemma item_ge_lt a b : item_ge a b <-> a = b \/ Compare b a = -1.
Proof.
  unfold item_ge. rewrite <- Compare_eq, (Compare_antisym a b). pose proof (Compare_values a b). lia.
Qed.

#[local] Instance item_ge_trans : Transitive item_ge.
Proof.
  intros a b c. rewrite !item_ge_lt. intros [->|H1] [->|H2]; auto. right. by eapply Compare_lt_trans.
Qed.

Lemma ssorted_lookup {A} (R : A -> A -> Prop) l i j a b :
  StronglySorted R l -> (i < j)%nat -> l !! i = Some a -> l !! j = Some b -> R a b.
Proof.
  intros Hs. revert i j. induction Hs as [|x l Hs IH HF]; intros i j Hij Ha Hb; [by rewrite lookup_nil in Ha|].
  destruct j as [|j]; [lia|]. destruct i as [|i]; cbn in Ha, Hb.
  - injection Ha as <-. rewrite Forall_forall in HF. apply HF. by apply list_elem_of_lookup_2 in Hb.
  - apply (IH i j); [lia|done|done].
Qed.

(** Greatest first without repeats is strictly ascending, reversed. *)
Lemma reverse_sorted l : NoDup l -> StronglySorted item_ge l -> sorted (reverse l).
Proof.
  intros Hnd Hs i j a b Hij Ha Hb. apply reverse_lookup_Some in Ha as [Ha Hla], Hb as [Hb Hlb].
  assert (HG : item_ge b a) by (apply (ssorted_lookup _ l (length l - S j) (length l - S i)); [done|lia|done|done]).
  apply item_ge_lt in HG as [->|HG]; [|done]. assert (length l - S j = length l - S i)%nat; [|lia].
  by eapply NoDup_lookup.
Qed.

Lemma sorted_ss l : sorted l -> StronglySorted (fun a b => Compare a b = -1) l.
Proof.
  induction l as [|x l IH]; intros Hs; constructor.
  - apply IH. intros i j a b Hij Ha Hb. by apply (Hs (S i) (S j)); [lia|..].
  - apply Forall_forall. intros y [j Hy]%list_elem_of_lookup_1. by apply (Hs 0%nat (S j)); [lia|..].
Qed.

Lemma sorted_nodup l : sorted l -> NoDup l.
Proof.
  intros Hs. apply NoDup_alt. intros i j x Hi Hj. destruct (Nat.lt_trichotomy i j) as [H|[H|H]]; [|done|];
    exfalso; [pose proof (Hs i j x x H Hi Hj) as HC|pose proof (Hs j i x x H Hj Hi) as HC]; by rewrite Compare_refl in HC.
Qed.

(** A set of items has one ascending list. *)
Lemma sorted_unique l1 l2 : sorted l1 -> sorted l2 -> (forall x, x ∈ l1 <-> x ∈ l2) -> l1 = l2.
Proof.
  intros H1 H2 HE. apply (StronglySorted_unique_strong (fun a b => Compare a b = -1)).
  - intros a b _ _ HA HB. rewrite (Compare_antisym a b), HA in HB. done.
  - by apply sorted_ss.
  - by apply sorted_ss.
  - apply NoDup_Permutation; [by apply sorted_nodup..|done].
Qed.

Section Exact.
Context {Bolt0 : Bolt} {JSON0 : EventJSON} {Derived0 : Derived} {GoLower0 : GoLower}.
Context (BL : BoltLaws) (mit MaxLimit : Z) (tx : Tx) (S : gmap Z Event).
Context (HR : represents mit tx S) (HU : ids_unique S) (HM : 0 < MaxLimit).
Context (Htimes : forall id ev, S !! id = Some ev -> 0 < CreatedAt ev < 2 ^ 64 - 1).
#[local] Set Default Proof Using "All".

(** The filter names full keys, and tag values that are indexed. *)
Definition answerable (f : SubscriptionFilter) : Prop :=
  Forall hex32_ok (elems (IDs f)) /\ Forall hex32_ok (elems (Authors f)) /\
  (forall id ev, S !! id = Some ev -> Match f ev = true -> tag_visible mit f ev).

Definition page (f : SubscriptionFilter) : list (Z * Event) :=
  take (Z.to_nat (clamp (Limit f) filterMinLimit MaxLimit)) (newest S (query_wants S f)).

Lemma page_stored f x : x ∈ page f -> S !! x.1 = Some x.2 /\ query_wants S f x.1 x.2 = true.
Proof using Type.
  intros Hx. destruct x as [id ev]. apply elem_of_take in Hx as (i & Hi & _). apply list_elem_of_lookup_2, newest_spec in Hi. done.
Qed.

Lemma item_of_stored id ev : S !! id = Some ev -> item_of (as_potential (id, ev)) = Some (event_item ev).
Proof.
  intros Hid. destruct (rep_ids mit tx S HR id ev Hid) as (_ & _ & (b & Hb & Hl) & _). unfold item_of, event_item, key_bytes. cbn [as_potential EventID PCreatedAt snd].
  rewrite Hb. cbn [default]. unfold zlen. by rewrite Hl.
Qed.

Lemma items_of_page (skip : PotentialEvent -> bool) l :
  (forall x, x ∈ l -> S !! x.1 = Some x.2) -> NoDup l.*1 ->
  omap item_of (List.filter (fun pe => negb (skip pe)) (map as_potential l)) =
  map (fun x => event_item x.2) (List.filter (fun x => negb (skip (as_potential x))) l) /\
  NoDup (map (fun x => event_item x.2) (List.filter (fun x => negb (skip (as_potential x))) l)).
Proof.
  induction l as [|[id ev] l IH]; intros Hl Hnd; [by split; [|constructor]|]. cbn [fmap list_fmap fst] in Hnd. apply NoDup_cons in Hnd as [Hn Hnd].
  destruct IH as [IH1 IH2]; [intros x Hx; apply Hl; by right|done|]. pose proof (Hl (id, ev) ltac:(by left)) as Hid. cbn in Hid.
  cbn [map List.filter]. destruct (skip (as_potential (id, ev))); cbn [negb]; [done|]. cbn [omap list_omap]. rewrite item_of_stored by done.
  cbn [map]. rewrite IH1. split; [done|]. apply NoDup_cons. split; [|done]. intros (x & HE & Hx)%list_elem_of_fmap.
  apply list_elem_of_In, filter_In in Hx as [Hx%list_elem_of_In _]. apply Hn. injection HE as _ HE. specialize (Hl x ltac:(by right)).
  rewrite (HU id x.1 ev x.2 Hid Hl HE). apply list_elem_of_fmap. by exists x.
Qed.

(** The list handed to nip77.New: ascending, and exactly the items of the page
    that are not withheld. *)
Lemma queryNip77Items_spec f skip : answerable f ->
  exists l, queryNip77Items MaxLimit tx f skip = Ok l /\ sorted (reverse l) /\
    (forall it, it ∈ l <-> exists x, x ∈ page f /\ skip (as_potential x) = false /\ it = event_item x.2) /\
    Forall item_ok (reverse l) /\ finite_items (reverse l) /\ NoDup (map NegCodec.ID (reverse l)).
Proof.
  intros (HI & HA & HT). unfold queryNip77Items. rewrite (findEvents_spec BL mit MaxLimit tx S HR HU HM Htimes f HI HA HT). cbn [mbind outcome_bind].
  fold (page f). assert (HP : forall x, x ∈ page f -> S !! x.1 = Some x.2) by (intros x Hx; by destruct (page_stored f x Hx)).
  assert (HN : NoDup (page f).*1).
  { destruct (newest_spec S (query_wants S f)) as (_ & HN & _). unfold page. rewrite fmap_take. apply (sublist_NoDup _ (newest S (query_wants S f)).*1); [done|]. apply sublist_take. }
  destruct (items_of_page skip (page f) HP HN) as [E1 E2]. eexists. split; [reflexivity|]. rewrite E1. clear E1.
  set (its := map _ _) in *. set (l := merge_sort item_ge its).
  assert (HPm : l ≡ₚ its) by apply merge_sort_Permutation.
  assert (Hin : forall it, it ∈ l <-> exists x, x ∈ page f /\ skip (as_potential x) = false /\ it = event_item x.2).
  { intros it. rewrite HPm. unfold its. rewrite list_elem_of_fmap. split.
    - intros (x & -> & Hx). apply list_elem_of_In, filter_In in Hx as [Hx%list_elem_of_In Hs]. exists x. split; [done|]. split; [by apply negb_true_iff|done].
    - intros (x & Hx & Hs & ->). exists x. split; [done|]. apply list_elem_of_In, filter_In. split; [by apply list_elem_of_In|]. by rewrite Hs. }
  assert (Hok : forall it, it ∈ reverse l -> item_ok it /\ Timestamp it < InfiniteTimestamp).
  { intros it. rewrite elem_of_reverse, Hin. intros (x & Hx & _ & ->). pose proof (HP x Hx) as Hid.
    destruct (rep_ids mit tx S HR _ _ Hid) as (_ & _ & (b & Hb & Hl) & _). pose proof (Htimes _ _ Hid). unfold item_ok, event_item, key_bytes, InfiniteTimestamp.
    cbn [Timestamp NegCodec.ID]. rewrite Hb. cbn [default]. unfold Datatypes.id. rewrite Hl. split; [split; [lia|done]|lia]. }
  split_and!.
  - apply reverse_sorted; [by rewrite HPm|]. apply StronglySorted_merge_sort; [apply _|apply item_ge_total].
  - done.
  - apply Forall_forall. intros it Hit. by apply Hok.
  - apply Forall_forall. intros it Hit. by apply Hok.
  - change (map NegCodec.ID (reverse l)) with (NegCodec.ID <$> reverse l). rewrite fmap_reverse, reverse_Permutation. change (NoDup (NegCodec.ID <$> l)). rewrite HPm. unfold its. change (map (fun x : Z * Event => event_item x.2)) with (fmap (M := list) (fun x : Z * Event => event_item x.2)).
    rewrite <- list_fmap_compose. apply NoDup_fmap_2_strong.
    + intros x y Hx Hy HE. apply list_elem_of_In, filter_In in Hx as [Hx%list_elem_of_In _], Hy as [Hy%list_elem_of_In _].
      pose proof (HP _ Hx) as Hi. pose proof (HP _ Hy) as Hj. pose proof (HU _ _ _ _ Hi Hj HE) as Hid. destruct x, y. cbn in *. congruence.
    + apply NoDup_ListNoDup, List.NoDup_filter. apply NoDup_ListNoDup. by eapply NoDup_fmap_1.
Qed.

End Exact.
