(* ===== verification/RelayLive.v ===== *)
(** * relay: memberships on live connections

    The status of an identity is read at AUTH and changed by the membership
    service's hooks alone; this file shows that they keep it true. *)

From S2P Require Import Prelude GoLib Bolt Sha256 NegCodec NegReconcile NostrUtils Pow Event Filter StoreDb StoreScan Nip29 GroupStore Groups GroupsInv GroupsAuth GroupsView Nip43 AgentAuth Membership MembershipProps RelaySession RelayPacket.

(** * relay: who a connection is

    AUTH gives a connection exactly the identities it proved; and in every
    reachable state of the relay the memberships held on its connections are those
    the membership service knows, joins, leaves and published lists included, so
    that no connection keeps a subscription it could no longer open. *)

(** ** Identities *)

Lemma find_put_extra l i pk :
  List.find (fun x => bool_decide (iPubkey x = pk)) (put_extra l i) =
  if bool_decide (pk = iPubkey i) then Some i else List.find (fun x => bool_decide (iPubkey x = pk)) l.
Proof.
  induction l as [|x l IH]; cbn [put_extra].
  - cbn [List.find]. by rewrite (bool_decide_ext (iPubkey i = pk) (pk = iPubkey i)) by done.
  - destruct (bool_decide_reflect (iPubkey x = iPubkey i)) as [E|E]; cbn [List.find].
    + rewrite E. rewrite (bool_decide_ext (iPubkey i = pk) (pk = iPubkey i)) by done. by destruct (bool_decide (pk = iPubkey i)).
    + rewrite IH. destruct (bool_decide_reflect (iPubkey x = pk)) as [<-|]; [|done]. by rewrite bool_decide_eq_false_2.
Qed.

(** Adding an identity sets its key's, and no other's. *)
Lemma IdentityMembership_add c i pk : pk <> [] ->
  IdentityMembership (addIdentity c i) pk = if bool_decide (pk = iPubkey i) then Some i else IdentityMembership c pk.
Proof.
  intros Hpk. unfold addIdentity, IdentityMembership.
  destruct (bool_decide_reflect (iPubkey (primary c) = [])) as [E1|E1]; cbn [orb].
  - cbn [set_ids primary extra]. rewrite (bool_decide_ext (iPubkey i = pk) (pk = iPubkey i)) by done.
    destruct (bool_decide (pk = iPubkey i)); [done|]. by rewrite E1, bool_decide_eq_false_2 by congruence.
  - destruct (bool_decide_reflect (iPubkey (primary c) = iPubkey i)) as [E2|E2]; cbn [set_ids primary extra].
    + rewrite E2, (bool_decide_ext (iPubkey i = pk) (pk = iPubkey i)) by done. by destruct (bool_decide (pk = iPubkey i)).
    + rewrite find_put_extra. destruct (bool_decide_reflect (iPubkey (primary c) = pk)) as [<-|]; [|done]. by rewrite bool_decide_eq_false_2.
Qed.

Lemma elem_of_put_extra l i x : x ∈ put_extra l i -> x = i \/ x ∈ l.
Proof.
  induction l as [|y l IH]; cbn [put_extra]; [by intros ?%list_elem_of_singleton; left|].
  destruct (bool_decide (iPubkey y = iPubkey i)); rewrite !elem_of_cons; [tauto|]. intros [->|H]; [tauto|]. destruct (IH H); tauto.
Qed.

Section Auth.
Context {GoLower0 : GoLower} {Schnorr0 : Schnorr} {Bolt0 : Bolt} {MemberJSON0 : MemberJSON} {GroupJSON0 : GroupJSON} {EventDB0 : EventDB}.

(** The event proves its key to this connection of this relay, now. *)
Record proves (now : Z) (cfg : SessionCfg) (c : Conn) (ev : Event) : Prop := {
  pv_challenge : challenge c <> [] /\ existsb (names_value (bs "challenge") (challenge c)) (Tags ev) = true;
  pv_relay : existsb (names_value (bs "relay") (sRelayURL cfg)) (Tags ev) = true;
  pv_kind : Kind ev = KindClientAuth;
  pv_time : u64 (u64 now - 600) <= CreatedAt ev <= u64 (u64 now + 600);
  pv_fresh : AgentAuthEnabled cfg = true -> AgentFreshness (CreatedAt ev) now (agent_window cfg) = true;
  pv_signed : Verify [] ev = Ok tt;
}.

(** What it is then entitled to: its own membership, or one derived from an owner
    who is a member and attests it under conditions that admit the event. *)
Inductive entitled (cfg : SessionCfg) (m : MembershipService) (ev : Event) : AuthedIdentity -> Prop :=
  | ent_member : MIsMember m (PubKey ev) = true -> entitled cfg m ev (plain_identity (PubKey ev) MembershipActive)
  | ent_plain : MIsMember m (PubKey ev) = false -> AgentAuthEnabled cfg = false -> entitled cfg m ev (plain_identity (PubKey ev) MembershipNone)
  | ent_agent t : MIsMember m (PubKey ev) = false -> AgentAuthEnabled cfg = true ->
      EvaluateCredential (PubKey ev) (Tags ev) (CreatedAt ev) = Ok (Some t) -> MIsMember m (OwnerPubkey t) = true ->
      entitled cfg m ev (mkIdentity (PubKey ev) MembershipVirtual (OwnerPubkey t) (Some (tConditions t))).

Lemma entitled_key cfg m ev i : entitled cfg m ev i -> iPubkey i = PubKey ev.
Proof. by destruct 1. Qed.

Lemma ValidateAuthEvent_iff now kind ts at_ ch url :
  ValidateAuthEvent now kind ts at_ ch url = Ok tt <->
  kind = KindClientAuth /\ u64 (u64 now - 600) <= at_ <= u64 (u64 now + 600) /\
  existsb (names_value (bs "relay") url) ts = true /\ existsb (names_value (bs "challenge") ch) ts = true.
Proof.
  unfold ValidateAuthEvent. destruct (Z.eqb_spec kind KindClientAuth) as [E|E]; cbn [negb]; [|split; [done|tauto]].
  destruct (_ || _) eqn:ET.
  - split; [done|]. intros (_ & HT & _). apply orb_true_iff in ET as [ET|ET]; apply Z.ltb_lt in ET; lia.
  - apply orb_false_iff in ET as [E1 E2]. apply Z.ltb_ge in E1, E2. destruct (existsb (names_value (bs "relay") url) ts); cbn [negb]; [|split; [done|by intros (_ & _ & ? & _)]].
    destruct (existsb (names_value (bs "challenge") ch) ts); cbn [negb]; (split; [done|]); [done|by intros (_ & _ & _ & ?)].
Qed.

(** An answer that grants nothing. *)
Definition refusal (ev : Event) (r : Reply) : Prop :=
  match r with ROk id accepted _ => id = ID ev /\ accepted = false | RNotice _ => True | _ => False end.

Lemma auth_identity_spec cfg m c ev c' : auth_identity cfg m c ev = Some c' ->
  (exists i, entitled cfg m ev i /\ c' = acceptAuth (addIdentity c i) ev) \/
  ((forall i, ~ entitled cfg m ev i) /\ exists r, refusal ev r /\ c' = reply c r).
Proof.
  unfold auth_identity. destruct (MIsMember m (PubKey ev)) eqn:EM.
  { intros [= <-]. left. eexists. split; [by apply ent_member|done]. }
  destruct (AgentAuthEnabled cfg) eqn:EA; cbn [negb].
  2:{ intros [= <-]. left. eexists. split; [by apply ent_plain|done]. }
  destruct (EvaluateCredential _ _ _) as [[t|]|e|] eqn:EC; [| | |done].
  - destruct (MIsMember m (OwnerPubkey t)) eqn:EO; cbn [negb]; intros [= <-].
    + left. eexists. split; [by apply (ent_agent cfg m ev t)|done].
    + right. split; [|eexists; split; [|reflexivity]; done]. intros i Hi; destruct Hi; simplify_eq/=; congruence.
  - intros [= <-]. right. split; [|eexists; split; [|reflexivity]; done]. intros i Hi; destruct Hi; simplify_eq/=; congruence.
  - intros [= <-]. right. split; [|eexists; split; [|reflexivity]; done]. intros i Hi; destruct Hi; simplify_eq/=; congruence.
Qed.

Lemma processAuth_spec now cfg m c ev c' : processAuth now cfg m c ev = Some c' ->
  (proves now cfg c ev /\ exists i, entitled cfg m ev i /\ c' = acceptAuth (addIdentity c i) ev) \/
  (~ (proves now cfg c ev /\ exists i, entitled cfg m ev i) /\ exists r, refusal ev r /\ c' = reply c r).
Proof.
  unfold processAuth. destruct (bool_decide_reflect (challenge c = [])) as [E|E].
  { intros [= <-]. right. split; [intros [HP _]; by destruct (pv_challenge _ _ _ _ HP)|]. eexists. split; [|reflexivity]. done. }
  destruct (ValidateAuthEvent _ _ _ _ _ _) as [[]|e|] eqn:EV; [| |done].
  2:{ intros [= <-]. right. split; [|eexists; split; [|reflexivity]; done]. intros [HP _]. assert (HX : ValidateAuthEvent now (Kind ev) (Tags ev) (CreatedAt ev) (challenge c) (sRelayURL cfg) = Ok tt).
      { apply ValidateAuthEvent_iff. destruct HP as [[_ ?] ? ? ? _ _]. done. } congruence. }
  apply ValidateAuthEvent_iff in EV as (H1 & H2 & H3 & H4). destruct (Verify [] ev) as [[]|e|] eqn:EF; [| |done].
  2:{ intros [= <-]. right. split; [|eexists; split; [|reflexivity]; done]. intros [HP _]. pose proof (pv_signed _ _ _ _ HP). congruence. }
  destruct (AgentAuthEnabled cfg && negb _) eqn:EA.
  { intros [= <-]. right. split; [|eexists; split; [|reflexivity]; done]. intros [HP _]. apply andb_true_iff in EA as [EA EB]. pose proof (pv_fresh _ _ _ _ HP EA) as HX. by rewrite HX in EB. }
  assert (HP : proves now cfg c ev).
  { split; try done. intros HA. rewrite HA in EA. by apply negb_false_iff in EA. }
  intros [(i & Hi & ->)|(Hno & r & Hr & ->)]%auth_identity_spec; [left; eauto|right]. split; [|eauto]. intros [_ [i Hi]]. by apply (Hno i).
Qed.

(** C23: An AUTH gives the connection the identity its key is entitled to when the
    event proves the key to this connection -- the challenge it was sent, this
    relay, a recent time, a valid signature -- and leaves its other identities as
    they were; any other AUTH changes nothing and is answered by a refusal. *)
Theorem auth_exact now cfg m c ev c' :
  processAuth now cfg m c ev = Some c' -> PubKey ev <> [] ->
  (proves now cfg c ev -> forall i, entitled cfg m ev i ->
     replies c' = replies c ++ [ROk (ID ev) true (Says (bs "auth-success"))] /\ subscriptions c' = subscriptions c /\
     forall pk, pk <> [] -> IdentityMembership c' pk = if bool_decide (pk = PubKey ev) then Some i else IdentityMembership c pk) /\
  (~ (proves now cfg c ev /\ exists i, entitled cfg m ev i) -> exists r, refusal ev r /\ c' = reply c r).
Proof.
  intros HA Hpk. apply processAuth_spec in HA as [(HP & i & Hi & ->)|(Hno & r & Hr & ->)].
  - split; [|intros Hno; exfalso; eauto]. intros _ i' Hi'. assert (i' = i) as ->.
    { destruct Hi', Hi; try congruence. }
    split_and!.
    + unfold acceptAuth, addIdentity. by destruct (_ || _).
    + unfold acceptAuth, addIdentity. by destruct (_ || _).
    + intros pk Hpk'. rewrite <- (entitled_key _ _ _ _ Hi). change (IdentityMembership (acceptAuth (addIdentity c i) ev) pk) with (IdentityMembership (addIdentity c i) pk).
      by apply IdentityMembership_add.
  - split; [|eauto]. intros HP i Hi. exfalso. eauto.
Qed.

End Auth.

Section Live.
Context {GoLower0 : GoLower} {Schnorr0 : Schnorr} {Bolt0 : Bolt} {MemberJSON0 : MemberJSON} {GroupJSON0 : GroupJSON} {EventDB0 : EventDB}.
Context (cfg : SessionCfg).

(** A key's status, where [P] says who is a member. *)
Definition true_status (P : gostring -> bool) (i : AuthedIdentity) : Prop :=
  canonical (iPubkey i) /\ (iStatus i = MembershipActive -> P (iPubkey i) = true) /\ (P (iPubkey i) = true -> iStatus i <> MembershipNone).

Record live (P : gostring -> bool) (c : Conn) : Prop := {
  lv_first : primary c = noIdentity /\ extra c = [] \/ true_status P (primary c);
  lv_extra : Forall (true_status P) (extra c);
  lv_agent : AgentAuthEnabled cfg = false -> Forall (fun i => iStatus i <> MembershipVirtual) (primary c :: extra c);
  lv_subs : MembershipRequired cfg = true -> subscriptions c <> ∅ -> HasMembership c = true;
}.

Lemma canonical_nonempty s : canonical s -> s <> [].
Proof using Type. intros (k & Hk & ->) HE. apply (f_equal length) in HE. rewrite Hex.length_encode in HE. cbn in HE. lia. Qed.

Lemma true_status_ext P P' i : (forall s, canonical s -> P s = P' s) -> true_status P i -> true_status P' i.
Proof using Type. intros HE (HC & H1 & H2). split; [done|]. by rewrite <- HE. Qed.

Lemma live_ext P P' c : (forall s, canonical s -> P s = P' s) -> live P c -> live P' c.
Proof using Type.
  intros HE [H1 H2 H3 H4]. split; [|eapply Forall_impl; [done|]; by eauto using true_status_ext|done|done].
  destruct H1 as [?|?]; [by left|right]. by eapply true_status_ext.
Qed.

(** A connection with the same identities and subscriptions. *)
Definition same_standing (c c' : Conn) : Prop := primary c' = primary c /\ extra c' = extra c /\ subscriptions c' = subscriptions c.

Lemma live_same P c c' : same_standing c c' -> live P c -> live P c'.
Proof using Type. intros (E1 & E2 & E3) [H1 H2 H3 H4]. split; unfold HasMembership in *; by rewrite ?E1, ?E2, ?E3. Qed.

Lemma live_replies P c (l : list gostring) msg :
  live P c -> live P (foldl (fun c id => reply c (RClosed id msg)) c l).
Proof using Type. revert c. induction l as [|id l IH]; intros c HL; [done|]. apply IH. by apply (live_same P c). Qed.

(** ** Moves *)

Lemma moved_iff from pk i : moved from pk i = true <-> iPubkey i = pk /\ iStatus i = from.
Proof using Type. unfold moved. by rewrite andb_true_iff, !bool_decide_eq_true. Qed.

Lemma move_key from to pk i : iPubkey (move from to pk i) = iPubkey i.
Proof using Type. unfold move. by destruct (moved _ _ _). Qed.

Lemma move_status from to pk i : iStatus (move from to pk i) = if moved from pk i then to else iStatus i.
Proof using Type. unfold move. by destruct (moved _ _ _). Qed.

Definition plus (P : gostring -> bool) (pk : gostring) : gostring -> bool := fun s => bool_decide (s = pk) || P s.
Definition minus (P : gostring -> bool) (pk : gostring) : gostring -> bool := fun s => negb (bool_decide (s = pk)) && P s.

Lemma grant_status P pk i : true_status P i -> true_status (plus P pk) (move MembershipNone MembershipActive pk i).
Proof using Type.
  intros (HC & H1 & H2). unfold true_status, plus. rewrite move_key, move_status. split; [done|].
  destruct (moved MembershipNone pk i) eqn:E.
  - apply moved_iff in E as [-> _]. by rewrite bool_decide_eq_true_2.
  - destruct (bool_decide_reflect (iPubkey i = pk)) as [HE|HE]; cbn [orb]; [|done]. split; [done|]. intros _ HN.
    apply not_true_iff_false in E. apply E, moved_iff. done.
Qed.

Lemma revoke_status P pk i : true_status P i -> true_status (minus P pk) (move MembershipActive MembershipNone pk i).
Proof using Type.
  intros (HC & H1 & H2). unfold true_status, minus. rewrite move_key, move_status. split; [done|].
  destruct (moved MembershipActive pk i) eqn:E.
  - apply moved_iff in E as [-> _]. by rewrite bool_decide_eq_true_2.
  - destruct (bool_decide_reflect (iPubkey i = pk)) as [HE|HE]; cbn [negb andb]; [|done]. split; [|done]. intros HA.
    exfalso. apply not_true_iff_false in E. apply E, moved_iff. done.
Qed.

Lemma move_noIdentity from to pk : pk <> [] -> move from to pk noIdentity = noIdentity.
Proof using Type. intros Hpk. unfold move, moved. cbn. by rewrite bool_decide_eq_false_2. Qed.

Lemma grant_holds pk i : holds_membership i = true -> holds_membership (move MembershipNone MembershipActive pk i) = true.
Proof using Type. unfold holds_membership. rewrite move_status. by destruct (moved MembershipNone pk i). Qed.

Lemma live_grant P pk c : pk <> [] -> live P c -> live (plus P pk) (grantMembership pk c).
Proof using Type.
  intros Hpk [H1 H2 H3 H4]. unfold grantMembership, grantActiveMembership, move_all. cbn [fst]. split; cbn [set_ids primary extra subscriptions].
  - destruct H1 as [[-> ->]|H1]; [left; by rewrite move_noIdentity|right]. by apply grant_status.
  - apply Forall_fmap. eapply Forall_impl; [done|]. intros i. apply grant_status.
  - intros HA. specialize (H3 HA). change (Forall (fun i => iStatus i <> MembershipVirtual) (map (move MembershipNone MembershipActive pk) (primary c :: extra c))).
    apply Forall_fmap. eapply Forall_impl; [done|]. intros i Hi. cbn. rewrite move_status. by destruct (moved _ _ _).
  - intros HR HS. specialize (H4 HR HS). unfold HasMembership in *. cbn [set_ids primary extra]. apply orb_true_iff in H4 as [H4|H4]; apply orb_true_iff.
    + left. by apply grant_holds.
    + right. apply existsb_exists in H4 as (i & Hi & Hh). apply existsb_exists. exists (move MembershipNone MembershipActive pk i). split; [by apply in_map|by apply grant_holds].
Qed.

(** Nothing moved, nothing changed. *)
Lemma unmoved from to pk c c' : move_all from to pk c = (c', false) -> c' = c.
Proof using Type.
  unfold move_all. intros [= <- HM]. apply orb_false_iff in HM as [H1 H2]. destruct c as [p e ch ss ns rs]. unfold set_ids. cbn [primary extra challenge subscriptions negentropySessions replies] in *.
  assert (HE : forall i, moved from pk i = false -> move from to pk i = i) by (intros i Hi; unfold move; by rewrite Hi).
  f_equal; [by apply HE|]. clear H1. induction e as [|i e IH]; [done|]. cbn [existsb] in H2. apply orb_false_iff in H2 as [? ?]. cbn [map]. f_equal; auto.
Qed.

Lemma live_revoke P pk c : pk <> [] -> live P c -> live (minus P pk) (revokeMembership cfg pk c).
Proof using Type.
  intros Hpk [H1 H2 H3 H4]. unfold revokeMembership, revokeActiveMembership.
  set (c1 := set_ids c (move MembershipActive MembershipNone pk (primary c)) (map (move MembershipActive MembershipNone pk) (extra c))).
  destruct (move_all MembershipActive MembershipNone pk c) as [c' changed] eqn:EM.
  assert (c' = c1) as -> by (unfold move_all in EM; by injection EM as <- _).
  assert (HX : live (minus P pk) (set_subs c1 ∅)).
  { split; cbn [c1 set_subs set_ids primary extra subscriptions]; [| | |done].
    - destruct H1 as [[-> ->]|H1]; [left; by rewrite move_noIdentity|right]. by apply revoke_status.
    - apply Forall_fmap. eapply Forall_impl; [done|]. intros i. apply revoke_status.
    - intros HA. specialize (H3 HA). change (Forall (fun i => iStatus i <> MembershipVirtual) (map (move MembershipActive MembershipNone pk) (primary c :: extra c))).
      apply Forall_fmap. eapply Forall_impl; [done|]. intros i Hi. cbn. rewrite move_status. by destruct (moved _ _ _). }
  destruct (negb changed || negb (MembershipRequired cfg) || HasMembership c1) eqn:EC; [|by apply live_replies].
  destruct HX as [X1 X2 X3 _]. split; [done..|]. intros HR HS. apply orb_true_iff in EC as [EC|EC]; [|done].
  rewrite HR in EC. cbn [negb] in EC. rewrite orb_false_r in EC. apply negb_true_iff in EC as ->. apply unmoved in EM as ->. by apply H4.
Qed.

(** ** Hooks *)

Definition after_hook (P : gostring -> bool) (h : Hook) : gostring -> bool :=
  match h with onAdd pk => plus P pk | onRemove pk => minus P pk end.
Definition hook_key (h : Hook) : gostring := match h with onAdd pk | onRemove pk => pk end.

Lemma live_hooks hs P c : Forall (fun h => hook_key h <> []) hs -> live P c -> live (foldl after_hook P hs) (call_hooks cfg hs c).
Proof using Type.
  revert P c. induction hs as [|h hs IH]; intros P c HF HL; [done|]. apply Forall_cons in HF as [Hh HF]. cbn [foldl]. apply IH; [done|].
  destruct h as [pk|pk]; cbn [call_hook after_hook hook_key] in *; [by apply live_grant|by apply live_revoke].
Qed.

Lemma fold_remove P l s : foldl after_hook P (map onRemove l) s = negb (in_list s l) && P s.
Proof using Type.
  revert P. induction l as [|pk l IH]; intros P; [done|]. cbn [map foldl after_hook]. rewrite IH. unfold minus, in_list.
  destruct (bool_decide_reflect (s = pk)) as [->|Hne]; cbn [negb andb].
  - rewrite andb_false_r. symmetry. apply andb_false_iff. left. apply negb_false_iff, bool_decide_eq_true. by left.
  - f_equal. f_equal. apply bool_decide_ext. rewrite elem_of_cons. tauto.
Qed.

Lemma fold_add P l s : foldl after_hook P (map onAdd l) s = in_list s l || P s.
Proof using Type.
  revert P. induction l as [|pk l IH]; intros P; [done|]. cbn [map foldl after_hook]. rewrite IH. unfold plus, in_list.
  destruct (bool_decide_reflect (s = pk)) as [->|Hne]; cbn [orb].
  - rewrite orb_true_r. symmetry. apply orb_true_iff. left. apply bool_decide_eq_true. by left.
  - f_equal. apply bool_decide_ext. rewrite elem_of_cons. tauto.
Qed.

(** ** Services *)

Lemma canonical_decode s k : canonical s -> decodePubkey s = Some k -> s = Hex.encode k.
Proof using Type. intros (k' & Hk & ->). rewrite decode_canonical by done. by intros [= ->]. Qed.

Lemma member_after_add c pk s : canonical pk -> canonical s -> cache_IsMember (member_add c pk) s = plus (cache_IsMember c) pk s.
Proof using Type.
  intros (k & Hk & ->) (k' & Hk' & ->). unfold plus, member_add, cache_IsMember. rewrite !decode_canonical by done.
  rewrite <- bool_decide_or. apply bool_decide_ext. rewrite elem_of_union, elem_of_singleton. split; intros [H|H]; auto; left; [by subst|by apply encode_inj].
Qed.

Lemma member_after_remove c pk s : canonical pk -> canonical s -> cache_IsMember (member_remove c pk) s = minus (cache_IsMember c) pk s.
Proof using Type.
  intros (k & Hk & ->) (k' & Hk' & ->). unfold minus, member_remove, cache_IsMember. rewrite !decode_canonical by done.
  rewrite <- bool_decide_not, <- bool_decide_and. apply bool_decide_ext. rewrite elem_of_difference, elem_of_singleton. split; intros [H1 H2]; split; auto.
  - intros ->%encode_inj. done.
  - intros ->. done.
Qed.

Lemma member_after_replace l s : Forall canonical l -> canonical s -> cache_IsMember (member_replace l) s = in_list s l.
Proof using Type.
  intros HF (k & Hk & ->). unfold cache_IsMember, member_replace, in_list. rewrite decode_canonical by done. apply bool_decide_ext.
  rewrite elem_of_list_to_set, list_elem_of_omap. rewrite Forall_forall in HF. split.
  - intros (x & Hx & Hd). by rewrite <- (canonical_decode x k (HF x Hx) Hd).
  - intros Hx. exists (Hex.encode k). split; [done|by apply decode_canonical].
Qed.

(** The new members are those the hooks made of the old ones. *)
Definition explained (m m' : MembershipService) : Prop :=
  exists hs, hooks m' = hooks m ++ hs /\ Forall (fun h => hook_key h <> []) hs /\
    forall s, canonical s -> MIsMember m' s = foldl after_hook (MIsMember m) hs s.

Lemma explained_same m m' : mcache m' = mcache m -> hooks m' = hooks m -> explained m m'.
Proof using Type. intros E1 E2. exists []. rewrite app_nil_r. split_and!; [done|constructor|]. intros s _. cbn. unfold MIsMember. by rewrite E1. Qed.

Lemma MemberHandle_explained now acfg s ev m m' r : canonical (PubKey ev) -> MemberHandle now acfg s ev (Some m) = Some (Some m', r) -> explained m m'.
Proof using Type.
  intros HC. unfold MemberHandle. destruct (Kind ev =? Access.KindJoinRequest).
  { destruct (handleJoin now acfg s ev m) as [[m1 r1]|] eqn:EJ; [|done]. cbn. intros [= <- _].
    apply handleJoin_cases in EJ as [_ [(_ & E1 & E2 & _)|(_ & _ & claim & b & c & m2 & _ & _ & EE & ->)]]; [by apply explained_same|].
    unfold enroll in EE. destruct (PutMember _ _); [|done..]. injection EE as <-. exists [onAdd (PubKey ev)]. split; [done|]. split; [by apply Forall_singleton, canonical_nonempty|].
    intros x Hx. by apply member_after_add. }
  destruct (Kind ev =? Access.KindLeaveRequest).
  { destruct (handleLeave now acfg s ev m) as [[m1 r1]|] eqn:EJ; [|done]. cbn. intros [= <- _].
    apply handleLeave_cases in EJ as [_ [->|(_ & _ & ->)]]; [by apply explained_same|].
    exists [onRemove (PubKey ev)]. split; [done|]. split; [by apply Forall_singleton, canonical_nonempty|]. intros x Hx. by apply member_after_remove. }
  intros [= <- _]. by apply explained_same.
Qed.

(** A list that names its members in lower case. *)
Definition canonical_list (ev : Event) : Prop := forall l, Access.ParseMembershipList ev = Ok l -> Forall canonical (map Access.memPubkey l).

Lemma cache_pubkeys_spec c s : canonical s -> cache_IsMember c s = true -> s ∈ cache_pubkeys c.
Proof using Type.
  intros (k & Hk & ->). unfold cache_IsMember. rewrite decode_canonical by done. intros Hin%bool_decide_eq_true.
  apply list_elem_of_fmap. exists k. split; [done|by apply elem_of_elements].
Qed.

Lemma encode_nonempty k : k <> [] -> Hex.encode k <> [].
Proof using Type. destruct k; [done|]. intros _ HE. apply (f_equal length) in HE. rewrite Hex.length_encode in HE. cbn in HE. lia. Qed.

Lemma ReplaceFromEvent_explained now m ev :
  [] ∉ mcache m -> canonical_list ev -> explained m (ReplaceFromEvent now m ev).1.
Proof using Type.
  intros Hne HC. unfold ReplaceFromEvent. destruct (Access.ParseMembershipList ev) as [l|e|] eqn:EP; [|by apply explained_same..].
  specialize (HC l EP). destruct (put_members now (membersB m) l) as [b [e|]]; [by apply explained_same|]. cbn [fst].
  set (pks := map Access.memPubkey l) in *. set (c := member_replace pks). eexists. cbn [hooks]. split; [reflexivity|]. split.
  - apply Forall_app. split; apply Forall_fmap, Forall_forall; intros pk Hpk; cbn.
    + apply list_elem_of_In, filter_In in Hpk as [Hpk%list_elem_of_In _]. apply list_elem_of_fmap in Hpk as (k & -> & Hk%elem_of_elements).
      apply encode_nonempty. by intros ->.
    + rewrite Forall_forall in HC. by apply canonical_nonempty, HC.
  - intros s Hs. rewrite foldl_app, fold_add, fold_remove. unfold MIsMember. cbn [mcache]. fold c. unfold c at 1. rewrite member_after_replace by done.
    destruct (in_list s pks) eqn:EI; [done|]. cbn [orb]. symmetry. apply andb_false_iff. destruct (cache_IsMember (mcache m) s) eqn:EM; [left|by right].
    apply negb_false_iff, bool_decide_eq_true, list_elem_of_In, filter_In. split.
    + apply list_elem_of_In. by apply cache_pubkeys_spec.
    + unfold c. by rewrite member_after_replace, EI.
Qed.

(** ** AUTH *)

Lemma put_extra_keep l i x : x ∈ l -> iPubkey x <> iPubkey i -> x ∈ put_extra l i.
Proof using Type.
  induction l as [|y l IH]; [by intros ?%elem_of_nil|]. cbn [put_extra]. intros Hx Hne.
  destruct (bool_decide_reflect (iPubkey y = iPubkey i)) as [E|E]; apply elem_of_cons in Hx as [->|Hx]; try done; [by right|by left|right; auto].
Qed.
Lemma put_extra_here l i : i ∈ put_extra l i.
Proof using Type. induction l as [|y l IH]; cbn [put_extra]; [by left|]. destruct (bool_decide _); [by left|by right]. Qed.

Lemma HasMembership_iff c : HasMembership c = true <-> exists i, i ∈ primary c :: extra c /\ holds_membership i = true.
Proof using Type.
  unfold HasMembership. change (holds_membership (primary c) || existsb holds_membership (extra c)) with (existsb holds_membership (primary c :: extra c)).
  rewrite existsb_exists. split; intros (i & Hi & Hh); exists i; (split; [by apply list_elem_of_In|done]).
Qed.

Lemma elem_of_add c i x : x ∈ primary (addIdentity c i) :: extra (addIdentity c i) -> x = i \/ x ∈ primary c :: extra c.
Proof using Type.
  unfold addIdentity. destruct (_ || _); cbn [set_ids primary extra]; rewrite !elem_of_cons; [tauto|].
  intros [->|[->|Hx]%elem_of_put_extra]; tauto.
Qed.

(** What an identity keeps of its key's earlier one. *)
Lemma entitled_keeps m ev i j :
  entitled cfg m ev i -> iPubkey j = iPubkey i -> true_status (MIsMember m) j ->
  (AgentAuthEnabled cfg = false -> iStatus j <> MembershipVirtual) -> holds_membership j = true -> holds_membership i = true.
Proof using Type.
  intros Hi Hk (_ & HJ & _) HV. unfold holds_membership. rewrite !negb_true_iff, !bool_decide_eq_false. intros Hj.
  destruct Hi as [HM|HM HA|t HM HA]; cbn in *; try done. destruct (iStatus j) eqn:E; [done| |by apply HV in HA].
  rewrite Hk in HJ. rewrite HJ in HM; done.
Qed.

Lemma entitled_status m ev i : canonical (PubKey ev) -> entitled cfg m ev i -> true_status (MIsMember m) i.
Proof using Type. intros HC [HM|HM HA|t HM HA _ _]; (split; [done|]); cbn; split; congruence. Qed.

Lemma live_add m ev c i : canonical (PubKey ev) -> entitled cfg m ev i -> live (MIsMember m) c -> live (MIsMember m) (addIdentity c i).
Proof using Type.
  intros HC Hi [H1 H2 H3 H4]. pose proof (entitled_status m ev i HC Hi) as HT.
  assert (HV : AgentAuthEnabled cfg = false -> iStatus i <> MembershipVirtual) by (intros HA; destruct Hi; cbn; congruence).
  assert (HS : subscriptions (addIdentity c i) = subscriptions c) by (unfold addIdentity; by destruct (_ || _)).
  split.
  - unfold addIdentity. destruct H1 as [[-> ->]|H1]; [by right|]. destruct (_ || _); by right.
  - unfold addIdentity. destruct (_ || _); [done|]. cbn [set_ids extra]. apply Forall_forall. intros x [->|Hx]%elem_of_put_extra; [done|].
    by rewrite Forall_forall in H2; apply H2.
  - intros HA. specialize (H3 HA). rewrite Forall_forall in H3. apply Forall_forall. intros x [->|Hx]%elem_of_add; [by apply HV|by apply H3].
  - rewrite HS. intros HR HE. apply HasMembership_iff in H4 as (j & Hj & Hh); [|done..]. apply HasMembership_iff.
    destruct (decide (iPubkey j = iPubkey i)) as [HK|HK].
    + assert (Hjs : true_status (MIsMember m) j).
      { apply elem_of_cons in Hj as [->|Hj]; [destruct H1 as [[E1 _]|H1]; [by rewrite E1 in Hh|done]|]. rewrite Forall_forall in H2. by apply H2. }
      exists i. split; [|apply (entitled_keeps m ev i j); try done; intros HA; specialize (H3 HA); rewrite Forall_forall in H3; by apply H3].
      unfold addIdentity. destruct (_ || _); cbn [set_ids primary extra]; [by left|right; apply put_extra_here].
    + exists j. split; [|done]. unfold addIdentity. destruct H1 as [[E1 E2]|H1].
      { exfalso. rewrite E1, E2 in Hj. by apply list_elem_of_singleton in Hj as ->. }
      rewrite (bool_decide_eq_false_2 (iPubkey (primary c) = [])) by (apply canonical_nonempty; by destruct H1). cbn [orb].
      destruct (bool_decide_reflect (iPubkey (primary c) = iPubkey i)) as [E|E]; cbn [set_ids primary extra]; apply elem_of_cons in Hj as [->|Hj].
      * done.
      * by right.
      * by left.
      * right. by apply put_extra_keep.
Qed.

(** ** The whole relay *)

Context (acfg : AccessConfig) (vs : Validators) (policy : EventPolicy).

Record relay_inv (r : Relay) : Prop := {
  ri_keys : [] ∉ mcache (rmembers r);
  ri_live : forall id c, conns r !! id = Some c -> live (MIsMember (rmembers r)) c;
}.

Lemma decode_nonempty s k : decodePubkey s = Some k -> k <> [].
Proof using Type.
  unfold decodePubkey. destruct (Z.eqb_spec (zlen s) 64) as [E|]; [|done]. cbn [negb]. intros HD ->.
  apply Hex.decode_length in HD. unfold zlen in E. cbn in HD. lia.
Qed.

Lemma set_conn_inv r id c : relay_inv r -> live (MIsMember (rmembers r)) c -> relay_inv (set_conns r (<[id := c]> (conns r))).
Proof using Type.
  intros [H1 H2] HL. split; [done|]. intros id' c'. cbn [set_conns conns rmembers]. destruct (decide (id' = id)) as [->|Hne].
  - rewrite lookup_insert_eq. by intros [= <-].
  - rewrite lookup_insert_ne by done. apply H2.
Qed.

Lemma reply_to_inv r id rep : relay_inv r -> relay_inv (reply_to r id rep).
Proof using Type.
  intros [H1 H2]. split; [done|]. intros id' c'. cbn [reply_to set_conns conns rmembers]. destruct (decide (id' = id)) as [->|Hne].
  - rewrite lookup_alter_eq. destruct (conns r !! id) as [c|] eqn:E; [|done]. cbn. intros [= <-]. apply (live_same _ c); [done|by apply (H2 id)].
  - rewrite lookup_alter_ne by done. apply H2.
Qed.

Lemma members_out_inv r m : relay_inv r -> explained (members_in r) m -> [] ∉ mcache m -> relay_inv (members_out cfg r m).
Proof using Type.
  intros [H1 H2] (hs & HH & HF & HM) HN. cbn [members_in hooks] in HH. change ([] ++ hs) with hs in HH. split; [done|]. intros id c. cbn [members_out conns rmembers].
  rewrite lookup_fmap. destruct (conns r !! id) as [c0|] eqn:E; [|done]. cbn. intros [= <-]. rewrite HH. specialize (H2 id c0 E).
  apply (live_ext (foldl after_hook (MIsMember (rmembers r)) hs)).
  - intros s Hs. symmetry. exact (HM s Hs).
  - by apply live_hooks.
Qed.

Lemma MemberHandle_keys now s ev m m' r : MemberHandle now acfg s ev (Some m) = Some (Some m', r) -> [] ∉ mcache m -> [] ∉ mcache m'.
Proof using Type.
  unfold MemberHandle. intros HE Hne. destruct (Kind ev =? Access.KindJoinRequest).
  { destruct (handleJoin now acfg s ev m) as [[m1 r1]|] eqn:EJ; [|done]. cbn in HE. injection HE as <- _.
    apply handleJoin_cases in EJ as [_ [(_ & -> & _ & _)|(_ & _ & claim & b & c & m2 & _ & _ & EE & ->)]]; [done|].
    unfold enroll in EE. destruct (PutMember _ _); [|done..]. injection EE as <-. cbn [set_mevs mcache set_claims]. unfold member_add.
    destruct (decodePubkey (PubKey ev)) as [k|] eqn:ED; [|done]. apply decode_nonempty in ED. set_solver. }
  destruct (Kind ev =? Access.KindLeaveRequest); [|by injection HE as <- _].
  destruct (handleLeave now acfg s ev m) as [[m1 r1]|] eqn:EJ; [|done]. cbn in HE. injection HE as <- _.
  apply handleLeave_cases in EJ as [_ [->|(_ & _ & ->)]]; [done|]. cbn [set_mevs withdraw mcache]. unfold member_remove. destruct (decodePubkey _); set_solver.
Qed.

Lemma replace_keys l : [] ∉ member_replace l.
Proof using Type. unfold member_replace. rewrite elem_of_list_to_set, list_elem_of_omap. intros (x & _ & Hd). by apply decode_nonempty in Hd. Qed.

Lemma resync_inv now r ev : relay_inv r -> (Kind ev = Access.KindMembershipList -> canonical_list ev) -> relay_inv (resync now cfg r ev).
Proof using Type.
  intros HI HC. unfold resync. destruct (Z.eqb_spec (Kind ev) Access.KindMembershipList) as [E|]; [|done].
  apply members_out_inv; [done|apply ReplaceFromEvent_explained; [apply HI|by apply HC]|].
  unfold ReplaceFromEvent. destruct (Access.ParseMembershipList ev) as [l|e|]; [|apply HI..].
  destruct (put_members _ _ _) as [b [e|]]; [apply HI|apply replace_keys].
Qed.

Lemma processEvent_inv now r id ev late t r' :
  relay_inv r -> canonical (PubKey ev) -> (Kind ev = Access.KindMembershipList -> canonical_list ev) ->
  processEvent now cfg acfg vs policy r id ev late t = Some r' -> relay_inv r'.
Proof using Type.
  intros HI HC HL. unfold processEvent. destruct (conns r !! id) as [c|]; [|by intros [= <-]].
  destruct (event_verdict _ _ _ _ _ _) as [[msg| | |]|]; [| | | |done]; cbn [mbind option_bind].
  - intros [= <-]. by apply reply_to_inv.
  - destruct (MemberHandle _ _ _ _ _) as [[[m|] rep]|] eqn:EM; [| |done]; cbn [mbind option_bind].
    + assert (HO : relay_inv (members_out cfg r m)).
      { apply members_out_inv; [done|by eapply MemberHandle_explained|]. eapply MemberHandle_keys; [done|apply HI]. }
      destruct rep; intros [= <-]; [by apply reply_to_inv|done].
    + by destruct rep; intros [= <-].
  - destruct (HandleEvent _ _ _ _) as [[g ok]|]; [|done]. intros [= <-]. apply reply_to_inv. by destruct HI; split.
  - unfold store_event. destruct (run_task _ _ _) as [[[e [acc msg]] stored]|]; [|done]. intros [= <-].
    assert (HP : relay_inv (recordPresence cfg r c ev)).
    { unfold recordPresence. destruct (_ || _); [done|]. destruct (IdentityMembership _ _); [|done]. by destruct HI; split. }
    assert (HO : relay_inv (reply_to (set_groups (recordPresence cfg r c ev) (set_evs (rgroups (recordPresence cfg r c ev)) e)) id
      (if late then ROk (ID ev) false (Says (bs "error: relay busy, try again later")) else ROk (ID ev) acc msg))).
    { apply reply_to_inv. by destruct HP; split. }
    destruct stored; [by apply resync_inv|done].
Qed.

Lemma processRequest_inv P g c sub fs q c' : live P c -> processRequest cfg g c sub fs q = Some c' -> live P c'.
Proof using Type.
  intros HL. unfold processRequest, read_refusal. destruct (readGate cfg c) as [msg|] eqn:EG; [intros [= <-]; by apply (live_same P c)|].
  assert (HS : forall m, live P (set_subs c m)).
  { intros m. destruct HL as [H1 H2 H3 H4]. split; try done. intros HR _. unfold readGate in EG. destruct (_ && negb (authed c)); [done|].
    rewrite HR in EG. cbn [andb] in EG. change (HasMembership (set_subs c m)) with (HasMembership c). destruct (HasMembership c); [done|]. by destruct (negb (authed c)). }
  destruct (deniedPrivateGroupFilter _ _ _); [intros [= <-]; by apply (live_same P c)|].
  destruct (refusesRecipientOnlyRead _ _ _); [intros [= <-]; by apply (live_same P c)|].
  assert (HO : forall m c', open_new cfg (set_subs c m) sub fs q = Some c' -> live P c').
  { intros m c1. unfold open_new. destruct q as [?|?|]; [|intros [= <-]; by apply (live_same P (set_subs c m))|done].
    destruct (subs_Add _ _ _ _) as [m'|]; intros [= <-]; [apply (HS m')|]. by apply (live_same P (set_subs c m)). }
  unfold openSubscription. destruct (subscriptions c !! sub) as [fs'|].
  - destruct (GroupEquals fs' fs); [by intros [= <-]|]. apply HO.
  - intros HE. apply (HO (subscriptions c)). by destruct c.
Qed.

(** Requests of keys in lower case; connections come and go, packets arrive in any
    order, and the store runs its tasks or not. *)
Inductive relay_reach : Relay -> Prop :=
  | rr_start m g : relay_reach (mkRelay ∅ (MemberLoad m) g ∅)
  | rr_open r id ch : relay_reach r -> relay_reach (set_conns r (<[id := NewConn ch]> (conns r)))
  | rr_drop r id c : relay_reach r -> conns r !! id = Some c -> relay_reach (forgetPresence (set_conns r (base.delete id (conns r))) c)
  | rr_auth r id c now ev c' : relay_reach r -> conns r !! id = Some c -> canonical (PubKey ev) ->
      processAuth now cfg (rmembers r) c ev = Some c' -> relay_reach (set_conns r (<[id := c']> (conns r)))
  | rr_event r now id ev late t r' : relay_reach r -> canonical (PubKey ev) -> (Kind ev = Access.KindMembershipList -> canonical_list ev) ->
      processEvent now cfg acfg vs policy r id ev late t = Some r' -> relay_reach r'
  | rr_request r id c sub fs q c' : relay_reach r -> conns r !! id = Some c ->
      processRequest cfg (rgroups r) c sub fs q = Some c' -> relay_reach (set_conns r (<[id := c']> (conns r)))
  | rr_close r id c sub : relay_reach r -> conns r !! id = Some c -> relay_reach (set_conns r (<[id := processClose c sub]> (conns r)))
  | rr_other r id c c' : relay_reach r -> conns r !! id = Some c -> same_standing c c' -> relay_reach (set_conns r (<[id := c']> (conns r))).

Lemma relay_reach_inv r : relay_reach r -> relay_inv r.
Proof using Type.
  induction 1 as [m g|r id ch _ IH|r id c _ IH HC|r id c now ev c' _ IH HC HK HA|r now id ev late t r' _ IH HC HL HE|r id c sub fs q c' _ IH HC HE|r id c sub _ IH HC|r id c c' _ IH HC HS].
  - split; [apply replace_keys|]. intros id c HE. cbn [conns] in HE. by rewrite lookup_empty in HE.
  - apply set_conn_inv; [done|]. split; cbn; [by left|done|by constructor|done].
  - destruct IH as [H1 H2]. split; [done|]. intros id' c'. cbn [forgetPresence set_conns conns rmembers]. intros [_ HE]%lookup_delete_Some. by apply (H2 id').
  - apply set_conn_inv; [done|]. pose proof (ri_live r IH id c HC) as HL. apply processAuth_spec in HA as [(_ & i & Hi & ->)|(_ & x & _ & ->)].
    + apply (live_same _ (addIdentity c i)); [done|]. by apply (live_add _ ev).
    + by apply (live_same _ c).
  - by eapply processEvent_inv.
  - apply set_conn_inv; [done|]. eapply processRequest_inv; [by apply (ri_live r IH id)|done].
  - apply set_conn_inv; [done|]. destruct (ri_live r IH id c HC) as [H1 H2 H3 H4]. split; try done. cbn [processClose reply set_subs subscriptions].
    intros HR HS. change (HasMembership (processClose c sub)) with (HasMembership c). apply H4; [done|]. intros HX. unfold subs_Close in HS. by rewrite HX, delete_empty in HS.
  - apply set_conn_inv; [done|]. eapply live_same; [done|]. by apply (ri_live r IH id).
Qed.

End Live.
