(* ===== verification/RelayHttp.v ===== *)
(** * relay: the HTTP bridge

    [relay/handler_events.go] (POST /events) and [relay/handler_query.go] (POST
    /query and POST /count), over NIP-98.  The decoding of a body of filters is an
    argument; a body is [None] when it cannot be read.  The presence snapshot of
    /query is not here. *)

From S2P Require Import Prelude GoLib Bolt Sha256 NegCodec NegReconcile NostrUtils Pow Event Filter StoreDb StoreScan StoreEvents Nip98 Nip29 GroupStore Groups GroupsView Nip43 AgentAuth Membership RelaySession RelayPacket RelayNeg.

Inductive HttpMessage := HText (s : gostring) | HWhy (prefix : gostring) (e : MessageErr) | HNip98 (e : N98Err).

Inductive HttpAnswer :=
  | HttpError (status : Z) (msg : HttpMessage)
  | HttpStored (eventID : gostring) (duplicate : bool)
  | HttpEvents (bodies : list gostring)
  | HttpCount (count : Z) (approx : bool).

Definition MaxEventsBodyBytes : Z := 2 ^ 20.
Definition MaxQueryBodyBytes : Z := 2 ^ 20.

Section Http.
Context {GoLower0 : GoLower} {Schnorr0 : Schnorr} {JSON0 : EventJSON} {Bolt0 : Bolt} {MemberJSON0 : MemberJSON} {GroupJSON0 : GroupJSON} {EventDB0 : EventDB}.

(** The method and the size of the body. *)
Definition post_body (max : Z) (r : Request) (body : option (list byte)) : outcome HttpAnswer (list byte) :=
  if negb (bool_decide (Method r = bs "POST")) then Err (HttpError 405 (HText (bs "method not allowed"))) else
  match body with
  | None => Err (HttpError 400 (HText (bs "failed to read body")))
  | Some b => if max <? zlen b then Err (HttpError 413 (HText (bs "request body too large"))) else Ok b
  end.

(** nip98 without a cache of seen ids. *)
Definition signer_of (nowT : Z) (r : Request) (body : list byte) : outcome HttpAnswer gostring :=
  match (VerifyAnyPubkey None r (mkOptions [] (Some body) false true 0 [] []) nowT).2 with
  | Ok pk => Ok pk
  | Err e => Err (HttpError 401 (HNip98 e))
  | Panic => Panic
  end.

Definition http_verifyOpts (lim : option SessionCfg) : list VerifyOption :=
  match lim with
  | None => [WithoutPowCheck]
  | Some l => if negb (StrictPow l) then [WithoutPowCheck]
              else if 0 <? MinPowDifficulty l then [WithMinPowDifficulty (MinPowDifficulty l)] else []
  end.

(** ** POST /events *)

Record eventsHandler := mkEventsHandler {
  ehLimitation : option SessionCfg; ehSelf : gostring; ehPolicy : EventPolicy; ehRelayAuthored : list Z;
}.

(** The checks of an event its signer offers. *)
Definition http_admits (h : eventsHandler) (vs : Validators) (m : option MembershipService) (signer : gostring) (ev : Event) : outcome HttpAnswer unit :=
  let forbid s := Err (HttpError 403 (HText s)) in
  _ ← (if bool_decide (signer = PubKey ev) then Ok tt else forbid (bs "restricted: the NIP-98 signer must match the event's own pubkey"));
  _ ← (if (Kind ev =? Access.KindJoinRequest) || (Kind ev =? Access.KindLeaveRequest)
       then Err (HttpError 400 (HText (bs "restricted: join/leave requests are not accepted via /events"))) else Ok tt);
  _ ← match CheckSelfAuthored ev (ehSelf h) (ehRelayAuthored h) with Some msg => forbid msg | None => Ok tt end;
  _ ← match Validate ev with Ok _ => Ok tt | Err e => Err (HttpError 400 (HWhy (bs "invalid: ") (MEvent e))) | Panic => Panic end;
  _ ← match Verify (http_verifyOpts (ehLimitation h)) ev with
      | Ok _ => Ok tt
      | Err (EvInsufficientPow a b) => Err (HttpError 400 (HWhy [] (MEvent (EvInsufficientPow a b))))
      | Err e => Err (HttpError 400 (HWhy (bs "invalid: ") (MEvent e)))
      | Panic => Panic
      end;
  _ ← match runEventValidators vs ev with Some e => Err (HttpError 400 (HText (rejectMessage e))) | None => Ok tt end;
  _ ← (if bool_decide (ehPolicy h ev = []) then Ok tt else forbid (ehPolicy h ev));
  match ehLimitation h with
  | Some l =>
      if MembershipRequired l && negb (Access.IsRelayAuthoredKind (Kind ev)) &&
         negb (match m with Some m => MIsMember m (PubKey ev) | None => false end)
      then forbid (bs "restricted: valid NIP-43 membership required") else Ok tt
  | None => Ok tt
  end.

(** The answer to a task; [Unavailable]: the client went away. *)
Definition http_store (e : EvState) (ev : Event) (t : TaskEnd) : option (EvState * HttpAnswer) :=
  match t with
  | RateLimited => Some (e, HttpError 429 (HText (bs "rate-limited: too many concurrent tasks")))
  | Unavailable => Some (e, HttpError 408 (HText (bs "request cancelled")))
  | Ran =>
      match InsertEvents e [ev] with
      | Ok (e, None) => Some (e, HttpStored (ID ev) false)
      | Ok (e, Some ErrEventDuplicated) => Some (e, HttpStored (ID ev) true)
      | Ok (e, Some _) => Some (e, HttpError 500 (HText (bs "could not store event")))
      | Err ErrEventDuplicated => Some (e, HttpStored (ID ev) true)
      | Err _ => Some (e, HttpError 500 (HText (bs "could not store event")))
      | Panic => None
      end
  end.

Definition event_offer (nowT : Z) (h : eventsHandler) (vs : Validators) (m : option MembershipService) (r : Request) (body : option (list byte))
    : outcome HttpAnswer Event :=
  body ← post_body MaxEventsBodyBytes r body;
  signer ← signer_of nowT r body;
  ev ← NegCodec.of_opt (UnmarshalEvent body) (HttpError 400 (HText (bs "body must be a single signed NIP-01 event object")));
  _ ← http_admits h vs m signer ev;
  Ok ev.

Definition events_ServeHTTP (nowT : Z) (h : eventsHandler) (vs : Validators) (m : option MembershipService) (e : EvState)
    (r : Request) (body : option (list byte)) (t : TaskEnd) : option (EvState * HttpAnswer) :=
  match event_offer nowT h vs m r body with
  | Panic => None
  | Err a => Some (e, a)
  | Ok ev => http_store e ev t
  end.

(** ** POST /query *)

Record queryHandler := mkQueryHandler { qhLimitation : option SessionCfg; qhRecipientOnly : list Z }.

Definition query_admit (decode : list byte -> option (list SubscriptionFilter)) (nowT : Z) (h : queryHandler) (m : option MembershipService)
    (g : GroupsService) (r : Request) (body : option (list byte)) : outcome HttpAnswer (list gostring * list SubscriptionFilter) :=
  body ← post_body MaxQueryBodyBytes r body;
  pubkey ← signer_of nowT r body;
  _ ← (if match qhLimitation h with Some l => MembershipRequired l | None => false end &&
          negb (match m with Some m => MIsMember m pubkey | None => false end)
       then Err (HttpError 403 (HText (bs "restricted: valid NIP-43 membership required"))) else Ok tt);
  filters ← NegCodec.of_opt (decode body) (HttpError 400 (HText (bs "body must be a JSON array of NIP-01 filters")));
  _ ← match deniedPrivateGroupFilter g [pubkey] filters with
      | Some id => Err (HttpError 403 (HText (bs "restricted: valid membership in group " ++ id ++ bs " is required")))
      | None => Ok tt
      end;
  Ok ([pubkey], filters).

(** The events one filter adds: each once, and none that is withheld. *)
Fixpoint take_visible (hidden : PotentialEvent -> bool) (seen : gset Z) (pes : list PotentialEvent) : list gostring * gset Z :=
  match pes with
  | [] => ([], seen)
  | pe :: pes =>
      if bool_decide (Evsid pe ∈ seen) || hidden pe then take_visible hidden seen pes
      else let '(out, seen) := take_visible hidden ({[Evsid pe]} ∪ seen) pes in (Bytes pe :: out, seen)
  end.

Fixpoint query_filters (hidden : PotentialEvent -> bool) (e : EvState) (seen : gset Z) (fs : list SubscriptionFilter) : outcome StoreErr (list gostring) :=
  match fs with
  | [] => Ok []
  | f :: fs =>
      pes ← FindEvents e f;
      let '(out, seen) := take_visible hidden seen pes in
      rest ← query_filters hidden e seen fs;
      Ok (out ++ rest)
  end.

Definition query_hidden (h : queryHandler) (g : GroupsService) (reader : list gostring) (fs : list SubscriptionFilter) (pe : PotentialEvent) : bool :=
  deniedPrivateGroupPotentialEvent g reader pe ||
  (mayMatchRecipientOnlyKind (qhRecipientOnly h) fs && deniedRecipientOnlyPotentialEvent (qhRecipientOnly h) reader pe).

Definition query_ServeHTTP (decode : list byte -> option (list SubscriptionFilter)) (nowT : Z) (h : queryHandler) (m : option MembershipService)
    (g : GroupsService) (r : Request) (body : option (list byte)) : option HttpAnswer :=
  match query_admit decode nowT h m g r body with
  | Panic => None
  | Err a => Some a
  | Ok (reader, filters) =>
      match query_filters (query_hidden h g reader filters) (evs g) ∅ filters with
      | Panic => None
      | Err _ => Some (HttpError 500 (HText (bs "query failed")))
      | Ok out => Some (HttpEvents out)
      end
  end.

End Http.

(** ** POST /count, over the event store *)

Section Count.
Context {GoLower0 : GoLower} {Schnorr0 : Schnorr} {JSON0 : EventJSON} {Bolt0 : Bolt} {Derived0 : Derived} {MemberJSON0 : MemberJSON} {GroupJSON0 : GroupJSON} (mit MaxLimit : Z).
#[local] Instance http_db : EventDB := store_db mit MaxLimit.

Definition count_ServeHTTP (decode : list byte -> option (list SubscriptionFilter)) (nowT : Z) (h : queryHandler)
    (m : option MembershipService) (g : GroupsService) (r : Request) (body : option (list byte)) : option HttpAnswer :=
  match query_admit decode nowT h m g r body with
  | Panic => None
  | Err a => Some a
  | Ok (reader, filters) =>
      match count_visible mit MaxLimit (qhRecipientOnly h) g reader (evs g) filters with
      | Panic => None
      | Err _ => Some (HttpError 500 (HText (bs "count failed")))
      | Ok (n, approx) => Some (HttpCount n approx)
      end
  end.

End Count.
