(* ===== verification/RelayProps.v ===== *)
(** * relay: what the server promises

    The relay's theorems over whole packets: which events are stored, that each
    EVENT gets one OK, what stays true of live connections, what a negentropy
    session reconciles, and what is counted and delivered. *)

From S2P Require Import Prelude GoLib GoHeap Bolt Sha256 NegCodec NegReconcile NegOrder NegSession NostrUtils Pow Event Filter Latest StoreDb StoreInv StoreScan StoreMerge StoreExact StoreQuery StoreEvents StoreLife StoreCounters Nip98 GroupsForest Nip29 Nip29Props GroupStore Groups GroupsInv GroupsAuth GroupsView GroupsTotal Nip43 AgentAuth Membership MembershipProps RelaySession RelayPacket RelayNeg RelayLive RelayHttp.

(** ** Every packet is answered *)

Section Safe.
Context {GoLower0 : GoLower} {Schnorr0 : Schnorr}.

Lemma safe_ValidatePow ev : safe (ValidatePow ev).
Proof. unfold ValidatePow, countZerosFromHex, hashID. rewrite Sum256_Ok. by_safe. Qed.

Lemma safe_pow_check cfg ev : safe (pow_check cfg ev).
Proof.
  unfold pow_check. destruct (skipPow cfg); [done|]. destruct (LookupEventTag _ _); [|done]. pose proof (safe_ValidatePow (fields_of ev (ID ev) [])) as HS.
  by destruct (ValidatePow _).
Qed.

Lemma safe_min_pow cfg id : safe (min_pow_check cfg id).
Proof.
  unfold min_pow_check. assert (HS : safe (Difficulty id)) by (unfold Difficulty, countZerosFromHex; by_safe).
  destruct (0 <? _); [|done]. destruct (Difficulty id); [by destruct (_ <? _)|done|done].
Qed.

Lemma safe_Validate ev : safe (Validate ev).
Proof.
  unfold Validate, ev_err. apply safe_bind; [|intros _; apply safe_bind; [|intros _]].
  - pose proof (safe_key (ID ev)) as HS. by destruct (Validate32Key _).
  - pose proof (safe_key (PubKey ev)) as HS. by destruct (Validate32Key _).
  - pose proof (safe_kind (Kind ev)) as HS. by destruct (ValidateKind _).
Qed.

Lemma safe_or_err {A} (o : option A) e : safe (or_err o e).
Proof. by destruct o. Qed.

Lemma safe_Verify opts ev : safe (Verify opts ev).
Proof.
  unfold Verify. repeat first [apply safe_Validate | apply safe_bind; [|intros ?] | apply safe_pow_check | apply safe_min_pow | apply safe_or_err | apply safe_ensure].
Qed.

End Safe.

Section Publish.
Context {GoLower0 : GoLower} {Schnorr0 : Schnorr} {Bolt0 : Bolt} {MemberJSON0 : MemberJSON} {GroupJSON0 : GroupJSON} {EventDB0 : EventDB}.

(** What an event must satisfy to be stored. *)
Record publishable (cfg : SessionCfg) (vs : Validators) (policy : EventPolicy) (g : GroupsService) (c : Conn) (ev : Event) : Prop := {
  pb_authed : AuthRequired cfg = true -> authed c = true;
  pb_agent : AgentAuthEnabled cfg = true -> AgentKindEnforcement cfg = true -> forall i cond,
    IdentityMembership c (PubKey ev) = Some i -> iStatus i = MembershipVirtual -> iConditions i = Some cond -> EvaluateKind cond (Kind ev) = true;
  pb_self : Access.IsRelayAuthoredKind (Kind ev) = true \/ Kind ev ∈ RelayAuthoredKinds cfg -> sSelf cfg <> [] /\ PubKey ev = sSelf cfg;
  pb_verified : Verify (verifyOpts cfg) ev = Ok tt;
  pb_validators : Forall (fun v : Event -> option Rejection => v ev = None) (vs (Kind ev));
  pb_policy : policy ev = [];
  pb_protected : IsProtected (Tags ev) = true -> is_Some (IdentityMembership c (PubKey ev));
  pb_content : Kind ev <> Access.KindJoinRequest /\ Kind ev <> Access.KindLeaveRequest /\ IsModerationKind (Kind ev) = false /\ IsUserRequestKind (Kind ev) = false;
  pb_groups : forall t id, t ∈ Tags ev -> tag2 (bs "h") t = Some id -> Exists g id = true ->
    IsPrivate g id || IsClosed g id || IsRestricted g id = true -> IsMember g id (PubKey ev) = true;
  pb_member : MembershipRequired cfg = true -> Access.IsRelayAuthoredKind (Kind ev) = false ->
    exists i, IdentityMembership c (PubKey ev) = Some i /\ iStatus i <> MembershipNone;
}.

Lemma first_refusal_none l ev : first_refusal l ev = None <-> Forall (fun v : Event -> option Rejection => v ev = None) l.
Proof.
  induction l as [|v l IH]; cbn [first_refusal]; [done|]. rewrite Forall_cons, <- IH. destruct (v ev); [|tauto]. split; [done|by intros [? _]].
Qed.

Lemma kind_refused_false cfg c ev : kind_refused cfg c ev = false <->
  (AgentAuthEnabled cfg = true -> AgentKindEnforcement cfg = true -> forall i cond,
    IdentityMembership c (PubKey ev) = Some i -> iStatus i = MembershipVirtual -> iConditions i = Some cond -> EvaluateKind cond (Kind ev) = true).
Proof.
  unfold kind_refused. destruct (AgentAuthEnabled cfg), (AgentKindEnforcement cfg); cbn [andb]; try (split; [by intros|done]).
  destruct (IdentityMembership c (PubKey ev)) as [i|]; [|split; [by intros|done]].
  destruct (bool_decide_reflect (iStatus i = MembershipVirtual)) as [E|E]; cbn [andb].
  - destruct (iConditions i) as [cond|] eqn:EC; [|split; [|done]; intros _ _ _ i' cond [= <-]; congruence]. rewrite negb_false_iff. split.
    + intros HE _ _ i' cond' [= <-] _ HC. congruence.
    + intros H. by apply (H eq_refl eq_refl i cond).
  - split; [|done]. intros _ _ _ i' cond [= <-]. congruence.
Qed.

Lemma self_authored_none cfg ev : CheckSelfAuthored ev (sSelf cfg) (RelayAuthoredKinds cfg) = None <->
  (Access.IsRelayAuthoredKind (Kind ev) = true \/ Kind ev ∈ RelayAuthoredKinds cfg -> sSelf cfg <> [] /\ PubKey ev = sSelf cfg).
Proof.
  unfold CheckSelfAuthored. assert (HX : existsb (fun k => k =? Kind ev) (RelayAuthoredKinds cfg) = true <-> Kind ev ∈ RelayAuthoredKinds cfg).
  { rewrite existsb_exists, list_elem_of_In. split; [intros (k & Hk & ->%Z.eqb_eq); done|]. intros Hk. exists (Kind ev). split; [done|apply Z.eqb_refl]. }
  destruct (negb (Access.IsRelayAuthoredKind (Kind ev)) && negb _) eqn:E.
  - apply andb_true_iff in E as [E1%negb_true_iff E2%negb_true_iff]. split; [|done]. intros _ [HE|HE]; [congruence|]. apply HX in HE. congruence.
  - assert (HY : Access.IsRelayAuthoredKind (Kind ev) = true \/ Kind ev ∈ RelayAuthoredKinds cfg).
    { apply andb_false_iff in E as [E%negb_false_iff|E%negb_false_iff]; [by left|right; by apply HX]. }
    destruct (bool_decide_reflect (sSelf cfg = [])) as [ES|ES]; cbn [orb]; [split; [done|]; intros H; by destruct (H HY)|].
    destruct (bool_decide_reflect (PubKey ev = sSelf cfg)) as [EP|EP]; cbn [negb]; [split; done|]. split; [done|]. intros H. by destruct (H HY).
Qed.

(** ensure-style steps of [admits]. *)
Lemma bind_ok {E A} (m : outcome E unit) (k : unit -> outcome E A) a : (m ≫= k) = Ok a <-> m = Ok tt /\ k tt = Ok a.
Proof. destruct m as [[]|e|]; cbn; [by split; [|intros [_ ?]]|split; [done|by intros [? _]]..]. Qed.
Lemma if_ok {E} (b : bool) (e : E) : (if b then Err e else Ok tt) = Ok tt <-> b = false.
Proof. by destruct b. Qed.

Lemma Verify_Validate opts ev : Verify opts ev = Ok tt -> Validate ev = Ok tt.
Proof. unfold Verify. by intros [? _]%bind_ok. Qed.

Lemma admits_iff cfg vs policy c ev : admits cfg vs policy c ev = Ok tt <->
  (AuthRequired cfg = true -> authed c = true) /\ kind_refused cfg c ev = false /\ CheckSelfAuthored ev (sSelf cfg) (RelayAuthoredKinds cfg) = None /\
  Verify (verifyOpts cfg) ev = Ok tt /\ first_refusal (vs (Kind ev)) ev = None /\ policy ev = [] /\
  (IsProtected (Tags ev) = true -> is_Some (IdentityMembership c (PubKey ev))).
Proof.
  unfold admits, runEventValidators. rewrite !bind_ok, !if_ok, andb_false_iff, negb_false_iff. split.
  - intros (H1 & H2 & H3 & _ & H5 & H6 & H7 & H8). split_and!; try done.
    + intros HA. destruct H1; congruence.
    + by destruct (CheckSelfAuthored _ _ _).
    + by destruct (Verify _ _) as [[]|?|].
    + by destruct (first_refusal _ _).
    + by destruct (bool_decide_reflect (policy ev = [])).
    + intros HP. rewrite HP in H8. by destruct (IdentityMembership _ _).
  - intros (H1 & H2 & H3 & H4 & H5 & H6 & H7). pose proof (Verify_Validate _ _ H4) as HV. rewrite H3, HV, H4, H5, bool_decide_eq_true_2 by done. split_and!; try done.
    + destruct (AuthRequired cfg); [right; auto|by left].
    + destruct (IsProtected (Tags ev)); [|done]. by destruct (H7 eq_refl) as [i ->].
Qed.

Lemma group_write_none g ev : deniedGroupWrite g ev = None <->
  forall t id, t ∈ Tags ev -> tag2 (bs "h") t = Some id -> Exists g id = true ->
    IsPrivate g id || IsClosed g id || IsRestricted g id = true -> IsMember g id (PubKey ev) = true.
Proof.
  unfold deniedGroupWrite. split.
  - intros HN t id Ht Hid HE HP. eapply (List.find_none _ _) with (x := id) in HN.
    + rewrite HP in HN. cbn [andb] in HN. by apply negb_false_iff.
    + apply filter_In. split; [|done]. apply list_elem_of_In, list_elem_of_omap. eauto.
  - intros HA. destruct (List.find _ _) as [id|] eqn:EF; [|done]. exfalso. apply List.find_some in EF as [HI HP].
    apply filter_In in HI as [HI HE]. apply list_elem_of_In, list_elem_of_omap in HI as (t & Ht & Hid).
    apply andb_true_iff in HP as [HP HM]. by rewrite (HA t id Ht Hid HE HP) in HM.
Qed.

(** C11: An event reaches the store exactly when it passes every check: the relay's
    gate, the agent's credential, self-authorship, the signature and its work, the
    validators and the policy, NIP-70, the groups it names, and membership of the
    key that signed it, authenticated on this very connection. *)
Theorem stored_iff cfg vs policy g c ev : event_verdict cfg vs policy g c ev = Some VStore <-> publishable cfg vs policy g c ev.
Proof.
  unfold event_verdict. split.
  - destruct (admits cfg vs policy c ev) as [[]|?|] eqn:EA; [|done..]. apply admits_iff in EA as (H1 & H2 & H3 & H4 & H5 & H6 & H7).
    destruct (_ || _) eqn:E1; [done|]. apply orb_false_iff in E1 as [E1%Z.eqb_neq E2%Z.eqb_neq]. destruct (_ || _) eqn:E3; [done|]. apply orb_false_iff in E3 as [E3 E4].
    intros [= HC]. unfold content_verdict in HC. destruct (deniedGroupWrite g ev) eqn:EG; [done|].
    split; try done; [by apply kind_refused_false|by apply self_authored_none|by apply first_refusal_none|by apply group_write_none|].
    intros HR HS. rewrite HR, HS in HC. cbn [andb negb] in HC. destruct (IdentityMembership _ _) as [i|]; [|done]. exists i. split; [done|].
    unfold holds_membership in HC. by destruct (bool_decide_reflect (iStatus i = MembershipNone)).
  - intros [H1 H2 H3 H4 H5 H6 H7 (K1 & K2 & K3 & K4) H8 H9]. assert (HA : admits cfg vs policy c ev = Ok tt).
    { apply admits_iff. split_and!; try done; [by apply kind_refused_false|by apply self_authored_none|by apply first_refusal_none]. }
    rewrite HA, (proj2 (Z.eqb_neq _ _) K1), (proj2 (Z.eqb_neq _ _) K2), K3, K4. cbn [orb]. unfold content_verdict.
    rewrite (proj2 (group_write_none g ev) H8). destruct (MembershipRequired cfg); [|done]. destruct (Access.IsRelayAuthoredKind (Kind ev)); [done|].
    cbn [andb negb]. destruct (H9 eq_refl eq_refl) as (i & -> & Hi). unfold holds_membership. by rewrite bool_decide_eq_false_2.
Qed.

(** ** One OK *)

Definition is_OK (r : Reply) : bool := match r with ROk _ _ _ => true | _ => false end.

(** What was replied since, its OKs being these. *)
Definition replied (c c' : Conn) (oks : list Reply) : Prop := exists l, replies c' = replies c ++ l /\ List.filter is_OK l = oks.

Lemma replied_refl c : replied c c [].
Proof. exists []. by rewrite app_nil_r. Qed.
Lemma replied_trans c1 c2 c3 l1 l2 : replied c1 c2 l1 -> replied c2 c3 l2 -> replied c1 c3 (l1 ++ l2).
Proof. intros (x & Hx & <-) (y & Hy & <-). exists (x ++ y). rewrite Hy, Hx, app_assoc. split; [done|]. by rewrite List.filter_app. Qed.
Lemma replied_reply c r : replied c (reply c r) (if is_OK r then [r] else []).
Proof. exists [r]. split; [done|]. cbn. by destruct (is_OK r). Qed.
Lemma replied_same c c' : replies c' = replies c -> replied c c' [].
Proof. intros E. exists []. by rewrite app_nil_r. Qed.

Lemma replied_closed c (ids : list gostring) msg : replied c (foldl (fun c id => reply c (RClosed id msg)) c ids) [].
Proof.
  revert c. induction ids as [|id ids IH]; intros c; [apply replied_refl|]. cbn [foldl].
  apply (replied_trans _ (reply c (RClosed id msg)) _ [] []); [apply (replied_reply c (RClosed id msg))|apply IH].
Qed.

Lemma replied_hook cfg h c : replied c (call_hook cfg h c) [].
Proof.
  destruct h as [pk|pk]; cbn [call_hook]; [by apply replied_same|]. unfold revokeMembership. destruct (revokeActiveMembership pk c) as [c' ch] eqn:E.
  assert (HE : replied c c' []) by (unfold revokeActiveMembership, move_all in E; injection E as <- _; by apply replied_same).
  destruct (_ || _); [done|]. apply (replied_trans _ c' _ [] []); [done|]. apply (replied_closed (set_subs c' ∅)).
Qed.

Lemma replied_hooks cfg hs c : replied c (call_hooks cfg hs c) [].
Proof.
  revert c. induction hs as [|h hs IH]; intros c; [apply replied_refl|]. cbn [call_hooks foldl].
  apply (replied_trans _ (call_hook cfg h c) _ [] []); [apply replied_hook|apply IH].
Qed.

(** The OKs of a step, by connection. *)
Definition replies_of (r r' : Relay) (oks : Z -> list Reply) : Prop :=
  forall id c, conns r !! id = Some c -> exists c', conns r' !! id = Some c' /\ replied c c' (oks id).

Lemma replies_refl r : replies_of r r (fun _ => []).
Proof. intros id c Hc. exists c. split; [done|apply replied_refl]. Qed.

Lemma replies_trans r1 r2 r3 f1 f2 : replies_of r1 r2 f1 -> replies_of r2 r3 f2 -> replies_of r1 r3 (fun id => f1 id ++ f2 id).
Proof.
  intros H1 H2 id c Hc. destruct (H1 id c Hc) as (c2 & Hc2 & R1). destruct (H2 id c2 Hc2) as (c3 & Hc3 & R2). exists c3. split; [done|by eapply replied_trans].
Qed.

Definition only (id : Z) (rep : Reply) : Z -> list Reply := fun id' => if bool_decide (id' = id) then [rep] else [].

Lemma replies_reply_to r id eid a msg : replies_of r (reply_to r id (ROk eid a msg)) (only id (ROk eid a msg)).
Proof.
  intros id' c Hc. unfold only. cbn [reply_to set_conns conns]. destruct (bool_decide_reflect (id' = id)) as [->|Hne].
  - rewrite lookup_alter_eq, Hc. eexists. split; [reflexivity|]. apply (replied_reply c (ROk eid a msg)).
  - rewrite lookup_alter_ne by done. exists c. split; [done|apply replied_refl].
Qed.

Lemma replies_members_out cfg r m : replies_of r (members_out cfg r m) (fun _ => []).
Proof. intros id c Hc. cbn [members_out conns]. rewrite lookup_fmap, Hc. eexists. split; [reflexivity|apply replied_hooks]. Qed.

Lemma replies_ext r r' f f' : (forall id, f id = f' id) -> replies_of r r' f -> replies_of r r' f'.
Proof. intros HE HR id c Hc. rewrite <- HE. by apply HR. Qed.

Context (HA : db_answers).

Lemma store_total s e ev : is_Some (sign_and_store s e ev).
Proof using HA.
  unfold sign_and_store. pose proof (safe_Sign ev (PrivKey s)) as HS. destruct (Sign ev (PrivKey s)) as [ev' [[]|?|]]; cbn in HS; [|by eexists|done].
  pose proof (an_insert HA e [ev']) as HI. destruct (InsertEvents e [ev']) as [[e' ?]|?|]; [by eexists..|done].
Qed.

Lemma publish_list_total now s m : is_Some (publishMembershipList now s m).
Proof using HA.
  unfold publishMembershipList. destruct (_ || _); [by eexists|].
  assert (HS : safe (ListMemberRecords (membersB m))).
  { unfold ListMemberRecords. destruct (membersB m) as [b|]; [|done]. induction (ascend b []) as [|[k v] l IH]; [done|]. cbn [decode_all].
    destruct (UnmarshalMember v); [|done]. by destruct (decode_all UnmarshalMember l). }
  destruct (ListMemberRecords _); [|by eexists|done]. unfold newer_list. pose proof (an_query HA (mevs m) (mkFilter None (Some [selfPubkey s]) (Some [Access.KindMembershipList]) ∅ 0 0 1 [] [] [])) as HQ.
  destruct (QueryEvents _ _) as [l|?|]; [| |done].
  - destruct l as [|prev [|? ?]]; cbn [mbind option_bind]; match goal with |- context [sign_and_store ?s ?e ?ev] => destruct (store_total s e ev) as [? ->]; by eexists end.
  - cbn [mbind option_bind]. match goal with |- context [sign_and_store ?s ?e ?ev] => destruct (store_total s e ev) as [? ->]; by eexists end.
Qed.

Lemma publish_user_total cfg s m ev : is_Some (publish_user cfg s m ev).
Proof using HA.
  unfold publish_user. destruct (MembershipPublishAddRemove cfg); [|by eexists]. unfold publish_self. destruct (bool_decide _); [by eexists|].
  destruct (store_total s (mevs m) ev) as [? ->]. by eexists.
Qed.

Lemma safe_find_unique found name ts : safe (find_unique found name ts).
Proof using Type. revert found. induction ts as [|t ts IH]; intros found; cbn [find_unique]; [by destruct found|]. destruct (tag_is _ _); [by destruct found|apply IH]. Qed.

Lemma safe_claim ev k : safe (Access.claim_of ev k).
Proof using Type.
  unfold Access.claim_of, Access.check_shape. assert (HS : safe (FindUniqueEventTagValue (Tags ev) (bs "claim"))) 
    by (unfold FindUniqueEventTagValue, FindUniqueEventTag; apply safe_bind; [apply safe_find_unique|intros [|? [|? ?]]; done]).
  destruct (negb _); [done|]. destruct (negb _); [done|]. cbn [mbind outcome_bind]. destruct (FindUniqueEventTagValue _ _); [by destruct (bool_decide _)|done|done].
Qed.

Lemma MemberHandle_total now acfg s ev m : Kind ev = Access.KindJoinRequest \/ Kind ev = Access.KindLeaveRequest ->
  exists m' rep, MemberHandle now acfg s ev (Some m) = Some (Some m', Some rep) /\ aEventID rep = ID ev.
Proof using HA.
  intros HK. unfold MemberHandle. destruct (Z.eqb_spec (Kind ev) Access.KindJoinRequest) as [E|E].
  - assert (HJ : is_Some (handleJoin now acfg s ev m)).
    { unfold handleJoin, Access.ParseJoinRequest. pose proof (safe_claim ev Access.KindJoinRequest) as HS. destruct (Access.claim_of _ _) as [claim|?|]; [|by eexists|done].
      destruct (MIsMember m (PubKey ev)); [by eexists|]. unfold ConsumeInviteClaim. destruct (Get _ _) as [d|]; [|by eexists].
      destruct (UnmarshalClaim d) as [cl|]; [|by eexists]. destruct (_ && _); [by eexists|]. destruct (_ && _); [by eexists|]. destruct (Put _ _ _) as [b|]; [|by eexists].
      unfold Join, enroll, PutMember, put_json. destruct (Put _ _ _) as [b'|]; [|by eexists]. cbn [mbind outcome_bind].
      match goal with |- context [publishMembershipList ?n ?s ?m] => destruct (publish_list_total n s m) as [m1 ->] end. cbn [mbind option_bind].
      match goal with |- context [publish_user ?a ?b ?c ?d] => destruct (publish_user_total a b c d) as [m2 ->] end. by eexists. }
    destruct HJ as [[m' rep] HJ]. rewrite HJ. exists m', rep. split; [done|]. by apply handleJoin_cases in HJ as [? _].
  - destruct HK as [HK|HK]; [done|]. rewrite HK, Z.eqb_refl. assert (HJ : is_Some (handleLeave now acfg s ev m)).
    { unfold handleLeave, Access.ParseLeaveRequest, Access.check_shape. destruct (negb _); [by eexists|]. destruct (negb _); [by eexists|].
      destruct (negb (MIsMember _ _)); [by eexists|]. unfold Leave.
      match goal with |- context [publishMembershipList ?n ?s ?m] => destruct (publish_list_total n s m) as [m1 ->] end. cbn [mbind option_bind].
      match goal with |- context [publish_user ?a ?b ?c ?d] => destruct (publish_user_total a b c d) as [m2 ->] end. by eexists. }
    destruct HJ as [[m' rep] HJ]. rewrite HJ. exists m', rep. split; [done|]. by apply handleLeave_cases in HJ as [? _].
Qed.

Lemma verdict_total cfg vs policy g c ev : is_Some (event_verdict cfg vs policy g c ev).
Proof using Type.
  unfold event_verdict. assert (HS : safe (admits cfg vs policy c ev)).
  { unfold admits. pose proof (safe_Validate ev) as H1. pose proof (safe_Verify (verifyOpts cfg) ev) as H2. destruct (Validate ev); [| |done]; destruct (Verify _ ev); try done; by_safe. }
  destruct (admits cfg vs policy c ev); [by eexists..|done].
Qed.


End Publish.

(** ** Live connections *)

Section Live.
Context {GoLower0 : GoLower} {Schnorr0 : Schnorr} {Bolt0 : Bolt} {MemberJSON0 : MemberJSON} {GroupJSON0 : GroupJSON} {EventDB0 : EventDB}.

(** C7: In every reachable state, on every live connection: an identity counts as a
    member only while it is one, and counts as one while it is; and where
    membership is required a connection with an open subscription holds a
    membership, so nobody keeps reading after leaving or being taken off the
    list. *)
Theorem live_memberships cfg acfg vs policy r id c :
  relay_reach cfg acfg vs policy r -> conns r !! id = Some c ->
  (forall i, i ∈ Identities c -> (iStatus i = MembershipActive -> MIsMember (rmembers r) (iPubkey i) = true) /\
                                 (MIsMember (rmembers r) (iPubkey i) = true -> iStatus i <> MembershipNone)) /\
  (MembershipRequired cfg = true -> subscriptions c <> ∅ -> HasMembership c = true).
Proof.
  intros HR Hc. destruct (ri_live cfg r (relay_reach_inv cfg acfg vs policy r HR) id c Hc) as [H1 H2 _ H4]. split; [|done].
  intros i Hi. unfold Identities in Hi. destruct (bool_decide_reflect (iPubkey (primary c) = [])) as [E|E]; [by apply elem_of_nil in Hi|].
  apply elem_of_cons in Hi as [->|Hi].
  - destruct H1 as [[H1 _]|(_ & H1)]; [by rewrite H1 in E|done].
  - rewrite Forall_forall in H2. by destruct (H2 i Hi) as (_ & ?).
Qed.

End Live.

(** ** Negentropy *)

Section NegItems.
Context {hash : Hash256}.

Lemma rstep_Items st r st' v : (rPrevIdx st <= length (Items (rNeg st)))%nat -> rstep st r = (st', v) ->
  Items (rNeg st') = Items (rNeg st) /\ (v = Continue -> (rPrevIdx st' <= length (Items (rNeg st')))%nat).
Proof.
  intros Hi. unfold rstep. set (upper := lowerBound _ _ _). assert (Hlu : (rPrevIdx st <= upper <= length (Items (rNeg st)))%nat) by (by apply lowerBound_range).
  destruct (mode_switch st r (rPrevIdx st) upper) as [[st1 o up full]|v0] eqn:EM.
  - destruct (mode_switch_state _ _ _ _ _ (proj1 Hlu) EM) as (Hup & HIt & _). cbn [swState swUpper] in *. destruct (full || _).
    + destruct (if negb full && rSkip st then _ else _) as [resp w]. intros [= <- <-]. cbn. by rewrite HIt.
    + destruct (if (0 <? length o)%nat then _ else _) as [[f resp] w]. intros [= <- <-]. cbn. rewrite HIt. split; [done|]. intros _. lia.
  - intros [= <- <-]. split; [done|]. intros ->. unfold mode_switch in EM. repeat (match type of EM with context [match ?x with _ => _ end] => destruct x end); by simplify_eq.
Qed.

Lemma rloop_Items rs st : (rPrevIdx st <= length (Items (rNeg st)))%nat -> Items (rNeg (rloop st rs).1) = Items (rNeg st).
Proof.
  revert st. induction rs as [|r rs IH]; intros st Hi; [done|]. cbn [rloop]. destruct (rstep st r) as [st' v] eqn:E. apply rstep_Items in E as [HE HC]; [|done].
  destruct v; try done. rewrite IH; [done|]. by apply HC.
Qed.

(** A round does not change what the session reconciles. *)
Lemma Reconcile_Items n m : Items (Reconcile n m).1 = Items n.
Proof.
  unfold Reconcile. pose proof (rloop_Items (Ranges m) (rinit n)) as HR. destruct (rloop (rinit n) (Ranges m)) as [st v]. cbn [fst rinit rNeg rPrevIdx] in HR.
  destruct v; cbn [fst]; apply HR; lia.
Qed.

Lemma split_prefix n items upper per ex ub i curr : Forall item_ok items -> zlen (IDPrefix ub) <= 32 ->
  Forall (fun r => zlen (IDPrefix (UpperBound r)) <= 32) (split_buckets n items upper per ex ub i curr).
Proof.
  intros Hok Hub. revert i curr. induction n as [|n IH]; intros i curr; cbn [split_buckets]; constructor; [|apply IH]. cbn [UpperBound].
  destruct (_ =? _)%nat; [done|]. destruct (items !! (_ - 1)%nat) as [p|]; [|done]. destruct (items !! _) as [q|] eqn:EQ; [|done].
  rewrite Forall_forall in Hok. destruct (Hok q ltac:(by eapply list_elem_of_lookup_2)) as [_ HL]. unfold minimalBound. destruct (negb _); [by unfold zlen; cbn; lia|].
  cbn [IDPrefix]. unfold zlen. rewrite length_take. lia.
Qed.

Lemma initiate_prefix items : Forall item_ok items -> Forall (fun r => zlen (IDPrefix (UpperBound r)) <= 32) (Ranges (Initiate (New items)).2).
Proof.
  intros Hok. cbn [Initiate Ranges snd New Items]. unfold splitRange. destruct (_ <? _)%nat; [constructor; [by unfold zlen; cbn; lia|constructor]|].
  apply split_prefix; [done|]. by unfold zlen; cbn; lia.
Qed.

End NegItems.

Section NegOpen.
Context {Bolt0 : Bolt} {JSON0 : EventJSON} {Derived0 : Derived} {GoLower0 : GoLower}.
Context (BL : BoltLaws) (mit MaxLimit : Z) (tx : Tx) (S : gmap Z Event).
Context (HR : represents mit tx S) (HU : ids_unique S) (HM : 0 < MaxLimit).
Context (Htimes : forall id ev, S !! id = Some ev -> 0 < CreatedAt ev < 2 ^ 64 - 1).
#[local] Set Default Proof Using "All".

(** A stored event a one-filter query asks for. *)
Definition asked (f : SubscriptionFilter) (id : Z) (ev : Event) : Prop := S !! id = Some ev /\ query_wants S f id ev = true.

(** Every event asked for fits on the page. *)
Definition one_page (f : SubscriptionFilter) : Prop :=
  (length (newest S (query_wants S f)) <= Z.to_nat (clamp (Limit f) filterMinLimit MaxLimit))%nat.

Lemma page_all f : one_page f -> forall x, x ∈ page MaxLimit S f <-> asked f x.1 x.2.
Proof using Type.
  intros HF [id ev]. unfold page, asked. rewrite take_ge by exact HF. apply newest_spec.
Qed.

(** With no recipient-only kinds, NEG-OPEN works on the page. *)
Lemma processNegOpen_plain cfg c sub f h : RecipientOnlyKinds cfg = [] ->
  processNegOpen MaxLimit cfg tx c sub f h =
  (items ← queryNip77Items MaxLimit tx f (fun _ => false); match answer_neg c sub (New (reverse items)) h with Some c => Ok c | None => Panic end).
Proof using Type. intros HK. unfold processNegOpen. rewrite HK. cbn [namesRecipientOnlyKind mayMatchRecipientOnlyKind]. by rewrite andb_false_r. Qed.

Lemma plain_items f : answerable mit S f -> exists l, queryNip77Items MaxLimit tx f (fun _ => false) = Ok l /\ sorted (reverse l) /\
  (forall it, it ∈ reverse l <-> exists x, x ∈ page MaxLimit S f /\ it = event_item x.2) /\
  Forall item_ok (reverse l) /\ finite_items (reverse l) /\ NoDup (map NegCodec.ID (reverse l)).
Proof.
  intros HA. destruct (queryNip77Items_spec BL mit MaxLimit tx S HR HU HM Htimes f (fun _ => false) HA) as (l & H1 & H2 & H3 & H4 & H5 & H6).
  exists l. split_and!; try done. intros it. rewrite elem_of_reverse, H3. split; [intros (x & Hx & _ & ->)|intros (x & Hx & ->)]; eauto.
Qed.

(** The session keeps its items, whatever the message. *)
Lemma answer_neg_session c sub n h c' : answer_neg c sub n h = Some c' -> exists n', negentropySessions c' !! sub = Some n' /\ Items n' = Items n.
Proof using Type.
  unfold answer_neg. destruct (FromHex h) as [m|e|]; [| |done].
  - pose proof (Reconcile_Items n m) as HI. destruct (Reconcile n m) as [n' res]. cbn [fst] in HI. intros HP. exists n'. split; [|done].
    destruct res as [[[rm ?] ?]|e|]; [|injection HP as <-; cbn; by rewrite lookup_insert_eq|done].
    destruct (ToHex rm); [| |done]; injection HP as <-; cbn; by rewrite lookup_insert_eq.
  - intros [= <-]. exists n. split; [cbn; by rewrite lookup_insert_eq|done].
Qed.

(** The session NEG-OPEN leaves. *)
Lemma open_session cfg c sub f h c' : RecipientOnlyKinds cfg = [] -> answerable mit S f -> processNegOpen MaxLimit cfg tx c sub f h = Ok c' ->
  exists n, negentropySessions c' !! sub = Some n /\ forall it, it ∈ Items n <-> exists x, x ∈ page MaxLimit S f /\ it = event_item x.2.
Proof.
  intros HK HA HP. destruct (plain_items f HA) as (l & HQ & _ & Hin & _). rewrite processNegOpen_plain, HQ in HP by done. cbn [mbind outcome_bind] in HP.
  destruct (answer_neg c sub (New (reverse l)) h) as [c0|] eqn:EA; [|done]. injection HP as <-. apply answer_neg_session in EA as (n & Hn & HI).
  exists n. split; [done|]. intros it. rewrite HI. apply Hin.
Qed.

(** A client that holds exactly the stored events a filter asks for, as an
    ascending list of items, and opens a session over them is told so: the relay
    answers NEG-OPEN with one message, after which the client is done with nothing
    to send and nothing to fetch. *)
Theorem negopen_in_sync cfg c sub f items h n1 m1 :
  RecipientOnlyKinds cfg = [] -> answerable mit S f -> one_page f ->
  sorted items -> (forall it, it ∈ items <-> exists id ev, asked f id ev /\ it = event_item ev) ->
  Initiate (New items) = (n1, m1) -> FromHex h = Ok m1 ->
  exists c' resp hex n3 m3, processNegOpen MaxLimit cfg tx c sub f h = Ok c' /\ replies c' = replies c ++ [RNegMsg sub hex] /\
    ToHex resp = Ok hex /\ Reconcile n1 resp = (n3, Ok (m3, [], [])) /\ IsComplete m3 = true.
Proof.
  intros HK HA HF Hs Hi HI Hh. destruct (plain_items f HA) as (l & HQ & Hsl & Hin & Hok & Hfin & Hnd).
  assert (reverse l = items) as HE.
  { apply sorted_unique; [done|done|]. intros it. rewrite Hin, Hi. split.
    - intros (x & Hx & ->). apply (page_all f HF) in Hx. by exists x.1, x.2.
    - intros (id & ev & Hx & ->). exists (id, ev). split; [by apply (page_all f HF)|done]. }
  rewrite processNegOpen_plain by done. rewrite HQ. cbn [mbind outcome_bind]. rewrite HE in *. unfold answer_neg. rewrite Hh.
  pose proof (equal_sets items Hs Hok Hfin Hnd) as HX. rewrite HI in HX. destruct HX as (n2 & m2 & n3 & m3 & HX1 & HX2 & HX3).
  pose proof (initiate_prefix items Hok) as HP. rewrite HI in HP. cbn [snd] in HP.
  destruct (response_encodes (New items) n2 m1 m2 [] []) as (b & Hb & _); [done|done|done|done|].
  rewrite HX1. cbn iota beta. assert (HT : ToHex m2 = Ok (Hex.encode b)) by (unfold ToHex; by rewrite Hb). rewrite HT.
  eexists _, m2, (Hex.encode b), n3, m3. split; [reflexivity|]. done.
Qed.

(** NEG-OPEN asks neither of the gates a REQ passes: on a connection whose REQ for
    the same filter is refused, for want of authentication, of membership or of
    the group named, the session that is opened holds the item of every stored
    event of the page. *)
Theorem negopen_ungated `{!Schnorr} `{!GroupJSON} `{!EventDB} cfg (g : GroupsService) c sub f h q msg c' :
  RecipientOnlyKinds cfg = [] -> answerable mit S f -> read_refusal cfg g c [f] = Some msg ->
  processNegOpen MaxLimit cfg tx c sub f h = Ok c' ->
  processRequest cfg g c sub [f] q = Some (refuse_read c sub (Says msg)) /\
  exists n, negentropySessions c' !! sub = Some n /\ forall x, x ∈ page MaxLimit S f -> event_item x.2 ∈ Items n.
Proof.
  intros HK HA HG HP. split; [unfold processRequest; by rewrite HG|]. destruct (open_session cfg c sub f h c' HK HA HP) as (n & Hn & Hin).
  exists n. split; [done|]. intros x Hx. apply Hin. eauto.
Qed.

(** A page cut by the relay's limit reconciles as though the events beyond it were
    not stored. *)
Theorem negopen_truncates cfg c sub f h c' :
  RecipientOnlyKinds cfg = [] -> answerable mit S f -> ~ one_page f -> processNegOpen MaxLimit cfg tx c sub f h = Ok c' ->
  exists n id ev, negentropySessions c' !! sub = Some n /\ asked f id ev /\ event_item ev ∉ Items n.
Proof.
  intros HK HA HF HP. destruct (open_session cfg c sub f h c' HK HA HP) as (n & Hn & Hin).
  assert (HX : exists x, x ∈ newest S (query_wants S f) /\ x ∉ page MaxLimit S f).
  { unfold one_page in HF. set (k := Z.to_nat _) in HF. destruct (lookup_lt_is_Some_2 (newest S (query_wants S f)) k ltac:(lia)) as [x Hx]. exists x.
    split; [by eapply list_elem_of_lookup_2|]. intros Hp. unfold page in Hp. fold k in Hp. apply elem_of_take in Hp as (i & Hi & Hlt).
    destruct (newest_spec S (query_wants S f)) as (_ & HN & _). assert (i = k); [|lia].
    apply (NoDup_lookup (newest S (query_wants S f)).*1 i k x.1); [done|by rewrite list_lookup_fmap, Hi|by rewrite list_lookup_fmap, Hx]. }
  destruct HX as ([id ev] & Hx & Hnp). apply newest_spec in Hx as [Hid HW]. exists n, id, ev. split_and!; try done.
  rewrite Hin. intros ([id' ev'] & Hp & HE). destruct (page_stored _ _ _ _ Hp) as [Hid' _]. cbn in Hid', HE. injection HE as _ HE.
  pose proof (HU _ _ _ _ Hid Hid' HE) as <-. rewrite Hid in Hid'. injection Hid' as <-. done.
Qed.

End NegOpen.

(** ** COUNT *)

Section CountProps.
Context {Bolt0 : Bolt} {JSON0 : EventJSON} {Derived0 : Derived} {GoLower0 : GoLower} {Schnorr0 : Schnorr} {GroupJSON0 : GroupJSON}.
Context (BL : BoltLaws) (mit MaxLimit : Z) (tx : Tx) (S : gmap Z Event).
Context (HR : represents mit tx S) (HU : ids_unique S) (HM : 0 < MaxLimit).
Context (Htimes : forall id ev, S !! id = Some ev -> 0 < CreatedAt ev < 2 ^ 64 - 1).
#[local] Set Default Proof Using "All".
#[local] Instance count_db : EventDB := store_db mit MaxLimit.

Lemma fetch_capped_fetch fuel q sent out sent' :
  fetch fuel (fun _ => tx) false q sent = Some (Ok (out, sent')) -> exists cap, fetch_capped fuel tx q sent = Some (Ok (out, cap)).
Proof using Type.
  revert sent out. induction q as [|s q IH]; intros sent out; cbn [fetch fetch_capped]; [intros [= <- <-]; by eexists|].
  destruct (scan fuel (fun _ => tx) false s sent) as [[[[o s1] sent1]|?|]|]; [|done..].
  destruct (fetch fuel (fun _ => tx) false q sent1) as [[[o' sent2]|?|]|] eqn:EF; [|done..]. intros [= <- <-]. destruct (IH _ _ EF) as [cap ->]. by eexists.
Qed.

Lemma CountEventsApprox_spec f deny : answerable mit S f -> exists cap,
  CountEventsApprox MaxLimit tx [f] deny = Ok (zlen (List.filter (fun x => negb (deny (as_potential x))) (page MaxLimit S f)), cap).
Proof.
  intros (HI & HA & HT). pose proof (findEvents_spec BL mit MaxLimit tx S HR HU HM Htimes f HI HA HT) as HF. fold (page MaxLimit S f) in HF.
  unfold StoreScan.findEvents in HF. unfold CountEventsApprox. destruct (newStoreQuery MaxLimit tx [f]) as [q|?|]; [|done..]. cbn [mbind outcome_bind] in *.
  destruct (fetch _ _ _ _ _) as [[[out sent]|?|]|] eqn:EF; [|done..]. cbn in HF. injection HF as ->. apply fetch_capped_fetch in EF as [cap ->]. cbn.
  exists cap. do 2 f_equal. unfold zlen. f_equal. clear. induction (page MaxLimit S f) as [|x l IH]; [done|]. cbn [map List.filter]. destruct (deny _); cbn; by rewrite IH.
Qed.

(** What a read of this filter does not deliver. *)
Definition hidden (kinds : list Z) (g : GroupsService) (s : list gostring) (f : SubscriptionFilter) (x : Z * Event) : bool :=
  deniedPrivateGroupPotentialEvent g s (as_potential x) ||
  (mayMatchRecipientOnlyKind kinds [f] && deniedRecipientOnlyPotentialEvent kinds s (as_potential x)).

(** The check that is skipped would have denied nothing. *)
Lemma hidden_checked kinds g s f x : S !! x.1 = Some x.2 -> Match f x.2 = true ->
  hidden kinds g s f x = (needsPrivacyCheck g [f] && deniedPrivateGroupPotentialEvent g s (as_potential x)) ||
    (mayMatchRecipientOnlyKind kinds [f] && deniedRecipientOnlyPotentialEvent kinds s (as_potential x)).
Proof.
  intros Hx HMt. unfold hidden. destruct (needsPrivacyCheck g [f]) eqn:EN; [done|]. f_equal. cbn [andb].
  unfold deniedPrivateGroupPotentialEvent. destruct (_ && _); [done|]. destruct x as [id ev]. cbn [as_potential Bytes snd] in *.
  destruct (rep_ids mit tx S HR id ev Hx) as (_ & _ & _ & _ & HJ). rewrite HJ. apply (skip_check g s [f]); [done|]. cbn. by rewrite HMt.
Qed.

(** A COUNT of one filter answers with the number of events a REQ of it would
    deliver, or, when the counters answer, with the number the counters hold, none
    of the events it stands for being one a REQ would withhold. *)
Theorem count_shows_what_is_delivered kinds (g : GroupsService) s f n approx :
  answerable mit S f -> count_visible mit MaxLimit kinds g s tx [f] = Ok (n, approx) ->
  n = zlen (List.filter (fun x => negb (hidden kinds g s f x)) (page MaxLimit S f)) \/
  (CountFromCounters tx [f] = Ok (Some n) /\ approx = false /\ forall id ev, S !! id = Some ev -> Match f ev = true -> hidden kinds g s f (id, ev) = false).
Proof.
  intros HA HC. assert (HP : forall x, In x (page MaxLimit S f) -> S !! x.1 = Some x.2 /\ Match f x.2 = true).
  { intros x Hx%list_elem_of_In. destruct (page_stored _ _ _ _ Hx) as [H1 H2]. split; [done|]. unfold query_wants in H2.
    apply andb_true_iff in H2 as [H2 _]. by apply andb_true_iff in H2 as [_ ?]. }
  assert (HE : forall deny, (forall x, In x (page MaxLimit S f) -> deny (as_potential x) = hidden kinds g s f x) -> forall n cap,
    CountEventsApprox MaxLimit tx [f] deny = Ok (n, cap) -> n = zlen (List.filter (fun x => negb (hidden kinds g s f x)) (page MaxLimit S f))).
  { intros deny HD n' cap HX. destruct (CountEventsApprox_spec f deny HA) as [cap' HS]. rewrite HS in HX. injection HX as <- _. f_equal.
    apply filter_ext_in. intros x Hx. by rewrite HD. }
  unfold count_visible in HC. match type of HC with (if ?b then _ else _) = _ => destruct b eqn:EC end.
  - left. eapply HE; [|exact HC]. intros x Hx. destruct (HP x Hx). cbn beta. by rewrite hidden_checked.
  - apply orb_false_iff in EC as [E1 E2]. assert (HN : forall x, S !! x.1 = Some x.2 -> Match f x.2 = true -> hidden kinds g s f x = false).
    { intros x H1 H2. rewrite hidden_checked by done. assert (EN : needsPrivacyCheck g [f] = false) by exact E1. by rewrite EN, E2. }
    destruct (CountFromCounters tx [f]) as [[m|]|?|] eqn:EM; [|left; eapply HE; [|exact HC]; intros x Hx; destruct (HP x Hx); by rewrite HN..|done].
    injection HC as <- <-. right. split_and!; try done. intros id ev H1 H2. by apply HN.
Qed.

End CountProps.

(** ** HTTP *)

Section HttpProps.
Context {GoLower0 : GoLower} {Schnorr0 : Schnorr} {JSON0 : EventJSON} {Bolt0 : Bolt} {MemberJSON0 : MemberJSON} {GroupJSON0 : GroupJSON} {EventDB0 : EventDB}.

(** What a POST of /events passes before it is stored: the body is an event of the
    key that signed the request, it verifies, and the relay's rules admit it. *)
Theorem http_event_sound nowT h vs m r body ev :
  event_offer nowT h vs m r body = Ok ev ->
  exists b, body = Some b /\ Method r = bs "POST" /\ zlen b <= MaxEventsBodyBytes /\ UnmarshalEvent b = Some ev /\
    (VerifyAnyPubkey None r (mkOptions [] (Some b) false true 0 [] []) nowT).2 = Ok (PubKey ev) /\
    Verify (http_verifyOpts (ehLimitation h)) ev = Ok tt /\ first_refusal (vs (Kind ev)) ev = None /\ ehPolicy h ev = [] /\
    CheckSelfAuthored ev (ehSelf h) (ehRelayAuthored h) = None /\
    (forall l, ehLimitation h = Some l -> MembershipRequired l = true -> Access.IsRelayAuthoredKind (Kind ev) = false ->
      exists ms, m = Some ms /\ MIsMember ms (PubKey ev) = true).
Proof.
  unfold event_offer, post_body. destruct (bool_decide_reflect (Method r = bs "POST")) as [EM|]; [|done]. cbn [negb]. destruct body as [b|]; [|done].
  destruct (Z.ltb_spec MaxEventsBodyBytes (zlen b)); [done|]. cbn [mbind outcome_bind]. unfold signer_of.
  destruct (VerifyAnyPubkey None r _ nowT).2 as [pk|?|] eqn:EV; [|done..]. cbn [mbind outcome_bind]. destruct (UnmarshalEvent b) as [ev'|] eqn:EU; [|done]. cbn [NegCodec.of_opt mbind outcome_bind].
  intros [HA [= ->]]%bind_ok. unfold http_admits in HA. rewrite !bind_ok in HA. destruct HA as (H1 & _ & H3 & _ & H5 & H6 & H7 & H8).
  destruct (bool_decide_reflect (pk = PubKey ev)) as [->|]; [|done]. exists b. split_and!; try done.
  - destruct (Verify _ ev) as [[]|e|]; [done| |done]. by destruct e.
  - unfold runEventValidators in H6. by destruct (first_refusal _ _).
  - by destruct (bool_decide_reflect (ehPolicy h ev = [])).
  - by destruct (CheckSelfAuthored _ _ _).
  - intros l Hl HR HK. rewrite Hl, HR, HK in H8. cbn [andb negb] in H8. destruct m as [ms|]; [|done]. exists ms. split; [done|]. by destruct (MIsMember ms (PubKey ev)).
Qed.

Lemma take_visible_spec hidden seen pes out seen' : take_visible hidden seen pes = (out, seen') ->
  forall b, b ∈ out -> exists pe, pe ∈ pes /\ Bytes pe = b /\ hidden pe = false.
Proof.
  revert seen out. induction pes as [|pe pes IH]; intros seen out; cbn [take_visible]; [intros [= <- <-] b Hb; by apply elem_of_nil in Hb|].
  destruct (bool_decide (Evsid pe ∈ seen) || hidden pe) eqn:E.
  - intros HT b Hb. destruct (IH _ _ HT b Hb) as (x & Hx & ?). exists x. split; [by right|done].
  - apply orb_false_iff in E as [_ E]. destruct (take_visible hidden _ pes) as [o s] eqn:ET. intros [= <- <-] b [->|Hb]%elem_of_cons.
    + exists pe. split; [by left|done].
    + destruct (IH _ _ ET b Hb) as (x & Hx & ?). exists x. split; [by right|done].
Qed.

Lemma query_filters_spec hidden e seen fs out : query_filters hidden e seen fs = Ok out ->
  forall b, b ∈ out -> exists f pes pe, f ∈ fs /\ FindEvents e f = Ok pes /\ pe ∈ pes /\ Bytes pe = b /\ hidden pe = false.
Proof.
  revert seen out. induction fs as [|f fs IH]; intros seen out; cbn [query_filters]; [intros [= <-] b Hb; by apply elem_of_nil in Hb|].
  destruct (FindEvents e f) as [pes|?|] eqn:EF; [|done..]. cbn [mbind outcome_bind]. destruct (take_visible hidden seen pes) as [o s] eqn:ET.
  destruct (query_filters hidden e s fs) as [rest|?|] eqn:EQ; [|done..]. intros [= <-] b [Hb|Hb]%elem_of_app.
  - destruct (take_visible_spec _ _ _ _ _ ET b Hb) as (pe & Hpe & ? & ?). exists f, pes, pe. split_and!; try done. by left.
  - destruct (IH _ _ EQ b Hb) as (f' & pes' & pe & Hf' & ?). exists f', pes', pe. split; [by right|done].
Qed.

(** A check of a request fails with an error. *)
Definition fails {A} (x : outcome HttpAnswer A) : Prop := forall a, x = Err a -> exists status msg, a = HttpError status msg.

Lemma fails_ok {A} (a : A) : fails (Ok a).
Proof. by intros a' ?. Qed.
Lemma fails_panic {A} : fails (A := A) Panic.
Proof. by intros a' ?. Qed.
Lemma fails_err {A} st msg : fails (A := A) (Err (HttpError st msg)).
Proof. intros a' [= <-]. eauto. Qed.
Lemma fails_bind {A B} (x : outcome HttpAnswer A) (k : A -> outcome HttpAnswer B) : fails x -> (forall a, fails (k a)) -> fails (x ≫= k).
Proof. intros Hx Hk a. destruct x as [y|e|]; cbn; [apply Hk|intros [= <-]; by apply Hx|done]. Qed.

Lemma query_admit_fails decode nowT h m g r body : fails (query_admit decode nowT h m g r body).
Proof.
  unfold query_admit, post_body, signer_of, NegCodec.of_opt.
  repeat first [apply fails_bind; [|intros ?] | apply fails_ok | apply fails_panic | apply fails_err | case_match].
Qed.

(** POST /query serves only members where membership is required, refuses a filter
    that names a group the signer may not see, and returns only events of the store
    that the filters' queries found and that a REQ of the signer would deliver. *)
Theorem http_query_sound decode nowT h m g r body out :
  query_ServeHTTP decode nowT h m g r body = Some (HttpEvents out) ->
  exists b pk fs, body = Some b /\ (VerifyAnyPubkey None r (mkOptions [] (Some b) false true 0 [] []) nowT).2 = Ok pk /\ decode b = Some fs /\
    (forall l, qhLimitation h = Some l -> MembershipRequired l = true -> exists ms, m = Some ms /\ MIsMember ms pk = true) /\
    deniedPrivateGroupFilter g [pk] fs = None /\
    forall x, x ∈ out -> exists f pes pe, f ∈ fs /\ FindEvents (evs g) f = Ok pes /\ pe ∈ pes /\ Bytes pe = x /\ query_hidden h g [pk] fs pe = false.
Proof.
  unfold query_ServeHTTP. destruct (query_admit decode nowT h m g r body) as [[reader fs]|?|] eqn:EA; [| |done].
  2:{ intros [= ->]. by apply query_admit_fails in EA as (? & ? & ?). }
  destruct (query_filters _ _ _ _) as [o|?|] eqn:EQ; [|done..]. intros [= ->]. unfold query_admit, post_body in EA.
  destruct (negb _); [done|]. destruct body as [b|]; [|done]. destruct (_ <? _); [done|]. cbn [mbind outcome_bind] in EA. unfold signer_of in EA.
  destruct (VerifyAnyPubkey None r _ nowT).2 as [pk|?|] eqn:EV; [|done..]. cbn [mbind outcome_bind] in EA.
  destruct (match qhLimitation h with Some l => MembershipRequired l | None => false end && _) eqn:EM; [done|]. cbn [mbind outcome_bind] in EA.
  destruct (decode b) as [fs'|] eqn:ED; [|done]. cbn [NegCodec.of_opt mbind outcome_bind] in EA. destruct (deniedPrivateGroupFilter g [pk] fs') eqn:EG; [done|]. cbn in EA. injection EA as <- <-.
  exists b, pk, fs'. split_and!; try done.
  - intros l Hl HRq. rewrite Hl, HRq in EM. cbn [andb] in EM. destruct m as [ms|]; [|done]. exists ms. split; [done|]. by destruct (MIsMember ms pk).
  - by apply (query_filters_spec _ _ _ _ _ EQ).
Qed.

End HttpProps.
