(* ===== verification/RelayDemo.v ===== *)
(** * relay: a small server

    Instances of what the relay's services are given, and their theorems evaluated
    on them: a relay someone joins and leaves while connected, and a store opened to
    negentropy. *)

From S2P Require Import Prelude GoLib GoHeap Bolt Sha256 NegCodec NegReconcile NegOrder NegSession NostrUtils Pow Event Filter Latest StoreDb StoreInv StoreScan StoreMerge StoreExact StoreQuery StoreEvents StoreLife StoreBatch StoreDemo StoreCounters Nip98 GroupsForest Nip29 Nip29Props GroupStore Groups GroupsInv GroupsAuth GroupsView GroupsTotal GroupsProps GroupsDemo Nip43 AgentAuth Membership MembershipProps RelaySession RelayPacket RelayNeg RelayLive RelayHttp RelayProps.

(** ** A store opened to negentropy *)

Module NegDemo.

#[local] Existing Instances Demo.demo_bolt Demo.demo_json Demo.demo_derived Demo.demo_lower toy_schnorr GroupsDemo.demo_groups GroupsDemo.list_db.

Definition f : SubscriptionFilter := NewFilter.
Definition everything : list Item := [event_item note1; event_item note2].

Definition cfg (auth member : bool) : SessionCfg := mkSessionCfg auth member false 0 0 false false 0 [] [] 0 (bs "wss://r") [] [].

Lemma f_answerable : answerable 5 Demo.S2 f.
Proof. split; [constructor|]. split; [constructor|]. intros id ev _ _ name wanted Hw. cbn [f NewFilter FTags] in Hw. by rewrite lookup_empty in Hw. Qed.

Lemma newest_two : length (newest Demo.S2 (query_wants Demo.S2 f)) = 2%nat.
Proof. vm_compute. reflexivity. Qed.

Lemma asked_iff id ev : asked Demo.S2 f id ev <-> (id = 1 /\ ev = note1) \/ (id = 2 /\ ev = note2).
Proof.
  split; [intros [H _]; by apply Demo.S2_lookup|]. intros [[-> ->]|[-> ->]]; (split; [vm_compute; reflexivity|vm_compute; reflexivity]).
Qed.

Lemma everything_asked it : it ∈ everything <-> exists id ev, asked Demo.S2 f id ev /\ it = event_item ev.
Proof.
  unfold everything. rewrite !elem_of_cons, elem_of_nil. split.
  - intros [->|[->|[]]]; [exists 1, note1|exists 2, note2]; (split; [apply asked_iff; auto|done]).
  - intros (id & ev & [[-> ->]|[-> ->]]%asked_iff & ->); auto.
Qed.

(** The message the client opens with. *)
Definition opening : gostring := match ToHex (Initiate (New everything)).2 with Ok h => h | _ => [] end.

Lemma negopen_in_sync_witness : exists c' resp hex n3 m3,
  processNegOpen 100 (cfg false false) Demo.tx2 (NewConn (bs "x")) (bs "s") f opening = Ok c' /\ replies c' = [RNegMsg (bs "s") hex] /\
  ToHex resp = Ok hex /\ Reconcile (Initiate (New everything)).1 resp = (n3, Ok (m3, [], [])) /\ IsComplete m3 = true.
Proof.
  destruct Demo.tx2_inv as [[HR HU HT _] _].
  apply (negopen_in_sync Demo.demo_laws 5 100 Demo.tx2 Demo.S2 HR HU ltac:(lia) HT (cfg false false) (NewConn (bs "x")) (bs "s") f everything opening _ (Initiate (New everything)).2).
  - reflexivity.
  - exact f_answerable.
  - unfold one_page. rewrite newest_two. vm_compute. lia.
  - apply sortedb_sound. vm_compute. reflexivity.
  - exact everything_asked.
  - reflexivity.
  - vm_compute. reflexivity.
Defined.

(** What a malformed opening message leaves. *)
Definition opened (m : Z) (c : SessionCfg) : Conn :=
  match processNegOpen m c Demo.tx2 (NewConn (bs "x")) (bs "s") f [] with Ok c' => c' | _ => NewConn [] end.

Lemma opened_ok m c : 0 < m -> RecipientOnlyKinds c = [] -> processNegOpen m c Demo.tx2 (NewConn (bs "x")) (bs "s") f [] = Ok (opened m c).
Proof.
  intros Hm Hc. destruct Demo.tx2_inv as [[HR HU HT _] _].
  destruct (plain_items Demo.demo_laws 5 m Demo.tx2 Demo.S2 HR HU Hm HT f f_answerable) as (l & HQ & _).
  unfold opened. rewrite processNegOpen_plain by exact Hc. rewrite HQ. reflexivity.
Qed.

Definition nobody : GroupsService := NewGroupsService None None [].

(** On a relay that serves only its members, someone who is nobody there. *)
Lemma negopen_ungated_witness :
  processRequest (cfg true true) nobody (NewConn (bs "x")) (bs "s") [f] (Ok tt)
    = Some (refuse_read (NewConn (bs "x")) (bs "s") (Says (bs "auth-required: valid NIP-42 authentication required"))) /\
  exists n, negentropySessions (opened 100 (cfg true true)) !! bs "s" = Some n /\
    forall x, x ∈ page 100 Demo.S2 f -> event_item x.2 ∈ Items n.
Proof.
  destruct Demo.tx2_inv as [[HR HU HT _] _].
  apply (negopen_ungated Demo.demo_laws 5 100 Demo.tx2 Demo.S2 HR HU ltac:(lia) HT (cfg true true) nobody (NewConn (bs "x")) (bs "s") f []).
  - reflexivity.
  - exact f_answerable.
  - reflexivity.
  - apply opened_ok; [lia|reflexivity].
Defined.

Lemma negopen_truncates_witness : exists n id ev,
  negentropySessions (opened 1 (cfg false false)) !! bs "s" = Some n /\ asked Demo.S2 f id ev /\ event_item ev ∉ Items n.
Proof.
  destruct Demo.tx2_inv as [[HR HU HT _] _].
  apply (negopen_truncates Demo.demo_laws 5 1 Demo.tx2 Demo.S2 HR HU ltac:(lia) HT (cfg false false) (NewConn (bs "x")) (bs "s") f []).
  - reflexivity.
  - exact f_answerable.
  - unfold one_page. rewrite newest_two. vm_compute. lia.
  - apply opened_ok; [lia|reflexivity].
Defined.

End NegDemo.

Module CountDemo.

#[local] Existing Instances Demo.demo_bolt Demo.demo_json Demo.demo_derived Demo.demo_lower toy_schnorr GroupsDemo.demo_groups.
#[local] Instance count_demo_db : EventDB := store_db 5 100.

Definition g : GroupsService := NewGroupsService None None Demo.tx2.

Lemma count_shows_what_is_delivered_witness : exists n approx,
  count_visible 5 100 [] g [] Demo.tx2 [NegDemo.f] = Ok (n, approx) /\
  (n = zlen (List.filter (fun x => negb (hidden 5 100 [] g [] NegDemo.f x)) (page 100 Demo.S2 NegDemo.f)) \/
   (CountFromCounters Demo.tx2 [NegDemo.f] = Ok (Some n) /\ approx = false /\
    forall id ev, Demo.S2 !! id = Some ev -> Match NegDemo.f ev = true -> hidden 5 100 [] g [] NegDemo.f (id, ev) = false)).
Proof.
  destruct Demo.tx2_inv as [[HR HU HT _] _].
  assert (HC : exists n cap, count_visible 5 100 [] g [] Demo.tx2 [NegDemo.f] = Ok (n, cap)).
  { destruct (CountEventsApprox_spec Demo.demo_laws 5 100 Demo.tx2 Demo.S2 HR HU ltac:(lia) HT NegDemo.f
      (fun pe => (needsPrivacyCheck g [NegDemo.f] && deniedPrivateGroupPotentialEvent g [] pe) || (false && true)) NegDemo.f_answerable) as [cap HS].
    eexists _, cap. exact HS. }
  destruct HC as (n & cap & HC). exists n, cap. split; [exact HC|].
  exact (count_shows_what_is_delivered Demo.demo_laws 5 100 Demo.tx2 Demo.S2 HR HU ltac:(lia) HT [] g [] NegDemo.f n cap NegDemo.f_answerable HC).
Defined.

End CountDemo.

(** ** A relay someone joins and leaves *)

#[global] Instance MemberRecord_eq_dec : EqDecision MemberRecord.
Proof. solve_decision. Defined.
#[global] Instance InviteClaim_eq_dec : EqDecision InviteClaim.
Proof. solve_decision. Defined.

Module RelayDemo.

#[local] Existing Instances GroupsDemo.demo_bolt GroupsDemo.demo_lower toy_schnorr GroupsDemo.demo_groups GroupsDemo.list_db.

Definition now : Z := 1700000000.
Definition secret : gostring := Event.sample_key.
Definition signed (ev : Event) : Event := (Sign ev secret).1.
Definition alice : gostring := Eval vm_compute in PubKey (signed (NewEvent now 1 [] [])).
Definition code : gostring := bs "welcome".
Definition url : gostring := bs "wss://r".

Definition auth : Event := Eval vm_compute in signed (NewAuthEvent now (bs "x") url).
Definition join : Event := Eval vm_compute in signed (Access.NewJoinRequest now alice code).
Definition leave : Event := Eval vm_compute in signed (Access.NewLeaveRequest now alice).

(** An invite for two, and what is made of it. *)
Definition invite : InviteClaim := mkClaim code now (now + 100) 2 0 [bs "guest"].
Definition guest (pk : gostring) : MemberRecord := mkMemberRecord pk [bs "guest"] now.
Definition upper : gostring := repeat "A"%byte 64.
Definition lower : gostring := key_of "a"%byte.
Definition claim_table : list InviteClaim := [invite; used_once invite; used_once (used_once invite)].
Definition member_table : list MemberRecord := [guest alice; guest upper; guest lower; mkMemberRecord (key_of "b"%byte) [] now].

#[local] Instance demo_members : MemberJSON := {|
  MarshalMember r := BE.put64 (GroupsDemo.index_of r member_table);
  UnmarshalMember s := member_table !! Z.to_nat (BE.get64 s);
  MarshalClaim c := BE.put64 (GroupsDemo.index_of c claim_table);
  UnmarshalClaim s := claim_table !! Z.to_nat (BE.get64 s);
|}.

Definition cfg : SessionCfg := mkSessionCfg false true false 0 0 false false 0 [] [] 0 url [] [].
Definition acfg : AccessConfig := mkAccessConfig false url.
Definition no_validators : Validators := fun _ => [].
Definition any_event : EventPolicy := fun _ => [].

Definition m0 : MembershipService :=
  match PutInviteClaim None invite with Ok b => mkMembership None b ∅ [] [] | _ => mkMembership None None ∅ [] [] end.
Definition r0 : Relay := mkRelay ∅ (MemberLoad m0) (NewGroupsService None None []) ∅.
Definition r1 : Relay := set_conns r0 (<[1 := NewConn (bs "x")]> (conns r0)).

Definition conn (r : Relay) : Conn := default (NewConn []) (conns r !! 1).
Definition log_in (r : Relay) : Relay := set_conns r (<[1 := default (conn r) (processAuth now cfg (rmembers r) (conn r) auth)]> (conns r)).
Definition publish (r : Relay) (ev : Event) : Relay := default r (processEvent now cfg acfg no_validators any_event r 1 ev false Ran).
Definition ask (r : Relay) : Relay := set_conns r (<[1 := default (conn r) (processRequest cfg (rgroups r) (conn r) (bs "s") [NewFilter] (Ok tt))]> (conns r)).

Definition r2 := log_in r1.
Definition r3 := publish r2 join.
Definition r4 := ask r3.
Definition r5 := publish r4 leave.

Lemma alice_canonical : canonical alice.
Proof. exists (default [] (Hex.decode alice)). split; vm_compute; reflexivity. Qed.

(** What happens to Alice's connection: not yet a member, then one, then not. *)
Definition standing (r : Relay) : list (gostring * MembershipStatus) * bool :=
  (map (fun i => (iPubkey i, iStatus i)) (Identities (conn r)), bool_decide (is_Some (subscriptions (conn r) !! bs "s"))).

Example alice_joins_and_leaves :
  standing r2 = ([(alice, MembershipNone)], false) /\ standing r4 = ([(alice, MembershipActive)], true) /\ standing r5 = ([(alice, MembershipNone)], false).
Proof. vm_compute. split; [|split]; reflexivity. Qed.

Lemma auth_exact_witness :
  IdentityMembership (conn r2) alice = Some (plain_identity alice MembershipNone) /\ IdentityMembership (conn r2) upper = None.
Proof.
  assert (HA : processAuth now cfg (rmembers r1) (conn r1) auth = Some (conn r2)) by (vm_compute; reflexivity).
  destruct (auth_exact now cfg (rmembers r1) (conn r1) auth (conn r2) HA) as [H _]; [vm_compute; discriminate|].
  destruct (H (ltac:(split; [split; [discriminate|]|..]; vm_compute; try split; try reflexivity; try discriminate)) (plain_identity alice MembershipNone)) as (_ & _ & HI).
  { apply ent_plain; vm_compute; reflexivity. }
  split; [rewrite HI by (vm_compute; discriminate)|rewrite HI by (vm_compute; discriminate)]; vm_compute; reflexivity.
Defined.

Lemma some_default {A} (o : option A) d : bool_decide (is_Some o) = true -> o = Some (default d o).
Proof. intros H%bool_decide_eq_true. by destruct H as [a ->]. Qed.

Lemma r4_reached : relay_reach cfg acfg no_validators any_event r4.
Proof.
  assert (H1 : relay_reach cfg acfg no_validators any_event r1) by apply rr_open, rr_start.
  assert (H2 : relay_reach cfg acfg no_validators any_event r2).
  { apply (rr_auth _ _ _ _ r1 1 (conn r1) now auth); [exact H1|vm_compute; reflexivity|exact alice_canonical|]. apply some_default. vm_compute. reflexivity. }
  assert (H3 : relay_reach cfg acfg no_validators any_event r3).
  { apply (rr_event _ _ _ _ r2 now 1 join false Ran); [exact H2|exact alice_canonical|discriminate|]. apply some_default. vm_compute. reflexivity. }
  apply (rr_request _ _ _ _ r3 1 (conn r3) (bs "s") [NewFilter] (Ok tt)); [exact H3|vm_compute; reflexivity|]. apply some_default. vm_compute. reflexivity.
Qed.

Lemma live_memberships_witness : MIsMember (rmembers r4) alice = true /\ HasMembership (conn r4) = true.
Proof.
  destruct (live_memberships cfg acfg no_validators any_event r4 1 (conn r4) r4_reached) as [HI HS]; [vm_compute; reflexivity|]. split.
  - apply (proj1 (HI (plain_identity alice MembershipActive) (ltac:(vm_compute; left)))). reflexivity.
  - apply HS; [reflexivity|]. intros HE. apply (f_equal (fun m : gmap gostring (list SubscriptionFilter) => bool_decide (is_Some (m !! bs "s")))) in HE. vm_compute in HE. discriminate HE.
Defined.


(** ** The membership service alone *)

Definition ms0 : MembershipService := NewMembershipService None None [].
Definition issued : outcome StoreErr (MembershipService * InviteClaim) := IssueInvite (now * 10 ^ 9) code ms0 (100 * 10 ^ 9) 2 [bs "guest"].
Definition ms1 : MembershipService := match issued with Ok (m, _) => m | _ => ms0 end.
Definition nobody : Session := mkSession [] [] [].
Definition joined : option (MembershipService * AccessReply) := handleJoin now acfg nobody join ms1.
Definition ms2 : MembershipService := (default (ms1, mkReply [] false (AText [])) joined).1.

Lemma issued_ok : is_ok issued = true -> exists c, issued = Ok (ms1, c).
Proof. unfold ms1. destruct issued as [[m c]|?|]; [by exists c|done..]. Qed.

Lemma ms1_reached : member_reach ms1.
Proof.
  destruct (issued_ok (ltac:(vm_compute; reflexivity))) as [c Hc]. exact (mr_issue ms0 ms1 (now * 10 ^ 9) code (100 * 10 ^ 9) 2 [bs "guest"] c (mr_new []) Hc).
Qed.

Lemma joined_ok : exists rep, joined = Some (ms2, rep).
Proof.
  assert (H : bool_decide (is_Some joined) = true) by (vm_compute; reflexivity). apply bool_decide_eq_true in H as [[m rep] HE].
  exists rep. unfold ms2. by rewrite HE.
Qed.

Lemma ms2_reached : member_reach ms2.
Proof.
  destruct joined_ok as [rep HE]. apply (mr_event ms1 ms2 now acfg nobody join (Some rep) ms1_reached alice_canonical). unfold MemberHandle.
  assert (HK : (Kind join =? Access.KindJoinRequest) = true) by (vm_compute; reflexivity). rewrite HK. unfold joined in HE. by rewrite HE.
Qed.

Lemma membership_reachable_inv_witness : is_Some (bucket_kv (membersB ms2) !! alice) /\ MIsMember (member_reopen ms2) alice = true /\ MemberCount ms2 = 1.
Proof.
  destruct (membership_reachable_inv GroupsDemo.demo_laws ms2 ms2_reached) as (H1 & H2 & H3). split_and!.
  - change alice with (Hex.encode (default [] (Hex.decode alice))). apply H1; vm_compute; reflexivity.
  - rewrite H3. vm_compute. reflexivity.
  - vm_compute. reflexivity.
Defined.

Lemma join_admits_witness : exists c, GetInviteClaim (claimsB ms1) code = Ok (Some c) /\ claim_live c now /\ MIsMember ms2 alice = true.
Proof.
  destruct joined_ok as [rep HJ].
  destruct (join_admits GroupsDemo.demo_laws now acfg nobody join ms1 ms2 rep ms1_reached alice_canonical HJ) as (_ & _ & _ & H).
  destruct (H ltac:(vm_compute; reflexivity)) as [_ HM]. destruct (HM ltac:(vm_compute; reflexivity)) as (code' & c & HP & HG & HL & _).
  assert (code' = code) as -> by (vm_compute in HP; injection HP as <-; vm_compute; reflexivity). exists c. split; [exact HG|]. split; [exact HL|vm_compute; reflexivity].
Defined.

Lemma invite_uses_exact_witness : 0 <= admitted (attempts (claimsB ms1) code [now; now; now]) <= 2.
Proof.
  apply (invite_uses_exact GroupsDemo.demo_laws [now; now; now] (claimsB ms1) code invite 0).
  - vm_compute. reflexivity.
  - intros u Hu. assert (u = 0 \/ u = 1 \/ u = 2) as [->|[->| ->]] by (cbn in Hu; lia); vm_compute; reflexivity.
  - vm_compute. split; discriminate.
  - vm_compute. split; reflexivity.
Defined.

(** A list published by hand that leaves Alice out. *)
Definition new_list : Event := Access.NewMembershipList now [] [Access.mkMember (key_of "b"%byte) []].
Definition ms3 : MembershipService := (ReplaceFromEvent now ms2 new_list).1.

Lemma delisted_member_returns_witness : MIsMember ms3 alice = false /\ MIsMember (member_reopen ms3) alice = true.
Proof.
  change alice with (Hex.encode (default [] (Hex.decode alice))).
  apply (delisted_member_returns GroupsDemo.demo_laws now ms2 new_list ms3 [Access.mkMember (key_of "b"%byte) []]).
  - vm_compute. reflexivity.
  - assert (HN : (ReplaceFromEvent now ms2 new_list).2 = None) by (vm_compute; reflexivity). rewrite <- HN. apply surjective_pairing.
  - vm_compute. reflexivity.
  - apply (bool_decide_eq_true_1 (is_Some (bucket_kv (membersB ms2) !! alice))). vm_compute. reflexivity.
  - apply (bool_decide_eq_false_1 (default [] (Hex.decode alice) ∈ member_replace [key_of "b"%byte])). vm_compute. reflexivity.
Defined.

(** ** Keys in upper case *)

(** Joined under one spelling and left under the other, a key is a member again
    after a restart. *)
Example spelling_survives_leave :
  let ms := match enroll now ms1 upper [bs "guest"] with Ok m => withdraw m lower | _ => ms1 end in
  MIsMember ms lower = false /\ MIsMember (member_reopen ms) lower = true.
Proof. vm_compute. split; reflexivity. Qed.

(** A connection that authenticated under one spelling keeps its membership when
    the key leaves under the other. *)
Example spelling_survives_revocation :
  let c := addIdentity (NewConn (bs "x")) (plain_identity upper MembershipActive) in
  cache_IsMember (member_remove (member_replace [upper]) lower) upper = false /\ HasMembership (revokeMembership cfg lower c) = true.
Proof. vm_compute. split; reflexivity. Qed.

(** ** Groups, over the connection and over HTTP *)

Definition open_cfg : SessionCfg := mkSessionCfg false false false 0 0 false false 0 [] [] 0 url [] [].
Definition host : GroupsService :=
  mkGroups None None [] {[GroupsDemo.club := GroupsDemo.club0]} defaultGroupModerationPolicy ∅ None false false ∅ None [].
Definition http : eventsHandler := mkEventsHandler (Some open_cfg) [] any_event [].
Definition post : Event := Eval vm_compute in signed (NewEvent now 9 [] [[bs "h"; GroupsDemo.club]]).
Definition remove : Event := Eval vm_compute in signed (NewEvent now KindRemoveUser [] [[bs "h"; GroupsDemo.club]; [bs "p"; GroupsDemo.a]]).
Definition mirror : Event := Eval vm_compute in signed (NewEvent now KindGroupMetadata [] [[bs "d"; GroupsDemo.club]]).

(** A post into a private and closed group by someone who is not in it, and a
    moderation event of theirs: the connection refuses the one and gives the other
    to the group service, which refuses it; POST /events stores both. *)
Example http_skips_groups :
  event_verdict open_cfg no_validators any_event host (conn r2) post
    = Some (VRefuse (Says (bs "restricted: only members may post in group " ++ GroupsDemo.club))) /\
  event_verdict open_cfg no_validators any_event host (conn r2) remove = Some VGroups /\
  http_admits http no_validators None alice post = Ok tt /\ http_admits http no_validators None alice remove = Ok tt.
Proof. vm_compute. split_and!; reflexivity. Qed.

(** Group metadata is the relay's to publish; anyone's is stored. *)
Example forged_metadata_stored :
  IsRelayAuthoredKind (Kind mirror) = true /\ event_verdict open_cfg no_validators any_event host (NewConn (bs "x")) mirror = Some VStore.
Proof. vm_compute. split; reflexivity. Qed.

End RelayDemo.

(** ** Attestations *)

Module AttestDemo.

(** A stand-in whose signatures have the size nipOA asks for. *)
Definition wide_schnorr : Schnorr := {|
  PrivateKey := list byte; PublicKey := list byte; Signature := list byte;
  PrivKeyFromBytes b := b; compressed sk := x02 :: take 32 (sk ++ repeat x00 32);
  ParsePubKey := Some; ParseSignature := Some; SerializeSig s := s;
  SchnorrSign _ h := Some (h ++ h); SchnorrVerify s h _ := bool_decide (s = h ++ h);
|}.
#[local] Existing Instances wide_schnorr ascii_lower.

Definition agent : gostring := key_of "a"%byte.
Definition raw : gostring := bs "kind=1&created_at<100".
Definition attest (owner : gostring) : tag :=
  [AuthTagName; owner; raw; Hex.encode (sha256 (Preimage agent raw) ++ sha256 (Preimage agent raw))].

(** A credential admits what its clauses admit. *)
Example credential_used :
  match EvaluateCredential agent [attest (key_of "b"%byte)] 99, EvaluateCredential agent [attest (key_of "b"%byte)] 100 with
  | Ok (Some t), Err ErrCredentialTimestampUnsatisfied => EvaluateKind (tConditions t) 1 && negb (EvaluateKind (tConditions t) 2)
  | _, _ => false
  end = true.
Proof. vm_compute. reflexivity. Qed.

(** A key may not attest itself, unless it writes itself in upper case. *)
Example self_attested :
  ParseAuthTag [attest agent] agent = Err ErrSelfAttestation /\
  (exists t, ParseAuthTag [attest (repeat "A"%byte 64)] agent = Ok (Some t)) /\ Hex.decode (repeat "A"%byte 64) = Hex.decode agent.
Proof. split; [vm_compute; reflexivity|]. split; [eexists; vm_compute; reflexivity|vm_compute; reflexivity]. Qed.

End AttestDemo.
