(* ===== verification/CashCall.v ===== *)
(** * nipcash: calls, their ids and their deadlines

    [nipcash/request_id.go], [secret.go], [codes.go], [withdraw_detail.go],
    [tombstone.go], [pending.go] (the record written ahead of a call), the clock
    rules of [clock.go], the finality table of [lookup_decision.go] and the
    method tables of [reuse.go].  The record of a call is stored and matched by
    the Hub, whose own state is not in the repository: the rules it decides by
    are. *)

From S2P Require Import Prelude GoLib Sha256 NostrUtils AgentAuth.

(** ** Texts of a fixed form *)

Definition is_lower_hex (c : byte) : bool :=
  negb (((b2z c <? 48) || (57 <? b2z c)) && ((b2z c <? 97) || (102 <? b2z c))).

Definition isLowerHex (s : gostring) : bool := forallb is_lower_hex s.
Definition isLowerHex64 (s : gostring) : bool := (zlen s =? 64) && isLowerHex s.

Definition ValidRequestID (s : gostring) : bool :=
  negb ((zlen s <? 32) || (64 <? zlen s) || negb (zlen s mod 2 =? 0)) && isLowerHex s.

Definition DerivedRequestID (replaced : gostring) : option gostring :=
  if ValidRequestID replaced then Some (Hex.encode (sha256 (bs "retry:" ++ replaced))) else None.

Definition ValidCashSecret (s : gostring) : bool := isLowerHex64 s.
Definition ValidCommitment (s : gostring) : bool := isLowerHex64 s.

Definition CashCommitment (secretHex : gostring) : option gostring :=
  if ValidCashSecret secretHex then Some (Hex.encode (sha256 (default [] (Hex.decode secretHex)))) else None.

(** The comparison in constant time, by its value. *)
Definition CommitmentsEqual (a b : gostring) : bool := (zlen a =? zlen b) && bool_decide (a = b).

(** [parseUint] without its range: the digits of a canonical unsigned decimal. *)
Definition canonicalUint (s : gostring) : option Z :=
  match s with
  | [] => None
  | c :: r =>
      if negb (bool_decide (r = [])) && bool_decide (c = x30) then None
      else if forallb Dec.is_digit s then Dec.parse_uint s else None
  end.

(** strconv.FormatInt(n, 10) *)
Definition FormatInt (n : Z) : gostring := if n <? 0 then "-"%byte :: Dec.format_uint (- n) else Dec.format_uint n.

(** ** Methods and codes *)

Definition MethodMintCash : gostring := bs "mint_cash".
Definition MethodCashRedeem : gostring := bs "cash_redeem".
Definition MethodCashTransfer : gostring := bs "cash_transfer".
Definition MethodCashConsolidate : gostring := bs "cash_consolidate".
Definition MethodCashStatus : gostring := bs "cash_status".
Definition MethodCashOrder : gostring := bs "cash_order".
Definition MethodCashWithdrawQuote : gostring := bs "cash_withdraw_quote".
Definition MethodCashWithdraw : gostring := bs "cash_withdraw".
Definition MethodCashLookup : gostring := bs "cash_lookup".

Definition ErrCodeBadRequest : gostring := bs "BAD_REQUEST".
Definition ErrCodeRequestReused : gostring := bs "REQUEST_REUSED".
Definition ErrCodeRestricted : gostring := bs "RESTRICTED".
Definition ErrCodeUnauthorized : gostring := bs "UNAUTHORIZED".
Definition ErrCodeInsufficientBalance : gostring := bs "INSUFFICIENT_BALANCE".
Definition ErrCodeQuotaExceeded : gostring := bs "QUOTA_EXCEEDED".
Definition ErrCodeRateLimited : gostring := bs "RATE_LIMITED".
Definition ErrCodeNotFound : gostring := bs "NOT_FOUND".
Definition ErrCodePaymentFailed : gostring := bs "PAYMENT_FAILED".
Definition ErrCodeInternal : gostring := bs "INTERNAL".

Definition CodeRetryable (code : gostring) : bool :=
  in_list code [ErrCodeUnauthorized; ErrCodeInsufficientBalance; ErrCodeQuotaExceeded; ErrCodeRateLimited; ErrCodePaymentFailed; ErrCodeInternal].

Definition FinalCode (code : gostring) : bool := bool_decide (code = ErrCodeBadRequest).

Definition DetailQuoteInvalid : gostring := bs "quote_invalid".
Definition DetailQuoteExpired : gostring := bs "quote_expired".

Definition ParseDetail (s : gostring) : gostring :=
  if in_list s [bs "network"; bs "script_type"; bs "below_min"; bs "too_slow"; DetailQuoteInvalid; DetailQuoteExpired; bs "unfinal"; bs "own_address"]
  then s else [].

Definition ReuseCheckApplies (method : gostring) : bool :=
  in_list method [MethodMintCash; MethodCashWithdraw; MethodCashTransfer; MethodCashConsolidate; MethodCashOrder].
Definition RequiresRequestID (method : gostring) : bool :=
  in_list method [MethodCashWithdraw; MethodCashTransfer; MethodCashConsolidate; MethodCashOrder].
Definition AnswersWithTombstone (method : gostring) : bool :=
  in_list method [MethodCashStatus; MethodCashRedeem; MethodCashWithdrawQuote; MethodCashWithdraw; MethodCashTransfer; MethodCashConsolidate].

(** ** Destroyed bills *)

Definition StatusSpent : gostring := bs "spent".
Definition ReasonRedeemed : gostring := bs "redeemed".
Definition ReasonTransferred : gostring := bs "transferred".
Definition ReasonConsolidated : gostring := bs "consolidated".
Definition ReasonExpired : gostring := bs "expired".
Definition ReasonReclaimed : gostring := bs "reclaimed".

Record Tombstone := mkTombstone { tStatus : gostring; Reason : gostring; RetainedUntil : option Z; WithdrawRequestID : gostring }.
#[global] Instance Tombstone_eq_dec : EqDecision Tombstone.
Proof. solve_decision. Defined.

Definition reasons : list gostring := [ReasonRedeemed; ReasonTransferred; ReasonConsolidated; ReasonExpired; ReasonReclaimed].

(** ParseTombstone, once the object is decoded. *)
Definition ParseTombstone (decoded : option Tombstone) : option Tombstone :=
  match decoded with
  | Some t =>
      if negb (bool_decide (tStatus t = StatusSpent)) then None
      else Some (if in_list (Reason t) reasons then t else mkTombstone (tStatus t) [] (RetainedUntil t) (WithdrawRequestID t))
  | None => None
  end.

Definition TombstoneReason (terminalState : gostring) : gostring := if in_list terminalState reasons then terminalState else [].

Record TokenOrTombstone := mkToken { tToken : gostring; tTombstone : option Tombstone }.
#[global] Instance TokenOrTombstone_eq_dec : EqDecision TokenOrTombstone.
Proof. solve_decision. Defined.

(** ** Deadlines *)

Definition MinMaxRequestAge : Z := 60.
Definition MinPublishMargin : Z := 20.

Inductive DeadlineErr := ErrDeadlineMissing | ErrDeadlinePassed | ErrDeadlineTooFar | ErrHorizonUnusable (h : Z).

(** Go's division truncates. *)
Definition DeadlineWindow (horizon : Z) : Z := Z.min 60 (Z.quot horizon 2).

Definition CheckDeadline (deadline now horizon : Z) : outcome DeadlineErr unit :=
  if horizon <? MinMaxRequestAge then Err (ErrHorizonUnusable horizon)
  else if deadline <=? 0 then Err ErrDeadlineMissing
  else if deadline <? now then Err ErrDeadlinePassed
  else if s64 (now + horizon) <? deadline then Err ErrDeadlineTooFar
  else Ok tt.

Definition CommitAllowed (deadline now : Z) : bool := now <=? deadline.
Definition RecordRetained (now deadline horizon : Z) : bool := now <=? s64 (deadline + horizon).
Definition TombstoneAnswerable (now retainedUntil : Z) : bool := now <=? retainedUntil.
Definition SliceLive (now : Z) (expiresAt : option Z) : bool :=
  match expiresAt with None => true | Some e => (e =? 0) || (now <=? e) end.

(** ** What a lookup is answered *)

Definition LookupDone : gostring := bs "done".
Definition LookupPending : gostring := bs "pending".
Definition LookupUnknown : gostring := bs "unknown".
Definition LookupExpired : gostring := bs "expired".
Definition JoinLookupWindow : Z := 360.

Record LookupInput := mkLookup { lNow : Z; lDeadline : Z; Horizon : Z; lJoin : bool; HaveRecord : bool }.
Record LookupDecision := mkDecision { dStatus : gostring; dRetryAfter : Z }.

Definition DecideLookup (i : LookupInput) : LookupDecision :=
  if HaveRecord i then mkDecision LookupDone 0 else
  let h := if lJoin i then JoinLookupWindow else Horizon i in
  let d := Z.min (lDeadline i) (s64 (lNow i + h)) in
  if lNow i <=? d then mkDecision LookupPending (s64 (d + 1))
  else if lNow i <=? s64 (lDeadline i + h) then mkDecision LookupUnknown 0
  else mkDecision LookupExpired 0.

(** ** Calls written ahead *)

Record PendingSecret := mkSecret { sSecret : gostring; sRole : gostring }.
#[global] Instance PendingSecret_eq_dec : EqDecision PendingSecret.
Proof. solve_decision. Defined.

Definition SecretRoleRemainder : gostring := bs "remainder".
Definition SecretRoleRemint : gostring := bs "remint".

Record PendingCall := mkCall {
  pcRequestID : gostring; pcDeadline : Z; pcMethod : gostring; pcTarget : gostring; pcHub : gostring; pcMaxAge : Z; pcDevice : gostring;
  pcSecrets : list PendingSecret; pcSource : gostring; pcAmount : Z; pcChain : gostring; pcDerivedFrom : gostring; pcAttempt : Z;
  pcLastCode : gostring; pcSawReused : bool; pcParams : gostring; pcBuyerKey : gostring; pcNotify : gostring; pcPayBy : Z;
  pcLastDetail : gostring; pcQuote : gostring; pcAddress : gostring; pcHoldsUntil : Z; pcReceipt : gostring;
}.
#[global] Instance PendingCall_eq_dec : EqDecision PendingCall.
Proof. solve_decision. Defined.

(** ** Facts *)

Lemma is_lower_hex_range c : is_lower_hex c = true <-> 48 <= b2z c <= 57 \/ 97 <= b2z c <= 102.
Proof.
  unfold is_lower_hex. pose proof (b2z_range c).
  destruct (Z.ltb_spec (b2z c) 48), (Z.ltb_spec 57 (b2z c)), (Z.ltb_spec (b2z c) 97), (Z.ltb_spec 102 (b2z c)); cbn; split; intros; try done; lia.
Qed.

Lemma encode_lower_hex b : isLowerHex (Hex.encode b) = true.
Proof.
  unfold isLowerHex, Hex.encode. induction b as [|c b IH]; cbn; [done|]. pose proof (b2z_range c).
  assert (HD : forall n, 0 <= n < 16 -> is_lower_hex (Hex.digit n) = true).
  { intros n Hn. apply is_lower_hex_range. unfold Hex.digit. destruct (Z.ltb_spec n 10); rewrite b2z_z2b, Z.mod_small by lia; lia. }
  rewrite !HD by dlia. done.
Qed.

Lemma encode_LowerHex64 b : length b = 32%nat -> isLowerHex64 (Hex.encode b) = true.
Proof. intros Hb. unfold isLowerHex64, zlen. by rewrite Hex.length_encode, Hb, encode_lower_hex. Qed.

(** A derived id is an id: calls can be re-placed again. *)
Lemma derived_valid id d : DerivedRequestID id = Some d -> ValidRequestID d = true /\ length d = 64%nat.
Proof.
  unfold DerivedRequestID. destruct (ValidRequestID id); [|done]. intros [= <-].
  unfold ValidRequestID, zlen. rewrite Hex.length_encode, length_sha256, encode_lower_hex. done.
Qed.

(** The accepted spellings are the ones FormatUint writes. *)
Lemma canonicalUint_iff s n : canonicalUint s = Some n <-> 0 <= n < 2 ^ 64 /\ s = Dec.format_uint n.
Proof.
  assert (HE : canonicalUint s = parseCanonicalDecimal s (2 ^ 64 - 1)).
  { unfold canonicalUint, parseCanonicalDecimal. destruct s as [|c r]; [done|].
    assert (HL : (1 <? zlen (c :: r)) = negb (bool_decide (r = []))).
    { destruct r as [|c' r]; [done|]. rewrite !zlen_cons. pose proof (zlen_nonneg r). rewrite bool_decide_false by done. cbn. lia. }
    rewrite HL. destruct (_ && _); [done|]. destruct (forallb _ _); [|done]. unfold Dec.parse_uint. cbn [negb].
    destruct (Dec.parse_digits (c :: r)) as [z|]; [|done]. cbn [mbind option_bind]. destruct (Z.ltb_spec z (2 ^ 64)); [|done].
    by destruct (Z.ltb_spec (2 ^ 64 - 1) z); [lia|]. }
  rewrite HE, canonical_iff by lia. split; intros []; split; (lia || done).
Qed.

Lemma canonicalUint_format n : 0 <= n < 2 ^ 64 -> canonicalUint (Dec.format_uint n) = Some n.
Proof. intros Hn. by apply canonicalUint_iff. Qed.

Lemma CommitmentsEqual_iff a b : CommitmentsEqual a b = true <-> a = b.
Proof. unfold CommitmentsEqual. split; intros H; bool_prop; [done|subst]. by rewrite Z.eqb_refl, bool_decide_true. Qed.
