(* ===== verification/CashWithdraw.v ===== *)
(** * nipcash: withdrawal quotes, fees and receipts

    [nipcash/withdraw_quote.go] (the quote event, its parser, its verification by
    the Hub and the client's check of an answer), [withdraw_receipt.go] (the
    receipt), [withdraw_fee.go] and [fees.go] (the fees) and [HubIdentityEqual] of
    [online.go].  The reason text of an error is left out: its code, detail and
    row are kept. *)

From S2P Require Import Prelude GoLib Sha256 NostrUtils Pow Event Filter CashCall.

Definition KindWithdrawQuote : Z := 23187.
Definition KindWithdrawReceipt : Z := 23188.

Record WithdrawError := mkWErr { weCode : gostring; weDetail : gostring; weRow : Z }.

(** ** Machine arithmetic (math/bits) *)

Definition Add64 (x y carry : Z) : Z * Z := (u64 (x + y + carry), (x + y + carry) / 2 ^ 64).
Definition Mul64 (x y : Z) : Z * Z := (x * y / 2 ^ 64, u64 (x * y)).
(** A run-time panic for a zero divisor or a quotient that does not fit. *)
Definition Div64 {E} (hi lo y : Z) : outcome E (Z * Z) :=
  if (y =? 0) || (y <=? hi) then Panic else Ok ((hi * 2 ^ 64 + lo) / y, (hi * 2 ^ 64 + lo) mod y).

(** ** Fees *)

Inductive FeeErr := ErrFeeRate (ppm : Z) | ErrFeeOverflow.

Definition RedeemFee (amount base ppm : Z) : outcome FeeErr (Z * Z) :=
  if 1000000 <? ppm then Err (ErrFeeRate ppm)
  else
    let total := Z.quot (ppm * amount) 1000000 + base in
    if amount <? total then Ok (amount, 0) else Ok (total, amount - total).

Definition WithdrawFee (amountMillis networkFeeMillis withdrawFeeBase withdrawFeePpm redeemFeeMillis : Z) : outcome FeeErr (Z * Z * Z) :=
  if 1000000 <? withdrawFeePpm then Err (ErrFeeRate withdrawFeePpm)
  else
    let '(hi, lo) := Mul64 withdrawFeePpm amountMillis in
    qr ← Div64 hi lo 1000000;
    let '(hubFee, carry) := Add64 withdrawFeeBase qr.1 0 in
    if negb (carry =? 0) then Err ErrFeeOverflow
    else
      let '(fee, carry) := Add64 networkFeeMillis hubFee 0 in
      if negb (carry =? 0) then Err ErrFeeOverflow
      else
        let fee := Z.max fee redeemFeeMillis in
        let fee := Z.min fee amountMillis in
        let payout := u64 (amountMillis - fee) in
        Ok (hubFee, u64 (fee + payout mod 1000), u64 (payout - payout mod 1000)).

(** The amount an invoice must carry, and the code it is refused with. *)
Definition RequiredInvoiceAmount (committed fee : Z) (sameNode : bool) (invoiceMsat amountParam : option Z) : Z * gostring :=
  let required := if sameNode then committed else u64 (committed - Z.min fee committed) in
  match invoiceMsat, amountParam with
  | Some _, Some _ => (required, ErrCodeBadRequest)
  | _, _ =>
      let resolved := match invoiceMsat, amountParam with Some v, _ => v | None, Some v => v | None, None => 0 end in
      if required =? 0 then (required, ErrCodeRestricted)
      else if negb (resolved =? required) then (required, ErrCodeBadRequest)
      else (required, [])
  end.

(** ** Tags that appear exactly once *)

Inductive TagsErr := TagsEmpty | TagsUnexpected (n : gostring) | TagsRepeated (n : gostring) | TagsLength (n : gostring) | TagsMissing (n : gostring).

Definition tag_limit (maxLen : list (gostring * Z)) (name : gostring) : Z :=
  match List.find (fun p => bool_decide (p.1 = name)) maxLen with Some p => p.2 | None => 2 end.

Fixpoint unique_scan (names : list gostring) (maxLen : list (gostring * Z)) (out : gmap gostring (list gostring)) (ts : tags)
    : outcome TagsErr (gmap gostring (list gostring)) :=
  match ts with
  | [] => Ok out
  | [] :: _ => Err TagsEmpty
  | (name :: vs) :: ts =>
      if negb (in_list name names) then Err (TagsUnexpected name)
      else if bool_decide (is_Some (out !! name)) then Err (TagsRepeated name)
      else if (zlen (name :: vs) <? 2) || (tag_limit maxLen name <? zlen (name :: vs)) then Err (TagsLength name)
      else unique_scan names maxLen (<[name := vs]> out) ts
  end.

Definition uniqueTags (ts : tags) (names : list gostring) (maxLen : list (gostring * Z)) : outcome TagsErr (gmap gostring (list gostring)) :=
  out ← unique_scan names maxLen ∅ ts;
  match List.find (fun n => negb (bool_decide (is_Some (out !! n)))) names with
  | Some n => Err (TagsMissing n)
  | None => Ok out
  end.

(** [vals[n]], and [vals[n][0]]: a run-time panic on an empty list. *)
Definition vals (m : gmap gostring (list gostring)) (n : gostring) : list gostring := default [] (m !! n).
Definition val0 {E : Type} (m : gmap gostring (list gostring)) (n : gostring) : outcome E gostring :=
  match vals m n with v :: _ => Ok v | [] => Panic end.

(** ** Quotes *)

Record QuoteFields := mkQF {
  qWallet : gostring; qIdentityValue : gostring; qIAPubkey : gostring; qAddress : gostring;
  qAmount : Z; qNetworkFee : Z; qHubFee : Z; qPayout : Z; qSentBy : Z; qHoldsUntil : Z;
}.
#[global] Instance QuoteFields_eq_dec : EqDecision QuoteFields.
Proof. solve_decision. Defined.

Record WithdrawQuote := mkQuote { wqEvent : Event; wqID : gostring; wqFields : QuoteFields }.

Definition FeeMillis (f : QuoteFields) : Z := u64 (qAmount f - qPayout f).

Definition quoteTagNames : list gostring :=
  [bs "d"; bs "i"; bs "address"; bs "amount_millis"; bs "network_fee_millis"; bs "hub_fee_millis"; bs "payout_millis"; bs "sent_by"; bs "holds_until"].

Definition i_tag (f : QuoteFields) : tag := [bs "i"; qIdentityValue f] ++ (if bool_decide (qIAPubkey f = []) then [] else [qIAPubkey f]).

Definition quote_tags (f : QuoteFields) : tags :=
  [[bs "d"; qWallet f]; i_tag f; [bs "address"; qAddress f];
   [bs "amount_millis"; Dec.format_uint (qAmount f)]; [bs "network_fee_millis"; Dec.format_uint (qNetworkFee f)];
   [bs "hub_fee_millis"; Dec.format_uint (qHubFee f)]; [bs "payout_millis"; Dec.format_uint (qPayout f)];
   [bs "sent_by"; FormatInt (qSentBy f)]; [bs "holds_until"; FormatInt (qHoldsUntil f)]].

Inductive QuoteErr := QuoteHex | QuoteTimes | QuotePayout | QuoteSign | QuoteMalformed (e : WithdrawError) | QuoteMismatch (field : gostring).

Definition NewWithdrawQuoteEvent (f : QuoteFields) (createdAt : Z) (sign : Event -> option Event) : outcome QuoteErr Event :=
  if negb (isLowerHex64 (qWallet f)) || negb (isLowerHex64 (qIdentityValue f))
     || (negb (bool_decide (qIAPubkey f = [])) && negb (isLowerHex64 (qIAPubkey f))) then Err QuoteHex
  else if bool_decide (qAddress f = []) || (qSentBy f <? 0) || (qHoldsUntil f <? 0) || (createdAt <? 0) then Err QuoteTimes
  else if qAmount f <? qPayout f then Err QuotePayout
  else match sign (mkEvent [] [] (u64 createdAt) KindWithdrawQuote (quote_tags f) [] []) with
       | None => Err QuoteSign
       | Some ev => Ok ev
       end.

Definition bad_quote : WithdrawError := mkWErr ErrCodeBadRequest [] 0.
Definition quote_refused : WithdrawError := mkWErr ErrCodeRestricted DetailQuoteInvalid 1.

Definition or_bad {A} (m : option A) : outcome WithdrawError A := match m with Some a => Ok a | None => Err bad_quote end.

(** The checks of the header of a quote. *)
Definition quote_header_ok (ev : Event) : bool :=
  (Kind ev =? KindWithdrawQuote) && bool_decide (Content ev = []) && isLowerHex64 (ID ev) && isLowerHex64 (PubKey ev)
  && (zlen (Sig ev) =? 128) && isLowerHex (Sig ev).

(** A number tag, up to [max]. *)
Definition num_tag (m : gmap gostring (list gostring)) (name : gostring) (max : Z) : outcome WithdrawError Z :=
  s ← val0 m name;
  v ← or_bad (canonicalUint s);
  _ ← ensure (v <=? max) bad_quote;
  Ok v.

Section Quotes.
Context {GoLower0 : GoLower} {Schnorr0 : Schnorr} {EventJSON0 : EventJSON}.

Definition ParseWithdrawQuote (raw : gostring) : outcome WithdrawError WithdrawQuote :=
  ev ← or_bad (UnmarshalEvent raw);
  _ ← ensure (quote_header_ok ev) bad_quote;
  m ← match uniqueTags (Tags ev) quoteTagNames [(bs "i", 3)] with Ok m => Ok m | Err _ => Err bad_quote | Panic => Panic end;
  wallet ← val0 m (bs "d");
  address ← val0 m (bs "address");
  identityValue ← val0 m (bs "i");
  ia ← match vals m (bs "i") with
       | [_; ia] => if isLowerHex64 ia then Ok ia else Err bad_quote
       | _ => Ok []
       end;
  _ ← ensure (isLowerHex64 wallet && isLowerHex64 identityValue) bad_quote;
  _ ← ensure (negb (bool_decide (address = []))) bad_quote;
  amount ← num_tag m (bs "amount_millis") (2 ^ 64 - 1);
  network ← num_tag m (bs "network_fee_millis") (2 ^ 64 - 1);
  hub ← num_tag m (bs "hub_fee_millis") (2 ^ 64 - 1);
  payout ← num_tag m (bs "payout_millis") (2 ^ 64 - 1);
  sentBy ← num_tag m (bs "sent_by") max_int;
  holdsUntil ← num_tag m (bs "holds_until") max_int;
  _ ← ensure (payout <=? amount) bad_quote;
  Ok (mkQuote ev (ID ev) (mkQF wallet identityValue ia address amount network hub payout sentBy holdsUntil)).

(** [HubIdentityEqual]: the compressed form of a key loses its sign byte. *)
Definition HubIdentityEqual (tlv4XOnly value : gostring) : bool :=
  let v := ToLower value in
  let v := if (zlen v =? 66) && (has_prefix v (bs "02") || has_prefix v (bs "03")) then drop 2 v else v in
  (zlen v =? 64) && isLowerHex64 v && bool_decide (v = ToLower tlv4XOnly).

Definition VerifyWithdrawQuote (q : WithdrawQuote) (hubXOnly : gostring) : outcome WithdrawError unit :=
  _ ← match Verify [WithoutPowCheck] (wqEvent q) with
      | Ok _ => ensure (bool_decide (wqID q = ID (wqEvent q))) quote_refused
      | Err _ => Err quote_refused
      | Panic => Panic
      end;
  ensure (HubIdentityEqual hubXOnly (PubKey (wqEvent q))) quote_refused.

Definition QuoteForSlice (q : WithdrawQuote) (hubXOnly wallet identityValue iaPubkey : gostring) (amountMillis : Z) : outcome WithdrawError unit :=
  _ ← VerifyWithdrawQuote q hubXOnly;
  let f := wqFields q in
  ensure (bool_decide (qWallet f = wallet) && bool_decide (qIdentityValue f = identityValue)
          && bool_decide (qIAPubkey f = iaPubkey) && (qAmount f =? amountMillis)) quote_refused.

(** ** The answer a client is given *)

Record CashWithdrawQuoteResult := mkQR {
  rQuote : gostring; rAddress : gostring; rAmount : Z; rNetworkFee : Z; rHubFee : Z; rFee : Z; rPayout : Z; rSentBy : Z; rHoldsUntil : Z;
}.

Record QuoteExpectation := mkQE {
  xHub : gostring; xWallet : gostring; xIdentityValue : gostring; xIAPubkey : gostring; xAddress : gostring;
  xSendBefore : option Z; xAmount : Z; xRedeemFee : option Z;
}.

Definition VerifyQuoteAnswer (res : CashWithdrawQuoteResult) (e : QuoteExpectation) : outcome QuoteErr WithdrawQuote :=
  match ParseWithdrawQuote (rQuote res) with
  | Err _ => Err (QuoteMismatch (bs "quote"))
  | Panic => Panic
  | Ok q =>
      match VerifyWithdrawQuote q (xHub e) with
      | Err _ => Err (QuoteMismatch (bs "signature"))
      | Panic => Panic
      | Ok _ =>
          let f := wqFields q in
          let mismatch field := Err (QuoteMismatch field) in
          if negb (bool_decide (rAddress res = qAddress f)) then mismatch (bs "address")
          else if negb (rAmount res =? qAmount f) then mismatch (bs "amount_millis")
          else if negb (rNetworkFee res =? qNetworkFee f) then mismatch (bs "network_fee_millis")
          else if negb (rHubFee res =? qHubFee f) then mismatch (bs "hub_fee_millis")
          else if negb (rPayout res =? qPayout f) then mismatch (bs "payout_millis")
          else if negb (rFee res =? FeeMillis f) then mismatch (bs "fee_millis")
          else if negb (rSentBy res =? qSentBy f) then mismatch (bs "sent_by")
          else if negb (rHoldsUntil res =? qHoldsUntil f) then mismatch (bs "holds_until")
          else if negb (bool_decide (qWallet f = xWallet e)) then mismatch (bs "d")
          else if negb (bool_decide (qIdentityValue f = xIdentityValue e)) || negb (bool_decide (qIAPubkey f = xIAPubkey e)) then mismatch (bs "i")
          else if negb (bool_decide (qAddress f = xAddress e)) then mismatch (bs "address")
          else if match xSendBefore e with Some t => t <? qSentBy f | None => false end then mismatch (bs "sent_by")
          else if negb (qPayout f mod 1000 =? 0) then mismatch (bs "payout_millis")
          else if negb (qAmount f =? xAmount e) then mismatch (bs "amount_millis")
          else if match xRedeemFee e with Some r => FeeMillis f <? r | None => false end then mismatch (bs "fee_millis")
          else Ok q
      end
  end.

Definition QuoteValidAt (holdsUntil tipHeight : Z) : bool := tipHeight <=? holdsUntil.

(** ** Receipts *)

Record ReceiptFields := mkRF { rfWallet : gostring; rfQuoteID : gostring; rfRequestID : gostring; rfAddress : gostring; rfPayout : Z; rfSentBy : Z }.

Definition RequestHash (requestID : gostring) : gostring := Hex.encode (sha256 requestID).

Definition receiptTagNames : list gostring := [bs "d"; bs "q"; bs "request_hash"; bs "address"; bs "payout_millis"; bs "sent_by"].

Definition receipt_tags (f : ReceiptFields) : tags :=
  [[bs "d"; rfWallet f]; [bs "q"; rfQuoteID f]; [bs "request_hash"; RequestHash (rfRequestID f)]; [bs "address"; rfAddress f];
   [bs "payout_millis"; Dec.format_uint (rfPayout f)]; [bs "sent_by"; FormatInt (rfSentBy f)]].

Definition NewWithdrawReceiptEvent (f : ReceiptFields) (createdAt : Z) (sign : Event -> option Event) : outcome QuoteErr Event :=
  if negb (isLowerHex64 (rfWallet f)) || negb (isLowerHex64 (rfQuoteID f)) || negb (ValidRequestID (rfRequestID f)) then Err QuoteHex
  else if bool_decide (rfAddress f = []) || (rfSentBy f <? 0) || (createdAt <? 0) then Err QuoteTimes
  else match sign (mkEvent [] [] (u64 createdAt) KindWithdrawReceipt (receipt_tags f) [] []) with
       | None => Err QuoteSign
       | Some ev => Ok ev
       end.

Record ReceiptExpectation := mkRE { reHub : gostring; reTarget : gostring; reQuoteID : gostring; reRequestID : gostring; reAddress : gostring; rePayout : Z; reSentBy : Z }.

Inductive ReceiptErr := ErrReceiptInvalid (what : gostring).

Definition parseReceipt (raw : gostring) : outcome ReceiptErr (Event * gmap gostring (list gostring)) :=
  let invalid := ErrReceiptInvalid in
  match UnmarshalEvent raw with
  | None => Err (invalid (bs "not an event"))
  | Some ev =>
      if negb (Kind ev =? KindWithdrawReceipt) then Err (invalid (bs "kind"))
      else if negb (bool_decide (Content ev = [])) then Err (invalid (bs "content"))
      else match uniqueTags (Tags ev) receiptTagNames [] with
           | Ok m =>
               q ← val0 m (bs "q");
               d ← val0 m (bs "d");
               h ← val0 m (bs "request_hash");
               _ ← ensure (isLowerHex64 q && isLowerHex64 d && isLowerHex64 h) (invalid (bs "tags"));
               Ok (ev, m)
           | Err _ => Err (invalid (bs "tags"))
           | Panic => Panic
           end
  end.

Definition VerifyWithdrawReceipt (raw : gostring) (e : ReceiptExpectation) : outcome ReceiptErr unit :=
  let invalid := ErrReceiptInvalid in
  r ← parseReceipt raw;
  let '(ev, m) := r in
  _ ← match Verify [WithoutPowCheck] ev with Ok _ => Ok tt | Err _ => Err (invalid (bs "id or signature")) | Panic => Panic end;
  _ ← ensure (HubIdentityEqual (reHub e) (PubKey ev)) (invalid (bs "author"));
  p ← val0 m (bs "payout_millis");
  s ← val0 m (bs "sent_by");
  d ← val0 m (bs "d"); q ← val0 m (bs "q"); h ← val0 m (bs "request_hash"); a ← val0 m (bs "address");
  _ ← ensure (bool_decide (d = reTarget e)) (invalid (bs "d"));
  _ ← ensure (bool_decide (reQuoteID e = []) || bool_decide (q = reQuoteID e)) (invalid (bs "q"));
  _ ← ensure (bool_decide (h = RequestHash (reRequestID e))) (invalid (bs "request_hash"));
  _ ← ensure (bool_decide (a = reAddress e)) (invalid (bs "address"));
  _ ← ensure (bool_decide (canonicalUint p = Some (rePayout e))) (invalid (bs "payout_millis"));
  ensure ((0 <=? reSentBy e) && bool_decide (canonicalUint s = Some (reSentBy e))) (invalid (bs "sent_by")).

Definition ReceiptQuoteID (raw : gostring) : outcome ReceiptErr gostring :=
  r ← parseReceipt raw; val0 r.2 (bs "q").

End Quotes.
