(* ===== verification/CashWithdrawProps.v ===== *)
(** * nipcash: what a quote, its fees and its receipt guarantee

    The properties of [CashWithdraw]: the fee is exact and leaves the largest
    whole payout, an honest Hub's quote passes its own check and every check of
    the client, and the answers a client takes are the ones the Hub signed about
    its own bill and slice. *)

From S2P Require Import Prelude GoLib Sha256 NostrUtils Pow Event Filter CashCall CashWithdraw.

(** * nipcash: facts about quotes, fees and receipts

    What [uniqueTags] accepts, up to the order of the tags, and what each parser
    of [CashWithdraw] therefore accepts; the arithmetic of the fees. *)

(** ** Tags that appear exactly once *)

Definition as_tag (p : gostring * list gostring) : tag := p.1 :: p.2.

Definition pair_ok (names : list gostring) (maxLen : list (gostring * Z)) (p : gostring * list gostring) : Prop :=
  p.1 ∈ names /\ 2 <= zlen (as_tag p) <= tag_limit maxLen p.1.

Lemma unique_scan_iff names ml ts out m :
  unique_scan names ml out ts = Ok m <->
  exists ps, ts = map as_tag ps /\ Forall (pair_ok names ml) ps /\ NoDup ps.*1 /\
    (forall n, n ∈ ps.*1 -> out !! n = None) /\ m = list_to_map ps ∪ out.
Proof.
  revert out. induction ts as [|[|n vs] ts IH]; intros out; cbn [unique_scan].
  - split; [intros [= <-]; exists []; split_and!; [done|constructor|constructor|set_solver|by rewrite (left_id_L _ _)]|].
    intros ([|] & Hts & _ & _ & _ & ->); [|done]. by rewrite (left_id_L _ _).
  - split; [done|]. by intros ([|] & Hts & _).
  - split.
    + destruct (negb _) eqn:E1; [done|]. case_bool_decide as E2; [done|]. destruct (_ || _) eqn:E3; [done|]. bool_prop.
      intros (ps & -> & HF & HN & Hout & ->)%IH. apply bool_decide_eq_true in E1.
      exists ((n, vs) :: ps). split; [done|]. split; [constructor; [by split; [|unfold as_tag; cbn [fst snd]; lia]|done]|].
      assert (Hn : n ∉ ps.*1) by (intros HE; apply Hout in HE; by rewrite lookup_insert in HE; destruct (decide (n = n))).
      split; [by constructor|]. split.
      * intros n' [->|HE]%elem_of_cons; [by apply eq_None_not_Some|]. pose proof (Hout _ HE) as HO. rewrite lookup_insert_ne in HO; [done|]. by intros ->.
      * cbn. rewrite <- insert_union_r; [by rewrite insert_union_l|]. by apply not_elem_of_list_to_map_1.
    + intros ([|[n' vs'] ps] & Hts & HF & HN & Hout & ->); [done|]. injection Hts as -> -> ->.
      apply Forall_cons in HF as [[Hin Hlen] HF]. cbn in HN. apply NoDup_cons in HN as [Hn HN]. unfold as_tag in Hlen. cbn [fst snd] in Hin, Hlen.
      unfold in_list. rewrite bool_decide_true by done. cbn [negb]. rewrite bool_decide_false by (rewrite Hout by (cbn; set_solver); by intros []).
      rewrite (proj2 (Z.ltb_ge _ _)) by lia. rewrite (proj2 (Z.ltb_ge _ _)) by lia. cbn [orb].
      apply IH. exists ps. split_and!; [done..| |].
      * intros n HE. rewrite lookup_insert_ne; [apply Hout; cbn; set_solver|]. by intros ->.
      * cbn. rewrite <- insert_union_r; [by rewrite insert_union_l|]. by apply not_elem_of_list_to_map_1.
Qed.

Lemma uniqueTags_iff ts names ml m :
  uniqueTags ts names ml = Ok m <->
  exists ps, ts = map as_tag ps /\ Forall (pair_ok names ml) ps /\ NoDup ps.*1 /\ names ⊆ ps.*1 /\ m = list_to_map ps.
Proof.
  unfold uniqueTags. split.
  - intros (out & (ps & -> & HF & HN & _ & ->)%unique_scan_iff & H)%bind_Ok. rewrite (right_id_L ∅ (∪)) in H.
    destruct (List.find _ _) eqn:EF; [done|]. injection H as <-. exists ps. split_and!; try done.
    intros n Hn. apply list_elem_of_In in Hn. pose proof (List.find_none _ _ EF _ Hn) as H. apply negb_false_iff, bool_decide_eq_true in H as [v Hv].
    apply elem_of_list_to_map_2 in Hv. apply list_elem_of_fmap. by exists (n, v).
  - intros (ps & -> & HF & HN & Hsub & ->). apply bind_Ok. exists (list_to_map ps). split.
    + apply unique_scan_iff. exists ps. by rewrite (right_id_L ∅ (∪)).
    + destruct (List.find _ _) as [n|] eqn:EF; [|done]. exfalso. apply List.find_some in EF as [Hn H]. apply negb_true_iff, bool_decide_eq_false in H.
      apply H. apply list_elem_of_In, Hsub, list_elem_of_fmap in Hn as ([n' v] & -> & Hv). exists v. by apply elem_of_list_to_map_1.
Qed.

Lemma uniqueTags_perm names ml ts m : NoDup names ->
  uniqueTags ts names ml = Ok m ->
  ts ≡ₚ map (fun n => n :: vals m n) names /\ forall n, n ∈ names -> 2 <= zlen (n :: vals m n) <= tag_limit ml n.
Proof.
  intros HND (ps & -> & HF & HN & Hsub & ->)%uniqueTags_iff.
  assert (HP : names ≡ₚ ps.*1).
  { apply NoDup_Permutation; [done..|]. intros n. split; [apply Hsub|]. intros (p & -> & Hp)%list_elem_of_fmap.
    rewrite Forall_forall in HF. by apply HF. }
  assert (HV : forall p, p ∈ ps -> vals (list_to_map ps) p.1 = p.2).
  { intros [n v] Hp. unfold vals. by rewrite (elem_of_list_to_map_1 _ n v). }
  split.
  - rewrite HP. unfold fmap. rewrite List.map_map. apply Permutation_refl', map_ext_in. intros p Hp. apply list_elem_of_In in Hp.
    unfold as_tag. f_equal. symmetry. by apply HV.
  - intros n Hn. rewrite HP in Hn. apply list_elem_of_fmap in Hn as (p & -> & Hp). rewrite HV by done.
    rewrite Forall_forall in HF. by apply HF.
Qed.

Lemma uniqueTags_accepts names ml ts (f : gostring -> list gostring) : NoDup names ->
  ts ≡ₚ map (fun n => n :: f n) names -> (forall n, n ∈ names -> 2 <= zlen (n :: f n) <= tag_limit ml n) ->
  exists m, uniqueTags ts names ml = Ok m /\ forall n, n ∈ names -> vals m n = f n.
Proof.
  intros HND HP Hlen. set (qs := map (fun n => (n, f n)) names).
  assert (HQ : map (fun n => n :: f n) names = map as_tag qs) by (unfold qs; by rewrite List.map_map).
  assert (HF1 : qs.*1 = names) by (unfold qs, fmap; change (list_fmap ?a ?b ?g ?l) with (map g l); rewrite List.map_map; apply map_id).
  rewrite HQ in HP. apply Permutation_map_inv in HP as (ps & -> & HP).
  assert (HN1 : ps.*1 ≡ₚ names) by (rewrite <- HF1; by rewrite HP).
  assert (HND' : NoDup ps.*1) by by rewrite HN1.
  exists (list_to_map ps). split.
  - apply uniqueTags_iff. exists ps. split_and!; [done| |done| |done].
    + rewrite Forall_forall. intros p Hp. rewrite <- HP in Hp. unfold qs in Hp.
      apply list_elem_of_In, in_map_iff in Hp as (n & <- & Hn). apply list_elem_of_In in Hn. split; [done|]. by apply Hlen.
    + intros n Hn. by rewrite HN1.
  - intros n Hn. unfold vals. rewrite (elem_of_list_to_map_1 _ n (f n)); [done..|]. rewrite <- HP. unfold qs.
    apply list_elem_of_In, in_map_iff. exists n. split; [done|]. by apply list_elem_of_In.
Qed.

Lemma one_value (n : gostring) (l : list gostring) : 2 <= zlen (n :: l) <= 2 -> exists v, l = [v].
Proof. destruct l as [|v [|v' l]]; rewrite ?zlen_cons, ?zlen_nil; [lia|by exists v|].
  pose proof (zlen_nonneg l). lia. Qed.

Lemma one_or_two (n : gostring) (l : list gostring) : 2 <= zlen (n :: l) <= 3 -> (exists v, l = [v]) \/ exists v w, l = [v; w].
Proof.
  destruct l as [|v [|w [|x l]]]; rewrite ?zlen_cons, ?zlen_nil; [lia|left; by exists v|right; by exists v, w|].
  pose proof (zlen_nonneg l). lia.
Qed.

Lemma or_bad_Ok {A} (m : option A) a : or_bad m = Ok a <-> m = Some a.
Proof. destruct m; cbn; naive_solver. Qed.

Lemma val0_eq {Er : Type} m n v l : vals m n = v :: l -> @val0 Er m n = Ok v.
Proof. unfold val0. by intros ->. Qed.

Lemma num_tag_Ok m n max s v : 0 <= max < 2 ^ 64 -> vals m n = [s] ->
  num_tag m n max = Ok v <-> 0 <= v <= max /\ s = Dec.format_uint v.
Proof.
  intros Hm Hv. unfold num_tag, val0. rewrite Hv. cbn [mbind outcome_bind]. destruct (canonicalUint s) as [u|] eqn:EC; cbn [or_bad mbind outcome_bind].
  - apply canonicalUint_iff in EC as [Hu ->]. destruct (Z.leb_spec u max); cbn [ensure mbind outcome_bind].
    + split; [intros [= <-]; split; [lia|done]|]. intros [Hv' HE]. f_equal.
      apply (f_equal canonicalUint) in HE. rewrite !canonicalUint_format in HE by lia. congruence.
    + split; [done|]. intros [Hv' HE]. apply (f_equal canonicalUint) in HE. rewrite !canonicalUint_format in HE by lia. injection HE as ->. lia.
  - split; [done|]. intros [Hv' ->]. rewrite canonicalUint_format in EC by lia. done.
Qed.

(** ** What the quote parser accepts *)

Definition quote_wf (f : QuoteFields) : Prop :=
  isLowerHex64 (qWallet f) = true /\ isLowerHex64 (qIdentityValue f) = true /\ (qIAPubkey f = [] \/ isLowerHex64 (qIAPubkey f) = true) /\
  qAddress f <> [] /\ (0 <= qAmount f < 2 ^ 64 /\ 0 <= qNetworkFee f < 2 ^ 64 /\ 0 <= qHubFee f < 2 ^ 64) /\
  0 <= qPayout f <= qAmount f /\ 0 <= qSentBy f <= max_int /\ 0 <= qHoldsUntil f <= max_int.

(** The values of the first tag of a name. *)
Definition tag_vals (ts : tags) (n : gostring) : list gostring :=
  match List.find (tag_is n) ts with Some (_ :: vs) => vs | _ => [] end.

Lemma quote_tags_named f : quote_tags f = map (fun n => n :: tag_vals (quote_tags f) n) quoteTagNames.
Proof. reflexivity. Qed.

Lemma FormatInt_nonneg n : 0 <= n -> FormatInt n = Dec.format_uint n.
Proof. intros. unfold FormatInt. by rewrite (proj2 (Z.ltb_ge _ _)). Qed.

Lemma quoteTagNames_NoDup : NoDup quoteTagNames.
Proof. by apply (bool_decide_unpack _). Qed.

Lemma receiptTagNames_NoDup : NoDup receiptTagNames.
Proof. by apply (bool_decide_unpack _). Qed.

Section Parsing.
Context {GoLower0 : GoLower} {Schnorr0 : Schnorr} {EventJSON0 : EventJSON}.

Lemma ParseWithdrawQuote_Ok raw q :
  ParseWithdrawQuote raw = Ok q ->
  exists ev f, UnmarshalEvent raw = Some ev /\ quote_header_ok ev = true /\ Tags ev ≡ₚ quote_tags f /\ quote_wf f /\
    q = mkQuote ev (ID ev) f.
Proof.
  unfold ParseWithdrawQuote. intros H. inv_ok. apply or_bad_Ok in E. destruct (uniqueTags (Tags a) _ _) as [m| |] eqn:EU; [|done|done]. injection E1 as <-.
  apply uniqueTags_perm in EU as [HP HL]; [|apply quoteTagNames_NoDup].
  assert (H1 : forall n, n ∈ quoteTagNames -> tag_limit [(bs "i", 3)] n = 2 -> exists v, vals m n = [v]).
  { intros n Hn Ht. specialize (HL n Hn). rewrite Ht in HL. by apply one_value in HL. }
  destruct (H1 (bs "d")) as [v1 V1]; [by apply (bool_decide_unpack _)|done|].
  destruct (H1 (bs "address")) as [v2 V2]; [by apply (bool_decide_unpack _)|done|].
  destruct (H1 (bs "amount_millis")) as [v3 V3]; [by apply (bool_decide_unpack _)|done|].
  destruct (H1 (bs "network_fee_millis")) as [v4 V4]; [by apply (bool_decide_unpack _)|done|].
  destruct (H1 (bs "hub_fee_millis")) as [v5 V5]; [by apply (bool_decide_unpack _)|done|].
  destruct (H1 (bs "payout_millis")) as [v6 V6]; [by apply (bool_decide_unpack _)|done|].
  destruct (H1 (bs "sent_by")) as [v7 V7]; [by apply (bool_decide_unpack _)|done|].
  destruct (H1 (bs "holds_until")) as [v8 V8]; [by apply (bool_decide_unpack _)|done|].
  assert (HI : 2 <= zlen (bs "i" :: vals m (bs "i")) <= 3) by (apply (HL (bs "i")); by apply (bool_decide_unpack _)).
  apply (num_tag_Ok _ _ (2 ^ 64 - 1) _ _ ltac:(lia) V3) in E8 as [R3 ->]. apply (num_tag_Ok _ _ (2 ^ 64 - 1) _ _ ltac:(lia) V4) in E9 as [R4 ->].
  apply (num_tag_Ok _ _ (2 ^ 64 - 1) _ _ ltac:(lia) V5) in E10 as [R5 ->]. apply (num_tag_Ok _ _ (2 ^ 64 - 1) _ _ ltac:(lia) V6) in E11 as [R6 ->].
  apply (num_tag_Ok _ _ max_int _ _ ltac:(unfold max_int; lia) V7) in E12 as [R7 ->]. apply (num_tag_Ok _ _ max_int _ _ ltac:(unfold max_int; lia) V8) in E13 as [R8 ->].
  unfold val0 in E2, E3, E4. rewrite V1 in E2. rewrite V2 in E3. injection E2 as <-. injection E3 as <-. bool_prop.
  match goal with |- exists ev f, _ /\ _ /\ _ /\ _ /\ mkQuote _ _ ?g = _ => exists a, g end.
  assert (HV : (exists v, vals m (bs "i") = [v] /\ a4 = v /\ a5 = []) \/ exists v, vals m (bs "i") = [a4; v] /\ a5 = v /\ isLowerHex64 v = true).
  { destruct (one_or_two _ _ HI) as [(v & Hv)|(v & w & Hv)]; rewrite Hv in E4, E5 |- *.
    - injection E4 as <-. injection E5 as <-. left. by exists v.
    - injection E4 as <-. destruct (isLowerHex64 w) eqn:EW; [|done]. injection E5 as <-. right. by exists w. }
  split_and!; [done..| | |done].
  + rewrite HP. unfold quoteTagNames. cbn [map]. rewrite V1, V2, V3, V4, V5, V6, V7, V8. unfold quote_tags, i_tag. cbn [qWallet qIdentityValue qIAPubkey qAddress qAmount qNetworkFee qHubFee qPayout qSentBy qHoldsUntil].
    rewrite !FormatInt_nonneg by lia. destruct HV as [(v & -> & -> & ->)|(v & -> & -> & Hv)]; [done|].
    rewrite bool_decide_false; [done|]. by intros ->.
  + unfold quote_wf. cbn [qWallet qIdentityValue qIAPubkey qAddress qAmount qNetworkFee qHubFee qPayout qSentBy qHoldsUntil].
    split_and!; try done; try lia. destruct HV as [(v & _ & _ & ->)|(v & _ & -> & Hv)]; [by left|by right].
Qed.

(** The shape of the tags of a quote, by name. *)
Lemma quote_tags_lengths f n : n ∈ quoteTagNames -> 2 <= zlen (n :: tag_vals (quote_tags f) n) <= tag_limit [(bs "i", 3)] n.
Proof.
  intros Hn. apply list_elem_of_In in Hn. unfold quoteTagNames in Hn.
  assert (HI : 2 <= zlen (bs "i" :: tag_vals (quote_tags f) (bs "i")) <= 3).
  { change (tag_vals (quote_tags f) (bs "i")) with (qIdentityValue f :: (if bool_decide (qIAPubkey f = []) then [] else [qIAPubkey f])).
    case_bool_decide; rewrite !zlen_cons, zlen_nil; lia. }
  repeat (destruct Hn as [<-|Hn]; [try exact HI; split; reflexivity || discriminate|]). by destruct Hn.
Qed.

Lemma ParseWithdrawQuote_accepts raw ev f :
  UnmarshalEvent raw = Some ev -> quote_header_ok ev = true -> Tags ev ≡ₚ quote_tags f -> quote_wf f ->
  ParseWithdrawQuote raw = Ok (mkQuote ev (ID ev) f).
Proof.
  unfold ParseWithdrawQuote. intros HU HH HP HW. rewrite HU. cbn [or_bad mbind outcome_bind]. rewrite HH. cbn [ensure mbind outcome_bind].
  destruct HW as (W1 & W2 & W3 & W4 & (W5 & W6 & W7) & W8 & W9 & W10). rewrite quote_tags_named in HP.
  destruct (uniqueTags_accepts quoteTagNames [(bs "i", 3)] (Tags ev) (tag_vals (quote_tags f))) as (m & HM & HV);
    [apply quoteTagNames_NoDup|done| |].
  { apply quote_tags_lengths. }
  rewrite HM. cbn [mbind outcome_bind].
  assert (HG : forall n vs, in_list n quoteTagNames = true -> tag_vals (quote_tags f) n = vs -> vals m n = vs).
  { intros n vs Hn <-. apply HV. by apply bool_decide_eq_true in Hn. }
  rewrite (val0_eq m (bs "d") (qWallet f) []) by by apply HG. cbn [mbind outcome_bind].
  rewrite (val0_eq m (bs "address") (qAddress f) []) by by apply HG. cbn [mbind outcome_bind].
  pose proof (HG (bs "i") (qIdentityValue f :: (if bool_decide (qIAPubkey f = []) then [] else [qIAPubkey f])) eq_refl eq_refl) as VI.
  rewrite (val0_eq m (bs "i") _ _ VI), VI. cbn [mbind outcome_bind].
  assert (HIA : match qIdentityValue f :: (if bool_decide (qIAPubkey f = []) then [] else [qIAPubkey f]) with
                | [_; ia] => if isLowerHex64 ia then Ok ia else Err bad_quote | _ => Ok [] end = Ok (E := WithdrawError) (qIAPubkey f)).
  { case_bool_decide as HE; [by rewrite HE|]. destruct W3 as [|W3]; [done|]. by rewrite W3. }
  rewrite HIA. cbn [mbind outcome_bind]. rewrite W1, W2. cbn [andb ensure mbind outcome_bind].
  rewrite bool_decide_false by done. cbn [negb ensure mbind outcome_bind].
  rewrite (proj2 (num_tag_Ok m _ (2 ^ 64 - 1) _ (qAmount f) ltac:(lia) (HG (bs "amount_millis") _ eq_refl eq_refl))) by (split; [lia|done]).
  cbn [mbind outcome_bind].
  rewrite (proj2 (num_tag_Ok m _ (2 ^ 64 - 1) _ (qNetworkFee f) ltac:(lia) (HG (bs "network_fee_millis") _ eq_refl eq_refl))) by (split; [lia|done]).
  cbn [mbind outcome_bind].
  rewrite (proj2 (num_tag_Ok m _ (2 ^ 64 - 1) _ (qHubFee f) ltac:(lia) (HG (bs "hub_fee_millis") _ eq_refl eq_refl))) by (split; [lia|done]).
  cbn [mbind outcome_bind].
  rewrite (proj2 (num_tag_Ok m _ (2 ^ 64 - 1) _ (qPayout f) ltac:(lia) (HG (bs "payout_millis") _ eq_refl eq_refl))) by (split; [lia|done]).
  cbn [mbind outcome_bind].
  rewrite (proj2 (num_tag_Ok m _ max_int _ (qSentBy f) ltac:(unfold max_int; lia) (HG (bs "sent_by") _ eq_refl eq_refl))) by (split; [lia|apply FormatInt_nonneg; lia]).
  cbn [mbind outcome_bind].
  rewrite (proj2 (num_tag_Ok m _ max_int _ (qHoldsUntil f) ltac:(unfold max_int; lia) (HG (bs "holds_until") _ eq_refl eq_refl))) by (split; [lia|apply FormatInt_nonneg; lia]).
  cbn [mbind outcome_bind]. rewrite (proj2 (Z.leb_le _ _)) by lia. cbn [ensure mbind outcome_bind]. by destruct f.
Qed.

Lemma ParseWithdrawQuote_iff raw q :
  ParseWithdrawQuote raw = Ok q <->
  exists ev f, UnmarshalEvent raw = Some ev /\ quote_header_ok ev = true /\ Tags ev ≡ₚ quote_tags f /\ quote_wf f /\
    q = mkQuote ev (ID ev) f.
Proof.
  split; [apply ParseWithdrawQuote_Ok|]. intros (ev & f & HU & HH & HP & HW & ->). by apply ParseWithdrawQuote_accepts.
Qed.

(** ** What the receipt verifier accepts *)

Definition receipt_of (ev : Event) (q : gostring) (e : ReceiptExpectation) : Prop :=
  Kind ev = KindWithdrawReceipt /\ Content ev = [] /\
  Tags ev ≡ₚ receipt_tags (mkRF (reTarget e) q (reRequestID e) (reAddress e) (rePayout e) (reSentBy e)) /\
  isLowerHex64 q = true /\ isLowerHex64 (reTarget e) = true /\ (reQuoteID e = [] \/ q = reQuoteID e) /\
  0 <= rePayout e < 2 ^ 64 /\ 0 <= reSentBy e < 2 ^ 64.

Lemma receipt_tags_named f : receipt_tags f = map (fun n => n :: tag_vals (receipt_tags f) n) receiptTagNames.
Proof. reflexivity. Qed.

Lemma RequestHash_hex id : isLowerHex64 (RequestHash id) = true.
Proof. apply encode_LowerHex64, length_sha256. Qed.

Lemma parseReceipt_Ok raw ev m :
  parseReceipt raw = Ok (ev, m) ->
  UnmarshalEvent raw = Some ev /\ Kind ev = KindWithdrawReceipt /\ Content ev = [] /\
  Tags ev ≡ₚ map (fun n => n :: vals m n) receiptTagNames /\
  (forall n, n ∈ receiptTagNames -> exists v, vals m n = [v]) /\
  forall v, (vals m (bs "d") = [v] \/ vals m (bs "q") = [v]) -> isLowerHex64 v = true.
Proof.
  unfold parseReceipt. destruct (UnmarshalEvent raw) as [ev'|] eqn:EU; [|done]. destruct (negb (Kind ev' =? _)) eqn:EK; [done|].
  destruct (negb (bool_decide _)) eqn:EC; [done|]. destruct (uniqueTags _ _ _) as [m'| |] eqn:ET; [|done|done]. intros H. inv_ok. bool_prop.
  apply uniqueTags_perm in ET as [HP HL]; [|apply receiptTagNames_NoDup].
  split_and!; try done.
  - intros n Hn. by apply (one_value n), HL.
  - unfold val0 in E, E0. intros v [Hv|Hv]; rewrite Hv in *; by simplify_eq.
Qed.

Lemma VerifyWithdrawReceipt_Ok raw e :
  VerifyWithdrawReceipt raw e = Ok tt ->
  exists ev q, UnmarshalEvent raw = Some ev /\ Verify [WithoutPowCheck] ev = Ok tt /\ HubIdentityEqual (reHub e) (PubKey ev) = true /\
    receipt_of ev q e.
Proof.
  unfold VerifyWithdrawReceipt. intros ([ev m] & (HU & HK & HC & HP & H1 & HX)%parseReceipt_Ok & H)%bind_Ok. cbn beta iota in H. inv_ok.
  destruct (Verify [WithoutPowCheck] ev) as [[]| |] eqn:EV; [|done|done].
  destruct (H1 (bs "d")) as [v1 V1]; [by apply (bool_decide_unpack _)|].
  destruct (H1 (bs "q")) as [v2 V2]; [by apply (bool_decide_unpack _)|].
  destruct (H1 (bs "request_hash")) as [v3 V3]; [by apply (bool_decide_unpack _)|].
  destruct (H1 (bs "address")) as [v4 V4]; [by apply (bool_decide_unpack _)|].
  destruct (H1 (bs "payout_millis")) as [v5 V5]; [by apply (bool_decide_unpack _)|].
  destruct (H1 (bs "sent_by")) as [v6 V6]; [by apply (bool_decide_unpack _)|].
  pose proof (HX v1 (or_introl V1)) as HD. pose proof (HX v2 (or_intror V2)) as HQ.
  repeat match goal with EE : val0 m _ = Ok _ |- _ => erewrite val0_eq in EE by eassumption; injection EE as <- end.
  bool_prop.
  repeat match goal with EE : canonicalUint _ = Some _ |- _ => apply canonicalUint_iff in EE as [? ->] end. subst.
  exists ev, v2. unfold receipt_of. cbn [rfWallet]. split_and!; try done; try lia.
  - rewrite HP. unfold receiptTagNames. cbn [map]. by rewrite V1, V2, V3, V4, V5, V6, <- (FormatInt_nonneg (reSentBy e)) by lia.
  - apply orb_true_iff in E8 as [E8|E8]; apply bool_decide_eq_true in E8; [by left|by right].
Qed.

Lemma receipt_tags_lengths f n : n ∈ receiptTagNames -> 2 <= zlen (n :: tag_vals (receipt_tags f) n) <= tag_limit [] n.
Proof.
  intros Hn. apply list_elem_of_In in Hn. unfold receiptTagNames in Hn.
  repeat (destruct Hn as [<-|Hn]; [split; reflexivity || discriminate|]). by destruct Hn.
Qed.

Lemma VerifyWithdrawReceipt_accepts raw e ev q :
  UnmarshalEvent raw = Some ev -> Verify [WithoutPowCheck] ev = Ok tt -> HubIdentityEqual (reHub e) (PubKey ev) = true -> receipt_of ev q e ->
  VerifyWithdrawReceipt raw e = Ok tt.
Proof.
  intros HU HV HI (HK & HC & HP & HQ & HT & HQE & HPo & HS). rewrite receipt_tags_named in HP.
  destruct (uniqueTags_accepts receiptTagNames [] (Tags ev) (tag_vals (receipt_tags (mkRF (reTarget e) q (reRequestID e) (reAddress e) (rePayout e) (reSentBy e)))))
    as (m & HM & HVs); [apply receiptTagNames_NoDup|done|intros; by apply receipt_tags_lengths|].
  assert (HG : forall n v, in_list n receiptTagNames = true ->
    tag_vals (receipt_tags (mkRF (reTarget e) q (reRequestID e) (reAddress e) (rePayout e) (reSentBy e))) n = [v] -> forall Er : Type, @val0 Er m n = Ok v).
  { intros n v Hn Hv Er. apply val0_eq with []. rewrite HVs; [done|]. by apply bool_decide_eq_true in Hn. }
  assert (HR : parseReceipt raw = Ok (ev, m)).
  { unfold parseReceipt. rewrite HU, HK, HC, HM, Z.eqb_refl, bool_decide_true by done. cbn [negb].
    rewrite (HG (bs "q") q eq_refl eq_refl), (HG (bs "d") (reTarget e) eq_refl eq_refl), (HG (bs "request_hash") (RequestHash (reRequestID e)) eq_refl eq_refl).
    cbn [mbind outcome_bind]. by rewrite HQ, HT, RequestHash_hex. }
  unfold VerifyWithdrawReceipt. rewrite HR. cbn [mbind outcome_bind]. rewrite HV. cbn [mbind outcome_bind]. rewrite HI. cbn [ensure mbind outcome_bind].
  rewrite (HG (bs "payout_millis") (Dec.format_uint (rePayout e)) eq_refl eq_refl), (HG (bs "sent_by") (FormatInt (reSentBy e)) eq_refl eq_refl),
    (HG (bs "d") (reTarget e) eq_refl eq_refl), (HG (bs "q") q eq_refl eq_refl),
    (HG (bs "request_hash") (RequestHash (reRequestID e)) eq_refl eq_refl), (HG (bs "address") (reAddress e) eq_refl eq_refl).
  cbn [mbind outcome_bind]. rewrite FormatInt_nonneg by lia. rewrite !canonicalUint_format by lia.
  assert (HB : forall (A : Type) (HD : EqDecision A) (x : A), bool_decide (x = x) = true) by (intros; by apply bool_decide_true).
  rewrite !HB. rewrite (proj2 (Z.leb_le _ _)) by lia. cbn [ensure mbind outcome_bind andb].
  enough (HE : bool_decide (reQuoteID e = []) || bool_decide (q = reQuoteID e) = true) by by rewrite HE.
  apply orb_true_iff. rewrite !bool_decide_eq_true. naive_solver.
Qed.

End Parsing.

(** ** Fees *)

Lemma Div64_million {E} ppm amount : 0 <= ppm <= 1000000 -> 0 <= amount < 2 ^ 64 ->
  @Div64 E (Mul64 ppm amount).1 (Mul64 ppm amount).2 1000000 = Ok (ppm * amount / 1000000, (ppm * amount) mod 1000000).
Proof.
  intros HP HA. unfold Div64, Mul64, wrap. cbn [fst snd]. change (1000000 =? 0) with false. cbn [orb].
  assert (HD : ppm * amount / 2 ^ 64 * 2 ^ 64 + (ppm * amount) mod 2 ^ 64 = ppm * amount) by (pose proof (Z.div_mod (ppm * amount) (2 ^ 64)); lia).
  rewrite HD, (proj2 (Z.leb_gt _ _)); [done|]. apply Z.div_lt_upper_bound; nia.
Qed.

Lemma Add64_carry x y : 0 <= x < 2 ^ 64 -> 0 <= y < 2 ^ 64 ->
  negb ((Add64 x y 0).2 =? 0) = (2 ^ 64 <=? x + y) /\ (x + y < 2 ^ 64 -> (Add64 x y 0).1 = x + y).
Proof.
  intros Hx Hy. unfold Add64. cbn [fst snd]. rewrite Z.add_0_r. split; [|intros; apply wrap_small; lia].
  destruct (Z.leb_spec (2 ^ 64) (x + y)); destruct (Z.eqb_spec ((x + y) / 2 ^ 64) 0); cbn; try done; Z.div_mod_to_equations; lia.
Qed.

(** The fee before it is rounded: capped at the amount, at least the redeem fee. *)
Definition base_fee (amount network hub redeem : Z) : Z := Z.min (Z.max (network + hub) redeem) amount.

Definition hub_fee (amount base ppm : Z) : Z := base + ppm * amount / 1000000.

Lemma WithdrawFee_value amount network base ppm redeem :
  0 <= amount < 2 ^ 64 -> 0 <= network < 2 ^ 64 -> 0 <= base < 2 ^ 64 -> 0 <= ppm -> 0 <= redeem < 2 ^ 64 ->
  WithdrawFee amount network base ppm redeem =
    if 1000000 <? ppm then Err (ErrFeeRate ppm)
    else if 2 ^ 64 <=? network + hub_fee amount base ppm then Err ErrFeeOverflow
    else let payout := (amount - base_fee amount network (hub_fee amount base ppm) redeem) / 1000 * 1000 in
         Ok (hub_fee amount base ppm, amount - payout, payout).
Proof.
  intros HA HN HB HP HR. unfold WithdrawFee, hub_fee. destruct (Z.ltb_spec 1000000 ppm); [done|].
  destruct (Mul64 ppm amount) as [hi lo] eqn:EM. pose proof (@Div64_million FeeErr ppm amount ltac:(lia) HA) as HD. rewrite EM in HD. cbn [fst snd] in HD.
  rewrite HD. cbn [mbind outcome_bind fst snd]. set (prop := ppm * amount / 1000000).
  assert (Hprop : 0 <= prop < 2 ^ 64) by (unfold prop; split; [apply Z.div_pos; nia|apply Z.div_lt_upper_bound; nia]).
  destruct (Add64_carry base prop) as [HC1 HV1]; [done..|]. destruct (Add64 base prop 0) as [h c] eqn:EA. cbn [fst snd] in HC1, HV1. rewrite HC1.
  destruct (Z.leb_spec (2 ^ 64) (base + prop)) as [HL|HL]; [by rewrite (proj2 (Z.leb_le _ _)) by lia|]. rewrite HV1 by done. clear h HV1 EA.
  destruct (Add64_carry network (base + prop)) as [HC2 HV2]; [lia..|]. destruct (Add64 network (base + prop) 0) as [f c2] eqn:EA. cbn [fst snd] in HC2, HV2.
  rewrite HC2. destruct (Z.leb_spec (2 ^ 64) (network + (base + prop))) as [HL2|HL2]; [done|]. rewrite HV2 by done.
  fold (base_fee amount network (base + prop) redeem). assert (HF : 0 <= base_fee amount network (base + prop) redeem <= amount) by (unfold base_fee; lia).
  set (fee := base_fee _ _ _ _) in *. rewrite (wrap_small 64 (amount - fee)) by lia. cbv zeta. f_equal. rewrite !wrap_small; [f_equal; [f_equal|]|..]; dlia.
Qed.

Lemma WithdrawFee_Ok amount network base ppm redeem hub fee payout :
  0 <= amount < 2 ^ 64 -> 0 <= network < 2 ^ 64 -> 0 <= base < 2 ^ 64 -> 0 <= ppm -> 0 <= redeem < 2 ^ 64 ->
  WithdrawFee amount network base ppm redeem = Ok (hub, fee, payout) ->
  (ppm <= 1000000 /\ hub = base + ppm * amount / 1000000 /\ 0 <= hub < 2 ^ 64) /\ (fee + payout = amount /\ 0 <= payout) /\ payout mod 1000 = 0 /\
  (payout = 0 \/ Z.max (network + hub) redeem <= fee) /\
  forall p, 0 <= p -> p mod 1000 = 0 -> Z.max (network + hub) redeem <= amount - p -> p <= payout.
Proof.
  intros HA HN HB HP HR. rewrite WithdrawFee_value by done. destruct (Z.ltb_spec 1000000 ppm); [done|].
  destruct (Z.leb_spec (2 ^ 64) (network + hub_fee amount base ppm)) as [|HF]; [done|]. cbv zeta. intros [= <- <- <-].
  assert (HH : 0 <= hub_fee amount base ppm < 2 ^ 64) by (unfold hub_fee in *; pose proof (Z.div_pos (ppm * amount) 1000000 ltac:(nia) ltac:(lia)); lia).
  unfold base_fee. set (h := hub_fee amount base ppm) in *. set (b := Z.min _ amount).
  assert (HBf : 0 <= b <= amount) by (unfold b; lia). split_and!; try done; try lia; try dlia.
  intros p Hp0 Hpm HpL. assert (HbL : b <= amount - p) by (unfold b; lia). dlia.
Qed.

Lemma RedeemFee_range amount base ppm fee net :
  0 <= amount < 2 ^ 64 -> 0 <= base < 2 ^ 64 -> 0 <= ppm -> RedeemFee amount base ppm = Ok (fee, net) ->
  (0 <= fee <= amount) /\ fee + net = amount.
Proof.
  intros HA HB HP. unfold RedeemFee. destruct (Z.ltb_spec 1000000 ppm); [done|]. rewrite Z.quot_div_nonneg by nia.
  pose proof (Z.div_pos (ppm * amount) 1000000 ltac:(nia) ltac:(lia)) as HD.
  destruct (Z.ltb_spec amount (ppm * amount / 1000000 + base)); intros [= <- <-]; lia.
Qed.

(** ** Signing with a key *)

Section Signed.
Context {GoLower0 : GoLower} {Schnorr0 : Schnorr} {EventJSON0 : EventJSON}.

(** The Hub's signer: nip01's Sign with the node key. *)
Definition sign_with (key : gostring) (ev : Event) : option Event :=
  match Sign ev key with (ev', Ok tt) => Some ev' | _ => None end.

(** BIP-340 signatures are 64 bytes. *)
Definition sig64 : Prop := forall sk h s, SchnorrSign sk h = Some s -> length (SerializeSig s) = 64%nat.

Lemma sign_with_Ok key ev ev' : sign_with key ev = Some ev' -> Sign ev key = (ev', Ok tt).
Proof. unfold sign_with. destruct (Sign ev key) as [e [[]| |]]; by intros [= <-]. Qed.

Lemma lower_hex_ToLower s : isLowerHex s = true -> ToLower s = s.
Proof.
  intros H. unfold isLowerHex in H. rewrite ToLower_ascii.
  - rewrite <- (map_id s) at 2. apply map_ext_in. intros c Hc.
    assert (HC : is_lower_hex c = true) by (rewrite forallb_forall in H; by apply H).
    apply is_lower_hex_range in HC. unfold lower_byte. destruct (Z.leb_spec 65 (b2z c)), (Z.leb_spec (b2z c) 90); cbn; try done. lia.
  - apply Forall_forall. intros c Hc. rewrite forallb_forall in H. apply list_elem_of_In in Hc. apply H in Hc. apply is_lower_hex_range in Hc. lia.
Qed.

Lemma lower_hex64_parts s : isLowerHex64 s = true -> zlen s = 64 /\ isLowerHex s = true.
Proof. unfold isLowerHex64. intros H. by bool_prop. Qed.

(** The x-only identity equals itself. *)
Lemma HubIdentityEqual_same s : isLowerHex64 s = true -> HubIdentityEqual s s = true.
Proof.
  intros H. pose proof (lower_hex64_parts s H) as [HL HH]. unfold HubIdentityEqual. rewrite lower_hex_ToLower, HL by done.
  cbn. by rewrite HL, H, bool_decide_true.
Qed.

Lemma HubIdentityEqual_iff hub pk : isLowerHex64 hub = true -> isLowerHex64 pk = true -> HubIdentityEqual hub pk = true <-> hub = pk.
Proof.
  intros H1 H2. split; [|intros ->; by apply HubIdentityEqual_same].
  pose proof (lower_hex64_parts _ H1) as [_ L1]. pose proof (lower_hex64_parts _ H2) as [Z2 L2].
  unfold HubIdentityEqual. rewrite !lower_hex_ToLower, Z2 by done. cbn. intros HE. by bool_prop.
Qed.

(** What signing makes of an unsigned event. *)
Lemma sign_with_header key ev ev' : SchnorrLaws -> sig64 -> 0 <= Kind ev <= 65535 -> sign_with key ev = Some ev' ->
  Verify [WithoutPowCheck] ev' = Ok tt /\ GetPublicKey key = Ok (PubKey ev') /\ isLowerHex64 (ID ev') = true /\ isLowerHex64 (PubKey ev') = true /\
  zlen (Sig ev') = 128 /\ isLowerHex (Sig ev') = true /\
  CreatedAt ev' = CreatedAt ev /\ Kind ev' = Kind ev /\ Tags ev' = Tags ev /\ Content ev' = Content ev.
Proof.
  intros HL H64 HK HS%sign_with_Ok. pose proof (Sign_Ok ev key ev' HS) as (b & s & HP & Hs & ->). cbv zeta in Hs.
  split; [apply Verify_accepted, (Sign_accepted ev key); try done; [by left|left; cbn; lia]|].
  cbn [ID PubKey Sig CreatedAt Kind Tags Content]. unfold GetPublicKey. rewrite HP. split; [done|].
  split; [apply encode_LowerHex64, length_sha256|]. split; [by apply encode_LowerHex64, key_hex_valid|].
  split; [unfold zlen; by rewrite Hex.length_encode, (H64 _ _ _ Hs)|]. by split; [apply encode_lower_hex|].
Qed.

(** ** Quotes *)

Definition quote_in_range (f : QuoteFields) : Prop :=
  (0 <= qAmount f < 2 ^ 64 /\ 0 <= qNetworkFee f < 2 ^ 64 /\ 0 <= qHubFee f < 2 ^ 64 /\ 0 <= qPayout f < 2 ^ 64) /\
  qSentBy f <= max_int /\ qHoldsUntil f <= max_int.

Lemma NewWithdrawQuoteEvent_Ok f createdAt sign ev :
  NewWithdrawQuoteEvent f createdAt sign = Ok ev <->
  isLowerHex64 (qWallet f) = true /\ isLowerHex64 (qIdentityValue f) = true /\ (qIAPubkey f = [] \/ isLowerHex64 (qIAPubkey f) = true) /\
  qAddress f <> [] /\ 0 <= qSentBy f /\ 0 <= qHoldsUntil f /\ 0 <= createdAt /\ qPayout f <= qAmount f /\
  sign (mkEvent [] [] (u64 createdAt) KindWithdrawQuote (quote_tags f) [] []) = Some ev.
Proof.
  unfold NewWithdrawQuoteEvent. destruct (isLowerHex64 (qWallet f)); cbn [negb orb]; [|by naive_solver].
  destruct (isLowerHex64 (qIdentityValue f)); cbn [negb orb]; [|by naive_solver]. case_bool_decide as H1; cbn [negb orb andb].
  - case_bool_decide as H2; cbn [orb]; [by naive_solver|].
    destruct (Z.ltb_spec (qSentBy f) 0); cbn [orb]; [split; [done|lia]|]. destruct (Z.ltb_spec (qHoldsUntil f) 0); cbn [orb]; [split; [done|lia]|].
    destruct (Z.ltb_spec createdAt 0); cbn [orb]; [split; [done|lia]|]. destruct (Z.ltb_spec (qAmount f) (qPayout f)); [split; [done|lia]|].
    destruct (sign _); [|by naive_solver]. split; [intros [= <-]; split_and!; (done || lia || by left)|intros; destruct_and!; by simplify_eq].
  - destruct (isLowerHex64 (qIAPubkey f)); cbn [negb]; [|by naive_solver]. case_bool_decide as H2; cbn [orb]; [by naive_solver|].
    destruct (Z.ltb_spec (qSentBy f) 0); cbn [orb]; [split; [done|lia]|]. destruct (Z.ltb_spec (qHoldsUntil f) 0); cbn [orb]; [split; [done|lia]|].
    destruct (Z.ltb_spec createdAt 0); cbn [orb]; [split; [done|lia]|]. destruct (Z.ltb_spec (qAmount f) (qPayout f)); [split; [done|lia]|].
    destruct (sign _); [|by naive_solver]. split; [intros [= <-]; split_and!; (done || lia || by right)|intros; destruct_and!; by simplify_eq].
Qed.

(** A quote the Hub made parses back to its fields, and verifies as the Hub's. *)
Lemma new_quote_parses key f createdAt ev :
  SchnorrLaws -> sig64 -> quote_in_range f -> NewWithdrawQuoteEvent f createdAt (sign_with key) = Ok ev -> json_stable ev ->
  let q := mkQuote ev (ID ev) f in
  ParseWithdrawQuote (MarshalEvent ev) = Ok q /\ VerifyWithdrawQuote q (PubKey ev) = Ok tt /\ GetPublicKey key = Ok (PubKey ev).
Proof.
  intros HL H64 ((R1 & R2 & R3 & R4) & R5 & R6) (W1 & W2 & W3 & W4 & W5 & W6 & W7 & W8 & HS)%NewWithdrawQuoteEvent_Ok HJ q.
  apply sign_with_header in HS as (HV & HP & HI & HPk & HSl & HSh & _ & HK & HT & HC); [|done|done|done]. cbn [Kind Tags Content] in HK, HT, HC.
  split; [|split; [|done]].
  - apply ParseWithdrawQuote_accepts; [exact HJ| |by rewrite HT|].
    + unfold quote_header_ok. by rewrite HK, HC, HI, HPk, HSl, HSh.
    + unfold quote_wf. split_and!; (done || lia).
  - unfold VerifyWithdrawQuote, q. cbn [wqEvent wqID]. rewrite HV, bool_decide_true by done. cbn [ensure mbind outcome_bind].
    by rewrite HubIdentityEqual_same.
Qed.

(** What a client takes from a quote answer. *)
Definition quote_matches (res : CashWithdrawQuoteResult) (e : QuoteExpectation) (f : QuoteFields) : Prop :=
  (rAddress res = qAddress f /\ rAmount res = qAmount f /\ rNetworkFee res = qNetworkFee f /\ rHubFee res = qHubFee f /\
   rPayout res = qPayout f /\ rFee res = FeeMillis f /\ rSentBy res = qSentBy f /\ rHoldsUntil res = qHoldsUntil f) /\
  (qWallet f = xWallet e /\ qIdentityValue f = xIdentityValue e /\ qIAPubkey f = xIAPubkey e /\ qAddress f = xAddress e /\ qAmount f = xAmount e) /\
  (forall t, xSendBefore e = Some t -> qSentBy f <= t) /\ qPayout f mod 1000 = 0 /\ (forall r, xRedeemFee e = Some r -> r <= FeeMillis f).

Lemma VerifyWithdrawQuote_Ok q hub :
  VerifyWithdrawQuote q hub = Ok tt <->
  Verify [WithoutPowCheck] (wqEvent q) = Ok tt /\ wqID q = ID (wqEvent q) /\ HubIdentityEqual hub (PubKey (wqEvent q)) = true.
Proof.
  unfold VerifyWithdrawQuote. destruct (Verify _ _) as [[]| |]; cbn; [|naive_solver..].
  case_bool_decide; cbn; [|naive_solver]. rewrite ensure_Ok. naive_solver.
Qed.

Lemma VerifyQuoteAnswer_Ok res e q :
  VerifyQuoteAnswer res e = Ok q <->
  ParseWithdrawQuote (rQuote res) = Ok q /\ VerifyWithdrawQuote q (xHub e) = Ok tt /\ quote_matches res e (wqFields q).
Proof.
  unfold VerifyQuoteAnswer, quote_matches. destruct (ParseWithdrawQuote (rQuote res)) as [q'| |]; [|naive_solver..].
  destruct (VerifyWithdrawQuote q' (xHub e)) as [[]|we|] eqn:EV; [| |].
  2,3: split; [done|]; intros ([= ->] & H & _); congruence.
  split.
  - intros H. repeat match type of H with (if ?c then _ else _) = _ => let E := fresh "E" in destruct c eqn:E; [discriminate H|] end.
    injection H as <-. bool_prop.
    assert (HSB : forall t, xSendBefore e = Some t -> qSentBy (wqFields q') <= t) by (intros t Ht; rewrite Ht in *; bool_prop; lia).
    assert (HRF : forall r, xRedeemFee e = Some r -> r <= FeeMillis (wqFields q')) by (intros r Hr; rewrite Hr in *; bool_prop; lia).
    split_and!; done.
  - intros ([= <-] & _ & (M1 & M2 & M3 & M4 & M5 & M6 & M7 & M8) & (X1 & X2 & X3 & X4 & X5) & HS & HP & HR).
    assert (HSB : match xSendBefore e with Some t => t <? qSentBy (wqFields q') | None => false end = false)
      by (destruct (xSendBefore e) as [t|]; [specialize (HS t eq_refl); by apply Z.ltb_ge|done]).
    assert (HRF : match xRedeemFee e with Some r => FeeMillis (wqFields q') <? r | None => false end = false)
      by (destruct (xRedeemFee e) as [r|]; [specialize (HR r eq_refl); by apply Z.ltb_ge|done]).
    rewrite HSB, HRF, HP, M1, M2, M3, M4, M5, M6, M7, M8, X1, X2, X3, X4, X5, !Z.eqb_refl.
    assert (HB : forall x : gostring, bool_decide (x = x) = true) by (intros; by apply bool_decide_true). by rewrite !HB.
Qed.

(** the client takes exactly the answers its Hub signed for its own question.
    A quote answer is accepted if and only if its quote is an event of kind
    23187, with no content and exactly the nine tags of some well-formed fields
    (in any order), verified under the Hub's own key, whose fields are the
    answer's (the fee being amount minus payout) and name the bill, slice,
    address and amount the client asked about, with a payout of whole base
    units, a fee no lower than the redeem fee and a sent_by no later than asked. *)
Theorem quote_answer_exact (res : CashWithdrawQuoteResult) (e : QuoteExpectation) (q : WithdrawQuote) :
  VerifyQuoteAnswer res e = Ok q <->
  exists ev f, q = mkQuote ev (ID ev) f /\ UnmarshalEvent (rQuote res) = Some ev /\
    quote_header_ok ev = true /\ Tags ev ≡ₚ quote_tags f /\ quote_wf f /\
    Verify [WithoutPowCheck] ev = Ok tt /\ HubIdentityEqual (xHub e) (PubKey ev) = true /\ quote_matches res e f.
Proof.
  rewrite VerifyQuoteAnswer_Ok, ParseWithdrawQuote_iff, VerifyWithdrawQuote_Ok. split.
  - intros ((ev & f & HU & HH & HP & HW & ->) & (HV & _ & HI) & HM). by exists ev, f.
  - intros (ev & f & -> & HU & HH & HP & HW & HV & HI & HM). split_and!; try done. by exists ev, f.
Qed.

(** an honest Hub's quote is accepted.  A Hub that computes the fee with
    WithdrawFee over the slice's redeem fee, builds the quote with
    NewWithdrawQuoteEvent under its node key and answers its fields is accepted
    by the client that asked about that bill, slice, address and amount and
    holds that key as the Hub's identity, and the quote passes the Hub's own
    check when it is presented for the same slice. *)
Theorem honest_quote_accepted (key wallet identity ia address : gostring) (createdAt amount rbase rppm redeem net network wbase wppm hub fee payout sentBy holdsUntil : Z)
    (ev : Event) (sendBefore : option Z)
    (HL : SchnorrLaws) (H64 : sig64)
    (Hrange : 0 <= amount < 2 ^ 64 /\ 0 <= rbase < 2 ^ 64 /\ 0 <= rppm /\ 0 <= network < 2 ^ 64 /\ 0 <= wbase < 2 ^ 64 /\ 0 <= wppm)
    (Htimes : sentBy <= max_int /\ holdsUntil <= max_int /\ forall t, sendBefore = Some t -> sentBy <= t)
    (HR : RedeemFee amount rbase rppm = Ok (redeem, net))
    (HW : WithdrawFee amount network wbase wppm redeem = Ok (hub, fee, payout))
    (HE : NewWithdrawQuoteEvent (mkQF wallet identity ia address amount network hub payout sentBy holdsUntil) createdAt (sign_with key) = Ok ev)
    (HJ : json_stable ev) :
  let q := mkQuote ev (ID ev) (mkQF wallet identity ia address amount network hub payout sentBy holdsUntil) in
  GetPublicKey key = Ok (PubKey ev) /\
  VerifyQuoteAnswer (mkQR (MarshalEvent ev) address amount network hub fee payout sentBy holdsUntil)
                    (mkQE (PubKey ev) wallet identity ia address sendBefore amount (Some redeem)) = Ok q /\
  QuoteForSlice q (PubKey ev) wallet identity ia amount = Ok tt.
Proof.
  intros q. destruct Hrange as (RA & RB & RP & RN & RW & RWP). destruct (RedeemFee_range _ _ _ _ _ RA RB RP HR) as [RR HS].
  destruct (WithdrawFee_Ok amount network wbase wppm redeem hub fee payout) as (FH & FS & FP & FM & FR); [done|done|done|done|lia|done|].
  assert (HQR : quote_in_range (wqFields q)) by (unfold quote_in_range, q; cbn [wqFields qAmount qNetworkFee qHubFee qPayout qSentBy qHoldsUntil]; lia).
  destruct (new_quote_parses key _ createdAt ev HL H64 HQR HE HJ) as (HP & HV & HG). change (mkQuote ev (ID ev) (wqFields q)) with q in HP, HV.
  split; [done|]. split.
  - apply VerifyQuoteAnswer_Ok. split; [done|]. split; [done|]. unfold quote_matches, FeeMillis, q. cbn.
    rewrite wrap_small by lia. split_and!; try done; try lia; [apply Htimes|]. intros r [= <-]. lia.
  - unfold QuoteForSlice. rewrite HV. cbn [mbind outcome_bind q wqFields qWallet qIdentityValue qIAPubkey qAmount].
    rewrite Z.eqb_refl, !bool_decide_true by done. done.
Qed.

(** a receipt is accepted exactly when the Hub signed it for this call: the
    event of kind 23188 with no content, verified under the Hub's key, whose
    tags are, in any order, the bill, a quote id (the call's own when it kept
    one), the hash of the call's request_id, and the address, payout and
    sent_by of the quote. *)
Theorem receipt_exact (raw : gostring) (e : ReceiptExpectation) :
  VerifyWithdrawReceipt raw e = Ok tt <->
  exists ev q, UnmarshalEvent raw = Some ev /\ Verify [WithoutPowCheck] ev = Ok tt /\
    HubIdentityEqual (reHub e) (PubKey ev) = true /\ receipt_of ev q e.
Proof.
  split; [apply VerifyWithdrawReceipt_Ok|]. intros (ev & q & HU & HV & HI & HR). by eapply VerifyWithdrawReceipt_accepts.
Qed.

End Signed.

(** C31: the withdraw fee is exact.  It is refused exactly for a rate above a
    million and for a sum that does not fit in 64 bits, and never panics;
    otherwise fee and payout add up to the amount, the payout is a whole number
    of base units and the largest one that leaves the network and Hub fees and
    the redeem fee, or zero. *)
Theorem withdraw_fee_exact (amount network base ppm redeem : Z)
    (HA : 0 <= amount < 2 ^ 64) (HN : 0 <= network < 2 ^ 64) (HB : 0 <= base < 2 ^ 64) (HP : 0 <= ppm) (HR : 0 <= redeem < 2 ^ 64) :
  match WithdrawFee amount network base ppm redeem with
  | Panic => False
  | Err (ErrFeeRate p) => p = ppm /\ 1000000 < ppm
  | Err ErrFeeOverflow => ppm <= 1000000 /\ 2 ^ 64 <= network + (base + ppm * amount / 1000000)
  | Ok (hub, fee, payout) =>
      ppm <= 1000000 /\ hub = base + ppm * amount / 1000000 /\ fee + payout = amount /\ 0 <= payout /\ payout mod 1000 = 0 /\
      (payout = 0 \/ Z.max (network + hub) redeem <= fee) /\
      forall p, 0 <= p -> p mod 1000 = 0 -> Z.max (network + hub) redeem <= amount - p -> p <= payout
  end.
Proof.
  destruct (WithdrawFee amount network base ppm redeem) as [[[hub fee] payout]|[p|]|] eqn:EW.
  - pose proof (WithdrawFee_Ok amount network base ppm redeem hub fee payout HA HN HB HP HR EW) as (H1 & H2 & H3 & H4 & H5). by split_and!; (done || lia).
  - rewrite WithdrawFee_value in EW by done. destruct (Z.ltb_spec 1000000 ppm); [by injection EW as <-|]. by destruct (2 ^ 64 <=? _).
  - rewrite WithdrawFee_value in EW by done. destruct (Z.ltb_spec 1000000 ppm); [done|].
    destruct (Z.leb_spec (2 ^ 64) (network + hub_fee amount base ppm)); [done|]. done.
  - rewrite WithdrawFee_value in EW by done. repeat case_match; done.
Qed.
