(* ===== verification/CashPayout.v ===== *)
(** * nipcash: payouts and the Hub's decisions about them

    [nipcash/withdraw_payout.go] (the payout answer and its parser),
    [withdraw_hub.go] (the refusal tables, payout states, cancellation, re-mint
    expiry and retention), [withdraw_address.go] (witness addresses; the bech32
    and base58 codecs are outside the repository), [withdraw_terms.go] and
    [cash_lookup.go] (a lookup's request and answer). *)

From S2P Require Import Prelude GoLib Sha256 NostrUtils CashCall CashWithdraw.

(** ** Addresses *)

Record ScriptType := mkST { Version : Z; ProgramLen : Z }.
#[global] Instance ScriptType_eq_dec : EqDecision ScriptType.
Proof. solve_decision. Defined.

Definition ST_Valid (s : ScriptType) : bool :=
  if (16 <? Version s) || (ProgramLen s <? 2) || (40 <? ProgramLen s) then false
  else if Version s =? 0 then (ProgramLen s =? 20) || (ProgramLen s =? 32)
  else true.

Inductive Checksum := Version0 | VersionM | VersionUnknown.
#[global] Instance Checksum_eq_dec : EqDecision Checksum.
Proof. solve_decision. Defined.

(** chainutil/bech32.DecodeGeneric and ConvertBits(5, 8, false), and
    base58.CheckDecode. *)
Class AddressCodec := {
  DecodeGeneric : gostring -> option (gostring * list byte * Checksum);
  FromBits5 : list byte -> option (list byte);
  CheckDecode : gostring -> bool;
}.

Inductive AddressErr := ErrAddressMalformed | ErrAddressNetwork (hrp : gostring) | ErrAddressNoWitness.

Definition maxAddressLen : Z := 90.

Section Addresses.
Context {GoLower0 : GoLower} {Codec : AddressCodec}.

Definition decodeWitness (addr : gostring) : outcome AddressErr (Z * list byte * gostring) :=
  if maxAddressLen <? zlen addr then Err ErrAddressMalformed
  else match DecodeGeneric addr with
  | None => if CheckDecode addr then Err ErrAddressNoWitness else Err ErrAddressMalformed
  | Some (hrp, data, checksum) =>
      if negb (bool_decide (ToLower addr = addr)) then Err ErrAddressMalformed
      else match data with
      | [] => Err ErrAddressMalformed
      | v :: rest =>
          let version := b2z v in
          if 16 <? version then Err ErrAddressMalformed
          else match FromBits5 rest with
          | None => Err ErrAddressMalformed
          | Some program =>
              if negb (ST_Valid (mkST version (Z.min (zlen program) 255))) then Err ErrAddressMalformed
              else if (version =? 0) && negb (bool_decide (checksum = Version0)) then Err ErrAddressMalformed
              else if (0 <? version) && negb (bool_decide (checksum = VersionM)) then Err ErrAddressMalformed
              else Ok (version, program, hrp)
          end
      end
  end.

Definition DecodeWitnessAddress (addr hrp : gostring) : outcome AddressErr (Z * list byte) :=
  '(version, program, got) ← decodeWitness addr;
  if negb (bool_decide (hrp = [])) && negb (bool_decide (got = hrp)) then Err (ErrAddressNetwork got) else Ok (version, program).

Definition ClassifyAddress (addr hrp : gostring) : outcome AddressErr ScriptType :=
  '(v, prog) ← DecodeWitnessAddress addr hrp;
  Ok (mkST v (u8 (zlen prog))).

Definition ClassifyAddressAmong (addr : gostring) (hrps : list gostring) : outcome AddressErr (ScriptType * gostring) :=
  '(v, prog, hrp) ← decodeWitness addr;
  if in_list hrp hrps then Ok (mkST v (u8 (zlen prog)), hrp) else Err (ErrAddressNetwork hrp).

Definition PaysScriptType (pays : list ScriptType) (st : ScriptType) : bool := in_list st pays.

Definition WitnessScript (version : Z) (program : list byte) : list byte :=
  z2b (if 0 <? version then 0x50 + version else 0) :: z2b (zlen program) :: program.

(** ** Refusing a quote *)

Record QuoteCheck (E : Type) := mkQC {
  Found : bool; qcAddress : gostring; NetworkHRP : gostring; Pays : list ScriptType; Claimable : bool; qcAmount : Z;
  MinMillis : option Z; MaxMillis : option Z; PayoutFor : option (ScriptType -> outcome E (Z * Z)); SendBefore : option Z; EarliestSentBy : Z;
}.
Arguments Found {E}. Arguments qcAddress {E}. Arguments NetworkHRP {E}. Arguments Pays {E}. Arguments Claimable {E}. Arguments qcAmount {E}.
Arguments MinMillis {E}. Arguments MaxMillis {E}. Arguments PayoutFor {E}. Arguments SendBefore {E}. Arguments EarliestSentBy {E}.

(** A refusal of the table, PayoutFor missing, or the error of PayoutFor. *)
Inductive QuoteRefusal (E : Type) := Refused (e : WithdrawError) | PayoutForRequired | PayoutForErr (e : E).
Arguments Refused {E}. Arguments PayoutForRequired {E}. Arguments PayoutForErr {E}.

Definition refuse {E A} (code detail : gostring) (row : Z) : outcome (QuoteRefusal E) A := Err (Refused (mkWErr code detail row)).

Definition CheckQuoteRequest {E} (c : QuoteCheck E) : outcome (QuoteRefusal E) unit :=
  if negb (Found c) then refuse ErrCodeNotFound [] 1
  else match ClassifyAddress (qcAddress c) (NetworkHRP c) with
  | Err ErrAddressNoWitness => refuse ErrCodeRestricted (bs "script_type") 4
  | Err (ErrAddressNetwork _) => refuse ErrCodeRestricted (bs "network") 3
  | Err ErrAddressMalformed => refuse ErrCodeBadRequest [] 2
  | Panic => Panic
  | Ok st =>
      if negb (PaysScriptType (Pays c) st) then refuse ErrCodeRestricted (bs "script_type") 4
      else if negb (Claimable c) then refuse ErrCodeRestricted [] 5
      else if match MaxMillis c with Some m => m <? qcAmount c | None => false end then refuse ErrCodeQuotaExceeded [] 6
      else if match MinMillis c with Some m => qcAmount c <? m | None => false end then refuse ErrCodeRestricted (bs "below_min") 7
      else match PayoutFor c with
      | None => Err PayoutForRequired
      | Some payoutFor =>
          match payoutFor st with
          | Err e => Err (PayoutForErr e)
          | Panic => Panic
          | Ok (payout, dust) =>
              if (payout =? 0) || (payout <? dust) then refuse ErrCodeRestricted (bs "below_min") 7
              else if match SendBefore c with Some t => t <? EarliestSentBy c | None => false end then refuse ErrCodeRestricted (bs "too_slow") 8
              else Ok tt
          end
      end
  end.

End Addresses.

(** ** A Hub's withdrawal terms *)

(** [script_types] as the pairs of ints on the wire. *)
Record WithdrawTerms := mkWT { FeeBase : Z; FeePpm : Z; wtMin : option Z; wtMax : option Z; ScriptTypes : list (Z * Z); wtFinalDepth : Z }.
Inductive TermsErr := TermsRate (e : FeeErr) | TermsBounds | TermsNoScript | TermsScript (v n : Z) | TermsDepth.

Definition script_bad (st : Z * Z) : bool :=
  let '(v, n) := st in
  (v <? 0) || (16 <? v) || ((v =? 0) && negb (n =? 20) && negb (n =? 32)) || (n <? 2) || (40 <? n).

Definition Terms_Validate (w : WithdrawTerms) : outcome TermsErr unit :=
  if 1000000 <? FeePpm w then Err (TermsRate (ErrFeeRate (FeePpm w)))
  else if match wtMin w, wtMax w with Some a, Some b => b <? a | _, _ => false end then Err TermsBounds
  else if bool_decide (ScriptTypes w = []) then Err TermsNoScript
  else match List.find script_bad (ScriptTypes w) with
       | Some (v, n) => Err (TermsScript v n)
       | None => if wtFinalDepth w <? 1 then Err TermsDepth else Ok tt
       end.

Definition withdrawHRPs : list (gostring * list gostring) :=
  [(bs "bitcoin", [bs "bc"; bs "tb"; bs "bcrt"]); (bs "flokicoin", [bs "fc"; bs "tf"; bs "fcrt"; bs "sf"])].

Definition WithdrawHRPs (chain : gostring) : list gostring * bool :=
  match List.find (fun p => bool_decide (p.1 = chain)) withdrawHRPs with Some p => (p.2, true) | None => ([], false) end.

Definition ScriptTypeList (w : WithdrawTerms) : list ScriptType :=
  map (fun p => mkST p.1 p.2) (List.filter (fun p : Z * Z => negb ((p.1 <? 0) || (255 <? p.1) || (p.2 <? 0) || (255 <? p.2))) (ScriptTypes w)).

(** Terms that validate lose no script type, and every one is valid. *)
Lemma Terms_Validate_types w : Terms_Validate w = Ok tt -> ScriptTypeList w = map (fun p => mkST p.1 p.2) (ScriptTypes w) /\ forallb ST_Valid (ScriptTypeList w) = true.
Proof.
  unfold Terms_Validate. case (_ <? _); [done|]. case_match; [done|]. case_bool_decide as Hne; [done|]. clear Hne.
  destruct (List.find script_bad (ScriptTypes w)) as [[??]|] eqn:Hf; [done|]. intros _.
  assert (Hall : forall p, In p (ScriptTypes w) -> script_bad p = false) by (intros p Hp; exact (find_none _ _ Hf p Hp)).
  unfold ScriptTypeList. clear Hf. revert Hall. induction (ScriptTypes w) as [|[v n] l IH]; intros Hall; [done|]. cbn.
  destruct (IH (fun p Hp => Hall p (or_intror Hp))) as [IH1 IH2].
  pose proof (Hall (v, n) (or_introl eq_refl)) as Hb. unfold script_bad in Hb. rewrite !orb_false_iff in Hb.
  destruct Hb as [[[[Hb1 Hb2] Hb3] Hb4] Hb5]. apply Z.ltb_ge in Hb1, Hb2, Hb4, Hb5.
  replace (v <? 0) with false by lia. replace (255 <? v) with false by lia. replace (n <? 0) with false by lia. replace (255 <? n) with false by lia. cbn.
  split; [by rewrite IH1|]. rewrite IH2, andb_true_r. unfold ST_Valid. cbn.
  replace (16 <? v) with false by lia. replace (n <? 2) with false by lia. replace (40 <? n) with false by lia. cbn.
  destruct (v =? 0); [|done]. cbn in Hb3. destruct (n =? 20); [done|]. cbn in *. by apply negb_false_iff.
Qed.

(** ** Refusing a payout *)

Record PayoutCheck := mkPC {
  QuoteOK : bool; QuoteValid : bool; AtUnconfirmedBound : bool; CoinsSetAside : bool; OrderedUnfinal : bool; RefuseUnfinal : bool; OwnAddress : bool;
}.

Definition CheckWithdrawPayout (c : PayoutCheck) : outcome WithdrawError unit :=
  if negb (QuoteOK c) then Err (mkWErr ErrCodeRestricted DetailQuoteInvalid 1)
  else if negb (QuoteValid c) then Err (mkWErr ErrCodeRestricted DetailQuoteExpired 2)
  else if AtUnconfirmedBound c then Err (mkWErr ErrCodeRateLimited [] 3)
  else if negb (CoinsSetAside c) then Err (mkWErr ErrCodeInsufficientBalance [] 4)
  else if OrderedUnfinal c && RefuseUnfinal c then Err (mkWErr ErrCodeRestricted (bs "unfinal") 5)
  else if OwnAddress c then Err (mkWErr ErrCodeRestricted (bs "own_address") 6)
  else Ok tt.

(** ** Payout states *)

Inductive PayoutState := PayoutQueued | PayoutBroadcast | PayoutConfirmed | PayoutFinal | PayoutCancelled | PayoutOther (s : gostring).
#[global] Instance PayoutState_eq_dec : EqDecision PayoutState.
Proof. solve_decision. Defined.

Definition PayoutKnown (s : PayoutState) : bool := match s with PayoutOther _ => false | _ => true end.

Record PayoutFacts := mkPF { Cancelled : bool; Broadcast : bool; FinalReached : bool; Depth : Z; FinalDepth : Z }.

Definition PayoutStateOf (f : PayoutFacts) : PayoutState :=
  if Cancelled f then PayoutCancelled
  else if FinalReached f || ((0 <? FinalDepth f) && (FinalDepth f <=? Depth f)) then PayoutFinal
  else if 1 <=? Depth f then PayoutConfirmed
  else if Broadcast f then PayoutBroadcast
  else PayoutQueued.

Definition CancelGrace : Z := 86400.
Definition CancelRequestAfter : Z := 604800.

Record CancelFacts := mkCF { AboutToSign : bool; cBroadcast : bool; cState : PayoutState; cSentBy : Z }.
Inductive CancelStep := CancelNotDue | CancelNow | InvalidateThenCancel.
#[global] Instance CancelStep_eq_dec : EqDecision CancelStep.
Proof. solve_decision. Defined.

Definition CancelDue (f : CancelFacts) (now : Z) : CancelStep :=
  if cBroadcast f || negb (bool_decide (cState f = PayoutQueued)) || (now <? s64 (cSentBy f + CancelGrace)) then CancelNotDue
  else if AboutToSign f then InvalidateThenCancel
  else CancelNow.

Definition CancelRequestAnswer (f : CancelFacts) (now : Z) : outcome WithdrawError bool :=
  if now <? s64 (cSentBy f + CancelRequestAfter) then Err (mkWErr ErrCodeRestricted [] 0)
  else Ok (bool_decide (cState f = PayoutBroadcast)).

Definition SpendsFromEach (versionInputs : list (list gostring)) (inputs : list gostring) : bool :=
  forallb (fun set => bool_decide (set = []) || existsb (fun i => in_list i inputs) set) versionInputs.

Definition RemintExpiry (sliceExpiresAt : option Z) (cancelAt : Z) (defaultExpiry : option Z) : option Z :=
  match sliceExpiresAt, defaultExpiry with
  | Some s, Some d => Some (Z.max s (s64 (cancelAt + d)))
  | _, _ => None
  end.

Record WithdrawRetention := mkWR { wrDeadline : Z; wrHorizon : Z; EndedAt : Z; TombstoneWindow : Z; RemintLive : bool }.

Definition WithdrawRecordRetained (r : WithdrawRetention) (now : Z) : bool :=
  (EndedAt r =? 0) || RemintLive r || (now <=? Z.max (s64 (wrDeadline r + wrHorizon r)) (s64 (EndedAt r + TombstoneWindow r))).

Definition WithdrawBlocksHubDelete (r : WithdrawRetention) (now : Z) : bool := (EndedAt r =? 0) || WithdrawRecordRetained r now.

(** ** The payout answer *)

Record Payout := mkPayout {
  pState : PayoutState; pAddress : gostring; pAmount : Z; pFee : Z; pPayout : Z; pSentBy : Z; pFinalDepth : Z; pSigned : bool; pReceipt : gostring;
  pTx : gostring; pTxid : gostring; pVout : option Z; pDepth : option Z; pNewWalletPubkey : gostring; pNewWalletToken : TokenOrTombstone;
}.

(** encoding/json on a payout answer: the tombstone it decodes to, the names of
    its fields that are present and not null, and its fields. *)
Class PayoutJSON := {
  as_tombstone : list byte -> option Tombstone;
  object_fields : list byte -> option (list gostring);
  as_payout : list byte -> option Payout;
}.

Inductive PayoutErr := BillGone (method : gostring) (t : Tombstone) | ErrPayoutMalformed.

Section Payouts.
Context {PJ : PayoutJSON}.

Definition goneIf (method : gostring) (result : list byte) : outcome PayoutErr unit :=
  match ParseTombstone (as_tombstone result) with Some t => Err (BillGone method t) | None => Ok tt end.

Definition payout_required : list gostring :=
  [bs "state"; bs "address"; bs "amount_millis"; bs "fee_millis"; bs "payout_millis"; bs "sent_by"; bs "final_depth"; bs "signed"; bs "receipt"].

(** The checks of the decoded payout, in the order of the code. *)
Definition payout_shape (has : gostring -> bool) (p : Payout) : bool :=
  let onChain := has (bs "txid") || has (bs "vout") || has (bs "depth") in
  let cancelled := bool_decide (pState p = PayoutCancelled) in
  let later := bool_decide (pState p = PayoutBroadcast) || bool_decide (pState p = PayoutConfirmed) || bool_decide (pState p = PayoutFinal) in
  negb (negb (PayoutKnown (pState p)))
  && negb (bool_decide (pAddress p = []) || bool_decide (pReceipt p = []))
  && negb ((pAmount p <? pFee p) || negb (u64 (pAmount p - pFee p) =? pPayout p))
  && negb (cancelled && (has (bs "tx") || onChain))
  && negb (cancelled && (bool_decide (pNewWalletPubkey p = []) || negb (has (bs "new_wallet_token"))))
  && negb (negb cancelled && (has (bs "new_wallet_pubkey") || has (bs "new_wallet_token")))
  && negb (bool_decide (pState p = PayoutQueued) && onChain)
  && negb (later && (negb (isLowerHex64 (pTxid p)) || bool_decide (pVout p = None) || bool_decide (pDepth p = None)))
  && negb (has (bs "tx") && (negb (pSigned p) || bool_decide (pTx p = []) || negb (isLowerHex (pTx p))))
  && negb (negb (bool_decide (pNewWalletPubkey p = [])) && negb (isLowerHex64 (pNewWalletPubkey p))).

Definition ParsePayout (data : list byte) : outcome PayoutErr Payout :=
  _ ← goneIf MethodCashWithdraw data;
  match object_fields data with
  | None => Err ErrPayoutMalformed
  | Some fields =>
      let has k := in_list k fields in
      if negb (forallb has payout_required) then Err ErrPayoutMalformed
      else match as_payout data with
      | None => Err ErrPayoutMalformed
      | Some p => if payout_shape has p then Ok p else Err ErrPayoutMalformed
      end
  end.

End Payouts.

(** ** Looking a call up *)

Record CashLookupRequest := mkLR { lrRequestID : gostring; lrConnectionPubkey : gostring; lrDeadline : Z; lrCashSecret : gostring }.
Inductive LookupErr := ErrLookupKey | ErrLookupDeadline | ErrLookupSecret | ErrLookupMalformed.

Definition is_empty (s : gostring) : bool := bool_decide (s = []).

Definition Lookup_Validate (r : CashLookupRequest) : outcome LookupErr unit :=
  if Bool.eqb (is_empty (lrRequestID r)) (is_empty (lrConnectionPubkey r)) then Err ErrLookupKey
  else if negb (is_empty (lrRequestID r)) && negb (ValidRequestID (lrRequestID r)) then Err ErrLookupKey
  else if negb (is_empty (lrConnectionPubkey r)) && negb (isLowerHex64 (lrConnectionPubkey r)) then Err ErrLookupKey
  else if negb (is_empty (lrConnectionPubkey r)) && negb (is_empty (lrCashSecret r)) then Err ErrLookupKey
  else if lrDeadline r <=? 0 then Err ErrLookupDeadline
  else if negb (is_empty (lrCashSecret r)) && negb (ValidCashSecret (lrCashSecret r)) then Err ErrLookupSecret
  else Ok tt.

(** A lookup answer once decoded; [clResult] is None when empty or null. *)
Record CashLookupResult := mkCL { clStatus : gostring; clResult : option (list byte); clRetryAfter : Z }.

Definition ParseCashLookupResult (decoded : option CashLookupResult) : outcome LookupErr CashLookupResult :=
  match decoded with
  | None => Err ErrLookupMalformed
  | Some r =>
      let hasResult := bool_decide (is_Some (clResult r)) in
      if bool_decide (clStatus r = LookupDone) then if hasResult then Ok r else Err ErrLookupMalformed
      else if bool_decide (clStatus r = LookupPending) then
        if (clRetryAfter r <=? 0) || hasResult then Err ErrLookupMalformed else Ok r
      else if bool_decide (clStatus r = LookupUnknown) || bool_decide (clStatus r = LookupExpired) then
        if hasResult || negb (clRetryAfter r =? 0) then Err ErrLookupMalformed else Ok r
      else Err ErrLookupMalformed
  end.
