(* ===== verification/CashRecover.v ===== *)
(** * nipcash/client: recovering and re-placing a lost call

    [nipcash/client/recover.go] (what a lookup says about a pending call, and its
    re-placement under a derived id) and the outcome rules of
    [nipcash/client/journal.go].  A journal, the send path and the random notify
    key of an order are arguments of [Replace]; the clock is in seconds. *)

From S2P Require Import Prelude GoLib Sha256 NostrUtils Pow Event Filter CashCall CashWithdraw CashPayout.

Inductive ActionKind := ActionClose | ActionWait | ActionShow | ActionReplace | ActionConfirmReplace | ActionCloseFailed | ActionCloseRefused.
#[global] Instance ActionKind_eq_dec : EqDecision ActionKind.
Proof. solve_decision. Defined.

Record Action := mkAction { aKind : ActionKind; aUntil : Z; aReason : gostring; aResult : option (list byte) }.

Definition act (k : ActionKind) (reason : gostring) : Action := mkAction k 0 reason None.

Record LookupOutcome := mkLO {
  loStatus : gostring; loRetryAfter : Z; loResult : option (list byte); NotServed : bool; Malformed : bool; loCode : gostring;
}.
#[global] Instance LookupOutcome_eq_dec : EqDecision LookupOutcome.
Proof. solve_decision. Defined.

Definition MaxReplaceAttempts : Z := 3.

(** ** The receipt of a withdrawal *)

Section Receipt.
Context {GoLower0 : GoLower} {Schnorr0 : Schnorr} {EventJSON0 : EventJSON} {PJ : PayoutJSON}.

Inductive CallErr := CallPayout (e : PayoutErr) | CallReceipt (e : ReceiptErr).

Definition verifyCallReceipt (pc : PendingCall) (p : Payout) : outcome CallErr unit :=
  let check e := match VerifyWithdrawReceipt (pReceipt p) e with Ok _ => Ok tt | Err x => Err (CallReceipt x) | Panic => Panic end in
  if bool_decide (pcQuote pc = []) then
    check (mkRE (pcHub pc) (pcTarget pc) [] (pcRequestID pc) (pAddress p) (pPayout p) (pSentBy p))
  else match ParseWithdrawQuote (pcQuote pc) with
  | Err _ => Err (CallReceipt (ErrReceiptInvalid (bs "the call's quote")))
  | Panic => Panic
  | Ok q =>
      let f := wqFields q in
      if negb (bool_decide (pAddress p = qAddress f)) || negb (pPayout p =? qPayout f) || negb (pSentBy p =? qSentBy f) || negb (pAmount p =? qAmount f)
      then Err (CallReceipt (ErrReceiptInvalid (bs "the payout differs from the quote")))
      else check (mkRE (pcHub pc) (pcTarget pc) (wqID q) (pcRequestID pc) (qAddress f) (qPayout f) (qSentBy f))
  end.

Definition checkWithdrawDone (pc : PendingCall) (result : list byte) : outcome CallErr unit :=
  match ParsePayout result with
  | Ok p => verifyCallReceipt pc p
  | Err e => Err (CallPayout e)
  | Panic => Panic
  end.

(** ** What to do with a pending call *)

Definition unanswered (pc : PendingCall) (now : Z) : Action :=
  if s64 (pcDeadline pc + pcMaxAge pc) <? now then act ActionShow (bs "lookup_unanswered") else act ActionWait [].

Definition isWithdraw (pc : PendingCall) : bool := bool_decide (pcMethod pc = MethodCashWithdraw).
Definition isOrder (pc : PendingCall) : bool := bool_decide (pcMethod pc = MethodCashOrder).

(** An unknown call of this device. *)
Definition recover_unknown (pc : PendingCall) (localDevice : gostring) : Action :=
  if negb (bool_decide (pcDevice pc = localDevice)) then act ActionShow (bs "foreign_device")
  else if negb (is_empty (pcLastCode pc)) && isWithdraw pc && negb (is_empty (pcLastDetail pc))
  then act ActionCloseRefused (pcLastCode pc ++ bs "/" ++ pcLastDetail pc)
  else if negb (is_empty (pcLastCode pc)) then act ActionCloseRefused (pcLastCode pc)
  else if isWithdraw pc && is_empty (pcQuote pc) then act ActionShow (bs "no_quote")
  else if MaxReplaceAttempts <=? pcAttempt pc then act ActionShow (bs "replace_cap")
  else if bool_decide (pcMethod pc = MethodMintCash) || isOrder pc || (isWithdraw pc && pcSawReused pc) then act ActionConfirmReplace []
  else act ActionReplace [].

(** A done withdrawal whose receipt does not verify reads as malformed. *)
Definition checked (pc : PendingCall) (lo : LookupOutcome) : outcome CallErr LookupOutcome :=
  if isWithdraw pc && negb (Malformed lo) && is_empty (loCode lo) && negb (NotServed lo) && bool_decide (loStatus lo = LookupDone) then
    match checkWithdrawDone pc (default [] (loResult lo)) with
    | Ok _ => Ok lo
    | Err _ => Ok (mkLO (loStatus lo) (loRetryAfter lo) (loResult lo) (NotServed lo) true (loCode lo))
    | Panic => Panic
    end
  else Ok lo.

(** [Recover], once the lookup is answered: its own error is returned as is. *)
Definition Recover (pc : PendingCall) (lo : LookupOutcome) (localDevice : gostring) (now : Z) : outcome CallErr Action :=
  lo ← checked pc lo;
  Ok (if Malformed lo && isWithdraw pc then act ActionWait (bs "lookup_malformed")
      else if Malformed lo then act ActionShow (bs "lookup_malformed")
      else if NotServed lo || bool_decide (loCode lo = ErrCodeRequestReused) then unanswered pc now
      else if negb (is_empty (loCode lo)) then act ActionShow (bs "lookup_refused:" ++ loCode lo)
      else if isOrder pc && negb (pcPayBy pc =? 0) && (bool_decide (loStatus lo = LookupUnknown) || bool_decide (loStatus lo = LookupExpired)) then
        if now <? pcPayBy pc then act ActionShow (bs "lookup_unknown") else act ActionWait (loStatus lo)
      else if bool_decide (loStatus lo = LookupDone) then
        mkAction (if isOrder pc || isWithdraw pc then ActionWait else ActionClose) 0 [] (loResult lo)
      else if bool_decide (loStatus lo = LookupPending) then mkAction ActionWait (loRetryAfter lo) [] None
      else if bool_decide (loStatus lo = LookupExpired) then act ActionShow (bs "lookup_expired")
      else if bool_decide (loStatus lo = LookupUnknown) then recover_unknown pc localDevice
      else act ActionShow (bs "lookup_malformed")).

(** ** Placing a call again *)

Record ReplaceOptions := mkRO {
  Confirmed : bool; DerivedEntryExists : option (gostring -> bool); MaxAttempts : Z;
  (** The new quote: as sent, and its fields. *)
  roQuote : option (gostring * QuoteFields); ChainTip : Z; NoChainView : bool;
}.

Inductive ReplaceErr := ErrReplaceNeedsConfirmation | ErrNoWithdrawQuote | ErrQuoteNotWithdraw | ErrBadRequestID | ErrOtherBill | ErrSend | ErrRecordDerived.

(** What the send path did with the call: whether it wrote it ahead (it then asks
    the journal to record the derived id, and fails when that fails), and whether
    it failed. *)
Record SendResult := mkSent { Fired : bool; SendFailed : bool }.

(** The outcome of [Replace] and what it did on the way: the call handed to the
    send path, and whether the derived id was recorded and until when it is kept. *)
Record Replacement := mkRepl { rpNext : option PendingCall; rpRecorded : option Z; rpResult : outcome ReplaceErr Action }.

Definition stop (r : outcome ReplaceErr Action) : Replacement := mkRepl None None r.

(** The quote of a withdrawal must still be good. *)
Definition quote_stale (pc : PendingCall) (o : ReplaceOptions) : option gostring :=
  let holdsUntil := match roQuote o with Some q => qHoldsUntil q.2 | None => pcHoldsUntil pc end in
  let noView := (ChainTip o <=? 0) && NoChainView o && bool_decide (roQuote o = None) in
  if (0 <? ChainTip o) && negb (QuoteValidAt holdsUntil (ChainTip o)) then Some (bs "quote_expired")
  else if noView && bool_decide (pcLastDetail pc = DetailQuoteExpired) then Some (bs "quote_expired")
  else if noView && bool_decide (pcLastDetail pc = DetailQuoteInvalid) then Some (bs "quote_invalid")
  else if (ChainTip o <=? 0) && negb (Confirmed o) && negb (NoChainView o) then Some (bs "quote_unchecked")
  else None.

(** The call re-placed under [id]; the deadline is the send path's. *)
Definition next_call (pc : PendingCall) (id notify : gostring) (quote : option (gostring * QuoteFields)) (deadline : Z) : PendingCall :=
  let '(q, addr, holds, amount, receipt) :=
    match quote with
    | Some (raw, f) => (raw, qAddress f, qHoldsUntil f, qAmount f, [])
    | None => (pcQuote pc, pcAddress pc, pcHoldsUntil pc, pcAmount pc, pcReceipt pc)
    end in
  mkCall id deadline (pcMethod pc) (pcTarget pc) (pcHub pc) (pcMaxAge pc) (pcDevice pc) (pcSecrets pc) (pcSource pc) amount (pcChain pc)
         (pcRequestID pc) (pcAttempt pc + 1) [] false (pcParams pc) (pcBuyerKey pc)
         (if isOrder pc then notify else pcNotify pc) (pcPayBy pc) (pcLastDetail pc) q addr holds receipt.

Definition Replace (pc : PendingCall) (derivedPlaced : gostring -> bool) (recordOk : bool) (o : ReplaceOptions) (now : Z) (notify : gostring)
    (send : PendingCall -> SendResult) : Replacement :=
  if (bool_decide (pcMethod pc = MethodMintCash) || isOrder pc) && negb (Confirmed o) then stop (Err ErrReplaceNeedsConfirmation)
  else if isWithdraw pc && (bool_decide (is_Some (roQuote o)) || pcSawReused pc) && negb (Confirmed o) then stop (Err ErrReplaceNeedsConfirmation)
  else if isWithdraw pc && is_empty (pcQuote pc) then stop (Err ErrNoWithdrawQuote)
  else if bool_decide (is_Some (roQuote o)) && negb (isWithdraw pc) then stop (Err ErrQuoteNotWithdraw)
  else
    let max := if MaxAttempts o =? 0 then MaxReplaceAttempts else MaxAttempts o in
    if max <=? pcAttempt pc then stop (Ok (act ActionShow (bs "replace_cap")))
    else match DerivedRequestID (pcRequestID pc) with
    | None => stop (Err ErrBadRequestID)
    | Some id =>
        if derivedPlaced id || match DerivedEntryExists o with Some f => f id | None => false end
        then stop (Ok (act ActionClose (bs "derived_already_placed")))
        else match (if isWithdraw pc then quote_stale pc o else None) with
        | Some reason => stop (Ok (act ActionShow reason))
        | None =>
            if match roQuote o with Some q => negb (bool_decide (qWallet q.2 = pcTarget pc)) | None => false end then stop (Err ErrOtherBill)
            else
              let h := Z.max (pcMaxAge pc) MinMaxRequestAge in
              let deadline := s64 (now + DeadlineWindow h) in
              let keepUntil := s64 (deadline + h) in
              let next := next_call pc id notify (roQuote o) deadline in
              let r := send next in
              if Fired r then
                mkRepl (Some next) (if recordOk then Some keepUntil else None) (if SendFailed r then Err ErrSend else Ok (act ActionWait []))
              else if SendFailed r then mkRepl (Some next) None (Err ErrSend)
              else if recordOk then mkRepl (Some next) (Some keepUntil) (Ok (act ActionWait []))
              else mkRepl (Some next) None (Err ErrRecordDerived)
        end
    end.

(** ** What a call's answer leaves to look up *)

Inductive OutcomeState := OutcomeNotServed | OutcomeResult | OutcomeError | OutcomeUnanswered | OutcomeConflict | OutcomeNotSent.
#[global] Instance OutcomeState_eq_dec : EqDecision OutcomeState.
Proof. solve_decision. Defined.

Record ResultError := mkResErr { reCode : gostring; reMessage : gostring; reDetail : gostring }.
#[global] Instance ResultError_eq_dec : EqDecision ResultError.
Proof. solve_decision. Defined.

Record ItemOutcome := mkOutcome {
  oID : gostring; oState : OutcomeState; oResult : gostring; oError : option ResultError; Undecodable : bool; Gone : option Tombstone;
  oEnvelope : Z; oRequestID : gostring; Accepted : list gostring; oPending : option PendingCall; envelopeLevel : bool;
}.

Definition NeedsLookup (o : ItemOutcome) : bool :=
  if is_empty (oRequestID o) then false
  else if bool_decide (oState o = OutcomeResult) && negb (Undecodable o) then false
  else if bool_decide (is_Some (Gone o)) then false
  else if bool_decide (oState o = OutcomeError) && match oError o with Some e => FinalCode (reCode e) | None => false end then false
  else true.

(** A result, a destroyed bill, a call that never committed, or one to look up. *)
Inductive CallOutcome := Answered | AnsweredGone (t : Tombstone) | FinalError (code detail : gostring) | Indeterminate (code detail : gostring).

Definition set_code (pc : PendingCall) (code detail : gostring) (reused : bool) : PendingCall :=
  mkCall (pcRequestID pc) (pcDeadline pc) (pcMethod pc) (pcTarget pc) (pcHub pc) (pcMaxAge pc) (pcDevice pc) (pcSecrets pc) (pcSource pc) (pcAmount pc)
         (pcChain pc) (pcDerivedFrom pc) (pcAttempt pc) code reused (pcParams pc) (pcBuyerKey pc) (pcNotify pc) (pcPayBy pc) detail (pcQuote pc)
         (pcAddress pc) (pcHoldsUntil pc) (pcReceipt pc).

Definition callOutcome (o : ItemOutcome) (pc : PendingCall) : PendingCall * CallOutcome :=
  if bool_decide (oState o = OutcomeResult) && negb (Undecodable o) then (pc, Answered)
  else match Gone o with
  | Some t => (pc, AnsweredGone t)
  | None =>
      match (if bool_decide (oState o = OutcomeError) && negb (Undecodable o) then oError o else None) with
      | Some e =>
          let code := reCode e in
          let detail := ParseDetail (reDetail e) in
          if FinalCode code then (pc, FinalError code detail)
          else
            let pc := if bool_decide (code = ErrCodeRequestReused) then set_code pc (pcLastCode pc) (pcLastDetail pc) true
                      else set_code pc code detail (pcSawReused pc) in
            (pc, Indeterminate code detail)
      | None => (pc, Indeterminate [] [])
      end
  end.

End Receipt.
