(* ===== verification/CashOnce.v ===== *)
(** * nipcash: one payment, however often its call is placed again

    The protocol of a call that may be lost: a Hub that decides by the rules of
    [clock.go] and [lookup_decision.go], a network that delays, repeats and drops
    messages, and a client that looks its calls up, follows [Recover] and places
    them again with [Replace].  The Hub's own code is not in the repository: the
    steps below are the ones its rules allow.  The property: under a horizon that
    is never raised, the Hub commits at most one call of a chain of
    re-placements. *)

From S2P Require Import Prelude GoLib Sha256 NostrUtils Pow Event Filter CashCall CashWithdraw CashPayout CashRecover.

Record World := mkW {
  wNow : Z; wH : Z;
  (** the Hub: records by id with their deadline, the calls it committed, the
      calls it let in *)
  wRecs : gmap gostring Z; wLog : list gostring; wAdmitted : list (gostring * Z);
  (** the network: calls and lookup answers *)
  wNet : list (gostring * Z); wReplies : list (gostring * LookupOutcome);
  (** the client's journal: the calls written ahead, the derived ids recorded *)
  wCalls : gmap gostring PendingCall; wPlaced : list gostring;
}.

Definition set_hub (w : World) recs log admitted : World :=
  mkW (wNow w) (wH w) recs log admitted (wNet w) (wReplies w) (wCalls w) (wPlaced w).
Definition add_reply (w : World) (r : gostring * LookupOutcome) : World :=
  mkW (wNow w) (wH w) (wRecs w) (wLog w) (wAdmitted w) (wNet w) (r :: wReplies w) (wCalls w) (wPlaced w).
Definition set_journal (w : World) calls placed net : World :=
  mkW (wNow w) (wH w) (wRecs w) (wLog w) (wAdmitted w) net (wReplies w) calls placed.

(** The Hub's answer to a lookup of [pc], as the client reads it. *)
Definition hub_lookup (w : World) (pc : PendingCall) : LookupOutcome :=
  let d := DecideLookup (mkLookup (wNow w) (pcDeadline pc) (wH w) false (bool_decide (is_Some (wRecs w !! pcRequestID pc)))) in
  mkLO (dStatus d) (dRetryAfter d) (if bool_decide (dStatus d = LookupDone) then Some [] else None) false false [].

(** An answer that does not say unknown: omitted, unreadable, refused or another
    status. *)
Definition not_unknown (lo : LookupOutcome) : bool :=
  NotServed lo || Malformed lo || negb (is_empty (loCode lo)) || negb (bool_decide (loStatus lo = LookupUnknown)).

(** The call as the send path writes it ahead: its own deadline, device and the
    Hub it read. *)
Definition sent_as (next : PendingCall) (deadline : Z) (device hub : gostring) (maxAge : Z) : PendingCall :=
  mkCall (pcRequestID next) deadline (pcMethod next) (pcTarget next) hub maxAge device (pcSecrets next) (pcSource next) (pcAmount next)
         (pcChain next) (pcDerivedFrom next) (pcAttempt next) (pcLastCode next) (pcSawReused next) (pcParams next) (pcBuyerKey next) (pcNotify next)
         (pcPayBy next) (pcLastDetail next) (pcQuote next) (pcAddress next) (pcHoldsUntil next) (pcReceipt next).

Definition time_ok (t : Z) : Prop := 0 < t < 2 ^ 61.

Section Once.
Context {GoLower0 : GoLower} {Schnorr0 : Schnorr} {EventJSON0 : EventJSON} {PJ : PayoutJSON}.

(** Whether the Hub may raise its horizon, and whether the client gives
    [DerivedEntryExists] the journal's entries. *)
Context (raises entries : bool).

Definition entry_check (w : World) (o : ReplaceOptions) : Prop :=
  entries = true -> DerivedEntryExists o = Some (fun id => bool_decide (is_Some (wCalls w !! id))).

(** The client is told to place [pc] again, and hands [next] to the send path. *)
Definition replaces (w : World) (pc next : PendingCall) : Prop :=
  exists lo device now o a recordOk notify send,
    wCalls w !! pcRequestID pc = Some pc /\ (pcRequestID pc, lo) ∈ wReplies w /\
    Recover pc lo device now = Ok a /\ (aKind a = ActionReplace \/ aKind a = ActionConfirmReplace) /\ entry_check w o /\
    rpNext (Replace pc (fun id => in_list id (wPlaced w)) recordOk o now notify send) = Some next.

Inductive step (w : World) : World -> Prop :=
  | s_tick t : wNow w <= t -> time_ok t -> step w (mkW t (wH w) (wRecs w) (wLog w) (wAdmitted w) (wNet w) (wReplies w) (wCalls w) (wPlaced w))
  | s_horizon h : MinMaxRequestAge <= h -> time_ok h -> (raises = false -> h <= wH w) ->
      step w (mkW (wNow w) h (wRecs w) (wLog w) (wAdmitted w) (wNet w) (wReplies w) (wCalls w) (wPlaced w))
  (** The Hub lets a call in, commits it, drops its record. *)
  | s_arrive id d : (id, d) ∈ wNet w -> wRecs w !! id = None -> CheckDeadline d (wNow w) (wH w) = Ok tt ->
      step w (set_hub w (wRecs w) (wLog w) ((id, d) :: wAdmitted w))
  | s_commit id d : (id, d) ∈ wAdmitted w -> wRecs w !! id = None -> CommitAllowed d (wNow w) = true ->
      step w (set_hub w (<[id := d]> (wRecs w)) (wLog w ++ [id]) (wAdmitted w))
  | s_drop id d : wRecs w !! id = Some d -> RecordRetained (wNow w) d (wH w) = false ->
      step w (set_hub w (delete id (wRecs w)) (wLog w) (wAdmitted w))
  (** A lookup is answered, or is not. *)
  | s_lookup pc : wCalls w !! pcRequestID pc = Some pc -> step w (add_reply w (pcRequestID pc, hub_lookup w pc))
  | s_other id lo : not_unknown lo = true -> step w (add_reply w (id, lo))
  (** The call's own answer is noted in the journal. *)
  | s_note pc o : wCalls w !! pcRequestID pc = Some pc ->
      step w (set_journal w (<[pcRequestID pc := (callOutcome o pc).1]> (wCalls w)) (wPlaced w) (wNet w))
  (** The call is placed again: written ahead and recorded, and published or
      not. *)
  | s_replace pc next d device hub maxAge (published : bool) : replaces w pc next -> time_ok d ->
      step w (set_journal w (<[pcRequestID next := sent_as next d device hub maxAge]> (wCalls w)) (pcRequestID next :: wPlaced w)
                          (if published then (pcRequestID next, d) :: wNet w else wNet w))
  (** The process dies between the write-ahead and the record. *)
  | s_cut pc next d device hub maxAge : replaces w pc next -> time_ok d ->
      step w (set_journal w (<[pcRequestID next := sent_as next d device hub maxAge]> (wCalls w)) (wPlaced w) (wNet w))
  (** The journal forgets a derived id (its [keepUntil] has passed). *)
  | s_forget id : step w (set_journal w (wCalls w) (List.filter (fun i => negb (bool_decide (i = id))) (wPlaced w)) (wNet w)).

(** The first call, written ahead and published. *)
Definition start (pc : PendingCall) (now h : Z) : World :=
  mkW now h ∅ [] [] [(pcRequestID pc, pcDeadline pc)] [] {[ pcRequestID pc := pc ]} [].

Inductive reachable (w0 : World) : World -> Prop :=
  | r_refl : reachable w0 w0
  | r_step w w' : reachable w0 w -> step w w' -> reachable w0 w'.

End Once.

(** The ids of a chain of re-placements. *)
Fixpoint chain (root : gostring) (k : nat) : gostring :=
  match k with O => root | S k => default [] (DerivedRequestID (chain root k)) end.

(** * nipcash: at most one commit, and what it rests on

    The property of [CashOnce] and the runs that show both of its assumptions are
    needed: a horizon that is never raised, and a client that looks its journal up
    before it places a derived id. *)

(** * nipcash: the invariant of re-placed calls

    Why a chain of re-placements commits at most once: every call of the chain but
    the last is dead (past its deadline and never committed), because it was only
    replaced after an answer of unknown, which a Hub whose horizon is never raised
    gives for no other call. *)

Section Inv.
Context {GoLower0 : GoLower} {Schnorr0 : Schnorr} {EventJSON0 : EventJSON} {PJ : PayoutJSON}.

(** ** What the code's decisions mean *)

Lemma DecideLookup_unknown now d h rec : time_ok now -> time_ok d -> MinMaxRequestAge <= h -> time_ok h ->
  dStatus (DecideLookup (mkLookup now d h false rec)) = LookupUnknown <-> rec = false /\ d < now <= d + h.
Proof.
  unfold time_ok, MinMaxRequestAge. intros Hn Hd Hm Hh. unfold DecideLookup. cbn [HaveRecord lJoin Horizon lDeadline lNow].
  destruct rec; [split; [done|by intros []]|]. rewrite !(s64_small (_ + h)) by lia.
  destruct (Z.leb_spec now (Z.min d (now + h))); [split; [done|lia]|]. destruct (Z.leb_spec now (d + h)); split; (done || lia).
Qed.

Lemma RecordRetained_false now d h : time_ok now -> time_ok d -> time_ok h -> RecordRetained now d h = false <-> d + h < now.
Proof. unfold time_ok, RecordRetained. intros. rewrite s64_small by lia. apply Z.leb_gt. Qed.

(** Re-placing needs a served answer of unknown and an attempt left. *)
Lemma Recover_replace pc lo device now a :
  Recover pc lo device now = Ok a -> aKind a = ActionReplace \/ aKind a = ActionConfirmReplace ->
  not_unknown lo = false /\ pcAttempt pc < MaxReplaceAttempts /\ pcDevice pc = device /\ pcLastCode pc = [].
Proof.
  unfold Recover. intros (lo' & HC & H)%bind_Ok HK. injection H as <-.
  assert (HL : lo' = lo \/ (Malformed lo' = true)).
  { unfold checked in HC. destruct (_ && _ && _ && _ && _); [|injection HC as <-; by left].
    destruct (checkWithdrawDone _ _); [injection HC as <-; by left|injection HC as <-; by right|done]. }
  unfold unanswered in HK. unfold not_unknown.
  destruct HL as [->|HM]; [|rewrite HM in HK; destruct (isWithdraw pc); cbn in HK; naive_solver].
  destruct (Malformed lo); cbn [andb orb] in *; [destruct (isWithdraw pc); cbn in HK; naive_solver|].
  destruct (NotServed lo); cbn [orb] in *; [destruct (s64 _ <? _); cbn in HK; naive_solver|].
  case_bool_decide; [destruct (s64 _ <? _); cbn in HK; naive_solver|].
  destruct (is_empty (loCode lo)); cbn [negb orb] in *; [|cbn in HK; naive_solver].
  destruct (isOrder pc && _ && _); [destruct (now <? _); cbn in HK; naive_solver|].
  case_bool_decide; [cbn in HK; destruct (isOrder pc || isWithdraw pc); naive_solver|].
  case_bool_decide; [cbn in HK; naive_solver|]. case_bool_decide; [cbn in HK; naive_solver|]. case_bool_decide as HU; [|cbn in HK; naive_solver].
  split; [done|]. unfold recover_unknown in HK. case_bool_decide as HD; cbn [negb] in HK; [|cbn in HK; naive_solver].
  destruct (is_empty (pcLastCode pc)) eqn:EL; cbn [negb andb] in HK; [|destruct (isWithdraw pc && _); cbn in HK; naive_solver].
  destruct (isWithdraw pc && is_empty _); [cbn in HK; naive_solver|]. destruct (Z.leb_spec MaxReplaceAttempts (pcAttempt pc)); [cbn in HK; naive_solver|].
  apply bool_decide_eq_true in EL. done.
Qed.

(** A call handed to the send path is the replaced one, one attempt later, under
    its derived id, which was not placed before. *)
Lemma Replace_next pc placed recordOk o now notify send next :
  rpNext (Replace pc placed recordOk o now notify send) = Some next ->
  DerivedRequestID (pcRequestID pc) = Some (pcRequestID next) /\ placed (pcRequestID next) = false /\
  (forall f, DerivedEntryExists o = Some f -> f (pcRequestID next) = false) /\ pcAttempt next = pcAttempt pc + 1.
Proof.
  unfold Replace. repeat (destruct (_ && _); [done|]). destruct (_ <=? _); [done|].
  destruct (DerivedRequestID _) as [id|] eqn:ED; [|done]. destruct (placed id || _) eqn:EP; [done|]. apply orb_false_iff in EP as [EP EE].
  destruct (if isWithdraw pc then _ else _); [done|]. destruct (match roQuote o with Some _ => _ | None => _ end); [done|]. cbv zeta.
  intros HN. assert (HX : exists d, next = next_call pc id notify (roQuote o) d).
  { match type of HN with context [next_call pc id notify (roQuote o) ?d] => exists d end.
    repeat case_match; cbn in HN; by injection HN as <-. }
  destruct HX as [d ->]. unfold next_call. destruct (roQuote o) as [[raw f]|]; cbn; split_and!; try done; intros g Hg; by rewrite Hg in EE.
Qed.

Lemma callOutcome_keeps o pc :
  pcRequestID (callOutcome o pc).1 = pcRequestID pc /\ pcDeadline (callOutcome o pc).1 = pcDeadline pc /\ pcAttempt (callOutcome o pc).1 = pcAttempt pc.
Proof. unfold callOutcome, set_code. repeat case_match; done. Qed.

(** ** The invariant *)

(** Past its deadline and never committed: it never will be. *)
Definition dead (w : World) (id : gostring) : Prop :=
  exists pc, wCalls w !! id = Some pc /\ pcDeadline pc < wNow w /\ id ∉ wLog w.

Record inv (root : gostring) (w : World) : Prop := {
  i_time : time_ok (wNow w) /\ MinMaxRequestAge <= wH w /\ time_ok (wH w);
  (** the journal is the chain up to [n], every call but the last dead *)
  i_chain : exists n, (n <= 3)%nat /\ (forall k, (k <= n)%nat -> is_Some (wCalls w !! chain root k)) /\ (forall k, (k < n)%nat -> dead w (chain root k)) /\
    forall id pc, wCalls w !! id = Some pc -> exists k, (k <= n)%nat /\ id = chain root k /\ pcAttempt pc = Z.of_nat k;
  i_call : forall id pc, wCalls w !! id = Some pc -> pcRequestID pc = id /\ time_ok (pcDeadline pc);
  i_net : forall id d, (id, d) ∈ wNet w \/ (id, d) ∈ wAdmitted w \/ wRecs w !! id = Some d -> exists pc, wCalls w !! id = Some pc /\ pcDeadline pc = d;
  i_recs : forall id d, wRecs w !! id = Some d -> id ∈ wLog w;
  (** a committed call has its record, until it is out of reach *)
  i_log : forall id, id ∈ wLog w -> exists pc, wCalls w !! id = Some pc /\ (wRecs w !! id = Some (pcDeadline pc) \/ pcDeadline pc + wH w < wNow w);
  i_once : NoDup (wLog w);
  i_unknown : forall id lo, (id, lo) ∈ wReplies w -> not_unknown lo = false -> dead w id;
}.

(** The dead stay dead: later, with the same calls and a log that gained none of
    theirs. *)
Lemma dead_mono w w' id :
  dead w id -> wNow w <= wNow w' -> (forall pc, wCalls w !! id = Some pc -> exists pc', wCalls w' !! id = Some pc' /\ pcDeadline pc' = pcDeadline pc) ->
  (id ∈ wLog w' -> id ∈ wLog w) -> dead w' id.
Proof. intros (pc & H1 & H2 & H3) Ht Hc Hl. destruct (Hc pc H1) as (pc' & H4 & H5). exists pc'. rewrite H5. split_and!; [done|lia|auto]. Qed.

(** At most the last call of the chain is committed. *)
Lemma inv_once root w : inv root w -> (length (wLog w) <= 1)%nat.
Proof.
  intros I. destruct (i_chain _ _ I) as (n & Hn & Hall & Hdead & Hk).
  assert (HL : forall id, id ∈ wLog w -> id = chain root n).
  { intros id Hid. destruct (i_log _ _ I id Hid) as (pc & Hpc & _). destruct (Hk id pc Hpc) as (k & Hkn & -> & _).
    destruct (decide (k = n)) as [->|]; [done|]. destruct (Hdead k ltac:(lia)) as (_ & _ & _ & Hno). done. }
  pose proof (i_once _ _ I) as HN. destruct (wLog w) as [|a [|b l]]; cbn; [lia|lia|].
  exfalso. apply NoDup_cons in HN as [HN _]. apply HN. rewrite (HL a), (HL b) by set_solver. set_solver.
Qed.

Context (root : gostring).

(** ** Every step preserves it *)

(** Only the time, the Hub's horizon and the replies move. *)
Lemma inv_quiet w w' :
  inv root w -> wNow w <= wNow w' -> time_ok (wNow w') -> MinMaxRequestAge <= wH w' -> time_ok (wH w') -> wH w' <= wH w ->
  wRecs w' = wRecs w -> wLog w' = wLog w -> wCalls w' = wCalls w ->
  (forall m, m ∈ wNet w' \/ m ∈ wAdmitted w' -> m ∈ wNet w \/ m ∈ wAdmitted w) ->
  (forall id lo, (id, lo) ∈ wReplies w' -> not_unknown lo = false -> dead w id) -> inv root w'.
Proof.
  intros I Ht H1 H2 H3 HH ER EL EC EN HU.
  assert (HDm : forall id, dead w id -> dead w' id).
  { intros id HDd. apply (dead_mono w); [done|done| |by rewrite EL]. intros pc Hpc. exists pc. by rewrite EC. }
  destruct I as [IT (n & Hn & Hall & Hdead & Hk) IC IN IR IL IO IU]. split; [done| | | | | | |].
  - exists n. rewrite EC. split_and!; [done..| |done]. intros k Hkn. by apply HDm, Hdead.
  - by rewrite EC.
  - rewrite EC, ER. intros id d Hid. apply IN. destruct Hid as [Hid|[Hid|Hid]]; [destruct (EN (id, d)); [by left|by left|by right; left]|destruct (EN (id, d)); [by right|by left|by right; left]|by right; right].
  - by rewrite ER, EL.
  - rewrite EL, EC, ER. intros id Hid. destruct (IL id Hid) as (pc & Hpc & [Hr|Hr]); exists pc; split; [done|by left|done|right; lia].
  - by rewrite EL.
  - intros id lo Hin Hlo. by eapply HDm, HU.
Qed.

Lemma inv_commit w id d :
  inv root w -> (id, d) ∈ wAdmitted w -> wRecs w !! id = None -> CommitAllowed d (wNow w) = true ->
  inv root (set_hub w (<[id := d]> (wRecs w)) (wLog w ++ [id]) (wAdmitted w)).
Proof.
  intros I Hadm Hnone HC. unfold CommitAllowed in HC. apply Z.leb_le in HC.
  destruct I as [IT (n & Hn & Hall & Hdead & Hk) IC IN IR IL IO IU].
  destruct (IN id d) as (pc & Hpc & Hd); [by right; left|]. set (w' := set_hub _ _ _ _).
  assert (HDm : forall i, dead w i -> dead w' i).
  { intros i HDd. apply (dead_mono w); [done|cbn; lia|intros pc' Hpc'; by exists pc'|]. cbn. intros [Hi|Hi]%elem_of_app; [done|].
    apply list_elem_of_singleton in Hi as ->. exfalso. destruct HDd as (pc' & H1 & H2 & _). rewrite Hpc in H1. injection H1 as <-. lia. }
  split; [done| |done| | | | |]; cbn.
  - exists n. split_and!; [done..| |done]. intros k Hkn. by apply HDm, Hdead.
  - intros i e [Hi|[Hi|Hi]]; [apply IN; by left|apply IN; by right; left|]. apply lookup_insert_Some in Hi as [[<- <-]|[_ Hi]]; [by exists pc|]. apply IN. by right; right.
  - intros i e Hi. apply elem_of_app. apply lookup_insert_Some in Hi as [[<- _]|[_ Hi]]; [right; set_solver|left; by eapply IR].
  - intros i [Hi|Hi]%elem_of_app.
    + destruct (decide (i = id)) as [->|Hne]; [exists pc; split; [done|left; rewrite lookup_insert; by destruct (decide (id = id)); [rewrite Hd|]]|].
      rewrite lookup_insert_ne by done. by apply IL.
    + apply list_elem_of_singleton in Hi as ->. exists pc. split; [done|left]. rewrite lookup_insert. destruct (decide (id = id)); [by rewrite Hd|done].
  - apply NoDup_app. split_and!; [done| |apply NoDup_singleton]. intros i Hi [=]%list_elem_of_singleton. subst i.
    destruct (IL id Hi) as (pc' & H1 & [H2|H2]); [congruence|]. rewrite Hpc in H1. injection H1 as <-. unfold MinMaxRequestAge in *. lia.
  - intros i lo Hin Hlo. by eapply HDm, IU.
Qed.

Lemma inv_drop w id d :
  inv root w -> wRecs w !! id = Some d -> RecordRetained (wNow w) d (wH w) = false ->
  inv root (set_hub w (delete id (wRecs w)) (wLog w) (wAdmitted w)).
Proof.
  intros [IT IK IC IN IR IL IO IU] Hid HRt. destruct (IN id d) as (pc & Hpc & Hd); [by right; right|].
  destruct (IC id pc Hpc) as [_ HTd]. rewrite RecordRetained_false in HRt; [|naive_solver|by subst d|naive_solver].
  split; try done; cbn.
  - intros i e [Hi|[Hi|Hi]]; [apply IN; by left|apply IN; by right; left|]. apply lookup_delete_Some in Hi as [_ Hi]. apply IN. by right; right.
  - intros i e Hi. apply lookup_delete_Some in Hi as [_ Hi]. by eapply IR.
  - intros i Hi. destruct (IL i Hi) as (pc' & H1 & H2). exists pc'. split; [done|]. destruct (decide (i = id)) as [->|Hne].
    + right. rewrite Hpc in H1. injection H1 as <-. lia.
    + by rewrite lookup_delete_ne.
Qed.

Lemma inv_lookup w pc : inv root w -> wCalls w !! pcRequestID pc = Some pc -> inv root (add_reply w (pcRequestID pc, hub_lookup w pc)).
Proof.
  intros I Hpc. apply (inv_quiet w); try done; try apply I. cbn. intros id lo [[= -> ->]|Hin]%elem_of_cons Hlo; [|by eapply I].
  unfold not_unknown, hub_lookup in Hlo. cbn in Hlo. bool_prop. destruct (i_time _ _ I) as (T1 & T2 & T3). destruct (i_call _ _ I _ _ Hpc) as [_ TD].
  apply DecideLookup_unknown in Hlo as [Hr Hd]; [|done..]. apply bool_decide_eq_false in Hr. exists pc. split_and!; [done|lia|].
  intros Hlog. destruct (i_log _ _ I _ Hlog) as (pc' & H1 & [H2|H2]); [by rewrite H2 in Hr; destruct Hr|]. rewrite Hpc in H1. injection H1 as <-. lia.
Qed.

Lemma inv_note w pc pc' :
  inv root w -> wCalls w !! pcRequestID pc = Some pc -> pcRequestID pc' = pcRequestID pc -> pcDeadline pc' = pcDeadline pc -> pcAttempt pc' = pcAttempt pc ->
  inv root (set_journal w (<[pcRequestID pc := pc']> (wCalls w)) (wPlaced w) (wNet w)).
Proof.
  intros [IT (n & Hn & Hall & Hdead & Hk) IC IN IR IL IO IU] Hpc E1 E2 E3. set (w' := set_journal _ _ _ _).
  assert (HL : forall i p, wCalls w !! i = Some p -> exists p', wCalls w' !! i = Some p' /\ pcDeadline p' = pcDeadline p).
  { intros i p Hp. cbn. destruct (decide (i = pcRequestID pc)) as [->|Hne].
    - exists pc'. rewrite lookup_insert. destruct (decide _); [|done]. split; [done|]. congruence.
    - exists p. by rewrite lookup_insert_ne. }
  assert (HDm : forall i, dead w i -> dead w' i) by (intros i HDd; apply (dead_mono w); [done|cbn; lia|apply HL|done]).
  split; [done| | | |done| |done|].
  - exists n. split_and!; [done|intros k Hkn; destruct (Hall k Hkn) as [p Hp]; destruct (HL _ _ Hp) as (p' & Hp' & _); by exists p'|intros k Hkn; by apply HDm, Hdead|].
    intros i p Hp. cbn [w' set_journal wCalls] in Hp. apply lookup_insert_Some in Hp as [[<- <-]|[_ Hp]]; [|by apply Hk]. rewrite E3. by apply Hk.
  - intros i p Hp. cbn [w' set_journal wCalls] in Hp. apply lookup_insert_Some in Hp as [[<- <-]|[_ Hp]]; [|by apply IC]. rewrite E1, E2. split; [done|]. by eapply IC.
  - intros i d Hi. destruct (IN i d Hi) as (p & Hp & <-). destruct (HL _ _ Hp) as (p' & Hp' & Hd). by exists p'.
  - intros i Hi. destruct (IL i Hi) as (p & Hp & Hor). destruct (HL _ _ Hp) as (p' & Hp' & Hd). exists p'. by rewrite Hd.
  - intros i lo Hin Hlo. by eapply HDm, IU.
Qed.

Lemma inv_start pc now h :
  pcRequestID pc = root -> pcAttempt pc = 0 -> time_ok (pcDeadline pc) -> time_ok now -> MinMaxRequestAge <= h -> time_ok h -> inv root (start pc now h).
Proof.
  intros HE HA HT Hn Hh Hh'. split; cbn; [done| | | |done| | |].
  - exists O. split_and!; [lia| |lia|].
    + intros k Hk. assert (k = O) as -> by lia. exists pc. rewrite HE. by rewrite lookup_singleton, decide_True.
    + intros i p Hp. apply lookup_singleton_Some in Hp as [<- <-]. exists O. by rewrite HE.
  - intros i p Hp. by apply lookup_singleton_Some in Hp as [<- <-].
  - intros i d [Hi|[Hi|Hi]]; [|set_solver|done]. apply list_elem_of_singleton in Hi as [= -> ->]. exists pc. by rewrite lookup_singleton, decide_True.
  - intros i Hi. set_solver.
  - apply NoDup_nil_2.
  - intros i lo Hi. set_solver.
Qed.

Context (HR : ValidRequestID root = true) (HD : NoDup [chain root 0; chain root 1; chain root 2; chain root 3]).

Lemma chain_valid k : ValidRequestID (chain root k) = true.
Proof using HR.
  induction k as [|k IH]; [done|]. cbn. unfold DerivedRequestID. rewrite IH. cbn [default].
  destruct (DerivedRequestID (chain root k)) as [d|] eqn:E; [|by unfold DerivedRequestID in E; rewrite IH in E].
  pose proof (derived_valid _ _ E) as [HV _]. unfold DerivedRequestID in E. rewrite IH in E. by injection E as <-.
Qed.

Lemma chain_next k : DerivedRequestID (chain root k) = Some (chain root (S k)).
Proof using HR. cbn. unfold DerivedRequestID. by rewrite chain_valid. Qed.

#[local] Opaque chain.

Lemma chain_inj j k : (j <= 3)%nat -> (k <= 3)%nat -> chain root j = chain root k -> j = k.
Proof using HD.
  intros Hj Hk HE. apply (NoDup_lookup [chain root 0; chain root 1; chain root 2; chain root 3] j k (chain root j)); [done| |].
  - destruct j as [|[|[|[|]]]]; [reflexivity..|lia].
  - rewrite HE. destruct k as [|[|[|[|]]]]; [reflexivity..|lia].
Qed.

(** A call placed again extends the chain: it is the last, and it is dead. *)
Lemma inv_extend w pc next d device hub maxAge placed net :
  inv root w -> replaces true w pc next -> time_ok d -> (forall m, m ∈ net -> m = (pcRequestID next, d) \/ m ∈ wNet w) ->
  inv root (set_journal w (<[pcRequestID next := sent_as next d device hub maxAge]> (wCalls w)) placed net).
Proof using HD HR.
  intros [IT (n & Hn & Hall & Hdead & Hk) IC IN IR IL IO IU] (lo & dev & now & o & a & rok & notify & send & Hpc & Hlo & HRc & Ha & HE & HN) Hd Hnet.
  destruct (Recover_replace _ _ _ _ _ HRc Ha) as (HU & HAt & _ & _). apply Replace_next in HN as (HDer & _ & HEn & HA).
  specialize (HEn _ (HE eq_refl)). apply bool_decide_eq_false in HEn.
  destruct (Hk _ _ Hpc) as (k & Hkn & Hid & Hatt). rewrite Hid, chain_next in HDer. injection HDer as HDer.
  assert (k = n) as ->.
  { destruct (decide (k = n)); [done|]. exfalso. apply HEn. rewrite <- HDer. apply Hall. lia. }
  assert (Hn3 : (S n <= 3)%nat) by (unfold MaxReplaceAttempts in HAt; lia). set (w' := set_journal _ _ _ _).
  assert (HL : forall i p, wCalls w !! i = Some p -> wCalls w' !! i = Some p).
  { intros i p Hp. cbn. rewrite lookup_insert_ne; [done|]. intros <-. apply HEn. by exists p. }
  assert (HDm : forall i, dead w i -> dead w' i).
  { intros i HDd. apply (dead_mono w); [done|cbn; lia| |done]. intros p Hp. exists p. split; [by apply HL|done]. }
  assert (HNew : wCalls w' !! chain root (S n) = Some (sent_as next d device hub maxAge)) by (rewrite HDer; cbn; rewrite lookup_insert; by destruct (decide _)).
  split; [done| | | |done| |done|].
  - exists (S n). split; [done|]. split.
    { intros j Hj. destruct (decide (j = S n)) as [->|]; [by eexists|]. destruct (Hall j ltac:(lia)) as [p Hp]. exists p. by apply HL. }
    split.
    { intros j Hj. apply HDm. destruct (decide (j = n)) as [->|]; [|apply Hdead; lia]. rewrite <- Hid. by eapply IU. }
    intros i p Hp. cbn [w' set_journal wCalls] in Hp. apply lookup_insert_Some in Hp as [[<- <-]|[_ Hp]].
    + exists (S n). split_and!; [done|done|]. cbn [pcAttempt sent_as]. rewrite HA, Hatt. lia.
    + destruct (Hk _ _ Hp) as (j & Hj & -> & Hja). exists j. split_and!; [lia|done..].
  - intros i p Hp. cbn [w' set_journal wCalls] in Hp. apply lookup_insert_Some in Hp as [[<- <-]|[_ Hp]]; [by split|by apply IC].
  - intros i e [Hi|Hi]; [destruct (Hnet _ Hi) as [Hi'|Hi']|].
    + injection Hi' as -> ->. rewrite <- HDer. by eexists.
    + destruct (IN i e) as (p & Hp & He); [by left|]. exists p. split; [by apply HL|done].
    + destruct (IN i e) as (p & Hp & He); [by right|]. exists p. split; [by apply HL|done].
  - intros i Hi. destruct (IL i Hi) as (p & Hp & Hor). exists p. split; [by apply HL|done].
  - intros i lo' Hin Hlo'. by eapply HDm, IU.
Qed.

Lemma step_inv w w' : inv root w -> step false true w w' -> inv root w'.
Proof using HD HR.
  intros I HS. pose proof (i_time _ _ I) as (T1 & T2 & T3). destruct HS.
  - apply (inv_quiet w); try done; apply I.
  - apply (inv_quiet w); try done; [by apply H1|apply I].
  - apply (inv_quiet w); try done; cbn; try lia; [|apply I]. intros m [Hm|[->|Hm]%elem_of_cons]; [by left|by left|by right].
  - by apply inv_commit.
  - by eapply inv_drop.
  - by apply inv_lookup.
  - apply (inv_quiet w); try done; cbn; try lia. intros i l [[= -> ->]|Hin]%elem_of_cons Hl; [congruence|by eapply I].
  - destruct (callOutcome_keeps o pc) as (E1 & E2 & E3). by apply inv_note.
  - apply inv_extend with pc; try done. destruct published; [|by right]. intros m [->|Hm]%elem_of_cons; [by left|by right].
  - apply inv_extend with pc; try done. by right.
  - apply (inv_quiet w); try done; cbn; try lia. apply I.
Qed.

Lemma reachable_inv pc now h w :
  pcRequestID pc = root -> pcAttempt pc = 0 -> time_ok (pcDeadline pc) -> time_ok now -> MinMaxRequestAge <= h -> time_ok h ->
  reachable false true (start pc now h) w -> inv root w.
Proof using HD HR. intros H1 H2 H3 H4 H5 H6 HW. induction HW; [by apply inv_start|by eapply step_inv]. Qed.

End Inv.

Section Props.
Context {GoLower0 : GoLower} {Schnorr0 : Schnorr} {EventJSON0 : EventJSON} {PJ : PayoutJSON}.


(** what a lookup says is decided by the record and the clock: done exactly
    when there is a record; else pending up to the deadline (a deadline more than
    the horizon ahead counts as the horizon, and retry_after is one second past
    it), unknown up to a horizon past the deadline, expired after it. *)
Theorem lookup_table (now d h : Z) (join rec : bool) (Hn : time_ok now) (Hd : time_ok d) (Hh : time_ok h) :
  let k := if join then JoinLookupWindow else h in
  DecideLookup (mkLookup now d h join rec) =
    if rec then mkDecision LookupDone 0
    else if now <=? d then mkDecision LookupPending (Z.min d (now + k) + 1)
    else if now <=? d + k then mkDecision LookupUnknown 0
    else mkDecision LookupExpired 0.
Proof.
  intros k. unfold DecideLookup. cbn [HaveRecord lJoin Horizon lDeadline lNow]. destruct rec; [done|]. fold k.
  assert (HK : 0 < k < 2 ^ 61) by (unfold k, JoinLookupWindow; unfold time_ok in Hh; destruct join; lia). unfold time_ok in *.
  rewrite !(s64_small (_ + k)) by lia.
  destruct (Z.leb_spec now d), (Z.leb_spec now (Z.min d (now + k))); try lia; [|done]. by rewrite s64_small by lia.
Qed.

End Props.
