(* ===== verification/CashDemo.v ===== *)
(** * nipcash: runs and witnesses

    Concrete calls under the stand-in curve library: a lost call placed again and
    paid once, and the two runs in which a chain is paid twice. *)

From S2P Require Import Prelude GoLib Sha256 NostrUtils Pow Event Filter CashCall CashWithdraw CashWithdrawProps CashPayout CashRecover CashOnce.

#[local] Instance once_lower : GoLower := ascii_lower.

(** A stand-in for the curve library whose signatures have the length of real
    ones: the digest, twice. *)
Definition toy64 : Schnorr := {|
  PrivateKey := list byte; PublicKey := list byte; Signature := list byte;
  PrivKeyFromBytes b := b;
  compressed sk := x02 :: take 32 (sk ++ repeat x00 32);
  ParsePubKey := Some; ParseSignature := Some; SerializeSig s := s;
  SchnorrSign _ h := if bool_decide (length h = 32%nat) then Some (h ++ h) else None;
  SchnorrVerify s h _ := bool_decide (s = h ++ h);
|}.

#[local] Existing Instance toy64.

Lemma toy64_laws : SchnorrLaws.
Proof.
  split; cbn.
  - intros sk. cbn. rewrite length_take, length_app. cbn [length]. lia.
  - done.
  - intros sk h s Hh. rewrite bool_decide_true by done. intros [= <-]. eexists. split; [done|]. by apply bool_decide_eq_true.
Qed.

Lemma toy64_sig : sig64.
Proof. intros sk h s. cbn. case_bool_decide as Hh; [|done]. intros [= <-]. rewrite length_app. lia. Qed.

#[local] Instance once_payouts : PayoutJSON := {| as_tombstone := fun _ => None; object_fields := fun _ => None; as_payout := fun _ => None |}.

(** ** A quote, accepted *)

Definition hex_of (c : byte) : gostring := repeat c 64.

(** A slice of 1,000,000 millis on bill b…b, quoted at 2,000 network fee, 1,000
    base and 5,000 ppm Hub fee, its own redeem fee 3,000: 8,000 in all. *)
Definition demo_fields : QuoteFields :=
  mkQF (hex_of "b"%byte) (hex_of "c"%byte) [] (bs "bc1qdestination") 1000000 2000 6000 992000 1700003600 840000.

Definition demo_quote : Event :=
  match NewWithdrawQuoteEvent demo_fields 1700000000 (sign_with sample_key) with Ok ev => ev | _ => sample_event end.

#[local] Instance once_json : EventJSON := {| MarshalEvent := fun _ => []; UnmarshalEvent := fun _ => Some demo_quote |}.

Lemma honest_quote_accepted_witness :
  RedeemFee 1000000 3000 0 = Ok (3000, 997000) /\ WithdrawFee 1000000 2000 1000 5000 3000 = Ok (6000, 8000, 992000) /\
  exists q, VerifyQuoteAnswer (mkQR [] (bs "bc1qdestination") 1000000 2000 6000 8000 992000 1700003600 840000)
              (mkQE (PubKey demo_quote) (hex_of "b"%byte) (hex_of "c"%byte) [] (bs "bc1qdestination") (Some 1700007200) 1000000 (Some 3000)) = Ok q.
Proof.
  split; [reflexivity|]. split; [reflexivity|].
  destruct (honest_quote_accepted sample_key (hex_of "b"%byte) (hex_of "c"%byte) [] (bs "bc1qdestination") 1700000000 1000000 3000 0 3000 997000 2000 1000 5000
              6000 8000 992000 1700003600 840000 demo_quote (Some 1700007200) toy64_laws toy64_sig) as (_ & HV & _).
  - split_and!; lia.
  - unfold max_int. split_and!; try lia. intros t [= <-]. lia.
  - reflexivity.
  - reflexivity.
  - vm_compute. reflexivity.
  - reflexivity.
  - eexists. exact HV.
Defined.

Lemma withdraw_fee_exact_witness :
  WithdrawFee 1000000 2345 1000 5000 3000 = Ok (6000, 9000, 991000) /\ 9000 + 991000 = 1000000.
Proof.
  pose proof (withdraw_fee_exact 1000000 2345 1000 5000 3000 ltac:(lia) ltac:(lia) ltac:(lia) ltac:(lia) ltac:(lia)) as H.
  split; [reflexivity|]. assert (HE : WithdrawFee 1000000 2345 1000 5000 3000 = Ok (6000, 9000, 991000)) by reflexivity.
  rewrite HE in H. apply H.
Defined.

Definition id0 : gostring := Eval vm_compute in repeat "a"%byte 64.
Definition id1 : gostring := Eval vm_compute in chain id0 1.
Definition id2 : gostring := Eval vm_compute in chain id0 2.
Definition id3 : gostring := Eval vm_compute in chain id0 3.

Lemma chain_ids : [chain id0 0; chain id0 1; chain id0 2; chain id0 3] = [id0; id1; id2; id3].
Proof. vm_compute. reflexivity. Qed.

Lemma ids_distinct : NoDup [chain id0 0; chain id0 1; chain id0 2; chain id0 3].
Proof. rewrite chain_ids. by apply (bool_decide_unpack _). Qed.

Lemma derived0 : DerivedRequestID id0 = Some id1.
Proof. vm_compute. reflexivity. Qed.

Lemma derived1 : DerivedRequestID id1 = Some id2.
Proof. vm_compute. reflexivity. Qed.

(** A transfer sent at 1000, to be answered by 1030. *)
Definition lost_call (id : gostring) (deadline attempt : Z) : PendingCall :=
  mkCall id deadline MethodCashTransfer (bs "bill") (bs "hub") 60 (bs "phone") [] [] 21000 (bs "bitcoin") [] attempt [] false [] [] [] 0 [] [] [] 0 [].

Definition sdk (pc : PendingCall) : SendResult := mkSent true false.

Definition unknown_answer : LookupOutcome := mkLO LookupUnknown 0 None false false [].

Definition no_check : ReplaceOptions := mkRO false None 0 None 0 false.
Definition journal_check (w : World) : ReplaceOptions := mkRO false (Some (fun id => bool_decide (is_Some (wCalls w !! id)))) 0 None 0 false.

(** The call the client then hands to its send path, at [now]. *)
Definition replaced (pc : PendingCall) (id : gostring) (now : Z) : PendingCall := next_call pc id [] None (now + 30).
Definition as_sent (next : PendingCall) (d : Z) : PendingCall := sent_as next d (bs "phone") (bs "hub") 60.

Ltac closed :=
  match goal with
  | |- _ ∈ _ => apply (bool_decide_unpack _); vm_compute; exact I
  | |- _ => vm_compute; reflexivity
  end.

(** ** A lost call, placed again and paid once *)

Section LostCall.

Let pc0 := lost_call id0 1030 0.
Let w0 := start pc0 1000 60.
Definition ok1 : World := mkW 1031 60 ∅ [] [] [(id0, 1030)] [] {[ id0 := pc0 ]} [].
Definition ok2 : World := add_reply ok1 (id0, hub_lookup ok1 pc0).
Definition ok3 : World :=
  set_journal ok2 (<[id1 := as_sent (replaced pc0 id1 1031) 1061]> (wCalls ok2)) [id1] [(id1, 1061); (id0, 1030)].
Definition ok4 : World := set_hub ok3 ∅ [] [(id1, 1061)].
Definition ok5 : World := set_hub ok4 {[ id1 := 1061 ]} [id1] [(id1, 1061)].

Lemma lost_call_replaces : replaces true ok2 pc0 (replaced pc0 id1 1031).
Proof.
  exists unknown_answer, (bs "phone"), 1031, (journal_check ok2), (act ActionReplace []), true, [], sdk.
  split_and!; [closed|closed|closed|left; reflexivity|(intros _; reflexivity) || done|]. unfold Replace. cbn [pc0 lost_call pcRequestID]. rewrite derived0. closed.
Qed.

Lemma lost_call_run : reachable false true w0 ok5.
Proof.
  assert (R1 : reachable false true w0 ok1) by (eapply r_step; [apply r_refl|]; apply (s_tick false true w0 1031); [done|by split]).
  assert (R2 : reachable false true w0 ok2) by (eapply r_step; [exact R1|]; apply (s_lookup false true ok1 pc0); closed).
  assert (R3 : reachable false true w0 ok3).
  { eapply r_step; [exact R2|]. apply (s_replace false true ok2 pc0 (replaced pc0 id1 1031) 1061 (bs "phone") (bs "hub") 60 true);
      [apply lost_call_replaces|by split]. }
  assert (R4 : reachable false true w0 ok4) by (eapply r_step; [exact R3|]; apply (s_arrive false true ok3 id1 1061); closed).
  eapply r_step; [exact R4|]. apply (s_commit false true ok4 id1 1061); closed.
Qed.


End LostCall.

(** ** A raised horizon *)

Section Raised.

Let pc0 := lost_call id0 1030 0.
Let w0 := start pc0 1000 60.
Definition up1 : World := set_hub w0 ∅ [] [(id0, 1030)].
Definition up2 : World := set_hub up1 {[ id0 := 1030 ]} [id0] [(id0, 1030)].
Definition up3 : World := mkW 1100 60 (wRecs up2) (wLog up2) (wAdmitted up2) (wNet up2) (wReplies up2) (wCalls up2) (wPlaced up2).
Definition up4 : World := set_hub up3 (delete id0 (wRecs up3)) [id0] [(id0, 1030)].
Definition up5 : World := mkW 1100 300 (wRecs up4) (wLog up4) (wAdmitted up4) (wNet up4) (wReplies up4) (wCalls up4) (wPlaced up4).
Definition up6 : World := add_reply up5 (id0, hub_lookup up5 pc0).
Definition up7 : World := set_journal up6 (<[id1 := as_sent (replaced pc0 id1 1100) 1130]> (wCalls up6)) [id1] [(id1, 1130); (id0, 1030)].
Definition up8 : World := set_hub up7 (wRecs up7) [id0] [(id1, 1130); (id0, 1030)].
Definition up9 : World := set_hub up8 (<[id1 := 1130]> (wRecs up8)) [id0; id1] [(id1, 1130); (id0, 1030)].

(** A Hub that raises its horizon after it dropped a record answers unknown for a
    call it committed, and the client pays again: committed at 1000 with deadline
    1030 and a horizon of 60, dropped at 1100, looked up under a horizon of 300. *)
Theorem raised_horizon_pays_twice : reachable true true w0 up9 /\ wLog up9 = [id0; id1] /\ chain id0 1 = id1.
Proof.
  split; [|split; [done|exact (f_equal (default []) derived0)]].
  assert (R1 : reachable true true w0 up1) by (eapply r_step; [apply r_refl|]; apply (s_arrive true true w0 id0 1030); closed).
  assert (R2 : reachable true true w0 up2) by (eapply r_step; [exact R1|]; apply (s_commit true true up1 id0 1030); closed).
  assert (R3 : reachable true true w0 up3) by (eapply r_step; [exact R2|]; apply (s_tick true true up2 1100); [done|by split]).
  assert (R4 : reachable true true w0 up4) by (eapply r_step; [exact R3|]; apply (s_drop true true up3 id0 1030); closed).
  assert (R5 : reachable true true w0 up5) by (eapply r_step; [exact R4|]; apply (s_horizon true true up4 300); [done|by split|done]).
  assert (R6 : reachable true true w0 up6) by (eapply r_step; [exact R5|]; apply (s_lookup true true up5 pc0); closed).
  assert (R7 : reachable true true w0 up7).
  { eapply r_step; [exact R6|]. apply (s_replace true true up6 pc0 (replaced pc0 id1 1100) 1130 (bs "phone") (bs "hub") 60 true); [|by split].
    exists unknown_answer, (bs "phone"), 1100, (journal_check up6), (act ActionReplace []), true, [], sdk.
    split_and!; [closed|closed|closed|left; reflexivity|(intros _; reflexivity) || done|]. unfold Replace. cbn [pc0 lost_call pcRequestID]. rewrite derived0. closed. }
  assert (R8 : reachable true true w0 up8) by (eapply r_step; [exact R7|]; apply (s_arrive true true up7 id1 1130); closed).
  eapply r_step; [exact R8|]. apply (s_commit true true up8 id1 1130); closed.
Qed.

End Raised.

(** ** A journal that is not looked up *)

Section Unchecked.

Let pc0 := lost_call id0 1030 0.
Let w0 := start pc0 1000 60.
Let n1 := as_sent (replaced pc0 id1 1031) 1061.
Let n2 := replaced n1 id2 1062.
Definition cut1 : World := mkW 1031 60 ∅ [] [] [(id0, 1030)] [] {[ id0 := pc0 ]} [].
Definition cut2 : World := add_reply cut1 (id0, hub_lookup cut1 pc0).
(** The process dies once [n1] is written ahead. *)
Definition cut3 : World := set_journal cut2 (<[id1 := n1]> (wCalls cut2)) [] [(id0, 1030)].
Definition cut4 : World := mkW 1062 60 (wRecs cut3) (wLog cut3) (wAdmitted cut3) (wNet cut3) (wReplies cut3) (wCalls cut3) (wPlaced cut3).
Definition cut5 : World := add_reply cut4 (id1, hub_lookup cut4 n1).
Definition cut6 : World := set_journal cut5 (<[id2 := as_sent n2 1092]> (wCalls cut5)) [id2] [(id2, 1092); (id0, 1030)].
Definition cut7 : World :=
  set_journal cut6 (<[id1 := as_sent (replaced pc0 id1 1062) 1092]> (wCalls cut6)) [id1; id2] [(id1, 1092); (id2, 1092); (id0, 1030)].
Definition cut8 : World := set_hub cut7 ∅ [] [(id1, 1092)].
Definition cut9 : World := set_hub cut8 {[ id1 := 1092 ]} [id1] [(id1, 1092)].
Definition cut10 : World := set_hub cut9 {[ id1 := 1092 ]} [id1] [(id2, 1092); (id1, 1092)].
Definition cut11 : World := set_hub cut10 {[ id1 := 1092; id2 := 1092 ]} [id1; id2] [(id2, 1092); (id1, 1092)].

(** Without DerivedEntryExists, a process that dies between the write-ahead of
    the derived call and the record of its id leaves both the first call and the
    derived one to be placed again: two calls of the chain are paid. *)
Theorem unchecked_journal_pays_twice : reachable false false w0 cut11 /\ wLog cut11 = [id1; id2].
Proof.
  split; [|done].
  assert (R1 : reachable false false w0 cut1) by (eapply r_step; [apply r_refl|]; apply (s_tick false false w0 1031); [done|by split]).
  assert (R2 : reachable false false w0 cut2) by (eapply r_step; [exact R1|]; apply (s_lookup false false cut1 pc0); closed).
  assert (R3 : reachable false false w0 cut3).
  { eapply r_step; [exact R2|]. apply (s_cut false false cut2 pc0 (replaced pc0 id1 1031) 1061 (bs "phone") (bs "hub") 60); [|by split].
    exists unknown_answer, (bs "phone"), 1031, no_check, (act ActionReplace []), true, [], sdk.
    split_and!; [closed|closed|closed|left; reflexivity|(intros _; reflexivity) || done|]. unfold Replace. cbn [pc0 lost_call pcRequestID]. rewrite derived0. closed. }
  assert (R4 : reachable false false w0 cut4) by (eapply r_step; [exact R3|]; apply (s_tick false false cut3 1062); [done|by split]).
  assert (R5 : reachable false false w0 cut5) by (eapply r_step; [exact R4|]; apply (s_lookup false false cut4 n1); closed).
  assert (R6 : reachable false false w0 cut6).
  { eapply r_step; [exact R5|]. apply (s_replace false false cut5 n1 n2 1092 (bs "phone") (bs "hub") 60 true); [|by split].
    exists unknown_answer, (bs "phone"), 1062, no_check, (act ActionReplace []), true, [], sdk.
    split_and!; [closed|closed|closed|left; reflexivity|(intros _; reflexivity) || done|]. unfold Replace. cbn [n1 as_sent sent_as pcRequestID replaced next_call]. cbn. rewrite derived1. closed. }
  assert (R7 : reachable false false w0 cut7).
  { eapply r_step; [exact R6|]. apply (s_replace false false cut6 pc0 (replaced pc0 id1 1062) 1092 (bs "phone") (bs "hub") 60 true); [|by split].
    exists unknown_answer, (bs "phone"), 1062, no_check, (act ActionReplace []), true, [], sdk.
    split_and!; [closed|closed|closed|left; reflexivity|(intros _; reflexivity) || done|]. unfold Replace. cbn [pc0 lost_call pcRequestID]. rewrite derived0. closed. }
  assert (R8 : reachable false false w0 cut8) by (eapply r_step; [exact R7|]; apply (s_arrive false false cut7 id1 1092); closed).
  assert (R9 : reachable false false w0 cut9) by (eapply r_step; [exact R8|]; apply (s_commit false false cut8 id1 1092); closed).
  assert (R10 : reachable false false w0 cut10) by (eapply r_step; [exact R9|]; apply (s_arrive false false cut9 id2 1092); closed).
  eapply r_step; [exact R10|]. apply (s_commit false false cut10 id2 1092); closed.
Qed.

End Unchecked.

(** ** Lookups *)

Lemma lookup_table_witness :
  DecideLookup (mkLookup 1031 1030 60 false false) = mkDecision LookupUnknown 0 /\ DecideLookup (mkLookup 1091 1030 60 false false) = mkDecision LookupExpired 0.
Proof.
  split.
  - rewrite (lookup_table 1031 1030 60 false false); [reflexivity|by split..].
  - rewrite (lookup_table 1091 1030 60 false false); [reflexivity|by split..].
Defined.
