(* ===== verification/CashBatch.v ===== *)
(** * nipcash: a batch of calls and its reply

    [nipcash/transport/response.go] (a reply chunk, decoded),
    [nipcash/client/batch_outcome.go] (the chunks of one reply and the outcome of
    every item), the collecting of [collectFrom], the loop of [sendBatch] and its
    helpers in [batch_send.go], the re-placement checks of [recover.go] and
    [BearerShapeOK] and [CheckFreshness] of the transport.  What the network and
    the journal answer, and how many items fit an envelope ([packOne]), are
    arguments of a turn. *)

From S2P Require Import Prelude GoLib Sha256 NostrUtils Pow Event Filter CashCall CashWithdraw CashPayout CashRecover Nip44.

(** ** Reply chunks *)

(** An absent or empty body is the empty text. *)
Record Result := mkResult { rID : gostring; ResultType : gostring; rBody : gostring; rError : option ResultError }.
#[global] Instance Result_eq_dec : EqDecision Result.
Proof. solve_decision. Defined.

(** [None] is a chunk without a results member. *)
Record ResponseEnvelope := mkResp { ReqNonce : gostring; respError : option ResultError; Results : option (list Result); Seq : Z; Total : Z }.
Record DecodedChunk := mkChunk { chunk : ResponseEnvelope; DuplicateIDs : list gostring; AlienIDs : list gostring }.

Inductive ChunkErr := ErrEnvelopeTooLarge | ErrResponseMalformed | ErrResponseMismatch.

Definition MaxNIP44Plaintext : Z := 65535.

Definition HasBoth (r : Result) : bool :=
  bool_decide (is_Some (rError r)) && negb (bool_decide (rBody r = [])) && negb (bool_decide (rBody r = bs "null")).

Definition DecidesNothing (c : DecodedChunk) : bool :=
  negb (bool_decide (is_Some (Results (chunk c)))) && negb (bool_decide (is_Some (respError (chunk c)))).

(** [encoding/json] into a ResponseEnvelope. *)
Class ResponseJSON := { UnmarshalResponse : gostring -> option ResponseEnvelope }.

(** The results of known ids, how often each was answered, the ids answered
    twice and the unknown ones. *)
Definition known_step (known : list gostring) (acc : list Result * gmap gostring Z * list gostring * list gostring) (r : Result) :=
  let '(kept, count, dups, aliens) := acc in
  if negb (in_list (rID r) known) then (kept, count, dups, aliens ++ [rID r])
  else
    let n := default 0 (count !! rID r) + 1 in
    (kept ++ [r], <[rID r := n]> count, (if n =? 2 then dups ++ [rID r] else dups), aliens).

Definition DecodeResponseChunk {J : ResponseJSON} (plaintext reqNonce : gostring) (requestedIDs : list gostring) (maxBytes : Z) : outcome ChunkErr DecodedChunk :=
  if Z.max maxBytes MaxNIP44Plaintext <? zlen plaintext then Err ErrEnvelopeTooLarge
  else match UnmarshalResponse plaintext with
  | None => Err ErrResponseMalformed
  | Some r =>
      if negb (bool_decide (ReqNonce r = reqNonce)) then Err ErrResponseMismatch
      else match Results r with
      | None => Ok (mkChunk r [] [])
      | Some results =>
          let '(kept, _, dups, aliens) := foldl (known_step requestedIDs) ([], ∅, [], []) results in
          Ok (mkChunk (mkResp (ReqNonce r) (respError r) (Some kept) (Seq r) (Total r)) dups aliens)
      end
  end.

(** ** Outcomes *)

(** ItemOutcome{ID: id, Envelope: envelope}: the zero state is "not served". *)
Definition new_outcome (id : gostring) (envelope : Z) : ItemOutcome := mkOutcome id OutcomeNotServed [] None false None envelope [] [] None false.
Definition set_oState (o : ItemOutcome) (s : OutcomeState) : ItemOutcome :=
  mkOutcome (oID o) s (oResult o) (oError o) (Undecodable o) (Gone o) (oEnvelope o) (oRequestID o) (Accepted o) (oPending o) (envelopeLevel o).
Definition set_oError (o : ItemOutcome) (e : option ResultError) (level : bool) : ItemOutcome :=
  mkOutcome (oID o) OutcomeError (oResult o) e (Undecodable o) (Gone o) (oEnvelope o) (oRequestID o) (Accepted o) (oPending o) level.
Definition set_oResult (o : ItemOutcome) (body : gostring) : ItemOutcome :=
  mkOutcome (oID o) OutcomeResult body (oError o) (Undecodable o) (Gone o) (oEnvelope o) (oRequestID o) (Accepted o) (oPending o) (envelopeLevel o).
Definition set_call (o : ItemOutcome) (requestID : gostring) (pc : option PendingCall) : ItemOutcome :=
  mkOutcome (oID o) (oState o) (oResult o) (oError o) (Undecodable o) (Gone o) (oEnvelope o) requestID (Accepted o) pc (envelopeLevel o).
Definition set_accepted (o : ItemOutcome) (accepted : list gostring) : ItemOutcome :=
  mkOutcome (oID o) (oState o) (oResult o) (oError o) (Undecodable o) (Gone o) (oEnvelope o) (oRequestID o) accepted (oPending o) (envelopeLevel o).

Definition Succeeded (o : ItemOutcome) : bool := bool_decide (oState o = OutcomeResult).

Definition SafeToResend (o : ItemOutcome) : bool :=
  if negb (bool_decide (oState o = OutcomeError)) || Undecodable o then false
  else
    let code := match oError o with Some e => reCode e | None => [] end in
    if bool_decide (code = ErrCodeInternal) || bool_decide (code = ErrCodeRequestReused) then false
    else if bool_decide (code = ErrCodeBadRequest) then true
    else bool_decide (oRequestID o = []).

Definition unansweredOutcomes (requestedIDs : list gostring) (envelope : Z) : list ItemOutcome :=
  map (fun id => set_oState (new_outcome id envelope) OutcomeUnanswered) requestedIDs.

(** ** The state of a reply *)

Inductive Conflict := BadPosition (seq total : Z) | SameSeq (seq : Z) | TwoTotals (a b : Z).

Record replyState := mkReply {
  ids : list gostring; methods : gmap gostring gostring; answers : gmap gostring (list Result); envErrs : list ResultError;
  seqEvent : gmap Z gostring; declared : Z; conflicts : list Conflict; gaps : list Z; decoded : Z; decodeErrs : list ChunkErr;
}.

(** The items of an envelope: their ids and methods. *)
Definition newReplyState (items : list (gostring * gostring)) : replyState :=
  mkReply (map fst items) (foldl (fun (m : gmap gostring gostring) it => <[it.1 := it.2]> m) ∅ items) ∅ [] ∅ 0 [] [] 0 [].

Definition add_position (eventKey : gostring) (c : ResponseEnvelope) (seqs : gmap Z gostring) (cs : list Conflict) : gmap Z gostring * list Conflict :=
  if (Total c <? 1) || (Seq c <? 1) || (Total c <? Seq c) then (seqs, cs ++ [BadPosition (Seq c) (Total c)])
  else match seqs !! Seq c with
  | Some prev => if negb (bool_decide (prev = eventKey)) then (seqs, cs ++ [SameSeq (Seq c)]) else (<[Seq c := eventKey]> seqs, cs)
  | None => (<[Seq c := eventKey]> seqs, cs)
  end.

Definition add_total (c : ResponseEnvelope) (declared : Z) (cs : list Conflict) : Z * list Conflict :=
  if 1 <=? Total c then
    if declared =? 0 then (Total c, cs)
    else if negb (Total c =? declared) then (declared, cs ++ [TwoTotals (Total c) declared]) else (declared, cs)
  else (declared, cs).

Definition add_answer (m : gmap gostring (list Result)) (r : Result) : gmap gostring (list Result) := <[rID r := default [] (m !! rID r) ++ [r]]> m.

Definition add_chunk (r : replyState) (eventKey : gostring) (c : DecodedChunk) : replyState :=
  let '(seqs, cs) := add_position eventKey (chunk c) (seqEvent r) (conflicts r) in
  let '(total, cs) := add_total (chunk c) (declared r) cs in
  mkReply (ids r) (methods r) (foldl add_answer (answers r) (default [] (Results (chunk c))))
    (match respError (chunk c) with Some e => envErrs r ++ [e] | None => envErrs r end)
    seqs total cs (if DecidesNothing c then gaps r ++ [Seq (chunk c)] else gaps r) (decoded r + 1) (decodeErrs r).

Definition add_decode_err (r : replyState) (e : ChunkErr) : replyState :=
  mkReply (ids r) (methods r) (answers r) (envErrs r) (seqEvent r) (declared r) (conflicts r) (gaps r) (decoded r) (decodeErrs r ++ [e]).

Definition reply_total (r : replyState) : Z := Z.min (declared r) (zlen (ids r)).

Definition malformed (r : replyState) : bool := negb (bool_decide (conflicts r = [] /\ gaps r = [])).

Definition complete (r : replyState) : bool :=
  let total := reply_total r in
  if (total <? 1) || malformed r then false
  else forallb (fun n => bool_decide (is_Some (seqEvent r !! Z.of_nat n))) (seq 1 (Z.to_nat total)).

Definition decide_one (r : replyState) (o : ItemOutcome) (res : Result) : ItemOutcome :=
  if HasBoth res then set_oState o OutcomeConflict
  else match rError res with
  | Some e => set_oError o (Some e) (envelopeLevel o)
  | None =>
      if bool_decide (ResultType res = []) || negb (bool_decide (ResultType res = default [] (methods r !! oID o))) then set_oState o OutcomeConflict
      else set_oResult o (rBody res)
  end.

Definition item_outcome (r : replyState) (envelope : Z) (id : gostring) : ItemOutcome :=
  let o := new_outcome id envelope in
  match default [] (answers r !! id), envErrs r with
  | _ :: _ :: _, _ => set_oState o OutcomeConflict
  | [_], _ :: _ => set_oState o OutcomeConflict
  | [res], [] => decide_one r o res
  | [], [e] => set_oError o (Some e) true
  | [], _ :: _ :: _ => set_oState o OutcomeConflict
  | [], [] => if complete r then o else set_oState o OutcomeUnanswered
  end.

Inductive ReplyErr := ErrReplyConflict | ErrIncompleteReply.
#[global] Instance ReplyErr_eq_dec : EqDecision ReplyErr.
Proof. solve_decision. Defined.

(** The outcomes in request order and what is wrong with the reply as a whole,
    whose reasons and decoding errors are left out. *)
Definition outcomes (r : replyState) (envelope : Z) : list ItemOutcome * option ReplyErr :=
  let out := map (item_outcome r envelope) (ids r) in
  let conflicted := existsb (fun o => bool_decide (oState o = OutcomeConflict)) out in
  (out,
   if negb (bool_decide (length (conflicts r) = 0%nat)) || conflicted || (1 <? zlen (envErrs r)) then Some ErrReplyConflict
   else if negb (complete r) then Some ErrIncompleteReply
   else None).

(** ** Collecting the reply *)

Section Collect.
Context {Schnorr0 : Schnorr} {Lib : Nip44Lib} {J : ResponseJSON}.

Record Envelope := mkEnv { envItems : list (gostring * gostring); envNonce : gostring; replyKey : list byte; maxBytes : Z }.

Definition event_key (ev : Event) : gostring := if bool_decide (ID ev = []) then bs "content:" ++ Content ev else ID ev.

(** No chunk at all is an error without outcomes. *)
Definition finish (st : replyState) (index : Z) : option (list ItemOutcome * option ReplyErr) :=
  if decoded st =? 0 then None else Some (outcomes st index).

(** The events of the merged streams in the order they are read, until the reply
    is complete or nothing more is coming. *)
Fixpoint collect (p : Envelope) (index : Z) (evs : list Event) (seen : gset gostring) (st : replyState) : option (list ItemOutcome * option ReplyErr) :=
  match evs with
  | [] => finish st index
  | ev :: evs =>
      let key := event_key ev in
      if bool_decide (key ∈ seen) then collect p index evs seen st
      else
        let seen := {[ key ]} ∪ seen in
        match Decrypt (Content ev) (replyKey p) with
        | Ok plaintext =>
            match DecodeResponseChunk plaintext (envNonce p) (map fst (envItems p)) (maxBytes p) with
            | Ok c =>
                let st := add_chunk st key c in
                if complete st then Some (outcomes st index) else collect p index evs seen st
            | Err e => collect p index evs seen (add_decode_err st e)
            | Panic => None
            end
        | _ => collect p index evs seen st
        end
  end.

Definition collectFrom (p : Envelope) (index : Z) (evs : list Event) : option (list ItemOutcome * option ReplyErr) :=
  collect p index evs ∅ (newReplyState (envItems p)).

(** ** The batch *)

(** An item not yet built; [bPending] is the call written ahead under a deadline. *)
Record Builder := mkBuilder { bID : gostring; bMethod : gostring; bRequestID : gostring; bMeasure : bool; bPending : option (Z -> PendingCall) }.

(** What [sendOne] meets: nothing published, a publish every relay refused, or the
    relays that took the envelope and the events read. *)
Inductive Sent := SentNot | SentFailed | SentReply (accepted : list gostring) (evs : list Event).

(** The world at a turn of the loop: the number of items packed ([None] when one
    cannot be built or fits no envelope), the envelope's deadline, nonce and
    reply key, the answers of the journal and of the network, and whether the
    Hub's policy changed. *)
Record World := mkWorld {
  pack : nat -> list Builder -> option nat; wNotAfter : nat -> Z; wNonce : nat -> gostring; wReplyKey : nat -> list byte; wMaxBytes : Z;
  journalWrites : nat -> list PendingCall -> bool; network : nat -> Sent; freshPolicy : nat -> bool;
}.

Record sendOptions := mkOpts { hasJournal : bool; recordsAccepted : bool; device : gostring; replacement : option PendingCall }.

Definition sameSecrets (a b : list PendingSecret) : bool := bool_decide (a = b).

Definition asReplacement (next : option PendingCall) (pc : PendingCall) : PendingCall :=
  match next with
  | None => pc
  | Some next =>
      if negb (bool_decide (pcRequestID next = pcRequestID pc)) then pc
      else mkCall (pcRequestID pc) (pcDeadline pc) (pcMethod pc) (pcTarget pc) (pcHub pc) (pcMaxAge pc) (pcDevice pc) (pcSecrets pc) (pcSource pc)
             (pcAmount pc) (pcChain pc) (pcDerivedFrom next) (pcAttempt next) (pcLastCode pc) (pcSawReused pc) (pcParams pc) (pcBuyerKey pc)
             (if bool_decide (pcNotify pc = []) then pcNotify next else pcNotify pc) (pcPayBy pc) (pcLastDetail pc) (pcQuote pc) (pcAddress pc)
             (pcHoldsUntil pc) (pcReceipt pc)
  end.

Definition same_call (pc next : PendingCall) : bool :=
  bool_decide (pcMethod pc = pcMethod next) && bool_decide (pcTarget pc = pcTarget next) && (pcAmount pc =? pcAmount next)
  && bool_decide (pcSource pc = pcSource next) && sameSecrets (pcSecrets pc) (pcSecrets next)
  && bool_decide (pcQuote pc = pcQuote next) && bool_decide (pcAddress pc = pcAddress next).

(** Carried exactly once and unchanged. *)
Fixpoint carries (next : PendingCall) (calls : list PendingCall) (n : Z) : bool :=
  match calls with
  | [] => n =? 1
  | pc :: calls =>
      if negb (bool_decide (pcRequestID pc = pcRequestID next)) then carries next calls n
      else if negb (same_call pc next) then false
      else carries next calls (n + 1)
  end.

Definition checkReplacement (next : option PendingCall) (calls : list PendingCall) : bool :=
  match next with None => true | Some next => carries next calls 0 end.

Definition checkReplacementBuilders (next : option PendingCall) (builders : list Builder) : bool :=
  checkReplacement next (omap (fun b => (fun f => f 0) <$> bPending b) builders).

Inductive BatchErr := NotUsable | NoJournal | DuplicateRequestID | HubUnusable | ReplacementMismatch | PackFailed | NotWritten | NotSentErr | Incomplete | OutOfFuel.
#[global] Instance BatchErr_eq_dec : EqDecision BatchErr.
Proof. solve_decision. Defined.

Fixpoint request_ids (opts : sendOptions) (builders : list Builder) (seen : list gostring) : outcome BatchErr (list gostring) :=
  match builders with
  | [] => Ok seen
  | b :: builders =>
      if bool_decide (bRequestID b = []) then request_ids opts builders seen
      else if negb (hasJournal opts) then Err NoJournal
      else if in_list (bRequestID b) seen then Err DuplicateRequestID
      else request_ids opts builders (seen ++ [bRequestID b])
  end.

(** [ready]: the announced max_request_age is usable. *)
Definition checkBillCalls (opts : sendOptions) (ready : bool) (builders : list Builder) : outcome BatchErr unit :=
  seen ← request_ids opts builders [];
  if bool_decide (seen = []) then Ok tt else if ready then Ok tt else Err HubUnusable.

Definition with_deadline (pc : PendingCall) (deadline : Z) (device : gostring) : PendingCall :=
  mkCall (pcRequestID pc) deadline (pcMethod pc) (pcTarget pc) (pcHub pc) (pcMaxAge pc) device (pcSecrets pc) (pcSource pc)
    (pcAmount pc) (pcChain pc) (pcDerivedFrom pc) (pcAttempt pc) (pcLastCode pc) (pcSawReused pc) (pcParams pc) (pcBuyerKey pc)
    (pcNotify pc) (pcPayBy pc) (pcLastDetail pc) (pcQuote pc) (pcAddress pc) (pcHoldsUntil pc) (pcReceipt pc).

(** The calls of an envelope, by item. *)
Definition calls_of (opts : sendOptions) (deadline : Z) (packed : list Builder) : list (gostring * PendingCall) :=
  omap (fun b => (fun f => (bID b, with_deadline (asReplacement (replacement opts) (f deadline)) deadline (device opts))) <$> bPending b) packed.

Definition withRequestIDs (out : list ItemOutcome) (packed : list Builder) (written : list (gostring * PendingCall)) : list ItemOutcome :=
  let rids := foldl (fun (m : gmap gostring gostring) b => <[bID b := bRequestID b]> m) ∅ packed in
  let calls := foldl (fun (m : gmap gostring PendingCall) w => <[w.1 := w.2]> m) ∅ written in
  map (fun o => set_call o (default [] (rids !! oID o)) (match calls !! oID o with Some pc => Some pc | None => oPending o end)) out.

Definition withAccepted (out : list ItemOutcome) (accepted : list gostring) : list ItemOutcome :=
  if bool_decide (accepted = []) then out else map (fun o => set_accepted o accepted) out.

Definition not_sent (bs : list Builder) (written : list (gostring * PendingCall)) : list ItemOutcome :=
  withRequestIDs (map (fun b => set_oState (new_outcome (bID b) 0) OutcomeNotSent) bs) bs written.

Definition withNotSent (out : list ItemOutcome) (packed rest : list Builder) (written : list (gostring * PendingCall)) : list ItemOutcome :=
  if bool_decide (length out = 0%nat) then out else out ++ not_sent packed written ++ not_sent rest [].

Definition policyRefused (got : list ItemOutcome) : bool :=
  negb (bool_decide (length got = 0%nat)) &&
  forallb (fun o => bool_decide (oState o = OutcomeError) && envelopeLevel o &&
    match oError o with Some e => bool_decide (reCode e = ErrCodeQuotaExceeded) || bool_decide (reCode e = ErrCodeBadRequest) | None => false end) got.

(** Whether an item can be built again for another envelope. *)
Definition rebuildable (b : Builder) : bool := negb (bMeasure b || negb (bool_decide (bRequestID b = [])) || bool_decide (is_Some (bPending b))).

Definition splitRebuildable (packed : list Builder) : list Builder * list Builder :=
  (List.filter rebuildable packed, List.filter (fun b => negb (rebuildable b)) packed).

Definition outcomesFor (got : list ItemOutcome) (packed : list Builder) : list ItemOutcome :=
  List.filter (fun o => in_list (oID o) (map bID packed)) got.

(** What the loop does to the world, in order.  A write-ahead that failed, in the
    journal or in the record of a re-placement, is not listed. *)
Inductive Effect :=
  | WroteAhead (calls : list PendingCall)
  | Published (items : list Builder)
  | Recorded (requestID : gostring) (accepted : list gostring).

Definition recordAccepted (opts : sendOptions) (packed : list Builder) (accepted : list gostring) : list Effect :=
  if negb (recordsAccepted opts) || bool_decide (accepted = []) then []
  else omap (fun b => if bool_decide (bRequestID b = []) then None else Some (Recorded (bRequestID b) accepted)) packed.

(** The outcomes, the relays that accepted, and the error: [Some true] when
    nothing was published. *)
Definition sendOne (w : World) (i : nat) (packed : list Builder) : list ItemOutcome * list gostring * option bool :=
  match network w i with
  | SentNot => ([], [], Some true)
  | SentFailed => ([], [], Some false)
  | SentReply accepted evs =>
      let p := mkEnv (map (fun b => (bID b, bMethod b)) packed) (wNonce w i) (wReplyKey w i) (wMaxBytes w) in
      match collectFrom p (Z.of_nat i) evs with
      | None => ([], accepted, Some false)
      | Some (out, e) => (out, accepted, match e with Some _ => Some false | None => None end)
      end
  end.

Definition published (w : World) (i : nat) (packed : list Builder) : list Effect :=
  match network w i with SentNot => [] | _ => [Published packed] end.

Record BatchState := mkBS { remaining : list Builder; outs : list ItemOutcome; incomplete : bool; repacked : bool; effects : list Effect }.

(** One turn of the loop: the state after it, or the end of the batch. *)
Definition turn (w : World) (opts : sendOptions) (i : nat) (s : BatchState) : BatchState * option BatchErr :=
  match pack w i (remaining s) with
  | None => (s, Some PackFailed)
  | Some consumed =>
      let packed := take consumed (remaining s) in
      let rest := drop consumed (remaining s) in
      let written := calls_of opts (wNotAfter w i) packed in
      let calls := map snd written in
      if negb (bool_decide (length calls = 0%nat)) && negb (journalWrites w i calls)
      then (mkBS rest (withNotSent (outs s) packed rest []) (incomplete s) (repacked s) (effects s), Some NotWritten)
      else
        let '(got, accepted, err) := sendOne w i packed in
        let done_ := effects s ++ (if bool_decide (length calls = 0%nat) then [] else [WroteAhead calls]) ++ published w i packed in
        let '(retry, keep) := splitRebuildable packed in
        if negb (repacked s) && policyRefused got && negb (bool_decide (length retry = 0%nat)) && freshPolicy w i then
          if bool_decide (length keep = 0%nat) then (mkBS (retry ++ rest) (outs s) (incomplete s) true done_, None)
          else (mkBS (retry ++ rest) (outs s ++ withAccepted (withRequestIDs (outcomesFor got keep) keep written) accepted) (incomplete s) true
                  (done_ ++ recordAccepted opts keep accepted), None)
        else
          let rp := repacked s || policyRefused got in
          let done_ := done_ ++ recordAccepted opts packed accepted in
          if bool_decide (length got = 0%nat) && bool_decide (err = Some true)
          then (mkBS rest (withNotSent (outs s) packed rest written) (incomplete s) rp done_, Some NotSentErr)
          else
            let failed := bool_decide (is_Some err) in
            if negb (bool_decide (length got = 0%nat))
            then (mkBS rest (outs s ++ withAccepted (withRequestIDs got packed written) accepted) (incomplete s || failed) rp done_, None)
            else if failed
            then (mkBS rest (outs s ++ withAccepted (withRequestIDs (unansweredOutcomes (map bID packed) (Z.of_nat i)) packed written) accepted) true rp done_, None)
            else (mkBS rest (outs s) (incomplete s) rp done_, None)
  end.

Fixpoint send_loop (fuel : nat) (w : World) (opts : sendOptions) (i : nat) (s : BatchState) : BatchState * option BatchErr :=
  if bool_decide (length (remaining s) = 0%nat) then (s, if incomplete s then Some Incomplete else None)
  else match fuel with
  | O => (s, Some OutOfFuel)
  | S fuel =>
      match turn w opts i s with
      | (s, None) => send_loop fuel w opts (S i) s
      | (s, Some e) => (s, Some e)
      end
  end.

(** Every turn but the one that packs an envelope again consumes an item. *)
Definition sendBatch (w : World) (opts : sendOptions) (usable ready : bool) (builders : list Builder) : BatchState * option BatchErr :=
  let s0 := mkBS builders [] false false [] in
  if bool_decide (length builders = 0%nat) then (s0, None)
  else if negb usable then (s0, Some NotUsable)
  else match checkBillCalls opts ready builders with
  | Err e => (s0, Some e)
  | Panic => (s0, Some OutOfFuel)
  | Ok _ =>
      if negb (checkReplacementBuilders (replacement opts) builders) then (s0, Some ReplacementMismatch)
      else send_loop (S (length builders)) w opts 0 s0
  end.

End Collect.

(** ** The Hub's checks of an item and of a deadline *)

Definition BearerShapeOK (method : gostring) (hasProof hasSecret : bool) : bool :=
  if hasProof && hasSecret then false
  else if in_list method [MethodCashRedeem; MethodCashWithdraw; MethodCashTransfer; MethodCashConsolidate] then hasProof || hasSecret
  else if bool_decide (method = MethodCashOrder) then hasProof
  else if in_list method [MethodCashStatus; MethodCashWithdrawQuote] then negb hasSecret
  else true.

Inductive FreshErr := ErrEnvelopeExpired | ErrEnvelopeTooFresh.

Definition CheckFreshness (notAfter now horizon : Z) : outcome FreshErr unit :=
  if notAfter <? now then Err ErrEnvelopeExpired
  else if s64 (now + horizon) <? notAfter then Err ErrEnvelopeTooFresh
  else Ok tt.
