(* ===== verification/CashBatchProps.v ===== *)
(** * nipcash: what a batch promises

    The outcomes of a reply do not depend on the order its chunks arrive in, are
    decided by the answers alone and are safe to resend only when the Hub said so;
    a batch ends, with one outcome per item, and sends a call carrying a request
    id in one envelope at most. *)

From S2P Require Import Prelude GoLib Sha256 NostrUtils Pow Event Filter CashCall CashWithdraw CashPayout CashRecover Nip44 CashBatch.

(** ** The state after a list of chunks *)

Definition reply (items : list (gostring * gostring)) (L : list (gostring * DecodedChunk)) : replyState :=
  foldl (fun st x => add_chunk st x.1 x.2) (newReplyState items) L.

(** The answers to an item, and the envelope-level errors, over all chunks. *)
Definition results_of (c : DecodedChunk) : list Result := default [] (Results (chunk c)).
Definition answers_in (L : list (gostring * DecodedChunk)) (id : gostring) : list Result :=
  List.filter (fun r => bool_decide (rID r = id)) (concat (map (fun x => results_of x.2) L)).
Definition errors_in (L : list (gostring * DecodedChunk)) : list ResultError := omap (fun x => respError (chunk x.2)) L.

Lemma reply_snoc items L x : reply items (L ++ [x]) = add_chunk (reply items L) x.1 x.2.
Proof. unfold reply. by rewrite foldl_app. Qed.

Lemma answers_fold l m id : default [] (foldl add_answer m l !! id) = default [] (m !! id) ++ List.filter (fun r => bool_decide (rID r = id)) l.
Proof.
  revert m. induction l as [|r l IH]; intros m; cbn [foldl List.filter]; [by rewrite app_nil_r|]. rewrite IH. unfold add_answer.
  case_bool_decide as E.
  - rewrite E, lookup_insert_eq. cbn. by rewrite <- app_assoc.
  - by rewrite lookup_insert_ne.
Qed.

Lemma add_chunk_fields st k c :
  ids (add_chunk st k c) = ids st /\ methods (add_chunk st k c) = methods st /\
  answers (add_chunk st k c) = foldl add_answer (answers st) (results_of c) /\
  envErrs (add_chunk st k c) = envErrs st ++ match respError (chunk c) with Some e => [e] | None => [] end /\
  gaps (add_chunk st k c) = gaps st ++ (if DecidesNothing c then [Seq (chunk c)] else []).
Proof.
  unfold add_chunk. destruct (add_position _ _ _ _) as [seqs cs]. destruct (add_total _ _ _) as [total cs']. cbn.
  split_and!; try done; [destruct (respError (chunk c))|destruct (DecidesNothing c)]; by rewrite ?app_nil_r.
Qed.

Lemma reply_fields items L :
  ids (reply items L) = map fst items /\ methods (reply items L) = methods (newReplyState items) /\
  (forall id, default [] (answers (reply items L) !! id) = answers_in L id) /\ envErrs (reply items L) = errors_in L /\
  (gaps (reply items L) = [] <-> Forall (fun x => DecidesNothing x.2 = false) L).
Proof.
  induction L as [|[k c] L (IH1 & IH2 & IH3 & IH4 & IH5)] using rev_ind; [split_and!; try done; by intros; rewrite Forall_nil|].
  rewrite reply_snoc. cbn [fst snd]. destruct (add_chunk_fields (reply items L) k c) as (-> & -> & -> & -> & ->). split_and!; [done|done|..].
  - intros id. rewrite answers_fold, IH3. unfold answers_in. rewrite map_app, concat_app, List.filter_app. cbn. by rewrite app_nil_r.
  - rewrite IH4. unfold errors_in. rewrite omap_app. cbn. by destruct (respError (chunk c)).
  - rewrite Forall_app, Forall_singleton, <- IH5. cbn. destruct (DecidesNothing c).
    + split; [by intros [_ [=]]%app_eq_nil|by intros [_ [=]]].
    + rewrite app_nil_r. naive_solver.
Qed.

(** *** Contradictions *)

Definition positioned (c : DecodedChunk) : Prop := 1 <= Seq (chunk c) <= Total (chunk c).

Definition consistent (L : list (gostring * DecodedChunk)) : Prop :=
  (forall x, x ∈ L -> positioned x.2) /\
  (forall x y, x ∈ L -> y ∈ L -> Seq (chunk x.2) = Seq (chunk y.2) -> x.1 = y.1) /\
  (forall x y, x ∈ L -> y ∈ L -> Total (chunk x.2) = Total (chunk y.2)).

Lemma add_position_spec k c seqs cs :
  exists new, (add_position k c seqs cs).2 = cs ++ new /\
    (new = [] <-> 1 <= Seq c <= Total c /\ (forall k', seqs !! Seq c = Some k' -> k' = k)) /\
    (new = [] -> (add_position k c seqs cs).1 = <[Seq c := k]> seqs).
Proof.
  unfold add_position. destruct ((Total c <? 1) || (Seq c <? 1) || (Total c <? Seq c)) eqn:EP.
  - eexists. split; [done|]. split; [|done]. split; [done|]. intros [? _]. lia.
  - destruct (seqs !! Seq c) as [prev|] eqn:EL.
    + case_bool_decide as EK; cbn [negb].
      * exists []. rewrite app_nil_r. split_and!; [done|split; [intros _; split; [lia|by intros ? [= <-]]|done]|done].
      * eexists. split; [done|]. split; [|done]. split; [done|]. intros [_ HX]. by destruct EK; apply HX.
    + exists []. rewrite app_nil_r. split_and!; [done|split; [intros _; split; [lia|done]|done]|done].
Qed.

Lemma add_total_spec c declared cs :
  exists new, (add_total c declared cs).2 = cs ++ new /\
    (new = [] <-> (1 <= Total c -> declared = 0 \/ declared = Total c)) /\
    (new = [] -> 1 <= Total c -> (add_total c declared cs).1 = Total c).
Proof.
  unfold add_total. destruct (Z.leb_spec 1 (Total c)).
  - destruct (Z.eqb_spec declared 0); [exists []; rewrite app_nil_r; split_and!; [done|split; [lia|done]|done]|].
    destruct (Z.eqb_spec (Total c) declared); cbn [negb].
    + exists []. rewrite app_nil_r. split_and!; [done|split; [lia|done]|done].
    + eexists. split; [done|]. split; [|done]. split; [done|]. intros HX. specialize (HX ltac:(lia)). lia.
  - exists []. rewrite app_nil_r. split_and!; [done|split; [lia|done]|lia].
Qed.

Lemma consistent_snoc L x : consistent (L ++ [x]) <->
  consistent L /\ positioned x.2 /\ (forall y, y ∈ L -> Seq (chunk y.2) = Seq (chunk x.2) -> y.1 = x.1) /\
  (forall y, y ∈ L -> Total (chunk y.2) = Total (chunk x.2)).
Proof.
  unfold consistent. setoid_rewrite elem_of_app. setoid_rewrite list_elem_of_singleton. split.
  - intros (H1 & H2 & H3). split_and!; eauto.
  - intros ((H1 & H2 & H3) & H4 & H5 & H6). split_and!.
    + intros y [Hy| ->]; eauto.
    + intros y z [Hy| ->] [Hz| ->] HE; eauto. symmetry. by apply H5.
    + intros y z [Hy| ->] [Hz| ->]; eauto. symmetry. by apply H6.
Qed.

(** No contradiction is recorded exactly for a consistent list; the positions and
    the total are then those of the chunks. *)
Lemma reply_consistent items L :
  (conflicts (reply items L) = [] <-> consistent L) /\
  (consistent L ->
    (forall n k, seqEvent (reply items L) !! n = Some k <-> exists x, x ∈ L /\ x.1 = k /\ Seq (chunk x.2) = n) /\
    (forall x, x ∈ L -> declared (reply items L) = Total (chunk x.2)) /\ (L = [] -> declared (reply items L) = 0)).
Proof.
  induction L as [|[k c] L [IH1 IH2]] using rev_ind.
  { split; [split; [intros _|done]|]; [unfold consistent; split_and!; intros; set_solver|]. intros _. split_and!; [|set_solver|done].
    intros n k. cbn. rewrite lookup_empty. split; [done|]. by intros (? & ?%elem_of_nil & _). }
  rewrite reply_snoc, consistent_snoc. cbn [fst snd]. unfold add_chunk.
  destruct (add_position_spec k (chunk c) (seqEvent (reply items L)) (conflicts (reply items L))) as (n1 & HP1 & HP2 & HP3).
  destruct (add_position _ _ _ _) as [seqs cs]. cbn [fst snd] in *. subst cs.
  destruct (add_total_spec (chunk c) (declared (reply items L)) (conflicts (reply items L) ++ n1)) as (n2 & HT1 & HT2 & HT3).
  destruct (add_total _ _ _) as [total cs]. cbn [fst snd] in *. subst cs. cbn [conflicts seqEvent declared].
  assert (HN : n1 = [] /\ consistent L <-> consistent L /\ positioned c /\ forall y, y ∈ L -> Seq (chunk y.2) = Seq (chunk c) -> y.1 = k).
  { split.
    - intros [Hn HC]. destruct (IH2 HC) as (HS & _). apply HP2 in Hn as [Hpos Hk]. split_and!; [done|done|]. intros y Hy HE. apply Hk, HS. eauto.
    - intros (HC & Hpos & Hk). split; [|done]. apply HP2. split; [done|]. intros k' Hk'. apply (proj1 (IH2 HC)) in Hk' as (y & Hy & <- & HE). by apply Hk. }
  assert (HM : consistent L -> positioned c -> n2 = [] <-> forall y, y ∈ L -> Total (chunk y.2) = Total (chunk c)).
  { intros HC Hpos. destruct (IH2 HC) as (_ & HD & HD0). unfold positioned in Hpos. rewrite HT2. split.
    - intros HX y Hy. specialize (HX ltac:(lia)). rewrite (HD y Hy) in HX. pose proof (proj1 HC y Hy) as Hy'. unfold positioned in Hy'. lia.
    - intros HX _. destruct L as [|y L']; [left; by apply HD0|right]. rewrite (HD y) by (by left). apply HX. by left. }
  split.
  - rewrite <- app_assoc. split.
    + intros [HC Hn]%app_eq_nil. apply app_eq_nil in Hn as [Hn1 Hn2]. apply IH1 in HC. destruct (proj1 HN (conj Hn1 HC)) as (_ & Hpos & Hk).
      split_and!; [done|done|done|]. by apply HM.
    + intros (HC & Hpos & Hk & HTot). rewrite (proj2 IH1 HC), (proj1 (proj2 HN (conj HC (conj Hpos Hk)))). cbn. by apply HM.
  - intros (HC & Hpos & Hk & HTot). destruct (IH2 HC) as (HS & HD & HD0).
    rewrite (HP3 (proj1 (proj2 HN (conj HC (conj Hpos Hk))))), (HT3 (proj2 (HM HC Hpos) HTot) ltac:(unfold positioned in Hpos; lia)). split_and!.
    + intros n k'. setoid_rewrite elem_of_app. setoid_rewrite list_elem_of_singleton. destruct (decide (Seq (chunk c) = n)) as [<-|Hne].
      * rewrite lookup_insert_eq. split.
        -- intros [= <-]. exists (k, c). eauto.
        -- intros (y & [Hy| ->] & <- & HE); [|done]. f_equal. symmetry. by apply Hk.
      * rewrite lookup_insert_ne by done. rewrite HS. split; [intros (y & ? & ?); eauto|]. intros (y & [Hy| ->] & ? & HE); [by eauto|by destruct Hne].
    + intros x. rewrite elem_of_app, list_elem_of_singleton. intros [Hx| ->]; [|done]. symmetry. by apply HTot.
    + by intros [_ [=]]%app_eq_nil.
Qed.

Lemma consistent_perm L L' : L ≡ₚ L' -> consistent L <-> consistent L'.
Proof. intros HP. unfold consistent. by setoid_rewrite HP. Qed.

Lemma conflicts_perm items L L' : L ≡ₚ L' -> conflicts (reply items L) = [] <-> conflicts (reply items L') = [].
Proof. intros HP. rewrite (proj1 (reply_consistent items L)), (proj1 (reply_consistent items L')). by apply consistent_perm. Qed.

Lemma complete_perm items L L' : L ≡ₚ L' -> complete (reply items L) = complete (reply items L').
Proof.
  intros HP. unfold complete, malformed, reply_total.
  destruct (reply_fields items L) as (-> & _ & _ & _ & HG). destruct (reply_fields items L') as (-> & _ & _ & _ & HG').
  assert (HGG : gaps (reply items L) = [] <-> gaps (reply items L') = []) by (rewrite HG, HG'; by rewrite HP).
  assert (HCC := conflicts_perm items L L' HP).
  rewrite (bool_decide_ext (conflicts (reply items L) = [] /\ gaps (reply items L) = []) (conflicts (reply items L') = [] /\ gaps (reply items L') = [])) by (by rewrite HCC, HGG).
  case_bool_decide as HB; cbn [negb]; [|by rewrite !orb_true_r]. rewrite !orb_false_r. destruct HB as [HB _].
  pose proof HB as HB'. apply HCC in HB'.
  destruct (proj2 (reply_consistent items L) (proj1 (proj1 (reply_consistent items L)) (proj2 HCC HB))) as (HS & HD & HD0).
  destruct (proj2 (reply_consistent items L') (proj1 (proj1 (reply_consistent items L')) HB)) as (HS' & HD' & HD0').
  assert (HDD : declared (reply items L) = declared (reply items L')).
  { destruct L as [|x L0]; [apply Permutation_nil in HP; subst L'; done|].
    rewrite (HD x) by (by left). rewrite (HD' x); [done|]. rewrite <- HP. by left. }
  rewrite HDD. destruct (_ <? 1); [done|]. apply eq_true_iff_eq. rewrite !forallb_forall.
  assert (HX : forall n, is_Some (seqEvent (reply items L) !! n) <-> is_Some (seqEvent (reply items L') !! n)).
  { intros n. unfold is_Some. setoid_rewrite HS. setoid_rewrite HS'. by setoid_rewrite HP. }
  by setoid_rewrite bool_decide_eq_true; setoid_rewrite HX.
Qed.

(** *** The outcomes *)

Lemma answers_perm L L' id : L ≡ₚ L' -> answers_in L id ≡ₚ answers_in L' id.
Proof. intros HP. unfold answers_in. by rewrite HP. Qed.

Lemma errors_perm L L' : L ≡ₚ L' -> errors_in L ≡ₚ errors_in L'.
Proof. intros HP. unfold errors_in. by rewrite HP. Qed.

Lemma item_outcome_perm items L L' i id : L ≡ₚ L' -> item_outcome (reply items L) i id = item_outcome (reply items L') i id.
Proof.
  intros HP. unfold item_outcome, decide_one. rewrite (complete_perm items L L' HP).
  destruct (reply_fields items L) as (_ & -> & -> & -> & _). destruct (reply_fields items L') as (_ & -> & -> & -> & _).
  pose proof (answers_perm L L' id HP) as HA. pose proof (errors_perm L L' HP) as HE.
  destruct (answers_in L id) as [|r [|r2 rs]]; [apply Permutation_nil_l in HA; rewrite <- HA|apply Permutation_singleton_l in HA; rewrite <- HA|].
  - destruct (errors_in L) as [|e [|e2 es]]; [apply Permutation_nil_l in HE; by rewrite <- HE|apply Permutation_singleton_l in HE; by rewrite <- HE|].
    apply Permutation_length in HE. by destruct (errors_in L') as [|? [|? ?]].
  - destruct (errors_in L) as [|e es]; [apply Permutation_nil_l in HE; by rewrite <- HE|]. apply Permutation_length in HE. by destruct (errors_in L').
  - apply Permutation_length in HA. by destruct (answers_in L' id) as [|? [|? ?]].
Qed.

(** A complete reply: consistent, with every chunk deciding something and every
    position up to the total, bounded by the items asked for. *)
Lemma complete_true items L : complete (reply items L) = true ->
  L <> [] /\ consistent L /\ Forall (fun x => DecidesNothing x.2 = false) L /\
  forall x n, x ∈ L -> 1 <= n <= Z.min (Total (chunk x.2)) (zlen items) -> exists y, y ∈ L /\ Seq (chunk y.2) = n.
Proof.
  unfold complete, malformed, reply_total. destruct (reply_fields items L) as (-> & _ & _ & _ & HG).
  destruct (reply_consistent items L) as [HC HD]. destruct (Z.ltb_spec (Z.min (declared (reply items L)) (zlen (map fst items))) 1); [done|]. cbn [orb].
  case_bool_decide as HB; [|done]. destruct HB as [HB1 HB2]. apply HC in HB1. apply HG in HB2. destruct (HD HB1) as (HS & HT & HT0). cbn [negb].
  intros HF. rewrite forallb_forall in HF. unfold zlen in *. rewrite length_map in *. split_and!; [|done|done|].
  - intros ->. specialize (HT0 eq_refl). lia.
  - intros x n Hx Hn. rewrite <- (HT x Hx) in Hn. specialize (HF (Z.to_nat n)). rewrite Z2Nat.id in HF by lia.
    assert (HI : In (Z.to_nat n) (seq 1 (Z.to_nat (Z.min (declared (reply items L)) (Z.of_nat (length items)))))) by (apply in_seq; lia).
    apply HF, bool_decide_eq_true in HI as [k Hk]. apply HS in Hk as (y & Hy & _ & HE). eauto.
Qed.

(** What every outcome says of the chunks. *)
Definition decided (items : list (gostring * gostring)) (L : list (gostring * DecodedChunk)) (o : ItemOutcome) : Prop :=
  match oState o with
  | OutcomeResult => exists res, answers_in L (oID o) = [res] /\ errors_in L = [] /\ rError res = None /\ oResult o = rBody res /\
      ResultType res <> [] /\ ResultType res = default [] (methods (newReplyState items) !! oID o)
  | OutcomeError => exists e, oError o = Some e /\
      ((exists res, answers_in L (oID o) = [res] /\ errors_in L = [] /\ rError res = Some e /\ HasBoth res = false) \/
       (answers_in L (oID o) = [] /\ errors_in L = [e]))
  | OutcomeNotServed => answers_in L (oID o) = [] /\ errors_in L = [] /\ complete (reply items L) = true
  | OutcomeUnanswered => answers_in L (oID o) = [] /\ errors_in L = [] /\ complete (reply items L) = false
  | OutcomeConflict => (2 <= length (answers_in L (oID o)) + length (errors_in L))%nat \/
      exists res, answers_in L (oID o) = [res] /\ (HasBoth res = true \/ rError res = None /\
        (ResultType res = [] \/ ResultType res <> default [] (methods (newReplyState items) !! oID o)))
  | OutcomeNotSent => False
  end.

Lemma item_outcome_id r i id : oID (item_outcome r i id) = id.
Proof. unfold item_outcome, decide_one. repeat case_match; done. Qed.

Lemma item_decided items L i id : decided items L (item_outcome (reply items L) i id).
Proof.
  unfold decided. rewrite item_outcome_id. unfold item_outcome, decide_one.
  destruct (reply_fields items L) as (_ & -> & -> & -> & _).
  destruct (answers_in L id) as [|res [|r2 rs]]; [destruct (errors_in L) as [|e [|e2 es]]|destruct (errors_in L) as [|e es]|]; cbn [oState set_oState set_oError new_outcome].
  - destruct (complete _) eqn:EC; done.
  - exists e. split; [done|]. by right.
  - left. cbn. lia.
  - destruct (HasBoth res) eqn:EB; [cbn; right; eauto|]. destruct (rError res) as [e|] eqn:ER; [cbn; exists e; split; [done|left; eauto]|].
    cbn [oID new_outcome]. case_bool_decide as E1; cbn [orb]; [cbn; right; eauto 6|].
    case_bool_decide as E2; cbn [negb]; [cbn; exists res; by split_and!|cbn; right; eauto 7].
  - left. cbn. lia.
  - left. cbn. lia.
Qed.

Lemma outcomes_ids r i : map oID (outcomes r i).1 = ids r.
Proof. cbn. rewrite map_map. rewrite <- (map_id (ids r)) at 2. apply map_ext. intros id. apply item_outcome_id. Qed.

(** ** The collected reply *)


Lemma collect_ids `{!Schnorr} {Lib : Nip44Lib} {J : ResponseJSON} p i evs seen st out e :
  collect p i evs seen st = Some (out, e) -> map oID out = ids st.
Proof.
  revert seen st. induction evs as [|ev evs IH]; intros seen st; cbn [collect].
  { unfold finish. destruct (decoded st =? 0); [done|]. intros [= <- _]. apply outcomes_ids. }
  case_bool_decide; [apply IH|]. destruct (Decrypt _ _) as [pt| |]; [|apply IH..].
  destruct (DecodeResponseChunk _ _ _ _) as [c|er|]; [|intros HC; by apply IH in HC|done].
  destruct (add_chunk_fields st (event_key ev) c) as (HI & _). destruct (complete _).
  - intros [= <- _]. rewrite <- HI. apply outcomes_ids.
  - intros HC. apply IH in HC. by rewrite HC.
Qed.

(** ** The loop of a batch *)

Definition has_request (b : Builder) : bool := negb (bool_decide (bRequestID b = [])).

(** The items of the envelopes published. *)
Definition published_items (l : list Effect) : list Builder := concat (map (fun e => match e with Published bs => bs | _ => [] end) l).

Lemma published_items_app l k : published_items (l ++ k) = published_items l ++ published_items k.
Proof. unfold published_items. by rewrite map_app, concat_app. Qed.

Lemma foldl_insert_lookup {A B} (f : A -> gostring) (g : A -> B) (l : list A) (m : gmap gostring B) (a : A) :
  NoDup (map f l) -> a ∈ l -> foldl (fun m x => <[f x := g x]> m) m l !! f a = Some (g a).
Proof.
  revert m. induction l as [|x l IH]; intros m HN Ha; [by apply elem_of_nil in Ha|]. cbn in *. apply NoDup_cons in HN as [Hx HN].
  apply elem_of_cons in Ha as [->|Ha]; [|by apply IH]. clear IH. revert m. induction l as [|y l IH] using rev_ind; intros m; cbn; [apply lookup_insert_eq|].
  rewrite foldl_app. cbn. rewrite map_app in Hx, HN. rewrite lookup_insert_ne; [apply IH|].
  - set_solver.
  - by apply NoDup_app in HN as [? _].
  - intros HE. apply Hx. cbn. rewrite HE. set_solver.
Qed.

Lemma NoDup_within {A} (l k : list A) : l ⊆+ k -> NoDup k -> NoDup l.
Proof. intros (k' & HP)%submseteq_Permutation HN. rewrite HP in HN. by apply NoDup_app in HN as [? _]. Qed.

Lemma NoDup_key {A B} (f : A -> B) (l : list A) a b : NoDup (map f l) -> a ∈ l -> b ∈ l -> f a = f b -> a = b.
Proof.
  induction l as [|x l IH]; intros HN Ha Hb HE; [by apply elem_of_nil in Ha|]. cbn in HN. apply NoDup_cons in HN as [Hx HN].
  apply elem_of_cons in Ha as [->|Ha]; apply elem_of_cons in Hb as [->|Hb]; [done|..|by apply IH].
  - destruct Hx. rewrite HE. by apply list_elem_of_fmap_2.
  - destruct Hx. rewrite <- HE. by apply list_elem_of_fmap_2.
Qed.

Section Loop.
Context {Schnorr0 : Schnorr} {Lib : Nip44Lib} {J : ResponseJSON}.
Context (w : World) (opts : sendOptions) (bs : list Builder).
Context (HN : NoDup (map bID bs)).
(** An envelope that is packed carries at least one item. *)
Context (HPack : forall i l c, l <> [] -> pack w i l = Some c -> (1 <= c <= length l)%nat).

(** A call is written ahead right before its envelope is published. *)
Fixpoint ahead (prev : option (list PendingCall)) (l : list Effect) : Prop :=
  match l with
  | [] => True
  | WroteAhead calls :: l => ahead (Some calls) l
  | Published items :: l =>
      (forall b f, b ∈ items -> bPending b = Some f ->
        exists d calls, prev = Some calls /\ with_deadline (asReplacement (replacement opts) (f d)) d (device opts) ∈ calls) /\ ahead None l
  | Recorded _ _ :: l => ahead None l
  end.

Definition stamped (out : list ItemOutcome) : Prop := forall o b, o ∈ out -> b ∈ bs -> bID b = oID o -> oRequestID o = bRequestID b.

Definition loop_inv (s : BatchState) : Prop :=
  (exists D, D ++ remaining s ≡ₚ bs /\ map oID (outs s) ≡ₚ map bID D) /\ stamped (outs s) /\
  List.filter has_request (published_items (effects s) ++ remaining s) ⊆+ List.filter has_request bs /\ ahead None (effects s).

Definition batch_end (s : BatchState) : Prop :=
  (outs s = [] \/ map oID (outs s) ≡ₚ map bID bs) /\ stamped (outs s) /\
  List.filter has_request (published_items (effects s)) ⊆+ List.filter has_request bs /\ ahead None (effects s).

Lemma ahead_app prev l k : ahead prev l -> (forall q, ahead q k) -> ahead prev (l ++ k).
Proof. revert prev. induction l as [|[]]; intros prev HL HK; cbn in *; [by apply HK|auto|split; [apply HL|apply IHl; [apply HL|done]]|auto]. Qed.

Lemma ahead_recorded q packed accepted : ahead q (recordAccepted opts packed accepted).
Proof.
  unfold recordAccepted. destruct (_ || _); [done|]. revert q. induction packed as [|b l IH]; intros q; [done|]. cbn. case_bool_decide; cbn; apply IH.
Qed.

Lemma published_recorded packed accepted : published_items (recordAccepted opts packed accepted) = [].
Proof.
  unfold recordAccepted. destruct (_ || _); [done|]. induction packed as [|b l IH]; [done|]. cbn. case_bool_decide; cbn; apply IH.
Qed.

(** The effects of a turn before its relays are recorded. *)
Definition turn_effects (i : nat) (packed : list Builder) : list Effect :=
  (if bool_decide (length (map snd (calls_of opts (wNotAfter w i) packed)) = 0%nat) then [] else [WroteAhead (map snd (calls_of opts (wNotAfter w i) packed))])
  ++ published w i packed.

Lemma calls_of_in d packed b f : b ∈ packed -> bPending b = Some f ->
  with_deadline (asReplacement (replacement opts) (f d)) d (device opts) ∈ map snd (calls_of opts d packed).
Proof.
  intros Hb Hf. apply list_elem_of_fmap. eexists. split; [|unfold calls_of; apply list_elem_of_omap; exists b; rewrite Hf; by split]. done.
Qed.

Lemma turn_effects_ahead q i packed : ahead q (turn_effects i packed).
Proof.
  unfold turn_effects, published. set (cs := map snd (calls_of opts (wNotAfter w i) packed)).
  assert (HC : forall b f, b ∈ packed -> bPending b = Some f -> exists d calls, Some cs = Some calls /\ with_deadline (asReplacement (replacement opts) (f d)) d (device opts) ∈ calls).
  { intros b f Hb Hf. exists (wNotAfter w i), cs. split; [done|]. by apply (calls_of_in _ _ b). }
  case_bool_decide as HL; cbn [app].
  - assert (HV : ahead q [Published packed]).
    { split; [|done]. intros b f Hb Hf. destruct (HC b f Hb Hf) as (d & calls & [= <-] & Hin). destruct cs; [by apply elem_of_nil in Hin|done]. }
    by destruct (network w i).
  - destruct (network w i); cbn; auto.
Qed.

Lemma turn_effects_published i packed : published_items (turn_effects i packed) = [] \/ published_items (turn_effects i packed) = packed.
Proof.
  unfold turn_effects, published. case_bool_decide; destruct (network w i); cbn; rewrite ?app_nil_r; auto.
Qed.

(** *** The outcomes of an envelope *)

Lemma sendOne_ids i packed : packed <> [] ->
  match sendOne w i packed with
  | ([], _, err) => is_Some err
  | (got, _, _) => map oID got = map bID packed
  end.
Proof.
  intros Hne. unfold sendOne. destruct (network w i) as [| |accepted evs]; [done|done|].
  destruct (collectFrom _ _ _) as [[out e]|] eqn:EC; [|done]. unfold collectFrom in EC. apply collect_ids in EC. cbn in EC.
  rewrite map_map in EC. cbn in EC. destruct out as [|o out]; [|done]. by destruct packed.
Qed.

Lemma with_ids out packed written accepted : map oID (withAccepted (withRequestIDs out packed written) accepted) = map oID out.
Proof. unfold withAccepted, withRequestIDs. case_bool_decide; rewrite ?map_map; by apply map_ext. Qed.

Lemma stamped_app out k : stamped out -> stamped k -> stamped (out ++ k).
Proof. intros H1 H2 o b [Ho|Ho]%elem_of_app; [by apply H1|by apply H2]. Qed.

Lemma stamped_with out packed written accepted : packed ⊆+ bs -> (forall o, o ∈ out -> oID o ∈ map bID packed) ->
  stamped (withAccepted (withRequestIDs out packed written) accepted).
Proof using HN.
  intros HS HI o b Ho Hb HE.
  assert (HX : exists o', o' ∈ out /\ oID o = oID o' /\
      oRequestID o = default [] (foldl (fun (m : gmap gostring gostring) b => <[bID b := bRequestID b]> m) ∅ packed !! oID o')).
  { unfold withAccepted, withRequestIDs in Ho. case_bool_decide.
    - apply list_elem_of_fmap in Ho as (o' & -> & Ho'). by exists o'.
    - apply list_elem_of_fmap in Ho as (o1 & -> & (o' & -> & Ho')%list_elem_of_fmap). by exists o'. }
  destruct HX as (o' & Ho' & HO & HR). rewrite HR. specialize (HI o' Ho'). apply list_elem_of_fmap in HI as (b' & HE' & Hb'). rewrite HE'.
  assert (HN' : NoDup (map bID packed)) by (eapply NoDup_within; [by apply fmap_submseteq|exact HN]).
  rewrite foldl_insert_lookup by done. cbn. f_equal.
  assert (Hin : b' ∈ bs) by (eapply elem_of_submseteq; [exact Hb'|done]).
  apply (NoDup_key bID bs); try done. congruence.
Qed.

(** *** A turn *)

Definition measure (s : BatchState) : nat := (length (remaining s) + (if repacked s then 0 else 1))%nat.

(** A turn ends the batch well, or keeps the invariant and gets closer to the end. *)
Definition turn_ok (s : BatchState) (r : BatchState * option BatchErr) : Prop :=
  match r with
  | (s', None) => loop_inv s' /\ (measure s' < measure s)%nat
  | (s', Some PackFailed) => s' = s
  | (s', Some e) => (e = NotWritten \/ e = NotSentErr) /\ batch_end s'
  end.

Lemma filter_Permutation_split {A} (f : A -> bool) l : List.filter f l ++ List.filter (fun b => negb (f b)) l ≡ₚ l.
Proof. induction l as [|a l IH]; [done|]. cbn. destruct (f a); cbn; [by rewrite IH|]. by rewrite <- Permutation_middle, IH. Qed.

Lemma withNotSent_ids out packed rest written : out <> [] -> map oID (withNotSent out packed rest written) = map oID out ++ map bID packed ++ map bID rest.
Proof.
  intros Hne. unfold withNotSent. case_bool_decide as HL; [by destruct out|]. unfold not_sent, withRequestIDs. rewrite !map_app, !map_map. done.
Qed.

Lemma not_sent_stamped packed written : packed ⊆+ bs -> stamped (not_sent packed written).
Proof using HN.
  intros HS. pose proof (stamped_with (map (fun b => set_oState (new_outcome (bID b) 0) OutcomeNotSent) packed) packed written [] HS) as HX.
  apply HX. intros o (b & -> & Hb)%list_elem_of_fmap. apply list_elem_of_fmap. by exists b.
Qed.

Lemma filter_cut l k : k ⊆+ l -> List.filter has_request k ⊆+ List.filter has_request l.
Proof. intros (k' & HP)%submseteq_Permutation. rewrite HP, List.filter_app. by apply submseteq_inserts_r. Qed.

(** What a turn has published stays within the batch. *)
Lemma published_within (E : list Effect) i packed rest l :
  List.filter has_request (published_items E ++ packed ++ rest) ⊆+ l -> published_items (turn_effects i packed) = [] \/ published_items (turn_effects i packed) = packed ->
  List.filter has_request (published_items (E ++ turn_effects i packed) ++ rest) ⊆+ l.
Proof.
  intros HL HT. etrans; [|exact HL]. apply filter_cut. rewrite published_items_app. destruct HT as [-> | ->]; rewrite <- ?app_assoc; [|done].
  cbn. apply submseteq_app; [done|]. by apply submseteq_inserts_l.
Qed.

Lemma not_sent_end s packed rest written E :
  remaining s = packed ++ rest -> loop_inv s -> ahead None E -> List.filter has_request (published_items E) ⊆+ List.filter has_request bs ->
  forall inc rp, batch_end (mkBS rest (withNotSent (outs s) packed rest written) inc rp E).
Proof using HN.
  intros HR ((D & HD & HO) & HS & _ & _) HA HP inc rp.
  assert (Hsub : packed ⊆+ bs /\ rest ⊆+ bs).
  { rewrite <- HD, HR. split; [apply submseteq_inserts_l; by apply submseteq_inserts_r|]. do 2 apply submseteq_inserts_l. done. }
  destruct Hsub as [Hsub1 Hsub2]. split_and!; cbn [outs effects]; [|..|done|done].
  - destruct (outs s) as [|o out] eqn:EO; [by left|right]. rewrite withNotSent_ids by done. rewrite HO, <- HD, HR, !map_app. reflexivity.
  - unfold withNotSent. case_bool_decide; [done|]. apply stamped_app; [done|]. apply stamped_app; by apply not_sent_stamped.
Qed.

Lemma keep_ids got packed keep : map oID got = map bID packed -> NoDup (map bID packed) ->
  keep = List.filter (fun b => negb (rebuildable b)) packed ->
  map oID (outcomesFor got keep) = map bID keep.
Proof.
  intros HG HND ->. unfold outcomesFor. revert got HG. 
  assert (HX : forall l got, map oID got = map bID l -> NoDup (map bID packed) -> (forall b, b ∈ l -> b ∈ packed) ->
    map oID (List.filter (fun o => in_list (oID o) (map bID (List.filter (fun b => negb (rebuildable b)) packed))) got) = map bID (List.filter (fun b => negb (rebuildable b)) l)).
  { induction l as [|b l IH]; intros [|o got] HG HN' HI; try done. cbn in HG. injection HG as Ho HG. cbn [List.filter].
    assert (HB : in_list (oID o) (map bID (List.filter (fun b => negb (rebuildable b)) packed)) = negb (rebuildable b)).
    { rewrite Ho. unfold in_list. destruct (rebuildable b) eqn:ER; cbn.
      - apply bool_decide_eq_false. intros (b' & HE & Hb')%list_elem_of_fmap. apply list_elem_of_In, filter_In in Hb' as [Hb' Hr].
        apply list_elem_of_In in Hb'. rewrite (NoDup_key bID packed b b') in ER; [by rewrite ER in Hr|done|apply HI; by left|done|done].
      - apply bool_decide_eq_true, list_elem_of_fmap_2, list_elem_of_In, filter_In. rewrite ER. split; [|done]. apply list_elem_of_In, HI. by left. }
    rewrite HB. destruct (negb (rebuildable b)); cbn; [rewrite Ho; f_equal|]; (apply IH; [done|done|intros; apply HI; by right]). }
  intros got HG. by apply HX.
Qed.

Lemma rebuildable_no_request l : List.filter has_request (List.filter rebuildable l) = [].
Proof.
  induction l as [|b l IH]; [done|]. cbn. destruct (rebuildable b) eqn:ER; [|done]. cbn. unfold rebuildable in ER. unfold has_request at 1.
  destruct (negb (bool_decide (bRequestID b = []))) eqn:EB; [|done]. by rewrite orb_true_r in ER.
Qed.

(** An envelope answered for all its items keeps the invariant. *)
Lemma answered_inv s packed rest got written accepted i inc rp recs :
  remaining s = packed ++ rest -> loop_inv s -> map oID got = map bID packed -> published_items recs = [] -> (forall q, ahead q recs) ->
  loop_inv (mkBS rest (outs s ++ withAccepted (withRequestIDs got packed written) accepted) inc rp ((effects s ++ turn_effects i packed) ++ recs)).
Proof using HN.
  intros HR ((D & HD & HO) & HS & HP & HA) HG HRecs HARecs. rewrite HR in HP, HD. split_and!; cbn [remaining outs effects].
  - exists (D ++ packed). split; [by rewrite <- app_assoc|]. by rewrite !map_app, HO, with_ids, HG.
  - apply stamped_app; [done|]. apply stamped_with; [rewrite <- HD; apply submseteq_inserts_l; by apply submseteq_inserts_r|].
    intros o Ho. rewrite <- HG. by apply list_elem_of_fmap_2.
  - rewrite published_items_app, HRecs, app_nil_r. apply published_within; [done|apply turn_effects_published].
  - apply ahead_app; [|done]. apply ahead_app; [done|]. intros q. apply turn_effects_ahead.
Qed.

(** An envelope refused whole: what can be built again stays, the rest is answered. *)
Lemma refused_inv s packed rest out written accepted i recs :
  let retry := List.filter rebuildable packed in let keep := List.filter (fun b => negb (rebuildable b)) packed in
  remaining s = packed ++ rest -> loop_inv s -> map oID out = map bID keep -> published_items recs = [] -> (forall q, ahead q recs) ->
  loop_inv (mkBS (retry ++ rest) (outs s ++ withAccepted (withRequestIDs out keep written) accepted) (incomplete s) true ((effects s ++ turn_effects i packed) ++ recs)).
Proof using HN.
  intros retry keep HR ((D & HD & HO) & HS & HP & HA) HG HRecs HARecs. rewrite HR in HP, HD.
  pose proof (filter_Permutation_split rebuildable packed) as HSp. fold retry keep in HSp.
  split_and!; cbn [remaining outs effects].
  - exists (D ++ keep). split; [|by rewrite !map_app, HO, with_ids, HG]. rewrite <- HD, <- HSp, <- !app_assoc. apply Permutation_app_head.
    rewrite !app_assoc. apply Permutation_app_tail, Permutation_app_comm.
  - apply stamped_app; [done|]. apply stamped_with.
    + rewrite <- HD, <- HSp. apply submseteq_inserts_l, submseteq_inserts_r, submseteq_inserts_l. done.
    + intros o Ho. rewrite <- HG. by apply list_elem_of_fmap_2.
  - rewrite published_items_app, HRecs, app_nil_r. rewrite !List.filter_app. unfold retry. rewrite rebuildable_no_request. cbn [app]. rewrite <- List.filter_app.
    apply published_within; [done|apply turn_effects_published].
  - apply ahead_app; [|done]. apply ahead_app; [done|]. intros q. apply turn_effects_ahead.
Qed.

Lemma published_head s packed rest i : remaining s = packed ++ rest -> loop_inv s ->
  List.filter has_request (published_items (effects s ++ turn_effects i packed)) ⊆+ List.filter has_request bs.
Proof using HN.
  intros HR (_ & _ & HP & _). rewrite HR in HP.
  etrans; [|apply (published_within _ i _ _ _ HP (turn_effects_published i packed))]. apply filter_cut. by apply submseteq_inserts_r.
Qed.

Lemma turn_correct i s : loop_inv s -> remaining s <> [] -> turn_ok s (turn w opts i s).
Proof using HN HPack.
  intros HI HRem. unfold turn. destruct (pack w i (remaining s)) as [c|] eqn:EP; [|done]. apply HPack in EP as Hc; [|done].
  set (packed := take c (remaining s)). set (rest := drop c (remaining s)).
  assert (HR : remaining s = packed ++ rest) by (symmetry; apply take_drop).
  assert (Hpne : packed <> []) by (unfold packed; destruct (remaining s), c; cbn; (done || lia)).
  assert (Hlen : (length rest < length (remaining s))%nat) by (unfold rest; rewrite length_drop; lia).
  assert (HND : NoDup (map bID packed)).
  { destruct HI as ((D & HD & _) & _). apply (NoDup_within _ (map bID bs)); [|done]. apply fmap_submseteq. rewrite <- HD, HR.
    apply submseteq_inserts_l. by apply submseteq_inserts_r. }
  assert (HA : ahead None (effects s)) by apply HI.
  destruct (_ && negb (journalWrites w i _)).
  { split; [by left|]. apply (not_sent_end s packed rest []); [done|done|done|]. destruct HI as (_ & _ & HP & _). etrans; [|exact HP].
    apply filter_cut. by apply submseteq_inserts_r. }
  pose proof (sendOne_ids i packed Hpne) as HG. destruct (sendOne w i packed) as [[got accepted] err].
  unfold splitRebuildable. cbn zeta iota beta. fold (turn_effects i packed).
  set (retry := List.filter rebuildable packed). set (keep := List.filter (fun b => negb (rebuildable b)) packed).
  assert (Hretry : (length (retry ++ rest) <= length (remaining s))%nat).
  { rewrite HR, !length_app. unfold retry. pose proof (List.filter_length_le rebuildable packed). lia. }
  destruct (negb (repacked s) && policyRefused got && negb (bool_decide (length retry = 0%nat)) && freshPolicy w i) eqn:ER.
  { apply andb_true_iff in ER as [[[ER Hpr]%andb_true_iff _]%andb_true_iff _]. apply negb_true_iff in ER.
    assert (HG' : map oID got = map bID packed) by (destruct got; [done|exact HG]).
    assert (HM : forall o e, (measure (mkBS (retry ++ rest) o (incomplete s) true e) < measure s)%nat) by (intros o e; unfold measure; cbn; rewrite ER; lia).
    case_bool_decide as HK; (split; [|apply HM]).
    - assert (HK' : keep = []) by (by destruct keep).
      pose proof (refused_inv s packed rest [] [] [] i [] HR HI) as HX. cbn zeta in HX. fold retry keep in HX. rewrite HK' in HX.
      specialize (HX eq_refl eq_refl (fun _ => I)). cbn in HX. by rewrite !app_nil_r in HX.
    - apply (refused_inv s packed rest (outcomesFor got keep) _ accepted i _ HR HI); [by apply (keep_ids got packed)|apply published_recorded|intros q; apply ahead_recorded]. }
  assert (HM : forall o e inc rp, (rp = true \/ repacked s = false) -> (measure (mkBS rest o inc rp e) < measure s)%nat).
  { intros o e inc rp Hrp. unfold measure. cbn. destruct Hrp as [-> | ->]; [destruct (repacked s)|destruct rp]; lia. }
  assert (Hrp : (repacked s || policyRefused got) = true \/ repacked s = false) by (destruct (repacked s); [by left|by right]).
  destruct got as [|o got].
  - cbn [length]. rewrite (bool_decide_eq_true_2 (0%nat = 0%nat)) by done. cbn [andb negb]. destruct HG as [nothing ->].
    destruct nothing.
    + rewrite bool_decide_eq_true_2 by done. split; [by right|]. apply (not_sent_end s packed rest); [done|done|..].
      * apply ahead_app; [|intros q; apply ahead_recorded]. apply ahead_app; [done|]. intros q. apply turn_effects_ahead.
      * rewrite published_items_app, published_recorded, app_nil_r. by apply (published_head s packed rest).
    + rewrite bool_decide_eq_false_2 by done. rewrite (bool_decide_eq_true_2 (is_Some (Some false))) by done.
      split; [|by apply HM]. apply answered_inv; [done|done| |apply published_recorded|intros q; apply ahead_recorded].
      unfold unansweredOutcomes. rewrite map_map. cbn. apply map_id.
  - rewrite (bool_decide_eq_false_2 (length (o :: got) = 0%nat)) by done. cbn [andb negb].
    split; [|by apply HM]. apply answered_inv; [done|done|done|apply published_recorded|intros q; apply ahead_recorded].
Qed.

Lemma drained s : loop_inv s -> remaining s = [] -> map oID (outs s) ≡ₚ map bID bs /\ batch_end s.
Proof using HN.
  intros ((D & HD & HO) & HS & HP & HA) HR. rewrite HR, app_nil_r in HD, HP.
  assert (HX : map oID (outs s) ≡ₚ map bID bs) by (rewrite HO; by apply Permutation_map).
  split; [done|]. split_and!; [by right|done|done|done].
Qed.

Lemma loop_correct fuel i s : loop_inv s -> (measure s <= fuel)%nat ->
  match send_loop fuel w opts i s with
  | (s', Some PackFailed) => loop_inv s'
  | (s', None) | (s', Some Incomplete) => map oID (outs s') ≡ₚ map bID bs /\ batch_end s'
  | (s', Some e) => (e = NotWritten \/ e = NotSentErr) /\ batch_end s'
  end.
Proof using HN HPack.
  revert i s. induction fuel as [|fuel IH]; intros i s HI HM; cbn [send_loop].
  all: case_bool_decide as HL.
  1, 3: destruct (drained s HI ltac:(by destruct (remaining s))) as [? ?]; by destruct (incomplete s).
  - unfold measure in HM. lia.
  - assert (Hne : remaining s <> []) by (by destruct (remaining s)).
    pose proof (turn_correct i s HI Hne) as HT. destruct (turn w opts i s) as [s' [e|]]; [destruct e; cbn in HT; try done; (by destruct HT as [[|] _]) || (rewrite HT; exact HI)|].
    destruct HT as [HI' HM']. apply IH; [exact HI'|lia].
Qed.

End Loop.

Lemma request_ids_Ok opts l seen seen' : request_ids opts l seen = Ok seen' -> NoDup seen ->
  seen' = seen ++ map bRequestID (List.filter has_request l) /\ NoDup seen'.
Proof.
  revert seen. induction l as [|b l IH]; intros seen; cbn [request_ids List.filter]; [intros [= <-] HN; by rewrite app_nil_r|].
  unfold has_request at 1. case_bool_decide; cbn [negb]; [apply IH|]. destruct (hasJournal opts); cbn [negb]; [|done].
  destruct (in_list _ seen) eqn:EI; [done|]. intros HR HN. apply IH in HR as [-> HN']; [split; [by rewrite <- app_assoc|done]|].
  unfold in_list in EI. bool_prop. apply NoDup_app. split_and!; [done| |apply NoDup_singleton]. intros x Hx ->%list_elem_of_singleton. done.
Qed.

Lemma request_ids_Err opts l seen e : request_ids opts l seen = Err e -> e = NoJournal \/ e = DuplicateRequestID.
Proof.
  revert seen. induction l as [|b l IH]; intros seen; cbn [request_ids]; [done|]. case_bool_decide; [apply IH|].
  destruct (negb _); [intros [= <-]; by left|]. destruct (in_list _ _); [intros [= <-]; by right|apply IH].
Qed.

Lemma request_ids_no_panic opts l seen : request_ids opts l seen <> Panic.
Proof.
  revert seen. induction l as [|b l IH]; intros seen; cbn [request_ids]; [done|]. case_bool_decide; [apply IH|].
  destruct (negb _); [done|]. destruct (in_list _ _); [done|apply IH].
Qed.

(** ** Properties *)


(** C27: An item is decided by the answers to it in all chunks.  A success is the
    one answer, of the item's method, of a reply without an envelope error; an
    error is the one answer or the one envelope error; silence is final only for
    a complete reply, and anything answered twice or against itself is a
    conflict.  Whatever request id the item carried, it is safe to resend only
    after such an error, of a code other than INTERNAL and REQUEST_REUSED, and
    with a request id only after BAD_REQUEST. *)
Theorem reply_decides (items : list (gostring * gostring)) (L : list (gostring * DecodedChunk)) (i : Z) (o : ItemOutcome)
    (HO : o ∈ (outcomes (reply items L) i).1) :
  decided items L o /\
  forall rid pc, SafeToResend (set_call o rid pc) = true ->
    oState o = OutcomeError /\ exists e, oError o = Some e /\ reCode e <> ErrCodeInternal /\ reCode e <> ErrCodeRequestReused /\
      (reCode e = ErrCodeBadRequest \/ rid = []).
Proof.
  apply list_elem_of_fmap in HO as (id & -> & _). pose proof (item_decided items L i id) as HD. split; [done|].
  intros rid pc. unfold decided in HD. unfold SafeToResend. cbn [oState set_call Undecodable oError oRequestID].
  case_bool_decide as ES; cbn [negb orb]; [|done]. rewrite ES in HD. destruct HD as (e & He & _). rewrite He.
  destruct (Undecodable _); [done|]. case_bool_decide; [done|]. case_bool_decide; [done|]. cbn [orb].
  case_bool_decide as EB; [intros _|intros ER%bool_decide_eq_true]; split; try done; exists e; split_and!; try done; [by left|by right].
Qed.


(** ** Witnesses *)

Module BatchDemo.

#[local] Existing Instance toy_schnorr.
#[local] Existing Instance toy_lib.

Definition refusal : ResultError := mkResErr ErrCodeQuotaExceeded [] [].
Definition text1 : gostring := bs "refused".
Definition text2 : gostring := bs "second of two".
Definition text3 : gostring := bs "first of two".

Definition answer_b : Result := mkResult (bs "b") MethodCashStatus (bs "{b}") None.
Definition answer_c : Result := mkResult (bs "c") MethodCashStatus [] (Some (mkResErr ErrCodeNotFound [] [])).

(** Three chunks: an envelope refused, and a reply in two parts. *)
#[local] Instance demo_responses : ResponseJSON := {|
  UnmarshalResponse s :=
    if bool_decide (s = text1) then Some (mkResp (bs "n0") (Some refusal) None 1 1)
    else if bool_decide (s = text2) then Some (mkResp (bs "n1") None (Some [answer_c]) 2 2)
    else if bool_decide (s = text3) then Some (mkResp (bs "n1") None (Some [answer_b]) 1 2)
    else None;
|}.

Definition key : list byte := repeat x00 32.
Definition chunk_event (id text : gostring) : Event :=
  mkEvent id [] 1700000000 23191 [] (match Encrypt (repeat x01 32) text key with Ok s => s | _ => [] end) [].

Definition call : PendingCall :=
  mkCall (repeat "a"%byte 32) 0 MethodCashTransfer (bs "bill") [] 300 [] [] [] 5000 [] [] 0 [] false [] [] [] 0 [] [] [] 0 [].
Definition spend : Builder := mkBuilder (bs "a") MethodCashTransfer (repeat "a"%byte 32) false (Some (fun d => with_deadline call d [])).
Definition read_b : Builder := mkBuilder (bs "b") MethodCashStatus [] false None.
Definition read_c : Builder := mkBuilder (bs "c") MethodCashStatus [] false None.

(** Two items fit an envelope; the first envelope is refused under an old policy. *)
Definition world : World := mkWorld (fun _ l => Some (Nat.min 2 (length l))) (fun i => 1700000300 + Z.of_nat i)
  (fun i => if bool_decide (i = 0%nat) then bs "n0" else bs "n1") (fun _ => key) 65535 (fun _ _ => true)
  (fun i => if bool_decide (i = 0%nat) then SentReply [bs "r"] [chunk_event (bs "e1") text1]
            else SentReply [bs "r"] [chunk_event (bs "e2") text2; chunk_event (bs "e2") text2; chunk_event (bs "e3") text3])
  (fun _ => true).

Definition options : sendOptions := mkOpts true true (bs "phone") None.


Definition chunks : list (gostring * DecodedChunk) :=
  [(bs "e2", mkChunk (mkResp (bs "n1") None (Some [answer_c]) 2 2) [] []); (bs "e3", mkChunk (mkResp (bs "n1") None (Some [answer_b]) 1 2) [] [])].
Definition asked : list (gostring * gostring) := [(bs "b", MethodCashStatus); (bs "c", MethodCashStatus)].


Lemma reply_decides_witness :
  exists o, o ∈ (outcomes (reply asked chunks) 0).1 /\ SafeToResend o = true /\ decided asked chunks o.
Proof.
  exists (item_outcome (reply asked chunks) 0 (bs "c")). assert (HI : item_outcome (reply asked chunks) 0 (bs "c") ∈ (outcomes (reply asked chunks) 0).1).
  { apply list_elem_of_fmap_2. vm_compute. right. left. }
  split; [exact HI|]. split; [vm_compute; reflexivity|]. exact (proj1 (reply_decides asked chunks 0 _ HI)).
Defined.

(** When an item of a later envelope cannot be packed, it and those after it have
    no outcome, although an earlier envelope was published. *)
Lemma pack_failure_loses_items :
  let w := mkWorld (fun i l => if bool_decide (i = 0%nat) then Some 1%nat else None) (fun _ => 1700000300) (fun _ => bs "n0") (fun _ => key) 65535
             (fun _ _ => true) (fun _ => SentFailed) (fun _ => true) in
  let '(s, e) := sendBatch w options true true [spend; read_b; read_c] in
  e = Some PackFailed /\ map oID (outs s) = [bs "a"] /\ published_items (effects s) = [spend].
Proof. vm_compute. split_and!; reflexivity. Qed.

End BatchDemo.
