(* ===== verification/PocketEntry.v ===== *)
(** * nipCP: pocket entries

    [nipCP/entry.go]: an entry of a user's pocket (a bill held, or a call in
    flight), its validation, the kind 9525 rumor that carries it and the strict
    reader of one.  Every refusal of the code is the one error ErrEntry: [None],
    or [false], here. *)

From S2P Require Import Prelude GoLib Sha256 NostrUtils Pow Event Filter CashCall CashWithdraw CashWithdrawProps.

Definition KindPocketEntry : Z := 9525.

Abbreviation State := gostring (only parsing).
Definition StateLive : gostring := bs "live".
Definition StatePending : gostring := bs "pending".
Definition StateSpent : gostring := bs "spent".
Definition StateExpired : gostring := bs "expired".
Definition StateReclaimed : gostring := bs "reclaimed".
Definition StateDone : gostring := bs "done".
Definition StateUnknown : gostring := bs "unknown".

Definition Known (s : State) : bool := in_list s [StateLive; StatePending; StateSpent; StateExpired; StateReclaimed; StateDone; StateUnknown].
Definition Final (s : State) : bool := in_list s [StateSpent; StateExpired; StateReclaimed; StateDone].

Definition IdentityPubkey : gostring := bs "pubkey".
Definition IdentityConnectionKey : gostring := bs "connection_key".
Definition IdentityCash : gostring := bs "cash".

Record EntryIdentity := mkIdentity { iType : gostring; iValue : gostring; iIA : gostring }.
#[global] Instance EntryIdentity_eq_dec : EqDecision EntryIdentity.
Proof. solve_decision. Defined.

Definition no_identity : EntryIdentity := mkIdentity [] [] [].

Definition str_empty (s : gostring) : bool := bool_decide (s = []).

(** [lowerHex(s, n)]: n characters, any even number when n is 0. *)
Definition lowerHex (s : gostring) (n : Z) : bool :=
  negb (str_empty s || ((0 <? n) && negb (zlen s =? n)) || ((n =? 0) && negb (zlen s mod 2 =? 0))) && isLowerHex s.

Definition identity_tag (id : EntryIdentity) : tag :=
  if bool_decide (iType id = IdentityCash) then [bs "identity"; IdentityCash]
  else if bool_decide (iType id = IdentityConnectionKey) then [bs "identity"; iType id; iValue id; iIA id]
  else [bs "identity"; iType id; iValue id].

Definition identity_valid (id : EntryIdentity) : bool :=
  if bool_decide (iType id = IdentityPubkey) then lowerHex (iValue id) 64 && str_empty (iIA id)
  else if bool_decide (iType id = IdentityConnectionKey) then lowerHex (iValue id) 64 && lowerHex (iIA id) 64
  else if bool_decide (iType id = IdentityCash) then str_empty (iValue id) && str_empty (iIA id)
  else false.

Record Entry := mkEntry {
  eW : gostring; eRev : Z; eCash : gostring; eAmount : Z; eChain : gostring; eIdentity : EntryIdentity; eState : State; eCheckedAt : Z;
  eWrapKey : gostring; eExpiresAt : option Z; eMint : gostring; eSource : gostring; eSecrets : list PendingSecret; eRequestID : gostring;
  eDeadline : Z; eTarget : gostring; eDevice : gostring; eOrderKey : gostring; eNotify : gostring; eAddress : gostring; eQuote : gostring;
  eReceipt : gostring;
  (** read, never written *)
  eRumorID : gostring; eRumorCreatedAt : Z; eWrapID : gostring; eRawState : gostring;
}.
#[global] Instance Entry_eq_dec : EqDecision Entry.
Proof. solve_decision. Defined.

Definition IsCall (e : Entry) : bool := negb (str_empty (eRequestID e)).
Definition Recognised (e : Entry) : bool := Known (eState e).

(** ** Validation *)

Definition valid_common (e : Entry) : bool :=
  lowerHex (eW e) 0 && negb (eRev e =? 0) && Known (eState e) && (0 <? eCheckedAt e) && negb (eAmount e =? 0) && negb (str_empty (eChain e))
  && (str_empty (eWrapKey e) || lowerHex (eWrapKey e) 64)
  && match eExpiresAt e with Some t => 0 <? t | None => true end
  && (str_empty (eMint e) || lowerHex (eMint e) 66)
  && (str_empty (eSource e) || lowerHex (eSource e) 64).

Definition valid_secret (e : Entry) (s : PendingSecret) : bool :=
  ValidCashSecret (sSecret s)
  && (str_empty (sRole s) || bool_decide (sRole s = SecretRoleRemainder) || (bool_decide (sRole s = SecretRoleRemint) && IsCall e)).

Definition valid_call (e : Entry) : bool :=
  bool_decide (eW e = eRequestID e) && ValidRequestID (eRequestID e)
  && (bool_decide (eState e = StatePending) || bool_decide (eState e = StateDone))
  && (0 <? eDeadline e) && lowerHex (eTarget e) 64 && lowerHex (eDevice e) 0
  && str_empty (eCash e) && str_empty (iType (eIdentity e)) && bool_decide (eExpiresAt e = None)
  && (str_empty (eOrderKey e) || lowerHex (eOrderKey e) 64)
  && (str_empty (eNotify e) || lowerHex (eNotify e) 64)
  && Bool.eqb (str_empty (eAddress e)) (str_empty (eQuote e))
  && negb (negb (str_empty (eQuote e)) && str_empty (eNotify e))
  && negb (negb (str_empty (eReceipt e)) && str_empty (eQuote e)).

Definition valid_bill (e : Entry) : bool :=
  (eDeadline e =? 0) && str_empty (eTarget e) && str_empty (eDevice e) && str_empty (eOrderKey e) && str_empty (eNotify e)
  && str_empty (eAddress e) && str_empty (eQuote e) && str_empty (eReceipt e)
  && negb (bool_decide (eState e = StatePending) || bool_decide (eState e = StateDone))
  && identity_valid (eIdentity e) && lowerHex (eW e) 64 && negb (str_empty (eCash e) && negb (Final (eState e))).

Definition Validate (e : Entry) : bool :=
  valid_common e && forallb (valid_secret e) (eSecrets e) && (if IsCall e then valid_call e else valid_bill e).

(** ** Writing a rumor *)

Definition opt_tag (name v : gostring) : tags := if str_empty v then [] else [[name; v]].

Definition secret_tag (s : PendingSecret) : tag := if str_empty (sRole s) then [bs "secret"; sSecret s] else [bs "secret"; sSecret s; sRole s].

Definition rumor_tags (e : Entry) : tags :=
  [[bs "w"; eW e]; [bs "rev"; Dec.format_uint (eRev e)]]
  ++ opt_tag (bs "cash") (eCash e)
  ++ [[bs "amount"; Dec.format_uint (eAmount e)]; [bs "chain"; eChain e]]
  ++ (if str_empty (iType (eIdentity e)) then [] else [identity_tag (eIdentity e)])
  ++ [[bs "state"; eState e; FormatInt (eCheckedAt e)]]
  ++ opt_tag (bs "mint") (eMint e)
  ++ match eExpiresAt e with Some t => [[bs "expires_at"; FormatInt t]] | None => [] end
  ++ opt_tag (bs "source") (eSource e)
  ++ (if IsCall e then [[bs "request_id"; eRequestID e]; [bs "deadline"; FormatInt (eDeadline e)]; [bs "target"; eTarget e]; [bs "device"; eDevice e]] else [])
  ++ map secret_tag (eSecrets e)
  ++ opt_tag (bs "order_key") (eOrderKey e) ++ opt_tag (bs "notify") (eNotify e)
  ++ opt_tag (bs "address") (eAddress e) ++ opt_tag (bs "quote") (eQuote e) ++ opt_tag (bs "receipt") (eReceipt e)
  ++ [[bs "wrap_key"; eWrapKey e]].

(** ** Reading one *)

(** [parseUint] is nipcash's [canonicalUint]. *)
Definition parseUint (s : gostring) : option Z := canonicalUint s.
Definition parseInt (s : gostring) : option Z := n ← parseUint s; if 2 ^ 62 <? n then None else Some n.

Definition single_names : list gostring :=
  [bs "w"; bs "rev"; bs "cash"; bs "amount"; bs "chain"; bs "mint"; bs "expires_at"; bs "source"; bs "request_id"; bs "deadline"; bs "target";
   bs "device"; bs "order_key"; bs "notify"; bs "address"; bs "quote"; bs "receipt"; bs "wrap_key"; bs "identity"; bs "state"].

(** The integers are parsed as their tag is met. *)
Definition value_ok (name v : gostring) : bool :=
  if in_list name [bs "rev"; bs "amount"] then bool_decide (is_Some (parseUint v))
  else if in_list name [bs "expires_at"; bs "deadline"] then bool_decide (is_Some (parseInt v))
  else true.

(** The loop over the tags: the values of the single ones, and the secrets. *)
Fixpoint scan_tags (m : gmap gostring (list gostring)) (secrets : list PendingSecret) (ts : tags)
    : option (gmap gostring (list gostring) * list PendingSecret) :=
  match ts with
  | [] => Some (m, secrets)
  | [] :: ts => scan_tags m secrets ts
  | (name :: vs) :: ts =>
      if in_list name single_names then
        if bool_decide (is_Some (m !! name)) then None
        else match vs with
             | [] => None
             | v :: _ => if value_ok name v then scan_tags (<[name := vs]> m) secrets ts else None
             end
      else if bool_decide (name = bs "secret") then
        match vs with
        | [] => None
        | s :: r => scan_tags m (secrets ++ [mkSecret s (match r with role :: _ => role | [] => [] end)]) ts
        end
      else scan_tags m secrets ts
  end.

Definition field (m : gmap gostring (list gostring)) (name : gostring) (k : nat) : gostring := default [] (default [] (m !! name) !! k).
Definition uint_field (m : gmap gostring (list gostring)) (name : gostring) : Z := default 0 (parseUint (field m name 0)).
Definition has_field (m : gmap gostring (list gostring)) (name : gostring) : bool := bool_decide (is_Some (m !! name)).

Section Rumor.
Context {GoLower0 : GoLower}.

Definition Rumor (e : Entry) (user : gostring) (now : Z) : option Event :=
  if negb (Validate e) then None
  else if str_empty (eWrapKey e) then None
  else Some (Rehash (mkEvent [] user (u64 now) KindPocketEntry (rumor_tags e) [] [])).

Definition read_entry (m : gmap gostring (list gostring)) (secrets : list PendingSecret) (state : State) (checkedAt : Z) (raw rumorID : gostring)
    (createdAt : Z) : Entry :=
  mkEntry (field m (bs "w") 0) (uint_field m (bs "rev")) (field m (bs "cash") 0) (uint_field m (bs "amount")) (field m (bs "chain") 0)
    (mkIdentity (field m (bs "identity") 0) (field m (bs "identity") 1) (field m (bs "identity") 2)) state checkedAt (field m (bs "wrap_key") 0)
    (if has_field m (bs "expires_at") then parseInt (field m (bs "expires_at") 0) else None)
    (field m (bs "mint") 0) (field m (bs "source") 0) secrets (field m (bs "request_id") 0) (uint_field m (bs "deadline")) (field m (bs "target") 0)
    (field m (bs "device") 0) (field m (bs "order_key") 0) (field m (bs "notify") 0) (field m (bs "address") 0) (field m (bs "quote") 0)
    (field m (bs "receipt") 0) rumorID createdAt [] raw.

Definition ParseRumor (ev : Event) : option Entry :=
  if negb (Kind ev =? KindPocketEntry) || negb (str_empty (Sig ev)) then None
  else
    let id := Hex.encode (HashID ev) in
    if negb (str_empty (ID ev)) && negb (bool_decide (ID ev = id)) then None
    else
      '(m, secrets) ← scan_tags ∅ [] (Tags ev);
      let entry state t raw := read_entry m secrets state t raw id (s64 (CreatedAt ev)) in
      if str_empty (field m (bs "w") 0) || negb (has_field m (bs "rev")) || negb (has_field m (bs "state")) then None
      else if negb (lowerHex (field m (bs "w") 0) 0) || (uint_field m (bs "rev") =? 0) then None
      else
        let st := field m (bs "state") 0 in
        if negb (Known st) then Some (entry [] 0 st)
        else if zlen (default [] (m !! bs "state")) <? 2 then None
        else
          at' ← parseInt (field m (bs "state") 1);
          if negb (has_field m (bs "amount")) || negb (has_field m (bs "chain")) || str_empty (field m (bs "wrap_key") 0) then None
          else let e := entry st at' [] in if Validate e then Some e else None.

End Rumor.

(** * nipCP: an entry survives its rumor

    What the strict reader returns for the rumor of a valid entry, and that what it
    returns is valid. *)

(** ** The tags by name *)

Definition opt_pair (name v : gostring) : gostring * list gostring := (name, if str_empty v then [] else [v]).

Definition pairs_before (e : Entry) : list (gostring * list gostring) :=
  [(bs "w", [eW e]); (bs "rev", [Dec.format_uint (eRev e)]); opt_pair (bs "cash") (eCash e); (bs "amount", [Dec.format_uint (eAmount e)]);
   (bs "chain", [eChain e]); (bs "identity", if str_empty (iType (eIdentity e)) then [] else tail (identity_tag (eIdentity e)));
   (bs "state", [eState e; FormatInt (eCheckedAt e)]); opt_pair (bs "mint") (eMint e);
   (bs "expires_at", match eExpiresAt e with Some t => [FormatInt t] | None => [] end); opt_pair (bs "source") (eSource e);
   (bs "request_id", if IsCall e then [eRequestID e] else []); (bs "deadline", if IsCall e then [FormatInt (eDeadline e)] else []);
   (bs "target", if IsCall e then [eTarget e] else []); (bs "device", if IsCall e then [eDevice e] else [])].

Definition pairs_after (e : Entry) : list (gostring * list gostring) :=
  [opt_pair (bs "order_key") (eOrderKey e); opt_pair (bs "notify") (eNotify e); opt_pair (bs "address") (eAddress e);
   opt_pair (bs "quote") (eQuote e); opt_pair (bs "receipt") (eReceipt e); (bs "wrap_key", [eWrapKey e])].

Definition pairs (e : Entry) : list (gostring * list gostring) := pairs_after e ++ pairs_before e.

Definition kept (ps : list (gostring * list gostring)) : list (gostring * list gostring) := List.filter (fun p => negb (bool_decide (p.2 = []))) ps.

(** The tags of one pair. *)
Definition piece (p : gostring * list gostring) : tags := if bool_decide (p.2 = []) then [] else [as_tag p].

Lemma kept_cons p ps : map as_tag (kept (p :: ps)) = piece p ++ map as_tag (kept ps).
Proof. unfold kept, piece. cbn [List.filter]. by destruct (bool_decide (p.2 = [])). Qed.

Lemma piece_full name v vs : piece (name, v :: vs) = [name :: v :: vs].
Proof. done. Qed.

Lemma piece_opt name v : piece (opt_pair name v) = opt_tag name v.
Proof. unfold opt_pair, opt_tag. by destruct (str_empty v). Qed.

Lemma piece_if (b : bool) name v : piece (name, if b then [v] else []) = if b then [[name; v]] else [].
Proof. by destruct b. Qed.

Lemma piece_expires name (o : option Z) : piece (name, match o with Some t => [FormatInt t] | None => [] end) = match o with Some t => [[name; FormatInt t]] | None => [] end.
Proof. by destruct o. Qed.

Lemma piece_identity id :
  piece (bs "identity", if str_empty (iType id) then [] else tail (identity_tag id)) = if str_empty (iType id) then [] else [identity_tag id].
Proof. destruct (str_empty _); [done|]. unfold identity_tag. by repeat case_bool_decide. Qed.

Lemma rumor_tags_kept e : rumor_tags e = map as_tag (kept (pairs_before e)) ++ map secret_tag (eSecrets e) ++ map as_tag (kept (pairs_after e)).
Proof.
  unfold rumor_tags, pairs_before, pairs_after. rewrite !kept_cons, !piece_full, !piece_opt, !piece_if, piece_expires, piece_identity.
  destruct (IsCall e); cbn [map kept List.filter]; repeat (rewrite <- ?app_assoc; cbn [app]); reflexivity.
Qed.

(** ** What the scan reads *)

Definition readable (p : gostring * list gostring) : Prop :=
  in_list p.1 single_names = true /\ match p.2 with [] => False | v :: _ => value_ok p.1 v = true end.

Lemma scan_pairs ps m secrets rest : Forall readable ps -> NoDup ps.*1 -> (forall n, n ∈ ps.*1 -> m !! n = None) ->
  scan_tags m secrets (map as_tag ps ++ rest) = scan_tags (list_to_map ps ∪ m) secrets rest.
Proof.
  revert m. induction ps as [|[n vs] ps IH]; intros m HF HN HM; cbn [map app as_tag fst snd].
  - cbn. by rewrite (left_id_L ∅ (∪)).
  - apply Forall_cons in HF as [[H1 H2] HF]. cbn in HN. apply NoDup_cons in HN as [Hn HN]. cbn [fst snd] in H1, H2. unfold as_tag. cbn [fst snd scan_tags].
    rewrite H1. rewrite bool_decide_false by (rewrite HM by (cbn; set_solver); by intros []). destruct vs as [|v vs]; [done|]. rewrite H2.
    rewrite IH; [|done|done|].
    + cbn. f_equal. rewrite <- insert_union_r; [by rewrite insert_union_l|]. by apply not_elem_of_list_to_map_1.
    + intros n' Hn'. rewrite lookup_insert_ne; [apply HM; cbn; set_solver|]. by intros ->.
Qed.

Lemma scan_secrets ss m secrets rest : scan_tags m secrets (map secret_tag ss ++ rest) = scan_tags m (secrets ++ ss) rest.
Proof.
  revert secrets. induction ss as [|[s r] ss IH]; intros secrets; cbn [map app]; [by rewrite app_nil_r|].
  unfold secret_tag at 1. cbn [sSecret sRole].
  assert (HS : in_list (bs "secret") single_names = false) by (vm_compute; reflexivity).
  unfold str_empty. case_bool_decide as HR; cbn [scan_tags]; rewrite HS, bool_decide_true by done; rewrite IH, <- app_assoc; [by subst|done].
Qed.

Lemma kept_readable ps : Forall (fun p => in_list p.1 single_names = true /\ match p.2 with [] => True | v :: _ => value_ok p.1 v = true end) ps -> Forall readable (kept ps).
Proof.
  intros HF. apply Forall_forall. intros p Hp. apply list_elem_of_In, List.filter_In in Hp as [Hp Hne]. apply list_elem_of_In in Hp.
  rewrite Forall_forall in HF. destruct (HF p Hp) as [H1 H2]. split; [done|]. apply negb_true_iff, bool_decide_eq_false in Hne. by destruct (p.2).
Qed.

Lemma kept_names ps : (kept ps).*1 ⊆+ ps.*1.
Proof.
  induction ps as [|[n vs] ps IH]; cbn; [done|]. unfold kept in *. cbn [List.filter snd]. destruct (negb _); cbn; [by apply submseteq_skip|by apply submseteq_cons].
Qed.

Lemma kept_NoDup ps : NoDup ps.*1 -> NoDup (kept ps).*1.
Proof. intros HN. destruct (submseteq_Permutation _ _ (kept_names ps)) as [k HP]. rewrite HP in HN. by apply NoDup_app in HN as (HN & _). Qed.

Lemma kept_app ps qs : kept (ps ++ qs) = kept ps ++ kept qs.
Proof. apply List.filter_app. Qed.

Lemma lookup_kept ps n vs : NoDup ps.*1 -> (n, vs) ∈ ps -> (list_to_map (kept ps) : gmap gostring (list gostring)) !! n = if bool_decide (vs = []) then None else Some vs.
Proof.
  intros HN Hin. case_bool_decide as HE.
  - apply not_elem_of_list_to_map_1. intros (p & -> & Hp)%list_elem_of_fmap. apply list_elem_of_In, List.filter_In in Hp as [Hp Hne]. apply list_elem_of_In in Hp.
    destruct p as [n' vs']. pose proof (elem_of_list_to_map_1 (M := gmap gostring) ps n' vs' HN Hp) as L1. rewrite (elem_of_list_to_map_1 ps n' vs HN Hin) in L1.
    injection L1 as ->. by rewrite bool_decide_true in Hne.
  - apply elem_of_list_to_map_1; [by apply kept_NoDup|]. apply list_elem_of_In, List.filter_In. split; [by apply list_elem_of_In|]. by apply negb_true_iff, bool_decide_eq_false.
Qed.

Lemma field_kept ps n vs k : NoDup ps.*1 -> (n, vs) ∈ ps -> field (list_to_map (kept ps)) n k = default [] (vs !! k).
Proof. intros HN Hin. unfold field. rewrite (lookup_kept ps n vs) by done. case_bool_decide as HE; [by rewrite HE|done]. Qed.

Lemma has_field_kept ps n vs : NoDup ps.*1 -> (n, vs) ∈ ps -> has_field (list_to_map (kept ps)) n = negb (bool_decide (vs = [])).
Proof.
  intros HN Hin. unfold has_field. rewrite (lookup_kept ps n vs) by done. destruct (decide (vs = [])) as [HE|HE].
  - rewrite (bool_decide_true (vs = [])) by done. by apply bool_decide_false; intros [].
  - rewrite (bool_decide_false (vs = [])) by done. by apply bool_decide_true; eexists.
Qed.

(** ** The round trip *)

(** The ranges the rumor's decimals carry, and the fields it does not write. *)
Definition writable (e : Entry) : Prop :=
  0 <= eRev e < 2 ^ 64 /\ 0 <= eAmount e < 2 ^ 64 /\ eCheckedAt e <= 2 ^ 62 /\ eDeadline e <= 2 ^ 62 /\
  (forall t, eExpiresAt e = Some t -> t <= 2 ^ 62) /\ (iType (eIdentity e) = [] -> eIdentity e = no_identity) /\
  eRumorID e = [] /\ eRumorCreatedAt e = 0 /\ eWrapID e = [] /\ eRawState e = [].

(** The entry as a reader gets it. *)
Definition as_read (e : Entry) (rumorID : gostring) (createdAt : Z) : Entry :=
  mkEntry (eW e) (eRev e) (eCash e) (eAmount e) (eChain e) (eIdentity e) (eState e) (eCheckedAt e) (eWrapKey e) (eExpiresAt e) (eMint e) (eSource e)
    (eSecrets e) (eRequestID e) (eDeadline e) (eTarget e) (eDevice e) (eOrderKey e) (eNotify e) (eAddress e) (eQuote e) (eReceipt e)
    rumorID createdAt [] [].

Lemma pairs_NoDup e : NoDup (pairs e).*1.
Proof. change ((pairs e).*1) with [bs "order_key"; bs "notify"; bs "address"; bs "quote"; bs "receipt"; bs "wrap_key"; bs "w"; bs "rev"; bs "cash"; bs "amount"; bs "chain"; bs "identity"; bs "state"; bs "mint"; bs "expires_at"; bs "source"; bs "request_id"; bs "deadline"; bs "target"; bs "device"]. by apply (bool_decide_unpack _). Qed.

Lemma parseUint_format n : 0 <= n < 2 ^ 64 -> parseUint (Dec.format_uint n) = Some n.
Proof. apply canonicalUint_format. Qed.

Lemma parseInt_format n : 0 <= n <= 2 ^ 62 -> parseInt (FormatInt n) = Some n.
Proof.
  intros Hn. unfold parseInt. rewrite FormatInt_nonneg, parseUint_format by lia. cbn [mbind option_bind]. by rewrite (proj2 (Z.ltb_ge _ _)) by lia.
Qed.

Lemma valid_parts e : Validate e = true ->
  lowerHex (eW e) 0 = true /\ eRev e <> 0 /\ Known (eState e) = true /\ 0 < eCheckedAt e /\ eChain e <> [] /\ (forall t, eExpiresAt e = Some t -> 0 < t) /\
  (IsCall e = true -> eW e = eRequestID e /\ 0 < eDeadline e /\ eCash e = [] /\ iType (eIdentity e) = [] /\ eExpiresAt e = None) /\
  (IsCall e = false -> eDeadline e = 0 /\ eTarget e = [] /\ eDevice e = [] /\ identity_valid (eIdentity e) = true).
Proof.
  unfold Validate, valid_common, valid_call, valid_bill. intros H. destruct (IsCall e) eqn:EC; bool_prop; unfold str_empty in *; bool_prop.
  - split_and!; try done. intros t Ht. rewrite Ht in *. by bool_prop.
  - split_and!; try done. intros t Ht. rewrite Ht in *. by bool_prop.
Qed.

Ltac in_pairs := cbn [pairs pairs_after pairs_before app]; repeat first [apply list_elem_of_here | apply list_elem_of_further].

Lemma pairs_readable e : writable e -> Validate e = true ->
  Forall (fun p => in_list p.1 single_names = true /\ match p.2 with [] => True | v :: _ => value_ok p.1 v = true end) (pairs e).
Proof.
  intros (HR & HA & _ & HD & HX & _) (_ & _ & _ & _ & _ & HX0 & HC & _)%valid_parts.
  assert (HV : forall n v, in_list n [bs "rev"; bs "amount"; bs "expires_at"; bs "deadline"] = false -> value_ok n v = true).
  { intros n v Hn. unfold value_ok, in_list in *. apply bool_decide_eq_false in Hn. rewrite !bool_decide_false by set_solver. done. }
  assert (HU : forall n v, n = bs "rev" \/ n = bs "amount" -> 0 <= v < 2 ^ 64 -> value_ok n (Dec.format_uint v) = true).
  { intros n v Hn Hv. unfold value_ok. rewrite (parseUint_format v Hv). destruct Hn as [->| ->]; reflexivity. }
  assert (HI : forall n v, n = bs "expires_at" \/ n = bs "deadline" -> 0 <= v <= 2 ^ 62 -> value_ok n (FormatInt v) = true).
  { intros n v Hn Hv. unfold value_ok. rewrite (parseInt_format v Hv). destruct Hn as [->| ->]; reflexivity. }
  assert (HO : forall n v, in_list n single_names = true -> in_list n [bs "rev"; bs "amount"; bs "expires_at"; bs "deadline"] = false ->
    in_list (opt_pair n v).1 single_names = true /\ match (opt_pair n v).2 with [] => True | x :: _ => value_ok (opt_pair n v).1 x = true end).
  { intros n v Hn Hn'. split; [done|]. unfold opt_pair. cbn [snd fst]. destruct (str_empty v); [done|]. by apply HV. }
  unfold pairs, pairs_after, pairs_before. cbn [app].
  repeat (apply Forall_cons; split; [try (apply HO; reflexivity); try (split; [reflexivity|]; cbn [snd fst])|]); [..|apply Forall_nil].
  all: try (by apply HV). all: try (apply HU; [by (left + right)|done]).
  - destruct (str_empty _); [done|]. unfold identity_tag. repeat case_bool_decide; cbn [tail]; by apply HV.
  - destruct (eExpiresAt e) as [t|] eqn:ET; [|done]. apply HI; [by left|]. specialize (HX t eq_refl). specialize (HX0 t eq_refl). lia.
  - destruct (IsCall e); [by apply HV|done].
  - destruct (IsCall e) eqn:EC; [|done]. apply HI; [by right|]. destruct (HC eq_refl) as (_ & H & _). lia.
  - destruct (IsCall e); [by apply HV|done].
  - destruct (IsCall e); [by apply HV|done].
  - done.
Qed.

Lemma scan_rumor e : writable e -> Validate e = true -> scan_tags ∅ [] (rumor_tags e) = Some (list_to_map (kept (pairs e)), eSecrets e).
Proof.
  intros HW HV. pose proof (pairs_readable e HW HV) as HR. pose proof (pairs_NoDup e) as HN. unfold pairs in *.
  apply Forall_app in HR as [HRa HRb]. rewrite fmap_app in HN. apply NoDup_app in HN as (HNa & HD & HNb).
  rewrite rumor_tags_kept, scan_pairs by (try apply kept_readable; try apply kept_NoDup; done). rewrite scan_secrets. cbn [app].
  rewrite <- (app_nil_r (map as_tag (kept (pairs_after e)))), scan_pairs; [|by apply kept_readable|by apply kept_NoDup|].
  - cbn [scan_tags]. by rewrite (right_id_L ∅ (∪)), kept_app, list_to_map_app.
  - intros n Hn. rewrite (right_id_L ∅ (∪)). apply not_elem_of_list_to_map_1. intros Hb. apply (HD n); [eapply elem_of_submseteq; [exact Hn|apply kept_names]|].
    eapply elem_of_submseteq; [exact Hb|apply kept_names].
Qed.

(** The elements of an identity's tag are its parts. *)
Lemma identity_values id : identity_valid id = true ->
  let vs := tail (identity_tag id) in mkIdentity (default [] (vs !! 0%nat)) (default [] (vs !! 1%nat)) (default [] (vs !! 2%nat)) = id.
Proof.
  destruct id as [ty v ia]. unfold identity_valid, identity_tag. cbn [iType iValue iIA]. intros HV. destruct (decide (ty = IdentityPubkey)) as [->|H1].
  { rewrite bool_decide_true in HV by done. bool_prop. unfold str_empty in *. bool_prop. by subst ia. }
  rewrite bool_decide_false in HV by done. destruct (decide (ty = IdentityConnectionKey)) as [->|H2]; [done|].
  rewrite bool_decide_false in HV by done. destruct (decide (ty = IdentityCash)) as [->|H3]; [|by rewrite bool_decide_false in HV].
  rewrite bool_decide_true in HV by done. bool_prop. unfold str_empty in *. bool_prop. by subst.
Qed.

Lemma read_entry_kept e state checked raw rumorID createdAt : writable e -> Validate e = true -> state = eState e -> checked = eCheckedAt e -> raw = [] ->
  read_entry (list_to_map (kept (pairs e))) (eSecrets e) state checked raw rumorID createdAt = as_read e rumorID createdAt.
Proof.
  intros HW HV -> -> ->. pose proof (valid_parts e HV) as (_ & _ & _ & _ & _ & HX0 & HC & HB). destruct HW as (HR & HA & _ & HD & HX & HI & _).
  assert (F : forall n vs k, (n, vs) ∈ pairs e -> field (list_to_map (kept (pairs e))) n k = default [] (vs !! k)) by (intros; apply field_kept; [apply pairs_NoDup|done]).
  assert (FF : forall n v vs, (n, v :: vs) ∈ pairs e -> field (list_to_map (kept (pairs e))) n 0 = v) by (intros n v vs Hin; by rewrite (F n (v :: vs) 0%nat Hin)).
  assert (FO : forall n v, opt_pair n v ∈ pairs e -> field (list_to_map (kept (pairs e))) n 0 = v).
  { intros n v Hin. rewrite (F n (if str_empty v then [] else [v])) by done. unfold str_empty. by case_bool_decide; subst. }
  assert (FC : forall n v, (n, if IsCall e then [v] else []) ∈ pairs e -> (IsCall e = false -> v = []) -> field (list_to_map (kept (pairs e))) n 0 = v).
  { intros n v Hin Hv. rewrite (F _ _ _ Hin). destruct (IsCall e); [done|]. by rewrite Hv. }
  unfold read_entry, as_read, uint_field.
  rewrite (FF (bs "w") (eW e) []), (FF (bs "rev") (Dec.format_uint (eRev e)) []), (FO (bs "cash") (eCash e)), (FF (bs "amount") (Dec.format_uint (eAmount e)) []),
    (FF (bs "chain") (eChain e) []), (FO (bs "mint") (eMint e)), (FO (bs "source") (eSource e)), (FF (bs "wrap_key") (eWrapKey e) []) by in_pairs.
  rewrite (FC (bs "request_id") (eRequestID e)), (FC (bs "target") (eTarget e)), (FC (bs "device") (eDevice e))
    by (try in_pairs; try (by apply HB); unfold IsCall, str_empty; intros HN; by bool_prop).
  rewrite (FO (bs "order_key") (eOrderKey e)), (FO (bs "notify") (eNotify e)), (FO (bs "address") (eAddress e)), (FO (bs "quote") (eQuote e)),
    (FO (bs "receipt") (eReceipt e)) by in_pairs.
  rewrite !parseUint_format by done. cbn [default from_option id].
  assert (HIdent : mkIdentity (field (list_to_map (kept (pairs e))) (bs "identity") 0) (field (list_to_map (kept (pairs e))) (bs "identity") 1)
                     (field (list_to_map (kept (pairs e))) (bs "identity") 2) = eIdentity e).
  { rewrite !(F (bs "identity") (if str_empty (iType (eIdentity e)) then [] else tail (identity_tag (eIdentity e)))) by in_pairs.
    unfold str_empty. case_bool_decide as HT; [by rewrite (HI HT)|]. destruct (IsCall e) eqn:EC; [by destruct (HC eq_refl) as (_ & _ & _ & H & _)|].
    destruct (HB eq_refl) as (_ & _ & _ & HIV). by apply identity_values. }
  rewrite HIdent.
  assert (HExp : (if has_field (list_to_map (kept (pairs e))) (bs "expires_at") then parseInt (field (list_to_map (kept (pairs e))) (bs "expires_at") 0) else None) = eExpiresAt e).
  { rewrite (has_field_kept _ _ (match eExpiresAt e with Some t => [FormatInt t] | None => [] end)), (F (bs "expires_at") (match eExpiresAt e with Some t => [FormatInt t] | None => [] end))
      by (apply pairs_NoDup || in_pairs).
    destruct (eExpiresAt e) as [t|]; [|done]. cbn. rewrite parseInt_format; [done|]. specialize (HX t eq_refl). specialize (HX0 t eq_refl). lia. }
  rewrite HExp.
  assert (HDl : default 0 (parseUint (field (list_to_map (kept (pairs e))) (bs "deadline") 0)) = eDeadline e).
  { rewrite (F (bs "deadline") (if IsCall e then [FormatInt (eDeadline e)] else [])) by in_pairs. destruct (IsCall e) eqn:EC.
    - destruct (HC eq_refl) as (_ & H & _). cbn. rewrite FormatInt_nonneg, parseUint_format by lia. done.
    - by destruct (HB eq_refl) as (-> & _). }
  by rewrite HDl.
Qed.

Lemma as_read_valid e rumorID createdAt : Validate (as_read e rumorID createdAt) = Validate e.
Proof. reflexivity. Qed.

Section Rumor.
Context {GoLower0 : GoLower}.

Lemma rumor_reads_back e user now ev : writable e -> 0 <= now < 2 ^ 63 -> Rumor e user now = Some ev ->
  ParseRumor ev = Some (as_read e (ID ev) now) /\ PubKey ev = user /\ Kind ev = KindPocketEntry /\ Sig ev = [].
Proof.
  intros HW Hn HR.
  unfold Rumor in HR. destruct (Validate e) eqn:HV; [|done]. cbn [negb] in HR. unfold str_empty in HR at 1. case_bool_decide as HK; [done|]. injection HR as <-.
  pose proof (valid_parts e HV) as (H1 & H2 & H3 & H4 & H5 & _). pose proof HW as (HR & _ & HCk & _).
  set (ev := Rehash _). split; [|done]. unfold ParseRumor. change (Kind ev =? KindPocketEntry) with true. change (Sig ev) with (@nil byte).
  change (str_empty []) with true. cbn [negb orb].
  change (Hex.encode (HashID ev)) with (ID ev). rewrite (bool_decide_true (ID ev = ID ev)) by done. rewrite andb_false_r.
  change (Tags ev) with (rumor_tags e). rewrite (scan_rumor e HW HV). cbn [mbind option_bind].
  set (M := list_to_map (kept (pairs e))).
  assert (F : forall n vs k, (n, vs) ∈ pairs e -> field M n k = default [] (vs !! k)) by (intros; apply field_kept; [apply pairs_NoDup|done]).
  assert (FF : forall n v vs, (n, v :: vs) ∈ pairs e -> field M n 0 = v) by (intros n v vs Hin; by rewrite (F n (v :: vs) 0%nat Hin)).
  assert (HF : forall n v vs, (n, v :: vs) ∈ pairs e -> has_field M n = true) by (intros n v vs Hin; unfold M; by rewrite (has_field_kept _ n (v :: vs)); [|apply pairs_NoDup|]).
  assert (HSt : M !! bs "state" = Some [eState e; FormatInt (eCheckedAt e)])
    by (unfold M; rewrite (lookup_kept _ _ [eState e; FormatInt (eCheckedAt e)]); [done|apply pairs_NoDup|in_pairs]).
  rewrite (HF (bs "rev") (Dec.format_uint (eRev e)) []), (HF (bs "state") (eState e) [FormatInt (eCheckedAt e)]), (HF (bs "amount") (Dec.format_uint (eAmount e)) []),
    (HF (bs "chain") (eChain e) []) by in_pairs.
  unfold uint_field. rewrite (FF (bs "w") (eW e) []), (FF (bs "rev") (Dec.format_uint (eRev e)) []), (FF (bs "wrap_key") (eWrapKey e) []),
    (FF (bs "state") (eState e) [FormatInt (eCheckedAt e)]), (F (bs "state") [eState e; FormatInt (eCheckedAt e)] 1%nat), HSt by in_pairs.
  change (default [] ([eState e; FormatInt (eCheckedAt e)] !! 1%nat)) with (FormatInt (eCheckedAt e)). cbn [default from_option zlen length]. rewrite parseUint_format by done. cbn [default from_option id].
  assert (HWn : str_empty (eW e) = false) by (unfold lowerHex in H1; destruct (str_empty (eW e)); done). rewrite HWn, H1, H3. cbn [negb orb].
  destruct (Z.eqb_spec (eRev e) 0); [done|]. change (Z.of_nat 2 <? 2) with false. cbn [orb]. rewrite parseInt_format by lia. cbn [mbind option_bind].
  unfold str_empty. rewrite bool_decide_false by done. rewrite (read_entry_kept e); [|done..]. rewrite as_read_valid, HV.
  change (CreatedAt ev) with (u64 now). by rewrite wrap_small, s64_small by lia.
Qed.

(** the pocket survives its relays: the rumor of a valid entry (a bill held,
    a tombstone's, or a call in flight, with its secrets, quote and receipt)
    reads back as that entry, with the rumor's id and time, whoever the user. *)
Theorem entry_roundtrip (e : Entry) (user : gostring) (now : Z) (ev : Event)
    (HW : writable e) (Hn : 0 <= now < 2 ^ 63) (HR : Rumor e user now = Some ev) :
  ParseRumor ev = Some (as_read e (ID ev) now) /\ PubKey ev = user /\ Kind ev = KindPocketEntry /\ Sig ev = [].
Proof. by apply rumor_reads_back. Qed.

(** what the strict reader lets into the pocket is valid: an unsigned rumor of
    kind 9525 whose id is its own hash; with a state this reader knows, the entry
    passes every check for writing and carries its wrap key. *)
Theorem parsed_is_valid (ev : Event) (e : Entry) (HP : ParseRumor ev = Some e) :
  Kind ev = KindPocketEntry /\ Sig ev = [] /\ eRumorID e = Hex.encode (HashID ev) /\ (ID ev = [] \/ ID ev = eRumorID e) /\
  lowerHex (eW e) 0 = true /\ eRev e <> 0 /\
  (Recognised e = true -> Validate e = true /\ eWrapKey e <> [] /\ eRawState e = []) /\
  (Recognised e = false -> eState e = [] /\ Known (eRawState e) = false).
Proof.
  unfold ParseRumor in HP. destruct (negb (Kind ev =? KindPocketEntry) || _) eqn:E1; [done|]. apply orb_false_iff in E1 as [EK ES].
  destruct (negb (str_empty (ID ev)) && _) eqn:E2; [done|]. destruct (scan_tags ∅ [] (Tags ev)) as [[m secrets]|]; [|done]. cbn [mbind option_bind] in HP.
  destruct (str_empty (field m (bs "w") 0) || _ || _) eqn:E3; [done|]. destruct (negb (lowerHex _ 0) || _) eqn:E4; [done|]. apply orb_false_iff in E4 as [EW ER].
  bool_prop. unfold str_empty in *. bool_prop.
  assert (HI : ID ev = [] \/ ID ev = Hex.encode (HashID ev)) by (apply andb_false_iff in E2 as [E2|E2]; bool_prop; [by left|by right]).
  destruct (Known (field m (bs "state") 0)) eqn:EKn; cbn [negb] in HP.
  - destruct (_ <? 2); [done|]. destruct (parseInt _) as [at'|]; [|done]. cbn [mbind option_bind] in HP. destruct (_ || _ || _) eqn:E5; [done|].
    destruct (Validate _) eqn:EV; [|done]. injection HP as <-. bool_prop. split_and!; try done. unfold Recognised. cbn [eState read_entry]. by rewrite EKn.
  - injection HP as <-. by split_and!.
Qed.

End Rumor.
