(* ===== verification/PocketState.v ===== *)
(** * nipCP: the state of a pocket

    [nipCP/resolve.go] (which entry of a bill is current), [balance.go] (states,
    balances and rewrites), [pending.go] (what a call's outcome writes),
    [order.go] and [withdraw.go] (orders and withdrawals), with the order states
    of [nipCO/state.go] and [nipCO/client/finished.go].  The clock and the random
    bytes are arguments. *)

From S2P Require Import Prelude GoLib Sha256 NostrUtils Pow Event Filter CashCall CashWithdraw CashPayout CashRecover PocketEntry.

Inductive PocketErr := ErrEntry | ErrMethod | ErrNotPending | ErrLookup | ErrOrderIdentity | ErrReceipt (e : ReceiptErr).

(** ** Versions *)

Definition NextVersion (all : list Entry) (w : gostring) : Z :=
  u64 (foldl (fun max e => if bool_decide (eW e = w) && (max <? eRev e) then eRev e else max) 0 all + 1).

(** ** Resolving *)

Definition beats (a b : Entry) : bool :=
  let af := Final (eState a) in let bf := Final (eState b) in
  if negb (Bool.eqb af bf) then af
  else if negb (eRumorCreatedAt a =? eRumorCreatedAt b) then eRumorCreatedAt b <? eRumorCreatedAt a
  else Cmp.ltb (eRumorID a) (eRumorID b).

(** The winners, and per bill the rumors of its winning revision. *)
Record Resolution := mkRes { winners : gmap gostring Entry; rivals : gmap gostring (gset gostring) }.

Definition resolve_step (r : Resolution) (e : Entry) : Resolution :=
  if negb (Recognised e) then r
  else match winners r !! eW e with
  | None => mkRes (<[eW e := e]> (winners r)) (<[eW e := {[ eRumorID e ]}]> (rivals r))
  | Some cur =>
      if eRev cur <? eRev e then mkRes (<[eW e := e]> (winners r)) (<[eW e := {[ eRumorID e ]}]> (rivals r))
      else if eRev e =? eRev cur then
        mkRes (if beats e cur then <[eW e := e]> (winners r) else winners r)
              (<[eW e := {[ eRumorID e ]} ∪ default ∅ (rivals r !! eW e)]> (rivals r))
      else r
  end.

Definition str_le (a b : gostring) : Prop := Cmp.ltb b a = false.
#[global] Instance str_le_dec : RelDecision str_le.
Proof. intros a b. unfold str_le. apply _. Defined.

Definition conflicts (r : Resolution) : list gostring :=
  merge_sort str_le (map fst (List.filter (fun p : gostring * gset gostring => 1 <? Z.of_nat (size p.2)) (map_to_list (rivals r)))).

Definition Resolve (all : list Entry) : Resolution := foldl resolve_step (mkRes ∅ ∅) all.

(** [DerivedEntryExists]: any entry of this w, whatever its state. *)
Definition EntryExists (raw : list Entry) (id : gostring) : bool := existsb (fun e => bool_decide (eW e = id)) raw.

(** ** States and balances *)

Record StatusInput := mkStatus { siTombstone : option Tombstone; NotFound : bool; ProofByEntryKey : bool; OwnSpend : bool; NoAnswer : bool }.

Definition MapStatus (i : StatusInput) : gostring * bool :=
  if OwnSpend i then (StateSpent, true)
  else match siTombstone i with
  | Some t =>
      if bool_decide (Reason t = ReasonExpired) then (StateExpired, true)
      else if bool_decide (Reason t = ReasonReclaimed) then (StateReclaimed, true)
      else (StateSpent, true)
  | None => if NotFound i && ProofByEntryKey i then (StateReclaimed, true) else (StateUnknown, false)
  end.

Definition tombstone_state (t : Tombstone) : gostring := (MapStatus (mkStatus (Some t) false false false false)).1.

(** The sum saturates at the largest uint64. *)
Definition balance_step (out : gmap gostring Z) (e : Entry) : gmap gostring Z :=
  if bool_decide (eState e = StateLive) then
    let '(sum, carry) := Add64 (default 0 (out !! eChain e)) (eAmount e) 0 in
    <[eChain e := if negb (carry =? 0) then 2 ^ 64 - 1 else sum]> out
  else out.

(** Go visits the winners in any order: [es] is the order of this run. *)
Definition Balance (es : list Entry) : gmap gostring Z := foldl balance_step ∅ es.

Definition ExpiresSoon (e : Entry) (now within : Z) : bool :=
  bool_decide (eState e = StateLive) && match eExpiresAt e with Some t => t <=? now + within | None => false end.
Definition NeedsRekey (e : Entry) : bool := bool_decide (eState e = StateLive) && bool_decide (iType (eIdentity e) = IdentityCash).
Definition NeedsExpiry (e : Entry) : bool := bool_decide (eState e = StateLive) && negb (str_empty (eCash e)) && bool_decide (eExpiresAt e = None).

Definition PruneAfter : Z := 30 * 24 * 3600.
Definition Prunable (e : Entry) (now : Z) : bool := Final (eState e) && (0 <? eCheckedAt e) && (PruneAfter <=? s64 (now - eCheckedAt e)).

Definition week : Z := 7 * 24 * 60 * 60.

(** [rnd]: the eight random bytes as a uint64, None when the reader fails. *)
Definition WrapExpiration (expiresAt grace : Z) (rnd : option Z) : Z :=
  let t := s64 (expiresAt + grace) in
  let r := Z.rem t week in
  let t := if negb (r =? 0) then s64 (t + (week - r)) else t in
  match rnd with Some v => s64 (t + v mod 7 * 24 * 60 * 60) | None => t end.

(** ** Rewrites *)

(** A new version of an entry: everything but what is given. *)
Definition rewrite_entry (e : Entry) (at_ : Z) : Entry :=
  mkEntry (eW e) (u64 (eRev e + 1)) (eCash e) (eAmount e) (eChain e) (eIdentity e) (eState e) at_ [] (eExpiresAt e) (eMint e) (eSource e) (eSecrets e)
    (eRequestID e) (eDeadline e) (eTarget e) (eDevice e) (eOrderKey e) (eNotify e) (eAddress e) (eQuote e) (eReceipt e) [] 0 [] [].

Definition set_state (e : Entry) (s : gostring) : Entry :=
  mkEntry (eW e) (eRev e) (eCash e) (eAmount e) (eChain e) (eIdentity e) s (eCheckedAt e) (eWrapKey e) (eExpiresAt e) (eMint e) (eSource e) (eSecrets e)
    (eRequestID e) (eDeadline e) (eTarget e) (eDevice e) (eOrderKey e) (eNotify e) (eAddress e) (eQuote e) (eReceipt e)
    (eRumorID e) (eRumorCreatedAt e) (eWrapID e) (eRawState e).

Definition set_rev (e : Entry) (rev : Z) : Entry :=
  mkEntry (eW e) rev (eCash e) (eAmount e) (eChain e) (eIdentity e) (eState e) (eCheckedAt e) (eWrapKey e) (eExpiresAt e) (eMint e) (eSource e) (eSecrets e)
    (eRequestID e) (eDeadline e) (eTarget e) (eDevice e) (eOrderKey e) (eNotify e) (eAddress e) (eQuote e) (eReceipt e)
    (eRumorID e) (eRumorCreatedAt e) (eWrapID e) (eRawState e).

Definition set_owner (e : Entry) (id : EntryIdentity) (secrets : list PendingSecret) : Entry :=
  mkEntry (eW e) (eRev e) (eCash e) (eAmount e) (eChain e) id (eState e) (eCheckedAt e) (eWrapKey e) (eExpiresAt e) (eMint e) (eSource e) secrets
    (eRequestID e) (eDeadline e) (eTarget e) (eDevice e) (eOrderKey e) (eNotify e) (eAddress e) (eQuote e) (eReceipt e)
    (eRumorID e) (eRumorCreatedAt e) (eWrapID e) (eRawState e).

Definition set_token (e : Entry) (cash : gostring) (amount : Z) (s : gostring) (expiresAt : option Z) : Entry :=
  mkEntry (eW e) (eRev e) cash amount (eChain e) (eIdentity e) s (eCheckedAt e) (eWrapKey e) expiresAt (eMint e) (eSource e) (eSecrets e)
    (eRequestID e) (eDeadline e) (eTarget e) (eDevice e) (eOrderKey e) (eNotify e) (eAddress e) (eQuote e) (eReceipt e)
    (eRumorID e) (eRumorCreatedAt e) (eWrapID e) (eRawState e).

(** The parts of a withdrawal: its address, quote and receipt. *)
Definition set_withdraw (e : Entry) (address quote receipt : gostring) : Entry :=
  mkEntry (eW e) (eRev e) (eCash e) (eAmount e) (eChain e) (eIdentity e) (eState e) (eCheckedAt e) (eWrapKey e) (eExpiresAt e) (eMint e) (eSource e) (eSecrets e)
    (eRequestID e) (eDeadline e) (eTarget e) (eDevice e) (eOrderKey e) (eNotify e) address quote receipt
    (eRumorID e) (eRumorCreatedAt e) (eWrapID e) (eRawState e).

Definition WithState (e : Entry) (s : gostring) (at_ : Z) : Entry := set_state (rewrite_entry e at_) s.

Definition WithExpiry (e : Entry) (expiresAt at_ : Z) : Entry :=
  let n := rewrite_entry e at_ in
  if 0 <? expiresAt then set_token n (eCash n) (eAmount n) (eState n) (Some expiresAt) else n.

(** A new entry of a bill. *)
Definition new_bill (w : gostring) (amount : Z) (chain : gostring) (id : EntryIdentity) (at_ : Z) (secrets : list PendingSecret) : Entry :=
  mkEntry w 1 [] amount chain id [] at_ [] None [] [] secrets [] 0 [] [] [] [] [] [] [] [] 0 [] [].

Definition cash_identity : EntryIdentity := mkIdentity IdentityCash [] [].

(** ** Writing a call ahead *)

Definition valid_or {A} (e : Entry) (a : A) : outcome PocketErr A := if Validate e then Ok a else Err ErrEntry.

Definition PendingEntry (pc : PendingCall) (now : Z) : outcome PocketErr Entry :=
  let method := pcMethod pc in
  if negb (in_list method [MethodCashTransfer; MethodCashConsolidate; MethodMintCash; MethodCashOrder; MethodCashWithdraw]) then Err ErrMethod
  else
    let order := bool_decide (method = MethodCashOrder) in
    let withdraw := bool_decide (method = MethodCashWithdraw) in
    let e := mkEntry (pcRequestID pc) 1 [] (pcAmount pc) (pcChain pc) no_identity StatePending now [] None [] [] (pcSecrets pc) (pcRequestID pc) (pcDeadline pc)
               (pcTarget pc) (pcDevice pc) (if order then pcBuyerKey pc else []) (if order || withdraw then pcNotify pc else [])
               (if withdraw then pcAddress pc else []) (if withdraw then pcQuote pc else []) (if withdraw then pcReceipt pc else []) [] 0 [] [] in
    if order && (str_empty (eNotify e) || (str_empty (eOrderKey e) && bool_decide (eSecrets e = []))) then Err ErrEntry
    else if withdraw && (str_empty (eNotify e) || str_empty (eAddress e) || str_empty (eQuote e)) then Err ErrEntry
    else if withdraw && match eSecrets e with [] => false | [s] => negb (bool_decide (sRole s = SecretRoleRemint)) | _ => true end then Err ErrEntry
    else valid_or e e.

Definition open_call (e : Entry) : bool := IsCall e && bool_decide (eState e = StatePending).

Definition Close (pending : Entry) (at_ : Z) : outcome PocketErr Entry :=
  if negb (open_call pending) then Err ErrNotPending else Ok (WithState pending StateDone at_).

Definition CanRemoveSources (pending : Entry) : bool := IsCall pending && bool_decide (eState pending = StateDone).

(** ** What a call's outcome writes *)

Record NewBill := mkBill {
  nbW : gostring; nbToken : TokenOrTombstone; nbAmount : Z; nbIdentity : EntryIdentity; nbCommitment : gostring; nbExpiresAt : Z; InPlace : bool;
}.

(** The error of a call as the client returns it. *)
Inductive CallError := NoError | IsFinal | IsGone (t : Tombstone) | OtherError.

Record CallResult := mkOutcome { rErr : CallError; Bills : list NewBill; GoneW : gostring; Own : list EntryIdentity; HandOn : list gostring; rAt : Z }.

(** The secrets of the pending entry behind a cash bill: whether it is kept, and
    the secret it carries (the last that matches). *)
Definition cash_secrets (pending : Entry) (r : CallResult) (commitment : gostring) : bool * list PendingSecret :=
  foldl (fun acc s =>
      match CashCommitment (sSecret s) with
      | Some c =>
          if CommitmentsEqual c commitment then
            if negb (in_list (sSecret s) (HandOn r)) || bool_decide (sRole s = SecretRoleRemainder) then (true, [mkSecret (sSecret s) []]) else acc
          else acc
      | None => acc
      end) (false, []) (eSecrets pending).

Definition is_cash (id : EntryIdentity) : bool := bool_decide (iType id = IdentityCash).

(** The source a bill was transferred in place of, rewritten (the last one). *)
Definition in_place (sources : list Entry) (w : gostring) (id : EntryIdentity) (secrets : list PendingSecret) (at_ : Z) (e : Entry) : Entry :=
  foldl (fun e s => if bool_decide (eW s = w) then set_owner (rewrite_entry s at_) id secrets else e) e sources.

Definition billEntry (pending : Entry) (sources : list Entry) (r : CallResult) (b : NewBill) (at_ : Z) : outcome PocketErr (option Entry) :=
  let '(keep, secrets) := if is_cash (nbIdentity b) then cash_secrets pending r (nbCommitment b) else (in_list (nbIdentity b) (Own r), []) in
  if negb keep then Ok None
  else
    let id := if is_cash (nbIdentity b) then cash_identity else nbIdentity b in
    let e := new_bill (nbW b) (nbAmount b) (eChain pending) id at_ secrets in
    let e := if InPlace b then in_place sources (nbW b) id secrets at_ e else e in
    if InPlace b && (eRev e =? 1) then Err ErrEntry
    else
      let e := match tTombstone (nbToken b) with
               | Some t => set_token e [] (eAmount e) (tombstone_state t) None
               | None => set_token e (tToken (nbToken b)) (if negb (nbAmount b =? 0) then nbAmount b else eAmount e) StateLive
                           (if 0 <? nbExpiresAt b then Some (nbExpiresAt b) else None)
               end in
      valid_or e (Some e).

(** The new bills in turn: the entries written and the sources rewritten. *)
Fixpoint bill_entries (pending : Entry) (sources : list Entry) (r : CallResult) (at_ : Z) (bills : list NewBill) (writes : list Entry) (rewritten : list gostring)
    : outcome PocketErr (list Entry * list gostring) :=
  match bills with
  | [] => Ok (writes, rewritten)
  | b :: bills =>
      x ← billEntry pending sources r b at_;
      match x with
      | None => bill_entries pending sources r at_ bills writes rewritten
      | Some e => bill_entries pending sources r at_ bills (writes ++ [e]) (if InPlace b then nbW b :: rewritten else rewritten)
      end
  end.

Definition ApplyResult (pending : Entry) (sources : list Entry) (r : CallResult) (now : Z) : outcome PocketErr (list Entry * list Entry) :=
  if negb (open_call pending) then Err ErrNotPending
  else
    let at_ := if rAt r =? 0 then now else rAt r in
    let done := WithState pending StateDone at_ in
    match rErr r with
    | IsFinal => Ok ([], [done])
    | IsGone t =>
        let w := if str_empty (GoneW r) then eTarget pending else GoneW r in
        Ok ([], done :: map (fun s => WithState s (tombstone_state t) at_) (List.filter (fun s => bool_decide (eW s = w)) sources))
    | OtherError => Err ErrLookup
    | NoError =>
        '(writes, rewritten) ← bill_entries pending sources r at_ (Bills r) [] [];
        Ok (writes, done :: map (fun s => WithState s StateSpent at_) (List.filter (fun s => negb (in_list (eW s) rewritten)) sources))
    end.

(** ** What a lookup asks of the pocket *)

Inductive PocketActionKind := PocketWait | PocketApply | PocketShow | PocketClose | PocketReplace | PocketConfirm.

Record PocketAction := mkPA { paKind : PocketActionKind; paUntil : Z; paReason : gostring; paResult : option (list byte); Derived : gostring; DoneEntry : option Entry }.

Definition ApplyLookup (pending : Entry) (pc : PendingCall) (a : Action) (localDevice : gostring) (now : Z) : PocketAction :=
  let show reason := mkPA PocketShow 0 reason None [] None in
  let closeIt reason := mkPA PocketClose 0 reason None [] (Some (WithState pending StateDone now)) in
  if negb (open_call pending) then mkPA PocketWait 0 (bs "not_pending") None [] None
  else match aKind a with
  | ActionClose => match aResult a with None => closeIt (aReason a) | Some r => mkPA PocketApply 0 [] (Some r) [] None end
  | ActionWait => mkPA PocketWait (aUntil a) (aReason a) (aResult a) [] None
  | ActionShow => if bool_decide (aReason a = bs "lookup_expired") && bool_decide (eDevice pending = localDevice) then closeIt (aReason a) else show (aReason a)
  | ActionCloseFailed | ActionCloseRefused => closeIt (aReason a)
  | ActionReplace | ActionConfirmReplace =>
      match DerivedRequestID (pcRequestID pc) with
      | None => show (bs "lookup_malformed")
      | Some id =>
          mkPA (if bool_decide (aKind a = ActionConfirmReplace) then PocketConfirm else PocketReplace) 0 [] None id (Some (WithState pending StateDone now))
      end
  end.

(** ** Orders (nipCO) *)

Definition PaymentLightning : gostring := bs "lightning".
Definition PaymentOnchain : gostring := bs "onchain".

Inductive OrderState := OrderOpen | OrderPaid | OrderMinted | OrderExpired | OrderClosed | OrderOther (s : gostring).
#[global] Instance OrderState_eq_dec : EqDecision OrderState.
Proof. solve_decision. Defined.

Record OrderFacts := mkOF { ofPayment : gostring; ofPayBy : Z; Seen : bool; Unminted : Z; Minted : Z }.

Definition OrderStateAt (f : OrderFacts) (now : Z) : OrderState :=
  if now <=? ofPayBy f then
    if 0 <? Unminted f then OrderPaid else if 0 <? Minted f then OrderMinted else OrderOpen
  else if bool_decide (ofPayment f = PaymentOnchain) then
    if Seen f || (0 <? Unminted f) || (0 <? Minted f) then OrderClosed else OrderExpired
  else if 0 <? Unminted f then OrderPaid else if 0 <? Minted f then OrderMinted else OrderExpired.

Record OrderBill := mkOB { obW : gostring; obToken : TokenOrTombstone; obAmount : Z }.
Record Order := mkOrder { oStateOf : OrderState; oPayment : gostring; oPayBy : Z; oBills : list OrderBill }.

Definition Finished (o : Order) : bool :=
  if bool_decide (oPayment o = PaymentLightning) then bool_decide (oStateOf o = OrderMinted) || bool_decide (oStateOf o = OrderExpired)
  else bool_decide (oStateOf o = OrderExpired) || bool_decide (oStateOf o = OrderClosed).

Definition EndedUnpaid (o : Order) (sawProgress : bool) (now : Z) : bool :=
  if sawProgress || (now <=? oPayBy o) || negb (bool_decide (length (oBills o) = 0%nat)) then false
  else negb (bool_decide (oStateOf o = OrderPaid) || bool_decide (oStateOf o = OrderMinted) || bool_decide (oStateOf o = OrderClosed)).

Record orderConfig := mkOC { held : option (list Entry); ocIdentity : option EntryIdentity; unpaid : bool; progress : bool; unpaidNow : Z; ocAt : Z }.

Definition orderIdentity (entry : Entry) (c : orderConfig) : outcome PocketErr (EntryIdentity * list PendingSecret) :=
  match List.find (fun s => str_empty (sRole s)) (eSecrets entry) with
  | Some s => Ok (cash_identity, [mkSecret (sSecret s) []])
  | None =>
      match ocIdentity c with
      | Some id => if negb (identity_valid id) || is_cash id then Err ErrOrderIdentity else Ok (id, [])
      | None => Err ErrOrderIdentity
      end
  end.

Definition order_entry (entry : Entry) (id : EntryIdentity) (secrets : list PendingSecret) (at_ : Z) (b : OrderBill) : Entry :=
  let e := new_bill (obW b) (obAmount b) (eChain entry) id at_ [] in
  match tTombstone (obToken b) with
  | Some t => set_state e (tombstone_state t)
  | None => set_owner (set_token e (tToken (obToken b)) (obAmount b) StateLive None) id secrets
  end.

Fixpoint order_entries (entry : Entry) (id : EntryIdentity) (secrets : list PendingSecret) (at_ : Z) (held : list Entry) (bills : list OrderBill) (writes : list Entry)
    : outcome PocketErr (list Entry) :=
  match bills with
  | [] => Ok writes
  | b :: bills =>
      if EntryExists held (obW b) || EntryExists writes (obW b) then order_entries entry id secrets at_ held bills writes
      else let e := order_entry entry id secrets at_ b in
           if Validate e then order_entries entry id secrets at_ held bills (writes ++ [e]) else Err ErrEntry
  end.

Definition ApplyOrder (entry : Entry) (order : option Order) (keeps : bool) (c : orderConfig) (now : Z) : outcome PocketErr (list Entry * option Entry) :=
  if negb (IsCall entry) || str_empty (eNotify entry) || negb (bool_decide (eState entry = StatePending) || bool_decide (eState entry = StateDone))
  then Err ErrNotPending
  else match order with
  | None => Err ErrEntry
  | Some o =>
      let at_ := if ocAt c =? 0 then now else ocAt c in
      writes ← (if keeps then
                  '(id, secrets) ← orderIdentity entry c;
                  order_entries entry id secrets at_ (default [] (held c)) (oBills o) []
                else Ok []);
      let closes := bool_decide (eState entry = StatePending) && (Finished o || (unpaid c && EndedUnpaid o (progress c) (unpaidNow c))) in
      let d := WithState entry StateDone at_ in
      Ok (writes, if closes then Some (match held c with Some h => set_rev d (NextVersion (h ++ [entry]) (eW entry)) | None => d end) else None)
  end.

(** ** Withdrawals *)

Section Withdraw.
Context {GoLower0 : GoLower} {Schnorr0 : Schnorr} {EventJSON0 : EventJSON}.

Definition verifyEntryReceipt (entry : Entry) (p : Payout) (hubXOnly : gostring) : outcome PocketErr unit :=
  match ParseWithdrawQuote (eQuote entry) with
  | Err _ => Err (ErrReceipt (ErrReceiptInvalid (bs "the entry's quote")))
  | Panic => Panic
  | Ok q =>
      let f := wqFields q in
      if negb (bool_decide (pAddress p = qAddress f)) || negb (pPayout p =? qPayout f) || negb (pSentBy p =? qSentBy f) || negb (pAmount p =? qAmount f)
      then Err (ErrReceipt (ErrReceiptInvalid (bs "the payout differs from the quote")))
      else match VerifyWithdrawReceipt (pReceipt p) (mkRE hubXOnly (eTarget entry) (wqID q) (eRequestID entry) (qAddress f) (qPayout f) (qSentBy f)) with
           | Ok _ => Ok tt
           | Err e => Err (ErrReceipt e)
           | Panic => Panic
           end
  end.

(** The bill a cancelled payout made. *)
Definition remintEntry (entry source : Entry) (p : Payout) (at_ : Z) : outcome PocketErr Entry :=
  let remint := List.filter (fun s => bool_decide (sRole s = SecretRoleRemint)) (eSecrets entry) in
  let e := new_bill (pNewWalletPubkey p) (pAmount p) (eChain entry) (eIdentity source) at_ [] in
  let e := foldl (fun e s => set_owner e cash_identity [mkSecret (sSecret s) []]) e remint in
  let e := match tTombstone (pNewWalletToken p) with
           | Some t => set_state (set_owner e (eIdentity e) []) (tombstone_state t)
           | None => set_token e (tToken (pNewWalletToken p)) (eAmount e) StateLive None
           end in
  valid_or e e.

Definition ApplyWithdraw (entry source : Entry) (p : option Payout) (hubXOnly : gostring) (now : Z) : outcome PocketErr (list Entry * option Entry) :=
  if negb (open_call entry) || str_empty (eQuote entry) then Err ErrNotPending
  else match p with
  | None => Err ErrEntry
  | Some p =>
      if negb (bool_decide (eW source = eTarget entry)) then Err ErrEntry
      else
        _ ← verifyEntryReceipt entry p hubXOnly;
        let first := str_empty (eReceipt entry) in
        let cur := if first then set_withdraw (rewrite_entry entry now) (eAddress entry) (eQuote entry) (pReceipt p) else entry in
        let writes := if first then cur :: (if negb (bool_decide (eState source = StateSpent)) then [WithState source StateSpent now] else []) else [] in
        match pState p with
        | PayoutCancelled => b ← remintEntry entry source p now; Ok (writes ++ [b], Some (WithState cur StateDone now))
        | PayoutFinal => Ok (writes, Some (WithState cur StateDone now))
        | _ => Ok (writes, None)
        end
  end.

Definition WithdrawDoneRewrite (done : Entry) (now : Z) : outcome PocketErr Entry :=
  if negb (IsCall done) || negb (bool_decide (eState done = StateDone)) || str_empty (eQuote done) then Err ErrEntry
  else Ok (set_withdraw (rewrite_entry done now) [] [] []).

End Withdraw.
