(* ===== verification/PocketResolve.v ===== *)
(** * nipCP: which entry is current, and the balance

    [Resolve] picks per bill the greatest recognised entry under (revision, final,
    time, lowest id) whatever the order the relays return them in, an entry written
    at [NextVersion] wins, and [Balance] is the saturated sum. *)

From S2P Require Import Prelude GoLib Sha256 NostrUtils Pow Event Filter CashCall CashWithdraw CashWithdrawProps CashPayout CashRecover PocketEntry PocketState.

(** ** The order *)

(** A later revision, or the same one with the entry that wins it. *)
Definition better (a b : Entry) : bool := (eRev b <? eRev a) || ((eRev a =? eRev b) && beats a b).

Lemma beats_irrefl a : beats a a = false.
Proof. unfold beats. rewrite eqb_reflx, Z.eqb_refl. cbn. apply Cmp.ltb_irrefl. Qed.

Lemma beats_trans a b c : beats a b = true -> beats b c = true -> beats a c = true.
Proof.
  unfold beats. destruct (Final (eState a)), (Final (eState b)), (Final (eState c)); cbn; try done.
  all: destruct (Z.eqb_spec (eRumorCreatedAt a) (eRumorCreatedAt b)) as [E1|E1], (Z.eqb_spec (eRumorCreatedAt b) (eRumorCreatedAt c)) as [E2|E2]; cbn;
    rewrite ?Z.ltb_lt; intros H1 H2; destruct (Z.eqb_spec (eRumorCreatedAt a) (eRumorCreatedAt c)) as [E3|E3]; cbn; rewrite ?Z.ltb_lt; try lia.
  all: by eapply Cmp.ltb_trans.
Qed.

Lemma better_irrefl a : better a a = false.
Proof. unfold better. by rewrite Z.ltb_irrefl, beats_irrefl, andb_false_r. Qed.

Lemma better_trans a b c : better a b = true -> better b c = true -> better a c = true.
Proof.
  unfold better. rewrite !orb_true_iff, !andb_true_iff, !Z.ltb_lt, !Z.eqb_eq. intros [H1|[H1 H1']] [H2|[H2 H2']]; [left; lia..|].
  right. split; [lia|]. by eapply beats_trans.
Qed.

(** What decides: the revision, finality, time and rumor. *)
Definition rank (e : Entry) : Z * bool * Z * gostring := (eRev e, Final (eState e), eRumorCreatedAt e, eRumorID e).

Lemma better_total a b : better a b = false -> better b a = false -> rank a = rank b.
Proof.
  unfold better, rank. rewrite !orb_false_iff, !Z.ltb_ge. intros [H1 H1'] [H2 H2']. assert (HR : eRev a = eRev b) by lia. rewrite HR in *. rewrite Z.eqb_refl in *.
  cbn [andb] in *. unfold beats in *. destruct (Final (eState a)), (Final (eState b)); cbn in *; try done.
  all: destruct (Z.eqb_spec (eRumorCreatedAt a) (eRumorCreatedAt b)) as [E|E]; [rewrite E, Z.eqb_refl in *; cbn in *|].
  all: try (rewrite (proj2 (Z.eqb_neq _ _)) in H2' by lia; cbn in *; apply Z.ltb_ge in H1', H2'; lia).
  all: by rewrite (Cmp.ltb_total _ _ H1' H2').
Qed.

(** ** The invariant of the fold *)

(** Recognised entries of a bill. *)
Definition of_bill (l : list Entry) (w : gostring) (e : Entry) : Prop := e ∈ l /\ Recognised e = true /\ eW e = w.

(** The rumors of a bill at a revision. *)
Definition rumors_at (l : list Entry) (w : gostring) (rev : Z) : gset gostring :=
  list_to_set (map eRumorID (List.filter (fun e => Recognised e && bool_decide (eW e = w) && (eRev e =? rev)) l)).

Lemma elem_rumors_at l w rev id : id ∈ rumors_at l w rev <-> exists e, of_bill l w e /\ eRev e = rev /\ eRumorID e = id.
Proof.
  unfold rumors_at, of_bill. rewrite elem_of_list_to_set. split.
  - intros H. apply list_elem_of_In, in_map_iff in H as (e & <- & H). apply List.filter_In in H as [H1 H2]. apply list_elem_of_In in H1. bool_prop. by exists e.
  - intros (e & (H1 & H2 & H3) & H4 & <-). apply list_elem_of_In, in_map_iff. exists e. split; [done|]. apply List.filter_In.
    split; [by apply list_elem_of_In|]. by rewrite H2, H3, H4, Z.eqb_refl, bool_decide_true.
Qed.

Record resolved (l : list Entry) (r : Resolution) : Prop := {
  rv_none : forall w, winners r !! w = None -> forall e, ~ of_bill l w e;
  rv_some : forall w e, winners r !! w = Some e -> of_bill l w e /\ forall e', of_bill l w e' -> better e' e = false;
  rv_rivals : forall w, rivals r !! w = (fun c => rumors_at l w (eRev c)) <$> winners r !! w;
}.

Lemma of_bill_snoc l e w x : of_bill (l ++ [e]) w x <-> of_bill l w x \/ (x = e /\ Recognised e = true /\ eW e = w).
Proof. unfold of_bill. rewrite elem_of_app, list_elem_of_singleton. naive_solver. Qed.

(** Another bill's entry, or an unrecognised one, changes nothing here. *)
Lemma rumors_at_other l e w rev : ~ (Recognised e = true /\ eW e = w /\ eRev e = rev) -> rumors_at (l ++ [e]) w rev = rumors_at l w rev.
Proof.
  intros Hne. apply set_eq. intros id. rewrite !elem_rumors_at. setoid_rewrite of_bill_snoc. split; [|naive_solver].
  intros (x & [Hx|(-> & H1 & H2)] & H3 & H4); [by exists x|]. by destruct Hne.
Qed.

Lemma rumors_at_more l e : Recognised e = true -> rumors_at (l ++ [e]) (eW e) (eRev e) = {[ eRumorID e ]} ∪ rumors_at l (eW e) (eRev e).
Proof.
  intros HR. apply set_eq. intros id. rewrite elem_of_union, elem_of_singleton, !elem_rumors_at. setoid_rewrite of_bill_snoc. split.
  - intros (x & [Hx|(-> & H1 & H2)] & H3 & <-); [right; by exists x|by left].
  - intros [->|(x & H1 & H2 & <-)]; [exists e; split; [right; by split_and!|done]|exists x; split; [by left|done]].
Qed.

Lemma rumors_at_fresh l w rev : (forall e, of_bill l w e -> eRev e < rev) -> rumors_at l w rev = ∅.
Proof. intros H. apply set_eq. intros id. rewrite elem_rumors_at, elem_of_empty. split; [|done]. intros (e & He & HE & _). specialize (H e He). lia. Qed.

(** A step for a bill: the winner of its own bill is decided, the others stay. *)
Lemma resolved_step_at (l : list Entry) (r : Resolution) (e : Entry) (win : gmap gostring Entry) (riv : gmap gostring (gset gostring)) (c : Entry) :
  resolved l r -> Recognised e = true -> of_bill (l ++ [e]) (eW e) c -> (forall e', of_bill (l ++ [e]) (eW e) e' -> better e' c = false) ->
  win = <[eW e := c]> (winners r) -> riv = <[eW e := rumors_at (l ++ [e]) (eW e) (eRev c)]> (rivals r) -> resolved (l ++ [e]) (mkRes win riv).
Proof.
  intros [R1 R2 R3] HR HC HB -> ->. split; cbn.
  - intros w [Hne Hw]%lookup_insert_None x [Hx|(-> & _ & Hx)]%of_bill_snoc; [by eapply R1|done].
  - intros w x [[<- <-]|[Hne Hw]]%lookup_insert_Some; [by split|]. destruct (R2 w x Hw) as [H1 H2]. split; [apply of_bill_snoc; by left|].
    intros y [Hy|(-> & _ & Hy)]%of_bill_snoc; [by apply H2|done].
  - intros w. destruct (decide (w = eW e)) as [->|Hne]; [by rewrite !lookup_insert, !decide_True|]. rewrite !lookup_insert_ne, R3 by done.
    destruct (winners r !! w) as [x|]; [|done]. cbn. f_equal. symmetry. apply rumors_at_other. naive_solver.
Qed.

Lemma resolved_step l r e : resolved l r -> resolved (l ++ [e]) (resolve_step r e).
Proof.
  intros R. pose proof R as [R1 R2 R3]. unfold resolve_step. destruct (Recognised e) eqn:HR; cbn [negb].
  2:{ split.
      - intros w Hw x [Hx|(_ & Hx & _)]%of_bill_snoc; [by eapply R1|congruence].
      - intros w x Hw. destruct (R2 w x Hw) as [H1 H2]. split; [apply of_bill_snoc; by left|]. intros y [Hy|(_ & Hy & _)]%of_bill_snoc; [by apply H2|congruence].
      - intros w. rewrite R3. destruct (winners r !! w); [|done]. cbn. f_equal. symmetry. apply rumors_at_other. naive_solver congruence. }
  assert (HE : of_bill (l ++ [e]) (eW e) e) by (apply of_bill_snoc; by right).
  destruct (winners r !! eW e) as [cur|] eqn:EW.
  2:{ apply (resolved_step_at l r e _ _ e); try done.
      - intros x [Hx|(-> & _)]%of_bill_snoc; [by destruct (R1 _ EW x)|apply better_irrefl].
      - f_equal. rewrite rumors_at_more, rumors_at_fresh by (done || intros x Hx; by destruct (R1 _ EW x)). set_solver. }
  destruct (R2 _ _ EW) as [HC HM]. assert (HC' : of_bill (l ++ [e]) (eW e) cur) by (apply of_bill_snoc; by left).
  assert (HRev : forall x, of_bill l (eW e) x -> eRev x <= eRev cur).
  { intros x Hx. specialize (HM x Hx). unfold better in HM. apply orb_false_iff in HM as [HM _]. by apply Z.ltb_ge in HM. }
  assert (HNew : better e cur = true -> forall x, of_bill (l ++ [e]) (eW e) x -> better x e = false).
  { intros Hb x [Hx|(-> & _)]%of_bill_snoc; [|apply better_irrefl]. destruct (better x e) eqn:EB; [|done].
    specialize (HM x Hx). by rewrite (better_trans x e cur EB Hb) in HM. }
  destruct (Z.ltb_spec (eRev cur) (eRev e)) as [HL|HL].
  { apply (resolved_step_at l r e _ _ e); try done.
    - apply HNew. unfold better. by rewrite (proj2 (Z.ltb_lt _ _)).
    - f_equal. rewrite rumors_at_more, rumors_at_fresh by (done || intros x Hx; specialize (HRev x Hx); lia). set_solver. }
  destruct (Z.eqb_spec (eRev e) (eRev cur)) as [HEq|HNe].
  - assert (HRiv : {[ eRumorID e ]} ∪ default ∅ (rivals r !! eW e) = rumors_at (l ++ [e]) (eW e) (eRev e)).
    { rewrite rumors_at_more, R3, EW by done. cbn. by rewrite HEq. }
    rewrite HRiv. destruct (beats e cur) eqn:EB.
    + apply (resolved_step_at l r e _ _ e); try done. apply HNew. unfold better. by rewrite HEq, Z.eqb_refl, EB, orb_true_r.
    + apply (resolved_step_at l r e _ _ cur); [done..| |by rewrite insert_id|by rewrite HEq].
      intros x [Hx|(-> & _)]%of_bill_snoc; [by apply HM|]. unfold better. by rewrite HEq, Z.ltb_irrefl, EB, andb_false_r.
  - destruct r as [win riv]. apply (resolved_step_at l (mkRes win riv) e _ _ cur); [done..| |by rewrite insert_id|].
    + intros x [Hx|(-> & _)]%of_bill_snoc; [by apply HM|]. unfold better. rewrite (proj2 (Z.ltb_ge _ _)) by lia. by rewrite (proj2 (Z.eqb_neq _ _)).
    + cbn in *. rewrite rumors_at_other by naive_solver. rewrite insert_id; [done|]. by rewrite R3, EW.
Qed.

Lemma Resolve_resolved all : resolved all (Resolve all).
Proof.
  unfold Resolve. induction all as [|e l IH] using rev_ind.
  - split; cbn; [|done|done]. intros w _ e [He _]. set_solver.
  - rewrite foldl_app. cbn. by apply resolved_step.
Qed.

(** ** What a resolution depends on *)

Lemma resolved_rank l1 l2 r1 r2 : (forall e, e ∈ l1 <-> e ∈ l2) -> resolved l1 r1 -> resolved l2 r2 ->
  (forall w, rank <$> winners r1 !! w = rank <$> winners r2 !! w) /\ rivals r1 = rivals r2.
Proof.
  intros HS [A1 A2 A3] [B1 B2 B3]. assert (HB : forall w e, of_bill l1 w e <-> of_bill l2 w e) by (unfold of_bill; naive_solver).
  assert (HW : forall w, rank <$> winners r1 !! w = rank <$> winners r2 !! w).
  { intros w. destruct (winners r1 !! w) as [a|] eqn:E1, (winners r2 !! w) as [b|] eqn:E2; cbn; [|exfalso..|done].
    - destruct (A2 _ _ E1) as [H1 H2], (B2 _ _ E2) as [H3 H4]. f_equal. apply better_total; [by apply H4, HB|by apply H2, HB].
    - apply (B1 _ E2 a), HB. by apply A2.
    - apply (A1 _ E1 b), HB. by apply B2. }
  split; [done|]. apply map_eq. intros w. rewrite A3, B3. specialize (HW w).
  destruct (winners r1 !! w) as [a|], (winners r2 !! w) as [b|]; try done. cbn in *. injection HW as HW _ _ _. rewrite HW. f_equal.
  apply set_eq. intros id. rewrite !elem_rumors_at. by setoid_rewrite HB.
Qed.

Lemma elem_conflicts r w : w ∈ conflicts r <-> exists ids, rivals r !! w = Some ids /\ 1 < Z.of_nat (size ids).
Proof.
  unfold conflicts. rewrite merge_sort_Permutation. split.
  - intros H. apply list_elem_of_In, in_map_iff in H as ([w' ids] & <- & H). apply List.filter_In in H as [H1 H2]. apply list_elem_of_In, elem_of_map_to_list in H1.
    exists ids. split; [done|]. by apply Z.ltb_lt in H2.
  - intros (ids & H1 & H2). apply list_elem_of_In, in_map_iff. exists (w, ids). split; [done|]. apply List.filter_In.
    split; [by apply list_elem_of_In, elem_of_map_to_list|]. by apply Z.ltb_lt.
Qed.

Lemma size_two (X : gset gostring) : 1 < Z.of_nat (size X) <-> exists a b, a ∈ X /\ b ∈ X /\ a <> b.
Proof.
  split.
  - intros H. destruct (size_pos_elem_of X) as [a Ha]; [lia|]. destruct (decide (X ∖ {[a]} = ∅)) as [HE|HE].
    + assert (HX : X = {[a]}) by (apply set_eq; intros y; split; intros Hy; [destruct (decide (y = a)); set_solver|set_solver]). rewrite HX, size_singleton in H. lia.
    + apply set_choose_L in HE as [b Hb]. exists a, b. set_solver.
  - intros (a & b & Ha & Hb & Hne). assert (HS : {[a; b]} ⊆ X) by set_solver. apply subseteq_size in HS. rewrite size_union, !size_singleton in HS by set_solver. lia.
Qed.

(** C13: the pocket shows the current entry of every bill.  Resolve has a winner for
    exactly the bills with a recognised entry: one of them that no other beats
    (the highest revision; at that revision a final state over the others, then
    the latest time, then the lowest rumor id), and it reports a conflict exactly
    for the bills whose winning revision holds two distinct rumors. *)
Theorem resolve_greatest (all : list Entry) (w : gostring) :
  (match winners (Resolve all) !! w with
   | None => forall e, e ∈ all -> eW e = w -> Recognised e = false
   | Some e => e ∈ all /\ eW e = w /\ Recognised e = true /\ forall e', e' ∈ all -> eW e' = w -> Recognised e' = true -> better e' e = false
   end) /\
  (w ∈ conflicts (Resolve all) <->
   exists c a b, winners (Resolve all) !! w = Some c /\ a ∈ all /\ b ∈ all /\ eW a = w /\ eW b = w /\ Recognised a = true /\ Recognised b = true /\
     eRev a = eRev c /\ eRev b = eRev c /\ eRumorID a <> eRumorID b).
Proof.
  destruct (Resolve_resolved all) as [R1 R2 R3]. split.
  - destruct (winners (Resolve all) !! w) as [e|] eqn:E.
    + destruct (R2 _ _ E) as [(H1 & H2 & H3) H4]. split_and!; try done. intros e' H5 H6 H7. by apply H4.
    + intros e H1 H2. destruct (Recognised e) eqn:HR; [|done]. by destruct (R1 _ E e).
  - rewrite elem_conflicts, R3. destruct (winners (Resolve all) !! w) as [c|] eqn:E; cbn; [|by split; [intros (? & ? & _)|intros (? & ? & ? & ? & _)]].
    split.
    + intros (ids & [= <-] & (i & j & Hi & Hj & Hne)%size_two). apply elem_rumors_at in Hi as (a & (A1 & A2 & A3) & A4 & <-), Hj as (b & (B1 & B2 & B3) & B4 & <-).
      exists c, a, b. by split_and!.
    + intros (c' & a & b & [= <-] & A1 & B1 & A2 & B2 & A3 & B3 & A4 & B4 & Hne). eexists. split; [done|]. apply size_two. exists (eRumorID a), (eRumorID b).
      split_and!; [apply elem_rumors_at; by exists a|apply elem_rumors_at; by exists b|done].
Qed.

(** C24: the pocket is the same on every device.  Two devices that were given the
    same entries, in any order and however many copies of each, agree: the same
    bills, conflicts and rivals, winners of the same revision, finality, time and
    rumor, and the very same winners when a rumor id names one entry. *)
Theorem resolve_order_free (l1 l2 : list Entry) (HS : forall e, e ∈ l1 <-> e ∈ l2) :
  (forall w, rank <$> winners (Resolve l1) !! w = rank <$> winners (Resolve l2) !! w) /\
  rivals (Resolve l1) = rivals (Resolve l2) /\ conflicts (Resolve l1) = conflicts (Resolve l2) /\
  ((forall a b, a ∈ l1 -> b ∈ l1 -> eRumorID a = eRumorID b -> a = b) -> Resolve l1 = Resolve l2).
Proof.
  pose proof (Resolve_resolved l1) as R1. pose proof (Resolve_resolved l2) as R2. destruct (resolved_rank _ _ _ _ HS R1 R2) as [HW HR].
  split_and!; [done|done|by unfold conflicts; rewrite HR|]. intros Hinj.
  assert (HE : winners (Resolve l1) = winners (Resolve l2)).
  { apply map_eq. intros w. specialize (HW w). destruct (winners (Resolve l1) !! w) as [a|] eqn:E1, (winners (Resolve l2) !! w) as [b|] eqn:E2; try done.
    injection HW as _ _ _ HW. f_equal. destruct (rv_some _ _ R1 _ _ E1) as [[Ha _] _], (rv_some _ _ R2 _ _ E2) as [[Hb _] _].
    apply Hinj; [done|by apply HS|done]. }
  destruct (Resolve l1), (Resolve l2). cbn in *. by subst.
Qed.

(** ** The next version *)

Lemma NextVersion_above all w e : (forall x, x ∈ all -> eW x = w -> 0 <= eRev x < 2 ^ 64 - 1) -> e ∈ all -> eW e = w -> eRev e < NextVersion all w < 2 ^ 64.
Proof.
  intros HB He Hw. unfold NextVersion.
  assert (HF : forall l acc, 0 <= acc < 2 ^ 64 - 1 -> (forall x, x ∈ l -> eW x = w -> 0 <= eRev x < 2 ^ 64 - 1) ->
    let m := foldl (fun max e => if bool_decide (eW e = w) && (max <? eRev e) then eRev e else max) acc l in
    acc <= m < 2 ^ 64 - 1 /\ forall x, x ∈ l -> eW x = w -> eRev x <= m).
  { induction l as [|x l IH]; intros acc Ha Hl; cbn; [split; [lia|set_solver]|].
    assert (Hx : eW x = w -> 0 <= eRev x < 2 ^ 64 - 1) by (apply Hl; set_solver).
    assert (Hl' : forall y, y ∈ l -> eW y = w -> 0 <= eRev y < 2 ^ 64 - 1) by (intros; apply Hl; set_solver).
    destruct (bool_decide (eW x = w) && (acc <? eRev x)) eqn:EC; bool_prop.
    - destruct (IH (eRev x)) as [I1 I2]; [auto|done|]. specialize (Hx H). split; [lia|]. intros y [->|Hy]%elem_of_cons Hyw; [lia|by apply I2].
    - destruct (IH acc) as [I1 I2]; [done|done|]. split; [done|]. intros y [->|Hy]%elem_of_cons Hyw; [|by apply I2].
      apply andb_false_iff in EC as [EC|EC]; bool_prop; [done|lia]. }
  destruct (HF all 0 ltac:(lia) HB) as [H1 H2]. specialize (H2 e He Hw). rewrite wrap_small by lia. lia.
Qed.

(** a write wins.  An entry written at NextVersion over every entry synced
    (recognised or not, no revision at the last uint64) is the current one of its
    bill, without conflict, whatever the order it is read back in. *)
Theorem next_version_wins (all l : list Entry) (e : Entry)
    (HB : forall x, x ∈ all -> eW x = eW e -> 0 <= eRev x < 2 ^ 64 - 1) (HR : Recognised e = true) (HV : eRev e = NextVersion all (eW e))
    (HL : forall x, x ∈ l <-> x = e \/ x ∈ all) :
  winners (Resolve l) !! eW e = Some e /\ eW e ∉ conflicts (Resolve l).
Proof.
  destruct (Resolve_resolved l) as [R1 R2 R3]. assert (HE : of_bill l (eW e) e) by (split_and!; [apply HL; by left|done|done]).
  assert (HT : forall x, of_bill l (eW e) x -> x = e \/ eRev x < eRev e).
  { intros x (Hx & _ & Hw). apply HL in Hx as [->|Hx]; [by left|right]. rewrite HV. by apply NextVersion_above. }
  assert (HW : winners (Resolve l) !! eW e = Some e).
  { destruct (winners (Resolve l) !! eW e) as [c|] eqn:E; [|by destruct (R1 _ E e)]. destruct (R2 _ _ E) as [H1 H2]. destruct (HT c H1) as [->|Hc]; [done|].
    specialize (H2 e HE). unfold better in H2. by rewrite (proj2 (Z.ltb_lt _ _) Hc) in H2. }
  split; [done|]. rewrite elem_conflicts, R3, HW. cbn. intros (ids & [= <-] & (i & j & Hi & Hj & Hne)%size_two).
  apply elem_rumors_at in Hi as (a & Ha & Ea & <-), Hj as (b & Hb & Eb & <-). destruct (HT a Ha) as [->|], (HT b Hb) as [->|]; [done|lia..].
Qed.

(** ** The balance *)

Definition live_in (chain : gostring) (e : Entry) : bool := bool_decide (eState e = StateLive) && bool_decide (eChain e = chain).
Definition live_sum (chain : gostring) (es : list Entry) : Z := foldr (fun e s => eAmount e + s) 0 (List.filter (live_in chain) es).

Lemma live_sum_cons chain e es : live_sum chain (e :: es) = (if live_in chain e then eAmount e else 0) + live_sum chain es.
Proof. unfold live_sum. cbn [List.filter]. by destruct (live_in chain e). Qed.

Lemma live_sum_nonneg chain es : (forall e, e ∈ es -> 0 <= eAmount e < 2 ^ 64) -> 0 <= live_sum chain es.
Proof.
  induction es as [|e es IH]; intros H; [done|]. rewrite live_sum_cons. assert (0 <= eAmount e < 2 ^ 64) by (apply H; set_solver).
  assert (0 <= live_sum chain es) by (apply IH; intros; apply H; set_solver). destruct (live_in chain e); lia.
Qed.

Lemma live_sum_none chain es : existsb (live_in chain) es = false -> live_sum chain es = 0.
Proof. induction es as [|e es IH]; [done|]. cbn [existsb]. intros [E1 E2]%orb_false_iff. by rewrite live_sum_cons, E1, IH. Qed.

(** One entry, added with saturation. *)
Lemma balance_step_value out e : (forall c v, out !! c = Some v -> 0 <= v < 2 ^ 64) -> 0 <= eAmount e < 2 ^ 64 ->
  balance_step out e = if bool_decide (eState e = StateLive) then <[eChain e := Z.min (default 0 (out !! eChain e) + eAmount e) (2 ^ 64 - 1)]> out else out.
Proof.
  intros Hout He. unfold balance_step. case_bool_decide; [|done].
  assert (HD : 0 <= default 0 (out !! eChain e) < 2 ^ 64) by (destruct (out !! eChain e) as [v|] eqn:E; [by apply (Hout _ _ E)|done]).
  destruct (Add64_carry (default 0 (out !! eChain e)) (eAmount e) HD He) as [HC HV]. destruct (Add64 _ _ 0) as [sum carry]. cbn [fst snd] in HC, HV. rewrite HC.
  f_equal. destruct (Z.leb_spec (2 ^ 64) (default 0 (out !! eChain e) + eAmount e)); [lia|rewrite HV; lia].
Qed.

Lemma balance_fold chain es out : (forall e, e ∈ es -> 0 <= eAmount e < 2 ^ 64) -> (forall c v, out !! c = Some v -> 0 <= v < 2 ^ 64) ->
  foldl balance_step out es !! chain =
    if existsb (live_in chain) es then Some (Z.min (default 0 (out !! chain) + live_sum chain es) (2 ^ 64 - 1)) else out !! chain.
Proof.
  revert out. induction es as [|e l IH]; intros out Hl Hout; [done|]. cbn [foldl existsb]. rewrite live_sum_cons.
  assert (He : 0 <= eAmount e < 2 ^ 64) by (apply Hl; set_solver). assert (Hl' : forall x, x ∈ l -> 0 <= eAmount x < 2 ^ 64) by (intros; apply Hl; set_solver).
  pose proof (live_sum_nonneg chain l Hl') as HP. rewrite balance_step_value by done. unfold live_in at 1 3. case_bool_decide as HS; cbn [andb orb]; [|by apply IH].
  rewrite IH; [|done|].
  2:{ intros c x [[_ <-]|[_ Hx]]%lookup_insert_Some; [|by eapply Hout]. destruct (out !! eChain e) as [v|] eqn:E; cbn; [specialize (Hout _ _ E)|]; lia. }
  case_bool_decide as HCh; cbn [orb].
  - subst chain. rewrite lookup_insert, decide_True by done. cbn [default from_option id].
    destruct (existsb (live_in (eChain e)) l) eqn:EX; f_equal; [lia|]. rewrite (live_sum_none _ _ EX). f_equal. lia.
  - by rewrite lookup_insert_ne.
Qed.

(** the balance is the sum of the live bills of each chain, saturated at the
    largest uint64 and never wrapped, in whatever order Go's map yields the
    winners; a chain without a live bill has none. *)
Theorem balance_exact (es : list Entry) (chain : gostring) (HA : forall e, e ∈ es -> 0 <= eAmount e < 2 ^ 64) :
  Balance es !! chain = if existsb (live_in chain) es then Some (Z.min (live_sum chain es) (2 ^ 64 - 1)) else None.
Proof.
  unfold Balance. rewrite balance_fold; [by rewrite lookup_empty|done|]. intros c v. by rewrite lookup_empty.
Qed.
