(* ===== verification/PocketWrites.v ===== *)
(** * nipCP: what a call's outcome writes

    [ApplyResult] and [ApplyWithdraw] write only what was decided: valid entries,
    the call closed, every source spent or rewritten, no bill without its secret,
    and nothing for a withdrawal without a receipt the Hub signed. *)

From S2P Require Import Prelude GoLib Sha256 NostrUtils Pow Event Filter CashCall CashWithdraw CashWithdrawProps CashPayout CashRecover PocketEntry PocketState.

(** ** Rewrites *)

(** The next version of an entry is above it, and closing or spending keeps it
    valid. *)
Lemma rewrite_rev e at_ : 0 <= eRev e < 2 ^ 64 - 1 -> eRev (rewrite_entry e at_) = eRev e + 1.
Proof. intros H. cbn. by rewrite wrap_small by lia. Qed.

Lemma WithState_valid e s at_ : Validate e = true -> 0 <= eRev e < 2 ^ 64 - 1 -> 0 < at_ ->
  (if IsCall e then s = StatePending \/ s = StateDone else Final s = true /\ s <> StatePending /\ s <> StateDone) ->
  Validate (WithState e s at_) = true.
Proof.
  intros HV HR Ha HS. unfold Validate in *. change (IsCall (WithState e s at_)) with (IsCall e). change (eSecrets (WithState e s at_)) with (eSecrets e).
  change (valid_secret (WithState e s at_)) with (valid_secret e).
  apply andb_true_iff in HV as [[HC HSec]%andb_true_iff HX]. rewrite HSec.
  assert (HK : Known s = true).
  { destruct (IsCall e); [destruct HS as [->| ->]; by vm_compute|]. destruct HS as [HS _]. unfold Final, Known, in_list in *.
    apply bool_decide_eq_true in HS. apply bool_decide_eq_true. set_solver. }
  assert (HC' : valid_common (WithState e s at_) = true).
  { unfold valid_common in *. cbn [WithState set_state rewrite_entry eW eRev eState eCheckedAt eAmount eChain eWrapKey eExpiresAt eMint eSource].
    rewrite !andb_true_iff in *. destruct_and!. split_and!; try done; [|by apply Z.ltb_lt]. rewrite wrap_small by lia. apply negb_true_iff, Z.eqb_neq. lia. }
  rewrite HC'. cbn [andb]. destruct (IsCall e).
  - unfold valid_call in *. cbn [WithState set_state rewrite_entry eW eRequestID eState eDeadline eTarget eDevice eCash eIdentity eExpiresAt eOrderKey eNotify eAddress eQuote eReceipt].
    rewrite !andb_true_iff in *. destruct_and!. split_and!; try done. rewrite orb_true_iff, !bool_decide_eq_true. done.
  - unfold valid_bill in *. cbn [WithState set_state rewrite_entry eW eRequestID eState eDeadline eTarget eDevice eCash eIdentity eExpiresAt eOrderKey eNotify eAddress eQuote eReceipt].
    rewrite !andb_true_iff in *. destruct HS as (HF & H1 & H2). destruct_and!. split_and!; try done.
    + by rewrite !bool_decide_false.
    + by rewrite HF, andb_false_r.
Qed.

(** ** The bills a result made *)

Lemma valid_or_Ok {A} e (a b : A) : valid_or e a = Ok b <-> Validate e = true /\ a = b.
Proof. unfold valid_or. destruct (Validate e); naive_solver. Qed.

Lemma cash_secrets_kept pending r commitment secrets : cash_secrets pending r commitment = (true, secrets) ->
  exists s, s ∈ eSecrets pending /\ secrets = [mkSecret (sSecret s) []] /\ CashCommitment (sSecret s) = Some commitment /\
    (sSecret s ∉ HandOn r \/ sRole s = SecretRoleRemainder).
Proof.
  unfold cash_secrets. set (f := fun (acc : bool * list PendingSecret) s => _).
  assert (HF : forall l acc, (forall x, x ∈ l -> x ∈ eSecrets pending) -> foldl f acc l = (true, secrets) ->
    acc = (true, secrets) \/ exists s, s ∈ eSecrets pending /\ secrets = [mkSecret (sSecret s) []] /\ CashCommitment (sSecret s) = Some commitment /\
      (sSecret s ∉ HandOn r \/ sRole s = SecretRoleRemainder)).
  { induction l as [|s l IH]; intros acc Hl H; [by left|]. cbn [foldl] in H.
    assert (Hl' : forall x, x ∈ l -> x ∈ eSecrets pending) by (intros; apply Hl; set_solver). destruct (IH _ Hl' H) as [H'|H']; [clear H; rename H' into H|by right].
    unfold f in H. destruct (CashCommitment (sSecret s)) as [c|] eqn:EC; [|by left]. destruct (CommitmentsEqual c commitment) eqn:EE; [|by left].
    apply CommitmentsEqual_iff in EE as ->. destruct (negb _ || _) eqn:EH; [|by left]. injection H as H. right. exists s.
    split_and!; [apply Hl; set_solver|done|done|]. apply orb_true_iff in EH as [EH|EH]; [left|right; by apply bool_decide_eq_true in EH].
    apply negb_true_iff, bool_decide_eq_false in EH. done. }
  intros H. apply HF in H as [H|H]; [done|done|done].
Qed.

(** What is kept of a new bill. *)
Definition bill_kept (pending : Entry) (r : CallResult) (b : NewBill) (e : Entry) : Prop :=
  Validate e = true /\ (InPlace b = false -> eW e = nbW b /\ eRev e = 1) /\
  (is_cash (nbIdentity b) = false -> nbIdentity b ∈ Own r /\ eIdentity e = nbIdentity b /\ eSecrets e = []) /\
  (is_cash (nbIdentity b) = true -> exists s, s ∈ eSecrets pending /\ eSecrets e = [mkSecret (sSecret s) []] /\
     CashCommitment (sSecret s) = Some (nbCommitment b) /\ (sSecret s ∉ HandOn r \/ sRole s = SecretRoleRemainder)) /\
  match tTombstone (nbToken b) with
  | Some t => eCash e = [] /\ eState e = tombstone_state t
  | None => eCash e = tToken (nbToken b) /\ eState e = StateLive
  end.

(** The rewritten source of a bill transferred in place. *)
Definition from_source (sources : list Entry) (w : gostring) (id : EntryIdentity) (secrets : list PendingSecret) (at_ : Z) (e : Entry) : Prop :=
  exists s, s ∈ sources /\ eW s = w /\ e = set_owner (rewrite_entry s at_) id secrets.

Lemma in_place_spec sources w id secrets at_ e : in_place sources w id secrets at_ e = e \/ from_source sources w id secrets at_ (in_place sources w id secrets at_ e).
Proof.
  unfold in_place, from_source. set (f := fun _ _ => _).
  assert (HF : forall l acc, (forall x, x ∈ l -> x ∈ sources) -> (acc = e \/ exists s, s ∈ sources /\ eW s = w /\ acc = set_owner (rewrite_entry s at_) id secrets) ->
    foldl f acc l = e \/ exists s, s ∈ sources /\ eW s = w /\ foldl f acc l = set_owner (rewrite_entry s at_) id secrets).
  { induction l as [|s l IH]; intros acc Hl Hacc; [done|]. cbn [foldl]. apply IH; [intros; apply Hl; set_solver|]. unfold f. case_bool_decide; [|done].
    right. exists s. split_and!; [apply Hl; set_solver|done..]. }
  apply HF; [done|by left].
Qed.

Lemma billEntry_kept pending sources r b at_ e : billEntry pending sources r b at_ = Ok (Some e) ->
  bill_kept pending r b e /\ (InPlace b = true -> exists s, s ∈ sources /\ eW s = nbW b /\ eW e = nbW b /\ eRev e = eRev (rewrite_entry s at_)).
Proof.
  unfold billEntry. destruct (if is_cash (nbIdentity b) then _ else _) as [keep secrets] eqn:EK. destruct keep; cbn [negb]; [|done]. cbv zeta.
  set (id := if is_cash (nbIdentity b) then cash_identity else nbIdentity b). set (e0 := new_bill _ _ _ _ _ _).
  set (e1 := if InPlace b then _ else e0). destruct (InPlace b && (eRev e1 =? 1)) eqn:ER; [done|]. intros [HV [= <-]]%valid_or_Ok.
  assert (H1 : eIdentity e1 = id /\ eSecrets e1 = secrets /\ eW e1 = nbW b /\ (InPlace b = false -> eRev e1 = 1)).
  { unfold e1. destruct (InPlace b); [|done]. destruct (in_place_spec sources (nbW b) id secrets at_ e0) as [->|(s & _ & HW & ->)]; by split_and!. }
  destruct H1 as (HI & HS & HW & HR1). split; [unfold bill_kept; split; [done|]; split_and!|].
  - intros HP. specialize (HR1 HP). by destruct (tTombstone (nbToken b)).
  - intros HC. rewrite HC in EK. injection EK as EK <-. apply bool_decide_eq_true in EK. split; [done|]. unfold id in HI. rewrite HC in HI.
    by destruct (tTombstone (nbToken b)).
  - intros HC. rewrite HC in EK. apply cash_secrets_kept in EK as (s & H1 & -> & H2 & H3). exists s. split; [done|]. by destruct (tTombstone (nbToken b)).
  - by destruct (tTombstone (nbToken b)).
  - intros HP. rewrite HP in ER. cbn [andb] in ER. apply Z.eqb_neq in ER. unfold e1 in *. rewrite HP in *.
    destruct (in_place_spec sources (nbW b) id secrets at_ e0) as [HE|(s & Hs & HWs & HE)]; [by rewrite HE in ER|]. exists s. rewrite HE in *.
    split_and!; [done|done|by destruct (tTombstone (nbToken b))|by destruct (tTombstone (nbToken b))].
Qed.

Lemma bill_entries_spec pending sources r at_ bills writes rewritten ws rs :
  bill_entries pending sources r at_ bills writes rewritten = Ok (ws, rs) ->
  (forall e, e ∈ ws -> e ∈ writes \/ exists b, b ∈ bills /\ billEntry pending sources r b at_ = Ok (Some e)) /\
  (forall w, w ∈ rs -> w ∈ rewritten \/ exists e b, e ∈ ws /\ b ∈ bills /\ InPlace b = true /\ nbW b = w /\ billEntry pending sources r b at_ = Ok (Some e)) /\
  (forall e, e ∈ writes -> e ∈ ws).
Proof.
  revert writes rewritten. induction bills as [|b bills IH]; intros writes rewritten; cbn [bill_entries].
  - intros [= <- <-]. split_and!; auto.
  - intros (x & HB & H)%bind_Ok. destruct x as [e|].
    + apply IH in H as (I1 & I2 & I3). split_and!.
      * intros y Hy. destruct (I1 y Hy) as [[Hw|Hw]%elem_of_app|(b' & Hb' & HE)]; [by left| |right; exists b'; split; [set_solver|done]].
        apply list_elem_of_singleton in Hw as ->. right. exists b. split; [set_solver|done].
      * intros w Hw. destruct (I2 w Hw) as [Hr|(e' & b' & H1 & H2 & H3)]; [|right; exists e', b'; split; [done|split; [set_solver|done]]].
        destruct (InPlace b) eqn:EP; [|by left]. apply elem_of_cons in Hr as [->|Hr]; [|by left]. right. exists e, b.
        split_and!; [apply I3; set_solver|set_solver|done|done|done].
      * intros y Hy. apply I3. set_solver.
    + apply IH in H as (I1 & I2 & I3). split_and!; [|intros w Hw; destruct (I2 w Hw) as [|(e' & b' & H1 & H2 & H3)]; [by left|right; exists e', b'; split; [done|split; [set_solver|done]]]|done].
      intros y Hy. destruct (I1 y Hy) as [|(b' & Hb' & HE)]; [by left|right; exists b'; split; [set_solver|done]].
Qed.

(** C25: a call's outcome is applied exactly.  ApplyResult writes nothing for an open
    call unless the answer decided it; then it closes the call (the pending entry
    done, one revision up), a BAD_REQUEST touches no source, and a result spends
    every source that no written bill rewrites in place; what it writes are valid
    entries of the result's bills, each of an identity the user holds or a cash
    bill carrying the very secret of the call behind its commitment (one not
    handed on), a bill already destroyed only in a final state without cash. *)
Theorem apply_result_exact (pending : Entry) (sources writes batch : list Entry) (r : CallResult) (now : Z)
    (HA : ApplyResult pending sources r now = Ok (writes, batch)) :
  let at_ := if rAt r =? 0 then now else rAt r in
  open_call pending = true /\ rErr r <> OtherError /\
  (exists rest, batch = WithState pending StateDone at_ :: rest /\
     forall e, e ∈ rest -> exists s st, s ∈ sources /\ Final st = true /\ e = WithState s st at_) /\
  (forall e, e ∈ writes -> exists b, b ∈ Bills r /\ bill_kept pending r b e) /\
  match rErr r with
  | IsFinal => writes = [] /\ batch = [WithState pending StateDone at_]
  | IsGone _ => writes = []
  | NoError => forall s, s ∈ sources -> WithState s StateSpent at_ ∈ batch \/
                 exists e b, e ∈ writes /\ b ∈ Bills r /\ InPlace b = true /\ nbW b = eW s /\ eW e = eW s
  | OtherError => False
  end.
Proof.
  intros at_. unfold ApplyResult in HA. destruct (open_call pending); cbn [negb] in HA; [|done]. fold at_ in HA.
  assert (HTF : forall t, Final (tombstone_state t) = true).
  { intros t. unfold tombstone_state, MapStatus. cbn. repeat case_bool_decide; by vm_compute. }
  destruct (rErr r) as [| |t|] eqn:EE; [| | |done].
  - apply bind_Ok in HA as ([ws rs] & HB & H). injection H as <- <-. destruct (bill_entries_spec _ _ _ _ _ _ _ _ _ HB) as (H1 & H2 & _). split_and!; [done|done| | |].
    + eexists. split; [done|]. intros e He. apply list_elem_of_In, in_map_iff in He as (s & <- & Hs). apply List.filter_In in Hs as [Hs _]. apply list_elem_of_In in Hs.
      exists s, StateSpent. by split_and!.
    + intros e He. destruct (H1 e He) as [Hn|(b & Hb & HE)]; [set_solver|]. exists b. split; [done|]. by eapply billEntry_kept.
    + intros s Hs. destruct (decide (eW s ∈ rs)) as [Hin|Hno].
      * right. destruct (H2 _ Hin) as [Hn|(e & b & H3 & H4 & H5 & H6 & H7)]; [set_solver|]. exists e, b. split_and!; try done.
        apply billEntry_kept in H7 as [_ H7]. destruct (H7 H5) as (_ & _ & _ & H8 & _). congruence.
      * left. apply elem_of_cons. right. apply list_elem_of_In, in_map_iff. exists s. split; [done|]. apply List.filter_In. split; [by apply list_elem_of_In|].
        unfold in_list. by rewrite bool_decide_false.
  - injection HA as <- <-. split_and!; try done; [|set_solver]. exists []. split; [done|]. set_solver.
  - injection HA as <- <-. split_and!; try done; [|set_solver]. eexists. split; [done|]. intros e He. apply list_elem_of_In, in_map_iff in He as (s & <- & Hs).
    apply List.filter_In in Hs as [Hs _]. apply list_elem_of_In in Hs. exists s, (tombstone_state t). by split_and!.
Qed.

(** ** Withdrawals *)

Section Withdraw.
Context {GoLower0 : GoLower} {Schnorr0 : Schnorr} {EventJSON0 : EventJSON}.

(** The payout is the one of the entry's quote, and the Hub signed its receipt for
    this very call. *)
Definition receipt_signed (entry : Entry) (p : Payout) (hub : gostring) : Prop :=
  exists q ev, ParseWithdrawQuote (eQuote entry) = Ok q /\
    (pAddress p = qAddress (wqFields q) /\ pPayout p = qPayout (wqFields q) /\ pSentBy p = qSentBy (wqFields q) /\ pAmount p = qAmount (wqFields q)) /\
    UnmarshalEvent (pReceipt p) = Some ev /\ Verify [WithoutPowCheck] ev = Ok tt /\ HubIdentityEqual hub (PubKey ev) = true /\
    receipt_of ev (wqID q) (mkRE hub (eTarget entry) (wqID q) (eRequestID entry) (pAddress p) (pPayout p) (pSentBy p)).

Lemma wqID_nonempty raw q : ParseWithdrawQuote raw = Ok q -> wqID q <> [].
Proof.
  intros (ev & f & _ & HH & _ & _ & ->)%ParseWithdrawQuote_Ok. unfold quote_header_ok in HH. bool_prop. cbn. intros HE.
  match goal with H : isLowerHex64 (ID ev) = true |- _ => rewrite HE in H; discriminate H end.
Qed.

Lemma verifyEntryReceipt_Ok entry p hub : verifyEntryReceipt entry p hub = Ok tt -> receipt_signed entry p hub.
Proof.
  unfold verifyEntryReceipt. destruct (ParseWithdrawQuote (eQuote entry)) as [q| |] eqn:EQ; [|done|done]. destruct (negb _ || _ || _ || _) eqn:EM; [done|].
  destruct (VerifyWithdrawReceipt _ _) as [[]| |] eqn:EV; [|done|done]. intros _. bool_prop.
  apply VerifyWithdrawReceipt_Ok in EV as (ev & q' & HU & HV & HI & HR). cbn in HI. exists q, ev.
  assert (Hq : q' = wqID q) by (destruct HR as (_ & _ & _ & _ & _ & [HR|HR] & _); [by apply wqID_nonempty in EQ|done]).
  subst q'. repeat match goal with H : _ = _ (wqFields q) |- _ => rewrite <- H in HR end. by split_and!.
Qed.

Lemma remintEntry_Ok entry source p at_ b : remintEntry entry source p at_ = Ok b ->
  Validate b = true /\ eW b = pNewWalletPubkey p /\ eAmount b = pAmount p /\ eChain b = eChain entry /\ eRev b = 1 /\
  match tTombstone (pNewWalletToken p) with
  | Some t => eCash b = [] /\ eState b = tombstone_state t
  | None => eCash b = tToken (pNewWalletToken p) /\ eState b = StateLive
  end.
Proof.
  unfold remintEntry. cbv zeta. set (e0 := new_bill _ _ _ _ _ _). set (e1 := foldl _ e0 _).
  assert (HF : eW e1 = pNewWalletPubkey p /\ eAmount e1 = pAmount p /\ eChain e1 = eChain entry /\ eRev e1 = 1 /\ eCash e1 = []).
  { unfold e1. apply (foldl_inv (fun e => eW e = pNewWalletPubkey p /\ eAmount e = pAmount p /\ eChain e = eChain entry /\ eRev e = 1 /\ eCash e = [])); [|done].
    intros acc s H. exact H. }
  intros [HV <-]%valid_or_Ok. destruct HF as (H1 & H2 & H3 & H4 & H5). destruct (tTombstone (pNewWalletToken p)); by split_and!.
Qed.

(** C18: a withdrawal is believed only on its Hub's signature.  ApplyWithdraw writes
    nothing unless the call is open, the source is the bill it named and the
    payout is its quote's with a receipt the Hub signed for this very request;
    then the first receipt is kept with the call and the source spent, the call
    is done exactly when the payout is final or cancelled, and a cancelled one
    writes a valid entry for the re-minted bill, of the whole amount. *)
Theorem withdraw_needs_receipt (entry source : Entry) (p : Payout) (hub : gostring) (now : Z) (writes : list Entry) (done : option Entry)
    (HA : ApplyWithdraw entry source (Some p) hub now = Ok (writes, done)) :
  open_call entry = true /\ eW source = eTarget entry /\ receipt_signed entry p hub /\
  (is_Some done <-> pState p = PayoutFinal \/ pState p = PayoutCancelled) /\
  (forall d, done = Some d -> eState d = StateDone /\ eW d = eW entry /\ eQuote d = eQuote entry /\
     eReceipt d = if str_empty (eReceipt entry) then pReceipt p else eReceipt entry) /\
  (eReceipt entry = [] -> (exists c, c ∈ writes /\ eW c = eW entry /\ eReceipt c = pReceipt p /\ eState c = StatePending) /\
     (eState source = StateSpent \/ WithState source StateSpent now ∈ writes)) /\
  (pState p = PayoutCancelled -> exists b, b ∈ writes /\ Validate b = true /\ eW b = pNewWalletPubkey p /\ eAmount b = pAmount p) /\
  (eReceipt entry <> [] -> pState p <> PayoutCancelled -> writes = []).
Proof.
  unfold ApplyWithdraw in HA. destruct (open_call entry) eqn:EO; [|done]. cbn [negb orb] in HA. destruct (str_empty (eQuote entry)); [done|].
  destruct (negb (bool_decide (eW source = eTarget entry))) eqn:ES; [done|]. apply negb_false_iff, bool_decide_eq_true in ES.
  apply bind_Ok in HA as ([] & HR%verifyEntryReceipt_Ok & HA).
  assert (HP : eState entry = StatePending) by (unfold open_call in EO; apply andb_true_iff in EO as [_ EO]; by apply bool_decide_eq_true in EO).
  set (cur := if str_empty (eReceipt entry) then _ else entry) in HA. set (ws := if str_empty (eReceipt entry) then _ else []) in HA.
  assert (HC : eW cur = eW entry /\ eQuote cur = eQuote entry /\ eReceipt cur = if str_empty (eReceipt entry) then pReceipt p else eReceipt entry)
    by (unfold cur; destruct (str_empty (eReceipt entry)); by split_and!).
  assert (HW : eReceipt entry = [] -> (exists c, c ∈ ws /\ eW c = eW entry /\ eReceipt c = pReceipt p /\ eState c = StatePending) /\
     (eState source = StateSpent \/ WithState source StateSpent now ∈ ws)).
  { intros HE. unfold ws, cur, str_empty. rewrite bool_decide_true by done. split; [eexists; split; [apply elem_of_cons; by left|by split_and!]|].
    case_bool_decide; [by left|right]. apply list_elem_of_further, list_elem_of_here. }
  assert (HN : eReceipt entry <> [] -> ws = []) by (intros HE; unfold ws, str_empty; by rewrite bool_decide_false).
  assert (HD : forall d, Some (WithState cur StateDone now) = Some d -> eState d = StateDone /\ eW d = eW entry /\ eQuote d = eQuote entry /\
     eReceipt d = if str_empty (eReceipt entry) then pReceipt p else eReceipt entry) by (intros d [= <-]; destruct HC as (H1 & H2 & H3); by split_and!).
  split; [done|]. split; [done|]. split; [done|]. destruct (pState p) eqn:EP.
  1-3, 6: injection HA as <- <-; split_and!; try done; [split; [by intros []|naive_solver]|auto].
  - injection HA as <- <-. split_and!; try done; [split; [intros _; by left|by eexists]|auto].
  - apply bind_Ok in HA as (b & HB & HA). injection HA as <- <-. apply remintEntry_Ok in HB as (B1 & B2 & B3 & _). split_and!; try done.
    + split; [intros _; by right|by eexists].
    + intros HE. destruct (HW HE) as [(c & H1 & H2) H3]. split; [exists c; split; [set_solver|done]|]. destruct H3; [by left|right; set_solver].
    + intros _. exists b. split; [set_solver|done].
Qed.

End Withdraw.
