(* ===== verification/OrderTerms.v ===== *)
(** * nipCO: the terms, the placement and the retention of orders

    [nipCO/fees.go] (what an order costs and the bills a payment mints),
    [terms.go] (the terms a Hub announces, read and checked), [request.go] (the
    Hub's reading of a request), [placement.go] (whether an order is placed) and
    [retention.go] (how long it is kept).  [encoding/json] is a parameter; the
    text of a refusal is a constructor of [OrderReason]. *)

From S2P Require Import Prelude GoLib Sha256 NostrUtils Pow Event Filter CashCall CashWithdraw CashPayout CashRecover PocketEntry PocketState.

(** ** The terms *)

Record Tier := mkTier { UpToMillis : option Z; tN : Z }.
Record KindTerms := mkKT { kMin : Z; kMax : Z; FeeBase : Z; FeePpm : Z; Window : Z; tiers : list Tier }.
Record BillTerms := mkBT { RedeemFeeBase : Z; RedeemFeePpm : Z; MinTransferMillis : Z }.
Record OrderTerms := mkTerms { tLightning : option KindTerms; tOnchain : option KindTerms; Bill : BillTerms }.

Inductive OrderErr := ErrOrderRequest | ErrOrderAmount | ErrOrderTerms.

Definition SellsNothing (t : OrderTerms) : bool := negb (bool_decide (is_Some (tLightning t))) && negb (bool_decide (is_Some (tOnchain t))).

Definition TermsKind (t : OrderTerms) (payment : gostring) : option KindTerms :=
  if bool_decide (payment = PaymentLightning) then tLightning t
  else if bool_decide (payment = PaymentOnchain) then tOnchain t
  else None.

(** The tiers from one on; [prev] is the tier before them. *)
Fixpoint valid_tiers_from (prev : option Tier) (l : list Tier) : outcome OrderErr unit :=
  match l with
  | [] => Ok tt
  | tr :: rest =>
      let last := match rest with [] => true | _ => false end in
      if tN tr <? 1 then Err ErrOrderTerms
      else if last && bool_decide (is_Some (UpToMillis tr)) then Err ErrOrderTerms
      else if negb last && negb (bool_decide (is_Some (UpToMillis tr))) then Err ErrOrderTerms
      else match prev with
      | Some p =>
          if last then valid_tiers_from (Some tr) rest
          else match UpToMillis tr, UpToMillis p with
          | Some a, Some b => if a <=? b then Err ErrOrderTerms else valid_tiers_from (Some tr) rest
          | _, _ => Panic
          end
      | None => valid_tiers_from (Some tr) rest
      end
  end.

Definition validTiers (l : list Tier) : outcome OrderErr unit := valid_tiers_from None l.

Definition kind_validate (k : KindTerms) (onchain : bool) (ceiling : Z) : outcome OrderErr unit :=
  if kMax k <? kMin k then Err ErrOrderTerms
  else if (0 <? ceiling) && (ceiling <? kMax k) then Err ErrOrderTerms
  else if kMax k =? 0 then Err ErrOrderTerms
  else if Window k =? 0 then Err ErrOrderTerms
  else if negb onchain && (0 <? zlen (tiers k)) then Err ErrOrderTerms
  else if onchain && (zlen (tiers k) =? 0) then Err ErrOrderTerms
  else validTiers (tiers k).

Fixpoint validate_kinds (t : OrderTerms) (ceiling : Z) (kinds : list gostring) : outcome OrderErr unit :=
  match kinds with
  | [] => Ok tt
  | kind :: kinds =>
      match TermsKind t kind with
      | None => validate_kinds t ceiling kinds
      | Some k =>
          _ ← kind_validate k (bool_decide (kind = PaymentOnchain)) ceiling;
          validate_kinds t ceiling kinds
      end
  end.

Definition TermsValidate (t : OrderTerms) (perWalletMaxMillis : Z) : outcome OrderErr unit :=
  validate_kinds t perWalletMaxMillis [PaymentLightning; PaymentOnchain].

(** ** Fees and bills *)

Definition OrderFee (kind : gostring) (k : KindTerms) (amountMillis : Z) : outcome OrderErr (Z * Z) :=
  if negb (bool_decide (kind = PaymentLightning)) && negb (bool_decide (kind = PaymentOnchain)) then Err ErrOrderRequest
  else if bool_decide (kind = PaymentOnchain) && negb (amountMillis mod 1000 =? 0) then Err ErrOrderRequest
  else
    let '(hi, lo) := Mul64 (FeePpm k) amountMillis in
    if 1000000 <=? hi then Err ErrOrderAmount
    else
      qr ← Div64 hi lo 1000000;
      let '(fee, carry) := Add64 (FeeBase k) qr.1 0 in
      if negb (carry =? 0) then Err ErrOrderAmount
      else
        let '(pay, carry) := Add64 amountMillis fee 0 in
        if negb (carry =? 0) then Err ErrOrderAmount
        else if bool_decide (kind = PaymentOnchain) && negb (pay mod 1000 =? 0) then
          let up := 1000 - pay mod 1000 in
          let '(pay, carry) := Add64 pay up 0 in
          if negb (carry =? 0) then Err ErrOrderAmount else Ok (u64 (fee + up), pay)
        else Ok (fee, pay).

Fixpoint ConfirmationsFor (l : list Tier) (valueMillis : Z) : outcome OrderErr Z :=
  match l with
  | [] => Err ErrOrderTerms
  | t :: l =>
      if match UpToMillis t with None => true | Some u => valueMillis <=? u end then Ok (tN t)
      else ConfirmationsFor l valueMillis
  end.

(** The loop of [MintSplit]; [rest / max] turns and the last append. *)
Fixpoint split_bills (fuel : nat) (rest max : Z) (out : list Z) : list Z :=
  match fuel with
  | O => out
  | S fuel => if max <? rest then split_bills fuel (u64 (rest - max)) max (out ++ [max]) else out ++ [rest]
  end.

Definition MintSplit (receivedMillis feeMillis maxMillis : Z) : list Z :=
  if receivedMillis <=? feeMillis then []
  else
    let rest := u64 (receivedMillis - feeMillis) in
    if maxMillis =? 0 then [rest]
    else split_bills (S (Z.to_nat (rest / maxMillis))) rest maxMillis [].

(** ** Reading the terms *)

(** [encoding/json]: an object into a map of its members, an array into its
    elements ([null] is no element), a string into a variable ([null] leaves it
    empty), and the three strings of a recipient. *)
Class OrderJSON := {
  UnmarshalObject : gostring -> option (gmap gostring gostring);
  UnmarshalArray : gostring -> option (list gostring);
  UnmarshalString : gostring -> option gostring;
  UnmarshalRecipient : gostring -> option (gostring * gostring * gostring);
}.

Section Reading.
Context {OrderJSON0 : OrderJSON}.

Definition object (raw : gostring) : option (gmap gostring gostring) :=
  match TrimSpace raw with
  | "{"%byte :: _ => UnmarshalObject raw
  | _ => None
  end.

Definition uintValue (raw : gostring) : option Z := Dec.parse_uint (TrimSpace raw).

Definition need_uint (obj : gmap gostring gostring) (name : gostring) : option Z := v ← obj !! name; uintValue v.

(** A missing member leaves the field at zero. *)
Definition optUint (obj : gmap gostring gostring) (name : gostring) : option Z :=
  match obj !! name with None => Some 0 | Some v => uintValue v end.

Definition parse_tier (raw : gostring) : option Tier :=
  obj ← object raw;
  n ← need_uint obj (bs "n");
  if 2 ^ 32 - 1 <? n then None
  else match obj !! bs "up_to_millis" with
  | None => Some (mkTier None n)
  | Some uv => u ← uintValue uv; Some (mkTier (Some u) n)
  end.

Definition parseKind (raw : gostring) (onchain : bool) : option KindTerms :=
  obj ← object raw;
  mn ← need_uint obj (bs "min_millis");
  mx ← need_uint obj (bs "max_millis");
  base ← need_uint obj (bs "fee_base");
  ppm ← need_uint obj (bs "fee_ppm");
  window ← need_uint obj (bs "window");
  match obj !! bs "confirmations" with
  | None => Some (mkKT mn mx base ppm window [])
  | Some raw =>
      if negb onchain then None
      else
        l ← UnmarshalArray raw;
        ts ← mapM parse_tier l;
        Some (mkKT mn mx base ppm window ts)
  end.

Definition parse_kind_of (obj : gmap gostring gostring) (kind : gostring) : option (option KindTerms) :=
  match obj !! kind with
  | None => Some None
  | Some raw => k ← parseKind raw (bool_decide (kind = PaymentOnchain)); Some (Some k)
  end.

Definition ParseOrderInfo (getInfo : gostring) : option OrderTerms :=
  top ← object getInfo;
  obj ← match top !! bs "cash_order" with Some raw => object raw | None => Some top end;
  lightning ← parse_kind_of obj PaymentLightning;
  onchain ← parse_kind_of obj PaymentOnchain;
  match obj !! bs "bill" with
  | None => Some (mkTerms lightning onchain (mkBT 0 0 0))
  | Some raw =>
      b ← object raw;
      base ← optUint b (bs "redeem_fee_base");
      ppm ← optUint b (bs "redeem_fee_ppm");
      mint ← optUint b (bs "min_transfer_millis");
      Some (mkTerms lightning onchain (mkBT base ppm mint))
  end.

(** ** The request and its placement *)

Inductive OrderReason :=
  | NoRequest | Retired | NotSold | NotAPayment | UntrustedIA | OutsideBounds | CeilingReached | TooManyOnchain | CannotReceive
  | NotAnObject | NotAString (name : gostring) | ForbiddenKey (name : gostring) | NoRecipient | BadRecipient
  | NoAmount | BadAmount | NotWholeUnits | BadNotify | BadRequestID.

Record OrderError := mkOErr { oeCode : gostring; oeReason : OrderReason; Step : Z }.

Definition badRequest (r : OrderReason) : OrderError := mkOErr ErrCodeBadRequest r 3.

Record Recipient := mkRP { IdentityType : gostring; IdentityValue : gostring; IAPubkey : gostring }.

Record CashOrderRequest := mkReq {
  rqRecipient : Recipient; rqAmount : Z; rqPayment : gostring; rqNotify : gostring; rqRequestID : gostring; defect : option OrderError;
}.

Definition ValidNotify (s : gostring) : bool := isLowerHex64 s.

Definition forbiddenOrderKeys : list gostring :=
  [bs "recipients"; bs "expiry"; bs "cash_secret"; bs "idempotency_key"; bs "min_transfer_millis"].

(** The recipient read, and whether it is valid. *)
Definition parseOrderRecipient (raw : gostring) : Recipient * bool :=
  match object raw with
  | None => (mkRP [] [] [], false)
  | Some _ =>
      match UnmarshalRecipient raw with
      | None => (mkRP [] [] [], false)
      | Some (ty, v, ia) =>
          let rp := mkRP ty v ia in
          if negb (isLowerHex64 v) then (rp, false)
          else if bool_decide (ty = bs "pubkey") || bool_decide (ty = bs "cash") then (rp, bool_decide (ia = []))
          else if bool_decide (ty = bs "connection_key") then (rp, isLowerHex64 ia)
          else (rp, false)
      end
  end.

(** A string member: [Some []] when it is missing. *)
Definition string_field (obj : gmap gostring gostring) (name : gostring) : option gostring :=
  match obj !! name with None => Some [] | Some v => UnmarshalString v end.

Definition string_or (obj : gmap gostring gostring) (name : gostring) : outcome OrderError gostring :=
  match string_field obj name with Some s => Ok s | None => Err (badRequest (NotAString name)) end.

(** The defect of the third step, and the recipient and amount read before it. *)
Definition order_defect (obj : gmap gostring gostring) (payment notify requestID : gostring) : Recipient * Z * option OrderError :=
  let none := mkRP [] [] [] in
  match List.find (fun k => bool_decide (is_Some (obj !! k))) forbiddenOrderKeys with
  | Some k => (none, 0, Some (badRequest (ForbiddenKey k)))
  | None =>
      match obj !! bs "recipient" with
      | None => (none, 0, Some (badRequest NoRecipient))
      | Some rv =>
          let '(rp, ok) := parseOrderRecipient rv in
          if negb ok then (rp, 0, Some (badRequest BadRecipient))
          else match obj !! bs "amount_millis" with
          | None => (rp, 0, Some (badRequest NoAmount))
          | Some av =>
              match uintValue av with
              | None => (rp, 0, Some (badRequest BadAmount))
              | Some amount =>
                  if amount =? 0 then (rp, 0, Some (badRequest BadAmount))
                  else
                    let d :=
                      if negb (bool_decide (payment = PaymentLightning)) && negb (bool_decide (payment = PaymentOnchain)) then Some NotAPayment
                      else if bool_decide (payment = PaymentOnchain) && negb (amount mod 1000 =? 0) then Some NotWholeUnits
                      else if negb (ValidNotify notify) then Some BadNotify
                      else if negb (ValidRequestID requestID) then Some BadRequestID
                      else None in
                    (rp, amount, badRequest <$> d)
              end
          end
      end
  end.

(** The request, or the refusal of one that cannot be read at all.  The second
    result of the code, the defect as an error, is [defect] of the request. *)
Definition ParseCashOrderRequest (raw : gostring) : outcome OrderError CashOrderRequest :=
  match object raw with
  | None => Err (badRequest NotAnObject)
  | Some obj =>
      payment ← string_or obj (bs "payment");
      notify ← string_or obj (bs "notify");
      requestID ← string_or obj (bs "request_id");
      let '(rp, amount, d) := order_defect obj payment notify requestID in
      Ok (mkReq rp amount payment notify requestID d)
  end.

End Reading.

Record PlacementInput := mkPI {
  piTerms : OrderTerms; piRetired : bool; IATrusted : bool; OpenMillis : Z; OpenCeiling : Z;
  OpenOnchainCount : Z; OpenOnchainCeiling : Z; LightningReceivable : bool;
}.

(** [None] places the order. *)
Definition CheckPlacement (req : option CashOrderRequest) (i : PlacementInput) : option OrderError :=
  match req with
  | None => Some (badRequest NoRequest)
  | Some req =>
      if piRetired i then Some (mkOErr ErrCodeRestricted Retired 2)
      else
        let k := TermsKind (piTerms i) (rqPayment req) in
        if (bool_decide (rqPayment req = PaymentLightning) || bool_decide (rqPayment req = PaymentOnchain)) && negb (bool_decide (is_Some k))
        then Some (mkOErr ErrCodeRestricted NotSold 2)
        else match defect req with
        | Some d => Some d
        | None =>
            match k with
            | None => Some (badRequest NotAPayment)
            | Some k =>
                if negb (IATrusted i) then Some (mkOErr ErrCodeRestricted UntrustedIA 3)
                else if (rqAmount req <? kMin k) || (kMax k <? rqAmount req) then Some (mkOErr ErrCodeRestricted OutsideBounds 4)
                else
                  let '(total, carry) := Add64 (OpenMillis i) (rqAmount req) 0 in
                  if negb (carry =? 0) || (OpenCeiling i <? total) then Some (mkOErr ErrCodeQuotaExceeded CeilingReached 5)
                  else if bool_decide (rqPayment req = PaymentOnchain) && (0 <? OpenOnchainCeiling i) && (OpenOnchainCeiling i <=? OpenOnchainCount i)
                  then Some (mkOErr ErrCodeQuotaExceeded TooManyOnchain 5)
                  else if bool_decide (rqPayment req = PaymentLightning) && negb (LightningReceivable i)
                  then Some (mkOErr ErrCodeQuotaExceeded CannotReceive 5)
                  else None
            end
        end
  end.

(** ** Retention *)

Record OrderRetention := mkOR { orPayment : gostring; orPayBy : Z; orDeadline : Z; Horizon : Z; orSeen : bool; Watched : bool; BillLiveOrTombstoned : bool }.
Record UnmintedPayments := mkUP { Confirmed : Z; Unconfirmed : Z; LastSeenAt : Z; MaxWait : Z }.

Definition OrderRetained (r : OrderRetention) (now : Z) : bool :=
  (now <=? orPayBy r) || (now <=? s64 (orDeadline r + Horizon r))
  || (bool_decide (orPayment r = PaymentOnchain) && orSeen r && Watched r)
  || (bool_decide (orPayment r = PaymentLightning) && BillLiveOrTombstoned r).

Definition OrderBlocksHubDelete (r : OrderRetention) (u : UnmintedPayments) (now : Z) : bool :=
  (now <=? orPayBy r) || (now <=? s64 (orDeadline r + Horizon r))
  || (bool_decide (orPayment r = PaymentLightning) && BillLiveOrTombstoned r)
  || (0 <? Confirmed u)
  || ((0 <? Unconfirmed u) && (now <=? s64 (LastSeenAt u + MaxWait u))).

Definition OrderHubDeleteAt (r : OrderRetention) (u : UnmintedPayments) : Z * bool :=
  if (0 <? Confirmed u) || (bool_decide (orPayment r = PaymentLightning) && BillLiveOrTombstoned r) then (0, false)
  else
    let at_ := Z.max (orPayBy r) (s64 (orDeadline r + Horizon r)) in
    let at_ := if 0 <? Unconfirmed u then Z.max at_ (s64 (LastSeenAt u + MaxWait u)) else at_ in
    (s64 (at_ + 1), true).

Definition UnpaidOnchainDeleteAt (payBy deadline horizon : Z) : Z := Z.max payBy (s64 (deadline + horizon)).

Definition UsedMarkDroppable (deadline horizon now : Z) (paid : bool) : bool :=
  negb paid && (s64 (deadline + horizon) <? now).

(** ** Facts *)

(** *** Fees *)

Definition order_fee (k : KindTerms) (amount : Z) : Z := FeeBase k + FeePpm k * amount / 1000000.

(** The next multiple of a base unit. *)
Definition up_to_unit (z : Z) : Z := (z + 999) / 1000 * 1000.

Definition kind_in_range (k : KindTerms) : Prop :=
  0 <= kMin k < 2 ^ 64 /\ 0 <= kMax k < 2 ^ 64 /\ 0 <= FeeBase k < 2 ^ 64 /\ 0 <= FeePpm k < 2 ^ 64 /\ 0 <= Window k < 2 ^ 64 /\
  Forall (fun t => 0 <= tN t < 2 ^ 32 /\ forall u, UpToMillis t = Some u -> 0 <= u < 2 ^ 64) (tiers k).

Lemma Add64_spec x y : 0 <= x < 2 ^ 64 -> 0 <= y < 2 ^ 64 ->
  Add64 x y 0 = if 2 ^ 64 <=? x + y then (x + y - 2 ^ 64, 1) else (x + y, 0).
Proof.
  intros Hx Hy. unfold Add64, wrap. rewrite Z.add_0_r. destruct (Z.leb_spec (2 ^ 64) (x + y)).
  - f_equal; [symmetry; apply (Z.mod_unique _ _ 1); lia|symmetry; apply (Z.div_unique _ _ _ (x + y - 2 ^ 64)); lia].
  - rewrite Z.mod_small, Z.div_small by lia. done.
Qed.

Lemma prop_fee_value {E} ppm amount : 0 <= ppm < 2 ^ 64 -> 0 <= amount < 2 ^ 64 ->
  let '(hi, lo) := Mul64 ppm amount in
  (1000000 <= hi -> 2 ^ 64 <= ppm * amount / 1000000) /\
  (hi < 1000000 -> @Div64 E hi lo 1000000 = Ok (ppm * amount / 1000000, (ppm * amount) mod 1000000) /\ 0 <= ppm * amount / 1000000 < 2 ^ 64).
Proof.
  intros Hp Ha. unfold Mul64, Div64, wrap. set (m := ppm * amount). assert (0 <= m) by (unfold m; nia).
  pose proof (Z.div_mod m (2 ^ 64) ltac:(lia)) as HM. pose proof (Z.mod_pos_bound m (2 ^ 64) ltac:(lia)). split; intros Hh.
  - apply Z.div_le_lower_bound; lia.
  - cbn [Z.eqb orb]. destruct (Z.leb_spec 1000000 (m / 2 ^ 64)); [lia|].
    replace (m / 2 ^ 64 * 2 ^ 64 + m mod 2 ^ 64) with m by lia. split; [done|].
    split; [apply Z.div_pos; lia|]. apply Z.div_lt_upper_bound; lia.
Qed.

Lemma up_to_unit_spec z : 0 <= z -> z <= up_to_unit z < z + 1000 /\ up_to_unit z mod 1000 = 0.
Proof. intros Hz. unfold up_to_unit. rewrite Z.mod_mul by lia. split; [|done]. dlia. Qed.

Lemma up_to_unit_step z : 0 <= z -> up_to_unit z = if z mod 1000 =? 0 then z else z + (1000 - z mod 1000).
Proof. intros Hz. unfold up_to_unit. destruct (Z.eqb_spec (z mod 1000) 0); dlia. Qed.

(** The closed form the fee computes. *)
Definition order_pay (kind : gostring) (k : KindTerms) (amount : Z) : Z :=
  if bool_decide (kind = PaymentOnchain) then up_to_unit (amount + order_fee k amount) else amount + order_fee k amount.

(** Does the sum reach [2 ^ 64]? *)
#[local] Ltac case_over := match goal with |- context [2 ^ 64 <=? ?x] => destruct (Z.leb_spec (2 ^ 64) x) end.

Lemma OrderFee_value kind k amount : kind_in_range k -> 0 <= amount < 2 ^ 64 ->
  OrderFee kind k amount =
    if negb (bool_decide (kind = PaymentLightning)) && negb (bool_decide (kind = PaymentOnchain)) then Err ErrOrderRequest
    else if bool_decide (kind = PaymentOnchain) && negb (amount mod 1000 =? 0) then Err ErrOrderRequest
    else if 2 ^ 64 <=? order_pay kind k amount then Err ErrOrderAmount
    else Ok (order_pay kind k amount - amount, order_pay kind k amount).
Proof.
  intros (_ & _ & HB & HP & _) HA. unfold OrderFee. destruct (_ && _) eqn:E1; [done|]. destruct (bool_decide (kind = PaymentOnchain) && _) eqn:E2; [done|].
  pose proof (@prop_fee_value OrderErr (FeePpm k) amount HP HA) as HV. destruct (Mul64 _ _) as [hi lo]. destruct HV as [HV1 HV2].
  unfold order_pay, order_fee. set (q := FeePpm k * amount / 1000000) in *.
  assert (Hu : forall z, z <= up_to_unit z \/ z < 0) by (intros z; destruct (Z.ltb_spec z 0); [by right|left]; apply up_to_unit_spec; lia).
  destruct (Z.leb_spec 1000000 hi).
  - specialize (HV1 ltac:(lia)). case_bool_decide; [destruct (Hu (amount + (FeeBase k + q))); [|lia]|]; case_over; done || lia.
  - destruct HV2 as [-> Hq]; [lia|]. cbn [mbind outcome_bind fst]. rewrite Add64_spec by done.
    destruct (Z.leb_spec (2 ^ 64) (FeeBase k + q)); cbn [negb Z.eqb].
    { case_bool_decide; [destruct (Hu (amount + (FeeBase k + q))); [|lia]|]; case_over; done || lia. }
    rewrite Add64_spec by lia. destruct (Z.leb_spec (2 ^ 64) (amount + (FeeBase k + q))); cbn [negb Z.eqb].
    { case_bool_decide; [destruct (Hu (amount + (FeeBase k + q))); [|lia]|]; case_over; done || lia. }
    case_bool_decide as EK; cbn [andb].
    2: { destruct (Z.leb_spec (2 ^ 64) (amount + (FeeBase k + q))); [lia|]. do 2 f_equal. lia. }
    rewrite up_to_unit_step by lia. destruct (Z.eqb_spec ((amount + (FeeBase k + q)) mod 1000) 0) as [E0|E0]; cbn [negb].
    { destruct (Z.leb_spec (2 ^ 64) (amount + (FeeBase k + q))); [lia|]. do 2 f_equal. lia. }
    pose proof (Z.mod_pos_bound (amount + (FeeBase k + q)) 1000 ltac:(lia)). rewrite Add64_spec by lia.
    destruct (Z.leb_spec (2 ^ 64) (amount + (FeeBase k + q) + (1000 - (amount + (FeeBase k + q)) mod 1000))); cbn [negb Z.eqb]; [done|].
    rewrite wrap_small by lia. do 2 f_equal. lia.
Qed.

(** *** Bills *)

Lemma split_bills_value fuel rest max out : 0 < max -> 0 < rest < 2 ^ 64 -> rest / max < Z.of_nat fuel ->
  split_bills fuel rest max out = out ++ repeat max (Z.to_nat ((rest - 1) / max)) ++ [rest - max * ((rest - 1) / max)].
Proof.
  intros Hm. revert rest out. induction fuel as [|fuel IH]; intros rest out Hr Hf.
  { pose proof (Z.div_pos rest max ltac:(lia) ltac:(lia)). lia. }
  cbn [split_bills]. destruct (Z.ltb_spec max rest).
  - rewrite wrap_small by lia.
    assert (Hd : rest / max = (rest - max) / max + 1) by (replace rest with (rest - max + 1 * max) at 1 by lia; apply Z.div_add; lia).
    assert (Hd1 : (rest - 1) / max = (rest - max - 1) / max + 1) by (replace (rest - 1) with (rest - max - 1 + 1 * max) by lia; apply Z.div_add; lia).
    pose proof (Z.div_pos (rest - max - 1) max ltac:(lia) ltac:(lia)).
    rewrite IH, Hd1, Z2Nat.inj_add by lia. replace (Z.to_nat ((rest - max - 1) / max) + Z.to_nat 1)%nat with (S (Z.to_nat ((rest - max - 1) / max))) by lia.
    cbn [repeat]. rewrite <- app_assoc. cbn [app]. do 4 f_equal. lia.
  - by rewrite (Z.div_small (rest - 1) max), Z.mul_0_r, Z.sub_0_r by lia.
Qed.

Definition total_of (l : list Z) : Z := foldr Z.add 0 l.

Lemma total_of_repeat n m : total_of (repeat m n) = m * Z.of_nat n.
Proof. unfold total_of. induction n as [|n IH]; [cbn; lia|]. cbn [repeat foldr]. rewrite IH. lia. Qed.

Lemma total_of_app l k : total_of (l ++ k) = total_of l + total_of k.
Proof. unfold total_of. induction l as [|a l IH]; [done|]. cbn [app foldr]. rewrite IH. lia. Qed.

(** *** Tiers *)

Lemma valid_tiers_total prev l : match prev with Some p => is_Some (UpToMillis p) | None => True end -> valid_tiers_from prev l <> Panic.
Proof.
  revert prev. induction l as [|tr l IH]; intros prev HP; [done|]. cbn [valid_tiers_from]. destruct (tN tr <? 1); [done|].
  destruct l as [|tr2 l]; cbn [andb negb].
  { case_bool_decide; [done|]. destruct prev; by cbn. }
  case_bool_decide as HS; cbn [negb]; [|done].
  destruct prev as [p|]; [|by apply IH]. destruct HS as [a Ha], HP as [b Hb]. rewrite Ha, Hb. destruct (a <=? b); [done|]. apply IH. by rewrite Ha.
Qed.

(** What valid tiers are: all positive, all but the last bounded, in strictly
    ascending order. *)
Fixpoint tiers_from (low : Z) (l : list Tier) : Prop :=
  match l with
  | [] => True
  | tr :: rest =>
      1 <= tN tr /\
      match rest with
      | [] => UpToMillis tr = None
      | _ => exists u, UpToMillis tr = Some u /\ low < u /\ tiers_from u rest
      end
  end.

Lemma valid_tiers_ok prev l : match prev with Some p => is_Some (UpToMillis p) | None => True end ->
  valid_tiers_from prev l = Ok tt ->
  forall low, match prev with Some p => UpToMillis p = Some low | None => forall tr u, tr ∈ l -> UpToMillis tr = Some u -> low < u end -> tiers_from low l.
Proof.
  revert prev. induction l as [|tr l IH]; intros prev HP; [done|]. cbn [valid_tiers_from]. destruct (Z.ltb_spec (tN tr) 1); [done|].
  destruct l as [|tr2 l]; cbn [andb negb].
  { case_bool_decide as HS; [done|]. intros _ low _. cbn. split; [lia|]. destruct (UpToMillis tr); [|done]. by destruct HS. }
  case_bool_decide as HS; cbn [negb]; [|done]. destruct HS as [a Ha].
  intros HV low Hlow. cbn [tiers_from]. split; [lia|]. exists a. split; [done|]. destruct prev as [p|].
  - rewrite Ha, Hlow in HV. destruct (Z.leb_spec a low); [done|]. split; [done|].
    by apply (IH (Some tr)); [rewrite Ha|..].
  - split; [eapply Hlow; [by left|done]|]. by apply (IH (Some tr)); [rewrite Ha|..].
Qed.

(** The tier of a value: the first that reaches it. *)
Lemma tiers_cover low l v : l <> [] -> tiers_from low l ->
  exists pre t post, l = pre ++ t :: post /\ ConfirmationsFor l v = Ok (tN t) /\ 1 <= tN t /\
    Forall (fun t' => exists u, UpToMillis t' = Some u /\ u < v) pre /\
    match UpToMillis t with Some u => v <= u | None => post = [] end.
Proof.
  revert low. induction l as [|tr l IH]; intros low Hne HT; [done|]. cbn [tiers_from ConfirmationsFor] in *. destruct HT as [HN HT].
  destruct l as [|tr2 l].
  { exists [], tr, []. rewrite HT. by split_and!. }
  destruct HT as (u & Hu & _ & HT). rewrite Hu. destruct (Z.leb_spec v u).
  { exists [], tr, (tr2 :: l). rewrite Hu. by split_and!. }
  destruct (IH u ltac:(done) HT) as (pre & t & post & -> & HC & H1 & HF & HU). exists (tr :: pre), t, post.
  split_and!; [done|done|done| |done]. constructor; [by exists u|done].
Qed.

(** *** The terms read *)

#[local] Ltac inv_some :=
  repeat match goal with
  | H : (_ ≫= _) = Some _ |- _ =>
      let a := fresh "a" in let E := fresh "E" in
      apply bind_Some in H; destruct H as (a & E & H); cbn beta in H
  end.

Section ReadingFacts.
Context {OrderJSON0 : OrderJSON}.

Lemma uintValue_range raw z : uintValue raw = Some z -> 0 <= z < 2 ^ 64.
Proof.
  unfold uintValue, Dec.parse_uint. intros (d & ED & HD)%bind_Some. destruct (Z.ltb_spec d (2 ^ 64)); [|done]. injection HD as <-.
  split; [|done]. unfold Dec.parse_digits in ED. destruct (TrimSpace raw); [done|]. apply bind_Some in ED as (u & _ & [= <-]). lia.
Qed.

Lemma need_uint_range obj name z : need_uint obj name = Some z -> 0 <= z < 2 ^ 64.
Proof. unfold need_uint. intros (v & _ & HV)%bind_Some. by apply uintValue_range in HV. Qed.

Lemma parse_tier_range raw t : parse_tier raw = Some t -> 0 <= tN t < 2 ^ 32 /\ forall u, UpToMillis t = Some u -> 0 <= u < 2 ^ 64.
Proof.
  unfold parse_tier. intros H. inv_some. match goal with H : need_uint _ _ = Some ?n |- _ => rename n into n0; apply need_uint_range in H end.
  destruct (Z.ltb_spec (2 ^ 32 - 1) n0); [done|]. destruct (_ !! _) as [uv|].
  - inv_some. match goal with H : uintValue _ = _ |- _ => apply uintValue_range in H end. simplify_eq. cbn. split; [lia|]. by intros ? [= <-].
  - simplify_eq. cbn. split; [lia|done].
Qed.

Lemma parseKind_range raw onchain k : parseKind raw onchain = Some k -> kind_in_range k /\ (onchain = false -> tiers k = []).
Proof.
  unfold parseKind. intros H. inv_some. repeat match goal with H : need_uint _ _ = Some _ |- _ => apply need_uint_range in H end.
  destruct (_ !! _) as [craw|].
  - destruct onchain; cbn [negb] in *; [|done]. inv_some. simplify_eq. split; [|done]. split_and!; cbn [kMin kMax FeeBase FeePpm Window tiers]; try lia.
    match goal with H : mapM _ _ = Some _ |- _ => apply mapM_Some in H as EM end. clear -EM.
    induction EM as [|x y l' k' Hxy _ IH]; constructor; [by eapply parse_tier_range|done].
  - simplify_eq. split; [|done]. split_and!; cbn [kMin kMax FeeBase FeePpm Window tiers]; lia || done.
Qed.

Lemma parse_kind_of_range obj kind k : parse_kind_of obj kind = Some (Some k) -> kind_in_range k /\ (kind <> PaymentOnchain -> tiers k = []).
Proof.
  unfold parse_kind_of. destruct (obj !! kind); [|done]. intros (k' & EK & [= <-])%bind_Some.
  apply parseKind_range in EK as [HR HT]. split; [done|]. intros HK. apply HT. by rewrite bool_decide_eq_false_2.
Qed.

(** The kinds of the terms are the kinds read. *)
Lemma ParseOrderInfo_kinds raw t : ParseOrderInfo raw = Some t ->
  exists obj, parse_kind_of obj PaymentLightning = Some (tLightning t) /\ parse_kind_of obj PaymentOnchain = Some (tOnchain t).
Proof.
  unfold ParseOrderInfo. intros H. inv_some. destruct (_ !! bs "bill"); inv_some; simplify_eq; cbn [tLightning tOnchain]; eauto.
Qed.

Lemma ParseOrderInfo_range raw t kind k : ParseOrderInfo raw = Some t -> TermsKind t kind = Some k ->
  kind_in_range k /\ (kind <> PaymentOnchain -> tiers k = []).
Proof.
  intros (obj & HL & HO)%ParseOrderInfo_kinds. unfold TermsKind. case_bool_decide as E1.
  - intros HK. rewrite HK in HL. rewrite E1. by apply parse_kind_of_range in HL.
  - case_bool_decide as E2; [|done]. intros HK. rewrite HK in HO. rewrite E2. by apply parse_kind_of_range in HO.
Qed.

End ReadingFacts.

(** *** Placement *)

Section PlacementFacts.
Context {OrderJSON0 : OrderJSON}.

(** A request read without a defect. *)
Definition sound_request (req : CashOrderRequest) : Prop :=
  0 < rqAmount req < 2 ^ 64 /\ (rqPayment req = PaymentLightning \/ rqPayment req = PaymentOnchain) /\
  (rqPayment req = PaymentOnchain -> rqAmount req mod 1000 = 0) /\
  ValidNotify (rqNotify req) = true /\ ValidRequestID (rqRequestID req) = true /\ isLowerHex64 (IdentityValue (rqRecipient req)) = true.

Lemma parseOrderRecipient_value raw rp : parseOrderRecipient raw = (rp, true) -> isLowerHex64 (IdentityValue rp) = true.
Proof.
  unfold parseOrderRecipient. destruct (object raw); [|done]. destruct (UnmarshalRecipient raw) as [[[ty v] ia]|]; [|done].
  destruct (isLowerHex64 v) eqn:EV; cbn [negb]; [|done]. repeat case_bool_decide; cbn [orb]; intros HX; simplify_eq; done.
Qed.

Lemma order_defect_none obj payment notify requestID rp amount :
  order_defect obj payment notify requestID = (rp, amount, None) -> sound_request (mkReq rp amount payment notify requestID None).
Proof.
  unfold order_defect. destruct (List.find _ _); [done|]. destruct (obj !! bs "recipient") as [rv|]; [|done].
  destruct (parseOrderRecipient rv) as [rp' ok] eqn:ER. destruct ok; cbn [negb]; [|done]. apply parseOrderRecipient_value in ER.
  destruct (obj !! bs "amount_millis") as [av|]; [|done]. destruct (uintValue av) as [a|] eqn:EU; [|done]. apply uintValue_range in EU.
  destruct (Z.eqb_spec a 0); [done|].
  case_bool_decide as EL; case_bool_decide as EO; cbn [negb andb]; [..|done].
  - rewrite EL in EO. done.
  - destruct (ValidNotify notify) eqn:EN; [|done]. destruct (ValidRequestID requestID) eqn:EI; [|done]. cbn. intros [= <- <-].
    split_and!; cbn; try lia; try done. by left.
  - destruct (Z.eqb_spec (a mod 1000) 0); cbn [negb]; [|done].
    destruct (ValidNotify notify) eqn:EN; [|done]. destruct (ValidRequestID requestID) eqn:EI; [|done]. cbn. intros [= <- <-].
    split_and!; cbn; try lia; try done. by right.
Qed.

Lemma parsed_sound raw req : ParseCashOrderRequest raw = Ok req -> defect req = None -> sound_request req.
Proof.
  unfold ParseCashOrderRequest. destruct (object raw) as [obj|]; [|done]. intros HR HD. inv_ok.
  destruct (order_defect _ _ _ _) as [[rp amount] d] eqn:EO. inv_ok. cbn in HD. subst d. by apply order_defect_none in EO.
Qed.

Lemma TermsValidate_kind t ceiling kind k : TermsValidate t ceiling = Ok tt -> TermsKind t kind = Some k ->
  kind_validate k (bool_decide (kind = PaymentOnchain)) ceiling = Ok tt.
Proof.
  unfold TermsValidate. cbn [validate_kinds]. intros HV HK.
  assert (HC : kind = PaymentLightning \/ kind = PaymentOnchain) by (unfold TermsKind in HK; repeat case_bool_decide; tauto || done).
  destruct HC as [-> | ->].
  - rewrite HK in HV. inv_ok. by destruct a.
  - rewrite HK in HV. destruct (TermsKind t PaymentLightning); inv_ok; match goal with H : kind_validate k _ _ = Ok ?u |- _ => by destruct u end.
Qed.

Lemma kind_validate_Ok k onchain ceiling : kind_validate k onchain ceiling = Ok tt ->
  kMin k <= kMax k /\ (0 < ceiling -> kMax k <= ceiling) /\ kMax k <> 0 /\ Window k <> 0 /\
  (onchain = true -> tiers k <> []) /\ validTiers (tiers k) = Ok tt.
Proof.
  unfold kind_validate. repeat (match goal with |- context [if ?c then _ else _] => destruct c eqn:? end; [done|]). intros HV.
  split_and!; try done; bool_prop; try lia.
  intros -> HE. cbn [andb] in *. by rewrite HE in *.
Qed.

(** A tier's bound above [-1] is no condition on 64-bit bounds. *)
Lemma kind_covers k : kind_in_range k -> tiers k <> [] -> validTiers (tiers k) = Ok tt -> forall v,
  exists n, ConfirmationsFor (tiers k) v = Ok n /\ 1 <= n < 2 ^ 32.
Proof.
  intros (_ & _ & _ & _ & _ & HT) Hne HV v. rewrite Forall_forall in HT.
  assert (HF : tiers_from (-1) (tiers k)).
  { eapply (valid_tiers_ok None); [done|done|]. cbn. intros tr u Hin Hu. destruct (HT tr Hin) as [_ Hb]. specialize (Hb u Hu). lia. }
  destruct (tiers_cover (-1) (tiers k) v Hne HF) as (pre & t & post & HE & HC & HN & _). exists (tN t). split; [done|].
  destruct (HT t) as [Hr _]; [rewrite HE; apply elem_of_app; right; by left|]. lia.
Qed.

Lemma CheckPlacement_None req i : 0 <= OpenMillis i < 2 ^ 64 -> 0 <= rqAmount req < 2 ^ 64 -> CheckPlacement (Some req) i = None <->
  piRetired i = false /\ defect req = None /\ IATrusted i = true /\
  (exists k, TermsKind (piTerms i) (rqPayment req) = Some k /\ kMin k <= rqAmount req <= kMax k) /\
  OpenMillis i + rqAmount req < 2 ^ 64 /\ OpenMillis i + rqAmount req <= OpenCeiling i /\
  (rqPayment req = PaymentOnchain -> 0 < OpenOnchainCeiling i -> OpenOnchainCount i < OpenOnchainCeiling i) /\
  (rqPayment req = PaymentLightning -> LightningReceivable i = true).
Proof.
  intros HO HA. unfold CheckPlacement. destruct (piRetired i); [naive_solver|].
  destruct (TermsKind (piTerms i) (rqPayment req)) as [k|].
  2: { rewrite (bool_decide_eq_false_2 (is_Some None)) by (by intros [? ?]). destruct (_ && _); [naive_solver|]. destruct (defect req); naive_solver. }
  rewrite (bool_decide_eq_true_2 (is_Some (Some k))) by done. cbn [negb]. rewrite andb_false_r. destruct (defect req); [naive_solver|].
  destruct (IATrusted i); cbn [negb]; [|naive_solver]. rewrite Add64_spec by done.
  destruct (Z.ltb_spec (rqAmount req) (kMin k)); cbn [orb]; [split; [done|intros (_ & _ & _ & (? & [= <-] & ?) & _); lia]|].
  destruct (Z.ltb_spec (kMax k) (rqAmount req)); [split; [done|intros (_ & _ & _ & (? & [= <-] & ?) & _); lia]|].
  destruct (Z.leb_spec (2 ^ 64) (OpenMillis i + rqAmount req)); cbn [Z.eqb negb orb]; [split; [done|intros (_ & _ & _ & _ & ? & _); lia]|].
  destruct (Z.ltb_spec (OpenCeiling i) (OpenMillis i + rqAmount req)); [split; [done|intros (_ & _ & _ & _ & _ & ? & _); lia]|].
  assert (HK : exists k', Some k = Some k' /\ kMin k' <= rqAmount req <= kMax k') by (exists k; split; [done|lia]).
  case_bool_decide as EO; cbn [andb].
  - rewrite EO. rewrite (bool_decide_eq_false_2 (PaymentOnchain = PaymentLightning)) by done. cbn [andb].
    destruct (Z.ltb_spec 0 (OpenOnchainCeiling i)), (Z.leb_spec (OpenOnchainCeiling i) (OpenOnchainCount i)); cbn [andb];
      (split; [intros; split_and!; (done || lia)|]); try done. intros (_ & _ & _ & _ & _ & _ & HX & _). specialize (HX eq_refl ltac:(lia)). lia.
  - case_bool_decide as EL; cbn [andb].
    + destruct (LightningReceivable i); cbn [negb]; [split; [intros; split_and!; (done || lia)|done]|]. split; [done|]. intros (_ & _ & _ & _ & _ & _ & _ & HX). by specialize (HX EL).
    + split; [|done]. intros; split_and!; (done || lia).
Qed.

End PlacementFacts.

(** ** Properties *)

(** The price of an order is exact.  It is refused exactly for an unknown
    payment, an on-chain amount that is no whole number of base units and a sum
    that does not fit in 64 bits, and never panics; otherwise the fee is the base
    plus the proportional part rounded down, raised on chain to the least that
    makes the payment a whole number of base units. *)
Theorem order_fee_exact (kind : gostring) (k : KindTerms) (amount : Z) (HK : kind_in_range k) (HA : 0 <= amount < 2 ^ 64) :
  let due := amount + (FeeBase k + FeePpm k * amount / 1000000) in
  match OrderFee kind k amount with
  | Panic | Err ErrOrderTerms => False
  | Err ErrOrderRequest => (kind <> PaymentLightning /\ kind <> PaymentOnchain) \/ (kind = PaymentOnchain /\ amount mod 1000 <> 0)
  | Err ErrOrderAmount => forall p, due <= p -> (kind = PaymentOnchain -> p mod 1000 = 0) -> 2 ^ 64 <= p
  | Ok (fee, pay) =>
      (kind = PaymentLightning \/ kind = PaymentOnchain /\ amount mod 1000 = 0) /\
      pay = amount + fee /\ 0 <= fee /\ pay < 2 ^ 64 /\ due <= pay /\ (kind = PaymentOnchain -> pay mod 1000 = 0) /\
      forall p, due <= p -> (kind = PaymentOnchain -> p mod 1000 = 0) -> pay <= p
  end.
Proof.
  intros due. rewrite OrderFee_value by done. change (FeeBase k + _) with (order_fee k amount) in due. destruct HK as (_ & _ & HB & HP & _).
  assert (Hdue : amount <= due).
  { unfold due, order_fee. pose proof (Z.div_pos (FeePpm k * amount) 1000000 ltac:(nia) ltac:(lia)). lia. }
  assert (Hpay : due <= order_pay kind k amount /\ (kind = PaymentOnchain -> order_pay kind k amount mod 1000 = 0) /\
      forall p, due <= p -> (kind = PaymentOnchain -> p mod 1000 = 0) -> order_pay kind k amount <= p).
  { unfold order_pay. fold due. case_bool_decide as EK; [|split_and!; [lia|done|auto]].
    pose proof (up_to_unit_spec due ltac:(lia)) as [H1 H2]. split_and!; [lia|done|]. intros p Hp Hm. specialize (Hm EK). clearbody due. dlia. }
  destruct Hpay as (H1 & H2 & H3).
  case_bool_decide as EL; case_bool_decide as EO; cbn [negb andb]; [rewrite EL in EO; done|..|by left].
  - case_over; [intros p Hp Hm; specialize (H3 p Hp Hm); lia|]. split_and!; (done || lia || by left).
  - destruct (Z.eqb_spec (amount mod 1000) 0); cbn [negb]; [|by right].
    case_over; [intros p Hp Hm; specialize (H3 p Hp Hm); lia|]. split_and!; (done || lia || by right).
Qed.

(** The bills of a payment.  Nothing is minted for a payment of at most the
    fee; otherwise the bills add up to what is above it, none is empty or above
    the bound, every one but the last is the bound itself, and there are as few
    as the bound allows: the loop ends within its fuel. *)
Theorem mint_split_exact (received fee max : Z) (HR : 0 <= received < 2 ^ 64) (HF : 0 <= fee < 2 ^ 64) (HM : 0 <= max < 2 ^ 64) :
  (MintSplit received fee max = [] <-> received <= fee) /\
  total_of (MintSplit received fee max) = Z.max 0 (received - fee) /\
  Forall (fun b => 0 < b /\ (max = 0 \/ b <= max)) (MintSplit received fee max) /\
  (forall pre b post, MintSplit received fee max = pre ++ b :: post -> post <> [] -> b = max) /\
  (0 < max -> fee < received -> zlen (MintSplit received fee max) = (received - fee + max - 1) / max).
Proof.
  unfold MintSplit. destruct (Z.leb_spec received fee).
  { split_and!; [done|cbn; lia|done|by intros [] |lia]. }
  rewrite wrap_small by lia. set (rest := received - fee). assert (0 < rest < 2 ^ 64) by (unfold rest; lia).
  destruct (Z.eqb_spec max 0) as [E0|E0].
  { split_and!; [split; [done|lia]|cbn; lia|repeat constructor; lia| |lia]. intros [|? [|??]] b post [= ]; by subst. }
  pose proof (Z.div_pos rest max ltac:(lia) ltac:(lia)).
  rewrite split_bills_value by lia. cbn [app]. set (q := (rest - 1) / max).
  assert (Hq : 0 <= q) by (apply Z.div_pos; lia).
  pose proof (Z.div_mod (rest - 1) max E0) as HD. fold q in HD. pose proof (Z.mod_pos_bound (rest - 1) max ltac:(lia)).
  split_and!.
  - split; [intros HE; by destruct (repeat max (Z.to_nat q)) in HE|lia].
  - rewrite total_of_app, total_of_repeat. unfold total_of. cbn [foldr]. rewrite Z2Nat.id by done. lia.
  - apply Forall_app. split; [|repeat constructor; lia]. apply Forall_forall. intros b Hb%list_elem_of_In%repeat_spec. lia.
  - intros pre b post HE Hp. destruct (exists_last Hp) as (post' & z & ->).
    rewrite app_comm_cons, app_assoc in HE. apply app_inj_tail in HE as [HE _].
    apply (repeat_spec (Z.to_nat q) max b). rewrite HE. apply in_or_app. right. by left.
  - intros _ _. unfold zlen. rewrite length_app, repeat_length. cbn [length].
    replace (rest + max - 1) with (rest - 1 + 1 * max) by lia. rewrite Z.div_add by done. fold q. lia.
Qed.

(** C28: An order that is placed can be served.  A request the Hub read and placed
    under terms it announced and validated names one valid recipient, a valid
    request id and notify, and an amount within the terms of its payment, the
    per-wallet ceiling and the room left for open orders; on chain the amount is
    a whole number of base units and every value has its confirmation tier, of at
    least one.  Its price is computed, or refused as beyond 64 bits. *)
Theorem placed_order_served {J : OrderJSON} (raw info : gostring) (req : CashOrderRequest) (i : PlacementInput) (ceiling : Z)
    (HP : ParseCashOrderRequest raw = Ok req) (HI : ParseOrderInfo info = Some (piTerms i)) (HV : TermsValidate (piTerms i) ceiling = Ok tt)
    (HO : 0 <= OpenMillis i < 2 ^ 64) (HC : CheckPlacement (Some req) i = None) :
  sound_request req /\ OpenMillis i + rqAmount req <= OpenCeiling i /\
  exists k, TermsKind (piTerms i) (rqPayment req) = Some k /\ kMin k <= rqAmount req <= kMax k /\ (0 < ceiling -> rqAmount req <= ceiling) /\
    (rqPayment req = PaymentOnchain -> forall v, exists n, ConfirmationsFor (tiers k) v = Ok n /\ 1 <= n < 2 ^ 32) /\
    (OrderFee (rqPayment req) k (rqAmount req) = Err ErrOrderAmount \/ exists fee pay, OrderFee (rqPayment req) k (rqAmount req) = Ok (fee, pay)).
Proof.
  assert (HD : defect req = None).
  { unfold CheckPlacement in HC. destruct (piRetired i); [done|]. destruct (_ && _); [done|]. by destruct (defect req). }
  pose proof (parsed_sound raw req HP HD) as HS. pose proof HS as (HA & HPay & HU & _).
  apply CheckPlacement_None in HC as (_ & _ & _ & (k & HK & HB) & _ & Hceil & _); [|done|lia].
  split; [done|]. split; [lia|]. exists k. destruct (ParseOrderInfo_range _ _ _ _ HI HK) as [HR _].
  pose proof (kind_validate_Ok _ _ _ (TermsValidate_kind _ _ _ _ HV HK)) as (_ & Hmax & _ & _ & Hne & HT).
  split_and!; [done|lia|lia|lia| |].
  - intros EO. apply kind_covers; [done| |done]. apply Hne. by apply bool_decide_eq_true_2.
  - rewrite OrderFee_value by (done || lia). destruct HPay as [EP|EP]; rewrite EP in *.
    + cbn. destruct (_ <=? _); [by left|right; eauto].
    + cbn. rewrite HU by done. cbn. destruct (_ <=? _); [by left|right; eauto].
Qed.

(** The time a Cash Hub may be deleted.  With no sum beyond 64 bits, either a
    confirmed payment or a live Lightning bill blocks the deletion at every time,
    or the order blocks it exactly before the time computed.  An order retained
    blocks it too, but for an on-chain order kept to watch its address; an
    on-chain order that saw nothing is retained exactly up to the time its
    deletion is computed for. *)
Theorem hub_delete_exact (r : OrderRetention) (u : UnmintedPayments)
    (HP : - 2 ^ 63 <= orPayBy r < 2 ^ 63 - 1) (HD : - 2 ^ 63 <= orDeadline r + Horizon r < 2 ^ 63 - 1) (HU : - 2 ^ 63 <= LastSeenAt u + MaxWait u < 2 ^ 63 - 1) :
  match OrderHubDeleteAt r u with
  | (at_, true) => forall now, OrderBlocksHubDelete r u now = (now <? at_)
  | (_, false) => forall now, OrderBlocksHubDelete r u now = true
  end /\
  (forall now, OrderRetained r now = true -> OrderBlocksHubDelete r u now = true \/ (orPayment r = PaymentOnchain /\ orSeen r = true /\ Watched r = true)) /\
  (orPayment r = PaymentOnchain -> orSeen r = false ->
   forall now, OrderRetained r now = (now <=? UnpaidOnchainDeleteAt (orPayBy r) (orDeadline r) (Horizon r))).
Proof.
  unfold OrderHubDeleteAt, OrderBlocksHubDelete, OrderRetained, UnpaidOnchainDeleteAt.
  rewrite (s64_small (orDeadline r + Horizon r)), (s64_small (LastSeenAt u + MaxWait u)) by lia.
  set (d := orDeadline r + Horizon r) in *. set (w := LastSeenAt u + MaxWait u) in *.
  set (bill := bool_decide (orPayment r = PaymentLightning) && BillLiveOrTombstoned r).
  split_and!.
  - destruct (0 <? Confirmed u); cbn [orb]; [intros now; by rewrite orb_true_r|].
    destruct bill; [intros now; by rewrite !orb_true_r|].
    destruct (0 <? Unconfirmed u); rewrite s64_small by lia; intros now; rewrite ?orb_false_r; cbn [andb];
      repeat match goal with |- context [?x <=? ?y] => destruct (Z.leb_spec x y) end; cbn [orb]; symmetry; (apply Z.ltb_lt || apply Z.ltb_ge); lia.
  - intros now HR. destruct (now <=? orPayBy r); [by left|]. destruct (now <=? d); [by left|]. cbn [orb] in *.
    destruct bill; [by left|]. rewrite orb_false_r in HR. bool_prop. by right.
  - intros EO ES now. unfold bill. rewrite EO, ES. rewrite (bool_decide_eq_false_2 (PaymentOnchain = PaymentLightning)) by done.
    cbn [andb orb]. rewrite andb_false_r, !orb_false_r.
    repeat match goal with |- context [now <=? ?y] => destruct (Z.leb_spec now y) end; cbn [orb]; (done || lia).
Qed.

(** ** Witnesses *)

Module OrderDemo.

(** A decoder for the texts below, each standing for the object it abbreviates. *)
Definition objects : list (gostring * list (gostring * gostring)) :=
  [(bs "{info}", [(bs "cash_order", bs " {terms}")]);
   (bs " {terms}", [(bs "lightning", bs "{lightning}"); (bs "onchain", bs "{onchain}")]);
   (bs "{lightning}", [(bs "min_millis", bs "1000"); (bs "max_millis", bs "5000000"); (bs "fee_base", bs "10"); (bs "fee_ppm", bs "3000"); (bs "window", bs "600")]);
   (bs "{onchain}", [(bs "min_millis", bs "1000"); (bs "max_millis", bs "9000000"); (bs "fee_base", bs "10"); (bs "fee_ppm", bs "3000"); (bs "window", bs "3600");
                     (bs "confirmations", bs "[tiers]")]);
   (bs "{small}", [(bs "n", bs "1"); (bs "up_to_millis", bs "1000000")]);
   (bs "{large}", [(bs "n", bs "3")]);
   (bs "{order}", [(bs "payment", bs "onchain"); (bs "notify", bs "notify"); (bs "request_id", bs "id"); (bs "recipient", bs "{recipient}"); (bs "amount_millis", bs "2000000")]);
   (bs "{recipient}", [])].

Definition hex64 : gostring := repeat "a"%byte 64.

#[local] Instance demo_json : OrderJSON := {|
  UnmarshalObject raw := match List.find (fun x => bool_decide (x.1 = raw)) objects with Some x => Some (list_to_map x.2) | None => None end;
  UnmarshalArray raw := Some [bs "{small}"; bs "{large}"];
  UnmarshalString raw := Some (if bool_decide (raw = bs "onchain") then PaymentOnchain else hex64);
  UnmarshalRecipient raw := Some (bs "pubkey", hex64, []);
|}.

Definition demo_terms : OrderTerms :=
  mkTerms (Some (mkKT 1000 5000000 10 3000 600 [])) (Some (mkKT 1000 9000000 10 3000 3600 [mkTier (Some 1000000) 1; mkTier None 3])) (mkBT 0 0 0).
Definition demo_request : CashOrderRequest := mkReq (mkRP (bs "pubkey") hex64 []) 2000000 PaymentOnchain hex64 hex64 None.
Definition demo_input : PlacementInput := mkPI demo_terms false true 7000000 9000000 1 2 false.

Lemma demo_kind : kind_in_range (mkKT 1000 9000000 10 3000 3600 [mkTier (Some 1000000) 1; mkTier None 3]).
Proof.
  split_and!; cbn; try lia.
  apply Forall_cons. split; [cbn; split; [lia|intros ? [= <-]; lia]|]. apply Forall_cons. split; [cbn; split; [lia|done]|apply Forall_nil; done].
Qed.

(** 2,000,000 millis cost 10 + 6,000, raised to whole base units: 7,000. *)
Lemma order_fee_exact_witness :
  OrderFee PaymentOnchain (mkKT 1000 9000000 10 3000 3600 [mkTier (Some 1000000) 1; mkTier None 3]) 2000000 = Ok (7000, 2007000) /\
  forall p, 2006010 <= p -> (PaymentOnchain = PaymentOnchain -> p mod 1000 = 0) -> 2007000 <= p.
Proof.
  split; [by vm_compute|]. pose proof (order_fee_exact PaymentOnchain _ 2000000 demo_kind ltac:(lia)) as H. cbn zeta in H.
  replace (OrderFee PaymentOnchain _ 2000000) with (Ok (A := Z * Z) (E := OrderErr) (7000, 2007000)) in H by (vm_compute; reflexivity).
  exact (proj2 (proj2 (proj2 (proj2 (proj2 (proj2 H)))))).
Defined.

Lemma mint_split_exact_witness :
  MintSplit 2007000 7000 900000 = [900000; 900000; 200000] /\ total_of (MintSplit 2007000 7000 900000) = 2000000.
Proof. split; [by vm_compute|]. exact (proj1 (proj2 (mint_split_exact 2007000 7000 900000 ltac:(lia) ltac:(lia) ltac:(lia)))). Defined.

Lemma placed_order_served_witness :
  sound_request demo_request /\ 7000000 + 2000000 <= 9000000 /\
  exists k, TermsKind demo_terms PaymentOnchain = Some k /\ kMin k <= 2000000 <= kMax k /\ (0 < 9000000 -> 2000000 <= 9000000) /\
    (PaymentOnchain = PaymentOnchain -> forall v, exists n, ConfirmationsFor (tiers k) v = Ok n /\ 1 <= n < 2 ^ 32) /\
    (OrderFee PaymentOnchain k 2000000 = Err ErrOrderAmount \/ exists fee pay, OrderFee PaymentOnchain k 2000000 = Ok (fee, pay)).
Proof.
  apply (placed_order_served (bs "{order}") (bs "{info}") demo_request demo_input 9000000); [vm_compute; reflexivity|vm_compute; reflexivity|reflexivity|cbn; lia|reflexivity].
Defined.

(** Deletable one second after the last unconfirmed payment has been waited for. *)
Lemma hub_delete_exact_witness :
  let r := mkOR PaymentOnchain 1000 900 300 true true false in
  let u := mkUP 0 1 1100 600 in
  (forall now, OrderBlocksHubDelete r u now = (now <? 1701)) /\ OrderRetained r 5000 = true.
Proof.
  intros r u. split; [|reflexivity]. pose proof (hub_delete_exact r u ltac:(cbn; lia) ltac:(cbn; lia) ltac:(cbn; lia)) as [H _].
  replace (OrderHubDeleteAt r u) with (1701, true) in H by (vm_compute; reflexivity). exact H.
Defined.

End OrderDemo.
