(* ===== verification/Nip59.v ===== *)
(** * nip59: gift wraps, seals and proofs

    [nip59/giftwrap.go] (a rumor sealed and wrapped under a key given by the
    caller), [seal.go] (the same through a key that may live in a signer) and
    [proof.go] (a seal's content shown to anyone), with the in-memory key of
    [nip46/signer.go], over [Event], [Nip44] and the JSON of events.  The random
    bytes, the fresh keys and the clock are arguments; a signer is a [Signer]. *)

From S2P Require Import Prelude GoLib Sha256 NostrUtils Pow Event Nip44 Nip98.

Definition KindGiftWrap : Z := 1059.
Definition KindSeal : Z := 13.

(** Two days, in nanoseconds. *)
Definition maxCreatedAtBackdate : Z := 2 * 24 * 3600 * second.

(** The time of the clock in nanoseconds, and the eight random bytes as a uint64:
    None when the reader fails. *)
Definition RandomizedCreatedAt (now : Z) (rnd : option Z) : Z :=
  match rnd with
  | None => u64 (now / second)
  | Some v => u64 ((now - v mod maxCreatedAtBackdate) / second)
  end.

Inductive WrapErr :=
  | NoRumor | ErrSignedRumor | ErrRumorAuthor (signer : gostring) | ErrSenderKey | ErrWrapKey | ErrRecipientKey | ErrPrivateKey
  | ErrEncrypt (e : N44Err) | ErrSign | ErrNotWrap.

(** The signatures' and payloads' randomness of one wrap: nonces, and a clock with
    random bytes for each timestamp. *)
Record WrapRandom := mkRnd { sealNonce : list byte; wrapNonce : list byte; sealClock : Z * option Z; wrapClock : Z * option Z }.

(** An error of a step, or none, as a wrapping error. *)
Definition wrap_err {E A} (e : E -> WrapErr) (m : outcome E A) : outcome WrapErr A :=
  match m with Ok a => Ok a | Err x => Err (e x) | Panic => Panic end.
Definition some_or {A} (e : WrapErr) (m : option A) : outcome WrapErr A := match m with Some a => Ok a | None => Err e end.

Section Nip59.
Context {GoLower0 : GoLower} {Schnorr0 : Schnorr} {Lib : Nip44Lib} {EventJSON0 : EventJSON}.

Definition sign_event (ev : Event) (key : gostring) : outcome WrapErr Event :=
  let '(ev, r) := Sign ev key in _ ← wrap_err (fun _ => ErrSign) r; Ok ev.

(** ** Wrapping *)

Definition expiration_tag (expiration : Z) : tags := if 0 <? expiration then [[bs "expiration"; Dec.itoa expiration]] else [].

(** The seal: the payload encrypted from the sender, signed by the sender. *)
Definition make_seal (payload : Event) (senderPriv : gostring) (sk : PrivateKey) (recipientPub : PublicKey) (rnd : WrapRandom) : outcome WrapErr Event :=
  content ← wrap_err ErrEncrypt (Encrypt (sealNonce rnd) (MarshalEvent payload) (GenerateConversationKey sk recipientPub));
  sign_event (mkEvent [] [] (RandomizedCreatedAt (sealClock rnd).1 (sealClock rnd).2) KindSeal [] content []) senderPriv.

(** The wrap: the seal encrypted from the ephemeral key, signed by it. *)
Definition make_wrap (seal : Event) (ephemeralPriv : gostring) (ek : PrivateKey) (recipientPubHex : gostring) (recipientPub : PublicKey) (expiration : Z)
    (rnd : WrapRandom) : outcome WrapErr Event :=
  content ← wrap_err ErrEncrypt (Encrypt (wrapNonce rnd) (MarshalEvent seal) (GenerateConversationKey ek recipientPub));
  sign_event (mkEvent [] [] (RandomizedCreatedAt (wrapClock rnd).1 (wrapClock rnd).2) KindGiftWrap
                      ([bs "p"; recipientPubHex] :: expiration_tag expiration) content []) ephemeralPriv.

Definition wrap_rumor (payload : Event) (senderPriv recipientPub ephemeralPriv : gostring) (expiration : Z) (rnd : WrapRandom) : outcome WrapErr Event :=
  sk ← wrap_err (fun _ => ErrSenderKey) (ParsePrivateKeyHex senderPriv);
  b ← some_or ErrRecipientKey (Hex.decode recipientPub);
  pk ← some_or ErrRecipientKey (ParsePubKey b);
  seal ← make_seal payload senderPriv (PrivKeyFromBytes sk) pk rnd;
  ek ← wrap_err (fun _ => ErrWrapKey) (ParsePrivateKeyHex ephemeralPriv);
  make_wrap seal ephemeralPriv (PrivKeyFromBytes ek) recipientPub pk expiration rnd.

Definition set_id (ev : Event) (id : gostring) : Event := mkEvent id (PubKey ev) (CreatedAt ev) (Kind ev) (Tags ev) (Content ev) (Sig ev).

(** The rumor as it travels: its author and id set. *)
Definition as_sent (rumor : Event) (senderPub : gostring) : Event :=
  let r := set_PubKey rumor senderPub in set_id r (Hex.encode (HashID r)).

(** [Wrap]: the ephemeral key is made by the call. *)
Definition Wrap (payload : Event) (senderPriv recipientPub ephemeralPriv : gostring) (rnd : WrapRandom) : outcome WrapErr Event :=
  wrap_rumor payload senderPriv recipientPub ephemeralPriv 0 rnd.

(** The options set the expiration; the last one counts. *)
Definition WrapWithKey (rumor : option Event) (senderPriv recipientPub wrapPriv : gostring) (opts : list Z) (rnd : WrapRandom) : outcome WrapErr Event :=
  match rumor with
  | None => Err NoRumor
  | Some rumor =>
      if negb (bool_decide (Sig rumor = [])) then Err ErrSignedRumor
      else
        senderPub ← wrap_err (fun _ => ErrSenderKey) (GetPublicKey senderPriv);
        if negb (bool_decide (PubKey rumor = [])) && negb (bool_decide (PubKey rumor = senderPub)) then Err (ErrRumorAuthor [])
        else
          _ ← wrap_err (fun _ => ErrWrapKey) (ParsePrivateKeyHex wrapPriv);
          wrap_rumor (as_sent rumor senderPub) senderPriv recipientPub wrapPriv (foldl (fun _ e => e) 0 opts) rnd
  end.

(** ** Unwrapping *)

(** [open]: every error of it is one to the callers. *)
Definition open_payload (priv : PrivateKey) (senderPub payload : gostring) : outcome WrapErr gostring :=
  b ← some_or ErrNotWrap (Hex.decode senderPub);
  pub ← some_or ErrNotWrap (ParsePubKey b);
  wrap_err (fun _ => ErrNotWrap) (Decrypt payload (GenerateConversationKey priv pub)).

Definition verified (ev : Event) : outcome WrapErr unit := wrap_err (fun _ => ErrNotWrap) (Verify [WithoutPowCheck] ev).

Definition UnwrapWithKey (w : option Event) (recipientPriv : gostring) : outcome WrapErr (Event * gostring) :=
  match w with
  | None => Err ErrNotWrap
  | Some w =>
      if negb (Kind w =? KindGiftWrap) then Err ErrNotWrap
      else
        _ ← verified w;
        b ← wrap_err (fun _ => ErrPrivateKey) (ParsePrivateKeyHex recipientPriv);
        let priv := PrivKeyFromBytes b in
        sealJSON ← open_payload priv (PubKey w) (Content w);
        seal ← some_or ErrNotWrap (UnmarshalEvent sealJSON);
        _ ← ensure (Kind seal =? KindSeal) ErrNotWrap;
        _ ← verified seal;
        rumorJSON ← open_payload priv (PubKey seal) (Content seal);
        r ← some_or ErrNotWrap (UnmarshalEvent rumorJSON);
        _ ← ensure (bool_decide (PubKey r = PubKey seal)) (ErrRumorAuthor (PubKey seal));
        let want := Hex.encode (HashID r) in
        _ ← ensure (bool_decide (ID r = []) || bool_decide (ID r = want)) ErrNotWrap;
        Ok (set_id r want, PubKey seal)
  end.

End Nip59.

(** ** Keys held by a signer *)

(** [Sealer], [Opener] and [MessageKeyer], each answering for the scheme nip44_v2;
    the nonce is the one the signer draws. *)
Record Signer := mkSigner {
  sgPubKey : gostring;
  sgSign : Event -> option Event;
  sgEncrypt : list byte -> gostring -> gostring -> option gostring;
  sgDecrypt : gostring -> gostring -> option gostring;
  sgMessageKeys : gostring -> gostring -> option Keys;
}.

Definition ok_or_none {E A} (m : outcome E A) : option A := match m with Ok a => Some a | _ => None end.

Section Seals.
Context {GoLower0 : GoLower} {Schnorr0 : Schnorr} {Lib : Nip44Lib} {EventJSON0 : EventJSON}.

(** nip46's [LocalKey] of a private key and its public key. *)
Definition LocalKey (priv pub : gostring) : Signer :=
  mkSigner pub
    (fun ev => ok_or_none (sign_event ev priv))
    (fun nonce peer plaintext => ck ← ok_or_none (ConversationKeyHex priv peer); ok_or_none (Encrypt nonce plaintext ck))
    (fun peer ciphertext => ck ← ok_or_none (ConversationKeyHex priv peer); ok_or_none (Decrypt ciphertext ck))
    (fun peer payload => ck ← ok_or_none (ConversationKeyHex priv peer); ok_or_none (MessageKeys ck payload)).

Inductive SealErr :=
  | SealRecipient | SealEncrypt | SealSign | SealForeignSigner | SealKind | SealVerify | SealOpen | SealDecode | SealRumorID | SealRumorAuthor
  | ErrForeignSender (seal : Event) | SealKeys.

Definition seal_or {A} (e : SealErr) (m : option A) : outcome SealErr A := match m with Some a => Ok a | None => Err e end.

(** encoding/json on an event without its sig. *)
Context (MarshalRumor : Event -> list byte).

Definition PrepareRumor (ev : Event) (author : gostring) : Event :=
  let r := mkEvent (ID ev) (ToLower author) (CreatedAt ev) (Kind ev) (Tags ev) (Content ev) [] in set_id r (Hex.encode (HashID r)).

(** [Seal] sets the rumor it is given: it is returned with the seal. *)
Definition Seal (sender : Signer) (rumor : Event) (recipientPub : gostring) (nonce : list byte) (clock : Z * option Z) : outcome SealErr (Event * Event) :=
  _ ← match Validate32Key recipientPub with Ok _ => Ok tt | Err _ => Err SealRecipient | Panic => Panic end;
  let rumor := PrepareRumor rumor (sgPubKey sender) in
  content ← seal_or SealEncrypt (sgEncrypt sender nonce (ToLower recipientPub) (MarshalRumor rumor));
  seal ← seal_or SealSign (sgSign sender (mkEvent [] (sgPubKey sender) (RandomizedCreatedAt clock.1 clock.2) KindSeal [] content []));
  _ ← ensure (equal_fold_hex (PubKey seal) (PubKey rumor)) SealForeignSigner;
  Ok (rumor, seal).

Definition WrapSeal (seal : Event) (recipientPub ephemeralPriv : gostring) (opts : list Z) (rnd : WrapRandom) : outcome WrapErr Event :=
  _ ← wrap_err (fun _ => ErrRecipientKey) (Validate32Key recipientPub);
  b ← some_or ErrRecipientKey (Hex.decode recipientPub);
  pk ← some_or ErrRecipientKey (ParsePubKey b);
  ek ← wrap_err (fun _ => ErrWrapKey) (ParsePrivateKeyHex ephemeralPriv);
  make_wrap seal ephemeralPriv (PrivKeyFromBytes ek) (ToLower recipientPub) pk (foldl (fun _ e => e) 0 opts) rnd.

Definition CheckRumorID (rumor : Event) : bool := bool_decide (ID rumor = []) || equal_fold_hex (ID rumor) (Hex.encode (HashID rumor)).

(** [ParseRumor] of a seal's plaintext; [sealAuthor] is hex. *)
Definition parse_rumor (plaintext sealAuthor : gostring) : outcome SealErr Event :=
  rumor ← seal_or SealDecode (UnmarshalEvent plaintext);
  _ ← ensure (CheckRumorID rumor) SealRumorID;
  _ ← ensure (equal_fold_hex (PubKey rumor) sealAuthor) SealRumorAuthor;
  Ok rumor.

Definition seal_verified (ev : Event) : outcome SealErr unit :=
  match Verify [WithoutPowCheck] ev with Ok _ => Ok tt | Err _ => Err SealVerify | Panic => Panic end.

Record Opened := mkOpened { oWrap : option Event; oSeal : Event; oRumor : Event; oSender : gostring }.

(** The seal inside a wrap, or the bare seal given. *)
Definition inner_seal (recipient : Signer) (ev : Event) : outcome SealErr (option Event * Event) :=
  if Kind ev =? KindGiftWrap then
    _ ← seal_verified ev;
    inner ← seal_or SealOpen (sgDecrypt recipient (PubKey ev) (Content ev));
    seal ← seal_or SealDecode (UnmarshalEvent inner);
    _ ← ensure (Kind seal =? KindSeal) SealKind;
    Ok (Some ev, seal)
  else if Kind ev =? KindSeal then Ok (None, ev)
  else Err SealKind.

Definition Unwrap (recipient : Signer) (ev : Event) (from : list gostring) : outcome SealErr Opened :=
  '(w, seal) ← inner_seal recipient ev;
  _ ← seal_verified seal;
  _ ← ensure (bool_decide (from = []) || existsb (fun v => equal_fold_hex v (PubKey seal)) from) (ErrForeignSender seal);
  inner ← seal_or SealOpen (sgDecrypt recipient (PubKey seal) (Content seal));
  rumor ← parse_rumor inner (PubKey seal);
  Ok (mkOpened w seal rumor (ToLower (PubKey seal))).

(** ** Proofs *)

Record Proof_ := mkProof { prSeal : Event; prKeys : Keys }.

Definition Prove (key : Signer) (seal : Event) (counterpart : gostring) : outcome SealErr Proof_ :=
  _ ← ensure (Kind seal =? KindSeal) SealKind;
  _ ← seal_verified seal;
  keys ← seal_or SealKeys (sgMessageKeys key counterpart (Content seal));
  Ok (mkProof seal keys).

Definition VerifyProof (p : option Proof_) (from : gostring) : outcome SealErr Event :=
  match p with
  | None => Err SealDecode
  | Some p =>
      _ ← ensure (Kind (prSeal p) =? KindSeal) SealKind;
      _ ← seal_verified (prSeal p);
      _ ← ensure (equal_fold_hex from (PubKey (prSeal p))) SealForeignSigner;
      plain ← match OpenWithKeys (prKeys p) (Content (prSeal p)) with Ok s => Ok s | Err _ => Err SealOpen | Panic => Panic end;
      parse_rumor plain (PubKey (prSeal p))
  end.

End Seals.

(** * nip59: what a gift wrap carries

    The properties of [Nip59]: what is wrapped is unwrapped by its recipient and
    by nobody's word but the seal signer's, and a seal proves its content to
    anyone without opening another message. *)

Section Facts.
Context {GoLower0 : GoLower} {Schnorr0 : Schnorr} {Lib : Nip44Lib} {EventJSON0 : EventJSON}.

Lemma ToLower_encode b : ToLower (Hex.encode b) = Hex.encode b.
Proof. rewrite ToLower_ascii by (eapply decode_ascii, Hex.decode_encode). symmetry. apply encode_lower, Hex.decode_encode. Qed.

Lemma equal_fold_refl s : equal_fold_hex s s = true.
Proof. by apply bool_decide_true. Qed.

Lemma wrap_err_Ok {E A} (f : E -> WrapErr) (m : outcome E A) a : wrap_err f m = Ok a <-> m = Ok a.
Proof. destruct m; cbn; naive_solver. Qed.

Lemma some_or_Ok {A} e (m : option A) a : some_or e m = Ok a <-> m = Some a.
Proof. destruct m; cbn; naive_solver. Qed.

Lemma seal_or_Ok {A} e (m : option A) a : seal_or e m = Ok a <-> m = Some a.
Proof. destruct m; cbn; naive_solver. Qed.

Lemma ok_or_none_Some {E A} (m : outcome E A) a : ok_or_none m = Some a <-> m = Ok a.
Proof. destruct m; cbn; naive_solver. Qed.

Lemma verified_Ok ev : verified ev = Ok tt <-> Verify [WithoutPowCheck] ev = Ok tt.
Proof. apply wrap_err_Ok. Qed.

Lemma seal_verified_Ok ev : seal_verified ev = Ok tt <-> Verify [WithoutPowCheck] ev = Ok tt.
Proof. unfold seal_verified. destruct (Verify _ _) as [[]| |]; naive_solver. Qed.

Lemma GetPublicKey_Ok key pub : GetPublicKey key = Ok pub <-> exists b, ParsePrivateKeyHex key = Ok b /\ pub = key_hex b.
Proof. unfold GetPublicKey. rewrite bind_Ok. naive_solver. Qed.

(** A signed event verifies, and its author's key parses. *)
Lemma sign_event_Ok ev key ev' : SchnorrLaws -> 0 <= Kind ev <= 65535 -> sign_event ev key = Ok ev' ->
  Verify [WithoutPowCheck] ev' = Ok tt /\
  (exists b pk, ParsePrivateKeyHex key = Ok b /\ PubKey ev' = key_hex b /\ ParsePubKey (drop 1 (compressed (PrivKeyFromBytes b))) = Some pk) /\
  CreatedAt ev' = CreatedAt ev /\ Kind ev' = Kind ev /\ Tags ev' = Tags ev /\ Content ev' = Content ev.
Proof.
  intros HL HK HS. unfold sign_event in HS. destruct (Sign ev key) as [e r] eqn:ES. apply bind_Ok in HS as ([] & Hr%wrap_err_Ok & [= <-]). subst r.
  pose proof (Sign_Ok ev key e ES) as (b & s & HP & Hs & HE). cbv zeta in Hs.
  destruct (Sign_verifies HL _ _ _ (length_sha256 _) Hs) as (pk & Hpk & _).
  split; [apply Verify_accepted, (Sign_accepted ev key); try done; [by left|left; cbn; lia]|].
  rewrite HE. split; [by exists b, pk|done].
Qed.

(** ** One conversation, one key *)

Lemma shared_key s1 s2 p1 p2 : Nip44Laws ->
  ParsePubKey (drop 1 (compressed s1)) = Some p1 -> ParsePubKey (drop 1 (compressed s2)) = Some p2 ->
  GenerateConversationKey s1 p2 = GenerateConversationKey s2 p1.
Proof. intros HL H1 H2. unfold GenerateConversationKey. f_equal. by apply (shared_symmetric HL). Qed.

(** What is encrypted is decrypted, and opened by the message keys alone. *)
Lemma Encrypt_undone ck n p s : Nip44Laws -> length n = 32%nat -> Encrypt n p ck = Ok s ->
  Decrypt s ck = Ok p /\ exists keys, MessageKeys ck s = Ok keys /\ OpenWithKeys keys s = Ok p.
Proof.
  intros HL Hn HE. pose proof HE as HE'. unfold Encrypt in HE'. apply bind_Ok in HE' as ([] & HC & _).
  unfold checkPlaintextLen, MinPlaintextSize, MaxPlaintextSize in HC.
  destruct (Z.ltb_spec (zlen p) 1); [done|]. destruct (Z.ltb_spec (2 ^ 32 - 1) (zlen p)); [done|].
  destruct (Encrypt_opens ck n p HL Hn ltac:(lia)) as (s' & H1 & H2 & H3 & H4). rewrite HE in H1. injection H1 as <-. eauto.
Qed.

Lemma open_payload_Ok priv sb pk payload p : ParsePubKey (drop 1 (compressed sb)) = Some pk -> Decrypt payload (GenerateConversationKey priv pk) = Ok p ->
  open_payload priv (Hex.encode (drop 1 (compressed sb))) payload = Ok p.
Proof. intros HP HD. unfold open_payload. rewrite Hex.decode_encode. cbn. rewrite HP. cbn. by rewrite HD. Qed.

(** What [make_seal] and [make_wrap] make, opened from the other side. *)
Lemma make_seal_opens payload key skb rb pk rnd seal :
  SchnorrLaws -> Nip44Laws -> length (sealNonce rnd) = 32%nat -> ParsePrivateKeyHex key = Ok skb ->
  ParsePubKey (drop 1 (compressed (PrivKeyFromBytes rb))) = Some pk ->
  make_seal payload key (PrivKeyFromBytes skb) pk rnd = Ok seal ->
  Kind seal = KindSeal /\ Tags seal = [] /\ Verify [WithoutPowCheck] seal = Ok tt /\ PubKey seal = key_hex skb /\
  open_payload (PrivKeyFromBytes rb) (PubKey seal) (Content seal) = Ok (MarshalEvent payload).
Proof.
  intros HS HL Hn Hk Hpk HM. unfold make_seal in HM. apply bind_Ok in HM as (c & HE%wrap_err_Ok & HM).
  apply sign_event_Ok in HM as (HV & (b & spk & Hb & HP & Hspk) & _ & HK & HT & HC); [|done|done]. rewrite Hk in Hb. injection Hb as <-.
  split; [done|]. split; [done|]. split; [done|]. split; [done|]. rewrite HP, HC. apply (open_payload_Ok _ _ spk); [done|].
  rewrite <- (shared_key _ _ _ _ HL Hspk Hpk). by apply (Encrypt_undone _ _ _ _ HL Hn HE).
Qed.

Lemma make_wrap_opens seal key ekb rhex rb pk exp rnd w :
  SchnorrLaws -> Nip44Laws -> length (wrapNonce rnd) = 32%nat -> ParsePrivateKeyHex key = Ok ekb ->
  ParsePubKey (drop 1 (compressed (PrivKeyFromBytes rb))) = Some pk ->
  make_wrap seal key (PrivKeyFromBytes ekb) rhex pk exp rnd = Ok w ->
  Kind w = KindGiftWrap /\ Tags w = [bs "p"; rhex] :: expiration_tag exp /\ Verify [WithoutPowCheck] w = Ok tt /\ PubKey w = key_hex ekb /\
  open_payload (PrivKeyFromBytes rb) (PubKey w) (Content w) = Ok (MarshalEvent seal).
Proof.
  intros HS HL Hn Hk Hpk HM. unfold make_wrap in HM. apply bind_Ok in HM as (c & HE%wrap_err_Ok & HM).
  apply sign_event_Ok in HM as (HV & (b & spk & Hb & HP & Hspk) & _ & HK & HT & HC); [|done|done]. rewrite Hk in Hb. injection Hb as <-.
  split; [done|]. split; [done|]. split; [done|]. split; [done|]. rewrite HP, HC. apply (open_payload_Ok _ _ spk); [done|].
  rewrite <- (shared_key _ _ _ _ HL Hspk Hpk). by apply (Encrypt_undone _ _ _ _ HL Hn HE).
Qed.

(** ** Wrapping and unwrapping *)

Lemma UnwrapWithKey_Ok w priv r signer :
  UnwrapWithKey (Some w) priv = Ok (r, signer) <->
  Kind w = KindGiftWrap /\ Verify [WithoutPowCheck] w = Ok tt /\
  exists b j seal j' r0, ParsePrivateKeyHex priv = Ok b /\ open_payload (PrivKeyFromBytes b) (PubKey w) (Content w) = Ok j /\ UnmarshalEvent j = Some seal /\
    Kind seal = KindSeal /\ Verify [WithoutPowCheck] seal = Ok tt /\ PubKey seal = signer /\
    open_payload (PrivKeyFromBytes b) (PubKey seal) (Content seal) = Ok j' /\ UnmarshalEvent j' = Some r0 /\ PubKey r0 = signer /\
    (ID r0 = [] \/ ID r0 = Hex.encode (HashID r0)) /\ r = set_id r0 (Hex.encode (HashID r0)).
Proof.
  unfold UnwrapWithKey. split.
  - destruct (Z.eqb_spec (Kind w) KindGiftWrap) as [HK|]; [|done]. cbn [negb]. intros H.
    apply bind_Ok in H as ([] & HV%verified_Ok & H). apply bind_Ok in H as (b & Hb%wrap_err_Ok & H). apply bind_Ok in H as (j & Hj & H).
    apply bind_Ok in H as (seal & Hs%some_or_Ok & H). apply bind_Ok in H as ([] & HKs%ensure_Ok & H). apply bind_Ok in H as ([] & HVs%verified_Ok & H).
    apply bind_Ok in H as (j' & Hj' & H). apply bind_Ok in H as (r0 & Hr%some_or_Ok & H). apply bind_Ok in H as ([] & HP%ensure_Ok & H).
    apply bind_Ok in H as ([] & HI%ensure_Ok & H). injection H as <- <-. bool_prop. apply orb_true_iff in HI.
    split; [done|]. split; [done|]. exists b, j, seal, j', r0. split_and!; try done.
    destruct HI as [HI|HI]; bool_prop; [by left|by right].
  - intros (HK & HV & b & j & seal & j' & r0 & Hb & Hj & Hs & HKs & HVs & HPs & Hj' & Hr & HP & HI & ->).
    rewrite HK. cbn [Z.eqb KindGiftWrap negb]. change (1059 =? KindGiftWrap) with true. cbn [negb].
    rewrite (proj2 (verified_Ok w) HV). cbn [mbind outcome_bind]. rewrite Hb. cbn [wrap_err mbind outcome_bind]. rewrite Hj. cbn [mbind outcome_bind].
    rewrite Hs. cbn [some_or mbind outcome_bind]. rewrite HKs. change (KindSeal =? KindSeal) with true. cbn [ensure mbind outcome_bind].
    rewrite (proj2 (verified_Ok seal) HVs). cbn [mbind outcome_bind]. rewrite Hj'. cbn [mbind outcome_bind]. rewrite Hr. cbn [some_or mbind outcome_bind].
    rewrite (bool_decide_true (PubKey r0 = PubKey seal)) by congruence. cbn [ensure mbind outcome_bind].
    replace (bool_decide (ID r0 = []) || bool_decide (ID r0 = Hex.encode (HashID r0))) with true; [cbn; by rewrite HPs|].
    symmetry. apply orb_true_iff. rewrite !bool_decide_eq_true. tauto.
Qed.

(** The parts of a wrap that was made. *)
Lemma WrapWithKey_Ok rumor senderPriv senderPub recipientPub wrapPriv opts rnd w :
  GetPublicKey senderPriv = Ok senderPub -> WrapWithKey (Some rumor) senderPriv recipientPub wrapPriv opts rnd = Ok w ->
  Sig rumor = [] /\ (PubKey rumor = [] \/ PubKey rumor = senderPub) /\
  exists skb b pk seal ekb, ParsePrivateKeyHex senderPriv = Ok skb /\ senderPub = key_hex skb /\ Hex.decode recipientPub = Some b /\ ParsePubKey b = Some pk /\
    make_seal (as_sent rumor senderPub) senderPriv (PrivKeyFromBytes skb) pk rnd = Ok seal /\ ParsePrivateKeyHex wrapPriv = Ok ekb /\
    make_wrap seal wrapPriv (PrivKeyFromBytes ekb) recipientPub pk (foldl (fun _ e => e) 0 opts) rnd = Ok w.
Proof.
  intros HG HW. unfold WrapWithKey in HW. case_bool_decide as HSig; [|done]. cbn [negb] in HW. rewrite HG in HW. cbn [wrap_err mbind outcome_bind] in HW.
  destruct (bool_decide (PubKey rumor = [])) eqn:E1; [|destruct (bool_decide (PubKey rumor = senderPub)) eqn:E2; [|done]];
    cbn [negb andb] in HW; apply bind_Ok in HW as (ek0 & Hek0%wrap_err_Ok & HW); unfold wrap_rumor in HW;
    apply bind_Ok in HW as (skb & Hsk%wrap_err_Ok & HW); apply bind_Ok in HW as (b & Hb%some_or_Ok & HW); apply bind_Ok in HW as (pk & Hpk%some_or_Ok & HW);
    apply bind_Ok in HW as (seal & Hseal & HW); apply bind_Ok in HW as (ekb & Hek%wrap_err_Ok & HW);
    apply GetPublicKey_Ok in HG as (b' & Hb' & ->); rewrite Hsk in Hb'; injection Hb' as <-;
    (split; [done|]; split; [bool_prop; tauto|]; by exists skb, b, pk, seal, ekb).
Qed.

(** A wrap that was made is opened by its recipient. *)
Lemma unwrap_wrapped rumor w senderPriv senderPub recipientPriv recipientPub wrapPriv opts rnd :
  SchnorrLaws -> Nip44Laws -> length (sealNonce rnd) = 32%nat -> length (wrapNonce rnd) = 32%nat ->
  GetPublicKey senderPriv = Ok senderPub -> GetPublicKey recipientPriv = Ok recipientPub ->
  json_stable (as_sent rumor senderPub) ->
  (forall sk pk seal, make_seal (as_sent rumor senderPub) senderPriv sk pk rnd = Ok seal -> json_stable seal) ->
  WrapWithKey (Some rumor) senderPriv recipientPub wrapPriv opts rnd = Ok w ->
  UnwrapWithKey (Some w) recipientPriv = Ok (as_sent rumor senderPub, senderPub) /\ Kind w = KindGiftWrap /\ Verify [WithoutPowCheck] w = Ok tt /\
  GetPublicKey wrapPriv = Ok (PubKey w) /\ Tags w = [bs "p"; recipientPub] :: expiration_tag (foldl (fun _ e => e) 0 opts).
Proof.
  intros HS HL Hn1 Hn2 Ha Hb HJ HJs HW.
  apply (WrapWithKey_Ok _ _ senderPub) in HW as (_ & _ & skb & rb & pk & seal & ekb & Hsk & HsP & Hrb & Hpk & Hseal & Hek & HW); [|done].
  apply GetPublicKey_Ok in Hb as (b & Hb & ->). unfold key_hex in Hrb. rewrite Hex.decode_encode in Hrb. injection Hrb as <-.
  pose proof (HJs _ _ _ Hseal) as HJseal.
  apply (make_seal_opens _ _ _ b) in Hseal as (KS & _ & VS & PS & OS); [|done..].
  apply (make_wrap_opens _ _ _ _ b) in HW as (KW & TW & VW & PW & OW); [|done..].
  split; [|split; [done|]; split; [done|]; split; [apply GetPublicKey_Ok; by exists ekb|done]].
  apply UnwrapWithKey_Ok. split; [done|]. split; [done|].
  exists b, (MarshalEvent seal), seal, (MarshalEvent (as_sent rumor senderPub)), (as_sent rumor senderPub).
  split_and!; try done; [congruence|]. by right.
Qed.

(** ** Properties *)

(** a gift wrap reaches its recipient whole.  What WrapWithKey wraps for a
    public key, UnwrapWithKey with its private key opens to the same rumor, with
    its author and id, and the sender as the seal's signer; the wrap verifies,
    is signed by the wrap key and names the recipient (and its expiration). *)
Theorem giftwrap_roundtrip (rumor w : Event) (senderPriv senderPub recipientPriv recipientPub wrapPriv : gostring) (opts : list Z) (rnd : WrapRandom)
    (HS : SchnorrLaws) (HL : Nip44Laws) (Hn1 : length (sealNonce rnd) = 32%nat) (Hn2 : length (wrapNonce rnd) = 32%nat)
    (Ha : GetPublicKey senderPriv = Ok senderPub) (Hb : GetPublicKey recipientPriv = Ok recipientPub)
    (HJ : json_stable (as_sent rumor senderPub))
    (HJs : forall sk pk seal, make_seal (as_sent rumor senderPub) senderPriv sk pk rnd = Ok seal -> json_stable seal)
    (HW : WrapWithKey (Some rumor) senderPriv recipientPub wrapPriv opts rnd = Ok w) :
  UnwrapWithKey (Some w) recipientPriv = Ok (as_sent rumor senderPub, senderPub) /\
  Kind w = KindGiftWrap /\ Verify [WithoutPowCheck] w = Ok tt /\ GetPublicKey wrapPriv = Ok (PubKey w) /\
  Tags w = [bs "p"; recipientPub] :: expiration_tag (foldl (fun _ e => e) 0 opts).
Proof. by apply (unwrap_wrapped rumor w senderPriv senderPub recipientPriv recipientPub wrapPriv opts rnd). Qed.

(** A local key's conversation with a key that parses. *)
Lemma local_conversation k b p pk : ParsePrivateKeyHex k = Ok b -> ParsePubKey (drop 1 (compressed p)) = Some pk ->
  ConversationKeyHex k (Hex.encode (drop 1 (compressed p))) = Ok (GenerateConversationKey (PrivKeyFromBytes b) pk).
Proof. intros Hk Hp. unfold ConversationKeyHex. by rewrite Hk, Hex.decode_encode, Hp. Qed.

Section Rumors.
Context (MarshalRumor : Event -> list byte).

(** A seal made with a local key: opened by either party's conversation key. *)
Lemma Seal_Ok ka pa kb pb rumor nonce clock r seal :
  SchnorrLaws -> Nip44Laws -> length nonce = 32%nat -> GetPublicKey ka = Ok pa -> GetPublicKey kb = Ok pb ->
  Seal MarshalRumor (LocalKey ka pa) rumor pb nonce clock = Ok (r, seal) ->
  r = PrepareRumor rumor pa /\ PubKey r = pa /\ ToLower pa = pa /\ ToLower pb = pb /\
  Kind seal = KindSeal /\ Verify [WithoutPowCheck] seal = Ok tt /\ PubKey seal = pa /\
  exists ck keys, ConversationKeyHex ka pb = Ok ck /\ ConversationKeyHex kb pa = Ok ck /\
    Decrypt (Content seal) ck = Ok (MarshalRumor r) /\ MessageKeys ck (Content seal) = Ok keys /\ OpenWithKeys keys (Content seal) = Ok (MarshalRumor r).
Proof.
  intros HS HL Hn Ha Hb HSl. apply GetPublicKey_Ok in Ha as (ab & Ha & ->). apply GetPublicKey_Ok in Hb as (bb & Hb & ->).
  unfold Seal in HSl. apply bind_Ok in HSl as ([] & _ & HSl). apply bind_Ok in HSl as (c & HE%seal_or_Ok & HSl).
  apply bind_Ok in HSl as (s & HG%seal_or_Ok & HSl). apply bind_Ok in HSl as ([] & _ & HSl). injection HSl as <- <-.
  cbn [LocalKey sgPubKey sgEncrypt sgSign] in HE, HG |- *. unfold key_hex in HE. rewrite ToLower_encode in HE.
  apply ok_or_none_Some, sign_event_Ok in HG as (HV & (b & apk & Hb' & HP & Hapk) & _ & HK & _ & HC); [|done|done]. rewrite Ha in Hb'. injection Hb' as <-.
  apply bind_Some in HE as (ck & HCk%ok_or_none_Some & HE%ok_or_none_Some).
  pose proof HCk as HCk'. unfold ConversationKeyHex in HCk'. rewrite Ha, Hex.decode_encode in HCk'.
  destruct (ParsePubKey (drop 1 (compressed (PrivKeyFromBytes bb)))) as [bpk|] eqn:Hbpk; [|done]. injection HCk' as HCk'.
  destruct (Encrypt_undone _ _ _ _ HL Hn HE) as (HD & keys & HM & HO).
  split; [done|]. split; [apply ToLower_encode|]. split; [apply ToLower_encode|]. split; [apply ToLower_encode|].
  split; [done|]. split; [done|]. split; [done|]. exists ck, keys. rewrite HC. split_and!; try done.
  unfold key_hex. rewrite (local_conversation kb bb _ apk Hb Hapk). f_equal. rewrite <- HCk'. by apply shared_key.
Qed.

Lemma parse_prepared rumor pa : ToLower pa = pa -> let r := PrepareRumor rumor pa in UnmarshalEvent (MarshalRumor r) = Some r ->
  parse_rumor (MarshalRumor r) pa = Ok r.
Proof.
  intros HT r HJ. unfold parse_rumor. rewrite HJ. cbn [seal_or mbind outcome_bind]. unfold CheckRumorID.
  change (HashID r) with (HashID (mkEvent (ID rumor) (ToLower pa) (CreatedAt rumor) (Kind rumor) (Tags rumor) (Content rumor) [])).
  change (ID r) with (Hex.encode (HashID (mkEvent (ID rumor) (ToLower pa) (CreatedAt rumor) (Kind rumor) (Tags rumor) (Content rumor) []))).
  rewrite equal_fold_refl, orb_true_r. cbn [ensure mbind outcome_bind]. change (PubKey r) with (ToLower pa). rewrite HT. by rewrite equal_fold_refl.
Qed.

(** C33: a seal speaks to its recipient and proves itself to anyone.  A rumor
    sealed by one key for another and gift-wrapped opens, wrapped or bare, to
    the same rumor with the author as the checked sender (when that author is
    asked for, or anyone is); and either party can show the message keys of this
    one payload, with which anyone verifies what the author wrote. *)
Theorem seal_proves (ka pa kb pb ephemeral : gostring) (rumor r seal w : Event) (nonce : list byte) (clock : Z * option Z) (opts : list Z) (rnd : WrapRandom)
    (from : list gostring)
    (HS : SchnorrLaws) (HL : Nip44Laws) (Hn : length nonce = 32%nat) (Hn2 : length (wrapNonce rnd) = 32%nat)
    (Ha : GetPublicKey ka = Ok pa) (Hb : GetPublicKey kb = Ok pb)
    (HSl : Seal MarshalRumor (LocalKey ka pa) rumor pb nonce clock = Ok (r, seal)) (HW : WrapSeal seal pb ephemeral opts rnd = Ok w)
    (HJr : UnmarshalEvent (MarshalRumor r) = Some r) (HJs : json_stable seal) (HF : from = [] \/ pa ∈ from) :
  Unwrap (LocalKey kb pb) w from = Ok (mkOpened (Some w) seal r pa) /\
  Unwrap (LocalKey kb pb) seal from = Ok (mkOpened None seal r pa) /\
  (exists p, Prove (LocalKey kb pb) seal pa = Ok p /\ VerifyProof (Some p) pa = Ok r) /\
  (exists p, Prove (LocalKey ka pa) seal pb = Ok p /\ VerifyProof (Some p) pa = Ok r).
Proof.
  pose proof (Seal_Ok ka pa kb pb rumor nonce clock r seal HS HL Hn Ha Hb HSl) as (Hr & HPr & HTa & HTb & HK & HV & HP & ck & keys & Hab & Hba & HD & HM & HO).
  assert (HPR : parse_rumor (MarshalRumor r) pa = Ok r) by (subst r; by apply parse_prepared).
  assert (HVs : seal_verified seal = Ok tt) by (by apply seal_verified_Ok).
  assert (HFb : bool_decide (from = []) || existsb (fun v => equal_fold_hex v (PubKey seal)) from = true).
  { destruct HF as [->|HF]; [done|]. apply orb_true_iff. right. apply existsb_exists. exists pa. split; [by apply list_elem_of_In|]. rewrite HP. apply equal_fold_refl. }
  assert (HU : forall ow x, inner_seal (LocalKey kb pb) x = Ok (ow, seal) -> Unwrap (LocalKey kb pb) x from = Ok (mkOpened ow seal r pa)).
  { intros ow x HI. unfold Unwrap. rewrite HI. cbn [mbind outcome_bind]. rewrite HVs. cbn [mbind outcome_bind]. rewrite HFb. cbn [ensure mbind outcome_bind].
    cbn [LocalKey sgDecrypt]. rewrite HP, Hba. cbn [ok_or_none mbind option_bind]. rewrite HD. cbn [ok_or_none seal_or mbind outcome_bind]. rewrite HPR. cbn. by rewrite HTa. }
  assert (HPV : forall key c, sgMessageKeys key c (Content seal) = Some keys -> exists p, Prove key seal c = Ok p /\ VerifyProof (Some p) pa = Ok r).
  { intros key c HMk. exists (mkProof seal keys). unfold Prove, VerifyProof. cbn [prSeal prKeys]. rewrite HK. change (KindSeal =? KindSeal) with true. cbn [ensure mbind outcome_bind].
    rewrite HVs. cbn [mbind outcome_bind]. rewrite HMk. split; [done|]. rewrite HP, equal_fold_refl. cbn [ensure mbind outcome_bind]. by rewrite HO. }
  split; [|split; [|split]].
  - apply HU. unfold WrapSeal in HW. apply bind_Ok in HW as ([] & _ & HW). apply bind_Ok in HW as (b & Hrb%some_or_Ok & HW). apply bind_Ok in HW as (pk & Hpk%some_or_Ok & HW).
    apply bind_Ok in HW as (ekb & Hek%wrap_err_Ok & HW). apply GetPublicKey_Ok in Hb as (bb & Hb & ->). unfold key_hex in Hrb. rewrite Hex.decode_encode in Hrb. injection Hrb as <-.
    apply (make_wrap_opens _ _ _ _ bb) in HW as (KW & _ & VW & _ & OW); [|done..]. unfold open_payload in OW.
    apply bind_Ok in OW as (wb & Hwb%some_or_Ok & OW). apply bind_Ok in OW as (wpk & Hwpk%some_or_Ok & OW). apply wrap_err_Ok in OW.
    unfold inner_seal. rewrite KW. change (KindGiftWrap =? KindGiftWrap) with true. cbv iota. rewrite (proj2 (seal_verified_Ok w) VW). cbn [mbind outcome_bind LocalKey sgDecrypt].
    unfold ConversationKeyHex. rewrite Hb, Hwb, Hwpk. cbn [ok_or_none mbind option_bind]. rewrite OW. cbn [ok_or_none seal_or mbind outcome_bind].
    rewrite HJs. cbn [seal_or mbind outcome_bind]. by rewrite HK.
  - apply HU. unfold inner_seal. by rewrite HK.
  - apply HPV. cbn [LocalKey sgMessageKeys]. rewrite Hba. cbn. by rewrite HM.
  - apply HPV. cbn [LocalKey sgMessageKeys]. rewrite Hab. cbn. by rewrite HM.
Qed.

End Rumors.
End Facts.
