(* ===== verification/PocketSync.v ===== *)
(** * nipCP: the pocket on its relays

    [nipCP/seal.go] (an entry wrapped to its user and read back, and the deletion
    of an old wrap), [sync.go] (which relays, storing with read-back, syncing,
    republishing) and [journal.go] (the journal that writes calls ahead), over
    [Nip59], [PocketEntry] and [PocketState].  What a relay answers, the fresh
    keys, the random bytes and the clock are arguments. *)

From S2P Require Import Prelude GoLib Sha256 NostrUtils Pow Event Filter Nip44 CashCall PocketEntry PocketState Nip59.

Inductive SyncErr :=
  | ErrUserKey | ErrNotEntry | ErrSealEntry | ErrSealWrap (e : WrapErr) | ErrDeletion | ErrStoreKind | ErrNotStored (stored : list gostring)
  | ErrRelays | ErrPending (e : PocketErr) | ErrTooFewRelays.

(** ** Sealing an entry *)

Definition with_wrap_key (e : Entry) (wrapKey : gostring) : Entry :=
  mkEntry (eW e) (eRev e) (eCash e) (eAmount e) (eChain e) (eIdentity e) (eState e) (eCheckedAt e) wrapKey (eExpiresAt e) (eMint e) (eSource e) (eSecrets e)
    (eRequestID e) (eDeadline e) (eTarget e) (eDevice e) (eOrderKey e) (eNotify e) (eAddress e) (eQuote e) (eReceipt e)
    (eRumorID e) (eRumorCreatedAt e) (eWrapID e) [].

(** The read-only fields of an entry that is on the relays. *)
Definition placed (e : Entry) (rumorID : gostring) (created : Z) (wrapID : gostring) : Entry :=
  mkEntry (eW e) (eRev e) (eCash e) (eAmount e) (eChain e) (eIdentity e) (eState e) (eCheckedAt e) (eWrapKey e) (eExpiresAt e) (eMint e) (eSource e) (eSecrets e)
    (eRequestID e) (eDeadline e) (eTarget e) (eDevice e) (eOrderKey e) (eNotify e) (eAddress e) (eQuote e) (eReceipt e)
    rumorID created wrapID (eRawState e).

Definition maxBackdate : Z := 2 * 24 * 60 * 60.

Section Seal.
Context {GoLower0 : GoLower} {Schnorr0 : Schnorr} {Lib : Nip44Lib} {EventJSON0 : EventJSON}.

(** nipCP's [Seal]; [wrapKey] is the fresh key's bytes. *)
Definition SealEntry (e : Entry) (userPriv : gostring) (wrapKey : list byte) (now : Z) (opts : list Z) (rnd : WrapRandom) : outcome SyncErr (Event * Entry) :=
  match GetPublicKey userPriv with
  | Err _ => Err ErrUserKey
  | Panic => Panic
  | Ok user =>
      let e := with_wrap_key e (Hex.encode wrapKey) in
      match Rumor e user now with
      | None => Err ErrSealEntry
      | Some rumor =>
          match WrapWithKey (Some rumor) userPriv user (eWrapKey e) opts rnd with
          | Err x => Err (ErrSealWrap x)
          | Panic => Panic
          | Ok wrap => Ok (wrap, placed e (ID rumor) now (ID wrap))
          end
      end
  end.

Definition Open (wrap : option Event) (userPriv : gostring) : outcome SyncErr Entry :=
  match GetPublicKey userPriv with
  | Err _ => Err ErrUserKey
  | Panic => Panic
  | Ok user =>
      match UnwrapWithKey wrap userPriv with
      | Err _ => Err ErrNotEntry
      | Panic => Panic
      | Ok (rumor, signer) =>
          if negb (Kind rumor =? KindPocketEntry) then Err ErrNotEntry
          else if negb (bool_decide (signer = user)) || negb (bool_decide (PubKey rumor = user)) then Err ErrNotEntry
          else match ParseRumor rumor with
               | None => Err ErrNotEntry
               | Some e => Ok (placed e (eRumorID e) (eRumorCreatedAt e) match wrap with Some w => ID w | None => [] end)
               end
      end
  end.

Fixpoint open_each (wraps : list Event) (userPriv : gostring) : outcome SyncErr (list Entry) :=
  match wraps with
  | [] => Ok []
  | w :: wraps =>
      match Open (Some w) userPriv with
      | Ok e => es ← open_each wraps userPriv; Ok (e :: es)
      | Err ErrNotEntry => open_each wraps userPriv
      | Err x => Err x
      | Panic => Panic
      end
  end.

Definition OpenAll (wraps : list Event) (userPriv : gostring) : outcome SyncErr (list Entry) :=
  match GetPublicKey userPriv with
  | Err _ => Err ErrUserKey
  | Panic => Panic
  | Ok _ => open_each wraps userPriv
  end.

(** [rnd]: the eight random bytes as a uint64. *)
Definition DeletionFor (old : Entry) (now : Z) (rnd : option Z) : outcome SyncErr Event :=
  if negb (lowerHex (eWrapID old) 64) || negb (lowerHex (eWrapKey old) 64) then Err ErrDeletion
  else match rnd with
  | None => Err ErrDeletion
  | Some v =>
      match sign_event (mkEvent [] [] (u64 (now - v mod maxBackdate)) 5 [[bs "e"; eWrapID old]; [bs "k"; Dec.itoa KindGiftWrap]] [] []) (eWrapKey old) with
      | Ok ev => Ok ev
      | Err _ => Err ErrDeletion
      | Panic => Panic
      end
  end.

(** ** Relays *)

(** Trimmed, not empty, not seen yet. *)
Definition add_relay (out : list gostring) (u : gostring) : list gostring :=
  let u := Trim.TrimSpace u in if bool_decide (u = []) || in_list u out then out else out ++ [u].

Definition relay_tag (out : list gostring) (t : tag) : list gostring :=
  match t with name :: u :: _ => if bool_decide (name = bs "relay") then add_relay out u else out | _ => out end.

Definition write_tag (out : list gostring) (t : tag) : list gostring :=
  match t with
  | name :: u :: rest =>
      if bool_decide (name = bs "r") && match rest with [] => true | m :: _ => bool_decide (m = bs "write") || bool_decide (m = []) end then add_relay out u else out
  | _ => out
  end.

Definition WrapRelays (kind10050 nip65 : option Event) : list gostring :=
  let dm := match kind10050 with Some ev => if Kind ev =? 10050 then foldl relay_tag [] (Tags ev) else [] | None => [] end in
  if negb (bool_decide (dm = [])) then dm
  else match nip65 with Some ev => if Kind ev =? 10002 then foldl write_tag [] (Tags ev) else [] | None => [] end.

Definition MinStored : Z := 2.
Definition needed (relays : list gostring) : Z := if zlen relays <? MinStored then zlen relays else MinStored.

(** One relay's answers to a publication and the query after it (None: an error). *)
Record RelayAnswer := mkAnswer { taken : bool; returned : option (list (option Event)) }.

Definition hasID (evs : list (option Event)) (id : gostring) : bool :=
  existsb (fun e => match e with Some ev => bool_decide (ID ev = id) | None => false end) evs.

Definition read_back (id : gostring) (a : RelayAnswer) : bool :=
  taken a && match returned a with Some evs => hasID evs id | None => false end.

Definition ordered (all some : list gostring) : list gostring := List.filter (fun a => in_list a some) all.

(** The relays are asked concurrently: [answers] in the order of the relays. *)
Definition Store (answers : list (gostring * RelayAnswer)) (wrap : option Event) : outcome SyncErr (list gostring) :=
  match wrap with
  | None => Err ErrStoreKind
  | Some w =>
      if negb (Kind w =? KindGiftWrap) then Err ErrStoreKind
      else
        let relays := map fst answers in
        let stored := ordered relays (map fst (List.filter (fun p => read_back (ID w) p.2) answers)) in
        if (needed relays =? 0) || (zlen stored <? needed relays) then Err (ErrNotStored stored) else Ok stored
  end.

(** ** Syncing *)

Definition FullSyncFilter (user : gostring) : SubscriptionFilter :=
  mkFilter None None (Some [KindGiftWrap]) {[ bs "p" := [user] ]} 0 0 0 [] [] [].

Definition SyncOverlap : Z := 2 * 24 * 60 * 60.

Definition IncrementalFilter (user : gostring) (lastSync : Z) : SubscriptionFilter :=
  let since := s64 (lastSync - SyncOverlap) in
  let since := if since <? 0 then 0 else since in
  mkFilter None None (Some [KindGiftWrap]) {[ bs "p" := [user] ]} since 0 0 [] [] [].

Record Synced := mkSynced { syEntries : list Entry; syWraps : gmap gostring Event; syOn : gmap gostring (list gostring); Answered : list gostring }.

(** The harvest so far and the wraps to open. *)
Record Harvest := mkHarvest { hWraps : gmap gostring Event; hOn : gmap gostring (list gostring); hOpened : list Event }.

(** One event a relay returned; [seen] is None for a nil set. *)
Definition harvest (seen : option (gset gostring)) (relay : gostring) (h : Harvest) (ev : option Event) : Harvest :=
  match ev with
  | None => h
  | Some ev =>
      if negb (Kind ev =? KindGiftWrap) then h
      else match Verify [WithoutPowCheck] ev with
      | Ok _ =>
          let on := <[ID ev := default [] (hOn h !! ID ev) ++ [relay]]> (hOn h) in
          if bool_decide (is_Some (hWraps h !! ID ev)) then mkHarvest (hWraps h) on (hOpened h)
          else mkHarvest (<[ID ev := ev]> (hWraps h)) on
                         (if match seen with Some s => bool_decide (ID ev ∈ s) | None => false end then hOpened h else hOpened h ++ [ev])
      | _ => h
      end
  end.

Definition harvest_relay (seen : option (gset gostring)) (h : Harvest) (a : gostring * option (list (option Event))) : Harvest :=
  match a.2 with None => h | Some evs => foldl (harvest seen a.1) h evs end.

Definition answered (answers : list (gostring * option (list (option Event)))) : list gostring :=
  map fst (List.filter (fun a => bool_decide (is_Some a.2)) answers).

Definition note_seen (seen : option (gset gostring)) (opened : list Event) : option (gset gostring) :=
  match seen with Some s => Some (list_to_set (map ID opened) ∪ s) | None => None end.

(** [answers]: what each relay answered the query, in order. *)
Definition Sync (answers : list (gostring * option (list (option Event)))) (userPriv : gostring) (seen : option (gset gostring))
    : outcome SyncErr (Synced * option (gset gostring)) :=
  if negb (bool_decide (answers = [])) && bool_decide (answered answers = []) then Err ErrRelays
  else
    let h := foldl (harvest_relay seen) (mkHarvest ∅ ∅ []) answers in
    es ← OpenAll (hOpened h) userPriv;
    Ok (mkSynced es (hWraps h) (hOn h) (answered answers), note_seen seen (hOpened h)).

(** [es]: the winners in the order of this run; [published]: a relay takes a wrap.
    The relays each wrap was written to, and whether a publication failed. *)
Definition republish_entry (relays : list gostring) (seen : Synced) (published : gostring -> gostring -> bool) (out : gmap gostring (list gostring) * bool) (e : Entry)
    : gmap gostring (list gostring) * bool :=
  if bool_decide (is_Some (syWraps seen !! eWrapID e)) then
    let have := default [] (syOn seen !! eWrapID e) in
    foldl (fun (o : gmap gostring (list gostring) * bool) r =>
      if in_list r have then o
      else if published r (eWrapID e) then (<[eWrapID e := default [] (o.1 !! eWrapID e) ++ [r]]> o.1, o.2) else (o.1, true)) out relays
  else out.

Definition Republish (relays : list gostring) (es : list Entry) (seen : Synced) (published : gostring -> gostring -> bool) : gmap gostring (list gostring) * bool :=
  foldl (republish_entry relays seen published) (∅, false) es.

(** ** The journal *)

Record PocketJournal := mkJournal { jChain : gostring; jEntries : list Entry; jWritten : gmap gostring Entry; jDeletions : list Event }.

(** What one call's write-ahead draws and is answered. *)
Record WriteEnv := mkEnv { wePending : Z; weKey : list byte; weNow : Z; weRnd : WrapRandom; weAnswers : list (gostring * RelayAnswer); weDelNow : Z; weDelRnd : option Z }.

Definition filled (pc : PendingCall) (device chain : gostring) : PendingCall :=
  mkCall (pcRequestID pc) (pcDeadline pc) (pcMethod pc) (pcTarget pc) (pcHub pc) (pcMaxAge pc) (if str_empty (pcDevice pc) then device else pcDevice pc)
         (pcSecrets pc) (pcSource pc) (pcAmount pc) (if str_empty (pcChain pc) then chain else pcChain pc) (pcDerivedFrom pc) (pcAttempt pc) (pcLastCode pc)
         (pcSawReused pc) (pcParams pc) (pcBuyerKey pc) (pcNotify pc) (pcPayBy pc) (pcLastDetail pc) (pcQuote pc) (pcAddress pc) (pcHoldsUntil pc) (pcReceipt pc).

(** The entry a call is written as: the next version of its w. *)
Definition ahead (j : PocketJournal) (device : gostring) (pc : PendingCall) (now : Z) : outcome SyncErr (Entry * option Entry) :=
  match PendingEntry (filled pc device (jChain j)) now with
  | Err x => Err (ErrPending x)
  | Panic => Panic
  | Ok e =>
      let prev := jWritten j !! eW e in
      Ok (set_rev e (NextVersion (jEntries j ++ match prev with Some p => [p] | None => [] end) (eW e)), prev)
  end.

Definition write_one (j : PocketJournal) (userPriv device : gostring) (pc : PendingCall) (env : WriteEnv) : outcome SyncErr PocketJournal :=
  '(e, prev) ← ahead j device pc (wePending env);
  '(wrap, sealed) ← SealEntry e userPriv (weKey env) (weNow env) [] (weRnd env);
  _ ← Store (weAnswers env) (Some wrap);
  let dels := match prev with
              | Some p => match DeletionFor p (weDelNow env) (weDelRnd env) with Ok d => [d] | _ => [] end
              | None => []
              end in
  Ok (mkJournal (jChain j) (jEntries j) (<[eW e := sealed]> (jWritten j)) (jDeletions j ++ dels)).

(** The calls in turn; an error keeps what was written before it. *)
Fixpoint write_calls (j : PocketJournal) (userPriv device : gostring) (calls : list (PendingCall * WriteEnv)) : PocketJournal * outcome SyncErr unit :=
  match calls with
  | [] => (j, Ok tt)
  | (pc, env) :: calls =>
      match write_one j userPriv device pc env with
      | Ok j => write_calls j userPriv device calls
      | Err x => (j, Err x)
      | Panic => (j, Panic)
      end
  end.

(** Deletions no relay took stay queued. *)
Definition flushDeletions (j : PocketJournal) (relays : list gostring) (published : gostring -> Event -> bool) : PocketJournal :=
  mkJournal (jChain j) (jEntries j) (jWritten j) (List.filter (fun d => negb (existsb (fun r => published r d) relays)) (jDeletions j)).

Definition WriteAhead (j : PocketJournal) (userPriv device : gostring) (calls : list (PendingCall * WriteEnv)) (relays : list gostring)
    (published : gostring -> Event -> bool) : PocketJournal * outcome SyncErr unit :=
  match GetPublicKey userPriv with
  | Err _ => (j, Err ErrUserKey)
  | Panic => (j, Panic)
  | Ok _ =>
      match write_calls j userPriv device calls with
      | (j, Ok _) => (flushDeletions j relays published, Ok tt)
      | r => r
      end
  end.

(** The journal's [DerivedEntryExists]: a full sync, whose absence is trusted
    only when enough relays answered. *)
Definition DerivedExists (answers : list (gostring * option (list (option Event)))) (userPriv id : gostring) : outcome SyncErr bool :=
  match GetPublicKey userPriv with
  | Err _ => Err ErrUserKey
  | Panic => Panic
  | Ok _ =>
      '(s, _) ← Sync answers userPriv None;
      if EntryExists (syEntries s) id then Ok true
      else if zlen (Answered s) <? needed (map fst answers) then Err ErrTooFewRelays
      else Ok false
  end.

End Seal.
