(* ===== verification/PocketSyncProps.v ===== *)
(** * nipCP: what the relays keep of a pocket

    The properties of [PocketSync]: an entry sealed is the entry opened, a sync
    misses no entry a relay returned and lets none in from anywhere else, an
    absence is trusted only when it is one (up to three relays), and a call
    written ahead is stored and current. *)

From S2P Require Import Prelude GoLib Sha256 NostrUtils Pow Event Filter Nip44 Nip98 CashCall PocketEntry PocketState PocketResolve Nip59 PocketSync.

(** Two lists that outnumber a list they are drawn from share a member. *)
Lemma quorums_meet {A} `{EqDecision A} (all l1 l2 : list A) : NoDup l1 -> NoDup l2 -> l1 ⊆ all -> l2 ⊆ all -> (length all < length l1 + length l2)%nat ->
  exists x, x ∈ l1 /\ x ∈ l2.
Proof.
  intros N1 N2 S1 S2 HL. destruct (decide (Forall (fun x => x ∉ l2) l1)) as [HF|HF].
  - assert (HN : NoDup (l1 ++ l2)) by (apply NoDup_app; split_and!; [done| |done]; by apply Forall_forall).
    apply NoDup_ListNoDup in HN. pose proof (NoDup_incl_length (l' := all) HN) as HI. rewrite length_app in HI.
    assert (Hincl : incl (l1 ++ l2) all) by (intros x Hx; apply in_app_iff in Hx; apply list_elem_of_In; destruct Hx as [Hx|Hx]; apply list_elem_of_In in Hx; [by apply S1|by apply S2]).
    specialize (HI Hincl). lia.
  - apply not_Forall_Exists in HF; [|apply _]. apply Exists_exists in HF as (x & Hx & Hn). exists x. split; [done|]. by apply dec_stable.
Qed.

Lemma foldl_inv_in {A B} (P : A -> Prop) (f : A -> B -> A) l a : (forall acc x, x ∈ l -> P acc -> P (f acc x)) -> P a -> P (foldl f a l).
Proof.
  revert a. induction l as [|x l IH]; intros a Hf Ha; cbn; [done|]. apply IH; [|apply Hf; [left|done]]. intros acc y Hy. apply Hf. by right.
Qed.

(** What one element brings about and the rest keep holds at the end. *)
Lemma foldl_hit {A B} (Q : A -> Prop) (f : A -> B -> A) l a x : x ∈ l -> (forall acc, Q (f acc x)) -> (forall acc y, Q acc -> Q (f acc y)) -> Q (foldl f a l).
Proof.
  intros Hx Hhit Hkeep. revert a. induction l as [|y l IH]; [by apply elem_of_nil in Hx|]. intros a. cbn. apply elem_of_cons in Hx as [<-|Hx]; [|by apply IH].
  apply foldl_inv; [done|apply Hhit].
Qed.

Section Facts.
Context {GoLower0 : GoLower} {Schnorr0 : Schnorr} {Lib : Nip44Lib} {EventJSON0 : EventJSON}.

(** ** Sealing and opening *)

(** The fields of an entry that are written. *)
Definition bare (e : Entry) : Entry := placed (with_wrap_key e []) [] 0 [].

(** The JSON of the rumor and of the seals this entry is wrapped in. *)
Definition survives_json (e : Entry) (userPriv : gostring) (wrapKey : list byte) (now : Z) (rnd : WrapRandom) : Prop :=
  forall user rumor, GetPublicKey userPriv = Ok user -> Rumor (with_wrap_key e (Hex.encode wrapKey)) user now = Some rumor ->
    json_stable rumor /\ forall sk pk seal, make_seal rumor userPriv sk pk rnd = Ok seal -> json_stable seal.

Lemma as_sent_rumor e user now rumor : Rumor e user now = Some rumor -> as_sent rumor user = rumor /\ Sig rumor = [].
Proof. unfold Rumor. destruct (Validate e); [|done]. cbn [negb]. destruct (str_empty (eWrapKey e)); [done|]. by intros [= <-]. Qed.

Lemma Rumor_placed e user now r c w : Rumor (placed e r c w) user now = Rumor e user now.
Proof. reflexivity. Qed.

(** What was sealed opens to the entry [SealEntry] returned. *)
Lemma sealed_opens e userPriv wrapKey now opts rnd wrap e' :
  SchnorrLaws -> Nip44Laws -> length (sealNonce rnd) = 32%nat -> length (wrapNonce rnd) = 32%nat -> writable (bare e) -> 0 <= now < 2 ^ 63 ->
  survives_json e userPriv wrapKey now rnd ->
  SealEntry e userPriv wrapKey now opts rnd = Ok (wrap, e') ->
  Open (Some wrap) userPriv = Ok e' /\ Kind wrap = KindGiftWrap /\ Verify [WithoutPowCheck] wrap = Ok tt /\ eW e' = eW e /\ eRev e' = eRev e /\ eState e' = eState e /\
  eWrapKey e' = Hex.encode wrapKey /\ eWrapID e' = ID wrap /\ exists user, GetPublicKey userPriv = Ok user /\ [bs "p"; user] ∈ Tags wrap.
Proof.
  intros HS HL Hn1 Hn2 HWr Hnow HJ HE. unfold SealEntry in HE. destruct (GetPublicKey userPriv) as [user|e0|] eqn:HG; [|done..].
  destruct (Rumor _ user now) as [rumor|] eqn:HR; [|done].
  destruct (WrapWithKey _ _ _ _ _ _) as [w|x|] eqn:HW; [|done..]. injection HE as <- <-.
  destruct (as_sent_rumor _ _ _ _ HR) as [HA HSig].
  assert (HWk : writable (placed (with_wrap_key e (Hex.encode wrapKey)) [] 0 [])) by exact HWr.
  destruct (rumor_reads_back _ user now rumor HWk Hnow HR) as (HP & HPk & HK & _).
  destruct (HJ user rumor HG HR) as [HJr HJs].
  apply (unwrap_wrapped rumor w userPriv user userPriv user) in HW as (HU & KW & VW & _ & TW); try done; [|by rewrite HA|by rewrite HA].
  rewrite HA in HU. cbn [with_wrap_key] in *. split_and!; try done.
  - unfold Open. rewrite HG, HU. rewrite HK, Z.eqb_refl. cbn [negb]. rewrite HPk, bool_decide_true by done. cbn [negb orb]. by rewrite HP.
  - exists user. split; [done|]. rewrite TW. by left.
Qed.

(** C15: the pocket survives its relays, sealed: what Seal wraps to the user, Open
    with the user's key reads back as the very entry Seal returned (its wrap key,
    wrap id and rumor id included), and the wrap is a verified gift wrap to the
    user. *)
Theorem sealed_reopens (e e' : Entry) (userPriv : gostring) (wrapKey : list byte) (now : Z) (opts : list Z) (rnd : WrapRandom) (wrap : Event)
    (HS : SchnorrLaws) (HL : Nip44Laws) (Hn1 : length (sealNonce rnd) = 32%nat) (Hn2 : length (wrapNonce rnd) = 32%nat) (HW : writable (bare e)) (Hnow : 0 <= now < 2 ^ 63)
    (HJ : survives_json e userPriv wrapKey now rnd)
    (HE : SealEntry e userPriv wrapKey now opts rnd = Ok (wrap, e')) :
  Open (Some wrap) userPriv = Ok e' /\ Kind wrap = KindGiftWrap /\ Verify [WithoutPowCheck] wrap = Ok tt /\
  eW e' = eW e /\ eRev e' = eRev e /\ eState e' = eState e /\ eWrapKey e' = Hex.encode wrapKey /\ eWrapID e' = ID wrap /\
  exists user, GetPublicKey userPriv = Ok user /\ [bs "p"; user] ∈ Tags wrap.
Proof. by apply (sealed_opens e userPriv wrapKey now opts rnd). Qed.

(** ** Two wraps of one id *)

Definition sha_collision : Prop := exists a b : list byte, a <> b /\ sha256 a = sha256 b.

Lemma same_key_decodes s t : Validate32Key s = Ok tt -> Validate32Key t = Ok tt -> ToLower s = ToLower t -> Hex.decode s = Hex.decode t.
Proof.
  intros (a & Ha & _)%Validate32Key_decodes (b & Hb & _)%Validate32Key_decodes HE. rewrite Ha, Hb. f_equal. apply Hex.encode_inj.
  rewrite (encode_lower _ _ Ha), (encode_lower _ _ Hb). by rewrite <- !ToLower_ascii by (by eapply decode_ascii).
Qed.

(** Verified wraps of one id open alike, but for a collision of SHA-256. *)
Lemma same_id_opens w1 w2 userPriv : Verify [WithoutPowCheck] w1 = Ok tt -> Verify [WithoutPowCheck] w2 = Ok tt ->
  0 <= CreatedAt w1 < 2 ^ 64 -> 0 <= CreatedAt w2 < 2 ^ 64 -> ID w1 = ID w2 ->
  Open (Some w1) userPriv = Open (Some w2) userPriv \/ sha_collision.
Proof.
  intros V1 V2 C1 C2 HI. destruct (same_id_same_event _ _ _ _ V1 V2 C1 C2 HI) as [(HP & _ & HK & _ & HC)|[Hne HE]]; [left|right; by eexists _, _].
  pose proof V1 as (P1 & _)%Verify_accepted. pose proof V2 as (P2 & _)%Verify_accepted.
  assert (HO : forall k, open_payload k (PubKey w1) (Content w1) = open_payload k (PubKey w2) (Content w2))
    by (intros k; unfold open_payload; by rewrite HC, (same_key_decodes _ _ P1 P2 HP)).
  unfold Open, UnwrapWithKey. rewrite HK, HI. rewrite (proj2 (verified_Ok w1) V1), (proj2 (verified_Ok w2) V2). cbn [mbind outcome_bind].
  destruct (ParsePrivateKeyHex userPriv); [cbn [wrap_err mbind outcome_bind]|done..]. by rewrite HO.
Qed.

(** ** Syncing *)

Definition good (w : Event) : Prop := Kind w = KindGiftWrap /\ Verify [WithoutPowCheck] w = Ok tt.
Definition unseen (seen : option (gset gostring)) (id : gostring) : Prop := match seen with Some s => id ∉ s | None => True end.

(** What a harvest holds: verified wraps from [P], opened unless seen. *)
Record harvested (seen : option (gset gostring)) (P : Event -> Prop) (h : Harvest) : Prop := {
  har_wraps : forall id w, hWraps h !! id = Some w -> ID w = id /\ good w /\ P w /\ (unseen seen id -> w ∈ hOpened h);
  har_opened : forall w, w ∈ hOpened h -> good w /\ P w /\ unseen seen (ID w);
}.

Lemma harvest_good seen r h w : good w ->
  harvest seen r h (Some w) =
    let on := <[ID w := default [] (hOn h !! ID w) ++ [r]]> (hOn h) in
    if bool_decide (is_Some (hWraps h !! ID w)) then mkHarvest (hWraps h) on (hOpened h)
    else mkHarvest (<[ID w := w]> (hWraps h)) on
           (if match seen with Some s => bool_decide (ID w ∈ s) | None => false end then hOpened h else hOpened h ++ [w]).
Proof. intros [HK HV]. unfold harvest. by rewrite HK, HV. Qed.

Lemma harvest_cases seen r h ev : harvest seen r h ev = h \/ exists w, ev = Some w /\ good w.
Proof.
  destruct ev as [w|]; [|by left]. unfold harvest. destruct (Z.eqb_spec (Kind w) KindGiftWrap) as [HK|]; [|by left]. cbn [negb].
  destruct (Verify _ w) as [[]| |] eqn:HV; [right; by exists w|by left..].
Qed.

Lemma seen_unseen seen id : match seen with Some s => bool_decide (id ∈ s) | None => false end = false <-> unseen seen id.
Proof. destruct seen as [s|]; cbn; [|done]. by rewrite bool_decide_eq_false. Qed.

Lemma harvest_inv seen P r h ev : harvested seen P h -> (forall w, ev = Some w -> P w) -> harvested seen P (harvest seen r h ev).
Proof.
  intros HI HP. destruct (harvest_cases seen r h ev) as [->|(w & -> & Hg)]; [done|]. rewrite harvest_good by done. cbv zeta.
  specialize (HP w eq_refl). destruct HI as [HW HO]. case_bool_decide as HS; split; cbn [hWraps hOpened]; [done|done| |].
  - intros id w'. rewrite lookup_insert_Some. intros [[<- <-]|[Hne Hl]].
    + split; [done|]. split; [done|]. split; [done|]. intros HU. apply seen_unseen in HU. rewrite HU. apply elem_of_app. right. by left.
    + destruct (HW id w' Hl) as (H1 & H2 & H3 & H4). do 3 (split; [done|]). intros HU. specialize (H4 HU). case_match; [done|]. apply elem_of_app. by left.
  - intros w'. destruct (match seen with Some s => bool_decide (ID w ∈ s) | None => false end) eqn:E; [apply HO|].
    intros [Hw| ->%list_elem_of_singleton]%elem_of_app; [by apply HO|]. split; [done|]. split; [done|]. by apply seen_unseen.
Qed.

(** What stays: wraps held and relays credited. *)
Definition holds (id r : gostring) (h : Harvest) : Prop := is_Some (hWraps h !! id) /\ r ∈ default [] (hOn h !! id).

Lemma harvest_holds seen r h w : good w -> holds (ID w) r (harvest seen r h (Some w)).
Proof.
  intros Hg. rewrite harvest_good by done. cbv zeta. unfold holds. case_bool_decide as HS; cbn [hWraps hOn]; rewrite lookup_insert_eq; cbn [default from_option].
  - split; [done|]. apply elem_of_app. right. by left.
  - rewrite lookup_insert_eq. split; [done|]. apply elem_of_app. right. by left.
Qed.

Lemma harvest_keeps seen id r r' h ev : holds id r h -> holds id r (harvest seen r' h ev).
Proof.
  intros [HW HO]. destruct (harvest_cases seen r' h ev) as [->|(w & -> & Hg)]; [done|]. rewrite harvest_good by done. cbv zeta.
  assert (HO' : r ∈ default [] (<[ID w := default [] (hOn h !! ID w) ++ [r']]> (hOn h) !! id)).
  { destruct (decide (ID w = id)) as [<-|Hne]; [rewrite lookup_insert_eq; cbn; apply elem_of_app; by left|by rewrite lookup_insert_ne]. }
  case_bool_decide; split; cbn [hWraps hOn]; try done. destruct (decide (ID w = id)) as [<-|Hne]; [rewrite lookup_insert_eq; by eexists|by rewrite lookup_insert_ne].
Qed.

Lemma harvest_relay_keeps seen id r h a : holds id r h -> holds id r (harvest_relay seen h a).
Proof. unfold harvest_relay. destruct a.2; [|done]. intros. apply foldl_inv; [|done]. intros. by apply harvest_keeps. Qed.

Lemma open_each_Ok wraps userPriv es : open_each wraps userPriv = Ok es -> forall e, e ∈ es <-> exists w, w ∈ wraps /\ Open (Some w) userPriv = Ok e.
Proof.
  revert es. induction wraps as [|w wraps IH]; intros es HE e; cbn [open_each] in HE.
  - injection HE as <-. split; [by intros ?%elem_of_nil|by intros (x & ?%elem_of_nil & _)].
  - destruct (Open (Some w) userPriv) as [e0|x|] eqn:HO; [| |done].
    + apply bind_Ok in HE as (es' & HE & [= <-]). rewrite elem_of_cons, (IH es' HE). split.
      * intros [->|(w' & Hw & Ho)]; [exists w; split; [by left|done]|exists w'; split; [by right|done]].
      * intros (w' & [->|Hw]%elem_of_cons & Ho); [left; congruence|right; by exists w'].
    + destruct x; try done. rewrite (IH es HE). split.
      * intros (w' & Hw & Ho). exists w'. split; [by right|done].
      * intros (w' & [->|Hw]%elem_of_cons & Ho); [congruence|by exists w'].
Qed.

Definition returned_by (answers : list (gostring * option (list (option Event)))) (r : gostring) (w : Event) : Prop :=
  exists evs, (r, Some evs) ∈ answers /\ Some w ∈ evs.

Lemma Sync_Ok answers userPriv seen s seen' : Sync answers userPriv seen = Ok (s, seen') ->
  exists h, h = foldl (harvest_relay seen) (mkHarvest ∅ ∅ []) answers /\ open_each (hOpened h) userPriv = Ok (syEntries s) /\
    syWraps s = hWraps h /\ syOn s = hOn h /\ Answered s = answered answers /\ seen' = note_seen seen (hOpened h) /\
    harvested seen (fun w => exists r, returned_by answers r w) h /\
    forall r w, returned_by answers r w -> good w -> holds (ID w) r h.
Proof.
  intros HS. unfold Sync in HS. destruct (_ && _); [done|]. apply bind_Ok in HS as (es & HE & [= <- <-]).
  eexists. split; [reflexivity|]. unfold OpenAll in HE. destruct (GetPublicKey userPriv); [|done..]. do 5 (split; [done|]). split.
  - apply foldl_inv_in; [|by split; cbn [hWraps hOpened]; [intros id w; rewrite lookup_empty|intros w ?%elem_of_nil]]. intros h0 a0 Ha HI. unfold harvest_relay. destruct a0 as [r [evs|]]; cbn [fst snd]; [|done].
    apply foldl_inv_in; [|done]. intros h' ev Hev HI'. apply harvest_inv; [done|]. intros w ->. by exists r, evs.
  - intros r w (evs & Ha & Hw) Hg. apply (foldl_hit _ _ _ _ _ Ha); [|intros; by apply harvest_relay_keeps].
    intros h. unfold harvest_relay. cbn [fst snd]. apply (foldl_hit _ _ _ _ _ Hw); [intros; by apply harvest_holds|intros; by apply harvest_keeps].
Qed.

Definition timed (answers : list (gostring * option (list (option Event)))) : Prop := forall r w, returned_by answers r w -> 0 <= CreatedAt w < 2 ^ 64.

(** A sync holds the entry of every wrap a relay returned. *)
Lemma sync_has answers userPriv seen s seen' r w e : Sync answers userPriv seen = Ok (s, seen') -> timed answers -> returned_by answers r w -> good w ->
  unseen seen (ID w) -> Open (Some w) userPriv = Ok e -> e ∈ syEntries s \/ sha_collision.
Proof.
  intros HS HT HR Hg HU HO. apply Sync_Ok in HS as (h & _ & HE & _ & _ & _ & _ & HI & HH).
  destruct (HH r w HR Hg) as [[w' Hw'] _]. destruct (har_wraps _ _ _ HI _ _ Hw') as (HID & Hg' & (r' & HR') & Hop). specialize (Hop HU).
  destruct (same_id_opens w' w userPriv (proj2 Hg') (proj2 Hg) (HT _ _ HR') (HT _ _ HR) HID) as [HS|HC]; [|by right].
  left. apply (open_each_Ok _ _ _ HE). exists w'. split; [done|]. congruence.
Qed.


(** ** Absence *)

Lemma ordered_in all some x : x ∈ ordered all some <-> x ∈ all /\ x ∈ some.
Proof. unfold ordered. rewrite (list_elem_of_In (List.filter _ _)), filter_In, <- list_elem_of_In. unfold in_list. by rewrite bool_decide_eq_true. Qed.

Lemma NoDup_list_filter {A} (f : A -> bool) l : NoDup l -> NoDup (List.filter f l).
Proof. rewrite !NoDup_ListNoDup. apply List.NoDup_filter. Qed.

Lemma Store_Ok answers wrap st : Store answers (Some wrap) = Ok st ->
  Kind wrap = KindGiftWrap /\ (NoDup (map fst answers) -> NoDup st) /\ st ⊆ map fst answers /\ 1 <= needed (map fst answers) <= zlen st.
Proof.
  unfold Store. destruct (Z.eqb_spec (Kind wrap) KindGiftWrap) as [HK|]; [|done]. cbn [negb].
  set (st0 := ordered _ _). destruct (Z.eqb_spec (needed (map fst answers)) 0) as [|H0]; [done|]. cbn [orb].
  destruct (Z.ltb_spec (zlen st0) (needed (map fst answers))); [done|]. intros [= <-]. split; [done|].
  split; [apply NoDup_list_filter|]. split; [by intros x [Hx _]%ordered_in|]. split; [|done].
  unfold needed in *. unfold zlen in *. destruct (Z.ltb_spec (Z.of_nat (length (map fst answers))) MinStored); unfold MinStored in *; lia.
Qed.

Lemma answered_spec answers r : r ∈ answered answers <-> exists evs, (r, Some evs) ∈ answers.
Proof.
  unfold answered. rewrite list_elem_of_fmap. split.
  - intros ([x a] & -> & HI). apply list_elem_of_In, filter_In in HI as [HI HS]. cbn [snd] in HS. apply bool_decide_eq_true in HS as [evs ->]. exists evs. by apply list_elem_of_In.
  - intros (evs & HI). exists (r, Some evs). split; [done|]. apply list_elem_of_In, filter_In. split; [by apply list_elem_of_In|done].
Qed.

Lemma NoDup_answered answers : NoDup (map fst answers) -> NoDup (answered answers) /\ answered answers ⊆ map fst answers.
Proof.
  intros HN. split.
  - unfold answered. revert HN. induction answers as [|[r a] l IH]; [constructor|]. cbn [map fst]. rewrite NoDup_cons. intros [Hn HN]. cbn [List.filter snd].
    case_bool_decide; [|by apply IH]. cbn [map fst]. constructor; [|by apply IH]. intros Hin. apply Hn. change (r ∈ answered l) in Hin. apply answered_spec in Hin as (evs & Hin).
    apply list_elem_of_fmap. by exists (r, Some evs).
  - intros r (evs & HI)%answered_spec. apply list_elem_of_fmap. by exists (r, Some evs).
Qed.


(** With four relays the two that stored the wrap can be the two that do not
    answer: the absence of an entry that is stored is trusted. *)
Theorem absence_misjudged (wrap : Event) (userPriv user id r1 r2 r3 r4 : gostring) :
  Kind wrap = KindGiftWrap -> GetPublicKey userPriv = Ok user -> NoDup [r1; r2; r3; r4] ->
  let yes := mkAnswer true (Some [Some wrap]) in let no := mkAnswer false None in
  Store [(r1, yes); (r2, yes); (r3, no); (r4, no)] (Some wrap) = Ok [r1; r2] /\
  DerivedExists [(r1, None); (r2, None); (r3, Some []); (r4, Some [])] userPriv id = Ok false.
Proof.
  intros HK HU HN yes no. split.
  - assert (HB : read_back (ID wrap) yes = true) by (unfold read_back, hasID; cbn; by rewrite bool_decide_true).
    assert (HNn : read_back (ID wrap) no = false) by done.
    unfold Store. rewrite HK, Z.eqb_refl. cbn [negb List.filter snd map fst]. rewrite HB, HNn. cbn [map fst].
    assert (HF : forall r, r ∉ [r1; r2] -> in_list r [r1; r2] = false) by (intros; by apply bool_decide_false).
    assert (HT : forall r, r ∈ [r1; r2] -> in_list r [r1; r2] = true) by (intros; by apply bool_decide_true).
    unfold ordered. cbn [List.filter]. rewrite (HT r1), (HT r2), (HF r3), (HF r4); [reflexivity| | | |].
    + intros Hr. apply (NoDup_app [r1; r2] [r3; r4]) in HN as (_ & HN & _). apply (HN r4 Hr). right. by left.
    + intros Hr. apply (NoDup_app [r1; r2] [r3; r4]) in HN as (_ & HN & _). apply (HN r3 Hr). by left.
    + right. by left.
    + by left.
  - unfold DerivedExists, Sync, OpenAll. rewrite HU. reflexivity.
Qed.

(** ** Writing ahead *)

Lemma PendingEntry_Ok pc now e : PendingEntry pc now = Ok e ->
  eW e = pcRequestID pc /\ eAmount e = pcAmount pc /\ eCheckedAt e = now /\ eDeadline e = pcDeadline pc /\ eExpiresAt e = None /\ eIdentity e = no_identity /\
  eState e = StatePending /\ eRumorID e = [] /\ eRumorCreatedAt e = 0 /\ eWrapID e = [] /\ eRawState e = [].
Proof.
  unfold PendingEntry. cbv zeta. intros HP. repeat match type of HP with (if ?c then _ else _) = _ => destruct c; [discriminate HP|] end.
  unfold valid_or in HP. match type of HP with (if ?c then _ else _) = _ => destruct c; [|discriminate HP] end. by injection HP as <-.
Qed.

(** C26: a call written ahead is stored and current.  When the journal has written
    a call, its pending entry was read back from as many relays as a wrap needs,
    opens with the user's key to the entry the journal keeps, and is the current
    entry of its w, without conflict, among everything the journal knew of it. *)
Theorem write_ahead_wins (j j' : PocketJournal) (userPriv device : gostring) (pc : PendingCall) (env : WriteEnv)
    (HS : SchnorrLaws) (HL : Nip44Laws) (Hn1 : length (sealNonce (weRnd env)) = 32%nat) (Hn2 : length (wrapNonce (weRnd env)) = 32%nat)
    (Hr : 0 <= pcAmount pc < 2 ^ 64 /\ pcDeadline pc <= 2 ^ 62 /\ wePending env <= 2 ^ 62 /\ 0 <= weNow env < 2 ^ 63)
    (HJ : forall e prev, ahead j device pc (wePending env) = Ok (e, prev) -> survives_json e userPriv (weKey env) (weNow env) (weRnd env))
    (HB : forall x, x ∈ jEntries j \/ jWritten j !! pcRequestID pc = Some x -> eW x = pcRequestID pc -> 0 <= eRev x < 2 ^ 64 - 1)
    (HW : write_one j userPriv device pc env = Ok j') :
  exists wrap st sealed, jWritten j' !! pcRequestID pc = Some sealed /\ Store (weAnswers env) (Some wrap) = Ok st /\
    needed (map fst (weAnswers env)) <= zlen st /\ Open (Some wrap) userPriv = Ok sealed /\ Verify [WithoutPowCheck] wrap = Ok tt /\
    eW sealed = pcRequestID pc /\ eState sealed = StatePending /\
    forall l, (forall x, x ∈ l <-> x = sealed \/ x ∈ jEntries j \/ jWritten j !! pcRequestID pc = Some x) ->
      winners (Resolve l) !! pcRequestID pc = Some sealed /\ pcRequestID pc ∉ conflicts (Resolve l).
Proof.
  unfold write_one in HW. apply bind_Ok in HW as ([e prev] & HA & HW). apply bind_Ok in HW as ([wrap sealed] & HE & HW).
  apply bind_Ok in HW as (st & HSt & HW). injection HW as <-. pose proof (HJ e prev HA) as HJe. cbn [jWritten].
  unfold ahead in HA. destruct (PendingEntry _ _) as [e0| |] eqn:HP; [|done..]. injection HA as <- <-.
  apply PendingEntry_Ok in HP as (P1 & P2 & P3 & P4 & P5 & P6 & P7 & P8 & P9 & P10 & P11). cbn [filled pcRequestID pcAmount pcDeadline] in P1, P2, P4.
  set (all := jEntries j ++ match jWritten j !! eW e0 with Some p => [p] | None => [] end) in *. set (e1 := set_rev e0 (NextVersion all (eW e0))) in *.
  assert (HWr : writable (bare e1)).
  { unfold writable, bare. cbn. rewrite P2, P3, P4, P5, P6. split_and!; try done; try lia; [apply wrap_range; lia|apply wrap_range; lia]. }
  destruct (sealed_opens e1 userPriv (weKey env) (weNow env) [] (weRnd env) wrap sealed HS HL Hn1 Hn2 HWr ltac:(lia) HJe HE)
    as (HO & HKd & HV & Hw & Hrev & Hst & _).
  change (eW e1) with (eW e0) in Hw |- *. change (eState e1) with (eState e0) in Hst. rewrite P1 in Hw |- *. rewrite P7 in Hst.
  exists wrap, st, sealed. rewrite lookup_insert_eq. destruct (Store_Ok _ _ _ HSt) as (_ & _ & _ & Hneed).
  do 2 (split; [done|]). split; [lia|]. do 4 (split; [done|]).
  intros l Hl. rewrite <- Hw. apply (next_version_wins all l sealed).
  - intros x Hx Hxw. apply HB; [|congruence]. unfold all in Hx. rewrite P1 in Hx. apply elem_of_app in Hx as [Hx|Hx]; [by left|].
    destruct (jWritten j !! pcRequestID pc); [apply list_elem_of_singleton in Hx as ->; by right|by apply elem_of_nil in Hx].
  - unfold Recognised. by rewrite Hst.
  - rewrite Hrev. change (eRev e1) with (NextVersion all (eW e0)). by rewrite P1, Hw.
  - intros x. rewrite Hl. unfold all. rewrite P1, elem_of_app. destruct (jWritten j !! pcRequestID pc) as [p|]; [rewrite list_elem_of_singleton|rewrite elem_of_nil]; naive_solver.
Qed.

End Facts.
