(* ===== verification/PocketDemo.v ===== *)
(** * nipCP: witnesses

    A pocket on concrete entries: a bill written and read back, two devices'
    entries resolved, a transfer's result applied, a withdrawal finished on its
    receipt, an entry sealed, stored and synced, a call written ahead. *)

From S2P Require Import Prelude GoLib Sha256 NostrUtils Pow Event Filter Nip44 Nip98 CashCall CashWithdraw CashWithdrawProps CashPayout CashRecover CashOnce CashDemo PocketEntry PocketState PocketResolve PocketWrites Nip59 PocketSync PocketSyncProps.

#[local] Existing Instance toy64.
#[local] Instance pocket_lower : GoLower := ascii_lower.

Definition demo_bill (rev : Z) (s : gostring) (amount created : Z) (rumor : gostring) : Entry :=
  mkEntry (hex_of "b"%byte) rev (bs "cashtoken") amount (bs "bitcoin") (mkIdentity IdentityPubkey (hex_of "c"%byte) []) s 1700000000 (hex_of "d"%byte)
    (Some 1800000000) [] [] [] [] 0 [] [] [] [] [] [] [] rumor created [] [].

Definition demo_rumor : Event :=
  match Rumor (demo_bill 1 StateLive 21000 0 []) (hex_of "e"%byte) 1700000001 with Some ev => ev | None => sample_event end.

Lemma entry_roundtrip_witness :
  ParseRumor demo_rumor = Some (as_read (demo_bill 1 StateLive 21000 0 []) (ID demo_rumor) 1700000001) /\ Sig demo_rumor = [].
Proof.
  destruct (entry_roundtrip (demo_bill 1 StateLive 21000 0 []) (hex_of "e"%byte) 1700000001 demo_rumor) as (HP & _ & _ & HS).
  - unfold writable. cbn. split_and!; try lia; try done. intros t [= <-]. lia.
  - lia.
  - reflexivity.
  - by split.
Defined.

Lemma parsed_is_valid_witness : exists e, ParseRumor demo_rumor = Some e /\ Validate e = true.
Proof.
  assert (HP : ParseRumor demo_rumor = Some (as_read (demo_bill 1 StateLive 21000 0 []) (ID demo_rumor) 1700000001)) by (vm_compute; reflexivity).
  eexists. split; [exact HP|]. destruct (parsed_is_valid demo_rumor _ HP) as (_ & _ & _ & _ & _ & _ & HV & _). apply HV. reflexivity.
Defined.

(** ** Two devices *)

Definition written : Entry := demo_bill 1 StateLive 21000 10 (bs "r1").
Definition spent_here : Entry := demo_bill 2 StateSpent 21000 20 (bs "r2").
Definition live_there : Entry := demo_bill 2 StateLive 21000 30 (bs "r3").

Lemma resolve_order_free_witness :
  Resolve [written; spent_here; live_there] = Resolve [live_there; written; spent_here; live_there] /\
  winners (Resolve [written; spent_here; live_there]) !! hex_of "b"%byte = Some spent_here /\
  conflicts (Resolve [written; spent_here; live_there]) = [hex_of "b"%byte].
Proof.
  split; [|split; vm_compute; reflexivity].
  destruct (resolve_order_free [written; spent_here; live_there] [live_there; written; spent_here; live_there]) as (_ & _ & _ & H).
  - intros e. rewrite !elem_of_cons. tauto.
  - apply H. intros a b Ha Hb. rewrite !elem_of_cons in Ha, Hb.
    destruct Ha as [->|[->|[->|[]%not_elem_of_nil]]], Hb as [->|[->|[->|[]%not_elem_of_nil]]]; intros HE;
      first [reflexivity | cbn [eRumorID written spent_here live_there demo_bill] in HE; discriminate HE].
Defined.

Lemma next_version_wins_witness :
  winners (Resolve [demo_bill 3 StateLive 21000 40 (bs "r4"); spent_here; live_there]) !! hex_of "b"%byte = Some (demo_bill 3 StateLive 21000 40 (bs "r4")).
Proof.
  destruct (next_version_wins [spent_here; live_there] [demo_bill 3 StateLive 21000 40 (bs "r4"); spent_here; live_there] (demo_bill 3 StateLive 21000 40 (bs "r4"))) as [H _].
  - intros x Hx _. apply elem_of_cons in Hx as [->|Hx]; [cbn; lia|]. apply list_elem_of_singleton in Hx as ->. cbn. lia.
  - reflexivity.
  - reflexivity.
  - intros x. by rewrite elem_of_cons.
  - exact H.
Defined.

Lemma balance_exact_witness :
  Balance [written; spent_here; demo_bill 1 StateLive (2 ^ 64 - 5) 0 []] !! bs "bitcoin" = Some (2 ^ 64 - 1).
Proof.
  rewrite (balance_exact [written; spent_here; demo_bill 1 StateLive (2 ^ 64 - 5) 0 []] (bs "bitcoin")); [reflexivity|].
  intros e He. rewrite !elem_of_cons in He. destruct He as [->|[->|[->|He]]]; [cbn; lia..|]. by apply not_elem_of_nil in He.
Defined.

(** ** A transfer's result *)

Definition transfer : Entry :=
  mkEntry id0 1 [] 21000 (bs "bitcoin") no_identity StatePending 1700000000 [] None [] [] [mkSecret (hex_of "5"%byte) SecretRoleRemainder] id0 1700000030
    (hex_of "b"%byte) (bs "aa") [] [] [] [] [] [] 0 [] [].

Definition remainder_commitment : gostring := Eval vm_compute in default [] (CashCommitment (hex_of "5"%byte)).

Definition remainder : NewBill := mkBill (hex_of "7"%byte) (mkToken (bs "newtoken") None) 9000 cash_identity remainder_commitment 0 false.

Definition transferred : CallResult := mkOutcome NoError [remainder] [] [] [] 1700000100.

Lemma apply_result_exact_witness :
  exists e, ApplyResult transfer [written] transferred 0 = Ok ([e], [WithState transfer StateDone 1700000100; WithState written StateSpent 1700000100]) /\
    bill_kept transfer transferred remainder e.
Proof.
  assert (HA : exists e, ApplyResult transfer [written] transferred 0 = Ok ([e], [WithState transfer StateDone 1700000100; WithState written StateSpent 1700000100])).
  { eexists. vm_compute. reflexivity. }
  destruct HA as [e HA]. exists e. split; [exact HA|].
  destruct (apply_result_exact transfer [written] _ _ transferred 0 HA) as (_ & _ & _ & HK & _).
  destruct (HK e) as (b & Hb & Hk); [by apply list_elem_of_singleton|]. apply list_elem_of_singleton in Hb as ->. exact Hk.
Defined.

(** ** A withdrawal *)

Definition withdraw_receipt_fields : ReceiptFields := mkRF (hex_of "b"%byte) (ID demo_quote) id0 (bs "bc1qdestination") 992000 1700003600.

Definition withdraw_receipt : Event :=
  match NewWithdrawReceiptEvent withdraw_receipt_fields 1700000002 (sign_with sample_key) with Ok ev => ev | _ => sample_event end.

#[local] Instance pocket_json : EventJSON := {|
  MarshalEvent := fun ev => if bool_decide (Kind ev = KindWithdrawReceipt) then [x02] else [x01];
  UnmarshalEvent := fun b => if bool_decide (b = [x02]) then Some withdraw_receipt else if bool_decide (b = [x01]) then Some demo_quote else None;
|}.

Definition withdrawal : Entry :=
  mkEntry id0 1 [] 1000000 (bs "bitcoin") no_identity StatePending 1700000000 [] None [] [] [] id0 1700000030
    (hex_of "b"%byte) (bs "aa") [] (hex_of "9"%byte) (bs "bc1qdestination") [x01] [] [] 0 [] [].

Definition final_payout : Payout :=
  mkPayout PayoutFinal (bs "bc1qdestination") 1000000 8000 992000 1700003600 6 true [x02] [] (hex_of "1"%byte) (Some 0) (Some 6) [] (mkToken [] None).

Definition slice : Entry := demo_bill 4 StateLive 1000000 0 [].

Lemma withdraw_needs_receipt_witness :
  exists writes d, ApplyWithdraw withdrawal slice (Some final_payout) (PubKey demo_quote) 1700000200 = Ok (writes, Some d) /\
    receipt_signed withdrawal final_payout (PubKey demo_quote) /\ eReceipt d = [x02] /\ WithState slice StateSpent 1700000200 ∈ writes.
Proof.
  assert (HA : exists writes d, ApplyWithdraw withdrawal slice (Some final_payout) (PubKey demo_quote) 1700000200 = Ok (writes, Some d)).
  { eexists _, _. vm_compute. reflexivity. }
  destruct HA as (writes & d & HA). exists writes, d. split; [exact HA|].
  destruct (withdraw_needs_receipt withdrawal slice final_payout (PubKey demo_quote) 1700000200 writes (Some d) HA) as (_ & _ & HR & _ & HD & HF & _).
  split; [exact HR|]. destruct (HD d eq_refl) as (_ & _ & _ & HRc). split; [exact HRc|]. destruct (HF eq_refl) as [_ [HS|HS]]; [discriminate HS|exact HS].
Defined.

(** ** Sealed, stored and synced *)

Module SyncDemo.

#[local] Instance stream_lib : Nip44Lib := {|
  hkdf_expand _ _ := repeat x00 76;
  hkdf_extract s _ := s;
  chacha20 _ _ := Some (fun m => m);
  GenerateSharedSecret _ _ := repeat x07 32;
|}.

Lemma stream_laws : Nip44Laws.
Proof. split; [done| |done]. intros k n _ _. by eexists. Qed.

Definition user : gostring := Eval vm_compute in match GetPublicKey sample_key with Ok p => p | _ => [] end.
Definition rnd : WrapRandom := mkRnd (repeat x01 32) (repeat x02 32) (1700000000 * second, Some 5) (1700000000 * second, None).
Definition fresh_key : list byte := repeat x03 32.

(** The JSON of the three events is one byte each, read back as those events. *)
Definition tag_of (ev : Event) : list byte := if Kind ev =? KindPocketEntry then [x01] else if Kind ev =? KindSeal then [x02] else [x03].

Definition to_seal : Entry := demo_bill 1 StateLive 21000 0 [].
Definition the_rumor : Event :=
  Eval vm_compute in match Rumor (with_wrap_key to_seal (Hex.encode fresh_key)) user 1700000001 with Some ev => ev | None => sample_event end.

Definition seal_of (r : Event) : Event :=
  match make_seal (EventJSON0 := {| MarshalEvent := tag_of; UnmarshalEvent := fun _ => None |}) r sample_key (repeat x00 32) (repeat x00 32) rnd with
  | Ok s => s | _ => sample_event end.
Definition the_seal : Event := Eval vm_compute in seal_of the_rumor.

#[local] Instance sync_json : EventJSON := {|
  MarshalEvent := tag_of;
  UnmarshalEvent := fun b => if bool_decide (b = [x01]) then Some the_rumor else if bool_decide (b = [x02]) then Some the_seal else None;
|}.

Definition sealed : Event * Entry :=
  Eval vm_compute in match SealEntry to_seal sample_key fresh_key 1700000001 [1800000000] rnd with Ok p => p | _ => (sample_event, to_seal) end.

Lemma user_is u : GetPublicKey sample_key = Ok u -> u = user.
Proof. vm_compute. congruence. Qed.

Lemma sealed_is : SealEntry to_seal sample_key fresh_key 1700000001 [1800000000] rnd = Ok sealed.
Proof. vm_compute. reflexivity. Qed.

Lemma seals_survive : survives_json to_seal sample_key fresh_key 1700000001 rnd.
Proof.
  intros u rumor ->%user_is HR. assert (HE : Rumor (with_wrap_key to_seal (Hex.encode fresh_key)) user 1700000001 = Some the_rumor) by (vm_compute; reflexivity).
  rewrite HE in HR. injection HR as <-. split; [reflexivity|].
  intros sk pk s HM. assert (HS : make_seal the_rumor sample_key sk pk rnd = Ok the_seal) by (vm_compute; reflexivity). rewrite HS in HM. injection HM as <-. reflexivity.
Qed.

Lemma sealed_reopens_witness : Open (Some sealed.1) sample_key = Ok sealed.2 /\ eAmount sealed.2 = 21000 /\ [bs "p"; user] ∈ Tags sealed.1.
Proof.
  destruct (sealed_reopens to_seal sealed.2 sample_key fresh_key 1700000001 [1800000000] rnd sealed.1 toy64_laws stream_laws) as (HO & _ & _ & _ & _ & _ & _ & _ & u & HU & HT).
  - reflexivity.
  - reflexivity.
  - unfold writable. cbn. split_and!; try lia; try done. intros t [= <-]. lia.
  - lia.
  - exact seals_survive.
  - exact sealed_is.
  - split; [exact HO|]. split; [reflexivity|]. apply user_is in HU as ->. exact HT.
Defined.

(** A relay returns garbage under the wrap's id, another the wrap. *)
Definition garbage : Event := mkEvent (ID sealed.1) user 1700000000 KindGiftWrap [] (bs "?") [].
Definition replies : list (gostring * option (list (option Event))) := [(bs "r1", Some [Some garbage; None]); (bs "r2", None); (bs "r3", Some [Some sealed.1])].

Lemma replies_timed : timed replies.
Proof.
  intros r w (evs & Hin & Hw). unfold replies in Hin. rewrite !elem_of_cons in Hin.
  destruct Hin as [[= -> ->]|[[= ]|[[= -> ->]|Hin]]]; [| |by apply not_elem_of_nil in Hin]; rewrite ?elem_of_cons in Hw.
  - destruct Hw as [[= ->]|[[=]|Hw]]; [cbn; lia|by apply not_elem_of_nil in Hw].
  - destruct Hw as [[= ->]|Hw]; [vm_compute; split; [discriminate|reflexivity]|by apply not_elem_of_nil in Hw].
Qed.


(** Three relays, two of which stored the wrap; one of those answers later. *)
Definition yes : RelayAnswer := mkAnswer true (Some [Some sealed.1]).
Definition no : RelayAnswer := mkAnswer false None.


(** The same rumor sealed through local keys, to another user. *)
Definition friend : gostring := hex_of "1"%byte.

Lemma seal_proves_witness :
  exists seal w p, Seal (fun _ => [x01]) (LocalKey sample_key user) the_rumor friend (sealNonce rnd) (sealClock rnd) = Ok (the_rumor, seal) /\
    Unwrap (LocalKey friend friend) w [user] = Ok (mkOpened (Some w) seal the_rumor user) /\
    Prove (LocalKey friend friend) seal user = Ok p /\ VerifyProof (Some p) user = Ok the_rumor.
Proof.
  assert (HS : Seal (fun _ => [x01]) (LocalKey sample_key user) the_rumor friend (sealNonce rnd) (sealClock rnd) = Ok (the_rumor, the_seal)) by (vm_compute; reflexivity).
  assert (HB : match WrapSeal the_seal friend (hex_of "2"%byte) [] rnd with Ok _ => true | _ => false end = true) by (vm_compute; reflexivity).
  destruct (WrapSeal the_seal friend (hex_of "2"%byte) [] rnd) as [w|?|] eqn:HW; [|discriminate HB|discriminate HB].
  destruct (seal_proves (fun _ => [x01]) sample_key user friend friend (hex_of "2"%byte) the_rumor the_rumor the_seal w (sealNonce rnd) (sealClock rnd) [] rnd [user]
              toy64_laws stream_laws) as (HU & _ & (p & HP & HV) & _).
  - reflexivity.
  - reflexivity.
  - vm_compute. reflexivity.
  - vm_compute. reflexivity.
  - exact HS.
  - exact HW.
  - reflexivity.
  - reflexivity.
  - right. apply list_elem_of_here.
  - exists the_seal, w, p. split; [exact HS|]. split; [exact HU|]. split; [exact HP|exact HV].
Defined.

End SyncDemo.

(** ** A call written ahead *)

Module AheadDemo.

#[local] Existing Instance SyncDemo.stream_lib.

Definition a_call : PendingCall :=
  mkCall id0 1700000030 MethodCashTransfer (hex_of "b"%byte) [] 60 [] [] [] 21000 (bs "bitcoin") [] 0 [] false [] [] [] 0 [] [] [] 0 [].

Definition journal : PocketJournal := mkJournal [] [] ∅ [].

Definition call_entry : Entry :=
  Eval vm_compute in match ahead journal (bs "aa") a_call 1700000000 with Ok p => p.1 | _ => SyncDemo.to_seal end.

Definition call_rumor : Event :=
  Eval vm_compute in match Rumor (with_wrap_key call_entry (Hex.encode SyncDemo.fresh_key)) SyncDemo.user 1700000001 with Some ev => ev | None => sample_event end.
Definition call_seal : Event := Eval vm_compute in SyncDemo.seal_of call_rumor.

#[local] Instance ahead_json : EventJSON := {|
  MarshalEvent := SyncDemo.tag_of;
  UnmarshalEvent := fun b => if bool_decide (b = [x01]) then Some call_rumor else if bool_decide (b = [x02]) then Some call_seal else None;
|}.

Definition wrapped : Event :=
  Eval vm_compute in match SealEntry call_entry sample_key SyncDemo.fresh_key 1700000001 [] SyncDemo.rnd with Ok p => p.1 | _ => sample_event end.

Definition env : WriteEnv :=
  mkEnv 1700000000 SyncDemo.fresh_key 1700000001 SyncDemo.rnd [(bs "r1", mkAnswer true (Some [Some wrapped])); (bs "r2", mkAnswer true (Some [Some wrapped]))] 0 None.

Lemma call_survives e prev : ahead journal (bs "aa") a_call 1700000000 = Ok (e, prev) -> survives_json e sample_key SyncDemo.fresh_key 1700000001 SyncDemo.rnd.
Proof.
  assert (HA : ahead journal (bs "aa") a_call 1700000000 = Ok (call_entry, None)) by (vm_compute; reflexivity).
  rewrite HA. intros [= <- <-] u rumor ->%SyncDemo.user_is HR.
  assert (HE : Rumor (with_wrap_key call_entry (Hex.encode SyncDemo.fresh_key)) SyncDemo.user 1700000001 = Some call_rumor) by (vm_compute; reflexivity).
  rewrite HE in HR. injection HR as <-. split; [reflexivity|].
  intros sk pk s HM. assert (HS : make_seal call_rumor sample_key sk pk SyncDemo.rnd = Ok call_seal) by (vm_compute; reflexivity). rewrite HS in HM. injection HM as <-. reflexivity.
Qed.

Lemma write_ahead_wins_witness :
  exists wrap sealed, Open (Some wrap) sample_key = Ok sealed /\ eW sealed = id0 /\ winners (Resolve [sealed]) !! id0 = Some sealed.
Proof.
  assert (HB : match write_one journal sample_key (bs "aa") a_call env with Ok _ => true | _ => false end = true) by (vm_compute; reflexivity).
  destruct (write_one journal sample_key (bs "aa") a_call env) as [j'|?|] eqn:HW; [|discriminate HB|discriminate HB].
  destruct (write_ahead_wins journal j' sample_key (bs "aa") a_call env toy64_laws SyncDemo.stream_laws) as (wrap & st & sealed & _ & _ & _ & HO & _ & HI & _ & HR).
  - reflexivity.
  - reflexivity.
  - cbn. lia.
  - exact call_survives.
  - intros x [Hx|Hx]; [exfalso; exact (not_elem_of_nil _ Hx)|discriminate Hx].
  - exact HW.
  - exists wrap, sealed. split; [exact HO|]. split; [exact HI|]. apply (HR [sealed]).
    intros x. rewrite list_elem_of_singleton. split; [by left|]. intros [Hx|[Hx|Hx]]; [exact Hx|exfalso; exact (not_elem_of_nil _ Hx)|discriminate Hx].
Defined.

End AheadDemo.
